(* ===== verification/_CoqProject ===== *)
-Q . S2P
Prelude.v
StdMap.v
External.v
Segment.v
MemStore.v
Effects.v
Conc.v
Runtime.v
RtLogic.v
RtReference.v
DeviceSupport.v
TransferPool.v
TransferPoolSpec.v
TransferPoolSafety.v
DeviceKernel.v
TransferContexts.v
StarsSdma.v
StarsSdmaSafety.v
MultiChannel.v
MultiChannelSafety.v
EndpointMatcher.v
Link.v
SpanAllocator.v
SpanAllocatorSpec.v
SpanAllocatorSafety.v
MemPool.v
MemPoolSpec.v
MemPoolSafety.v
Wire.v
Hcomm.v
ClientRt.v
Net.v
CtrlConn.v
NetReference.v
CtrlConnSpec.v
CtrlConnSafety.v
MsgReceiver.v
MsgReceiverSpec.v
MsgReceiverSafety.v
ConnMsg.v
ConnMsgSafety.v
HostRegister.v
Endpoint.v
HcResources.v
EndpointSafety.v
MsgHandler.v
CsServer.v
ServerCalls.v
CsServerInv.v
CsServerRules.v
CsServerSteady.v
CsServerRequests.v
CsServerMoves.v
CsServerDoWait.v
CsServerHandler.v
CsServerOwner.v
CsServerMemory.v
CsServerStart.v
CsServerStop.v
CsServerClose.v
CsServerSafety.v
GlobalConfig.v
RemoteMem.v
ClientState.v
ClientLedger.v
HostTransfer.v
DeviceTransfer.v
ClientMemory.v
CsClient.v
RemoteMemSafety.v
HostTransferSafety.v
DeviceTransferSafety.v
ClientInv.v
ClientMemorySafety.v
CsClientSafety.v
Keeps.v
CsApi.v
CsApiSafety.v
KernelPlan.v
RemoteMemExchange.v
