(* ===== verification/Prelude.v ===== *)
(** * Verification of the HIXL transfer library

    HIXL moves memory between the devices and hosts of several processes.  This
    library models the core of its implementation (paths below are relative to
    src/src/) and proves what makes it correct.  The code is translated function by
    function; C++ names are kept, with the class as a prefix where two classes share
    a name, and a loop or an anonymous function that needs a name of its own gets a
    lower-case one.

    ** The parts and how they interact

    A client registers memory (HixlMemStore, and Segment for the ranges of a remote
    process), matches its endpoints with those of a peer (EndpointMatcher), and
    splits a list of transfers over the handles of a link (MultiChannelDispatcher).
    Below, a handle draws a transfer slot (runtime context, stream, thread, notify,
    error flag) from the TransferPool, which loads the device kernels, and announces
    the slot's context to the device with the synchronisation kernel.  On the
    device, the TransferContextManager keeps those contexts; the batch transfer
    kernel and the UB memory kernel run a transfer under the lock of its context,
    and the exception callback raises the error flag of a context.

    Clients and servers of the CS layer talk over control connections (CtrlMsgPlugin),
    in plain text or over TLS (TlsSession): requests and responses are framed by a
    header, a message receiver cuts the received bytes into messages.  Both sides own
    an Endpoint of the communication library HCOMM, on which memory is registered,
    exported and imported and channels are made.  The server (HixlCSServer) has a
    listener thread that accepts connections and cuts out requests, a queue and a pool
    of threads that answer them (MsgHandler), and tables of clients and channels.  The
    client (HixlCSClient) matches its endpoint with the server's, imports the memory
    the server exports, makes the channel, and moves lists of transfers: from the host
    with a flag for each batch, or by kernels on the device that share a slot of the
    TransferPool.  The C interface (hixl_cs.cc) hands out handles of clients.

    The older llm_datadist library of the repository keeps a pool of registered
    memory (LlmMemPool) for its caches: a page allocator (ScalableAllocator) that
    splits and merges spans of pages, on intrusive lists (Link).

    ** Files

    - Prelude: machine integers, status codes, automation, list lemmas.
      StdMap: [std::map] as an ordered list.  External: checked addition of the
      utilities library, its reference-counted memory block and its status codes.
    - Segment: hixl/common/segment.cc.  MemStore: hixl/cs/hixl_mem_store.cc.
    - EndpointMatcher: hixl/engine/endpoint_matcher.cc and MatchKey of its header.
    - Effects: a monad with state, errors and a history of external calls, its
      weakest preconditions ([wp]) and the calls a computation can make ([emits]).
    - MultiChannel, MultiChannelSafety: hixl/engine/multi_channel_dispatcher.cc.
    - Runtime: the runtime calls of the host library and the checking macros of
      hixl/common/hixl_checker.h.  RtLogic: a resource logic over them.
      RtReference: a runtime that satisfies the laws.
    - DeviceSupport: hixl/common/soc_type.cc, hixl/cs/load_kernel.cc and
      hixl/cs/notify_addr_resolver.cc.
    - TransferPool (the code of hixl/cs/transfer_pool.cc), TransferPoolSpec (its
      lemmas), TransferPoolSafety (its theorems).
    - DeviceKernel: ops/hixl_kernel/hixl_batch_transfer.cc.  TransferContexts:
      transfer_context_manager.cc, hixl_sync_transfer_context.cc and
      task_exception_handler.cc of ops/hixl_kernel, as functions and as an
      interleaving of their atomic steps.
    - StarsSdma, StarsSdmaSafety: ubmem_stars_sdma.cc, ubmem_stars_sdma.h,
      ubmem_stars_rtsq.h, ubmem_rtsq_query.h and ubmem_aicpu_kernel.cc of
      ops/hixl_kernel.
    - Wire: the layout of the messages of hixl/common/ctrl_msg.h.  Net: the calls of
      the operating system and of OpenSSL, what a run sent and received, and the
      laws about them.  NetReference: an operating system that satisfies the laws.
    - CtrlConn (the code of hixl/common/ctrl_msg_plugin.cc and
      hixl/common/tls/tls_session.cc), CtrlConnSpec (what its calls send and receive,
      and that they end), CtrlConnSafety (descriptors and sessions are owned).
    - MsgReceiver (hixl/cs/msg_receiver.cc and a reference parser), MsgReceiverSpec
      (its lemmas).  ConnMsg (hixl/cs/conn_msg_handler.cc, the request of
      hixl/cs/mem_msg_handler.cc and the responses of hixl/cs/hixl_cs_server.cc),
      ConnMsgSafety (the theorems of both), MsgReceiverSafety (a receiver called again
      after failures).
    - Hcomm: the calls of HCOMM, of the runtime, of epoll and of the thread pool that the
      CS layer makes.  ClientRt: those that only its client makes.
    - HostRegister: hixl/cs/host_register_proxy.cc.  Endpoint: hixl/cs/endpoint.cc,
      channel.cc and endpoint_store.cc.  HcResources: what a history leaves alive, and
      the laws of HCOMM.  EndpointSafety: their theorem.
    - Conc: threads as trees of atomic blocks over a shared state, their step relation,
      and a logic of tokens that verifies each program apart under a rely condition.
    - MsgHandler: hixl/cs/msg_handler.cc and hixl/common/optional_aclrt_context.cc.
      CsServer: hixl/cs/hixl_cs_server.cc, every member function a program of Conc.
      ServerCalls: the calls it makes on connections and endpoints.  CsServerInv (the
      invariant), CsServerRules and CsServerSteady (rules for its blocks), then one file
      a part of the code: CsServerRequests (the processors), CsServerMoves and
      CsServerDoWait (the listener thread), CsServerHandler (the handler thread),
      CsServerOwner, CsServerMemory, CsServerStart, CsServerStop and CsServerClose (the
      calls of the owner), CsServerSafety (the theorems).
    - GlobalConfig: hixl/cs/global_config.cc, hixl/common/json_utils.h and
      hixl/common/tls/tls_config.cc, with their theorem.  RemoteMem: the receiving half
      of hixl/cs/mem_msg_handler.cc.
    - ClientState (record update, the fields of hixl/cs/hixl_cs_client.h in five parts,
      and the context guard), HostTransfer, DeviceTransfer, ClientMemory, CsClient: the
      functions of hixl/cs/hixl_cs_client.cc.  CsApi: the client half of
      hixl/cs/hixl_cs.cc, and programs of calls on any number of clients.
    - ClientLedger: a resource logic ([lwp]) over HCOMM handles, pool slots, buffers,
      descriptors and sessions.  RemoteMemSafety, HostTransferSafety,
      DeviceTransferSafety, ClientInv (the invariant of a client and its judgement
      [cwp]), ClientMemorySafety, CsClientSafety, Keeps (state that no method changes),
      CsApiSafety (the theorems).
    - KernelPlan: which kernels a device transfer launches.  RemoteMemExchange: the
      server's list of memory read back by the client.
    - Link: llm_datadist/memory/util/link.h and link_node.h, on an explicit store of
      next and previous pointers.
    - SpanAllocator (the code of allocator/, span/, type/ and util/ under
      llm_datadist/memory), SpanAllocatorSpec (its invariant: the spans tile the
      region in buddy order, and each is on exactly one list), SpanAllocatorSafety
      (allocation and release preserve it).
    - MemPool (llm_datadist/common/llm_mem_pool.cc), MemPoolSpec (the blocks that a
      sequence of calls leaves live), MemPoolSafety (its theorems).

    ** State and effects

    The object of a class is a record with the fields of the class; a member
    function is a function on it, or a computation of the monad of Effects when it
    calls code outside the repository or another process.  Such calls are
    constructors of an operation type ([RtOp], [DevOp], [SdOp], [McOp], [AlOp],
    [NetOp], which has those of [HcOp] and [CliOp]) that an
    environment answers as it likes, from the whole history; what the code relies
    on of the answers is a named hypothesis ([RtLaws], [NetLaws], [HcLaws], [CliLaws],
    [JsonLaws], [NlohmannLaws], [ExportLaws], [HeadLaws], [PointerHashLaws],
    [SecurecLaws], [queries_ok], [cq_drains],
    [heads_ok], [pool_runs_all], [descs_ok], [news_fresh], [layers_available],
    [timing_ok], [others_valid], [news_ok], [abi_ok]), each satisfied by a concrete
    environment in the witnesses.  [HcLaws] and [CliLaws] say that a new handle, buffer
    or slot is not one that is alive; [JsonLaws] that an array has no more elements than
    its text characters; [HeadLaws] that no caller asks a client for a transfer that is
    not its own; [PointerHashLaws] that a set of pointers is walked in some order.
    A public call of a class with a mutex is atomic: the calls on the clients of a
    process are a sequence.  Where the interleaving of threads matters (the device
    contexts, which are locked one by one, the tasks of the thread pool, and the threads
    of the server), the steps and their order are explicit.  Seen from a client, the
    transfer pool is its calls (acquire, release, abort), each slot acquired being alive
    until it goes back; TransferPool proves the pool itself.

    ** What the theorems show

    - Memory: the accepted accesses are exactly those inside contiguous registered
      regions; a converted batch uses, byte for byte, the device mapping of the
      bytes asked for; registration keeps the regions disjoint; a segment answers by
      the union of its ranges.
    - Endpoints: a successful match is a usable link, the best one under the link
      priority; between instances the preference order is exact.
    - Dispatcher: every descriptor is sent once whatever the order of the threads; a
      status check tells the truth; handles are neither lost nor destroyed twice.
    - Pool: after any sequence of calls and for any runtime, the live resources are
      those the fields hold; slots are exclusive; initialisation is atomic; every
      call ends.
    - Device: no transfer runs on a context after its deletion was reported; a
      successful kernel made exactly the requested copies before it raised its flag;
      the UB memory kernel makes the hardware execute exactly the tasks of its
      descriptors, never overwrites a pending queue entry, and reports its status
      once.
    - Connections: whatever is called and whatever fails, descriptors and sessions
      are neither leaked nor used after they were closed; requests arrive as they
      were sent, whatever the pieces in which they travel; a response is received
      exactly or not at all; the receiver computes the reference parser of its input
      inside a bounded buffer.
    - Endpoints of the CS layer: after any sequence of calls and with any results of
      HCOMM, handles are used only while alive, and what is alive is in their tables.
    - Server: in every reachable state, with any clients, requests and interleaving of
      its threads, no thread is stuck, nothing is used after its release, and every
      resource is in a table; once Finalize returned, nothing is open or alive.
    - Client: every program of calls returns and leaves clients that are well-formed and
      together own exactly what is alive; destroying them leaves nothing; a device
      transfer launches exactly the kernels of its plan; the memory list of the server
      is read as it was written; an accepted configuration is in range.
    - Memory pool: the live blocks are inside the region, large enough and disjoint;
      a request is refused only when no run of free pages can serve it; a request
      with a time-out ends; the intrusive lists behave as mathematical lists.
    - Findings: a range can be stored twice in a segment
      ([Segment.Segment_AddRange_duplicate]); concatenation onto a non-empty list
      breaks it ([Link.concat_nonempty_loses_elements]); a release that cannot
      create a layer loses its pages and corrupts the lists later
      ([MemPoolSafety.free_without_layer_loses_pages],
      [MemPoolSafety.free_without_layer_corrupts_lists]); a client can send the server
      the message that the server queues for itself
      ([CsServerSafety.destroy_request_blocks_descriptor]).  The client, as modelled,
      also shows that a failed initialisation of the pool gives back a reference that
      was not taken, and that a host batch is submitted before a free flag is sought.

    ** Fuel and bounds

    Loops over data are structural.  The retry loop of the pool's context
    synchronisation has [TransferPool.sync_rounds] (301) rounds: each round but the
    last sleeps, so its time-out ends it earlier.  The loop over the tasks of a
    descriptor has [StarsSdma.task_fuel] rounds, one more than the quotient of its
    length by the largest task.  The poll of the completion queue is as long as the
    driver has reports; [StarsSdma.cq_drains] says that its fuel covers them.
    [Link.loop_fuel] is above the number of nodes; [SpanAllocator.drop_fuel] above
    the references of a span; the rounds of [MemPool.alloc_until] are above the
    nanoseconds of the time-out, and each waits at least one.
    The timed loops of a connection have [CtrlConn.timed_rounds] rounds, above the
    nanoseconds of the time-out: each round makes a call that takes time.  The loop
    of the receiver is bounded by the bytes received, since a round consumes some.
    The same rounds bound the wait of a synchronous host transfer and the retries of a
    transfer that HCOMM refuses for now (20 minutes).  The loop that launches kernels has
    one round more than the list has descriptors, and each round takes at least one,
    since a batch is never empty ([ClientInv.batch_ok]).
    Theorems about these computations state that they end.  Unsigned arithmetic
    wraps at its width ([u16], [u32], [u64]).

    ** Not modelled

    Logging, the text of JSON (read and written by a library), dynamic loading,
    profiling, the TLS manager with its contexts and its watcher of certificates, the
    server half of the C interface (argument checks before calls of the server), the
    Python bindings, the UB memory host side (the client sees it as calls of its
    engine), the engine objects above the dispatcher with their options and endpoint
    generators, and what llm_datadist builds on its memory pool (caches, links,
    transfer jobs, adxl).  Calls on one client from several threads are serialised by its
    mutex; the destruction of a client during another call on it has no meaning in the
    source either.  A failed parse leaves no configuration in the model, where the
    source leaves a partly written one that its callers drop.  The lists of the page
    allocator are lists of addresses there; Link proves that the pointers implement
    them. *)

From stdpp Require Export base list gmap sorting strings.
From Stdlib Require Export ZArith Lia.

#[global] Open Scope Z_scope.

(** * Machine integers

    C++ unsigned arithmetic is kept on [Z] with the wrap-around written out:
    [u8], [u16], [u32] and [u64] are the value a variable of that width holds. *)
Definition wrap (w x : Z) : Z := x mod 2 ^ w.
Definition u8 (x : Z) : Z := wrap 8 x.
Definition u16 (x : Z) : Z := wrap 16 x.
Definition u32 (x : Z) : Z := wrap 32 x.
Definition u64 (x : Z) : Z := wrap 64 x.

Definition UINT32_MAX : Z := 2 ^ 32 - 1.
Definition UINT64_MAX : Z := 2 ^ 64 - 1.

(** The values of a [w]-bit unsigned variable. *)
Definition is_uint (w x : Z) : Prop := 0 <= x < 2 ^ w.
Abbreviation is_u8 := (is_uint 8).
Abbreviation is_u16 := (is_uint 16).
Abbreviation is_u32 := (is_uint 32).
Abbreviation is_u64 := (is_uint 64).

(** The null pointer is the address 0. *)
Definition nullptr : Z := 0.
Definition is_null (p : Z) : bool := p =? nullptr.

(** * Status codes of include/hixl/hixl_types.h *)
Definition Status : Type := Z.
Definition SUCCESS : Status := 0.
Definition PARAM_INVALID : Status := 103900.
Definition TIMEOUT : Status := 103901.
Definition NOT_CONNECTED : Status := 103902.
Definition ALREADY_CONNECTED : Status := 103903.
Definition NOTIFY_FAILED : Status := 103904.
Definition UNSUPPORTED : Status := 103905.
Definition FAILED : Status := 503900.
Definition RESOURCE_EXHAUSTED : Status := 203900.

(** A [Status] returned where the C++ function is declared [bool]. *)
Definition bool_of_status (s : Status) : bool := negb (s =? 0).

(** The memory kinds of include/hixl/hixl_types.h. *)
Inductive MemType := MEM_DEVICE | MEM_HOST.
#[export] Instance MemType_eq_dec : EqDecision MemType.
Proof. solve_decision. Defined.

(** * Automation *)

(** Arithmetic on the width constants: unfold them and let [lia] finish. *)
Ltac unfold_widths :=
  unfold is_uint, u8, u16, u32, u64, wrap, UINT32_MAX, UINT64_MAX, nullptr in *.

Ltac ulia :=
  unfold_widths;
  change (2 ^ 8) with 256 in *;
  change (2 ^ 16) with 65536 in *;
  change (2 ^ 32) with 4294967296 in *;
  change (2 ^ 64) with 18446744073709551616 in *;
  lia.

(** Case analysis on every boolean test of the goal. *)
Ltac split_ifs :=
  repeat match goal with
         | |- context [if ?b then _ else _] => destruct b eqn:?
         end.

(** The same in the hypothesis [H]. *)
Ltac split_ifs_in H :=
  repeat match type of H with
         | context [if ?b then _ else _] => destruct b eqn:?
         end.

Create HintDb hixl.

(** * Wrap-around lemmas *)
Lemma wrap_small w x : is_uint w x -> wrap w x = x.
Proof. intros H. apply Z.mod_small. exact H. Qed.

Lemma wrap_range w x : 0 <= w -> is_uint w (wrap w x).
Proof. intros H. apply Z.mod_pos_bound. apply Z.pow_pos_nonneg; lia. Qed.

Lemma u64_small x : is_u64 x -> u64 x = x.
Proof. apply wrap_small. Qed.

Lemma u32_small x : is_u32 x -> u32 x = x.
Proof. apply wrap_small. Qed.

#[export] Hint Resolve wrap_small wrap_range u64_small u32_small : hixl.

(** * Lists: partition points

    [std::lower_bound] and [std::upper_bound] on a range partitioned by a
    predicate return the partition point: [span_while p l] is the pair of the
    elements before it and the elements from it on. *)
Fixpoint span_while {A} (p : A -> bool) (l : list A) : list A * list A :=
  match l with
  | [] => ([], [])
  | x :: l' =>
      if p x then let '(a, b) := span_while p l' in (x :: a, b) else ([], x :: l')
  end.

Lemma span_while_app {A} (p : A -> bool) l a b :
  span_while p l = (a, b) -> l = a ++ b.
Proof.
  revert a b; induction l as [|x l IH]; intros a b H; simpl in H.
  - by injection H as <- <-.
  - destruct (p x); [|by injection H as <- <-].
    destruct (span_while p l) as [a' b'] eqn:E. injection H as <- <-.
    simpl. by rewrite (IH a' b').
Qed.

Lemma span_while_prefix {A} (p : A -> bool) l a b :
  span_while p l = (a, b) -> Forall (fun x => p x = true) a.
Proof.
  revert a b; induction l as [|x l IH]; intros a b H; simpl in H.
  - by injection H as <- <-.
  - destruct (p x) eqn:Hp; [|by injection H as <- <-].
    destruct (span_while p l) as [a' b'] eqn:E. injection H as <- <-.
    constructor; [done | by eapply IH].
Qed.

Lemma span_while_head {A} (p : A -> bool) l a b x :
  span_while p l = (a, x :: b) -> p x = false.
Proof.
  revert a; induction l as [|y l IH]; intros a H; simpl in H; [done|].
  destruct (p y) eqn:Hp; [|by injection H as <- <- <-].
  destruct (span_while p l) as [a' b'] eqn:E. injection H as <- ->. by eapply IH.
Qed.

(** * Sorted lists *)
Section Sorted_facts.
Context {A : Type} (R : A -> A -> Prop).

Lemma StronglySorted_app_inv l1 l2 :
  StronglySorted R (l1 ++ l2) ->
  StronglySorted R l1 /\ StronglySorted R l2 /\
  (forall x y, x ∈ l1 -> y ∈ l2 -> R x y).
Proof.
  induction l1 as [|a l1 IH]; simpl.
  - intros H. repeat split; [constructor | done | by intros x y ?%elem_of_nil].
  - intros H. inversion H as [|? ? Hs Hf]; subst. destruct (IH Hs) as (H1 & H2 & H3).
    rewrite Forall_app in Hf. destruct Hf as [Hf1 Hf2].
    repeat split; [by constructor | done |].
    intros x y [-> | Hx]%elem_of_cons Hy; [|by apply H3].
    rewrite Forall_forall in Hf2. by apply Hf2.
Qed.

Lemma StronglySorted_app_intro l1 l2 :
  StronglySorted R l1 -> StronglySorted R l2 ->
  (forall x y, x ∈ l1 -> y ∈ l2 -> R x y) ->
  StronglySorted R (l1 ++ l2).
Proof.
  induction l1 as [|a l1 IH]; simpl; intros H1 H2 H; [done|].
  inversion H1 as [|? ? Hs Hf]; subst. constructor.
  - apply IH; [done | done |]. intros x y Hx Hy. apply H; [by right | done].
  - apply Forall_app; split; [done|]. rewrite Forall_forall. intros y Hy.
    apply H; [by left | done].
Qed.
End Sorted_facts.

Lemma span_while_unique {A} (p : A -> bool) l1 l2 :
  (forall x, x ∈ l1 -> p x = true) ->
  match l2 with [] => True | x :: _ => p x = false end ->
  span_while p (l1 ++ l2) = (l1, l2).
Proof.
  induction l1 as [|x l1 IH]; intros H1 H2; simpl.
  - destruct l2 as [|y l2]; [done|]. simpl. by rewrite H2.
  - rewrite H1 by (by left). rewrite IH; [done| |done]. intros y Hy. apply H1. by right.
Qed.
