(* ===== verification/StdMap.v ===== *)
(** [std::map] as the strictly ordered list of its entries: the sources walk the
    container with [lower_bound], [prev] and [next], so the order is part of the
    model. Keys are ordered by a [KeyOrder] instance (the map's comparator). *)
From S2P Require Import Prelude.

Class KeyOrder (K : Type) := {
  key_ltb : K -> K -> bool;
  key_ltb_irrefl k : key_ltb k k = false;
  key_ltb_trans a b c : key_ltb a b = true -> key_ltb b c = true -> key_ltb a c = true;
  key_ltb_total a b : key_ltb a b = false -> key_ltb b a = false -> a = b
}.

(** Addresses, handles and sizes are compared as integers. *)
#[export] Program Instance Z_KeyOrder : KeyOrder Z := {| key_ltb := Z.ltb |}.
Next Obligation. intros. lia. Qed.
Next Obligation. intros. lia. Qed.
Next Obligation. intros. lia. Qed.

Section StdMap.
Context {K V : Type} `{!KeyOrder K}.

Implicit Types (k : K) (v : V) (m : list (K * V)).

Definition key_lt (a b : K * V) : Prop := key_ltb a.1 b.1 = true.

(** Entries are in strictly increasing key order. *)
Definition std_map_wf m : Prop := StronglySorted key_lt m.

(** Entries before, and from, [lower_bound(k)]. *)
Definition std_lower_bound k m : list (K * V) * list (K * V) :=
  span_while (fun e => key_ltb e.1 k) m.

Definition std_find k m : option V :=
  match (std_lower_bound k m).2 with
  | e :: _ => if key_ltb k e.1 then None else Some e.2
  | [] => None
  end.

(** [m[k] = v]. *)
Definition std_set k v m : list (K * V) :=
  let '(a, b) := std_lower_bound k m in
  match b with
  | e :: b' => if key_ltb k e.1 then a ++ (k, v) :: b else a ++ (k, v) :: b'
  | [] => a ++ [(k, v)]
  end.

Definition std_erase k m : list (K * V) :=
  let '(a, b) := std_lower_bound k m in
  match b with
  | e :: b' => if key_ltb k e.1 then m else a ++ b'
  | [] => m
  end.

Lemma key_lt_trans a b c : key_lt a b -> key_lt b c -> key_lt a c.
Proof. apply key_ltb_trans. Qed.

Lemma key_lt_asym a b : key_lt a b -> key_ltb b.1 a.1 = false.
Proof.
  unfold key_lt. intros H. destruct (key_ltb b.1 a.1) eqn:E; [|done].
  pose proof (key_ltb_trans _ _ _ H E) as Hc. by rewrite key_ltb_irrefl in Hc.
Qed.

(** The partition point: keys before it are smaller, keys from it are not. *)
Lemma std_lower_bound_spec k m a b :
  std_map_wf m -> std_lower_bound k m = (a, b) ->
  m = a ++ b /\ (forall e, e ∈ a -> key_ltb e.1 k = true) /\
  (forall e, e ∈ b -> key_ltb e.1 k = false).
Proof.
  intros Hs H. unfold std_lower_bound in H.
  pose proof (span_while_app _ _ _ _ H) as ->. split; [done|].
  pose proof (span_while_prefix _ _ _ _ H) as Hp. rewrite Forall_forall in Hp.
  split; [done|]. intros e He. destruct b as [|x b]; [by apply elem_of_nil in He|].
  pose proof (span_while_head _ _ _ _ _ H) as Hx. simpl in Hx.
  apply StronglySorted_app_inv in Hs as (_ & Hs & _).
  inversion Hs as [|? ? _ Hf]; subst. rewrite Forall_forall in Hf.
  apply elem_of_cons in He as [-> | He]; [done|]. specialize (Hf e He).
  destruct (key_ltb e.1 k) eqn:E; [|done].
  pose proof (key_ltb_trans _ _ _ Hf E). congruence.
Qed.

Lemma std_find_elem k v m : std_map_wf m -> std_find k m = Some v <-> (k, v) ∈ m.
Proof.
  intros Hs. unfold std_find. destruct (std_lower_bound k m) as [a b] eqn:E. simpl.
  apply std_lower_bound_spec in E as (-> & Ha & Hb); [|done].
  assert (Hna : (k, v) ∉ a) by (intros H%Ha; simpl in H; by rewrite key_ltb_irrefl in H).
  destruct b as [|e b].
  { split; [done|]. rewrite app_nil_r. done. }
  apply StronglySorted_app_inv in Hs as (_ & Hs & _).
  inversion Hs as [|? ? _ Hf]; subst. rewrite Forall_forall in Hf.
  assert (He : key_ltb e.1 k = false) by (apply Hb; by left).
  destruct (key_ltb k e.1) eqn:Ek.
  - split; [done|]. intros [H|[<- | H]%elem_of_cons]%elem_of_app; [done| |].
    + simpl in Ek. by rewrite key_ltb_irrefl in Ek.
    + specialize (Hf _ H). unfold key_lt in Hf; simpl in Hf.
      pose proof (key_ltb_trans _ _ _ Ek Hf) as Hc. by rewrite key_ltb_irrefl in Hc.
  - pose proof (key_ltb_total _ _ Ek He) as ->. destruct e as [k' v']; simpl in *. split.
    + intros [= ->]. apply elem_of_app. right. by left.
    + intros [H|[[= ->] | H]%elem_of_cons]%elem_of_app; [done|done|].
      specialize (Hf _ H). unfold key_lt in Hf; simpl in Hf. by rewrite key_ltb_irrefl in Hf.
Qed.

Lemma std_find_none k m :
  std_map_wf m -> std_find k m = None <-> (forall v, (k, v) ∉ m).
Proof.
  intros Hs. split.
  - intros H v Hin. apply std_find_elem in Hin; [|done]. congruence.
  - intros H. destruct (std_find k m) as [v|] eqn:E; [|done].
    apply std_find_elem in E; [|done]. by destruct (H v).
Qed.

Lemma std_set_elem k v m k' v' :
  std_map_wf m ->
  (k', v') ∈ std_set k v m <-> (k' = k /\ v' = v) \/ (k' <> k /\ (k', v') ∈ m).
Proof.
  intros Hs. unfold std_set. destruct (std_lower_bound k m) as [a b] eqn:E.
  apply std_lower_bound_spec in E as (-> & Ha & Hb); [|done].
  assert (Hak : forall v, (k, v) ∉ a) by (intros w H%Ha; simpl in H; by rewrite key_ltb_irrefl in H).
  apply StronglySorted_app_inv in Hs as (_ & Hs & _).
  destruct b as [|e b].
  { rewrite app_nil_r, elem_of_app, list_elem_of_singleton. split.
    - intros [H|[= -> ->]]; [right|by left]. split; [|done]. by intros ->; apply Hak in H.
    - intros [[-> ->]|[_ H]]; auto. }
  inversion Hs as [|? ? _ Hf]; subst. rewrite Forall_forall in Hf.
  assert (He : key_ltb e.1 k = false) by (apply Hb; by left).
  assert (Hbk : forall w, (k, w) ∉ b).
  { intros w Hw. pose proof (Hf _ Hw) as Hlt. unfold key_lt in Hlt; simpl in Hlt. congruence. }
  destruct (key_ltb k e.1) eqn:Ek.
  - rewrite !elem_of_app, !elem_of_cons. split.
    + intros [H|[[= -> ->]|[<- |H]]]; [right|by left|right|right]; (split; [intros ->|auto]).
      * by apply Hak in H.
      * simpl in Ek. by rewrite key_ltb_irrefl in Ek.
      * by apply Hbk in H.
    + intros [[-> ->]|[_ [H|[H|H]]]]; auto.
  - pose proof (key_ltb_total _ _ Ek He) as Hke. rewrite !elem_of_app, !elem_of_cons. split.
    + intros [H|[[= -> ->]|H]]; [right|by left|right]; (split; [intros ->|auto]).
      * by apply Hak in H.
      * by apply Hbk in H.
    + intros [[-> ->]|[Hne [H|[<- |H]]]]; auto. simpl in Hke. congruence.
Qed.

Lemma std_erase_elem k m k' v' :
  std_map_wf m -> (k', v') ∈ std_erase k m <-> k' <> k /\ (k', v') ∈ m.
Proof.
  intros Hs. unfold std_erase. destruct (std_lower_bound k m) as [a b] eqn:E.
  apply std_lower_bound_spec in E as (-> & Ha & Hb); [|done].
  assert (Hak : forall v, (k, v) ∉ a) by (intros w H%Ha; simpl in H; by rewrite key_ltb_irrefl in H).
  apply StronglySorted_app_inv in Hs as (_ & Hs & _).
  destruct b as [|e b].
  { rewrite app_nil_r. split; [|by intros [_ ?]]. intros H; split; [|done]. by intros ->; apply Hak in H. }
  inversion Hs as [|? ? _ Hf]; subst. rewrite Forall_forall in Hf.
  assert (He : key_ltb e.1 k = false) by (apply Hb; by left).
  assert (Hbk : forall w, (k, w) ∉ b).
  { intros w Hw. pose proof (Hf _ Hw) as Hlt. unfold key_lt in Hlt; simpl in Hlt. congruence. }
  rewrite !elem_of_app, !elem_of_cons. destruct (key_ltb k e.1) eqn:Ek; rewrite !elem_of_app, ?elem_of_cons.
  - split; [|by intros [_ ?]]. intros H. split; [|done]. intros ->.
    destruct H as [H|[<- |H]]; [by apply Hak in H| |by apply Hbk in H].
    simpl in Ek. by rewrite key_ltb_irrefl in Ek.
  - pose proof (key_ltb_total _ _ Ek He) as Hke. split.
    + intros [H|H]; (split; [intros ->|auto]); [by apply Hak in H|by apply Hbk in H].
    + intros [Hne [H|[<- |H]]]; auto. simpl in Hke. congruence.
Qed.

Lemma std_set_wf k v m : std_map_wf m -> std_map_wf (std_set k v m).
Proof.
  intros Hs. unfold std_set. destruct (std_lower_bound k m) as [a b] eqn:E.
  apply std_lower_bound_spec in E as (-> & Ha & Hb); [|done].
  apply StronglySorted_app_inv in Hs as (Hsa & Hsb & Hab).
  destruct b as [|e b].
  { apply StronglySorted_app_intro; [done|by repeat constructor|].
    intros x y Hx ->%list_elem_of_singleton. by apply Ha. }
  inversion Hsb as [|? ? Hsb' Hf]; subst. pose proof Hf as Hf'. rewrite Forall_forall in Hf'.
  assert (He : key_ltb e.1 k = false) by (apply Hb; by left).
  destruct (key_ltb k e.1) eqn:Ek; (apply StronglySorted_app_intro; [done| |]).
  - constructor; [done|]. constructor; [done|]. rewrite Forall_forall. intros x Hx.
    eapply key_lt_trans; [|by apply Hf']. done.
  - intros x y Hx [-> |Hy]%elem_of_cons; [by apply Ha|by apply Hab].
  - pose proof (key_ltb_total _ _ Ek He) as ->. constructor; done.
  - intros x y Hx [-> |Hy]%elem_of_cons; [by apply Ha|]. apply Hab; [done|by right].
Qed.

Lemma std_erase_wf k m : std_map_wf m -> std_map_wf (std_erase k m).
Proof.
  intros Hs. unfold std_erase. destruct (std_lower_bound k m) as [a b] eqn:E.
  apply std_lower_bound_spec in E as (-> & Ha & Hb); [|done].
  destruct b as [|e b]; [done|]. destruct (key_ltb k e.1); [done|].
  apply StronglySorted_app_inv in Hs as (Hsa & Hsb & Hab). inversion Hsb; subst.
  apply StronglySorted_app_intro; [done|done|]. intros x y Hx Hy. apply Hab; [done|by right].
Qed.

Lemma std_map_wf_nil : std_map_wf [].
Proof. constructor. Qed.

(** ** The entries, in any order *)
Lemma std_erase_perm k v m : std_map_wf m -> std_find k m = Some v -> m ≡ₚ (k, v) :: std_erase k m.
Proof.
  intros Hs. unfold std_find, std_erase. destruct (std_lower_bound k m) as [a b] eqn:E. cbn [snd].
  apply std_lower_bound_spec in E as (-> & _ & Hb); [|done]. destruct b as [|e b]; [done|].
  assert (He : key_ltb e.1 k = false) by (apply Hb; by left).
  destruct (key_ltb k e.1) eqn:Ek; [done|]. intros [= <-]. pose proof (key_ltb_total _ _ Ek He) as ->.
  destruct e as [k' v']; cbn [fst snd]. symmetry. apply Permutation_middle.
Qed.

Lemma std_erase_none k m : std_find k m = None -> std_erase k m = m.
Proof.
  unfold std_find, std_erase. destruct (std_lower_bound k m) as [a [|e b]]; [done|]. cbn [snd].
  by destruct (key_ltb k e.1).
Qed.

Lemma std_set_perm k v m : std_map_wf m -> std_set k v m ≡ₚ (k, v) :: std_erase k m.
Proof.
  intros Hs. unfold std_set, std_erase. destruct (std_lower_bound k m) as [a b] eqn:E.
  apply std_lower_bound_spec in E as (-> & _ & _); [|done]. destruct b as [|e b]; [|destruct (key_ltb k e.1)].
  - rewrite app_nil_r. symmetry. apply Permutation_cons_append.
  - symmetry. apply Permutation_middle.
  - symmetry. apply Permutation_middle.
Qed.

(** What was just stored is found, whatever the table. *)
Lemma std_find_set_same k v m : std_find k (std_set k v m) = Some v.
Proof.
  unfold std_find, std_set, std_lower_bound. destruct (span_while _ m) as [a b] eqn:E.
  pose proof (span_while_prefix _ _ _ _ E) as Hp. rewrite Forall_forall in Hp.
  assert (Hs : forall b', span_while (fun e => key_ltb e.1 k) (a ++ (k, v) :: b') = (a, (k, v) :: b')).
  { intros b'. apply span_while_unique; [done|]. apply key_ltb_irrefl. }
  destruct b as [|e b]; [|destruct (key_ltb k e.1)]; rewrite Hs; cbn [fst snd]; by rewrite key_ltb_irrefl.
Qed.

Lemma std_find_set `{!EqDecision K} k v m k' :
  std_map_wf m -> std_find k' (std_set k v m) = if decide (k' = k) then Some v else std_find k' m.
Proof.
  intros Hs. destruct (decide (k' = k)) as [->|Hne].
  - apply std_find_elem; [by apply std_set_wf|]. apply std_set_elem; [done|]. by left.
  - destruct (std_find k' m) as [v'|] eqn:E.
    + apply std_find_elem; [by apply std_set_wf|]. apply std_set_elem; [done|]. right. split; [done|]. by apply std_find_elem.
    + apply std_find_none; [by apply std_set_wf|]. intros w Hw. apply std_set_elem in Hw as [[? _]|[_ Hw]]; [done| |done].
      by apply (proj1 (std_find_none k' m Hs) E w).
Qed.

Lemma std_find_erase `{!EqDecision K} k m k' :
  std_map_wf m -> std_find k' (std_erase k m) = if decide (k' = k) then None else std_find k' m.
Proof.
  intros Hs. destruct (decide (k' = k)) as [->|Hne].
  - apply std_find_none; [by apply std_erase_wf|]. intros w Hw. apply std_erase_elem in Hw as [[] _]; done.
  - destruct (std_find k' m) as [v'|] eqn:E.
    + apply std_find_elem; [by apply std_erase_wf|]. apply std_erase_elem; [done|]. split; [done|]. by apply std_find_elem.
    + apply std_find_none; [by apply std_erase_wf|]. intros w Hw. apply std_erase_elem in Hw as [_ Hw]; [|done].
      by apply (proj1 (std_find_none k' m Hs) E w).
Qed.
End StdMap.

#[export] Hint Resolve std_set_wf std_erase_wf std_map_wf_nil : hixl.
Arguments std_map_wf {K V _} m.
Arguments key_lt {K V _} a b.
