(* ===== verification/External.v ===== *)
(** Interfaces of the code the repository calls but does not contain. Each is an
    operations class, an argument of the definitions that use it, and a laws
    class holding the documented behaviour the theorems rely on; a reference
    instance shows that the laws can hold. *)
From S2P Require Import Prelude.

(** ** [ge::AddOverflow] of utils/extern_math_util.h

    [AddOverflow a b] is [None] when the checked 64-bit addition reports an
    overflow, and [Some sum] with the stored sum otherwise. *)
Class GeMath := { AddOverflow : Z -> Z -> option Z }.

Class GeMathLaws (G : GeMath) : Prop := {
  AddOverflow_spec a b :
    is_u64 a -> is_u64 b ->
    AddOverflow a b = if a + b <=? UINT64_MAX then Some (a + b) else None
}.

Definition ge_math_ref : GeMath :=
  {| AddOverflow a b := if a + b <=? UINT64_MAX then Some (a + b) else None |}.

#[export] Instance ge_math_ref_laws : GeMathLaws ge_math_ref.
Proof. constructor. done. Qed.

(** ** [ge::MemBlock] of ge/ge_allocator.h

    A block of memory with an address, a size and a reference count.  [mb_new] is
    the constructor, [mb_release] is [Free()]: it gives up one reference, and its
    boolean says whether it handed the block to [ge::Allocator::Free]. *)
Class MemBlockApi := {
  MemBlock : Type;
  mb_new : Z -> Z -> MemBlock;
  mb_addr : MemBlock -> Z;
  mb_count : MemBlock -> Z;
  mb_add : MemBlock -> MemBlock;
  mb_sub : MemBlock -> MemBlock;
  mb_set_size : Z -> MemBlock -> MemBlock;
  mb_release : MemBlock -> MemBlock * bool
}.

(** A new block has one reference; the last reference hands the block back. *)
Class MemBlockLaws (B : MemBlockApi) : Prop := {
  mb_new_addr a n : mb_addr (mb_new a n) = a;
  mb_new_count a n : mb_count (mb_new a n) = 1;
  mb_add_addr b : mb_addr (mb_add b) = mb_addr b;
  mb_add_count b : mb_count b = 0 -> mb_count (mb_add b) = 1;
  mb_sub_addr b : mb_addr (mb_sub b) = mb_addr b;
  mb_sub_count b : 0 < mb_count b -> mb_count (mb_sub b) = mb_count b - 1;
  mb_set_size_addr n b : mb_addr (mb_set_size n b) = mb_addr b;
  mb_set_size_count n b : mb_count (mb_set_size n b) = mb_count b;
  mb_release_addr b : mb_addr (mb_release b).1 = mb_addr b;
  mb_release_last b : mb_count b = 1 -> mb_count (mb_release b).1 = 0 /\ (mb_release b).2 = true
}.

Record RefBlock := { rb_addr : Z; rb_size : Z; rb_count : Z }.

Definition mem_block_ref : MemBlockApi := {|
  MemBlock := RefBlock;
  mb_new a n := {| rb_addr := a; rb_size := n; rb_count := 1 |};
  mb_addr := rb_addr;
  mb_count := rb_count;
  mb_add b := {| rb_addr := rb_addr b; rb_size := rb_size b; rb_count := rb_count b + 1 |};
  mb_sub b := {| rb_addr := rb_addr b; rb_size := rb_size b; rb_count := rb_count b - 1 |};
  mb_set_size n b := {| rb_addr := rb_addr b; rb_size := n; rb_count := rb_count b |};
  mb_release b := ({| rb_addr := rb_addr b; rb_size := rb_size b; rb_count := Z.max 0 (rb_count b - 1) |},
                   rb_count b =? 1)
|}.

#[export] Instance mem_block_ref_laws : MemBlockLaws mem_block_ref.
Proof. constructor; intros; simpl in *; try done; lia. Qed.

(** ** Status codes of ge_common/ge_api_error_codes.h; [ge::SUCCESS] is 0. *)
Class GeStatus := { ge_FAILED : Status; ge_LLM_PARAM_INVALID : Status }.
Class GeStatusLaws (G : GeStatus) : Prop := {
  ge_FAILED_error : ge_FAILED <> 0;
  ge_LLM_PARAM_INVALID_error : ge_LLM_PARAM_INVALID <> 0
}.
Definition ge_status_ref : GeStatus := {| ge_FAILED := 1; ge_LLM_PARAM_INVALID := 2 |}.
#[export] Instance ge_status_ref_laws : GeStatusLaws ge_status_ref.
Proof. by constructor. Qed.

(** ** [memmove_s] and [memcpy_s] of securec.h

    [memmove_s dest dest_max src count] is the [errno_t] with what the bytes at the
    destination become; [src] are the bytes from the source address on, which for
    [memmove_s] may overlap the destination. *)
Class Securec := {
  memmove_s : list Z -> Z -> list Z -> Z -> Z * list Z;
  memcpy_s : list Z -> Z -> list Z -> Z -> Z * list Z
}.

Definition copied (dest src : list Z) (count : Z) : list Z :=
  take (Z.to_nat count) src ++ drop (Z.to_nat count) dest.
Definition copy_fits (dest : list Z) (dest_max : Z) (src : list Z) (count : Z) : Prop :=
  0 < count <= dest_max /\ dest_max <= 2 ^ 31 - 1 /\
  dest_max = Z.of_nat (length dest) /\ count <= Z.of_nat (length src).

(** A move writes inside the destination, whatever its status. *)
Class SecurecLaws (S : Securec) : Prop := {
  memmove_s_length dest dest_max src count :
    dest_max = Z.of_nat (length dest) -> length (memmove_s dest dest_max src count).2 = length dest;
  memmove_s_ok dest dest_max src count :
    copy_fits dest dest_max src count -> memmove_s dest dest_max src count = (0, copied dest src count);
  memcpy_s_ok dest dest_max src count :
    copy_fits dest dest_max src count -> memcpy_s dest dest_max src count = (0, copied dest src count)
}.

Definition copy_fits_b (dest : list Z) (dest_max : Z) (src : list Z) (count : Z) : bool :=
  (0 <? count) && (count <=? dest_max) && (dest_max <=? 2 ^ 31 - 1) &&
  (dest_max =? Z.of_nat (length dest)) && (count <=? Z.of_nat (length src)).
Definition copy_ref (dest : list Z) (dest_max : Z) (src : list Z) (count : Z) : Z * list Z :=
  if copy_fits_b dest dest_max src count then (0, copied dest src count) else (22, dest).
Definition securec_ref : Securec := {| memmove_s := copy_ref; memcpy_s := copy_ref |}.

Lemma copy_fits_spec dest dest_max src count :
  copy_fits_b dest dest_max src count = true <-> copy_fits dest dest_max src count.
Proof. unfold copy_fits_b, copy_fits. rewrite !andb_true_iff, !Z.ltb_lt, !Z.leb_le, Z.eqb_eq. tauto. Qed.

#[export] Instance securec_ref_laws : SecurecLaws securec_ref.
Proof.
  constructor; intros dest dest_max src count; cbn [memmove_s memcpy_s securec_ref]; unfold copy_ref.
  - intros _. destruct (copy_fits_b _ _ _ _) eqn:E; [|done]. apply copy_fits_spec in E as (H1 & _ & H2 & H3).
    cbn [snd]. unfold copied. rewrite length_app, length_take, length_drop. lia.
  - intros ->%copy_fits_spec. done.
  - intros ->%copy_fits_spec. done.
Qed.

(** ** Sizes of the request structures, which embed a descriptor of the HCOMM headers *)
Class HcommAbi := { sizeof_MatchEndpointReq : nat; sizeof_CreateChannelReq : nat }.
