(* ===== verification/Segment.v ===== *)
(** Registered address ranges: src/hixl/common/segment.cc. *)
From S2P Require Import Prelude.

(** ** Data *)
Record Segment := mkSegment {
  ranges_ : list (Z * Z);      (* vector of (start, end), ordered by start *)
  mem_type_ : MemType
}.

Definition Segment_GetMemType (sg : Segment) : MemType := mem_type_ sg.
Definition Segment_IsEmpty (sg : Segment) : bool :=
  match ranges_ sg with [] => true | _ => false end.

(** [std::upper_bound(ranges_, start, val < range.first)]. *)
Definition ranges_upper_bound (start : Z) (rs : list (Z * Z)) : list (Z * Z) * list (Z * Z) :=
  span_while (fun r => negb (start <? r.1)) rs.

(** [std::lower_bound(ranges_, start, range.first < val)]. *)
Definition ranges_lower_bound (start : Z) (rs : list (Z * Z)) : list (Z * Z) * list (Z * Z) :=
  span_while (fun r => r.1 <? start) rs.

Definition range_eqb (r : Z * Z) (start end_ : Z) : bool :=
  (r.1 =? start) && (r.2 =? end_).

(** ** Operations *)
Definition Segment_AddRange (sg : Segment) (start len : Z) : Status * Segment :=
  if UINT64_MAX - start <? len then (PARAM_INVALID, sg)
  else
    let end_ := u64 (start + len) in
    let '(before, from_it) := ranges_upper_bound start (ranges_ sg) in
    if match last before with Some r => range_eqb r start end_ | None => false end
    then (SUCCESS, sg)
    else if match from_it with r :: _ => range_eqb r start end_ | [] => false end
    then (SUCCESS, sg)
    else (SUCCESS, mkSegment (before ++ (start, end_) :: from_it) (mem_type_ sg)).

(** The erase loop of [RemoveRange]: walk the ranges that start at [start] and
    erase the first one that ends at [end_]. *)
Fixpoint erase_range (start end_ : Z) (rs : list (Z * Z)) : list (Z * Z) :=
  match rs with
  | [] => []
  | r :: rs' =>
      if r.1 =? start
      then if r.2 =? end_ then rs' else r :: erase_range start end_ rs'
      else rs
  end.

Definition Segment_RemoveRange (sg : Segment) (start end_ : Z) : Segment :=
  let '(before, from_it) := ranges_lower_bound start (ranges_ sg) in
  match from_it with
  | [] => sg
  | r :: _ =>
      if start <? r.1 then sg
      else mkSegment (before ++ erase_range start end_ from_it) (mem_type_ sg)
  end.

(** First loop of [Contains], over the ranges with [range.first <= start] from
    the last one backwards: [inl true] is the early return, [inr] the values of
    [max_reached] and [covered_start] when the loop ends. *)
Fixpoint contains_left (start end_ : Z) (rs : list (Z * Z)) (max_reached : Z)
    (covered_start : bool) : bool + (Z * bool) :=
  match rs with
  | [] => inr (max_reached, covered_start)
  | r :: rs' =>
      if start <? r.2 then
        let max_reached := if max_reached <? r.2 then r.2 else max_reached in
        if end_ <=? max_reached then inl true
        else contains_left start end_ rs' max_reached true
      else contains_left start end_ rs' max_reached covered_start
  end.

(** Second loop of [Contains], over the ranges that start after [start]. *)
Fixpoint contains_right (end_ : Z) (rs : list (Z * Z)) (max_reached : Z) : bool :=
  match rs with
  | [] => end_ <=? max_reached
  | r :: rs' =>
      if max_reached <? r.1 then end_ <=? max_reached
      else if max_reached <? r.2 then
             if end_ <=? r.2 then true else contains_right end_ rs' r.2
           else contains_right end_ rs' max_reached
  end.

Definition Segment_Contains (sg : Segment) (start end_ : Z) : bool :=
  if end_ <? start then false
  else
    let '(before, from_it) := ranges_upper_bound start (ranges_ sg) in
    match contains_left start end_ (rev before) start false with
    | inl b => b
    | inr (max_reached, covered_start) =>
        if negb covered_start then false else contains_right end_ from_it max_reached
    end.

(** ** Invariant and abstract view *)

(** Order of the vector: by range start. *)
Definition range_le (a b : Z * Z) : Prop := a.1 <= b.1.

(** The vector is ordered by range start. *)
Definition Segment_sorted (sg : Segment) : Prop :=
  StronglySorted range_le (ranges_ sg).

(** Byte [b] lies in some registered range. *)
Definition covered (rs : list (Z * Z)) (b : Z) : Prop :=
  exists r, r ∈ rs /\ r.1 <= b < r.2.

Lemma covered_app rs1 rs2 b : covered (rs1 ++ rs2) b <-> covered rs1 b \/ covered rs2 b.
Proof. unfold covered. set_solver. Qed.

Lemma covered_cons r rs b : covered (r :: rs) b <-> (r.1 <= b < r.2) \/ covered rs b.
Proof. unfold covered. set_solver. Qed.

Lemma covered_nil b : covered [] b <-> False.
Proof. unfold covered. set_solver. Qed.

Lemma covered_rev rs b : covered (rev rs) b <-> covered rs b.
Proof. unfold covered. setoid_rewrite list_elem_of_In. setoid_rewrite <- in_rev. done. Qed.

(** What [Contains] promises: every byte of [start, end_) is registered, and so
    is [start] itself when the interval is empty. *)
Definition interval_covered (rs : list (Z * Z)) (start end_ : Z) : Prop :=
  start <= end_ /\ forall b, start <= b < Z.max end_ (start + 1) -> covered rs b.

(** ** Ordering is preserved *)
Lemma erase_range_sublist start end_ rs : erase_range start end_ rs `sublist_of` rs.
Proof.
  induction rs as [|r rs IH]; simpl; [constructor|]. split_ifs; try done.
  - by constructor.
  - by apply sublist_skip.
Qed.

Lemma StronglySorted_sublist {A} (R : A -> A -> Prop) l1 l2 :
  l1 `sublist_of` l2 -> StronglySorted R l2 -> StronglySorted R l1.
Proof.
  induction 1 as [|x l1 l2 Hsub IH|x l1 l2 Hsub IH]; intros H; [done | |];
    inversion H as [|? ? Hs Hf]; subst; [|by apply IH].
  constructor; [by apply IH|]. rewrite Forall_forall in Hf |- *. intros y Hy.
  apply Hf. by eapply elem_of_sublist.
Qed.

Lemma ranges_upper_bound_spec start rs before from_it :
  StronglySorted range_le rs ->
  ranges_upper_bound start rs = (before, from_it) ->
  rs = before ++ from_it /\
  (forall r, r ∈ before -> r.1 <= start) /\ (forall r, r ∈ from_it -> start < r.1).
Proof.
  intros Hs H. unfold ranges_upper_bound in H.
  pose proof (span_while_app _ _ _ _ H) as ->. split; [done|].
  pose proof (span_while_prefix _ _ _ _ H) as Hp. rewrite Forall_forall in Hp. split.
  - intros r Hr. specialize (Hp r Hr). simpl in Hp. lia.
  - intros r Hr. destruct from_it as [|x l]; [by apply elem_of_nil in Hr|].
    pose proof (span_while_head _ _ _ _ _ H) as Hx. simpl in Hx.
    apply StronglySorted_app_inv in Hs as (_ & Hs & _).
    inversion Hs as [|? ? _ Hf]; subst. rewrite Forall_forall in Hf.
    apply elem_of_cons in Hr as [-> | Hr]; [lia|]. specialize (Hf r Hr). unfold range_le in Hf; simpl in Hf; lia.
Qed.

(** Registering and unregistering ranges keeps the vector ordered by start,
    which is what its binary searches rely on. *)
Theorem Segment_ops_sorted sg start len end_ :
  Segment_sorted sg ->
  Segment_sorted (Segment_AddRange sg start len).2 /\
  Segment_sorted (Segment_RemoveRange sg start end_).
Proof.
  unfold Segment_sorted. intros Hs. split.
  - unfold Segment_AddRange. destruct (_ <? len); [done|].
    destruct (ranges_upper_bound start (ranges_ sg)) as [before from_it] eqn:E.
    apply ranges_upper_bound_spec in E as (Hrs & Hb & Hf); [|done].
    rewrite Hrs in Hs. apply StronglySorted_app_inv in Hs as (H1 & H2 & H12).
    split_ifs; simpl; rewrite ?Hrs; try by apply StronglySorted_app_intro.
    apply StronglySorted_app_intro; [done | |].
    + constructor; [done|]. rewrite Forall_forall. intros r Hr. specialize (Hf r Hr). unfold range_le; simpl; lia.
    + intros x y Hx [-> | Hy]%elem_of_cons; [by apply Hb | by apply H12].
  - unfold Segment_RemoveRange. destruct (ranges_lower_bound start (ranges_ sg)) as [b f] eqn:E.
    destruct f as [|r f]; [done|]. destruct (start <? r.1); [done|]. simpl.
    unfold ranges_lower_bound in E. apply span_while_app in E. rewrite E in Hs.
    eapply StronglySorted_sublist; [|exact Hs].
    apply sublist_app; [done | apply (erase_range_sublist start end_ (r :: f))].
Qed.

(** ** [Contains] decides coverage *)
Lemma contains_left_spec start end_ (R rs : list (Z * Z)) m (c : bool) :
  (forall r, r ∈ rs -> r.1 <= start) -> (forall r, r ∈ rs -> r ∈ R) ->
  start <= m -> (forall b, start <= b < m -> covered R b) ->
  (if c then start < m else m = start) ->
  match contains_left start end_ rs m c with
  | inl b => b = true /\ (forall b, start <= b < Z.max end_ (start + 1) -> covered R b)
  | inr (m', c') =>
      m <= m' /\ (forall b, start <= b < m' -> covered R b) /\
      (if c' then start < m' else m' = start) /\
      (forall r, r ∈ rs -> r.2 <= m')
  end.
Proof.
  revert m c. induction rs as [|r rs IH]; intros m c Hle HR Hm Hcov Hc; simpl.
  { repeat split; try done. by intros r ?%elem_of_nil. }
  assert (Hr1 : r.1 <= start) by (apply Hle; by left).
  assert (HrR : r ∈ R) by (apply HR; by left).
  assert (Hle' : forall r0, r0 ∈ rs -> r0.1 <= start) by (intros; apply Hle; by right).
  assert (HR' : forall r0, r0 ∈ rs -> r0 ∈ R) by (intros; apply HR; by right).
  destruct (start <? r.2) eqn:E2.
  - set (m1 := if m <? r.2 then r.2 else m).
    assert (Hm1 : m <= m1 /\ r.2 <= m1 /\ start < m1) by (unfold m1; destruct (m <? r.2) eqn:?; lia).
    assert (Hcov1 : forall b, start <= b < m1 -> covered R b).
    { intros b Hb. destruct (decide (b < m)); [apply Hcov; lia|].
      exists r. unfold m1 in Hb. destruct (m <? r.2); split; try done; lia. }
    destruct (end_ <=? m1) eqn:Ee.
    + split; [done|]. intros b Hb. apply Hcov1. lia.
    + specialize (IH m1 true Hle' HR' ltac:(lia) Hcov1 (proj2 (proj2 Hm1))).
      destruct (contains_left start end_ rs m1 true) as [|[m' c']]; [done|].
      destruct IH as (H1 & H2 & H3 & H4). repeat split; [lia|done|done|].
      intros r0 [-> | H0]%elem_of_cons; [lia | by apply H4].
  - specialize (IH m c Hle' HR' Hm Hcov Hc).
    destruct (contains_left start end_ rs m c) as [|[m' c']]; [done|].
    destruct IH as (H1 & H2 & H3 & H4). repeat split; [lia|done|done|].
    intros r0 [-> | H0]%elem_of_cons; [lia | by apply H4].
Qed.

Lemma contains_right_spec start end_ (R rs : list (Z * Z)) m :
  StronglySorted range_le rs ->
  (forall r, r ∈ rs -> r ∈ R) ->
  start < m -> (forall b, start <= b < m -> covered R b) ->
  (forall r, r ∈ R -> r ∈ rs \/ r.2 <= m) ->
  contains_right end_ rs m = true <->
  (forall b, start <= b < Z.max end_ (start + 1) -> covered R b).
Proof.
  revert m. induction rs as [|r rs IH]; intros m Hs HR Hm Hcov Hrest; simpl.
  { split; [intros He b Hb; apply Hcov; lia|].
    intros H. destruct (end_ <=? m) eqn:He; [done|].
    destruct (H m) as (r & Hr & Hb); [lia|].
    destruct (Hrest r Hr) as [?%elem_of_nil|]; [done | lia]. }
  inversion Hs as [|? ? Hs' Hf]; subst. rewrite Forall_forall in Hf.
  assert (HR' : forall r0, r0 ∈ rs -> r0 ∈ R) by (intros; apply HR; by right).
  assert (HrR : r ∈ R) by (apply HR; by left).
  destruct (m <? r.1) eqn:E1.
  { split; [intros He b Hb; apply Hcov; lia|].
    intros H. destruct (end_ <=? m) eqn:He; [done|].
    destruct (H m) as (r0 & Hr0 & Hb); [lia|].
    destruct (Hrest r0 Hr0) as [[-> | Hin]%elem_of_cons|]; [lia| |lia].
    specialize (Hf r0 Hin). unfold range_le in Hf; simpl in Hf; lia. }
  destruct (m <? r.2) eqn:E2.
  - assert (Hcov' : forall b, start <= b < r.2 -> covered R b).
    { intros b Hb. destruct (decide (b < m)); [apply Hcov; lia|]. exists r. split; [done|lia]. }
    destruct (end_ <=? r.2) eqn:E3.
    + split; [|done]. intros _ b Hb. apply Hcov'. lia.
    + apply IH; try done; [lia|]. intros r0 Hr0.
      destruct (Hrest r0 Hr0) as [[-> | Hin]%elem_of_cons|]; [right; lia|by left|right; lia].
  - apply IH; try done. intros r0 Hr0.
    destruct (Hrest r0 Hr0) as [[-> | Hin]%elem_of_cons|]; [right; lia|by left|right; lia].
Qed.

(** C36: on an ordered vector, [Contains(start, end)] answers true exactly when
    every byte of the interval lies in some registered range (overlapping,
    nested and touching ranges included), and false for an inverted interval. *)
Theorem Segment_Contains_spec sg start end_ :
  Segment_sorted sg ->
  Segment_Contains sg start end_ = true <-> interval_covered (ranges_ sg) start end_.
Proof.
  unfold Segment_sorted, Segment_Contains, interval_covered. intros Hs.
  destruct (end_ <? start) eqn:E0; [split; [done|lia]|].
  destruct (ranges_upper_bound start (ranges_ sg)) as [before from_it] eqn:E.
  apply ranges_upper_bound_spec in E as (Hrs & Hb & Hf); [|done].
  pose proof (contains_left_spec start end_ (ranges_ sg) (rev before) start false) as HL.
  assert (Hin : forall r, r ∈ rev before <-> r ∈ before).
  { intros r. by rewrite !list_elem_of_In, <- in_rev. }
  specialize (HL ltac:(intros r Hr; apply Hb; by apply Hin)
                 ltac:(intros r Hr; rewrite Hrs; apply elem_of_app; left; by apply Hin)
                 ltac:(lia) ltac:(lia) eq_refl).
  destruct (contains_left start end_ (rev before) start false) as [b|[m' c']].
  { destruct HL as [-> HL]. split; [split; [lia|done] | done]. }
  destruct HL as (H1 & H2 & H3 & H4). destruct c'; simpl.
  - rewrite (contains_right_spec start end_ (ranges_ sg)); try done.
    + split; [split; [lia|done] | by intros [_ ?]].
    + rewrite Hrs in Hs. by apply StronglySorted_app_inv in Hs as (_ & ? & _).
    + intros r Hr. rewrite Hrs. apply elem_of_app. by right.
    + intros r Hr. rewrite Hrs in Hr. apply elem_of_app in Hr as [Hr|Hr]; [|by left].
      right. apply H4. by apply Hin.
  - split; [done|]. intros [_ H]. destruct (H start) as (r & Hr & Hbd); [lia|].
    rewrite Hrs in Hr. apply elem_of_app in Hr as [Hr|Hr].
    + apply Hin in Hr. specialize (H4 r Hr). lia.
    + specialize (Hf r Hr). lia.
Qed.

(** ** Functional behaviour of registration *)
Lemma erase_range_perm start end_ rs :
  StronglySorted range_le rs -> (forall r, r ∈ rs -> start <= r.1) ->
  (start, end_) ∈ rs -> (start, end_) :: erase_range start end_ rs ≡ₚ rs.
Proof.
  induction rs as [|r rs IH]; intros Hs Hge Hin; [by apply elem_of_nil in Hin|].
  inversion Hs as [|? ? Hs' Hf]; subst. rewrite Forall_forall in Hf. simpl.
  destruct (r.1 =? start) eqn:E1.
  - destruct (r.2 =? end_) eqn:E2.
    + destruct r as [a b]; simpl in *. by rewrite (proj1 (Z.eqb_eq _ _) E1), (proj1 (Z.eqb_eq _ _) E2).
    + apply elem_of_cons in Hin as [<- | Hin]; [simpl in E2; lia|].
      rewrite Permutation_swap. constructor. apply IH; [done| |done].
      intros r0 Hr0. apply Hge. by right.
  - exfalso. assert (start <= r.1) by (apply Hge; by left).
    apply elem_of_cons in Hin as [<- | Hin]; [simpl in E1; lia|].
    specialize (Hf _ Hin). unfold range_le in Hf; simpl in Hf; lia.
Qed.

Lemma erase_range_absent start end_ rs :
  (start, end_) ∉ rs -> erase_range start end_ rs = rs.
Proof.
  induction rs as [|[a b] rs IH]; simpl; intros Hin; [done|].
  apply not_elem_of_cons in Hin as [Hne Hin]. rewrite IH by done.
  destruct (a =? start) eqn:E1; [|done]. destruct (b =? end_) eqn:E2; [|done].
  exfalso. apply Hne. f_equal; lia.
Qed.

(** What the two updates do to the registered ranges. [AddRange] rejects a
    range that runs past the address space and changes nothing; otherwise the
    vector gains exactly [(start, start + len)], or is unchanged when that range
    was found registered. [RemoveRange] drops exactly one registration of
    [(start, end)] when there is one and changes nothing otherwise. *)
Theorem Segment_updates_spec sg start len end_ :
  Segment_sorted sg -> is_u64 start -> is_u64 len ->
  (let '(st, sg') := Segment_AddRange sg start len in
   (2 ^ 64 <= start + len -> st = PARAM_INVALID /\ sg' = sg) /\
   (start + len < 2 ^ 64 -> st = SUCCESS /\
      (ranges_ sg' ≡ₚ (start, start + len) :: ranges_ sg \/
       (sg' = sg /\ (start, start + len) ∈ ranges_ sg)))) /\
  (let sg' := Segment_RemoveRange sg start end_ in
   ((start, end_) ∈ ranges_ sg -> (start, end_) :: ranges_ sg' ≡ₚ ranges_ sg) /\
   ((start, end_) ∉ ranges_ sg -> sg' = sg)).
Proof.
  unfold Segment_sorted. intros Hs Hst Hlen. split.
  - unfold Segment_AddRange. destruct (UINT64_MAX - start <? len) eqn:Eo.
    { split; [done|]. ulia. }
    destruct (ranges_upper_bound start (ranges_ sg)) as [before from_it] eqn:E.
    apply ranges_upper_bound_spec in E as (Hrs & Hb & Hf); [|done].
    assert (Hw : start + len < 2 ^ 64) by ulia.
    assert (He : u64 (start + len) = start + len) by (apply wrap_small; ulia). rewrite He.
    assert (Heq : forall r, range_eqb r start (start + len) = true -> r = (start, start + len)).
    { intros [a b]; unfold range_eqb; simpl; intros H. f_equal; lia. }
    destruct (match last before with Some r => _ | None => false end) eqn:E1.
    { split; [ulia|]. split; [done|]. right. split; [done|].
      destruct (last before) as [r|] eqn:El; [|done]. apply Heq in E1 as ->.
      rewrite Hrs. apply elem_of_app. left. by apply last_Some_elem_of. }
    destruct (match from_it with [] => false | _ => _ end) eqn:E2.
    { destruct from_it as [|r l]; [done|]. exfalso. apply Heq in E2 as ->.
      specialize (Hf (start, start + len) ltac:(by left)). simpl in Hf. lia. }
    split; [ulia|]. split; [done|]. left. simpl. by rewrite Hrs, Permutation_middle.
  - unfold Segment_RemoveRange. destruct (ranges_lower_bound start (ranges_ sg)) as [b f] eqn:E.
    unfold ranges_lower_bound in E.
    pose proof (span_while_app _ _ _ _ E) as Hrs.
    pose proof (span_while_prefix _ _ _ _ E) as Hp. rewrite Forall_forall in Hp.
    assert (Hnb : (start, end_) ∉ b) by (intros H%Hp; simpl in H; lia).
    rewrite Hrs in Hs. apply StronglySorted_app_inv in Hs as (_ & Hsf & _).
    destruct sg as [rs ty]; simpl in *. subst rs. destruct f as [|r f].
    { split; [|done]. intros H. exfalso. rewrite app_nil_r in H. done. }
    pose proof (span_while_head _ _ _ _ _ E) as Hr. simpl in Hr.
    inversion Hsf as [|? ? Hsf' Hff]; subst. rewrite Forall_forall in Hff.
    assert (Hge : forall x, x ∈ r :: f -> start <= x.1).
    { intros x [-> | Hx]%elem_of_cons; [lia|]. specialize (Hff x Hx). unfold range_le in Hff. lia. }
    destruct (start <? r.1) eqn:Elt; simpl ranges_.
    + split; [|done]. intros H%elem_of_app. exfalso. destruct H as [H|[<- | H]%elem_of_cons]; [done|simpl in Elt; lia|].
      specialize (Hff _ H). unfold range_le in Hff; simpl in Hff. lia.
    + split.
      * intros H%elem_of_app. destruct H as [H|H]; [done|].
        rewrite Permutation_middle. apply Permutation_app_head. by apply (erase_range_perm start end_ (r :: f)).
      * intros H. assert (Hnf : (start, end_) ∉ r :: f) by (intros ?; apply H, elem_of_app; by right).
        f_equal. f_equal. by apply (erase_range_absent start end_ (r :: f)).
Qed.

(** Run the vector operations on symbolic ranges whose comparisons are known. *)
Ltac run_ranges :=
  repeat progress
    (repeat match goal with
            | H : (_ =? _) = _ |- _ => progress rewrite ?H
            | H : (_ <? _) = _ |- _ => progress rewrite ?H
            | H : u64 _ = _ |- _ => progress rewrite ?H
            end;
     rewrite ?Z.ltb_irrefl, ?Z.eqb_refl, ?Z.leb_refl;
     unfold range_eqb, ranges_upper_bound, ranges_lower_bound; simpl).

(** The duplicate check of [AddRange] looks only at the neighbours of the
    insertion point, so a range registered again after another range with the
    same start is stored twice, and unregistering it once leaves it covered. *)
Theorem Segment_AddRange_duplicate ty start l1 l2 :
  0 <= start -> 0 < l1 -> 0 < l2 -> l1 <> l2 -> start + l1 < 2 ^ 64 -> start + l2 < 2 ^ 64 ->
  let add sg l := (Segment_AddRange sg start l).2 in
  let sg := add (add (add (mkSegment [] ty) l1) l2) l1 in
  let sg' := Segment_RemoveRange (Segment_RemoveRange sg start (start + l1)) start (start + l2) in
  ranges_ sg = [(start, start + l1); (start, start + l2); (start, start + l1)] /\
  Segment_Contains sg' start (start + l1) = true.
Proof.
  intros H0 H1 H2 Hne Hb1 Hb2 add sg sg'.
  assert (W1 : u64 (start + l1) = start + l1) by (apply wrap_small; ulia).
  assert (W2 : u64 (start + l2) = start + l2) by (apply wrap_small; ulia).
  assert (G1 : (UINT64_MAX - start <? l1) = false) by ulia.
  assert (G2 : (UINT64_MAX - start <? l2) = false) by ulia.
  assert (E : (start + l1 =? start + l2) = false) by lia.
  assert (E' : (start + l2 =? start + l1) = false) by lia.
  assert (T : (start + l1 <? start) = false) by lia.
  assert (T1 : (start <? start + l1) = true) by lia.
  assert (Es : ranges_ sg = [(start, start + l1); (start, start + l2); (start, start + l1)]).
  { unfold sg, add, Segment_AddRange. by run_ranges. }
  split; [done|]. unfold sg'. destruct sg as [rs ty']; simpl in Es; subst rs.
  unfold Segment_RemoveRange, Segment_Contains. by run_ranges.
Qed.

(** ** Witnesses *)
Definition witness_segment : Segment := mkSegment [(16, 32); (16, 48); (48, 64)] MEM_HOST.

Lemma witness_segment_sorted : Segment_sorted witness_segment.
Proof. repeat constructor; unfold range_le; simpl; lia. Defined.

Lemma Segment_Contains_witness :
  Segment_Contains witness_segment 20 60 = true /\ interval_covered (ranges_ witness_segment) 20 60.
Proof.
  split; [reflexivity|].
  apply (Segment_Contains_spec witness_segment 20 60 witness_segment_sorted). reflexivity.
Defined.

Lemma Segment_ops_sorted_witness : Segment_sorted (Segment_AddRange witness_segment 40 100).2.
Proof. apply (Segment_ops_sorted witness_segment 40 100 0 witness_segment_sorted). Defined.

Lemma Segment_updates_witness :
  (16, 48) :: ranges_ (Segment_RemoveRange witness_segment 16 48) ≡ₚ ranges_ witness_segment.
Proof.
  apply (Segment_updates_spec witness_segment 16 0 48 witness_segment_sorted); [ulia | ulia |].
  apply list_elem_of_In. simpl. auto.
Defined.

Lemma Segment_AddRange_duplicate_witness :
  Segment_Contains
    (Segment_RemoveRange (Segment_RemoveRange
       (mkSegment [(4096, 4097); (4096, 4098); (4096, 4097)] MEM_HOST) 4096 4097) 4096 4098)
    4096 4097 = true.
Proof.
  pose proof (Segment_AddRange_duplicate MEM_HOST 4096 1 2 ltac:(lia) ltac:(lia) ltac:(lia)
                ltac:(lia) ltac:(lia) ltac:(lia)) as [_ H].
  exact H.
Defined.
