(* ===== verification/MemStore.v ===== *)
(** The registered-memory store of a client: src/hixl/cs/hixl_mem_store.cc. *)
From S2P Require Import Prelude StdMap External.

(** ** Data *)
Record MemoryRegion := mkMemoryRegion {
  mr_addr : Z;
  mr_size : Z;
  mr_is_host_mem : bool;
  mr_register_dev_addr : Z
}.

(** A transfer descriptor (include/cs/hixl_cs.h). *)
Record HixlOneSideOpDesc := mkOpDesc {
  od_remote_buf : Z;
  od_local_buf : Z;
  od_len : Z
}.

Record HixlMemStore := mkMemStore {
  server_regions_ : list (Z * MemoryRegion);
  client_regions_ : list (Z * MemoryRegion)
}.

Definition regions_of (st : HixlMemStore) (is_server : bool) : list (Z * MemoryRegion) :=
  if is_server then server_regions_ st else client_regions_ st.

Definition with_regions (st : HixlMemStore) (is_server : bool) (m : list (Z * MemoryRegion)) :=
  if is_server then mkMemStore m (client_regions_ st) else mkMemStore (server_regions_ st) m.

(** [reinterpret_cast<uintptr_t>(r.addr) + r.size]. *)
Definition mr_end (r : MemoryRegion) : Z := u64 (mr_addr r + mr_size r).

Definition IsAddrInRegion (r : MemoryRegion) (addr : Z) : bool :=
  if addr <? mr_addr r then false else addr <? mr_end r.

Definition CheckRegionsContiguous (prev curr : MemoryRegion) : bool :=
  if negb (mr_end prev =? mr_addr curr) then false
  else if negb (Bool.eqb (mr_is_host_mem prev) (mr_is_host_mem curr)) then false
  else
    let prev_has_dev_addr := negb (is_null (mr_register_dev_addr prev)) in
    let curr_has_dev_addr := negb (is_null (mr_register_dev_addr curr)) in
    if negb (Bool.eqb prev_has_dev_addr curr_has_dev_addr) then false
    else if prev_has_dev_addr
    then u64 (mr_register_dev_addr prev + mr_size prev) =? mr_register_dev_addr curr
    else true.

Definition mr_contains (s e : Z) (r : MemoryRegion) : bool := (mr_addr r <=? s) && (e <=? mr_end r).

Section MemStore.
Context `{G : GeMath}.

Definition overflows (a b : Z) : bool :=
  match AddOverflow a b with Some _ => false | None => true end.

(** ** Registration *)
Definition HixlMemStore_RecordMemory (st : HixlMemStore) (is_server : bool) (addr size : Z)
    (is_host_mem : bool) (register_dev_addr : Z) : Status * HixlMemStore :=
  if negb (negb (is_null addr) && negb (size =? 0)) then (PARAM_INVALID, st)
  else if overflows addr size then (PARAM_INVALID, st)
  else if negb (is_null register_dev_addr) && overflows register_dev_addr size
  then (PARAM_INVALID, st)
  else
    let new_region := mkMemoryRegion addr size is_host_mem register_dev_addr in
    if is_server then
      match std_find addr (server_regions_ st) with
      | Some _ => (SUCCESS, st)
      | None => (SUCCESS, mkMemStore (std_set addr new_region (server_regions_ st)) (client_regions_ st))
      end
    else
      match std_find addr (client_regions_ st) with
      | Some _ => (PARAM_INVALID, st)
      | None => (SUCCESS, mkMemStore (server_regions_ st) (std_set addr new_region (client_regions_ st)))
      end.

Definition HixlMemStore_UnrecordMemory (st : HixlMemStore) (is_server : bool) (addr : Z)
    : Status * HixlMemStore :=
  if is_server then
    match std_find addr (server_regions_ st) with
    | None => (PARAM_INVALID, st)
    | Some _ => (SUCCESS, mkMemStore (std_erase addr (server_regions_ st)) (client_regions_ st))
    end
  else
    match std_find addr (client_regions_ st) with
    | None => (PARAM_INVALID, st)
    | Some _ => (SUCCESS, mkMemStore (server_regions_ st) (std_erase addr (client_regions_ st)))
    end.

(** The [overlaps] lambda of [CheckMemoryForRegister]. *)
Definition region_overlaps (s e : Z) (is_server : bool) (r : MemoryRegion) : bool :=
  match AddOverflow (mr_addr r) (mr_size r) with
  | None => true
  | Some re =>
      let is_overlap := (s <? re) && (mr_addr r <? e) in
      let is_same := (s =? mr_addr r) && (e =? re) in
      is_overlap && (negb is_same || negb is_server)
  end.

(** True means the registration is refused. [HIXL_CHECK_NOTNULL] returns
    PARAM_INVALID, which the [bool] result turns into true. *)
Definition HixlMemStore_CheckMemoryForRegister (st : HixlMemStore) (is_server : bool)
    (check_addr check_size : Z) : bool :=
  let regions := regions_of st is_server in
  if is_null check_addr then bool_of_status PARAM_INVALID
  else if check_size =? 0 then true
  else match AddOverflow check_addr check_size with
  | None => true
  | Some e =>
      match regions with
      | [] => false
      | _ =>
          let '(before, from_it) := std_lower_bound check_addr regions in
          if match from_it with it :: _ => region_overlaps check_addr e is_server it.2 | [] => false end
          then true
          else if match last before with
                  | Some prev => region_overlaps check_addr e is_server prev.2
                  | None => false end
          then true
          else false
      end
  end.

(** ** Access checks *)

(** Walk from an iterator along adjacent regions while they are contiguous,
    counting the steps: backwards over the reversed prefix, ... *)
Fixpoint walk_back (rev_before : list (Z * MemoryRegion)) (cur : MemoryRegion) : MemoryRegion * nat :=
  match rev_before with
  | [] => (cur, O)
  | p :: ps =>
      if CheckRegionsContiguous p.2 cur
      then let '(r, n) := walk_back ps p.2 in (r, S n) else (cur, O)
  end.

(** ... and forwards over the suffix. *)
Fixpoint walk_forward (cur : MemoryRegion) (after : list (Z * MemoryRegion)) : MemoryRegion * nat :=
  match after with
  | [] => (cur, O)
  | n :: ns =>
      if CheckRegionsContiguous cur n.2
      then let '(r, k) := walk_forward n.2 ns in (r, S k) else (cur, O)
  end.

(** [it] is the iterator's region, [before] and [after] the entries around it.
    [start_it == end_it] exactly when neither walk moved. *)
Definition HixlMemStore_CheckMergedRegionsAccess (before : list (Z * MemoryRegion))
    (it : MemoryRegion) (after : list (Z * MemoryRegion)) (s e : Z) : bool :=
  let '(start_r, back) := walk_back (rev before) it in
  let '(end_r, fwd) := walk_forward it after in
  if (Nat.eqb back 0 && Nat.eqb fwd 0)%bool then false
  else
    let merged_start := mr_addr start_r in
    let merged_end := mr_end end_r in
    let merged := mkMemoryRegion (mr_addr start_r) (u64 (merged_end - merged_start)) false nullptr in
    mr_contains s e merged.

(** True means the access is allowed; a null address returns PARAM_INVALID
    through the [bool] result, that is true. *)
Definition HixlMemStore_CheckMemoryForAccess (st : HixlMemStore) (is_server : bool)
    (check_addr check_size : Z) : bool :=
  let regions := regions_of st is_server in
  if is_null check_addr then bool_of_status PARAM_INVALID
  else if check_size =? 0 then false
  else match regions with
  | [] => false
  | _ =>
      if UINT64_MAX - check_addr <? check_size then false
      else
        let e := u64 (check_addr + check_size) in
        let '(before, from_it) := std_lower_bound check_addr regions in
        if match from_it with it :: _ => mr_contains check_addr e it.2 | [] => false end then true
        else if match last before with Some prev => mr_contains check_addr e prev.2 | None => false end
        then true
        else match from_it with
             | it :: after => HixlMemStore_CheckMergedRegionsAccess before it.2 after check_addr e
             | [] => false
             end
  end.

Definition HixlMemStore_ValidateMemoryAccess (st : HixlMemStore) (server_addr mem_size client_addr : Z)
    : Status :=
  if negb (negb (is_null server_addr) && negb (is_null client_addr) && negb (mem_size =? 0))
  then PARAM_INVALID
  else if negb (HixlMemStore_CheckMemoryForAccess st true server_addr mem_size) then PARAM_INVALID
  else if negb (HixlMemStore_CheckMemoryForAccess st false client_addr mem_size) then PARAM_INVALID
  else SUCCESS.

Definition HixlMemStore_FindMemoryRegion (st : HixlMemStore) (is_server : bool) (addr : Z)
    : option MemoryRegion :=
  let regions := regions_of st is_server in
  match regions with
  | [] => None
  | _ =>
      let '(before, from_it) := std_lower_bound addr regions in
      match
        match from_it with
        | it :: _ => if IsAddrInRegion it.2 addr then Some it.2 else None
        | [] => None
        end with
      | Some r => Some r
      | None =>
          match last before with
          | Some prev => if IsAddrInRegion prev.2 addr then Some prev.2 else None
          | None => None
          end
      end
  end.

Fixpoint HixlMemStore_BatchValidateMemoryAccess (st : HixlMemStore)
    (desc_list : list HixlOneSideOpDesc) (check_local_mem : bool) : Status :=
  match desc_list with
  | [] => SUCCESS
  | d :: ds =>
      if negb (negb (is_null (od_remote_buf d)) && negb (is_null (od_local_buf d))
               && negb (od_len d =? 0))
      then PARAM_INVALID
      else if negb (HixlMemStore_CheckMemoryForAccess st true (od_remote_buf d) (od_len d))
      then PARAM_INVALID
      else if negb check_local_mem then HixlMemStore_BatchValidateMemoryAccess st ds check_local_mem
      else if negb (HixlMemStore_CheckMemoryForAccess st false (od_local_buf d) (od_len d))
      then PARAM_INVALID
      else HixlMemStore_BatchValidateMemoryAccess st ds check_local_mem
  end.

(** ** Host address conversion *)

(** The two halves of [ConvertHostAddr] are the same code on the remote and on
    the local buffer; the descriptor is updated in place, so a failure in the
    local half leaves the remote half converted. *)
Definition convert_one (st : HixlMemStore) (is_server : bool) (buf : Z) : Status * Z * Z :=
  match HixlMemStore_FindMemoryRegion st is_server buf with
  | None => (FAILED, buf, 0)
  | Some region =>
      if mr_is_host_mem region then
        if is_null (mr_register_dev_addr region) then (PARAM_INVALID, buf, 0)
        else (SUCCESS, u64 (mr_register_dev_addr region + u64 (buf - mr_addr region)), 1)
      else (SUCCESS, buf, 0)
  end.

Definition HixlMemStore_ConvertHostAddr (st : HixlMemStore) (desc : HixlOneSideOpDesc)
    (local_host_cnt remote_host_cnt : Z) : Status * HixlOneSideOpDesc * Z * Z :=
  let '(ret, remote, inc) := convert_one st true (od_remote_buf desc) in
  if negb (ret =? SUCCESS) then (ret, desc, local_host_cnt, remote_host_cnt)
  else
    let desc := mkOpDesc remote (od_local_buf desc) (od_len desc) in
    let remote_host_cnt := u32 (remote_host_cnt + inc) in
    let '(ret, local, inc) := convert_one st false (od_local_buf desc) in
    if negb (ret =? SUCCESS) then (ret, desc, local_host_cnt, remote_host_cnt)
    else (SUCCESS, mkOpDesc (od_remote_buf desc) local (od_len desc),
          u32 (local_host_cnt + inc), remote_host_cnt).

Fixpoint convert_loop (st : HixlMemStore) (desc_list : list HixlOneSideOpDesc)
    (local_host_cnt remote_host_cnt : Z) : Status * list HixlOneSideOpDesc :=
  match desc_list with
  | [] => (SUCCESS, [])
  | d :: ds =>
      let '(ret, d', lc, rc) := HixlMemStore_ConvertHostAddr st d local_host_cnt remote_host_cnt in
      if negb (ret =? SUCCESS) then (ret, d' :: ds)
      else let '(ret', ds') := convert_loop st ds lc rc in (ret', d' :: ds')
  end.

Definition HixlMemStore_BatchConvertHostAddr (st : HixlMemStore) (desc_list : list HixlOneSideOpDesc)
    : Status * list HixlOneSideOpDesc := convert_loop st desc_list 0 0.
End MemStore.

(** * Invariants and views *)
Definition region_ok (r : MemoryRegion) : Prop :=
  0 < mr_addr r /\ 0 < mr_size r /\ mr_addr r + mr_size r < 2 ^ 64 /\
  (mr_register_dev_addr r = 0 \/
   (0 < mr_register_dev_addr r /\ mr_register_dev_addr r + mr_size r < 2 ^ 64)).

Definition regions_wf (m : list (Z * MemoryRegion)) : Prop :=
  std_map_wf m /\ forall x, x ∈ m -> x.1 = mr_addr x.2 /\ region_ok x.2.

Definition regions_disjoint (m : list (Z * MemoryRegion)) : Prop :=
  forall x y, x ∈ m -> y ∈ m -> x.1 < y.1 -> mr_addr x.2 + mr_size x.2 <= mr_addr y.2.

Definition store_wf (st : HixlMemStore) : Prop :=
  forall side, regions_wf (regions_of st side) /\ regions_disjoint (regions_of st side).

(** Adjacent regions of the list are contiguous and of the same kind. *)
Fixpoint chained (l : list MemoryRegion) : Prop :=
  match l with
  | r :: ((r' :: _) as l') => CheckRegionsContiguous r r' = true /\ chained l'
  | _ => True
  end.

(** [r0 .. last] is a run of adjacent map entries, chained, that spans [s, e). *)
Definition run_covers (m : list (Z * MemoryRegion)) (s e : Z) : Prop :=
  exists a es b r0 rs rl,
    m = a ++ es ++ b /\ es.*2 = r0 :: rs /\ last (r0 :: rs) = Some rl /\
    chained (r0 :: rs) /\ mr_addr r0 <= s /\ e <= mr_addr rl + mr_size rl.

Lemma mr_end_ok r : region_ok r -> mr_end r = mr_addr r + mr_size r.
Proof. intros H. apply wrap_small. unfold region_ok in H. ulia. Qed.

Lemma contiguous_spec p c :
  region_ok p -> region_ok c -> CheckRegionsContiguous p c = true ->
  mr_addr p + mr_size p = mr_addr c /\ mr_is_host_mem p = mr_is_host_mem c /\
  (mr_register_dev_addr p = 0 <-> mr_register_dev_addr c = 0) /\
  (mr_register_dev_addr p <> 0 -> mr_register_dev_addr p + mr_size p = mr_register_dev_addr c).
Proof.
  intros Hp Hc. unfold CheckRegionsContiguous. rewrite (mr_end_ok p) by done.
  destruct (mr_addr p + mr_size p =? mr_addr c) eqn:E1; simpl; [|done].
  destruct (Bool.eqb (mr_is_host_mem p) (mr_is_host_mem c)) eqn:E2; simpl; [|done].
  apply eqb_prop in E2. unfold is_null, nullptr.
  destruct (mr_register_dev_addr p =? 0) eqn:E3, (mr_register_dev_addr c =? 0) eqn:E4; simpl; try done.
  - intros _. repeat split; try done; lia.
  - unfold region_ok in *. unfold u64. rewrite wrap_small by ulia. intros E5. repeat split; try done; lia.
Qed.

Lemma chained_tail r l : chained (r :: l) -> chained l.
Proof. destruct l; [done|]. by intros [_ ?]. Qed.

Lemma chained_join l1 x l2 : chained (l1 ++ [x]) -> chained (x :: l2) -> chained (l1 ++ x :: l2).
Proof.
  induction l1 as [|r l1 IH]; intros H1 H2; [done|].
  destruct l1 as [|r' l1]; simpl in *.
  - destruct H1 as [H1 _]. done.
  - destruct H1 as [H1 H1']. split; [done|]. by apply IH.
Qed.

(** Bytes of a run: each lies in one of its regions, which agrees with the first
    region on the memory kind and on the device offset. *)
Lemma chained_byte r0 rs rl b :
  Forall region_ok (r0 :: rs) -> chained (r0 :: rs) -> last (r0 :: rs) = Some rl ->
  mr_addr r0 <= b < mr_addr rl + mr_size rl ->
  exists r, r ∈ r0 :: rs /\ mr_addr r <= b < mr_addr r + mr_size r /\
    mr_is_host_mem r = mr_is_host_mem r0 /\
    (mr_register_dev_addr r = 0 <-> mr_register_dev_addr r0 = 0) /\
    (mr_register_dev_addr r0 <> 0 ->
     mr_register_dev_addr r + (b - mr_addr r) = mr_register_dev_addr r0 + (b - mr_addr r0)).
Proof.
  revert r0. induction rs as [|r1 rs IH]; intros r0 Hok Hch Hl Hb.
  { injection Hl as <-. exists r0. repeat split; try done; [by left|lia|lia]. }
  destruct (decide (b < mr_addr r0 + mr_size r0)) as [Hlt|Hge].
  { exists r0. repeat split; try done; [by left|lia]. }
  inversion Hok as [|? ? Hr0 Hok1]; subst. inversion Hok1 as [|? ? Hr1 Hok2]; subst.
  destruct Hch as [Hc Hch]. apply contiguous_spec in Hc as (H1 & H2 & H3 & H4); [|done|done].
  destruct (IH r1 Hok1 Hch) as (r & Hr & Hbr & Hh & Hd & Ho); [done|lia|].
  exists r. repeat split; [by right|lia|lia|congruence|tauto|tauto|]. intros Hne.
  rewrite Ho by tauto. specialize (H4 Hne). lia.
Qed.

Lemma chained_addr_le r0 rs rl :
  Forall region_ok (r0 :: rs) -> chained (r0 :: rs) -> last (r0 :: rs) = Some rl ->
  mr_addr r0 + mr_size r0 <= mr_addr rl + mr_size rl /\ mr_addr r0 <= mr_addr rl.
Proof.
  revert r0. induction rs as [|r1 rs IH]; intros r0 Hok Hch Hl; [injection Hl as <-; lia|].
  inversion Hok as [|? ? Hr0 Hok1]; subst. inversion Hok1 as [|? ? Hr1 Hok2]; subst.
  destruct Hch as [Hc Hch]. apply contiguous_spec in Hc as (H1 & _); [|done|done].
  specialize (IH r1 Hok1 Hch Hl). unfold region_ok in *. lia.
Qed.

(** ** The two walks *)
Lemma walk_forward_spec cur after r n :
  walk_forward cur after = (r, n) ->
  exists es rest, after = es ++ rest /\ length es = n /\ chained (cur :: es.*2) /\
    last (cur :: es.*2) = Some r.
Proof.
  revert cur r n. induction after as [|x after IH]; intros cur r n H; simpl in H.
  { injection H as <- <-. by exists [], []. }
  destruct (CheckRegionsContiguous cur x.2) eqn:E.
  - destruct (walk_forward x.2 after) as [r' k] eqn:Ew. injection H as <- <-.
    destruct (IH _ _ _ Ew) as (es & rest & -> & Hn & Hc & Hl).
    exists (x :: es), rest. simpl. rewrite Hn. repeat split; try done.
  - injection H as <- <-. by exists [], (x :: after).
Qed.

Lemma walk_forward_max cur es rest r n rl :
  Forall region_ok (cur :: (es ++ rest).*2) ->
  chained (cur :: es.*2) -> last (cur :: es.*2) = Some rl ->
  walk_forward cur (es ++ rest) = (r, n) ->
  mr_addr rl + mr_size rl <= mr_addr r + mr_size r /\ (length es <= n)%nat.
Proof.
  revert cur n. induction es as [|x es IH]; intros cur n Hok Hc Hl Hw; simpl in *.
  { injection Hl as <-. apply walk_forward_spec in Hw as (es & rest' & -> & Hn & Hch & Hlr).
    split; [|lia]. apply (chained_addr_le cur es.*2); [|done|done].
    rewrite fmap_app in Hok. inversion Hok as [|? ? ? Hok']; subst. apply Forall_app in Hok' as [? _].
    by constructor. }
  destruct Hc as [Hc Hch]. rewrite Hc in Hw.
  destruct (walk_forward x.2 (es ++ rest)) as [r' k] eqn:Ew. injection Hw as <- <-.
  inversion Hok as [|? ? _ Hok']; subst. destruct (IH x.2 k Hok' Hch Hl Ew). split; [done|lia].
Qed.

Lemma walk_back_spec cur l r n :
  walk_back l cur = (r, n) ->
  exists es rest, l = es ++ rest /\ length es = n /\
    chained ((rev es).*2 ++ [cur]) /\ head ((rev es).*2 ++ [cur]) = Some r.
Proof.
  revert cur r n. induction l as [|x l IH]; intros cur r n H; simpl in H.
  { injection H as <- <-. by exists [], []. }
  destruct (CheckRegionsContiguous x.2 cur) eqn:E.
  - destruct (walk_back l x.2) as [r' k] eqn:Ew. injection H as <- <-.
    destruct (IH _ _ _ Ew) as (es & rest & -> & Hn & Hc & Hh).
    exists (x :: es), rest. simpl. rewrite Hn, fmap_app. simpl. rewrite <- app_assoc. simpl.
    repeat split; try done.
    + by apply chained_join.
    + destruct ((rev es).*2) as [|y ys]; done.
  - injection H as <- <-. by exists [], (x :: l).
Qed.

Lemma chained_split l1 x y :
  chained (l1 ++ [x; y]) -> chained (l1 ++ [x]) /\ CheckRegionsContiguous x y = true.
Proof.
  induction l1 as [|r l1 IH]; [by intros [? _]|]. intros H.
  destruct l1 as [|r' l1]; simpl in *.
  - destruct H as (? & ? & _). done.
  - destruct H as [H1 H2]. destruct (IH H2) as [? ?]. done.
Qed.

Lemma walk_back_max cur es rest r n rh :
  Forall region_ok (cur :: (es ++ rest).*2) ->
  chained ((rev es).*2 ++ [cur]) -> head ((rev es).*2 ++ [cur]) = Some rh ->
  walk_back (es ++ rest) cur = (r, n) ->
  mr_addr r <= mr_addr rh /\ (length es <= n)%nat.
Proof.
  revert cur n. induction es as [|x es IH]; intros cur n Hok Hc Hh Hw.
  { simpl in *. injection Hh as <-.
    apply walk_back_spec in Hw as (es & rest' & -> & Hn & Hch & Hhr). split; [|lia].
    destruct ((rev es).*2 ++ [cur]) as [|r0 rs] eqn:E; [done|]. injection Hhr as ->.
    apply (chained_addr_le r rs); [|done|].
    - rewrite <- E. inversion Hok as [|? ? Hcur Hok']; subst.
      rewrite fmap_app in Hok'. apply Forall_app in Hok' as [He _].
      apply Forall_app; split; [|by constructor]. rewrite Forall_fmap in He |- *.
      by apply Forall_rev.
    - rewrite <- E. apply last_snoc. }
  simpl in Hc, Hh, Hw. rewrite fmap_app, <- app_assoc in Hc, Hh. simpl in Hc, Hh.
  apply chained_split in Hc as [Hc Hxc]. rewrite Hxc in Hw.
  destruct (walk_back (es ++ rest) x.2) as [r' k] eqn:Ew. injection Hw as <- <-.
  inversion Hok as [|? ? _ Hok']; subst.
  destruct (IH x.2 k Hok' Hc) as [? ?]; [|done|split; [done|simpl; lia]].
  destruct ((rev es).*2); done.
Qed.

(** ** Soundness and completeness of the access check *)
Lemma regions_wf_ok m : regions_wf m -> Forall region_ok m.*2.
Proof.
  intros [_ H]. rewrite Forall_fmap, Forall_forall. intros x Hx. by apply H.
Qed.

Lemma merged_sound a it b s e :
  Forall region_ok (a ++ it :: b).*2 ->
  HixlMemStore_CheckMergedRegionsAccess a it.2 b s e = true -> run_covers (a ++ it :: b) s e.
Proof.
  intros Hok. unfold HixlMemStore_CheckMergedRegionsAccess.
  destruct (walk_back (rev a) it.2) as [r0 n] eqn:Eb.
  destruct (walk_forward it.2 b) as [rl k] eqn:Ef.
  destruct (Nat.eqb n 0 && Nat.eqb k 0)%bool; [done|].
  apply walk_back_spec in Eb as (es1 & rest1 & Ha & _ & Hc1 & Hh1).
  apply walk_forward_spec in Ef as (es2 & rest2 & -> & _ & Hc2 & Hl2).
  assert (Ha' : a = rev rest1 ++ rev es1).
  { rewrite <- (rev_involutive a), Ha, rev_app_distr. done. }
  subst a. clear Ha.
  assert (Hrun : Forall region_ok ((rev es1 ++ it :: es2).*2)).
  { rewrite Forall_fmap, Forall_forall in Hok |- *. intros x Hx. apply Hok. set_solver. }
  destruct ((rev es1 ++ it :: es2).*2) as [|r0' rs] eqn:Er.
  { rewrite fmap_app in Er. by destruct ((rev es1).*2). }
  assert (r0' = r0) as ->.
  { rewrite fmap_app in Er. destruct ((rev es1).*2); simpl in *; congruence. }
  assert (Hch : chained (r0 :: rs)).
  { rewrite <- Er, fmap_app. simpl. by apply chained_join. }
  assert (Hla : last (r0 :: rs) = Some rl).
  { rewrite <- Er, fmap_app. simpl. rewrite last_app_cons. done. }
  assert (Hle := chained_addr_le _ _ _ Hrun Hch Hla).
  assert (Hrl : region_ok rl).
  { rewrite Forall_forall in Hrun. apply Hrun. by apply last_Some_elem_of. }
  inversion Hrun as [|? ? Hr0 _]; subst.
  unfold mr_contains, mr_end; simpl. unfold region_ok in Hr0, Hrl.
  rewrite (u64_small (mr_addr rl + mr_size rl)), (u64_small (mr_addr rl + mr_size rl - mr_addr r0)),
    u64_small by ulia.
  intros H. exists (rev rest1), (rev es1 ++ it :: es2), rest2, r0, rs, rl.
  repeat split; try done; [|lia|lia]. rewrite <- !app_assoc. done.
Qed.

Lemma single_covers m x s e :
  x ∈ m -> region_ok x.2 -> mr_contains s e x.2 = true -> run_covers m s e.
Proof.
  intros Hx Hok Hc. apply list_elem_of_split in Hx as (a & b & ->).
  unfold mr_contains in Hc. rewrite mr_end_ok in Hc by done.
  exists a, [x], b, x.2, [], x.2. simpl. repeat split; try done; lia.
Qed.

Lemma access_sound st side s n :
  store_wf st -> 0 < s -> 0 < n -> is_u64 s -> is_u64 n ->
  HixlMemStore_CheckMemoryForAccess st side s n = true ->
  s + n < 2 ^ 64 /\ run_covers (regions_of st side) s (s + n).
Proof.
  intros Hwf Hs Hn Hus Hun. destruct (Hwf side) as [[Hm Hr] _].
  unfold HixlMemStore_CheckMemoryForAccess, is_null, nullptr.
  rewrite (proj2 (Z.eqb_neq s 0)) by lia. rewrite (proj2 (Z.eqb_neq n 0)) by lia.
  destruct (regions_of st side) as [|x0 m0] eqn:Em; [done|]. rewrite <- Em in *.
  destruct (UINT64_MAX - s <? n) eqn:Eo; [done|].
  assert (Hb : s + n < 2 ^ 64) by ulia. intros H. split; [done|]. revert H.
  rewrite u64_small by ulia.
  destruct (std_lower_bound s (regions_of st side)) as [a b] eqn:E.
  apply std_lower_bound_spec in E as (Hab & _ & _); [|done].
  pose proof (regions_wf_ok _ (conj Hm Hr)) as Hok.
  destruct (match b with [] => false | _ => _ end) eqn:E1.
  { intros _. destruct b as [|it b]; [done|].
    apply (single_covers _ it); [rewrite Hab; set_solver| |done]. apply Hr. rewrite Hab. set_solver. }
  destruct (match last a with Some _ => _ | None => false end) eqn:E2.
  { intros _. destruct (last a) as [p|] eqn:El; [|done]. apply last_Some_elem_of in El.
    apply (single_covers _ p); [rewrite Hab; set_solver| |done]. apply Hr. rewrite Hab. set_solver. }
  destruct b as [|it b]; [done|]. rewrite Hab in Hok |- *. by apply merged_sound.
Qed.

(** A run that covers [s] splits at the entry whose region holds [s]. *)
Lemma chained_locate (es : list (Z * MemoryRegion)) r0 rs rl s :
  Forall region_ok es.*2 -> es.*2 = r0 :: rs -> chained (r0 :: rs) -> last (r0 :: rs) = Some rl ->
  mr_addr r0 <= s < mr_addr rl + mr_size rl ->
  exists es1 x es2, es = es1 ++ x :: es2 /\ mr_addr x.2 <= s < mr_addr x.2 + mr_size x.2.
Proof.
  intros Hok He Hc Hl Hs. rewrite He in Hok.
  destruct (chained_byte _ _ _ s Hok Hc Hl Hs) as (r & Hr & Hb & _).
  rewrite <- He in Hr. apply list_elem_of_fmap in Hr as (x & -> & Hx).
  apply list_elem_of_split in Hx as (es1 & es2 & ->). by exists es1, x, es2.
Qed.

Lemma chained_app_l l1 l2 : chained (l1 ++ l2) -> chained l1.
Proof.
  induction l1 as [|r l1 IH]; [done|]. intros H. destruct l1 as [|r' l1]; [done|].
  simpl in *. destruct H as [H1 H2]. split; [done|]. by apply IH.
Qed.

Lemma chained_app_r l1 l2 : chained (l1 ++ l2) -> chained l2.
Proof. induction l1 as [|r l1 IH]; [done|]. intros H%chained_tail. by apply IH. Qed.

(** A merged check started at an entry [it] of a chained run accepts the run. *)
Lemma merged_complete (a es1 : list (Z * MemoryRegion)) it es2 b s e rh rl :
  s <= e ->
  Forall region_ok (a ++ es1 ++ it :: es2 ++ b).*2 ->
  chained ((es1 ++ it :: es2).*2) -> (0 < length es1 + length es2)%nat ->
  head (es1 ++ it :: es2).*2 = Some rh -> last (es1 ++ it :: es2).*2 = Some rl ->
  mr_addr rh <= s -> e <= mr_addr rl + mr_size rl ->
  HixlMemStore_CheckMergedRegionsAccess (a ++ es1) it.2 (es2 ++ b) s e = true.
Proof.
  intros Hse Hok Hc Hlen Hh Hl Hs He. unfold HixlMemStore_CheckMergedRegionsAccess.
  destruct (walk_back (rev (a ++ es1)) it.2) as [r0 n] eqn:Eb.
  destruct (walk_forward it.2 (es2 ++ b)) as [re k] eqn:Ef.
  rewrite fmap_app in Hc, Hl. rewrite !fmap_app in Hok. simpl in Hc, Hok, Hl.
  assert (Hc1 : chained (es1.*2 ++ [it.2])) by (apply (chained_app_l _ es2.*2); by rewrite <- app_assoc).
  apply chained_app_r in Hc as Hc2.
  assert (Hokf : Forall region_ok (it.2 :: (es2 ++ b).*2)).
  { rewrite Forall_app in Hok. destruct Hok as [_ Hok]. by apply Forall_app in Hok as [_ ?]. }
  assert (Hokb : Forall region_ok (it.2 :: (rev es1 ++ rev a).*2)).
  { inversion Hokf; subst. constructor; [done|].
    rewrite fmap_app, Forall_app, !Forall_fmap. rewrite !Forall_app in Hok.
    destruct Hok as (? & ? & _). rewrite Forall_fmap in *. split; by apply Forall_rev. }
  rewrite last_app_cons in Hl.
  destruct (walk_forward_max _ _ _ _ _ rl Hokf Hc2 Hl Ef) as [Hend Hk].
  assert (Hback : mr_addr r0 <= mr_addr rh /\ (length (rev es1) <= n)%nat).
  { rewrite rev_app_distr in Eb. eapply walk_back_max; [exact Hokb| | |exact Eb]; rewrite rev_involutive; [done|].
    destruct es1 as [|x es1]; done. }
  rewrite length_rev in Hback.
  assert (Hnz : (Nat.eqb n 0 && Nat.eqb k 0)%bool = false).
  { destruct n, k; try done. simpl in *. lia. }
  rewrite Hnz.
  apply walk_forward_spec in Ef as (f1 & f2 & Hf & _ & _ & Hlf).
  apply walk_back_spec in Eb as (g1 & g2 & Hg & _ & _ & Hhg).
  assert (Hre : region_ok re).
  { rewrite Forall_forall in Hokf. apply Hokf. apply last_Some_elem_of in Hlf. rewrite Hf, fmap_app. set_solver. }
  assert (Hr0 : region_ok r0).
  { rewrite Forall_forall in Hokb. apply Hokb. rewrite rev_app_distr in Hg. rewrite Hg, fmap_app.
    assert (Hin : r0 ∈ (rev g1).*2 ++ [it.2]) by (destruct ((rev g1).*2); set_solver).
    apply elem_of_app in Hin as [Hin|Hin]; [|set_solver].
    apply list_elem_of_fmap in Hin as (y & -> & Hy). rewrite list_elem_of_In, <- in_rev, <- list_elem_of_In in Hy.
    right. apply elem_of_app. left. by apply list_elem_of_fmap_2. }
  unfold mr_contains, mr_end; simpl. unfold region_ok in Hr0, Hre.
  rewrite (u64_small (mr_addr re + mr_size re)), (u64_small (mr_addr re + mr_size re - mr_addr r0)),
    u64_small by ulia. lia.
Qed.

Lemma sorted_keys_after (m1 : list (Z * MemoryRegion)) x m2 y :
  std_map_wf (m1 ++ x :: m2) ->
  (y ∈ m1 -> y.1 < x.1) /\ (y ∈ m2 -> x.1 < y.1).
Proof.
  intros Hs. apply StronglySorted_app_inv in Hs as (_ & Hs & H12). split.
  - intros Hy. specialize (H12 y x Hy ltac:(by left)). unfold key_lt in H12. simpl in H12. lia.
  - intros Hy. inversion Hs as [|? ? _ Hf]; subst. rewrite Forall_forall in Hf.
    specialize (Hf y Hy). unfold key_lt in Hf. simpl in Hf. lia.
Qed.

Lemma access_complete st side s n :
  store_wf st -> 0 < s -> 0 < n -> s + n < 2 ^ 64 ->
  run_covers (regions_of st side) s (s + n) ->
  HixlMemStore_CheckMemoryForAccess st side s n = true.
Proof.
  intros Hwf Hs Hn Hb (a & es & b & r0 & rs & rl & Hm & Hes & Hl & Hc & Hr0s & Hrl).
  destruct (Hwf side) as [[Hsm Hrs] Hd].
  unfold HixlMemStore_CheckMemoryForAccess, is_null, nullptr.
  rewrite (proj2 (Z.eqb_neq s 0)) by lia. rewrite (proj2 (Z.eqb_neq n 0)) by lia.
  destruct (regions_of st side) as [|x0 m0] eqn:Em.
  { destruct a; [|done]. destruct es; [done|]. done. }
  rewrite <- Em in *. assert (Eo : (UINT64_MAX - s <? n) = false) by ulia. rewrite Eo.
  rewrite u64_small by ulia. pose proof (regions_wf_ok _ (conj Hsm Hrs)) as Hok.
  rewrite Hm in Hok, Hsm, Hrs, Hd |- *.
  assert (Hokes : Forall region_ok es.*2).
  { rewrite !fmap_app, !Forall_app in Hok. tauto. }
  destruct (chained_locate es r0 rs rl s) as (es1 & x & es2 & -> & Hx); [done..|lia|].
  destruct (Hrs x) as [Hxk Hxok]; [set_solver|].
  set (m1 := a ++ es1). set (m2 := es2 ++ b).
  assert (Hmm : a ++ (es1 ++ x :: es2) ++ b = m1 ++ x :: m2) by (unfold m1, m2; by rewrite <- !app_assoc).
  rewrite Hmm in Hsm, Hrs, Hd, Hok |- *.
  assert (Hlast : es2 = [] -> rl = x.2).
  { intros ->. rewrite <- Hes, fmap_app in Hl. simpl in Hl. rewrite last_snoc in Hl. congruence. }
  assert (Hcov : s + n <= mr_addr x.2 + mr_size x.2 -> mr_contains s (s + n) x.2 = true).
  { intros ?. unfold mr_contains. rewrite mr_end_ok by done. lia. }
  assert (Hhead : head (es1 ++ x :: es2).*2 = Some r0) by (rewrite Hes; done).
  rewrite <- Hes in Hc, Hl.
  destruct (decide (mr_addr x.2 = s)) as [Heq|Hneq].
  - assert (Hlb : std_lower_bound s (m1 ++ x :: m2) = (m1, x :: m2)).
    { apply span_while_unique; [|simpl; lia]. intros y Hy. simpl.
      apply (sorted_keys_after _ _ _ y) in Hsm as [Hlt _]. specialize (Hlt Hy). lia. }
    rewrite Hlb. destruct (mr_contains s (s + n) x.2) eqn:E1; [done|].
    destruct (match last m1 with Some _ => _ | None => false end); [done|].
    apply (merged_complete a es1 x es2 b s (s + n) r0 rl); try done; [lia| |].
    { revert Hok. unfold m1, m2. by rewrite <- app_assoc. }
    destruct es2; [|simpl; lia]. rewrite (Hlast eq_refl) in Hrl. specialize (Hcov Hrl). done.
  - assert (Hlb : std_lower_bound s (m1 ++ x :: m2) = (m1 ++ [x], m2)).
    { replace (m1 ++ x :: m2) with ((m1 ++ [x]) ++ m2) by by rewrite <- app_assoc.
      apply span_while_unique.
      - intros y [Hy| ->%list_elem_of_singleton]%elem_of_app; simpl; [|lia].
        apply (sorted_keys_after _ _ _ y) in Hsm as [Hlt _]. specialize (Hlt Hy). lia.
      - destruct m2 as [|y m2'] eqn:E2; [done|]. simpl.
        apply (sorted_keys_after _ _ _ y) in Hsm as [_ Hlt]. specialize (Hlt ltac:(by left)).
        assert (Hdy := Hd x y ltac:(set_solver) ltac:(set_solver) Hlt).
        destruct (Hrs y) as [Hyk _]; [set_solver|]. lia. }
    rewrite Hlb, last_snoc. destruct (match m2 with [] => false | _ => _ end); [done|].
    destruct (mr_contains s (s + n) x.2) eqn:E1; [done|].
    destruct es2 as [|y es2].
    { rewrite (Hlast eq_refl) in Hrl. specialize (Hcov Hrl). done. }
    unfold m2. simpl. unfold m1. rewrite <- app_assoc.
    apply (merged_complete a (es1 ++ [x]) y es2 b s (s + n) r0 rl).
    + lia.
    + revert Hok. unfold m1, m2. rewrite <- !app_assoc. done.
    + rewrite <- app_assoc. done.
    + rewrite length_app. simpl. lia.
    + rewrite <- app_assoc. done.
    + rewrite <- app_assoc. done.
    + lia.
    + lia.
Qed.

(** C20: on a store of well-formed, pairwise disjoint regions, the access check
    of a non-null non-empty interval accepts exactly the intervals spanned by a
    run of adjacent regions that are contiguous in address, of one memory kind
    and contiguous in their device mapping; in particular every byte of an
    accepted interval is registered. *)
Theorem CheckMemoryForAccess_spec st side s n :
  store_wf st -> 0 < s -> 0 < n -> is_u64 s -> is_u64 n ->
  HixlMemStore_CheckMemoryForAccess st side s n = true <->
  s + n < 2 ^ 64 /\ run_covers (regions_of st side) s (s + n).
Proof.
  intros Hwf Hs Hn Hus Hun. split; [by apply access_sound|].
  intros [Hb Hc]. by apply access_complete.
Qed.

(** ** Registration keeps the store well-formed and disjoint *)
Section Registration.
Context `{G : GeMath} `{GL : !GeMathLaws G}.

Lemma overflows_spec a b :
  is_u64 a -> is_u64 b -> overflows a b = negb (a + b <? 2 ^ 64).
Proof.
  intros Ha Hb. unfold overflows. rewrite AddOverflow_spec by done.
  destruct (a + b <=? UINT64_MAX) eqn:E; ulia.
Qed.

Lemma region_overlaps_spec s e side r :
  region_ok r -> s < e ->
  region_overlaps s e side r = false <->
  mr_addr r + mr_size r <= s \/ e <= mr_addr r \/
  (side = true /\ s = mr_addr r /\ e = mr_addr r + mr_size r).
Proof.
  intros Hr Hse. unfold region_overlaps, region_ok in *.
  rewrite AddOverflow_spec by ulia.
  assert (Hle : (mr_addr r + mr_size r <=? UINT64_MAX) = true) by ulia. rewrite Hle.
  destruct side; lia.
Qed.

(** What a registration of [s, s + n) on a side may not do: touch a registered
    region, except to repeat a server region exactly. *)
Definition may_register (m : list (Z * MemoryRegion)) (side : bool) (s n : Z) : Prop :=
  0 < s /\ 0 < n /\ s + n < 2 ^ 64 /\
  forall x, x ∈ m ->
    mr_addr x.2 + mr_size x.2 <= s \/ s + n <= mr_addr x.2 \/
    (side = true /\ s = mr_addr x.2 /\ n = mr_size x.2).

Lemma neighbours_suffice m side s n a b :
  regions_wf m -> regions_disjoint m -> 0 < n -> std_lower_bound s m = (a, b) ->
  match b with it :: _ => region_overlaps s (s + n) side it.2 = false | [] => True end ->
  match last a with Some p => region_overlaps s (s + n) side p.2 = false | None => True end ->
  forall x, x ∈ m ->
    mr_addr x.2 + mr_size x.2 <= s \/ s + n <= mr_addr x.2 \/
    (side = true /\ s = mr_addr x.2 /\ n = mr_size x.2).
Proof.
  intros [Hm Hr] Hd Hn E Hit Hp x Hx.
  apply std_lower_bound_spec in E as (-> & Ha & Hb); [|done].
  apply elem_of_app in Hx as [Hx|Hx].
  - destruct (last a) as [p|] eqn:El; [|by apply last_None in El; subst a; apply elem_of_nil in Hx].
    assert (Hpm : p ∈ a) by by apply last_Some_elem_of.
    destruct (Hr p) as [Hpk Hpok]; [set_solver|]. destruct (Hr x) as [Hxk Hxok]; [set_solver|].
    specialize (Ha p Hpm). simpl in Ha. apply region_overlaps_spec in Hp; [|done|lia].
    assert (Hpend : mr_addr p.2 + mr_size p.2 <= s) by lia.
    left. destruct (decide (x.1 < p.1)) as [Hlt|Hge].
    + specialize (Hd x p ltac:(set_solver) ltac:(set_solver) Hlt). unfold region_ok in *. lia.
    + apply last_Some in El as [a' ->]. apply elem_of_app in Hx as [Hx|Hx]; [|set_solver].
      rewrite <- app_assoc in Hm. simpl in Hm.
      apply (sorted_keys_after _ _ _ x) in Hm as [Hm _]. specialize (Hm Hx). lia.
  - destruct b as [|it b]; [by apply elem_of_nil in Hx|].
    destruct (Hr it) as [Hik Hiok]; [set_solver|]. destruct (Hr x) as [Hxk Hxok]; [set_solver|].
    assert (Hig : s <= it.1) by (specialize (Hb it ltac:(by left)); simpl in Hb; lia).
    apply region_overlaps_spec in Hit; [|done|lia].
    apply elem_of_cons in Hx as [-> |Hx].
    { destruct Hit as [?|[?|(? & ? & ?)]]; [by left|by right; left|].
      right; right. repeat split; [done|lia|lia]. }
    apply (sorted_keys_after _ _ _ x) in Hm as [_ Hm]. specialize (Hm Hx).
    specialize (Hd it x ltac:(set_solver) ltac:(set_solver) Hm). unfold region_ok in *.
    right; left. lia.
Qed.

Lemma check_register_spec st side s n :
  store_wf st -> is_u64 s -> is_u64 n ->
  HixlMemStore_CheckMemoryForRegister st side s n = false <->
  may_register (regions_of st side) side s n.
Proof.
  intros Hwf Hus Hun. destruct (Hwf side) as [Hm Hd].
  unfold HixlMemStore_CheckMemoryForRegister, may_register, is_null, nullptr.
  destruct (s =? 0) eqn:E0; [split; [done|lia]|].
  destruct (n =? 0) eqn:E1; [split; [done|lia]|].
  assert (0 < s /\ 0 < n) as [Hs0 Hn0] by ulia.
  rewrite AddOverflow_spec by done.
  destruct (s + n <=? UINT64_MAX) eqn:E2; [|split; [done|]; intros (_ & _ & H & _); ulia].
  assert (Hsn : s + n < 2 ^ 64) by ulia.
  destruct (regions_of st side) as [|x0 m0] eqn:Em.
  { split; [|done]. intros _. repeat split; try lia. by intros x ?%elem_of_nil. }
  rewrite <- Em in *. destruct (std_lower_bound s (regions_of st side)) as [a b] eqn:E.
  pose proof (neighbours_suffice _ side s n a b Hm Hd Hn0 E) as Hnb.
  destruct Hm as [Hm Hr]. apply std_lower_bound_spec in E as (Hab & _ & _); [|done].
  assert (Hall : forall x, x ∈ a ++ b -> region_overlaps s (s + n) side x.2 = true ->
    ~ (mr_addr x.2 + mr_size x.2 <= s \/ s + n <= mr_addr x.2 \/
       (side = true /\ s = mr_addr x.2 /\ n = mr_size x.2))).
  { intros x Hx Ho Hc. rewrite <- Hab in Hx. destruct (Hr x Hx) as [_ Hok].
    assert (region_overlaps s (s + n) side x.2 = false); [|congruence].
    apply region_overlaps_spec; [done|lia|].
    destruct Hc as [?|[?|(? & ? & ?)]]; [by left|by right; left|].
    right; right. repeat split; [done|lia|lia]. }
  destruct (match b with [] => false | _ => _ end) eqn:Eb.
  { split; [done|]. intros (_ & _ & _ & H). destruct b as [|it b]; [done|].
    destruct (Hall it ltac:(set_solver) Eb). apply H. rewrite Hab. set_solver. }
  destruct (match last a with Some _ => _ | None => false end) eqn:Ea.
  { split; [done|]. intros (_ & _ & _ & H). destruct (last a) as [p|] eqn:El; [|done].
    apply last_Some_elem_of in El. destruct (Hall p ltac:(set_solver) Ea). apply H. rewrite Hab. set_solver. }
  split; [|done]. intros _. repeat split; try lia. apply Hnb.
  - by destruct b.
  - by destruct (last a).
Qed.

(** C37: [CheckMemoryForRegister] inspects only the two map neighbours of the
    new interval, and on a well-formed store that is enough: it refuses
    exactly the null, empty, overflowing and overlapping registrations, an
    exact repetition of a server region excepted. *)
Theorem CheckMemoryForRegister_spec st side s n :
  store_wf st -> is_u64 s -> is_u64 n ->
  HixlMemStore_CheckMemoryForRegister st side s n = false <->
  may_register (regions_of st side) side s n.
Proof. apply check_register_spec. Qed.

Lemma set_regions_wf m side s n host dev :
  regions_wf m -> regions_disjoint m -> may_register m side s n ->
  (forall v, (s, v) ∉ m) -> region_ok (mkMemoryRegion s n host dev) ->
  let m' := std_set s (mkMemoryRegion s n host dev) m in
  regions_wf m' /\ regions_disjoint m'.
Proof.
  intros [Hm Hr] Hd (_ & Hn & _ & Hmay) Hnew Hok. simpl.
  assert (Hin : forall x, x ∈ std_set s (mkMemoryRegion s n host dev) m ->
            x = (s, mkMemoryRegion s n host dev) \/ x ∈ m).
  { intros [k v] H. apply std_set_elem in H as [[-> ->]|[_ H]]; [by left|by right|done]. }
  split; [split|].
  - by apply std_set_wf.
  - intros x [-> |Hx]%Hin; [done|by apply Hr].
  - assert (Hdis : forall x, x ∈ m -> mr_addr x.2 + mr_size x.2 <= s \/ s + n <= mr_addr x.2).
    { intros x Hx. destruct (Hmay x Hx) as [?|[?|(_ & Hs & _)]]; [by left|by right|].
      destruct (Hr x Hx) as [Hk _]. destruct x as [k v]; simpl in *. subst k. rewrite <- Hs in Hx.
      by destruct (Hnew v). }
    intros x y Hx Hy Hlt. apply Hin in Hx, Hy.
    destruct Hx as [-> |Hx], Hy as [-> |Hy]; simpl in *.
    + lia.
    + destruct (Hdis y Hy), (Hr y Hy) as [Hk Hy']; unfold region_ok in *; lia.
    + destruct (Hdis x Hx), (Hr x Hx) as [Hk Hx']; unfold region_ok in *; lia.
    + by apply Hd.
Qed.

Lemma erase_regions_wf m s :
  regions_wf m -> regions_disjoint m ->
  regions_wf (std_erase s m) /\ regions_disjoint (std_erase s m).
Proof.
  intros [Hm Hr] Hd.
  assert (Hin : forall x, x ∈ std_erase s m -> x ∈ m).
  { intros [k v] H. by apply std_erase_elem in H as [_ ?]. }
  split; [split|].
  - by apply std_erase_wf.
  - intros x Hx. by apply Hr, Hin.
  - intros x y Hx Hy. apply Hd; by apply Hin.
Qed.

Lemma store_wf_with st (side : bool) m :
  store_wf st -> regions_wf m -> regions_disjoint m ->
  store_wf (if side then mkMemStore m (client_regions_ st) else mkMemStore (server_regions_ st) m).
Proof.
  intros Hwf H1 H2 []; destruct side; simpl; try done;
    [apply (Hwf true)|apply (Hwf false)].
Qed.

End Registration.

(** ** Host addresses are converted correctly *)

(** Byte [b] of a registered region, and the address the transfer uses for it:
    the device mapping of a host region, the address itself otherwise. *)
Definition byte_maps_to (m : list (Z * MemoryRegion)) (b a : Z) : Prop :=
  exists x, x ∈ m /\ mr_addr x.2 <= b < mr_addr x.2 + mr_size x.2 /\
    if mr_is_host_mem x.2
    then mr_register_dev_addr x.2 <> 0 /\ a = mr_register_dev_addr x.2 + (b - mr_addr x.2)
    else a = b.

Lemma find_region_sound st side addr r :
  store_wf st -> HixlMemStore_FindMemoryRegion st side addr = Some r ->
  exists x, x ∈ regions_of st side /\ x.2 = r /\ mr_addr r <= addr < mr_addr r + mr_size r.
Proof.
  intros Hwf. destruct (Hwf side) as [[Hm Hr] _]. unfold HixlMemStore_FindMemoryRegion.
  destruct (regions_of st side) as [|x0 m0] eqn:Em; [done|]. rewrite <- Em in *.
  destruct (std_lower_bound addr (regions_of st side)) as [a b] eqn:E.
  apply std_lower_bound_spec in E as (Hab & _ & _); [|done].
  assert (Hin : forall x, x ∈ a ++ b -> IsAddrInRegion x.2 addr = true ->
    mr_addr x.2 <= addr < mr_addr x.2 + mr_size x.2).
  { intros x Hx. rewrite <- Hab in Hx. destruct (Hr x Hx) as [_ Hok]. unfold IsAddrInRegion.
    rewrite mr_end_ok by done. destruct (addr <? mr_addr x.2) eqn:?; [done|]. lia. }
  destruct b as [|it b].
  - destruct (last a) as [p|] eqn:El; [|done]. apply last_Some_elem_of in El.
    destruct (IsAddrInRegion p.2 addr) eqn:Ei; [|done]. intros [= <-].
    exists p. rewrite Hab. repeat split; [set_solver|apply Hin; [set_solver|done]..].
  - destruct (IsAddrInRegion it.2 addr) eqn:Ei.
    + intros [= <-]. exists it. rewrite Hab. repeat split; [set_solver|apply Hin; [set_solver|done]..].
    + destruct (last a) as [p|] eqn:El; [|done]. apply last_Some_elem_of in El.
      destruct (IsAddrInRegion p.2 addr) eqn:Ep; [|done]. intros [= <-].
      exists p. rewrite Hab. repeat split; [set_solver|apply Hin; [set_solver|done]..].
Qed.

Lemma disjoint_same_region m x y b :
  regions_wf m -> regions_disjoint m -> x ∈ m -> y ∈ m ->
  mr_addr x.2 <= b < mr_addr x.2 + mr_size x.2 ->
  mr_addr y.2 <= b < mr_addr y.2 + mr_size y.2 -> x = y.
Proof.
  intros [Hm Hr] Hd Hx Hy Hbx Hby.
  destruct (Hr x Hx) as [Hkx _], (Hr y Hy) as [Hky _].
  destruct (Ztrichotomy x.1 y.1) as [Hlt|[Heq|Hgt]].
  - specialize (Hd x y Hx Hy Hlt). lia.
  - destruct x as [k v], y as [k' v']; simpl in *. subst k'.
    apply std_find_elem in Hx, Hy; try done. congruence.
  - specialize (Hd y x Hy Hx ltac:(lia)). lia.
Qed.

Lemma convert_one_correct st side buf len ret a inc :
  store_wf st -> 0 < buf -> 0 < len -> is_u64 buf -> is_u64 len ->
  HixlMemStore_CheckMemoryForAccess st side buf len = true ->
  convert_one st side buf = (ret, a, inc) -> ret = SUCCESS ->
  forall k, 0 <= k < len -> byte_maps_to (regions_of st side) (buf + k) (a + k).
Proof.
  intros Hwf Hb0 Hl0 Hub Hul Hacc Hcv -> k Hk.
  destruct (access_sound _ _ _ _ Hwf Hb0 Hl0 Hub Hul Hacc)
    as (Hsn & p & es & q & r0 & rs & rl & Hm & Hes & Hl & Hc & Hlo & Hhi).
  destruct (Hwf side) as [Hrw Hd].
  assert (Hok : Forall region_ok (r0 :: rs)).
  { rewrite <- Hes. pose proof (regions_wf_ok _ Hrw) as H. rewrite Hm, !fmap_app, !Forall_app in H. tauto. }
  assert (Hmem : forall r, r ∈ r0 :: rs -> exists x, x ∈ regions_of st side /\ x.2 = r).
  { intros r Hr. rewrite <- Hes in Hr. apply list_elem_of_fmap in Hr as (x & -> & Hx).
    exists x. split; [|done]. rewrite Hm. set_solver. }
  destruct (chained_byte r0 rs rl buf Hok Hc Hl ltac:(lia)) as (r1 & Hr1 & Hb1 & Hh1 & Hz1 & Ho1).
  destruct (chained_byte r0 rs rl (buf + k) Hok Hc Hl ltac:(lia)) as (r2 & Hr2 & Hb2 & Hh2 & Hz2 & Ho2).
  destruct (Hmem r1 Hr1) as (x1 & Hx1 & <-), (Hmem r2 Hr2) as (x2 & Hx2 & <-).
  unfold convert_one in Hcv.
  destruct (HixlMemStore_FindMemoryRegion st side buf) as [r|] eqn:Ef; [|done].
  apply find_region_sound in Ef as (x & Hx & <- & Hbx); [|done].
  pose proof (disjoint_same_region _ _ _ _ Hrw Hd Hx Hx1 Hbx Hb1) as ->.
  exists x2. split; [done|]. split; [lia|]. rewrite Hh2, <- Hh1.
  destruct (mr_is_host_mem x1.2) eqn:Eh.
  - destruct (is_null (mr_register_dev_addr x1.2)) eqn:En; [done|].
    unfold is_null, nullptr in En. injection Hcv as <- _.
    assert (Hne : mr_register_dev_addr r0 <> 0) by (intros ?; tauto || lia).
    destruct Hrw as [_ Hr]. destruct (Hr x1 Hx1) as [_ Hok1]. unfold region_ok in Hok1.
    specialize (Ho1 Hne). specialize (Ho2 Hne). split; [tauto|].
    rewrite (u64_small (buf - mr_addr x1.2)), u64_small by ulia. lia.
  - injection Hcv as <- _. done.
Qed.

(** Every byte of a descriptor, before and after conversion, on both sides. *)
Definition desc_converted (st : HixlMemStore) (d d' : HixlOneSideOpDesc) : Prop :=
  od_len d' = od_len d /\
  forall k, 0 <= k < od_len d ->
    byte_maps_to (server_regions_ st) (od_remote_buf d + k) (od_remote_buf d' + k) /\
    byte_maps_to (client_regions_ st) (od_local_buf d + k) (od_local_buf d' + k).

Definition desc_u64 (d : HixlOneSideOpDesc) : Prop :=
  is_u64 (od_remote_buf d) /\ is_u64 (od_local_buf d) /\ is_u64 (od_len d).

Lemma ConvertHostAddr_success st d lc rc d' lc' rc' :
  HixlMemStore_ConvertHostAddr st d lc rc = (SUCCESS, d', lc', rc') ->
  exists a1 i1 a2 i2,
    convert_one st true (od_remote_buf d) = (SUCCESS, a1, i1) /\
    convert_one st false (od_local_buf d) = (SUCCESS, a2, i2) /\ d' = mkOpDesc a1 a2 (od_len d).
Proof.
  unfold HixlMemStore_ConvertHostAddr.
  destruct (convert_one st true (od_remote_buf d)) as [[ret1 a1] i1].
  destruct (ret1 =? SUCCESS) eqn:R1; simpl; [|intros [= -> _ _ _]; done].
  destruct (convert_one st false (od_local_buf d)) as [[ret2 a2] i2].
  destruct (ret2 =? SUCCESS) eqn:R2; simpl; [|intros [= -> _ _ _]; done].
  apply Z.eqb_eq in R1, R2. subst. intros [= <- _ _]. by exists a1, i1, a2, i2.
Qed.

Lemma convert_loop_correct st ds lc rc ds' :
  store_wf st -> Forall desc_u64 ds ->
  HixlMemStore_BatchValidateMemoryAccess st ds true = SUCCESS ->
  convert_loop st ds lc rc = (SUCCESS, ds') -> Forall2 (desc_converted st) ds ds'.
Proof.
  intros Hwf. revert lc rc ds'. induction ds as [|d ds IH]; intros lc rc ds' Hu Hv Hc; simpl in *.
  { injection Hc as <-. constructor. }
  inversion Hu as [|? ? (Hur & Hul & Hulen) Hu']; subst.
  destruct (negb (negb (is_null (od_remote_buf d)) && negb (is_null (od_local_buf d)) && negb (od_len d =? 0)))
    eqn:E0; [done|].
  destruct (HixlMemStore_CheckMemoryForAccess st true _ _) eqn:E1; [|done].
  destruct (HixlMemStore_CheckMemoryForAccess st false _ _) eqn:E2; [|done]. simpl in Hv.
  unfold is_null, nullptr in E0.
  destruct (HixlMemStore_ConvertHostAddr st d lc rc) as [[[ret d'] lc'] rc'] eqn:Ec.
  destruct (ret =? SUCCESS) eqn:R; simpl in Hc; [|by injection Hc as -> _].
  apply Z.eqb_eq in R. subst ret. apply ConvertHostAddr_success in Ec as (a1 & i1 & a2 & i2 & C1 & C2 & ->).
  destruct (convert_loop st ds _ _) as [ret' ds''] eqn:Cl. injection Hc as -> <-.
  constructor; [|by eapply IH]. split; [done|]. intros k Hk.
  split; [eapply (convert_one_correct st true)|eapply (convert_one_correct st false)];
    try done; unfold is_uint in *; lia.
Qed.

(** C1: a batch that passed validation and conversion addresses registered
    memory only, byte for byte: byte [k] of each converted buffer is the device
    mapping of byte [k] of the original buffer's own host region, or that byte
    itself in device memory, also when the buffer spans several regions. *)
Theorem BatchConvert_correct st ds ds' :
  store_wf st -> Forall desc_u64 ds ->
  HixlMemStore_BatchValidateMemoryAccess st ds true = SUCCESS ->
  HixlMemStore_BatchConvertHostAddr st ds = (SUCCESS, ds') ->
  Forall2 (desc_converted st) ds ds'.
Proof. intros Hwf Hu Hv Hc. by eapply convert_loop_correct. Qed.

(** ** Witnesses *)

(** Two host regions registered as neighbours, both mapped to the device, and a
    device region on the client side. *)
Definition witness_store : HixlMemStore :=
  mkMemStore
    [(4096, mkMemoryRegion 4096 4096 true 65536); (8192, mkMemoryRegion 8192 4096 true 69632)]
    [(1048576, mkMemoryRegion 1048576 65536 false 0)].

Lemma witness_store_wf : store_wf witness_store.
Proof.
  intros []; (split; [split|]); simpl.
  - repeat constructor.
  - intros x Hx. repeat (apply elem_of_cons in Hx as [-> |Hx]; [unfold region_ok; simpl; lia|]).
    by apply elem_of_nil in Hx.
  - intros x y Hx Hy Hlt. repeat (apply elem_of_cons in Hx as [-> |Hx]); try by apply elem_of_nil in Hx.
    all: repeat (apply elem_of_cons in Hy as [-> |Hy]); try by apply elem_of_nil in Hy.
    all: simpl in *; lia.
  - repeat constructor.
  - intros x Hx. repeat (apply elem_of_cons in Hx as [-> |Hx]; [unfold region_ok; simpl; lia|]).
    by apply elem_of_nil in Hx.
  - intros x y Hx Hy Hlt. apply list_elem_of_singleton in Hx as ->.
    apply list_elem_of_singleton in Hy as ->. simpl in *. lia.
Qed.

Lemma CheckMemoryForAccess_witness :
  HixlMemStore_CheckMemoryForAccess witness_store true 6000 5000 = true /\
  run_covers (server_regions_ witness_store) 6000 11000.
Proof.
  split; [reflexivity|].
  apply (CheckMemoryForAccess_spec witness_store true 6000 5000 witness_store_wf);
    [lia|lia|ulia|ulia|reflexivity].
Defined.


Lemma CheckMemoryForRegister_witness :
  may_register (client_regions_ witness_store) false 512 128.
Proof.
  apply (CheckMemoryForRegister_spec (G := ge_math_ref) witness_store false 512 128 witness_store_wf);
    [ulia|ulia|reflexivity].
Defined.

Lemma BatchConvert_witness :
  Forall2 (desc_converted witness_store) [mkOpDesc 8000 1048600 1000] [mkOpDesc 69440 1048600 1000].
Proof.
  apply (BatchConvert_correct witness_store [mkOpDesc 8000 1048600 1000] _ witness_store_wf);
    [|reflexivity|reflexivity].
  constructor; [|constructor]. repeat split; simpl; lia.
Defined.
