(* ===== verification/Effects.v ===== *)
(** A state, error and interaction monad for the code that drives the device
    runtime.

    A C++ member function that calls the runtime is a computation [M S A]: it
    reads and writes the state [S] (the object), appends every external call
    with the reply it got to the history, and ends with a value ([Ret]), with an
    error status ([Fail], the early [return status] of the checking macros) or
    [Stuck] (a loop that used up its fuel, or an access the C++ standard gives
    no meaning).  The external world is an environment that may choose each
    reply from the whole history, so a theorem that holds for every environment
    holds for every behaviour of the runtime. *)

From S2P Require Import Prelude.

Section Effects.
Context {E : Type -> Type}.

(** One external call and its reply. *)
Inductive Event : Type :=
| Ev (T : Type) (op : E T) (reply : T).

(** The calls made so far, the newest first. *)
Definition History : Type := list Event.

Class Environment : Type := reply_of : forall T : Type, E T -> History -> T.
End Effects.
Arguments Event : clear implicits.
Arguments Ev {E T} op reply.
Arguments History : clear implicits.
Arguments Environment : clear implicits.

Inductive Outcome (A : Type) : Type :=
| Ret (a : A)
| Fail_ (s : Status)
| Stuck.
Arguments Ret {A} a.
Arguments Fail_ {A} s.
Arguments Stuck {A}.

Definition M (E : Type -> Type) (S A : Type) : Type :=
  S -> History E -> Outcome A * S * History E.

Section Combinators.
Context {E : Type -> Type} {S : Type}.

Definition ret {A} (a : A) : M E S A := fun s h => (Ret a, s, h).
Definition fail {A} (e : Status) : M E S A := fun s h => (Fail_ e, s, h).
Definition stuck {A} : M E S A := fun s h => (Stuck, s, h).

Definition bind {A B} (m : M E S A) (k : A -> M E S B) : M E S B := fun s h =>
  match m s h with
  | (Ret a, s', h') => k a s' h'
  | (Fail_ e, s', h') => (Fail_ e, s', h')
  | (Stuck, s', h') => (Stuck, s', h')
  end.

Definition get : M E S S := fun s h => (Ret s, s, h).
Definition put (s' : S) : M E S unit := fun _ h => (Ret tt, s', h).
Definition modify (f : S -> S) : M E S unit := fun s h => (Ret tt, f s, h).

(** [call op]: perform an external call and record it. *)
Definition call {env : Environment E} {T} (op : E T) : M E S T := fun s h =>
  let r := reply_of T op h in (Ret r, s, Ev op r :: h).

(** [attempt m] is the status with which [m] ends: the code that logs a status
    and goes on. *)
Definition attempt {A} (m : M E S A) : M E S (Status + A) := fun s h =>
  match m s h with
  | (Ret a, s', h') => (Ret (inr a), s', h')
  | (Fail_ e, s', h') => (Ret (inl e), s', h')
  | (Stuck, s', h') => (Stuck, s', h')
  end.

(** [finally m f]: a scope guard.  [f] runs when [m] returns, normally or with
    an error, and its own status is dropped. *)
Definition finally {A} (m : M E S A) (f : M E S unit) : M E S A := fun s h =>
  match m s h with
  | (Stuck, s', h') => (Stuck, s', h')
  | (o, s', h') =>
      match f s' h' with
      | (Stuck, s'', h'') => (Stuck, s'', h'')
      | (_, s'', h'') => (o, s'', h'')
      end
  end.

(** [on_fail m f]: a dismissable scope guard, dismissed just before the success
    return. *)
Definition on_fail {A} (m : M E S A) (f : M E S unit) : M E S A := fun s h =>
  match m s h with
  | (Fail_ e, s', h') =>
      match f s' h' with
      | (Stuck, s'', h'') => (Stuck, s'', h'')
      | (_, s'', h'') => (Fail_ e, s'', h'')
      end
  | r => r
  end.

(** [require b e]: HIXL_CHK_BOOL_RET_STATUS. *)
Definition require (b : bool) (e : Status) : M E S unit :=
  if b then ret tt else fail e.

(** Run [m] for every element, in order, stopping at the first error. *)
Fixpoint for_each {A} (l : list A) (m : A -> M E S unit) : M E S unit :=
  match l with
  | [] => ret tt
  | x :: l' => bind (m x) (fun _ => for_each l' m)
  end.

(** A loop of at most [p] rounds.  A round ends with the state of the next one
    ([inl]) or with the result ([inr]); the number of rounds is binary, so a loop
    bounded by a time-out in nanoseconds can still be evaluated. *)
Fixpoint rounds {A B} (p : positive) (body : A -> M E S (A + B)) (a : A) : M E S (A + B) :=
  let again (m : M E S (A + B)) (k : A -> M E S (A + B)) :=
    bind m (fun r => match r with inl a' => k a' | inr b => ret (inr b) end) in
  match p with
  | xH => body a
  | xO p => again (rounds p body a) (rounds p body)
  | xI p => again (body a) (fun a => again (rounds p body a) (rounds p body))
  end.
Definition loop {A B} (p : positive) (body : A -> M E S (A + B)) (a : A) : M E S B :=
  bind (rounds p body a) (fun r => match r with inl _ => stuck | inr b => ret b end).
End Combinators.

(** Run a computation on a part of the state. *)
Definition zoom {E S T A} (view : S -> option T) (upd : T -> S -> S)
    (m : S -> M E T A) : M E S A := fun s h =>
  match view s with
  | None => (Stuck, s, h)
  | Some t => let '(o, t', h') := m s t h in (o, upd t' s, h')
  end.

Declare Scope effect_scope.
Delimit Scope effect_scope with effect.
Bind Scope effect_scope with M.
Notation "'let*' x := m 'in' k" := (bind m (fun x => k))
  (at level 200, x pattern, m at level 100, k at level 200) : effect_scope.
Notation "m ;; k" := (bind m (fun _ => k))
  (at level 100, k at level 200, right associativity) : effect_scope.
#[global] Open Scope effect_scope.

(** * Weakest preconditions

    [wp m Q s h]: started at [s] and [h], [m] ends (it is not [Stuck]) with an
    outcome, a state and a history that satisfy [Q]. *)
Definition wp {E S A} (m : M E S A)
    (Q : Status + A -> S -> History E -> Prop) (s : S) (h : History E) : Prop :=
  match m s h with
  | (Ret a, s', h') => Q (inr a) s' h'
  | (Fail_ e, s', h') => Q (inl e) s' h'
  | (Stuck, _, _) => False
  end.

Section Wp.
Context {E : Type -> Type} {S : Type}.
Implicit Types (s : S) (h : History E).

Lemma wp_ret {A} (a : A) Q s h : Q (inr a) s h -> wp (ret a) Q s h.
Proof. done. Qed.

Lemma wp_fail {A} e (Q : Status + A -> _) s h : Q (inl e) s h -> wp (fail e) Q s h.
Proof. done. Qed.

Lemma wp_get Q s h : Q (inr s) s h -> wp (get : M E S S) Q s h.
Proof. done. Qed.

Lemma wp_put s' Q s h : Q (inr tt) s' h -> wp (put s' : M E S unit) Q s h.
Proof. done. Qed.

Lemma wp_modify f Q s h : Q (inr tt) (f s) h -> wp (modify f : M E S unit) Q s h.
Proof. done. Qed.

Lemma wp_bind {A B} (m : M E S A) (k : A -> M E S B) Q s h :
  wp m (fun o s' h' => match o with
                       | inr a => wp (k a) Q s' h'
                       | inl e => Q (inl e) s' h'
                       end) s h ->
  wp (bind m k) Q s h.
Proof. unfold wp, bind. by destruct (m s h) as [[[a|e|] s'] h']. Qed.

Lemma wp_call {env : Environment E} {T} (op : E T) Q s h :
  (forall r, r = reply_of T op h -> Q (inr r) s (Ev op r :: h)) ->
  wp (call op : M E S T) Q s h.
Proof. intros H. by apply H. Qed.

Lemma wp_mono {A} (m : M E S A) (P Q : Status + A -> S -> History E -> Prop) s h :
  wp m P s h -> (forall o s' h', P o s' h' -> Q o s' h') -> wp m Q s h.
Proof. unfold wp. intros H1 H2. destruct (m s h) as [[[a|e|] s'] h']; auto. Qed.

Lemma wp_attempt {A} (m : M E S A) Q s h :
  wp m (fun o s' h' => Q (inr o) s' h') s h -> wp (attempt m) Q s h.
Proof. unfold wp, attempt. by destruct (m s h) as [[[a|e|] s'] h']. Qed.

Lemma wp_finally {A} (m : M E S A) f Q s h :
  wp m (fun o s' h' => wp f (fun _ s'' h'' => Q o s'' h'') s' h') s h ->
  wp (finally m f) Q s h.
Proof.
  unfold wp, finally. destruct (m s h) as [[[a|e|] s'] h']; auto;
    by destruct (f s' h') as [[[|?|] ?] ?].
Qed.

Lemma wp_on_fail {A} (m : M E S A) f Q s h :
  wp m (fun o s' h' => match o with
                       | inr a => Q (inr a) s' h'
                       | inl e => wp f (fun _ s'' h'' => Q (inl e) s'' h'') s' h'
                       end) s h ->
  wp (on_fail m f) Q s h.
Proof.
  unfold wp, on_fail. destruct (m s h) as [[[a|e|] s'] h']; auto.
  by destruct (f s' h') as [[[|?|] ?] ?].
Qed.

Lemma wp_require b e Q s h :
  (b = true -> Q (inr tt) s h) -> (b = false -> Q (inl e) s h) ->
  wp (require b e : M E S unit) Q s h.
Proof. destruct b; unfold wp, require; simpl; auto. Qed.

(** What a run that was computed satisfies. *)
Lemma wp_run {A} (m : M E S A) Q s h a :
  wp m Q s h -> (m s h).1.1 = Ret a -> Q (inr a) (m s h).1.2 (m s h).2.
Proof. unfold wp. destruct (m s h) as [[o s'] h']. simpl. intros H ->. exact H. Qed.

(** The invariant rule of [for_each]. *)
Lemma wp_for_each {A} (l : list A) (m : A -> M E S unit)
    (I : S -> History E -> Prop) (X : Status -> S -> History E -> Prop) s h :
  I s h ->
  (forall a s' h', a ∈ l -> I s' h' ->
     wp (m a) (fun o s'' h'' => match o with inr _ => I s'' h'' | inl e => X e s'' h'' end) s' h') ->
  wp (for_each l m) (fun o s'' h'' => match o with inr _ => I s'' h'' | inl e => X e s'' h'' end) s h.
Proof.
  revert s h. induction l as [|a l IH]; intros s h Hi Hm; simpl; [by apply wp_ret|].
  apply wp_bind. eapply wp_mono; [apply Hm; [by left | done]|].
  intros [e|[]] s' h' H; [done|]. apply IH; [done|]. intros a' s'' h'' Ha. apply Hm. by right.
Qed.

(** The rule of [loop]: an invariant with a measure that every round decreases. *)
Section Loop.
Context {A B : Type} (body : A -> M E S (A + B)) (I : Z -> A -> S -> History E -> Prop)
        (Q : Status + B -> S -> History E -> Prop).
Hypothesis I_nonneg : forall n a s h, I n a s h -> 0 <= n.
Hypothesis body_spec : forall n a s h, I n a s h ->
  wp (body a) (fun o s' h' =>
    match o with
    | inl e => Q (inl e) s' h'
    | inr (inr b) => Q (inr b) s' h'
    | inr (inl a') => exists n', n' < n /\ I n' a' s' h'
    end) s h.

Lemma wp_again (m : M E S (A + B)) (k : A -> M E S (A + B)) d1 d2 n s h :
  wp m (fun o s' h' =>
    match o with
    | inl e => Q (inl e) s' h'
    | inr (inr b) => Q (inr b) s' h'
    | inr (inl a') => exists n', n' <= n - d1 /\ I n' a' s' h'
    end) s h ->
  (forall n' a' s' h', I n' a' s' h' ->
    wp (k a') (fun o s'' h'' =>
      match o with
      | inl e => Q (inl e) s'' h''
      | inr (inr b) => Q (inr b) s'' h''
      | inr (inl a'') => exists n'', n'' <= n' - d2 /\ I n'' a'' s'' h''
      end) s' h') ->
  wp (bind m (fun r => match r with inl a' => k a' | inr b => ret (inr b) end)) (fun o s' h' =>
    match o with
    | inl e => Q (inl e) s' h'
    | inr (inr b) => Q (inr b) s' h'
    | inr (inl a') => exists n', n' <= n - (d1 + d2) /\ I n' a' s' h'
    end) s h.
Proof.
  intros Hm Hk. apply wp_bind. eapply wp_mono; [exact Hm|]. intros [e|[a'|b]] s' h' H; [done| |by apply wp_ret].
  destruct H as (n' & Hn' & HI). eapply wp_mono; [by apply (Hk n')|].
  intros [e|[a''|b]] s'' h'' H; [done| |done]. destruct H as (n'' & Hn'' & HI'). exists n''. split; [lia|done].
Qed.

Lemma wp_rounds p n a s h :
  I n a s h ->
  wp (rounds p body a) (fun o s' h' =>
    match o with
    | inl e => Q (inl e) s' h'
    | inr (inr b) => Q (inr b) s' h'
    | inr (inl a') => exists n', n' <= n - Z.pos p /\ I n' a' s' h'
    end) s h.
Proof.
  revert n a s h. induction p as [p IH|p IH|]; intros n a s h HI; cbn [rounds].
  - replace (Z.pos p~1) with (1 + (Z.pos p + Z.pos p)) by lia. apply wp_again.
    + eapply wp_mono; [by apply body_spec|]. intros [e|[a'|b]] s' h' H; [done| |done].
      destruct H as (n' & Hn' & HI'). exists n'. split; [lia|done].
    + intros n' a' s' h' HI'. apply wp_again; [by apply IH|]. intros. by apply IH.
  - replace (Z.pos p~0) with (Z.pos p + Z.pos p) by lia. apply wp_again; [by apply IH|]. intros. by apply IH.
  - eapply wp_mono; [by apply body_spec|]. intros [e|[a'|b]] s' h' H; [done| |done].
    destruct H as (n' & Hn' & HI'). exists n'. split; [lia|done].
Qed.

Lemma wp_loop p n a s h : n < Z.pos p -> I n a s h -> wp (loop p body a) Q s h.
Proof.
  intros Hp HI. apply wp_bind. eapply wp_mono; [by apply wp_rounds|].
  intros [e|[a'|b]] s' h' H; [done| |by apply wp_ret].
  destruct H as (n' & Hn' & HI'). apply I_nonneg in HI'. lia.
Qed.
End Loop.
End Wp.

Lemma wp_zoom {E S T A} (view : S -> option T) upd (m : S -> M E T A) Q s h t :
  view s = Some t ->
  wp (m s) (fun o t' h' => Q o (upd t' s) h') t h -> wp (zoom view upd m) Q s h.
Proof.
  unfold wp, zoom. intros ->. by destruct (m s t h) as [[[a|e|] t'] h'].
Qed.

(** * What a computation emits

    [emits P m]: wherever it starts, and however it ends, [m] only adds calls that
    satisfy [P] to the history. *)
Definition emits {E S A} (P : Event E -> Prop) (m : M E S A) : Prop :=
  forall s h, exists t, snd (m s h) = t ++ h /\ Forall P t.

Section Emits.
Context {E : Type -> Type} {S : Type} (P : Event E -> Prop).

Lemma emits_pure {A} (m : M E S A) : (forall s h, snd (m s h) = h) -> emits P m.
Proof. intros H s h. exists []. by rewrite H. Qed.

Lemma emits_ret {A} (a : A) : emits P (ret a : M E S A).
Proof. by apply emits_pure. Qed.
Lemma emits_fail {A} e : emits P (fail e : M E S A).
Proof. by apply emits_pure. Qed.
Lemma emits_stuck {A} : emits P (stuck : M E S A).
Proof. by apply emits_pure. Qed.
Lemma emits_get : emits P (get : M E S S).
Proof. by apply emits_pure. Qed.
Lemma emits_put s : emits P (put s : M E S unit).
Proof. by apply emits_pure. Qed.
Lemma emits_modify f : emits P (modify f : M E S unit).
Proof. by apply emits_pure. Qed.
Lemma emits_require b e : emits P (require b e : M E S unit).
Proof. apply emits_pure. by destruct b. Qed.

Lemma emits_call {env : Environment E} {T} (op : E T) :
  (forall r, P (Ev op r)) -> emits P (call op : M E S T).
Proof. intros H s h. eexists [_]. split; [done|]. by constructor. Qed.

Lemma emits_bind {A B} (m : M E S A) (k : A -> M E S B) :
  emits P m -> (forall a, emits P (k a)) -> emits P (bind m k).
Proof.
  intros Hm Hk s h. destruct (Hm s h) as (t & Ht & Hp). unfold bind.
  destruct (m s h) as [[[a|e|] s'] h']; simpl in *; subst h'; [|by exists t..].
  destruct (Hk a s' (t ++ h)) as (t' & -> & Hp'). exists (t' ++ t).
  split; [by rewrite app_assoc|]. by apply Forall_app.
Qed.

Lemma emits_attempt {A} (m : M E S A) : emits P m -> emits P (attempt m).
Proof.
  intros Hm s h. destruct (Hm s h) as (t & Ht & Hp). exists t. unfold attempt.
  by destruct (m s h) as [[[a|e|] s'] h'].
Qed.

Lemma emits_for_each {A} (l : list A) (m : A -> M E S unit) :
  (forall a, emits P (m a)) -> emits P (for_each l m).
Proof. intros Hm. induction l; simpl; [apply emits_ret|]. by apply emits_bind. Qed.

Lemma emits_rounds {A B} p (body : A -> M E S (A + B)) a :
  (forall a, emits P (body a)) -> emits P (rounds p body a).
Proof.
  intros Hb. revert a. induction p as [p IH|p IH|]; intros a; cbn [rounds]; [| |done].
  - apply emits_bind; [done|]. intros [a'|b]; [|apply emits_ret].
    apply emits_bind; [done|]. intros [a''|b]; [done|apply emits_ret].
  - apply emits_bind; [done|]. intros [a'|b]; [done|apply emits_ret].
Qed.

Lemma emits_loop {A B} p (body : A -> M E S (A + B)) a :
  (forall a, emits P (body a)) -> emits P (loop p body a).
Proof.
  intros Hb. apply emits_bind; [by apply emits_rounds|]. intros [a'|b]; [apply emits_stuck|apply emits_ret].
Qed.

Lemma emits_on_fail {A} (m : M E S A) f : emits P m -> emits P f -> emits P (on_fail m f).
Proof.
  intros Hm Hf s h. destruct (Hm s h) as (t & Ht & Hp). unfold on_fail.
  destruct (m s h) as [[[a|e|] s'] h']; simpl in *; subst h'; [by exists t| |by exists t].
  destruct (Hf s' (t ++ h)) as (t' & Ht' & Hp'). exists (t' ++ t).
  rewrite <- app_assoc, Forall_app. by destruct (f s' (t ++ h)) as [[[|?|] ?] ?].
Qed.

Lemma emits_finally {A} (m : M E S A) f : emits P m -> emits P f -> emits P (finally m f).
Proof.
  intros Hm Hf s h. destruct (Hm s h) as (t & Ht & Hp). unfold finally.
  destruct (Hf (m s h).1.2 (t ++ h)) as (t' & Ht' & Hp').
  destruct (m s h) as [[[a|e|] s'] h']; simpl in *; subst h'; [| |by exists t];
    (exists (t' ++ t); rewrite <- app_assoc, Forall_app; by destruct (f s' (t ++ h)) as [[[|?|] ?] ?]).
Qed.

(** Both a postcondition and the calls of the run. *)
Lemma wp_emits {A} (m : M E S A) Q s h :
  emits P m -> wp m Q s h ->
  wp m (fun o s' h' => Q o s' h' /\ exists t, h' = t ++ h /\ Forall P t) s h.
Proof.
  intros He Hw. destruct (He s h) as (t & Ht & Hp). unfold wp in *.
  destruct (m s h) as [[[a|e|] s'] h']; simpl in *; eauto.
Qed.
End Emits.

Lemma emits_zoom {E S T A} (view : S -> option T) upd (m : S -> M E T A) P :
  (forall s, emits P (m s)) -> emits P (zoom view upd m).
Proof.
  intros Hm s h. unfold zoom. destruct (view s) as [t|]; [|by exists []].
  destruct (Hm s t h) as (t' & E1 & HP). exists t'. by destruct (m s t h) as [[o s'] h'].
Qed.

Create HintDb emits discriminated.
#[export] Hint Resolve emits_ret emits_fail emits_stuck emits_get emits_put emits_modify emits_require
  emits_attempt emits_for_each emits_loop emits_on_fail emits_finally : emits.

(** Decompose a computation into its calls. *)
Ltac emits_step :=
  lazymatch goal with
  | |- forall _, _ => intros ?
  | |- emits _ (bind _ _) => apply emits_bind
  | |- emits _ (on_fail _ _) => apply emits_on_fail
  | |- emits _ (finally _ _) => apply emits_finally
  | |- emits _ (call _) => apply emits_call
  | |- emits _ (match ?x with _ => _ end) => destruct x
  | |- emits _ (let _ := _ in _) => cbv zeta
  | |- emits _ _ => solve [auto with emits] || (progress auto with emits)
  end.
Ltac solve_emits := repeat emits_step.

(** * The largest value of a measure in a history, for environments that number their
    replies *)
Fixpoint highest {E} (f : Event E -> Z) (h : History E) : Z :=
  match h with [] => 0 | e :: h => Z.max (f e) (highest f h) end.

Lemma highest_nonneg {E} (f : Event E -> Z) h : 0 <= highest f h.
Proof. induction h; simpl; lia. Qed.

Lemma highest_elem {E} (f : Event E -> Z) h e : e ∈ h -> f e <= highest f h.
Proof.
  induction h as [|x h IH]; simpl; [by intros ?%elem_of_nil|].
  intros [->|H]%elem_of_cons; [lia|]. specialize (IH H). lia.
Qed.
