(* ===== verification/Conc.v ===== *)
(** Threads over a shared state.

    A thread runs a [Prog]: a tree of atomic blocks, computations of Effects that run
    between two acquisitions of locks; other threads run between the blocks.  A block
    may wait for a condition on the shared state (joining a thread, a condition
    variable).

    Programs are verified one by one: each thread holds a token of type [D] that
    says what it is in the middle of, an invariant relates the tokens of all threads
    to the shared state and the history, and a block is verified against the
    invariant with the tokens of the other threads arbitrary. *)

From S2P Require Import Prelude Effects.

Section Programs.
Context {E : Type -> Type} {S : Type}.

Inductive Prog (A : Type) : Type :=
| Done (o : Status + A)
| Block {B : Type} (ready : S -> bool) (m : M E S B) (k : Status + B -> Prog A).
Arguments Done {A} o.
Arguments Block {A B} ready m k.

Definition always (_ : S) : bool := true.
Definition pret {A} (a : A) : Prog A := Done (inr a).
Definition pfail {A} (e : Status) : Prog A := Done (inl e).
(** One atomic block. *)
Definition atomic {A} (m : M E S A) : Prog A := Block always m Done.
(** Wait until [b] holds, then run [m] at once. *)
Definition await {A} (b : S -> bool) (m : M E S A) : Prog A := Block b m Done.

(** The program that goes on with the outcome of another. *)
Fixpoint pfollow {A B} (p : Prog A) (k : Status + A -> Prog B) : Prog B :=
  match p with
  | Done o => k o
  | Block b m k' => Block b m (fun o => pfollow (k' o) k)
  end.
Definition pbind {A B} (p : Prog A) (k : A -> Prog B) : Prog B :=
  pfollow p (fun o => match o with inl e => pfail e | inr a => k a end).
Definition pattempt {A} (p : Prog A) : Prog (Status + A) := pfollow p pret.
(** A scope guard, and one that is dismissed before the success return. *)
Definition pfinally {A} (p : Prog A) (g : Prog unit) : Prog A :=
  pfollow p (fun o => pfollow g (fun _ => Done o)).
Definition pon_fail {A} (p : Prog A) (g : Prog unit) : Prog A :=
  pfollow p (fun o => match o with inl e => pfollow g (fun _ => pfail e) | inr a => pret a end).
Definition prequire (b : bool) (e : Status) : Prog unit := if b then pret tt else pfail e.
Fixpoint pfor_each {A} (l : list A) (p : A -> Prog unit) : Prog unit :=
  match l with
  | [] => pret tt
  | x :: l => pbind (p x) (fun _ => pfor_each l p)
  end.
(** The status is only logged. *)
Definition plog {A} (p : Prog A) : Prog unit := pfollow p (fun _ => pret tt).
End Programs.
Arguments Prog : clear implicits.
Arguments Done {E S A} o.
Arguments Block {E S A B} ready m k.

(** A program on a part of the state. *)
Fixpoint pzoom {E S T A} (view : S -> T) (upd : T -> S -> S) (p : Prog E T A) : Prog E S A :=
  match p with
  | Done o => Done o
  | Block b m k => Block (fun s => b (view s)) (zoom (fun s => Some (view s)) upd (fun _ => m)) (fun o => pzoom view upd (k o))
  end.

Declare Scope prog_scope.
Delimit Scope prog_scope with prog.
Bind Scope prog_scope with Prog.
Notation "'let!' x := p 'in' k" := (pbind p (fun x => k))
  (at level 200, x pattern, p at level 100, k at level 200) : prog_scope.
Notation "p ;;; k" := (pbind p (fun _ => k))
  (at level 100, k at level 200, right associativity) : prog_scope.
#[global] Open Scope prog_scope.

(** * Verification of one program *)
Section Logic.
Context {E : Type -> Type} {S D K : Type}.
(** [I ds s h]: the threads of these kinds hold these tokens. *)
Variable I : list (K * D) -> S -> History E -> Prop.
Variable k : K.
Implicit Types (d : D) (ds : list (K * D)) (s : S) (h : History E).

Fixpoint pwp {A} (p : Prog E S A) (d : D) (Q : Status + A -> D -> Prop) : Prop :=
  match p with
  | Done o => Q o d
  | Block b m kont => forall ds s h, I ((k, d) :: ds) s h -> b s = true ->
      wp m (fun o s' h' => exists d', I ((k, d') :: ds) s' h' /\ pwp (kont o) d' Q) s h
  end.

Lemma pwp_done {A} (o : Status + A) d (Q : Status + A -> D -> Prop) : Q o d -> pwp (Done o) d Q.
Proof. done. Qed.

Lemma pwp_mono {A} (p : Prog E S A) d (P Q : Status + A -> D -> Prop) :
  pwp p d P -> (forall o d', P o d' -> Q o d') -> pwp p d Q.
Proof.
  intros H HPQ. revert d H. induction p as [o|B b m kont IH]; intros d H; [by apply HPQ|]. cbn [pwp] in *.
  intros ds s h HI Hb. eapply wp_mono; [by apply H|]. intros o s' h' (d' & HI' & Hk). exists d'. split; [done|]. by apply IH.
Qed.

Lemma pwp_follow {A B} (p : Prog E S A) (f : Status + A -> Prog E S B) d (Q : Status + B -> D -> Prop) :
  pwp p d (fun o d' => pwp (f o) d' Q) -> pwp (pfollow p f) d Q.
Proof.
  revert d. induction p as [o|C b m kont IH]; intros d H; [done|]. cbn [pfollow pwp] in *.
  intros ds s h HI Hb. eapply wp_mono; [by apply H|]. intros o s' h' (d' & HI' & Hk). exists d'. split; [done|]. by apply IH.
Qed.

Lemma pwp_bind {A B} (p : Prog E S A) (f : A -> Prog E S B) d (Q : Status + B -> D -> Prop) :
  pwp p d (fun o d' => match o with inl e => Q (inl e) d' | inr a => pwp (f a) d' Q end) -> pwp (pbind p f) d Q.
Proof. intros H. apply pwp_follow. eapply pwp_mono; [exact H|]. by intros [e|a] d' H'. Qed.

Lemma pwp_attempt {A} (p : Prog E S A) d (Q : Status + (Status + A) -> D -> Prop) :
  pwp p d (fun o d' => Q (inr o) d') -> pwp (pattempt p) d Q.
Proof. intros H. by apply pwp_follow. Qed.

Lemma pwp_log {A} (p : Prog E S A) d (Q : Status + unit -> D -> Prop) :
  pwp p d (fun _ d' => Q (inr tt) d') -> pwp (plog p) d Q.
Proof. intros H. by apply pwp_follow. Qed.

Lemma pwp_finally {A} (p : Prog E S A) g d (Q : Status + A -> D -> Prop) :
  pwp p d (fun o d' => pwp g d' (fun _ d'' => Q o d'')) -> pwp (pfinally p g) d Q.
Proof.
  intros H. apply pwp_follow. eapply pwp_mono; [exact H|]. intros o d' H'. apply pwp_follow.
  eapply pwp_mono; [exact H'|]. done.
Qed.

Lemma pwp_on_fail {A} (p : Prog E S A) g d (Q : Status + A -> D -> Prop) :
  pwp p d (fun o d' => match o with
                       | inl e => pwp g d' (fun _ d'' => Q (inl e) d'')
                       | inr a => Q (inr a) d'
                       end) -> pwp (pon_fail p g) d Q.
Proof.
  intros H. apply pwp_follow. eapply pwp_mono; [exact H|]. intros [e|a] d' H'; [|done]. apply pwp_follow.
  eapply pwp_mono; [exact H'|]. done.
Qed.

Lemma pwp_require b e d (Q : Status + unit -> D -> Prop) :
  (b = true -> Q (inr tt) d) -> (b = false -> Q (inl e) d) -> pwp (prequire b e) d Q.
Proof. destruct b; cbn; auto. Qed.

Lemma pwp_atomic {A} (m : M E S A) d (Q : Status + A -> D -> Prop) :
  (forall ds s h, I ((k, d) :: ds) s h -> wp m (fun o s' h' => exists d', I ((k, d') :: ds) s' h' /\ Q o d') s h) ->
  pwp (atomic m) d Q.
Proof. intros H ds s h HI _. by apply H. Qed.

Lemma pwp_await {A} (b : S -> bool) (m : M E S A) d (Q : Status + A -> D -> Prop) :
  (forall ds s h, I ((k, d) :: ds) s h -> b s = true ->
    wp m (fun o s' h' => exists d', I ((k, d') :: ds) s' h' /\ Q o d') s h) ->
  pwp (await b m) d Q.
Proof. done. Qed.

(** A program on a part of the state: one block at a time. *)
Lemma pwp_zoom_follow {T A B} (view : S -> T) upd (p : Prog E T A) (f : Status + A -> Prog E T B) d (Q : Status + B -> D -> Prop) :
  pwp (pzoom view upd p) d (fun o d' => pwp (pzoom view upd (f o)) d' Q) -> pwp (pzoom view upd (pfollow p f)) d Q.
Proof.
  revert d. induction p as [o|C b m kont IH]; intros d H; [done|]. cbn [pfollow pzoom pwp] in *.
  intros ds s h HI Hb. eapply wp_mono; [by apply H|]. intros o s' h' (d' & HI' & Hk). exists d'. split; [done|]. by apply IH.
Qed.
Lemma pwp_zoom_bind {T A B} (view : S -> T) upd (p : Prog E T A) (f : A -> Prog E T B) d (Q : Status + B -> D -> Prop) :
  pwp (pzoom view upd p) d (fun o d' => match o with inl e => Q (inl e) d' | inr a => pwp (pzoom view upd (f a)) d' Q end) ->
  pwp (pzoom view upd (pbind p f)) d Q.
Proof. intros H. apply pwp_zoom_follow. eapply pwp_mono; [exact H|]. by intros [e|a] d' H'. Qed.
Lemma pwp_zoom_await {T A} (view : S -> T) upd (b : T -> bool) (m : M E T A) d (Q : Status + A -> D -> Prop) :
  (forall ds s h, I ((k, d) :: ds) s h -> b (view s) = true ->
    wp m (fun o t h' => exists d', I ((k, d') :: ds) (upd t s) h' /\ Q o d') (view s) h) ->
  pwp (pzoom view upd (await b m)) d Q.
Proof. intros H ds s h HI Hb. eapply wp_zoom; [done|]. by apply H. Qed.
Lemma pwp_zoom_atomic {T A} (view : S -> T) upd (m : M E T A) d (Q : Status + A -> D -> Prop) :
  (forall ds s h, I ((k, d) :: ds) s h -> wp m (fun o t h' => exists d', I ((k, d') :: ds) (upd t s) h' /\ Q o d') (view s) h) ->
  pwp (pzoom view upd (atomic m)) d Q.
Proof. intros H. apply pwp_zoom_await. intros ds s h HI _. by apply H. Qed.

(** The invariant rule of the loop over a list. *)
Lemma pwp_for_each {A} (l : list A) (p : A -> Prog E S unit) d
    (J : D -> Prop) (Q : Status + unit -> D -> Prop) :
  J d -> (forall a d', a ∈ l -> J d' -> pwp (p a) d' (fun o d'' => match o with inr _ => J d'' | inl e => Q (inl e) d'' end)) ->
  (forall d', J d' -> Q (inr tt) d') -> pwp (pfor_each l p) d Q.
Proof.
  intros HJ Hp HQ. revert d HJ. induction l as [|a l IH]; intros d HJ; cbn [pfor_each]; [by apply HQ|].
  apply pwp_bind. eapply pwp_mono; [apply Hp; [by left|done]|]. intros [e|[]] d' H; [done|].
  apply IH; [|done]. intros a' d'' Ha. apply Hp. by right.
Qed.
End Logic.

(** * Threads *)
Section Threads.
Context {E : Type -> Type} {S D K : Type}.

(** What a thread is for, and what is left of it. *)
Record Thread := { th_kind : K; th_prog : Prog E S unit }.
Record World := { w_threads : list Thread; w_state : S; w_history : History E }.

(** The threads that may start: [start s ts k p s']. *)
Variable start : S -> list K -> K -> Prog E S unit -> S -> Prop.
(** What the end of a thread leaves. *)
Variable finish : K -> S -> S.

Inductive step : World -> World -> Prop :=
| step_block t1 t2 k B (b : S -> bool) (m : M E S B) (kont : Status + B -> Prog E S unit) s h o s' h' :
    b s = true -> m s h = (o, s', h') ->
    step {| w_threads := t1 ++ {| th_kind := k; th_prog := Block b m kont |} :: t2; w_state := s; w_history := h |}
         {| w_threads := t1 ++ {| th_kind := k;
              th_prog := match o with Ret a => kont (inr a) | Fail_ e => kont (inl e) | Stuck => Block b m kont end |} :: t2;
            w_state := s'; w_history := h' |}
| step_done t1 t2 k o s h :
    step {| w_threads := t1 ++ {| th_kind := k; th_prog := Done o |} :: t2; w_state := s; w_history := h |}
         {| w_threads := t1 ++ t2; w_state := finish k s; w_history := h |}
| step_start ts k p s s' h :
    start s (th_kind <$> ts) k p s' ->
    step {| w_threads := ts; w_state := s; w_history := h |}
         {| w_threads := {| th_kind := k; th_prog := p |} :: ts; w_state := s'; w_history := h |}.

(** A block that could not go on. *)
Inductive stuck_at : World -> Prop :=
| stuck_block t1 t2 k B (b : S -> bool) (m : M E S B) kont s h s' h' :
    b s = true -> m s h = (Stuck, s', h') ->
    stuck_at {| w_threads := t1 ++ {| th_kind := k; th_prog := Block b m kont |} :: t2; w_state := s; w_history := h |}.

Definition steps : World -> World -> Prop := rtc step.

(** ** Running one thread *)

(** Up to [n] blocks of the thread at [i], as long as they may run and do not get stuck. *)
Fixpoint run_at (i n : nat) (W : World) : World :=
  match n with
  | O => W
  | Datatypes.S n =>
      match w_threads W !! i with
      | Some {| th_kind := k; th_prog := Block b m kont |} =>
          if b (w_state W) then
            match m (w_state W) (w_history W) with
            | (Stuck, _, _) => W
            | (Ret a, s', h') =>
                run_at i n {| w_threads := <[i := {| th_kind := k; th_prog := kont (inr a) |}]> (w_threads W); w_state := s'; w_history := h' |}
            | (Fail_ e, s', h') =>
                run_at i n {| w_threads := <[i := {| th_kind := k; th_prog := kont (inl e) |}]> (w_threads W); w_state := s'; w_history := h' |}
            end
          else W
      | _ => W
      end
  end.
(** The thread at [i] is over. *)
Definition end_at (i : nat) (W : World) : World :=
  match w_threads W !! i with
  | Some {| th_kind := k; th_prog := Done _ |} =>
      {| w_threads := delete i (w_threads W); w_state := finish k (w_state W); w_history := w_history W |}
  | _ => W
  end.

Lemma run_at_steps i n W : steps W (run_at i n W).
Proof.
  revert W. induction n as [|n IH]; intros W; [apply rtc_refl|]. cbn [run_at].
  destruct (w_threads W !! i) as [[k [o|B b m kont]]|] eqn:Ei; [apply rtc_refl| |apply rtc_refl].
  destruct (b (w_state W)) eqn:Hb; [|apply rtc_refl]. destruct W as [ts s h]. cbn in *.
  pose proof (take_drop_middle _ _ _ Ei) as Ets.
  destruct (m s h) as [[o s'] h'] eqn:Em.
  assert (Hs : forall p, p = match o with Ret a => kont (inr a) | Fail_ e => kont (inl e) | Stuck => Block b m kont end ->
    step {| w_threads := ts; w_state := s; w_history := h |}
         {| w_threads := <[i := {| th_kind := k; th_prog := p |}]> ts; w_state := s'; w_history := h' |}).
  { intros p ->. rewrite (insert_take_drop _ _ _ (lookup_lt_Some _ _ _ Ei)). rewrite <- Ets at 1. by apply step_block. }
  destruct o as [a|e|]; [| |apply rtc_refl]; (eapply rtc_l; [by apply Hs|apply IH]).
Qed.
Lemma end_at_steps i W : steps W (end_at i W).
Proof.
  unfold end_at. destruct (w_threads W !! i) as [[k [o|B b m kont]]|] eqn:Ei; [|apply rtc_refl..].
  destruct W as [ts s h]. cbn in *. pose proof (take_drop_middle _ _ _ Ei) as Ets. apply rtc_once.
  rewrite delete_take_drop. rewrite <- Ets at 1. apply step_done.
Qed.

(** ** Soundness *)
Variable I : list (K * D) -> S -> History E -> Prop.
(** The tokens of a thread of kind [k] at its end, with this outcome. *)
Variable final : K -> Status + unit -> D -> Prop.
Hypothesis I_perm : forall ds ds' s h, ds ≡ₚ ds' -> I ds s h -> I ds' s h.
Hypothesis I_finish : forall k o d ds s h, final k o d -> I ((k, d) :: ds) s h -> I ds (finish k s) h.
Definition verified (k : K) (p : Prog E S unit) (d : D) : Prop := pwp I k p d (final k).
Hypothesis I_start : forall ds s h k p s', I ds s h -> start s ds.*1 k p s' ->
  exists d, I ((k, d) :: ds) s' h /\ verified k p d.

Definition world_ok (W : World) : Prop :=
  exists ds, I ds (w_state W) (w_history W) /\
    Forall2 (fun t kd => th_kind t = kd.1 /\ verified kd.1 (th_prog t) kd.2) (w_threads W) ds.

Lemma not_stuck W : world_ok W -> ~ stuck_at W.
Proof using I_perm.
  intros (ds & HI & Hds) Hs. destruct Hs as [t1 t2 k B b m kont s h s' h' Hb Hm]. cbn in *.
  apply Forall2_app_inv_l in Hds as (d1 & d2' & _ & Hds & ->).
  apply Forall2_cons_inv_l in Hds as ([k' d] & d2 & [Ek Hv] & _ & ->). cbn in *. subst k'.
  apply (I_perm _ ((k, d) :: d1 ++ d2)) in HI; [|symmetry; apply Permutation_middle].
  specialize (Hv _ _ _ HI Hb). unfold wp in Hv. by rewrite Hm in Hv.
Qed.

Lemma step_ok W W' : world_ok W -> step W W' -> world_ok W'.
Proof using I_perm I_finish I_start.
  intros (ds & HI & Hds) Hs. destruct Hs as [t1 t2 k B b m kont s h o s' h' Hb Hm|t1 t2 k o s h|ts k p s s' h Hst]; cbn in *.
  - apply Forall2_app_inv_l in Hds as (d1 & d2' & H1 & Hds & ->).
    apply Forall2_cons_inv_l in Hds as ([k' d] & d2 & [Ek Hv] & H2 & ->). cbn in *. subst k'.
    apply (I_perm _ ((k, d) :: d1 ++ d2)) in HI; [|symmetry; apply Permutation_middle].
    specialize (Hv _ _ _ HI Hb). unfold wp in Hv. rewrite Hm in Hv.
    assert (Hd : exists d', I ((k, d') :: d1 ++ d2) s' h' /\ verified k
      (match o with Ret a => kont (inr a) | Fail_ e => kont (inl e) | Stuck => Block b m kont end) d') by (by destruct o).
    destruct Hd as (d' & HI' & Hv'). exists (d1 ++ (k, d') :: d2). split.
    + eapply I_perm; [|exact HI']. apply Permutation_middle.
    + apply Forall2_app; [done|]. by constructor.
  - apply Forall2_app_inv_l in Hds as (d1 & d2' & H1 & Hds & ->).
    apply Forall2_cons_inv_l in Hds as ([k' d] & d2 & [Ek Hv] & H2 & ->). cbn in *. subst k'.
    exists (d1 ++ d2). split; [|by apply Forall2_app]. eapply I_finish; [exact Hv|].
    eapply I_perm; [|exact HI]. symmetry. apply Permutation_middle.
  - assert (Ek : th_kind <$> ts = ds.*1).
    { clear -Hds. induction Hds as [|t [k d] ts ds [E1 _] _ IH]; [done|]. cbn in *. by rewrite E1, IH. }
    rewrite Ek in Hst. destruct (I_start _ _ _ _ _ _ HI Hst) as (d & HI' & Hv).
    exists ((k, d) :: ds). split; [done|]. by constructor.
Qed.

(** Whatever the threads do: the invariant holds, and no block gets stuck. *)
Theorem steps_ok W W' : world_ok W -> steps W W' -> world_ok W' /\ ~ stuck_at W'.
Proof using I_perm I_finish I_start.
  intros H Hs. assert (H' : world_ok W') by (induction Hs; [done|eauto using step_ok]).
  split; [done|]. by apply not_stuck.
Qed.
End Threads.
Arguments Thread : clear implicits.
Arguments World : clear implicits.
