(* ===== verification/Runtime.v ===== *)
(** The device runtime as the host library sees it.

    The ACL, HCOMM and HAL libraries are not part of this repository: the calls
    the sources make to them are the constructors of [RtOp], each with the type
    of its reply, and an environment (file Effects) answers them.  A reply
    [inl e] is a failed call with error code [e], which writes no output
    parameter; [inr v] is a successful one with its output.

    The file also holds the checking macros of common/hixl_checker.h, the
    [TemporaryRtContext] guard of common/hixl_utils.cc, what the library relies
    on of the runtime ([RtLaws]) and the ledger of live resources that a history
    of calls leaves. *)

From stdpp Require Import gmultiset countable.
From S2P Require Import Prelude Effects.

(** struct HixlTransferContextSyncEntry (the reserved words are always zero). *)
Record HixlTransferContextSyncEntry := mkSyncEntry {
  se_thread : Z;
  se_op : Z;
  se_notify_id : Z;
  se_err_flag_dev_va : Z;
  se_dispatched_tasks : Z
}.

(** struct HixlTransferContextSyncParam *)
Record HixlTransferContextSyncParam := mkSyncParam {
  sp_entry_list_addr : Z;
  sp_state_list_addr : Z;
  sp_entry_num : Z;
  sp_version : Z
}.

(** The allocation policies the sources pass to aclrtMalloc. *)
Inductive MallocPolicy := ACL_MEM_MALLOC_NORMAL_ONLY | ACL_MEM_TYPE_HIGH_BAND_WIDTH.

Inductive RtOp : Type -> Type :=
| aclrtGetCurrentContext : RtOp Z
| aclrtSetCurrentContext (ctx : Z) : RtOp Z
| aclrtCreateContext (device_id : Z) : RtOp (Z + Z)
| aclrtDestroyContext (ctx : Z) : RtOp Z
| aclrtCtxGetCurrentDefaultStream : RtOp (Z + Z)
| aclrtSetStreamFailureMode (stream : Z) : RtOp Z
| aclrtCreateStreamWithConfig : RtOp (Z + Z)
| aclrtStreamStop (stream : Z) : RtOp Z
| aclrtStreamAbort (stream : Z) : RtOp Z
| aclrtDestroyStream (stream : Z) : RtOp Z
| aclrtSynchronizeStreamWithTimeout (stream timeout_ms : Z) : RtOp Z
| aclrtCreateNotify : RtOp (Z + Z)
| aclrtGetNotifyId (notify : Z) : RtOp (Z + Z)
| aclrtNotifyBatchReset (notify : Z) : RtOp Z
| aclrtDestroyNotify (notify : Z) : RtOp Z
| aclrtMalloc (size : Z) (policy : MallocPolicy) : RtOp (Z + Z)
| aclrtFree (ptr : Z) : RtOp Z
| aclrtMallocHost (size : Z) : RtOp (Z + Z)
| aclrtFreeHost (ptr : Z) : RtOp Z
| aclrtMemset (ptr size : Z) : RtOp Z
| aclrtMemcpyU64ToDevice (dst value : Z) : RtOp Z
| aclrtMemcpyEntriesToDevice (dst : Z) (entries : list HixlTransferContextSyncEntry) : RtOp Z
| aclrtMemcpyEntriesToHost (src : Z) (n : nat) : RtOp (Z + list HixlTransferContextSyncEntry)
| aclrtMemcpyStatesToHost (src : Z) (n : nat) : RtOp (Z + list Z)
| aclrtKernelArgsInit (func : Z) : RtOp (Z + Z)
| aclrtKernelArgsAppend (args : Z) (param : HixlTransferContextSyncParam) : RtOp Z
| aclrtKernelArgsFinalize (args : Z) : RtOp Z
| aclrtLaunchKernelWithConfig (func block_dim stream args : Z) : RtOp Z
| aclrtBinaryLoadFromFile (path : string) : RtOp (Z + Z)
| aclrtBinaryGetFunction (bin : Z) (name : string) : RtOp (Z + Z)
| aclrtBinaryUnLoad (bin : Z) : RtOp Z
| aclrtGetLogicDevIdByUserDevId (device_id : Z) : RtOp (Z + Z)
| aclrtGetSocName : RtOp (option string)
| rtGetDevResAddress (res_id : Z) : RtOp (Z + Z * Z)
| RaGetNotifyAddrLen (device_id notify : Z) : RtOp (Z + Z * Z)
| HalHostRegister (src size flag logic_dev_id : Z) : RtOp (Z + Z)
| HalHostUnregister (src logic_dev_id : Z) : RtOp Z
| HcommThreadAlloc (thread_num notify_num : Z) : RtOp (Z + Z)
| HcommThreadFree (thread : Z) : RtOp Z
| sys_getenv (name : string) : RtOp (option string)
| sys_realpath (path : string) : RtOp (option string)
| sys_access (path : string) : RtOp Z
| steady_clock_now : RtOp Z
| this_thread_sleep_for (ms : Z) : RtOp unit
| store_u8 (addr value : Z) : RtOp unit.

Abbreviation RtEnv := (Environment RtOp).
Abbreviation RtHistory := (History RtOp).
Abbreviation RtM := (M RtOp).

(** The error codes of the ACL and HCCL headers that the sources name. *)
Class AclCodes := {
  ACL_ERROR_RT_STREAM_SYNC_TIMEOUT : Z;
  HCCL_SUCCESS : Z;
  HCCL_E_PARA : Z;
  HCCL_E_TIMEOUT : Z;
  HCCL_E_NOT_SUPPORT : Z
}.

(** * The checking macros *)
Section Macros.
Context {codes : AclCodes} {env : RtEnv} {S : Type}.

(** The status of a failed ACL call: [aclError] is a signed 32-bit code,
    [Status] an unsigned one. *)
Definition acl_status (e : Z) : Status :=
  if e =? ACL_ERROR_RT_STREAM_SYNC_TIMEOUT then TIMEOUT else u32 e.

(** HIXL_CHK_ACL_RET on a call without output. *)
Definition HIXL_CHK_ACL_RET (op : RtOp Z) : RtM S unit :=
  let* e := call op in if e =? 0 then ret tt else fail (acl_status e).

(** HIXL_CHK_ACL_RET on a call with an output parameter. *)
Definition HIXL_CHK_ACL_RET_OUT {A} (op : RtOp (Z + A)) : RtM S A :=
  let* r := call op in
  match r with inr v => ret v | inl e => fail (acl_status e) end.

(** HIXL_CHK_ACL: the error is logged only. *)
Definition HIXL_CHK_ACL (op : RtOp Z) : RtM S unit :=
  let* _ := call op in ret tt.

(** HIXL_CHECK_NOTNULL *)
Definition HIXL_CHECK_NOTNULL (p : Z) : RtM S unit := require (negb (is_null p)) PARAM_INVALID.

(** ConvertHcommErrorToStatus and HIXL_CHK_HCCL_RET. *)
Definition ConvertHcommErrorToStatus (e : Z) : Status :=
  if e =? HCCL_SUCCESS then SUCCESS
  else if e =? HCCL_E_PARA then PARAM_INVALID
  else if e =? HCCL_E_TIMEOUT then TIMEOUT
  else if e =? HCCL_E_NOT_SUPPORT then UNSUPPORTED
  else FAILED.

Definition HIXL_CHK_HCCL_RET_OUT {A} (op : RtOp (Z + A)) : RtM S A :=
  let* r := call op in
  match r with inr v => ret v | inl e => fail (ConvertHcommErrorToStatus e) end.

(** HIXL_CHK_STATUS_RET on a proxy that returns a [Status] with an output. *)
Definition HIXL_CHK_STATUS_RET_OUT {A} (op : RtOp (Z + A)) : RtM S A :=
  let* r := call op in match r with inr v => ret v | inl e => fail e end.

(** HIXL_CHK_STATUS: the status is logged only. *)
Definition HIXL_CHK_STATUS {A} (m : RtM S A) : RtM S unit :=
  let* _ := attempt m in ret tt.

(** A scope with a [TemporaryRtContext ctx] in it: constructor, body,
    destructor. *)
Definition TemporaryRtContext {A} (ctx : Z) (body : RtM S A) : RtM S A :=
  let* prev_context := call aclrtGetCurrentContext in
  let* _ := (if negb (is_null ctx) && negb (prev_context =? ctx)
             then HIXL_CHK_ACL (aclrtSetCurrentContext ctx) else ret tt) in
  finally body
    (if negb (is_null prev_context)
     then HIXL_CHK_ACL (aclrtSetCurrentContext prev_context) else ret tt).
End Macros.

(** * The ledger of resources *)
Inductive ResKind := RContext | RStream | RNotify | RDevMem | RHostMem | RThread | RBinary.
#[export] Instance ResKind_eq_dec : EqDecision ResKind.
Proof. solve_decision. Defined.

Definition ResKind_code (k : ResKind) : nat :=
  match k with
  | RContext => 0 | RStream => 1 | RNotify => 2 | RDevMem => 3
  | RHostMem => 4 | RThread => 5 | RBinary => 6
  end%nat.
Definition ResKind_decode (n : nat) : option ResKind :=
  match n with
  | 0 => Some RContext | 1 => Some RStream | 2 => Some RNotify | 3 => Some RDevMem
  | 4 => Some RHostMem | 5 => Some RThread | 6 => Some RBinary | _ => None
  end%nat.
#[export] Instance ResKind_countable : Countable ResKind.
Proof. apply (inj_countable ResKind_code ResKind_decode). by intros []. Defined.

(** A resource is named by its kind and its handle or address. *)
Definition Resource : Type := ResKind * Z.

Inductive ResAction := Obtain (r : Resource) | Dispose (r : Resource) | Neutral.

(** What a call does to the set of live resources.  A destroy or free call ends
    the library's ownership whatever it returns. *)
Definition action_of (e : Event RtOp) : ResAction :=
  match e with
  | Ev op r =>
      match op in RtOp T return T -> ResAction with
      | aclrtCreateContext _ => fun r => match r with inr c => Obtain (RContext, c) | _ => Neutral end
      | aclrtDestroyContext c => fun _ => Dispose (RContext, c)
      | aclrtCreateStreamWithConfig =>
          fun r => match r with inr s => Obtain (RStream, s) | _ => Neutral end
      | aclrtDestroyStream s => fun _ => Dispose (RStream, s)
      | aclrtCreateNotify => fun r => match r with inr n => Obtain (RNotify, n) | _ => Neutral end
      | aclrtDestroyNotify n => fun _ => Dispose (RNotify, n)
      | aclrtMalloc _ _ => fun r => match r with inr p => Obtain (RDevMem, p) | _ => Neutral end
      | aclrtFree p => fun _ => Dispose (RDevMem, p)
      | aclrtMallocHost _ => fun r => match r with inr p => Obtain (RHostMem, p) | _ => Neutral end
      | aclrtFreeHost p => fun _ => Dispose (RHostMem, p)
      | HcommThreadAlloc _ _ => fun r => match r with inr t => Obtain (RThread, t) | _ => Neutral end
      | HcommThreadFree t => fun _ => Dispose (RThread, t)
      | aclrtBinaryLoadFromFile _ =>
          fun r => match r with inr b => Obtain (RBinary, b) | _ => Neutral end
      | aclrtBinaryUnLoad b => fun _ => Dispose (RBinary, b)
      | _ => fun _ => Neutral
      end r
  end.

Definition apply_action (a : ResAction) (X : gmultiset Resource) : option (gmultiset Resource) :=
  match a with
  | Obtain r => Some ({[+ r +]} ⊎ X)
  | Dispose r => if decide (r ∈ X) then Some (X ∖ {[+ r +]}) else None
  | Neutral => Some X
  end.

(** The live resources after a history; [None] when some call of it disposed of
    a resource that was not live (a double free, or a free of a foreign one). *)
Fixpoint ledger (h : RtHistory) : option (gmultiset Resource) :=
  match h with
  | [] => Some ∅
  | e :: h' => match ledger h' with Some X => apply_action (action_of e) X | None => None end
  end.

(** A lower bound on the steady clock (in milliseconds) after a history. *)
Fixpoint time_floor (h : RtHistory) : Z :=
  match h with
  | [] => 0
  | Ev op r :: h' =>
      match op in RtOp T return T -> Z with
      | steady_clock_now => fun t => t
      | this_thread_sleep_for ms => fun _ => time_floor h' + ms
      | _ => fun _ => time_floor h'
      end r
  end.

(** What the library relies on: a successful creation call returns a handle that
    is not null, a copy to the host returns as many elements as were asked for,
    and the steady clock is monotone and runs while the thread sleeps. *)
Class RtLaws (env : RtEnv) : Prop := {
  law_obtain_nonnull : forall T (op : RtOp T) h k p,
    action_of (Ev op (reply_of T op h)) = Obtain (k, p) -> p <> nullptr;
  law_register_nonnull : forall src size flag dev h p,
    reply_of _ (HalHostRegister src size flag dev) h = inr p -> p <> nullptr;
  law_states_length : forall src n h l,
    reply_of _ (aclrtMemcpyStatesToHost src n) h = inr l -> length l = n;
  law_entries_length : forall src n h l,
    reply_of _ (aclrtMemcpyEntriesToHost src n) h = inr l -> length l = n;
  law_clock : forall h, time_floor h <= reply_of _ steady_clock_now h
}.

Section Ledger_laws.
Context {env : RtEnv} {laws : RtLaws env} {S : Type}.
Implicit Types (s : S) (h : RtHistory).

(** The library owns [X] after [h]. *)
Definition owns (h : RtHistory) (X : gmultiset Resource) : Prop := ledger h = Some X.

Lemma owns_neutral h X T (op : RtOp T) r :
  owns h X -> action_of (Ev op r) = Neutral -> owns (Ev op r :: h) X.
Proof. unfold owns. simpl. by intros -> ->. Qed.

Lemma owns_obtain h X T (op : RtOp T) r x :
  owns h X -> action_of (Ev op r) = Obtain x -> owns (Ev op r :: h) ({[+ x +]} ⊎ X).
Proof. unfold owns. simpl. by intros -> ->. Qed.

Lemma owns_dispose h X T (op : RtOp T) r x :
  owns h ({[+ x +]} ⊎ X) -> action_of (Ev op r) = Dispose x -> owns (Ev op r :: h) X.
Proof.
  unfold owns. simpl. intros -> ->. simpl. rewrite decide_True by multiset_solver.
  f_equal. multiset_solver.
Qed.
End Ledger_laws.
