(* ===== verification/RtLogic.v ===== *)
(** A resource logic for the code that drives the device runtime.

    [wpr m Q s X]: started in state [s] with exactly the resources [X] live, [m]
    ends, every resource it disposes of is live at that point, the clock does not
    go back, and the outcome, the new state and the new live resources satisfy
    [Q].  The history itself is hidden, so proofs follow the resources only. *)

From stdpp Require Import gmultiset countable.
From S2P Require Import Prelude Effects Runtime.

Section Wpr.
Context {codes : AclCodes} {env : RtEnv} {laws : RtLaws env} {S : Type}.
Implicit Types (s : S) (X : gmultiset Resource).

Definition wpr {A} (m : RtM S A) (Q : Status + A -> S -> gmultiset Resource -> Prop)
    (s : S) (X : gmultiset Resource) : Prop :=
  forall h, owns h X ->
    wp m (fun o s' h' => time_floor h <= time_floor h' /\ exists X', owns h' X' /\ Q o s' X') s h.

Lemma wpr_mono {A} (m : RtM S A) (P Q : Status + A -> S -> gmultiset Resource -> Prop) s X :
  wpr m P s X -> (forall o s' X', P o s' X' -> Q o s' X') -> wpr m Q s X.
Proof.
  intros H1 H2 h Ho. eapply wp_mono; [by apply H1|].
  intros o s' h' (Ht & X' & HX & HP). split; [done|]. exists X'. auto.
Qed.

Lemma wpr_ret {A} (a : A) Q s X : Q (inr a) s X -> wpr (ret a) Q s X.
Proof. intros H h Ho. apply wp_ret. split; [lia|]. by exists X. Qed.

Lemma wpr_fail {A} e (Q : Status + A -> _) s X : Q (inl e) s X -> wpr (fail e) Q s X.
Proof. intros H h Ho. apply wp_fail. split; [lia|]. by exists X. Qed.

Lemma wpr_get Q s X : Q (inr s) s X -> wpr (get : RtM S S) Q s X.
Proof. intros H h Ho. apply wp_get. split; [lia|]. by exists X. Qed.

Lemma wpr_put s' Q s X : Q (inr tt) s' X -> wpr (put s') Q s X.
Proof. intros H h Ho. apply wp_put. split; [lia|]. by exists X. Qed.

Lemma wpr_modify f Q s X : Q (inr tt) (f s) X -> wpr (modify f) Q s X.
Proof. intros H h Ho. apply wp_modify. split; [lia|]. by exists X. Qed.

Lemma wpr_bind {A B} (m : RtM S A) (k : A -> RtM S B) Q s X :
  wpr m (fun o s' X' => match o with
                        | inr a => wpr (k a) Q s' X'
                        | inl e => Q (inl e) s' X'
                        end) s X ->
  wpr (bind m k) Q s X.
Proof.
  intros H h Ho. apply wp_bind. eapply wp_mono; [by apply H|].
  intros [e|a] s' h' (Ht & X' & HX & HQ); [split; [done|]; by exists X'|].
  eapply wp_mono; [by apply HQ|]. intros o s'' h'' (Ht' & HX''). split; [lia | done].
Qed.

Lemma wpr_attempt {A} (m : RtM S A) Q s X :
  wpr m (fun o s' X' => Q (inr o) s' X') s X -> wpr (attempt m) Q s X.
Proof. intros H h Ho. apply wp_attempt. by apply H. Qed.

Lemma wpr_finally {A} (m : RtM S A) f Q s X :
  wpr m (fun o s' X' => wpr f (fun _ s'' X'' => Q o s'' X'') s' X') s X ->
  wpr (finally m f) Q s X.
Proof.
  intros H h Ho. apply wp_finally. eapply wp_mono; [by apply H|].
  intros o s' h' (Ht & X' & HX & HQ). eapply wp_mono; [by apply HQ|].
  intros o' s'' h'' (Ht' & HX''). split; [lia | done].
Qed.

Lemma wpr_on_fail {A} (m : RtM S A) f Q s X :
  wpr m (fun o s' X' => match o with
                        | inr a => Q (inr a) s' X'
                        | inl e => wpr f (fun _ s'' X'' => Q (inl e) s'' X'') s' X'
                        end) s X ->
  wpr (on_fail m f) Q s X.
Proof.
  intros H h Ho. apply wp_on_fail. eapply wp_mono; [by apply H|].
  intros [e|a] s' h' (Ht & X' & HX & HQ); [|split; [done|]; by exists X'].
  eapply wp_mono; [by apply HQ|]. intros o' s'' h'' (Ht' & HX''). split; [lia | done].
Qed.

Lemma wpr_require b e Q s X :
  (b = true -> Q (inr tt) s X) -> (b = false -> Q (inl e) s X) ->
  wpr (require b e : RtM S unit) Q s X.
Proof.
  intros H1 H2. destruct b; simpl; [apply wpr_ret | apply wpr_fail]; auto.
Qed.

Lemma wpr_for_each {A} (l : list A) (m : A -> RtM S unit)
    (I : S -> gmultiset Resource -> Prop) (Z : Status -> S -> gmultiset Resource -> Prop) s X :
  I s X ->
  (forall a s' X', a ∈ l -> I s' X' ->
     wpr (m a) (fun o s'' X'' => match o with inr _ => I s'' X'' | inl e => Z e s'' X'' end) s' X') ->
  wpr (for_each l m)
    (fun o s'' X'' => match o with inr _ => I s'' X'' | inl e => Z e s'' X'' end) s X.
Proof.
  revert s X. induction l as [|a l IH]; intros s X Hi Hm; simpl; [by apply wpr_ret|].
  apply wpr_bind. eapply wpr_mono; [apply Hm; [by left | done]|].
  intros [e|[]] s' X' H; [done|]. apply IH; [done|]. intros a' s'' X'' Ha. apply Hm. by right.
Qed.

(** The same with an invariant on the part of the list that is done. *)
Lemma wpr_for_each_prefix {A} (l : list A) (m : A -> RtM S unit)
    (I : list A -> S -> gmultiset Resource -> Prop) s X :
  I [] s X ->
  (forall pre a post s' X', l = pre ++ a :: post -> I pre s' X' ->
     wpr (m a) (fun o s'' X'' => o = inr tt /\ I (pre ++ [a]) s'' X'') s' X') ->
  wpr (for_each l m) (fun o s'' X'' => o = inr tt /\ I l s'' X'') s X.
Proof.
  intros H0 Hstep.
  assert (Hgen : forall post pre s X, l = pre ++ post -> I pre s X ->
    wpr (for_each post m) (fun o s'' X'' => o = inr tt /\ I l s'' X'') s X).
  { clear s X H0. induction post as [|a post IH]; intros pre s X -> Hi; simpl.
    - apply wpr_ret. by rewrite app_nil_r.
    - apply wpr_bind. eapply wpr_mono; [by eapply Hstep|]. intros ? s' X' [-> Hi'].
      apply IH with (pre ++ [a]); [by rewrite <- app_assoc | done]. }
  by apply (Hgen l []).
Qed.

(** Every call but the sleep keeps the clock's lower bound. *)
Lemma time_floor_call {T} (op : RtOp T) h :
  match op with this_thread_sleep_for ms => 0 <= ms | _ => True end ->
  time_floor h <= time_floor (Ev op (reply_of T op h) :: h).
Proof. destruct op; simpl; intros H; try lia. apply law_clock. Qed.

Definition sleep_ok {T} (op : RtOp T) : Prop :=
  match op with this_thread_sleep_for ms => 0 <= ms | _ => True end.

Lemma wpr_call_neutral {T} (op : RtOp T) Q s X :
  sleep_ok op ->
  (forall r, action_of (Ev op r) = Neutral) ->
  (forall r, (exists h, r = reply_of T op h) -> Q (inr r) s X) ->
  wpr (call op) Q s X.
Proof.
  intros Hs Hn H h Ho. apply wp_call. intros r ->.
  split; [by apply time_floor_call|]. exists X. split; [|eauto].
  apply owns_neutral; auto.
Qed.

Lemma wpr_call_obtain {T} (op : RtOp (Z + T)) (x : T -> Resource) Q s X :
  sleep_ok op ->
  (forall v, action_of (Ev op (inr v)) = Obtain (x v)) ->
  (forall e, action_of (Ev op (inl e)) = Neutral) ->
  (forall v, (x v).2 <> nullptr -> Q (inr (inr v)) s ({[+ x v +]} ⊎ X)) ->
  (forall e, Q (inr (inl e)) s X) ->
  wpr (call op) Q s X.
Proof.
  intros Hs Hok Her H1 H2 h Ho. apply wp_call. intros r Hr.
  split; [rewrite Hr; by apply time_floor_call|].
  destruct r as [e|v].
  - exists X. split; [|auto]. apply owns_neutral; auto.
  - exists ({[+ x v +]} ⊎ X). split; [apply owns_obtain; auto|]. apply H1.
    destruct (x v) as [k q] eqn:Hx. simpl.
    apply (law_obtain_nonnull _ op h k q). rewrite <- Hr. by rewrite Hok, Hx.
Qed.

Lemma wpr_call_dispose {T} (op : RtOp T) (x : Resource) Q s X X' :
  sleep_ok op ->
  (forall r, action_of (Ev op r) = Dispose x) ->
  X = {[+ x +]} ⊎ X' ->
  (forall r, Q (inr r) s X') ->
  wpr (call op) Q s X.
Proof.
  intros Hs Hd -> H h Ho. apply wp_call. intros r ->.
  split; [by apply time_floor_call|]. exists X'. split; [|auto].
  eapply owns_dispose; eauto.
Qed.

(** * The checking macros *)
Lemma wpr_CHK_ACL (op : RtOp Z) Q s X :
  wpr (call op) (fun o s' X' => match o with inr _ => Q (inr tt) s' X' | inl e => Q (inl e) s' X' end) s X ->
  wpr (HIXL_CHK_ACL op) Q s X.
Proof.
  intros H. apply wpr_bind. eapply wpr_mono; [exact H|].
  intros [e|a] s' X' HQ; [done|]. by apply wpr_ret.
Qed.

Lemma wpr_CHK_ACL_RET (op : RtOp Z) Q s X :
  sleep_ok op ->
  (forall r, action_of (Ev op r) = Neutral) ->
  Q (inr tt) s X -> (forall e, Q (inl e) s X) ->
  wpr (HIXL_CHK_ACL_RET op) Q s X.
Proof.
  intros Hs Hn H1 H2. apply wpr_bind, wpr_call_neutral; [done|done|].
  intros r _. destruct (r =? 0); [by apply wpr_ret | by apply wpr_fail].
Qed.

Lemma wpr_RET_OUT_neutral {A} (op : RtOp (Z + A)) (f : Z -> Status) Q s X :
  sleep_ok op ->
  (forall r, action_of (Ev op r) = Neutral) ->
  (forall v, (exists h, reply_of _ op h = inr v) -> Q (inr v) s X) -> (forall e, Q (inl e) s X) ->
  wpr (bind (call op) (fun r => match r with inr v => ret v | inl e => fail (f e) end)) Q s X.
Proof.
  intros Hs Hn H1 H2. apply wpr_bind, wpr_call_neutral; [done|done|].
  intros [e|v] [h Hr]; [by apply wpr_fail | apply wpr_ret; eauto].
Qed.

Lemma wpr_RET_OUT_obtain (op : RtOp (Z + Z)) (f : Z -> Status) (k : ResKind) Q s X :
  sleep_ok op ->
  (forall v, action_of (Ev op (inr v)) = Obtain (k, v)) ->
  (forall e, action_of (Ev op (inl e)) = Neutral) ->
  (forall v, v <> nullptr -> Q (inr v) s ({[+ (k, v) +]} ⊎ X)) ->
  (forall e, Q (inl e) s X) ->
  wpr (bind (call op) (fun r => match r with inr v => ret v | inl e => fail (f e) end)) Q s X.
Proof.
  intros Hs Hok Her H1 H2. apply wpr_bind. eapply wpr_call_obtain; [done|done|done| |].
  - intros v Hv. apply wpr_ret. by apply H1.
  - intros e. by apply wpr_fail.
Qed.

Lemma wpr_CHK_STATUS {A} (m : RtM S A) Q s X :
  wpr m (fun _ s' X' => Q (inr tt) s' X') s X -> wpr (HIXL_CHK_STATUS m) Q s X.
Proof.
  intros H. apply wpr_bind, wpr_attempt. eapply wpr_mono; [exact H|].
  intros o s' X' HQ. by apply wpr_ret.
Qed.

Lemma wpr_set_context (b : bool) c Q s X :
  Q (inr tt) s X ->
  wpr (if b then HIXL_CHK_ACL (aclrtSetCurrentContext c) else ret tt) Q s X.
Proof.
  intros H. destruct b; [|by apply wpr_ret].
  apply wpr_CHK_ACL, wpr_call_neutral; [done|done|auto].
Qed.

Lemma wpr_TemporaryRtContext {A} c (m : RtM S A) Q s X :
  wpr m Q s X -> wpr (TemporaryRtContext c m) Q s X.
Proof.
  intros H. apply wpr_bind, wpr_call_neutral; [done|done|]. intros prev _.
  apply wpr_bind, wpr_set_context, wpr_finally. eapply wpr_mono; [exact H|].
  intros o s' X' HQ. by apply wpr_set_context.
Qed.
End Wpr.

Lemma wpr_zoom {env : RtEnv} {S T A} (view : S -> option T) upd (m : S -> RtM T A) Q s X t :
  view s = Some t ->
  wpr (m s) (fun o t' X' => Q o (upd t' s) X') t X -> wpr (zoom view upd m) Q s X.
Proof. intros Hv H h Ho. eapply wp_zoom; [done|]. by apply H. Qed.

(** * Automation

    [wpr_step] applies the rule for the head of the computation and opens the
    conditionals; calls that create or dispose of a resource are left to the
    caller when the bookkeeping needs a choice. *)
Ltac wpr_head :=
  lazymatch goal with
  | |- wpr (bind (call _) (fun r => match r with inl _ => _ | inr _ => _ end)) _ _ _ => idtac
  | |- wpr (bind _ _) _ _ _ => apply wpr_bind
  | |- wpr (ret _) _ _ _ => apply wpr_ret
  | |- wpr (fail _) _ _ _ => apply wpr_fail
  | |- wpr get _ _ _ => apply wpr_get
  | |- wpr (put _) _ _ _ => apply wpr_put
  | |- wpr (modify _) _ _ _ => apply wpr_modify
  | |- wpr (attempt _) _ _ _ => apply wpr_attempt
  | |- wpr (finally _ _) _ _ _ => apply wpr_finally
  | |- wpr (on_fail _ _) _ _ _ => apply wpr_on_fail
  | |- wpr (require _ _) _ _ _ => apply wpr_require; intros ?
  | |- wpr (HIXL_CHECK_NOTNULL _) _ _ _ => apply wpr_require; intros ?
  | |- wpr (HIXL_CHK_STATUS _) _ _ _ => apply wpr_CHK_STATUS
  | |- wpr (TemporaryRtContext _ _) _ _ _ => apply wpr_TemporaryRtContext
  | |- wpr (HIXL_CHK_ACL_RET _) _ _ _ => apply wpr_CHK_ACL_RET; [done|done| |intros ?]
  | |- wpr (HIXL_CHK_ACL _) _ _ _ => apply wpr_CHK_ACL
  | |- wpr (HIXL_CHK_ACL_RET_OUT _) _ _ _ =>
      first [ apply wpr_RET_OUT_neutral; [done|done|intros ? ?|intros ?]
            | eapply wpr_RET_OUT_obtain; [done|done|done|intros ? ?|intros ?] ]
  | |- wpr (HIXL_CHK_HCCL_RET_OUT _) _ _ _ =>
      first [ apply wpr_RET_OUT_neutral; [done|done|intros ? ?|intros ?]
            | eapply wpr_RET_OUT_obtain; [done|done|done|intros ? ?|intros ?] ]
  | |- wpr (HIXL_CHK_STATUS_RET_OUT _) _ _ _ =>
      apply wpr_RET_OUT_neutral; [done|done|intros ? ?|intros ?]
  | |- wpr (call _) _ _ _ => apply wpr_call_neutral; [done|done|intros ? ?]
  | |- wpr (if ?b then _ else _) _ _ _ => destruct b eqn:?
  end; cbv beta iota.

Ltac wpr_step := repeat (wpr_head; simpl).

(** Dispose of a resource that is in the live set. *)
Ltac wpr_dispose :=
  eapply wpr_call_dispose; [done|done|first [reflexivity | multiset_solver]|intros ?].
