(* ===== verification/RtReference.v ===== *)
(** A concrete runtime that satisfies [RtLaws]: every call succeeds, handles are
    numbered by the length of the history, the clock advances only by sleeping,
    and the synchronisation kernel reports the state that the last batch of
    entries asked for.  It shows that the laws can hold and runs the examples. *)

From stdpp Require Import gmultiset countable.
From S2P Require Import Prelude Effects Runtime.

#[export] Instance ref_codes : AclCodes := {|
  ACL_ERROR_RT_STREAM_SYNC_TIMEOUT := 107020;
  HCCL_SUCCESS := 0;
  HCCL_E_PARA := 1;
  HCCL_E_TIMEOUT := 9;
  HCCL_E_NOT_SUPPORT := 5
|}.

(** The state after the last batch of entries sent to the device: op 0 adds
    contexts (state 0), op 1 deletes them (state 2). *)
Fixpoint ref_state (h : RtHistory) : Z :=
  match h with
  | [] => 0
  | Ev op _ :: h' =>
      match op with
      | aclrtMemcpyEntriesToDevice _ (e :: _) => if se_op e =? 0 then 0 else 2
      | _ => ref_state h'
      end
  end.

Definition ref_handle (h : RtHistory) : Z := Z.of_nat (length h) + 1.

Definition ref_reply (T : Type) (op : RtOp T) (h : RtHistory) : T :=
  match op in RtOp T return T with
  | aclrtCreateContext _ | aclrtCtxGetCurrentDefaultStream | aclrtCreateStreamWithConfig
  | aclrtCreateNotify | aclrtGetNotifyId _ | aclrtMalloc _ _ | aclrtMallocHost _
  | aclrtKernelArgsInit _ | aclrtBinaryLoadFromFile _ | aclrtBinaryGetFunction _ _
  | aclrtGetLogicDevIdByUserDevId _ | HalHostRegister _ _ _ _ | HcommThreadAlloc _ _ =>
      inr (ref_handle h)
  | aclrtMemcpyEntriesToHost _ n => inr (replicate n (mkSyncEntry 0 0 0 0 0))
  | aclrtMemcpyStatesToHost _ n => inr (replicate n (ref_state h))
  | rtGetDevResAddress _ | RaGetNotifyAddrLen _ _ => inr (ref_handle h, 8)
  | aclrtGetSocName => Some "Ascend950"%string
  | sys_getenv _ => None
  | sys_realpath path => Some path
  | steady_clock_now => time_floor h
  | this_thread_sleep_for _ | store_u8 _ _ => tt
  | _ => 0
  end.

#[export] Instance ref_env : RtEnv := ref_reply.

#[export] Instance ref_laws : RtLaws ref_env.
Proof.
  split; unfold ref_env, reply_of.
  - intros T op h k p. destruct op; simpl; intros H; simplify_eq; unfold ref_handle, nullptr; lia.
  - intros src size flag dev h p H. simpl in H. simplify_eq. unfold ref_handle, nullptr. lia.
  - intros src n h l H. simpl in H. simplify_eq. apply length_replicate.
  - intros src n h l H. simpl in H. simplify_eq. apply length_replicate.
  - intros h. simpl. lia.
Qed.
