(* ===== verification/DeviceSupport.v ===== *)
(** Three small helpers of the host library on top of the device runtime:
    common/soc_type.cc (the SoC category), cs/load_kernel.cc (loading the device
    kernels) and cs/notify_addr_resolver.cc (the device address of a notify). *)

From S2P Require Import Prelude Effects Runtime.

(** * common/soc_type.cc *)
Inductive SocType := kGen1 | kGen2 | kDefault.
#[export] Instance SocType_eq_dec : EqDecision SocType.
Proof. solve_decision. Defined.

Definition kSocPrefixes : list (string * SocType) :=
  [("Ascend910B"%string, kGen1); ("Ascend910_93"%string, kGen2)].

(** [value.size() >= n && value.compare(0, n, prefix) == 0] *)
Definition StartsWith (value prefix : string) : bool :=
  (String.length prefix <=? String.length value)%nat &&
  bool_decide (String.substring 0 (String.length prefix) value = prefix).

Fixpoint soc_lookup (table : list (string * SocType)) (soc_name : string) : SocType :=
  match table with
  | [] => kDefault
  | (prefix, t) :: table' =>
      if StartsWith soc_name prefix then t else soc_lookup table' soc_name
  end.
Definition GetSocTypeByName (soc_name : string) : SocType := soc_lookup kSocPrefixes soc_name.

(** struct DeviceFuncHandles *)
Record DeviceFuncHandles := mkDeviceFuncHandles {
  batch_get : Z;
  batch_put : Z;
  ubmem_batch_read : Z;
  ubmem_batch_write : Z;
  sync_transfer_context : Z
}.
Definition no_func_handles : DeviceFuncHandles :=
  mkDeviceFuncHandles nullptr nullptr nullptr nullptr nullptr.

Section DeviceSupport.
Context {codes : AclCodes} {env : RtEnv}.

Definition GetSocType {S} : RtM S SocType :=
  let* soc_name := call aclrtGetSocName in
  match soc_name with
  | None => fail FAILED
  | Some soc_name =>
      require (negb (bool_decide (soc_name = ""%string))) FAILED ;;
      ret (GetSocTypeByName soc_name)
  end.

(** * cs/load_kernel.cc *)
Definition kKernelJsonSuffix : string :=
  "/opp/built-in/op_impl/aicpu/config/libcann_hixl_kernel.json".
Definition kDefaultAscendPath : string := "/usr/local/Ascend/cann".

Definition GetKernelFilePath {S} : RtM S string :=
  let* getPath := call (sys_getenv "ASCEND_HOME_PATH") in
  let libPath := match getPath with Some p => p | None => kDefaultAscendPath end in
  ret (String.append libPath kKernelJsonSuffix).

Definition LoadBinaryFromJson {S} (json_path : string) : RtM S Z :=
  let* realpath_ret := call (sys_realpath json_path) in
  match realpath_ret with
  | None => fail PARAM_INVALID
  | Some resolved_path =>
      let* access_ret := call (sys_access resolved_path) in
      require (access_ret =? 0) FAILED ;;
      HIXL_CHK_ACL_RET_OUT (aclrtBinaryLoadFromFile resolved_path)
  end.

Definition GetFuncHandle {S} (bin_handle : Z) (func_name : string) : RtM S Z :=
  HIXL_CHECK_NOTNULL bin_handle ;;
  HIXL_CHK_ACL_RET_OUT (aclrtBinaryGetFunction bin_handle func_name).

(** The two loading functions write the binary handle and the function table of
    the caller: their state is the pair of them. *)
Definition load_binary_if_needed : RtM (Z * DeviceFuncHandles) unit :=
  let* json_path := GetKernelFilePath in
  let* (bin_handle, fh) := get in
  if is_null bin_handle then
    let* bin := LoadBinaryFromJson json_path in put (bin, fh)
  else ret tt.

Fixpoint get_handles {S} (bin_handle : Z) (func_names : list string) : RtM S (list Z) :=
  match func_names with
  | [] => ret []
  | name :: names =>
      let* f := GetFuncHandle bin_handle name in
      let* fs := get_handles bin_handle names in
      ret (f :: fs)
  end.

Definition LoadDeviceKernelFunctions (func_names : list string)
    : RtM (Z * DeviceFuncHandles) (list Z) :=
  require (negb (bool_decide (func_names = []))) PARAM_INVALID ;;
  load_binary_if_needed ;;
  let* (bin_handle, _) := get in
  get_handles bin_handle func_names.

Definition LoadDeviceKernelAndGetHandles (func_get func_put : string)
    (func_sync_context : option string) : RtM (Z * DeviceFuncHandles) unit :=
  modify (fun '(bin, _) => (bin, no_func_handles)) ;;
  load_binary_if_needed ;;
  let* (bin, fh) := get in
  let* g := GetFuncHandle bin func_get in
  put (bin, mkDeviceFuncHandles g nullptr nullptr nullptr nullptr) ;;
  let* p := GetFuncHandle bin func_put in
  put (bin, mkDeviceFuncHandles g p nullptr nullptr nullptr) ;;
  match func_sync_context with
  | None => ret tt
  | Some name =>
      let* s := GetFuncHandle bin name in
      put (bin, mkDeviceFuncHandles g p nullptr nullptr s)
  end.

(** * cs/notify_addr_resolver.cc *)
Definition ResolveNotifyDeviceAddressByRuntime {S} (notify : Z) : RtM S (Z * Z) :=
  HIXL_CHECK_NOTNULL notify ;;
  let* notify_id := HIXL_CHK_ACL_RET_OUT (aclrtGetNotifyId notify) in
  HIXL_CHK_ACL_RET_OUT (rtGetDevResAddress notify_id).

Definition NotifyAddrResolver_Resolve {S} (device_id notify : Z) : RtM S (Z * Z) :=
  HIXL_CHECK_NOTNULL notify ;;
  let* soc_type := GetSocType in
  if bool_decide (soc_type = kGen1) || bool_decide (soc_type = kGen2)
  then HIXL_CHK_STATUS_RET_OUT (RaGetNotifyAddrLen device_id notify)
  else ResolveNotifyDeviceAddressByRuntime notify.
End DeviceSupport.
