(* ===== verification/TransferPool.v ===== *)
(** The pool of transfer slots of one device (cs/transfer_pool.h,
    cs/transfer_pool.cc).

    A slot bundles the runtime context, default stream, HCOMM thread, notify,
    error flag and optional UB worker stream that one transfer uses.  The pool
    hands free slots out in FIFO order, takes them back on [Release], rebuilds
    them on [Abort], and owns every runtime resource of its slots.  The pool's
    mutex makes each public call atomic, so a call is one computation on the
    pool record. *)

From stdpp Require Import gmultiset countable.
From S2P Require Import Prelude Effects Runtime DeviceSupport.

(** * Constants *)
Definition kMaxPoolSize : Z := 8192.
Definition kDefaultThreadNum : Z := 1.
Definition kDefaultNotifyNumPerThread : Z := 0.
Definition kSyncContextKernelTimeoutMs : Z := 10 * 1000.
Definition kSyncContextRetryTimeoutMs : Z := 30 * 1000.
Definition kSyncContextRetryIntervalMs : Z := 100.
Definition kDeviceFuncGet : string := "HixlBatchGet".
Definition kDeviceFuncPut : string := "HixlBatchPut".
Definition kDeviceFuncSyncContext : string := "HixlSyncTransferContext".
Definition kUbMemFuncRead : string := "HixlUbMemBatchRead".
Definition kUbMemFuncWrite : string := "HixlUbMemBatchWrite".
Definition kHostMemMapDevPcieTh : Z := 3.
Definition kDevSvmMapHost : Z := 2.
Definition kHixlSyncParamVersion : Z := 1.
Definition TRANSFER_CONTEXT_OP_ADD : Z := 0.
Definition TRANSFER_CONTEXT_OP_DELETE : Z := 1.
Definition TRANSFER_THREAD_STATE_INITIALIZED : Z := 0.
Definition TRANSFER_THREAD_STATE_DELETING : Z := 1.
Definition TRANSFER_THREAD_STATE_DELETED : Z := 2.
(** sizeof(HixlTransferContextSyncEntry) *)
Definition sync_entry_size : Z := 128.

(** * State *)
Record Slot := mkSlot {
  in_use : bool;
  ctx : Z;
  stream : Z;
  thread : Z;
  notify : Z;
  notify_id : Z;
  notify_addr : Z;
  notify_len : Z;
  err_flag_host_addr : Z;
  err_flag_dev_addr : Z;
  launched_tasks : Z;
  ubmem_stream : Z
}.
(** [Slot{}] *)
Definition empty_slot : Slot := mkSlot false 0 0 0 0 0 0 0 0 0 0 0.

Definition set_in_use v s :=
  mkSlot v (ctx s) (stream s) (thread s) (notify s) (notify_id s) (notify_addr s) (notify_len s)
    (err_flag_host_addr s) (err_flag_dev_addr s) (launched_tasks s) (ubmem_stream s).
Definition set_ctx v s :=
  mkSlot (in_use s) v (stream s) (thread s) (notify s) (notify_id s) (notify_addr s) (notify_len s)
    (err_flag_host_addr s) (err_flag_dev_addr s) (launched_tasks s) (ubmem_stream s).
Definition set_stream v s :=
  mkSlot (in_use s) (ctx s) v (thread s) (notify s) (notify_id s) (notify_addr s) (notify_len s)
    (err_flag_host_addr s) (err_flag_dev_addr s) (launched_tasks s) (ubmem_stream s).
Definition set_thread v s :=
  mkSlot (in_use s) (ctx s) (stream s) v (notify s) (notify_id s) (notify_addr s) (notify_len s)
    (err_flag_host_addr s) (err_flag_dev_addr s) (launched_tasks s) (ubmem_stream s).
Definition set_notify v s :=
  mkSlot (in_use s) (ctx s) (stream s) (thread s) v (notify_id s) (notify_addr s) (notify_len s)
    (err_flag_host_addr s) (err_flag_dev_addr s) (launched_tasks s) (ubmem_stream s).
Definition set_notify_info i a n s :=
  mkSlot (in_use s) (ctx s) (stream s) (thread s) (notify s) i a n
    (err_flag_host_addr s) (err_flag_dev_addr s) (launched_tasks s) (ubmem_stream s).
Definition set_err_flag hst dev s :=
  mkSlot (in_use s) (ctx s) (stream s) (thread s) (notify s) (notify_id s) (notify_addr s)
    (notify_len s) hst dev (launched_tasks s) (ubmem_stream s).
Definition set_launched_tasks v s :=
  mkSlot (in_use s) (ctx s) (stream s) (thread s) (notify s) (notify_id s) (notify_addr s)
    (notify_len s) (err_flag_host_addr s) (err_flag_dev_addr s) v (ubmem_stream s).
Definition set_ubmem_stream v s :=
  mkSlot (in_use s) (ctx s) (stream s) (thread s) (notify s) (notify_id s) (notify_addr s)
    (notify_len s) (err_flag_host_addr s) (err_flag_dev_addr s) (launched_tasks s) v.

Record SlotHandle := mkSlotHandle {
  h_device_id : Z;
  h_slot_index : Z;
  h_ctx : Z;
  h_stream : Z;
  h_thread : Z;
  h_notify : Z;
  h_dev_const_one : Z;
  h_notify_id : Z;
  h_notify_addr : Z;
  h_notify_len : Z;
  h_err_flag_host_addr : Z;
  h_err_flag_dev_addr : Z;
  h_launched_tasks : Z;
  h_ubmem_stream : Z
}.

Record TransferPool := mkTransferPool {
  device_id_ : Z;
  ref_cnt_ : Z;
  inited_ : bool;
  pool_size_ : Z;
  free_list_ : list Z;
  slots_ : list Slot;
  dev_const_one_ : Z;
  err_flag_host_base_ : Z;
  err_flag_device_base_ : Z;
  err_flag_from_device_ : bool;
  rts_context_ : Z;
  kernel_bin_handle_ : Z;
  device_func_handles_ : DeviceFuncHandles
}.

Definition set_counters r i n p :=
  mkTransferPool (device_id_ p) r i n (free_list_ p) (slots_ p) (dev_const_one_ p)
    (err_flag_host_base_ p) (err_flag_device_base_ p) (err_flag_from_device_ p)
    (rts_context_ p) (kernel_bin_handle_ p) (device_func_handles_ p).
Definition set_free_list l p :=
  mkTransferPool (device_id_ p) (ref_cnt_ p) (inited_ p) (pool_size_ p) l (slots_ p)
    (dev_const_one_ p) (err_flag_host_base_ p) (err_flag_device_base_ p) (err_flag_from_device_ p)
    (rts_context_ p) (kernel_bin_handle_ p) (device_func_handles_ p).
Definition set_slots l p :=
  mkTransferPool (device_id_ p) (ref_cnt_ p) (inited_ p) (pool_size_ p) (free_list_ p) l
    (dev_const_one_ p) (err_flag_host_base_ p) (err_flag_device_base_ p) (err_flag_from_device_ p)
    (rts_context_ p) (kernel_bin_handle_ p) (device_func_handles_ p).
Definition set_dev_const_one v p :=
  mkTransferPool (device_id_ p) (ref_cnt_ p) (inited_ p) (pool_size_ p) (free_list_ p) (slots_ p)
    v (err_flag_host_base_ p) (err_flag_device_base_ p) (err_flag_from_device_ p)
    (rts_context_ p) (kernel_bin_handle_ p) (device_func_handles_ p).
Definition set_err_bases hst dev from p :=
  mkTransferPool (device_id_ p) (ref_cnt_ p) (inited_ p) (pool_size_ p) (free_list_ p) (slots_ p)
    (dev_const_one_ p) hst dev from (rts_context_ p) (kernel_bin_handle_ p) (device_func_handles_ p).
Definition set_rts_context v p :=
  mkTransferPool (device_id_ p) (ref_cnt_ p) (inited_ p) (pool_size_ p) (free_list_ p) (slots_ p)
    (dev_const_one_ p) (err_flag_host_base_ p) (err_flag_device_base_ p) (err_flag_from_device_ p)
    v (kernel_bin_handle_ p) (device_func_handles_ p).
Definition set_kernels b f p :=
  mkTransferPool (device_id_ p) (ref_cnt_ p) (inited_ p) (pool_size_ p) (free_list_ p) (slots_ p)
    (dev_const_one_ p) (err_flag_host_base_ p) (err_flag_device_base_ p) (err_flag_from_device_ p)
    (rts_context_ p) b f.

(** The constructor. *)
Definition new_TransferPool (device_id : Z) : TransferPool :=
  mkTransferPool device_id 0 false 0 [] [] nullptr nullptr nullptr false nullptr nullptr
    no_func_handles.

(** [GetInstance]: the registry of pools by device, filled on demand.  The
    pointer it returns is named by the device. *)
Definition TransferPool_GetInstance (alloc_ok : bool) (device_id : Z)
    (pools : gmap Z TransferPool) : option Z * gmap Z TransferPool :=
  match pools !! device_id with
  | Some _ => (Some device_id, pools)
  | None =>
      if alloc_ok then (Some device_id, <[device_id := new_TransferPool device_id]> pools)
      else (None, pools)
  end.

Definition FillHandleFromSlot (device_id index : Z) (s : Slot) : SlotHandle :=
  mkSlotHandle device_id index (ctx s) (stream s) (thread s) (notify s) nullptr (notify_id s)
    (notify_addr s) (notify_len s) (err_flag_host_addr s) (err_flag_dev_addr s)
    (launched_tasks s) (ubmem_stream s).

Section Operations.
Context {codes : AclCodes} {env : RtEnv}.

(** * Synchronising transfer contexts with the device

    These are [const] methods that read the pool [p] and touch no slot. *)

Definition sync_entry (op : Z) (s : Slot) : HixlTransferContextSyncEntry :=
  mkSyncEntry (thread s) op (notify_id s) (err_flag_dev_addr s) 0.

Definition BuildSyncEntriesFromSlots (slots : list Slot) (op : Z)
    : list HixlTransferContextSyncEntry :=
  map (sync_entry op) (List.filter (fun s => negb (thread s =? 0)) slots).

(** The part of LaunchSyncContextKernelLocked between the two allocations and
    their guards: copy the entries in, launch, wait and copy the states out. *)
Definition launch_sync_kernel {S} (p : TransferPool) (dev_entries dev_states : Z)
    (entries : list HixlTransferContextSyncEntry) (readback_entries : bool)
    : RtM S (list Z * list HixlTransferContextSyncEntry) :=
  let func := sync_transfer_context (device_func_handles_ p) in
  let n := length entries in
  HIXL_CHK_ACL_RET (aclrtMemcpyEntriesToDevice dev_entries entries) ;;
  let param := mkSyncParam dev_entries dev_states (u32 (Z.of_nat n)) kHixlSyncParamVersion in
  let* args_handle := HIXL_CHK_ACL_RET_OUT (aclrtKernelArgsInit func) in
  HIXL_CHK_ACL_RET (aclrtKernelArgsAppend args_handle param) ;;
  HIXL_CHK_ACL_RET (aclrtKernelArgsFinalize args_handle) ;;
  let* strm := HIXL_CHK_ACL_RET_OUT aclrtCtxGetCurrentDefaultStream in
  HIXL_CHK_ACL_RET (aclrtLaunchKernelWithConfig func 1 strm args_handle) ;;
  HIXL_CHK_ACL_RET (aclrtSynchronizeStreamWithTimeout strm kSyncContextKernelTimeoutMs) ;;
  let* states := HIXL_CHK_ACL_RET_OUT (aclrtMemcpyStatesToHost dev_states n) in
  if readback_entries then
    let* entries' := HIXL_CHK_ACL_RET_OUT (aclrtMemcpyEntriesToHost dev_entries n) in
    ret (states, entries')
  else ret (states, entries).

(** The states and the entries (read back when asked) after the kernel ran. *)
Definition LaunchSyncContextKernelLocked {S} (p : TransferPool)
    (entries : list HixlTransferContextSyncEntry) (readback_entries : bool)
    : RtM S (list Z * list HixlTransferContextSyncEntry) :=
  HIXL_CHECK_NOTNULL (sync_transfer_context (device_func_handles_ p)) ;;
  HIXL_CHECK_NOTNULL (rts_context_ p) ;;
  require (negb (bool_decide (length entries = 0%nat))) PARAM_INVALID ;;
  let n := Z.of_nat (length entries) in
  TemporaryRtContext (rts_context_ p)
    (let* dev_entries :=
       HIXL_CHK_ACL_RET_OUT (aclrtMalloc (n * sync_entry_size) ACL_MEM_MALLOC_NORMAL_ONLY) in
     finally
       (let* dev_states := HIXL_CHK_ACL_RET_OUT (aclrtMalloc (n * 4) ACL_MEM_MALLOC_NORMAL_ONLY) in
        finally (launch_sync_kernel p dev_entries dev_states entries readback_entries)
          (HIXL_CHK_ACL (aclrtFree dev_states)))
       (HIXL_CHK_ACL (aclrtFree dev_entries))).

(** The loop of CollectRetrySyncEntries over the entries and their states. *)
Fixpoint collect_retry (entries : list HixlTransferContextSyncEntry) (states : list Z)
    (op expect_state : Z) : Status + list HixlTransferContextSyncEntry * list Z :=
  match entries, states with
  | e :: entries', state :: states' =>
      if state =? expect_state then collect_retry entries' states' op expect_state
      else if state =? TRANSFER_THREAD_STATE_DELETING then
        match collect_retry entries' states' op expect_state with
        | inl err => inl err
        | inr (re, rs) =>
            inr (mkSyncEntry (se_thread e) op (se_notify_id e) (se_err_flag_dev_va e) 0 :: re,
                 state :: rs)
        end
      else inl FAILED
  | _, _ => inr ([], [])
  end.

Definition CollectRetrySyncEntries (entries : list HixlTransferContextSyncEntry) (states : list Z)
    (op expect_state : Z) : Status + list HixlTransferContextSyncEntry * list Z :=
  if bool_decide (length entries = length states)
  then collect_retry entries states op expect_state
  else inl FAILED.

(** [out_dispatched] is [None] for the null pointer and the value stored there
    otherwise. *)
Definition RunSyncContextOnceLocked {S} (p : TransferPool)
    (pending : list HixlTransferContextSyncEntry) (op expect_state : Z) (out_dispatched : option Z)
    : RtM S (list HixlTransferContextSyncEntry * list Z * option Z) :=
  let* (states, pending') :=
    LaunchSyncContextKernelLocked p pending (bool_decide (is_Some out_dispatched)) in
  let* out' :=
    match out_dispatched, states with
    | Some _, state0 :: _ =>
        if state0 =? expect_state then
          match pending' with
          | e0 :: _ => ret (Some (se_dispatched_tasks e0))
          | [] => stuck
          end
        else ret out_dispatched
    | _, _ => ret out_dispatched
    end in
  match CollectRetrySyncEntries pending' states op expect_state with
  | inl e => fail e
  | inr (retry_entries, retry_states) => ret (retry_entries, retry_states, out')
  end.

Definition HandleSyncContextTimeout {S} (op : Z) : RtM S unit :=
  require (op =? TRANSFER_CONTEXT_OP_DELETE) TIMEOUT.

(** The loop of SyncContextsLocked: one round of it per unit of fuel. *)
Fixpoint sync_contexts_loop {S} (p : TransferPool) (fuel : nat)
    (pending : list HixlTransferContextSyncEntry) (op expect_state deadline : Z)
    (out_dispatched : option Z) : RtM S (option Z) :=
  match fuel with
  | O => stuck
  | Datatypes.S fuel' =>
      let* (retry, out') := RunSyncContextOnceLocked p pending op expect_state out_dispatched in
      let '(pending', _) := retry in
      if bool_decide (length pending' = 0%nat) then ret out'
      else
        let* now := call steady_clock_now in
        if deadline <=? now then HandleSyncContextTimeout op ;; ret out'
        else
          call (this_thread_sleep_for kSyncContextRetryIntervalMs) ;;
          sync_contexts_loop p fuel' pending' op expect_state deadline out'
  end.

(** Rounds of the loop: one before the first sleep and one after each of the
    [30000 / 100] sleeps that fit before the deadline. *)
Definition sync_rounds : nat := 301.

Definition SyncContextsLocked {S} (p : TransferPool)
    (entries : list HixlTransferContextSyncEntry) (op expect_state : Z) (out_dispatched : option Z)
    : RtM S (option Z) :=
  if bool_decide (length entries = 0%nat) then ret out_dispatched
  else
    require (negb (is_null (sync_transfer_context (device_func_handles_ p)))) FAILED ;;
    let* now := call steady_clock_now in
    sync_contexts_loop p sync_rounds entries op expect_state (now + kSyncContextRetryTimeoutMs)
      out_dispatched.

Definition AddTransferContextsLocked {S} (p : TransferPool) : RtM S unit :=
  SyncContextsLocked p (BuildSyncEntriesFromSlots (slots_ p) TRANSFER_CONTEXT_OP_ADD)
    TRANSFER_CONTEXT_OP_ADD TRANSFER_THREAD_STATE_INITIALIZED None ;;
  ret tt.

Definition DeleteTransferContextsLocked {S} (p : TransferPool)
    (entries : list HixlTransferContextSyncEntry) : RtM S unit :=
  SyncContextsLocked p entries TRANSFER_CONTEXT_OP_DELETE TRANSFER_THREAD_STATE_DELETED None ;;
  ret tt.

Definition SyncOneTransferContextLocked {S} (p : TransferPool) (s : Slot) (op expect_state : Z)
    (out_dispatched : option Z) : RtM S (option Z) :=
  if thread s =? 0 then ret out_dispatched
  else SyncContextsLocked p [sync_entry op s] op expect_state out_dispatched.

(** * One slot

    [const] methods that read the pool [p] and write the slot. *)

Definition EnsureContextLocked (p : TransferPool) : RtM Slot unit :=
  let* s := get in
  if negb (is_null (ctx s)) then ret tt
  else
    let* c := HIXL_CHK_ACL_RET_OUT (aclrtCreateContext (device_id_ p)) in
    modify (set_ctx c).

Definition EnsureDefaultStreamLocked (p : TransferPool) : RtM Slot unit :=
  let* s := get in
  if negb (is_null (stream s)) then ret tt
  else
    require (negb (is_null (ctx s))) FAILED ;;
    TemporaryRtContext (ctx s)
      (let* strm := HIXL_CHK_ACL_RET_OUT aclrtCtxGetCurrentDefaultStream in
       HIXL_CHK_ACL_RET (aclrtSetStreamFailureMode strm) ;;
       modify (set_stream strm)).

Definition EnsureThreadLocked (p : TransferPool) : RtM Slot unit :=
  let* s := get in
  if negb (thread s =? 0) then ret tt
  else
    let* t := HIXL_CHK_HCCL_RET_OUT (HcommThreadAlloc kDefaultThreadNum kDefaultNotifyNumPerThread) in
    modify (set_thread t).

Definition ResetNotifyResourcesLocked : RtM Slot unit :=
  let* s := get in
  (if negb (is_null (notify s))
   then HIXL_CHK_ACL (aclrtDestroyNotify (notify s)) ;; modify (set_notify nullptr)
   else ret tt) ;;
  modify (set_notify_info 0 0 0).

Definition CreateNotifyLocked : RtM Slot unit :=
  let* n := HIXL_CHK_ACL_RET_OUT aclrtCreateNotify in
  modify (set_notify n) ;;
  let* i := HIXL_CHK_ACL_RET_OUT (aclrtGetNotifyId n) in
  modify (fun s => set_notify_info i (notify_addr s) (notify_len s) s).

Definition EnsureNotifyLocked : RtM Slot unit :=
  let* s := get in
  if is_null (notify s) then ResetNotifyResourcesLocked ;; CreateNotifyLocked else ret tt.

Definition AssignSlotErrFlagLocked (p : TransferPool) (slot_index : Z) : RtM Slot unit :=
  if is_null (err_flag_host_base_ p) || is_null (err_flag_device_base_ p) then ret tt
  else modify (set_err_flag (err_flag_host_base_ p + slot_index)
                            (u64 (err_flag_device_base_ p + slot_index))).

Definition InitOneSlotLocked (p : TransferPool) (slot_index : Z) : RtM Slot unit :=
  modify (set_launched_tasks 0) ;;
  EnsureContextLocked p ;;
  EnsureDefaultStreamLocked p ;;
  EnsureThreadLocked p ;;
  EnsureNotifyLocked ;;
  AssignSlotErrFlagLocked p slot_index.

Definition ResolveNotifyAddressLocked (p : TransferPool) : RtM Slot unit :=
  modify (fun s => set_notify_info (notify_id s) 0 0 s) ;;
  let* s := get in
  HIXL_CHECK_NOTNULL (notify s) ;;
  let* (addr, len) := NotifyAddrResolver_Resolve (device_id_ p) (notify s) in
  modify (fun s => set_notify_info (notify_id s) addr len s).

Definition CreateUbMemStreamLocked : RtM Slot unit :=
  let* s := get in
  if negb (is_null (ubmem_stream s)) then ret tt
  else
    require (negb (is_null (ctx s))) FAILED ;;
    TemporaryRtContext (ctx s)
      (let* strm := HIXL_CHK_ACL_RET_OUT aclrtCreateStreamWithConfig in
       modify (set_ubmem_stream strm)).

Definition DestroyUbMemStreamLocked : RtM Slot unit :=
  let* s := get in
  if is_null (ubmem_stream s) then ret tt
  else
    TemporaryRtContext (ctx s)
      (HIXL_CHK_ACL (aclrtDestroyStream (ubmem_stream s)) ;;
       modify (set_ubmem_stream nullptr)).

(** Free the HCOMM thread under the pool's own context. *)
Definition free_slot_thread (p : TransferPool) : RtM Slot unit :=
  let* s := get in
  if thread s =? 0 then ret tt
  else
    TemporaryRtContext (rts_context_ p)
      (HIXL_CHK_ACL (HcommThreadFree (thread s)) ;; modify (set_thread 0)).

Definition DestroySlotLocked (p : TransferPool) (sync_context : bool) : RtM Slot unit :=
  DestroyUbMemStreamLocked ;;
  let* s := get in
  (if sync_context
   then HIXL_CHK_STATUS (SyncOneTransferContextLocked p s TRANSFER_CONTEXT_OP_DELETE
                           TRANSFER_THREAD_STATE_DELETED None)
   else ret tt) ;;
  TemporaryRtContext (ctx s)
    (if negb (is_null (notify s))
     then HIXL_CHK_ACL (aclrtDestroyNotify (notify s)) ;;
          modify (fun s => set_notify_info 0 0 0 (set_notify nullptr s))
     else ret tt) ;;
  free_slot_thread p ;;
  (if negb (is_null (ctx s))
   then HIXL_CHK_ACL (aclrtDestroyContext (ctx s)) ;; modify (set_ctx nullptr)
   else ret tt) ;;
  modify (set_stream nullptr).

(** * Aborting a slot *)
Definition AbortInUseStreamLocked {S} (s : Slot) : RtM S unit :=
  TemporaryRtContext (ctx s)
    ((if negb (is_null (ubmem_stream s)) then HIXL_CHK_ACL (aclrtStreamStop (ubmem_stream s))
      else ret tt) ;;
     (if negb (is_null (stream s)) then HIXL_CHK_ACL (aclrtStreamAbort (stream s)) else ret tt)).

Definition ResetAbortSlotNotifyLocked : RtM Slot unit :=
  let* s := get in
  if is_null (notify s) then ret tt else HIXL_CHK_ACL (aclrtNotifyBatchReset (notify s)).

Definition AbortSlotRuntimeLocked : RtM Slot unit :=
  let* s := get in
  TemporaryRtContext (ctx s)
    (if negb (is_null (stream s)) then HIXL_CHK_ACL (aclrtStreamAbort (stream s)) else ret tt) ;;
  DestroyUbMemStreamLocked ;;
  modify (set_stream nullptr) ;;
  ResetAbortSlotNotifyLocked.

Definition DeleteSlotThreadContextForAbortLocked (p : TransferPool) (out_dispatched : option Z)
    : RtM Slot (option Z) :=
  let* s := get in
  let* sync_ret :=
    (if negb (thread s =? 0)
     then attempt (SyncOneTransferContextLocked p s TRANSFER_CONTEXT_OP_DELETE
                     TRANSFER_THREAD_STATE_DELETED out_dispatched)
     else ret (inr out_dispatched)) in
  free_slot_thread p ;;
  match sync_ret with inr d => ret d | inl e => fail e end.

Definition DestroySlotContextForAbortLocked : RtM Slot unit :=
  let* s := get in
  if negb (is_null (ctx s))
  then HIXL_CHK_ACL (aclrtDestroyContext (ctx s)) ;;
       modify (fun s => set_stream nullptr (set_ctx nullptr s))
  else ret tt.

Definition CleanupSlotAfterAbortReinitFailureLocked (p : TransferPool) : RtM Slot unit :=
  ResetAbortSlotNotifyLocked ;;
  HIXL_CHK_STATUS (DeleteSlotThreadContextForAbortLocked p None) ;;
  DestroySlotContextForAbortLocked ;;
  modify (set_in_use false).

Definition ReinitSlotAfterAbortLocked (p : TransferPool) (slot_index : Z) : RtM Slot unit :=
  on_fail
    (InitOneSlotLocked p slot_index ;;
     let* s := get in
     SyncOneTransferContextLocked p s TRANSFER_CONTEXT_OP_ADD TRANSFER_THREAD_STATE_INITIALIZED None ;;
     ret tt)
    (CleanupSlotAfterAbortReinitFailureLocked p).

(** The part of AbortSlotByIndexLocked that works on the slot; the count of
    dispatched tasks it reads back is only logged. *)
Definition abort_slot (p : TransferPool) (slot_index : Z) : RtM Slot (Status + unit) :=
  AbortSlotRuntimeLocked ;;
  let* _ := attempt (DeleteSlotThreadContextForAbortLocked p (Some 0)) in
  DestroySlotContextForAbortLocked ;;
  attempt (ReinitSlotAfterAbortLocked p slot_index).

(** * The pool *)

(** Work on [slots_[i]]; an index outside the vector has no meaning in C++. *)
Definition on_slot {A} (i : Z) (m : TransferPool -> RtM Slot A) : RtM TransferPool A :=
  zoom (fun p => if i <? 0 then None else slots_ p !! Z.to_nat i)
       (fun s p => set_slots (<[Z.to_nat i := s]> (slots_ p)) p) m.

(** The indices of [for (uint32_t i = 0U; i < pool_size_; ++i)]. *)
Definition slot_indices (p : TransferPool) : list Z :=
  map Z.of_nat (seq 0 (Z.to_nat (pool_size_ p))).

Definition InitFreeListLocked : RtM TransferPool unit :=
  modify (fun p => set_free_list (slot_indices p) p).

Definition ResetSlotsLocked (pool_size : Z) : RtM TransferPool unit :=
  modify (set_slots (replicate (Z.to_nat pool_size) empty_slot)).

Definition LoadOptionalUbMemKernelsLocked : RtM TransferPool unit :=
  let* r := attempt (zoom (fun p => Some (kernel_bin_handle_ p, device_func_handles_ p))
                          (fun '(b, f) => set_kernels b f)
                          (fun _ => LoadDeviceKernelFunctions [kUbMemFuncRead; kUbMemFuncWrite])) in
  let (rd, wr) :=
    match r with
    | inr [rd; wr] => if is_null rd || is_null wr then (nullptr, nullptr) else (rd, wr)
    | _ => (nullptr, nullptr)
    end in
  modify (fun p => set_kernels (kernel_bin_handle_ p)
    (mkDeviceFuncHandles (batch_get (device_func_handles_ p)) (batch_put (device_func_handles_ p))
       rd wr (sync_transfer_context (device_func_handles_ p))) p).

Definition EnsureDeviceKernelsLocked : RtM TransferPool unit :=
  let* p := get in
  let f := device_func_handles_ p in
  if negb (is_null (batch_get f)) && negb (is_null (batch_put f))
     && negb (is_null (sync_transfer_context f))
  then ret tt
  else
    HIXL_CHECK_NOTNULL (rts_context_ p) ;;
    TemporaryRtContext (rts_context_ p)
      (zoom (fun p => Some (kernel_bin_handle_ p, device_func_handles_ p))
            (fun '(b, f) => set_kernels b f)
            (fun _ => LoadDeviceKernelAndGetHandles kDeviceFuncGet kDeviceFuncPut
                        (Some kDeviceFuncSyncContext)) ;;
       let* p := get in
       HIXL_CHECK_NOTNULL (batch_get (device_func_handles_ p)) ;;
       HIXL_CHECK_NOTNULL (batch_put (device_func_handles_ p)) ;;
       HIXL_CHECK_NOTNULL (sync_transfer_context (device_func_handles_ p)) ;;
       LoadOptionalUbMemKernelsLocked).

(** The two allocators of the error-flag block.  The scope guard frees the block
    unless it was dismissed, which happens only when the mapping succeeded; a
    failed mapping is not an error. *)
Definition AllocErrFlagHostMappedLocked (total_size logic_dev_id : Z) : RtM TransferPool unit :=
  modify (fun p => set_err_bases (err_flag_host_base_ p) (err_flag_device_base_ p) false p) ;;
  let* host_va := HIXL_CHK_ACL_RET_OUT (aclrtMallocHost total_size) in
  let err_flag_guard :=
    (if negb (is_null host_va) then HIXL_CHK_ACL (aclrtFreeHost host_va) else ret tt) ;;
    modify (fun p => set_err_bases nullptr nullptr (err_flag_from_device_ p) p) in
  let* reg :=
    on_fail
      (HIXL_CHK_ACL_RET (aclrtMemset host_va total_size) ;;
       call (HalHostRegister host_va total_size kHostMemMapDevPcieTh logic_dev_id))
      err_flag_guard in
  match reg with
  | inl _ => err_flag_guard
  | inr device_va =>
      modify (fun p => set_err_bases host_va device_va (err_flag_from_device_ p) p)
  end.

Definition AllocErrFlagDeviceMappedLocked (total_size logic_dev_id : Z) : RtM TransferPool unit :=
  modify (fun p => set_err_bases (err_flag_host_base_ p) (err_flag_device_base_ p) true p) ;;
  let err_flag_guard device_va :=
    (if negb (is_null device_va) then HIXL_CHK_ACL (aclrtFree device_va) else ret tt) ;;
    modify (set_err_bases nullptr nullptr false) in
  let* device_va :=
    on_fail (HIXL_CHK_ACL_RET_OUT (aclrtMalloc total_size ACL_MEM_TYPE_HIGH_BAND_WIDTH))
      (err_flag_guard nullptr) in
  let* reg :=
    on_fail
      (HIXL_CHK_ACL_RET (aclrtMemset device_va total_size) ;;
       call (HalHostRegister device_va total_size kDevSvmMapHost logic_dev_id))
      (err_flag_guard device_va) in
  match reg with
  | inl _ => err_flag_guard device_va
  | inr host_va =>
      modify (fun p => set_err_bases host_va device_va (err_flag_from_device_ p) p)
  end.

Definition EnsureErrFlagMemLocked : RtM TransferPool unit :=
  let* p := get in
  if negb (is_null (err_flag_host_base_ p)) || negb (is_null (err_flag_device_base_ p)) then ret tt
  else
    let total_size := pool_size_ p in
    let* logic_dev_id := HIXL_CHK_ACL_RET_OUT (aclrtGetLogicDevIdByUserDevId (device_id_ p)) in
    let* soc_type := GetSocType in
    if bool_decide (soc_type = kGen1) || bool_decide (soc_type = kGen2)
    then AllocErrFlagDeviceMappedLocked total_size (u32 logic_dev_id)
    else AllocErrFlagHostMappedLocked total_size (u32 logic_dev_id).

Definition FreeErrFlagMemLocked : RtM TransferPool unit :=
  let* p := get in
  let hst := err_flag_host_base_ p in
  let dev := err_flag_device_base_ p in
  let reg_src := if err_flag_from_device_ p then dev else hst in
  let mapped := negb (is_null hst) && negb (is_null dev) in
  (if mapped && negb (is_null reg_src) then
     let* logic := call (aclrtGetLogicDevIdByUserDevId (device_id_ p)) in
     match logic with
     | inr logic_dev_id => let* _ := call (HalHostUnregister reg_src (u32 logic_dev_id)) in ret tt
     | inl _ => ret tt
     end
   else ret tt) ;;
  (if err_flag_from_device_ p
   then (if negb (is_null dev) then HIXL_CHK_ACL (aclrtFree dev) else ret tt)
   else (if negb (is_null hst) then HIXL_CHK_ACL (aclrtFreeHost hst) else ret tt)) ;;
  modify (set_err_bases nullptr nullptr false).

Definition ResetSlotErrFlagLocked (slot_index : Z) : RtM TransferPool unit :=
  let* p := get in
  if is_null (err_flag_host_base_ p) then ret tt
  else call (store_u8 (err_flag_host_base_ p + slot_index) 0).

Definition EnsureDevConstOneLocked : RtM TransferPool unit :=
  let* p := get in
  if negb (is_null (dev_const_one_ p)) then ret tt
  else
    let* one := HIXL_CHK_ACL_RET_OUT (aclrtMalloc 8 ACL_MEM_MALLOC_NORMAL_ONLY) in
    modify (set_dev_const_one one) ;;
    HIXL_CHK_ACL_RET (aclrtMemcpyU64ToDevice one 1).

Definition InitAllSlotsLocked : RtM TransferPool unit :=
  InitFreeListLocked ;;
  let* p := get in
  for_each (slot_indices p) (fun i => on_slot i (fun p => InitOneSlotLocked p i)).

Definition InitializeResourcesLocked : RtM TransferPool unit :=
  EnsureDeviceKernelsLocked ;;
  EnsureErrFlagMemLocked ;;
  InitAllSlotsLocked ;;
  EnsureDevConstOneLocked ;;
  let* p := get in
  AddTransferContextsLocked p.

(** Whether DeinitAllSlotsLocked calls DestroySlotLocked on the slot. *)
Definition slot_needs_destroy (s : Slot) : bool :=
  negb (is_null (ctx s)) || negb (is_null (stream s)) || negb (thread s =? 0)
  || negb (is_null (notify s)) || negb (is_null (ubmem_stream s)).

Definition deinit_slot (p : TransferPool) : RtM Slot unit :=
  let* s := get in
  (if slot_needs_destroy s then HIXL_CHK_STATUS (DestroySlotLocked p false) else ret tt) ;;
  put empty_slot.

Definition DeinitAllSlotsLocked : RtM TransferPool unit :=
  let* p := get in
  let entries := BuildSyncEntriesFromSlots (slots_ p) TRANSFER_CONTEXT_OP_DELETE in
  (if negb (bool_decide (length entries = 0%nat))
   then HIXL_CHK_STATUS (DeleteTransferContextsLocked p entries) else ret tt) ;;
  (if negb (is_null (dev_const_one_ p))
   then HIXL_CHK_ACL (aclrtFree (dev_const_one_ p)) ;; modify (set_dev_const_one nullptr)
   else ret tt) ;;
  for_each (slot_indices p) (fun i => on_slot i deinit_slot) ;;
  (if negb (is_null (err_flag_host_base_ p)) || negb (is_null (err_flag_device_base_ p))
   then TemporaryRtContext (rts_context_ p) FreeErrFlagMemLocked else ret tt) ;;
  (if negb (is_null (kernel_bin_handle_ p))
   then TemporaryRtContext (rts_context_ p)
          (HIXL_CHK_ACL (aclrtBinaryUnLoad (kernel_bin_handle_ p)) ;;
           modify (set_kernels nullptr no_func_handles))
   else ret tt) ;;
  (if negb (is_null (rts_context_ p))
   then HIXL_CHK_ACL (aclrtDestroyContext (rts_context_ p)) ;; modify (set_rts_context nullptr)
   else ret tt) ;;
  modify (fun p => set_free_list [] (set_counters (ref_cnt_ p) false 0 (set_slots [] p))).

Definition AbortInUseStreamsLocked : RtM TransferPool unit :=
  let* p := get in
  for_each (slot_indices p)
    (fun i => on_slot i (fun _ => let* s := get in
                                  if in_use s then AbortInUseStreamLocked s else ret tt)).

Definition ReturnSlotToFreeListLocked (slot_index : Z) : RtM TransferPool unit :=
  ResetSlotErrFlagLocked slot_index ;;
  on_slot slot_index (fun _ => modify (set_in_use false)) ;;
  modify (fun p => set_free_list (free_list_ p ++ [slot_index]) p).

Definition AbortSlotByIndexLocked (slot_index : Z) : RtM TransferPool unit :=
  let* p := get in
  if pool_size_ p <=? slot_index then ret tt
  else
    let* used := on_slot slot_index (fun _ => let* s := get in ret (in_use s)) in
    if negb used then ret tt
    else
      let* r := on_slot slot_index (fun p => abort_slot p slot_index) in
      match r with
      | inr _ => ReturnSlotToFreeListLocked slot_index
      | inl _ => ret tt
      end.

(** * Public operations *)
Definition TransferPool_Initialize (pool_size : Z) : RtM TransferPool unit :=
  require (negb ((pool_size =? 0) || (kMaxPoolSize <? pool_size))) PARAM_INVALID ;;
  let* p := get in
  if inited_ p then
    require (pool_size =? pool_size_ p) PARAM_INVALID ;;
    modify (set_counters (u32 (ref_cnt_ p + 1)) (inited_ p) (pool_size_ p))
  else
    modify (set_counters (ref_cnt_ p) (inited_ p) pool_size) ;;
    ResetSlotsLocked pool_size ;;
    on_fail
      (let* c := HIXL_CHK_ACL_RET_OUT (aclrtCreateContext (device_id_ p)) in
       modify (set_rts_context c) ;;
       InitializeResourcesLocked ;;
       modify (fun p => set_counters 1 true (pool_size_ p) p))
      DeinitAllSlotsLocked.

Definition TransferPool_Finalize : RtM TransferPool unit :=
  let* p := get in
  if ref_cnt_ p =? 0 then ret tt
  else
    modify (set_counters (u32 (ref_cnt_ p - 1)) (inited_ p) (pool_size_ p)) ;;
    let* p := get in
    if negb (ref_cnt_ p =? 0) then ret tt
    else (if inited_ p then AbortInUseStreamsLocked else ret tt) ;; DeinitAllSlotsLocked.

(** The destructor. *)
Definition TransferPool_destroy : RtM TransferPool unit := DeinitAllSlotsLocked.

Definition with_dev_const_one v (h : SlotHandle) : SlotHandle :=
  mkSlotHandle (h_device_id h) (h_slot_index h) (h_ctx h) (h_stream h) (h_thread h) (h_notify h) v
    (h_notify_id h) (h_notify_addr h) (h_notify_len h) (h_err_flag_host_addr h)
    (h_err_flag_dev_addr h) (h_launched_tasks h) (h_ubmem_stream h).

(** [Acquire] with a non-null output pointer. *)
Definition TransferPool_Acquire : RtM TransferPool SlotHandle :=
  let* p := get in
  require (inited_ p) FAILED ;;
  match free_list_ p with
  | [] => fail RESOURCE_EXHAUSTED
  | idx :: rest =>
      modify (set_free_list rest) ;;
      on_slot idx (fun p =>
        modify (set_in_use true) ;;
        let* s := get in
        ret (with_dev_const_one (dev_const_one_ p) (FillHandleFromSlot (device_id_ p) idx s)))
  end.

Definition TransferPool_Release (handle : SlotHandle) : RtM TransferPool unit :=
  let* p := get in
  if negb (h_device_id handle =? device_id_ p) then ret tt
  else if pool_size_ p <=? h_slot_index handle then ret tt
  else
    let idx := h_slot_index handle in
    let* used := on_slot idx (fun _ => let* s := get in ret (in_use s)) in
    if negb used then ret tt
    else
      on_slot idx (fun _ => modify (set_launched_tasks (h_launched_tasks handle))) ;;
      ResetSlotErrFlagLocked idx ;;
      on_slot idx (fun _ => modify (set_in_use false)) ;;
      modify (fun p => set_free_list (free_list_ p ++ [idx]) p).

Definition TransferPool_Abort (handle : SlotHandle) : RtM TransferPool unit :=
  let* p := get in
  if negb (inited_ p) then ret tt
  else if negb (h_device_id handle =? device_id_ p) then ret tt
  else if pool_size_ p <=? h_slot_index handle then ret tt
  else AbortSlotByIndexLocked (h_slot_index handle).

Definition TransferPool_GetAllSlots : RtM TransferPool (list SlotHandle) :=
  let* p := get in
  if negb (inited_ p) then fail FAILED
  else ret (zip_with (FillHandleFromSlot (device_id_ p)) (slot_indices p) (slots_ p)).

Definition TransferPool_ResolveNotifyAddr : RtM TransferPool unit :=
  let* p := get in
  require (inited_ p) FAILED ;;
  for_each (map Z.of_nat (seq 0 (length (slots_ p)))) (fun i => on_slot i (fun p =>
    let* s := get in
    if negb (notify_addr s =? 0) && negb (notify_len s =? 0) then ret tt
    else ResolveNotifyAddressLocked p)).

Definition with_ubmem_stream v (h : SlotHandle) : SlotHandle :=
  mkSlotHandle (h_device_id h) (h_slot_index h) (h_ctx h) (h_stream h) (h_thread h) (h_notify h)
    (h_dev_const_one h) (h_notify_id h) (h_notify_addr h) (h_notify_len h)
    (h_err_flag_host_addr h) (h_err_flag_dev_addr h) (h_launched_tasks h) v.

(** [EnsureUbMemStream] returns the handle with its stream filled in. *)
Definition TransferPool_EnsureUbMemStream (handle : SlotHandle) : RtM TransferPool SlotHandle :=
  let* p := get in
  require (inited_ p) FAILED ;;
  require (h_device_id handle =? device_id_ p) PARAM_INVALID ;;
  require (h_slot_index handle <? pool_size_ p) PARAM_INVALID ;;
  on_slot (h_slot_index handle) (fun _ =>
    let* s := get in
    require (in_use s) FAILED ;;
    CreateUbMemStreamLocked ;;
    let* s := get in
    ret (with_ubmem_stream (ubmem_stream s) handle)).
End Operations.

Definition TransferPool_IsInitialized (p : TransferPool) : bool := inited_ p.
Definition TransferPool_GetContext (p : TransferPool) : Z := rts_context_ p.

Definition TransferPool_GetDeviceKernelFunc (is_get is_ubmem_protocol : bool) (p : TransferPool) : Z :=
  let f := device_func_handles_ p in
  if is_ubmem_protocol
  then (if is_get then ubmem_batch_read f else ubmem_batch_write f)
  else (if is_get then batch_get f else batch_put f).
