(* ===== verification/TransferPoolSpec.v ===== *)
(** Correctness of the transfer pool (file TransferPool): resource ownership,
    the free list, rollback of initialisation, termination of the context
    synchronisation. *)

From stdpp Require Import gmultiset countable.
From S2P Require Import Prelude Effects Runtime RtLogic DeviceSupport TransferPool.

(** * The resources the pool's fields stand for *)
Definition held (k : ResKind) (p : Z) : gmultiset Resource :=
  if is_null p then ∅ else {[+ (k, p) +]}.

Definition held_slot (s : Slot) : gmultiset Resource :=
  held RContext (ctx s) ⊎ held RThread (thread s) ⊎ held RNotify (notify s)
  ⊎ held RStream (ubmem_stream s).

Fixpoint held_slots (l : list Slot) : gmultiset Resource :=
  match l with [] => ∅ | s :: l' => held_slot s ⊎ held_slots l' end.

Definition held_err_flag (p : TransferPool) : gmultiset Resource :=
  if err_flag_from_device_ p then held RDevMem (err_flag_device_base_ p)
  else held RHostMem (err_flag_host_base_ p).

Definition held_pool (p : TransferPool) : gmultiset Resource :=
  held RContext (rts_context_ p) ⊎ held RBinary (kernel_bin_handle_ p)
  ⊎ held RDevMem (dev_const_one_ p) ⊎ held_err_flag p ⊎ held_slots (slots_ p).

Lemma held_null k : held k nullptr = ∅.
Proof. done. Qed.

Lemma held_nonnull k p : p <> nullptr -> held k p = {[+ (k, p) +]}.
Proof. unfold held, is_null, nullptr. intros H. by rewrite (proj2 (Z.eqb_neq p 0) H). Qed.

Lemma held_is_null k p : is_null p = true -> held k p = ∅.
Proof. unfold held. by intros ->. Qed.

Lemma held_not_null k p : negb (is_null p) = true -> held k p = {[+ (k, p) +]}.
Proof. unfold held. by destruct (is_null p). Qed.

Lemma is_null_true p : is_null p = true -> p = nullptr.
Proof. apply Z.eqb_eq. Qed.

Lemma held_false_null k p : is_null p = false -> held k p = {[+ (k, p) +]}.
Proof. unfold held. by intros ->. Qed.

(** Replace each [held] by the resource or by nothing, as the tests passed so
    far tell, and compare the multisets. *)
Ltac simpl_held :=
  unfold held_slot in *; simpl in *; unfold set_slots in *; simpl in *;
  repeat match goal with
    | H : negb ?b = false |- _ => apply negb_false_iff in H
    | H : negb ?b = true |- _ => apply negb_true_iff in H
    | H : context [?x =? 0] |- _ => change (x =? 0) with (is_null x) in H
    end;
  repeat match goal with
    | H : is_null ?p = true |- context [held ?k ?p] => rewrite (held_is_null k p H)
    | H : is_null ?p = false |- context [held ?k ?p] => rewrite (held_false_null k p H)
    | H : ?p <> nullptr |- context [held ?k ?p] => rewrite (held_nonnull k p H)
    | |- context [held ?k 0] => rewrite (held_null k : held k 0 = ∅)
    | |- context [held ?k nullptr] => rewrite (held_null k)
    end.
Ltac solve_held := simpl_held; multiset_solver.

Lemma held_slots_insert (l : list Slot) i s s' :
  l !! i = Some s ->
  held_slots (<[i:=s']> l) ⊎ held_slot s = held_slots l ⊎ held_slot s'.
Proof.
  revert i. induction l as [|a l IH]; intros [|i] H; simplify_eq/=; [multiset_solver|].
  specialize (IH i H). multiset_solver.
Qed.

Lemma held_slots_insert_frame (l : list Slot) i s s' F X :
  l !! i = Some s ->
  F ⊎ held_slots l = X ⊎ held_slot s ->
  F ⊎ held_slots (<[i:=s']> l) = X ⊎ held_slot s'.
Proof. intros H1%(held_slots_insert _ _ _ s') H2. multiset_solver. Qed.

Lemma held_slots_empty n : held_slots (replicate n empty_slot) = ∅.
Proof. induction n as [|n IH]; [done|]. simpl. by rewrite IH. Qed.

Section Slots.
Context {codes : AclCodes} {env : RtEnv} {laws : RtLaws env}.

(** * Termination of the synchronisation loop *)

Definition kernel_post {S} (entries : list HixlTransferContextSyncEntry) (s : S)
    (X : gmultiset Resource)
    (o : Status + list Z * list HixlTransferContextSyncEntry) (s' : S) (X' : gmultiset Resource) : Prop :=
  s' = s /\ X' = X /\
  match o with
  | inr (states, entries') => length states = length entries /\ length entries' = length entries
  | inl _ => True
  end.

Lemma wpr_launch_sync_kernel {S} p de ds entries rb (s : S) X :
  wpr (launch_sync_kernel p de ds entries rb) (kernel_post entries s X) s X.
Proof.
  unfold launch_sync_kernel, kernel_post.
  wpr_step; repeat split; try done;
    repeat match goal with H : exists h, _ |- _ => destruct H as [? H] end;
    eauto using law_states_length, law_entries_length.
Qed.

Lemma wpr_LaunchSync {S} p entries rb (s : S) X :
  wpr (LaunchSyncContextKernelLocked p entries rb) (kernel_post entries s X) s X.
Proof.
  unfold LaunchSyncContextKernelLocked. wpr_step; try done.
  - eapply wpr_mono; [apply wpr_launch_sync_kernel|]. intros o s' X' (-> & -> & Ho).
    wpr_step. wpr_dispose. wpr_step. wpr_dispose. done.
  - wpr_dispose. done.
Qed.

(** A computation that leaves the state and the resources as they were. *)
Definition unchanged {S A : Type} (s : S) (X : gmultiset Resource)
    (o : Status + A) (s' : S) (X' : gmultiset Resource) : Prop := s' = s /\ X' = X.

Lemma wpr_RunSyncContextOnce {S} p pending op expect out (s : S) X :
  wpr (RunSyncContextOnceLocked p pending op expect out) (unchanged s X) s X.
Proof.
  unfold RunSyncContextOnceLocked. apply wpr_bind. eapply wpr_mono; [apply wpr_LaunchSync|].
  intros [e|[states pending']] s' X' (-> & -> & Ho); [done|].
  destruct Ho as [Hs Hp]. apply wpr_bind.
  assert (Hc : forall out' : option Z, wpr (match CollectRetrySyncEntries pending' states op expect with
      | inl e => fail e
      | inr (retry_entries, retry_states) => ret (retry_entries, retry_states, out')
      end) (unchanged s X) s X).
  { intros out'. destruct (CollectRetrySyncEntries _ _ _ _) as [e|[re rs]]; wpr_step; done. }
  destruct out as [d|], states as [|st0 states]; wpr_step; auto.
  destruct pending' as [|e0 pending']; [simpl in *; lia|]. wpr_step. auto.
Qed.

Lemma wp_sync_contexts_loop {S} p fuel pending op expect deadline out (s : S) X h :
  deadline <= time_floor h + kSyncContextRetryIntervalMs * (Z.of_nat fuel - 1) ->
  (1 <= fuel)%nat -> owns h X ->
  wp (sync_contexts_loop p fuel pending op expect deadline out)
    (fun o s' h' => time_floor h <= time_floor h' /\ exists X', owns h' X' /\ unchanged s X o s' X') s h.
Proof.
  unfold kSyncContextRetryIntervalMs.
  revert pending out h. induction fuel as [|fuel IH]; intros pending out h Hd Hf Ho; [lia|].
  simpl. apply wp_bind. eapply wp_mono; [by apply (wpr_RunSyncContextOnce p pending op expect out s X)|].
  intros [e|[[pending' st'] out']] s' h' (Ht & X' & HX & -> & ->); [split; [lia|]; by exists X|].
  case_bool_decide; [apply wp_ret; split; [lia|]; by exists X|].
  apply wp_bind, wp_call. intros now Hnow.
  assert (Hle : time_floor h' <= now) by (subst; apply law_clock).
  destruct (deadline <=? now) eqn:Hdl.
  - apply wp_bind, wp_require; intros _; [apply wp_ret|];
      (split; [simpl; lia|]; exists X; split; [by apply owns_neutral | done]).
  - apply wp_bind, wp_call. intros [] _. apply Z.leb_gt in Hdl.
    assert (1 <= fuel)%nat by lia.
    eapply wp_mono; [apply IH; [simpl; unfold kSyncContextRetryIntervalMs; lia|lia|by repeat apply owns_neutral]|].
    simpl. unfold kSyncContextRetryIntervalMs. intros o s'' h'' [Ht'' Hr]. split; [lia|done].
Qed.

Lemma wpr_SyncContexts {S} p entries op expect out (s : S) X :
  wpr (SyncContextsLocked p entries op expect out) (unchanged s X) s X.
Proof.
  unfold SyncContextsLocked. case_bool_decide; [by apply wpr_ret|].
  apply wpr_bind, wpr_require; intros _; [|done].
  intros h Ho. apply wp_bind, wp_call. intros now Hnow.
  eapply wp_mono.
  - apply wp_sync_contexts_loop with (X := X); [simpl|unfold sync_rounds; lia|by apply owns_neutral].
    unfold kSyncContextRetryTimeoutMs, kSyncContextRetryIntervalMs, sync_rounds. lia.
  - simpl. intros o s' h' [Ht Hr]. split; [|done]. pose proof (law_clock h). subst now. lia.
Qed.

Lemma wpr_SyncOne {S} p sl op expect out (s : S) X :
  wpr (SyncOneTransferContextLocked p sl op expect out) (unchanged s X) s X.
Proof.
  unfold SyncOneTransferContextLocked. destruct (_ =? _); [by apply wpr_ret | apply wpr_SyncContexts].
Qed.

(** * Operations on one slot keep the books *)

(** The slot's fields account for the change of the live resources, and the slot
    stays in or out of use. *)
Definition balanced {A : Type} (F : gmultiset Resource) (s : Slot)
    (o : Status + A) (s' : Slot) (X' : gmultiset Resource) : Prop :=
  X' = F ⊎ held_slot s' /\ in_use s' = in_use s.

Definition slot_ok {A} (m : RtM Slot A) : Prop :=
  forall s F, wpr m (balanced F s) s (F ⊎ held_slot s).

Lemma slot_ok_bind {A B} (m : RtM Slot A) (k : A -> RtM Slot B) :
  slot_ok m -> (forall a, slot_ok (k a)) -> slot_ok (bind m k).
Proof.
  intros Hm Hk s F. apply wpr_bind. eapply wpr_mono; [apply Hm|].
  intros [e|a] s' X' [-> Hu]; [done|]. eapply wpr_mono; [apply Hk|].
  intros o s'' X'' [-> Hu']. split; [done | congruence].
Qed.

Lemma slot_ok_unchanged {A} (m : RtM Slot A) :
  (forall s X, wpr m (unchanged s X) s X) -> slot_ok m.
Proof. intros H s F. eapply wpr_mono; [apply H|]. by intros o s' X' [-> ->]. Qed.

Ltac slot_step := wpr_step; unfold balanced; try (split; [solve_held | done]).

Lemma EnsureContext_ok p : slot_ok (EnsureContextLocked p).
Proof. intros s F. unfold EnsureContextLocked. slot_step. Qed.

Lemma EnsureDefaultStream_ok p : slot_ok (EnsureDefaultStreamLocked p).
Proof. intros s F. unfold EnsureDefaultStreamLocked. slot_step. Qed.

Lemma EnsureThread_ok p : slot_ok (EnsureThreadLocked p).
Proof. intros s F. unfold EnsureThreadLocked. slot_step. Qed.

Lemma EnsureNotify_ok : slot_ok EnsureNotifyLocked.
Proof.
  intros s F. unfold EnsureNotifyLocked, ResetNotifyResourcesLocked, CreateNotifyLocked.
  wpr_step; try (match goal with H1 : ?b = true, H2 : negb ?b = true |- _ => by rewrite H1 in H2 end);
  unfold balanced; (split; [solve_held | done]).
Qed.

Lemma AssignSlotErrFlag_ok p i : slot_ok (AssignSlotErrFlagLocked p i).
Proof. intros s F. unfold AssignSlotErrFlagLocked. slot_step. Qed.

Lemma InitOneSlot_ok p i : slot_ok (InitOneSlotLocked p i).
Proof.
  unfold InitOneSlotLocked. apply slot_ok_bind; [intros s F; slot_step|intros _].
  repeat (apply slot_ok_bind; [auto using EnsureContext_ok, EnsureDefaultStream_ok, EnsureThread_ok,
    EnsureNotify_ok|intros _]).
  apply AssignSlotErrFlag_ok.
Qed.

Lemma GetSocType_unchanged {S} (s : S) X : wpr GetSocType (unchanged s X) s X.
Proof.
  unfold GetSocType. apply wpr_bind, wpr_call_neutral; [done|done|].
  intros [n|] _; wpr_step; done.
Qed.

Lemma ResolveNotifyAddress_ok p : slot_ok (ResolveNotifyAddressLocked p).
Proof.
  unfold ResolveNotifyAddressLocked. apply slot_ok_bind; [intros s F; slot_step|intros []].
  apply slot_ok_bind; [intros s F; slot_step|intros sl].
  apply slot_ok_bind; [intros s F; slot_step|intros []].
  apply slot_ok_bind; [|intros [a n] s F; slot_step].
  apply slot_ok_unchanged. intros s X. unfold NotifyAddrResolver_Resolve.
  wpr_step; try done. eapply wpr_mono; [apply GetSocType_unchanged|].
  intros [e|t] s' X' [-> ->]; [done|].
  unfold ResolveNotifyDeviceAddressByRuntime. wpr_step; done.
Qed.

Lemma CreateUbMemStream_ok : slot_ok CreateUbMemStreamLocked.
Proof. intros s F. unfold CreateUbMemStreamLocked. slot_step. Qed.

Lemma DestroyUbMemStream_spec s F :
  wpr DestroyUbMemStreamLocked (fun o s' X' => o = inr tt /\ X' = F ⊎ held_slot s' /\
        s' = set_ubmem_stream nullptr s) s (F ⊎ held_slot s).
Proof.
  unfold DestroyUbMemStreamLocked. wpr_step.
  - repeat split. apply is_null_true in Heqb. destruct s; simpl in *; by subst.
  - eapply wpr_call_dispose with (X' := F ⊎ held_slot (set_ubmem_stream nullptr s)); [done|done|solve_held|].
    intros _. wpr_step. done.
Qed.

Lemma free_slot_thread_spec p s F :
  wpr (free_slot_thread p) (fun o s' X' => o = inr tt /\ X' = F ⊎ held_slot s' /\
        s' = set_thread 0 s) s (F ⊎ held_slot s).
Proof.
  unfold free_slot_thread. wpr_step.
  - repeat split. apply Z.eqb_eq in Heqb. destruct s; simpl in *; by subst.
  - eapply wpr_call_dispose with (X' := F ⊎ held_slot (set_thread 0 s)); [done|done|solve_held|].
    intros _. wpr_step. done.
Qed.

(** The two other destructive steps of [DestroySlotLocked]. *)
Lemma destroy_notify_spec c s F :
  wpr (TemporaryRtContext c
         (if negb (is_null (notify s))
          then HIXL_CHK_ACL (aclrtDestroyNotify (notify s)) ;;
               modify (fun s => set_notify_info 0 0 0 (set_notify nullptr s))
          else ret tt))
    (fun o s' X' => o = inr tt /\ X' = F ⊎ held_slot s' /\ notify s' = nullptr /\
       ctx s' = ctx s /\ ubmem_stream s' = ubmem_stream s)
    s (F ⊎ held_slot s).
Proof.
  wpr_step.
  - eapply wpr_call_dispose with (X' := F ⊎ held_slot (set_notify nullptr s)); [done|done|solve_held|].
    intros _. wpr_step. done.
  - repeat split. apply negb_false_iff in Heqb. by apply is_null_true.
Qed.

Lemma destroy_context_spec (f : Slot -> Slot) s F :
  (forall t, held_slot (f t) = held_slot (set_ctx nullptr t)) ->
  wpr (if negb (is_null (ctx s)) then HIXL_CHK_ACL (aclrtDestroyContext (ctx s)) ;; modify f else ret tt)
    (fun o s' X' => o = inr tt /\ X' = F ⊎ held_slot s' /\ held_slot s' = held_slot (set_ctx nullptr s)
       /\ (s' = s \/ s' = f s))
    s (F ⊎ held_slot s).
Proof.
  intros Hf. wpr_step.
  - eapply wpr_call_dispose with (X' := F ⊎ held_slot (set_ctx nullptr s)); [done|done|solve_held|].
    intros _. wpr_step. rewrite Hf. repeat split. by right.
  - repeat split; [|by left]. solve_held.
Qed.

(** [DestroySlotLocked] releases everything the slot holds. *)
Lemma DestroySlot_spec p b s F :
  wpr (DestroySlotLocked p b) (fun o s' X' => o = inr tt /\ X' = F) s (F ⊎ held_slot s).
Proof.
  unfold DestroySlotLocked. apply wpr_bind. eapply wpr_mono; [apply DestroyUbMemStream_spec|].
  intros ? s1 X1 (-> & -> & Hs1). apply wpr_bind, wpr_get, wpr_bind.
  assert (Hu : ubmem_stream s1 = nullptr) by (by subst). clear Hs1.
  apply wpr_mono with (P := fun o s' X' => o = inr tt /\ unchanged s1 (F ⊎ held_slot s1) o s' X').
  { destruct b; wpr_step; [|done]. eapply wpr_mono; [apply wpr_SyncOne|]. done. }
  intros ? ? ? (-> & -> & ->). apply wpr_bind. eapply wpr_mono; [apply destroy_notify_spec|].
  intros ? s2 ? (-> & -> & Hn & Hc & Hu2). apply wpr_bind. eapply wpr_mono; [apply free_slot_thread_spec|].
  intros ? s3 ? (-> & -> & ->). apply wpr_bind. rewrite <- Hc.
  change (ctx s2) with (ctx (set_thread 0 s2)).
  eapply wpr_mono; [by apply destroy_context_spec|].
  intros ? s4 ? (-> & -> & -> & _). wpr_step. split; [done|].
  unfold held_slot; simpl. rewrite Hn, Hu2, Hu, !held_null. multiset_solver.
Qed.

Lemma deinit_slot_spec p s F :
  wpr (deinit_slot p) (fun o s' X' => o = inr tt /\ s' = empty_slot /\ X' = F) s (F ⊎ held_slot s).
Proof.
  unfold deinit_slot. wpr_step.
  - eapply wpr_mono; [apply DestroySlot_spec|]. intros ? s' ? (-> & ->). wpr_step. done.
  - repeat split. unfold slot_needs_destroy in Heqb.
    repeat (apply orb_false_iff in Heqb as [Heqb ?]). solve_held.
Qed.

(** * Aborting a slot keeps the books *)
Lemma AbortInUseStream_unchanged {S} sl (s : S) X :
  wpr (AbortInUseStreamLocked sl) (fun o s' X' => o = inr tt /\ unchanged s X o s' X') s X.
Proof. unfold AbortInUseStreamLocked. wpr_step; done. Qed.

(** The same for a computation that never fails. *)
Definition slot_total {A} (m : RtM Slot A) : Prop :=
  forall s F, wpr m (fun o s' X' => (exists a, o = inr a) /\ balanced F s o s' X') s (F ⊎ held_slot s).

Lemma slot_total_ok {A} (m : RtM Slot A) : slot_total m -> slot_ok m.
Proof. intros H s F. eapply wpr_mono; [apply H|]. by intros o s' X' [_ Hb]. Qed.

Lemma slot_total_bind {A B} (m : RtM Slot A) (k : A -> RtM Slot B) :
  slot_total m -> (forall a, slot_total (k a)) -> slot_total (bind m k).
Proof.
  intros Hm Hk s F. apply wpr_bind. eapply wpr_mono; [apply Hm|].
  intros o s' X' [[a ->] [-> Hu]]. eapply wpr_mono; [apply Hk|].
  intros o' s'' X'' [Ho [-> Hu']]. split; [done|]. split; [done | congruence].
Qed.

Lemma slot_total_get {A} (k : Slot -> RtM Slot A) :
  (forall sl, slot_total (k sl)) -> slot_total (bind get k).
Proof. intros H. apply slot_total_bind; [|done]. intros s F. wpr_step. split; [eauto|done]. Qed.

Lemma slot_total_attempt {A} (m : RtM Slot A) : slot_ok m -> slot_total (attempt m).
Proof.
  intros H s F. apply wpr_attempt. eapply wpr_mono; [apply H|]. intros o s' X' Hb. split; [eauto|done].
Qed.

Lemma slot_total_CHK_STATUS {A} (m : RtM Slot A) : slot_ok m -> slot_total (HIXL_CHK_STATUS m).
Proof.
  intros H. apply slot_total_bind; [by apply slot_total_attempt|].
  intros _ s F. wpr_step. split; [eauto|done].
Qed.

Ltac total_step := wpr_step; (split; [by eexists|]; split; [solve_held | done]).

Lemma ResetAbortSlotNotify_total : slot_total ResetAbortSlotNotifyLocked.
Proof. intros s F. unfold ResetAbortSlotNotifyLocked. total_step. Qed.

Lemma DestroyUbMemStream_total : slot_total DestroyUbMemStreamLocked.
Proof.
  intros s F. eapply wpr_mono; [apply DestroyUbMemStream_spec|].
  intros ? ? ? (-> & -> & ->). split; [eauto|done].
Qed.

Lemma free_slot_thread_total p : slot_total (free_slot_thread p).
Proof.
  intros s F. eapply wpr_mono; [apply free_slot_thread_spec|].
  intros ? ? ? (-> & -> & ->). split; [eauto|done].
Qed.

Lemma DestroySlotContextForAbort_total : slot_total DestroySlotContextForAbortLocked.
Proof.
  intros s F. unfold DestroySlotContextForAbortLocked. apply wpr_bind, wpr_get.
  eapply wpr_mono; [by apply destroy_context_spec|].
  intros ? s' ? (-> & -> & _ & [-> | ->]); (split; [eauto|done]).
Qed.

Lemma AbortSlotRuntime_total : slot_total AbortSlotRuntimeLocked.
Proof.
  apply slot_total_get. intros sl. apply slot_total_bind; [intros s F; total_step|intros _].
  apply slot_total_bind; [apply DestroyUbMemStream_total|intros _].
  apply slot_total_bind; [intros s F; total_step|intros _]. apply ResetAbortSlotNotify_total.
Qed.

Lemma SyncOne_ok p sl op expect out : slot_ok (SyncOneTransferContextLocked p sl op expect out).
Proof. apply slot_ok_unchanged. intros s X. apply wpr_SyncOne. Qed.

Lemma slot_ok_get {A} (k : Slot -> RtM Slot A) :
  (forall sl, slot_ok (k sl)) -> slot_ok (bind get k).
Proof. intros H. apply slot_ok_bind; [|done]. intros s F. slot_step. Qed.

Lemma DeleteSlotThreadContextForAbort_ok p out :
  slot_ok (DeleteSlotThreadContextForAbortLocked p out).
Proof.
  apply slot_ok_get. intros sl. apply slot_ok_bind.
  - destruct (negb _); [apply slot_total_ok, slot_total_attempt, SyncOne_ok | intros s F; slot_step].
  - intros r. apply slot_ok_bind; [apply slot_total_ok, free_slot_thread_total|intros _].
    destruct r as [e|d]; intros s F; slot_step.
Qed.

(** The cleanup after a failed rebuild keeps the books and marks the slot unused. *)
Lemma CleanupSlot_spec p s F :
  wpr (CleanupSlotAfterAbortReinitFailureLocked p)
    (fun o s' X' => X' = F ⊎ held_slot s' /\ in_use s' = false) s (F ⊎ held_slot s).
Proof.
  unfold CleanupSlotAfterAbortReinitFailureLocked.
  apply wpr_bind. eapply wpr_mono; [apply ResetAbortSlotNotify_total|].
  intros ? s1 ? [[? ->] [-> _]]. apply wpr_bind.
  eapply wpr_mono; [apply slot_total_CHK_STATUS, DeleteSlotThreadContextForAbort_ok|].
  intros ? s2 ? [[? ->] [-> _]]. apply wpr_bind.
  eapply wpr_mono; [apply DestroySlotContextForAbort_total|].
  intros ? s3 ? [[? ->] [-> _]]. wpr_step. split; [solve_held|done].
Qed.

(** Either the slot is rebuilt and still in use, or it is marked unused. *)
Lemma ReinitSlotAfterAbort_spec p i s F :
  wpr (ReinitSlotAfterAbortLocked p i)
    (fun o s' X' => X' = F ⊎ held_slot s' /\
       match o with inr _ => in_use s' = in_use s | inl _ => in_use s' = false end)
    s (F ⊎ held_slot s).
Proof.
  unfold ReinitSlotAfterAbortLocked. apply wpr_on_fail.
  eapply wpr_mono with (P := balanced (A := unit) F s).
  { apply slot_ok_bind; [apply InitOneSlot_ok|intros _]. apply slot_ok_get. intros sl.
    apply slot_ok_bind; [apply SyncOne_ok|]. intros _ s' F'. slot_step. }
  intros [e|[]] s' X' [-> Hu]; [apply CleanupSlot_spec|done].
Qed.

Lemma abort_slot_spec p i s F :
  wpr (abort_slot p i)
    (fun o s' X' => X' = F ⊎ held_slot s' /\
       exists r, o = inr r /\
         match r with inr _ => in_use s' = in_use s | inl _ => in_use s' = false end)
    s (F ⊎ held_slot s).
Proof.
  unfold abort_slot. apply wpr_bind. eapply wpr_mono; [apply AbortSlotRuntime_total|].
  intros ? s1 ? [[? ->] [-> Hu1]]. apply wpr_bind.
  eapply wpr_mono; [apply slot_total_attempt, DeleteSlotThreadContextForAbort_ok|].
  intros ? s2 ? [[? ->] [-> Hu2]]. apply wpr_bind.
  eapply wpr_mono; [apply DestroySlotContextForAbort_total|].
  intros ? s3 ? [[? ->] [-> Hu3]]. apply wpr_attempt.
  eapply wpr_mono; [apply ReinitSlotAfterAbort_spec|].
  intros r s4 ? [-> Hr]. split; [done|]. exists r. split; [done|].
  destruct r; congruence.
Qed.
End Slots.

(** * The pool *)
Record pool_wf (p : TransferPool) : Prop := {
  wf_size : 0 <= pool_size_ p;
  wf_slots : length (slots_ p) = Z.to_nat (pool_size_ p);
  wf_err : err_flag_host_base_ p = nullptr <-> err_flag_device_base_ p = nullptr;
  wf_from : err_flag_host_base_ p = nullptr -> err_flag_from_device_ p = false;
  wf_kernels : kernel_bin_handle_ p = nullptr -> device_func_handles_ p = no_func_handles
}.

(** What the private helpers leave alone. *)
Record same_admin (p p' : TransferPool) : Prop := {
  sa_device : device_id_ p' = device_id_ p;
  sa_ref : ref_cnt_ p' = ref_cnt_ p;
  sa_inited : inited_ p' = inited_ p;
  sa_size : pool_size_ p' = pool_size_ p;
  sa_free : free_list_ p' = free_list_ p;
  sa_use : map in_use (slots_ p') = map in_use (slots_ p)
}.

#[export] Instance same_admin_preorder : PreOrder same_admin.
Proof.
  split; [done|]. intros p q r [] []. split; congruence.
Qed.

Section Pool.
Context {codes : AclCodes} {env : RtEnv} {laws : RtLaws env}.

Definition pool_post {A : Type} (F : gmultiset Resource) (p : TransferPool)
    (o : Status + A) (p' : TransferPool) (X' : gmultiset Resource) : Prop :=
  X' = F ⊎ held_pool p' /\ pool_wf p' /\ same_admin p p'.

Definition pool_ok {A} (m : RtM TransferPool A) : Prop :=
  forall p F, pool_wf p -> wpr m (pool_post F p) p (F ⊎ held_pool p).

Lemma pool_ok_bind {A B} (m : RtM TransferPool A) (k : A -> RtM TransferPool B) :
  pool_ok m -> (forall a, pool_ok (k a)) -> pool_ok (bind m k).
Proof.
  intros Hm Hk p F Hwf. apply wpr_bind. eapply wpr_mono; [by apply Hm|].
  intros [e|a] p' X' (-> & Hwf' & Hsa); [done|]. eapply wpr_mono; [by apply Hk|].
  intros o p'' X'' (-> & Hwf'' & Hsa'). split; [done|]. split; [done|by etrans].
Qed.

Lemma pool_ok_unchanged {A} (m : RtM TransferPool A) :
  (forall p X, wpr m (unchanged p X) p X) -> pool_ok m.
Proof. intros H p F Hwf. eapply wpr_mono; [apply H|]. by intros o s' X' [-> ->]. Qed.

Lemma slot_indices_range p i : i ∈ slot_indices p <-> 0 <= i < pool_size_ p.
Proof.
  unfold slot_indices. rewrite list_elem_of_fmap. split.
  - intros (n & -> & Hn%elem_of_seq). lia.
  - intros Hi. exists (Z.to_nat i). split; [lia|]. apply elem_of_seq. lia.
Qed.

Lemma slot_in_range p i : pool_wf p -> 0 <= i < pool_size_ p -> exists s, slots_ p !! Z.to_nat i = Some s.
Proof.
  intros Hwf Hi. apply lookup_lt_is_Some. rewrite (wf_slots _ Hwf). lia.
Qed.

(** Working on one slot: the general rule. *)
Lemma wpr_on_slot {A} i (m : TransferPool -> RtM Slot A) Q p X s :
  0 <= i -> slots_ p !! Z.to_nat i = Some s ->
  wpr (m p) (fun o s' X' => Q o (set_slots (<[Z.to_nat i := s']> (slots_ p)) p) X') s X ->
  wpr (on_slot i m) Q p X.
Proof.
  intros Hi Hs H. unfold on_slot. eapply wpr_zoom; [|exact H].
  by rewrite (proj2 (Z.ltb_ge i 0) Hi).
Qed.

Lemma pool_wf_set_slot p i s : pool_wf p -> pool_wf (set_slots (<[i := s]> (slots_ p)) p).
Proof. intros []. split; simpl; try done. by rewrite length_insert. Qed.

Lemma held_pool_set_slot p i s s' F X :
  slots_ p !! i = Some s ->
  F ⊎ held_pool p = X ⊎ held_slot s ->
  F ⊎ held_pool (set_slots (<[i := s']> (slots_ p)) p) = X ⊎ held_slot s'.
Proof.
  intros Hs HF. pose proof (held_slots_insert _ _ _ s' Hs) as Hi.
  unfold held_pool, held_err_flag in *. simpl. multiset_solver.
Qed.

Lemma held_pool_same_slot p i s s' :
  slots_ p !! i = Some s -> held_slot s' = held_slot s ->
  held_pool (set_slots (<[i := s']> (slots_ p)) p) = held_pool p.
Proof.
  intros Hs He. pose proof (held_slots_insert _ _ _ s' Hs) as Hi. rewrite He in Hi.
  apply (inj (fun X => X ⊎ held_slot s)) in Hi. unfold held_pool, held_err_flag. simpl. by rewrite Hi.
Qed.

(** The resources of the pool outside one slot. *)
Lemma held_pool_split p i s F :
  slots_ p !! i = Some s -> exists X, F ⊎ held_pool p = X ⊎ held_slot s.
Proof.
  intros Hs. exists ((F ⊎ held_pool p) ∖ held_slot s).
  pose proof (held_slots_insert _ _ _ empty_slot Hs) as Hi.
  assert (held_slot empty_slot = ∅) as He by done. rewrite He in Hi.
  unfold held_pool. multiset_solver.
Qed.

Lemma map_in_use_insert l i s s' :
  l !! i = Some s -> in_use s' = in_use s -> map in_use (<[i := s']> l) = map in_use l.
Proof.
  intros Hs Hu. rewrite list_fmap_insert, Hu. apply list_insert_id.
  by rewrite list_lookup_fmap, Hs.
Qed.

Lemma on_slot_ok {A} i (m : TransferPool -> RtM Slot A) p F :
  pool_wf p -> 0 <= i < pool_size_ p -> slot_ok (m p) ->
  wpr (on_slot i m) (pool_post F p) p (F ⊎ held_pool p).
Proof.
  intros Hwf Hi Hm. destruct (slot_in_range p i Hwf Hi) as [s Hs].
  destruct (held_pool_split p _ s F Hs) as [X HX].
  eapply wpr_on_slot; [lia|exact Hs|]. rewrite HX. eapply wpr_mono; [apply Hm|].
  intros o s' X' [-> Hu]. split; [symmetry; by eapply held_pool_set_slot|].
  split; [by apply pool_wf_set_slot|].
  split; try done. simpl. by eapply map_in_use_insert.
Qed.

(** * Kernels *)
Definition load_post {A : Type} (F : gmultiset Resource) (b : Z) (f : DeviceFuncHandles)
    (o : Status + A) (s : Z * DeviceFuncHandles) (X' : gmultiset Resource) : Prop :=
  X' = F ⊎ held RBinary s.1 /\ s.2 = f /\
  (s.1 = nullptr -> b = nullptr /\ exists e, o = inl e).

Lemma not_null_neq p : is_null p = false -> p <> nullptr.
Proof. apply Z.eqb_neq. Qed.

Lemma load_binary_spec b f F :
  wpr load_binary_if_needed (load_post F b f) (b, f) (F ⊎ held RBinary b).
Proof.
  unfold load_binary_if_needed, GetKernelFilePath, LoadBinaryFromJson, load_post.
  apply wpr_bind, wpr_bind, wpr_call_neutral; [done|done|]. intros path _. wpr_step.
  - apply is_null_true in Heqb0 as ->. destruct r as [rp|]; wpr_step.
    all: split; [solve_held|]; split; eauto. done.
  - apply not_null_neq in Heqb0. done.
Qed.

Lemma GetFuncHandle_unchanged {S} b name (s : S) X :
  wpr (GetFuncHandle b name) (unchanged s X) s X.
Proof. unfold GetFuncHandle. wpr_step; done. Qed.

Lemma get_handles_unchanged {S} b names (s : S) X :
  wpr (get_handles b names) (unchanged s X) s X.
Proof.
  induction names as [|n names IH]; simpl; [by apply wpr_ret|].
  apply wpr_bind. eapply wpr_mono; [apply GetFuncHandle_unchanged|].
  intros [e|v] s' X' [-> ->]; [done|]. apply wpr_bind. eapply wpr_mono; [apply IH|].
  intros [e|vs] s' X' [-> ->]; [done|]. by apply wpr_ret.
Qed.

Lemma LoadDeviceKernelFunctions_spec names b f F :
  wpr (LoadDeviceKernelFunctions names) (load_post F b f) (b, f) (F ⊎ held RBinary b).
Proof.
  unfold LoadDeviceKernelFunctions. apply wpr_bind, wpr_require; intros _; [|split; naive_solver].
  apply wpr_bind. eapply wpr_mono; [apply load_binary_spec|].
  intros [e|[]] [b' f'] X' (-> & Hf & Hb); simpl in *; subst f'; [split; naive_solver|].
  apply wpr_bind, wpr_get. eapply wpr_mono; [apply get_handles_unchanged|].
  intros o ? ? [-> ->]. split; [done|]. split; [done|]. simpl. intros H. by destruct (Hb H) as [_ [e He]].
Qed.

Lemma LoadDeviceKernelAndGetHandles_spec g p sy b f F :
  wpr (LoadDeviceKernelAndGetHandles g p sy)
    (fun o s' X' => X' = F ⊎ held RBinary s'.1 /\ (s'.1 = nullptr -> s'.2 = no_func_handles))
    (b, f) (F ⊎ held RBinary b).
Proof.
  unfold LoadDeviceKernelAndGetHandles. apply wpr_bind, wpr_modify, wpr_bind.
  eapply wpr_mono; [apply load_binary_spec|].
  intros [e|[]] [b' f'] X' (-> & Hf & Hb); simpl in *; subst f'; [done|].
  assert (b' <> nullptr) by naive_solver. clear Hb.
  apply wpr_bind, wpr_get. simpl.
  apply wpr_bind. eapply wpr_mono; [apply GetFuncHandle_unchanged|].
  intros [e|v1] ? ? [-> ->]; [done|]. apply wpr_bind, wpr_put, wpr_bind.
  eapply wpr_mono; [apply GetFuncHandle_unchanged|].
  intros [e|v2] ? ? [-> ->]; [done|]. apply wpr_bind, wpr_put.
  destruct sy as [name|]; [|by apply wpr_ret]. apply wpr_bind.
  eapply wpr_mono; [apply GetFuncHandle_unchanged|].
  intros [e|v3] ? ? [-> ->]; [done|]. by apply wpr_put.
Qed.

(** Work on the binary handle and the function table of the pool. *)
Lemma zoom_kernels_ok {A} (m : RtM (Z * DeviceFuncHandles) A) p F (Q : Status + A -> Z * DeviceFuncHandles -> Prop) :
  pool_wf p ->
  (forall F', wpr m (fun o s' X' => X' = F' ⊎ held RBinary s'.1 /\
      (s'.1 = nullptr -> s'.2 = no_func_handles) /\ Q o s')
     (kernel_bin_handle_ p, device_func_handles_ p) (F' ⊎ held RBinary (kernel_bin_handle_ p))) ->
  wpr (zoom (fun p => Some (kernel_bin_handle_ p, device_func_handles_ p))
         (fun '(b, f) => set_kernels b f) (fun _ => m))
    (fun o p' X' => pool_post F p o p' X' /\ Q o (kernel_bin_handle_ p', device_func_handles_ p'))
    p (F ⊎ held_pool p).
Proof.
  intros Hwf Hm. eapply wpr_zoom; [done|].
  set (F' := F ⊎ held RContext (rts_context_ p) ⊎ held RDevMem (dev_const_one_ p)
             ⊎ held_err_flag p ⊎ held_slots (slots_ p)).
  replace (F ⊎ held_pool p) with (F' ⊎ held RBinary (kernel_bin_handle_ p))
    by (subst F'; unfold held_pool; multiset_solver).
  eapply wpr_mono; [apply (Hm F')|].
  intros o [b f] X' (-> & Hn & Hq). simpl in *. split; [|done].
  split; [subst F'; unfold held_pool, held_err_flag; simpl; multiset_solver|].
  split; [destruct Hwf; by split|done].
Qed.

Lemma LoadOptionalUbMemKernels_ok : pool_ok LoadOptionalUbMemKernelsLocked.
Proof.
  intros p F Hwf. unfold LoadOptionalUbMemKernelsLocked. apply wpr_bind, wpr_attempt.
  eapply wpr_mono.
  - apply (zoom_kernels_ok _ p F (fun o s => s.1 = nullptr -> exists e, o = inl e) Hwf).
    intros F'. eapply wpr_mono; [apply LoadDeviceKernelFunctions_spec|].
    intros o [b f] X' (-> & -> & Ho). simpl in *. split; [done|]. split.
    + intros H. apply wf_kernels; [done|]. by apply Ho.
    + intros H. by apply Ho.
  - intros o p' X' [(-> & Hwf' & Hsa) Ho]. simpl in Ho.
    destruct (match o with inr [rd; wr] => _ | _ => _ end) as [rd wr] eqn:Hrw.
    apply wpr_modify. split; [unfold held_pool, held_err_flag; done|].
    split; [|destruct Hsa; by split].
    destruct Hwf' as [W1 W2 W3 W4 W5]. split; try done. simpl. intros H.
    destruct (Ho H) as [e ->]. simplify_eq. by rewrite W5.
Qed.

Lemma pool_ok_get {A} (k : TransferPool -> RtM TransferPool A) :
  (forall p, pool_ok (k p)) -> pool_ok (bind get k).
Proof. intros H p F Hwf. apply wpr_bind, wpr_get. by apply H. Qed.

Lemma pool_ok_require b e : pool_ok (require b e).
Proof. apply pool_ok_unchanged. intros p X. wpr_step; done. Qed.

Lemma pool_ok_ret {A} (a : A) : pool_ok (ret a).
Proof. intros p F Hwf. by apply wpr_ret. Qed.

Lemma pool_ok_context {A} c (m : RtM TransferPool A) : pool_ok m -> pool_ok (TemporaryRtContext c m).
Proof. intros H p F Hwf. apply wpr_TemporaryRtContext. by apply H. Qed.

Lemma EnsureDeviceKernels_ok : pool_ok EnsureDeviceKernelsLocked.
Proof.
  apply pool_ok_get. intros p. cbv zeta. case_match; [apply pool_ok_ret|].
  apply pool_ok_bind; [apply pool_ok_require|intros _]. apply pool_ok_context, pool_ok_bind.
  - intros p' F Hwf. eapply wpr_mono.
    + apply (zoom_kernels_ok _ p' F (fun _ _ => True) Hwf). intros F'.
      eapply wpr_mono; [apply LoadDeviceKernelAndGetHandles_spec|]. naive_solver.
    + by intros o s' X' [? _].
  - intros _. apply pool_ok_get. intros p'.
    repeat (apply pool_ok_bind; [apply pool_ok_require|intros _]). apply LoadOptionalUbMemKernels_ok.
Qed.

(** * The error-flag block *)
Lemma held_pool_set_err p hst dev fr F :
  err_flag_host_base_ p = nullptr -> err_flag_device_base_ p = nullptr ->
  F ⊎ held_pool (set_err_bases hst dev fr p) =
  (if fr then held RDevMem dev else held RHostMem hst) ⊎ (F ⊎ held_pool p).
Proof.
  intros H1 H2. unfold held_pool, held_err_flag. simpl. rewrite H1, H2.
  destruct (err_flag_from_device_ p); rewrite !held_null; destruct fr; multiset_solver.
Qed.

Lemma pool_wf_set_err p hst dev fr :
  pool_wf p -> (hst = nullptr <-> dev = nullptr) -> (hst = nullptr -> fr = false) ->
  pool_wf (set_err_bases hst dev fr p).
Proof. intros [] H1 H2. by split. Qed.

Lemma err_post {A : Type} F p (o : Status + A) hst dev fr X :
  pool_wf p -> err_flag_host_base_ p = nullptr -> err_flag_device_base_ p = nullptr ->
  (hst = nullptr <-> dev = nullptr) -> (hst = nullptr -> fr = false) ->
  X = (if fr then held RDevMem dev else held RHostMem hst) ⊎ (F ⊎ held_pool p) ->
  pool_post F p o (set_err_bases hst dev fr p) X.
Proof.
  intros Hwf H1 H2 H3 H4 ->. split; [by rewrite held_pool_set_err|].
  split; [by apply pool_wf_set_err|]. done.
Qed.

Lemma set_err_bases_twice a b c a' b' c' p :
  set_err_bases a b c (set_err_bases a' b' c' p) = set_err_bases a b c p.
Proof. done. Qed.

Ltac finish_err := simpl; rewrite ?set_err_bases_twice; apply err_post; solve_held || done.

Lemma AllocErrFlagHostMapped_spec n d p F :
  pool_wf p -> err_flag_host_base_ p = nullptr -> err_flag_device_base_ p = nullptr ->
  wpr (AllocErrFlagHostMappedLocked n d) (pool_post F p) p (F ⊎ held_pool p).
Proof.
  intros Hwf Hh Hd. unfold AllocErrFlagHostMappedLocked.
  apply wpr_bind, wpr_modify. rewrite Hh, Hd. cbv zeta. wpr_step.
  - destruct r as [e|dv].
    + wpr_step; [wpr_dispose; wpr_step; finish_err|].
      apply negb_false_iff, is_null_true in Heqb. done.
    + destruct H0 as [h Hr]. symmetry in Hr. apply law_register_nonnull in Hr.
      wpr_step. finish_err.
  - wpr_dispose. wpr_step. finish_err.
  - apply negb_false_iff, is_null_true in Heqb. done.
  - finish_err.
Qed.

Lemma AllocErrFlagDeviceMapped_spec n d p F :
  pool_wf p -> err_flag_host_base_ p = nullptr -> err_flag_device_base_ p = nullptr ->
  wpr (AllocErrFlagDeviceMappedLocked n d) (pool_post F p) p (F ⊎ held_pool p).
Proof.
  intros Hwf Hh Hd. unfold AllocErrFlagDeviceMappedLocked.
  apply wpr_bind, wpr_modify. rewrite Hh, Hd. cbv zeta. wpr_step.
  - destruct r as [e|hv].
    + wpr_step; [wpr_dispose; wpr_step; finish_err|].
      apply negb_false_iff, is_null_true in Heqb. done.
    + destruct H0 as [h Hr]. symmetry in Hr. apply law_register_nonnull in Hr.
      wpr_step. finish_err.
  - wpr_dispose. wpr_step. finish_err.
  - apply negb_false_iff, is_null_true in Heqb. done.
  - finish_err.
Qed.

Lemma EnsureErrFlagMem_ok : pool_ok EnsureErrFlagMemLocked.
Proof.
  intros p F Hwf. unfold EnsureErrFlagMemLocked. apply wpr_bind, wpr_get.
  destruct (negb (is_null (err_flag_host_base_ p))) eqn:H1; [by apply wpr_ret|].
  destruct (negb (is_null (err_flag_device_base_ p))) eqn:H2; [by apply wpr_ret|].
  apply negb_false_iff, is_null_true in H1, H2. simpl. wpr_step; [|done].
  eapply wpr_mono; [apply GetSocType_unchanged|].
  intros [e|t] s' X' [-> ->]; [done|].
  case_match; [by apply AllocErrFlagDeviceMapped_spec | by apply AllocErrFlagHostMapped_spec].
Qed.

Lemma EnsureDevConstOne_ok : pool_ok EnsureDevConstOneLocked.
Proof.
  intros p F Hwf. unfold EnsureDevConstOneLocked. wpr_step; try done.
  all: apply negb_false_iff, is_null_true in Heqb.
  all: split; [unfold held_pool, held_err_flag; simpl; rewrite Heqb; solve_held|].
  all: destruct Hwf; by split.
Qed.

Lemma for_slots_ok p F (m : Z -> TransferPool -> RtM Slot unit) :
  pool_wf p -> (forall i q, slot_ok (m i q)) ->
  wpr (for_each (slot_indices p) (fun i => on_slot i (m i))) (pool_post F p) p (F ⊎ held_pool p).
Proof.
  intros Hwf Hm. eapply wpr_mono.
  - apply (wpr_for_each _ _ (fun q X => pool_post F p (inr tt : Status + unit) q X)
      (fun _ q X => pool_post F p (inr tt : Status + unit) q X)); [done|].
    intros i q X Hi%slot_indices_range (-> & Hwf' & Hsa).
    eapply wpr_mono; [apply on_slot_ok; [done| |done]|].
    { by rewrite (sa_size _ _ Hsa). }
    intros o q' X' (-> & Hwf'' & Hsa'). assert (same_admin p q') by (by etrans).
    by destruct o as [e|[]].
  - intros o q X H. by destruct o as [e|[]].
Qed.

Lemma for_slots_total p F (m : Z -> TransferPool -> RtM Slot unit) :
  pool_wf p -> (forall i q, slot_total (m i q)) ->
  wpr (for_each (slot_indices p) (fun i => on_slot i (m i)))
    (fun o p' X' => o = inr tt /\ pool_post F p o p' X') p (F ⊎ held_pool p).
Proof.
  intros Hwf Hm. eapply wpr_mono.
  - apply (wpr_for_each_prefix _ _ (fun _ q X => pool_post F p (inr tt : Status + unit) q X)); [done|].
    intros pre i post q X Heq (-> & Hwf' & Hsa).
    assert (Hi : 0 <= i < pool_size_ q).
    { rewrite (sa_size _ _ Hsa). apply slot_indices_range. rewrite Heq. set_solver. }
    destruct (slot_in_range q i Hwf' Hi) as [s Hs]. destruct (held_pool_split q _ s F Hs) as [X HX].
    eapply wpr_on_slot; [lia|exact Hs|]. rewrite HX. eapply wpr_mono; [apply Hm|].
    intros o s' X' [[[] ->] [-> Hu]]. split; [done|]. split; [symmetry; by eapply held_pool_set_slot|].
    split; [by apply pool_wf_set_slot|]. etrans; [exact Hsa|].
    split; try done. simpl. by eapply map_in_use_insert.
  - by intros ? q X [-> H].
Qed.

(** The post-condition of the steps of initialisation: the books are kept, and on
    success the free list holds every slot. *)
Definition init_post (F : gmultiset Resource) (p : TransferPool)
    (o : Status + unit) (p' : TransferPool) (X' : gmultiset Resource) : Prop :=
  X' = F ⊎ held_pool p' /\ pool_wf p' /\ same_admin (set_free_list (free_list_ p') p) p' /\
  match o with inr _ => free_list_ p' = slot_indices p | inl _ => True end.

Lemma pool_post_init F p0 p (o : Status + unit) p' X :
  same_admin (set_free_list (free_list_ p) p0) p ->
  match o with inr _ => free_list_ p = slot_indices p0 | inl _ => True end ->
  pool_post F p o p' X -> init_post F p0 o p' X.
Proof.
  intros H1 H2 (-> & H3 & H4). split; [done|]. split; [done|].
  destruct H1, H4; simpl in *. split; [split; simpl; congruence|]. destruct o; congruence.
Qed.

Lemma InitAllSlots_spec p F :
  pool_wf p -> wpr InitAllSlotsLocked (init_post F p) p (F ⊎ held_pool p).
Proof.
  intros Hwf. unfold InitAllSlotsLocked, InitFreeListLocked.
  apply wpr_bind, wpr_modify, wpr_bind, wpr_get. eapply wpr_mono.
  - apply (for_slots_ok (set_free_list (slot_indices p) p) F (fun i q => InitOneSlotLocked q i)); [destruct Hwf; by split|].
    intros i q. apply InitOneSlot_ok.
  - intros o q X Hp. eapply pool_post_init; [| |exact Hp]; [done|]. by destruct o.
Qed.

Lemma AddTransferContexts_unchanged {S} p (s : S) X :
  wpr (AddTransferContextsLocked p) (unchanged s X) s X.
Proof.
  unfold AddTransferContextsLocked. apply wpr_bind. eapply wpr_mono; [apply wpr_SyncContexts|].
  intros [e|d] s' X' [-> ->]; [done|]. by apply wpr_ret.
Qed.

Lemma InitializeResources_spec p F :
  pool_wf p -> wpr InitializeResourcesLocked (init_post F p) p (F ⊎ held_pool p).
Proof.
  intros Hwf. unfold InitializeResourcesLocked.
  assert (Hpre : pool_ok (EnsureDeviceKernelsLocked ;; EnsureErrFlagMemLocked))
    by (apply pool_ok_bind; [apply EnsureDeviceKernels_ok | intros _; apply EnsureErrFlagMem_ok]).
  assert (Hsuf : pool_ok (EnsureDevConstOneLocked ;; let* p := get in AddTransferContextsLocked p)).
  { apply pool_ok_bind; [apply EnsureDevConstOne_ok|intros _].
    apply pool_ok_get. intros q. apply pool_ok_unchanged. intros. apply AddTransferContexts_unchanged. }
  apply wpr_bind. eapply wpr_mono; [by apply EnsureDeviceKernels_ok|].
  intros [e|[]] p1 X1 Hp1; [by eapply pool_post_init; [| |exact Hp1]|].
  destruct Hp1 as (-> & Hwf1 & Hsa1). apply wpr_bind. eapply wpr_mono; [by apply EnsureErrFlagMem_ok|].
  intros [e|[]] p2 X2 (-> & Hwf2 & Hsa2).
  { apply (pool_post_init F p p); [done|done|]. split; [done|]. split; [done|by etrans]. }
  assert (Hsa : same_admin p p2) by (by etrans). apply wpr_bind.
  eapply wpr_mono; [by apply InitAllSlots_spec|].
  assert (Hi : slot_indices p2 = slot_indices p) by (unfold slot_indices; by rewrite (sa_size _ _ Hsa)).
  intros o p3 X3 (-> & Hwf3 & Hsa3 & Ho).
  assert (Hsa4 : same_admin (set_free_list (free_list_ p3) p) p3).
  { destruct Hsa, Hsa3; simpl in *. split; simpl; congruence. }
  destruct o as [e|[]]; [done|]. eapply wpr_mono; [by apply Hsuf|].
  intros o p4 X4 Hp4. eapply pool_post_init; [exact Hsa4| |exact Hp4].
  destruct o; [done | by rewrite Ho].
Qed.

(** * Tearing the pool down *)
Definition reset_pool (p : TransferPool) : TransferPool :=
  mkTransferPool (device_id_ p) (ref_cnt_ p) false 0 [] [] nullptr nullptr nullptr false nullptr
    nullptr no_func_handles.

Lemma FreeErrFlagMem_spec p F :
  pool_wf p ->
  wpr FreeErrFlagMemLocked
    (fun o p' X' => o = inr tt /\ p' = set_err_bases nullptr nullptr false p /\ X' = F ⊎ held_pool p')
    p (F ⊎ held_pool p).
Proof.
  intros Hwf. unfold FreeErrFlagMemLocked. apply wpr_bind, wpr_get. cbv zeta. apply wpr_bind.
  apply wpr_mono with (P := fun o p' X' => o = inr tt /\ unchanged p (F ⊎ held_pool p) o p' X').
  { case_match; [|by apply wpr_ret]. apply wpr_bind, wpr_call_neutral; [done|done|].
    intros [e|l] _; wpr_step; done. }
  intros ? ? ? (-> & -> & ->).
  assert (Hsplit : exists G, F ⊎ held_pool p = held_err_flag p ⊎ G /\
    F ⊎ held_pool (set_err_bases nullptr nullptr false p) = G).
  { eexists. split; [|done]. unfold held_pool, held_err_flag. simpl. rewrite held_null. multiset_solver. }
  destruct Hsplit as (G & -> & HG).
  apply wpr_bind. apply wpr_mono with (P := fun o p' X' => o = inr tt /\ p' = p /\ X' = G).
  - unfold held_err_flag. destruct (err_flag_from_device_ p); wpr_step;
      try (eapply wpr_call_dispose; [done|done|solve_held|intros _]; wpr_step; done);
      (repeat split; solve_held).
  - intros ? ? ? (-> & -> & ->). wpr_step. done.
Qed.

(** The effect of the loop over the slots on a pool whose other fields it keeps. *)
Lemma deinit_slots_spec p F :
  pool_wf p ->
  wpr (for_each (slot_indices p) (fun i => on_slot i deinit_slot))
    (fun o p' X' => o = inr tt /\ X' = F ⊎ held_pool p' /\
       p' = set_slots (replicate (length (slots_ p)) empty_slot) p)
    p (F ⊎ held_pool p).
Proof.
  intros Hwf. eapply wpr_mono.
  - apply (wpr_for_each_prefix _ _ (fun pre q X => X = F ⊎ held_pool q /\ exists l, q = set_slots l p /\
      length l = length (slots_ p) /\ forall i, i ∈ pre -> l !! Z.to_nat i = Some empty_slot)).
    { split; [done|]. exists (slots_ p). split; [by destruct p|]. split; [done|].
      intros i Hi. by apply not_elem_of_nil in Hi. }
    intros pre i post q X Heq (-> & l & -> & Hlen & Hpre).
    assert (Hi : 0 <= i < pool_size_ p).
    { apply slot_indices_range. rewrite Heq. set_solver. }
    assert (Hwf' : pool_wf (set_slots l p)) by (destruct Hwf; split; simpl; try done; congruence).
    destruct (slot_in_range _ i Hwf' Hi) as [s Hs]. destruct (held_pool_split _ _ s F Hs) as [Y HY].
    eapply wpr_on_slot; [lia|exact Hs|]. rewrite HY. eapply wpr_mono; [apply deinit_slot_spec|].
    intros ? ? ? (-> & -> & ->). split; [done|]. split.
    + rewrite (held_pool_set_slot _ _ _ empty_slot _ _ Hs HY).
      change (held_slot empty_slot) with (∅ ⊎ ∅ ⊎ ∅ ⊎ ∅ : gmultiset Resource). multiset_solver.
    + exists (<[Z.to_nat i := empty_slot]> l). split; [done|]. split; [by rewrite length_insert|].
      apply lookup_lt_Some in Hs. simpl in Hs.
      intros j [Hj | ->%list_elem_of_singleton]%elem_of_app; [|by apply list_lookup_insert_eq].
      destruct (decide (Z.to_nat i = Z.to_nat j)) as [E|]; [|rewrite list_lookup_insert_ne; auto].
      rewrite <- E. by apply list_lookup_insert_eq.
  - intros ? q X (-> & -> & l & -> & Hlen & Hl). split; [done|]. split; [done|].
    f_equal. apply list_eq. intros n. destruct (decide (n < length (slots_ p))%nat) as [Hn|Hn].
    + rewrite lookup_replicate_2 by done. specialize (Hl (Z.of_nat n)). rewrite Nat2Z.id in Hl.
      apply Hl, slot_indices_range. rewrite (wf_slots _ Hwf) in Hn. lia.
    + rewrite lookup_ge_None_2 by lia. symmetry. apply lookup_ge_None_2. rewrite length_replicate. lia.
Qed.

Lemma delete_contexts_unchanged {S} p entries (s : S) X :
  wpr (if negb (bool_decide (length entries = 0%nat))
       then HIXL_CHK_STATUS (DeleteTransferContextsLocked p entries) else ret tt)
    (fun o s' X' => o = inr tt /\ unchanged s X o s' X') s X.
Proof.
  case_match; [|by apply wpr_ret]. apply wpr_CHK_STATUS. unfold DeleteTransferContextsLocked.
  apply wpr_bind. eapply wpr_mono; [apply wpr_SyncContexts|].
  intros [e|d] s' X' [-> ->]; [done|]. by apply wpr_ret.
Qed.

(** One resource held in one field of the pool is given up when it is there. *)
Lemma drop_field_spec (v : Z) k (op : RtOp Z) (f : TransferPool -> TransferPool) c p G :
  sleep_ok op -> (forall r, action_of (Ev op r) = Dispose (k, v)) ->
  (is_null v = true -> f p = p) ->
  wpr (if negb (is_null v) then TemporaryRtContext c (HIXL_CHK_ACL op ;; modify f) else ret tt)
    (fun o p' X' => o = inr tt /\ p' = f p /\ X' = G) p (held k v ⊎ G).
Proof.
  intros Hs Hd Hf. wpr_step.
  - eapply wpr_call_dispose; [done|done|solve_held|intros _]. wpr_step. done.
  - apply negb_false_iff in Heqb. rewrite Hf by done. repeat split. solve_held.
Qed.

Lemma drop_field_spec' (v : Z) k (op : RtOp Z) (f : TransferPool -> TransferPool) p G :
  sleep_ok op -> (forall r, action_of (Ev op r) = Dispose (k, v)) ->
  (is_null v = true -> f p = p) ->
  wpr (if negb (is_null v) then HIXL_CHK_ACL op ;; modify f else ret tt)
    (fun o p' X' => o = inr tt /\ p' = f p /\ X' = G) p (held k v ⊎ G).
Proof.
  intros Hs Hd Hf. wpr_step.
  - eapply wpr_call_dispose; [done|done|solve_held|intros _]. wpr_step. done.
  - apply negb_false_iff in Heqb. rewrite Hf by done. repeat split. solve_held.
Qed.

Lemma drop_err_flag_spec c p F :
  pool_wf p ->
  wpr (if negb (is_null (err_flag_host_base_ p)) || negb (is_null (err_flag_device_base_ p))
       then TemporaryRtContext c FreeErrFlagMemLocked else ret tt)
    (fun o p' X' => o = inr tt /\ p' = set_err_bases nullptr nullptr false p /\ X' = F ⊎ held_pool p')
    p (F ⊎ held_pool p).
Proof.
  intros Hwf. destruct (_ || _) eqn:Hb; [by apply wpr_TemporaryRtContext, FreeErrFlagMem_spec|].
  apply orb_false_iff in Hb as [H1%negb_false_iff%is_null_true H2%negb_false_iff%is_null_true].
  apply wpr_ret. pose proof (wf_from _ Hwf H1) as H3.
  assert (set_err_bases nullptr nullptr false p = p) as ->
    by (unfold set_err_bases; destruct p; simpl in *; congruence).
  done.
Qed.

Lemma DeinitAllSlots_spec p F :
  pool_wf p ->
  wpr DeinitAllSlotsLocked (fun o p' X' => o = inr tt /\ p' = reset_pool p /\ X' = F)
    p (F ⊎ held_pool p).
Proof.
  intros Hwf. unfold DeinitAllSlotsLocked. apply wpr_bind, wpr_get. cbv zeta.
  apply wpr_bind. eapply wpr_mono; [apply delete_contexts_unchanged|].
  intros ? ? ? (-> & -> & ->). apply wpr_bind.
  set (p1 := set_dev_const_one nullptr p).
  replace (F ⊎ held_pool p) with (held RDevMem (dev_const_one_ p) ⊎ (F ⊎ held_pool p1))
    by (unfold p1, held_pool, held_err_flag; simpl; rewrite held_null; multiset_solver).
  eapply wpr_mono; [apply drop_field_spec'; [done|done|]|].
  { intros Hn%is_null_true. destruct p; simpl in *; by subst. }
  intros ? ? ? (-> & -> & ->). fold p1.
  assert (Hwf1 : pool_wf p1) by (destruct Hwf; by split).
  apply wpr_bind. eapply wpr_mono; [apply (deinit_slots_spec p1 F Hwf1)|].
  intros ? p2 ? (-> & -> & Hp2). apply wpr_bind.
  assert (Hwf2 : pool_wf p2).
  { subst p2. destruct Hwf1. split; simpl; try done. by rewrite length_replicate. }
  replace (err_flag_host_base_ p) with (err_flag_host_base_ p2) by (by subst).
  replace (err_flag_device_base_ p) with (err_flag_device_base_ p2) by (by subst).
  eapply wpr_mono; [apply (drop_err_flag_spec _ p2 F Hwf2)|]. intros ? p3 ? (-> & Hp3 & ->).
  apply wpr_bind.
  replace (F ⊎ held_pool p3) with (held RBinary (kernel_bin_handle_ p) ⊎ (held RContext (rts_context_ p) ⊎ F)).
  2: { subst p3 p2. unfold p1, held_pool, held_err_flag. simpl.
       rewrite !held_null, held_slots_empty. multiset_solver. }
  eapply wpr_mono; [apply drop_field_spec; [done|done|]|].
  { intros Hn%is_null_true. pose proof (wf_kernels _ Hwf Hn). subst p3 p2 p1. destruct p; simpl in *. by subst. }
  intros ? ? ? (-> & -> & ->). apply wpr_bind.
  eapply wpr_mono; [apply drop_field_spec'; [done|done|]|].
  { intros Hn%is_null_true. subst p3 p2 p1. destruct p; simpl in *. by subst. }
  intros ? ? ? (-> & -> & ->). apply wpr_modify. subst p3 p2 p1. done.
Qed.
End Pool.
