(* ===== verification/TransferPoolSafety.v ===== *)
(** Safety of the transfer pool under any sequence of public calls: the pool as a
    state machine, its invariant, exclusivity of slots, resource safety, and the
    behaviour of each public operation. *)

From stdpp Require Import gmultiset countable.
From S2P Require Import Prelude Effects Runtime RtLogic RtReference DeviceSupport TransferPool.
From S2P Require Import TransferPoolSpec.

(** The use flag of slot [i]. *)
Definition use (p : TransferPool) (i : Z) : option bool := map in_use (slots_ p) !! Z.to_nat i.

(** The invariant; [out] lists the slots that clients hold. *)
Record pool_inv (p : TransferPool) (out : list Z) : Prop := {
  pi_wf : pool_wf p;
  pi_ref : is_u32 (ref_cnt_ p);
  pi_idle : inited_ p = false -> p = new_TransferPool (device_id_ p);
  pi_free_nodup : NoDup (free_list_ p);
  pi_free : forall i, i ∈ free_list_ p -> 0 <= i < pool_size_ p /\ use p i = Some false;
  pi_out_nodup : NoDup out;
  pi_out : forall i, i ∈ out -> 0 <= i < pool_size_ p /\ use p i = Some true
}.

(** Free and held slots are disjoint. *)
Lemma free_not_out p out i : pool_inv p out -> i ∈ free_list_ p -> i ∈ out -> False.
Proof. intros Hi H1 H2. apply (pi_free _ _ Hi) in H1. apply (pi_out _ _ Hi) in H2. naive_solver. Qed.

Lemma pool_inv_admin p p' out :
  pool_inv p out -> inited_ p = true -> pool_wf p' -> same_admin p p' -> pool_inv p' out.
Proof.
  intros [W R I N Fr NO O] Hin Hwf []. unfold use in *. split; unfold use;
    [done | by rewrite sa_ref | congruence | by rewrite sa_free | | done |];
    intros i; rewrite ?sa_free, sa_size, sa_use; auto.
Qed.

Lemma new_pool_inv d : pool_inv (new_TransferPool d) [].
Proof.
  split; simpl; [by split | ulia | done | constructor | | constructor |];
    intros i Hi; by apply not_elem_of_nil in Hi.
Qed.

Lemma idle_no_out p out : pool_inv p out -> inited_ p = false -> out = [].
Proof.
  intros Hi Hn. destruct out as [|i out]; [done|]. exfalso.
  destruct (pi_out _ _ Hi i) as [Hr _]; [by left|].
  rewrite (pi_idle _ _ Hi Hn) in Hr. simpl in Hr. lia.
Qed.

Lemma use_insert p i s j :
  0 <= i -> 0 <= j -> (Z.to_nat i < length (slots_ p))%nat ->
  use (set_slots (<[Z.to_nat i := s]> (slots_ p)) p) j =
  if decide (j = i) then Some (in_use s) else use p j.
Proof.
  intros Hi Hj Hl. unfold use. simpl. rewrite list_fmap_insert. case_decide as E.
  - subst. apply list_lookup_insert_eq. by rewrite length_fmap.
  - apply list_lookup_insert_ne. lia.
Qed.

Lemma use_lookup p i s : slots_ p !! Z.to_nat i = Some s -> use p i = Some (in_use s).
Proof. unfold use. rewrite list_lookup_fmap. by intros ->. Qed.

Section Safety.
Context {codes : AclCodes} {env : RtEnv} {laws : RtLaws env}.

(** * Initialisation and finalisation *)

Lemma held_new d : held_pool (new_TransferPool d) = ∅.
Proof. done. Qed.

(** A fresh pool whose size and slot vector were just set. *)
Definition sized_pool (d n : Z) : TransferPool :=
  set_slots (replicate (Z.to_nat n) empty_slot) (set_counters 0 false n (new_TransferPool d)).

Lemma sized_pool_wf d n c : 0 <= n -> pool_wf (set_rts_context c (sized_pool d n)).
Proof. intros H. split; simpl; try done. by rewrite length_replicate. Qed.

Lemma slot_indices_nodup p : NoDup (slot_indices p).
Proof. apply NoDup_fmap_2; [apply _|]. apply NoDup_seq. Qed.

(** The state reached by a successful first initialisation. *)
Lemma init_success_inv F d n c p' o X' :
  0 <= n ->
  init_post F (set_rts_context c (sized_pool d n)) o p' X' -> o = inr tt ->
  pool_inv (set_counters 1 true (pool_size_ p') p') [].
Proof.
  intros Hn (-> & Hwf & Hsa & Ho) ->. destruct Hsa; simpl in *.
  split; simpl.
  - destruct Hwf; by split.
  - ulia.
  - done.
  - rewrite Ho. apply slot_indices_nodup.
  - intros i. rewrite Ho, slot_indices_range. simpl. intros Hi. rewrite sa_size. split; [done|].
    unfold use. simpl. rewrite sa_use. rewrite fmap_replicate. apply lookup_replicate_2. lia.
  - constructor.
  - intros i Hi. by apply not_elem_of_nil in Hi.
Qed.

Lemma Initialize_spec n p out :
  is_u32 n -> pool_inv p out ->
  wpr (TransferPool_Initialize n)
    (fun o p' X' => X' = held_pool p' /\ pool_inv p' out /\ device_id_ p' = device_id_ p /\
       match o with
       | inr _ => inited_ p' = true /\ pool_size_ p' = n /\ 0 < n <= kMaxPoolSize /\
           ref_cnt_ p' = u32 (ref_cnt_ p + 1) /\
           (if inited_ p then n = pool_size_ p else free_list_ p' = slot_indices p')
       | inl _ => p' = p
       end) p (held_pool p).
Proof.
  intros Hu Hi. unfold TransferPool_Initialize. apply wpr_bind, wpr_require; intros Hn; [|done].
  apply negb_true_iff, orb_false_iff in Hn as [Hn1%Z.eqb_neq Hn2%Z.ltb_ge].
  assert (Hn : 0 < n <= kMaxPoolSize) by (unfold kMaxPoolSize in *; ulia).
  apply wpr_bind, wpr_get. destruct (inited_ p) eqn:Hin.
  - apply wpr_bind, wpr_require; intros Hs; [|done]. apply Z.eqb_eq in Hs.
    apply wpr_modify. split; [done|]. split; [|by rewrite <- Hs].
    destruct Hi as [[] ? ? ? ? ? ?]. split; try done. simpl. apply wrap_range. lia.
  - assert (out = []) as -> by (by eapply idle_no_out).
    pose proof (pi_idle _ _ Hi Hin) as Hp. set (d := device_id_ p) in *. clearbody d. subst p.
    apply wpr_bind, wpr_modify, wpr_bind, wpr_modify. apply wpr_on_fail.
    change (set_slots _ _) with (sized_pool d n). rewrite held_new. simpl.
    assert (Hrb : forall p' e, pool_wf p' -> reset_pool p' = new_TransferPool d ->
      wpr DeinitAllSlotsLocked (fun _ s'' X'' => X'' = held_pool s'' /\ pool_inv s'' [] /\
        device_id_ s'' = d /\ match inl e : Status + unit with inr _ => False | inl _ => s'' = new_TransferPool d end)
        p' (∅ ⊎ held_pool p')).
    { intros p' e Hwf Hr. eapply wpr_mono; [by apply DeinitAllSlots_spec|].
      intros ? ? ? (-> & -> & ->). rewrite Hr. split_and!; done || apply new_pool_inv. }
    apply wpr_bind. eapply wpr_RET_OUT_obtain; [done|done|done| |].
    + intros c Hc. apply wpr_bind, wpr_modify. apply wpr_bind. eapply wpr_mono.
      * replace ({[+ (RContext, c) +]} ⊎ ∅) with (∅ ⊎ held_pool (set_rts_context c (sized_pool d n))).
        2: { unfold held_pool; simpl. rewrite held_slots_empty, held_nonnull by done.
             unfold held_err_flag; simpl. rewrite !held_null. multiset_solver. }
        apply InitializeResources_spec, sized_pool_wf. lia.
      * intros [e|[]] p' X' Hpost.
        -- destruct Hpost as (-> & Hwf & Hsa & _). apply (Hrb p' e Hwf). destruct Hsa; simpl in *.
           unfold reset_pool. by rewrite sa_device, sa_ref.
        -- apply wpr_modify. assert (Hn0 : 0 <= n) by lia.
           pose proof (init_success_inv _ _ _ _ _ _ _ Hn0 Hpost eq_refl) as Hinv.
           destruct Hpost as (-> & Hwf & Hsa & Ho). destruct Hsa; simpl in *.
           split; [unfold held_pool, held_err_flag; simpl; multiset_solver|].
           split_and!; try done; try lia. by rewrite Ho; unfold slot_indices; simpl; rewrite sa_size.
    + intros e. replace (∅ : gmultiset Resource) with (∅ ⊎ held_pool (sized_pool d n)).
      2: { unfold held_pool; simpl. rewrite held_slots_empty. done. }
      apply (Hrb _ e); [|done]. apply (sized_pool_wf d n nullptr). lia.
Qed.

Lemma AbortInUseStreams_spec p F :
  pool_wf p ->
  wpr AbortInUseStreamsLocked (fun o p' X' => o = inr tt /\ pool_post F p o p' X') p (F ⊎ held_pool p).
Proof.
  intros Hwf. unfold AbortInUseStreamsLocked. apply wpr_bind, wpr_get.
  apply (for_slots_total p F (fun _ _ => let* s := get in if in_use s then AbortInUseStreamLocked s else ret tt));
    [done|]. intros _ _ s X. apply wpr_bind, wpr_get.
  case_match; [|apply wpr_ret; split; [eauto|done]].
  eapply wpr_mono; [apply AbortInUseStream_unchanged|]. intros ? ? ? (-> & -> & ->). split; [eauto|done].
Qed.

Lemma Finalize_spec p out :
  pool_inv p out ->
  wpr TransferPool_Finalize
    (fun o p' X' => X' = held_pool p' /\ o = inr tt /\ device_id_ p' = device_id_ p /\
       ref_cnt_ p' = (if ref_cnt_ p =? 0 then 0 else ref_cnt_ p - 1) /\
       (if ref_cnt_ p =? 1 then p' = new_TransferPool (device_id_ p)
        else pool_inv p' out /\ inited_ p' = inited_ p))
    p (held_pool p).
Proof.
  intros Hi. unfold TransferPool_Finalize. apply wpr_bind, wpr_get.
  destruct (ref_cnt_ p =? 0) eqn:Hr; [apply Z.eqb_eq in Hr|apply Z.eqb_neq in Hr].
  - apply wpr_ret. rewrite Hr. done.
  - pose proof (pi_ref _ _ Hi) as Hu.
    assert (Hm : u32 (ref_cnt_ p - 1) = ref_cnt_ p - 1) by (apply u32_small; ulia).
    apply wpr_bind, wpr_modify, wpr_bind, wpr_get. simpl. rewrite Hm.
    set (p1 := set_counters (ref_cnt_ p - 1) (inited_ p) (pool_size_ p) p).
    assert (Hwf1 : pool_wf p1) by (destruct (pi_wf _ _ Hi); by split).
    destruct (ref_cnt_ p - 1 =? 0) eqn:Hz; [apply Z.eqb_eq in Hz|apply Z.eqb_neq in Hz]; simpl.
    + rewrite (proj2 (Z.eqb_eq (ref_cnt_ p) 1)) by lia. apply wpr_bind.
      change (held_pool p) with (held_pool p1).
      replace (held_pool p1) with (∅ ⊎ held_pool p1) by multiset_solver.
      eapply wpr_mono with (P := fun o p' X' => o = inr tt /\ pool_post (A := unit) ∅ p1 o p' X').
      { case_match; [by apply AbortInUseStreams_spec | by apply wpr_ret]. }
      intros ? p2 ? (-> & -> & Hwf2 & Hsa). eapply wpr_mono; [by apply DeinitAllSlots_spec|].
      intros ? ? ? (-> & -> & ->). destruct Hsa; simpl in *. split_and!; try done; try lia.
      unfold reset_pool. by rewrite sa_device, sa_ref, Hz.
    + rewrite (proj2 (Z.eqb_neq (ref_cnt_ p) 1)) by lia. apply wpr_ret. split_and!; try done.
      destruct Hi as [W R I N Fr NO O]. split; try done; simpl; [ulia|].
      intros Hf. rewrite (I Hf) in Hr. done.
Qed.

(** * Acquire and Release *)
Lemma Acquire_spec p out :
  pool_inv p out ->
  wpr TransferPool_Acquire
    (fun o p' X' => X' = held_pool p' /\
       match o with
       | inr hd => inited_ p = true /\ inited_ p' = true /\ device_id_ p' = device_id_ p /\
           free_list_ p = h_slot_index hd :: free_list_ p' /\ h_device_id hd = device_id_ p /\
           (exists s, slots_ p !! Z.to_nat (h_slot_index hd) = Some s /\
              hd = with_dev_const_one (dev_const_one_ p) (FillHandleFromSlot (device_id_ p) (h_slot_index hd) s)) /\
           h_slot_index hd ∉ out /\ pool_inv p' (h_slot_index hd :: out)
       | inl e => p' = p /\ e = (if inited_ p then RESOURCE_EXHAUSTED else FAILED) /\ free_list_ p = []
       end) p (held_pool p).
Proof.
  intros Hi. unfold TransferPool_Acquire. apply wpr_bind, wpr_get.
  apply wpr_bind, wpr_require; intros Hin.
  2: { rewrite Hin. split; [done|]. split; [done|]. split; [done|]. by rewrite (pi_idle _ _ Hi Hin). }
  destruct (free_list_ p) as [|idx rest] eqn:Hfl; [apply wpr_fail; by rewrite Hin|].
  destruct (pi_free _ _ Hi idx) as [Hr Hu]; [rewrite Hfl; by left|].
  destruct (slot_in_range p idx (pi_wf _ _ Hi) Hr) as [s Hs].
  apply wpr_bind, wpr_modify. eapply wpr_on_slot; [lia|exact Hs|]. wpr_step.
  assert (Hno : idx ∉ out).
  { intros Ho. eapply free_not_out; [done| |exact Ho]. rewrite Hfl. by left. }
  assert (Hlt : (Z.to_nat idx < length (slots_ p))%nat) by (by eapply lookup_lt_Some).
  split.
  { symmetry. etrans; [by apply (held_pool_same_slot (set_free_list rest p) _ s)|done]. }
  split_and!; try done; [by exists s|].
  destruct Hi as [W R I N Fr NO O]. rewrite Hfl in *. apply NoDup_cons in N as [Hnf N].
  set (p1 := set_free_list rest p).
  assert (Huse : forall j, 0 <= j -> use (set_slots (<[Z.to_nat idx:=set_in_use true s]> (slots_ p1)) p1) j =
    if decide (j = idx) then Some true else use p j).
  { intros j Hj. rewrite use_insert by (simpl; lia). done. }
  split; simpl; try done.
  - destruct W; split; simpl; try done. by rewrite length_insert.
  - congruence.
  - intros j Hj. destruct (Fr j) as [Hjr Hju]; [by right|]. split; [done|]. rewrite Huse by lia.
    rewrite decide_False; [done|]. by intros ->.
  - by constructor.
  - intros j [-> | Hj]%elem_of_cons; (split; [|rewrite Huse by (try apply O in Hj; lia)]).
    + done.
    + by rewrite decide_True.
    + by apply O.
    + case_decide; [done|]. by apply O.
Qed.

Definition drop_index (i : Z) (out : list Z) : list Z := filter (fun j => j <> i) out.

(** Slot [idx], in use, goes back to the end of the free list. *)
Definition returned (idx : Z) (s : Slot) (p : TransferPool) : TransferPool :=
  set_free_list (free_list_ p ++ [idx]) (set_slots (<[Z.to_nat idx := s]> (slots_ p)) p).

Lemma returned_inv p out idx s s0 :
  pool_inv p out -> inited_ p = true -> 0 <= idx < pool_size_ p ->
  slots_ p !! Z.to_nat idx = Some s0 -> in_use s0 = true -> in_use s = false ->
  pool_inv (returned idx s p) (drop_index idx out).
Proof.
  intros [W R I N Fr NO O] Hin Hr Hs0 Hu0 Hu.
  assert (Hlt : (Z.to_nat idx < length (slots_ p))%nat) by (by eapply lookup_lt_Some).
  pose proof (use_lookup p idx s0 Hs0) as Hui. rewrite Hu0 in Hui.
  assert (Huse : forall j, 0 <= j -> use (returned idx s p) j = if decide (j = idx) then Some false else use p j).
  { intros j Hj. rewrite <- Hu. rewrite <- (use_insert p idx s j) by lia. done. }
  assert (Hnf : idx ∉ free_list_ p) by (intros Hf%Fr; naive_solver).
  split; simpl; try done.
  - destruct W; split; simpl; try done. by rewrite length_insert.
  - congruence.
  - apply NoDup_app. split; [done|]. split; [|apply NoDup_singleton].
    intros j Hj ->%list_elem_of_singleton. done.
  - intros j [Hj | ->%list_elem_of_singleton]%elem_of_app.
    + destruct (Fr j Hj) as [Hjr Hju]. split; [done|]. rewrite Huse by lia. case_decide; [done|done].
    + split; [done|]. rewrite Huse by lia. by rewrite decide_True.
  - by apply NoDup_filter.
  - intros j [Hne Hj]%list_elem_of_filter. destruct (O j Hj) as [Hjr Hju]. split; [done|].
    rewrite Huse by lia. by rewrite decide_False.
Qed.

Lemma ResetSlotErrFlag_unchanged i p X :
  wpr (ResetSlotErrFlagLocked i) (fun o p' X' => o = inr tt /\ unchanged p X o p' X') p X.
Proof.
  unfold ResetSlotErrFlagLocked. apply wpr_bind, wpr_get. case_match; [by apply wpr_ret|].
  apply wpr_call_neutral; [done|done|]. by intros [] _.
Qed.

Lemma held_returned p idx s s0 :
  slots_ p !! Z.to_nat idx = Some s0 -> held_slot s = held_slot s0 ->
  held_pool (returned idx s p) = held_pool p.
Proof. intros H1 H2. etrans; [|by apply (held_pool_same_slot p (Z.to_nat idx) s0 s)]. done. Qed.

(** What [Release] accepts: a slot of this pool that is in use. *)
Definition releasable (p : TransferPool) (hd : SlotHandle) : bool :=
  (h_device_id hd =? device_id_ p) && (h_slot_index hd <? pool_size_ p)
  && bool_decide (use p (h_slot_index hd) = Some true).

Lemma Release_spec p out hd :
  0 <= h_slot_index hd -> pool_inv p out ->
  wpr (TransferPool_Release hd)
    (fun o p' X' => X' = held_pool p' /\ o = inr tt /\
       if releasable p hd then
         pool_inv p' (drop_index (h_slot_index hd) out) /\ inited_ p' = true /\
         exists s, slots_ p !! Z.to_nat (h_slot_index hd) = Some s /\
           p' = returned (h_slot_index hd)
                  (set_in_use false (set_launched_tasks (h_launched_tasks hd) s)) p
       else p' = p) p (held_pool p).
Proof.
  intros H0 Hi. unfold TransferPool_Release, releasable. apply wpr_bind, wpr_get.
  destruct (h_device_id hd =? device_id_ p) eqn:Hd; simpl; [|by apply wpr_ret].
  destruct (pool_size_ p <=? h_slot_index hd) eqn:Hsz.
  { rewrite (proj2 (Z.ltb_ge _ _)) by lia. by apply wpr_ret. }
  rewrite (proj2 (Z.ltb_lt _ _)) by lia. simpl.
  destruct (slot_in_range p (h_slot_index hd) (pi_wf _ _ Hi)) as [s Hs]; [lia|].
  rewrite (use_lookup _ _ _ Hs).
  apply wpr_bind. eapply wpr_on_slot; [lia|exact Hs|]. apply wpr_bind, wpr_get, wpr_ret.
  rewrite list_insert_id by done.
  replace (set_slots (slots_ p) p) with p by (by destruct p).
  destruct (in_use s) eqn:Hu; simpl; [|by apply wpr_ret].
  assert (Hin : inited_ p = true).
  { destruct (inited_ p) eqn:Hin; [done|]. rewrite (pi_idle _ _ Hi Hin) in Hs. done. }
  assert (Hlt : (Z.to_nat (h_slot_index hd) < length (slots_ p))%nat) by (by eapply lookup_lt_Some).
  apply wpr_bind. eapply wpr_on_slot; [lia|exact Hs|]. apply wpr_modify.
  apply wpr_bind. eapply wpr_mono; [apply ResetSlotErrFlag_unchanged|]. intros ? ? ? (-> & -> & ->).
  apply wpr_bind. eapply wpr_on_slot; [lia|by apply list_lookup_insert_eq|].
  apply wpr_modify, wpr_modify. simpl. rewrite list_insert_insert_eq.
  set (s1 := set_in_use false _). change (set_free_list _ _) with (returned (h_slot_index hd) s1 p).
  split; [symmetry; by apply (held_returned p _ s1 s)|]. split; [done|].
  split; [apply (returned_inv p out _ s1 s); done || lia|]. split; [done|]. by exists s.
Qed.

(** * Abort *)

(** The slot was put out of service: it is neither free nor in use. *)
Definition retired (idx : Z) (s : Slot) (p : TransferPool) : TransferPool :=
  set_slots (<[Z.to_nat idx := s]> (slots_ p)) p.

Lemma retired_inv p out idx s s0 :
  pool_inv p out -> inited_ p = true -> 0 <= idx < pool_size_ p ->
  slots_ p !! Z.to_nat idx = Some s0 -> in_use s0 = true -> in_use s = false ->
  pool_inv (retired idx s p) (drop_index idx out).
Proof.
  intros Hi Hin Hr Hs0 Hu0 Hu.
  destruct (returned_inv p out idx s s0 Hi Hin Hr Hs0 Hu0 Hu) as [W R I N Fr NO O].
  split; try done; simpl in *.
  - by destruct W.
  - congruence.
  - apply NoDup_app in N. tauto.
  - intros j Hj. apply Fr. apply elem_of_app. by left.
Qed.

Lemma Abort_spec p out hd :
  0 <= h_slot_index hd -> pool_inv p out ->
  wpr (TransferPool_Abort hd)
    (fun o p' X' => X' = held_pool p' /\ o = inr tt /\
       if releasable p hd then
         pool_inv p' (drop_index (h_slot_index hd) out) /\ inited_ p' = true /\
         exists s, in_use s = false /\
           (p' = returned (h_slot_index hd) s p \/ p' = retired (h_slot_index hd) s p)
       else p' = p) p (held_pool p).
Proof.
  intros H0 Hi. unfold TransferPool_Abort, AbortSlotByIndexLocked, releasable.
  set (idx := h_slot_index hd) in *. apply wpr_bind, wpr_get.
  destruct (inited_ p) eqn:Hin; simpl.
  2: { case_match eqn:E; [|by apply wpr_ret]. rewrite (pi_idle _ _ Hi Hin) in E. simpl in E.
       rewrite andb_true_iff, andb_true_iff in E. lia. }
  destruct (h_device_id hd =? device_id_ p) eqn:Hd; simpl; [|by apply wpr_ret].
  destruct (pool_size_ p <=? idx) eqn:Hsz.
  { rewrite (proj2 (Z.ltb_ge _ _)) by lia. by apply wpr_ret. }
  rewrite (proj2 (Z.ltb_lt _ _)) by lia. simpl.
  destruct (slot_in_range p idx (pi_wf _ _ Hi)) as [s Hs]; [lia|].
  rewrite (use_lookup _ _ _ Hs). apply wpr_bind, wpr_get. rewrite Hsz.
  apply wpr_bind. eapply wpr_on_slot; [lia|exact Hs|]. apply wpr_bind, wpr_get, wpr_ret.
  rewrite list_insert_id by done.
  replace (set_slots (slots_ p) p) with p by (by destruct p).
  destruct (in_use s) eqn:Hu; simpl; [|by apply wpr_ret].
  assert (Hlt : (Z.to_nat idx < length (slots_ p))%nat) by (by eapply lookup_lt_Some).
  destruct (held_pool_split p _ s ∅ Hs) as [Y HY].
  apply wpr_bind. eapply wpr_on_slot; [lia|exact Hs|].
  replace (held_pool p) with (Y ⊎ held_slot s) by multiset_solver.
  eapply wpr_mono; [apply abort_slot_spec|]. intros ? s1 ? (-> & r & -> & Hr).
  assert (Hheld : Y ⊎ held_slot s1 = held_pool (retired idx s1 p)).
  { pose proof (held_pool_set_slot p _ s s1 _ _ Hs HY) as H. unfold retired. multiset_solver. }
  destruct r as [e|[]].
  - apply wpr_ret. split; [done|]. split; [done|].
    split; [apply (retired_inv p out idx s1 s); done || lia|]. split; [done|]. exists s1. auto.
  - unfold ReturnSlotToFreeListLocked. apply wpr_bind.
    eapply wpr_mono; [apply ResetSlotErrFlag_unchanged|]. intros ? ? ? (-> & -> & ->).
    apply wpr_bind. eapply wpr_on_slot; [lia|by apply list_lookup_insert_eq|].
    apply wpr_modify, wpr_modify. simpl. rewrite list_insert_insert_eq.
    set (s2 := set_in_use false _). change (set_free_list _ _) with (returned idx s2 p).
    split; [rewrite Hheld; unfold held_pool, returned, retired; simpl|].
    { pose proof (held_slots_insert _ _ _ s1 Hs). pose proof (held_slots_insert _ _ _ s2 Hs).
      change (held_slot s2) with (held_slot s1) in *. unfold held_err_flag. simpl. multiset_solver. }
    split; [done|].
    split; [apply (returned_inv p out _ s2 s); done || lia|]. split; [done|]. exists s2. auto.
Qed.

(** * The remaining operations change no administrative field *)
Lemma admin_wpr {A} (m : RtM TransferPool A) p out :
  pool_inv p out ->
  (inited_ p = true -> wpr m (pool_post ∅ p) p (∅ ⊎ held_pool p)) ->
  (inited_ p = false -> wpr m (fun o p' X' => p' = p /\ X' = held_pool p) p (held_pool p)) ->
  wpr m (fun o p' X' => X' = held_pool p' /\ pool_inv p' out /\ same_admin p p') p (held_pool p).
Proof.
  intros Hi H1 H2. destruct (inited_ p) eqn:Hin.
  - replace (held_pool p) with (∅ ⊎ held_pool p) by multiset_solver.
    eapply wpr_mono; [by apply H1|]. intros o p' X' (-> & Hwf & Hsa).
    split; [multiset_solver|]. split; [by eapply pool_inv_admin | done].
  - eapply wpr_mono; [by apply H2|]. by intros o p' X' [-> ->].
Qed.

Lemma ResolveNotifyAddr_spec p out :
  pool_inv p out ->
  wpr TransferPool_ResolveNotifyAddr
    (fun o p' X' => X' = held_pool p' /\ pool_inv p' out /\ same_admin p p') p (held_pool p).
Proof.
  intros Hi. apply admin_wpr; [done| |]; intros Hin;
    unfold TransferPool_ResolveNotifyAddr; apply wpr_bind, wpr_get, wpr_bind, wpr_require;
    rewrite Hin; try done; intros _.
  rewrite (wf_slots _ (pi_wf _ _ Hi)).
  apply (for_slots_ok p ∅ (fun _ p => let* s := get in
    if negb (notify_addr s =? 0) && negb (notify_len s =? 0) then ret tt
    else ResolveNotifyAddressLocked p)); [by destruct Hi|].
  intros _ q. apply slot_ok_get. intros s.
  case_match; [|apply ResolveNotifyAddress_ok]. intros s' F. by apply wpr_ret.
Qed.

Lemma EnsureUbMemStream_spec p out hd :
  0 <= h_slot_index hd -> pool_inv p out ->
  wpr (TransferPool_EnsureUbMemStream hd)
    (fun o p' X' => X' = held_pool p' /\ pool_inv p' out /\ same_admin p p') p (held_pool p).
Proof.
  intros H0 Hi. apply admin_wpr; [done| |]; intros Hin;
    unfold TransferPool_EnsureUbMemStream; apply wpr_bind, wpr_get, wpr_bind, wpr_require;
    rewrite Hin; try done; intros _.
  destruct Hi as [Hwf _ _ _ _ _ _].
  apply wpr_bind, wpr_require; intros Hd; [|done].
  apply wpr_bind, wpr_require; intros Hs; [|done].
  apply on_slot_ok; [done|lia|]. apply slot_ok_get. intros s.
  apply slot_ok_bind; [|intros _]. { intros s' F. apply wpr_require; by intros. }
  apply slot_ok_bind; [apply CreateUbMemStream_ok|intros _].
  apply slot_ok_get. intros s' s'' F. by apply wpr_ret.
Qed.

Lemma GetAllSlots_spec p out :
  pool_inv p out ->
  wpr TransferPool_GetAllSlots
    (fun o p' X' => X' = held_pool p' /\ pool_inv p' out /\ same_admin p p') p (held_pool p).
Proof.
  intros Hi. unfold TransferPool_GetAllSlots. apply wpr_bind, wpr_get.
  case_match; [by apply wpr_fail | by apply wpr_ret].
Qed.

(** * The pool as a state machine

    A state is the pool, the history of runtime calls, and the slots that clients
    hold.  A client releases or aborts a slot it holds, once; the last [Finalize]
    takes the slots back from everybody. *)
Definition PoolState : Type := TransferPool * RtHistory * list Z.

Inductive pool_step : PoolState -> PoolState -> Prop :=
| step_Initialize n p h out o p' h' :
    is_u32 n -> TransferPool_Initialize n p h = (o, p', h') ->
    pool_step (p, h, out) (p', h', out)
| step_Finalize p h out o p' h' :
    TransferPool_Finalize p h = (o, p', h') ->
    pool_step (p, h, out) (p', h', if inited_ p' then out else [])
| step_Acquire p h out hd p' h' :
    TransferPool_Acquire p h = (Ret hd, p', h') ->
    pool_step (p, h, out) (p', h', h_slot_index hd :: out)
| step_Acquire_fail p h out e p' h' :
    TransferPool_Acquire p h = (Fail_ e, p', h') ->
    pool_step (p, h, out) (p', h', out)
| step_Release p h out hd o p' h' :
    h_slot_index hd ∈ out -> h_device_id hd = device_id_ p ->
    TransferPool_Release hd p h = (o, p', h') ->
    pool_step (p, h, out) (p', h', drop_index (h_slot_index hd) out)
| step_Abort p h out hd o p' h' :
    h_slot_index hd ∈ out -> h_device_id hd = device_id_ p ->
    TransferPool_Abort hd p h = (o, p', h') ->
    pool_step (p, h, out) (p', h', drop_index (h_slot_index hd) out)
| step_EnsureUbMemStream p h out hd o p' h' :
    0 <= h_slot_index hd ->
    TransferPool_EnsureUbMemStream hd p h = (o, p', h') ->
    pool_step (p, h, out) (p', h', out)
| step_ResolveNotifyAddr p h out o p' h' :
    TransferPool_ResolveNotifyAddr p h = (o, p', h') ->
    pool_step (p, h, out) (p', h', out)
| step_GetAllSlots p h out o p' h' :
    TransferPool_GetAllSlots p h = (o, p', h') ->
    pool_step (p, h, out) (p', h', out).

Definition pool_reachable (d : Z) (st : PoolState) : Prop :=
  rtc pool_step (new_TransferPool d, [], []) st.

(** What holds in every reachable state. *)
Definition pool_safe (st : PoolState) : Prop :=
  let '(p, h, out) := st in pool_inv p out /\ ledger h = Some (held_pool p).

(** Read a resource specification at a run of the computation. *)
Lemma wpr_run {S A} (m : RtM S A) Q s X h o s' h' :
  wpr m Q s X -> ledger h = Some X -> m s h = (o, s', h') ->
  exists X', ledger h' = Some X' /\
    match o with Ret a => Q (inr a) s' X' | Fail_ e => Q (inl e) s' X' | Stuck => False end.
Proof.
  intros H Ho Hm. specialize (H h Ho). unfold wp in H. rewrite Hm in H.
  destruct o as [a|e|]; [| |done]; destruct H as (_ & X' & HX & HQ); by exists X'.
Qed.

Lemma releasable_held p out hd :
  pool_inv p out -> h_slot_index hd ∈ out -> h_device_id hd = device_id_ p -> releasable p hd = true.
Proof.
  intros Hi Ho Hd. destruct (pi_out _ _ Hi _ Ho) as [Hr Hu]. unfold releasable.
  rewrite Hu, bool_decide_true by done. rewrite Hd, Z.eqb_refl. simpl. rewrite (proj2 (Z.ltb_lt _ _)); [done|lia].
Qed.

Lemma pool_step_safe st st' : pool_safe st -> pool_step st st' -> pool_safe st'.
Proof.
  intros Hs Hstep. destruct Hstep; destruct Hs as [Hi Hl].
  - destruct (wpr_run _ _ _ _ _ _ _ _ (Initialize_spec n p out H Hi) Hl H0) as (X' & HX & HQ).
    destruct o; try done; destruct HQ as (-> & HQ & _); done.
  - destruct (wpr_run _ _ _ _ _ _ _ _ (Finalize_spec p out Hi) Hl H) as (X' & HX & HQ).
    destruct o as [[]|e|]; [|naive_solver|done]. destruct HQ as (-> & _ & Hd & Hr & HQ).
    split; [|done]. destruct (ref_cnt_ p =? 1); [subst; apply new_pool_inv|].
    destruct HQ as [HQ Hin]. destruct (inited_ p') eqn:E; [done|].
    by rewrite (idle_no_out _ _ HQ E) in HQ.
  - destruct (wpr_run _ _ _ _ _ _ _ _ (Acquire_spec p out Hi) Hl H) as (X' & HX & -> & HQ).
    split; [apply HQ|done].
  - destruct (wpr_run _ _ _ _ _ _ _ _ (Acquire_spec p out Hi) Hl H) as (X' & HX & -> & -> & _). done.
  - assert (H0' : 0 <= h_slot_index hd) by (by apply (pi_out _ _ Hi)).
    destruct (wpr_run _ _ _ _ _ _ _ _ (Release_spec p out hd H0' Hi) Hl H1) as (X' & HX & HQ).
    rewrite (releasable_held p out hd Hi H H0) in HQ.
    destruct o; try done; destruct HQ as (-> & _ & HQ & _); done.
  - assert (H0' : 0 <= h_slot_index hd) by (by apply (pi_out _ _ Hi)).
    destruct (wpr_run _ _ _ _ _ _ _ _ (Abort_spec p out hd H0' Hi) Hl H1) as (X' & HX & HQ).
    rewrite (releasable_held p out hd Hi H H0) in HQ.
    destruct o; try done; destruct HQ as (-> & _ & HQ & _); done.
  - destruct (wpr_run _ _ _ _ _ _ _ _ (EnsureUbMemStream_spec p out hd H Hi) Hl H0) as (X' & HX & HQ).
    destruct o; try done; destruct HQ as (-> & HQ & _); done.
  - destruct (wpr_run _ _ _ _ _ _ _ _ (ResolveNotifyAddr_spec p out Hi) Hl H) as (X' & HX & HQ).
    destruct o; try done; destruct HQ as (-> & HQ & _); done.
  - destruct (wpr_run _ _ _ _ _ _ _ _ (GetAllSlots_spec p out Hi) Hl H) as (X' & HX & HQ).
    destruct o; try done; destruct HQ as (-> & HQ & _); done.
Qed.

Lemma pool_reachable_safe d st : pool_reachable d st -> pool_safe st.
Proof.
  intros Hr. unfold pool_reachable in Hr.
  assert (H0 : pool_safe (new_TransferPool d, [], [])) by (split; [apply new_pool_inv | done]).
  revert H0. induction Hr as [st|st st1 st2 Hst _ IH]; [done|].
  intros Hs. apply IH. by eapply pool_step_safe.
Qed.
End Safety.

(** * Theorems *)
Definition stuck_free {S A} (r : Outcome A * S * RtHistory) : Prop :=
  match r with (Stuck, _, _) => False | _ => True end.

Lemma wpr_stuck_free {env : RtEnv} {S A} (m : RtM S A) Q s X h :
  wpr m Q s X -> ledger h = Some X -> stuck_free (m s h).
Proof.
  intros H Ho. specialize (H h Ho). unfold wp in H. by destruct (m s h) as [[[]]].
Qed.

Section Theorems.
Context {codes : AclCodes} {env : RtEnv} {laws : RtLaws env}.





(** Reference counting.  [Finalize] always returns; it takes one reference away, and
    only the call that takes the last one tears the pool down, to the state of a
    newly constructed pool with no resource left. *)
Theorem TransferPool_Finalize_refcount d p h out o p' h' :
  pool_reachable d (p, h, out) ->
  TransferPool_Finalize p h = (o, p', h') ->
  o = Ret tt /\ ref_cnt_ p' = Z.max 0 (ref_cnt_ p - 1) /\
  (if ref_cnt_ p =? 1 then p' = new_TransferPool (device_id_ p) /\ ledger h' = Some ∅
   else inited_ p' = inited_ p).
Proof.
  intros Hr Hrun. destruct (pool_reachable_safe _ _ Hr) as [Hi Hl].
  destruct (wpr_run _ _ _ _ _ _ _ _ (Finalize_spec p out Hi) Hl Hrun) as (X' & HX & HQ).
  pose proof (pi_ref _ _ Hi) as Hu.
  destruct o as [[]|e|]; [|naive_solver|done]. destruct HQ as (-> & _ & _ & Hc & HQ).
  split; [done|]. split.
  { rewrite Hc. destruct (ref_cnt_ p =? 0) eqn:E; ulia. }
  destruct (ref_cnt_ p =? 1); [|tauto]. split; [done|]. by rewrite HX, HQ.
Qed.

(** Release is idempotent.  A second [Release] with the same handle changes nothing,
    and a [Release] with a foreign device, an index outside the pool or a slot that
    is not in use changes nothing. *)
Theorem TransferPool_Release_idempotent d p h out hd o1 p1 h1 o2 p2 h2 :
  pool_reachable d (p, h, out) -> is_u32 (h_slot_index hd) ->
  TransferPool_Release hd p h = (o1, p1, h1) -> TransferPool_Release hd p1 h1 = (o2, p2, h2) ->
  p2 = p1 /\ (releasable p hd = false -> p1 = p) /\
  (releasable p hd = true -> free_list_ p1 = free_list_ p ++ [h_slot_index hd]).
Proof.
  intros Hr Hh Hrun1 Hrun2. destruct (pool_reachable_safe _ _ Hr) as [Hi Hl].
  assert (H0 : 0 <= h_slot_index hd) by apply Hh.
  destruct (wpr_run _ _ _ _ _ _ _ _ (Release_spec p out hd H0 Hi) Hl Hrun1) as (X1 & HX1 & HQ1).
  destruct o1 as [[]|e|]; [|naive_solver|done]. destruct HQ1 as (-> & _ & HQ1).
  assert (Hi1 : exists out1, pool_inv p1 out1).
  { destruct (releasable p hd); [destruct HQ1 as [HQ1 _]; eauto | subst; eauto]. }
  destruct Hi1 as [out1 Hi1].
  destruct (wpr_run _ _ _ _ _ _ _ _ (Release_spec p1 out1 hd H0 Hi1) HX1 Hrun2) as (X2 & _ & HQ2).
  destruct o2 as [[]|e|]; [|naive_solver|done]. destruct HQ2 as (_ & _ & HQ2).
  destruct (releasable p hd) eqn:Hrel.
  - destruct HQ1 as (_ & _ & s & Hs & ->).
    assert (Hlt : (Z.to_nat (h_slot_index hd) < length (slots_ p))%nat) by (by eapply lookup_lt_Some).
    replace (releasable (returned _ _ p) hd) with false in HQ2; [done|].
    symmetry. unfold releasable, returned, use. simpl.
    rewrite list_fmap_insert, list_lookup_insert_eq by (by rewrite length_fmap). simpl.
    by rewrite andb_false_r.
  - subst p1. rewrite Hrel in HQ2. done.
Qed.
End Theorems.

(** * A concrete run on the reference runtime *)
Definition run_Initialize := TransferPool_Initialize 2 (new_TransferPool 0) [].
Definition pool_after_init : TransferPool := run_Initialize.1.2.
Definition hist_after_init : RtHistory := run_Initialize.2.

Definition run_Acquire := TransferPool_Acquire pool_after_init hist_after_init.
Definition acquired_handle : SlotHandle :=
  match run_Acquire.1.1 with Ret hd => hd | _ => mkSlotHandle 0 0 0 0 0 0 0 0 0 0 0 0 0 0 end.
Definition pool_after_acquire : TransferPool := run_Acquire.1.2.
Definition hist_after_acquire : RtHistory := run_Acquire.2.

Lemma reachable_after_init : pool_reachable 0 (pool_after_init, hist_after_init, []).
Proof.
  apply rtc_once. apply (step_Initialize 2 _ _ _ run_Initialize.1.1); [ulia|]. vm_compute. reflexivity.
Qed.

Lemma reachable_after_acquire :
  pool_reachable 0 (pool_after_acquire, hist_after_acquire, [0]).
Proof.
  eapply rtc_r; [apply reachable_after_init|].
  apply (step_Acquire _ _ _ acquired_handle). vm_compute. reflexivity.
Qed.





Definition run_Finalize := TransferPool_Finalize pool_after_acquire hist_after_acquire.

Lemma TransferPool_Finalize_refcount_witness :
  run_Finalize.1.2 = new_TransferPool 0 /\ ledger run_Finalize.2 = Some ∅.
Proof.
  assert (Hrun : TransferPool_Finalize pool_after_acquire hist_after_acquire
                 = (Ret tt, run_Finalize.1.2, run_Finalize.2)) by (vm_compute; reflexivity).
  pose proof (TransferPool_Finalize_refcount 0 _ _ _ _ _ _ reachable_after_acquire Hrun) as (_ & _ & H).
  assert (Hc : ref_cnt_ pool_after_acquire = 1) by (vm_compute; reflexivity).
  rewrite Hc in H. exact H.
Defined.

Definition run_Release := TransferPool_Release acquired_handle pool_after_acquire hist_after_acquire.
Definition run_Release2 := TransferPool_Release acquired_handle run_Release.1.2 run_Release.2.

Lemma TransferPool_Release_idempotent_witness :
  run_Release2.1.2 = run_Release.1.2 /\ free_list_ run_Release.1.2 = [1; 0].
Proof.
  assert (Hu : is_u32 (h_slot_index acquired_handle)) by (vm_compute; done).
  assert (H1 : TransferPool_Release acquired_handle pool_after_acquire hist_after_acquire
               = (Ret tt, run_Release.1.2, run_Release.2)) by (vm_compute; reflexivity).
  assert (H2 : TransferPool_Release acquired_handle run_Release.1.2 run_Release.2
               = (Ret tt, run_Release2.1.2, run_Release2.2)) by (vm_compute; reflexivity).
  pose proof (TransferPool_Release_idempotent 0 pool_after_acquire hist_after_acquire [0] acquired_handle
    (Ret tt) run_Release.1.2 run_Release.2 (Ret tt) run_Release2.1.2 run_Release2.2
    reachable_after_acquire Hu H1 H2)
    as (H3 & _ & H4).
  split; [exact H3|]. rewrite H4; vm_compute; reflexivity.
Defined.
