(* ===== verification/DeviceKernel.v ===== *)
(** The batch-transfer kernel that runs on the device
    (ops/hixl_kernel/hixl_batch_transfer.cc) and the error flag of a transfer
    context (ops/hixl_kernel/transfer_context_manager.cc).

    The HCOMM calls of the kernel are the operations of [DevOp]; the kernel is a
    computation on the transfer context it holds the lock of. *)

From S2P Require Import Prelude Effects Runtime RtReference MemStore.

(** struct HixlOneSideOpParam (reserved words left out). *)
Record HixlOneSideOpParam := mkOpParam {
  op_thread : Z;
  op_channel : Z;
  op_list_num : Z;
  op_flag_size : Z;
  op_desc_list_addr : Z;
  op_remote_flag_addr : Z;
  op_local_flag_addr : Z;
  op_notify_id : Z;
  op_use_notify_record : Z
}.

(** HixlTransferThreadState *)
Inductive ThreadState := INITIALIZED | DELETING | DELETED.
#[export] Instance ThreadState_eq_dec : EqDecision ThreadState.
Proof. solve_decision. Defined.

(** struct TransferContext *)
Record TransferContext := mkTransferContext {
  spin_lock : bool;
  tc_state : ThreadState;
  tc_notify_id : Z;
  tc_err_flag_dev_va : Z;
  dispatched_tasks : Z
}.
Definition fresh_context : TransferContext := mkTransferContext false INITIALIZED 0 0 0.

Definition SetState st c :=
  mkTransferContext (spin_lock c) st (tc_notify_id c) (tc_err_flag_dev_va c) (dispatched_tasks c).
Definition set_spin_lock b c :=
  mkTransferContext b (tc_state c) (tc_notify_id c) (tc_err_flag_dev_va c) (dispatched_tasks c).
Definition set_dispatched n c :=
  mkTransferContext (spin_lock c) (tc_state c) (tc_notify_id c) (tc_err_flag_dev_va c) n.

(** A one-sided copy: destination, source, length. *)
Record Copy := mkCopy { cp_dst : Z; cp_src : Z; cp_len : Z }.

(** The calls of the device kernels; [HcommBatchTransferOnThread] carries the
    descriptors with their direction. *)
Inductive DevOp : Type -> Type :=
| HcommBatchModeStart (tag : string) : DevOp Z
| HcommBatchModeEnd (tag : string) : DevOp Z
| HcommBatchTransferOnThread (thread channel : Z) (is_read : bool) (descs : list Copy) : DevOp Z
| HcommReadOnThread (thread channel : Z) (c : Copy) : DevOp Z
| HcommWriteOnThread (thread channel : Z) (c : Copy) : DevOp Z
| HcommChannelFenceOnThread (thread channel : Z) : DevOp Z
| HcommNotifyRecordOnThread (thread notify_id : Z) : DevOp Z
| load_op_list (addr n : Z) : DevOp (list HixlOneSideOpDesc)
| store_err_flag (va value : Z) : DevOp unit
| HcommRegisterCallback : DevOp Z
| HcommUnregisterCallback : DevOp Z
| submit_task_exception (notify_id : Z) : DevOp Z.

Abbreviation DevEnv := (Environment DevOp).
Abbreviation DevHistory := (History DevOp).
Abbreviation DevM := (M DevOp).

Definition kMaxBatchSize : Z := 8192.
Definition kBatchTag : string := "HixlKernel".

(** The direction of a copy: a read moves remote to local. *)
Definition copy_of (is_read : bool) (d : HixlOneSideOpDesc) : Copy :=
  if is_read then mkCopy (od_local_buf d) (od_remote_buf d) (od_len d)
  else mkCopy (od_remote_buf d) (od_local_buf d) (od_len d).

Section Kernel.
Context {codes : AclCodes} {env : DevEnv}.

(** HIXL_CHK_HCCL_RET on the device. *)
Definition CHK_HCCL_RET {S} (op : DevOp Z) : DevM S unit :=
  let* r := call op in
  if r =? HCCL_SUCCESS then ret tt else fail (ConvertHcommErrorToStatus r).

Definition WriteErrorFlag : DevM TransferContext unit :=
  let* c := get in
  if tc_err_flag_dev_va c =? 0 then ret tt else call (store_err_flag (tc_err_flag_dev_va c) 1).

(** The parameter is [None] when the kernel got a null pointer. *)
Definition ValidateBatchTransferParam {S} (param : option HixlOneSideOpParam)
    : DevM S HixlOneSideOpParam :=
  match param with
  | None => fail PARAM_INVALID
  | Some p =>
      require ((0 <? op_list_num p) && (op_list_num p <=? kMaxBatchSize)) PARAM_INVALID ;;
      require (negb (op_desc_list_addr p =? 0)) PARAM_INVALID ;;
      ret p
  end.

Definition TransferWithBatch {S} (is_read : bool) (p : HixlOneSideOpParam) : DevM S Z :=
  let* op_list := call (load_op_list (op_desc_list_addr p) (op_list_num p)) in
  call (HcommBatchTransferOnThread (op_thread p) (op_channel p) is_read (map (copy_of is_read) op_list)).

Definition TransferWithSingle {S} (is_read : bool) (p : HixlOneSideOpParam) : DevM S unit :=
  let* op_list := call (load_op_list (op_desc_list_addr p) (op_list_num p)) in
  for_each op_list (fun d =>
    CHK_HCCL_RET (if is_read then HcommReadOnThread (op_thread p) (op_channel p) (copy_of true d)
                  else HcommWriteOnThread (op_thread p) (op_channel p) (copy_of false d))).

Definition HixlBatchTransferTask {S} (is_read : bool) (p : HixlOneSideOpParam) : DevM S unit :=
  let* batch_ret := TransferWithBatch is_read p in
  if batch_ret =? HCCL_E_NOT_SUPPORT then TransferWithSingle is_read p
  else if batch_ret =? HCCL_SUCCESS then ret tt
  else fail (ConvertHcommErrorToStatus batch_ret).

Definition ReadRemoteFlag {S} (p : HixlOneSideOpParam) : DevM S unit :=
  CHK_HCCL_RET (HcommReadOnThread (op_thread p) (op_channel p)
                  (mkCopy (op_local_flag_addr p) (op_remote_flag_addr p) (op_flag_size p))).

Definition RecordRemoteNotify {S} (p : HixlOneSideOpParam) : DevM S unit :=
  CHK_HCCL_RET (HcommNotifyRecordOnThread (op_thread p) (op_notify_id p)).

Definition HandleRemoteFlag {S} (p : HixlOneSideOpParam) : DevM S unit :=
  if op_remote_flag_addr p =? 0 then ret tt
  else if op_use_notify_record p =? 0 then ReadRemoteFlag p else RecordRemoteNotify p.

(** The body of HixlBatchTransfer between the second state check and the
    release of the context's lock, with its two dismissable guards. *)
Definition transfer_locked (is_read : bool) (p : HixlOneSideOpParam) : DevM TransferContext unit :=
  on_fail
    (CHK_HCCL_RET (HcommBatchModeStart kBatchTag) ;;
     on_fail
       (HixlBatchTransferTask is_read p ;;
        modify (fun c => set_dispatched (u64 (dispatched_tasks c + op_list_num p)) c) ;;
        CHK_HCCL_RET (HcommChannelFenceOnThread (op_thread p) (op_channel p)) ;;
        HandleRemoteFlag p)
       (let* _ := call (HcommBatchModeEnd kBatchTag) in ret tt) ;;
     CHK_HCCL_RET (HcommBatchModeEnd kBatchTag))
    WriteErrorFlag.

(** HixlBatchTransfer from the acquisition of the lock on: the second check and
    the body. *)
Definition transfer_with_lock (is_read : bool) (p : HixlOneSideOpParam) : DevM TransferContext unit :=
  let* c := get in
  require (bool_decide (tc_state c = INITIALIZED)) FAILED ;;
  transfer_locked is_read p.
End Kernel.

(** * Reading a history of device calls *)

(** The copies that a successful call put on the thread. *)
Definition copies_of {codes : AclCodes} (e : Event DevOp) : list Copy :=
  match e with
  | Ev op r =>
      match op in DevOp T return T -> list Copy with
      | HcommBatchTransferOnThread _ _ _ descs => fun r => if r =? HCCL_SUCCESS then descs else []
      | HcommReadOnThread _ _ c => fun r => if r =? HCCL_SUCCESS then [c] else []
      | HcommWriteOnThread _ _ c => fun r => if r =? HCCL_SUCCESS then [c] else []
      | _ => fun _ => []
      end r
  end.

(** The copies of a stretch of history, in the order they were issued. *)
Fixpoint issued {codes : AclCodes} (h : DevHistory) : list Copy :=
  match h with [] => [] | e :: h' => issued h' ++ copies_of e end.

Definition is_flag_write (e : Event DevOp) : bool :=
  match e with Ev op _ => match op with store_err_flag _ _ => true | _ => false end end.
Definition is_batch_end (e : Event DevOp) : bool :=
  match e with Ev op _ => match op with HcommBatchModeEnd _ => true | _ => false end end.
Definition is_batch_start {codes : AclCodes} (e : Event DevOp) : bool :=
  match e with
  | Ev op r =>
      match op in DevOp T return T -> bool with
      | HcommBatchModeStart _ => fun r => r =? HCCL_SUCCESS
      | _ => fun _ => false
      end r
  end.

Definition count (f : Event DevOp -> bool) (h : DevHistory) : nat := length (List.filter f h).

(** The flag events that HandleRemoteFlag issues when it succeeds. *)
Definition flag_events {codes : AclCodes} (p : HixlOneSideOpParam) : DevHistory :=
  if op_remote_flag_addr p =? 0 then []
  else if op_use_notify_record p =? 0 then
    [Ev (HcommReadOnThread (op_thread p) (op_channel p)
           (mkCopy (op_local_flag_addr p) (op_remote_flag_addr p) (op_flag_size p))) HCCL_SUCCESS]
  else [Ev (HcommNotifyRecordOnThread (op_thread p) (op_notify_id p)) HCCL_SUCCESS].

Section Kernel_proofs.
Context {codes : AclCodes} {env : DevEnv}.
Hypothesis success_is_not_unsupported : HCCL_SUCCESS <> HCCL_E_NOT_SUPPORT.

Lemma wp_CHK_HCCL_RET {S} (op : DevOp Z) Q (s : S) h :
  (forall r, r = HCCL_SUCCESS -> Q (inr tt) s (Ev op r :: h)) ->
  (forall r e, r <> HCCL_SUCCESS -> Q (inl e) s (Ev op r :: h)) ->
  wp (CHK_HCCL_RET op) Q s h.
Proof.
  intros H1 H2. apply wp_bind, wp_call. intros r _.
  destruct (Z.eqb_spec r HCCL_SUCCESS); [apply wp_ret | apply wp_fail]; auto.
Qed.

(** ** The calls of a successful transfer *)

Lemma issued_app h1 h2 : issued (h1 ++ h2) = issued h2 ++ issued h1.
Proof. induction h1 as [|e h1 IH]; simpl; [by rewrite app_nil_r|]. by rewrite IH, app_assoc. Qed.

Lemma wp_singles {S} (is_read : bool) (p : HixlOneSideOpParam) (l : list HixlOneSideOpDesc) (s : S) h :
  wp (for_each l (fun d =>
      CHK_HCCL_RET (if is_read then HcommReadOnThread (op_thread p) (op_channel p) (copy_of true d)
                    else HcommWriteOnThread (op_thread p) (op_channel p) (copy_of false d))))
    (fun o s' h' => match o with
       | inr _ => s' = s /\ exists t, h' = t ++ h /\ issued t = map (copy_of is_read) l
       | inl _ => True end) s h.
Proof.
  revert h. induction l as [|d l IH]; intros h; simpl; [apply wp_ret; split; [done|]; by exists []|].
  apply wp_bind, wp_CHK_HCCL_RET; [|done]. intros r ->.
  eapply wp_mono; [apply IH|]. intros [e|[]] s' h'; [done|]. intros (-> & t & -> & Ht).
  split; [done|]. eexists (t ++ [_]). split; [by rewrite <- app_assoc|].
  rewrite issued_app, Ht. destruct is_read; simpl; by rewrite Z.eqb_refl.
Qed.

Lemma wp_HixlBatchTransferTask {S} (is_read : bool) (p : HixlOneSideOpParam) (s : S) h :
  wp (HixlBatchTransferTask is_read p)
    (fun o s' h' => match o with
       | inr _ => s' = s /\ exists t l, h' = t ++ h /\ issued t = map (copy_of is_read) l /\
            Ev (load_op_list (op_desc_list_addr p) (op_list_num p)) l ∈ t
       | inl _ => True end) s h.
Proof.
  unfold HixlBatchTransferTask, TransferWithBatch. apply wp_bind, wp_bind, wp_call. intros l _.
  apply wp_call. intros r _. destruct (Z.eqb_spec r HCCL_E_NOT_SUPPORT) as [->|].
  - unfold TransferWithSingle. apply wp_bind, wp_call. intros l' _.
    eapply wp_mono; [apply wp_singles|]. intros [e|[]] s' h'; [done|]. intros (-> & t & -> & Ht).
    split; [done|]. eexists (t ++ [_; _; _]), l'. split; [by rewrite <- app_assoc|]. split.
    + rewrite issued_app. simpl. rewrite Ht.
      destruct (Z.eqb_spec HCCL_E_NOT_SUPPORT HCCL_SUCCESS); [congruence|done].
    + apply elem_of_app. right. by left.
  - destruct (Z.eqb_spec r HCCL_SUCCESS) as [->|]; [|by apply wp_fail].
    apply wp_ret. split; [done|]. eexists [_; _], l. split; [done|]. simpl. rewrite Z.eqb_refl.
    split; [done|]. right. by left.
Qed.

(** A successful kernel issues, between the two ends of one batch, exactly the
    copies of the descriptor list, then the fence, then the completion flag. *)
Lemma wp_transfer_locked_success (is_read : bool) (p : HixlOneSideOpParam) c h :
  wp (transfer_locked is_read p)
    (fun o c' h' => match o with
       | inr _ => c' = set_dispatched (u64 (dispatched_tasks c + op_list_num p)) c /\
           exists t l,
             h' = Ev (HcommBatchModeEnd kBatchTag) HCCL_SUCCESS :: flag_events p
                  ++ Ev (HcommChannelFenceOnThread (op_thread p) (op_channel p)) HCCL_SUCCESS :: t
                  ++ Ev (HcommBatchModeStart kBatchTag) HCCL_SUCCESS :: h /\
             issued t = map (copy_of is_read) l /\
             Ev (load_op_list (op_desc_list_addr p) (op_list_num p)) l ∈ t
       | inl _ => True end) c h.
Proof.
  unfold transfer_locked. apply wp_on_fail.
  apply wp_mono with (P := fun o c' h' => match o with
    | inr a => c' = set_dispatched (u64 (dispatched_tasks c + op_list_num p)) c /\ exists t l,
             h' = Ev (HcommBatchModeEnd kBatchTag) HCCL_SUCCESS :: flag_events p
                  ++ Ev (HcommChannelFenceOnThread (op_thread p) (op_channel p)) HCCL_SUCCESS :: t
                  ++ Ev (HcommBatchModeStart kBatchTag) HCCL_SUCCESS :: h /\
             issued t = map (copy_of is_read) l /\
             Ev (load_op_list (op_desc_list_addr p) (op_list_num p)) l ∈ t
    | inl e => True end).
  - apply wp_bind, wp_CHK_HCCL_RET; [|done]. intros r ->. apply wp_bind, wp_on_fail.
    apply wp_bind. eapply wp_mono; [apply wp_HixlBatchTransferTask|].
    intros [e|[]] c1 h1.
    { intros _. apply wp_bind, wp_call. intros r _. by apply wp_ret. }
    intros (-> & t & l & -> & Ht & Hl). apply wp_bind, wp_modify, wp_bind, wp_CHK_HCCL_RET.
    2: { intros r e _. apply wp_bind, wp_call. intros r' _. by apply wp_ret. }
    intros r ->. unfold HandleRemoteFlag, ReadRemoteFlag, RecordRemoteNotify, flag_events.
    destruct (op_remote_flag_addr p =? 0); [|destruct (op_use_notify_record p =? 0)].
    + apply wp_ret, wp_CHK_HCCL_RET; [|done]. intros r ->. split; [done|]. by exists t, l.
    + apply wp_CHK_HCCL_RET.
      2: { intros r e _. apply wp_bind, wp_call. intros r' _. by apply wp_ret. }
      intros r ->. apply wp_CHK_HCCL_RET; [|done]. intros r ->. split; [done|]. by exists t, l.
    + apply wp_CHK_HCCL_RET.
      2: { intros r e _. apply wp_bind, wp_call. intros r' _. by apply wp_ret. }
      intros r ->. apply wp_CHK_HCCL_RET; [|done]. intros r ->. split; [done|]. by exists t, l.
  - intros [e|[]] c' h' H; [|done].
    unfold WriteErrorFlag. apply wp_bind, wp_get. case_match; [by apply wp_ret|]. by apply wp_call.
Qed.

(** ** Brackets and error flags on every path *)
Definition marks (h : DevHistory) : nat * nat * nat :=
  (count is_batch_start h, count is_batch_end h, count is_flag_write h).

(** A computation that neither opens nor closes a batch nor writes a flag, and
    keeps all of the context but the task count. *)
Definition same_context (c c' : TransferContext) : Prop :=
  spin_lock c' = spin_lock c /\ tc_state c' = tc_state c /\
  tc_notify_id c' = tc_notify_id c /\ tc_err_flag_dev_va c' = tc_err_flag_dev_va c.

Definition quiet {A} (m : DevM TransferContext A) : Prop :=
  forall c h, wp m (fun _ c' h' => marks h' = marks h /\ same_context c c') c h.

Lemma quiet_bind {A B} (m : DevM TransferContext A) (k : A -> DevM TransferContext B) :
  quiet m -> (forall a, quiet (k a)) -> quiet (bind m k).
Proof.
  intros Hm Hk c h. apply wp_bind. eapply wp_mono; [apply Hm|].
  intros [e|a] c1 h1 [Hq Hc]; [done|]. eapply wp_mono; [apply Hk|].
  intros o c2 h2 [Hq2 Hc2]. split; [congruence|]. unfold same_context in *. intuition congruence.
Qed.

Lemma quiet_call {T} (op : DevOp T) :
  (forall r, is_batch_start (Ev op r) = false) -> is_batch_end (Ev op (reply_of T op [])) = false ->
  is_flag_write (Ev op (reply_of T op [])) = false -> quiet (call op).
Proof.
  intros H1 H2 H3 c h. apply wp_call. intros r _. split; [|done].
  unfold marks, count. destruct op; simpl in *; try done. by rewrite H1.
Qed.

Lemma quiet_ret {A} (a : A) : quiet (ret a).
Proof. intros c h. by apply wp_ret. Qed.

Lemma quiet_fail {A} e : quiet (fail e : DevM TransferContext A).
Proof. intros c h. by apply wp_fail. Qed.

Lemma quiet_CHK (op : DevOp Z) : quiet (call op) -> quiet (CHK_HCCL_RET op).
Proof.
  intros H. apply quiet_bind; [done|]. intros r. destruct (_ =? _); [apply quiet_ret | apply quiet_fail].
Qed.

Lemma quiet_for_each {A} (l : list A) (m : A -> DevM TransferContext unit) :
  (forall a, quiet (m a)) -> quiet (for_each l m).
Proof. intros H. induction l as [|a l IH]; simpl; [apply quiet_ret|]. apply quiet_bind; auto. Qed.

Lemma quiet_task is_read p : quiet (HixlBatchTransferTask is_read p).
Proof.
  unfold HixlBatchTransferTask, TransferWithBatch, TransferWithSingle.
  apply quiet_bind; [apply quiet_bind; [|intros l]; by apply quiet_call|]. intros r.
  destruct (_ =? HCCL_E_NOT_SUPPORT).
  - apply quiet_bind; [by apply quiet_call|]. intros l. apply quiet_for_each. intros d.
    destruct is_read; by apply quiet_CHK, quiet_call.
  - destruct (_ =? _); [apply quiet_ret | apply quiet_fail].
Qed.

Lemma quiet_flag p : quiet (HandleRemoteFlag p).
Proof.
  unfold HandleRemoteFlag, ReadRemoteFlag, RecordRemoteNotify.
  destruct (_ =? 0); [apply quiet_ret|]. destruct (_ =? 0); by apply quiet_CHK, quiet_call.
Qed.

Lemma quiet_inside is_read p :
  quiet (HixlBatchTransferTask is_read p ;;
         modify (fun c => set_dispatched (u64 (dispatched_tasks c + op_list_num p)) c) ;;
         CHK_HCCL_RET (HcommChannelFenceOnThread (op_thread p) (op_channel p)) ;;
         HandleRemoteFlag p).
Proof.
  apply quiet_bind; [apply quiet_task|intros _]. apply quiet_bind; [intros c h; by apply wp_modify|intros _].
  apply quiet_bind; [by apply quiet_CHK, quiet_call|intros _]. apply quiet_flag.
Qed.

(** The marks that the body leaves before the error flag is written. *)
Lemma wp_bracket is_read p c h :
  wp (CHK_HCCL_RET (HcommBatchModeStart kBatchTag) ;;
      on_fail (HixlBatchTransferTask is_read p ;;
         modify (fun c => set_dispatched (u64 (dispatched_tasks c + op_list_num p)) c) ;;
         CHK_HCCL_RET (HcommChannelFenceOnThread (op_thread p) (op_channel p)) ;;
         HandleRemoteFlag p)
       (let* _ := call (HcommBatchModeEnd kBatchTag) in ret tt) ;;
      CHK_HCCL_RET (HcommBatchModeEnd kBatchTag))
   (fun _ c' h' => same_context c c' /\ count is_flag_write h' = count is_flag_write h /\
      (count is_batch_start h' + count is_batch_end h = count is_batch_start h + count is_batch_end h')%nat)
   c h.
Proof.
  apply wp_bind, wp_CHK_HCCL_RET.
  - intros r ->. apply wp_bind, wp_on_fail. eapply wp_mono; [apply quiet_inside|].
    intros [e|[]] c1 h1 [Hm Hc]; unfold marks, count in Hm; simpl in Hm; rewrite Z.eqb_refl in Hm;
      simpl in Hm; injection Hm as H1 H2 H3.
    + apply wp_bind, wp_call. intros r _. apply wp_ret. unfold count. simpl. split; [done|]. lia.
    + apply wp_CHK_HCCL_RET; intros; unfold count; simpl; (split; [done|]; lia).
  - intros r e Hr. unfold count. simpl. rewrite (proj2 (Z.eqb_neq _ _) Hr). split; [done|]. lia.
Qed.

Lemma wp_transfer_locked_marks is_read p c h :
  wp (transfer_locked is_read p)
    (fun o c' h' => same_context c c' /\
      (count is_batch_start h' + count is_batch_end h = count is_batch_start h + count is_batch_end h')%nat /\
      match o with
      | inr _ => count is_flag_write h' = count is_flag_write h
      | inl _ => if tc_err_flag_dev_va c =? 0 then count is_flag_write h' = count is_flag_write h
                 else exists h'', h' = Ev (store_err_flag (tc_err_flag_dev_va c) 1) tt :: h'' /\
                        count is_flag_write h'' = count is_flag_write h
      end) c h.
Proof.
  unfold transfer_locked. apply wp_on_fail. eapply wp_mono; [apply wp_bracket|].
  intros [e|[]] c1 h1 (Hc & Hf & Hb); [|done].
  unfold WriteErrorFlag. apply wp_bind, wp_get. pose proof Hc as (_ & _ & _ & ->).
  destruct (_ =? 0) eqn:E; [by apply wp_ret|]. apply wp_call. intros [] _.
  split; [done|]. split; [exact Hb|]. by exists h1.
Qed.
End Kernel_proofs.

(** * Theorems *)
Section Kernel_theorems.
Context {codes : AclCodes} {env : DevEnv}.


(** C33: Every batch transfer closes the batch mode as often as it opened it, and a
    transfer that fails after the context was found usable writes the error flag
    of the context, as its last action and only once (a context without a flag
    address writes none); a transfer that succeeds, and one refused because the
    context is going away, writes none. *)
Theorem HixlBatchTransfer_error_flag is_read p c h o c' h' :
  transfer_with_lock is_read p c h = (o, c', h') ->
  (count is_batch_start h' + count is_batch_end h = count is_batch_start h + count is_batch_end h')%nat /\
  same_context c c' /\
  match o with
  | Ret _ => count is_flag_write h' = count is_flag_write h
  | Fail_ e =>
      if decide (tc_state c = INITIALIZED /\ tc_err_flag_dev_va c <> 0) then
        exists h'', h' = Ev (store_err_flag (tc_err_flag_dev_va c) 1) tt :: h'' /\
          count is_flag_write h'' = count is_flag_write h
      else count is_flag_write h' = count is_flag_write h
  | Stuck => False
  end.
Proof.
  intros Hrun. unfold transfer_with_lock, bind, get, require in Hrun.
  case_bool_decide as Hst; simpl in Hrun.
  - pose proof (wp_transfer_locked_marks is_read p c h) as Hw. unfold wp in Hw. rewrite Hrun in Hw.
    destruct o as [[]|e|]; [| |done]; destruct Hw as (H1 & H2 & H3); (split; [done|]); (split; [done|]);
      [done|].
    destruct (Z.eqb_spec (tc_err_flag_dev_va c) 0) as [E|E]; [rewrite decide_False; tauto|].
    by rewrite decide_True.
  - injection Hrun as <- <- <-. split; [done|]. split; [done|]. by rewrite decide_False by tauto.
Qed.
End Kernel_theorems.

(** A device that accepts every call, except that the fence answers [fence]. *)
Definition ref_dev_reply (fence : Z) (T : Type) (op : DevOp T) (h : DevHistory) : T :=
  match op in DevOp T return T with
  | load_op_list _ n => replicate (Z.to_nat n) (mkOpDesc 4096 8192 64)
  | store_err_flag _ _ => tt
  | HcommChannelFenceOnThread _ _ => fence
  | _ => 0
  end.
Definition ref_dev (fence : Z) : DevEnv := ref_dev_reply fence.
Definition ref_param : HixlOneSideOpParam := mkOpParam 7 3 2 8 4096 64 128 5 0.
Definition ref_context : TransferContext := mkTransferContext true INITIALIZED 5 512 0.


Lemma HixlBatchTransfer_error_flag_witness :
  exists o c' h', transfer_with_lock (env := ref_dev 1) true ref_param ref_context [] = (o, c', h') /\
    (count is_batch_start h' + count is_batch_end [] = count is_batch_start [] + count is_batch_end h')%nat.
Proof.
  eexists _, _, _. split; [vm_compute; reflexivity|].
  eapply (HixlBatchTransfer_error_flag (env := ref_dev 1) true ref_param ref_context []);
    vm_compute; reflexivity.
Defined.
