(* ===== verification/TransferContexts.v ===== *)
(** The transfer contexts of the device process
    (ops/hixl_kernel/transfer_context_manager.cc, hixl_sync_transfer_context.cc,
    task_exception_handler.cc, and the locking of hixl_batch_transfer.cc).

    Contexts are shared objects: the manager's map holds references to them and a
    running kernel keeps its own reference after the map entry is erased, so they
    live in a heap of objects.  The file has the manager's operations as functions
    on that heap, the synchronisation kernel as their sequential composition, and
    an interleaving semantics of kernels, synchronisations and exception callbacks
    at the granularity of the atomic operations and lock acquisitions. *)

From S2P Require Import Prelude Effects Runtime RtReference DeviceKernel TransferPool.

(** * The manager *)
Record Manager := mkManager {
  objs : list TransferContext;
  contexts_ : gmap Z nat;
  callback_registered_ : bool
}.
Definition empty_manager : Manager := mkManager [] ∅ false.

Definition set_objs l m := mkManager l (contexts_ m) (callback_registered_ m).
Definition set_contexts c m := mkManager (objs m) c (callback_registered_ m).
Definition set_callback b m := mkManager (objs m) (contexts_ m) b.

(** Update the object [o]. *)
Definition upd_obj (o : nat) (f : TransferContext -> TransferContext) (m : Manager) : Manager :=
  set_objs (alter f o (objs m)) m.

Definition TransferContextManager_Get (t : Z) (m : Manager) : option nat := contexts_ m !! t.

(** The part of Add under the manager's mutex; returns the object. *)
Definition add_locked (t notify_id err_flag_dev_va : Z) (m : Manager) : nat * Manager :=
  let init c := mkTransferContext (spin_lock c) INITIALIZED notify_id err_flag_dev_va 0 in
  match contexts_ m !! t with
  | Some o => (o, upd_obj o init m)
  | None =>
      let o := length (objs m) in
      (o, mkManager (objs m ++ [init fresh_context]) (<[t := o]> (contexts_ m)) (callback_registered_ m))
  end.

(** EnableExceptionCallback and DisableExceptionCallback, given whether the HCOMM
    call succeeds. *)
Definition EnableExceptionCallback (register_ok : bool) (m : Manager) : Manager :=
  if callback_registered_ m then m else if register_ok then set_callback true m else m.
Definition DisableExceptionCallback (unregister_ok : bool) (m : Manager) : Manager :=
  if negb (callback_registered_ m) then m else if unregister_ok then set_callback false m else m.

(** The three parts of Delete under the manager's mutex: mark the context, try its
    lock, and erase it. *)
Definition delete_mark (o : nat) (m : Manager) : Manager := upd_obj o (SetState DELETING) m.
Definition obj_locked (o : nat) (m : Manager) : bool :=
  match objs m !! o with Some c => spin_lock c | None => true end.
Definition delete_finish (t : Z) (o : nat) (m : Manager) : Manager :=
  set_contexts (delete t (contexts_ m)) (upd_obj o (fun c => set_spin_lock false (SetState DELETED c)) m).
Definition obj_dispatched (o : nat) (m : Manager) : Z :=
  match objs m !! o with Some c => dispatched_tasks c | None => 0 end.

Definition state_code (s : ThreadState) : Z :=
  match s with
  | INITIALIZED => TRANSFER_THREAD_STATE_INITIALIZED
  | DELETING => TRANSFER_THREAD_STATE_DELETING
  | DELETED => TRANSFER_THREAD_STATE_DELETED
  end.

Definition TransferContextManager_Add (register_ok : bool) (t notify_id err_flag_dev_va : Z)
    (m : Manager) : ThreadState * Manager :=
  let '(_, m') := add_locked t notify_id err_flag_dev_va m in
  (INITIALIZED, EnableExceptionCallback register_ok m').

(** The state, the number written to [*out_dispatched] when it was written, and
    the manager. *)
Definition TransferContextManager_Delete (unregister_ok : bool) (t : Z) (m : Manager)
    : ThreadState * option Z * Manager :=
  match contexts_ m !! t with
  | None => (DELETED, None, m)
  | Some o =>
      let m1 := delete_mark o m in
      if obj_locked o m1 then (DELETING, None, m1)
      else
        let n := obj_dispatched o m1 in
        let m2 := delete_finish t o m1 in
        (DELETED, Some n,
         if bool_decide (contexts_ m2 = ∅) then DisableExceptionCallback unregister_ok m2 else m2)
  end.

(** * hixl_sync_transfer_context.cc *)
Definition ValidateSyncTransferContextParam (param : option HixlTransferContextSyncParam) : Status :=
  match param with
  | None => PARAM_INVALID
  | Some p =>
      if negb (sp_version p =? kHixlSyncParamVersion) then PARAM_INVALID
      else if negb (0 <? sp_entry_num p) then PARAM_INVALID
      else if sp_entry_list_addr p =? 0 then PARAM_INVALID
      else if sp_state_list_addr p =? 0 then PARAM_INVALID
      else SUCCESS
  end.

Definition set_se_dispatched n (e : HixlTransferContextSyncEntry) : HixlTransferContextSyncEntry :=
  mkSyncEntry (se_thread e) (se_op e) (se_notify_id e) (se_err_flag_dev_va e) n.

(** The loop over the entries: the entries and the states that it leaves in device
    memory (the states not reached keep their value). *)
Fixpoint sync_entries (cb_ok : bool) (entries : list HixlTransferContextSyncEntry) (states : list Z)
    (m : Manager) : Status * list HixlTransferContextSyncEntry * list Z * Manager :=
  match entries, states with
  | e :: entries', s :: states' =>
      if se_op e =? TRANSFER_CONTEXT_OP_ADD then
        let '(st, m1) := TransferContextManager_Add cb_ok (se_thread e) (se_notify_id e) (se_err_flag_dev_va e) m in
        let '(r, es, ss, m2) := sync_entries cb_ok entries' states' m1 in
        (r, e :: es, state_code st :: ss, m2)
      else if se_op e =? TRANSFER_CONTEXT_OP_DELETE then
        let '(st, d, m1) := TransferContextManager_Delete cb_ok (se_thread e) m in
        let '(r, es, ss, m2) := sync_entries cb_ok entries' states' m1 in
        (r, set_se_dispatched (default 0 d) e :: es, state_code st :: ss, m2)
      else (PARAM_INVALID, e :: entries', s :: states', m)
  | _, _ => (SUCCESS, entries, states, m)
  end.

Definition HixlSyncTransferContext (cb_ok : bool) (param : option HixlTransferContextSyncParam)
    (entries : list HixlTransferContextSyncEntry) (states : list Z) (m : Manager)
    : Status * list HixlTransferContextSyncEntry * list Z * Manager :=
  if ValidateSyncTransferContextParam param =? SUCCESS then
    let '(r, es, ss, m') := sync_entries cb_ok entries states m in
    (if r =? SUCCESS then SUCCESS else FAILED, es, ss, m')
  else (FAILED, entries, states, m).

(** * Interleavings *)

(** Where an agent (a kernel, a synchronisation entry or an exception callback)
    is.  [o] is the context object it refers to. *)
Inductive Agent :=
| AIdle
| TGot (is_read : bool) (p : HixlOneSideOpParam) (o : nat)
| TWait (is_read : bool) (p : HixlOneSideOpParam) (o : nat)
| TLocked (is_read : bool) (p : HixlOneSideOpParam) (o : nat)
| TRun (is_read : bool) (p : HixlOneSideOpParam) (o : nat)
| TUnlock (o : nat)
| AEnable
| DMarked (t : Z) (o : nat)
| DLocked (t : Z) (o : nat)
| DDisable
| ECall (o : nat)
| ELocked (o : nat)
| ENotify (notify_id : Z).

(** What the rest of the system can observe of the contexts. *)
Inductive KEvent :=
| KAdded (t : Z) (o : nat)
| KRun (o : nat)
| KFlag (o : nat)
| KDeleted (t : Z) (o : nat).

Record KState := mkKState {
  mgr : Manager;
  mutex_ : option nat;
  agents : list Agent;
  klog : list KEvent;
  khist : DevHistory
}.

Definition goto (i : nat) (a : Agent) (m : Manager) (mx : option nat) (l : list KEvent)
    (h : DevHistory) (s : KState) : KState :=
  mkKState m mx (<[i := a]> (agents s)) l h.

Section Interleaving.
Context {codes : AclCodes} {env : DevEnv}.

Inductive kstep : KState -> KState -> Prop :=
(** HixlBatchTransfer: the parameter check and Get *)
| k_get i is_read p o s :
    agents s !! i = Some AIdle -> mutex_ s = None ->
    0 < op_list_num p <= kMaxBatchSize -> op_desc_list_addr p <> 0 ->
    contexts_ (mgr s) !! op_thread p = Some o ->
    kstep s (goto i (TGot is_read p o) (mgr s) None (klog s) (khist s) s)
(** the first state check *)
| k_check i is_read p o c s :
    agents s !! i = Some (TGot is_read p o) -> objs (mgr s) !! o = Some c ->
    kstep s (goto i (if bool_decide (tc_state c = INITIALIZED) then TWait is_read p o else AIdle)
               (mgr s) (mutex_ s) (klog s) (khist s) s)
(** test_and_set finds the flag clear; while it is set the agent spins *)
| k_lock i is_read p o c s :
    agents s !! i = Some (TWait is_read p o) -> objs (mgr s) !! o = Some c -> spin_lock c = false ->
    kstep s (goto i (TLocked is_read p o) (upd_obj o (set_spin_lock true) (mgr s)) (mutex_ s)
               (klog s) (khist s) s)
(** the second state check *)
| k_recheck i is_read p o c s :
    agents s !! i = Some (TLocked is_read p o) -> objs (mgr s) !! o = Some c ->
    kstep s (goto i (if bool_decide (tc_state c = INITIALIZED) then TRun is_read p o else TUnlock o)
               (mgr s) (mutex_ s) (klog s) (khist s) s)
(** the transfer itself *)
| k_run i is_read p o c r c' h' s :
    agents s !! i = Some (TRun is_read p o) -> objs (mgr s) !! o = Some c ->
    transfer_locked is_read p c (khist s) = (r, c', h') ->
    kstep s (goto i (TUnlock o) (upd_obj o (fun _ => c') (mgr s)) (mutex_ s) (KRun o :: klog s) h' s)
| k_unlock i o s :
    agents s !! i = Some (TUnlock o) ->
    kstep s (goto i AIdle (upd_obj o (set_spin_lock false) (mgr s)) (mutex_ s) (klog s) (khist s) s)
(** Add *)
| k_add i t n va o m' s :
    agents s !! i = Some AIdle -> mutex_ s = None -> add_locked t n va (mgr s) = (o, m') ->
    kstep s (goto i AEnable m' None (KAdded t o :: klog s) (khist s) s)
| k_enable i ok s :
    agents s !! i = Some AEnable ->
    kstep s (goto i AIdle (EnableExceptionCallback ok (mgr s)) (mutex_ s) (klog s) (khist s) s)
(** Delete *)
| k_delete i t o s :
    agents s !! i = Some AIdle -> mutex_ s = None -> contexts_ (mgr s) !! t = Some o ->
    kstep s (goto i (DMarked t o) (delete_mark o (mgr s)) (Some i) (klog s) (khist s) s)
| k_delete_busy i t o s :
    agents s !! i = Some (DMarked t o) -> obj_locked o (mgr s) = true ->
    kstep s (goto i AIdle (mgr s) None (klog s) (khist s) s)
| k_delete_lock i t o s :
    agents s !! i = Some (DMarked t o) -> obj_locked o (mgr s) = false ->
    kstep s (goto i (DLocked t o) (upd_obj o (set_spin_lock true) (mgr s)) (mutex_ s) (klog s) (khist s) s)
| k_delete_finish i t o s :
    agents s !! i = Some (DLocked t o) ->
    let m' := delete_finish t o (mgr s) in
    kstep s (goto i (if bool_decide (contexts_ m' = ∅) then DDisable else AIdle) m' None
               (KDeleted t o :: klog s) (khist s) s)
| k_disable i ok s :
    agents s !! i = Some DDisable ->
    kstep s (goto i AIdle (DisableExceptionCallback ok (mgr s)) (mutex_ s) (klog s) (khist s) s)
(** HixlTaskExceptionCallback *)
| k_exception i t o s :
    agents s !! i = Some AIdle -> mutex_ s = None -> contexts_ (mgr s) !! t = Some o ->
    kstep s (goto i (ECall o) (mgr s) None (klog s) (khist s) s)
| k_exception_lock i o c s :
    agents s !! i = Some (ECall o) -> objs (mgr s) !! o = Some c -> spin_lock c = false ->
    kstep s (goto i (ELocked o) (upd_obj o (set_spin_lock true) (mgr s)) (mutex_ s) (klog s) (khist s) s)
| k_exception_skip i o c s :
    agents s !! i = Some (ELocked o) -> objs (mgr s) !! o = Some c -> tc_state c <> INITIALIZED ->
    kstep s (goto i AIdle (upd_obj o (set_spin_lock false) (mgr s)) (mutex_ s) (klog s) (khist s) s)
| k_exception_flag i o c r c' h' s :
    agents s !! i = Some (ELocked o) -> objs (mgr s) !! o = Some c -> tc_state c = INITIALIZED ->
    WriteErrorFlag c (khist s) = (r, c', h') ->
    kstep s (goto i (ENotify (tc_notify_id c)) (upd_obj o (set_spin_lock false) (mgr s)) (mutex_ s)
               (KFlag o :: klog s) h' s)
| k_exception_notify i n r s :
    agents s !! i = Some (ENotify n) -> r = reply_of Z (submit_task_exception n) (khist s) ->
    kstep s (goto i AIdle (mgr s) (mutex_ s) (klog s) (Ev (submit_task_exception n) r :: khist s) s).

Definition kinit (n : nat) : KState := mkKState empty_manager None (replicate n AIdle) [] [].
Definition kreachable (n : nat) (s : KState) : Prop := rtc kstep (kinit n) s.
End Interleaving.

(** * The invariant of the interleavings *)
Definition locked (m : Manager) (o : nat) : Prop :=
  exists c, objs m !! o = Some c /\ spin_lock c = true.
Definition alive (m : Manager) (o : nat) : Prop :=
  exists c, objs m !! o = Some c /\ tc_state c <> DELETED.
Definition dead (m : Manager) (o : nat) : Prop :=
  exists c, objs m !! o = Some c /\ tc_state c = DELETED.

(** The context whose lock the agent holds. *)
Definition holds (a : Agent) : option nat :=
  match a with
  | TLocked _ _ o | TRun _ _ o | TUnlock o | DLocked _ o | ELocked o => Some o
  | _ => None
  end.

Definition agent_ok (m : Manager) (mx : option nat) (i : nat) (a : Agent) : Prop :=
  match a with
  | TLocked _ _ o | TUnlock o | ELocked o => locked m o
  | TRun _ _ o => locked m o /\ alive m o
  | DMarked t o => mx = Some i /\ contexts_ m !! t = Some o
  | DLocked t o => mx = Some i /\ contexts_ m !! t = Some o /\ locked m o
  | _ => True
  end.

Record contexts_ok (m : Manager) : Prop := {
  co_alive : forall t o, contexts_ m !! t = Some o -> alive m o;
  co_inj : forall t1 t2 o, contexts_ m !! t1 = Some o -> contexts_ m !! t2 = Some o -> t1 = t2
}.

(** No transfer runs on a context after its deletion (the log has the newest
    event first). *)
Fixpoint fenced (l : list KEvent) : Prop :=
  match l with
  | [] => True
  | e :: l' =>
      match e with
      | KRun o | KFlag o => forall t, KDeleted t o ∉ l'
      | _ => True
      end /\ fenced l'
  end.

Record kinv (s : KState) : Prop := {
  ki_contexts : contexts_ok (mgr s);
  ki_agents : forall i a, agents s !! i = Some a -> agent_ok (mgr s) (mutex_ s) i a;
  ki_excl : forall i j a b o, agents s !! i = Some a -> agents s !! j = Some b ->
    holds a = Some o -> holds b = Some o -> i = j;
  ki_dead : forall t o, KDeleted t o ∈ klog s -> dead (mgr s) o;
  ki_fenced : fenced (klog s)
}.

Lemma agent_holds m mx i a o : agent_ok m mx i a -> holds a = Some o -> locked m o.
Proof. destruct a; simpl; intros H Ho; simplify_eq; naive_solver. Qed.

(** An agent is not disturbed by a step that keeps the lock it holds, the life of
    that context, and the mutex if it has it. *)
Lemma agent_ok_frame m m' mx mx' j b :
  agent_ok m mx j b ->
  (forall o, holds b = Some o -> locked m o -> locked m' o) ->
  (forall o, holds b = Some o -> locked m o -> alive m o -> alive m' o) ->
  (mx = Some j -> mx' = Some j /\ contexts_ m' = contexts_ m) ->
  agent_ok m' mx' j b.
Proof.
  intros Hok Hl Hal Hmx. destruct b; simpl in *; auto.
  - destruct Hok. auto.
  - destruct Hok as [H1 H2]. destruct (Hmx H1) as [-> ->]. auto.
  - destruct Hok as (H1 & H2 & H3). destruct (Hmx H1) as [-> ->]. auto.
Qed.

(** One agent moves: what has to be checked. *)
Lemma kinv_goto s i a a' m' mx' l' h' :
  kinv s -> agents s !! i = Some a ->
  contexts_ok m' -> agent_ok m' mx' i a' ->
  (forall o, holds a <> Some o -> locked (mgr s) o -> locked m' o) ->
  (forall o, holds a <> Some o -> locked (mgr s) o -> alive (mgr s) o -> alive m' o) ->
  (forall j, j <> i -> mutex_ s = Some j -> mx' = Some j /\ contexts_ m' = contexts_ (mgr s)) ->
  (forall o, holds a' = Some o -> holds a = Some o \/ ~ locked (mgr s) o) ->
  (forall o, dead (mgr s) o -> dead m' o) ->
  (forall t o, KDeleted t o ∈ l' -> KDeleted t o ∈ klog s \/ dead m' o) -> fenced l' ->
  kinv (goto i a' m' mx' l' h' s).
Proof.
  intros Hk Ha Hc Ha' Hl Hal Hmx Hh Hd Hlog Hf.
  assert (Hi : (i < length (agents s))%nat) by (by eapply lookup_lt_Some).
  assert (Hother : forall j b o, j <> i -> agents s !! j = Some b -> holds b = Some o -> holds a <> Some o).
  { intros j b o Hne Hb Hbo Hao. apply Hne. by eapply (ki_excl _ Hk). }
  split; simpl.
  - done.
  - intros j b Hj. destruct (decide (i = j)) as [->|Hne].
    + rewrite list_lookup_insert_eq in Hj by done. by simplify_eq.
    + rewrite list_lookup_insert_ne in Hj by done.
      assert (Hne' : j <> i) by done. pose proof (fun o => Hother j b o Hne' Hj) as Ho.
      eapply agent_ok_frame; [by apply (ki_agents _ Hk)|..]; auto.
  - intros j k b d o Hj Hk' Hb Hd'.
    destruct (decide (i = j)) as [->|Hne1], (decide (j = k)) as [->|Hne2]; try done.
    + rewrite list_lookup_insert_eq in Hj by done. rewrite list_lookup_insert_ne in Hk' by done.
      simplify_eq. destruct (Hh o Hb) as [Hao|Hnl]; [by eapply (ki_excl _ Hk)|].
      exfalso. apply Hnl. eapply agent_holds; [|done]. by apply (ki_agents _ Hk).
    + rewrite list_lookup_insert_ne in Hj by done. destruct (decide (i = k)) as [->|Hne3].
      * rewrite list_lookup_insert_eq in Hk' by done. simplify_eq.
        destruct (Hh o Hd') as [Hao|Hnl]; [by eapply (ki_excl _ Hk)|].
        exfalso. apply Hnl. eapply agent_holds; [|exact Hb]. by apply (ki_agents _ Hk).
      * rewrite list_lookup_insert_ne in Hk' by done. by eapply (ki_excl _ Hk).
  - intros t o [H|H]%Hlog; [|done]. apply Hd. by eapply (ki_dead _ Hk).
  - done.
Qed.

(** ** Updates of one object *)
Lemma upd_obj_lookup o f m o' :
  objs (upd_obj o f m) !! o' = if decide (o = o') then f <$> objs m !! o else objs m !! o'.
Proof.
  simpl. case_decide as E; [subst; apply list_lookup_alter_eq | by apply list_lookup_alter_ne].
Qed.

Section Obj.
Context (m : Manager) (o : nat) (f : TransferContext -> TransferContext).

Lemma locked_upd_other o' : o <> o' -> locked m o' -> locked (upd_obj o f m) o'.
Proof. intros Hne (c & Hc & Hs). exists c. rewrite upd_obj_lookup, decide_False by done. done. Qed.

Lemma locked_upd_keep o' :
  (forall c, spin_lock c = true -> spin_lock (f c) = true) -> locked m o' -> locked (upd_obj o f m) o'.
Proof.
  intros Hf (c & Hc & Hs). unfold locked. rewrite upd_obj_lookup. case_decide; [subst|eauto].
  rewrite Hc. simpl. eauto.
Qed.

Lemma alive_upd_keep o' :
  (forall c, tc_state c <> DELETED -> tc_state (f c) <> DELETED) -> alive m o' -> alive (upd_obj o f m) o'.
Proof.
  intros Hf (c & Hc & Hs). unfold alive. rewrite upd_obj_lookup. case_decide; [subst|eauto].
  rewrite Hc. simpl. eauto.
Qed.

Lemma alive_upd_other o' : o <> o' -> alive m o' -> alive (upd_obj o f m) o'.
Proof. intros Hne (c & Hc & Hs). exists c. rewrite upd_obj_lookup, decide_False by done. done. Qed.

Lemma dead_upd_keep o' :
  (forall c, tc_state c = DELETED -> tc_state (f c) = DELETED) -> dead m o' -> dead (upd_obj o f m) o'.
Proof.
  intros Hf (c & Hc & Hs). unfold dead. rewrite upd_obj_lookup. case_decide; [subst|eauto].
  rewrite Hc. simpl. eauto.
Qed.

Lemma dead_upd_alive o' : alive m o -> dead m o' -> dead (upd_obj o f m) o'.
Proof.
  intros (c & Hc & Ha) (c' & Hc' & Hd). unfold dead. rewrite upd_obj_lookup.
  case_decide; [subst; congruence | eauto].
Qed.

Lemma contexts_ok_upd :
  (forall c, tc_state c <> DELETED -> tc_state (f c) <> DELETED) -> contexts_ok m -> contexts_ok (upd_obj o f m).
Proof.
  intros Hf [H1 H2]. split; [|exact H2]. intros t o' Ht. apply alive_upd_keep; [done|]. by eapply H1.
Qed.
End Obj.

(** Changing only the lock flag keeps the states. *)
Lemma spin_keeps_alive b (c : TransferContext) : tc_state c <> DELETED -> tc_state (set_spin_lock b c) <> DELETED.
Proof. done. Qed.
Lemma spin_keeps_dead b (c : TransferContext) : tc_state c = DELETED -> tc_state (set_spin_lock b c) = DELETED.
Proof. done. Qed.

#[export] Hint Resolve locked_upd_other alive_upd_keep dead_upd_keep contexts_ok_upd
  spin_keeps_alive spin_keeps_dead : hixl.

Lemma add_locked_spec t n va m o m' :
  contexts_ok m -> add_locked t n va m = (o, m') ->
  contexts_ok m' /\ (forall o', locked m o' -> locked m' o') /\ (forall o', alive m o' -> alive m' o') /\
  (forall o', dead m o' -> dead m' o').
Proof.
  intros Hc Ha. unfold add_locked in Ha. destruct (contexts_ m !! t) as [o0|] eqn:Ht; simplify_eq.
  - pose proof (co_alive _ Hc _ _ Ht) as Hal.
    split; [by apply contexts_ok_upd|].
    split; [intros o' Hl; by apply locked_upd_keep|].
    split; [intros o' Hl; by apply alive_upd_keep|].
    intros o' Hd. by apply dead_upd_alive.
  - assert (Hk : forall o' c, objs m !! o' = Some c -> o' <> length (objs m)).
    { intros o' c Ho' ->. apply lookup_lt_Some in Ho'. lia. }
    assert (Hkeep : forall o' c x, objs m !! o' = Some c -> (objs m ++ [x]) !! o' = Some c).
    { intros o' c x. apply lookup_app_l_Some. }
    split; [|split; [|split]].
    + split; simpl.
      * intros t' o' [[-> <-]|[Hne H]]%lookup_insert_Some.
        -- exists (mkTransferContext false INITIALIZED n va 0).
           split; [by apply list_lookup_middle|done].
        -- destruct (co_alive _ Hc _ _ H) as (c & Hc1 & Hc2). exists c. split; [by apply Hkeep|done].
      * intros t1 t2 o' [[-> <-]|[Hne1 H1]]%lookup_insert_Some [[-> E]|[Hne2 H2]]%lookup_insert_Some; try done.
        -- exfalso. destruct (co_alive _ Hc _ _ H2) as (c & Hc1 & _). by eapply Hk.
        -- exfalso. subst o'. destruct (co_alive _ Hc _ _ H1) as (c & Hc1 & _). by eapply Hk.
        -- by eapply (co_inj _ Hc).
    + intros o' (c & H1 & H2). exists c. split; [by apply Hkeep|done].
    + intros o' (c & H1 & H2). exists c. split; [by apply Hkeep|done].
    + intros o' (c & H1 & H2). exists c. split; [by apply Hkeep|done].
Qed.

Lemma delete_finish_spec t o m :
  contexts_ok m -> contexts_ m !! t = Some o -> locked m o ->
  contexts_ok (delete_finish t o m) /\ dead (delete_finish t o m) o /\
  (forall o', o' <> o -> locked m o' -> locked (delete_finish t o m) o') /\
  (forall o', o' <> o -> alive m o' -> alive (delete_finish t o m) o') /\
  (forall o', dead m o' -> dead (delete_finish t o m) o').
Proof.
  intros Hc Ht (c & Ho & Hs). unfold delete_finish. split; [|split; [|split; [|split]]].
  - split; simpl.
    + intros t' o' [Hne H]%lookup_delete_Some. assert (o <> o').
      { intros <-. apply Hne. by eapply (co_inj _ Hc). }
      apply alive_upd_other; [done|]. by eapply (co_alive _ Hc).
    + intros t1 t2 o' [_ H1]%lookup_delete_Some [_ H2]%lookup_delete_Some. by eapply (co_inj _ Hc).
  - unfold dead. simpl. rewrite list_lookup_alter_eq, Ho. simpl. eauto.
  - intros o' Hne Hl. by apply (locked_upd_other m o _ o').
  - intros o' Hne Hl. by apply (alive_upd_other m o _ o').
  - intros o' Hd. by apply (dead_upd_keep m o _ o').
Qed.

Section Preservation.
Context {codes : AclCodes} {env : DevEnv}.

Lemma locked_iff m o c : objs m !! o = Some c -> spin_lock c = false -> ~ locked m o.
Proof. intros Hc Hs (c' & Hc' & Hs'). congruence. Qed.

(** Taking the lock of [o]. *)
Lemma lock_goto s i a a' o mx :
  kinv s -> agents s !! i = Some a -> holds a = None -> holds a' = Some o -> ~ locked (mgr s) o ->
  mx = mutex_ s ->
  agent_ok (upd_obj o (set_spin_lock true) (mgr s)) mx i a' ->
  kinv (goto i a' (upd_obj o (set_spin_lock true) (mgr s)) mx (klog s) (khist s) s).
Proof.
  intros Hk Ha H1 H2 Hn -> Hok. eapply kinv_goto; [exact Hk|exact Ha|..].
  - apply contexts_ok_upd; [done|apply Hk].
  - done.
  - intros o' _ Hl. by apply locked_upd_keep.
  - intros o' _ _ Hl. by apply alive_upd_keep.
  - done.
  - intros o' Ho. rewrite H2 in Ho. simplify_eq. auto.
  - intros o' Hd. by apply dead_upd_keep.
  - auto.
  - apply Hk.
Qed.

(** Releasing the lock of [o]. *)
Lemma unlock_goto s i a a' o l h :
  kinv s -> agents s !! i = Some a -> holds a = Some o -> holds a' = None ->
  agent_ok (upd_obj o (set_spin_lock false) (mgr s)) (mutex_ s) i a' ->
  (forall t o', KDeleted t o' ∈ l -> KDeleted t o' ∈ klog s) -> fenced l ->
  kinv (goto i a' (upd_obj o (set_spin_lock false) (mgr s)) (mutex_ s) l h s).
Proof.
  intros Hk Ha H1 H2 Hok Hl Hf. eapply kinv_goto; [exact Hk|exact Ha|..].
  - apply contexts_ok_upd; [done|apply Hk].
  - done.
  - intros o' Hne Hlk. apply locked_upd_other; [congruence|done].
  - intros o' _ _ Hal. by apply alive_upd_keep.
  - done.
  - intros o' Ho'. congruence.
  - intros o' Hd. by apply dead_upd_keep.
  - eauto.
  - done.
Qed.

(** A step that changes only where the agent is. *)
Lemma move_goto s i a a' h :
  kinv s -> agents s !! i = Some a -> (forall o, holds a' = Some o -> holds a = Some o) ->
  agent_ok (mgr s) (mutex_ s) i a' ->
  kinv (goto i a' (mgr s) (mutex_ s) (klog s) h s).
Proof.
  intros Hk Ha Hh Hok. eapply kinv_goto; [exact Hk|exact Ha|apply Hk|done|done|done|done|auto|done|auto|apply Hk].
Qed.

(** The steps of Add and Delete that write the state of a context. *)
Lemma add_goto s i t n va o m' :
  kinv s -> agents s !! i = Some AIdle -> mutex_ s = None -> add_locked t n va (mgr s) = (o, m') ->
  kinv (goto i AEnable m' None (KAdded t o :: klog s) (khist s) s).
Proof.
  intros Hk Ha Hm Hadd. destruct (add_locked_spec _ _ _ _ _ _ (ki_contexts _ Hk) Hadd) as (H1 & H2 & H3 & H4).
  eapply kinv_goto; [exact Hk|exact Ha|done|done|auto|auto|congruence|done|done| |].
  - intros t' o' [?|?]%elem_of_cons; [done|auto].
  - split; [done|apply Hk].
Qed.

Lemma mark_goto s i t o :
  kinv s -> agents s !! i = Some AIdle -> mutex_ s = None -> contexts_ (mgr s) !! t = Some o ->
  kinv (goto i (DMarked t o) (delete_mark o (mgr s)) (Some i) (klog s) (khist s) s).
Proof.
  intros Hk Ha Hm Ht. pose proof (co_alive _ (ki_contexts _ Hk) _ _ Ht) as Hal.
  eapply kinv_goto; [exact Hk|exact Ha| |done| | |congruence|done| |auto|apply Hk].
  - by apply contexts_ok_upd; [|apply Hk].
  - intros o' _ Hl. by apply locked_upd_keep.
  - intros o' _ _ Hl. by apply alive_upd_keep.
  - intros o' Hd. by apply dead_upd_alive.
Qed.

Lemma busy_goto s i t o :
  kinv s -> agents s !! i = Some (DMarked t o) ->
  kinv (goto i AIdle (mgr s) None (klog s) (khist s) s).
Proof.
  intros Hk Ha. destruct (ki_agents _ Hk _ _ Ha) as [Hm Ht].
  eapply kinv_goto; [exact Hk|exact Ha|apply Hk|done|done|done| |done|done|auto|apply Hk].
  intros j Hne Hj. congruence.
Qed.

Lemma finish_goto s i t o a' :
  kinv s -> agents s !! i = Some (DLocked t o) -> (a' = AIdle \/ a' = DDisable) ->
  kinv (goto i a' (delete_finish t o (mgr s)) None (KDeleted t o :: klog s) (khist s) s).
Proof.
  intros Hk Ha Ha'. destruct (ki_agents _ Hk _ _ Ha) as (Hm & Ht & Hl).
  destruct (delete_finish_spec _ _ _ (ki_contexts _ Hk) Ht Hl) as (H1 & H2 & H3 & H4 & H5).
  eapply kinv_goto; [exact Hk|exact Ha|done| | | | | |done| |].
  - by destruct Ha' as [-> | ->].
  - intros o' Hne Hlk. apply H3; [|done]. simpl in Hne. congruence.
  - intros o' Hne _ Hal. apply H4; [|done]. simpl in Hne. congruence.
  - intros j Hne Hj. congruence.
  - by destruct Ha' as [-> | ->].
  - intros t' o' [?|?]%elem_of_cons; [simplify_eq; auto|auto].
  - split; [done|apply Hk].
Qed.

(** Running the transfer. *)
Lemma run_goto s i is_read p o c r c' h' :
  kinv s -> agents s !! i = Some (TRun is_read p o) -> objs (mgr s) !! o = Some c ->
  transfer_locked is_read p c (khist s) = (r, c', h') ->
  kinv (goto i (TUnlock o) (upd_obj o (fun _ => c') (mgr s)) (mutex_ s) (KRun o :: klog s) h' s).
Proof.
  intros Hk Ha Hc Hrun. destruct (ki_agents _ Hk _ _ Ha) as [(c1 & Hc1 & Hs) (c2 & Hc2 & Hst)].
  simplify_eq. pose proof (wp_transfer_locked_marks is_read p c (khist s)) as Hw.
  unfold wp in Hw. rewrite Hrun in Hw.
  assert (Hsame : same_context c c') by (destruct r; [apply Hw|apply Hw|done]).
  destruct Hsame as (Hsp & Hst' & _). clear Hw.
  assert (Halter : forall o' (P : TransferContext -> Prop),
    (exists d, objs (mgr s) !! o' = Some d /\ P d) -> (P c -> P c') ->
    exists d, objs (upd_obj o (fun _ => c') (mgr s)) !! o' = Some d /\ P d).
  { intros o' P (d & Hd & HP) Hpc. rewrite upd_obj_lookup. case_decide; [subst|eauto].
    rewrite Hc. simplify_eq. simpl. eauto. }
  assert (Hnd : forall t, KDeleted t o ∉ klog s).
  { intros t Hin. destruct (ki_dead _ Hk _ _ Hin) as (d & Hd & Hdd). congruence. }
  eapply kinv_goto; [exact Hk|exact Ha| | | | |done|auto| | |].
  - split; [|apply (ki_contexts _ Hk)]. intros t o' Ht. apply Halter; [by eapply (co_alive _ (ki_contexts _ Hk))|].
    by rewrite Hst'.
  - apply (Halter o (fun d => spin_lock d = true)); [eauto|]. congruence.
  - intros o' _ Hl. apply (Halter o' (fun d => spin_lock d = true)); [done|congruence].
  - intros o' _ _ Hl. apply (Halter o' (fun d => tc_state d <> DELETED)); [done|congruence].
  - intros o' Hd. apply (Halter o' (fun d => tc_state d = DELETED)); [done|congruence].
  - intros t o' [?|?]%elem_of_cons; [done|auto].
  - split; [done|apply Hk].
Qed.

Lemma callback_goto s i a m' :
  kinv s -> agents s !! i = Some a -> holds a = None -> objs m' = objs (mgr s) ->
  contexts_ m' = contexts_ (mgr s) -> kinv (goto i AIdle m' (mutex_ s) (klog s) (khist s) s).
Proof.
  intros Hk Ha Hh Ho Hc.
  assert (Hl : forall o, locked (mgr s) o -> locked m' o) by (unfold locked; by rewrite Ho).
  assert (Hal : forall o, alive (mgr s) o -> alive m' o) by (unfold alive; by rewrite Ho).
  assert (Hd : forall o, dead (mgr s) o -> dead m' o) by (unfold dead; by rewrite Ho).
  eapply kinv_goto; [exact Hk|exact Ha| |done|auto|auto|auto|done|auto|auto|apply Hk].
  split; rewrite Hc; [|apply Hk]. intros t o Ht. apply Hal. by eapply (co_alive _ (ki_contexts _ Hk)).
Qed.

Lemma kstep_inv s s' : kinv s -> kstep s s' -> kinv s'.
Proof.
  intros Hk Hs. destruct Hs as
    [i ir p o s Ha Hm ? ? Ht|i ir p o c s Ha Hc|i ir p o c s Ha Hc Hsp|i ir p o c s Ha Hc
    |i ir p o c r c' h' s Ha Hc Hrun|i o s Ha|i t n va o m' s Ha Hm Hadd|i ok s Ha|i t o s Ha Hm Ht
    |i t o s Ha Hl|i t o s Ha Hl|i t o s Ha m'|i ok s Ha|i t o s Ha Hm Ht|i o c s Ha Hc Hsp
    |i o c s Ha Hc Hst|i o c r c' h' s Ha Hc Hst Hw|i n r s Ha Hr].
  - rewrite <- Hm. by eapply move_goto.
  - eapply move_goto; [done|done| |]; by case_bool_decide.
  - eapply lock_goto; try done; [by eapply locked_iff|]. simpl. unfold locked.
    rewrite upd_obj_lookup, decide_True, Hc by done. simpl. eauto.
  - pose proof (ki_agents _ Hk _ _ Ha) as Hl. eapply move_goto; [done|done| |]; case_bool_decide as E; try done.
    simpl. split; [done|]. exists c. split; [done|]. by rewrite E.
  - by eapply run_goto.
  - eapply unlock_goto; eauto; try done. apply Hk.
  - by eapply add_goto.
  - eapply callback_goto; try done; unfold EnableExceptionCallback; by repeat case_match.
  - by apply mark_goto.
  - by eapply busy_goto.
  - destruct (ki_agents _ Hk _ _ Ha) as [Hm Ht].
    unfold obj_locked in Hl. destruct (objs (mgr s) !! o) as [c|] eqn:Hc; [|done].
    eapply lock_goto; try done; [by eapply locked_iff|]. simpl. split_and!; try done.
    unfold locked. rewrite upd_obj_lookup, decide_True, Hc by done. simpl. eauto.
  - apply finish_goto; [done|done|]. case_bool_decide; auto.
  - eapply callback_goto; try done; unfold DisableExceptionCallback; by repeat case_match.
  - rewrite <- Hm. by eapply move_goto.
  - eapply lock_goto; try done; [by eapply locked_iff|]. simpl. unfold locked.
    rewrite upd_obj_lookup, decide_True, Hc by done. simpl. eauto.
  - eapply unlock_goto; eauto; try done. apply Hk.
  - eapply unlock_goto; eauto; try done.
    + intros t o' [?|?]%elem_of_cons; [done|auto].
    + split; [|apply Hk]. intros t Hin. destruct (ki_dead _ Hk _ _ Hin) as (d & Hd & Hdd). congruence.
  - by eapply move_goto.
Qed.

Lemma kreachable_inv n s : kreachable n s -> kinv s.
Proof.
  intros Hr. unfold kreachable in Hr.
  assert (H0 : kinv (kinit n)).
  { split; simpl; try done.
    - intros i a [-> _]%lookup_replicate. done.
    - intros i j a b o [-> _]%lookup_replicate _. done.
    - intros t o Hin. by apply not_elem_of_nil in Hin. }
  revert H0. induction Hr as [s|s s1 s2 Hst _ IH]; [done|]. intros Hs. apply IH. by eapply kstep_inv.
Qed.
End Preservation.

(** * The synchronisation kernel against the host's expectations *)

Lemma add_locked_contexts t n va m o m' t' :
  add_locked t n va m = (o, m') ->
  contexts_ m' !! t' = if decide (t = t') then Some o else contexts_ m !! t'.
Proof.
  unfold add_locked. destruct (contexts_ m !! t) as [o0|] eqn:Ht; intros H; simplify_eq; simpl; case_decide;
    subst; try done; [by rewrite lookup_insert_eq | by rewrite lookup_insert_ne].
Qed.

Lemma enable_contexts ok m : contexts_ (EnableExceptionCallback ok m) = contexts_ m.
Proof. unfold EnableExceptionCallback. by repeat case_match. Qed.
Lemma disable_contexts ok m : contexts_ (DisableExceptionCallback ok m) = contexts_ m.
Proof. unfold DisableExceptionCallback. by repeat case_match. Qed.
Lemma enable_objs ok m : objs (EnableExceptionCallback ok m) = objs m.
Proof. unfold EnableExceptionCallback. by repeat case_match. Qed.
Lemma disable_objs ok m : objs (DisableExceptionCallback ok m) = objs m.
Proof. unfold DisableExceptionCallback. by repeat case_match. Qed.

(** The callback is registered exactly while there are contexts. *)
Definition callback_ok (m : Manager) : Prop := callback_registered_ m = true <-> contexts_ m <> ∅.

Lemma Add_callback_ok t n va m : callback_ok (TransferContextManager_Add true t n va m).2.
Proof.
  unfold TransferContextManager_Add. destruct (add_locked t n va m) as [o m'] eqn:Ha. simpl.
  unfold callback_ok. rewrite enable_contexts. split.
  - intros _ He. pose proof (add_locked_contexts _ _ _ _ _ _ t Ha) as Hl.
    rewrite decide_True, He, lookup_empty in Hl by done. done.
  - intros _. unfold EnableExceptionCallback. by destruct (callback_registered_ m') eqn:E.
Qed.

Lemma Delete_callback_ok t m : callback_ok m -> callback_ok (TransferContextManager_Delete true t m).2.
Proof.
  intros Hc. unfold TransferContextManager_Delete. destruct (contexts_ m !! t) as [o|] eqn:Ht; [|done].
  destruct (obj_locked _ _); [done|]. simpl. case_bool_decide as E; unfold callback_ok in *.
  - rewrite disable_contexts. unfold DisableExceptionCallback, delete_finish in *. simpl in *.
    destruct (callback_registered_ m) eqn:Hr; simpl; [|rewrite Hr]; (split; [done|]); intros H; done.
  - simpl. split; [done|]. intros _. apply Hc. intros He. by rewrite He, lookup_empty in Ht.
Qed.

(** What Delete reports about one thread. *)
Lemma Delete_spec ok t m st d m' :
  contexts_ok m -> TransferContextManager_Delete ok t m = (st, d, m') ->
  contexts_ok m' /\
  (forall t', t' <> t -> contexts_ m' !! t' = contexts_ m !! t') /\
  match st with
  | DELETED => contexts_ m' !! t = None
  | DELETING => exists o c, contexts_ m' !! t = Some o /\ objs m' !! o = Some c /\
                  spin_lock c = true /\ tc_state c = DELETING
  | INITIALIZED => False
  end.
Proof.
  intros Hc Hd. unfold TransferContextManager_Delete in Hd.
  destruct (contexts_ m !! t) as [o|] eqn:Ht; [|by simplify_eq].
  assert (Hc1 : contexts_ok (delete_mark o m)) by (by apply contexts_ok_upd).
  destruct (co_alive _ Hc _ _ Ht) as (c & Ho & Hal).
  destruct (obj_locked o (delete_mark o m)) eqn:Hl; simplify_eq.
  - split; [done|]. split; [done|]. exists o, (SetState DELETING c). split; [done|].
    unfold obj_locked in Hl. unfold delete_mark in *. rewrite upd_obj_lookup, decide_True, Ho in * by done. done.
  - assert (Hc2 : contexts_ok (delete_finish t o (delete_mark o m))).
    { split; simpl.
      - intros t' o' [Hne H]%lookup_delete_Some. assert (o <> o').
        { intros <-. apply Hne. by eapply (co_inj _ Hc). }
        apply (alive_upd_other (delete_mark o m)); [done|]. apply alive_upd_other; [done|]. by eapply (co_alive _ Hc).
      - intros t1 t2 o' [_ H1]%lookup_delete_Some [_ H2]%lookup_delete_Some. by eapply (co_inj _ Hc). }
    assert (Hx : forall m1 m2 : Manager, objs m1 = objs m2 -> contexts_ m1 = contexts_ m2 -> contexts_ok m2 -> contexts_ok m1).
    { intros m1 m2 H1 H2 []. split; unfold alive in *; by rewrite ?H1, H2. }
    split; [|split].
    + case_bool_decide; [|done]. eapply Hx; [apply disable_objs|apply disable_contexts|done].
    + intros t' Hne. case_bool_decide; rewrite ?disable_contexts; simpl; by rewrite lookup_delete_ne.
    + case_bool_decide; rewrite ?disable_contexts; simpl; by rewrite lookup_delete_eq.
Qed.

(** After a batch of deletions: the outcome for each thread. *)
Definition delete_outcome (m : Manager) (e : HixlTransferContextSyncEntry) (s : Z) : Prop :=
  (s = TRANSFER_THREAD_STATE_DELETED /\ contexts_ m !! se_thread e = None) \/
  (s = TRANSFER_THREAD_STATE_DELETING /\ is_Some (contexts_ m !! se_thread e)).

Lemma sync_delete_keeps ok entries states m r es ss m' t :
  contexts_ok m ->
  Forall (fun e => se_op e = TRANSFER_CONTEXT_OP_DELETE) entries ->
  sync_entries ok entries states m = (r, es, ss, m') ->
  t ∉ map se_thread entries -> contexts_ m' !! t = contexts_ m !! t.
Proof.
  revert states m r es ss m'. induction entries as [|e entries IH]; intros states m r es ss m' Hc Hop Hs Ht.
  - destruct states; by simplify_eq/=.
  - destruct states as [|s states]; [by simplify_eq/=|]. simpl in Hs. inversion Hop as [|? ? He Hop']; subst.
    rewrite He in Hs. simpl in Hs.
    destruct (TransferContextManager_Delete ok (se_thread e) m) as [[st d] m1] eqn:Hd.
    destruct (sync_entries ok entries states m1) as [[[r1 es1] ss1] m2] eqn:Hr. simplify_eq.
    destruct (Delete_spec _ _ _ _ _ _ Hc Hd) as (Hc1 & Hk & _).
    simpl in Ht. apply not_elem_of_cons in Ht as [Hne Ht].
    etrans; [by eapply IH|]. by apply Hk.
Qed.

Lemma sync_delete_spec ok entries states m r es ss m' :
  contexts_ok m -> length states = length entries -> NoDup (map se_thread entries) ->
  Forall (fun e => se_op e = TRANSFER_CONTEXT_OP_DELETE) entries ->
  sync_entries ok entries states m = (r, es, ss, m') ->
  r = SUCCESS /\ contexts_ok m' /\ Forall2 (delete_outcome m') es ss /\
  map se_thread es = map se_thread entries.
Proof.
  revert states m r es ss m'. induction entries as [|e entries IH]; intros states m r es ss m' Hc Hlen Hnd Hop Hs.
  - destruct states; [|done]. simplify_eq/=. split; [done|]. split; [done|]. split; [constructor|done].
  - destruct states as [|s states]; [done|]. simpl in Hs.
    assert (Hlen' : length states = length entries) by (simpl in Hlen; lia). inversion Hop as [|? ? He Hop']; subst.
    rewrite He in Hs. simpl in Hs. simpl in Hnd. apply NoDup_cons in Hnd as [Hni Hnd].
    destruct (TransferContextManager_Delete ok (se_thread e) m) as [[st d] m1] eqn:Hd.
    destruct (sync_entries ok entries states m1) as [[[r1 es1] ss1] m2] eqn:Hr. simplify_eq.
    destruct (Delete_spec _ _ _ _ _ _ Hc Hd) as (Hc1 & _ & Hst).
    destruct (IH _ _ _ _ _ _ Hc1 Hlen' Hnd Hop' Hr) as (-> & Hc2 & Hf & Hm).
    pose proof (sync_delete_keeps _ _ _ _ _ _ _ _ _ Hc1 Hop' Hr Hni) as Hkeep.
    split; [done|]. split; [done|]. split; [|by simpl; f_equal]. constructor; [|done].
    unfold delete_outcome. simpl. rewrite Hkeep. destruct st; [done| |]; [right|by left].
    split; [done|]. destruct Hst as (o & c & -> & _). by eexists.
Qed.

Lemma collect_retry_delete m es ss :
  Forall2 (delete_outcome m) es ss ->
  exists re rs, CollectRetrySyncEntries es ss TRANSFER_CONTEXT_OP_DELETE TRANSFER_THREAD_STATE_DELETED
                = inr (re, rs) /\
    map se_thread re = filter (fun t => is_Some (contexts_ m !! t)) (map se_thread es).
Proof.
  intros Hf. unfold CollectRetrySyncEntries. rewrite bool_decide_true by (by eapply Forall2_length).
  induction Hf as [|e s es ss [[-> Hn]|[-> Hs]] Hf (re & rs & IH & IHm)]; simpl; [by eexists _, _| |].
  - rewrite filter_cons_False by (rewrite Hn; by intros [? ?]). eauto.
  - rewrite IH. eexists _, _. split; [done|]. simpl. rewrite filter_cons_True by done. by f_equal.
Qed.

Lemma sync_add_spec ok entries states m r es ss m' :
  contexts_ok m -> length states = length entries ->
  Forall (fun e => se_op e = TRANSFER_CONTEXT_OP_ADD) entries ->
  sync_entries ok entries states m = (r, es, ss, m') ->
  r = SUCCESS /\ contexts_ok m' /\ es = entries /\
  ss = replicate (length entries) TRANSFER_THREAD_STATE_INITIALIZED /\
  (forall t, is_Some (contexts_ m !! t) \/ t ∈ map se_thread entries -> is_Some (contexts_ m' !! t)).
Proof.
  revert states m r es ss m'. induction entries as [|e entries IH]; intros states m r es ss m' Hc Hlen Hop Hs.
  - destruct states; [|done]. simplify_eq/=. split_and!; try done. intros t [H|H]; [done|].
    by apply not_elem_of_nil in H.
  - destruct states as [|s states]; [done|]. simpl in Hs.
    assert (Hlen' : length states = length entries) by (simpl in Hlen; lia). inversion Hop as [|? ? He Hop']; subst.
    rewrite He in Hs. simpl in Hs.
    destruct (TransferContextManager_Add ok (se_thread e) (se_notify_id e) (se_err_flag_dev_va e) m)
      as [st m1] eqn:Ha.
    destruct (sync_entries ok entries states m1) as [[[r1 es1] ss1] m2] eqn:Hr. simplify_eq.
    unfold TransferContextManager_Add in Ha. destruct (add_locked _ _ _ m) as [o m0] eqn:Hadd. simplify_eq.
    destruct (add_locked_spec _ _ _ _ _ _ Hc Hadd) as (Hc0 & _ & _ & _).
    assert (Hc1 : contexts_ok (EnableExceptionCallback ok m0)).
    { destruct Hc0 as [H1 H2]. split; unfold alive in *; by rewrite ?enable_objs, enable_contexts. }
    destruct (IH _ _ _ _ _ _ Hc1 Hlen' Hop' Hr) as (-> & Hc2 & -> & -> & Hin).
    split_and!; try done. intros t Ht. apply Hin. rewrite enable_contexts.
    rewrite (add_locked_contexts _ _ _ _ _ _ t Hadd). case_decide as E; [left; by eexists|].
    destruct Ht as [Ht|Ht]; [by left|]. apply elem_of_cons in Ht as [->|Ht]; [done|by right].
Qed.

Lemma collect_retry_add es n :
  length es = n ->
  CollectRetrySyncEntries es (replicate n TRANSFER_THREAD_STATE_INITIALIZED) TRANSFER_CONTEXT_OP_ADD
    TRANSFER_THREAD_STATE_INITIALIZED = inr ([], []).
Proof.
  intros <-. unfold CollectRetrySyncEntries. rewrite bool_decide_true by (by rewrite length_replicate).
  induction es as [|e es IH]; simpl; [done|]. exact IH.
Qed.

(** * Theorems *)
Lemma fenced_app l1 t o l2 :
  fenced (l1 ++ KDeleted t o :: l2) -> KRun o ∉ l1 /\ KFlag o ∉ l1.
Proof.
  induction l1 as [|e l1 IH]; simpl; [intros _; split; apply not_elem_of_nil|].
  intros [He Hf]. destruct (IH Hf) as [H1 H2].
  assert (Hin : KDeleted t o ∈ l1 ++ KDeleted t o :: l2) by set_solver.
  split; apply not_elem_of_cons; (split; [|done]); intros <-; by eapply He.
Qed.

(** C14: Deletion is a fence.  In every interleaving of transfer kernels, context
    synchronisations and exception callbacks, once Delete has reported a context as
    deleted, no transfer runs on it and no callback writes its error flag, although
    kernels may still hold references to it. *)
Theorem TransferContext_delete_fence {codes : AclCodes} {env : DevEnv} n s l1 t o l2 :
  kreachable n s -> klog s = l1 ++ KDeleted t o :: l2 -> KRun o ∉ l1 /\ KFlag o ∉ l1.
Proof.
  intros Hr Hl. pose proof (ki_fenced _ (kreachable_inv _ _ Hr)) as Hf. rewrite Hl in Hf.
  by eapply fenced_app.
Qed.

(** C29: Mutual exclusion.  At most one agent is inside the critical section of a context,
    and a context on which a transfer is about to run is not deleted: Delete can
    only mark it and has to answer that it is still being deleted. *)
Theorem TransferContext_exclusion {codes : AclCodes} {env : DevEnv} n s :
  kreachable n s ->
  (forall i j a b o, agents s !! i = Some a -> agents s !! j = Some b ->
     holds a = Some o -> holds b = Some o -> i = j) /\
  (forall i is_read p o, agents s !! i = Some (TRun is_read p o) ->
     ~ dead (mgr s) o /\ obj_locked o (mgr s) = true).
Proof.
  intros Hr. pose proof (kreachable_inv _ _ Hr) as Hk. split; [apply Hk|].
  intros i ir p o Ha. destruct (ki_agents _ Hk _ _ Ha) as [(c & Hc & Hs) (c' & Hc' & Hd)].
  split; [intros (d & Hd1 & Hd2); congruence|]. unfold obj_locked. by rewrite Hc.
Qed.

(** C32: The synchronisation kernel answers what the host's retry loop expects.  A batch
    of additions succeeds with every thread registered and nothing to retry; a
    batch of deletions succeeds, and the entries that the host collects for a retry
    are exactly those whose context is still there. *)
Theorem HixlSyncTransferContext_protocol cb_ok p entries states m r es ss m' :
  contexts_ok m -> ValidateSyncTransferContextParam (Some p) = SUCCESS ->
  length states = length entries -> NoDup (map se_thread entries) ->
  HixlSyncTransferContext cb_ok (Some p) entries states m = (r, es, ss, m') ->
  (Forall (fun e => se_op e = TRANSFER_CONTEXT_OP_ADD) entries ->
   r = SUCCESS /\ contexts_ok m' /\
   (forall t, t ∈ map se_thread entries -> is_Some (TransferContextManager_Get t m')) /\
   CollectRetrySyncEntries es ss TRANSFER_CONTEXT_OP_ADD TRANSFER_THREAD_STATE_INITIALIZED = inr ([], [])) /\
  (Forall (fun e => se_op e = TRANSFER_CONTEXT_OP_DELETE) entries ->
   r = SUCCESS /\ contexts_ok m' /\
   exists re rs,
     CollectRetrySyncEntries es ss TRANSFER_CONTEXT_OP_DELETE TRANSFER_THREAD_STATE_DELETED = inr (re, rs) /\
     map se_thread re = filter (fun t => is_Some (TransferContextManager_Get t m')) (map se_thread entries)).
Proof.
  intros Hc Hv Hlen Hnd Hrun. unfold HixlSyncTransferContext in Hrun. rewrite Hv in Hrun. simpl in Hrun.
  destruct (sync_entries cb_ok entries states m) as [[[r1 es1] ss1] m1] eqn:Hs. simplify_eq.
  split; intros Hop.
  - destruct (sync_add_spec _ _ _ _ _ _ _ _ Hc Hlen Hop Hs) as (-> & Hc' & -> & -> & Hin).
    split; [done|]. split; [done|]. split; [intros t Ht; apply Hin; by right|]. by apply collect_retry_add.
  - destruct (sync_delete_spec _ _ _ _ _ _ _ _ Hc Hlen Hnd Hop Hs) as (-> & Hc' & Hf & <-).
    split; [done|]. split; [done|]. by apply collect_retry_delete.
Qed.

(** When registrations succeed, the exception callback is registered exactly while
    some transfer context exists, after any sequence of additions and deletions
    that do not overlap. *)
Theorem exception_callback_tracks_contexts (ops : list (bool * Z * Z * Z)) :
  callback_ok (fold_left (fun m '(is_add, t, n, va) =>
    if is_add : bool then (TransferContextManager_Add true t n va m).2
    else (TransferContextManager_Delete true t m).2) ops empty_manager).
Proof.
  assert (H0 : callback_ok empty_manager) by done.
  revert H0. generalize empty_manager. induction ops as [|[[[b t] n] va] ops IH]; intros m Hm; simpl; [done|].
  apply IH. destruct b; [apply Add_callback_ok | by apply Delete_callback_ok].
Qed.

(** ** A run: a context is added and deleted, then added again and used. *)
#[export] Instance run_dev : DevEnv := ref_dev 0.

Definition after (i : nat) (a : Agent) (f : Manager -> Manager) (mx : option nat) (es : list KEvent)
    (s : KState) : KState := goto i a (f (mgr s)) mx (es ++ klog s) (khist s) s.

Definition run_ks : list KState :=
  let s0 := kinit 1 in
  let s1 := after 0 AEnable (fun m => (add_locked 7 5 512 m).2) None [KAdded 7 0] s0 in
  let s2 := after 0 AIdle (EnableExceptionCallback true) None [] s1 in
  let s3 := after 0 (DMarked 7 0) (delete_mark 0) (Some 0%nat) [] s2 in
  let s4 := after 0 (DLocked 7 0) (upd_obj 0 (set_spin_lock true)) (Some 0%nat) [] s3 in
  let s5 := after 0 DDisable (delete_finish 7 0) None [KDeleted 7 0] s4 in
  let s6 := after 0 AIdle (DisableExceptionCallback true) None [] s5 in
  let s7 := after 0 AEnable (fun m => (add_locked 7 5 512 m).2) None [KAdded 7 1] s6 in
  let s8 := after 0 AIdle (EnableExceptionCallback true) None [] s7 in
  let s9 := after 0 (TGot true ref_param 1) id None [] s8 in
  let s10 := after 0 (TWait true ref_param 1) id None [] s9 in
  let s11 := after 0 (TLocked true ref_param 1) (upd_obj 1 (set_spin_lock true)) None [] s10 in
  let s12 := after 0 (TRun true ref_param 1) id None [] s11 in
  let body := transfer_locked true ref_param ref_context (khist s12) in
  let s13 := goto 0 (TUnlock 1) (upd_obj 1 (fun _ => body.1.2) (mgr s12)) None (KRun 1 :: klog s12) body.2 s12 in
  [s0; s1; s2; s3; s4; s5; s6; s7; s8; s9; s10; s11; s12; s13].
Definition run_k (i : nat) : KState := nth i run_ks (kinit 1).

Lemma run_reachable_12 : kreachable 1 (run_k 12).
Proof.
  assert (H0 : kstep (run_k 0) (run_k 1)) by (by eapply (k_add 0 7 5 512 0)).
  assert (H1 : kstep (run_k 1) (run_k 2)) by (by eapply (k_enable 0 true)).
  assert (H2 : kstep (run_k 2) (run_k 3)) by (by eapply (k_delete 0 7 0)).
  assert (H3 : kstep (run_k 3) (run_k 4)) by (by eapply (k_delete_lock 0 7 0)).
  assert (H4 : kstep (run_k 4) (run_k 5)) by (by eapply (k_delete_finish 0 7 0)).
  assert (H5 : kstep (run_k 5) (run_k 6)) by (by eapply (k_disable 0 true)).
  assert (H6 : kstep (run_k 6) (run_k 7)) by (by eapply (k_add 0 7 5 512 1)).
  assert (H7 : kstep (run_k 7) (run_k 8)) by (by eapply (k_enable 0 true)).
  assert (H8 : kstep (run_k 8) (run_k 9)) by (by eapply (k_get 0 true ref_param 1)).
  assert (H9 : kstep (run_k 9) (run_k 10)) by (by eapply (k_check 0 true ref_param 1 (set_spin_lock false ref_context))).
  assert (H10 : kstep (run_k 10) (run_k 11)) by (by eapply (k_lock 0 true ref_param 1 (set_spin_lock false ref_context))).
  assert (H11 : kstep (run_k 11) (run_k 12)) by (by eapply (k_recheck 0 true ref_param 1 ref_context)).
  unfold kreachable. change (kinit 1) with (run_k 0).
  do 12 (eapply rtc_l; [eassumption|]). apply rtc_refl.
Qed.

Lemma run_reachable : kreachable 1 (run_k 13).
Proof.
  eapply rtc_r; [apply run_reachable_12|].
  by eapply (k_run 0 true ref_param 1 ref_context).
Qed.

Lemma TransferContext_delete_fence_witness :
  KRun 0 ∉ [KRun 1; KAdded 7 1] /\ KFlag 0 ∉ [KRun 1; KAdded 7 1].
Proof.
  apply (TransferContext_delete_fence 1 (run_k 13) [KRun 1; KAdded 7 1] 7 0 [KAdded 7 0]
    run_reachable eq_refl).
Defined.

Lemma TransferContext_exclusion_witness :
  ~ dead (mgr (run_k 12)) 1 /\ obj_locked 1 (mgr (run_k 12)) = true.
Proof.
  apply (TransferContext_exclusion 1 (run_k 12) run_reachable_12) with (i := 0%nat) (is_read := true)
    (p := ref_param). reflexivity.
Defined.

Definition sync_demo (op : Z) (m : Manager) :=
  HixlSyncTransferContext true (Some (mkSyncParam 64 128 1 1)) [mkSyncEntry 7 op 5 512 0] [0] m.

Lemma HixlSyncTransferContext_protocol_witness :
  is_Some (TransferContextManager_Get 7 (sync_demo 0 empty_manager).2).
Proof.
  assert (Hc : contexts_ok empty_manager) by (by split).
  assert (Hn : NoDup (map se_thread [mkSyncEntry 7 0 5 512 0])) by apply NoDup_singleton.
  destruct (HixlSyncTransferContext_protocol true (mkSyncParam 64 128 1 1) [mkSyncEntry 7 0 5 512 0] [0]
    empty_manager _ _ _ _ Hc eq_refl eq_refl Hn (surjective_pairing _)) as [H _].
  destruct H as (_ & _ & H & _); [by repeat constructor|]. apply H. by left.
Defined.
