(* ===== verification/StarsSdma.v ===== *)
(** The UB memory kernel (ops/hixl_kernel/ubmem_stars_sdma.cc, ubmem_stars_sdma.h,
    ubmem_stars_rtsq.h, ubmem_rtsq_query.h, ubmem_aicpu_kernel.cc): descriptors are
    cut into SDMA tasks of less than 4 GiB, encoded as 64-byte STARS queue entries,
    and published in batches through the ring of a runtime queue (RTSQ).

    A queue entry is the list of its sixteen 32-bit words.  The driver (queue
    query and configuration, completion reports, clock, checked memory functions)
    is external: its calls are the operations of [SdOp]. *)

From S2P Require Import Prelude Effects DeviceKernel.

(** * Constants *)
Definition kSuccess : Z := 0.
Definition kFailed : Z := 1.
Definition kMaxRtsqEntriesPerPublish : Z := 128.
Definition kRtsqPollDefaultTimeoutSec : Z := 60.
Definition kNsPerSecond : Z := 1000000000.
Definition kNsPerMillisecond : Z := 1000000.
Definition kMaxSdmaTransferBytes : Z := 4294967295.
Definition kLogicCqReportCount : Z := 32.
Definition kStarsExistErrorMask : Z := 63.
Definition kUbMemRtsqEntryBytes : Z := 64.
Definition kUbMemA3NotifyIdLimit : Z := 2 ^ 13.
Definition kUbMemA5NotifyIdLimit : Z := 2 ^ 17.
Definition kUbMemKernelParamVersion : Z := 2.
Definition kMaxDescriptorsPerKernel : Z := 128.
Definition UINT16_MAX : Z := 65535.

(** * Data *)
Inductive UbMemStarsSqeFormat := kStarsV1 | kStarsV2.

Record UbMemAicpuTransferDesc := mkUbDesc {
  ud_src_addr : Z;
  ud_dst_addr : Z;
  ud_length : Z
}.

Record UbMemAicpuKernelParam := mkUbParam {
  up_desc_addr : Z;
  up_desc_count : Z;
  up_device_id : Z;
  up_rtsq_id : Z;
  up_rtsq_stream_id : Z;
  up_rtsq_task_id : Z;
  up_rtsq_logic_cq_id : Z;
  up_direction : Z;
  up_timeout_ms : Z;
  up_notify_id : Z;
  up_emit_notify_record : Z;
  up_status_addr : Z;
  up_transfer_ctx_key : Z;
  up_version : Z;
  up_sqe_format : Z
}.

Record UbMemRtsqState := mkRtsq {
  rq_device_id : Z;
  rq_sq_id : Z;
  rq_stream_id : Z;
  rq_logic_cq_id : Z;
  rq_next_task_id : Z;
  rq_base_addr : Z;
  rq_depth : Z;
  rq_head : Z;
  rq_tail : Z;
  rq_format : UbMemStarsSqeFormat
}.
Definition set_rq_next_task_id v q :=
  mkRtsq (rq_device_id q) (rq_sq_id q) (rq_stream_id q) (rq_logic_cq_id q) v (rq_base_addr q)
    (rq_depth q) (rq_head q) (rq_tail q) (rq_format q).
Definition set_rq_head v q :=
  mkRtsq (rq_device_id q) (rq_sq_id q) (rq_stream_id q) (rq_logic_cq_id q) (rq_next_task_id q)
    (rq_base_addr q) (rq_depth q) v (rq_tail q) (rq_format q).
Definition set_rq_tail v q :=
  mkRtsq (rq_device_id q) (rq_sq_id q) (rq_stream_id q) (rq_logic_cq_id q) (rq_next_task_id q)
    (rq_base_addr q) (rq_depth q) (rq_head q) v (rq_format q).

(** A queue entry: sixteen 32-bit words. *)
Definition Sqe : Type := list Z.

(** The queue and the batch of entries not yet published ([batch.entries] up to
    [batch.count]). *)
Record SdState := mkSdState { sd_queue : UbMemRtsqState; sd_batch : list Sqe }.
Definition with_queue q s := mkSdState q (sd_batch s).
Definition with_batch b s := mkSdState (sd_queue s) b.

(** * Encoding of the queue entries *)

(** Words 0 and 1, the header: type in bits 0-5; stream and task ids. *)
Definition header_words (type stream_id task_id : Z) : list Z :=
  [Z.land type 63; Z.lor (u16 stream_id) (Z.shiftl (u16 task_id) 16)].

(** Words 8 to 11 of the SDMA entries. *)
Definition address_words (source destination : Z) : list Z :=
  [u32 source; u32 (Z.shiftr source 32); u32 destination; u32 (Z.shiftr destination 32)].

(** Stars v1: credit in byte 14; sssv, dssv, sns, dns in bits 9-12 and qos in bits
    13-16 of word 4; length in word 7; link type in word 12. *)
Definition BuildA3SdmaSqe (source destination size task_id : Z) (q : UbMemRtsqState) : Sqe :=
  header_words 11 (rq_stream_id q) task_id
  ++ [0; Z.shiftl 240 16;
      Z.lor (Z.shiftl 1 9) (Z.lor (Z.shiftl 1 10) (Z.lor (Z.shiftl 1 11)
        (Z.lor (Z.shiftl 1 12) (Z.shiftl 6 13))));
      0; 0; u32 size]
  ++ address_words source destination
  ++ [0; 0; 0; 0].

(** Stars v2: sssv, dssv, sns, dns in bits 8-11 of word 4; qos in bits 27-30 of word
    5; length in word 12. *)
Definition BuildA5SdmaSqe (source destination size task_id : Z) (q : UbMemRtsqState) : Sqe :=
  header_words 11 (rq_stream_id q) task_id
  ++ [0; Z.shiftl 253 16;
      Z.lor (Z.shiftl 1 8) (Z.lor (Z.shiftl 1 9) (Z.lor (Z.shiftl 1 10) (Z.shiftl 1 11)));
      Z.shiftl 6 27; 0; 0]
  ++ address_words source destination
  ++ [u32 size; 0; 0; 0].

Definition BuildSdmaEntry (source destination size task_id : Z) (q : UbMemRtsqState) : Sqe :=
  match rq_format q with
  | kStarsV2 => BuildA5SdmaSqe source destination size task_id q
  | kStarsV1 => BuildA3SdmaSqe source destination size task_id q
  end.

(** The notify id is a bit field of 13 bits in stars v1 and 17 in stars v2. *)
Definition BuildA3NotifySqe (notify_id task_id : Z) (q : UbMemRtsqState) : Sqe :=
  header_words 6 (rq_stream_id q) task_id
  ++ [wrap 13 notify_id; Z.shiftl 254 16] ++ replicate 12 0.

Definition BuildA5NotifySqe (notify_id task_id : Z) (q : UbMemRtsqState) : Sqe :=
  header_words 6 (rq_stream_id q) task_id
  ++ [wrap 17 notify_id; Z.shiftl 253 16] ++ replicate 12 0.

Definition BuildNotifyEntry (notify_id task_id : Z) (q : UbMemRtsqState) : Sqe :=
  match rq_format q with
  | kStarsV2 => BuildA5NotifySqe notify_id task_id q
  | kStarsV1 => BuildA3NotifySqe notify_id task_id q
  end.

(** * Validation *)
Definition ResolveSqeFormat (param_format : Z) : option UbMemStarsSqeFormat :=
  if param_format =? 0 then Some kStarsV1
  else if param_format =? 1 then Some kStarsV2 else None.

Definition NotifyIdLimit (format : UbMemStarsSqeFormat) : Z :=
  match format with kStarsV2 => kUbMemA5NotifyIdLimit | kStarsV1 => kUbMemA3NotifyIdLimit end.

Definition IsValidDescriptor (d : UbMemAicpuTransferDesc) : bool :=
  if (ud_src_addr d =? 0) || (ud_dst_addr d =? 0) || (ud_length d =? 0) then false
  else (ud_length d <=? UINT64_MAX - ud_src_addr d) && (ud_length d <=? UINT64_MAX - ud_dst_addr d).

Definition AreValidDescriptors (descs : list UbMemAicpuTransferDesc) : bool :=
  forallb IsValidDescriptor descs.

(** The array of [desc_count] descriptors at the address [descs], [None] when it is
    null.  The result is the format and the array. *)
Definition ValidateSubmitArgs (param : UbMemAicpuKernelParam)
    (descs : option (list UbMemAicpuTransferDesc))
    : option (UbMemStarsSqeFormat * list UbMemAicpuTransferDesc) :=
  match descs with
  | None => None
  | Some ds =>
      if (up_desc_count param =? 0) || (1 <? up_emit_notify_record param) then None
      else match ResolveSqeFormat (up_sqe_format param) with
           | None => None
           | Some format =>
               if negb (up_emit_notify_record param =? 0) && (NotifyIdLimit format <=? up_notify_id param)
               then None
               else if AreValidDescriptors ds then Some (format, ds) else None
           end
  end.

(** [std::min] on the bytes of one SDMA task. *)
Definition block_size (remaining : Z) : Z := Z.min remaining kMaxSdmaTransferBytes.

(** * External calls *)
Inductive SqProp := SQ_BASE | SQ_DEPTH | SQ_HEAD | SQ_TAIL.

(** The reply of halCqReportRecv: a timeout, an error, or a number of reports with
    the error types in the buffer. *)
Inductive CqReply := CqTimeout | CqError | CqReports (n : Z) (error_types : list Z).

Inductive SdOp : Type -> Type :=
| halSqCqQuery (device_id sq_id : Z) (prop : SqProp) : SdOp (option (Z * Z))
| halSqCqConfigTail (device_id sq_id tail : Z) : SdOp bool
| drvGetLocalDevIDByHostDevID (host_device_id : Z) : SdOp (option Z)
| halResourceIdRestore (device_id stream_id : Z) : SdOp bool
| halCqReportRecv (device_id stream_id cq_id : Z) : SdOp CqReply
| clock_gettime_ns : SdOp (option Z)
| memcpy_ring (addr dest_max : Z) (entries : list Sqe) : SdOp bool
| memset_sqe : SdOp bool
| load_descs (addr count : Z) : SdOp (list UbMemAicpuTransferDesc)
| context_state (key : Z) : SdOp (option ThreadState)
| context_lock (key : Z) : SdOp unit
| context_state_locked (key : Z) : SdOp ThreadState
| context_unlock (key : Z) : SdOp unit
| store_status (addr result : Z) : SdOp unit.

(** Which weak driver symbols the device provides. *)
Record HalApi := mkHalApi {
  has_query_config : bool;
  has_local_dev_id : bool;
  has_restore : bool;
  has_report_recv : bool
}.

Abbreviation SdEnv := (Environment SdOp).
Abbreviation SdHistory := (History SdOp).
Abbreviation SdM := (M SdOp).

(** * Submission

    A C++ function that returns [false] fails with [kFailed]. *)
Section Submit.
Context (api : HalApi) {env : SdEnv}.

(** [check op]: an external call whose failure makes the caller return false. *)
Definition check {S} (op : SdOp bool) : SdM S unit :=
  let* ok := call op in require ok kFailed.

Definition MonotonicNs {S} : SdM S Z :=
  let* t := call clock_gettime_ns in ret (default 0 t).

Definition DeadlineExceeded {S} (deadline_ns : Z) : SdM S bool :=
  let* now := MonotonicNs in ret (deadline_ns <=? now).

Definition BuildSubmitDeadline {S} (timeout_ms : Z) : SdM S Z :=
  let effective_timeout_ms :=
    if 0 <? timeout_ms then timeout_ms else kRtsqPollDefaultTimeoutSec * 1000 in
  let* now_ns := MonotonicNs in
  require (negb (now_ns =? 0)) kFailed ;;
  ret (u64 (now_ns + effective_timeout_ms * kNsPerMillisecond)).

Definition QueryRtsqValues {S} (device_id sq_id : Z) (prop : SqProp) : SdM S (Z * Z) :=
  let* r := call (halSqCqQuery device_id sq_id prop) in
  match r with Some v => ret v | None => fail kFailed end.

Definition QueryRtsqValue {S} (device_id sq_id : Z) (prop : SqProp) : SdM S Z :=
  let* (low, _) := QueryRtsqValues device_id sq_id prop in ret low.

Definition IsExceptionLogicCqe (error_type : Z) : bool :=
  negb (Z.land error_type kStarsExistErrorMask =? 0).

(** InspectLogicCqReports on the first [n] reports of the buffer. *)
Definition InspectLogicCqReports (n : Z) (error_types : list Z) : bool :=
  negb (existsb IsExceptionLogicCqe (take (Z.to_nat n) error_types)).

Inductive UbMemLogicCqRecvResult := kEmpty | kReports (n : Z) (error_types : list Z) | kError.

Definition RecvLogicCqBatch {S} (q : UbMemRtsqState) : SdM S UbMemLogicCqRecvResult :=
  let* r := call (halCqReportRecv (rq_device_id q) (rq_stream_id q) (rq_logic_cq_id q)) in
  match r with
  | CqTimeout => ret kEmpty
  | CqError => ret kError
  | CqReports n error_types =>
      if n =? 0 then ret kEmpty
      else if kLogicCqReportCount <? n then ret kError
      else ret (kReports n error_types)
  end.

(** The loop of PollLogicCqUntilEmpty, one batch of reports per unit of fuel. *)
Fixpoint poll_logic_cq {S} (fuel : nat) (q : UbMemRtsqState) (deadline : Z) : SdM S unit :=
  match fuel with
  | O => stuck
  | Datatypes.S fuel' =>
      let* exceeded := (if deadline =? 0 then ret false else DeadlineExceeded deadline) in
      if exceeded : bool then fail kFailed
      else
        let* r := RecvLogicCqBatch q in
        match r with
        | kEmpty => ret tt
        | kError => fail kFailed
        | kReports n error_types =>
            if InspectLogicCqReports n error_types then poll_logic_cq fuel' q deadline
            else fail kFailed
        end
  end.

Definition PollLogicCqUntilEmpty {S} (fuel : nat) (q : UbMemRtsqState) (deadline : Z) : SdM S unit :=
  if negb (has_report_recv api) then ret tt else poll_logic_cq fuel q deadline.

Definition RestoreRtsqStream {S} (q : UbMemRtsqState) : SdM S unit :=
  if negb (has_restore api) then ret tt
  else check (halResourceIdRestore (rq_device_id q) (rq_stream_id q)).

Definition ResolveLocalDeviceId {S} (host_device_id : Z) : SdM S Z :=
  require (has_local_dev_id api) kFailed ;;
  let* r := call (drvGetLocalDevIDByHostDevID host_device_id) in
  match r with Some d => ret d | None => fail kFailed end.

Definition LoadRtsqQueueState {S} (q : UbMemRtsqState) : SdM S UbMemRtsqState :=
  let dev := rq_device_id q in
  let sq := rq_sq_id q in
  let* (base_low, base_high) := QueryRtsqValues dev sq SQ_BASE in
  let* depth := QueryRtsqValue dev sq SQ_DEPTH in
  let* head := QueryRtsqValue dev sq SQ_HEAD in
  let* tail := QueryRtsqValue dev sq SQ_TAIL in
  let base := Z.lor (Z.shiftl base_high 32) base_low in
  require (negb ((base =? 0) || (depth <=? 1) || (depth <=? head) || (depth <=? tail))) kFailed ;;
  require (kMaxRtsqEntriesPerPublish <? depth) kFailed ;;
  ret (mkRtsq dev sq (rq_stream_id q) (rq_logic_cq_id q) (rq_next_task_id q) base depth head tail
         (rq_format q)).

Definition InitializeRtsq {S} (param : UbMemAicpuKernelParam) (format : UbMemStarsSqeFormat)
    : SdM S UbMemRtsqState :=
  require (up_rtsq_id param <=? UINT16_MAX) kFailed ;;
  require (up_rtsq_stream_id param <=? UINT16_MAX) kFailed ;;
  require (has_query_config api) kFailed ;;
  let* device_id := ResolveLocalDeviceId (up_device_id param) in
  let q := mkRtsq device_id (up_rtsq_id param) (up_rtsq_stream_id param) (up_rtsq_logic_cq_id param)
             (up_rtsq_task_id param) 0 0 0 0 format in
  RestoreRtsqStream q ;;
  LoadRtsqQueueState q.

(** The ring arithmetic is on 32-bit words. *)
Definition rtsq_used (q : UbMemRtsqState) : Z :=
  u32 (rq_tail q + rq_depth q - rq_head q) mod rq_depth q.

Definition HasRtsqCapacity (q : UbMemRtsqState) (count : Z) : bool :=
  if (count =? 0) || (rq_depth q <=? count) then false
  else u32 (rtsq_used q + count) <? rq_depth q.

Definition EnsureRtsqCapacity (fuel : nat) (count deadline : Z) : SdM SdState unit :=
  let* s := get in
  let q := sd_queue s in
  require (negb ((count =? 0) || (rq_depth q <=? count))) kFailed ;;
  if HasRtsqCapacity q count then ret tt
  else
    PollLogicCqUntilEmpty fuel q deadline ;;
    let* head := QueryRtsqValue (rq_device_id q) (rq_sq_id q) SQ_HEAD in
    modify (with_queue (set_rq_head head q)) ;;
    require (HasRtsqCapacity (set_rq_head head q) count) kFailed.

Definition CopySqeBatchToRing : SdM SdState unit :=
  let* s := get in
  let q := sd_queue s in
  let batch := sd_batch s in
  let count := Z.of_nat (length batch) in
  let first_count := Z.min count (rq_depth q - rq_tail q) in
  check (memcpy_ring (rq_base_addr q + rq_tail q * kUbMemRtsqEntryBytes)
           ((rq_depth q - rq_tail q) * kUbMemRtsqEntryBytes) (take (Z.to_nat first_count) batch)) ;;
  if first_count <? count
  then check (memcpy_ring (rq_base_addr q) (rq_depth q * kUbMemRtsqEntryBytes)
                (drop (Z.to_nat first_count) batch))
  else ret tt.

Definition CommitRtsqTail (new_tail : Z) : SdM SdState unit :=
  let* s := get in
  let q := sd_queue s in
  check (halSqCqConfigTail (rq_device_id q) (rq_sq_id q) new_tail) ;;
  modify (with_queue (set_rq_tail new_tail q)).

Definition PublishRtsqBatch (fuel : nat) (deadline : Z) : SdM SdState unit :=
  let* s := get in
  let count := Z.of_nat (length (sd_batch s)) in
  if count =? 0 then ret tt
  else
    EnsureRtsqCapacity fuel count deadline ;;
    let* s := get in
    let q := sd_queue s in
    let new_tail := u32 (rq_tail q + count) mod rq_depth q in
    CopySqeBatchToRing ;;
    CommitRtsqTail new_tail ;;
    modify (with_batch []).

Definition flush_if_full (fuel : nat) (deadline : Z) : SdM SdState unit :=
  let* s := get in
  if Z.of_nat (length (sd_batch s)) =? kMaxRtsqEntriesPerPublish
  then PublishRtsqBatch fuel deadline else ret tt.

(** [state.next_task_id++] *)
Definition next_task_id : SdM SdState Z :=
  let* s := get in
  let id := rq_next_task_id (sd_queue s) in
  modify (with_queue (set_rq_next_task_id (u32 (id + 1)) (sd_queue s))) ;;
  ret id.

Definition push_entry (e : UbMemRtsqState -> Sqe) : SdM SdState unit :=
  check memset_sqe ;;
  modify (fun s => with_batch (sd_batch s ++ [e (sd_queue s)]) s).

(** The loop of AppendDescriptorTasks: one task per unit of fuel. *)
Fixpoint append_tasks (chunks fuel : nat) (source destination remaining deadline : Z)
    : SdM SdState unit :=
  if remaining <=? 0 then ret tt
  else
    match chunks with
    | O => stuck
    | Datatypes.S chunks' =>
        flush_if_full fuel deadline ;;
        let b := block_size remaining in
        let* task_id := next_task_id in
        push_entry (BuildSdmaEntry source destination b task_id) ;;
        append_tasks chunks' fuel (u64 (source + b)) (u64 (destination + b)) (remaining - b) deadline
    end.

(** Enough tasks for a descriptor of [n] bytes. *)
Definition task_fuel (n : Z) : nat := Z.to_nat (n / kMaxSdmaTransferBytes + 1).

Definition AppendDescriptorTasks (fuel : nat) (desc : UbMemAicpuTransferDesc) (deadline : Z)
    : SdM SdState unit :=
  append_tasks (task_fuel (ud_length desc)) fuel (ud_src_addr desc) (ud_dst_addr desc)
    (ud_length desc) deadline.

Definition AppendNotifyTask (fuel : nat) (notify_id deadline : Z) : SdM SdState unit :=
  flush_if_full fuel deadline ;;
  let* task_id := next_task_id in
  push_entry (BuildNotifyEntry notify_id task_id).

Definition AppendAndPublishSdmaTasks (fuel : nat) (descs : list UbMemAicpuTransferDesc) (deadline : Z)
    : SdM SdState unit :=
  for_each descs (fun d => AppendDescriptorTasks fuel d deadline) ;;
  PublishRtsqBatch fuel deadline.

Definition EmitNotifyRecord (fuel : nat) (notify_id deadline : Z) : SdM SdState unit :=
  let* s := get in
  let* cq := attempt (PollLogicCqUntilEmpty fuel (sd_queue s) deadline) in
  AppendNotifyTask fuel notify_id deadline ;;
  PublishRtsqBatch fuel deadline ;;
  match cq with inr _ => ret tt | inl e => fail e end.

(** The part of Submit after the queue was initialised. *)
Definition submit_tasks (fuel : nat) (param : UbMemAicpuKernelParam)
    (descs : list UbMemAicpuTransferDesc) (deadline : Z) : SdM SdState unit :=
  let* sdma := attempt (AppendAndPublishSdmaTasks fuel descs deadline) in
  let* notify :=
    (if negb (up_emit_notify_record param =? 0)
     then attempt (EmitNotifyRecord fuel (up_notify_id param) deadline) else ret (inr tt)) in
  match sdma, notify with
  | inr _, inr _ => ret tt
  | _, _ => fail kFailed
  end.

Definition UbMemStarsSdma_Submit (fuel : nat) (param : UbMemAicpuKernelParam)
    (descs : option (list UbMemAicpuTransferDesc)) : SdM SdState unit :=
  match ValidateSubmitArgs param descs with
  | None => fail kFailed
  | Some (format, ds) =>
      let* q := InitializeRtsq param format in
      let* deadline := BuildSubmitDeadline (up_timeout_ms param) in
      put (mkSdState q []) ;;
      submit_tasks fuel param ds deadline
  end.

Definition write_status {S} (param : option UbMemAicpuKernelParam) (result : Z) : SdM S unit :=
  match param with
  | Some p => if up_status_addr p =? 0 then ret tt else call (store_status (up_status_addr p) result)
  | None => ret tt
  end.

(** [write_status(param, kFailed); return kFailed;] *)
Definition reject {S} (param : option UbMemAicpuKernelParam) : SdM S Z :=
  write_status param kFailed ;; ret kFailed.

(** The rejected kernel parameters. *)
Definition invalid_param (p : UbMemAicpuKernelParam) (expected_direction : Z) : bool :=
  (up_desc_addr p =? 0) || (up_desc_count p =? 0) || (kMaxDescriptorsPerKernel <? up_desc_count p)
  || negb (up_direction p =? expected_direction) || (up_transfer_ctx_key p =? 0).

(** ExecuteBatch, the body of the two kernels.  Other kernels change the state of
    the context until this one holds its lock, so both reads of the state are
    replies of the environment; the guard unlocks on every return. *)
Definition ExecuteBatch (fuel : nat) (param : option UbMemAicpuKernelParam) (expected_direction : Z)
    : SdM SdState Z :=
  match param with
  | None => reject param
  | Some p =>
      if invalid_param p expected_direction then reject param
      else if negb (up_version p =? kUbMemKernelParamVersion) then reject param
      else
        let key := up_transfer_ctx_key p in
        let* ctx := call (context_state key) in
        if negb (bool_decide (ctx = Some INITIALIZED)) then reject param
        else
          call (context_lock key) ;;
          let* r :=
            (let* st := call (context_state_locked key) in
             if negb (bool_decide (st = INITIALIZED)) then reject param
             else
               let* descs := call (load_descs (up_desc_addr p) (up_desc_count p)) in
               let* submitted := attempt (UbMemStarsSdma_Submit fuel p (Some descs)) in
               let result := match submitted with inr _ => kSuccess | inl _ => kFailed end in
               write_status param result ;;
               ret result) in
          call (context_unlock key) ;;
          ret r
  end.

Definition HixlUbMemBatchRead fuel param := ExecuteBatch fuel param 0.
Definition HixlUbMemBatchWrite fuel param := ExecuteBatch fuel param 1.
End Submit.

(** * What the hardware executes

    The queue hardware reads the ring: a successful copy writes entries into ring
    slots, and a successful tail update hands the entries from the old to the new
    tail to the engine.  [hw h] replays a history of driver calls. *)
Record HW := mkHW { hw_ring : gmap Z Sqe; hw_tail : Z; hw_exec : list Sqe }.

Fixpoint ring_write (slot : Z) (es : list Sqe) (r : gmap Z Sqe) : gmap Z Sqe :=
  match es with [] => r | e :: es' => ring_write (slot + 1) es' (<[slot := e]> r) end.

Definition ring_read (depth slot : Z) (n : nat) (r : gmap Z Sqe) : list Sqe :=
  map (fun k => default [] (r !! ((slot + Z.of_nat k) mod depth))) (seq 0 n).

Definition hw_step (base depth : Z) (e : Event SdOp) (w : HW) : HW :=
  match e with
  | Ev op r =>
      match op in SdOp T return T -> HW with
      | memcpy_ring addr _ es => fun ok =>
          if ok : bool then mkHW (ring_write ((addr - base) / kUbMemRtsqEntryBytes) es (hw_ring w)) (hw_tail w) (hw_exec w)
          else w
      | halSqCqConfigTail _ _ t => fun ok =>
          if ok : bool then
            mkHW (hw_ring w) t
              (hw_exec w ++ ring_read depth (hw_tail w) (Z.to_nat ((t - hw_tail w) mod depth)) (hw_ring w))
          else w
      | _ => fun _ => w
      end r
  end.

Fixpoint hw (base depth : Z) (w0 : HW) (h : SdHistory) : HW :=
  match h with [] => w0 | e :: h' => hw_step base depth e (hw base depth w0 h') end.

Lemma ring_write_lookup es slot r i :
  ring_write slot es r !! i =
  if decide (slot <= i < slot + Z.of_nat (length es)) then es !! Z.to_nat (i - slot) else r !! i.
Proof.
  revert slot r. induction es as [|e es IH]; intros slot r; simpl.
  - rewrite decide_False by lia. done.
  - rewrite IH. destruct (decide (i = slot)) as [->|Hne].
    + rewrite decide_False by lia. rewrite decide_True by lia. rewrite lookup_insert_eq.
      by replace (slot - slot) with 0 by lia.
    + rewrite lookup_insert_ne by done. repeat case_decide; try lia; [|done].
      replace (Z.to_nat (i - slot)) with (S (Z.to_nat (i - (slot + 1)))) by lia. done.
Qed.

(** Entries copied at the tail, wrapping around the end of the ring, are read back
    in order. *)
Lemma ring_roundtrip depth tail (es : list Sqe) r :
  0 <= tail < depth -> Z.of_nat (length es) < depth ->
  let first := Z.min (Z.of_nat (length es)) (depth - tail) in
  ring_read depth tail (length es)
    (ring_write 0 (drop (Z.to_nat first) es) (ring_write tail (take (Z.to_nat first) es) r)) = es.
Proof.
  intros Ht Hl first. apply list_eq. intros k. unfold ring_read. rewrite list_lookup_fmap.
  destruct (decide (k < length es)%nat) as [Hk|Hk].
  - rewrite lookup_seq_lt by done. simpl. rewrite !ring_write_lookup, length_drop, length_take.
    destruct (lookup_lt_is_Some_2 es k Hk) as [e He].
    destruct (decide (tail + Z.of_nat k < depth)).
    + rewrite Z.mod_small by lia. rewrite decide_False by (subst first; lia).
      rewrite decide_True by (subst first; lia).
      replace (Z.to_nat (tail + Z.of_nat k - tail)) with k by lia.
      rewrite lookup_take_lt by (subst first; lia). by rewrite He.
    + replace ((tail + Z.of_nat k) mod depth) with (tail + Z.of_nat k - depth).
      2: { apply (Z.mod_unique _ _ 1); lia. }
      rewrite decide_True by (subst first; lia). rewrite lookup_drop.
      replace (Z.to_nat first + Z.to_nat (tail + Z.of_nat k - depth - 0))%nat with k by (subst first; lia).
      by rewrite He.
  - rewrite (lookup_ge_None_2 es) by lia. rewrite (lookup_ge_None_2 (seq _ _)); [done|].
    rewrite length_seq. lia.
Qed.

(** Without wrap-around the second copy is empty. *)
Lemma ring_write_nil slot r : ring_write slot [] r = r.
Proof. done. Qed.

(** * The tasks of a list of descriptors *)

(** The pieces of one descriptor: source, destination, size. *)
Fixpoint pieces (k : nat) (source destination remaining : Z) : list (Z * Z * Z) :=
  if remaining <=? 0 then []
  else match k with
       | O => []
       | S k' =>
           let b := block_size remaining in
           (source, destination, b) :: pieces k' (u64 (source + b)) (u64 (destination + b)) (remaining - b)
       end.
Definition desc_pieces (d : UbMemAicpuTransferDesc) : list (Z * Z * Z) :=
  pieces (task_fuel (ud_length d)) (ud_src_addr d) (ud_dst_addr d) (ud_length d).
Definition all_pieces (descs : list UbMemAicpuTransferDesc) : list (Z * Z * Z) :=
  concat (map desc_pieces descs).

(** The queue parameters that an entry depends on. *)
Definition queue_of (format : UbMemStarsSqeFormat) (stream_id : Z) : UbMemRtsqState :=
  mkRtsq 0 0 stream_id 0 0 0 0 0 0 format.

(** The entries of consecutive tasks, numbered from [id]. *)
Fixpoint numbered (q : UbMemRtsqState) (id : Z) (ps : list (Z * Z * Z)) : list Sqe :=
  match ps with
  | [] => []
  | (s, d, n) :: ps' => BuildSdmaEntry s d n id q :: numbered q (u32 (id + 1)) ps'
  end.
Fixpoint id_after (id : Z) (ps : list (Z * Z * Z)) : Z :=
  match ps with [] => id | _ :: ps' => id_after (u32 (id + 1)) ps' end.

Lemma numbered_app q id ps1 ps2 :
  numbered q id (ps1 ++ ps2) = numbered q id ps1 ++ numbered q (id_after id ps1) ps2.
Proof.
  revert id. induction ps1 as [|[[s d] n] ps1 IH]; intros id; simpl; [done|]. by rewrite IH.
Qed.
Lemma id_after_app id ps1 ps2 : id_after id (ps1 ++ ps2) = id_after (id_after id ps1) ps2.
Proof. revert id. induction ps1 as [|p ps1 IH]; intros id; simpl; auto. Qed.

(** The number of non-empty report batches the driver delivered. *)
Definition is_batch_of_reports (e : Event SdOp) : bool :=
  match e with
  | Ev op r =>
      match op in SdOp T return T -> bool with
      | halCqReportRecv _ _ _ => fun r => match r with CqReports n _ => negb (n =? 0) | _ => false end
      | _ => fun _ => false
      end r
  end.
Definition cq_batches (h : SdHistory) : nat := length (List.filter is_batch_of_reports h).

(** The driver delivers fewer than [fuel] batches of reports in all. *)
Definition cq_drains {env : SdEnv} (fuel : nat) : Prop :=
  (1 <= fuel)%nat /\
  forall dev st cq h, (fuel <= S (cq_batches h))%nat ->
    match reply_of _ (halCqReportRecv dev st cq) h with CqReports n _ => n = 0 | _ => True end.

Section Publishing.
Context (api : HalApi) {env : SdEnv} (fuel : nat) (base depth : Z) (w0 : HW).
Context (fmt : UbMemStarsSqeFormat) (stream : Z).
Hypothesis Hdepth : kMaxRtsqEntriesPerPublish < depth < 2 ^ 31.
Hypothesis Hdrains : cq_drains fuel.

Definition hwh (h : SdHistory) : HW := hw base depth w0 h.

Lemma hwh_cons e h : hwh (e :: h) = hw_step base depth e (hwh h).
Proof. done. Qed.

(** Between two driver calls: the hardware's tail is the queue's, and what was
    handed over together with the batch are the entries generated so far. *)
Record publishing (gen : list Sqe) (id : Z) (s : SdState) (h : SdHistory) : Prop := {
  pb_base : rq_base_addr (sd_queue s) = base;
  pb_depth : rq_depth (sd_queue s) = depth;
  pb_tail : 0 <= rq_tail (sd_queue s) < depth;
  pb_format : rq_format (sd_queue s) = fmt;
  pb_stream : rq_stream_id (sd_queue s) = stream;
  pb_id : rq_next_task_id (sd_queue s) = id;
  pb_hw : hw_tail (hwh h) = rq_tail (sd_queue s);
  pb_gen : hw_exec (hwh h) ++ sd_batch s = gen;
  pb_len : Z.of_nat (length (sd_batch s)) <= kMaxRtsqEntriesPerPublish
}.

Definition somehow (s : SdState) (h : SdHistory) : Prop := exists gen id, publishing gen id s h.

(** A computation that the hardware does not notice. *)
Definition unnoticed {S A : Type} (s : S) (h : SdHistory) (o : Status + A) (s' : S) (h' : SdHistory) : Prop :=
  s' = s /\ hwh h' = hwh h.

Lemma wp_poll {S} k q dl (s : S) h :
  (1 <= k)%nat -> (fuel <= k + cq_batches h)%nat ->
  wp (poll_logic_cq k q dl) (unnoticed s h) s h.
Proof.
  revert h. induction k as [|k IH]; intros h Hk Hf; [lia|]. simpl.
  apply wp_bind.
  eapply wp_mono with (P := fun o s' h' => (exists b, o = inr b) /\ s' = s /\ hwh h' = hwh h /\ cq_batches h' = cq_batches h).
  { destruct (dl =? 0); [apply wp_ret; eauto|]. unfold DeadlineExceeded, MonotonicNs.
    apply wp_bind, wp_bind, wp_call. intros r _. apply wp_ret, wp_ret. eauto. }
  intros o s' h' ([b ->] & -> & Hh & Hc). destruct b; [by apply wp_fail|].
  unfold RecvLogicCqBatch. apply wp_bind, wp_bind, wp_call. intros r Hr.
  destruct r as [| |n es]; [by apply wp_ret, wp_ret | by apply wp_ret, wp_fail|].
  destruct (n =? 0) eqn:Hn; [by apply wp_ret, wp_ret|].
  destruct (kLogicCqReportCount <? n); [by apply wp_ret, wp_fail|]. apply wp_ret.
  destruct (InspectLogicCqReports n es); [|by apply wp_fail].
  assert (Hb : cq_batches (Ev (halCqReportRecv (rq_device_id q) (rq_stream_id q) (rq_logic_cq_id q)) (CqReports n es) :: h')
               = Datatypes.S (cq_batches h')) by (unfold cq_batches; simpl; by rewrite Hn).
  destruct k as [|k].
  - exfalso. destruct Hdrains as [_ Hd].
    specialize (Hd (rq_device_id q) (rq_stream_id q) (rq_logic_cq_id q) h').
    rewrite <- Hr in Hd. apply Z.eqb_neq in Hn. apply Hn, Hd. lia.
  - eapply wp_mono; [apply IH; [lia|rewrite Hb; lia]|]. intros o s' h'' [-> Hh']. split; [done|].
    rewrite Hh'. exact Hh.
Qed.

Lemma wp_PollLogicCq {S} q dl (s : S) h :
  wp (PollLogicCqUntilEmpty api fuel q dl) (unnoticed s h) s h.
Proof.
  unfold PollLogicCqUntilEmpty. case_match; [by apply wp_ret|]. destruct Hdrains as [H1 _].
  apply wp_poll; lia.
Qed.

(** Making room only refreshes the head. *)
Lemma wp_EnsureRtsqCapacity count dl gen id s h :
  publishing gen id s h ->
  wp (EnsureRtsqCapacity api fuel count dl)
    (fun _ s' h' => publishing gen id s' h' /\ sd_batch s' = sd_batch s) s h.
Proof.
  intros Hp. unfold EnsureRtsqCapacity. apply wp_bind, wp_get.
  apply wp_bind, wp_require; intros _; [|done].
  destruct (HasRtsqCapacity _ _); [by apply wp_ret|].
  apply wp_bind. eapply wp_mono; [apply wp_PollLogicCq|].
  assert (Hq : forall h', hwh h' = hwh h -> publishing gen id s h').
  { intros h' Hh. destruct Hp. split; try done; by rewrite Hh. }
  intros [e|[]] s' h' [-> Hh]; [split; auto|].
  unfold QueryRtsqValue, QueryRtsqValues. apply wp_bind, wp_bind, wp_bind, wp_call. intros r _.
  destruct r as [[low high]|]; [|apply wp_fail; split; auto]. apply wp_ret, wp_ret, wp_bind, wp_modify.
  assert (Hs : publishing gen id (with_queue (set_rq_head low (sd_queue s)) s)
    (Ev (halSqCqQuery (rq_device_id (sd_queue s)) (rq_sq_id (sd_queue s)) SQ_HEAD) (Some (low, high)) :: h')).
  { destruct (Hq h' Hh). by split. }
  apply wp_require; intros _; done.
Qed.

(** Copying the batch and committing the tail hands exactly the batch over. *)
Lemma wp_copy_commit gen id s h :
  publishing gen id s h -> 
  let q := sd_queue s in
  let new_tail := u32 (rq_tail q + Z.of_nat (length (sd_batch s))) mod rq_depth q in
  wp (CopySqeBatchToRing ;; CommitRtsqTail new_tail ;; modify (with_batch []))
    (fun o s' h' => match o with
       | inr _ => publishing gen id s' h' /\ sd_batch s' = []
       | inl _ => publishing gen id s' h' end) s h.
Proof.
  intros Hp q new_tail. pose proof Hp as [Hb Hd Ht Hf Hst Hid Hh Hg Hl].
  fold q in Hb, Hd, Ht, Hf, Hst, Hid, Hh.
  assert (Hw : forall h' r, hwh h' = mkHW r (hw_tail (hwh h)) (hw_exec (hwh h)) -> publishing gen id s h').
  { intros h' r Hh'. split; try done; by rewrite Hh'. }
  unfold CopySqeBatchToRing. apply wp_bind, wp_bind, wp_get. fold q.
  set (n := Z.of_nat (length (sd_batch s))) in *. set (first := Z.min n (rq_depth q - rq_tail q)).
  assert (Hslot : (base + rq_tail q * kUbMemRtsqEntryBytes - base) / kUbMemRtsqEntryBytes = rq_tail q).
  { replace (base + rq_tail q * kUbMemRtsqEntryBytes - base) with (rq_tail q * kUbMemRtsqEntryBytes) by lia.
    apply Z.div_mul. done. }
  assert (Htail : new_tail = (rq_tail q + n) mod depth).
  { unfold new_tail. rewrite u32_small; [by rewrite Hd|]. unfold kMaxRtsqEntriesPerPublish in *. ulia. }
  assert (Hcount : Z.to_nat ((new_tail - rq_tail q) mod depth) = length (sd_batch s)).
  { rewrite Htail. rewrite Zminus_mod_idemp_l. replace (rq_tail q + n - rq_tail q) with n by lia.
    rewrite Z.mod_small by (unfold kMaxRtsqEntriesPerPublish in *; lia). subst n. lia. }
  set (r1 := ring_write (rq_tail q) (take (Z.to_nat first) (sd_batch s)) (hw_ring (hwh h))).
  set (r2 := ring_write 0 (drop (Z.to_nat first) (sd_batch s)) r1).
  assert (Hread : ring_read depth (rq_tail q) (length (sd_batch s)) r2 = sd_batch s).
  { unfold r2, r1, first. rewrite Hd. apply (ring_roundtrip depth (rq_tail q) (sd_batch s)); [done|].
    unfold kMaxRtsqEntriesPerPublish in *; lia. }
  unfold check at 1. apply wp_bind, wp_bind, wp_call. intros ok1 _. apply wp_require; intros ->.
  2: { apply (Hw _ (hw_ring (hwh h))). rewrite hwh_cons. simpl. by destruct (hwh h). }
  assert (Hmid : forall h1, hwh h1 = mkHW r2 (rq_tail q) (hw_exec (hwh h)) ->
    wp (CommitRtsqTail new_tail ;; modify (with_batch [])) (fun o s' h' => match o with
       | inr _ => publishing gen id s' h' /\ sd_batch s' = []
       | inl _ => publishing gen id s' h' end) s h1).
  { intros h1 Hh1. unfold CommitRtsqTail. apply wp_bind, wp_bind, wp_get. unfold check.
    apply wp_bind, wp_bind, wp_call. intros ok _. apply wp_require; intros ->.
    - apply wp_modify, wp_modify. split; [|done].
      split; simpl; try done.
      + rewrite Htail. apply Z.mod_pos_bound. lia.
      + fold (hwh h1). rewrite Hh1. simpl. rewrite Hcount, Hread, app_nil_r. exact Hg.
    - apply (Hw _ r2). rewrite hwh_cons. simpl. rewrite Hh1, <- Hh. done. }
  destruct (first <? n) eqn:Hfn.
  - unfold check. apply wp_bind, wp_call. intros ok2 _. apply wp_require; intros ->.
    + apply Hmid. rewrite !hwh_cons. simpl. rewrite Hb, Hslot, Hh. fold r1.
      replace ((base - base) / kUbMemRtsqEntryBytes) with 0 by (rewrite Z.sub_diag; done). done.
    + apply (Hw _ r1). rewrite !hwh_cons. simpl. by rewrite Hb, Hslot.
  - apply wp_ret. apply Hmid. rewrite !hwh_cons. simpl. rewrite Hb, Hslot, Hh. fold r1.
    unfold r2. rewrite drop_ge by (subst n first; lia). done.
Qed.

Lemma wp_PublishRtsqBatch dl gen id s h :
  publishing gen id s h ->
  wp (PublishRtsqBatch api fuel dl)
    (fun o s' h' => publishing gen id s' h' /\ match o with inr _ => sd_batch s' = [] | inl _ => True end) s h.
Proof.
  intros Hp. unfold PublishRtsqBatch. apply wp_bind, wp_get.
  destruct (_ =? 0) eqn:E.
  { apply wp_ret. split; [done|]. apply Z.eqb_eq in E. apply nil_length_inv. lia. }
  apply wp_bind. eapply wp_mono; [by apply wp_EnsureRtsqCapacity|].
  intros [e|[]] s1 h1 [Hp1 Hb]; [done|]. apply wp_bind, wp_get. rewrite <- Hb.
  eapply wp_mono; [by eapply wp_copy_commit|]. intros [e|[]] s2 h2 H; tauto.
Qed.

Lemma wp_flush_if_full dl gen id s h :
  publishing gen id s h ->
  wp (flush_if_full api fuel dl)
    (fun o s' h' => publishing gen id s' h' /\
       match o with
       | inr _ => Z.of_nat (length (sd_batch s')) < kMaxRtsqEntriesPerPublish
       | inl _ => True end) s h.
Proof.
  intros Hp. unfold flush_if_full. apply wp_bind, wp_get.
  destruct (Z.eqb_spec (Z.of_nat (length (sd_batch s))) kMaxRtsqEntriesPerPublish) as [E|E].
  - eapply wp_mono; [by apply wp_PublishRtsqBatch|]. intros [e|[]] s' h' [H1 H2]; [done|].
    split; [done|]. by rewrite H2.
  - apply wp_ret. split; [done|]. pose proof (pb_len _ _ _ _ Hp). lia.
Qed.

Lemma entry_queue q s d n id :
  rq_format q = fmt -> rq_stream_id q = stream ->
  BuildSdmaEntry s d n id q = BuildSdmaEntry s d n id (queue_of fmt stream).
Proof.
  intros <- <-. unfold BuildSdmaEntry, BuildA3SdmaSqe, BuildA5SdmaSqe. simpl. by destruct (rq_format q).
Qed.

Lemma notify_queue q n id :
  rq_format q = fmt -> rq_stream_id q = stream ->
  BuildNotifyEntry n id q = BuildNotifyEntry n id (queue_of fmt stream).
Proof.
  intros <- <-. unfold BuildNotifyEntry, BuildA3NotifySqe, BuildA5NotifySqe. simpl. by destruct (rq_format q).
Qed.

(** Before a task is appended the batch is flushed when it is full, and the task
    gets its number. *)
Lemma wp_number_task {B} (k : Z -> SdM SdState B) dl gen id s h Q :
  publishing gen id s h ->
  (forall s' h', publishing gen (u32 (id + 1)) s' h' ->
     Z.of_nat (length (sd_batch s')) < kMaxRtsqEntriesPerPublish -> wp (k id) Q s' h') ->
  (forall e s' h', somehow s' h' -> Q (inl e) s' h') ->
  wp (flush_if_full api fuel dl ;; let* i := next_task_id in k i) Q s h.
Proof.
  intros Hp Hk Hq. apply wp_bind. eapply wp_mono; [by apply wp_flush_if_full|].
  intros [e|[]] s1 h1 [Hp1 Hl]; [apply Hq; by exists gen, id|].
  unfold next_task_id. apply wp_bind, wp_bind, wp_get, wp_bind, wp_modify, wp_ret.
  rewrite (pb_id _ _ _ _ Hp1). apply Hk; [|done].
  destruct Hp1 as [Hb Hd Ht Hfm Hst Hid Hh Hg Hlen]. split; simpl; try done; by rewrite Hid.
Qed.

Lemma wp_push_entry (f : UbMemRtsqState -> Sqe) gen id s h :
  (forall q, rq_format q = fmt -> rq_stream_id q = stream -> f q = f (queue_of fmt stream)) ->
  publishing gen id s h -> Z.of_nat (length (sd_batch s)) < kMaxRtsqEntriesPerPublish ->
  wp (push_entry f) (fun o s' h' => match o with
      | inr _ => publishing (gen ++ [f (queue_of fmt stream)]) id s' h' | inl _ => somehow s' h' end) s h.
Proof.
  intros Hf Hp Hl. pose proof Hp as [Hb Hd Ht Hfm Hst Hid Hh Hg Hlen]. unfold push_entry, check.
  apply wp_bind, wp_bind, wp_call. intros ok _. apply wp_require; intros ->.
  2: { exists gen, id. by split. }
  apply wp_modify.
  split; simpl; try done.
  - rewrite app_assoc. change (hw_exec _) with (hw_exec (hwh h)). rewrite Hg. f_equal. f_equal. by apply Hf.
  - rewrite length_app. simpl. lia.
Qed.

Lemma wp_append_tasks k src dst rem dl gen id s h :
  rem <= Z.of_nat k * kMaxSdmaTransferBytes -> publishing gen id s h ->
  wp (append_tasks api k fuel src dst rem dl)
    (fun o s' h' => match o with
       | inr _ => publishing (gen ++ numbered (queue_of fmt stream) id (pieces k src dst rem))
                    (id_after id (pieces k src dst rem)) s' h'
       | inl _ => somehow s' h' end) s h.
Proof.
  revert src dst rem gen id s h. induction k as [|k IH]; intros src dst rem gen id s h Hk Hp; simpl.
  - rewrite (proj2 (Z.leb_le rem 0)) by lia. apply wp_ret. by rewrite app_nil_r.
  - destruct (rem <=? 0) eqn:E; [apply wp_ret; by rewrite app_nil_r|]. apply Z.leb_gt in E.
    apply wp_number_task with (gen := gen) (id := id); [done| |done].
    intros s1 h1 Hp1 Hl. apply wp_bind.
    eapply wp_mono; [apply wp_push_entry; [intros q; apply entry_queue|exact Hp1|done]|].
    intros [e|[]] s2 h2 Hp2; [done|].
    eapply wp_mono; [apply IH; [unfold block_size, kMaxSdmaTransferBytes in *; lia|exact Hp2]|].
    intros [e|[]] s' h' H; [done|]. simpl. by rewrite <- app_assoc in H.
Qed.

Lemma task_fuel_enough n : 0 <= n -> n <= Z.of_nat (task_fuel n) * kMaxSdmaTransferBytes.
Proof.
  intros Hn. unfold task_fuel. rewrite Z2Nat.id.
  - pose proof (Z.mod_pos_bound n kMaxSdmaTransferBytes ltac:(done)).
    pose proof (Z.div_mod n kMaxSdmaTransferBytes ltac:(done)). lia.
  - assert (0 <= n / kMaxSdmaTransferBytes) by (apply Z.div_pos; [done|reflexivity]). lia.
Qed.

Lemma wp_append_all descs dl gen id s h :
  Forall (fun d => 0 <= ud_length d) descs -> publishing gen id s h ->
  wp (for_each descs (fun d => AppendDescriptorTasks api fuel d dl))
    (fun o s' h' => match o with
       | inr _ => publishing (gen ++ numbered (queue_of fmt stream) id (all_pieces descs))
                    (id_after id (all_pieces descs)) s' h'
       | inl _ => somehow s' h' end) s h.
Proof.
  intros Hd. revert gen id s h. induction Hd as [|d descs Hd Hds IH]; intros gen id s h Hp; simpl.
  - apply wp_ret. by rewrite app_nil_r.
  - apply wp_bind. eapply wp_mono; [apply wp_append_tasks; [by apply task_fuel_enough|exact Hp]|].
    intros [e|[]] s1 h1 H1; [done|]. fold (desc_pieces d) in H1. eapply wp_mono; [by apply IH|].
    intros [e|[]] s2 h2 H2; [done|]. unfold all_pieces in *. simpl.
    rewrite numbered_app, id_after_app, app_assoc. exact H2.
Qed.

Lemma wp_AppendAndPublish descs dl gen id s h :
  Forall (fun d => 0 <= ud_length d) descs -> publishing gen id s h ->
  wp (AppendAndPublishSdmaTasks api fuel descs dl)
    (fun o s' h' => match o with
       | inr _ => publishing (gen ++ numbered (queue_of fmt stream) id (all_pieces descs))
                    (id_after id (all_pieces descs)) s' h' /\ sd_batch s' = []
       | inl _ => somehow s' h' end) s h.
Proof.
  intros Hd Hp. unfold AppendAndPublishSdmaTasks. apply wp_bind.
  eapply wp_mono; [by apply wp_append_all|]. intros [e|[]] s1 h1 H1; [done|].
  eapply wp_mono; [by apply wp_PublishRtsqBatch|]. intros [e|[]] s2 h2 [H2 H2']; [by eexists _, _|done].
Qed.

Lemma wp_EmitNotifyRecord n dl gen id s h :
  publishing gen id s h ->
  wp (EmitNotifyRecord api fuel n dl)
    (fun o s' h' => match o with
       | inr _ => publishing (gen ++ [BuildNotifyEntry n id (queue_of fmt stream)]) (u32 (id + 1)) s' h' /\
                  sd_batch s' = []
       | inl _ => somehow s' h' end) s h.
Proof.
  intros Hp. unfold EmitNotifyRecord. apply wp_bind, wp_get, wp_bind, wp_attempt.
  eapply wp_mono; [apply wp_PollLogicCq|]. intros cq s1 h1 [-> Hh].
  assert (Hp1 : publishing gen id s h1) by (destruct Hp; split; try done; by rewrite Hh).
  apply wp_bind. unfold AppendNotifyTask.
  apply wp_number_task with (gen := gen) (id := id); [done| |done]. intros s2 h2 Hp2 Hl.
  eapply wp_mono; [apply wp_push_entry; [intros q; apply notify_queue|exact Hp2|done]|].
  intros [e|[]] s3 h3 Hp3; [done|]. apply wp_bind.
  eapply wp_mono; [by apply wp_PublishRtsqBatch|]. intros [e|[]] s4 h4 [Hp4 Hb4]; [by eexists _, _|].
  destruct cq; [apply wp_fail; by eexists _, _ | by apply wp_ret].
Qed.

(** The tasks of a submission. *)
Definition submitted (param : UbMemAicpuKernelParam) (descs : list UbMemAicpuTransferDesc) (id : Z) : list Sqe :=
  numbered (queue_of fmt stream) id (all_pieces descs) ++
  (if up_emit_notify_record param =? 0 then []
   else [BuildNotifyEntry (up_notify_id param) (id_after id (all_pieces descs)) (queue_of fmt stream)]).

Lemma wp_submit_tasks param descs dl id s h :
  Forall (fun d => 0 <= ud_length d) descs ->
  publishing (hw_exec (hwh h)) id s h -> sd_batch s = [] ->
  wp (submit_tasks api fuel param descs dl)
    (fun o s' h' => match o with
       | inr _ => hw_exec (hwh h') = hw_exec (hwh h) ++ submitted param descs id
       | inl _ => True end) s h.
Proof.
  intros Hd Hp Hb. unfold submit_tasks, submitted. apply wp_bind, wp_attempt.
  eapply wp_mono; [by apply wp_AppendAndPublish|].
  intros [e|[]] s1 h1 H1; apply wp_bind.
  - destruct H1 as (gen & i & H1). destruct (negb _); [|by apply wp_ret, wp_fail]. apply wp_attempt.
    eapply wp_mono; [by apply wp_EmitNotifyRecord|]. intros [e'|[]] s2 h2 _; by apply wp_fail.
  - destruct H1 as [H1 Hb1]. destruct (up_emit_notify_record param =? 0); simpl.
    + apply wp_ret, wp_ret. pose proof (pb_gen _ _ _ _ H1) as Hg. rewrite Hb1, app_nil_r in Hg.
      by rewrite Hg, app_nil_r.
    + apply wp_attempt. eapply wp_mono; [by apply wp_EmitNotifyRecord|].
      intros [e|[]] s2 h2 H2; [by apply wp_fail|]. apply wp_ret. destruct H2 as [H2 Hb2].
      pose proof (pb_gen _ _ _ _ H2) as Hg. rewrite Hb2, app_nil_r in Hg. by rewrite Hg, app_assoc.
Qed.
End Publishing.

(** * What the entries say *)

(** The pieces follow each other from [src] and [dst] and make up [rem] bytes, each
    of a size that one SDMA task can carry. *)
Fixpoint tiles (src dst rem : Z) (ps : list (Z * Z * Z)) : Prop :=
  match ps with
  | [] => rem = 0
  | (s, d, n) :: ps' =>
      s = src /\ d = dst /\ 0 < n <= kMaxSdmaTransferBytes /\ tiles (src + n) (dst + n) (rem - n) ps'
  end.

Lemma block_size_spec k rem :
  0 < rem <= Z.of_nat (S k) * kMaxSdmaTransferBytes ->
  0 < block_size rem <= kMaxSdmaTransferBytes /\ 0 <= rem - block_size rem <= Z.of_nat k * kMaxSdmaTransferBytes.
Proof.
  intros H. unfold block_size. assert (0 < kMaxSdmaTransferBytes) by reflexivity.
  generalize dependent kMaxSdmaTransferBytes. intros m Hm1 Hm2. nia.
Qed.

Lemma pieces_tile k src dst rem :
  0 <= src -> 0 <= dst -> 0 <= rem <= Z.of_nat k * kMaxSdmaTransferBytes ->
  src + rem <= UINT64_MAX -> dst + rem <= UINT64_MAX ->
  tiles src dst rem (pieces k src dst rem).
Proof.
  revert src dst rem. induction k as [|k IH]; intros src dst rem Hs Hd Hr Hs' Hd'; cbn [pieces].
  - rewrite (proj2 (Z.leb_le rem 0)) by lia. simpl. lia.
  - destruct (rem <=? 0) eqn:E; [apply Z.leb_le in E; simpl; lia|]. apply Z.leb_gt in E.
    destruct (block_size_spec k rem) as [Hb Hrest]; [lia|]. set (b := block_size rem) in *. clearbody b.
    cbn [tiles]. rewrite (u64_small (src + b)) by ulia. rewrite (u64_small (dst + b)) by ulia.
    split; [done|]. split; [done|]. split; [done|]. apply IH; lia.
Qed.

(** Valid descriptors are cut into tiles. *)
Lemma desc_pieces_tile d :
  is_u64 (ud_src_addr d) -> is_u64 (ud_dst_addr d) -> is_u64 (ud_length d) ->
  IsValidDescriptor d = true ->
  tiles (ud_src_addr d) (ud_dst_addr d) (ud_length d) (desc_pieces d).
Proof.
  intros H1 H2 H3 Hv. unfold IsValidDescriptor in Hv. case_match; [done|].
  apply andb_true_iff in Hv as [Hv1%Z.leb_le Hv2%Z.leb_le].
  apply pieces_tile; try ulia. split; [ulia|]. apply task_fuel_enough. ulia.
Qed.

Lemma tiles_range src dst rem ps s d n :
  0 <= src -> 0 <= dst -> tiles src dst rem ps -> src + rem <= UINT64_MAX -> dst + rem <= UINT64_MAX ->
  (s, d, n) ∈ ps -> is_u64 s /\ is_u64 d /\ is_u32 n.
Proof.
  revert src dst rem. induction ps as [|[[s0 d0] n0] ps IH]; intros src dst rem Hs Hd Ht Hs' Hd' Hin.
  { by apply not_elem_of_nil in Hin. }
  destruct Ht as (-> & -> & Hn & Ht). 
  assert (Hrem : 0 <= rem - n0).
  { clear - Ht. revert Ht. generalize (src + n0), (dst + n0), (rem - n0). induction ps as [|[[a b] c] ps IH]; simpl.
    - intros ? ? z ->. lia.
    - intros x y z (_ & _ & Hc & Ht). apply IH in Ht. lia. }
  apply elem_of_cons in Hin as [Heq|Hin].
  - simplify_eq. unfold kMaxSdmaTransferBytes in *. ulia.
  - eapply (IH (src + n0) (dst + n0) (rem - n0)); try done; lia.
Qed.

(** Reading a queue entry as the hardware does (ubmem_stars_rtsq.h). *)
Definition word (e : Sqe) (i : nat) : Z := nth i e 0.
Definition length_word (format : UbMemStarsSqeFormat) : nat :=
  match format with kStarsV1 => 7 | kStarsV2 => 12 end.
Definition decode_sdma (format : UbMemStarsSqeFormat) (e : Sqe) : Z * Z * Z :=
  (word e 8 + 2 ^ 32 * word e 9, word e 10 + 2 ^ 32 * word e 11, word e (length_word format)).
Definition sqe_type (e : Sqe) : Z := Z.land (word e 0) 63.
Definition decode_notify (format : UbMemStarsSqeFormat) (e : Sqe) : Z :=
  word e 2 mod NotifyIdLimit format.

Lemma split_u64 x : is_u64 x -> u32 x + 2 ^ 32 * u32 (Z.shiftr x 32) = x.
Proof.
  intros Hx. rewrite Z.shiftr_div_pow2 by lia.
  rewrite (u32_small (x / _)) by (split; [apply Z.div_pos; ulia|apply Z.div_lt_upper_bound; ulia]).
  unfold u32, wrap. pose proof (Z.div_mod x (2 ^ 32) ltac:(lia)). lia.
Qed.

Lemma decode_BuildSdmaEntry s d n id q :
  is_u64 s -> is_u64 d -> is_u32 n ->
  decode_sdma (rq_format q) (BuildSdmaEntry s d n id q) = (s, d, n) /\
  sqe_type (BuildSdmaEntry s d n id q) = 11 /\ length (BuildSdmaEntry s d n id q) = 16%nat.
Proof.
  intros Hs Hd Hn. unfold BuildSdmaEntry, decode_sdma, sqe_type, word.
  destruct (rq_format q); simpl; rewrite !split_u64, u32_small by done; done.
Qed.

Lemma decode_BuildNotifyEntry n id q :
  0 <= n < NotifyIdLimit (rq_format q) ->
  decode_notify (rq_format q) (BuildNotifyEntry n id q) = n /\
  sqe_type (BuildNotifyEntry n id q) = 6 /\ length (BuildNotifyEntry n id q) = 16%nat.
Proof.
  intros Hn. unfold BuildNotifyEntry, decode_notify, sqe_type, word.
  destruct (rq_format q); simpl in *; unfold wrap, kUbMemA3NotifyIdLimit, kUbMemA5NotifyIdLimit in *;
    rewrite ?Zmod_mod, ?Z.mod_small by done; done.
Qed.

Lemma decode_numbered q id ps :
  (forall s d n, (s, d, n) ∈ ps -> is_u64 s /\ is_u64 d /\ is_u32 n) ->
  map (decode_sdma (rq_format q)) (numbered q id ps) = ps.
Proof.
  revert id. induction ps as [|[[s d] n] ps IH]; intros id H; simpl; [done|].
  destruct (H s d n) as (H1 & H2 & H3); [by left|].
  destruct (decode_BuildSdmaEntry s d n id q H1 H2 H3) as [-> _]. f_equal. apply IH.
  intros s' d' n' Hin. apply H. by right.
Qed.

(** * Initialisation *)
Definition quiet_event (e : Event SdOp) : Prop := forall base depth w, hw_step base depth e w = w.

Lemma hw_quiet base depth w0 t h : Forall quiet_event t -> hw base depth w0 (t ++ h) = hw base depth w0 h.
Proof. induction 1 as [|e t He Ht IH]; simpl; [done|]. by rewrite He, IH. Qed.

(** What the code relies on of the queue queries: 32-bit values, and a ring that is
    not larger than the driver's limit. *)
Definition queries_ok {env : SdEnv} : Prop :=
  forall dev sq prop h lo hi, reply_of _ (halSqCqQuery dev sq prop) h = Some (lo, hi) ->
    is_u32 lo /\ is_u32 hi /\ (prop = SQ_DEPTH -> lo < 2 ^ 31).

Section Init.
Context (api : HalApi) {env : SdEnv}.
Hypothesis Hqueries : queries_ok.

Lemma wp_query {S} dev sq prop (s : S) h :
  wp (QueryRtsqValue dev sq prop)
    (fun o s' h' => s' = s /\ exists t, h' = t ++ h /\ Forall quiet_event t /\
       match o with inr v => is_u32 v /\ (prop = SQ_DEPTH -> v < 2 ^ 31) | inl _ => True end) s h.
Proof.
  unfold QueryRtsqValue, QueryRtsqValues. apply wp_bind, wp_bind, wp_call. intros r Hr.
  destruct r as [[lo hi]|].
  - apply wp_ret, wp_ret. split; [done|]. eexists [_]. split; [done|]. split; [by repeat constructor|].
    symmetry in Hr. apply Hqueries in Hr. tauto.
  - apply wp_fail. split; [done|]. eexists [_]. split; [done|]. split; [by repeat constructor|done].
Qed.

(** The queue that a successful initialisation leaves. *)
Definition initialised (param : UbMemAicpuKernelParam) (format : UbMemStarsSqeFormat) (q : UbMemRtsqState) : Prop :=
  rq_stream_id q = up_rtsq_stream_id param /\ rq_next_task_id q = up_rtsq_task_id param /\
  rq_format q = format /\ 0 <= rq_tail q < rq_depth q /\
  kMaxRtsqEntriesPerPublish < rq_depth q < 2 ^ 31.

Lemma wp_InitializeRtsq {S} param format (s : S) h :
  wp (InitializeRtsq api param format)
    (fun o s' h' => match o with
       | inr q => initialised param format q /\ exists t, h' = t ++ h /\ Forall quiet_event t
       | inl _ => True end) s h.
Proof.
  unfold InitializeRtsq. do 3 (apply wp_bind, wp_require; intros _; [|done]).
  unfold ResolveLocalDeviceId. apply wp_bind, wp_bind, wp_require; intros _; [|done].
  apply wp_bind, wp_call. intros [d|] _; [|by apply wp_fail]. apply wp_ret. cbv zeta.
  apply wp_bind. eapply wp_mono with (P := fun o s' h' => match o with
     | inr _ => exists t, h' = t ++ h /\ Forall quiet_event t | inl _ => True end).
  { unfold RestoreRtsqStream, check. case_match; [apply wp_ret; eexists [_]; split; [done|by repeat constructor]|].
    apply wp_bind, wp_call. intros ok _. apply wp_require; intros ->; [|done].
    eexists [_; _]. split; [done|by repeat constructor]. }
  intros [e|[]] s1 h1; [done|]. intros (t1 & -> & Ht1).
  unfold LoadRtsqQueueState, QueryRtsqValues at 1. simpl. apply wp_bind, wp_bind, wp_call. intros r Hr.
  destruct r as [[lo hi]|]; [|by apply wp_fail]. apply wp_ret.
  apply wp_bind. eapply wp_mono; [apply wp_query|].
  intros [e|depth] ? ? (-> & t2 & -> & Ht2 & Hv2); [done|].
  apply wp_bind. eapply wp_mono; [apply wp_query|].
  intros [e|head] ? ? (-> & t3 & -> & Ht3 & Hv3); [done|].
  apply wp_bind. eapply wp_mono; [apply wp_query|].
  intros [e|tail] ? ? (-> & t4 & -> & Ht4 & Hv4); [done|].
  apply wp_bind, wp_require; intros Hchk; [|done]. apply wp_bind, wp_require; intros Hmin; [|done].
  apply wp_ret. apply negb_true_iff in Hchk. rewrite !orb_false_iff in Hchk.
  destruct Hchk as [[[_ _] _] Htl%Z.leb_gt]. apply Z.ltb_lt in Hmin. destruct Hv2 as [_ Hv2], Hv4 as [Hv4 _].
  split; [split_and!; try done; simpl; try apply Hv4; by apply Hv2|].
  eexists (t4 ++ t3 ++ t2 ++ _ :: t1). split; [by rewrite <- !app_assoc|].
  rewrite !Forall_app. repeat split; try done. constructor; done.
Qed.
End Init.

(** The calls of a submission: it neither touches the context nor the status word. *)
Definition submit_event (e : Event SdOp) : Prop :=
  match e with
  | Ev op _ =>
      match op with
      | load_descs _ _ | context_state _ | context_lock _ | context_state_locked _
      | context_unlock _ | store_status _ _ => False
      | _ => True
      end
  end.

Section Submit_calls.
Context (api : HalApi) {env : SdEnv}.

Lemma emits_check {S} (op : SdOp bool) :
  (forall r, submit_event (Ev op r)) -> emits submit_event (check op : SdM S unit).
Proof. intros H. unfold check. solve_emits. done. Qed.
#[local] Hint Extern 1 (emits _ (check _)) => apply emits_check; done : emits.

(** Polling reads the clock and the completion queue. *)
Lemma emits_poll_calls (P : Event SdOp -> Prop) {S} fuel q dl :
  (forall r, P (Ev clock_gettime_ns r)) ->
  (forall dev st cq r, P (Ev (halCqReportRecv dev st cq) r)) ->
  emits P (PollLogicCqUntilEmpty api fuel q dl : SdM S unit).
Proof.
  intros Hc Hr. unfold PollLogicCqUntilEmpty. destruct (negb _); [auto with emits|].
  induction fuel as [|fuel IH]; simpl; [auto with emits|].
  unfold DeadlineExceeded, MonotonicNs, RecvLogicCqBatch. solve_emits; done.
Qed.

Lemma emits_poll {S} fuel q dl : emits submit_event (PollLogicCqUntilEmpty api fuel q dl : SdM S unit).
Proof. by apply emits_poll_calls. Qed.
#[local] Hint Resolve emits_poll : emits.

Lemma emits_publish fuel dl : emits submit_event (PublishRtsqBatch api fuel dl).
Proof.
  unfold PublishRtsqBatch, EnsureRtsqCapacity, CopySqeBatchToRing, CommitRtsqTail, QueryRtsqValue,
    QueryRtsqValues. solve_emits; done.
Qed.
#[local] Hint Resolve emits_publish : emits.

Lemma emits_push fuel dl e :
  emits submit_event (flush_if_full api fuel dl ;; let* id := next_task_id in push_entry (e id)).
Proof. unfold flush_if_full, next_task_id, push_entry. solve_emits; done. Qed.

Lemma emits_append chunks fuel s d n dl : emits submit_event (append_tasks api chunks fuel s d n dl).
Proof.
  revert s d n. induction chunks as [|k IH]; intros s d n; simpl; (destruct (n <=? 0); [auto with emits|]);
    [auto with emits|].
  unfold flush_if_full, next_task_id, push_entry. solve_emits; done.
Qed.
#[local] Hint Resolve emits_append : emits.

Lemma emits_Submit fuel param descs :
  emits submit_event (UbMemStarsSdma_Submit api fuel param descs).
Proof.
  unfold UbMemStarsSdma_Submit, InitializeRtsq, ResolveLocalDeviceId, RestoreRtsqStream, LoadRtsqQueueState,
    QueryRtsqValue, QueryRtsqValues, BuildSubmitDeadline, MonotonicNs, submit_tasks,
    AppendAndPublishSdmaTasks, EmitNotifyRecord, AppendNotifyTask, AppendDescriptorTasks.
  solve_emits; try done; try apply emits_attempt; solve_emits; try done.
  all: try apply emits_for_each; solve_emits; try done.
  all: unfold flush_if_full, next_task_id, push_entry; solve_emits; done.
Qed.
End Submit_calls.

(** * The result of a submission *)
Definition desc_u64 (d : UbMemAicpuTransferDesc) : Prop :=
  is_u64 (ud_src_addr d) /\ is_u64 (ud_dst_addr d) /\ is_u64 (ud_length d).

(** What the hardware has executed by the end of the history [h'], whatever the ring
    held at first: the tasks of the descriptors, and the notify record. *)
Definition executed (param : UbMemAicpuKernelParam) (descs : list UbMemAicpuTransferDesc)
    (h' : SdHistory) : Prop :=
  exists format q, initialised param format q /\
    forall ring0, exists sdma notify,
      hw_exec (hw (rq_base_addr q) (rq_depth q) (mkHW ring0 (rq_tail q) []) h') = sdma ++ notify /\
      map (decode_sdma format) sdma = all_pieces descs /\
      map (decode_notify format) notify =
        (if up_emit_notify_record param =? 0 then [] else [up_notify_id param]) /\
      Forall (fun d => tiles (ud_src_addr d) (ud_dst_addr d) (ud_length d) (desc_pieces d)) descs.

Lemma ValidateSubmitArgs_Some param descs format ds :
  ValidateSubmitArgs param descs = Some (format, ds) ->
  descs = Some ds /\ Forall (fun d => IsValidDescriptor d = true) ds /\
  ((up_emit_notify_record param =? 0) = false -> up_notify_id param < NotifyIdLimit format).
Proof.
  unfold ValidateSubmitArgs. intros Hv. destruct descs as [l|]; [|done]. case_match; [done|].
  destruct (ResolveSqeFormat _) as [f|]; [|done].
  destruct (negb _ && _) eqn:El; [done|]. destruct (AreValidDescriptors l) eqn:Hvd; [|done]. simplify_eq.
  split; [done|]. split.
  - unfold AreValidDescriptors in Hvd. rewrite forallb_forall in Hvd. apply Forall_forall.
    intros d Hin. apply Hvd. by apply list_elem_of_In.
  - intros He. rewrite He in El. by apply Z.leb_gt in El.
Qed.

(** The pieces of valid descriptors fit the fields of an entry. *)
Lemma pieces_fit descs s d n :
  Forall desc_u64 descs -> Forall (fun d => IsValidDescriptor d = true) descs ->
  (s, d, n) ∈ all_pieces descs -> is_u64 s /\ is_u64 d /\ is_u32 n.
Proof.
  intros Hd Hv Hin. unfold all_pieces in Hin. rewrite list_elem_of_In, in_concat in Hin.
  destruct Hin as (ps & Hps & Hin). apply in_map_iff in Hps as (x & <- & Hx).
  apply list_elem_of_In in Hx, Hin. rewrite Forall_forall in Hd, Hv.
  destruct (Hd x Hx) as (H1 & H2 & H3). specialize (Hv x Hx).
  pose proof (desc_pieces_tile x H1 H2 H3 Hv) as Ht. unfold IsValidDescriptor in Hv. case_match; [done|].
  apply andb_true_iff in Hv as [Hv1%Z.leb_le Hv2%Z.leb_le].
  eapply tiles_range; [| |exact Ht| | |exact Hin]; ulia.
Qed.

Lemma wp_BuildSubmitDeadline {env : SdEnv} {S} timeout (s : S) h :
  wp (BuildSubmitDeadline timeout)
    (fun o s' h' => exists r, h' = Ev clock_gettime_ns r :: h) s h.
Proof.
  unfold BuildSubmitDeadline, MonotonicNs. apply wp_bind, wp_bind, wp_call. intros r _. apply wp_ret.
  apply wp_bind, wp_require; intros _; [apply wp_ret|]; eauto.
Qed.

Lemma wp_Submit api {env : SdEnv} fuel param descs s0 h0 :
  cq_drains fuel -> queries_ok -> Forall desc_u64 descs -> 0 <= up_notify_id param ->
  Forall quiet_event h0 ->
  wp (UbMemStarsSdma_Submit api fuel param (Some descs))
    (fun o _ h' => match o with inr _ => executed param descs h' | inl _ => True end) s0 h0.
Proof.
  intros Hdr Hq Hd Hn Hh0. unfold UbMemStarsSdma_Submit.
  destruct (ValidateSubmitArgs param (Some descs)) as [[format ds]|] eqn:Hv; [|by apply wp_fail].
  apply ValidateSubmitArgs_Some in Hv as (Heq & Hvd & Hlim). simplify_eq.
  apply wp_bind. eapply wp_mono; [by apply wp_InitializeRtsq|].
  intros [e|q] s1 h1; [done|]. intros (Hinit & t & -> & Ht).
  apply wp_bind. eapply wp_mono; [apply wp_BuildSubmitDeadline|].
  intros [e|dl] s2 h2; [done|]. intros (r & ->). apply wp_bind, wp_put.
  pose proof Hinit as (Hst & Hid & Hf & Htl & Hdep).
  assert (Hh : forall ring0, hw (rq_base_addr q) (rq_depth q) (mkHW ring0 (rq_tail q) [])
      (Ev clock_gettime_ns r :: t ++ h0) = mkHW ring0 (rq_tail q) []).
  { intros ring0. rewrite <- (app_nil_r (Ev _ _ :: _)). rewrite hw_quiet; [done|].
    constructor; [done|]. by apply Forall_app. }
  assert (Hall : forall ring0, wp (submit_tasks api fuel param ds dl) (fun o _ h' => match o with
      | inr _ => hw_exec (hw (rq_base_addr q) (rq_depth q) (mkHW ring0 (rq_tail q) []) h') =
                 submitted format (up_rtsq_stream_id param) param ds (up_rtsq_task_id param)
      | inl _ => True end) (mkSdState q []) (Ev clock_gettime_ns r :: t ++ h0)).
  { intros ring0. pose proof (wp_submit_tasks api fuel (rq_base_addr q) (rq_depth q) (mkHW ring0 (rq_tail q) [])
      format (up_rtsq_stream_id param) Hdep Hdr param ds dl (up_rtsq_task_id param) (mkSdState q [])
      (Ev clock_gettime_ns r :: t ++ h0)) as Hw. unfold hwh in Hw. rewrite Hh in Hw. apply Hw; [| |done].
    - apply Forall_impl with (1 := Hd). intros d (_ & _ & H). apply H.
    - split; unfold hwh; rewrite ?Hh; done. }
  unfold wp in *. pose proof (Hall ∅) as H0.
  destruct (submit_tasks _ _ _ _ _ _ _) as [[[[]|e|] s3] h3] eqn:Erun; [|done|done].
  exists format, q. split; [done|]. intros ring0. rewrite (Hall ring0). unfold submitted.
  eexists _, _. split; [done|]. split_and!.
  - apply (decode_numbered (queue_of format (up_rtsq_stream_id param))). intros s d n. by apply pieces_fit.
  - destruct (up_emit_notify_record param =? 0) eqn:He; [done|]. simpl. f_equal.
    apply (decode_BuildNotifyEntry _ _ (queue_of format (up_rtsq_stream_id param))). simpl. auto.
  - rewrite Forall_forall in *. intros d Hin. destruct (Hd d Hin) as (H1 & H2 & H3).
    apply desc_pieces_tile; auto.
Qed.
