(* ===== verification/StarsSdmaSafety.v ===== *)
(** The properties of the UB memory kernel (StarsSdma.v): what a submission makes the
    hardware execute, the protocol of the kernel entry with the context lock and the
    status word, and the safety of the ring. *)

From S2P Require Import Prelude Effects DeviceKernel StarsSdma.

(** * The ring *)

(** The ring slots that a call writes. *)
Definition written_by (base : Z) (e : Event SdOp) : list Z :=
  match e with
  | Ev op _ =>
      match op with
      | memcpy_ring addr _ es =>
          map (fun k => (addr - base) / kUbMemRtsqEntryBytes + Z.of_nat k) (seq 0 (length es))
      | _ => []
      end
  end.

(** The copy stays inside the destination size it declares, and that size ends with
    the ring. *)
Definition copy_in_bounds (base depth : Z) (e : Event SdOp) : Prop :=
  match e with
  | Ev op _ =>
      match op with
      | memcpy_ring addr dest_max es =>
          base <= addr /\ Z.of_nat (length es) * kUbMemRtsqEntryBytes <= dest_max /\
          addr + dest_max <= base + depth * kUbMemRtsqEntryBytes
      | _ => True
      end
  end.

(** Slot [slot] holds an entry between the head and the tail. *)
Definition occupied (depth head tail slot : Z) : Prop :=
  exists j, 0 <= j < (tail - head) mod depth /\ slot = (head + j) mod depth.

(** The driver keeps the head of the ring below its depth. *)
Definition heads_ok {env : SdEnv} (depth : Z) : Prop :=
  forall dev sq h lo hi, reply_of _ (halSqCqQuery dev sq SQ_HEAD) h = Some (lo, hi) -> 0 <= lo < depth.

Definition queue_ok (q : UbMemRtsqState) : Prop :=
  kMaxRtsqEntriesPerPublish < rq_depth q < 2 ^ 31 /\ 0 <= rq_head q < rq_depth q /\
  0 <= rq_tail q < rq_depth q.

Lemma rtsq_used_spec q : queue_ok q -> rtsq_used q = (rq_tail q - rq_head q) mod rq_depth q.
Proof.
  intros (Hd & Hh & Ht). unfold rtsq_used. rewrite u32_small by ulia.
  replace (rq_tail q + rq_depth q - rq_head q) with (rq_tail q - rq_head q + 1 * rq_depth q) by lia.
  apply Z_mod_plus_full.
Qed.

(** Slots from the tail on are free when there is capacity. *)
Lemma capacity_free q n k :
  queue_ok q -> HasRtsqCapacity q n = true -> 0 <= k < n ->
  ~ occupied (rq_depth q) (rq_head q) (rq_tail q) ((rq_tail q + k) mod rq_depth q).
Proof.
  intros Hq Hc Hk (j & Hj & He). pose proof Hq as (Hd & Hh & Ht). unfold HasRtsqCapacity in Hc.
  destruct ((n =? 0) || (rq_depth q <=? n)) eqn:Hn; [done|].
  apply orb_false_iff in Hn as [_ Hn%Z.leb_gt]. rewrite rtsq_used_spec in Hc by done.
  set (u := (rq_tail q - rq_head q) mod rq_depth q) in *.
  assert (Hu : 0 <= u < rq_depth q) by (apply Z.mod_pos_bound; lia).
  rewrite u32_small in Hc by ulia. apply Z.ltb_lt in Hc.
  assert (Heq : (u + k - j) mod rq_depth q = 0).
  { unfold u. rewrite <- Z.add_sub_assoc, Zplus_mod_idemp_l.
    replace (rq_tail q - rq_head q + (k - j)) with ((rq_tail q + k) - (rq_head q + j)) by lia.
    rewrite Zminus_mod, He, Z.sub_diag. apply Z.mod_0_l. lia. }
  rewrite Z.mod_small in Heq by lia. lia.
Qed.

Definition no_copy (e : Event SdOp) : Prop :=
  match e with Ev op _ => match op with memcpy_ring _ _ _ => False | _ => True end end.

(** The calls of a copy at a free stretch of the ring. *)
Definition safe_call (q : UbMemRtsqState) (head : Z) (e : Event SdOp) : Prop :=
  copy_in_bounds (rq_base_addr q) (rq_depth q) e /\
  forall slot, slot ∈ written_by (rq_base_addr q) e ->
    0 <= slot < rq_depth q /\ ~ occupied (rq_depth q) head (rq_tail q) slot.

Lemma no_copy_safe q head e : no_copy e -> safe_call q head e.
Proof.
  destruct e as [T op r]. destruct op; try done; intros _; (split; [done|]; intros slot Hs; inversion Hs).
Qed.

Section Ring.
Context (api : HalApi) {env : SdEnv} (fuel : nat) (dl : Z).
Hypothesis Hdrains : cq_drains fuel.

Lemma wp_Ensure_capacity count s h :
  queue_ok (sd_queue s) -> heads_ok (rq_depth (sd_queue s)) ->
  wp (EnsureRtsqCapacity api fuel count dl)
    (fun o s' h' => sd_batch s' = sd_batch s /\
       (exists t, h' = t ++ h /\ Forall no_copy t) /\
       (exists hd, sd_queue s' = set_rq_head hd (sd_queue s) /\ 0 <= hd < rq_depth (sd_queue s)) /\
       match o with inr _ => HasRtsqCapacity (sd_queue s') count = true | inl _ => True end) s h.
Proof.
  intros Hq Hheads. pose proof Hq as (Hd & Hh & Ht). set (q := sd_queue s) in *.
  assert (Hsame : exists hd, q = set_rq_head hd q /\ 0 <= hd < rq_depth q).
  { exists (rq_head q). split; [|done]. by destruct q. }
  assert (Hnil : exists t, h = t ++ h /\ Forall no_copy t) by (by exists []).
  unfold EnsureRtsqCapacity. apply wp_bind, wp_get. fold q.
  apply wp_bind, wp_require; intros _; [|by split_and!].
  destruct (HasRtsqCapacity q count) eqn:Hc; [apply wp_ret; by split_and!|].
  apply wp_bind. eapply wp_mono.
  { apply (wp_emits no_copy); [by apply emits_poll_calls|].
    apply (wp_PollLogicCq api fuel 0 0 (mkHW ∅ 0 []) Hdrains). }
  intros [e|[]] s' h' [[-> _] (t & -> & Hnc)]; [split_and!; eauto|].
  unfold QueryRtsqValue, QueryRtsqValues. apply wp_bind, wp_bind, wp_bind, wp_call. intros r Hr.
  assert (Hcons : exists t', Ev (halSqCqQuery (rq_device_id q) (rq_sq_id q) SQ_HEAD) r :: t ++ h = t' ++ h /\
    Forall no_copy t') by (eexists (_ :: t); split; [done|]; by constructor).
  destruct r as [[low high]|]; [|apply wp_fail; split_and!; eauto]. apply wp_ret, wp_ret, wp_bind, wp_modify.
  symmetry in Hr. apply Hheads in Hr. apply wp_require; intros Hc'; split_and!; eauto.
Qed.

(** Both segments of a copy are safe when the queue has capacity for the batch. *)
Lemma copy_segments_safe q (batch : list Sqe) first ok1 ok2 :
  queue_ok q -> HasRtsqCapacity q (Z.of_nat (length batch)) = true ->
  first = Z.min (Z.of_nat (length batch)) (rq_depth q - rq_tail q) ->
  safe_call q (rq_head q) (Ev (memcpy_ring (rq_base_addr q + rq_tail q * kUbMemRtsqEntryBytes)
    ((rq_depth q - rq_tail q) * kUbMemRtsqEntryBytes) (take (Z.to_nat first) batch)) ok1) /\
  safe_call q (rq_head q) (Ev (memcpy_ring (rq_base_addr q) (rq_depth q * kUbMemRtsqEntryBytes)
    (drop (Z.to_nat first) batch)) ok2).
Proof.
  intros Hq Hc Hf. pose proof Hq as (Hd & Hh & Ht).
  assert (Hlen : Z.of_nat (length batch) < rq_depth q).
  { unfold HasRtsqCapacity in Hc. destruct (_ || _) eqn:Hn; [done|].
    apply orb_false_iff in Hn as [_ Hn%Z.leb_gt]. done. }
  assert (Hslot : forall slot k, 0 <= k < Z.of_nat (length batch) -> slot = (rq_tail q + k) mod rq_depth q ->
    0 <= slot < rq_depth q /\ ~ occupied (rq_depth q) (rq_head q) (rq_tail q) slot).
  { intros slot k Hk ->. split; [apply Z.mod_pos_bound; lia|]. by eapply capacity_free. }
  split; (split; [simpl; rewrite ?length_take, ?length_drop; unfold kUbMemRtsqEntryBytes; lia|]);
    intros slot Hs; simpl in Hs; apply list_elem_of_In, in_map_iff in Hs as (k & <- & Hk%in_seq).
  - rewrite length_take in Hk. apply (Hslot _ (Z.of_nat k)); [lia|].
    replace (rq_base_addr q + rq_tail q * kUbMemRtsqEntryBytes - rq_base_addr q)
      with (rq_tail q * kUbMemRtsqEntryBytes) by lia.
    rewrite Z.div_mul by done. rewrite Z.mod_small; lia.
  - rewrite length_drop in Hk. apply (Hslot _ (first + Z.of_nat k)); [lia|].
    rewrite Z.sub_diag. change (0 / kUbMemRtsqEntryBytes) with 0.
    replace (rq_tail q + (first + Z.of_nat k)) with (Z.of_nat k + 1 * rq_depth q) by lia.
    rewrite Z_mod_plus_full, Z.mod_small; lia.
Qed.

Lemma wp_publish_safe s h :
  queue_ok (sd_queue s) -> heads_ok (rq_depth (sd_queue s)) ->
  wp (PublishRtsqBatch api fuel dl)
    (fun o s' h' => exists t, h' = t ++ h /\ Forall (safe_call (sd_queue s) (rq_head (sd_queue s'))) t) s h.
Proof.
  intros Hq Hheads. unfold PublishRtsqBatch. apply wp_bind, wp_get. case_match; [by apply wp_ret; exists []|].
  apply wp_bind. eapply wp_mono; [by apply wp_Ensure_capacity|].
  intros o s1 h1 (Hb & (t & -> & Hnc) & (hd & Hs1 & Hhd) & Hcap).
  assert (Ht : forall head, Forall (safe_call (sd_queue s) head) t).
  { intros head. apply Forall_impl with (1 := Hnc). intros e. apply no_copy_safe. }
  destruct o as [e|[]]; [by exists t|]. apply wp_bind, wp_get. rewrite <- Hb in *.
  assert (Hq1 : queue_ok (sd_queue s1)) by (rewrite Hs1; by destruct Hq as (? & ? & ?)).
  assert (Hsafe : forall e, safe_call (sd_queue s1) (rq_head (sd_queue s1)) e ->
    safe_call (sd_queue s) (rq_head (sd_queue s1)) e) by (intros e; by rewrite Hs1).
  clear Hs1. set (q := sd_queue s1) in *.
  destruct (copy_segments_safe q (sd_batch s1) _ true true Hq1 Hcap eq_refl) as [H1 H2].
  unfold CopySqeBatchToRing. apply wp_bind, wp_bind, wp_get. fold q. unfold check at 1.
  set (first := Z.min (Z.of_nat (length (sd_batch s1))) (rq_depth q - rq_tail q)) in *.
  assert (Hcommit : forall t', Forall (safe_call (sd_queue s) (rq_head q)) t' ->
    wp (CommitRtsqTail (u32 (rq_tail q + Z.of_nat (length (sd_batch s1))) mod rq_depth q) ;; modify (with_batch []))
      (fun _ s' h' => exists t, h' = t ++ h /\ Forall (safe_call (sd_queue s) (rq_head (sd_queue s'))) t)
      s1 (t' ++ h)).
  { intros t' Ht'. unfold CommitRtsqTail, check. apply wp_bind, wp_bind, wp_get, wp_bind, wp_bind, wp_call.
    intros r _. assert (Hr : forall op, no_copy (Ev op r) -> Forall (safe_call (sd_queue s) (rq_head q)) (Ev op r :: t')).
    { intros op Hop. constructor; [|done]. by apply no_copy_safe. }
    apply wp_require; intros _; [apply wp_modify, wp_modify|]; eexists (_ :: t'); (split; [done|]);
      apply Hr; done. }
  apply wp_bind, wp_bind, wp_call. intros r _.
  assert (Ht1 : Forall (safe_call (sd_queue s) (rq_head q))
    (Ev (memcpy_ring (rq_base_addr q + rq_tail q * kUbMemRtsqEntryBytes)
    ((rq_depth q - rq_tail q) * kUbMemRtsqEntryBytes) (take (Z.to_nat first) (sd_batch s1))) r :: t))
    by (constructor; [by apply Hsafe|done]).
  apply wp_require; intros _; [|by eexists (_ :: t)].
  destruct (first <? _); [|apply wp_ret, (Hcommit (_ :: t)); done].
  unfold check. apply wp_bind, wp_call. intros r' _.
  assert (Ht2 : Forall (safe_call (sd_queue s) (rq_head q))
    (Ev (memcpy_ring (rq_base_addr q) (rq_depth q * kUbMemRtsqEntryBytes)
      (drop (Z.to_nat first) (sd_batch s1))) r' ::
     Ev (memcpy_ring (rq_base_addr q + rq_tail q * kUbMemRtsqEntryBytes)
    ((rq_depth q - rq_tail q) * kUbMemRtsqEntryBytes) (take (Z.to_nat first) (sd_batch s1))) r :: t))
    by (constructor; [by apply Hsafe|done]).
  apply wp_require; intros _; [apply (Hcommit (_ :: _ :: t)); done|by eexists (_ :: _ :: t)].
Qed.
End Ring.

(** * The kernel entry *)

(** The write to the status word, when the host gave one. *)
Definition status_events (p : UbMemAicpuKernelParam) (r : Z) : SdHistory :=
  if up_status_addr p =? 0 then [] else [Ev (store_status (up_status_addr p) r) tt].

Lemma run_write_status {env : SdEnv} {S} p r (s : S) h :
  write_status (Some p) r s h = (Ret tt, s, status_events p r ++ h).
Proof.
  unfold write_status, status_events. destruct (_ =? 0); [done|]. unfold call. by destruct (reply_of unit _ h).
Qed.

Lemma status_quiet p r : Forall quiet_event (status_events p r).
Proof. unfold status_events. destruct (_ =? 0); by repeat constructor. Qed.

Lemma executed_quiet param descs t h :
  Forall quiet_event t -> executed param descs h -> executed param descs (t ++ h).
Proof.
  intros Ht (format & q & Hi & H). exists format, q. split; [done|]. intros ring0.
  destruct (H ring0) as (sdma & notify & Hx). exists sdma, notify. by rewrite hw_quiet.
Qed.

(** The calls of the critical section: no lock, no unlock, no status. *)
Definition locked_event (e : Event SdOp) : Prop :=
  match e with
  | Ev op _ =>
      match op with
      | context_state _ | context_lock _ | context_unlock _ | store_status _ _ => False
      | _ => True
      end
  end.

Lemma submit_event_locked e : submit_event e -> locked_event e.
Proof. destruct e as [T op r]. by destruct op. Qed.

(** How a kernel ends: refused with nothing but the status written, or with one
    critical section that the status write ends. *)
Definition refused (p : UbMemAicpuKernelParam) (r : Z) (h' : SdHistory) : Prop :=
  r = kFailed /\ exists pre, h' = status_events p r ++ pre /\
    (pre = [] \/ exists st, st <> Some INITIALIZED /\ pre = [Ev (context_state (up_transfer_ctx_key p)) st]).

Definition ran_locked (p : UbMemAicpuKernelParam) (r : Z) (h' : SdHistory) : Prop :=
  let key := up_transfer_ctx_key p in
  exists st body,
    h' = Ev (context_unlock key) tt :: status_events p r ++ body ++
         [Ev (context_state_locked key) st; Ev (context_lock key) tt;
          Ev (context_state key) (Some INITIALIZED)] /\
    Forall locked_event body /\ (st <> INITIALIZED -> body = [] /\ r = kFailed) /\
    (r = kSuccess -> exists descs,
       Ev (load_descs (up_desc_addr p) (up_desc_count p)) descs ∈ body /\ executed p descs h').

Definition descs_ok {env : SdEnv} : Prop :=
  forall addr n h, Forall desc_u64 (reply_of _ (load_descs addr n) h).

Lemma wp_reject {env : SdEnv} {S} p Q (s : S) h :
  Q (inr kFailed) s (status_events p kFailed ++ h) -> wp (reject (Some p)) Q s h.
Proof. intros H. unfold wp, reject, bind. by rewrite run_write_status. Qed.

Lemma wp_locked_section api {env : SdEnv} fuel p s0 h0 :
  cq_drains fuel -> queries_ok -> descs_ok -> 0 <= up_notify_id p -> Forall quiet_event h0 ->
  wp (let* descs := call (load_descs (up_desc_addr p) (up_desc_count p)) in
      let* submitted := attempt (UbMemStarsSdma_Submit api fuel p (Some descs)) in
      let result := match submitted with inr _ => kSuccess | inl _ => kFailed end in
      write_status (Some p) result ;; ret result)
    (fun o _ h' => exists r body, o = inr r /\ (r = kSuccess \/ r = kFailed) /\
       h' = status_events p r ++ body ++ h0 /\
       Forall locked_event body /\ (r = kSuccess -> exists descs,
         Ev (load_descs (up_desc_addr p) (up_desc_count p)) descs ∈ body /\ executed p descs h')) s0 h0.
Proof.
  intros Hdr Hq Hds Hn Hh0. apply wp_bind, wp_call. intros descs Hd. apply wp_bind, wp_attempt.
  eapply wp_mono.
  { apply (wp_emits submit_event); [apply emits_Submit|]. apply wp_Submit; try done.
    - rewrite Hd. apply Hds.
    - by constructor. }
  intros o s1 h1 [Ho (t & -> & Ht)]. cbv zeta. apply wp_bind. unfold wp at 1. rewrite run_write_status.
  apply wp_ret. eexists _, (t ++ [Ev (load_descs _ _) descs]). split; [done|].
  split; [destruct o; auto|]. split; [by rewrite <- (app_assoc t)|]. split.
  - apply Forall_app. split; [|by repeat constructor]. apply Forall_impl with (1 := Ht), submit_event_locked.
  - intros Hr. exists descs. split; [apply elem_of_app; right; by left|].
    destruct o as [e|[]]; [done|]. apply executed_quiet; [apply status_quiet|done].
Qed.

Lemma wp_ExecuteBatch api {env : SdEnv} fuel p dir s0 :
  cq_drains fuel -> queries_ok -> descs_ok -> 0 <= up_notify_id p ->
  wp (ExecuteBatch api fuel (Some p) dir)
    (fun o _ h' => exists r, o = inr r /\ (r = kSuccess \/ r = kFailed) /\
       (refused p r h' \/ ran_locked p r h')) s0 [].
Proof.
  intros Hdr Hq Hds Hn.
  assert (Href : forall (s : SdState) pre,
    (pre = [] \/ exists st, st <> Some INITIALIZED /\ pre = [Ev (context_state (up_transfer_ctx_key p)) st]) ->
    wp (reject (Some p)) (fun o _ h' => exists r, o = inr r /\ (r = kSuccess \/ r = kFailed) /\
       (refused p r h' \/ ran_locked p r h')) s pre).
  { intros s pre Hpre. apply wp_reject. exists kFailed. split; [done|]. split; [by right|]. left.
    split; [done|]. by exists pre. }
  unfold ExecuteBatch. destruct (invalid_param p dir); [by apply Href; left|].
  destruct (negb _); [by apply Href; left|]. cbv zeta. apply wp_bind, wp_call. intros ctx _.
  case_bool_decide as Hctx; [|apply Href; right; by exists ctx]. subst ctx. simpl.
  apply wp_bind, wp_call. intros [] _. apply wp_bind, wp_bind, wp_call. intros st _.
  case_bool_decide as Hst; simpl.
  - eapply wp_mono; [apply wp_locked_section; try done; by repeat constructor|].
    intros o s1 h1 (r & body & -> & Hr & -> & Hb & Hx). apply wp_bind, wp_call. intros [] _. apply wp_ret.
    exists r. split; [done|]. split; [done|]. right. exists st, body. split; [done|]. split; [done|].
    split; [done|]. intros Hs. destruct (Hx Hs) as (descs & Hin & He). exists descs. split; [done|].
    apply (executed_quiet _ _ [_]); [by repeat constructor|done].
  - apply wp_reject, wp_bind, wp_call. intros [] _. apply wp_ret. exists kFailed.
    split; [done|]. split; [by right|]. right. exists st, []. by split_and!.
Qed.

(** * Theorems *)




(** * Witnesses *)

(** A driver with a ring of 256 entries whose tail is 250 and which never fails. *)
Definition ref_driver : SdEnv := fun T op _ =>
  match op in SdOp T return T with
  | halSqCqQuery _ _ SQ_BASE => Some (65536, 1)
  | halSqCqQuery _ _ SQ_DEPTH => Some (256, 0)
  | halSqCqQuery _ _ SQ_HEAD => Some (240, 0)
  | halSqCqQuery _ _ SQ_TAIL => Some (250, 0)
  | halSqCqConfigTail _ _ _ => true
  | drvGetLocalDevIDByHostDevID d => Some d
  | halResourceIdRestore _ _ => true
  | halCqReportRecv _ _ _ => CqTimeout
  | clock_gettime_ns => Some 5
  | memcpy_ring _ _ _ => true
  | memset_sqe => true
  | load_descs _ _ => [mkUbDesc 4096 8192 5000000000; mkUbDesc 64 128 32]
  | context_state _ => Some INITIALIZED
  | context_lock _ => tt
  | context_state_locked _ => INITIALIZED
  | context_unlock _ => tt
  | store_status _ _ => tt
  end.
Definition ref_api : HalApi := mkHalApi true true true true.
Definition ref_ub_param : UbMemAicpuKernelParam := mkUbParam 4096 2 0 3 7 65535 4 0 0 9 1 512 77 2 1.
Definition ref_descs : list UbMemAicpuTransferDesc := [mkUbDesc 4096 8192 5000000000; mkUbDesc 64 128 32].
Definition ref_queue : UbMemRtsqState := mkRtsq 0 3 7 4 1 4295032832 256 240 250 kStarsV2.

Lemma ref_drains : cq_drains (env := ref_driver) 1.
Proof. split; [lia|]. done. Qed.
Lemma ref_queries : queries_ok (env := ref_driver).
Proof.
  intros dev sq prop h lo hi H. unfold reply_of, ref_driver in H.
  destruct prop; simplify_eq; split_and!; intros; try discriminate; ulia.
Qed.
Lemma ref_descs_ok : Forall desc_u64 ref_descs.
Proof. repeat constructor; simpl; ulia. Qed.


(** On that driver the submission succeeds, across the end of the ring. *)
Example ref_submit_succeeds :
  fst (fst (UbMemStarsSdma_Submit (env := ref_driver) ref_api 1 ref_ub_param (Some ref_descs)
              (mkSdState ref_queue []) [])) = Ret tt.
Proof. by vm_compute. Qed.


Example ref_kernel_succeeds :
  fst (fst (ExecuteBatch (env := ref_driver) ref_api 1 (Some ref_ub_param) 0 (mkSdState ref_queue []) []))
  = Ret kSuccess.
Proof. by vm_compute. Qed.

Definition ref_batch_state : SdState := mkSdState ref_queue (replicate 10 (BuildSdmaEntry 1 2 3 4 ref_queue)).

