(* ===== verification/MultiChannel.v ===== *)
(** MultiChannelDispatcher (engine/multi_channel_dispatcher.cc, .h): one logical
    link served by several client handles.  A list of transfers is split over the
    handles, the shares run on a thread pool, and the completion of an asynchronous
    submission is gathered from its workers.

    The client calls of the CS layer, the creation of the thread pool and the order
    in which its threads run the committed tasks are external: the operations of
    [McOp]. *)

From Stdlib Require Import Permutation.
From S2P Require Import Prelude Effects External MemStore.

(** * Data *)
Record TransferOpDesc := mkTransferOpDesc { td_local_addr : Z; td_remote_addr : Z; td_len : Z }.

Inductive HixlCompleteStatus := COMPLETE_WAITING | COMPLETE_COMPLETED | COMPLETE_TIMEOUT | COMPLETE_FAILED.
Inductive TransferStatus := TS_WAITING | TS_COMPLETED | TS_TIMEOUT | TS_FAILED.
Inductive WorkerState := W_PENDING | W_COMPLETED | W_FAILED.
Inductive SubmitMode := SYNC | ASYNC.
#[export] Instance WorkerState_eq_dec : EqDecision WorkerState.
Proof. solve_decision. Defined.

Definition ToTransferStatus (cs : HixlCompleteStatus) : TransferStatus :=
  match cs with
  | COMPLETE_WAITING => TS_WAITING
  | COMPLETE_COMPLETED => TS_COMPLETED
  | COMPLETE_TIMEOUT => TS_TIMEOUT
  | COMPLETE_FAILED => TS_FAILED
  end.

Record WorkerEntry := mkWorkerEntry { we_client_idx : nat; we_handle : Z; we_state : WorkerState }.

(** [pool_] is [true] when the thread pool exists. *)
Record MultiChannelDispatcher := mkDispatcher {
  handles_ : list Z;
  split_batch_size_ : Z;
  pool_ : bool;
  async_workers_ : gmap Z (list WorkerEntry)
}.
Definition set_handles v d := mkDispatcher v (split_batch_size_ d) (pool_ d) (async_workers_ d).
Definition set_split v d := mkDispatcher (handles_ d) v (pool_ d) (async_workers_ d).
Definition set_pool v d := mkDispatcher (handles_ d) (split_batch_size_ d) v (async_workers_ d).
Definition set_async v d := mkDispatcher (handles_ d) (split_batch_size_ d) (pool_ d) v.

(** * Pure parts *)
Definition ConvertDesc (d : TransferOpDesc) : HixlOneSideOpDesc :=
  mkOpDesc (td_remote_addr d) (td_local_addr d) (td_len d).
Definition ConvertDescs (descs : list TransferOpDesc) : list HixlOneSideOpDesc := map ConvertDesc descs.

Definition ResolveActualWorkerNum (configured_n desc_count split_batch_size : Z) : Z :=
  if (configured_n <=? 1) || (split_batch_size =? 0) then 1
  else if desc_count <=? split_batch_size then 1
  else if u64 (split_batch_size * (configured_n - 1)) <? desc_count then configured_n
  else desc_count / split_batch_size.

(** The share of worker [i]. *)
Definition share (desc_num worker_num i : Z) : Z :=
  desc_num / worker_num + (if i <? desc_num mod worker_num then 1 else 0).

(** The outer loop of SplitDescs from worker [i] on, [k] workers to go; [rest] are
    the descriptors from [idx] on. *)
Fixpoint split_loop (desc_num worker_num i : Z) (k : nat) (rest : list TransferOpDesc)
    : list (list HixlOneSideOpDesc) :=
  match k with
  | O => []
  | S k' =>
      let count := Z.to_nat (share desc_num worker_num i) in
      ConvertDescs (take count rest) :: split_loop desc_num worker_num (i + 1) k' (drop count rest)
  end.

Definition SplitDescs (descs : list TransferOpDesc) (worker_num : Z) : list (list HixlOneSideOpDesc) :=
  if (worker_num =? 0) || bool_decide (descs = []) then replicate (Z.to_nat worker_num) []
  else split_loop (u32 (Z.of_nat (length descs))) worker_num 0 (Z.to_nat worker_num) descs.

(** A future is [None] when it is not valid, otherwise the status it yields. *)
Fixpoint collect_futures (first_error : Status) (futures : list (option Status)) : Status :=
  match futures with
  | [] => first_error
  | None :: fs => collect_futures (if first_error =? SUCCESS then FAILED else first_error) fs
  | Some worker_ret :: fs =>
      collect_futures (if negb (worker_ret =? SUCCESS) && (first_error =? SUCCESS) then worker_ret
                       else first_error) fs
  end.
Definition CollectFutures : list (option Status) -> Status := collect_futures SUCCESS.

(** * External calls *)
Inductive McOp : Type -> Type :=
| HixlCSClientCreate (desc config : Z) : McOp (Status * Z)
| HixlCSClientDestroy (handle : Z) : McOp unit
| HixlCSClientBatchGetSync (handle : Z) (descs : list HixlOneSideOpDesc) (timeout_ms : Z) : McOp Status
| HixlCSClientBatchPutSync (handle : Z) (descs : list HixlOneSideOpDesc) (timeout_ms : Z) : McOp Status
| HixlCSClientBatchGetAsync (handle : Z) (descs : list HixlOneSideOpDesc) : McOp (Status * Z)
| HixlCSClientBatchPutAsync (handle : Z) (descs : list HixlOneSideOpDesc) : McOp (Status * Z)
| HixlCSClientQueryCompleteStatus (handle complete_handle : Z) : McOp (Status * HixlCompleteStatus)
| make_thread_pool (workers : Z) : McOp bool
| pool_commit : McOp bool
| pool_order (tasks : nat) : McOp (list nat).

Abbreviation McEnv := (Environment McOp).
Abbreviation McHistory := (History McOp).
Abbreviation McM := (M McOp MultiChannelDispatcher).

Section Dispatcher.
Context {env : McEnv}.

(** HIXL_CHK_STATUS_RET. *)
Definition status (r : Status) : McM unit := require (r =? SUCCESS) r.

Definition DestroyHandles : McM unit :=
  let* d := get in
  for_each (handles_ d) (fun h => if is_null h then ret tt else call (HixlCSClientDestroy h)) ;;
  modify (set_handles []).

Definition InitPool (split_batch_size : Z) : McM unit :=
  modify (set_split split_batch_size) ;;
  let* d := get in
  let* ok := call (make_thread_pool (u32 (Z.of_nat (length (handles_ d))))) in
  modify (set_pool ok) ;;
  require ok FAILED.

Definition create_handle (desc config : Z) : McM unit :=
  let* (r, handle) := call (HixlCSClientCreate desc config) in
  status r ;;
  modify (fun d => set_handles (handles_ d ++ [handle]) d).

Definition CreateHandles (desc config worker_num split_batch_size : Z) : McM unit :=
  DestroyHandles ;;
  on_fail
    (for_each (seq 0 (Z.to_nat worker_num)) (fun _ => create_handle desc config) ;;
     InitPool split_batch_size)
    DestroyHandles.

Definition Reset : McM unit := modify (fun d => set_async ∅ (set_pool false d)).

(** ** Submission *)
Definition WorkerBatchSyncCall (is_get : bool) (handle : Z) (descs : list HixlOneSideOpDesc) (timeout_ms : Z)
    : McM Status :=
  if is_get then call (HixlCSClientBatchGetSync handle descs timeout_ms)
  else call (HixlCSClientBatchPutSync handle descs timeout_ms).

Definition WorkerBatchAsyncCall (is_get : bool) (handle : Z) (descs : list HixlOneSideOpDesc)
    : McM (Status * Z) :=
  if is_get then call (HixlCSClientBatchGetAsync handle descs)
  else call (HixlCSClientBatchPutAsync handle descs).

Definition first_nonnull (workers : list WorkerEntry) : option Z :=
  we_handle <$> List.find (fun e => negb (is_null (we_handle e))) workers.

(** The result is the request that was stored. *)
Definition RecordAsyncWorkers (workers : list WorkerEntry) : McM Z :=
  match first_nonnull workers with
  | None => fail PARAM_INVALID
  | Some req => modify (fun d => set_async (<[req := workers]> (async_workers_ d)) d) ;; ret req
  end.

(** The request of a synchronous submission is not set: 0. *)
Definition SubmitSingleWorker (is_get : bool) (descs : list TransferOpDesc) (timeout_ms : Z) (mode : SubmitMode)
    : McM Z :=
  let* d := get in
  match handles_ d with
  | [] => fail FAILED
  | front :: _ =>
      match mode with
      | SYNC => let* r := WorkerBatchSyncCall is_get front (ConvertDescs descs) timeout_ms in
                status r ;; ret 0
      | ASYNC => let* (r, ch) := WorkerBatchAsyncCall is_get front (ConvertDescs descs) in
                 status r ;;
                 RecordAsyncWorkers [mkWorkerEntry 0 ch W_PENDING]
      end
  end.

(** A task of the pool: the worker's index, handle and share. *)
Record Task := mkTask { tk_worker : nat; tk_handle : Z; tk_descs : list HixlOneSideOpDesc }.

Definition SubmitTask : McM bool :=
  let* d := get in
  if pool_ d then call pool_commit else ret false.

(** The loop of SubmitWorkersToPool: every share becomes a task, paired with the
    validity of its future. *)
Fixpoint commit_all (i : nat) (worker_descs : list (list HixlOneSideOpDesc)) : McM (list (Task * bool)) :=
  match worker_descs with
  | [] => ret []
  | wd :: wds =>
      let* d := get in
      match handles_ d !! i with
      | None => stuck
      | Some handle =>
          let* valid := SubmitTask in
          let* ts := commit_all (S i) wds in
          ret ((mkTask i handle wd, valid) :: ts)
      end
  end.

(** The body of a task: its status and the completion handle it stored. *)
Definition run_task (mode : SubmitMode) (is_get : bool) (timeout_ms : Z) (t : Task) : McM (Status * Z) :=
  match mode with
  | SYNC => let* r := WorkerBatchSyncCall is_get (tk_handle t) (tk_descs t) timeout_ms in ret (r, nullptr)
  | ASYNC => WorkerBatchAsyncCall is_get (tk_handle t) (tk_descs t)
  end.

(** The threads of the pool run the tasks in the given order. *)
Fixpoint run_tasks mode is_get timeout_ms (tasks : list Task) (order : list nat)
    : McM (list (nat * (Status * Z))) :=
  match order with
  | [] => ret []
  | k :: order' =>
      match tasks !! k with
      | None => stuck
      | Some t =>
          let* r := run_task mode is_get timeout_ms t in
          let* rs := run_tasks mode is_get timeout_ms tasks order' in
          ret ((tk_worker t, r) :: rs)
      end
  end.

Definition result_of (results : list (nat * (Status * Z))) (worker : nat) : option (Status * Z) :=
  snd <$> List.find (fun p => bool_decide (p.1 = worker)) results.

(** [futures[i].get()]; it never returns for a task that no thread runs. *)
Definition await (results : list (nat * (Status * Z))) (tv : Task * bool) : McM (option Status) :=
  if tv.2 then
    match result_of results (tk_worker tv.1) with Some r => ret (Some r.1) | None => stuck end
  else ret None.

Fixpoint await_all results (tvs : list (Task * bool)) : McM (list (option Status)) :=
  match tvs with
  | [] => ret []
  | tv :: tvs' => let* f := await results tv in let* fs := await_all results tvs' in ret (f :: fs)
  end.

(** The committed tasks run, and every future is awaited, in the order of the
    workers. *)
Definition run_committed (mode : SubmitMode) (is_get : bool) (timeout_ms : Z) (tvs : list (Task * bool))
    : McM (list (nat * (Status * Z)) * list (option Status)) :=
  let tasks := map fst (List.filter snd tvs) in
  let* order := call (pool_order (length tasks)) in
  let* results := run_tasks mode is_get timeout_ms tasks order in
  let* futures := await_all results tvs in
  ret (results, futures).

(** The results of the workers (null completion handles where none was stored). *)
Definition SubmitWorkersToPool (descs : list TransferOpDesc) (actual_n : Z) (is_get : bool) (mode : SubmitMode)
    (timeout_ms : Z) : McM (list Z) :=
  let* tvs := commit_all 0 (SplitDescs descs actual_n) in
  let* (results, futures) := run_committed mode is_get timeout_ms tvs in
  status (CollectFutures futures) ;;
  ret (map (fun i => default nullptr (snd <$> result_of results i)) (seq 0 (Z.to_nat actual_n))).

Definition CollectAsyncWorkers (worker_results : list Z) : McM Z :=
  RecordAsyncWorkers (imap (fun i ch => mkWorkerEntry i ch W_PENDING) worker_results).

(** [has_req]: the request pointer is not null. *)
Definition Submit (descs : list TransferOpDesc) (is_get : bool) (timeout_ms : Z) (mode : SubmitMode)
    (has_req : bool) : McM Z :=
  require (match mode with SYNC => true | ASYNC => has_req end) PARAM_INVALID ;;
  let* d := get in
  let actual_n := ResolveActualWorkerNum (u32 (Z.of_nat (length (handles_ d))))
                    (u32 (Z.of_nat (length descs))) (split_batch_size_ d) in
  if actual_n <=? 1 then SubmitSingleWorker is_get descs timeout_ms mode
  else
    let* worker_results := SubmitWorkersToPool descs actual_n is_get mode timeout_ms in
    match mode with SYNC => ret 0 | ASYNC => CollectAsyncWorkers worker_results end.

(** ** Completion *)
Definition query_worker (e : WorkerEntry) : McM WorkerEntry :=
  match we_state e with
  | W_PENDING =>
      let* d := get in
      match handles_ d !! we_client_idx e with
      | None => stuck
      | Some h =>
          let* (r, cs) := call (HixlCSClientQueryCompleteStatus h (we_handle e)) in
          let st := if negb (r =? SUCCESS) then W_FAILED
                    else match ToTransferStatus cs with
                         | TS_WAITING => W_PENDING
                         | TS_COMPLETED => W_COMPLETED
                         | _ => W_FAILED
                         end in
          ret (mkWorkerEntry (we_client_idx e) (we_handle e) st)
      end
  | _ => ret e
  end.

(** The updated entries; [any_waiting] and [any_failed] say that one is pending or
    failed. *)
Fixpoint QueryWorkersStatus (workers : list WorkerEntry) : McM (list WorkerEntry) :=
  match workers with
  | [] => ret []
  | e :: es => let* e' := query_worker e in let* es' := QueryWorkersStatus es in ret (e' :: es')
  end.
Definition any_state (st : WorkerState) (ws : list WorkerEntry) : bool :=
  existsb (fun e => bool_decide (we_state e = st)) ws.

(** The returned status together with the transfer status of the out parameter. *)
Definition CheckStatus (req : Z) : McM (Status * TransferStatus) :=
  let* d := get in
  if bool_decide (async_workers_ d = ∅) then ret (FAILED, TS_FAILED)
  else match async_workers_ d !! req with
       | None => ret (PARAM_INVALID, TS_FAILED)
       | Some ws =>
           let* ws' := QueryWorkersStatus ws in
           if any_state W_FAILED ws' then
             modify (fun d => set_async (delete req (async_workers_ d)) d) ;; ret (SUCCESS, TS_FAILED)
           else if any_state W_PENDING ws' then
             modify (fun d => set_async (<[req := ws']> (async_workers_ d)) d) ;; ret (SUCCESS, TS_WAITING)
           else
             modify (fun d => set_async (delete req (async_workers_ d)) d) ;; ret (SUCCESS, TS_COMPLETED)
       end.
End Dispatcher.

(** * Splitting *)
Section Split.
Context (D n : Z).
Hypothesis Hn : 0 < n.
Hypothesis HD : 0 <= D.

(** The descriptors given to the first [i] workers. *)
Definition consumed (i : Z) : Z := i * (D / n) + Z.min i (D mod n).

Lemma consumed_all : consumed n = D.
Proof.
  unfold consumed. pose proof (Z.div_mod D n ltac:(lia)). pose proof (Z.mod_pos_bound D n Hn).
  rewrite Z.min_r by lia. lia.
Qed.

Lemma consumed_succ i : consumed (i + 1) = consumed i + share D n i.
Proof. unfold consumed, share. rewrite Z.mul_add_distr_r. destruct (Z.ltb_spec i (D mod n)); lia. Qed.

Lemma share_nonneg i : 0 <= share D n i.
Proof. unfold share. pose proof (Z.div_pos D n HD Hn). destruct (_ <? _); lia. Qed.

Lemma consumed_le i : i <= n -> consumed i <= D.
Proof.
  intros Hi. rewrite <- consumed_all. unfold consumed.
  pose proof (Z.mul_le_mono_nonneg_r i n (D / n) (Z.div_pos D n HD Hn) Hi). lia.
Qed.

Lemma split_loop_concat k : forall i rest,
  0 <= i -> i + Z.of_nat k = n -> Z.of_nat (length rest) = D - consumed i ->
  concat (split_loop D n i k rest) = ConvertDescs rest.
Proof.
  induction k as [|k IH]; intros i rest Hi Hk Hl; simpl.
  - assert (i = n) as -> by lia. rewrite consumed_all in Hl. destruct rest; [done|simpl in Hl; lia].
  - pose proof (share_nonneg i). pose proof (consumed_succ i). pose proof (consumed_le (i + 1) ltac:(lia)).
    rewrite IH; [|lia|lia|rewrite length_drop; lia].
    unfold ConvertDescs. by rewrite <- map_app, take_drop.
Qed.

Lemma split_loop_shares k : forall i rest,
  0 <= i -> i + Z.of_nat k = n -> Z.of_nat (length rest) = D - consumed i ->
  map (fun wd => Z.of_nat (length wd)) (split_loop D n i k rest) =
  map (fun j => share D n (i + Z.of_nat j)) (seq 0 k).
Proof.
  induction k as [|k IH]; intros i rest Hi Hk Hl; [done|].
  pose proof (share_nonneg i). pose proof (consumed_succ i). pose proof (consumed_le (i + 1) ltac:(lia)).
  cbn [split_loop map seq]. f_equal.
  - unfold ConvertDescs. rewrite length_map, length_take. change (Z.of_nat 0) with 0. rewrite Z.add_0_r. lia.
  - rewrite IH by (rewrite ?length_drop; lia). rewrite <- seq_shift, map_map. apply map_ext. intros j.
    f_equal. lia.
Qed.
End Split.

Lemma length_split_loop D n k : forall i rest, length (split_loop D n i k rest) = k.
Proof. induction k as [|k IH]; intros; simpl; [done|]. by rewrite IH. Qed.

Lemma length_SplitDescs descs n : length (SplitDescs descs n) = Z.to_nat n.
Proof. unfold SplitDescs. destruct (_ || _); [apply length_replicate|apply length_split_loop]. Qed.

Lemma concat_SplitDescs descs n :
  0 < n -> is_u32 (Z.of_nat (length descs)) -> concat (SplitDescs descs n) = ConvertDescs descs.
Proof.
  intros Hn Hl. unfold SplitDescs. destruct (Z.eqb_spec n 0); [lia|]. simpl.
  case_bool_decide as Hd; [subst descs; induction (Z.to_nat n) as [|k IH]; [done|exact IH]|].
  rewrite u32_small by done. apply split_loop_concat; try lia. unfold consumed.
  pose proof (Z.mod_pos_bound (Z.of_nat (length descs)) n Hn). lia.
Qed.

Lemma shares_SplitDescs descs n :
  0 < n -> is_u32 (Z.of_nat (length descs)) -> descs <> [] ->
  map (fun wd => Z.of_nat (length wd)) (SplitDescs descs n) =
  map (fun j => share (Z.of_nat (length descs)) n (Z.of_nat j)) (seq 0 (Z.to_nat n)).
Proof.
  intros Hn Hl Hne. unfold SplitDescs. destruct (Z.eqb_spec n 0); [lia|]. simpl.
  rewrite bool_decide_eq_false_2 by done. rewrite u32_small by done.
  rewrite split_loop_shares; try lia; [done|]. unfold consumed.
  pose proof (Z.mod_pos_bound (Z.of_nat (length descs)) n Hn). lia.
Qed.

Lemma ResolveActualWorkerNum_bounds n c b :
  is_u32 n -> is_u32 c -> is_u32 b ->
  let r := ResolveActualWorkerNum n c b in
  1 <= r <= Z.max 1 n /\ (1 < r -> r <= c).
Proof.
  intros Hn Hc Hb r. subst r. unfold ResolveActualWorkerNum.
  destruct (Z.leb_spec n 1); simpl; [lia|]. destruct (Z.eqb_spec b 0); [lia|].
  destruct (Z.leb_spec c b); [lia|].
  assert (Ht : b <= b * (n - 1) < 2 ^ 64 /\ n - 1 <= b * (n - 1)).
  { unfold_widths. split; [split; nia|]. nia. }
  unfold u64, wrap. rewrite Z.mod_small by (unfold_widths; lia).
  destruct (Z.ltb_spec (b * (n - 1)) c); [lia|].
  assert (0 < b) by ulia. pose proof (Z.div_le_lower_bound c b 1 ltac:(lia) ltac:(lia)).
  pose proof (Z.div_le_upper_bound c b (n - 1) ltac:(lia) ltac:(lia)).
  pose proof (Z.div_le_upper_bound c b c ltac:(lia) ltac:(nia)). lia.
Qed.

(** * The transfer calls of a history *)
Record WorkerCall := mkWorkerCall {
  wc_get : bool;
  wc_handle : Z;
  wc_descs : list HixlOneSideOpDesc;
  wc_status : Status;
  wc_complete : Z
}.

Definition calls_of (e : Event McOp) : list WorkerCall :=
  match e with
  | Ev op r =>
      match op in McOp T return T -> list WorkerCall with
      | HixlCSClientBatchGetSync h ds _ => fun r => [mkWorkerCall true h ds r nullptr]
      | HixlCSClientBatchPutSync h ds _ => fun r => [mkWorkerCall false h ds r nullptr]
      | HixlCSClientBatchGetAsync h ds => fun r => [mkWorkerCall true h ds r.1 r.2]
      | HixlCSClientBatchPutAsync h ds => fun r => [mkWorkerCall false h ds r.1 r.2]
      | _ => fun _ => []
      end r
  end.
Fixpoint transfers (h : McHistory) : list WorkerCall :=
  match h with [] => [] | e :: h' => transfers h' ++ calls_of e end.

Lemma transfers_app h1 h2 : transfers (h1 ++ h2) = transfers h2 ++ transfers h1.
Proof. induction h1 as [|e h1 IH]; simpl; [by rewrite app_nil_r|]. by rewrite IH, app_assoc. Qed.

Definition call_of (is_get : bool) (t : Task) (r : Status * Z) : WorkerCall :=
  mkWorkerCall is_get (tk_handle t) (tk_descs t) r.1 r.2.

(** The tasks of the shares, from worker [i] on. *)
Fixpoint tasks_from (i : nat) (hs : list Z) (wds : list (list HixlOneSideOpDesc)) : list Task :=
  match hs, wds with
  | h :: hs', wd :: wds' => mkTask i h wd :: tasks_from (S i) hs' wds'
  | _, _ => []
  end.

Lemma collect_futures_success fs e :
  collect_futures e fs = SUCCESS <-> e = SUCCESS /\ Forall (fun f => f = Some SUCCESS) fs.
Proof.
  revert e. induction fs as [|[r|] fs IH]; intros e; simpl; [firstorder|..].
  - rewrite IH, Forall_cons. destruct (Z.eqb_spec r SUCCESS), (Z.eqb_spec e SUCCESS); simpl; naive_solver.
  - rewrite IH, Forall_cons. destruct (Z.eqb_spec e SUCCESS); [|naive_solver].
    split; [intros [H _]; discriminate H|intros (_ & H & _); discriminate H].
Qed.

Lemma result_of_in (picked : list (Task * (Status * Z))) p :
  NoDup (map (fun p => tk_worker p.1) picked) -> p ∈ picked ->
  result_of (map (fun p => (tk_worker p.1, p.2)) picked) (tk_worker p.1) = Some p.2.
Proof.
  unfold result_of. induction picked as [|q picked IH]; intros Hnd Hin; [by apply not_elem_of_nil in Hin|].
  simpl in *. apply NoDup_cons in Hnd as [Hq Hnd]. case_bool_decide as Heq.
  - apply elem_of_cons in Hin as [->|Hin]; [done|]. exfalso. apply Hq. rewrite Heq.
    apply list_elem_of_fmap. by exists p.
  - apply elem_of_cons in Hin as [->|Hin]; [done|]. by apply IH.
Qed.

Lemma omap_lookup_seq {A} (pre l : list A) :
  omap (fun k => (pre ++ l) !! k) (seq (length pre) (length l)) = l.
Proof.
  revert pre. induction l as [|x l IH]; intros pre; [done|]. cbn [length seq omap list_omap].
  rewrite list_lookup_middle by done. f_equal.
  specialize (IH (pre ++ [x])). rewrite <- app_assoc, length_app, Nat.add_1_r in IH. exact IH.
Qed.

(** The tasks selected by a permutation of their positions. *)
Lemma selected_permutation (tasks sel : list Task) order :
  order ≡ₚ seq 0 (length tasks) ->
  Forall2 (fun k t => tasks !! k = Some t) order sel -> sel ≡ₚ tasks.
Proof.
  intros Hp Hf.
  assert (Hsel : sel = omap (fun k => tasks !! k) order).
  { clear Hp. induction Hf as [|k t order sel Hk _ IH]; [done|]. cbn. rewrite Hk. f_equal. exact IH. }
  rewrite Hsel, Hp. pose proof (omap_lookup_seq [] tasks) as E. simpl in E. by rewrite E.
Qed.

(** * Runs of the pool *)
Section Pool.
Context {env : McEnv}.

(** The pool runs every committed task exactly once. *)
Definition pool_runs_all : Prop := forall n h, reply_of _ (pool_order n) h ≡ₚ seq 0 n.

Lemma wp_run_task mode is_get tmo t s h :
  wp (run_task mode is_get tmo t)
    (fun o s' h' => exists e r, o = inr r /\ s' = s /\ h' = e :: h /\ calls_of e = [call_of is_get t r]) s h.
Proof.
  unfold run_task, WorkerBatchSyncCall, WorkerBatchAsyncCall.
  destruct mode; [apply wp_bind|]; destruct is_get; apply wp_call; intros r _; try apply wp_ret; eauto 10.
Qed.

Lemma wp_run_tasks mode is_get tmo tasks order s h :
  Forall (fun k => (k < length tasks)%nat) order ->
  wp (run_tasks mode is_get tmo tasks order)
    (fun o s' h' => s' = s /\ exists t picked, h' = t ++ h /\
       o = inr (map (fun p => (tk_worker p.1, p.2)) picked) /\
       Forall2 (fun k t => tasks !! k = Some t) order (map fst picked) /\
       transfers t = map (fun p => call_of is_get p.1 p.2) picked) s h.
Proof.
  revert h. induction order as [|k order IH]; intros h Ho; simpl.
  { apply wp_ret. split; [done|]. exists [], []. by split_and!. }
  apply Forall_cons in Ho as [Hk Ho]. destruct (lookup_lt_is_Some_2 tasks k Hk) as [t Ht]. rewrite Ht.
  apply wp_bind. eapply wp_mono; [apply wp_run_task|]. intros o s1 h1 (e & r & -> & -> & -> & He).
  apply wp_bind. eapply wp_mono; [by apply IH|].
  intros o s2 h2 (-> & t2 & picked & -> & -> & Hf & Htr). apply wp_ret. split; [done|].
  exists (t2 ++ [e]), ((t, r) :: picked). split; [by rewrite <- app_assoc|]. split; [done|]. split.
  - simpl. by constructor.
  - rewrite transfers_app, Htr. simpl. by rewrite He.
Qed.

Lemma wp_commit_all i wds s h :
  (i + length wds <= length (handles_ s))%nat ->
  wp (commit_all i wds)
    (fun o s' h' => s' = s /\ exists t tvs, h' = t ++ h /\ o = inr tvs /\ transfers t = [] /\
       map fst tvs = tasks_from i (drop i (handles_ s)) wds) s h.
Proof.
  revert i h. induction wds as [|wd wds IH]; intros i h Hl; simpl.
  { apply wp_ret. split; [done|]. exists [], []. split_and!; try done. by destruct (drop _ _). }
  apply wp_bind, wp_get. simpl in Hl. destruct (lookup_lt_is_Some_2 (handles_ s) i) as [hd Hh]; [lia|].
  rewrite Hh. apply wp_bind.
  apply wp_mono with (P := fun o s' h' => s' = s /\ exists t v, h' = t ++ h /\ o = inr v /\ transfers t = []).
  { unfold SubmitTask. apply wp_bind, wp_get. destruct (pool_ s).
    - apply wp_call. intros r _. split; [done|]. by eexists [_], r.
    - apply wp_ret. split; [done|]. by exists [], false. }
  intros o s1 h1 (-> & t & v & -> & -> & Ht). apply wp_bind. eapply wp_mono; [apply IH; lia|].
  intros o s2 h2 (-> & t2 & tvs & -> & -> & Ht2 & Hm). apply wp_ret. split; [done|].
  exists (t2 ++ t), ((mkTask i hd wd, v) :: tvs). split; [by rewrite <- app_assoc|]. split; [done|].
  split; [by rewrite transfers_app, Ht, Ht2|]. rewrite (drop_S _ _ _ Hh). simpl. by rewrite Hm.
Qed.

Lemma wp_await_all results tvs s h :
  (forall tv, tv ∈ tvs -> tv.2 = true -> is_Some (result_of results (tk_worker tv.1))) ->
  wp (await_all results tvs)
    (fun o s' h' => s' = s /\ h' = h /\
       o = inr (map (fun tv => if tv.2 : bool then fst <$> result_of results (tk_worker tv.1) else None) tvs)) s h.
Proof.
  induction tvs as [|tv tvs IH]; intros H; simpl; [by apply wp_ret|].
  apply wp_bind. unfold await.
  apply wp_mono with (P := fun o s' h' => s' = s /\ h' = h /\
    o = inr (if tv.2 : bool then fst <$> result_of results (tk_worker tv.1) else None)).
  { destruct (tv.2) eqn:Hv; [|by apply wp_ret].
    destruct (H tv) as [r Hr]; [by left|done|]. rewrite Hr. by apply wp_ret. }
  intros o s1 h1 (-> & -> & ->). apply wp_bind. eapply wp_mono; [apply IH; intros; apply H; [by right|done]|].
  intros o s2 h2 (-> & -> & ->). by apply wp_ret.
Qed.
End Pool.

Lemma tasks_from_workers i hs wds : NoDup (map tk_worker (tasks_from i hs wds)).
Proof.
  assert (Hge : forall hs wds i k, k ∈ map tk_worker (tasks_from i hs wds) -> (i <= k)%nat).
  { clear. induction hs as [|hd hs IH]; intros [|wd wds] i k Hk; simpl in Hk;
      try by apply not_elem_of_nil in Hk.
    apply elem_of_cons in Hk as [->|Hk]; [lia|]. apply IH in Hk. lia. }
  revert i wds. induction hs as [|hd hs IH]; intros i [|wd wds]; simpl; try by constructor.
  constructor; [|by apply IH]. intros Hk%Hge. lia.
Qed.

Lemma tasks_from_proj i hs wds :
  (length wds <= length hs)%nat ->
  map tk_handle (tasks_from i hs wds) = take (length wds) hs /\
  map tk_descs (tasks_from i hs wds) = wds /\
  map tk_worker (tasks_from i hs wds) = seq i (length wds).
Proof.
  revert i wds. induction hs as [|hd hs IH]; intros i [|wd wds] Hl; simpl in *; try done; try lia.
  destruct (IH (S i) wds) as (H1 & H2 & H3); [lia|]. by rewrite H1, H2, H3.
Qed.

Lemma filter_all_true (tvs : list (Task * bool)) :
  Forall (fun tv => tv.2 = true) tvs -> List.filter snd tvs = tvs.
Proof. induction 1 as [|tv tvs H _ IH]; [done|]. simpl. by rewrite H, IH. Qed.

Section Submission.
Context {env : McEnv}.
Hypothesis Hpool : pool_runs_all.

(** Every committed task runs once, so every valid future yields the status of its
    own worker. *)
Lemma wp_run_committed mode is_get tmo (tvs : list (Task * bool)) s h :
  NoDup (map tk_worker (map fst tvs)) ->
  wp (run_committed mode is_get tmo tvs)
    (fun o s' h' => s' = s /\ exists t results futures, h' = t ++ h /\ o = inr (results, futures) /\
       (CollectFutures futures = SUCCESS ->
        Forall (fun tv => tv.2 = true) tvs /\
        transfers t ≡ₚ map (fun k => call_of is_get k (default (0, 0) (result_of results (tk_worker k)))) (map fst tvs) /\
        Forall (fun k => exists r, result_of results (tk_worker k) = Some r /\ r.1 = SUCCESS) (map fst tvs))) s h.
Proof.
  intros Hnd. unfold run_committed. set (tasks := map fst (List.filter snd tvs)).
  apply wp_bind, wp_call. intros order Ho.
  assert (Hperm : order ≡ₚ seq 0 (length tasks)) by (rewrite Ho; apply Hpool).
  apply wp_bind. eapply wp_mono.
  { apply wp_run_tasks. apply Forall_forall. intros k Hk. rewrite Hperm in Hk. apply elem_of_seq in Hk. lia. }
  intros o s1 h1 (-> & t & picked & -> & -> & Hf & Htr).
  pose proof (selected_permutation tasks _ order Hperm Hf) as Hsel.
  assert (Hsub : forall k, k ∈ tasks -> k ∈ map fst tvs).
  { intros k Hk. unfold tasks in Hk. rewrite list_elem_of_In, in_map_iff in Hk.
    destruct Hk as (tv & <- & Hk%filter_In). apply list_elem_of_In, in_map. apply Hk. }
  assert (Hndt : NoDup (map tk_worker tasks)).
  { clear -Hnd. unfold tasks. induction tvs as [|tv tvs IH]; [done|]. simpl in *.
    apply NoDup_cons in Hnd as [Hn Hnd]. destruct (tv.2); simpl; [|by apply IH].
    constructor; [|by apply IH]. intros Hin. apply Hn. clear -Hin.
    apply list_elem_of_fmap in Hin as (k & -> & Hk). apply list_elem_of_fmap. exists k. split; [done|].
    rewrite list_elem_of_In, in_map_iff in Hk. destruct Hk as (tv' & <- & Hk%filter_In).
    apply list_elem_of_In, in_map. apply Hk. }
  assert (Hndp : NoDup (map (fun p => tk_worker p.1) picked)).
  { rewrite <- (map_map fst tk_worker). unfold map in *. rewrite Hsel. exact Hndt. }
  set (results := map (fun p => (tk_worker p.1, p.2)) picked) in *.
  assert (Hres : forall k, k ∈ tasks -> exists p, p ∈ picked /\ p.1 = k /\ result_of results (tk_worker k) = Some p.2).
  { intros k Hk. rewrite <- Hsel in Hk. apply list_elem_of_fmap in Hk as (p & -> & Hp). exists p.
    split_and!; try done. by apply result_of_in. }
  apply wp_bind. eapply wp_mono.
  { apply wp_await_all. intros tv Htv Hv. destruct (Hres tv.1) as (p & _ & _ & Hp).
    - unfold tasks. rewrite list_elem_of_In. apply in_map, filter_In. split; [by apply list_elem_of_In|done].
    - by rewrite Hp. }
  intros o s2 h2 (-> & -> & ->). apply wp_ret. split; [done|].
  eexists (t ++ [_]), results, _. split; [by rewrite <- app_assoc|]. split; [done|].
  intros Hc. apply collect_futures_success in Hc as [_ Hall]. rewrite Forall_fmap in Hall.
  assert (Hvalid : Forall (fun tv => tv.2 = true) tvs).
  { apply Forall_impl with (1 := Hall). intros tv. simpl. by destruct (tv.2). }
  assert (Heq : tasks = map fst tvs) by (unfold tasks; by rewrite filter_all_true).
  split; [done|]. split.
  - rewrite transfers_app. simpl. rewrite Htr, <- Heq.
    rewrite <- (Permutation_map (fun k => call_of is_get k (default (0, 0) (result_of results (tk_worker k)))) Hsel).
    rewrite map_map. erewrite (map_ext_in _ _ picked); [reflexivity|]. intros p Hp. simpl.
    pose proof (result_of_in picked p Hndp (proj2 (list_elem_of_In _ _) Hp)) as Hr.
    fold results in Hr. by rewrite Hr.
  - apply Forall_fmap. apply Forall_forall. intros tv Htv. rewrite Forall_forall in Hall, Hvalid.
    specialize (Hall tv Htv). simpl in Hall. rewrite (Hvalid tv Htv) in Hall. simpl.
    destruct (result_of results (tk_worker tv.1)) as [r|]; [|done]. exists r. split; [done|].
    simpl in Hall. congruence.
Qed.

(** The shares of a submission, as calls of the first handles. *)
Definition dispatched (s : MultiChannelDispatcher) (descs : list TransferOpDesc) (is_get : bool)
    (t : McHistory) (calls : list WorkerCall) : Prop :=
  transfers t ≡ₚ calls /\
  map wc_handle calls = take (length calls) (handles_ s) /\
  concat (map wc_descs calls) = ConvertDescs descs /\
  Forall (fun c => wc_get c = is_get /\ wc_status c = SUCCESS) calls.

Lemma wp_SubmitWorkersToPool descs n is_get mode tmo s h :
  0 < n <= Z.of_nat (length (handles_ s)) -> is_u32 (Z.of_nat (length descs)) ->
  wp (SubmitWorkersToPool descs n is_get mode tmo)
    (fun o s' h' => s' = s /\ match o with
       | inr ws => exists t calls, h' = t ++ h /\ dispatched s descs is_get t calls /\
           length calls = Z.to_nat n /\ map wc_descs calls = SplitDescs descs n /\ ws = map wc_complete calls
       | inl _ => True end) s h.
Proof.
  intros Hn Hl. unfold SubmitWorkersToPool. apply wp_bind. eapply wp_mono.
  { apply wp_commit_all. rewrite length_SplitDescs. lia. }
  intros o s1 h1 (-> & t1 & tvs & -> & -> & Ht1 & Htvs). rewrite drop_0 in Htvs.
  destruct (tasks_from_proj 0 (handles_ s) (SplitDescs descs n)) as (Hh & Hd & Hw).
  { rewrite length_SplitDescs. lia. }
  rewrite <- Htvs in Hh, Hd, Hw. rewrite length_SplitDescs in Hh, Hw.
  apply wp_bind. eapply wp_mono; [apply wp_run_committed; rewrite Htvs; apply tasks_from_workers|].
  intros o s2 h2 (-> & t2 & results & futures & -> & -> & Hc).
  apply wp_bind, wp_require; intros Hs; [|done]. apply wp_ret. split; [done|].
  apply Z.eqb_eq in Hs. destruct (Hc Hs) as (_ & Hp & Hf).
  set (f := fun k => call_of is_get k (default (0, 0) (result_of results (tk_worker k)))) in *.
  exists (t2 ++ t1), (map f (map fst tvs)). split; [by rewrite app_assoc|].
  assert (Hlen : length (map f (map fst tvs)) = Z.to_nat n).
  { rewrite length_map, <- (length_map tk_worker), Hw. apply length_seq. }
  assert (Hdescs : map wc_descs (map f (map fst tvs)) = SplitDescs descs n).
  { rewrite map_map. rewrite <- Hd. by apply map_ext. }
  split; [|split; [done|split; [done|]]].
  - unfold dispatched. split_and!.
    + rewrite transfers_app, Ht1. simpl. exact Hp.
    + rewrite Hlen, <- Hh, map_map. by apply map_ext.
    + rewrite Hdescs. apply concat_SplitDescs; [lia|done].
    + apply Forall_fmap. apply Forall_impl with (1 := Hf). intros k (r & Hr & Hs'). simpl. by rewrite Hr.
  - rewrite map_map. unfold f. simpl. rewrite <- Hw, map_map. apply map_ext_in. intros k Hk.
    rewrite Forall_forall in Hf. destruct (Hf k) as (r & Hr & _); [by apply list_elem_of_In|]. by rewrite Hr.
Qed.

(** What an asynchronous submission records: one pending entry for every call, with
    the call's handle index and completion handle, under a non-null completion handle. *)
Definition recorded (s s' : MultiChannelDispatcher) (req : Z) (calls : list WorkerCall) : Prop :=
  exists ws, s' = set_async (<[req := ws]> (async_workers_ s)) s /\
    map we_handle ws = map wc_complete calls /\ map we_client_idx ws = seq 0 (length calls) /\
    Forall (fun e => we_state e = W_PENDING) ws /\ req <> 0 /\ req ∈ map wc_complete calls.

Lemma wp_RecordAsyncWorkers calls s h :
  wp (RecordAsyncWorkers (imap (fun i ch => mkWorkerEntry i ch W_PENDING) (map wc_complete calls)))
    (fun o s' h' => h' = h /\ match o with inr req => recorded s s' req calls | inl _ => s' = s end) s h.
Proof.
  set (ws := imap _ _).
  assert (Hh : map we_handle ws = map wc_complete calls).
  { apply list_eq. intros i. unfold ws. rewrite list_lookup_fmap, list_lookup_imap. by destruct (_ !! i). }
  assert (Hi : map we_client_idx ws = seq 0 (length calls)).
  { apply list_eq. intros i. unfold ws. rewrite list_lookup_fmap, list_lookup_imap.
    destruct (map wc_complete calls !! i) eqn:E; simpl.
    - apply lookup_lt_Some in E. rewrite length_map in E. by rewrite lookup_seq_lt.
    - apply lookup_ge_None in E. rewrite length_map in E. symmetry. apply lookup_ge_None. by rewrite length_seq. }
  assert (Hp : Forall (fun e => we_state e = W_PENDING) ws).
  { apply Forall_forall. intros e He. apply elem_of_lookup_imap in He as (i & ch & -> & _). done. }
  unfold RecordAsyncWorkers, first_nonnull.
  destruct (List.find _ ws) as [e|] eqn:E; simpl; [|by apply wp_fail].
  apply find_some in E as [Hin Hnn]. apply wp_bind, wp_modify, wp_ret. split; [done|]. exists ws.
  split; [done|]. split_and!; try done.
  - intros Hz. unfold is_null in Hnn. rewrite Hz in Hnn. done.
  - rewrite <- Hh. rewrite list_elem_of_In. by apply in_map.
Qed.

Definition submit_post (s : MultiChannelDispatcher) h descs is_get mode n
    (o : Status + Z) (s' : MultiChannelDispatcher) (h' : McHistory) : Prop :=
  match o with
  | inr req => exists t calls, h' = t ++ h /\ dispatched s descs is_get t calls /\
      Z.of_nat (length calls) = n /\
      (1 < n -> Forall (fun c => wc_descs c <> []) calls) /\
      match mode with SYNC => s' = s | ASYNC => recorded s s' req calls end
  | inl _ => s' = s
  end.

Lemma wp_SubmitSingleWorker is_get descs tmo mode s h :
  wp (SubmitSingleWorker is_get descs tmo mode) (submit_post s h descs is_get mode 1) s h.
Proof.
  unfold SubmitSingleWorker. apply wp_bind, wp_get. destruct (handles_ s) as [|front hs] eqn:Hh; [by apply wp_fail|].
  assert (Hd : forall e r ch, calls_of e = [mkWorkerCall is_get front (ConvertDescs descs) r ch] -> r = SUCCESS ->
    dispatched s descs is_get [e] [mkWorkerCall is_get front (ConvertDescs descs) r ch]).
  { intros e r ch He ->. unfold dispatched. simpl. rewrite He, Hh, app_nil_r. by split_and!; repeat constructor. }
  assert (Hsync : forall e r, calls_of e = [mkWorkerCall is_get front (ConvertDescs descs) r nullptr] ->
    wp (status r ;; ret 0) (submit_post s h descs is_get SYNC 1) s (e :: h)).
  { intros e r He. apply wp_bind, wp_require; intros Hr; [|done]. apply Z.eqb_eq in Hr. apply wp_ret.
    eexists [e], [_]. split; [done|]. split; [by apply Hd|]. by split_and!. }
  assert (Hasync : forall e r ch, calls_of e = [mkWorkerCall is_get front (ConvertDescs descs) r ch] ->
    wp (status r ;; RecordAsyncWorkers [mkWorkerEntry 0 ch W_PENDING])
      (submit_post s h descs is_get ASYNC 1) s (e :: h)).
  { intros e r ch He. apply wp_bind, wp_require; intros Hr; [|done]. apply Z.eqb_eq in Hr.
    eapply wp_mono; [apply (wp_RecordAsyncWorkers [mkWorkerCall is_get front (ConvertDescs descs) r ch])|].
    intros [er|req] s' h' [-> Hx]; [done|]. eexists [e], [_]. split; [done|]. split; [by apply Hd|].
    split; [done|]. split; [done|exact Hx]. }
  unfold WorkerBatchSyncCall, WorkerBatchAsyncCall.
  destruct mode, is_get; apply wp_bind, wp_call.
  1,2: intros r _; by apply Hsync.
  all: intros [r ch] _; by apply Hasync.
Qed.

Lemma wp_dispatcher_Submit descs is_get tmo mode has_req s h :
  is_u32 (Z.of_nat (length (handles_ s))) -> is_u32 (Z.of_nat (length descs)) -> is_u32 (split_batch_size_ s) ->
  wp (Submit descs is_get tmo mode has_req)
    (submit_post s h descs is_get mode
       (ResolveActualWorkerNum (Z.of_nat (length (handles_ s))) (Z.of_nat (length descs)) (split_batch_size_ s))) s h.
Proof.
  intros Hh Hd Hb. unfold Submit. apply wp_bind, wp_require; intros _; [|done]. apply wp_bind, wp_get.
  rewrite !u32_small by done. cbv zeta.
  destruct (ResolveActualWorkerNum_bounds _ _ _ Hh Hd Hb) as [Hr Hc].
  set (n := ResolveActualWorkerNum _ _ _) in *. destruct (Z.leb_spec n 1) as [Hn|Hn].
  { replace n with 1 by lia. apply wp_SubmitSingleWorker. }
  apply wp_bind. eapply wp_mono; [apply wp_SubmitWorkersToPool; [lia|done]|].
  intros [e|ws] s1 h1 [-> H]; [done|]. destruct H as (t & calls & -> & Hdis & Hlen & Hwd & ->).
  assert (Hne : 1 < n -> Forall (fun c => wc_descs c <> []) calls).
  { intros _. assert (Hdn : descs <> []) by (intros ->; simpl in Hc; lia).
    pose proof (shares_SplitDescs descs n ltac:(lia) Hd Hdn) as Hs. rewrite <- Hwd, map_map in Hs.
    apply Forall_forall. intros c Hin Hnil.
    assert (Hz : 0 ∈ map (fun j => share (Z.of_nat (length descs)) n (Z.of_nat j)) (seq 0 (Z.to_nat n))).
    { rewrite <- Hs. apply list_elem_of_fmap. exists c. by rewrite Hnil. }
    apply list_elem_of_fmap in Hz as (j & Hj & _). unfold share in Hj.
    pose proof (Z.div_le_lower_bound (Z.of_nat (length descs)) n 1 ltac:(lia) ltac:(specialize (Hc Hn); lia)).
    destruct (_ <? _); lia. }
  destruct mode; [apply wp_ret; exists t, calls; split_and!; try done; lia|].
  eapply wp_mono; [apply wp_RecordAsyncWorkers|]. intros [e|req] s' h' [-> Hx]; [done|].
  exists t, calls. split_and!; try done; lia.
Qed.
End Submission.

(** * The handles *)
Definition created_by (e : Event McOp) : list Z :=
  match e with
  | Ev op r =>
      match op in McOp T return T -> list Z with
      | HixlCSClientCreate _ _ => fun r =>
          if (r.1 =? SUCCESS) && negb (is_null r.2) then [r.2] else []
      | _ => fun _ => []
      end r
  end.
Definition destroyed_by (e : Event McOp) : list Z :=
  match e with Ev op _ => match op with HixlCSClientDestroy h => [h] | _ => [] end end.
Definition created (h : McHistory) : list Z := flat_map created_by h.
Definition destroyed (h : McHistory) : list Z := flat_map destroyed_by h.
Definition nonnull (l : list Z) : list Z := List.filter (fun h => negb (is_null h)) l.

(** The client handles that exist are those the dispatcher holds. *)
Definition balanced (s : MultiChannelDispatcher) (h : McHistory) : Prop :=
  created h ≡ₚ destroyed h ++ nonnull (handles_ s).

Definition other_event (e : Event McOp) : Prop := created_by e = [] /\ destroyed_by e = [].

Lemma balanced_other t h : Forall other_event t -> created (t ++ h) = created h /\ destroyed (t ++ h) = destroyed h.
Proof.
  induction 1 as [|e t [He1 He2] _ [IH1 IH2]]; [done|]. unfold created, destroyed in *. simpl.
  by rewrite He1, He2, IH1, IH2.
Qed.

Section Handles.
Context {env : McEnv}.

Lemma wp_DestroyHandles s h :
  balanced s h ->
  wp DestroyHandles (fun o s' h' => o = inr tt /\ s' = set_handles [] s /\ balanced s' h' /\
    exists t, h' = t ++ h) s h.
Proof.
  intros Hb. unfold DestroyHandles. apply wp_bind, wp_get, wp_bind.
  apply wp_mono with (P := fun o s' h' => o = inr tt /\ s' = s /\ balanced (set_handles [] s) h' /\
    exists t, h' = t ++ h).
  2: { intros o s' h' (-> & -> & Hb' & Ht). by apply wp_modify. }
  unfold balanced in *. simpl. revert h Hb. generalize (handles_ s).
  induction l as [|hd hs IH]; intros h Hb; simpl in *.
  { apply wp_ret. split_and!; try done. by exists []. }
  apply wp_bind. destruct (is_null hd) eqn:Hn; simpl in Hb; [by apply wp_ret, IH|].
  apply wp_call. intros r _. eapply wp_mono; [apply IH|].
  - unfold created, destroyed in *. simpl. rewrite Hb. by rewrite <- Permutation_middle.
  - intros o s' h' (-> & -> & Hb' & t & ->). split_and!; try done. eexists (t ++ [_]). by rewrite <- app_assoc.
Qed.

Lemma wp_create_handles (l : list nat) desc config s h :
  balanced s h ->
  wp (for_each l (fun _ => create_handle desc config))
    (fun o s' h' => balanced s' h' /\ async_workers_ s' = async_workers_ s /\
       split_batch_size_ s' = split_batch_size_ s /\ (exists t, h' = t ++ h) /\
       match o with inr _ => length (handles_ s') = (length (handles_ s) + length l)%nat | inl _ => True end) s h.
Proof.
  revert s h. induction l as [|x l IH]; intros s h Hb; simpl.
  { apply wp_ret. split_and!; try done; by exists []. }
  apply wp_bind. unfold create_handle. apply wp_bind, wp_call. intros [r hd] _. apply wp_bind, wp_require; intros Hr.
  - apply wp_modify. eapply wp_mono; [apply IH|].
    + unfold balanced, created, destroyed in *. simpl. rewrite Hr. simpl. unfold nonnull in *. rewrite List.filter_app.
      simpl. destruct (is_null hd); simpl; [by rewrite app_nil_r|].
      rewrite Hb. rewrite (app_assoc (flat_map destroyed_by h)). apply Permutation_cons_append.
    + intros o s' h' (Hb' & Ha & Hsp & (t & ->) & Hl). split_and!; try done.
      * eexists (t ++ [_]). by rewrite <- app_assoc.
      * destruct o; [done|]. rewrite Hl. simpl. rewrite length_app. simpl. lia.
  - split_and!; try done; [|by eexists [_]].
    unfold balanced, created, destroyed in *. simpl. by rewrite Hr.
Qed.

(** CreateHandles either creates all the handles or leaves none. *)
Lemma wp_CreateHandles desc config n b s h :
  balanced s h ->
  wp (CreateHandles desc config n b)
    (fun o s' h' => balanced s' h' /\ async_workers_ s' = async_workers_ s /\ (exists t, h' = t ++ h) /\
       match o with
       | inr _ => length (handles_ s') = Z.to_nat n /\ split_batch_size_ s' = b /\ pool_ s' = true
       | inl _ => handles_ s' = []  /\ (split_batch_size_ s' = b \/ split_batch_size_ s' = split_batch_size_ s)
       end) s h.
Proof.
  intros Hb. unfold CreateHandles. apply wp_bind. eapply wp_mono; [by apply wp_DestroyHandles|].
  intros o s1 h1 (-> & -> & Hb1 & t1 & ->). apply wp_on_fail.
  assert (Hfail : forall s2 t2, balanced s2 (t2 ++ t1 ++ h) -> async_workers_ s2 = async_workers_ s ->
    (split_batch_size_ s2 = b \/ split_batch_size_ s2 = split_batch_size_ s) ->
    wp DestroyHandles (fun _ s' h' => balanced s' h' /\ async_workers_ s' = async_workers_ s /\ (exists t, h' = t ++ h) /\
      (handles_ s' = [] /\ (split_batch_size_ s' = b \/ split_batch_size_ s' = split_batch_size_ s))) s2 (t2 ++ t1 ++ h)).
  { intros s2 t2 Hb2 Ha Hs. eapply wp_mono; [by apply wp_DestroyHandles|].
    intros o s3 h3 (-> & -> & Hb3 & t3 & ->). split_and!; try done. exists (t3 ++ t2 ++ t1). by rewrite <- !app_assoc. }
  apply wp_bind. eapply wp_mono; [by apply wp_create_handles|].
  intros [e|[]] s2 h2 (Hb2 & Ha & Hsp & (t2 & ->) & Hl); [by apply Hfail; auto|].
  unfold InitPool. apply wp_bind, wp_modify, wp_bind, wp_get, wp_bind, wp_call. intros ok _.
  apply wp_bind, wp_modify, wp_require; intros ->.
  - split_and!; try done.
    + eexists (_ :: t2 ++ t1). simpl. by rewrite <- app_assoc.
    + simpl. rewrite Hl. simpl. by rewrite length_seq.
  - apply (Hfail _ (_ :: t2)); [exact Hb2|done|by left].
Qed.

Lemma emits_Submit_other descs is_get tmo mode has_req :
  emits other_event (Submit descs is_get tmo mode has_req).
Proof.
  assert (Hsync : forall hd ds, emits other_event (WorkerBatchSyncCall is_get hd ds tmo)).
  { intros. unfold WorkerBatchSyncCall. solve_emits; done. }
  assert (Hasync : forall hd ds, emits other_event (WorkerBatchAsyncCall is_get hd ds)).
  { intros. unfold WorkerBatchAsyncCall. solve_emits; done. }
  assert (Hrec : forall ws, emits other_event (RecordAsyncWorkers ws)).
  { intros. unfold RecordAsyncWorkers. solve_emits. }
  assert (Hcommit : forall wds i, emits other_event (commit_all i wds)).
  { induction wds as [|wd wds IH]; intros i; simpl; [apply emits_ret|]. unfold SubmitTask. solve_emits; done. }
  assert (Hrun : forall tasks order, emits other_event (run_tasks mode is_get tmo tasks order)).
  { intros tasks. induction order as [|k order IH]; simpl; [apply emits_ret|].
    unfold run_task. solve_emits; done. }
  assert (Hawait : forall rs tvs, emits other_event (await_all rs tvs)).
  { intros rs. induction tvs as [|tv tvs IH]; simpl; [apply emits_ret|]. unfold await. solve_emits; done. }
  unfold Submit, SubmitSingleWorker, SubmitWorkersToPool, run_committed, CollectAsyncWorkers, status.
  solve_emits; done.
Qed.

Lemma emits_CheckStatus_other req : emits other_event (CheckStatus req).
Proof.
  assert (Hq : forall ws, emits other_event (QueryWorkersStatus ws)).
  { induction ws as [|e ws IH]; simpl; [apply emits_ret|]. unfold query_worker. solve_emits; done. }
  unfold CheckStatus. solve_emits; done.
Qed.
End Handles.

(** * Completion *)

(** The client's reply to a query about the worker is in the history [h]. *)
Definition queried (s : MultiChannelDispatcher) (h : McHistory) (e : WorkerEntry)
    (r : Status) (cs : HixlCompleteStatus) : Prop :=
  exists hd, handles_ s !! we_client_idx e = Some hd /\
    Ev (HixlCSClientQueryCompleteStatus hd (we_handle e)) (r, cs) ∈ h.

(** An entry of [async_workers_] between two calls. *)
Definition entry_ok (s : MultiChannelDispatcher) (h : McHistory) (e : WorkerEntry) : Prop :=
  (we_client_idx e < length (handles_ s))%nat /\ we_state e <> W_FAILED /\
  (we_state e = W_COMPLETED -> queried s h e SUCCESS COMPLETE_COMPLETED).

Definition workers_ok (s : MultiChannelDispatcher) (h : McHistory) : Prop :=
  forall req ws, async_workers_ s !! req = Some ws -> Forall (entry_ok s h) ws.

(** The state of an entry after a check that made the calls [t]. *)
Definition explained (s : MultiChannelDispatcher) (t h : McHistory) (e : WorkerEntry) : Prop :=
  match we_state e with
  | W_COMPLETED => queried s (t ++ h) e SUCCESS COMPLETE_COMPLETED
  | W_PENDING => queried s t e SUCCESS COMPLETE_WAITING
  | W_FAILED => exists r cs, queried s t e r cs /\
      (r <> SUCCESS \/ cs = COMPLETE_TIMEOUT \/ cs = COMPLETE_FAILED)
  end.

Definition same_worker (e e' : WorkerEntry) : Prop :=
  we_client_idx e' = we_client_idx e /\ we_handle e' = we_handle e.

Lemma queried_mono s t h e r cs : queried s h e r cs -> queried s (t ++ h) e r cs.
Proof. intros (hd & H1 & H2). exists hd. split; [done|]. apply elem_of_app. by right. Qed.

Lemma queried_app_l s t h e r cs : queried s t e r cs -> queried s (t ++ h) e r cs.
Proof. intros (hd & H1 & H2). exists hd. split; [done|]. apply elem_of_app. by left. Qed.

Lemma entry_ok_mono s t h e : entry_ok s h e -> entry_ok s (t ++ h) e.
Proof. intros (H1 & H2 & H3). split_and!; try done. intros Hc. by apply queried_mono, H3. Qed.

Section Completion.
Context {env : McEnv}.

Lemma wp_query_worker e s h :
  entry_ok s h e ->
  wp (query_worker e)
    (fun o s' h' => s' = s /\ exists e' t, o = inr e' /\ h' = t ++ h /\ same_worker e e' /\ explained s t h e') s h.
Proof.
  intros (Hi & Hf & Hc). unfold query_worker. destruct (we_state e) eqn:Hs; [|..|done].
  - apply wp_bind, wp_get. destruct (lookup_lt_is_Some_2 (handles_ s) _ Hi) as [hd Hh]. rewrite Hh.
    apply wp_bind, wp_call. intros [r cs] _. apply wp_ret. split; [done|].
    eexists _, [_]. split; [done|]. split; [done|]. split; [done|].
    assert (Hq : forall st, queried s [Ev (HixlCSClientQueryCompleteStatus hd (we_handle e)) (r, cs)]
      (mkWorkerEntry (we_client_idx e) (we_handle e) st) r cs).
    { intros st. exists hd. split; [done|]. by left. }
    unfold explained. simpl. destruct (Z.eqb_spec r SUCCESS) as [->|Hr]; simpl.
    + destruct cs; simpl; try apply Hq; [by apply (queried_app_l _ [_])|..]; (eexists _, _; split; [apply Hq|auto]).
    + eexists _, _. split; [apply Hq|by left].
  - apply wp_ret. split; [done|]. exists e, []. split_and!; try done. unfold explained. rewrite Hs. by apply Hc.
Qed.

Lemma explained_mono s t0 t h e : explained s t h e -> explained s (t0 ++ t) h e.
Proof.
  unfold explained. rewrite <- app_assoc. destruct (we_state e).
  - by apply queried_mono.
  - by apply queried_mono.
  - intros (r & cs & Hq & H). exists r, cs. split; [by apply queried_mono|done].
Qed.

Lemma explained_shift s t t0 h e : explained s t (t0 ++ h) e -> explained s (t ++ t0) h e.
Proof.
  unfold explained. rewrite <- app_assoc. destruct (we_state e); [by apply queried_app_l|done|].
  intros (r & cs & Hq & H). exists r, cs. split; [by apply queried_app_l|done].
Qed.

Lemma wp_QueryWorkersStatus ws s h :
  Forall (entry_ok s h) ws ->
  wp (QueryWorkersStatus ws)
    (fun o s' h' => s' = s /\ exists ws' t, o = inr ws' /\ h' = t ++ h /\
       Forall2 same_worker ws ws' /\ Forall (explained s t h) ws') s h.
Proof.
  revert h. induction ws as [|e ws IH]; intros h Hok; simpl.
  { apply wp_ret. split; [done|]. exists [], []. by split_and!. }
  apply Forall_cons in Hok as [He Hok]. apply wp_bind. eapply wp_mono; [by apply wp_query_worker|].
  intros o s1 h1 (-> & e' & t & -> & -> & Hsame & Hex). apply wp_bind. eapply wp_mono; [apply IH|].
  { apply Forall_impl with (1 := Hok). intros e0. apply entry_ok_mono. }
  intros o s2 h2 (-> & ws' & t2 & -> & -> & Hf2 & Hall). apply wp_ret. split; [done|].
  exists (e' :: ws'), (t2 ++ t). split; [done|]. split; [by rewrite app_assoc|]. split; [by constructor|].
  constructor; [by apply explained_mono|]. apply Forall_impl with (1 := Hall). intros e0. apply explained_shift.
Qed.

Lemma any_state_spec st ws : any_state st ws = true <-> Exists (fun e => we_state e = st) ws.
Proof.
  unfold any_state. rewrite existsb_exists, Exists_exists.
  split; intros (e & He & H); exists e; rewrite list_elem_of_In in *; case_bool_decide; naive_solver.
Qed.

Lemma any_state_false st ws : any_state st ws = false -> Forall (fun e => we_state e <> st) ws.
Proof.
  intros H. apply Forall_forall. intros e He Hst. apply not_true_iff_false in H. apply H, any_state_spec.
  apply Exists_exists. by exists e.
Qed.

(** The answer to a check. *)
Definition check_post (s : MultiChannelDispatcher) (h : McHistory) (req : Z) (r : Status) (st : TransferStatus)
    (s' : MultiChannelDispatcher) (t : McHistory) : Prop :=
  match async_workers_ s !! req with
  | None => r <> SUCCESS /\ st = TS_FAILED /\ s' = s /\ t = []
  | Some ws => r = SUCCESS /\ exists ws', Forall2 same_worker ws ws' /\ Forall (explained s t h) ws' /\
      match st with
      | TS_COMPLETED => Forall (fun e => we_state e = W_COMPLETED) ws' /\
          s' = set_async (delete req (async_workers_ s)) s
      | TS_FAILED => Exists (fun e => we_state e = W_FAILED) ws' /\
          s' = set_async (delete req (async_workers_ s)) s
      | TS_WAITING => Exists (fun e => we_state e = W_PENDING) ws' /\
          Forall (fun e => we_state e <> W_FAILED) ws' /\
          s' = set_async (<[req := ws']> (async_workers_ s)) s
      | TS_TIMEOUT => False
      end
  end.

Lemma wp_CheckStatus req s h :
  workers_ok s h ->
  wp (CheckStatus req) (fun o s' h' => exists r st t, o = inr (r, st) /\ h' = t ++ h /\
    check_post s h req r st s' t) s h.
Proof.
  intros Hok. unfold CheckStatus, check_post. apply wp_bind, wp_get. case_bool_decide as Hempty.
  { apply wp_ret. eexists _, _, []. rewrite Hempty, lookup_empty. by split_and!. }
  destruct (async_workers_ s !! req) as [ws|] eqn:Hws.
  2: { apply wp_ret. by eexists _, _, []. }
  apply wp_bind. eapply wp_mono; [apply wp_QueryWorkersStatus; by apply (Hok req)|].
  intros o s1 h1 (-> & ws' & t & -> & -> & Hf2 & Hall).
  destruct (any_state W_FAILED ws') eqn:Hfa; [|destruct (any_state W_PENDING ws') eqn:Hwa];
    apply wp_bind, wp_modify, wp_ret; (eexists _, _, t; split; [done|]; split; [done|]; split; [done|];
      exists ws'; split; [done|]; split; [done|]).
  - split; [by apply any_state_spec|done].
  - split; [by apply any_state_spec|]. split; [by apply any_state_false|done].
  - split; [|done]. apply any_state_false in Hfa, Hwa. rewrite Forall_forall in *. intros e He.
    specialize (Hfa e He). specialize (Hwa e He). by destruct (we_state e).
Qed.
End Completion.
