(* ===== verification/MultiChannelSafety.v ===== *)
(** The properties of the multi-channel dispatcher (MultiChannel.v): the splitting of
    a submission, the calls it makes, the answers of a status check, and the ownership
    of the client handles, in every state that the public calls reach. *)

From S2P Require Import Prelude Effects MemStore MultiChannel.

(** * Reachable states

    The calls that the client handlers make: handles are created while no transfer is
    recorded, and are destroyed after a reset. *)
Section Reachable.
Context {env : McEnv}.

Inductive mc_step (s : MultiChannelDispatcher) (h : McHistory) : MultiChannelDispatcher -> McHistory -> Prop :=
| step_create desc config n b o s' h' :
    async_workers_ s = ∅ -> is_u32 n -> is_u32 b ->
    CreateHandles desc config n b s h = (o, s', h') -> mc_step s h s' h'
| step_submit descs is_get tmo mode has_req o s' h' :
    is_u32 (Z.of_nat (length descs)) ->
    Submit descs is_get tmo mode has_req s h = (o, s', h') -> mc_step s h s' h'
| step_check req o s' h' : CheckStatus req s h = (o, s', h') -> mc_step s h s' h'
| step_finalize o s' h' : (Reset ;; DestroyHandles) s h = (o, s', h') -> mc_step s h s' h'.

Inductive mc_reachable : MultiChannelDispatcher -> McHistory -> Prop :=
| reach_new : mc_reachable (mkDispatcher [] 128 false ∅) []
| reach_step s h s' h' : mc_reachable s h -> mc_step s h s' h' -> mc_reachable s' h'.

Record mc_inv (s : MultiChannelDispatcher) (h : McHistory) : Prop := {
  inv_balanced : balanced s h;
  inv_workers : workers_ok s h;
  inv_handles : is_u32 (Z.of_nat (length (handles_ s)));
  inv_split : is_u32 (split_batch_size_ s)
}.

Hypothesis Hpool : pool_runs_all.

(** From a postcondition to the result of a run. *)
Lemma wp_result {E S A} (m : M E S A) Q s h o s' h' :
  wp m Q s h -> m s h = (o, s', h') ->
  match o with Ret a => Q (inr a) s' h' | Fail_ e => Q (inl e) s' h' | Stuck => False end.
Proof. unfold wp. intros Hw Hr. by rewrite Hr in Hw. Qed.

(** A run that keeps the handles and only makes other calls. *)
Lemma balanced_keep s h s' t :
  handles_ s' = handles_ s -> Forall other_event t -> balanced s h -> balanced s' (t ++ h).
Proof.
  intros Hh Ht Hb. unfold balanced. rewrite Hh. by destruct (balanced_other t h Ht) as [-> ->].
Qed.

Lemma workers_keep s h s' t :
  handles_ s' = handles_ s -> workers_ok s h ->
  (forall req ws, async_workers_ s' !! req = Some ws ->
     async_workers_ s !! req = Some ws \/ Forall (entry_ok s (t ++ h)) ws) ->
  workers_ok s' (t ++ h).
Proof.
  intros Hh Hw Ha req ws Hreq.
  assert (Hok : Forall (entry_ok s (t ++ h)) ws).
  { destruct (Ha req ws Hreq) as [Hold|]; [|done]. apply Forall_impl with (1 := Hw req ws Hold).
    intros e. apply entry_ok_mono. }
  apply Forall_impl with (1 := Hok). intros e. unfold entry_ok, queried. by rewrite Hh.
Qed.

Lemma recorded_ok s s' h t descs is_get req calls :
  workers_ok s h -> dispatched s descs is_get t calls -> (length calls <= length (handles_ s))%nat ->
  recorded s s' req calls -> workers_ok s' (t ++ h).
Proof.
  intros Hw _ Hlen (ws & -> & _ & Hi & Hp & _). apply (workers_keep s); [done|done|].
  intros req' ws' Hreq. simpl in Hreq. destruct (decide (req' = req)) as [->|Hne].
  - rewrite lookup_insert_eq in Hreq. simplify_eq. right. apply Forall_forall. intros e He.
    rewrite Forall_forall in Hp. pose proof (Hp e He) as Hst. split_and!; [|by rewrite Hst|by rewrite Hst].
    assert (Hin : we_client_idx e ∈ seq 0 (length calls)).
    { rewrite <- Hi. apply list_elem_of_fmap. by exists e. }
    apply elem_of_seq in Hin. lia.
  - rewrite lookup_insert_ne in Hreq by done. by left.
Qed.

(** ** Every call keeps the invariant *)
Lemma inv_create desc config n b s h o s' h' :
  mc_inv s h -> async_workers_ s = ∅ -> is_u32 n -> is_u32 b ->
  CreateHandles desc config n b s h = (o, s', h') -> mc_inv s' h'.
Proof.
  intros [Hb Hw Hh Hs] Ha Hn Hbb Hrun. pose proof (wp_result _ _ _ _ _ _ _ (wp_CreateHandles _ _ _ _ _ _ Hb) Hrun) as Hr.
  destruct o as [[]|e|]; [..|done]; destruct Hr as (Hb' & Ha' & (t & ->) & Hr); rewrite Ha in Ha'.
  - destruct Hr as (Hl & Hsp & _). split; [done|..].
    + intros req ws Hreq. by rewrite Ha', lookup_empty in Hreq.
    + rewrite Hl. destruct Hn. rewrite Z2Nat.id by done. by split.
    + by rewrite Hsp.
  - destruct Hr as (Hl & Hsp). split; [done|..].
    + intros req ws Hreq. by rewrite Ha', lookup_empty in Hreq.
    + rewrite Hl. by vm_compute.
    + destruct Hsp as [->| ->]; done.
Qed.

Lemma inv_submit descs is_get tmo mode has_req s h o s' h' :
  mc_inv s h -> is_u32 (Z.of_nat (length descs)) ->
  Submit descs is_get tmo mode has_req s h = (o, s', h') -> mc_inv s' h'.
Proof.
  intros [Hb Hw Hh Hs] Hd Hrun.
  pose proof (wp_emits _ _ _ _ _ (emits_Submit_other descs is_get tmo mode has_req)
    (wp_dispatcher_Submit Hpool descs is_get tmo mode has_req s h Hh Hd Hs)) as Hwp.
  pose proof (wp_result _ _ _ _ _ _ _ Hwp Hrun) as Hr. clear Hwp Hrun.
  assert (Hsame : forall t, s' = s -> Forall other_event t -> mc_inv s' (t ++ h)).
  { intros t -> Ht. split; [by apply (balanced_keep s)|apply (workers_keep s); auto|done|done]. }
  destruct o as [req|e|]; [..|done]; destruct Hr as [Hp (t & -> & Ht)]; [|by apply Hsame].
  destruct Hp as (t' & calls & Heq & Hdis & Hlen & _ & Hmode). apply app_inv_tail in Heq as <-.
  destruct mode; [by apply Hsame|].
  assert (Hle : (length calls <= length (handles_ s))%nat).
  { pose proof Hdis as (_ & Hmap & _). apply (f_equal length) in Hmap. rewrite length_map, length_take in Hmap. lia. }
  pose proof (recorded_ok s s' h t descs is_get req calls Hw Hdis Hle Hmode) as Hw'.
  destruct Hmode as (ws & -> & _). split; [by apply (balanced_keep s)|exact Hw'|done|done].
Qed.

Lemma explained_ok s t h e :
  (we_client_idx e < length (handles_ s))%nat -> we_state e <> W_FAILED -> explained s t h e ->
  entry_ok s (t ++ h) e.
Proof.
  intros Hi Hf He. split_and!; try done. intros Hc. unfold explained in He. by rewrite Hc in He.
Qed.

Lemma inv_check req s h o s' h' :
  mc_inv s h -> CheckStatus req s h = (o, s', h') -> mc_inv s' h'.
Proof.
  intros [Hb Hw Hh Hs] Hrun.
  pose proof (wp_emits _ _ _ _ _ (emits_CheckStatus_other req) (wp_CheckStatus req s h Hw)) as Hwp.
  pose proof (wp_result _ _ _ _ _ _ _ Hwp Hrun) as Hr. clear Hwp Hrun.
  destruct o as [a|e|]; [|by destruct Hr as [(? & ? & ? & ? & _) _]|done].
  destruct Hr as [(r & st & t & _ & -> & Hp) (t' & Heq & Ht)]. apply app_inv_tail in Heq as <-.
  assert (Hkeep : forall m, (forall req' ws, m !! req' = Some ws ->
      async_workers_ s !! req' = Some ws \/ Forall (entry_ok s (t ++ h)) ws) ->
    mc_inv (set_async m s) (t ++ h)).
  { intros m Hm. split; [by apply (balanced_keep s)|by apply (workers_keep s)|done|done]. }
  unfold check_post in Hp. destruct (async_workers_ s !! req) as [ws|] eqn:Hws.
  2: { destruct Hp as (_ & _ & -> & ->). by split. }
  destruct Hp as (_ & ws' & Hf2 & Hex & Hst).
  assert (Hdel : mc_inv (set_async (delete req (async_workers_ s)) s) (t ++ h)).
  { apply Hkeep. intros req' ws0 H. apply lookup_delete_Some in H as [_ H]. by left. }
  destruct st; [|by destruct Hst as [_ ->]|done|by destruct Hst as [_ ->]].
  destruct Hst as (_ & Hnf & ->). apply Hkeep. intros req' ws0 H.
  destruct (decide (req' = req)) as [->|Hne]; [|rewrite lookup_insert_ne in H by done; by left].
  rewrite lookup_insert_eq in H. simplify_eq. right. specialize (Hw req ws Hws).
  apply Forall_forall. intros e He. rewrite Forall_forall in Hex, Hnf. apply explained_ok; auto.
  apply list_elem_of_lookup in He as [i Hi].
  destruct (Forall2_lookup_r _ _ _ _ _ Hf2 Hi) as (e0 & Hi0 & Hsame & _). rewrite Hsame.
  rewrite Forall_lookup in Hw. by destruct (Hw i e0 Hi0).
Qed.

Lemma inv_finalize s h o s' h' :
  mc_inv s h -> (Reset ;; DestroyHandles) s h = (o, s', h') -> mc_inv s' h'.
Proof.
  intros [Hb Hw Hh Hs] Hrun.
  assert (Hwp : wp (Reset ;; DestroyHandles) (fun o s' h' => o = inr tt /\
      s' = set_handles [] (set_async ∅ (set_pool false s)) /\ balanced s' h' /\ exists t, h' = t ++ h) s h).
  { apply wp_bind, wp_modify. apply wp_DestroyHandles. exact Hb. }
  pose proof (wp_result _ _ _ _ _ _ _ Hwp Hrun) as Hr.
  destruct o as [[]|e|]; [|by destruct Hr|done]. destruct Hr as (_ & -> & Hb' & t & ->).
  split; [done|..]; simpl; [|by vm_compute|done]. intros req ws H. simpl in H. by rewrite lookup_empty in H.
Qed.

Lemma reachable_inv s h : mc_reachable s h -> mc_inv s h.
Proof.
  induction 1 as [|s h s' h' _ IH Hstep].
  - split; [apply perm_nil|..]; [|by vm_compute|by vm_compute]. intros req ws H. simpl in H. by rewrite lookup_empty in H.
  - destruct Hstep as [| | |]; match goal with H : _ = (_, _, _) |- _ =>
      first [eapply inv_create in H | eapply inv_submit in H | eapply inv_check in H | eapply inv_finalize in H];
      [exact H|assumption..] end.
Qed.
End Reachable.

(** * Theorems *)

(** C16: In every state that the handlers reach, a submission returns, and when it
    reports success the transfer calls it made, in whatever order the pool ran them,
    are one call per chosen handle, all successful, whose shares in worker order are
    together exactly the submitted descriptors (none lost, doubled or reordered), with
    no idle worker; an asynchronous submission records one pending entry per call
    under a non-null completion handle, and a failed one records nothing. *)
Theorem MultiChannel_Submit_dispatches {env : McEnv} s h descs is_get tmo mode has_req :
  pool_runs_all -> mc_reachable s h -> is_u32 (Z.of_nat (length descs)) ->
  exists o s' t, Submit descs is_get tmo mode has_req s h = (o, s', t ++ h) /\
    match o with
    | Stuck => False
    | Fail_ _ => s' = s
    | Ret req =>
        let n := ResolveActualWorkerNum (Z.of_nat (length (handles_ s))) (Z.of_nat (length descs))
                   (split_batch_size_ s) in
        exists calls, dispatched s descs is_get t calls /\ Z.of_nat (length calls) = n /\
          (1 < n -> Forall (fun c => wc_descs c <> []) calls) /\
          match mode with SYNC => s' = s | ASYNC => recorded s s' req calls end
    end.
Proof.
  intros Hpool Hr Hd. pose proof (reachable_inv Hpool s h Hr) as [_ _ Hh Hs].
  pose proof (wp_emits _ _ _ _ _ (emits_Submit_other descs is_get tmo mode has_req)
    (wp_dispatcher_Submit Hpool descs is_get tmo mode has_req s h Hh Hd Hs)) as Hw.
  unfold wp in Hw. destruct (Submit _ _ _ _ _ _ _) as [[[req|e|] s'] h']; [..|done];
    destruct Hw as [Hp (t & -> & _)]; eexists _, s', t; (split; [done|]); [|exact Hp].
  destruct Hp as (t' & calls & Heq & H). apply app_inv_tail in Heq as <-. by exists calls.
Qed.

(** C25: In every reachable state a status check returns and tells the truth: an unknown
    request is an error; otherwise every worker's entry is brought up to date by the
    replies of this check, COMPLETED is reported only when every worker's completion
    was reported by its own client, FAILED only when a query of this check failed,
    timed out or reported a failure, WAITING only while a worker is pending and none
    failed; the request is forgotten exactly when it is not WAITING. *)
Theorem MultiChannel_CheckStatus_sound {env : McEnv} s h req :
  pool_runs_all -> mc_reachable s h ->
  exists r st s' t, CheckStatus req s h = (Ret (r, st), s', t ++ h) /\ check_post s h req r st s' t.
Proof.
  intros Hpool Hr. pose proof (reachable_inv Hpool s h Hr) as [_ Hw _ _].
  pose proof (wp_CheckStatus req s h Hw) as Hc. unfold wp in Hc.
  destruct (CheckStatus req s h) as [[[a|e|] s'] h']; [|by destruct Hc as (? & ? & ? & ? & _)|done].
  destruct Hc as (r & st & t & Heq & -> & Hp). simplify_eq. by exists r, st, s', t.
Qed.

(** C35: In every reachable state the client handles created and not yet destroyed are
    exactly the handles the dispatcher holds (a handle is never destroyed twice nor
    lost, on failing creations too), and every recorded worker refers to one of them. *)
Theorem MultiChannel_handles_owned {env : McEnv} s h :
  pool_runs_all -> mc_reachable s h ->
  created h ≡ₚ destroyed h ++ nonnull (handles_ s) /\
  forall req ws, async_workers_ s !! req = Some ws ->
    Forall (fun e => (we_client_idx e < length (handles_ s))%nat /\ we_state e <> W_FAILED) ws.
Proof.
  intros Hpool Hr. destruct (reachable_inv Hpool s h Hr) as [Hb Hw _ _]. split; [exact Hb|].
  intros req ws Hreq. apply Forall_impl with (1 := Hw req ws Hreq). intros e (H1 & H2 & _). by split.
Qed.

(** SplitDescs gives the descriptors to the workers in order, as [worker_num]
    consecutive shares whose sizes differ by at most one, the larger ones first. *)
Theorem SplitDescs_balanced descs n :
  0 < n -> is_u32 (Z.of_nat (length descs)) ->
  Z.of_nat (length (SplitDescs descs n)) = n /\
  concat (SplitDescs descs n) = ConvertDescs descs /\
  forall i j wi wj, (i <= j)%nat -> SplitDescs descs n !! i = Some wi -> SplitDescs descs n !! j = Some wj ->
    (length wj <= length wi <= S (length wj))%nat.
Proof.
  intros Hn Hl. rewrite length_SplitDescs. split; [lia|]. split; [by apply concat_SplitDescs|].
  intros i j wi wj Hij Hi Hj.
  assert (Hlen : forall k w, SplitDescs descs n !! k = Some w ->
    Z.of_nat (length w) = share (Z.of_nat (length descs)) n (Z.of_nat k)).
  { intros k w Hk. destruct descs as [|d ds].
    - unfold SplitDescs in Hk. rewrite orb_true_r in Hk. apply lookup_replicate in Hk as [-> _].
      unfold share. cbn [length]. change (Z.of_nat 0) with 0. rewrite Z.div_0_l, Z.mod_0_l by lia.
      destruct (Z.ltb_spec (Z.of_nat k) 0); lia.
    - pose proof (shares_SplitDescs (d :: ds) n Hn Hl ltac:(done)) as Hs.
      assert (Hk' : map (fun w => Z.of_nat (length w)) (SplitDescs (d :: ds) n) !! k = Some (Z.of_nat (length w))).
      { rewrite list_lookup_fmap, Hk. done. }
      rewrite Hs, list_lookup_fmap in Hk'. apply lookup_lt_Some in Hk. rewrite length_SplitDescs in Hk.
      rewrite lookup_seq_lt in Hk' by done. injection Hk' as Hk'. symmetry. exact Hk'. }
  pose proof (Hlen i wi Hi) as H1. pose proof (Hlen j wj Hj) as H2. unfold share in *.
  destruct (Z.ltb_spec (Z.of_nat i) (Z.of_nat (length descs) mod n)),
    (Z.ltb_spec (Z.of_nat j) (Z.of_nat (length descs) mod n)); lia.
Qed.

(** * Witnesses *)

(** Clients that create the handles 1, 2, ... and accept every call; a completion is
    reported from the second query on. *)
Definition ref_mc : McEnv := fun T op h =>
  match op in McOp T return T with
  | HixlCSClientCreate _ _ => (SUCCESS, 1 + Z.of_nat (length h))
  | HixlCSClientDestroy _ => tt
  | HixlCSClientBatchGetSync _ _ _ => SUCCESS
  | HixlCSClientBatchPutSync _ _ _ => SUCCESS
  | HixlCSClientBatchGetAsync hd _ => (SUCCESS, 100 + hd)
  | HixlCSClientBatchPutAsync hd _ => (SUCCESS, 100 + hd)
  | HixlCSClientQueryCompleteStatus hd _ =>
      (SUCCESS, if Nat.leb 14 (length h) then COMPLETE_COMPLETED else COMPLETE_WAITING)
  | make_thread_pool _ => true
  | pool_commit => true
  | pool_order n => rev (seq 0 n)
  end.

Lemma ref_mc_pool : pool_runs_all (env := ref_mc).
Proof. intros n h. unfold reply_of, ref_mc. symmetry. apply Permutation_rev. Qed.

Definition ref_mc_descs : list TransferOpDesc :=
  [mkTransferOpDesc 1 2 3; mkTransferOpDesc 4 5 6; mkTransferOpDesc 7 8 9; mkTransferOpDesc 10 11 12;
   mkTransferOpDesc 13 14 15].

Definition ref_mc_created := CreateHandles (env := ref_mc) 0 0 3 2 (mkDispatcher [] 128 false ∅) [].
Definition ref_mc_submitted :=
  Submit (env := ref_mc) ref_mc_descs true 10 ASYNC true (ref_mc_created.1.2) (ref_mc_created.2).

Lemma ref_mc_created_reachable : mc_reachable (env := ref_mc) ref_mc_created.1.2 ref_mc_created.2.
Proof.
  eapply reach_step; [apply reach_new|].
  eapply (step_create (env := ref_mc) _ _ 0 0 3 2 ref_mc_created.1.1); [done|by vm_compute|by vm_compute|].
  vm_compute. reflexivity.
Qed.

Lemma ref_mc_submitted_reachable : mc_reachable (env := ref_mc) ref_mc_submitted.1.2 ref_mc_submitted.2.
Proof.
  eapply reach_step; [apply ref_mc_created_reachable|].
  eapply (step_submit (env := ref_mc) _ _ ref_mc_descs true 10 ASYNC true ref_mc_submitted.1.1); [by vm_compute|].
  vm_compute. reflexivity.
Qed.

(** Three workers, run in reverse order, take two, two and one descriptors. *)
Example ref_mc_dispatch : fst (fst ref_mc_submitted) = Ret 101.
Proof. vm_compute. reflexivity. Qed.

Lemma MultiChannel_Submit_dispatches_witness :
  exists o s' t, Submit (env := ref_mc) ref_mc_descs false 10 SYNC false ref_mc_created.1.2 ref_mc_created.2
                   = (o, s', t ++ ref_mc_created.2) /\ o <> Stuck.
Proof.
  destruct (MultiChannel_Submit_dispatches (env := ref_mc) ref_mc_created.1.2 ref_mc_created.2 ref_mc_descs
    false 10 SYNC false ref_mc_pool ref_mc_created_reachable) as (o & s' & t & H & Ho).
  - by vm_compute.
  - exists o, s', t. split; [exact H|]. by destruct o.
Defined.

Lemma MultiChannel_CheckStatus_sound_witness :
  exists r st s' t, CheckStatus (env := ref_mc) 101 ref_mc_submitted.1.2 ref_mc_submitted.2
                      = (Ret (r, st), s', t ++ ref_mc_submitted.2) /\
    check_post ref_mc_submitted.1.2 ref_mc_submitted.2 101 r st s' t.
Proof.
  apply (MultiChannel_CheckStatus_sound (env := ref_mc)).
  - exact ref_mc_pool.
  - exact ref_mc_submitted_reachable.
Defined.

Lemma MultiChannel_handles_owned_witness :
  created ref_mc_submitted.2 ≡ₚ destroyed ref_mc_submitted.2 ++ nonnull (handles_ ref_mc_submitted.1.2) /\
  forall req ws, async_workers_ ref_mc_submitted.1.2 !! req = Some ws ->
    Forall (fun e => (we_client_idx e < length (handles_ ref_mc_submitted.1.2))%nat /\ we_state e <> W_FAILED) ws.
Proof.
  apply (MultiChannel_handles_owned (env := ref_mc)).
  - exact ref_mc_pool.
  - exact ref_mc_submitted_reachable.
Defined.

Lemma SplitDescs_balanced_witness :
  0 < 3 /\ Z.of_nat (length (SplitDescs ref_mc_descs 3)) = 3 /\
  concat (SplitDescs ref_mc_descs 3) = ConvertDescs ref_mc_descs.
Proof.
  split; [lia|]. destruct (SplitDescs_balanced ref_mc_descs 3) as (H1 & H2 & _).
  - lia.
  - by vm_compute.
  - split; [exact H1|exact H2].
Defined.
