(* ===== verification/EndpointMatcher.v ===== *)
(** EndpointMatcher (engine/endpoint_matcher.cc, .h): the choice of the link between
    two engines from the endpoints of both sides.  Logging is left out; the C strings
    of the rule table are strings. *)

From Stdlib Require Import Sorting.Sorted.
From stdpp Require Import strings.
From S2P Require Import Prelude StdMap.

(** * Data *)
Record EndpointConfig := mkEndpoint {
  protocol : string;
  comm_id : string;
  placement : string;
  plane : string;
  dst_eid : string;
  net_instance_id : string;
  server_id : string;
  device_info : Z
}.
Definition with_comm_id (c : string) (e : EndpointConfig) : EndpointConfig :=
  mkEndpoint (protocol e) c (placement e) (plane e) (dst_eid e) (net_instance_id e) (server_id e) (device_info e).

Inductive CommType :=
  UB_D2D | UB_H2D | UB_D2H | UB_H2H | COMM_ROCE | COMM_HCCS | COMM_UBOE | COMM_UBG | COMM_UBMEM.
#[export] Instance CommType_eq_dec : EqDecision CommType.
Proof. solve_decision. Defined.

Inductive LinkType := PEER2NET | PEER2PEER.
#[export] Instance LinkType_eq_dec : EqDecision LinkType.
Proof. solve_decision. Defined.

Inductive HandlerType := DIRECT | UB.

Record EndpointPair := mkPair { ep_local : EndpointConfig; ep_remote : EndpointConfig; ep_type : CommType }.

Definition kProtocolRoce : string := "roce".
Definition kProtocolUbCtp : string := "ub_ctp".
Definition kProtocolHccs : string := "hccs".
Definition kProtocolUboe : string := "uboe".
Definition kProtocolUbRtp : string := "ub_rtp".
Definition kProtocolUbmem : string := "ubmem".
Definition kPlacementDevice : string := "device".
Definition kPlacementHost : string := "host".
Definition kMaxUbCsClientNum : Z := 4.

(** The key of the peer map and its order. *)
Record MatchKey := mkMatchKey { mk_dst_eid : string; mk_plane : string; mk_placement : string }.

Definition MatchKey_ltb (a b : MatchKey) : bool :=
  if negb (String.eqb (mk_dst_eid a) (mk_dst_eid b)) then String.ltb (mk_dst_eid a) (mk_dst_eid b)
  else if negb (String.eqb (mk_plane a) (mk_plane b)) then String.ltb (mk_plane a) (mk_plane b)
  else String.ltb (mk_placement a) (mk_placement b).

Definition is_empty (s : string) : bool := String.eqb s "".

Definition MatchKey_Matches (k query : MatchKey) : bool :=
  if negb (is_empty (mk_dst_eid k)) && negb (is_empty (mk_dst_eid query))
     && negb (String.eqb (mk_dst_eid k) (mk_dst_eid query)) then false
  else if negb (String.eqb (mk_plane k) (mk_plane query)) then false
  else String.eqb (mk_placement k) (mk_placement query).

Lemma string_ltb_irrefl s : String.ltb s s = false.
Proof.
  unfold String.ltb. pose proof (String.compare_antisym s s) as H.
  destruct (String.compare s s); simpl in H; congruence.
Qed.

Lemma string_ltb_leb a b : String.ltb a b = negb (String.leb b a).
Proof. unfold String.ltb, String.leb. rewrite (String.compare_antisym a b). by destruct (String.compare b a). Qed.

Lemma string_leb_trans a b c : String.leb a b = true -> String.leb b c = true -> String.leb a c = true.
Proof.
  intros H1 H2. apply Is_true_eq_true. apply (transitivity (R := String.le) (y := b)); by apply Is_true_eq_left.
Qed.

Lemma string_ltb_trans a b c : String.ltb a b = true -> String.ltb b c = true -> String.ltb a c = true.
Proof.
  rewrite !string_ltb_leb, !negb_true_iff. intros H1 H2. destruct (String.leb c a) eqn:E; [|done].
  destruct (String.leb_total a b) as [H|H]; [|congruence]. pose proof (string_leb_trans _ _ _ E H). congruence.
Qed.

Lemma string_ltb_total a b : String.ltb a b = false -> String.ltb b a = false -> a = b.
Proof. rewrite !string_ltb_leb, !negb_false_iff. intros H1 H2. by apply String.leb_antisym. Qed.

(** One level of a lexicographic comparison. *)
Definition lex_ltb (a b : string) (rest : bool) : bool :=
  if negb (String.eqb a b) then String.ltb a b else rest.

Lemma lex_ltb_refl a r : lex_ltb a a r = r.
Proof. unfold lex_ltb. by rewrite String.eqb_refl. Qed.

Lemma lex_ltb_trans a b c r1 r2 r3 :
  lex_ltb a b r1 = true -> lex_ltb b c r2 = true -> (r1 = true -> r2 = true -> r3 = true) -> lex_ltb a c r3 = true.
Proof.
  unfold lex_ltb. intros H1 H2 Hr. destruct (String.eqb_spec a b) as [->|]; simpl in *.
  - destruct (String.eqb_spec b c) as [->|]; simpl in *; auto.
  - destruct (String.eqb_spec b c) as [->|]; simpl in *.
    + by destruct (String.eqb_spec a c).
    + destruct (String.eqb_spec a c) as [->|]; simpl; [|by eapply string_ltb_trans].
      pose proof (string_ltb_trans _ _ _ H1 H2) as H. by rewrite string_ltb_irrefl in H.
Qed.

Lemma lex_ltb_total a b r1 r2 :
  lex_ltb a b r1 = false -> lex_ltb b a r2 = false -> a = b /\ r1 = false /\ r2 = false.
Proof.
  unfold lex_ltb. rewrite (String.eqb_sym b a). destruct (String.eqb_spec a b) as [->|Hne]; simpl; [auto|].
  intros H1 H2. destruct Hne. by apply string_ltb_total.
Qed.

#[export] Program Instance MatchKey_KeyOrder : KeyOrder MatchKey := {| key_ltb := MatchKey_ltb |}.
Next Obligation.
  intros k. change (lex_ltb (mk_dst_eid k) (mk_dst_eid k) (lex_ltb (mk_plane k) (mk_plane k)
    (String.ltb (mk_placement k) (mk_placement k))) = false).
  by rewrite !lex_ltb_refl, string_ltb_irrefl.
Qed.
Next Obligation.
  intros a b c H1 H2. eapply lex_ltb_trans; [exact H1|exact H2|]. intros H3 H4.
  eapply lex_ltb_trans; [exact H3|exact H4|]. apply string_ltb_trans.
Qed.
Next Obligation.
  intros [a1 a2 a3] [b1 b2 b3] H1 H2.
  destruct (lex_ltb_total _ _ _ _ H1 H2) as (E1 & H3 & H4).
  destruct (lex_ltb_total _ _ _ _ H3 H4) as (E2 & H5 & H6).
  pose proof (string_ltb_total _ _ H5 H6) as E3. simpl in *. by subst.
Qed.

(** * [std::stable_sort]

    Insertion from the end: an element goes before the first one that is not smaller. *)
Section StableSort.
Context {A : Type} (less : A -> A -> bool).

Fixpoint sort_insert (x : A) (l : list A) : list A :=
  match l with
  | [] => [x]
  | y :: l' => if less y x then y :: sort_insert x l' else x :: l
  end.
Fixpoint stable_sort (l : list A) : list A :=
  match l with [] => [] | x :: l' => sort_insert x (stable_sort l') end.

Lemma sort_insert_perm x l : sort_insert x l ≡ₚ x :: l.
Proof. induction l as [|y l IH]; simpl; [done|]. destruct (less y x); [|done]. rewrite IH. constructor. Qed.

Lemma stable_sort_perm l : stable_sort l ≡ₚ l.
Proof. induction l as [|x l IH]; simpl; [done|]. by rewrite sort_insert_perm, IH. Qed.

Hypothesis less_asym : forall a b, less a b = true -> less b a = false.
Hypothesis not_less_trans : forall a b c, less b a = false -> less c b = false -> less c a = false.

Definition in_order (a b : A) : Prop := less b a = false.

Lemma sort_insert_sorted x l : StronglySorted in_order l -> StronglySorted in_order (sort_insert x l).
Proof.
  induction 1 as [|y l Hl IH Hy]; simpl; [by repeat constructor|]. destruct (less y x) eqn:E.
  - constructor; [done|]. rewrite Forall_forall in *. intros z Hz. rewrite sort_insert_perm in Hz.
    apply elem_of_cons in Hz as [->|Hz]; [|by apply Hy]. unfold in_order. by apply less_asym.
  - constructor; [by constructor|]. constructor; [done|]. rewrite Forall_forall in *. intros z Hz.
    eapply not_less_trans; [exact E|]. by apply Hy.
Qed.

Lemma stable_sort_sorted l : StronglySorted in_order (stable_sort l).
Proof. induction l as [|x l IH]; simpl; [constructor|by apply sort_insert_sorted]. Qed.

(** Elements of the same rank keep their order. *)
Lemma sort_insert_filter (P : A -> bool) x l :
  (forall a b, P a = true -> P b = true -> less a b = false) ->
  List.filter P (sort_insert x l) = List.filter P (x :: l).
Proof.
  intros HP. induction l as [|y l IH]; simpl; [done|]. destruct (less y x) eqn:E; [|done].
  simpl. rewrite IH. simpl. destruct (P x) eqn:Hx, (P y) eqn:Hy; try done.
  by rewrite (HP y x Hy Hx) in E.
Qed.

Lemma stable_sort_filter (P : A -> bool) l :
  (forall a b, P a = true -> P b = true -> less a b = false) ->
  List.filter P (stable_sort l) = List.filter P l.
Proof.
  intros HP. induction l as [|x l IH]; simpl; [done|]. rewrite sort_insert_filter by done. simpl. by rewrite IH.
Qed.
End StableSort.

(** * Matching *)

(** Rules: [None] for a null protocol or placement. *)
Inductive MatchRuleType := GROUP | SINGLE.
Record MatchRule := mkRule {
  rule_type : MatchRuleType;
  rule_handler : HandlerType;
  rule_protocol : option string;
  rule_placement : option string;
  rule_comm : CommType
}.
Definition single_rule (p pl : string) (t : CommType) : MatchRule := mkRule SINGLE DIRECT (Some p) (Some pl) t.

Definition kCrossInstanceRules : list MatchRule :=
  [single_rule kProtocolUboe kPlacementDevice COMM_UBOE;
   single_rule kProtocolUbRtp kPlacementDevice COMM_UBG;
   single_rule kProtocolRoce kPlacementDevice COMM_ROCE;
   single_rule kProtocolRoce kPlacementHost COMM_ROCE].

Definition kSameInstanceRules : list MatchRule :=
  [single_rule kProtocolUbmem kPlacementDevice COMM_UBMEM;
   mkRule GROUP UB None None UB_D2D;
   single_rule kProtocolHccs kPlacementDevice COMM_HCCS;
   single_rule kProtocolUboe kPlacementDevice COMM_UBOE;
   single_rule kProtocolUbRtp kPlacementDevice COMM_UBG;
   single_rule kProtocolRoce kPlacementDevice COMM_ROCE;
   single_rule kProtocolRoce kPlacementHost COMM_ROCE].

Definition kSameInstanceUbCtpDeviceOnlyRule : MatchRule :=
  single_rule kProtocolUbCtp kPlacementDevice UB_D2D.

Definition EndpointLinkType (ep : EndpointConfig) : string :=
  if negb (is_empty (dst_eid ep)) then "PEER2PEER"
  else if negb (is_empty (plane ep)) then "PEER2NET" else "OTHER".

Definition LinkTypeName (priority : LinkType) : string :=
  match priority with PEER2NET => "PEER2NET" | PEER2PEER => "PEER2PEER" end.

Definition LinkRank (ep : EndpointConfig) (priority : LinkType) : Z :=
  let type := EndpointLinkType ep in
  if String.eqb type (LinkTypeName priority) then 0
  else if bool_decide (priority = PEER2NET) && String.eqb type "OTHER" then 2 else 1.

Definition ParseCommType (local remote : string) : CommType :=
  if String.eqb local kPlacementDevice && String.eqb remote kPlacementDevice then UB_D2D
  else if String.eqb local kPlacementDevice && String.eqb remote kPlacementHost then UB_D2H
  else if String.eqb local kPlacementHost && String.eqb remote kPlacementHost then UB_H2H
  else UB_H2D.

Definition IsUbProtocol (p : string) : bool := String.eqb p kProtocolUbCtp.
Definition IsUbCtpEndpoint (e : EndpointConfig) : bool := String.eqb (protocol e) kProtocolUbCtp.
Definition AreUbCtpEndpointsAllDevice (endpoints : list EndpointConfig) : bool :=
  forallb (fun e => negb (IsUbCtpEndpoint e) || String.eqb (placement e) kPlacementDevice) endpoints.

Definition PeerMap : Type := list (MatchKey * EndpointConfig).
Definition key_of (ep : EndpointConfig) : MatchKey := mkMatchKey (dst_eid ep) (plane ep) (placement ep).

Definition BuildMatchMap (endpoints : list EndpointConfig) : PeerMap :=
  fold_left (fun out ep => if IsUbProtocol (protocol ep) then std_set (key_of ep) ep out else out) endpoints [].

Definition IsCrossInstance (local remote : list EndpointConfig) : option bool :=
  match local, remote with
  | l :: _, r :: _ => Some (negb (String.eqb (net_instance_id l) (net_instance_id r)))
  | _, _ => None
  end.

(** The first entry, in key order, whose key matches the query. *)
Definition FindMatchingKey (m : PeerMap) (query : MatchKey) : option EndpointConfig :=
  snd <$> List.find (fun kv => MatchKey_Matches kv.1 query) m.

Definition matches_single (p pl : string) (e : EndpointConfig) : bool :=
  String.eqb (protocol e) p && String.eqb (placement e) pl.

Definition TryMatchSingle (local remote : list EndpointConfig) (p pl : string) (type : CommType)
    (pairs : list EndpointPair) : Status * list EndpointPair :=
  match List.find (matches_single p pl) local, List.find (matches_single p pl) remote with
  | Some l, Some r => (SUCCESS, pairs ++ [mkPair l r type])
  | _, _ => (FAILED, pairs)
  end.

(** The state of a group match: the directions done (an absent map entry is
    [false]), their number, and the pairs. *)
Record GroupState := mkGroup { g_expected : list CommType; g_count : Z; g_pairs : list EndpointPair }.
Definition expected (t : CommType) (g : GroupState) : bool := bool_decide (t ∈ g_expected g).
Definition add_pair (p : EndpointPair) (g : GroupState) : GroupState :=
  mkGroup (ep_type p :: g_expected g) (u32 (g_count g + 1)) (g_pairs g ++ [p]).

(** One placement of the loop of TryMatchUb. *)
Definition try_match_placement (local : EndpointConfig) (peers : PeerMap) (g : GroupState) (pl : string) : GroupState :=
  match FindMatchingKey peers (mkMatchKey (comm_id local) (plane local) pl) with
  | None => g
  | Some peer =>
      let type := ParseCommType (placement local) (placement peer) in
      if expected type g then g else add_pair (mkPair local peer type) g
  end.

Definition TryMatchUb (local : EndpointConfig) (peers : PeerMap) (g : GroupState) : GroupState :=
  if negb (IsUbProtocol (protocol local)) then g
  else fold_left (try_match_placement local peers) [kPlacementDevice; kPlacementHost] g.

Definition is_loopback_peer (local peer : EndpointConfig) : bool :=
  IsUbProtocol (protocol peer) && String.eqb (protocol peer) (protocol local)
  && String.eqb (placement peer) kPlacementHost && String.eqb (plane peer) (plane local)
  && String.eqb (server_id peer) (server_id local).

Definition TryMatchH2rHLoopback (local : EndpointConfig) (remote : list EndpointConfig) (g : GroupState) : GroupState :=
  if negb (IsUbProtocol (protocol local)) || negb (String.eqb (placement local) kPlacementHost)
     || is_empty (server_id local) || expected UB_H2H g then g
  else match List.find (is_loopback_peer local) remote with
       | None => g
       | Some peer => add_pair (mkPair (with_comm_id (comm_id peer) local) peer UB_H2H) g
       end.

Definition d2d_less (priority : LinkType) (a b : EndpointConfig) : bool :=
  if negb (LinkRank a priority =? LinkRank b priority) then LinkRank a priority <? LinkRank b priority
  else String.ltb (plane a) (plane b).

Definition d2d_candidates (local : list EndpointConfig) : list EndpointConfig :=
  List.filter (fun ep => IsUbCtpEndpoint ep && String.eqb (placement ep) kPlacementDevice) local.

Definition d2d_peer (peers : PeerMap) (ep : EndpointConfig) : option EndpointConfig :=
  FindMatchingKey peers (mkMatchKey (comm_id ep) (plane ep) kPlacementDevice).

(** The loop of MatchD2D over the sorted candidates. *)
Fixpoint first_d2d (peers : PeerMap) (candidates : list EndpointConfig) : option EndpointPair :=
  match candidates with
  | [] => None
  | ep :: eps =>
      match d2d_peer peers ep with
      | Some peer => Some (mkPair ep peer UB_D2D)
      | None => first_d2d peers eps
      end
  end.

Definition MatchD2D (local : list EndpointConfig) (peers : PeerMap) (priority : LinkType)
    (pairs : list EndpointPair) : list EndpointPair :=
  match first_d2d peers (stable_sort (d2d_less priority) (d2d_candidates local)) with
  | Some p => pairs ++ [p]
  | None => pairs
  end.

Definition group_less (a b : EndpointConfig) : bool :=
  if negb (Bool.eqb (is_empty (dst_eid a)) (is_empty (dst_eid b))) then negb (is_empty (dst_eid a))
  else String.ltb (plane a) (plane b).

(** The loop of TryMatchGroup; [true] for a return from the loop. *)
Fixpoint group_loop (remote : list EndpointConfig) (peers : PeerMap) (eps : list EndpointConfig) (g : GroupState)
    : bool * GroupState :=
  match eps with
  | [] => (false, g)
  | ep :: eps' =>
      let g := TryMatchH2rHLoopback ep remote g in
      if g_count g =? kMaxUbCsClientNum then (true, g)
      else
        let g := TryMatchUb ep peers g in
        if g_count g =? kMaxUbCsClientNum then (true, g) else group_loop remote peers eps' g
  end.

Definition TryMatchGroup (local remote : list EndpointConfig) (pairs : list EndpointPair) (priority : LinkType)
    : Status * list EndpointPair :=
  let peers := BuildMatchMap remote in
  let pairs := MatchD2D local peers priority pairs in
  let count := u32 (Z.of_nat (length pairs)) in
  let '(full, g) := group_loop remote peers (stable_sort group_less local) (mkGroup [UB_D2D] count pairs) in
  (if full : bool then SUCCESS else if 0 <? g_count g then SUCCESS else FAILED, g_pairs g).

Definition TryMatchUbCtpD2DOnlyByGroup (local remote : list EndpointConfig) (pairs : list EndpointPair)
    (priority : LinkType) : Status * list EndpointPair :=
  let '(status, group_pairs) := TryMatchGroup local remote [] priority in
  if negb (status =? SUCCESS) then (FAILED, pairs)
  else match group_pairs with
       | [p] =>
           if bool_decide (ep_type p = UB_D2D) && IsUbCtpEndpoint (ep_local p) && IsUbCtpEndpoint (ep_remote p)
           then (SUCCESS, group_pairs) else (FAILED, pairs)
       | _ => (FAILED, pairs)
       end.

(** The status and the pairs of one rule (the pairs are cleared first). *)
Definition try_match_rule (local remote : list EndpointConfig) (priority : LinkType) (rule : MatchRule)
    : Status * list EndpointPair :=
  match rule_type rule, rule_protocol rule, rule_placement rule with
  | GROUP, _, _ => TryMatchGroup local remote [] priority
  | SINGLE, Some p, Some pl =>
      if String.eqb p kProtocolUbCtp && bool_decide (rule_comm rule = UB_D2D)
      then TryMatchUbCtpD2DOnlyByGroup local remote [] priority
      else TryMatchSingle local remote p pl (rule_comm rule) []
  | SINGLE, _, _ => (FAILED, [])
  end.

(** The first rule that matches; otherwise the pairs of the last one that was
    tried. *)
Fixpoint try_rules (local remote : list EndpointConfig) (priority : LinkType) (rules : list MatchRule)
    (pairs : list EndpointPair) (handler : HandlerType) : Status * list EndpointPair * HandlerType :=
  match rules with
  | [] => (PARAM_INVALID, pairs, handler)
  | rule :: rules' =>
      let '(status, pairs') := try_match_rule local remote priority rule in
      if status =? SUCCESS then (SUCCESS, pairs', rule_handler rule)
      else try_rules local remote priority rules' pairs' handler
  end.

Definition TryMatchByPriority (local remote : list EndpointConfig) (cross_instance : bool) (priority : LinkType)
    (pairs : list EndpointPair) (handler : HandlerType) : Status * list EndpointPair * HandlerType :=
  let rules := if cross_instance then kCrossInstanceRules else kSameInstanceRules in
  if negb cross_instance && AreUbCtpEndpointsAllDevice local && AreUbCtpEndpointsAllDevice remote
  then try_rules local remote priority (kSameInstanceUbCtpDeviceOnlyRule :: rules) pairs handler
  else try_rules local remote priority rules pairs handler.

(** [link_priority]: the configured priorities, [None] when unset. *)
Definition MatchEndpoints (local remote : list EndpointConfig) (link_priority : option (list LinkType))
    (pairs : list EndpointPair) (handler : HandlerType) : Status * list EndpointPair * HandlerType :=
  let priority := match link_priority with Some (p :: _) => p | _ => PEER2NET end in
  match IsCrossInstance local remote with
  | None => (PARAM_INVALID, pairs, handler)
  | Some cross_instance => TryMatchByPriority local remote cross_instance priority pairs handler
  end.

(** * The peer map *)
Definition peers_ok (remote : list EndpointConfig) (m : PeerMap) : Prop :=
  std_map_wf m /\
  forall k v, (k, v) ∈ m -> k = key_of v /\ v ∈ remote /\ IsUbProtocol (protocol v) = true.

Lemma BuildMatchMap_ok remote : peers_ok remote (BuildMatchMap remote).
Proof.
  unfold BuildMatchMap.
  assert (H : forall l m, (forall e, e ∈ l -> e ∈ remote) -> peers_ok remote m ->
    peers_ok remote (fold_left (fun out ep => if IsUbProtocol (protocol ep) then std_set (key_of ep) ep out else out) l m)).
  { induction l as [|e l IH]; intros m Hl Hm; simpl; [done|]. apply IH; [intros; apply Hl; by right|].
    destruct (IsUbProtocol (protocol e)) eqn:Hu; [|done]. destruct Hm as [Hwf Hm]. split; [by apply std_set_wf|].
    intros k v Hin. apply std_set_elem in Hin as [[-> ->]|[_ Hin]]; [|by apply Hm|done].
    split; [done|]. split; [apply Hl; by left|done]. }
  apply H; [done|]. split; [constructor|]. intros k v Hin. by apply not_elem_of_nil in Hin.
Qed.

Lemma FindMatchingKey_ok remote m q v :
  peers_ok remote m -> FindMatchingKey m q = Some v ->
  v ∈ remote /\ IsUbProtocol (protocol v) = true /\ plane v = mk_plane q /\ placement v = mk_placement q /\
  (dst_eid v = "" \/ mk_dst_eid q = "" \/ dst_eid v = mk_dst_eid q)%string.
Proof.
  intros [_ Hm]. unfold FindMatchingKey. destruct (List.find _ m) as [[k v']|] eqn:E; [|done].
  intros [= <-]. apply find_some in E as [Hin%list_elem_of_In Hmatch]. apply Hm in Hin as (-> & Hr & Hu).
  simpl in *. unfold MatchKey_Matches, is_empty in Hmatch. simpl in Hmatch.
  destruct (String.eqb_spec (dst_eid v') ""), (String.eqb_spec (mk_dst_eid q) ""),
    (String.eqb_spec (dst_eid v') (mk_dst_eid q)), (String.eqb_spec (plane v') (mk_plane q)),
    (String.eqb_spec (placement v') (mk_placement q)); simpl in Hmatch; try done; split_and!; auto.
Qed.

(** * Group matching *)

(** A pair of UB endpoints that fit each other. *)
Definition ub_pair_ok (local remote : list EndpointConfig) (p : EndpointPair) : Prop :=
  ep_remote p ∈ remote /\ IsUbProtocol (protocol (ep_local p)) = true /\
  IsUbProtocol (protocol (ep_remote p)) = true /\ plane (ep_local p) = plane (ep_remote p) /\
  ep_type p = ParseCommType (placement (ep_local p)) (placement (ep_remote p)) /\
  ((ep_local p ∈ local /\
    (dst_eid (ep_remote p) = "" \/ comm_id (ep_local p) = "" \/ dst_eid (ep_remote p) = comm_id (ep_local p))%string) \/
   (ep_type p = UB_H2H /\ exists l, l ∈ local /\ ep_local p = with_comm_id (comm_id (ep_remote p)) l /\
      server_id l = server_id (ep_remote p) /\ server_id l <> ""%string)).

Definition ub_types : list CommType := [UB_D2D; UB_H2D; UB_D2H; UB_H2H].

Lemma ParseCommType_ub l r : ParseCommType l r ∈ ub_types.
Proof. unfold ParseCommType, ub_types. set_unfold. split_ifs; auto. Qed.

Record group_ok (local remote : list EndpointConfig) (g : GroupState) : Prop := {
  gk_pairs : Forall (ub_pair_ok local remote) (g_pairs g);
  gk_nodup : NoDup (map ep_type (g_pairs g));
  gk_expected : forall p, p ∈ g_pairs g -> ep_type p ∈ g_expected g;
  gk_count : g_count g = Z.of_nat (length (g_pairs g))
}.

Lemma ub_pairs_at_most_4 local remote ps :
  Forall (ub_pair_ok local remote) ps -> NoDup (map ep_type ps) -> (length ps <= 4)%nat.
Proof.
  intros Hp Hnd. rewrite <- (length_map ep_type). change 4%nat with (length ub_types).
  apply submseteq_length, NoDup_submseteq; [done|]. intros t Ht. apply list_elem_of_fmap in Ht as (p & -> & Hin).
  rewrite Forall_forall in Hp. destruct (Hp p Hin) as (_ & _ & _ & _ & -> & _). apply ParseCommType_ub.
Qed.

Lemma add_pair_ok local remote p g :
  group_ok local remote g -> ub_pair_ok local remote p -> expected (ep_type p) g = false ->
  group_ok local remote (add_pair p g).
Proof.
  intros [Hp Hnd He Hc] Hok Hx. apply bool_decide_eq_false in Hx.
  assert (Hnd' : NoDup (map ep_type (g_pairs g ++ [p]))).
  { rewrite map_app. apply NoDup_app. split; [done|]. split; [|by apply NoDup_singleton].
    intros t Ht Hin. apply list_elem_of_singleton in Hin as ->.
    apply list_elem_of_fmap in Ht as (p' & Heq & Hp'). apply Hx. rewrite Heq. by apply He. }
  split; simpl; [apply Forall_app; split; [done|by constructor]|done|..].
  - intros p' Hp'. apply elem_of_app in Hp' as [Hp'|Hp']; [right; by apply He|].
    apply list_elem_of_singleton in Hp' as ->. by left.
  - pose proof (ub_pairs_at_most_4 local remote (g_pairs g) Hp Hnd) as H4. rewrite Hc, length_app. simpl.
    rewrite u32_small; [lia|ulia].
Qed.

Lemma TryMatchUb_ok local remote l peers g :
  peers_ok remote peers -> l ∈ local -> group_ok local remote g -> group_ok local remote (TryMatchUb l peers g).
Proof.
  intros Hpeers Hl Hg. unfold TryMatchUb. destruct (IsUbProtocol (protocol l)) eqn:Hu; [|done]. simpl.
  assert (H1 : forall pl g, group_ok local remote g -> group_ok local remote (try_match_placement l peers g pl)).
  { intros pl g0 Hg0. unfold try_match_placement. destruct (FindMatchingKey _ _) as [peer|] eqn:E; [|done].
    destruct (expected _ g0) eqn:Hx; [done|]. apply add_pair_ok; [done| |done].
    apply (FindMatchingKey_ok remote) in E as (Hr & Hur & Hp & _ & Hd); [|done]. simpl in *.
    unfold ub_pair_ok. simpl. split_and!; try done. left. by split. }
  apply H1, H1, Hg.
Qed.

Lemma TryMatchH2rHLoopback_ok local remote l g :
  l ∈ local -> group_ok local remote g -> group_ok local remote (TryMatchH2rHLoopback l remote g).
Proof.
  intros Hl Hg. unfold TryMatchH2rHLoopback, is_empty.
  destruct (IsUbProtocol (protocol l)) eqn:Hu; simpl; [|done].
  destruct (String.eqb_spec (placement l) kPlacementHost) as [Hpl|]; simpl; [|done].
  destruct (String.eqb_spec (server_id l) "") as [|Hs]; simpl; [done|]. destruct (expected UB_H2H g) eqn:Hx; [done|].
  destruct (List.find _ remote) as [peer|] eqn:E; [|done]. apply find_some in E as [Hr%list_elem_of_In Hm].
  unfold is_loopback_peer in Hm. rewrite !andb_true_iff, !String.eqb_eq in Hm.
  destruct Hm as [[[[Hur _] Hplr] Hplane] Hsrv].
  apply add_pair_ok; [done| |done]. unfold ub_pair_ok. simpl. rewrite Hpl, Hplr. split_and!; try done.
  right. split; [done|]. exists l. by split_and!.
Qed.

Lemma group_loop_ok local remote peers eps g :
  peers_ok remote peers -> (forall e, e ∈ eps -> e ∈ local) -> group_ok local remote g ->
  group_ok local remote (group_loop remote peers eps g).2.
Proof.
  intros Hp. revert g. induction eps as [|e eps IH]; intros g He Hg; simpl; [done|].
  assert (Hin : e ∈ local) by (apply He; by left).
  pose proof (TryMatchH2rHLoopback_ok local remote e g Hin Hg) as H1. destruct (_ =? _); [done|].
  pose proof (TryMatchUb_ok local remote e peers _ Hp Hin H1) as H2. destruct (_ =? _); [done|].
  apply IH; [intros; apply He; by right|done].
Qed.

(** ** The preferred device-to-device pair *)
Lemma first_d2d_spec peers l :
  match first_d2d peers l with
  | None => forall e, e ∈ l -> d2d_peer peers e = None
  | Some p => exists l1 l2, l = l1 ++ ep_local p :: l2 /\ (forall e, e ∈ l1 -> d2d_peer peers e = None) /\
      d2d_peer peers (ep_local p) = Some (ep_remote p) /\ ep_type p = UB_D2D
  end.
Proof.
  induction l as [|e l IH]; simpl; [intros e He; by apply not_elem_of_nil in He|].
  destruct (d2d_peer peers e) as [peer|] eqn:E.
  - exists [], l. split_and!; try done. intros e' He. by apply not_elem_of_nil in He.
  - destruct (first_d2d peers l) as [p|].
    + destruct IH as (l1 & l2 & -> & H1 & H2). exists (e :: l1), l2. split; [done|]. split; [|done].
      intros e' He. apply elem_of_cons in He as [->|He]; auto.
    + intros e' He. apply elem_of_cons in He as [->|He]; auto.
Qed.

Lemma d2d_less_asym priority a b : d2d_less priority a b = true -> d2d_less priority b a = false.
Proof.
  unfold d2d_less. rewrite (Z.eqb_sym (LinkRank b _)). destruct (Z.eqb_spec (LinkRank a priority) (LinkRank b priority)); simpl.
  - intros H. destruct (String.ltb (plane b) (plane a)) eqn:E; [|done].
    pose proof (string_ltb_trans _ _ _ H E) as Hc. by rewrite string_ltb_irrefl in Hc.
  - intros H%Z.ltb_lt. apply Z.ltb_ge. lia.
Qed.

Lemma d2d_not_less_trans priority a b c :
  d2d_less priority b a = false -> d2d_less priority c b = false -> d2d_less priority c a = false.
Proof.
  unfold d2d_less. set (ra := LinkRank a priority). set (rb := LinkRank b priority). set (rc := LinkRank c priority).
  destruct (Z.eqb_spec rb ra), (Z.eqb_spec rc rb), (Z.eqb_spec rc ra); simpl; rewrite ?Z.ltb_ge; try lia.
  rewrite !string_ltb_leb, !negb_false_iff. intros H1 H2. by eapply string_leb_trans.
Qed.

Lemma d2d_candidates_spec local e :
  e ∈ d2d_candidates local <-> e ∈ local /\ IsUbCtpEndpoint e = true /\ placement e = kPlacementDevice.
Proof.
  unfold d2d_candidates. rewrite !list_elem_of_In, filter_In, andb_true_iff, String.eqb_eq. tauto.
Qed.

Lemma MatchD2D_ok local remote peers priority :
  peers_ok remote peers ->
  exists ps, MatchD2D local peers priority [] = ps /\ (length ps <= 1)%nat /\
    Forall (fun p => ub_pair_ok local remote p /\ ep_type p = UB_D2D) ps.
Proof.
  intros Hp. eexists. split; [done|]. unfold MatchD2D.
  pose proof (first_d2d_spec peers (stable_sort (d2d_less priority) (d2d_candidates local))) as H.
  destruct (first_d2d _ _) as [p|]; simpl; [|by split; [lia|]]. split; [lia|]. apply Forall_singleton. split.
  - destruct H as (l1 & l2 & Heq & _ & Hpeer & Ht).
    assert (Hin : ep_local p ∈ d2d_candidates local).
    { rewrite <- (stable_sort_perm (d2d_less priority)), Heq. apply elem_of_app. right. by left. }
    apply d2d_candidates_spec in Hin as (Hl & Hu & Hpl). unfold d2d_peer in Hpeer.
    apply (FindMatchingKey_ok remote) in Hpeer as (Hr & Hur & Hplane & Hplr & Hd); [|done]. simpl in *.
    unfold ub_pair_ok. rewrite Hpl, Hplr. split_and!; try done. left. by split.
  - by destruct H as (? & ? & _ & _ & _ & ->).
Qed.

Lemma TryMatchGroup_ok local remote priority st ps :
  TryMatchGroup local remote [] priority = (st, ps) -> st = SUCCESS ->
  Forall (ub_pair_ok local remote) ps /\ NoDup (map ep_type ps) /\ (1 <= length ps <= 4)%nat.
Proof.
  unfold TryMatchGroup. intros Hrun Hst.
  pose proof (BuildMatchMap_ok remote) as Hp. destruct (MatchD2D_ok local remote _ priority Hp) as (d2d & Hd & Hlen & Hall).
  rewrite Hd in Hrun. rewrite Forall_and in Hall. destruct Hall as [Hall Hty].
  assert (Hg : group_ok local remote (mkGroup [UB_D2D] (u32 (Z.of_nat (length d2d))) d2d)).
  { split; simpl; [done|..].
    - destruct d2d as [|p [|q d2d]]; simpl in *; [constructor|apply NoDup_singleton|lia].
    - intros p Hin. rewrite Forall_forall in Hty. rewrite (Hty p Hin). by left.
    - rewrite u32_small; [done|ulia]. }
  pose proof (group_loop_ok local remote _ (stable_sort group_less local)
    (mkGroup [UB_D2D] (u32 (Z.of_nat (length d2d))) d2d) Hp) as Hloop.
  destruct (group_loop _ _ _ _) as [full g] eqn:E. simpl in Hloop.
  destruct Hloop as [H1 H2 _ H4]; [|done|].
  { intros e He. by rewrite stable_sort_perm in He. }
  injection Hrun as <- <-. split; [done|]. split; [done|].
  split; [|by eapply ub_pairs_at_most_4].
  assert (Hfull : forall eps g0 g1, group_loop remote (BuildMatchMap remote) eps g0 = (true, g1) -> g_count g1 = 4).
  { clear. induction eps as [|e eps IH]; intros g0 g1; simpl; [done|].
    destruct (Z.eqb_spec (g_count (TryMatchH2rHLoopback e remote g0)) kMaxUbCsClientNum) as [Hc|]; [by intros [= <-]|].
    destruct (Z.eqb_spec (g_count (TryMatchUb e (BuildMatchMap remote) (TryMatchH2rHLoopback e remote g0))) kMaxUbCsClientNum)
      as [Hc|]; [by intros [= <-]|]. apply IH. }
  destruct full; [apply Hfull in E; lia|]. destruct (Z.ltb_spec 0 (g_count g)); [lia|done].
Qed.

(** * Rules *)
Lemma TryMatchSingle_ok local remote p pl t st ps :
  TryMatchSingle local remote p pl t [] = (st, ps) ->
  (st = SUCCESS /\ exists l r, List.find (matches_single p pl) local = Some l /\
     List.find (matches_single p pl) remote = Some r /\ ps = [mkPair l r t]) \/
  (st = FAILED /\ ps = [] /\
   (List.find (matches_single p pl) local = None \/ List.find (matches_single p pl) remote = None)).
Proof.
  unfold TryMatchSingle. destruct (List.find _ local) as [l|], (List.find _ remote) as [r|]; intros [= <- <-]; eauto 10.
Qed.

(** The kinds of the single rules: protocol, placement and type. *)
Definition single_kinds : list (string * string * CommType) :=
  [(kProtocolUbmem, kPlacementDevice, COMM_UBMEM); (kProtocolHccs, kPlacementDevice, COMM_HCCS);
   (kProtocolUboe, kPlacementDevice, COMM_UBOE); (kProtocolUbRtp, kPlacementDevice, COMM_UBG);
   (kProtocolRoce, kPlacementDevice, COMM_ROCE); (kProtocolRoce, kPlacementHost, COMM_ROCE)].

Definition single_pair_ok (local remote : list EndpointConfig) (p : EndpointPair) : Prop :=
  ep_local p ∈ local /\ ep_remote p ∈ remote /\
  protocol (ep_remote p) = protocol (ep_local p) /\ placement (ep_remote p) = placement (ep_local p) /\
  (protocol (ep_local p), placement (ep_local p), ep_type p) ∈ single_kinds.

(** What a matching rule yields. *)
Definition rule_result (local remote : list EndpointConfig) (h : HandlerType) (ps : list EndpointPair) : Prop :=
  match h with
  | UB => Forall (ub_pair_ok local remote) ps /\ NoDup (map ep_type ps) /\ (1 <= length ps <= 4)%nat
  | DIRECT => exists p, ps = [p] /\
      (single_pair_ok local remote p \/ (ub_pair_ok local remote p /\ ep_type p = UB_D2D))
  end.

Lemma single_rule_ok local remote priority p pl t ps :
  (p, pl, t) ∈ single_kinds -> try_match_rule local remote priority (single_rule p pl t) = (SUCCESS, ps) ->
  rule_result local remote DIRECT ps /\ (forall q, q ∈ ps -> single_pair_ok local remote q).
Proof.
  intros Hk. unfold try_match_rule. simpl.
  assert (Hp : String.eqb p kProtocolUbCtp = false).
  { unfold single_kinds in Hk. rewrite !elem_of_cons in Hk. destruct_or?; simplify_eq; try done.
    by apply not_elem_of_nil in Hk. }
  rewrite Hp. simpl. intros Hrun. apply TryMatchSingle_ok in Hrun as [(_ & l & r & Hl & Hr & ->)|(? & _)]; [|done].
  apply find_some in Hl as [Hl Hlm], Hr as [Hr Hrm].
  unfold matches_single in Hlm, Hrm. rewrite andb_true_iff, !String.eqb_eq in Hlm, Hrm.
  destruct Hlm as [<- <-], Hrm as [H1 H2].
  assert (Hok : single_pair_ok local remote (mkPair l r t)).
  { unfold single_pair_ok. simpl. rewrite !list_elem_of_In. split_and!; try done. by apply list_elem_of_In. }
  split; [eexists; split; [done|by left]|]. intros q Hq. by apply list_elem_of_singleton in Hq as ->.
Qed.

Lemma UbCtpD2DOnly_ok local remote priority ps :
  try_match_rule local remote priority kSameInstanceUbCtpDeviceOnlyRule = (SUCCESS, ps) ->
  rule_result local remote DIRECT ps.
Proof.
  unfold try_match_rule, TryMatchUbCtpD2DOnlyByGroup. simpl.
  destruct (TryMatchGroup local remote [] priority) as [st gps] eqn:E.
  destruct (Z.eqb_spec st SUCCESS) as [->|]; simpl; [|done].
  apply TryMatchGroup_ok in E as (Hall & _ & _); [|done]. destruct gps as [|p [|q gps]]; try done.
  case_bool_decide as Ht; simpl; [|done]. destruct (_ && _); [|done]. intros [= <-]. exists p. split; [done|].
  right. split; [|done]. inversion Hall; subst; assumption.
Qed.

Lemma try_rules_spec local remote priority rules ps0 h0 st ps h :
  try_rules local remote priority rules ps0 h0 = (st, ps, h) ->
  (st = SUCCESS /\ exists l1 rule l2, rules = l1 ++ rule :: l2 /\ h = rule_handler rule /\
     try_match_rule local remote priority rule = (SUCCESS, ps) /\
     Forall (fun r => (try_match_rule local remote priority r).1 <> SUCCESS) l1) \/
  (st = PARAM_INVALID /\ h = h0 /\ Forall (fun r => (try_match_rule local remote priority r).1 <> SUCCESS) rules).
Proof.
  revert ps0. induction rules as [|rule rules IH]; intros ps0; simpl; [intros [= <- <- <-]; by right|].
  destruct (try_match_rule local remote priority rule) as [st1 ps1] eqn:E.
  destruct (Z.eqb_spec st1 SUCCESS) as [->|Hne].
  - intros [= <- <- <-]. left. split; [done|]. by exists [], rule, rules.
  - intros H. destruct (IH _ H) as [(-> & l1 & r & l2 & -> & -> & Hr & Hf)|(-> & -> & Hf)].
    + left. split; [done|]. exists (rule :: l1), r, l2. split; [done|]. split; [done|]. split; [done|].
      constructor; [by rewrite E|done].
    + right. split; [done|]. split; [done|]. constructor; [by rewrite E|done].
Qed.

Lemma same_rules_ok local remote priority rule ps :
  rule ∈ kSameInstanceUbCtpDeviceOnlyRule :: kSameInstanceRules ->
  try_match_rule local remote priority rule = (SUCCESS, ps) ->
  rule_result local remote (rule_handler rule) ps.
Proof.
  intros Hin Hrun. unfold kSameInstanceRules in Hin. rewrite !elem_of_cons in Hin.
  destruct Hin as [->|[->|[->|[->|[->|[->|[->|[->|Hin]]]]]]]]; [by apply UbCtpD2DOnly_ok in Hrun|..];
    try (eapply single_rule_ok in Hrun; [apply Hrun|unfold single_kinds; set_solver]).
  - unfold try_match_rule in Hrun. simpl in *. by eapply TryMatchGroup_ok.
  - by apply not_elem_of_nil in Hin.
Qed.

Lemma cross_rules_ok local remote priority rule ps :
  rule ∈ kCrossInstanceRules -> try_match_rule local remote priority rule = (SUCCESS, ps) ->
  rule_handler rule = DIRECT /\ rule_result local remote DIRECT ps /\
  Forall (fun p => single_pair_ok local remote p) ps.
Proof.
  intros Hin Hrun. unfold kCrossInstanceRules in Hin. rewrite !elem_of_cons in Hin.
  destruct Hin as [->|[->|[->|[->|Hin]]]]; [..|by apply not_elem_of_nil in Hin];
    (eapply single_rule_ok in Hrun as [H1 H2]; [|unfold single_kinds; set_solver]);
    (split; [done|]; split; [done|]; by apply Forall_forall).
Qed.

(** * Theorems *)
Definition crosses (local remote : list EndpointConfig) : Prop := IsCrossInstance local remote = Some true.

(** C23: Whatever the endpoints, MatchEndpoints either fails with PARAM_INVALID and
    leaves the handler type alone, or succeeds with a usable link: a DIRECT handler
    gets exactly one pair, a UB handler one to four pairs with different directions;
    the endpoints of a pair come from the two sides and have the same protocol; a
    pair of a single rule has one placement and the type of its rule; a UB pair is on
    one plane, fits the peer identifiers (or is the loopback of one server) and has
    the direction of its placements.  Between different instances the link is always
    a single one. *)
Theorem MatchEndpoints_sound local remote priorities pairs0 handler0 st pairs handler :
  MatchEndpoints local remote priorities pairs0 handler0 = (st, pairs, handler) ->
  (st = PARAM_INVALID /\ handler = handler0) \/
  (st = SUCCESS /\ rule_result local remote handler pairs /\
   (crosses local remote -> handler = DIRECT /\ Forall (single_pair_ok local remote) pairs)).
Proof.
  unfold MatchEndpoints, crosses. destruct (IsCrossInstance local remote) as [cross|]; [|intros [= <- _ <-]; by left].
  set (priority := match priorities with Some (p :: _) => p | _ => PEER2NET end).
  unfold TryMatchByPriority. intros Hrun.
  assert (Hcase : exists rules, try_rules local remote priority rules pairs0 handler0 = (st, pairs, handler) /\
    if cross then rules = kCrossInstanceRules
    else forall r, r ∈ rules -> r ∈ kSameInstanceUbCtpDeviceOnlyRule :: kSameInstanceRules).
  { destruct cross; cbn [negb andb] in Hrun; [eexists; split; [exact Hrun|done]|]. destruct (_ && _) in Hrun; eexists; (split; [exact Hrun|]);
      [done|]. intros r Hr. by right. }
  destruct Hcase as (rules & Hr & Hrules).
  apply try_rules_spec in Hr as [(-> & l1 & rule & l2 & -> & -> & Hok & _)|(-> & -> & _)]; [right|by left].
  split; [done|]. assert (Hin : rule ∈ l1 ++ rule :: l2) by (apply elem_of_app; right; by left).
  destruct cross.
  - rewrite Hrules in Hin. destruct (cross_rules_ok _ _ _ _ _ Hin Hok) as (-> & H1 & H2). by split.
  - split; [|done]. eapply same_rules_ok; [by apply Hrules|exact Hok].
Qed.

(** The kinds tried between different instances, in order. *)
Definition cross_kinds : list (string * string * CommType) :=
  [(kProtocolUboe, kPlacementDevice, COMM_UBOE); (kProtocolUbRtp, kPlacementDevice, COMM_UBG);
   (kProtocolRoce, kPlacementDevice, COMM_ROCE); (kProtocolRoce, kPlacementHost, COMM_ROCE)].

(** Both sides have an endpoint of a kind. *)
Definition available (local remote : list EndpointConfig) (k : string * string * CommType) : bool :=
  existsb (matches_single k.1.1 k.1.2) local && existsb (matches_single k.1.1 k.1.2) remote.

Lemma find_existsb {A} (f : A -> bool) l : existsb f l = true <-> exists x, List.find f l = Some x.
Proof.
  induction l as [|x l IH]; simpl; [split; [done|by intros [? ?]]|].
  destruct (f x); simpl; [split; eauto|exact IH].
Qed.

(** The single rules pick the first available kind and, of it, the first endpoint of
    each side. *)
Lemma try_single_rules local remote priority kinds pairs handler :
  (forall k, k ∈ kinds -> k ∈ single_kinds) ->
  match List.find (available local remote) kinds with
  | Some (p, pl, t) => exists l r, List.find (matches_single p pl) local = Some l /\
      List.find (matches_single p pl) remote = Some r /\
      try_rules local remote priority (map (fun k => single_rule k.1.1 k.1.2 k.2) kinds) pairs handler
      = (SUCCESS, [mkPair l r t], DIRECT)
  | None => (try_rules local remote priority (map (fun k => single_rule k.1.1 k.1.2 k.2) kinds) pairs handler).1.1
            = PARAM_INVALID
  end.
Proof.
  intros Hk. revert pairs. induction kinds as [|[[p pl] t] kinds IH]; intros pairs; simpl; [done|].
  assert (Hp : String.eqb p kProtocolUbCtp = false).
  { specialize (Hk (p, pl, t) ltac:(by left)). unfold single_kinds in Hk. rewrite !elem_of_cons in Hk.
    destruct_or?; simplify_eq; try done. by apply not_elem_of_nil in Hk. }
  unfold try_match_rule. simpl. rewrite Hp. simpl. unfold available at 1. simpl.
  destruct (TryMatchSingle local remote p pl t []) as [st ps] eqn:E.
  apply TryMatchSingle_ok in E as [(-> & l & r & Hl & Hr & ->)|(-> & -> & Hn)].
  - rewrite (proj2 (find_existsb _ local)), (proj2 (find_existsb _ remote)) by eauto. simpl. eauto.
  - assert (Ha : existsb (matches_single p pl) local && existsb (matches_single p pl) remote = false).
    { apply not_true_iff_false. rewrite andb_true_iff, !find_existsb. intros [[? ?] [? ?]]. destruct Hn; congruence. }
    rewrite Ha. change (FAILED =? SUCCESS) with false. cbv iota. apply IH. intros k Hin. apply Hk. by right.
Qed.

(** C38: Between two instances the link is chosen by a fixed preference: device UBOE,
    device UB-RTP, device RoCE, host RoCE; the first kind that both sides have is
    taken, with the first endpoint of that kind on each side, and the match fails
    exactly when no kind is available on both sides. *)
Theorem MatchEndpoints_cross_instance local remote priorities pairs0 handler0 :
  crosses local remote ->
  let result := MatchEndpoints local remote priorities pairs0 handler0 in
  match List.find (available local remote) cross_kinds with
  | Some (p, pl, t) => exists l r, List.find (matches_single p pl) local = Some l /\
      List.find (matches_single p pl) remote = Some r /\ result = (SUCCESS, [mkPair l r t], DIRECT)
  | None => result.1.1 = PARAM_INVALID
  end.
Proof.
  intros Hc result. subst result. unfold MatchEndpoints. unfold crosses in Hc. rewrite Hc.
  unfold TryMatchByPriority. simpl negb. cbv iota. simpl andb. cbv iota.
  apply (try_single_rules local remote _ cross_kinds pairs0 handler0).
  intros k Hk. unfold cross_kinds, single_kinds in *. set_solver.
Qed.

(** The device-to-device pair of a UB group obeys the link priority: no other
    local device endpoint that has a peer ranks better (preferred link type first,
    then the smaller plane), and among equals the first one in the configuration is
    taken; there is no such pair exactly when no local device endpoint has a peer. *)
Theorem MatchD2D_best local peers priority :
  let usable e := match d2d_peer peers e with Some _ => true | None => false end in
  (MatchD2D local peers priority [] = [] /\ forall e, e ∈ d2d_candidates local -> usable e = false) \/
  (exists l r, MatchD2D local peers priority [] = [mkPair l r UB_D2D] /\ d2d_peer peers l = Some r /\
     l ∈ d2d_candidates local /\
     (forall e, e ∈ d2d_candidates local -> usable e = true -> d2d_less priority e l = false) /\
     head (List.filter (fun e => usable e && (LinkRank e priority =? LinkRank l priority)
                                 && String.eqb (plane e) (plane l)) (d2d_candidates local)) = Some l).
Proof.
  intros usable. unfold MatchD2D. set (less := d2d_less priority).
  pose proof (stable_sort_sorted less (d2d_less_asym priority) (d2d_not_less_trans priority) (d2d_candidates local)) as Hs.
  pose proof (first_d2d_spec peers (stable_sort less (d2d_candidates local))) as Hf.
  destruct (first_d2d peers (stable_sort less (d2d_candidates local))) as [[l r t]|].
  - right. destruct Hf as (l1 & l2 & Heq & Hno & Hpeer & Ht). simpl in *. subst t. exists l, r.
    split; [done|]. split; [done|].
    assert (Hin : l ∈ d2d_candidates local).
    { rewrite <- (stable_sort_perm less), Heq. apply elem_of_app. right. by left. }
    split; [done|]. split.
    + intros e He Hu. rewrite <- (stable_sort_perm less), Heq in He. rewrite Heq in Hs.
      apply StronglySorted_app_inv in Hs as (_ & Hs & _). inversion Hs as [|? ? _ Hall]; subst.
      apply elem_of_app in He as [He|He].
      { unfold usable in Hu. by rewrite (Hno e He) in Hu. }
      apply elem_of_cons in He as [->|He].
      * destruct (less l l) eqn:E; [|done]. unfold less in E. pose proof (d2d_less_asym _ _ _ E). congruence.
      * rewrite Forall_forall in Hall. by apply Hall.
    + set (P := fun e => usable e && (LinkRank e priority =? LinkRank l priority) && String.eqb (plane e) (plane l)).
      rewrite <- (stable_sort_filter less P).
      * rewrite Heq, List.filter_app.
        assert (Hnil : List.filter P l1 = []).
        { clear -Hno. induction l1 as [|e l1 IH]; [done|]. simpl. unfold P at 1, usable.
          rewrite (Hno e) by (by left). simpl. apply IH. intros e' He'. apply Hno. by right. }
        rewrite Hnil. simpl. unfold P, usable. by rewrite Hpeer, Z.eqb_refl, String.eqb_refl.
      * intros a b Ha Hb. unfold P in Ha, Hb. rewrite !andb_true_iff, !Z.eqb_eq, !String.eqb_eq in Ha, Hb.
        destruct Ha as [[_ Ha1] Ha2], Hb as [[_ Hb1] Hb2]. unfold less, d2d_less.
        rewrite Ha1, Hb1, Ha2, Hb2, Z.eqb_refl. simpl. apply string_ltb_irrefl.
  - left. split; [done|]. intros e He. unfold usable. rewrite Hf; [done|]. by rewrite stable_sort_perm.
Qed.

(** * Witnesses *)
Definition ref_ep (p c pl pln eid net srv : string) : EndpointConfig := mkEndpoint p c pl pln eid net srv 0.
Definition ref_local : list EndpointConfig :=
  [ref_ep "ub_ctp" "a" "device" "1" "" "n1" "s1"; ref_ep "ub_ctp" "b" "host" "1" "" "n1" "s1";
   ref_ep "roce" "c" "host" "" "" "n1" "s1"].
Definition ref_remote : list EndpointConfig :=
  [ref_ep "ub_ctp" "x" "host" "1" "" "n1" "s1"; ref_ep "ub_ctp" "y" "device" "1" "" "n1" "s2";
   ref_ep "roce" "z" "host" "" "" "n1" "s2"].
Definition ref_far : list EndpointConfig :=
  [ref_ep "uboe" "u" "host" "" "" "n2" "s9"; ref_ep "roce" "v" "host" "" "" "n2" "s9"].

(** All four directions of a UB group are found. *)
Example ref_match : exists pairs, MatchEndpoints ref_local ref_remote None [] DIRECT = (SUCCESS, pairs, UB) /\
  map ep_type pairs = [UB_D2D; UB_D2H; UB_H2H; UB_H2D].
Proof. eexists. split; vm_compute; reflexivity. Qed.

Lemma MatchEndpoints_sound_witness :
  let result := MatchEndpoints ref_local ref_remote None [] DIRECT in
  (result.1.1 = PARAM_INVALID /\ result.2 = DIRECT) \/
  (result.1.1 = SUCCESS /\ rule_result ref_local ref_remote result.2 result.1.2 /\
   (crosses ref_local ref_remote -> result.2 = DIRECT /\ Forall (single_pair_ok ref_local ref_remote) result.1.2)).
Proof.
  intros result. apply (MatchEndpoints_sound ref_local ref_remote None [] DIRECT).
  subst result. vm_compute. reflexivity.
Defined.

Lemma MatchEndpoints_cross_instance_witness :
  crosses ref_local ref_far /\
  exists l r, MatchEndpoints ref_local ref_far None [] DIRECT = (SUCCESS, [mkPair l r COMM_ROCE], DIRECT).
Proof.
  split; [reflexivity|].
  destruct (MatchEndpoints_cross_instance ref_local ref_far None [] DIRECT) as (l & r & _ & _ & H).
  - reflexivity.
  - exists l, r. exact H.
Defined.
