(* ===== verification/Link.v ===== *)
(** llm_datadist/memory/util/link.h and link_node.h: the intrusive, circular,
    doubly linked list with a sentinel.  The chains of all nodes and heads live in
    one store, so that aliasing is part of the model; an access to an address that
    holds no chain has no meaning ([None]).  The theorem is that any number of
    lists refine mathematical lists under any sequence of operations, as long as an
    element is pushed when it is on no list and removed from the list it is on. *)
From S2P Require Import Prelude.

(** * The code *)

(** [LinkNode<T>::Chain]. *)
Record Chain := { next_ : Z; prev_ : Z }.

(** The chains in memory: [elem.link_] of every node and [head_] of every list.
    The sentinel of a list is the address at which [head_] is the [link_]. *)
Abbreviation Chains := (gmap Z Chain).

(** [Link<T>]: [head_] is the chain at [sentinel] *)
Record Link := { sentinel : Z; num_ : Z }.

Definition LinkNode_new (x : Z) (h : Chains) : Chains :=
  <[x := {| next_ := nullptr; prev_ := nullptr |}]> h.

Definition get_next (p : Z) (h : Chains) : option Z := next_ <$> h !! p.
Definition get_prev (p : Z) (h : Chains) : option Z := prev_ <$> h !! p.
Definition set_next (p v : Z) (h : Chains) : option Chains :=
  c ← h !! p; Some (<[p := {| next_ := v; prev_ := prev_ c |}]> h).
Definition set_prev (p v : Z) (h : Chains) : option Chains :=
  c ← h !! p; Some (<[p := {| next_ := next_ c; prev_ := v |}]> h).

(** [LinkNode::remove]: the node keeps its own pointers. *)
Definition LinkNode_remove (x : Z) (h : Chains) : option Chains :=
  p ← get_prev x h; n ← get_next x h;
  h1 ← set_next p n h;
  n' ← get_next x h1; p' ← get_prev x h1;
  set_prev n' p' h1.

Definition Link_new (s : Z) (h : Chains) : Chains * Link :=
  (<[s := {| next_ := s; prev_ := s |}]> h, {| sentinel := s; num_ := 0 |}).

(** [Link::Iterator]: the element and its successor, read when the iterator is
    built or advanced. *)
Definition Iterator : Type := Z * Z.

Definition Iterator_new (e : Z) (h : Chains) : option Iterator :=
  if is_null e then Some (e, nullptr) else n ← get_next e h; Some (e, n).

Definition Iterator_incr (i : Iterator) (h : Chains) : option Iterator :=
  Iterator_new i.2 h.

Definition Link_begin (L : Link) (h : Chains) : option Iterator :=
  e ← get_next (sentinel L) h; Iterator_new e h.
Definition Link_end (L : Link) (h : Chains) : option Iterator :=
  Iterator_new (sentinel L) h.

Definition Link_empty (L : Link) (h : Chains) : option bool :=
  e ← get_next (sentinel L) h; Some (e =? sentinel L).

Definition Link_size (L : Link) : Z := num_ L.

Definition Link_front (L : Link) (h : Chains) : option Z :=
  b ← Link_empty L h; if b : bool then Some nullptr else get_next (sentinel L) h.
Definition Link_back (L : Link) (h : Chains) : option Z :=
  b ← Link_empty L h; if b : bool then Some nullptr else get_prev (sentinel L) h.

Definition Link_push_back (x : Z) (L : Link) (h : Chains) : option (Chains * Link) :=
  h1 ← set_next x (sentinel L) h;
  p ← get_prev (sentinel L) h1;
  h2 ← set_prev x p h1;
  q ← get_prev (sentinel L) h2;
  h3 ← set_next q x h2;
  h4 ← set_prev (sentinel L) x h3;
  Some (h4, {| sentinel := sentinel L; num_ := u64 (num_ L + 1) |}).

Definition Link_push_front (x : Z) (L : Link) (h : Chains) : option (Chains * Link) :=
  h1 ← set_prev x (sentinel L) h;
  n ← get_next (sentinel L) h1;
  h2 ← set_next x n h1;
  q ← get_next (sentinel L) h2;
  h3 ← set_prev q x h2;
  h4 ← set_next (sentinel L) x h3;
  Some (h4, {| sentinel := sentinel L; num_ := u64 (num_ L + 1) |}).

Definition Link_remove (x : Z) (L : Link) (h : Chains) : option (Chains * Link) :=
  h1 ← LinkNode_remove x h;
  Some (h1, {| sentinel := sentinel L; num_ := u64 (num_ L - 1) |}).

Definition Link_erase (i : Iterator) (L : Link) (h : Chains) : option (Chains * Link) :=
  if is_null i.1 then Some (h, L) else Link_remove i.1 L h.

(** The result is the element, or [nullptr]. *)
Definition Link_pop_front (L : Link) (h : Chains) : option (Z * Chains * Link) :=
  i ← Link_begin L h; e ← Link_end L h;
  if i.1 =? e.1 then Some (nullptr, h, L)
  else r ← Link_erase i L h; Some (i.1, r.1, r.2).

Definition Link_reset (L : Link) (h : Chains) : option (Chains * Link) :=
  h1 ← set_next (sentinel L) (sentinel L) h;
  h2 ← set_prev (sentinel L) (sentinel L) h1;
  Some (h2, {| sentinel := sentinel L; num_ := 0 |}).

(** The two lists after the call. *)
Definition Link_concat (L O : Link) (h : Chains) : option (Chains * Link * Link) :=
  b ← Link_empty O h;
  if b : bool then Some (h, L, O) else
  ol ← get_prev (sentinel O) h; h1 ← set_next ol (sentinel L) h;
  o1 ← get_next (sentinel O) h1; h2 ← set_prev o1 (sentinel L) h1;
  l ← get_prev (sentinel L) h2; o1 ← get_next (sentinel O) h2;
  h3 ← set_next l o1 h2;
  ol ← get_prev (sentinel O) h3; h4 ← set_prev (sentinel L) ol h3;
  r ← Link_reset O h4;
  Some (r.1, {| sentinel := sentinel L; num_ := u64 (num_ L + num_ O) |}, r.2).

(** The move constructor and assignment between two lists. *)
Definition Link_move (L O : Link) (h : Chains) : option (Chains * Link * Link) :=
  r ← Link_reset L h; Link_concat r.2 O r.1.

(** [while (pop_front() != nullptr)]. *)
Fixpoint Link_clear (fuel : nat) (L : Link) (h : Chains) : option (Chains * Link) :=
  match fuel with
  | O => None
  | S fuel =>
      r ← Link_pop_front L h;
      let '(x, h', L') := r in
      if is_null x then Some (h', L') else Link_clear fuel L' h'
  end.

(** The range loop [for (auto &x : link)]: the elements visited. *)
Fixpoint iterate (fuel : nat) (i e : Iterator) (h : Chains) : option (list Z) :=
  match fuel with
  | O => None
  | S fuel =>
      if i.1 =? e.1 then Some []
      else i' ← Iterator_incr i h; l ← iterate fuel i' e h; Some (i.1 :: l)
  end.

Definition Link_elements (fuel : nat) (L : Link) (h : Chains) : option (list Z) :=
  i ← Link_begin L h; e ← Link_end L h; iterate fuel i e h.

(** * Segments of the chain *)

(** From [a], through [xs], to [b]. *)
Fixpoint seg (h : Chains) (a : Z) (xs : list Z) (b : Z) : Prop :=
  match xs with
  | [] => get_next a h = Some b /\ get_prev b h = Some a
  | x :: xs' => get_next a h = Some x /\ get_prev x h = Some a /\ seg h x xs' b
  end.

(** The list [s] holds [xs]. *)
Definition link_rep (h : Chains) (s : Z) (xs : list Z) : Prop :=
  seg h s xs s /\ NoDup (s :: xs).

Section Segments.
Implicit Types (h : Chains) (a b x y s : Z) (xs ys : list Z).

Lemma seg_app h a xs y ys b :
  seg h a (xs ++ y :: ys) b <-> seg h a xs y /\ seg h y ys b.
Proof. revert a. induction xs as [|x xs IH]; intros a; simpl; [tauto|]. rewrite IH. tauto. Qed.

(** A segment only depends on the forward pointers of [a :: xs] and the backward
    pointers of [xs ++ [b]]. *)
Lemma seg_ext h h' a xs b :
  (forall x, x ∈ a :: xs -> get_next x h' = get_next x h) ->
  (forall x, x ∈ xs ++ [b] -> get_prev x h' = get_prev x h) ->
  seg h a xs b -> seg h' a xs b.
Proof.
  revert a. induction xs as [|x xs IH]; intros a Hn Hp; simpl.
  - intros [H1 H2]. rewrite Hn, Hp by (simpl; set_solver). done.
  - intros (H1 & H2 & H3). rewrite Hn, Hp by (simpl; set_solver). split_and!; [done..|].
    apply IH; [set_solver..|done].
Qed.

Lemma link_rep_ext h h' s xs :
  (forall x, x ∈ s :: xs -> h' !! x = h !! x) -> link_rep h s xs -> link_rep h' s xs.
Proof.
  intros H [Hs Hn]. split; [|done].
  eapply seg_ext; [| |exact Hs]; intros x Hx; unfold get_next, get_prev; f_equal; apply H; set_solver.
Qed.

Lemma get_next_is_Some x h : is_Some (h !! x) -> is_Some (get_next x h).
Proof. intros [c Hc]. unfold get_next. rewrite Hc. by eexists. Qed.


(** The store after an assignment to one pointer of a node that exists. *)
Definition upd_next p v h : Chains := alter (fun c => {| next_ := v; prev_ := prev_ c |}) p h.
Definition upd_prev p v h : Chains := alter (fun c => {| next_ := next_ c; prev_ := v |}) p h.

Lemma set_next_upd p v h : is_Some (h !! p) -> set_next p v h = Some (upd_next p v h).
Proof.
  intros [c Hc]. unfold set_next, upd_next. rewrite Hc. simpl.
  apply (f_equal Some), map_eq. intros x. destruct (decide (x = p)) as [->|].
  - by rewrite lookup_insert_eq, lookup_alter_eq, Hc.
  - by rewrite lookup_insert_ne, lookup_alter_ne by done.
Qed.
Lemma set_prev_upd p v h : is_Some (h !! p) -> set_prev p v h = Some (upd_prev p v h).
Proof.
  intros [c Hc]. unfold set_prev, upd_prev. rewrite Hc. simpl.
  apply (f_equal Some), map_eq. intros x. destruct (decide (x = p)) as [->|].
  - by rewrite lookup_insert_eq, lookup_alter_eq, Hc.
  - by rewrite lookup_insert_ne, lookup_alter_ne by done.
Qed.

Lemma upd_next_dom p v h x : is_Some (upd_next p v h !! x) <-> is_Some (h !! x).
Proof. apply lookup_alter_is_Some. Qed.
Lemma upd_prev_dom p v h x : is_Some (upd_prev p v h !! x) <-> is_Some (h !! x).
Proof. apply lookup_alter_is_Some. Qed.
Lemma upd_next_ne p v h x : x <> p -> upd_next p v h !! x = h !! x.
Proof. intros. by apply lookup_alter_ne. Qed.
Lemma upd_prev_ne p v h x : x <> p -> upd_prev p v h !! x = h !! x.
Proof. intros. by apply lookup_alter_ne. Qed.

Lemma next_upd_next p v h : is_Some (h !! p) -> get_next p (upd_next p v h) = Some v.
Proof. intros [c Hc]. unfold get_next, upd_next. by rewrite lookup_alter_eq, Hc. Qed.
Lemma prev_upd_prev p v h : is_Some (h !! p) -> get_prev p (upd_prev p v h) = Some v.
Proof. intros [c Hc]. unfold get_prev, upd_prev. by rewrite lookup_alter_eq, Hc. Qed.
Lemma next_upd_next_ne p v h x : x <> p -> get_next x (upd_next p v h) = get_next x h.
Proof. intros. unfold get_next. by rewrite upd_next_ne. Qed.
Lemma prev_upd_prev_ne p v h x : x <> p -> get_prev x (upd_prev p v h) = get_prev x h.
Proof. intros. unfold get_prev. by rewrite upd_prev_ne. Qed.
Lemma prev_upd_next p v h x : get_prev x (upd_next p v h) = get_prev x h.
Proof.
  unfold get_prev, upd_next. destruct (decide (x = p)) as [->|]; [|by rewrite lookup_alter_ne].
  rewrite lookup_alter_eq. by destruct (h !! p).
Qed.
Lemma next_upd_prev p v h x : get_next x (upd_prev p v h) = get_next x h.
Proof.
  unfold get_next, upd_prev. destruct (decide (x = p)) as [->|]; [|by rewrite lookup_alter_ne].
  rewrite lookup_alter_eq. by destruct (h !! p).
Qed.

(** A segment can be given a new first pointer. *)
Lemma seg_head h h' a a' xs b :
  NoDup (xs ++ [b]) ->
  get_next a' h' = Some (hd b xs) -> get_prev (hd b xs) h' = Some a' ->
  (forall y, y ∈ xs -> get_next y h' = get_next y h) ->
  (forall y, y ∈ xs ++ [b] -> y <> hd b xs -> get_prev y h' = get_prev y h) ->
  seg h a xs b -> seg h' a' xs b.
Proof.
  destruct xs as [|x xs]; simpl; intros Hd Hn Hp En Ep; [done|]. intros (_ & _ & H).
  split_and!; [done..|]. apply NoDup_cons in Hd as [Hx _].
  eapply seg_ext; [done | | done]. intros y Hy. apply Ep; [by right|]. by intros ->.
Qed.

(** And a new last pointer. *)
Lemma seg_last h h' a xs b b' :
  NoDup (a :: xs) ->
  get_next (List.last xs a) h' = Some b' -> get_prev b' h' = Some (List.last xs a) ->
  (forall y, y ∈ xs -> get_prev y h' = get_prev y h) ->
  (forall y, y ∈ a :: xs -> y <> List.last xs a -> get_next y h' = get_next y h) ->
  seg h a xs b -> seg h' a xs b'.
Proof.
  destruct (decide (xs = [])) as [->|Hne]; [done|].
  destruct (exists_last Hne) as (zs & z & ->). rewrite List.last_last.
  intros Hd Hn Hp Ep En. rewrite !seg_app. intros [H1 _]. split; [|done].
  rewrite app_comm_cons in Hd. apply NoDup_app in Hd as (_ & Hz & _).
  eapply seg_ext; [| | done]; [|done].
  intros y Hy. apply En; [set_solver|]. intros ->. set_solver.
Qed.

Lemma seg_hd h a xs b :
  seg h a xs b -> get_next a h = Some (hd b xs) /\ get_prev (hd b xs) h = Some a.
Proof. destruct xs; simpl; tauto. Qed.

Lemma seg_lst h a xs b :
  seg h a xs b -> get_next (List.last xs a) h = Some b /\ get_prev b h = Some (List.last xs a).
Proof.
  destruct (decide (xs = [])) as [->|Hne]; [done|].
  destruct (exists_last Hne) as (zs & z & ->). rewrite List.last_last, seg_app. simpl. tauto.
Qed.

Lemma seg_dom h a xs b x : seg h a xs b -> x ∈ a :: xs -> is_Some (h !! x).
Proof.
  revert a. induction xs as [|y xs IH]; intros a; simpl.
  - intros [H _] ->%list_elem_of_singleton. unfold get_next in H. destruct (h !! a); [by eexists|done].
  - intros (H & _ & H3) [->|Hx]%elem_of_cons; [|by apply (IH y)].
    unfold get_next in H. destruct (h !! a); [by eexists|done].
Qed.

Lemma hd_elem x xs : hd x xs ∈ x :: xs.
Proof. destruct xs; simpl; set_solver. Qed.
Lemma last_elem x xs : List.last xs x ∈ x :: xs.
Proof.
  destruct (decide (xs = [])) as [->|Hne]; [simpl; set_solver|].
  destruct (exists_last Hne) as (zs & z & ->). rewrite List.last_last. set_solver.
Qed.
End Segments.

(** Read a pointer of an updated store. *)
Ltac chain_side := solve [congruence | eauto | set_solver | (intros ->; set_solver)].
Ltac chain_dom := repeat first [rewrite upd_next_dom | rewrite upd_prev_dom]; solve [eauto].
Ltac chain :=
  repeat first
    [ rewrite next_upd_prev | rewrite prev_upd_next
    | rewrite next_upd_next by chain_dom | rewrite prev_upd_prev by chain_dom
    | rewrite next_upd_next_ne by chain_side | rewrite prev_upd_prev_ne by chain_side ].

(** * Each operation on the list it represents *)

(** What an operation leaves alone: the nodes outside [zs], and the set of nodes. *)
Definition framed (h h' : Chains) (zs : list Z) : Prop :=
  (forall a, a ∉ zs -> h' !! a = h !! a) /\ (forall a, is_Some (h' !! a) <-> is_Some (h !! a)).

Section Operations.
Implicit Types (h : Chains) (L O : Link) (x : Z) (xs ys : list Z).

Lemma push_front_rep h L x xs :
  link_rep h (sentinel L) xs -> x ∉ sentinel L :: xs -> is_Some (h !! x) ->
  exists h', Link_push_front x L h = Some (h', {| sentinel := sentinel L; num_ := u64 (num_ L + 1) |}) /\
    link_rep h' (sentinel L) (x :: xs) /\ framed h h' (x :: sentinel L :: xs).
Proof.
  intros [Hs Hd] Hx Hdx. set (s := sentinel L) in *.
  destruct (seg_hd _ _ _ _ Hs) as [Hn Hp]. set (n := hd s xs) in *.
  assert (Hin : n ∈ s :: xs) by apply hd_elem.
  pose proof (seg_dom _ _ _ _ s Hs ltac:(by left)) as Hds.
  pose proof (seg_dom _ _ _ _ n Hs Hin) as Hdn.
  assert (x <> s) by set_solver. assert (n <> x) by (intros ->; done).
  unfold Link_push_front. fold s. rewrite set_prev_upd by done. simpl. chain. rewrite Hn. simpl.
  rewrite set_next_upd by chain_dom. simpl. chain. rewrite Hn. simpl.
  rewrite set_prev_upd by chain_dom. simpl.
  rewrite set_next_upd by chain_dom. simpl. eexists. split; [done|]. split; [split|split].
  - simpl. split_and!; [by chain.. |].
    apply NoDup_cons in Hd as [Hs1 Hd].
    eapply seg_head; [| | | | |exact Hs]; fold n.
    + apply NoDup_app. split_and!; [done|set_solver|]. apply NoDup_singleton.
    + by chain.
    + by chain.
    + intros y Hy. by chain.
    + intros y Hy Hyn. by chain.
  - apply NoDup_cons in Hd as [Hs1 Hd]. repeat (apply NoDup_cons; split); set_solver.
  - intros a Ha. rewrite upd_next_ne, upd_prev_ne, upd_next_ne, upd_prev_ne by set_solver. done.
  - intros a. by rewrite upd_next_dom, upd_prev_dom, upd_next_dom, upd_prev_dom.
Qed.

Lemma push_back_rep h L x xs :
  link_rep h (sentinel L) xs -> x ∉ sentinel L :: xs -> is_Some (h !! x) ->
  exists h', Link_push_back x L h = Some (h', {| sentinel := sentinel L; num_ := u64 (num_ L + 1) |}) /\
    link_rep h' (sentinel L) (xs ++ [x]) /\ framed h h' (x :: sentinel L :: xs).
Proof.
  intros [Hs Hd] Hx Hdx. set (s := sentinel L) in *.
  destruct (seg_lst _ _ _ _ Hs) as [Hn Hp]. set (n := List.last xs s) in *.
  assert (Hin : n ∈ s :: xs) by apply last_elem.
  pose proof (seg_dom _ _ _ _ s Hs ltac:(by left)) as Hds.
  pose proof (seg_dom _ _ _ _ n Hs Hin) as Hdn.
  assert (x <> s) by set_solver. assert (n <> x) by (intros ->; done).
  unfold Link_push_back. fold s. rewrite set_next_upd by done. simpl. chain. rewrite Hp. simpl.
  rewrite set_prev_upd by chain_dom. simpl. chain. rewrite Hp. simpl.
  rewrite set_next_upd by chain_dom. simpl.
  rewrite set_prev_upd by chain_dom. simpl. eexists. split; [done|].
  apply NoDup_cons in Hd as [Hs1 Hd]. split; [split|split].
  - rewrite seg_app. split; [|by simpl; split; chain].
    eapply seg_last; [| | | | |exact Hs]; fold n.
    + by apply NoDup_cons.
    + by chain.
    + by chain.
    + intros y Hy. by chain.
    + intros y Hy Hyn. by chain.
  - apply NoDup_cons; split; [set_solver|]. apply NoDup_app. split_and!; [done|set_solver|].
    apply NoDup_singleton.
  - intros a Ha. rewrite upd_prev_ne, upd_next_ne, upd_prev_ne, upd_next_ne by set_solver. done.
  - intros a. by rewrite upd_prev_dom, upd_next_dom, upd_prev_dom, upd_next_dom.
Qed.

Lemma remove_rep h L x xs1 xs2 :
  link_rep h (sentinel L) (xs1 ++ x :: xs2) ->
  exists h', Link_remove x L h = Some (h', {| sentinel := sentinel L; num_ := u64 (num_ L - 1) |}) /\
    link_rep h' (sentinel L) (xs1 ++ xs2) /\ framed h h' (sentinel L :: xs1 ++ x :: xs2).
Proof.
  intros [Hs Hd]. set (s := sentinel L) in *.
  pose proof (fun y Hy => seg_dom _ _ _ _ y Hs Hy) as Hdom.
  apply seg_app in Hs as [Hs1 Hs2].
  destruct (seg_lst _ _ _ _ Hs1) as [Hn1 Hp1], (seg_hd _ _ _ _ Hs2) as [Hn2 Hp2].
  set (p := List.last xs1 s) in *. set (n := hd s xs2) in *.
  assert (Hip : p ∈ s :: xs1) by apply last_elem.
  assert (Hin : n ∈ s :: xs2) by apply hd_elem.
  pose proof (Hdom p ltac:(set_solver)) as Hdp. pose proof (Hdom n ltac:(set_solver)) as Hdn.
  apply NoDup_cons in Hd as [Hs0 Hd]. apply NoDup_app in Hd as (Hd1 & Hd12 & Hd2).
  apply NoDup_cons in Hd2 as [Hx2 Hd2].
  assert (x <> p) by set_solver. assert (x <> n) by set_solver.
  unfold Link_remove, LinkNode_remove. rewrite Hp1, Hn2. simpl.
  rewrite set_next_upd by done. simpl. chain. rewrite Hn2, Hp1. simpl.
  rewrite set_prev_upd by chain_dom. simpl. eexists. split; [done|].
  assert (Hdup : NoDup (xs1 ++ xs2)) by (apply NoDup_app; set_solver).
  split; [split|split].
  - destruct xs2 as [|y ys]; simpl in n.
    + rewrite app_nil_r. subst n. eapply seg_last; [| | | | |exact Hs1]; fold p.
      * apply NoDup_cons; set_solver.
      * by chain.
      * by chain.
      * intros y Hy. by chain.
      * intros y Hy Hyp. by chain.
    + subst n. apply seg_app. destruct Hs2 as (_ & _ & Hs2). split.
      * eapply seg_last; [| | | | |exact Hs1]; fold p.
        -- apply NoDup_cons; set_solver.
        -- by chain.
        -- by chain.
        -- intros z Hz. by chain.
        -- intros z Hz Hyp. by chain.
      * apply NoDup_cons in Hd2 as [Hy Hd2].
        assert (Hys : forall z, z ∈ ys ++ [s] -> z <> y) by (clear -Hy Hs0; set_solver).
        assert (Hyp : forall z, z ∈ y :: ys -> z <> p) by (intros z Hz ->; clear -Hip Hd12 Hs0 Hz; clearbody p s; set_solver).
        eapply seg_ext; [| |exact Hs2]; intros z Hz; chain; auto.
  - apply NoDup_cons. set_solver.
  - intros a Ha. rewrite upd_prev_ne, upd_next_ne by set_solver. done.
  - intros a. by rewrite upd_prev_dom, upd_next_dom.
Qed.

Lemma reset_rep h L :
  is_Some (h !! sentinel L) ->
  exists h', Link_reset L h = Some (h', {| sentinel := sentinel L; num_ := 0 |}) /\
    link_rep h' (sentinel L) [] /\ framed h h' [sentinel L].
Proof.
  intros Hd. unfold Link_reset. rewrite set_next_upd by done. simpl.
  rewrite set_prev_upd by chain_dom. simpl. eexists. split; [done|]. split; [split|split].
  - simpl. split; by chain.
  - apply NoDup_singleton.
  - intros a Ha. rewrite upd_prev_ne, upd_next_ne by set_solver. done.
  - intros a. by rewrite upd_prev_dom, upd_next_dom.
Qed.

(** Observations. *)
Lemma empty_rep h L xs :
  link_rep h (sentinel L) xs -> Link_empty L h = Some (bool_decide (xs = [])).
Proof.
  intros [Hs Hd]. unfold Link_empty. destruct (seg_hd _ _ _ _ Hs) as [-> _]. simpl. f_equal.
  destruct xs as [|x xs]; simpl; [by rewrite Z.eqb_refl|].
  apply Z.eqb_neq. apply NoDup_cons in Hd as [Hx _]. set_solver.
Qed.

Lemma iterator_rep h s xs x :
  link_rep h s xs -> x ∈ s :: xs -> exists n, Iterator_new x h = Some (x, n).
Proof.
  intros [Hs _] Hx. unfold Iterator_new. destruct (is_null x); [by eexists|].
  destruct (seg_dom _ _ _ _ x Hs Hx) as [c Hc]. unfold get_next. rewrite Hc. by eexists.
Qed.

Lemma pop_front_nil_rep h L :
  link_rep h (sentinel L) [] -> Link_pop_front L h = Some (nullptr, h, L).
Proof.
  intros Hr. unfold Link_pop_front, Link_begin, Link_end.
  destruct (seg_hd _ _ _ _ (proj1 Hr)) as [-> _].
  destruct (iterator_rep _ _ _ (sentinel L) Hr ltac:(by left)) as [n En].
  simpl. rewrite En. simpl. by rewrite Z.eqb_refl.
Qed.

Lemma pop_front_cons_rep h L x xs :
  link_rep h (sentinel L) (x :: xs) -> x <> nullptr ->
  exists h', Link_pop_front L h = Some (x, h', {| sentinel := sentinel L; num_ := u64 (num_ L - 1) |}) /\
    link_rep h' (sentinel L) xs /\ framed h h' (sentinel L :: x :: xs).
Proof.
  intros Hr Hx. unfold Link_pop_front, Link_begin, Link_end.
  destruct (seg_hd _ _ _ _ (proj1 Hr)) as [-> _]. simpl.
  destruct (iterator_rep _ _ _ x Hr ltac:(right; left)) as [n ->]. simpl.
  destruct (iterator_rep _ _ _ (sentinel L) Hr ltac:(by left)) as [n' ->]. simpl.
  rewrite (proj2 (Z.eqb_neq _ _)); [|destruct Hr as [_ Hd]; apply NoDup_cons in Hd as [Hd _]; set_solver].
  unfold Link_erase, is_null. simpl. rewrite (proj2 (Z.eqb_neq _ _)) by done.
  destruct (remove_rep h L x [] xs Hr) as (h' & -> & Hr' & Hf). simpl. eauto.
Qed.

(** [concat] gives the first element of the other list the sentinel as its
    predecessor, so it is right exactly when this list is empty, as in the move
    constructor and assignment. *)
Lemma concat_rep h L O ys :
  link_rep h (sentinel L) [] -> num_ L = 0 -> link_rep h (sentinel O) ys ->
  sentinel L ∉ sentinel O :: ys -> num_ O = u64 (Z.of_nat (length ys)) ->
  exists h', Link_concat L O h =
      Some (h', {| sentinel := sentinel L; num_ := u64 (Z.of_nat (length ys)) |},
                {| sentinel := sentinel O; num_ := 0 |}) /\
    link_rep h' (sentinel L) ys /\ link_rep h' (sentinel O) [] /\
    framed h h' (sentinel L :: sentinel O :: ys).
Proof.
  intros [HL _] H0 [HO HOd] Hdis Hnum. unfold Link_concat. rewrite (empty_rep _ _ _ (conj HO HOd)). simpl.
  destruct ys as [|y ys].
  { exists h. destruct L, O; simpl in *. subst. split_and!; [done|split; [done|apply NoDup_singleton]|done|by split]. }
  set (s := sentinel L) in *. set (o := sentinel O) in *. rewrite bool_decide_false by done.
  pose proof (fun z Hz => seg_dom _ _ _ _ z HO Hz) as HdO. destruct HO as (Hyn & _ & HO).
  pose proof (seg_dom _ _ _ _ s HL ltac:(by left)) as Hds. destruct HL as [_ HLp].
  destruct (seg_lst _ _ _ _ HO) as [_ Ho]. set (e := List.last ys y) in *.
  assert (Hie : e ∈ y :: ys) by apply last_elem.
  pose proof (HdO e ltac:(by right)). pose proof (HdO y ltac:(by right; left)).
  pose proof (HdO o ltac:(by left)) as Hdo.
  apply NoDup_cons in HOd as [Ho0 HOd].
  assert (Heo : e <> o) by (intros Heq; apply Ho0; by rewrite <- Heq).
  assert (Hyo : y <> o) by (intros Heq; apply Ho0; rewrite <- Heq; by left).
  assert (Hse : s <> e) by (intros Heq; apply Hdis; rewrite Heq; by right).
  assert (Hsy : s <> y) by (intros Heq; apply Hdis; rewrite Heq; by right; left).
  assert (Hso : s <> o) by (intros Heq; apply Hdis; rewrite Heq; by left).
  rewrite Ho. simpl. rewrite set_next_upd by chain_dom. simpl. chain. rewrite Hyn. simpl.
  rewrite set_prev_upd by chain_dom. simpl. chain. rewrite HLp. simpl. chain. rewrite Hyn. simpl.
  rewrite set_next_upd by chain_dom. simpl. chain. rewrite Ho. simpl.
  rewrite set_prev_upd by chain_dom. simpl. set (h1 := upd_prev s e _).
  destruct (reset_rep h1 O) as (h2 & -> & HO' & Hf2 & Hd2); [unfold h1; chain_dom|]. simpl. fold s o in HO', Hf2 |- *.
  assert (Hh2 : forall z, z <> o -> get_next z h2 = get_next z h1 /\ get_prev z h2 = get_prev z h1).
  { intros z Hz. unfold get_next, get_prev. by rewrite Hf2 by (by rewrite list_elem_of_singleton). }
  exists h2. rewrite H0, Hnum. rewrite Z.add_0_l, (u64_small (u64 _)) by (apply wrap_range; lia).
  split_and!; [done|split|done|split].
  - apply NoDup_cons in HOd as [Hy0 HOd]. simpl.
    rewrite (proj1 (Hh2 s Hso)), (proj2 (Hh2 y Hyo)). unfold h1.
    split_and!; [by chain..|]. eapply seg_last; [| | | | |exact HO]; fold e.
    + by apply NoDup_cons.
    + rewrite (proj1 (Hh2 e Heo)). unfold h1. by chain.
    + rewrite (proj2 (Hh2 s Hso)). unfold h1. by chain.
    + intros z Hz. rewrite (proj2 (Hh2 z ltac:(intros Hq; apply Ho0; rewrite <- Hq; by right))). unfold h1.
      assert (z <> s) by (intros Hq; apply Hdis; rewrite <- Hq; by right; right).
      assert (z <> y) by (by intros ->). by chain.
    + intros z Hz Hze. rewrite (proj1 (Hh2 z ltac:(intros Hq; apply Ho0; by rewrite <- Hq))). unfold h1.
      assert (z <> s) by (intros Hq; apply Hdis; rewrite <- Hq; by right). by chain.
  - apply NoDup_cons; split; [|done]. intros Hs. apply Hdis. by right.
  - intros z Hz. rewrite Hf2 by set_solver. unfold h1.
    assert (z <> s /\ z <> e /\ z <> y) as (? & ? & ?).
    { split_and!; intros ->; apply Hz; clear -Hie; clearbody e; set_solver. }
    by rewrite upd_prev_ne, upd_next_ne, upd_prev_ne, upd_next_ne.
  - intros z. rewrite Hd2. unfold h1. by rewrite upd_prev_dom, upd_next_dom, upd_prev_dom, upd_next_dom.
Qed.

(** The range loop visits the elements in order. *)
Lemma iterate_rep h s xs a b :
  seg h a xs s -> NoDup (s :: xs) -> (forall z, z ∈ xs -> z <> nullptr) -> s <> nullptr ->
  is_Some (h !! s) ->
  forall i, Iterator_new (hd s xs) h = Some i ->
  iterate (S (length xs)) i (s, b) h = Some xs.
Proof.
  intros Hs Hd Hn Hsn [c Hc]. revert a Hs. induction xs as [|x xs IH]; intros a Hs i Hi.
  - simpl in Hi. unfold Iterator_new in Hi. destruct (is_null s); simplify_eq/=; [by rewrite Z.eqb_refl|].
    destruct (get_next s h); simplify_eq/=. by rewrite Z.eqb_refl.
  - destruct Hs as (_ & _ & Hs). destruct (seg_hd _ _ _ _ Hs) as [Hx _].
    unfold Iterator_new, is_null in Hi. simpl in Hi.
    rewrite (proj2 (Z.eqb_neq x nullptr)), Hx in Hi by (apply Hn; by left). simplify_eq/=.
    apply NoDup_cons in Hd as [Hs0 Hd]. apply NoDup_cons in Hd as [Hx0 Hd].
    rewrite (proj2 (Z.eqb_neq x s)) by (intros ->; apply Hs0; by left).
    assert (exists i', Iterator_incr (x, hd s xs) h = Some i') as [i' Hi'].
    { unfold Iterator_incr, Iterator_new. simpl. destruct (is_null _); [by eexists|].
      assert (is_Some (h !! hd s xs)) as [c' Hc'].
      { pose proof (hd_elem s xs) as [->|Hin]%elem_of_cons; [by eexists|].
        eapply seg_dom; [exact Hs|by right]. }
      unfold get_next. rewrite Hc'. by eexists. }
    rewrite Hi'. cbn [mbind option_bind].
    rewrite (IH ltac:(apply NoDup_cons; split; [set_solver|done]) ltac:(set_solver) x Hs i' Hi'). done.
Qed.
End Operations.

(** * Any number of lists, any sequence of operations *)

(** The chains and the [num_] of each list, by the address of its sentinel. *)
Record Lists := { chains : Chains; sizes : gmap Z Z }.

Inductive LinkOp :=
| NewNode (x : Z)
| NewLink (s : Z)
| PushFront (s x : Z)
| PushBack (s x : Z)
| PopFront (s : Z)
| Remove (s x : Z)
| Move (s t : Z)
| Clear (s : Z)
| Elements (s : Z)
| Size (s : Z).

Definition link_at (W : Lists) (s : Z) : option Link :=
  n ← sizes W !! s; Some {| sentinel := s; num_ := n |}.
Definition store_link (h : Chains) (L : Link) (W : Lists) : Lists :=
  {| chains := h; sizes := <[sentinel L := num_ L]> (sizes W) |}.

(** The loops visit each node of the store at most once. *)
Definition loop_fuel (W : Lists) : nat := S (S (size (chains W))).

(** One call: the new state and what the caller sees. *)
Definition link_step (op : LinkOp) (W : Lists) : option (Lists * list Z) :=
  match op with
  | NewNode x => Some ({| chains := LinkNode_new x (chains W); sizes := sizes W |}, [])
  | NewLink s => let r := Link_new s (chains W) in Some (store_link r.1 r.2 W, [])
  | PushFront s x =>
      L ← link_at W s; r ← Link_push_front x L (chains W); Some (store_link r.1 r.2 W, [])
  | PushBack s x =>
      L ← link_at W s; r ← Link_push_back x L (chains W); Some (store_link r.1 r.2 W, [])
  | PopFront s =>
      L ← link_at W s; r ← Link_pop_front L (chains W);
      let '(x, h, L') := r in Some (store_link h L' W, [x])
  | Remove s x =>
      L ← link_at W s; r ← Link_remove x L (chains W); Some (store_link r.1 r.2 W, [])
  | Move s t =>
      L ← link_at W s; O ← link_at W t;
      if s =? t then Some (W, [])
      else r ← Link_move L O (chains W);
           let '(h, L', O') := r in Some (store_link h L' (store_link h O' W), [])
  | Clear s =>
      L ← link_at W s; r ← Link_clear (loop_fuel W) L (chains W); Some (store_link r.1 r.2 W, [])
  | Elements s =>
      L ← link_at W s; xs ← Link_elements (loop_fuel W) L (chains W); Some (W, xs)
  | Size s => L ← link_at W s; Some (W, [Link_size L])
  end.

(** ** The specification: mathematical lists, and the nodes that are on none. *)
Record AbsLists := { contents : gmap Z (list Z); loose : gset Z }.

Definition known (A : AbsLists) (x : Z) : Prop :=
  x ∈ loose A \/ exists s xs, contents A !! s = Some xs /\ x ∈ s :: xs.

Definition set_list (s : Z) (xs : list Z) (l : gset Z) (A : AbsLists) : AbsLists :=
  {| contents := <[s := xs]> (contents A); loose := l |}.

(** A step of the specification, with the conditions under which the calls have a
    meaning: new addresses are not in use, a pushed element is on no list, and an
    element is removed from the list it is on. *)
Inductive abs_step : LinkOp -> AbsLists -> AbsLists -> list Z -> Prop :=
| abs_node A x : x <> nullptr -> ~ known A x ->
    abs_step (NewNode x) A {| contents := contents A; loose := {[x]} ∪ loose A |} []
| abs_link A s : s <> nullptr -> ~ known A s ->
    abs_step (NewLink s) A (set_list s [] (loose A) A) []
| abs_push_front A s x xs : contents A !! s = Some xs -> x ∈ loose A ->
    abs_step (PushFront s x) A (set_list s (x :: xs) (loose A ∖ {[x]}) A) []
| abs_push_back A s x xs : contents A !! s = Some xs -> x ∈ loose A ->
    abs_step (PushBack s x) A (set_list s (xs ++ [x]) (loose A ∖ {[x]}) A) []
| abs_pop_nil A s : contents A !! s = Some [] ->
    abs_step (PopFront s) A A [nullptr]
| abs_pop_cons A s x xs : contents A !! s = Some (x :: xs) ->
    abs_step (PopFront s) A (set_list s xs ({[x]} ∪ loose A) A) [x]
| abs_remove A s x xs1 xs2 : contents A !! s = Some (xs1 ++ x :: xs2) ->
    abs_step (Remove s x) A (set_list s (xs1 ++ xs2) ({[x]} ∪ loose A) A) []
| abs_move_same A s xs : contents A !! s = Some xs ->
    abs_step (Move s s) A A []
| abs_move A s t xs ys : contents A !! s = Some xs -> contents A !! t = Some ys -> s <> t ->
    abs_step (Move s t) A
      (set_list s ys (list_to_set xs ∪ loose A) (set_list t [] (loose A) A)) []
| abs_clear A s xs : contents A !! s = Some xs ->
    abs_step (Clear s) A (set_list s [] (list_to_set xs ∪ loose A) A) []
| abs_elements A s xs : contents A !! s = Some xs ->
    abs_step (Elements s) A A xs
| abs_size A s xs : contents A !! s = Some xs ->
    abs_step (Size s) A A [u64 (Z.of_nat (length xs))].

Inductive abs_run : list LinkOp -> AbsLists -> AbsLists -> list (list Z) -> Prop :=
| abs_run_nil A : abs_run [] A A []
| abs_run_cons op ops A A' A'' o os :
    abs_step op A A' o -> abs_run ops A' A'' os -> abs_run (op :: ops) A A'' (o :: os).

Fixpoint link_run (ops : list LinkOp) (W : Lists) : option (Lists * list (list Z)) :=
  match ops with
  | [] => Some (W, [])
  | op :: ops' =>
      r ← link_step op W; r' ← link_run ops' r.1; Some (r'.1, r.2 :: r'.2)
  end.

(** ** The representation relation *)
Record lists_rep (W : Lists) (A : AbsLists) : Prop := {
  lr_links s xs : contents A !! s = Some xs ->
    link_rep (chains W) s xs /\ sizes W !! s = Some (u64 (Z.of_nat (length xs)));
  lr_loose x : x ∈ loose A ->
    is_Some (chains W !! x) /\ forall s xs, contents A !! s = Some xs -> x ∉ s :: xs;
  lr_disj s t xs ys x : contents A !! s = Some xs -> contents A !! t = Some ys ->
    x ∈ s :: xs -> x ∈ t :: ys -> s = t;
  lr_null : ~ known A nullptr
}.

Section Refinement.
Implicit Types (W : Lists) (A : AbsLists).

Lemma lr_link_at W A s xs :
  lists_rep W A -> contents A !! s = Some xs ->
  link_at W s = Some {| sentinel := s; num_ := u64 (Z.of_nat (length xs)) |}.
Proof. intros HR Hs. unfold link_at. by rewrite (proj2 (lr_links _ _ HR _ _ Hs)). Qed.

(** A new contents for one list: its nodes were there or loose, the nodes that
    become loose are not on it, and nothing else moved. *)
Lemma lists_rep_update W A s xs xs' l' h' n :
  lists_rep W A -> contents A !! s = Some xs ->
  link_rep h' s xs' -> n = u64 (Z.of_nat (length xs')) ->
  (forall x, x ∈ xs' -> x ∈ xs \/ x ∈ loose A) ->
  (forall x, x ∈ l' <-> (x ∈ xs \/ x ∈ loose A) /\ x ∉ xs') ->
  (forall x, x ∉ s :: xs -> x ∉ xs' -> h' !! x = chains W !! x) ->
  (forall x, is_Some (h' !! x) <-> is_Some (chains W !! x)) ->
  lists_rep (store_link h' {| sentinel := s; num_ := n |} W) (set_list s xs' l' A).
Proof.
  intros HR Hs Hrep -> Hin Hl Hf Hdom.
  assert (Hout : forall t ys x, contents A !! t = Some ys -> s <> t -> x ∈ t :: ys ->
            x ∉ s :: xs /\ x ∉ xs').
  { intros t ys x Ht Hst Hx. split; [intros Hx'; by apply Hst, (lr_disj _ _ HR s t xs ys x)|].
    intros Hx'. destruct (Hin x Hx') as [Hx''|Hx''].
    - apply Hst, (lr_disj _ _ HR s t xs ys x); [done..|by right|done].
    - by apply (proj2 (lr_loose _ _ HR x Hx'') t ys). }
  split; unfold set_list, store_link; simpl.
  - intros t ys Ht. apply lookup_insert_Some in Ht as [[<- <-]|[Hne Ht]].
    + by rewrite lookup_insert_eq.
    + rewrite lookup_insert_ne by done. destruct (lr_links _ _ HR t ys Ht) as [Hr Hn]. split; [|done].
      eapply link_rep_ext; [|exact Hr]. intros x Hx. by apply Hf; eapply Hout.
  - intros x [Hx Hx']%Hl. split.
    + apply Hdom. destruct Hx as [Hx|Hx]; [|by apply (lr_loose _ _ HR)].
      eapply seg_dom; [exact (proj1 (proj1 (lr_links _ _ HR _ _ Hs)))|by right].
    + intros t ys Ht. apply lookup_insert_Some in Ht as [[<- <-]|[Hne Ht]].
      * intros [->|]%elem_of_cons; [|done]. destruct Hx as [Hx|Hx].
        -- destruct (lr_links _ _ HR _ _ Hs) as [[_ Hd] _]. by apply NoDup_cons in Hd as [? _].
        -- apply (proj2 (lr_loose _ _ HR _ Hx) _ _ Hs). by left.
      * destruct Hx as [Hx|Hx]; [|by apply (lr_loose _ _ HR _ Hx)].
        intros Hx''. eapply (proj1 (Hout _ _ _ Ht Hne Hx'')). by right.
  - intros t t' ys ys' x Ht Ht' Hx Hx'. apply lookup_insert_Some in Ht as [[<- <-]|[Hne Ht]];
      apply lookup_insert_Some in Ht' as [[<- <-]|[Hne' Ht']]; [done| | |by eapply (lr_disj _ _ HR)].
    + destruct (Hout _ _ _ Ht' Hne' Hx') as [H1 H2]. set_solver.
    + destruct (Hout _ _ _ Ht Hne Hx) as [H1 H2]. set_solver.
  - intros [H0|(t & ys & Ht & H0)]; simpl in *.
    + apply (lr_null _ _ HR). apply Hl in H0 as [[H0|H0] _]; [|by left].
      right. exists s, xs. split; [done|by right].
    + apply (lr_null _ _ HR). apply lookup_insert_Some in Ht as [[<- <-]|[Hne Ht]]; [|by right; exists t, ys].
      apply elem_of_cons in H0 as [->|H0]; [right; exists s, xs; split; [done|by left]|].
      destruct (Hin _ H0); [right; exists s, xs; split; [done|by right]|by left].
Qed.

Lemma framed_ne h h' zs x : framed h h' zs -> x ∉ zs -> h' !! x = h !! x.
Proof. intros [H _]. apply H. Qed.

(** The nodes of a list are in the store, so the loops have enough fuel. *)
Lemma length_loop_fuel W A s xs :
  lists_rep W A -> contents A !! s = Some xs -> (S (length xs) < loop_fuel W)%nat.
Proof.
  intros HR Hs. destruct (lr_links _ _ HR _ _ Hs) as [[Hseg Hd] _].
  apply NoDup_cons in Hd as [_ Hd]. unfold loop_fuel.
  enough (length xs <= size (chains W))%nat by lia.
  rewrite <- (size_list_to_set (C := gset Z)) by done. rewrite <- (size_dom (D := gset Z)).
  apply subseteq_size. intros x Hx%elem_of_list_to_set. apply elem_of_dom.
  eapply seg_dom; [exact Hseg|by right].
Qed.

Lemma elem_not_null W A s xs x :
  lists_rep W A -> contents A !! s = Some xs -> x ∈ s :: xs -> x <> nullptr.
Proof. intros HR Hs Hx ->. apply (lr_null _ _ HR). right. eauto. Qed.

Lemma lr_out W A s xs :
  lists_rep W A -> contents A !! s = Some xs -> forall y, y ∈ loose A -> y ∉ s :: xs.
Proof. intros HR Hs y Hy. by apply (proj2 (lr_loose _ _ HR y Hy)). Qed.

(** [num_] counts the elements modulo its width. *)
Lemma u64_succ n : u64 (u64 (Z.of_nat n) + 1) = u64 (Z.of_nat (S n)).
Proof. unfold u64, wrap. rewrite Zplus_mod_idemp_l. f_equal. lia. Qed.
Lemma u64_pred n : u64 (u64 (Z.of_nat (S n)) - 1) = u64 (Z.of_nat n).
Proof. unfold u64, wrap. rewrite Zminus_mod_idemp_l. f_equal. lia. Qed.

Lemma clear_rep fuel h s xs :
  (length xs < fuel)%nat -> link_rep h s xs -> (forall x, x ∈ xs -> x <> nullptr) ->
  exists h', Link_clear fuel {| sentinel := s; num_ := u64 (Z.of_nat (length xs)) |} h =
      Some (h', {| sentinel := s; num_ := 0 |}) /\
    link_rep h' s [] /\ framed h h' (s :: xs).
Proof.
  revert h xs. induction fuel as [|fuel IH]; intros h xs Hf Hr Hn; [lia|]. cbn [Link_clear].
  destruct xs as [|x xs].
  - rewrite pop_front_nil_rep by done. simpl. exists h. split_and!; [done..|by split].
  - destruct (pop_front_cons_rep h {| sentinel := s; num_ := u64 (Z.of_nat (length (x :: xs))) |} x xs Hr)
      as (h1 & -> & Hr1 & Hf1); [by apply Hn; left|]. simpl in *.
    unfold is_null. rewrite (proj2 (Z.eqb_neq _ _)) by (apply Hn; by left).
    rewrite u64_pred.
    destruct (IH h1 xs) as (h2 & -> & Hr2 & Hf2); [lia|done|set_solver|].
    exists h2. split_and!; [done..|split].
    + intros a Ha. rewrite (framed_ne _ _ _ _ Hf2) by set_solver.
      apply (framed_ne _ _ _ _ Hf1). set_solver.
    + intros a. rewrite (proj2 Hf2). apply Hf1.
Qed.

(** [elements] of a list are what the range loop visits. *)
Lemma elements_rep W A s xs :
  lists_rep W A -> contents A !! s = Some xs ->
  Link_elements (loop_fuel W) {| sentinel := s; num_ := u64 (Z.of_nat (length xs)) |} (chains W) = Some xs.
Proof.
  intros HR Hs. destruct (lr_links _ _ HR _ _ Hs) as [Hr _]. pose proof Hr as [Hseg Hd].
  pose proof (length_loop_fuel _ _ _ _ HR Hs) as Hfuel.
  unfold Link_elements, Link_begin, Link_end. cbn [sentinel].
  destruct (seg_hd _ _ _ _ Hseg) as [-> _]. cbn [mbind option_bind].
  destruct (iterator_rep _ _ _ (hd s xs) Hr) as [n1 Hn1]; [apply hd_elem|].
  destruct (iterator_rep _ _ _ s Hr ltac:(by left)) as [n2 Hn2].
  rewrite Hn1, Hn2. cbn [mbind option_bind].
  assert (Hm : forall f g i e, (f <= g)%nat -> forall l, iterate f i e (chains W) = Some l ->
             iterate g i e (chains W) = Some l).
  { clear. induction f as [|f IH]; intros g i e Hg l Hl; [done|]. destruct g as [|g]; [lia|].
    cbn [iterate] in *. destruct (i.1 =? e.1); [done|].
    destruct (Iterator_incr i (chains W)); [|done]. cbn [mbind option_bind] in *.
    destruct (iterate f _ _ _) eqn:E; [|done]. by rewrite (IH g _ _ ltac:(lia) _ E). }
  apply (Hm (S (length xs))); [lia|]. eapply iterate_rep; [exact Hseg|exact Hd| | | |exact Hn1].
  - intros z Hz. eapply elem_not_null; [exact HR|exact Hs|by right].
  - eapply elem_not_null; [exact HR|exact Hs|by left].
  - eapply seg_dom; [exact Hseg|by left].
Qed.

(** A list whose head is overwritten with an empty chain: its nodes are loose. *)
Lemma lists_rep_detach W A t ys h2 c :
  lists_rep W A -> contents A !! t = Some ys -> link_rep h2 t [] -> h2 !! t = Some c ->
  lists_rep (store_link (<[t := c]> (chains W)) {| sentinel := t; num_ := 0 |} W)
    (set_list t [] (list_to_set ys ∪ loose A) A).
Proof.
  intros HR Ht Ht2 Ec. destruct (lr_links _ _ HR _ _ Ht) as [Hrt _].
  apply (lists_rep_update W A t ys [] _ _ 0 HR Ht); try done; [|set_solver|set_solver| |].
  - eapply link_rep_ext; [|exact Ht2]. intros x ->%list_elem_of_singleton. by rewrite lookup_insert_eq.
  - intros x Hx _. apply lookup_insert_ne. set_solver.
  - intros x. destruct (decide (x = t)) as [->|]; [|by rewrite lookup_insert_ne].
    rewrite lookup_insert_eq. split; [intros _|by eexists].
    eapply seg_dom; [exact (proj1 Hrt)|by left].
Qed.

(** The two lists of a move. *)
Lemma move_rep W A s t xs ys :
  lists_rep W A -> contents A !! s = Some xs -> contents A !! t = Some ys -> s <> t ->
  exists W', link_step (Move s t) W = Some (W', []) /\
    lists_rep W' (set_list s ys (list_to_set xs ∪ loose A) (set_list t [] (loose A) A)).
Proof.
  intros HR Hs Ht Hst. destruct (lr_links _ _ HR _ _ Hs) as [Hrs Hns], (lr_links _ _ HR _ _ Ht) as [Hrt Hnt].
  cbn [link_step]. rewrite (lr_link_at _ _ _ _ HR Hs), (lr_link_at _ _ _ _ HR Ht). cbn [mbind option_bind].
  rewrite (proj2 (Z.eqb_neq s t)) by done. unfold Link_move.
  destruct (reset_rep (chains W) {| sentinel := s; num_ := u64 (Z.of_nat (length xs)) |})
    as (h1 & -> & Hr1 & Hf1 & Hd1); [eapply seg_dom; [exact (proj1 Hrs)|by left]|].
  cbn [mbind option_bind fst snd sentinel] in *.
  assert (Hdst : forall x, x ∈ s :: xs -> x ∈ t :: ys -> False).
  { intros x Hx Hx'. by apply Hst, (lr_disj _ _ HR s t xs ys x). }
  assert (HR1 : lists_rep (store_link h1 {| sentinel := s; num_ := 0 |} W)
                  (set_list s [] (list_to_set xs ∪ loose A) A)).
  { apply (lists_rep_update W A s xs [] _ h1 0); try done; [set_solver..|].
    intros x Hx _. apply Hf1. set_solver. }
  assert (Ht1 : contents (set_list s [] (list_to_set xs ∪ loose A) A) !! t = Some ys).
  { simpl. by rewrite lookup_insert_ne. }
  destruct (lr_links _ _ HR1 _ _ Ht1) as [Hrt1 _].
  destruct (concat_rep h1 {| sentinel := s; num_ := 0 |} {| sentinel := t; num_ := u64 (Z.of_nat (length ys)) |} ys)
    as (h2 & -> & Hs2 & Ht2 & Hf2 & Hd2); try done.
  { intros Hx. apply (Hdst s); [by left|done]. }
  cbn [mbind option_bind fst snd sentinel] in *. eexists. split; [done|].
  destruct (seg_dom _ _ _ _ t (proj1 Ht2) ltac:(by left)) as [c Ec].
  pose proof (lists_rep_detach _ _ t ys h2 c HR1 Ht1 Ht2 Ec) as HR2.
  assert (Hs2' : contents (set_list t [] (list_to_set ys ∪ (list_to_set xs ∪ loose A))
                     (set_list s [] (list_to_set xs ∪ loose A) A)) !! s = Some []).
  { simpl. by rewrite lookup_insert_ne, lookup_insert_eq. }
  pose proof (lists_rep_update _ _ s [] ys (list_to_set xs ∪ loose A) h2 _ HR2 Hs2' Hs2 eq_refl) as HR3.
  unfold store_link, set_list in *. simpl in *.
  rewrite (insert_insert_ne _ s t), insert_insert_eq in HR3 by done.
  rewrite (insert_insert_ne _ s t), insert_insert_eq in HR3 by done.
  rewrite (insert_insert_ne (sizes W) s t), (insert_insert_ne (contents A) s t) by done.
  apply HR3; clear HR3.
  - set_solver.
  - intros x. rewrite !elem_of_union, !elem_of_list_to_set. split.
    + intros Hx. split; [right; by right|]. intros Hy. destruct Hx as [Hx|Hx].
      * apply (Hdst x); by right.
      * apply (proj2 (lr_loose _ _ HR x Hx) t ys Ht). by right.
    + intros [[Hx|[Hx|Hx]] Hx']; [by apply elem_of_nil in Hx|done|auto].
  - intros x Hx Hx'. destruct (decide (x = t)) as [->|Hxt]; [by rewrite lookup_insert_eq|].
    rewrite lookup_insert_ne by done. apply (framed_ne _ _ _ _ (conj Hf2 Hd2)). set_solver.
  - intros x. destruct (decide (x = t)) as [->|Hxt]; [rewrite lookup_insert_eq, Ec; done|].
    rewrite lookup_insert_ne by done. apply Hd2.
Qed.

(** A node or a list at an address that is not in use. *)
Lemma fresh_rep W A x c :
  lists_rep W A -> x <> nullptr -> ~ known A x ->
  lists_rep {| chains := <[x := c]> (chains W); sizes := sizes W |} A.
Proof.
  intros HR Hx Hk. split; simpl.
  - intros s xs Hs. destruct (lr_links _ _ HR s xs Hs) as [Hr Hn]. split; [|done].
    eapply link_rep_ext; [|exact Hr]. intros y Hy. apply lookup_insert_ne. intros ->.
    apply Hk. right. eauto.
  - intros y Hy. destruct (lr_loose _ _ HR y Hy) as [H1 H2]. split; [|done].
    destruct (decide (y = x)) as [->|]; [rewrite lookup_insert_eq; by eexists|by rewrite lookup_insert_ne].
  - apply (lr_disj _ _ HR).
  - apply (lr_null _ _ HR).
Qed.

Lemma new_node_rep W A x :
  lists_rep W A -> x <> nullptr -> ~ known A x ->
  lists_rep {| chains := LinkNode_new x (chains W); sizes := sizes W |}
            {| contents := contents A; loose := {[x]} ∪ loose A |}.
Proof.
  intros HR Hx Hk. pose proof (fresh_rep W A x {| next_ := nullptr; prev_ := nullptr |} HR Hx Hk) as HR'.
  split; simpl; [apply (lr_links _ _ HR')| |apply (lr_disj _ _ HR')|].
  - intros y [->%elem_of_singleton|Hy]%elem_of_union; [|by apply (lr_loose _ _ HR')].
    unfold LinkNode_new. rewrite lookup_insert_eq. split; [by eexists|].
    intros s xs Hs Hy. apply Hk. right. eauto.
  - intros [H|H]; simpl in H; [|apply (lr_null _ _ HR); by right].
    apply elem_of_union in H as [H%elem_of_singleton|H]; [done|]. apply (lr_null _ _ HR). by left.
Qed.

Lemma new_link_rep W A s :
  lists_rep W A -> s <> nullptr -> ~ known A s ->
  let r := Link_new s (chains W) in
  lists_rep (store_link r.1 r.2 W) (set_list s [] (loose A) A).
Proof.
  intros HR Hs Hk. pose proof (fresh_rep W A s {| next_ := s; prev_ := s |} HR Hs Hk) as HR'.
  split; simpl.
  - intros t xs [[<- <-]|[Hne Ht]]%lookup_insert_Some.
    + rewrite lookup_insert_eq. split; [|done]. split; [|apply NoDup_singleton].
      unfold seg, get_next, get_prev. by rewrite lookup_insert_eq.
    + rewrite (lookup_insert_ne (sizes W)) by done. apply (lr_links _ _ HR' t xs Ht).
  - intros y Hy. split; [apply (lr_loose _ _ HR' y Hy)|].
    intros t xs [[<- <-]|[Hne Ht]]%lookup_insert_Some; [|by apply (lr_loose _ _ HR' y Hy)].
    intros ->%list_elem_of_singleton. apply Hk. by left.
  - intros t t' xs ys x [[<- <-]|[Hne Ht]]%lookup_insert_Some [[<- <-]|[Hne' Ht']]%lookup_insert_Some Hx Hx';
      [done| | |by eapply (lr_disj _ _ HR)]; exfalso; apply Hk; right.
    + apply list_elem_of_singleton in Hx as ->. eauto.
    + apply list_elem_of_singleton in Hx' as ->. eauto.
  - intros [H|(t & xs & Ht & H)]; [apply (lr_null _ _ HR); by left|]. simpl in Ht.
    apply lookup_insert_Some in Ht as [[<- <-]|[Hne Ht]]; [by apply list_elem_of_singleton in H|].
    apply (lr_null _ _ HR). right. eauto.
Qed.

(** One call of the code does what the specification allows. *)
Lemma link_step_rep op W A A' o :
  lists_rep W A -> abs_step op A A' o ->
  exists W', link_step op W = Some (W', o) /\ lists_rep W' A'.
Proof.
  intros HR Hst. destruct Hst as [A x Hx Hk|A s Hs Hk|A s x xs Hs Hx|A s x xs Hs Hx|A s Hs|A s x xs Hs
    |A s x xs1 xs2 Hs|A s xs Hs|A s t xs ys Hs Ht Hne|A s xs Hs|A s xs Hs|A s xs Hs];
    cbn [link_step]; try (rewrite (lr_link_at _ _ _ _ HR Hs); cbn [mbind option_bind]).
  - eexists. split; [done|]. by apply new_node_rep.
  - eexists. split; [done|]. by apply new_link_rep.
  - pose proof (lr_out _ _ _ _ HR Hs) as Hl. destruct (lr_links _ _ HR _ _ Hs) as [Hr _].
    destruct (push_front_rep _ {| sentinel := s; num_ := u64 (Z.of_nat (length xs)) |} x xs Hr (Hl _ Hx)
      (proj1 (lr_loose _ _ HR x Hx))) as (h' & -> & Hr' & Hf). eexists. split; [done|].
    eapply lists_rep_update; [done|done|exact Hr'|apply u64_succ| | | |apply Hf].
    + clear -Hx. set_solver.
    + clear -Hl Hx. set_solver.
    + intros y Hy Hy'. apply Hf. clear -Hy Hy'. set_solver.
  - pose proof (lr_out _ _ _ _ HR Hs) as Hl. destruct (lr_links _ _ HR _ _ Hs) as [Hr _].
    destruct (push_back_rep _ {| sentinel := s; num_ := u64 (Z.of_nat (length xs)) |} x xs Hr (Hl _ Hx)
      (proj1 (lr_loose _ _ HR x Hx))) as (h' & -> & Hr' & Hf). eexists. split; [done|].
    eapply lists_rep_update; [done|done|exact Hr'|rewrite length_app, Nat.add_1_r; apply u64_succ| | | |apply Hf].
    + clear -Hx. set_solver.
    + clear -Hl Hx. set_solver.
    + intros y Hy Hy'. apply Hf. clear -Hy Hy'. set_solver.
  - destruct (lr_links _ _ HR _ _ Hs) as [Hr Hn]. rewrite pop_front_nil_rep by done.
    eexists. split; [done|]. unfold store_link. simpl. rewrite insert_id by done. by destruct W.
  - destruct (lr_links _ _ HR _ _ Hs) as [Hr _]. pose proof (proj2 Hr) as Hd.
    destruct (pop_front_cons_rep _ {| sentinel := s; num_ := u64 (Z.of_nat (length (x :: xs))) |} x xs Hr)
      as (h' & -> & Hr' & Hf); [eapply elem_not_null; [done|done|by right; left]|].
    eexists. split; [done|]. pose proof (lr_out _ _ _ _ HR Hs) as Hl.
    apply NoDup_cons in Hd as [_ [Hx _]%NoDup_cons].
    eapply lists_rep_update; [done|done|exact Hr'|apply u64_pred| | | |apply Hf].
    + set_solver.
    + clear -Hl Hx. set_solver.
    + intros y Hy Hy'. apply Hf. done.
  - destruct (lr_links _ _ HR _ _ Hs) as [Hr _]. pose proof (proj2 Hr) as Hd.
    destruct (remove_rep _ {| sentinel := s; num_ := u64 (Z.of_nat (length (xs1 ++ x :: xs2))) |} x xs1 xs2 Hr)
      as (h' & -> & Hr' & Hf).
    eexists. split; [done|]. pose proof (lr_out _ _ _ _ HR Hs) as Hl.
    apply NoDup_cons in Hd as [_ (_ & Hd12 & [Hx _]%NoDup_cons)%NoDup_app].
    eapply lists_rep_update; [done|done|exact Hr'| | | | |apply Hf].
    + rewrite !length_app. simpl. rewrite Nat.add_succ_r. apply u64_pred.
    + set_solver.
    + clear -Hl Hx Hd12. set_solver.
    + intros y Hy Hy'. apply Hf. done.
  - rewrite Z.eqb_refl. eauto.
  - destruct (move_rep W A s t xs ys HR Hs Ht Hne) as (W' & HW & HR'). cbn [link_step] in HW.
    rewrite (lr_link_at _ _ _ _ HR Hs) in HW. eauto.
  - destruct (lr_links _ _ HR _ _ Hs) as [Hr _].
    destruct (clear_rep (loop_fuel W) (chains W) s xs) as (h' & -> & Hr' & Hf); [|done| |].
    + pose proof (length_loop_fuel _ _ _ _ HR Hs). lia.
    + intros y Hy. eapply elem_not_null; [done|done|by right].
    + eexists. split; [done|]. eapply lists_rep_update; [done|done|exact Hr'|done| | | |apply Hf].
      * set_solver.
      * intros y. rewrite elem_of_union, elem_of_list_to_set. set_solver.
      * intros y Hy _. by apply Hf.
  - rewrite (elements_rep _ _ _ _ HR Hs). eauto.
  - eauto.
Qed.
End Refinement.

(** ** The refinement theorem *)

(** The empty store and no list. *)
Definition no_lists : Lists := {| chains := ∅; sizes := ∅ |}.
Definition no_abs : AbsLists := {| contents := ∅; loose := ∅ |}.

Lemma no_lists_rep : lists_rep no_lists no_abs.
Proof.
  split; simpl.
  - intros s xs Hs. by rewrite lookup_empty in Hs.
  - intros x Hx. set_solver.
  - intros s t xs ys x Hs. by rewrite lookup_empty in Hs.
  - intros [H|(s & xs & Hs & _)]; simpl in *; [set_solver|by rewrite lookup_empty in Hs].
Qed.

Lemma link_run_rep ops W A A' os :
  lists_rep W A -> abs_run ops A A' os ->
  exists W', link_run ops W = Some (W', os) /\ lists_rep W' A'.
Proof.
  intros HR Hrun. revert W HR. induction Hrun as [|op ops A A' A'' o os Hst Hrun IH]; intros W HR.
  - by exists W.
  - destruct (link_step_rep _ _ _ _ _ HR Hst) as (W1 & H1 & HR1).
    destruct (IH W1 HR1) as (W2 & H2 & HR2). exists W2. simpl. rewrite H1. simpl. by rewrite H2.
Qed.


Definition demo_ops : list LinkOp :=
  [NewLink 10; NewLink 20; NewNode 1; NewNode 2; PushFront 10 1; PushBack 10 2; Remove 10 1;
   Elements 10; Move 20 10; Size 20; PopFront 20].

Ltac solve_unknown :=
  intros [?|(? & ? & Hs & ?)]; [set_solver|]; simpl in Hs;
  repeat (apply lookup_insert_Some in Hs as [[<- <-]|[_ Hs]]; [set_solver|]);
  by rewrite lookup_empty in Hs.


(** * [concat] onto a list that is not empty *)

(** The first element of the other list gets the sentinel, and not the last element
    of this list, as its predecessor; removing it then loses this list's elements. *)
Theorem concat_nonempty_loses_elements :
  (r ← link_run [NewLink 10; NewLink 20; NewNode 1; NewNode 2; PushBack 10 1; PushBack 20 2] no_lists;
   L ← link_at r.1 10; O ← link_at r.1 20;
   c ← Link_concat L O (chains r.1);
   xs ← Link_elements 4 c.1.2 c.1.1;
   r' ← Link_remove 2 c.1.2 c.1.1;
   ys ← Link_elements 4 r'.2 r'.1;
   Some (xs, ys, Link_size r'.2)) = Some ([1; 2], [], 1).
Proof. vm_compute. done. Qed.
