(* ===== verification/SpanAllocator.v ===== *)
(** llm_datadist/memory: the page allocator.  ScalableAllocator
    (allocator/scalable_allocator.cc) hands out spans of pages of one fixed region:
    free spans hang on a layer per length (span/span_layer.h), the lookup table
    (span/span_layer_lut.h) knows the layers that have some, neighbours are linked as
    buddies (span/page_span.cc, span/span_buddy_link.h) and merged when freed, and the
    span objects are recycled by an ObjectAllocator (util/object_allocator.h).

    The intrusive lists are used as Link.v shows they behave: pushing a span that is
    on a list, or removing one from a list it is not on, has no meaning ([stuck]).
    Pointers to spans are addresses, a pointer to a layer is its identifier. *)
From S2P Require Import Prelude External Effects.

(** * Sizes: type/mem_size.h and span/span_layer_id.h *)

Definition MemSize_GetAlignedOf (size alignSize : Z) : Z :=
  Z.land (u64 (u64 (size + alignSize) - 1)) (u64 (Z.lnot (u64 (alignSize - 1)))).

Definition PAGE_LENGTH_INVALID : Z := UINT32_MAX.
Definition SPAN_LAYER_ID_INVALID : Z := UINT32_MAX.

Definition PageLen_GetLenFromSize (size page_idem_num : Z) : Z := u32 (Z.shiftr size page_idem_num).
Definition PageLen_GetMemSize (page_len page_idem_num : Z) : Z := u64 (Z.shiftl page_len page_idem_num).
Definition PageLen_ForwardAddr (page_len page_idem_num addr : Z) : Z :=
  u64 (addr + PageLen_GetMemSize page_len page_idem_num).
Definition SpanLayerId_GetIdFromSize (size page_idem_num : Z) : Z :=
  PageLen_GetLenFromSize size page_idem_num.

(** * Data *)

(** [ScalableConfig]: the fields the allocator reads. *)
Record ScalableConfig := {
  page_idem_num : Z;
  page_mem_size_total_threshold : Z;
  span_count_in_layer_threshold : Z;
  span_layer_lift_max : Z;
  span_prepared_count : Z;
  span_layer_prepared_count : Z;
  uncacheable_size_threshold : Z
}.

Section Data.
Context `{MemBlockApi}.

(** [PageSpan]: its [ge::MemBlock], its own fields and its [SpanBuddyLink]. *)
Record PageSpan := {
  span_mem : MemBlock;
  block_addr_ : Z;
  page_len_ : Z;
  try_split_page_len_ : Z;
  buddy_prev_ : Z;
  buddy_next_ : Z;
  real_size_ : Z
}.

(** [SpanLayer], constructed at [layer_this]: [free_link_] from the front. *)
Record SpanLayer := { layer_this : Z; layer_id_ : Z; span_capacity_ : Z; free_link_ : list Z }.

(** The members of ScalableAllocator that its constructor fixes. *)
Record AllocParams := {
  config_ : ScalableConfig;
  page_mem_size_ : Z;
  span_layer_capacity_ : Z;
  uncacheable_layer_start_ : Z;
  span_layer_page_capacity_ : Z
}.

(** The sizes that Alloc and Free keep. *)
Record AllocStats := {
  alloc_succ_count_ : Z;
  free_succ_count_ : Z;
  theory_size_ : Z;
  theory_min_size_ : Z;
  real_theory_size_ : Z;
  real_theory_min_size_ : Z
}.

(** The members that change, with the free elements of the two object allocators
    and the spans that are constructed. *)
Record AllocState := {
  stats : AllocStats;
  occupied_spans_ : list Z;
  span_layers_ : gmap Z SpanLayer;
  span_layer_ids_ : list Z;
  base_addr_ : Z;
  is_fix_sized_ : bool;
  layer_elems : list Z;
  span_elems : list Z;
  spans : gmap Z PageSpan
}.
End Data.

(** [ScalableAllocator::ScalableAllocator]. *)
Definition AllocParams_new (cfg : ScalableConfig) : AllocParams := {|
  config_ := cfg;
  page_mem_size_ := PageLen_GetMemSize 1 (page_idem_num cfg);
  span_layer_capacity_ :=
    u32 (1 + SpanLayerId_GetIdFromSize (page_mem_size_total_threshold cfg) (page_idem_num cfg));
  uncacheable_layer_start_ := SpanLayerId_GetIdFromSize (uncacheable_size_threshold cfg) (page_idem_num cfg);
  span_layer_page_capacity_ := PageLen_GetLenFromSize (page_mem_size_total_threshold cfg) (page_idem_num cfg)
|}.

(** * The external world: [new (std::nothrow)] of the two object allocators, which
    returns an address or a null pointer; for the memory pool, the clock and the
    condition variable; and the calls that other threads make on the pool while no
    thread holds its mutex. *)
Inductive Elem := SpanElem | LayerElem.
Inductive PoolCall := PcAlloc (size : Z) | PcFree (addr : Z).
Inductive AlOp : Type -> Type :=
| NewElement (k : Elem) : AlOp Z
| SteadyClockNow : AlOp Z
| CvWaitUntil (tp : Z) : AlOp bool
| OtherThreads : AlOp (list PoolCall).

(** * SpanLayer and SpanLayerQuickLut *)
Definition set_free_link (ps : list Z) (l : SpanLayer) : SpanLayer :=
  {| layer_this := layer_this l; layer_id_ := layer_id_ l; span_capacity_ := span_capacity_ l; free_link_ := ps |}.
Definition SpanLayer_PushSpan (p : Z) (l : SpanLayer) : SpanLayer := set_free_link (p :: free_link_ l) l.
Definition SpanLayer_PopSpan (l : SpanLayer) : Z * SpanLayer :=
  match free_link_ l with
  | [] => (nullptr, l)
  | p :: ps => (p, set_free_link ps l)
  end.
Definition SpanLayer_Remove (p : Z) (l : SpanLayer) : SpanLayer :=
  set_free_link (filter (fun q => q <> p) (free_link_ l)) l.
Definition SpanLayer_GetSize (l : SpanLayer) : Z := Z.of_nat (length (free_link_ l)).
Definition SpanLayer_IsEmpty (l : SpanLayer) : bool := SpanLayer_GetSize l =? 0.

(** [std::set<SpanLayerId>] in increasing order. *)
Fixpoint ids_emplace (x : Z) (ids : list Z) : list Z :=
  match ids with
  | [] => [x]
  | y :: ids' => if x <? y then x :: ids else if x =? y then ids else y :: ids_emplace x ids'
  end.
Definition ids_erase (x : Z) (ids : list Z) : list Z := filter (fun y => y <> x) ids.

Definition OnLayerAddSpan (l : SpanLayer) (ids : list Z) : list Z :=
  if SpanLayer_GetSize l =? 1 then ids_emplace (layer_id_ l) ids else ids.
Definition OnLayerRemoveSpan (l : SpanLayer) (ids : list Z) : list Z :=
  if SpanLayer_IsEmpty l then ids_erase (layer_id_ l) ids else ids.
Definition FindFitLayerId (page_len max_lift_level : Z) (ids : list Z) : Z :=
  if max_lift_level =? 0 then SPAN_LAYER_ID_INVALID
  else match (span_while (fun y => y <? page_len) ids).2 with
       | [] => SPAN_LAYER_ID_INVALID
       | y :: _ => y
       end.

(** * ScalableAllocator *)
Section Allocator.
Context `{Bk : MemBlockApi} `{Gs : GeStatus} `{env : Environment AlOp}.
Context (K : AllocParams).

Let A := M AlOp AllocState.
Let page_idem : Z := page_idem_num (config_ K).

(** Assignments to the members. *)
Definition set_stats (f : AllocStats -> AllocStats) (s : AllocState) : AllocState :=
  {| stats := f (stats s); occupied_spans_ := occupied_spans_ s; span_layers_ := span_layers_ s;
     span_layer_ids_ := span_layer_ids_ s; base_addr_ := base_addr_ s; is_fix_sized_ := is_fix_sized_ s;
     layer_elems := layer_elems s; span_elems := span_elems s; spans := spans s |}.
Definition set_occupied (l : list Z) (s : AllocState) : AllocState :=
  {| stats := stats s; occupied_spans_ := l; span_layers_ := span_layers_ s;
     span_layer_ids_ := span_layer_ids_ s; base_addr_ := base_addr_ s; is_fix_sized_ := is_fix_sized_ s;
     layer_elems := layer_elems s; span_elems := span_elems s; spans := spans s |}.
Definition set_layers (ls : gmap Z SpanLayer) (ids : list Z) (s : AllocState) : AllocState :=
  {| stats := stats s; occupied_spans_ := occupied_spans_ s; span_layers_ := ls;
     span_layer_ids_ := ids; base_addr_ := base_addr_ s; is_fix_sized_ := is_fix_sized_ s;
     layer_elems := layer_elems s; span_elems := span_elems s; spans := spans s |}.
Definition set_base (base : Z) (fix_sized : bool) (s : AllocState) : AllocState :=
  {| stats := stats s; occupied_spans_ := occupied_spans_ s; span_layers_ := span_layers_ s;
     span_layer_ids_ := span_layer_ids_ s; base_addr_ := base; is_fix_sized_ := fix_sized;
     layer_elems := layer_elems s; span_elems := span_elems s; spans := spans s |}.
Definition set_layer_elems (l : list Z) (s : AllocState) : AllocState :=
  {| stats := stats s; occupied_spans_ := occupied_spans_ s; span_layers_ := span_layers_ s;
     span_layer_ids_ := span_layer_ids_ s; base_addr_ := base_addr_ s; is_fix_sized_ := is_fix_sized_ s;
     layer_elems := l; span_elems := span_elems s; spans := spans s |}.
Definition set_spans (l : list Z) (m : gmap Z PageSpan) (s : AllocState) : AllocState :=
  {| stats := stats s; occupied_spans_ := occupied_spans_ s; span_layers_ := span_layers_ s;
     span_layer_ids_ := span_layer_ids_ s; base_addr_ := base_addr_ s; is_fix_sized_ := is_fix_sized_ s;
     layer_elems := layer_elems s; span_elems := l; spans := m |}.

(** Use of a pointer to a span: there must be one. *)
Definition span_at (p : Z) : A PageSpan :=
  let* s := get in
  match spans s !! p with Some sp => ret sp | None => stuck end.
Definition span_set (p : Z) (sp : PageSpan) : A unit :=
  modify (fun s => set_spans (span_elems s) (<[p := sp]> (spans s)) s).
Definition span_update (p : Z) (f : PageSpan -> PageSpan) : A unit :=
  let* sp := span_at p in span_set p (f sp).

(** [span_layers_[layer_id]]: the index must be in range. *)
Definition span_layer (layer_id : Z) : A (option SpanLayer) :=
  let* s := get in
  if (0 <=? layer_id) && (layer_id <? span_layer_capacity_ K) then ret (span_layers_ s !! layer_id)
  else stuck.

(** [p] is on a list: it may not be pushed on another, nor destroyed. *)
Definition on_some_list (p : Z) (s : AllocState) : bool :=
  bool_decide (p ∈ occupied_spans_ s) ||
  existsb (fun l => bool_decide (p ∈ free_link_ l)) (map_to_list (span_layers_ s)).*2.

(** ** ObjectAllocator *)

(** The constructor: [capacity] elements, less those that cannot be allocated. *)
Fixpoint ObjectAllocator_new (k : Elem) (capacity : nat) : A (list Z) :=
  match capacity with
  | O => ret []
  | S capacity =>
      let* elem := call (NewElement k) in
      let* elems := ObjectAllocator_new k capacity in
      ret (if is_null elem then elems else elem :: elems)
  end.

Definition ObjectAllocator_AllocSpan : A Z :=
  let* s := get in
  match span_elems s with
  | p :: ps => modify (set_spans ps (spans s)) ;; ret p
  | [] => call (NewElement SpanElem)
  end.
Definition ObjectAllocator_AllocLayer : A Z :=
  let* s := get in
  match layer_elems s with
  | p :: ps => modify (set_layer_elems ps) ;; ret p
  | [] => call (NewElement LayerElem)
  end.
Definition SpanAllocator_Free (p : Z) : A unit :=
  let* _ := span_at p in
  let* s := get in
  (if on_some_list p s then stuck else ret tt) ;;
  modify (fun s => set_spans (p :: span_elems s) (delete p (spans s)) s).

(** ** PageSpan *)
Definition PageSpan_new (block_addr addr mem_size : Z) : PageSpan :=
  {| span_mem := mb_new addr mem_size; block_addr_ := block_addr; page_len_ := 0;
     try_split_page_len_ := 0; buddy_prev_ := nullptr; buddy_next_ := nullptr; real_size_ := 0 |}.
Definition set_mem (b : MemBlock) (sp : PageSpan) : PageSpan :=
  {| span_mem := b; block_addr_ := block_addr_ sp; page_len_ := page_len_ sp;
     try_split_page_len_ := try_split_page_len_ sp; buddy_prev_ := buddy_prev_ sp;
     buddy_next_ := buddy_next_ sp; real_size_ := real_size_ sp |}.
Definition set_page_len (len : Z) (sp : PageSpan) : PageSpan :=
  {| span_mem := span_mem sp; block_addr_ := block_addr_ sp; page_len_ := len;
     try_split_page_len_ := try_split_page_len_ sp; buddy_prev_ := buddy_prev_ sp;
     buddy_next_ := buddy_next_ sp; real_size_ := real_size_ sp |}.
Definition set_try_split (len : Z) (sp : PageSpan) : PageSpan :=
  {| span_mem := span_mem sp; block_addr_ := block_addr_ sp; page_len_ := page_len_ sp;
     try_split_page_len_ := len; buddy_prev_ := buddy_prev_ sp;
     buddy_next_ := buddy_next_ sp; real_size_ := real_size_ sp |}.
Definition SetPrev (p : Z) (sp : PageSpan) : PageSpan :=
  {| span_mem := span_mem sp; block_addr_ := block_addr_ sp; page_len_ := page_len_ sp;
     try_split_page_len_ := try_split_page_len_ sp; buddy_prev_ := p;
     buddy_next_ := buddy_next_ sp; real_size_ := real_size_ sp |}.
Definition SetNext (p : Z) (sp : PageSpan) : PageSpan :=
  {| span_mem := span_mem sp; block_addr_ := block_addr_ sp; page_len_ := page_len_ sp;
     try_split_page_len_ := try_split_page_len_ sp; buddy_prev_ := buddy_prev_ sp;
     buddy_next_ := p; real_size_ := real_size_ sp |}.
Definition SetRealSize (n : Z) (sp : PageSpan) : PageSpan :=
  {| span_mem := span_mem sp; block_addr_ := block_addr_ sp; page_len_ := page_len_ sp;
     try_split_page_len_ := try_split_page_len_ sp; buddy_prev_ := buddy_prev_ sp;
     buddy_next_ := buddy_next_ sp; real_size_ := n |}.

Definition PageSpan_GetSize (sp : PageSpan) : Z := PageLen_GetMemSize (page_len_ sp) page_idem.
Definition PageSpan_SetPageLen (len : Z) (sp : PageSpan) : PageSpan :=
  let sp := set_page_len len sp in set_mem (mb_set_size (PageSpan_GetSize sp) (span_mem sp)) sp.
Definition PageSpan_Alloc (len : Z) (sp : PageSpan) : PageSpan :=
  let sp := PageSpan_SetPageLen len sp in
  if mb_count (span_mem sp) =? 0 then set_mem (mb_add (span_mem sp)) sp else sp.

Definition SetBuddy (this buddy_span : Z) : A unit :=
  let* sp := span_at this in
  let next_buddy := buddy_next_ sp in
  (if is_null next_buddy then ret tt else span_update next_buddy (SetPrev buddy_span)) ;;
  span_update this (SetNext buddy_span) ;;
  span_update buddy_span (SetNext next_buddy) ;;
  span_update buddy_span (SetPrev this).

Definition MergeBuddy (this buddy_span : Z) : A unit :=
  let* sp := span_at this in
  let* b := span_at buddy_span in
  if (buddy_next_ sp =? buddy_span) && (buddy_prev_ b =? this) then
    let next_of_buddy := buddy_next_ b in
    (if is_null next_of_buddy then ret tt else span_update next_of_buddy (SetPrev this)) ;;
    span_update this (SetNext next_of_buddy) ;;
    let* b := span_at buddy_span in
    span_update this (fun sp => set_page_len (u32 (page_len_ sp + page_len_ b)) sp) ;;
    let* sp := span_at this in
    if is_null (buddy_prev_ sp) && is_null (buddy_next_ sp) then span_update this (set_try_split 0)
    else ret tt
  else ret tt.

(** ** Spans on the layers *)
(** [SpanLayer::PopSpan] on the layer object. *)
Definition layer_pop (layer_id : Z) : A Z :=
  let* l := span_layer layer_id in
  match l with
  | None => stuck
  | Some l =>
      let '(p, l') := SpanLayer_PopSpan l in
      modify (fun s => set_layers (<[layer_id := l']> (span_layers_ s)) (span_layer_ids_ s) s) ;;
      ret p
  end.

Definition PopSpanFromLayer (layer_id : Z) : A Z :=
  let* p := layer_pop layer_id in
  let* l := span_layer layer_id in
  match l with
  | None => stuck
  | Some l => modify (fun s => set_layers (span_layers_ s) (OnLayerRemoveSpan l (span_layer_ids_ s)) s) ;; ret p
  end.

Definition PushSpanToLayer (layer_id : Z) (p : Z) : A unit :=
  let* l := span_layer layer_id in
  let* s := get in
  match l with
  | None => stuck
  | Some l =>
      if on_some_list p s then stuck
      else
        let l' := SpanLayer_PushSpan p l in
        modify (fun s => set_layers (<[layer_id := l']> (span_layers_ s))
                           (OnLayerAddSpan l' (span_layer_ids_ s)) s)
  end.

Definition RemoveFromLayer (layer_id : Z) (p : Z) : A unit :=
  let* l := span_layer layer_id in
  match l with
  | None => stuck
  | Some l =>
      if bool_decide (p ∈ free_link_ l) then
        let l' := SpanLayer_Remove p l in
        modify (fun s => set_layers (<[layer_id := l']> (span_layers_ s))
                           (OnLayerRemoveSpan l' (span_layer_ids_ s)) s)
      else stuck
  end.

Definition OccupySpan (p page_len : Z) : A unit :=
  span_update p (PageSpan_Alloc page_len) ;;
  let* s := get in
  (if on_some_list p s then stuck else ret tt) ;;
  modify (fun s => set_occupied (p :: occupied_spans_ s) s) ;;
  modify (set_stats (fun t =>
    {| alloc_succ_count_ := u64 (alloc_succ_count_ t + 1); free_succ_count_ := free_succ_count_ t;
       theory_size_ := theory_size_ t; theory_min_size_ := theory_min_size_ t;
       real_theory_size_ := real_theory_size_ t; real_theory_min_size_ := real_theory_min_size_ t |})).

(** ** Allocation *)
Definition GetAllocSize (size : Z) : Z :=
  if size <? page_mem_size_ K then page_mem_size_ K else MemSize_GetAlignedOf size (page_mem_size_ K).

Definition GetlayerSpanCapacity (layer_id : Z) : Z :=
  if (uncacheable_layer_start_ K <=? layer_id) || (layer_id =? 0) then 0
  else Z.min (span_layer_page_capacity_ K / layer_id) (u32 (span_count_in_layer_threshold (config_ K))).

(** [span_layers_.empty()]. *)
Definition layers_empty : bool := span_layer_capacity_ K =? 0.

Definition FetchLayerSpan (layer_id : Z) : A Z :=
  if layers_empty then ret nullptr else
  let* l := span_layer layer_id in
  match l with
  | None => ret nullptr
  | Some _ =>
      let* span := PopSpanFromLayer layer_id in
      if is_null span then ret span
      else OccupySpan span layer_id ;; ret span
  end.

Definition BlockAlloc (block_addr addr size : Z) : A Z :=
  let* mem := ObjectAllocator_AllocSpan in
  if is_null mem then ret nullptr
  else span_set mem (PageSpan_new block_addr addr size) ;; ret mem.

(** The layer pointer is its identifier. *)
Definition FetchSpanLayer (layer_id : Z) : A (option Z) :=
  if layers_empty || (span_layer_capacity_ K <=? layer_id) then ret None else
  let* l := span_layer layer_id in
  match l with
  | Some _ => ret (Some layer_id)
  | None =>
      let* mem := ObjectAllocator_AllocLayer in
      if is_null mem then ret None
      else
        let new_layer := {| layer_this := mem; layer_id_ := layer_id; span_capacity_ := GetlayerSpanCapacity layer_id; free_link_ := [] |} in
        modify (fun s => set_layers (<[layer_id := new_layer]> (span_layers_ s)) (span_layer_ids_ s) s) ;;
        ret (Some layer_id)
  end.

Definition SplitSpan (fix_layer_id fit_layer_id span size : Z) : A Z :=
  let source_layer := fit_layer_id in
  let left_page_len := u32 (fit_layer_id - fix_layer_id) in
  let* sp := span_at span in
  let buddy_addr := PageLen_ForwardAddr left_page_len page_idem (mb_addr (span_mem sp)) in
  let* buddy_span := BlockAlloc nullptr buddy_addr size in
  if is_null buddy_span then PushSpanToLayer source_layer span ;; ret nullptr else
  let* layer := FetchSpanLayer left_page_len in
  match layer with
  | None =>
      SpanAllocator_Free buddy_span ;;
      PushSpanToLayer source_layer span ;;
      ret nullptr
  | Some layer =>
      SetBuddy span buddy_span ;;
      span_update span (PageSpan_SetPageLen left_page_len) ;;
      PushSpanToLayer layer span ;;
      OccupySpan buddy_span fix_layer_id ;;
      ret buddy_span
  end.

Definition FetchSplitedSpan (fix_layer_id fit_layer_id size : Z) : A Z :=
  if layers_empty || (fit_layer_id <=? fix_layer_id) then ret nullptr else
  let* l := span_layer fit_layer_id in
  match l with
  | None => ret nullptr
  | Some _ =>
      let* span := PopSpanFromLayer fit_layer_id in
      if is_null span then ret nullptr
      else SplitSpan fix_layer_id fit_layer_id span size
  end.

Definition AllocImp (size : Z) : A Z :=
  let alloc_size := GetAllocSize size in
  let fix_layer_id := SpanLayerId_GetIdFromSize alloc_size page_idem in
  if span_layer_capacity_ K <=? fix_layer_id then ret nullptr else
  let* span := FetchLayerSpan fix_layer_id in
  let* span :=
    if is_null span then
      let* s := get in
      let fit_layer_id :=
        FindFitLayerId (u32 (fix_layer_id + 1)) (span_layer_lift_max (config_ K)) (span_layer_ids_ s) in
      if span_layer_capacity_ K <=? fit_layer_id then ret nullptr
      else FetchSplitedSpan fix_layer_id fit_layer_id alloc_size
    else ret span in
  if is_null span then ret span
  else span_update span (SetRealSize size) ;; ret span.

Definition ScalableAllocator_Alloc (size : Z) : A Z :=
  if page_mem_size_total_threshold (config_ K) <? size then ret nullptr else
  let* span := AllocImp size in
  if is_null span then ret span else
  let* sp := span_at span in
  modify (set_stats (fun t =>
    let theory := u64 (theory_size_ t + PageSpan_GetSize sp) in
    let real := u64 (real_theory_size_ t + real_size_ sp) in
    {| alloc_succ_count_ := alloc_succ_count_ t; free_succ_count_ := free_succ_count_ t;
       theory_size_ := theory;
       theory_min_size_ := if theory_min_size_ t <? theory then theory else theory_min_size_ t;
       real_theory_size_ := real;
       real_theory_min_size_ := if real_theory_min_size_ t <? real then real else real_theory_min_size_ t |})) ;;
  ret span.

(** ** Release *)
Definition PickOutBuddy (buddy_span : Z) : A Z :=
  if layers_empty || is_null buddy_span then ret nullptr else
  let* b := span_at buddy_span in
  if negb (mb_count (span_mem b) =? 0) then ret nullptr else
  let page_len := page_len_ b in
  if span_layer_capacity_ K <=? page_len then ret nullptr else
  let* l := span_layer page_len in
  match l with
  | None => ret nullptr
  | Some _ => RemoveFromLayer page_len buddy_span ;; ret buddy_span
  end.

Definition TryMergePrev (span : Z) : A Z :=
  let* sp := span_at span in
  let* prev_buddy := PickOutBuddy (buddy_prev_ sp) in
  if is_null prev_buddy then ret span
  else MergeBuddy prev_buddy span ;; SpanAllocator_Free span ;; ret prev_buddy.

Definition TryMergeNext (span : Z) : A Z :=
  let* sp := span_at span in
  let* next_buddy := PickOutBuddy (buddy_next_ sp) in
  if is_null next_buddy then ret span
  else MergeBuddy span next_buddy ;; SpanAllocator_Free next_buddy ;; ret span.

Definition FreeSpan (span : Z) : A unit :=
  let* sp := span_at span in
  let* layer := FetchSpanLayer (page_len_ sp) in
  match layer with
  | None => ret tt
  | Some layer =>
      PushSpanToLayer layer span ;;
      modify (set_stats (fun t =>
        {| alloc_succ_count_ := alloc_succ_count_ t; free_succ_count_ := u64 (free_succ_count_ t + 1);
           theory_size_ := theory_size_ t; theory_min_size_ := theory_min_size_ t;
           real_theory_size_ := real_theory_size_ t; real_theory_min_size_ := real_theory_min_size_ t |}))
  end.

Definition ScalableAllocator_Free (block : Z) : A unit :=
  if is_null block then ret tt else
  let* sp := span_at block in
  modify (set_stats (fun t =>
    if real_size_ sp <=? theory_size_ t then
      {| alloc_succ_count_ := alloc_succ_count_ t; free_succ_count_ := free_succ_count_ t;
         theory_size_ := u64 (theory_size_ t - PageSpan_GetSize sp); theory_min_size_ := theory_min_size_ t;
         real_theory_size_ := u64 (real_theory_size_ t - real_size_ sp);
         real_theory_min_size_ := real_theory_min_size_ t |}
    else t)) ;;
  let* s := get in
  (if bool_decide (block ∈ occupied_spans_ s)
   then modify (set_occupied (filter (fun q => q <> block) (occupied_spans_ s)))
   else stuck) ;;
  let* span := TryMergeNext block in
  let* span := TryMergePrev span in
  FreeSpan span.

(** [ge::MemBlock::Free]: the last reference goes back through the allocator. *)
Definition MemBlock_Free (block : Z) : A unit :=
  let* sp := span_at block in
  let '(b, last) := mb_release (span_mem sp) in
  span_set block (set_mem b sp) ;;
  if last : bool then ScalableAllocator_Free block else ret tt.

(** ** Initialisation and end *)

(** [while (span->GetCount() > 0U) { span->SubCount(); }] *)
Fixpoint drop_count (fuel : nat) (span : Z) : A unit :=
  match fuel with
  | O => stuck
  | S fuel =>
      let* sp := span_at span in
      if 0 <? mb_count (span_mem sp) then
        span_set span (set_mem (mb_sub (span_mem sp)) sp) ;; drop_count fuel span
      else ret tt
  end.

(** As many rounds as references, and one to see that none is left. *)
Definition drop_fuel (sp : PageSpan) : nat := S (Z.to_nat (mb_count (span_mem sp))).

Definition InitFixSizedAllocator (base_addr size : Z) : A unit :=
  let* s := get in
  modify (set_base (base_addr_ s) true) ;;
  let* span := BlockAlloc nullptr base_addr size in
  require (negb (is_null span)) ge_FAILED ;;
  on_fail
    (let* sp := span_at span in
     modify (fun s => set_base (mb_addr (span_mem sp)) (is_fix_sized_ s) s) ;;
     drop_count (drop_fuel sp) span ;;
     let fit_layer_id := SpanLayerId_GetIdFromSize size page_idem in
     let* layer := FetchSpanLayer fit_layer_id in
     match layer with
     | None => fail ge_FAILED
     | Some layer => PushSpanToLayer layer span
     end)
    (SpanAllocator_Free span).

(** [SpanLayer::Release]: pop the spans until the layer is empty. *)
Definition SpanLayer_Release (layer_id : Z) (l : SpanLayer) : A unit :=
  for_each (free_link_ l) (fun _ =>
    let* span := layer_pop layer_id in
    if is_null span then ret tt else SpanAllocator_Free span).

(** The layers that exist, in the order of [span_layers_]. *)
Definition layers_in_order (s : AllocState) : list (Z * SpanLayer) :=
  merge_sort (fun a b => Is_true (a.1 <=? b.1)) (map_to_list (span_layers_ s)).

Definition Lut_Release : A unit :=
  let* s := get in
  for_each (layers_in_order s) (fun '(layer_id, l) => SpanLayer_Release layer_id l) ;;
  modify (fun s => set_layers (span_layers_ s) [] s).

Definition Finalize : A unit :=
  let* s := get in
  if negb layers_empty && bool_decide (occupied_spans_ s = []) then
    Lut_Release ;;
    let* s := get in
    for_each (layers_in_order s) (fun '(layer_id, l) =>
      modify (fun s => set_layer_elems (layer_this l :: layer_elems s)
                         (set_layers (delete layer_id (span_layers_ s)) (span_layer_ids_ s) s)))
  else ret tt.
End Allocator.
