(* ===== verification/SpanAllocatorSpec.v ===== *)
(** The abstract view of the page allocator and the lemmas about its operations:
    the region is a sequence of blocks in address order, each free, in use, or in the
    hands of a running operation; the layers, the lookup table, the occupied list,
    the buddy links and the span objects follow from it ([Inv]). *)
From S2P Require Import Prelude External Effects SpanAllocator.

(** * Blocks *)

(** In the hand of an operation, a block keeps the reference count of its span. *)
Inductive BState := BFree | BHand (count : Z) | BUsed (real_size : Z).
#[export] Instance BState_eq_dec : EqDecision BState.
Proof. solve_decision. Defined.

Record Blk := { b_ptr : Z; b_len : Z; b_plen : Z; b_state : BState }.

Definition b_count (st : BState) : Z :=
  match st with BFree => 0 | BHand c => c | BUsed _ => 1 end.
Definition with_state (st : BState) (b : Blk) : Blk :=
  {| b_ptr := b_ptr b; b_len := b_len b; b_plen := b_plen b; b_state := st |}.

Definition ptrs (bs : list Blk) : list Z := List.map b_ptr bs.
Definition sum_len (bs : list Blk) : Z := foldr (fun b n => b_len b + n) 0 bs.
Definition hd_ptr (next : Z) (bs : list Blk) : Z := match bs with [] => next | b :: _ => b_ptr b end.
Definition last_ptr (prev : Z) (bs : list Blk) : Z := foldl (fun _ b => b_ptr b) prev bs.

Definition is_free (b : Blk) : bool := bool_decide (b_state b = BFree).
Definition used_ptrs (bs : list Blk) : list Z :=
  omap (fun b => match b_state b with BUsed _ => Some (b_ptr b) | _ => None end) bs.

(** [p] is a free block of [id] pages. *)
Definition free_at (bs : list Blk) (p id : Z) : Prop :=
  exists b, b ∈ bs /\ b_ptr b = p /\ b_state b = BFree /\ b_len b = id.

Section Blocks.
Implicit Types (b : Blk) (bs : list Blk).

Lemma ptrs_app bs1 bs2 : ptrs (bs1 ++ bs2) = ptrs bs1 ++ ptrs bs2.
Proof. apply List.map_app. Qed.
Lemma sum_len_app bs1 bs2 : sum_len (bs1 ++ bs2) = sum_len bs1 + sum_len bs2.
Proof. induction bs1 as [|b bs1 IH]; simpl; [done|]. rewrite IH. lia. Qed.
Lemma hd_ptr_app next bs1 bs2 : hd_ptr next (bs1 ++ bs2) = hd_ptr (hd_ptr next bs2) bs1.
Proof. by destruct bs1. Qed.
Lemma last_ptr_app prev bs1 bs2 : last_ptr prev (bs1 ++ bs2) = last_ptr (last_ptr prev bs1) bs2.
Proof. apply foldl_app. Qed.

Lemma elem_ptrs p bs : p ∈ ptrs bs <-> exists b, b ∈ bs /\ b_ptr b = p.
Proof.
  unfold ptrs. rewrite list_elem_of_In, List.in_map_iff. setoid_rewrite <- list_elem_of_In. naive_solver.
Qed.

Lemma elem_used p bs : p ∈ used_ptrs bs <-> exists b n, b ∈ bs /\ b_ptr b = p /\ b_state b = BUsed n.
Proof.
  unfold used_ptrs. rewrite list_elem_of_omap. split.
  - intros (b & Hb & He). destruct (b_state b) eqn:E; simplify_eq. eauto.
  - intros (b & n & Hb & <- & He). exists b. by rewrite He.
Qed.

(** The blocks around a focus. *)
Lemma ptrs_focus L b R : NoDup (ptrs (L ++ b :: R)) -> b_ptr b ∉ ptrs L /\ b_ptr b ∉ ptrs R.
Proof.
  rewrite ptrs_app. simpl. intros (_ & H1 & H2)%NoDup_app. apply NoDup_cons in H2 as [H2 _].
  split; [|done]. intros H. apply (H1 _ H). by left.
Qed.

Lemma ptr_focus_unique L b R b' :
  NoDup (ptrs (L ++ b :: R)) -> b' ∈ L ++ b :: R -> b_ptr b' = b_ptr b -> b' = b.
Proof.
  intros Hd Hb Hp. apply ptrs_focus in Hd as [H1 H2].
  apply elem_of_app in Hb as [Hb|[->|Hb]%elem_of_cons]; [|done|].
  - destruct H1. apply elem_ptrs. eauto.
  - destruct H2. apply elem_ptrs. eauto.
Qed.

Lemma free_at_focus L b R p id :
  NoDup (ptrs (L ++ b :: R)) ->
  free_at (L ++ b :: R) p id <->
  (p <> b_ptr b /\ free_at (L ++ R) p id) \/ (p = b_ptr b /\ b_state b = BFree /\ b_len b = id).
Proof.
  intros Hd. split.
  - intros (b' & Hb & <- & Hs & Hl). destruct (decide (b_ptr b' = b_ptr b)) as [Heq|Hne].
    + right. rewrite (ptr_focus_unique _ _ _ _ Hd Hb Heq) in *. done.
    + left. split; [done|]. exists b'. split_and!; [|done..].
      apply elem_of_app in Hb as [Hb|[->|Hb]%elem_of_cons]; [|done|]; set_solver.
  - intros [(_ & b' & Hb & Hrest)|(-> & Hs & Hl)].
    + exists b'. split; [set_solver|done].
    + exists b. split; [set_solver|done].
Qed.

Lemma free_at_skip L b R p id :
  b_state b <> BFree -> free_at (L ++ b :: R) p id <-> free_at (L ++ R) p id.
Proof.
  intros Hb. unfold free_at. split; intros (c & Hc & Hp & Hs & Hl); exists c; (split; [|done]).
  - apply elem_of_app in Hc as [Hc|[->|Hc]%elem_of_cons]; [|done|]; apply elem_of_app; auto.
  - apply elem_of_app in Hc as [Hc|Hc]; apply elem_of_app; [by left|right; by right].
Qed.

Lemma free_at_functional bs p i j : NoDup (ptrs bs) -> free_at bs p i -> free_at bs p j -> i = j.
Proof.
  intros Hd (b & Hb & Hp & _ & <-) (b' & Hb' & Hp' & _ & <-).
  apply list_elem_of_split in Hb as (L & R & ->).
  f_equal. symmetry. apply (ptr_focus_unique L b R); [done|done|congruence].
Qed.

Lemma used_ptrs_app bs1 bs2 : used_ptrs (bs1 ++ bs2) = used_ptrs bs1 ++ used_ptrs bs2.
Proof. apply omap_app. Qed.
End Blocks.

(** * The spans of the blocks, linked as buddies *)
Section Chain.
Context `{Bk : MemBlockApi} {BkL : MemBlockLaws Bk} (page : Z).
Implicit Types (m : gmap Z PageSpan) (b : Blk) (bs L R : list Blk).

(** A free span whose length was never set is alone in the region. *)
Definition plen_ok (b : Blk) (prev next : Z) : Prop :=
  match b_state b with
  | BHand _ => True
  | BFree => b_plen b = b_len b \/ (b_plen b = 0 /\ prev = nullptr /\ next = nullptr)
  | BUsed _ => b_plen b = b_len b
  end.

Record span_ok (sp : PageSpan) (prev addr : Z) (b : Blk) (next : Z) : Prop := {
  so_prev : buddy_prev_ sp = prev;
  so_next : buddy_next_ sp = next;
  so_addr : mb_addr (span_mem sp) = addr;
  so_count : mb_count (span_mem sp) = b_count (b_state b);
  so_page_len : page_len_ sp = b_plen b;
  so_plen : plen_ok b prev next;
  so_real n : b_state b = BUsed n -> real_size_ sp = n;
  so_pos : 0 < b_len b
}.

Fixpoint chain m (prev addr : Z) (bs : list Blk) (next : Z) : Prop :=
  match bs with
  | [] => True
  | b :: bs' =>
      (exists sp, m !! b_ptr b = Some sp /\ span_ok sp prev addr b (hd_ptr next bs')) /\
      chain m (b_ptr b) (addr + page * b_len b) bs' next
  end.

Lemma chain_app m prev addr bs1 bs2 next :
  chain m prev addr (bs1 ++ bs2) next <->
  chain m prev addr bs1 (hd_ptr next bs2) /\
  chain m (last_ptr prev bs1) (addr + page * sum_len bs1) bs2 next.
Proof.
  revert prev addr. induction bs1 as [|b bs1 IH]; intros prev addr; simpl.
  - rewrite Z.mul_0_r, Z.add_0_r. tauto.
  - rewrite IH, hd_ptr_app, Z.mul_add_distr_l, Z.add_assoc. tauto.
Qed.

(** A chain only depends on its own spans. *)
Lemma chain_ext m m' prev addr bs next :
  (forall p, p ∈ ptrs bs -> m' !! p = m !! p) ->
  chain m prev addr bs next -> chain m' prev addr bs next.
Proof.
  revert prev addr. induction bs as [|b bs IH]; intros prev addr Hm; simpl; [done|].
  intros [(sp & Hsp & Hok) H]. split; [|apply IH; [|done]; intros p Hp; apply Hm; by right].
  exists sp. rewrite Hm by (by left). done.
Qed.

Lemma chain_insert m prev addr bs next p sp :
  p ∉ ptrs bs -> chain m prev addr bs next -> chain (<[p := sp]> m) prev addr bs next.
Proof. intros Hp. apply chain_ext. intros q Hq. apply lookup_insert_ne. by intros ->. Qed.

Lemma chain_delete m prev addr bs next p :
  p ∉ ptrs bs -> chain m prev addr bs next -> chain (delete p m) prev addr bs next.
Proof. intros Hp. apply chain_ext. intros q Hq. apply lookup_delete_ne. by intros ->. Qed.

(** The first span gets a new predecessor, which is not null. *)
Lemma chain_set_prev m prev prev' addr b bs next sp :
  NoDup (ptrs (b :: bs)) -> m !! b_ptr b = Some sp -> prev <> nullptr ->
  chain m prev addr (b :: bs) next ->
  chain (<[b_ptr b := SetPrev prev' sp]> m) prev' addr (b :: bs) next.
Proof.
  intros [Hd _]%NoDup_cons Hsp Hne [(sp' & Hsp' & []) H]. simplify_eq. split.
  - rewrite lookup_insert_eq. eexists. split; [done|]. split; try done.
    unfold plen_ok in *. destruct (b_state b); try done. naive_solver.
  - by apply chain_insert.
Qed.
End Chain.

(** * The lists: layers, lookup table and occupied spans

    [F p id]: span [p] is free with [id] pages; [U]: the occupied spans. *)
Record lists_ok (cap : Z) (occ : list Z) (layers : gmap Z SpanLayer) (ids : list Z)
    (F : Z -> Z -> Prop) (U : list Z) : Prop := {
  lo_occ : occ ≡ₚ U;
  lo_layer id l : layers !! id = Some l ->
    layer_id_ l = id /\ 0 <= id < cap /\ NoDup (free_link_ l) /\ forall p, p ∈ free_link_ l <-> F p id;
  lo_has p id : F p id -> is_Some (layers !! id);
  lo_fun p i j : F p i -> F p j -> i = j;
  lo_disj p id : F p id -> p ∉ U /\ p <> nullptr;
  lo_sorted : StronglySorted Z.lt ids;
  lo_ids id : id ∈ ids <-> exists p, F p id
}.

Section Lists.
Context (cap : Z).
Implicit Types (occ ids U : list Z) (layers : gmap Z SpanLayer) (F : Z -> Z -> Prop).

Lemma lists_ok_ext occ layers ids F F' U U' :
  lists_ok cap occ layers ids F U -> (forall p i, F' p i <-> F p i) -> U' ≡ₚ U ->
  lists_ok cap occ layers ids F' U'.
Proof.
  intros [H1 H2 H3 H4 H5 H6 H7] HF HU. split.
  - by rewrite HU.
  - intros id l Hl. destruct (H2 id l Hl) as (? & ? & ? & Hp). split_and!; [tauto..|].
    intros p. rewrite HF. apply Hp.
  - intros p id Hp%HF. eauto.
  - intros p i j Hi%HF Hj%HF. eauto.
  - intros p id Hp%HF. rewrite HU. eauto.
  - done.
  - intros id. rewrite H7. setoid_rewrite HF. done.
Qed.

(** [std::set] operations. *)
Lemma elem_ids_emplace x y ids : y ∈ ids_emplace x ids <-> y = x \/ y ∈ ids.
Proof.
  induction ids as [|z ids IH]; simpl; [set_solver|].
  destruct (x <? z); [set_solver|]. destruct (Z.eqb_spec x z) as [->|]; set_solver.
Qed.

Lemma ids_emplace_sorted x ids : StronglySorted Z.lt ids -> StronglySorted Z.lt (ids_emplace x ids).
Proof.
  induction 1 as [|z ids Hs IH Hf]; simpl; [repeat constructor|].
  destruct (Z.ltb_spec x z).
  - constructor; [by constructor|]. constructor; [done|]. eapply Forall_impl; [done|]. simpl. lia.
  - destruct (Z.eqb_spec x z); [by constructor|]. constructor; [done|].
    rewrite Forall_forall in *. intros y [->|Hy]%elem_ids_emplace; [lia|by apply Hf].
Qed.

Lemma filter_sorted (P : Z -> Prop) `{forall x, Decision (P x)} ids :
  StronglySorted Z.lt ids -> StronglySorted Z.lt (filter P ids).
Proof.
  induction 1 as [|z ids Hs IH Hf]; [constructor|]. rewrite filter_cons.
  destruct (decide (P z)); [|done]. constructor; [done|].
  rewrite Forall_forall in *. intros y [_ Hy]%list_elem_of_filter. by apply Hf.
Qed.

(** A span leaves its layer. *)
Lemma lists_take occ layers ids F U id l p ps :
  lists_ok cap occ layers ids F U -> layers !! id = Some l -> F p id ->
  NoDup ps -> (forall q, q ∈ ps <-> q <> p /\ q ∈ free_link_ l) ->
  lists_ok cap occ (<[id := set_free_link ps l]> layers)
    (OnLayerRemoveSpan (set_free_link ps l) ids) (fun q i => F q i /\ q <> p) U.
Proof.
  intros [H1 H2 H3 H4 H5 H6 H7] Hl Hp Hnd Hps. destruct (H2 id l Hl) as (Hid & Hrange & _ & Hfree).
  assert (Hne : forall i, i <> id -> forall q, F q i -> q <> p).
  { intros i Hi q Hq ->. apply Hi. by eapply H4. }
  split; [done| | | |by naive_solver| |].
  - intros i l' [[<- <-]|[Hi Hl']]%lookup_insert_Some; simpl.
    + split_and!; [done..|lia|lia|done|]. intros q. rewrite Hps, Hfree. tauto.
    + destruct (H2 i l' Hl') as (? & ? & ? & Hf). split_and!; [done|lia|lia|done|].
      intros q. rewrite Hf. split; [|tauto]. intros Hq. split; [done|]. by eapply Hne.
  - intros q i [Hq _]. destruct (decide (i = id)) as [->|]; [rewrite lookup_insert_eq; by eexists|].
    rewrite lookup_insert_ne by done. by eapply H3.
  - intros q i j [Hi _] [Hj _]. eauto.
  - unfold OnLayerRemoveSpan. destruct (SpanLayer_IsEmpty _); [by apply filter_sorted|done].
  - intros i. unfold OnLayerRemoveSpan, SpanLayer_IsEmpty, SpanLayer_GetSize. simpl.
    destruct (Z.eqb_spec (Z.of_nat (length ps)) 0) as [Hz|Hz].
    + assert (ps = []) as -> by (destruct ps; [done|simpl in Hz; lia]).
      unfold ids_erase. rewrite list_elem_of_filter, H7, Hid. split.
      * intros (Hi & q & Hq). exists q. split; [done|]. by eapply Hne.
      * intros (q & Hq & Hqp). split; [|by eauto]. intros ->.
        assert (q ∈ @nil Z) by (apply Hps; rewrite Hfree; done). by apply elem_of_nil in H.
    + rewrite H7. split; [|naive_solver]. intros (q & Hq). destruct (decide (i = id)) as [->|Hi].
      * destruct ps as [|q' ps]; [done|]. exists q'.
        destruct (proj1 (Hps q') ltac:(by left)) as [Hq' Hq'']. by rewrite <- Hfree.
      * exists q. split; [done|]. by eapply Hne.
Qed.

(** A span joins a layer. *)
Lemma lists_put occ layers ids F U id l p :
  lists_ok cap occ layers ids F U -> layers !! id = Some l ->
  (forall i, ~ F p i) -> p ∉ U -> p <> nullptr ->
  lists_ok cap occ (<[id := SpanLayer_PushSpan p l]> layers)
    (OnLayerAddSpan (SpanLayer_PushSpan p l) ids) (fun q i => F q i \/ (q = p /\ i = id)) U.
Proof.
  intros [H1 H2 H3 H4 H5 H6 H7] Hl Hp HU Hnull. destruct (H2 id l Hl) as (Hid & Hrange & Hnd & Hfree).
  split; [done| | | | | |].
  - intros i l' [[<- <-]|[Hi Hl']]%lookup_insert_Some; simpl.
    + split_and!; [done|lia|lia| |].
      * apply NoDup_cons. split; [|done]. rewrite Hfree. apply Hp.
      * intros q. rewrite elem_of_cons, Hfree. naive_solver.
    + destruct (H2 i l' Hl') as (? & ? & ? & Hf). split_and!; [done|lia|lia|done|].
      intros q. rewrite Hf. naive_solver.
  - intros q i Hq. destruct (decide (i = id)) as [->|]; [rewrite lookup_insert_eq; by eexists|].
    rewrite lookup_insert_ne by done. destruct Hq as [Hq|[_ ?]]; [by eapply H3|done].
  - intros q i j [Hi|[-> ->]] [Hj|[Hq ->]]; subst; [eauto| | |done]; by edestruct Hp.
  - intros q i [Hq|[-> _]]; [eauto|done].
  - unfold OnLayerAddSpan. destruct (_ =? 1); [by apply ids_emplace_sorted|done].
  - intros i. unfold OnLayerAddSpan, SpanLayer_GetSize.
    destruct (Z.eqb_spec (Z.of_nat (length (free_link_ (SpanLayer_PushSpan p l)))) 1) as [Hz|Hz]; simpl in *.
    + rewrite elem_ids_emplace, H7, Hid. naive_solver.
    + rewrite H7. split; [naive_solver|]. intros (q & [Hq|[-> ->]]); [by eauto|].
      destruct (free_link_ l) as [|q ps]; [done|]. exists q. apply Hfree. by left.
Qed.

(** An empty layer is created. *)
Lemma lists_new_layer occ layers ids F U id l :
  lists_ok cap occ layers ids F U -> layers !! id = None -> 0 <= id < cap ->
  layer_id_ l = id -> free_link_ l = [] ->
  lists_ok cap occ (<[id := l]> layers) ids F U.
Proof.
  intros [H1 H2 H3 H4 H5 H6 H7] Hl Hr Hid Hf. split; try done.
  - intros i l' [[<- <-]|[Hi Hl']]%lookup_insert_Some; [|by apply H2].
    rewrite Hf. split_and!; [done|lia|lia|constructor|]. intros p. split; [by intros ?%elem_of_nil|].
    intros Hp. destruct (H3 _ _ Hp). congruence.
  - intros p i Hp. destruct (decide (i = id)) as [->|]; [rewrite lookup_insert_eq; by eexists|].
    rewrite lookup_insert_ne by done. by eapply H3.
Qed.

(** A span is occupied, and released. *)
Lemma lists_occupy occ layers ids F U p :
  lists_ok cap occ layers ids F U -> (forall i, ~ F p i) -> lists_ok cap (p :: occ) layers ids F (p :: U).
Proof.
  intros [H1 H2 H3 H4 H5 H6 H7] Hp. split; try done; [by rewrite H1|].
  intros q i Hq. destruct (H5 q i Hq) as [? ?]. split; [|done].
  intros [->|?]%elem_of_cons; [by apply (Hp i)|done].
Qed.

Lemma lists_release occ layers ids F U p :
  lists_ok cap occ layers ids F (p :: U) -> p ∉ U ->
  lists_ok cap (filter (fun q => q <> p) occ) layers ids F U.
Proof.
  intros [H1 H2 H3 H4 H5 H6 H7] Hp. split; try done.
  - rewrite H1, filter_cons_False by (intros H; by apply H).
    clear -Hp. induction U as [|q U IH]; [done|].
    rewrite filter_cons_True by (intros ->; apply Hp; by left). f_equiv. apply IH. set_solver.
  - intros q i Hq. destruct (H5 q i Hq). set_solver.
Qed.

(** A span that is neither free nor occupied is on no list. *)
Lemma not_on_some_list `{Bk : MemBlockApi} (s : AllocState) F U p :
  lists_ok cap (occupied_spans_ s) (span_layers_ s) (span_layer_ids_ s) F U ->
  (forall i, ~ F p i) -> p ∉ U -> on_some_list p s = false.
Proof.
  intros Hok HF HU. unfold on_some_list. apply orb_false_iff. split.
  - apply bool_decide_eq_false. by rewrite (lo_occ _ _ _ _ _ _ Hok).
  - destruct (existsb _ _) eqn:E; [|done]. apply existsb_exists in E as (l & Hl & Hp).
    apply bool_decide_eq_true in Hp. apply list_elem_of_In, list_elem_of_fmap in Hl as ([id l'] & -> & Hl).
    apply elem_of_map_to_list in Hl. apply (lo_layer _ _ _ _ _ _ Hok) in Hl as (_ & _ & _ & Hf).
    by apply Hf, HF in Hp.
Qed.
End Lists.

(** * The invariant *)

(** [p] was returned by [new] in the history. *)
Definition given (h : History AlOp) (p : Z) : Prop := exists k, Ev (NewElement k) p ∈ h.

(** [new] returns a null pointer or an address that was never returned before
    (elements are only deleted at the end). *)
Definition news_fresh (env : Environment AlOp) : Prop :=
  forall k h, let p := reply_of (Environment := env) Z (NewElement k) h in p = nullptr \/ ~ given h p.

(** Layer objects can always be allocated. *)
Definition layers_available (env : Environment AlOp) : Prop :=
  forall h, reply_of (Environment := env) Z (NewElement LayerElem) h <> nullptr.

(** Some allocation of a span object fails. *)
Definition span_new_fails (env : Environment AlOp) : Prop :=
  exists h, reply_of (Environment := env) Z (NewElement SpanElem) h = nullptr.

(** The page size of [LlmMemPool::Initialize], and fewer pages than a [PageLen]
    can count. *)
Definition config_ok (cfg : ScalableConfig) : Prop :=
  10 <= page_idem_num cfg <= 30 /\ 0 <= page_mem_size_total_threshold cfg /\
  page_mem_size_total_threshold cfg / 2 ^ page_idem_num cfg < UINT32_MAX.

Section Invariant.
Context `{Bk : MemBlockApi} {BkL : MemBlockLaws Bk} `{env : Environment AlOp}.
Context (cfg : ScalableConfig) (base N : Z).

Definition page : Z := 2 ^ page_idem_num cfg.
Definition cap : Z := span_layer_capacity_ (AllocParams_new cfg).

(** [ex]: spans that are constructed but not part of the region (a new buddy, a
    merged one); [T]: the two running totals. *)
Record Inv (s : AllocState) (h : History AlOp) (bs : list Blk) (ex : list (Z * PageSpan))
    (T : Z * Z) : Prop := {
  i_chain : chain page (spans s) nullptr base bs nullptr;
  i_ptrs : NoDup (ptrs bs ++ ex.*1);
  i_null : nullptr ∉ ptrs bs ++ ex.*1;
  i_dom p : is_Some (spans s !! p) <-> p ∈ ptrs bs ++ ex.*1;
  i_ex p sp : (p, sp) ∈ ex -> spans s !! p = Some sp;
  i_len : sum_len bs = N;
  i_lists : lists_ok cap (occupied_spans_ s) (span_layers_ s) (span_layer_ids_ s)
              (free_at bs) (used_ptrs bs);
  i_elems : NoDup (span_elems s) /\ nullptr ∉ span_elems s /\
            forall p, p ∈ span_elems s -> p ∉ ptrs bs ++ ex.*1;
  i_hist p : p ∈ span_elems s ++ ptrs bs ++ ex.*1 -> given h p;
  i_layer_elems : nullptr ∉ layer_elems s;
  i_totals : theory_size_ (stats s) = T.1 /\ real_theory_size_ (stats s) = T.2
}.

Implicit Types (s : AllocState) (h : History AlOp) (b : Blk) (L R bs : list Blk) (T : Z * Z)
  (ex : list (Z * PageSpan)).

Lemma given_mono h e p : given h p -> given (e :: h) p.
Proof. intros [k' Hk]. exists k'. by right. Qed.

Lemma Inv_history s h bs ex T e : Inv s h bs ex T -> Inv s (e :: h) bs ex T.
Proof. intros []. split; try done. intros p Hp. apply given_mono. eauto. Qed.

Lemma chain_pos m prev addr bs next b : chain page m prev addr bs next -> b ∈ bs -> 0 < b_len b.
Proof.
  revert prev addr. induction bs as [|c bs IH]; intros prev addr; [by intros _ ?%elem_of_nil|].
  simpl. intros [(sp & _ & []) H] [->|Hb]%elem_of_cons; [done|]. by eapply IH.
Qed.

Lemma Inv_focus s h L b R ex T :
  Inv s h (L ++ b :: R) ex T ->
  exists sp, spans s !! b_ptr b = Some sp /\
    span_ok sp (last_ptr nullptr L) (base + page * sum_len L) b (hd_ptr nullptr R).
Proof. intros HI. apply i_chain, chain_app in HI as [_ [H _]]. done. Qed.

Lemma Inv_nodup s h bs ex T : Inv s h bs ex T -> NoDup (ptrs bs).
Proof. intros HI. apply i_ptrs in HI. by apply NoDup_app in HI as (? & _ & _). Qed.

Lemma Inv_ptr_not_null s h bs ex T b : Inv s h bs ex T -> b ∈ bs -> b_ptr b <> nullptr.
Proof.
  intros HI Hb Heq. apply (i_null _ _ _ _ _ HI). apply elem_of_app. left. apply elem_ptrs. eauto.
Qed.

Lemma last_ptr_elem prev bs : last_ptr prev bs = prev \/ exists b, b ∈ bs /\ last_ptr prev bs = b_ptr b.
Proof.
  unfold last_ptr. revert prev. induction bs as [|b bs IH]; intros prev; simpl; [by left|]. right.
  destruct (IH (b_ptr b)) as [->|(c & Hc & ->)]; [exists b|exists c]; split; set_solver.
Qed.

(** A free span of unknown length is the whole region. *)
Lemma Inv_free_plen s h L b R ex T :
  Inv s h (L ++ b :: R) ex T -> b_state b = BFree ->
  b_plen b = b_len b \/ (b_plen b = 0 /\ L = [] /\ R = []).
Proof.
  intros HI Hf. destruct (Inv_focus _ _ _ _ _ _ _ HI) as (sp & _ & Hok).
  pose proof (so_plen _ _ _ _ _ Hok) as Hp. unfold plen_ok in Hp. rewrite Hf in Hp.
  destruct Hp as [?|(H0 & H1 & H2)]; [by left|right]. split; [done|]. split.
  - destruct (decide (L = [])) as [|Hne]; [done|]. destruct (exists_last Hne) as (L' & c & ->).
    rewrite last_ptr_app in H1. simpl in H1. exfalso.
    eapply Inv_ptr_not_null; [exact HI| |exact H1]. set_solver.
  - destruct R as [|c R]; [done|]. simpl in H2. exfalso.
    eapply Inv_ptr_not_null; [exact HI| |exact H2]. set_solver.
Qed.

(** A block changes its state, or what its span holds besides its place. *)
Lemma Inv_change s s' h L b b' R ex T :
  Inv s h (L ++ b :: R) ex T ->
  b_ptr b' = b_ptr b -> b_len b' = b_len b ->
  (forall sp, spans s !! b_ptr b = Some sp ->
     exists sp', spans s' = <[b_ptr b := sp']> (spans s) /\
       (span_ok sp (last_ptr nullptr L) (base + page * sum_len L) b (hd_ptr nullptr R) ->
        span_ok sp' (last_ptr nullptr L) (base + page * sum_len L) b' (hd_ptr nullptr R))) ->
  lists_ok cap (occupied_spans_ s') (span_layers_ s') (span_layer_ids_ s')
    (free_at (L ++ b' :: R)) (used_ptrs (L ++ b' :: R)) ->
  span_elems s' = span_elems s -> layer_elems s' = layer_elems s ->
  theory_size_ (stats s') = theory_size_ (stats s) ->
  real_theory_size_ (stats s') = real_theory_size_ (stats s) ->
  Inv s' h (L ++ b' :: R) ex T.
Proof.
  intros HI Hp Hl Hsp Hlists He Hle Ht1 Ht2. pose proof (Inv_nodup _ _ _ _ _ HI) as Hnd.
  destruct (Inv_focus _ _ _ _ _ _ _ HI) as (sp & Hs & Hok).
  destruct (Hsp sp Hs) as (sp' & Hs' & Hok'). specialize (Hok' Hok).
  destruct (ptrs_focus _ _ _ Hnd) as [HL HR].
  assert (Hpt : ptrs (L ++ b' :: R) = ptrs (L ++ b :: R)).
  { rewrite !ptrs_app. simpl. by rewrite Hp. }
  destruct HI as [H1 H2 H3 H4 H5 H6 H7 H8 H9 H10 H11]. split; rewrite ?Hpt, ?He, ?Hle, ?Ht1, ?Ht2; try done.
  - rewrite chain_app in H1 |- *. destruct H1 as [H1 [_ H1']]. rewrite Hs'. split.
    + simpl. rewrite Hp. simpl in H1. by apply chain_insert.
    + simpl. rewrite Hp, Hl. split; [|by apply chain_insert].
      rewrite lookup_insert_eq. eauto.
  - intros p. rewrite <- H4, Hs'. destruct (decide (p = b_ptr b)) as [->|]; [|by rewrite lookup_insert_ne].
    rewrite lookup_insert_eq, Hs. by split; eexists.
  - intros p q Hq. rewrite Hs', lookup_insert_ne; [by apply H5|]. intros <-.
    apply NoDup_app in H2 as (_ & H2 & _). apply (H2 (b_ptr b)).
    + rewrite ptrs_app. set_solver.
    + apply list_elem_of_fmap. by exists (b_ptr b, q).
  - rewrite <- H6, !sum_len_app. simpl. by rewrite Hl.
Qed.

(** Reading and writing a span. *)
Lemma wp_span_at p sp (Q : Status + PageSpan -> AllocState -> History AlOp -> Prop) s h :
  spans s !! p = Some sp -> Q (inr sp) s h -> wp (span_at p) Q s h.
Proof. intros Hp HQ. unfold span_at. apply wp_bind, wp_get. by rewrite Hp. Qed.

Lemma wp_span_update p f sp (Q : Status + unit -> AllocState -> History AlOp -> Prop) s h :
  spans s !! p = Some sp -> Q (inr tt) (set_spans (span_elems s) (<[p := f sp]> (spans s)) s) h ->
  wp (span_update p f) Q s h.
Proof.
  intros Hp HQ. unfold span_update. apply wp_bind. eapply wp_span_at; [done|]. by apply wp_modify.
Qed.

Lemma wp_span_layer id (Q : Status + option SpanLayer -> AllocState -> History AlOp -> Prop) s h :
  0 <= id < cap -> Q (inr (span_layers_ s !! id)) s h -> wp (span_layer (AllocParams_new cfg) id) Q s h.
Proof.
  intros Hid HQ. unfold span_layer. apply wp_bind, wp_get.
  rewrite (proj2 (Z.leb_le 0 id)), (proj2 (Z.ltb_lt id _)) by (unfold cap in *; lia). done.
Qed.

Let K := AllocParams_new cfg.

Lemma used_ptrs_focus L b R :
  used_ptrs (L ++ b :: R) ≡ₚ
    match b_state b with BUsed _ => b_ptr b :: used_ptrs (L ++ R) | _ => used_ptrs (L ++ R) end.
Proof.
  rewrite !used_ptrs_app. unfold used_ptrs at 2. simpl. destruct (b_state b); simpl; [done..|].
  by rewrite <- Permutation_middle.
Qed.

(** A free block is not occupied, and the other way round. *)
Lemma used_not_free L b R ex s h T :
  Inv s h (L ++ b :: R) ex T -> b_ptr b ∉ used_ptrs (L ++ R) /\ forall i, ~ free_at (L ++ R) (b_ptr b) i.
Proof.
  intros HI. pose proof (Inv_nodup _ _ _ _ _ HI) as Hnd. destruct (ptrs_focus _ _ _ Hnd) as [H1 H2].
  assert (Hno : forall c, c ∈ L ++ R -> b_ptr c <> b_ptr b).
  { intros c [Hc|Hc]%elem_of_app Heq; [apply H1|apply H2]; apply elem_ptrs; eauto. }
  split; [intros (c & n & Hc & Heq & _)%elem_used|intros i (c & Hc & Heq & _)]; by eapply Hno.
Qed.

(** A free block is taken in hand: its span leaves its layer. *)
Lemma Inv_take s h L b R ex T l ps :
  Inv s h (L ++ b :: R) ex T -> b_state b = BFree -> span_layers_ s !! b_len b = Some l ->
  NoDup ps -> (forall q, q ∈ ps <-> q <> b_ptr b /\ q ∈ free_link_ l) ->
  Inv (set_layers (<[b_len b := set_free_link ps l]> (span_layers_ s))
         (OnLayerRemoveSpan (set_free_link ps l) (span_layer_ids_ s)) s) h
      (L ++ with_state (BHand 0) b :: R) ex T.
Proof.
  intros HI Hf Hl Hnd Hps. pose proof (Inv_nodup _ _ _ _ _ HI) as Hb.
  assert (Hb' : NoDup (ptrs (L ++ with_state (BHand 0) b :: R))) by (by rewrite ptrs_app in *).
  eapply Inv_change; [exact HI|done..| | | | | |]; try done.
  - intros sp Hsp. exists sp. cbn [set_layers spans]. split; [by rewrite insert_id|].
    intros []. split; try done. by rewrite Hf in so_count0.
  - cbn [set_layers occupied_spans_ span_layers_ span_layer_ids_].
    eapply lists_ok_ext; [eapply lists_take; [exact (i_lists _ _ _ _ _ HI)|exact Hl| |exact Hnd|exact Hps]| |].
    + exists b. split_and!; [set_solver|done..].
    + intros p i. cbn beta. rewrite !free_at_focus by done. cbn [with_state b_ptr b_state b_len].
      destruct (used_not_free _ _ _ _ _ _ _ HI) as [_ Hno]. naive_solver.
    + by rewrite !used_ptrs_focus, Hf.
Qed.

(** A block in hand becomes free: its span joins the layer of its length. *)
Lemma Inv_put s h L b R ex T l :
  Inv s h (L ++ b :: R) ex T -> b_state b = BHand 0 -> span_layers_ s !! b_len b = Some l ->
  (b_plen b = b_len b \/ (b_plen b = 0 /\ L = [] /\ R = [])) ->
  Inv (set_layers (<[b_len b := SpanLayer_PushSpan (b_ptr b) l]> (span_layers_ s))
         (OnLayerAddSpan (SpanLayer_PushSpan (b_ptr b) l) (span_layer_ids_ s)) s) h
      (L ++ with_state BFree b :: R) ex T.
Proof.
  intros HI Hf Hl Hp. pose proof (Inv_nodup _ _ _ _ _ HI) as Hb.
  assert (Hb' : NoDup (ptrs (L ++ with_state BFree b :: R))) by (by rewrite ptrs_app in *).
  destruct (used_not_free _ _ _ _ _ _ _ HI) as [HU Hno].
  eapply Inv_change; [exact HI|done..| | | | | |]; try done.
  - intros sp Hsp. exists sp. cbn [set_layers spans]. split; [by rewrite insert_id|].
    intros []. split; try done; [by rewrite Hf in so_count0|].
    unfold plen_ok. simpl. destruct Hp as [?|(? & -> & ->)]; [by left|by right].
  - cbn [set_layers occupied_spans_ span_layers_ span_layer_ids_].
    eapply lists_ok_ext; [eapply lists_put; [exact (i_lists _ _ _ _ _ HI)|exact Hl| | |]| |].
    + intros i. rewrite free_at_focus, Hf by done. naive_solver.
    + by rewrite used_ptrs_focus, Hf.
    + eapply Inv_ptr_not_null; [exact HI|set_solver].
    + intros p i. cbn beta. rewrite !free_at_focus by done. cbn [with_state b_ptr b_state b_len]. rewrite Hf.
      naive_solver.
    + by rewrite !used_ptrs_focus, Hf.
Qed.

Lemma Inv_on_no_list s h L b R ex T c :
  Inv s h (L ++ b :: R) ex T -> b_state b = BHand c -> on_some_list (b_ptr b) s = false.
Proof.
  intros HI Hs. pose proof (Inv_nodup _ _ _ _ _ HI) as Hb.
  destruct (used_not_free _ _ _ _ _ _ _ HI) as [HU Hno].
  eapply not_on_some_list; [exact (i_lists _ _ _ _ _ HI)| |].
  - intros i. rewrite free_at_focus, Hs by done. naive_solver.
  - by rewrite used_ptrs_focus, Hs.
Qed.

(** The layer of a free block. *)
Lemma Inv_free_layer s h L b R ex T :
  Inv s h (L ++ b :: R) ex T -> b_state b = BFree ->
  0 <= b_len b < cap /\ exists l, span_layers_ s !! b_len b = Some l /\ NoDup (free_link_ l) /\
    layer_id_ l = b_len b /\ b_ptr b ∈ free_link_ l.
Proof.
  intros HI Hf. pose proof (i_lists _ _ _ _ _ HI) as HL.
  assert (Hfree : free_at (L ++ b :: R) (b_ptr b) (b_len b)) by (exists b; split_and!; [set_solver|done..]).
  destruct (lo_has _ _ _ _ _ _ HL _ _ Hfree) as [l Hl].
  destruct (lo_layer _ _ _ _ _ _ HL _ _ Hl) as (Hid & Hr & Hnd & Hin).
  split; [done|]. exists l. split_and!; [done..|]. by apply Hin.
Qed.

Lemma OnLayerRemoveSpan_id l id : layer_id_ l = id -> forall ids, (id ∈ ids -> free_link_ l <> []) ->
  OnLayerRemoveSpan l ids = ids.
Proof.
  intros <- ids Hin. unfold OnLayerRemoveSpan, SpanLayer_IsEmpty, SpanLayer_GetSize.
  destruct (free_link_ l) as [|p ps]; [|done]. simpl. unfold ids_erase.
  induction ids as [|i ids IH]; [done|]. rewrite filter_cons.
  destruct (decide (i <> layer_id_ l)) as [|Hi].
  - f_equal. apply IH. intros Hi. exfalso. by apply Hin; [right|].
  - apply dec_stable in Hi as ->. by destruct (Hin ltac:(by left)).
Qed.

(** ** The list operations of the code *)
Lemma wp_PopSpanFromLayer id l (Q : Status + Z -> AllocState -> History AlOp -> Prop) s h bs ex T :
  Inv s h bs ex T -> span_layers_ s !! id = Some l ->
  ((forall p, ~ free_at bs p id) -> Q (inr nullptr) s h) ->
  (forall L b R s', bs = L ++ b :: R -> b_state b = BFree -> b_len b = id ->
     is_Some (span_layers_ s' !! id) -> Inv s' h (L ++ with_state (BHand 0) b :: R) ex T ->
     Q (inr (b_ptr b)) s' h) ->
  wp (PopSpanFromLayer K id) Q s h.
Proof.
  intros HI Hl Hnil Hcons. pose proof (i_lists _ _ _ _ _ HI) as HL.
  destruct (lo_layer _ _ _ _ _ _ HL _ _ Hl) as (Hid & Hr & Hnd & Hin).
  unfold PopSpanFromLayer, layer_pop. apply wp_bind, wp_bind, wp_span_layer; [done|]. rewrite Hl.
  unfold SpanLayer_PopSpan. destruct (free_link_ l) as [|p ps] eqn:El.
  - apply wp_bind, wp_modify, wp_ret, wp_bind, wp_span_layer; [done|]. cbn [set_layers span_layers_].
    rewrite lookup_insert_eq, insert_id by done. apply wp_bind, wp_modify, wp_ret.
    cbn [set_layers span_layers_ span_layer_ids_].
    assert (Hno : forall p, ~ free_at bs p id) by (intros p Hp; by apply Hin, elem_of_nil in Hp).
    rewrite (OnLayerRemoveSpan_id l id Hid).
    2:{ intros Hi. apply (lo_ids _ _ _ _ _ _ HL) in Hi as [p Hp]. by apply Hno in Hp. }
    destruct s. by apply Hnil.
  - destruct (proj1 (Hin p) ltac:(by left)) as (b & Hb & Hp & Hf & Hlen).
    apply list_elem_of_split in Hb as (L & R & ->). subst p. clear Hid. subst id.
    apply wp_bind, wp_modify, wp_ret, wp_bind, wp_span_layer; [done|]. cbn [set_layers span_layers_].
    rewrite lookup_insert_eq. apply wp_bind, wp_modify, wp_ret.
    cbn [set_layers span_layers_ span_layer_ids_].
    apply (Hcons L b R); [done..| |].
    + cbn [set_layers span_layers_]. rewrite lookup_insert_eq. by eexists.
    + apply NoDup_cons in Hnd as [Hnin Hnd].
      apply (Inv_take s h L b R ex T l ps); [done..|]. rewrite El. set_solver.
Qed.

Lemma wp_PushSpanToLayer (Q : Status + unit -> AllocState -> History AlOp -> Prop) s h L b R ex T :
  Inv s h (L ++ b :: R) ex T -> b_state b = BHand 0 -> is_Some (span_layers_ s !! b_len b) ->
  (b_plen b = b_len b \/ (b_plen b = 0 /\ L = [] /\ R = [])) ->
  (forall s', Inv s' h (L ++ with_state BFree b :: R) ex T -> Q (inr tt) s' h) ->
  wp (PushSpanToLayer K (b_len b) (b_ptr b)) Q s h.
Proof.
  intros HI Hs [l Hl] Hp HQ. destruct (lo_layer _ _ _ _ _ _ (i_lists _ _ _ _ _ HI) _ _ Hl) as (_ & Hr & _).
  unfold PushSpanToLayer. apply wp_bind, wp_span_layer; [done|]. apply wp_bind, wp_get. rewrite Hl.
  rewrite (Inv_on_no_list _ _ _ _ _ _ _ _ HI Hs). apply wp_modify, HQ. by apply Inv_put.
Qed.

Lemma wp_RemoveFromLayer (Q : Status + unit -> AllocState -> History AlOp -> Prop) s h L b R ex T :
  Inv s h (L ++ b :: R) ex T -> b_state b = BFree ->
  (forall s', Inv s' h (L ++ with_state (BHand 0) b :: R) ex T -> Q (inr tt) s' h) ->
  wp (RemoveFromLayer K (b_len b) (b_ptr b)) Q s h.
Proof.
  intros HI Hs HQ. destruct (Inv_free_layer _ _ _ _ _ _ _ HI Hs) as (Hr & l & Hl & Hnd & Hid & Hin).
  unfold RemoveFromLayer. apply wp_bind, wp_span_layer; [done|]. rewrite Hl, bool_decide_true by done.
  apply wp_modify, HQ. apply Inv_take; [done..|by apply NoDup_filter|].
  intros q. by rewrite list_elem_of_filter.
Qed.

(** A block in use: the length of its span is set. *)
Definition occupied (real : Z) (b : Blk) : Blk :=
  {| b_ptr := b_ptr b; b_len := b_len b; b_plen := b_len b; b_state := BUsed real |}.

Lemma wp_OccupySpan (Q : Status + unit -> AllocState -> History AlOp -> Prop) s h L b R ex T c :
  Inv s h (L ++ b :: R) ex T -> b_state b = BHand c -> c = 0 \/ c = 1 ->
  (forall s' r, Inv s' h (L ++ occupied r b :: R) ex T -> Q (inr tt) s' h) ->
  wp (OccupySpan K (b_ptr b) (b_len b)) Q s h.
Proof.
  intros HI Hs Hc HQ. pose proof (Inv_nodup _ _ _ _ _ HI) as Hb.
  destruct (Inv_focus _ _ _ _ _ _ _ HI) as (sp & Hsp & _).
  destruct (used_not_free _ _ _ _ _ _ _ HI) as [HU Hno].
  unfold OccupySpan. apply wp_bind. eapply wp_span_update; [done|]. apply wp_bind, wp_get, wp_bind.
  assert (on_some_list (b_ptr b) (set_spans (span_elems s)
            (<[b_ptr b := PageSpan_Alloc K (b_len b) sp]> (spans s)) s) = false) as ->.
  { exact (Inv_on_no_list _ _ _ _ _ _ _ _ HI Hs). }
  apply wp_ret, wp_bind, wp_modify, wp_modify, (HQ _ (real_size_ sp)).
  assert (Hb' : NoDup (ptrs (L ++ occupied (real_size_ sp) b :: R))) by (by rewrite ptrs_app in *).
  eapply Inv_change; [exact HI|done..| | | | | |]; try done.
  - intros sp' Hsp'. simplify_eq. eexists. split; [done|]. intros []. rewrite Hs in so_count0. simpl in so_count0.
    unfold PageSpan_Alloc, PageSpan_SetPageLen.
    destruct (Z.eqb_spec (mb_count (span_mem (set_mem (mb_set_size (PageSpan_GetSize K (set_page_len (b_len b) sp))
      (span_mem (set_page_len (b_len b) sp))) (set_page_len (b_len b) sp)))) 0) as [Hz|Hz];
      cbn [set_mem set_page_len span_mem] in *; split; simpl; try done.
    + by rewrite mb_add_addr, mb_set_size_addr.
    + by rewrite mb_add_count.
    + intros n Hn. by simplify_eq.
    + by rewrite mb_set_size_addr.
    + rewrite mb_set_size_count in *. lia.
    + intros n Hn. by simplify_eq.
  - cbn [set_stats set_occupied set_spans occupied_spans_ span_layers_ span_layer_ids_].
    eapply lists_ok_ext; [eapply (lists_occupy _ _ _ _ _ _ (b_ptr b)); [exact (i_lists _ _ _ _ _ HI)|]| |].
    + intros i. rewrite free_at_focus, Hs by done. naive_solver.
    + intros p i. cbn beta. rewrite !free_at_focus by done. cbn [occupied b_ptr b_state b_len].
      rewrite Hs. naive_solver.
    + by rewrite !used_ptrs_focus, Hs.
Qed.

(** ** The object allocators *)
Lemma cap_K : span_layer_capacity_ K = cap.
Proof. done. Qed.
Lemma cap_layers_empty : 0 < cap -> layers_empty K = false.
Proof. intros H. unfold layers_empty. apply Z.eqb_neq. rewrite cap_K. lia. Qed.

(** With a layer object always available, a layer in range can be fetched. *)
Lemma wp_FetchSpanLayer id (Q : Status + option Z -> AllocState -> History AlOp -> Prop) s h bs ex T :
  layers_available env -> Inv s h bs ex T -> 0 <= id < cap ->
  (forall s' h', Inv s' h' bs ex T -> is_Some (span_layers_ s' !! id) ->
     spans s' = spans s -> Q (inr (Some id)) s' h') ->
  wp (FetchSpanLayer K id) Q s h.
Proof.
  intros Hlay HI Hid HQ. unfold FetchSpanLayer. rewrite cap_layers_empty by lia.
  rewrite (proj2 (Z.leb_gt _ _)) by (rewrite cap_K; lia). simpl.
  apply wp_bind, wp_span_layer; [done|]. destruct (span_layers_ s !! id) as [l|] eqn:El.
  { apply wp_ret, HQ; try done. }
  assert (Hnew : forall mem s' h', span_layers_ s' = span_layers_ s -> spans s' = spans s ->
    Inv s' h' bs ex T -> mem <> nullptr ->
    wp (if is_null mem then ret None else
        modify (fun s => set_layers (<[id := {| layer_this := mem; layer_id_ := id;
            span_capacity_ := GetlayerSpanCapacity K id; free_link_ := [] |}]> (span_layers_ s)) (span_layer_ids_ s) s) ;;
        ret (Some id)) Q s' h').
  { intros mem s' h' Hls Hsps HI' Hmem. unfold is_null. rewrite (proj2 (Z.eqb_neq _ _)) by done.
    apply wp_bind, wp_modify, wp_ret, HQ; try done.
    - destruct HI' as [H1 H2 H3 H4 H5 H6 H7 H8 H9 H10 H11]. split; try done.
      simpl. apply lists_new_layer; [done|by rewrite Hls|done..].
    - simpl. rewrite lookup_insert_eq. by eexists. }
  apply wp_bind. unfold ObjectAllocator_AllocLayer. apply wp_bind, wp_get.
  destruct (layer_elems s) as [|p ps] eqn:Ee.
  - apply wp_call. intros r ->. apply Hnew; [done|done|by apply Inv_history|apply Hlay].
  - pose proof (i_layer_elems _ _ _ _ _ HI) as Hle. rewrite Ee in Hle.
    apply wp_bind, wp_modify, wp_ret, Hnew; try done; [|set_solver].
    destruct HI as [H1 H2 H3 H4 H5 H6 H7 H8 H9 H10 H11]. split; try done. simpl. set_solver.
Qed.

(** A new span object: none, or one outside the region. *)
Lemma wp_BlockAlloc ba addr size (Q : Status + Z -> AllocState -> History AlOp -> Prop) s h bs T :
  news_fresh env -> Inv s h bs [] T ->
  (forall s' h', Inv s' h' bs [] T -> span_layers_ s' = span_layers_ s -> span_new_fails env ->
     Q (inr nullptr) s' h') ->
  (forall p s' h', p <> nullptr -> Inv s' h' bs [(p, PageSpan_new ba addr size)] T ->
     span_layers_ s' = span_layers_ s ->
     (forall q, q <> p -> spans s' !! q = spans s !! q) -> Q (inr p) s' h') ->
  wp (BlockAlloc ba addr size) Q s h.
Proof.
  intros Hfresh HI Hnull Hsome. unfold BlockAlloc, ObjectAllocator_AllocSpan.
  apply wp_bind, wp_bind, wp_get. destruct HI as [H1 H2 H3 H4 H5 H6 H7 H8 H9 H10 H11].
  rewrite app_nil_r in *. destruct H8 as (He1 & He2 & He3).
  assert (Hput : forall p es h', p <> nullptr -> p ∉ ptrs bs -> (forall q, q ∈ p :: es -> given h' q) ->
    (forall q, given h q -> given h' q) -> (forall q, q ∈ es -> q ∈ span_elems s) -> NoDup (p :: es) ->
    Inv (set_spans es (<[p := PageSpan_new ba addr size]> (spans s)) s) h' bs [(p, PageSpan_new ba addr size)] T).
  { intros p es h' Hp Hpn Hg Hh Hes [Hpe Hnd]%NoDup_cons. split; cbn [set_spans spans span_elems occupied_spans_
      span_layers_ span_layer_ids_ stats]; try done.
    - by apply chain_insert.
    - apply NoDup_app. split_and!; [done| |apply NoDup_singleton]. intros q Hq. simpl. set_solver.
    - simpl. set_solver.
    - intros q. destruct (decide (q = p)) as [->|Hqp].
      + rewrite lookup_insert_eq. split; [intros _; simpl; set_solver|by eexists].
      + rewrite lookup_insert_ne, H4 by done. simpl. set_solver.
    - intros q sp Hq%list_elem_of_singleton. simplify_eq. apply lookup_insert_eq.
    - split_and!; [done|set_solver|]. intros q Hq. simpl. rewrite elem_of_app, list_elem_of_singleton.
      intros [Hq'| ->]; [by apply (He3 q); [apply Hes|]|done].
    - intros q. simpl. rewrite !elem_of_app, list_elem_of_singleton. intros [Hq|[Hq| ->]].
      + apply Hg. by right.
      + apply Hh, H9. set_solver.
      + apply Hg. by left. }
  destruct (span_elems s) as [|p es] eqn:Ee.
  - apply wp_call. intros r Hr. unfold is_null. destruct (Z.eqb_spec r nullptr) as [->|Hne].
    + apply wp_ret, Hnull; try done; [|by exists h]. split; rewrite ?app_nil_r, ?Ee; try done.
      intros p Hp. apply given_mono, H9. done.
    + apply wp_bind, wp_modify, wp_ret. rewrite Ee.
      assert (Hg : ~ given h r) by (destruct (Hfresh SpanElem h) as [Hz|Hng]; congruence).
      apply Hsome; try done; [|intros q Hq; simpl; by rewrite lookup_insert_ne].
      apply Hput; try done.
      * intros Hin. apply Hg, H9. set_solver.
      * intros q ->%list_elem_of_singleton. exists SpanElem. by left.
      * intros q. apply given_mono.
      * apply NoDup_singleton.
  - apply wp_bind, wp_modify, wp_ret. unfold is_null. rewrite (proj2 (Z.eqb_neq _ _)) by set_solver.
    apply wp_bind, wp_modify, wp_ret. cbn [set_spans span_elems spans].
    apply Hsome; try done; [set_solver| |intros q Hq; simpl; by rewrite lookup_insert_ne].
    apply (Hput p es h); try done; try set_solver.
Qed.

(** A span outside the region is destroyed. *)
Lemma wp_SpanAllocator_Free (Q : Status + unit -> AllocState -> History AlOp -> Prop) s h bs p sp T :
  Inv s h bs [(p, sp)] T ->
  (forall s', Inv s' h bs [] T -> span_layers_ s' = span_layers_ s ->
     (forall q, q <> p -> spans s' !! q = spans s !! q) -> Q (inr tt) s' h) ->
  wp (SpanAllocator_Free p) Q s h.
Proof.
  intros HI HQ. unfold SpanAllocator_Free.
  apply wp_bind. eapply wp_span_at; [eapply i_ex; [exact HI|by left]|]. apply wp_bind, wp_get, wp_bind.
  destruct HI as [H1 H2 H3 H4 H5 H6 H7 H8 H9 H10 H11].
  apply NoDup_app in H2 as (Hnd & Hp & _). simpl in *.
  assert (Hpn : p ∉ ptrs bs) by (intros Hin; apply (Hp _ Hin); by left).
  rewrite (not_on_some_list cap s (free_at bs) (used_ptrs bs)); [|done| |].
  2:{ intros i (b & Hb & <- & _). apply Hpn, elem_ptrs. eauto. }
  2:{ intros (b & n & Hb & <- & _)%elem_used. apply Hpn, elem_ptrs. eauto. }
  apply wp_ret, wp_modify, HQ; [|done|intros q Hq; simpl; by rewrite lookup_delete_ne].
  destruct H8 as (He1 & He2 & He3). split; cbn [set_spans spans span_elems occupied_spans_
      span_layers_ span_layer_ids_ stats]; rewrite ?app_nil_r; try done.
  - by apply chain_delete.
  - set_solver.
  - intros q. destruct (decide (q = p)) as [->|Hq].
    + rewrite lookup_delete_eq. split; [by intros [? ?]|done].
    + rewrite lookup_delete_ne, H4 by done. simpl. set_solver.
  - by intros q sq ?%elem_of_nil.
  - split_and!; [apply NoDup_cons; split; [|done]| |].
    + intros Hin. apply (He3 _ Hin). simpl. set_solver.
    + set_solver.
    + intros q [->|Hq]%elem_of_cons; [done|]. intros Hq'. apply (He3 _ Hq). set_solver.
  - intros q. rewrite !elem_of_app, elem_of_cons. intros Hq. apply H9. set_solver.
Qed.

(** ** Buddies *)

(** The blocks of the region change, over the same spans and lists. *)
Lemma Inv_reshape s m h bs ex bs' ex' T :
  Inv s h bs ex T ->
  chain page m nullptr base bs' nullptr ->
  ptrs bs' ++ ex'.*1 ≡ₚ ptrs bs ++ ex.*1 ->
  (forall q, is_Some (m !! q) <-> is_Some (spans s !! q)) ->
  (forall q sq, (q, sq) ∈ ex' -> m !! q = Some sq) ->
  sum_len bs' = sum_len bs ->
  (forall p i, free_at bs' p i <-> free_at bs p i) -> used_ptrs bs' ≡ₚ used_ptrs bs ->
  Inv (set_spans (span_elems s) m s) h bs' ex' T.
Proof.
  intros [H1 H2 H3 H4 H5 H6 H7 H8 H9 H10 H11] Hc Hp Hm Hex Hs HF HU.
  split; cbn [set_spans spans span_elems occupied_spans_ span_layers_ span_layer_ids_ stats];
    rewrite ?Hp; try done.
  - intros p. by rewrite Hm, H4, Hp.
  - by rewrite Hs.
  - by eapply lists_ok_ext.
  - destruct H8 as (? & ? & H8). split_and!; [done..|]. intros p Hin. rewrite Hp. by apply H8.
  - intros p. rewrite elem_of_app, Hp, <- elem_of_app. apply H9.
Qed.

Lemma insert_dom (m : gmap Z PageSpan) k v :
  is_Some (m !! k) -> forall q, is_Some (<[k := v]> m !! q) <-> is_Some (m !! q).
Proof.
  intros Hk q. destruct (decide (q = k)) as [->|]; [|by rewrite lookup_insert_ne].
  rewrite lookup_insert_eq. split; [done|by eexists].
Qed.

(** The successor of a block, if any, gets a new predecessor. *)
Lemma wp_set_prev_next addr prev q R (Q : Status + unit -> AllocState -> History AlOp -> Prop) s h :
  chain page (spans s) prev addr R nullptr -> NoDup (ptrs R) -> prev <> nullptr -> nullptr ∉ ptrs R ->
  (forall m, chain page m q addr R nullptr ->
     (forall p, p ∉ ptrs R -> m !! p = spans s !! p) ->
     (forall p, is_Some (m !! p) <-> is_Some (spans s !! p)) ->
     Q (inr tt) (set_spans (span_elems s) m s) h) ->
  wp (if is_null (hd_ptr nullptr R) then ret tt else span_update (hd_ptr nullptr R) (SetPrev q)) Q s h.
Proof.
  intros Hc Hnd Hprev Hnull HQ. destruct R as [|r R]; simpl.
  - apply wp_ret. specialize (HQ (spans s)). destruct s. by apply HQ.
  - unfold is_null. rewrite (proj2 (Z.eqb_neq _ _)) by (simpl in Hnull; set_solver).
    pose proof Hc as [(sp & Hsp & _) _]. eapply wp_span_update; [done|]. apply HQ.
    + by eapply chain_set_prev.
    + intros p Hp. apply lookup_insert_ne. simpl in Hp. set_solver.
    + apply insert_dom. by eexists.
Qed.

Ltac wp_span tac :=
  eapply wp_span_update; [cbn [set_spans spans]; tac|cbn [set_spans spans span_elems]].

(** A block in hand is cut: the left part keeps the span, the right part gets the
    new one. *)
Definition cut_left (left : Z) (b : Blk) : Blk :=
  {| b_ptr := b_ptr b; b_len := left; b_plen := left; b_state := b_state b |}.
Definition cut_right (left p : Z) (b : Blk) : Blk :=
  {| b_ptr := p; b_len := b_len b - left; b_plen := 0; b_state := BHand 1 |}.

Lemma wp_split_buddy left p ba size (k : M AlOp AllocState Z)
    (Q : Status + Z -> AllocState -> History AlOp -> Prop) s h L b R T :
  Inv s h (L ++ b :: R) [(p, PageSpan_new ba (base + page * (sum_len L + left)) size)] T ->
  b_state b = BHand 0 -> 0 < left < b_len b ->
  (forall s', Inv s' h (L ++ cut_left left b :: cut_right left p b :: R) [] T ->
     span_layers_ s' = span_layers_ s -> wp k Q s' h) ->
  wp (SetBuddy (b_ptr b) p ;; span_update (b_ptr b) (PageSpan_SetPageLen K left) ;; k) Q s h.
Proof.
  intros HI Hs Hleft HQ. destruct (Inv_focus _ _ _ _ _ _ _ HI) as (sp & Hsp & Hok).
  set (spn := PageSpan_new _ _ _) in *.
  assert (Hpn : spans s !! p = Some spn) by (eapply i_ex; [exact HI|by left]).
  pose proof (i_ptrs _ _ _ _ _ HI) as Hnd. pose proof (i_null _ _ _ _ _ HI) as Hnull. simpl in Hnd, Hnull.
  pose proof (i_chain _ _ _ _ _ HI) as Hc. apply chain_app in Hc as [HcL [_ HcR]].
  apply NoDup_app in Hnd as (Hnd & Hpout & _).
  assert (Hp : p ∉ ptrs (L ++ b :: R)) by (intros Hin; apply (Hpout _ Hin); by left).
  destruct (ptrs_focus _ _ _ Hnd) as [HbL HbR]. rewrite ptrs_app in Hp, Hnull, Hnd. simpl in Hp, Hnull, Hnd.
  apply NoDup_app in Hnd as (HndL & HLR & [_ HndR]%NoDup_cons).
  assert (Hbp : b_ptr b <> p) by set_solver.
  unfold SetBuddy. apply wp_bind, wp_bind. eapply wp_span_at; [done|].
  rewrite (so_next _ _ _ _ _ Hok). apply wp_bind.
  eapply (wp_set_prev_next _ _ p); [exact HcR|done|set_solver|set_solver|].
  intros m HcR' Hm Hdom. cbn [set_spans spans span_elems]. apply wp_bind.
  assert (Hmb : m !! b_ptr b = Some sp) by (rewrite Hm; done).
  assert (Hmp : m !! p = Some spn) by (rewrite Hm; [done|set_solver]).
  wp_span ltac:(exact Hmb). apply wp_bind.
  wp_span ltac:(rewrite lookup_insert_ne; done).
  wp_span ltac:(apply lookup_insert_eq). apply wp_bind.
  wp_span ltac:(rewrite !lookup_insert_ne by done; apply lookup_insert_eq).
  apply HQ; [|done].

  apply (Inv_reshape s _ h _ _ _ _ T HI).
  - apply chain_app. split.
    + simpl. do 4 (apply chain_insert; [set_solver|]).
      eapply chain_ext; [|exact HcL]. intros q Hq. apply Hm. intros HqR. apply (HLR _ Hq). by right.
    + simpl. split; [|split].
      * rewrite lookup_insert_eq. eexists. split; [done|]. destruct Hok.
        split; simpl; rewrite ?mb_set_size_addr, ?mb_set_size_count; unfold plen_ok; simpl;
          rewrite ?Hs in *; done || lia.
      * rewrite lookup_insert_ne, lookup_insert_eq by done. eexists. split; [done|].
        split; try done; simpl; try lia.
        -- rewrite mb_new_addr. lia.
        -- apply mb_new_count.
      * replace (base + page * sum_len L + page * left + page * (b_len b - left))
          with (base + page * sum_len L + page * b_len b) by lia.
        do 4 (apply chain_insert; [set_solver|]). done.
  - rewrite !ptrs_app. simpl. rewrite app_nil_r, <- app_assoc.
    apply Permutation_app_head, perm_skip, Permutation_cons_append.
  - intros q. assert (is_Some (m !! b_ptr b)) by (by eexists). assert (is_Some (m !! p)) by (by eexists).
    rewrite !insert_dom by (rewrite ?lookup_insert_is_Some'; tauto). apply Hdom.
  - by intros q sq ?%elem_of_nil.
  - rewrite !sum_len_app. simpl. lia.
  - intros q i. rewrite !free_at_skip; simpl; rewrite ?Hs; done.
  - rewrite !used_ptrs_app. unfold used_ptrs. simpl. by rewrite Hs.
Qed.

(** Two neighbours in hand are merged: the left span gets the pages of the right
    one, which is no longer part of the region. *)
Definition merged (b1 b2 : Blk) : Blk :=
  {| b_ptr := b_ptr b1; b_len := b_len b1 + b_len b2; b_plen := b_len b1 + b_len b2; b_state := b_state b1 |}.

Lemma wp_MergeBuddy (Q : Status + unit -> AllocState -> History AlOp -> Prop) s h L b1 b2 R T :
  Inv s h (L ++ b1 :: b2 :: R) [] T ->
  b_state b1 = BHand 0 -> b_state b2 = BHand 0 -> b_plen b1 = b_len b1 -> b_plen b2 = b_len b2 ->
  b_len b1 + b_len b2 <= UINT32_MAX ->
  (forall s' sp2, Inv s' h (L ++ merged b1 b2 :: R) [(b_ptr b2, sp2)] T ->
     span_layers_ s' = span_layers_ s -> Q (inr tt) s' h) ->
  wp (MergeBuddy (b_ptr b1) (b_ptr b2)) Q s h.
Proof.
  intros HI Hs1 Hs2 Hp1 Hp2 Hmax HQ.
  pose proof (i_chain _ _ _ _ _ HI) as Hc. apply chain_app in Hc as [HcL Hc].
  destruct Hc as [(sp1 & Hsp1 & Hok1) [(sp2 & Hsp2 & Hok2) HcR]]. simpl in Hok1, HcL.
  pose proof (i_ptrs _ _ _ _ _ HI) as Hnd. pose proof (i_null _ _ _ _ _ HI) as Hnull.
  rewrite app_nil_r, ptrs_app in Hnd, Hnull. simpl in Hnd, Hnull.
  apply NoDup_app in Hnd as (HndL & HLR & [Hb1 [Hb2 HndR]%NoDup_cons]%NoDup_cons).
  assert (Hb12 : b_ptr b1 <> b_ptr b2) by set_solver.
  unfold MergeBuddy. apply wp_bind. eapply wp_span_at; [done|]. apply wp_bind. eapply wp_span_at; [done|].
  rewrite (so_next _ _ _ _ _ Hok1), (so_prev _ _ _ _ _ Hok2), (so_next _ _ _ _ _ Hok2), !Z.eqb_refl. cbn [andb].
  apply wp_bind. eapply (wp_set_prev_next _ _ (b_ptr b1)); [exact HcR|done|set_solver|set_solver|].
  intros m HcR' Hm Hdom.
  assert (Hm1 : m !! b_ptr b1 = Some sp1) by (rewrite Hm; [done|set_solver]).
  assert (Hm2 : m !! b_ptr b2 = Some sp2) by (by rewrite Hm).
  apply wp_bind. wp_span ltac:(exact Hm1).
  apply wp_bind. eapply wp_span_at; [cbn [set_spans spans]; by rewrite lookup_insert_ne|].
  rewrite (so_page_len _ _ _ _ _ Hok2), Hp2. apply wp_bind. wp_span ltac:(apply lookup_insert_eq).
  apply wp_bind. eapply wp_span_at; [apply lookup_insert_eq|].
  assert (Hlens : 0 < b_len b1 /\ 0 < b_len b2) by (split; [apply Hok1|apply Hok2]).
  set (sp' := set_page_len _ _).
  assert (Hfinal : forall spf, spf = sp' \/ spf = set_try_split 0 sp' ->
    let m' := <[b_ptr b1 := spf]> (<[b_ptr b1 := SetNext (hd_ptr nullptr R) sp1]> m) in
    Inv (set_spans (span_elems s) m' s) h (L ++ merged b1 b2 :: R) [(b_ptr b2, sp2)] T).
  { intros spf Hspf m'. apply (Inv_reshape s _ h _ _ _ _ T HI).
    - apply chain_app. split; [|split].
      + unfold m'. simpl. do 2 (apply chain_insert; [set_solver|]).
        eapply chain_ext; [|exact HcL]. intros q Hq. apply Hm. intros HqR. apply (HLR _ Hq). by right; right.
      + unfold m'. simpl. rewrite lookup_insert_eq. eexists. split; [done|]. destruct Hok1.
        assert (u32 (b_len b1 + b_len b2) = b_len b1 + b_len b2) as Hu by (apply u32_small; unfold UINT32_MAX in Hmax; split; lia).
        destruct Hspf as [->| ->]; unfold sp'; split; simpl in *; unfold plen_ok; simpl;
          rewrite ?so_page_len0, ?Hp1, ?Hu, ?Hs1 in *; done || lia.
      + unfold m'. simpl. do 2 (apply chain_insert; [set_solver|]).
        by rewrite Z.mul_add_distr_l, Z.add_assoc.
    - rewrite !ptrs_app. simpl. rewrite app_nil_r, <- app_assoc. simpl.
      apply Permutation_app_head, perm_skip. symmetry. apply Permutation_cons_append.
    - intros q. assert (is_Some (m !! b_ptr b1)) by (by eexists). unfold m'.
      rewrite !insert_dom by (rewrite ?lookup_insert_is_Some'; tauto). apply Hdom.
    - intros q sq Hq%list_elem_of_singleton. simplify_eq. unfold m'. by rewrite !lookup_insert_ne.
    - rewrite !sum_len_app. simpl. lia.
    - intros q i. rewrite !free_at_skip; simpl; rewrite ?Hs1, ?Hs2; done.
    - rewrite !used_ptrs_app. unfold used_ptrs. simpl. by rewrite Hs1, Hs2. }
  destruct (is_null (buddy_prev_ sp') && is_null (buddy_next_ sp')).
  - wp_span ltac:(apply lookup_insert_eq). rewrite insert_insert_eq.
    eapply HQ; [apply (Hfinal (set_try_split 0 sp')); by right|done..].
  - apply wp_ret. eapply HQ; [apply (Hfinal sp'); by left|done..].
Qed.
End Invariant.
