(* ===== verification/SpanAllocatorSafety.v ===== *)
(** The theorems about the page allocator: what Alloc and Free do to the blocks of
    the region. *)
From S2P Require Import Prelude External Effects SpanAllocator SpanAllocatorSpec.

(** * Sizes *)
Section Sizes.
Context (cfg : ScalableConfig) (Hcfg : config_ok cfg).
Implicit Types (size : Z).

Local Notation pg := (page cfg).

(** The pages a request needs: at least one. *)
Definition alloc_pages (size : Z) : Z := Z.max 1 ((size + pg - 1) / pg).

Lemma page_range : 2 ^ 10 <= pg <= 2 ^ 30.
Proof. unfold page. destruct Hcfg as [H _]. split; apply Z.pow_le_mono_r; lia. Qed.

Lemma page_mem_size_eq : page_mem_size_ (AllocParams_new cfg) = pg.
Proof.
  simpl. unfold PageLen_GetMemSize. rewrite Z.shiftl_mul_pow2, Z.mul_1_l by (destruct Hcfg; lia).
  apply u64_small. pose proof page_range. unfold page in *. split; lia.
Qed.

Lemma cap_eq : cap cfg = 1 + page_mem_size_total_threshold cfg / pg.
Proof.
  destruct Hcfg as (Hp & H0 & Ht). unfold cap. simpl. unfold SpanLayerId_GetIdFromSize, PageLen_GetLenFromSize.
  rewrite Z.shiftr_div_pow2 by lia. fold pg. fold (page cfg) in Ht.
  pose proof page_range. assert (0 <= page_mem_size_total_threshold cfg / pg) by (apply Z.div_pos; lia).
  rewrite (u32_small (_ / _)) by (unfold UINT32_MAX in Ht; split; lia).
  apply u32_small. unfold UINT32_MAX in Ht. split; lia.
Qed.

(** Rounding up with bit masks. *)
Lemma MemSize_GetAlignedOf_spec size :
  0 <= size -> size + pg <= UINT64_MAX ->
  MemSize_GetAlignedOf size pg = (size + pg - 1) / pg * pg.
Proof.
  intros H0 Hmax. pose proof page_range. unfold MemSize_GetAlignedOf.
  rewrite (u64_small (size + pg)) by (unfold UINT64_MAX in Hmax; split; lia).
  rewrite (u64_small (size + pg - 1)) by (unfold UINT64_MAX in Hmax; split; lia).
  rewrite (u64_small (pg - 1)) by (split; lia).
  assert (Hones : pg - 1 = Z.ones (page_idem_num cfg)) by (unfold page; rewrite Z.ones_equiv; lia).
  unfold u64, wrap. rewrite <- Z.land_ones, Hones by lia.
  rewrite (Z.land_comm (Z.lnot _)), Z.land_assoc, Z.land_ones by lia.
  rewrite (Z.mod_small (size + pg - 1)) by (unfold UINT64_MAX in Hmax; lia).
  rewrite <- Z.ldiff_land, Z.ldiff_ones_r by (destruct Hcfg; lia).
  rewrite Z.shiftr_div_pow2, Z.shiftl_mul_pow2 by (destruct Hcfg; lia). done.
Qed.

(** The layer of a request. *)
Lemma fix_layer_eq size :
  0 <= size <= page_mem_size_total_threshold cfg ->
  SpanLayerId_GetIdFromSize (GetAllocSize (AllocParams_new cfg) size) (page_idem_num cfg) = alloc_pages size.
Proof.
  intros Hs. pose proof page_range as Hp. destruct Hcfg as (Hi & _ & Ht).
  fold (page cfg) in Ht. unfold UINT32_MAX in Ht.
  assert (Hb : page_mem_size_total_threshold cfg < 2 ^ 32 * pg).
  { pose proof (Z.div_mod (page_mem_size_total_threshold cfg) pg). pose proof (Z.mod_pos_bound (page_mem_size_total_threshold cfg) pg). nia. }
  unfold SpanLayerId_GetIdFromSize, PageLen_GetLenFromSize, GetAllocSize.
  rewrite page_mem_size_eq, Z.shiftr_div_pow2 by lia. fold (page cfg).
  assert (Hceil : 0 <= (size + pg - 1) / pg <= 2 ^ 32 - 1).
  { split; [apply Z.div_pos; lia|].
    assert ((size + pg - 1) / pg <= page_mem_size_total_threshold cfg / pg + 1); [|lia].
    etrans; [apply (Z.div_le_mono _ (page_mem_size_total_threshold cfg + 1 * pg)); lia|].
    rewrite Z.div_add by lia. lia. }
  unfold alloc_pages. destruct (Z.ltb_spec size pg) as [Hlt|Hge].
  - rewrite Z.div_same by lia. rewrite u32_small by (split; lia). symmetry. apply Z.max_l.
    enough ((size + pg - 1) / pg < 2) by lia. apply Z.div_lt_upper_bound; lia.
  - rewrite MemSize_GetAlignedOf_spec, Z.div_mul by (unfold UINT64_MAX; lia).
    rewrite u32_small by (split; lia). symmetry. apply Z.max_r.
    apply Z.div_le_lower_bound; lia.
Qed.

Lemma alloc_pages_enough size : 0 <= size -> size <= pg * alloc_pages size.
Proof.
  intros Hs. pose proof page_range. unfold alloc_pages.
  pose proof (Z.div_mod (size + pg - 1) pg). pose proof (Z.mod_pos_bound (size + pg - 1) pg). nia.
Qed.
Lemma alloc_pages_pos size : 0 < alloc_pages size.
Proof. unfold alloc_pages. lia. Qed.

(** The size of a span. *)
Lemma PageLen_GetMemSize_small len : 0 <= len -> pg * len < 2 ^ 64 ->
  PageLen_GetMemSize len (page_idem_num cfg) = pg * len.
Proof.
  intros H0 Hl. unfold PageLen_GetMemSize. rewrite Z.shiftl_mul_pow2 by (destruct Hcfg; lia).
  fold (page cfg). rewrite Z.mul_comm. apply u64_small. pose proof page_range. split; nia.
Qed.
End Sizes.

(** * What Alloc and Free do to the blocks *)

(** The block of a free span after an allocation of [size]. *)
Definition used_block (size p len : Z) : Blk :=
  {| b_ptr := p; b_len := len; b_plen := len; b_state := BUsed size |}.

(** [Alloc] answers with nothing, with a free block of the exact length, or with the
    right part of the shortest free block that is long enough. *)
Inductive alloc_step (k size : Z) : list Blk -> Z -> list Blk -> Prop :=
| alloc_none bs : alloc_step k size bs nullptr bs
| alloc_exact L b R :
    b_state b = BFree -> b_len b = k ->
    alloc_step k size (L ++ b :: R) (b_ptr b) (L ++ used_block size (b_ptr b) k :: R)
| alloc_split L b R p :
    b_state b = BFree -> k < b_len b -> p ∉ ptrs (L ++ b :: R) ->
    (forall c, c ∈ L ++ b :: R -> b_state c = BFree -> k <= b_len c -> b_len b <= b_len c) ->
    alloc_step k size (L ++ b :: R) p (L ++ cut_left (b_len b - k) b :: used_block size p k :: R).

(** [Free] gives the block back, merged with the free neighbours [Lo] and [Ro]. *)
Definition free_on_left (L Lo : list Blk) : Prop :=
  (Lo = [] /\ forall L' c, L = L' ++ [c] -> b_state c <> BFree) \/
  (exists c, Lo = [c] /\ b_state c = BFree).
Definition free_on_right (Ro R : list Blk) : Prop :=
  (Ro = [] /\ forall R' c, R = c :: R' -> b_state c <> BFree) \/
  (exists c, Ro = [c] /\ b_state c = BFree).

Definition free_block (p len : Z) : Blk := {| b_ptr := p; b_len := len; b_plen := len; b_state := BFree |}.

Inductive free_step (p : Z) : list Blk -> list Blk -> Prop :=
| free_merge L Lo b n Ro R :
    b_ptr b = p -> b_state b = BUsed n -> free_on_left L Lo -> free_on_right Ro R ->
    free_step p (L ++ Lo ++ b :: Ro ++ R)
      (L ++ free_block (hd_ptr p Lo) (sum_len Lo + b_len b + sum_len Ro) :: R).

(** Why it may answer with nothing. *)
Definition no_fit (env : Environment AlOp) (cfg : ScalableConfig) (k : Z) (bs : list Blk) : Prop :=
  (forall b, b ∈ bs -> b_state b = BFree -> b_len b <> k) /\
  (span_layer_lift_max cfg = 0 \/ (forall b, b ∈ bs -> b_state b = BFree -> b_len b < k) \/
   span_new_fails env).

Section Steps.
Context `{Bk : MemBlockApi} {BkL : MemBlockLaws Bk} `{env : Environment AlOp}.
Context (Hfresh : news_fresh env) (Hlayers : layers_available env).
Context (cfg : ScalableConfig) (Hcfg : config_ok cfg) (base N : Z).
Context (Hbase : 0 < base /\ base + page cfg * N <= 2 ^ 64) (HN : 0 < N < cap cfg).

Let K := AllocParams_new cfg.
Local Notation pg := (page cfg).
Local Notation Inv := (Inv cfg base N).
Implicit Types (s : AllocState) (h : History AlOp) (b : Blk) (L R bs : list Blk) (T : Z * Z).

(** The invariant between calls: nothing in hand, no layer object missing. *)
Definition settled bs : Prop := forall b c, b ∈ bs -> b_state b <> BHand c.

Lemma Inv_len_bound s h bs ex T b : Inv s h bs ex T -> b ∈ bs -> 0 < b_len b <= N.
Proof.
  intros HI Hb. pose proof (i_chain _ _ _ _ _ _ _ _ HI) as Hc.
  split; [by eapply chain_pos|]. rewrite <- (i_len _ _ _ _ _ _ _ _ HI).
  assert (Hpos : forall c, c ∈ bs -> 0 < b_len c) by (intros c Hin; by eapply chain_pos).
  clear -Hb Hpos. induction bs as [|c bs IH]; [by apply elem_of_nil in Hb|].
  assert (Hs : 0 <= sum_len bs).
  { clear -Hpos. induction bs as [|d bs IH]; simpl; [lia|].
    pose proof (Hpos d ltac:(by right; left)). assert (0 <= sum_len bs); [|lia].
    apply IH. intros x [->|Hx]%elem_of_cons; apply Hpos; [by left|by right; right]. }
  pose proof (Hpos c ltac:(by left)). simpl.
  apply elem_of_cons in Hb as [->|Hb]; [lia|].
  enough (b_len b <= sum_len bs) by lia. apply IH; [done|]. intros x Hx. apply Hpos. by right.
Qed.

Lemma sum_len_nonneg bs : (forall b, b ∈ bs -> 0 < b_len b) -> 0 <= sum_len bs.
Proof.
  induction bs as [|b bs IH]; simpl; intros H; [lia|].
  pose proof (H b ltac:(by left)). enough (0 <= sum_len bs) by lia. apply IH. intros c Hc. apply H. by right.
Qed.

(** The space before a block, and the block, lie in the region. *)
Lemma Inv_prefix_bound s h L b R ex T :
  Inv s h (L ++ b :: R) ex T -> 0 <= sum_len L /\ sum_len L + b_len b <= N.
Proof.
  intros HI. pose proof (i_len _ _ _ _ _ _ _ _ HI) as Hl. rewrite sum_len_app in Hl. simpl in Hl.
  assert (Hpos : forall c, c ∈ L ++ b :: R -> 0 < b_len c) by (intros c Hc; by eapply Inv_len_bound).
  pose proof (sum_len_nonneg L ltac:(intros c Hc; apply Hpos; set_solver)).
  pose proof (sum_len_nonneg R ltac:(intros c Hc; apply Hpos; set_solver)). lia.
Qed.

(** A block just occupied gets the size asked for. *)
Lemma wp_set_real (Q : Status + unit -> AllocState -> History AlOp -> Prop) s h L b r R T size :
  Inv s h (L ++ occupied r b :: R) [] T ->
  (forall s', Inv s' h (L ++ used_block size (b_ptr b) (b_len b) :: R) [] T ->
     Q (inr tt) s' h) ->
  wp (span_update (b_ptr b) (SetRealSize size)) Q s h.
Proof.
  intros HI HQ. pose proof (Inv_nodup _ _ _ _ _ _ _ _ HI) as Hb.
  destruct (Inv_focus _ _ _ _ _ _ _ _ _ _ HI) as (sp & Hsp & _).
  eapply wp_span_update; [exact Hsp|]. apply HQ.
  assert (Hb' : NoDup (ptrs (L ++ used_block size (b_ptr b) (b_len b) :: R))) by (by rewrite ptrs_app in *).
  eapply Inv_change; [exact HI|done..| | | | | |]; try done.
  - intros sp' Hsp'. simplify_eq. eexists. split; [done|]. intros []. split; try done.
    intros n Hn. simpl in Hn. by simplify_eq.
  - eapply lists_ok_ext; [exact (i_lists _ _ _ _ _ _ _ _ HI)| |].
    + intros p i. rewrite !free_at_focus by done. naive_solver.
    + rewrite !used_ptrs_focus. done.
Qed.

(** The blocks around one that is put back as it was. *)
Lemma with_state_back b : b_state b = BFree -> with_state BFree (with_state (BHand 0) b) = b.
Proof. destruct b; simpl. by intros ->. Qed.
Lemma cut_left_back left b :
  b_state b = BFree -> with_state BFree (cut_left left (with_state (BHand 0) b)) = cut_left left b.
Proof. destruct b; unfold with_state, cut_left; simpl. by intros ->. Qed.

Lemma forward_addr s h L b R ex T left :
  Inv s h (L ++ b :: R) ex T -> 0 < left < b_len b ->
  u32 left = left /\
  PageLen_ForwardAddr left (page_idem_num cfg) (base + pg * sum_len L) = base + pg * (sum_len L + left).
Proof.
  intros HI Hl. destruct (Inv_prefix_bound _ _ _ _ _ _ _ HI) as [H1 H2].
  pose proof (page_range cfg Hcfg) as Hp. split.
  - apply u32_small. pose proof (cap_eq cfg Hcfg). destruct Hcfg as (_ & _ & Ht). fold (page cfg) in Ht.
    unfold UINT32_MAX in Ht. split; lia.
  - unfold PageLen_ForwardAddr. rewrite (PageLen_GetMemSize_small cfg Hcfg) by nia.
    rewrite u64_small by (split; nia). lia.
Qed.

Lemma wp_SplitSpan (Q : Status + Z -> AllocState -> History AlOp -> Prop) s h L b R T k size :
  Inv s h (L ++ with_state (BHand 0) b :: R) [] T -> b_state b = BFree ->
  (b_plen b = b_len b \/ (b_plen b = 0 /\ L = [] /\ R = [])) ->
  is_Some (span_layers_ s !! b_len b) -> 0 < k < b_len b ->
  (forall s' h', Inv s' h' (L ++ b :: R) [] T -> span_new_fails env -> Q (inr nullptr) s' h') ->
  (forall p r s' h', p ∉ ptrs (L ++ b :: R) -> p <> nullptr ->
     Inv s' h' (L ++ cut_left (b_len b - k) b :: occupied r (cut_right (b_len b - k) p b) :: R) [] T ->
     Q (inr p) s' h') ->
  wp (SplitSpan K k (b_len b) (b_ptr b) size) Q s h.
Proof.
  intros HI Hf Hplen Hlayer Hk Hnull Hsome. destruct (Inv_focus _ _ _ _ _ _ _ _ _ _ HI) as (sp & Hsp & Hok).
  set (left := b_len b - k). assert (Hleft : 0 < left < b_len b) by (unfold left; lia).
  destruct (forward_addr _ _ _ _ _ _ _ left HI Hleft) as [Hu Haddr].
  destruct (Inv_prefix_bound _ _ _ _ _ _ _ HI) as [Hb1 Hb2]. simpl in Hb2.
  unfold SplitSpan. fold left. rewrite Hu. apply wp_bind. eapply wp_span_at; [exact Hsp|].
  rewrite (so_addr _ _ _ _ _ Hok). simpl (page_idem_num _). rewrite Haddr.
  apply wp_bind. eapply (wp_BlockAlloc cfg base N); [done|exact HI| |].
  - intros s1 h1 HI1 Hl1 Hfail. simpl. apply wp_bind.
    eapply (wp_PushSpanToLayer cfg base N) with (b := with_state (BHand 0) b); [exact HI1|done|by rewrite Hl1|done|].
    intros s2 HI2. apply wp_ret. apply Hnull; [by rewrite with_state_back in HI2|done].
  - intros p s1 h1 Hp HI1 Hl1 _. unfold is_null. rewrite (proj2 (Z.eqb_neq _ _)) by done.
    assert (Hpout : p ∉ ptrs (L ++ b :: R)).
    { pose proof (i_ptrs _ _ _ _ _ _ _ _ HI1) as Hnd. apply NoDup_app in Hnd as (_ & Hnd & _).
      intros Hin. apply (Hnd p); [by rewrite ptrs_app in *|simpl; by left]. }
    apply wp_bind. eapply (wp_FetchSpanLayer cfg base N); [done|exact HI1|lia|].
    intros s2 h2 HI2 Hl2 _.
    apply (wp_split_buddy cfg base N left p nullptr size _ _ _ _ L (with_state (BHand 0) b) R T); [done..|].
    intros s3 HI3 Hl3. apply wp_bind.
    eapply (wp_PushSpanToLayer cfg base N) with (b := cut_left left (with_state (BHand 0) b));
      [exact HI3|done|simpl; by rewrite Hl3|by left|].
    intros s4 HI4. rewrite cut_left_back in HI4 by done. apply wp_bind.
    assert (Hright : b_len (cut_right left p (with_state (BHand 0) b)) = k) by (simpl; unfold left; lia).
    rewrite <- Hright. change p with (b_ptr (cut_right left p (with_state (BHand 0) b))) at 1.
    assert (HI4' : Inv s4 h2 ((L ++ [cut_left left b]) ++ cut_right left p (with_state (BHand 0) b) :: R) [] T).
    { by rewrite <- app_assoc. }
    eapply (wp_OccupySpan cfg base N); [exact HI4'|done|by right|].
    intros s5 r HI5. apply wp_ret. apply (Hsome p r); [done..|]. by rewrite <- app_assoc in HI5.
Qed.

Lemma layers_K : layers_empty K = false.
Proof. apply (cap_layers_empty cfg). lia. Qed.
Lemma invalid_layer : span_layer_capacity_ K <= SPAN_LAYER_ID_INVALID.
Proof.
  change (cap cfg <= SPAN_LAYER_ID_INVALID). rewrite cap_eq by done.
  destruct Hcfg as (_ & _ & Ht). fold (page cfg) in Ht. unfold SPAN_LAYER_ID_INVALID. lia.
Qed.

(** The lookup table finds the shortest layer that is long enough. *)
Lemma FindFitLayerId_spec ids len lift :
  StronglySorted Z.lt ids -> lift <> 0 ->
  (FindFitLayerId len lift ids = SPAN_LAYER_ID_INVALID /\ forall y, y ∈ ids -> y < len) \/
  (exists y, FindFitLayerId len lift ids = y /\ y ∈ ids /\ len <= y /\
     forall z, z ∈ ids -> len <= z -> y <= z).
Proof.
  intros Hs Hl. unfold FindFitLayerId. rewrite (proj2 (Z.eqb_neq _ _)) by done.
  destruct (span_while _ ids) as [a c] eqn:E.
  pose proof (span_while_app _ _ _ _ E) as ->. pose proof (span_while_prefix _ _ _ _ E) as Hp.
  rewrite Forall_forall in Hp. destruct c as [|y c]; simpl.
  - left. split; [done|]. intros y Hy. rewrite app_nil_r in Hy. specialize (Hp y Hy). simpl in Hp. lia.
  - right. exists y. pose proof (span_while_head _ _ _ _ _ E) as Hh. simpl in Hh.
    apply StronglySorted_app_inv in Hs as (_ & Hs & _). inversion Hs as [|? ? _ Hf]; subst.
    rewrite Forall_forall in Hf. split_and!; [done|set_solver|lia|].
    intros z [Hz|[->|Hz]%elem_of_cons]%elem_of_app Hlz; [|lia|].
    + specialize (Hp z Hz). simpl in Hp. lia.
    + specialize (Hf z Hz). lia.
Qed.

Lemma Inv_no_layer s h bs ex T id :
  Inv s h bs ex T -> span_layers_ s !! id = None -> forall p, ~ free_at bs p id.
Proof.
  intros HI Hn p Hp. destruct (lo_has _ _ _ _ _ _ (i_lists _ _ _ _ _ _ _ _ HI) _ _ Hp). congruence.
Qed.

(** An exact fit. *)
Lemma wp_FetchLayerSpan (Q : Status + Z -> AllocState -> History AlOp -> Prop) s h bs T k :
  Inv s h bs [] T -> 0 < k < cap cfg ->
  ((forall p, ~ free_at bs p k) -> Q (inr nullptr) s h) ->
  (forall L b R r s', bs = L ++ b :: R -> b_state b = BFree -> b_len b = k ->
     Inv s' h (L ++ occupied r b :: R) [] T -> Q (inr (b_ptr b)) s' h) ->
  wp (FetchLayerSpan K k) Q s h.
Proof.
  intros HI Hk Hnull Hsome. unfold FetchLayerSpan. rewrite layers_K.
  apply wp_bind, wp_span_layer; [lia|]. destruct (span_layers_ s !! k) as [l|] eqn:El.
  - apply wp_bind. eapply (wp_PopSpanFromLayer cfg base N); [exact HI|exact El| |].
    + intros Hno. simpl. apply wp_ret. by apply Hnull.
    + intros L b R s' -> Hf Hlen _ HI'. unfold is_null. rewrite (proj2 (Z.eqb_neq _ _)).
      2:{ eapply Inv_ptr_not_null; [exact HI|set_solver]. }
      apply wp_bind. subst k.
      eapply (wp_OccupySpan cfg base N) with (b := with_state (BHand 0) b); [exact HI'|done|by left|].
      intros s2 r HI2. apply wp_ret. by eapply Hsome.
  - apply wp_ret, Hnull. by eapply Inv_no_layer.
Qed.

Lemma no_free_at bs k : (forall p, ~ free_at bs p k) -> forall b, b ∈ bs -> b_state b = BFree -> b_len b <> k.
Proof. intros H b Hb Hf Hl. apply (H (b_ptr b)). by exists b. Qed.

(** A longer block. *)
Lemma wp_FetchSplitedSpan (Q : Status + Z -> AllocState -> History AlOp -> Prop) s h bs T k y size :
  Inv s h bs [] T -> 0 < k < y -> y ∈ span_layer_ids_ s ->
  (forall s' h', Inv s' h' bs [] T -> span_new_fails env -> Q (inr nullptr) s' h') ->
  (forall L b R p r s' h', bs = L ++ b :: R -> b_state b = BFree -> b_len b = y ->
     p ∉ ptrs bs -> p <> nullptr ->
     Inv s' h' (L ++ cut_left (b_len b - k) b :: occupied r (cut_right (b_len b - k) p b) :: R) [] T ->
     Q (inr p) s' h') ->
  wp (FetchSplitedSpan K k y size) Q s h.
Proof.
  intros HI Hk Hy Hnull Hsome. pose proof (i_lists _ _ _ _ _ _ _ _ HI) as HL.
  apply (lo_ids _ _ _ _ _ _ HL) in Hy as [q Hq].
  destruct (lo_has _ _ _ _ _ _ HL _ _ Hq) as [l Hl].
  destruct (lo_layer _ _ _ _ _ _ HL _ _ Hl) as (_ & Hr & _).
  unfold FetchSplitedSpan. rewrite layers_K. rewrite (proj2 (Z.leb_gt _ _)) by lia. cbn [orb].
  apply wp_bind, wp_span_layer; [done|]. rewrite Hl. apply wp_bind.
  eapply (wp_PopSpanFromLayer cfg base N); [exact HI|exact Hl| |].
  - intros Hno. by destruct (Hno q).
  - intros L b R s' -> Hf Hlen Hlayer HI'. unfold is_null. rewrite (proj2 (Z.eqb_neq _ _)).
    2:{ eapply Inv_ptr_not_null; [exact HI|set_solver]. }
    subst y. eapply wp_SplitSpan; [exact HI'|done| |done|lia|exact Hnull|].
    + by eapply Inv_free_plen.
    + intros p r s2 h2 Hp Hpn HI2. by eapply Hsome.
Qed.

Lemma wp_AllocImp (Q : Status + Z -> AllocState -> History AlOp -> Prop) s h bs T size :
  Inv s h bs [] T -> 0 <= size <= page_mem_size_total_threshold cfg ->
  let k := alloc_pages cfg size in
  (forall s' h', Inv s' h' bs [] T -> no_fit env cfg k bs -> Q (inr nullptr) s' h') ->
  (forall p bs' s' h', p <> nullptr -> alloc_step k size bs p bs' -> Inv s' h' bs' [] T -> Q (inr p) s' h') ->
  wp (AllocImp K size) Q s h.
Proof.
  intros HI Hsize k Hnull Hsome. assert (Hk : 0 < k) by apply alloc_pages_pos.
  pose proof (fix_layer_eq cfg Hcfg size Hsize) as Hfix. fold K k in Hfix.
  unfold AllocImp. change (config_ K) with cfg. rewrite Hfix. clear Hfix.
  destruct (Z.leb_spec (span_layer_capacity_ K) k) as [Hbig|Hsmall].
  { apply wp_ret, Hnull; [done|].
    assert (forall b, b ∈ bs -> b_len b < k).
    { intros b Hb. pose proof (Inv_len_bound _ _ _ _ _ _ HI Hb). pose proof (cap_K cfg). unfold K in *. lia. }
    split; [|right; left]; intros b Hb _; specialize (H b Hb); lia. }
  assert (Hcap : k < cap cfg) by exact Hsmall. clear Hsmall.
  apply wp_bind. eapply wp_FetchLayerSpan; [exact HI|lia| |].
  2:{ intros L b R r s1 -> Hf Hlen HI1.
      assert (Hbn : b_ptr b <> nullptr) by (eapply Inv_ptr_not_null; [exact HI|set_solver]).
      unfold is_null. rewrite (proj2 (Z.eqb_neq _ _)) by done.
      apply wp_bind, wp_ret. rewrite (proj2 (Z.eqb_neq _ _)) by done. apply wp_bind.
      eapply wp_set_real; [exact HI1|]. intros s2 HI2. apply wp_ret.
      eapply Hsome; [done|by apply alloc_exact|]. by rewrite Hlen in HI2. }
  intros Hno. pose proof (no_free_at _ _ Hno) as Hno'. cbn [is_null Z.eqb nullptr].
  pose proof (i_lists _ _ _ _ _ _ _ _ HI) as HL.
  apply wp_bind, wp_bind, wp_get.
  assert (Hu : u32 (k + 1) = k + 1).
  { apply u32_small. pose proof (cap_eq cfg Hcfg). destruct Hcfg as (_ & _ & Ht). fold (page cfg) in Ht.
    unfold UINT32_MAX in Ht. split; lia. }
  rewrite Hu. destruct (Z.eq_dec (span_layer_lift_max cfg) 0) as [Hl0|Hl0].
  { unfold FindFitLayerId. rewrite Hl0. simpl (0 =? 0). cbv iota.
    rewrite (proj2 (Z.leb_le _ _)) by (apply invalid_layer). do 2 apply wp_ret. apply Hnull; [done|].
    split; [done|by left]. }
  destruct (FindFitLayerId_spec (span_layer_ids_ s) (k + 1) (span_layer_lift_max cfg)
    (lo_sorted _ _ _ _ _ _ HL) Hl0) as [[-> Hnone]|(y & -> & Hy & Hky & Hmin)].
  { rewrite (proj2 (Z.leb_le _ _)) by (apply invalid_layer). do 2 apply wp_ret. apply Hnull; [done|].
    split; [done|right; left]. intros b Hb Hf.
    assert (b_len b ∈ span_layer_ids_ s) by (apply (lo_ids _ _ _ _ _ _ HL); exists (b_ptr b), b; done).
    specialize (Hnone _ H). specialize (Hno' b Hb Hf). lia. }
  assert (Hmin' : forall b, b ∈ bs -> b_state b = BFree -> k <= b_len b -> y <= b_len b).
  { intros b Hb Hf Hl. specialize (Hno' b Hb Hf). apply Hmin; [|lia].
    apply (lo_ids _ _ _ _ _ _ HL). exists (b_ptr b), b. done. }
  assert (Hycap : y < cap cfg).
  { apply (lo_ids _ _ _ _ _ _ HL) in Hy as [q Hq]. destruct (lo_has _ _ _ _ _ _ HL _ _ Hq) as [l Hl].
    by destruct (lo_layer _ _ _ _ _ _ HL _ _ Hl) as (_ & [_ ?] & _). }
  rewrite (proj2 (Z.leb_gt _ _)) by exact Hycap.
  eapply wp_FetchSplitedSpan; [exact HI|lia|exact Hy| |].
  - intros s' h' HI' Hev. cbn [is_null Z.eqb nullptr]. apply wp_ret, Hnull; [done|]. split; [done|by right; right].
  - intros L b R p r s' h' -> Hf Hlen Hp Hpn HI'. subst y.
    unfold is_null. rewrite (proj2 (Z.eqb_neq _ _)) by done. apply wp_bind.
    rewrite (cons_middle (cut_left _ _)), app_assoc in HI'.
    eapply (wp_set_real _ _ _ _ (cut_right (b_len b - k) p b)); [exact HI'|].
    intros s2 HI2. apply wp_ret. eapply Hsome; [done|apply alloc_split; [done|lia|done|exact Hmin']|].
    rewrite <- app_assoc in HI2. simpl in HI2. by replace (b_len b - (b_len b - k)) with k in HI2 by lia.
Qed.

(** [ScalableAllocator::Alloc]: besides the blocks, the running totals. *)
Lemma wp_ScalableAllocator_Alloc (Q : Status + Z -> AllocState -> History AlOp -> Prop) s h bs T size :
  Inv s h bs [] T -> 0 <= size ->
  let k := alloc_pages cfg size in
  (forall s' h', Inv s' h' bs [] T -> (page_mem_size_total_threshold cfg < size \/ no_fit env cfg k bs) ->
     Q (inr nullptr) s' h') ->
  (forall p bs' s' h', p <> nullptr -> size <= page_mem_size_total_threshold cfg ->
     alloc_step k size bs p bs' -> Inv s' h' bs' [] (u64 (T.1 + pg * k), u64 (T.2 + size)) ->
     Q (inr p) s' h') ->
  wp (ScalableAllocator_Alloc K size) Q s h.
Proof.
  intros HI Hsize k Hnull Hsome. unfold ScalableAllocator_Alloc. change (config_ K) with cfg.
  destruct (Z.ltb_spec (page_mem_size_total_threshold cfg) size) as [Hbig|Hle].
  { apply wp_ret, Hnull; auto. }
  apply wp_bind. eapply wp_AllocImp; [exact HI|lia| |].
  - intros s' h' HI' Hno. cbn [is_null Z.eqb nullptr]. apply wp_ret, Hnull; auto.
  - intros p bs' s' h' Hp Hstep HI'. unfold is_null. rewrite (proj2 (Z.eqb_neq _ _)) by done.
    assert (exists L R, bs' = L ++ used_block size p k :: R) as (L & R & ->).
    { inversion Hstep; subst; [done|by eexists _, _|]. eexists (L ++ [_]), _. by rewrite <- app_assoc. }
    destruct (Inv_focus _ _ _ _ _ _ _ _ _ _ HI') as (sp & Hsp & Hok).
    destruct (Inv_prefix_bound _ _ _ _ _ _ _ HI') as [Hb1 Hb2]. simpl in Hb2.
    assert (Hk : 0 < k) by apply alloc_pages_pos. pose proof (page_range cfg Hcfg).
    apply wp_bind. eapply wp_span_at; [exact Hsp|]. apply wp_bind, wp_modify, wp_ret.
    eapply Hsome; [done|done|exact Hstep|].
    destruct HI' as [H1 H2 H3 H4 H5 H6 H7 H8 H9 H10 [H11 H12]]. split; try done.
    cbn [set_stats stats theory_size_ real_theory_size_ fst snd]. rewrite H11, H12.
    unfold PageSpan_GetSize. change (page_idem_num (config_ K)) with (page_idem_num cfg).
    rewrite (so_page_len _ _ _ _ _ Hok), (so_real _ _ _ _ _ Hok size) by done.
    rewrite (PageLen_GetMemSize_small cfg Hcfg) by (simpl; nia). done.
Qed.

(** ** Release *)

Definition no_hand bs : Prop := forall b, b ∈ bs -> forall c, b_state b <> BHand c.

(** A block in hand, [n] pages longer. *)
Definition grow (n : Z) (b : Blk) : Blk :=
  {| b_ptr := b_ptr b; b_len := b_len b + n; b_plen := b_len b + n; b_state := b_state b |}.

Lemma grow_0 b : b_plen b = b_len b -> grow 0 b = b.
Proof. destruct b as [p l pl st]; unfold grow; simpl. rewrite Z.add_0_r. by intros ->. Qed.

Lemma wp_PickOutBuddy_null (Q : Status + Z -> AllocState -> History AlOp -> Prop) s h :
  Q (inr nullptr) s h -> wp (PickOutBuddy K nullptr) Q s h.
Proof. intros HQ. unfold PickOutBuddy. rewrite orb_true_r. by apply wp_ret. Qed.

Lemma wp_PickOutBuddy_used (Q : Status + Z -> AllocState -> History AlOp -> Prop) s h L b R T :
  Inv s h (L ++ b :: R) [] T -> no_hand [b] -> b_state b <> BFree ->
  Q (inr nullptr) s h -> wp (PickOutBuddy K (b_ptr b)) Q s h.
Proof.
  intros HI Hno Hf HQ. destruct (Inv_focus _ _ _ _ _ _ _ _ _ _ HI) as (sp & Hsp & Hok).
  unfold PickOutBuddy, is_null. rewrite layers_K, (proj2 (Z.eqb_neq _ _)).
  2:{ eapply Inv_ptr_not_null; [exact HI|set_solver]. }
  apply wp_bind. eapply wp_span_at; [exact Hsp|]. rewrite (so_count _ _ _ _ _ Hok).
  destruct (b_state b) eqn:E; [done| |by apply wp_ret]. by destruct (Hno b ltac:(by left) count).
Qed.

Lemma wp_PickOutBuddy_free (Q : Status + Z -> AllocState -> History AlOp -> Prop) s h L b R T :
  Inv s h (L ++ b :: R) [] T -> b_state b = BFree -> b_plen b = b_len b ->
  (forall s', Inv s' h (L ++ with_state (BHand 0) b :: R) [] T -> Q (inr (b_ptr b)) s' h) ->
  wp (PickOutBuddy K (b_ptr b)) Q s h.
Proof.
  intros HI Hf Hp HQ. destruct (Inv_focus _ _ _ _ _ _ _ _ _ _ HI) as (sp & Hsp & Hok).
  destruct (Inv_free_layer _ _ _ _ _ _ _ _ _ _ HI Hf) as (Hr & l & Hl & _).
  unfold PickOutBuddy, is_null. rewrite layers_K, (proj2 (Z.eqb_neq _ _)).
  2:{ eapply Inv_ptr_not_null; [exact HI|set_solver]. }
  apply wp_bind. eapply wp_span_at; [exact Hsp|].
  rewrite (so_count _ _ _ _ _ Hok), (so_page_len _ _ _ _ _ Hok), Hf, Hp. cbn [b_count Z.eqb negb].
  rewrite (proj2 (Z.leb_gt _ _)) by (change (span_layer_capacity_ K) with (cap cfg); lia).
  apply wp_bind, wp_span_layer; [lia|]. rewrite Hl. apply wp_bind.
  eapply (wp_RemoveFromLayer cfg base N); [exact HI|done|]. intros s' HI'. by apply wp_ret, HQ.
Qed.

(** A free block next to another one knows its length. *)
Lemma free_plen_right s h L b c R T : Inv s h (L ++ b :: c :: R) [] T -> b_state c = BFree -> b_plen c = b_len c.
Proof.
  intros HI Hf. rewrite (cons_middle b), app_assoc in HI.
  destruct (Inv_free_plen _ _ _ _ _ _ _ _ _ _ HI Hf) as [?|(_ & H & _)]; [done|]. by destruct L.
Qed.
Lemma free_plen_left s h L b c R T : Inv s h (L ++ c :: b :: R) [] T -> b_state c = BFree -> b_plen c = b_len c.
Proof. intros HI Hf. by destruct (Inv_free_plen _ _ _ _ _ _ _ _ _ _ HI Hf) as [?|(_ & _ & H)]. Qed.

Lemma len_max s h L b R ex T : Inv s h (L ++ b :: R) ex T -> sum_len L + b_len b <= UINT32_MAX.
Proof.
  intros HI. pose proof (Inv_prefix_bound _ _ _ _ _ _ _ HI). pose proof (cap_eq cfg Hcfg).
  destruct Hcfg as (_ & _ & Ht). fold (page cfg) in Ht. lia.
Qed.

(** Merge two neighbours in hand and destroy the right span. *)
Lemma wp_merge_free (k : M AlOp AllocState Z) (Q : Status + Z -> AllocState -> History AlOp -> Prop) s h L b1 b2 R T :
  Inv s h (L ++ b1 :: b2 :: R) [] T ->
  b_state b1 = BHand 0 -> b_state b2 = BHand 0 -> b_plen b1 = b_len b1 -> b_plen b2 = b_len b2 ->
  (forall s', Inv s' h (L ++ grow (b_len b2) b1 :: R) [] T -> wp k Q s' h) ->
  wp (MergeBuddy (b_ptr b1) (b_ptr b2) ;; SpanAllocator_Free (b_ptr b2) ;; k) Q s h.
Proof.
  intros HI Hs1 Hs2 Hp1 Hp2 HQ. apply wp_bind. eapply (wp_MergeBuddy cfg base N); [exact HI|done..| |].
  - rewrite (cons_middle b1), app_assoc in HI. pose proof (len_max _ _ _ _ _ _ _ HI) as Hm.
    rewrite sum_len_app in Hm. simpl in Hm.
    assert (0 <= sum_len L); [|lia]. apply sum_len_nonneg. intros c Hc.
    eapply Inv_len_bound; [exact HI|set_solver].
  - intros s1 sp2 HI1 _. apply wp_bind. eapply (wp_SpanAllocator_Free cfg base N); [exact HI1|].
    intros s2 HI2 _ _. by apply HQ.
Qed.

Lemma wp_TryMergeNext (Q : Status + Z -> AllocState -> History AlOp -> Prop) s h L b R T :
  Inv s h (L ++ b :: R) [] T -> b_state b = BHand 0 -> b_plen b = b_len b -> no_hand R ->
  (forall Ro R' s', R = Ro ++ R' -> free_on_right Ro R' ->
     Inv s' h (L ++ grow (sum_len Ro) b :: R') [] T -> Q (inr (b_ptr b)) s' h) ->
  wp (TryMergeNext K (b_ptr b)) Q s h.
Proof.
  intros HI Hs Hp Hno HQ. destruct (Inv_focus _ _ _ _ _ _ _ _ _ _ HI) as (sp & Hsp & Hok).
  unfold TryMergeNext. apply wp_bind. eapply wp_span_at; [exact Hsp|].
  rewrite (so_next _ _ _ _ _ Hok). apply wp_bind. destruct R as [|c R]; simpl (hd_ptr _ _).
  { apply wp_PickOutBuddy_null. cbn [is_null Z.eqb nullptr]. apply wp_ret.
    apply (HQ [] []); [done|by left|]. simpl. by rewrite grow_0. }
  pose proof HI as HI'. rewrite (cons_middle b), app_assoc in HI'.
  destruct (decide (b_state c = BFree)) as [Hf|Hf].
  - pose proof (free_plen_right _ _ _ _ _ _ _ HI Hf) as Hpc.
    eapply wp_PickOutBuddy_free; [exact HI'|done|done|]. intros s1 HI1.
    unfold is_null. rewrite (proj2 (Z.eqb_neq _ _)).
    2:{ eapply Inv_ptr_not_null; [exact HI|set_solver]. }
    rewrite <- app_assoc in HI1.
    eapply (wp_merge_free _ _ _ _ _ b (with_state (BHand 0) c)); [exact HI1|done..|].
    intros s2 HI2. apply wp_ret, (HQ [c] R); [done|right; eauto|]. simpl. by rewrite Z.add_0_r.
  - eapply wp_PickOutBuddy_used; [exact HI'| |done|].
    { intros x ->%list_elem_of_singleton. apply Hno. by left. }
    cbn [is_null Z.eqb nullptr]. apply wp_ret, (HQ [] (c :: R)); [done| |simpl; by rewrite grow_0].
    left. split; [done|]. intros R' d Hd. by simplify_eq.
Qed.

Lemma wp_TryMergePrev (Q : Status + Z -> AllocState -> History AlOp -> Prop) s h L b R T :
  Inv s h (L ++ b :: R) [] T -> b_state b = BHand 0 -> b_plen b = b_len b -> no_hand L ->
  (forall L' Lo b' s', L = L' ++ Lo -> free_on_left L' Lo ->
     b' = {| b_ptr := hd_ptr (b_ptr b) Lo; b_len := sum_len Lo + b_len b;
             b_plen := sum_len Lo + b_len b; b_state := BHand 0 |} ->
     Inv s' h (L' ++ b' :: R) [] T -> Q (inr (b_ptr b')) s' h) ->
  wp (TryMergePrev K (b_ptr b)) Q s h.
Proof.
  intros HI Hs Hp Hno HQ. destruct (Inv_focus _ _ _ _ _ _ _ _ _ _ HI) as (sp & Hsp & Hok).
  unfold TryMergePrev. apply wp_bind. eapply wp_span_at; [exact Hsp|].
  rewrite (so_prev _ _ _ _ _ Hok). apply wp_bind.
  assert (Hself : b = {| b_ptr := b_ptr b; b_len := 0 + b_len b; b_plen := 0 + b_len b; b_state := BHand 0 |}).
  { destruct b as [p l pl st]; simpl in *. by subst. }
  destruct (decide (L = [])) as [->|Hne].
  { apply wp_PickOutBuddy_null. cbn [is_null Z.eqb nullptr]. apply wp_ret.
    apply (HQ [] [] b); [done| |exact Hself|done]. left. split; [done|]. intros L' c Hc. by destruct L'. }
  destruct (exists_last Hne) as (L' & c & ->). rewrite last_ptr_app. simpl (last_ptr _ _).
  pose proof HI as HI'. rewrite <- app_assoc in HI'. simpl in HI'.
  destruct (decide (b_state c = BFree)) as [Hf|Hf].
  - pose proof (free_plen_left _ _ _ _ _ _ _ HI' Hf) as Hpc.
    eapply wp_PickOutBuddy_free; [exact HI'|done|done|]. intros s1 HI1.
    unfold is_null. rewrite (proj2 (Z.eqb_neq _ _)).
    2:{ eapply Inv_ptr_not_null; [exact HI|set_solver]. }
    eapply (wp_merge_free _ _ _ _ _ (with_state (BHand 0) c) b); [exact HI1|done..|].
    intros s2 HI2. apply wp_ret.
    apply (HQ L' [c] (grow (b_len b) (with_state (BHand 0) c)) s2); [done|right; eauto| |done].
    unfold grow. simpl. by rewrite Z.add_0_r.
  - eapply wp_PickOutBuddy_used; [exact HI'| |done|].
    { intros x ->%list_elem_of_singleton. apply Hno. set_solver. }
    cbn [is_null Z.eqb nullptr]. apply wp_ret, (HQ (L' ++ [c]) [] b); [by rewrite app_nil_r| |exact Hself|done].
    left. split; [done|]. intros L'' d Hd. apply app_inj_tail in Hd as [_ <-]. done.
Qed.

Lemma wp_FreeSpan (Q : Status + unit -> AllocState -> History AlOp -> Prop) s h L b R T :
  Inv s h (L ++ b :: R) [] T -> b_state b = BHand 0 -> b_plen b = b_len b ->
  (forall s' h', Inv s' h' (L ++ with_state BFree b :: R) [] T -> Q (inr tt) s' h') ->
  wp (FreeSpan K (b_ptr b)) Q s h.
Proof.
  intros HI Hs Hp HQ. destruct (Inv_focus _ _ _ _ _ _ _ _ _ _ HI) as (sp & Hsp & Hok).
  pose proof (Inv_prefix_bound _ _ _ _ _ _ _ HI) as Hb. pose proof (so_pos _ _ _ _ _ Hok).
  unfold FreeSpan. apply wp_bind. eapply wp_span_at; [exact Hsp|].
  rewrite (so_page_len _ _ _ _ _ Hok), Hp. apply wp_bind.
  eapply (wp_FetchSpanLayer cfg base N); [done|exact HI|lia|]. intros s1 h1 HI1 Hl1 _.
  apply wp_bind. eapply (wp_PushSpanToLayer cfg base N); [exact HI1|done|done|by left|].
  intros s2 HI2. apply wp_modify, HQ.
  destruct HI2 as [H1 H2 H3 H4 H5 H6 H7 H8 H9 H10 [H11 H12]]. by split.
Qed.

(** The last reference of a block in use is dropped and its span leaves the occupied
    list. *)
Lemma Inv_release s h L b n R T sp sp' st' :
  Inv s h (L ++ b :: R) [] T -> b_state b = BUsed n -> spans s !! b_ptr b = Some sp ->
  sp' = set_mem (mb_release (span_mem sp)).1 sp ->
  let s' := set_occupied (filter (fun q => q <> b_ptr b) (occupied_spans_ s))
              (set_stats st' (set_spans (span_elems s) (<[b_ptr b := sp']> (spans s)) s)) in
  theory_size_ (stats s') = T.1 /\ real_theory_size_ (stats s') = T.2 ->
  Inv s' h (L ++ with_state (BHand 0) b :: R) [] T.
Proof.
  intros HI Hu Hsp -> s' Hst. pose proof (Inv_nodup _ _ _ _ _ _ _ _ HI) as Hb.
  assert (Hb' : NoDup (ptrs (L ++ with_state (BHand 0) b :: R))) by (by rewrite ptrs_app in *).
  eapply Inv_change; [exact HI|done..| | | | | |]; try done.
  - intros sp' Hsp'. simplify_eq. eexists. split; [done|]. intros []. rewrite Hu in *.
    destruct (mb_release_last (span_mem sp) so_count) as [Hc _]. split; try done.
    simpl. by rewrite mb_release_addr.
  - destruct (used_not_free _ _ _ _ _ _ _ _ _ _ HI) as [HU _].
    eapply lists_ok_ext; [eapply (lists_release _ _ _ _ _ (used_ptrs (L ++ R)) (b_ptr b)); [|done]| |].
    + eapply lists_ok_ext; [exact (i_lists _ _ _ _ _ _ _ _ HI)|done|]. by rewrite used_ptrs_focus, Hu.
    + intros p i. rewrite !free_at_focus by done. simpl. rewrite Hu. naive_solver.
    + by rewrite used_ptrs_focus.
  - destruct Hst as [-> _]. by destruct HI as [_ _ _ _ _ _ _ _ _ _ [-> _]].
  - destruct Hst as [_ ->]. by destruct HI as [_ _ _ _ _ _ _ _ _ _ [_ ->]].
Qed.

Lemma Inv_totals s h bs T T' st :
  Inv s h bs [] T -> theory_size_ (st (stats s)) = T'.1 /\ real_theory_size_ (st (stats s)) = T'.2 ->
  Inv (set_stats st s) h bs [] T'.
Proof. intros [H1 H2 H3 H4 H5 H6 H7 H8 H9 H10 _] H. by split. Qed.

Lemma wp_MemBlock_Free (Q : Status + unit -> AllocState -> History AlOp -> Prop) s h bs T p b n :
  Inv s h bs [] T -> no_hand bs -> b ∈ bs -> b_ptr b = p -> b_state b = BUsed n -> n <= T.1 ->
  (forall bs' s' h', free_step p bs bs' ->
     Inv s' h' bs' [] (u64 (T.1 - pg * b_len b), u64 (T.2 - n)) -> Q (inr tt) s' h') ->
  wp (MemBlock_Free K p) Q s h.
Proof.
  intros HI Hno Hb <- Hu Hn HQ. pose proof (Inv_ptr_not_null _ _ _ _ _ _ _ _ _ HI Hb) as Hnn.
  apply list_elem_of_split in Hb as (L & R & ->).
  destruct (Inv_focus _ _ _ _ _ _ _ _ _ _ HI) as (sp & Hsp & Hok).
  assert (Hplen : b_plen b = b_len b).
  { pose proof (so_plen _ _ _ _ _ Hok) as H. unfold plen_ok in H. by rewrite Hu in H. }
  pose proof (so_count _ _ _ _ _ Hok) as Hc. rewrite Hu in Hc. simpl in Hc.
  destruct (mb_release_last _ Hc) as [_ Hlast].
  unfold MemBlock_Free. apply wp_bind. eapply wp_span_at; [exact Hsp|].
  destruct (mb_release (span_mem sp)) as [mb last] eqn:Er. simpl in Hlast. subst last.
  apply wp_bind, wp_modify. unfold ScalableAllocator_Free, is_null.
  rewrite (proj2 (Z.eqb_neq _ _)) by done. apply wp_bind.
  eapply wp_span_at; [cbn [set_spans spans]; apply lookup_insert_eq|].
  apply wp_bind, wp_modify, wp_bind, wp_get. cbn [set_stats set_spans occupied_spans_].
  rewrite bool_decide_true.
  2:{ rewrite (lo_occ _ _ _ _ _ _ (i_lists _ _ _ _ _ _ _ _ HI)), used_ptrs_focus, Hu. by left. }
  apply wp_bind, wp_modify.
  set (T' := (u64 (T.1 - pg * b_len b), u64 (T.2 - n))).
  match goal with |- wp _ _ ?s1 _ => assert (HI1 : Inv s1 h (L ++ with_state (BHand 0) b :: R) [] T') end.
  { pose proof (i_totals _ _ _ _ _ _ _ _ HI) as [Ht1 Ht2].
    set (st := fun t : AllocStats => _).
    pose proof (Inv_release s h L b n R T sp _ (fun t => t) HI Hu Hsp eq_refl) as HR. rewrite Er in HR.
    specialize (HR (conj Ht1 Ht2)). eapply (Inv_totals _ _ _ _ T' st) in HR; [exact HR|].
    cbn [set_stats set_occupied set_spans stats]. unfold st, T'.
    change (real_size_ (set_mem mb sp)) with (real_size_ sp).
    rewrite Ht1, (so_real _ _ _ _ _ Hok n Hu), (proj2 (Z.leb_le _ _)) by done.
    cbn [theory_size_ real_theory_size_ fst snd]. rewrite Ht2. split; [|done]. f_equal. f_equal.
    unfold PageSpan_GetSize. change (page_idem_num (config_ K)) with (page_idem_num cfg).
    cbn [set_mem page_len_]. rewrite (so_page_len _ _ _ _ _ Hok), Hplen.
    destruct (Inv_prefix_bound _ _ _ _ _ _ _ HI). pose proof (so_pos _ _ _ _ _ Hok).
    pose proof (page_range cfg Hcfg). apply (PageLen_GetMemSize_small cfg Hcfg); nia. }
  apply wp_bind. eapply wp_TryMergeNext with (b := with_state (BHand 0) b); [exact HI1|done|done| |].
  { intros c Hc'. apply Hno. set_solver. }
  intros Ro R' s2 -> HRo HI2. apply wp_bind.
  eapply wp_TryMergePrev with (b := grow (sum_len Ro) (with_state (BHand 0) b)); [exact HI2|done|done| |].
  { intros c Hc'. apply Hno. set_solver. }
  intros L' Lo b' s3 -> HLo -> HI3. eapply wp_FreeSpan; [exact HI3|done|done|].
  intros s4 h4 HI4. eapply HQ; [|exact HI4].
  pose proof (free_merge (b_ptr b) L' Lo b n Ro R' eq_refl Hu HLo HRo) as Hstep.
  rewrite <- app_assoc. unfold free_block in Hstep. unfold with_state. simpl.
  by replace (sum_len Lo + (b_len b + sum_len Ro)) with (sum_len Lo + b_len b + sum_len Ro) by lia.
Qed.
End Steps.

(** * Initialisation *)
Section Init.
Context `{Bk : MemBlockApi} {BkL : MemBlockLaws Bk} `{Gs : GeStatus} `{env : Environment AlOp}.
Context (Hfresh : news_fresh env) (Hlayers : layers_available env).
Context (cfg : ScalableConfig) (Hcfg : config_ok cfg).

Let K := AllocParams_new cfg.
Local Notation pg := (page cfg).
Implicit Types (s : AllocState) (h : History AlOp).

(** Before the region is known: no blocks. *)
Definition blank s h : Prop := Inv cfg 0 0 s h [] [] (0, 0).

(** The only span outside the region changes. *)
Lemma Inv_extra s h base N bs p sp sp' T :
  Inv cfg base N s h bs [(p, sp)] T ->
  Inv cfg base N (set_spans (span_elems s) (<[p := sp']> (spans s)) s) h bs [(p, sp')] T.
Proof.
  intros HI. pose proof (i_ptrs _ _ _ _ _ _ _ _ HI) as Hnd. apply NoDup_app in Hnd as (_ & Hnd & _).
  assert (Hp : p ∉ ptrs bs) by (intros Hin; apply (Hnd _ Hin); by left).
  apply (Inv_reshape cfg base N s _ h bs [(p, sp)] bs [(p, sp')] T HI); try done.
  - by apply chain_insert, (i_chain _ _ _ _ _ _ _ _ HI).
  - apply insert_dom. exists sp. eapply i_ex; [exact HI|by left].
  - intros q sq Hq%list_elem_of_singleton. simplify_eq. apply lookup_insert_eq.
Qed.

(** The count of a new span is driven to zero. *)
Lemma wp_drop_count (Q : Status + unit -> AllocState -> History AlOp -> Prop) s h p sp :
  Inv cfg 0 0 s h [] [(p, sp)] (0, 0) -> mb_count (span_mem sp) = 1 ->
  (forall s' sp', Inv cfg 0 0 s' h [] [(p, sp')] (0, 0) -> mb_count (span_mem sp') = 0 ->
     mb_addr (span_mem sp') = mb_addr (span_mem sp) -> page_len_ sp' = page_len_ sp ->
     buddy_prev_ sp' = buddy_prev_ sp -> buddy_next_ sp' = buddy_next_ sp -> Q (inr tt) s' h) ->
  wp (drop_count (drop_fuel sp) p) Q s h.
Proof.
  intros HI Hc HQ. unfold drop_fuel. rewrite Hc. cbn [Z.to_nat Pos.to_nat Pos.iter_op Nat.add drop_count].
  apply wp_bind. eapply wp_span_at; [eapply i_ex; [exact HI|by left]|]. rewrite Hc. cbn [Z.ltb Z.compare].
  apply wp_bind, wp_modify, wp_bind. eapply wp_span_at; [cbn [set_spans spans]; apply lookup_insert_eq|].
  assert (Hc' : mb_count (mb_sub (span_mem sp)) = 0) by (rewrite mb_sub_count; lia).
  cbn [set_mem span_mem]. rewrite Hc'. cbn [Z.ltb Z.compare]. apply wp_ret.
  eapply HQ; [eapply Inv_extra; exact HI|done| |done..]. apply mb_sub_addr.
Qed.

(** The first block: the whole region, free, of unknown length. *)
Definition first_block (p N : Z) : Blk := {| b_ptr := p; b_len := N; b_plen := 0; b_state := BFree |}.

Lemma Inv_first s h p sp base N :
  Inv cfg 0 0 s h [] [(p, sp)] (0, 0) -> 0 < N ->
  mb_count (span_mem sp) = 0 -> mb_addr (span_mem sp) = base -> page_len_ sp = 0 ->
  buddy_prev_ sp = nullptr -> buddy_next_ sp = nullptr ->
  Inv cfg base N s h [with_state (BHand 0) (first_block p N)] [] (0, 0).
Proof.
  intros HI HN Hc Ha Hp Hprev Hnext. pose proof (i_ex _ _ _ _ _ _ _ _ HI p sp ltac:(by left)) as Hsp.
  destruct HI as [H1 H2 H3 H4 H5 H6 H7 H8 H9 H10 H11]. split; try done.
  - simpl. split; [|done]. exists sp. split; [done|]. by split.
  - by intros q sq ?%elem_of_nil.
  - simpl. lia.
  - eapply lists_ok_ext; [exact H7| |done].
    intros q i. split; [intros (b & ->%list_elem_of_singleton & _ & Hf & _); done|].
    by intros (b & ?%elem_of_nil & _).
Qed.

Lemma wp_InitFixSizedAllocator (Q : Status + unit -> AllocState -> History AlOp -> Prop) s h base size :
  blank s h -> 0 <= size / pg < 2 ^ 32 -> pg <= size ->
  (forall s' h' p, Inv cfg base (size / pg) s' h' [first_block p (size / pg)] [] (0, 0) ->
     size / pg < cap cfg -> Q (inr tt) s' h') ->
  (forall s' h', blank s' h' -> Q (inl ge_FAILED) s' h') ->
  wp (InitFixSizedAllocator K base size) Q s h.
Proof.
  intros HI HN Hsize HQ HF. pose proof (page_range cfg Hcfg) as Hp.
  assert (HN0 : 0 < size / pg) by (apply Z.div_str_pos; lia).
  assert (Hset : forall b f, blank (set_base b f s) h) by (intros; destruct HI; by split).
  unfold InitFixSizedAllocator. apply wp_bind, wp_get, wp_bind, wp_modify, wp_bind.
  eapply (wp_BlockAlloc cfg 0 0); [done|apply Hset| |].
  { intros s1 h1 HI1 _ _. apply wp_bind, wp_fail. by apply HF. }
  intros p s1 h1 Hpn HI1 _ _. apply wp_bind, wp_require; intros Hn;
    [|unfold is_null in Hn; rewrite (proj2 (Z.eqb_neq _ _)) in Hn by done; done].
  set (sp := PageSpan_new nullptr base size) in *.
  apply wp_on_fail, wp_bind. eapply wp_span_at; [eapply i_ex; [exact HI1|by left]|].
  apply wp_bind, wp_modify, wp_bind.
  match goal with |- wp _ _ ?s2 _ => assert (HI2 : Inv cfg 0 0 s2 h1 [] [(p, sp)] (0, 0)) end.
  { destruct HI1. by split. }
  eapply wp_drop_count; [exact HI2|apply mb_new_count|].
  intros s3 sp3 HI3 Hc3 Ha3 Hl3 Hp3 Hn3.
  change (page_idem_num (config_ K)) with (page_idem_num cfg).
  unfold SpanLayerId_GetIdFromSize, PageLen_GetLenFromSize.
  rewrite Z.shiftr_div_pow2 by (destruct Hcfg; lia). fold (page cfg). rewrite u32_small by (split; lia).
  destruct (Z_lt_ge_dec (size / pg) (cap cfg)) as [Hin|Hout].
  - apply wp_bind. eapply (wp_FetchSpanLayer cfg 0 0); [done|exact HI3|lia|].
    intros s4 h4 HI4 Hl4 _.
    assert (HI5 : Inv cfg base (size / pg) s4 h4 ([] ++ with_state (BHand 0) (first_block p (size / pg)) :: []) [] (0, 0)).
    { eapply Inv_first; [exact HI4|done..| |done| |]; rewrite ?Ha3, ?Hl3, ?Hp3, ?Hn3; try done. apply mb_new_addr. }
    change (size / pg) with (b_len (with_state (BHand 0) (first_block p (size / pg)))) at 1.
    eapply (wp_PushSpanToLayer cfg base (size / pg)); [exact HI5|done|done|by right|].
    intros s6 HI6. by eapply HQ.
  - apply wp_bind. unfold FetchSpanLayer. rewrite (proj2 (Z.leb_le _ _)), orb_true_r.
    2:{ change (cap cfg <= size / pg). lia. }
    apply wp_ret, wp_fail. eapply (wp_SpanAllocator_Free cfg 0 0); [exact HI3|].
    intros s4 HI4 _ _. by apply HF.
Qed.
End Init.
