(* ===== verification/MemPool.v ===== *)
(** llm_datadist/common/llm_mem_pool.cc: the memory pool, a page allocator over one
    registered region with a map from addresses to blocks, a mutex and a condition
    variable.  A call under the mutex is atomic; where the code holds no mutex the
    environment says which calls other threads make in between. *)
From S2P Require Import Prelude StdMap External Effects SpanAllocator.

Section Pool.
Context `{Bk : MemBlockApi} `{Gs : GeStatus} `{env : Environment AlOp}.
Context (cfg : ScalableConfig).

Let K := AllocParams_new cfg.

(** [LlmMemPool]: the allocator with its spans, and [addr_to_mem_block_]. *)
Record LlmMemPool := { pool_alloc : AllocState; addr_to_mem_block_ : list (Z * Z) }.

Let P := M AlOp LlmMemPool.

Definition on_alloc {A} (m : M AlOp AllocState A) : P A :=
  zoom (fun p => Some (pool_alloc p))
       (fun a p => {| pool_alloc := a; addr_to_mem_block_ := addr_to_mem_block_ p |}) (fun _ => m).
Definition set_map (m : list (Z * Z)) (p : LlmMemPool) : LlmMemPool :=
  {| pool_alloc := pool_alloc p; addr_to_mem_block_ := m |}.

(** The default of [SpanAllocatorImp]'s capacity. *)
Definition SPAN_PREPARED_COUNT_DEFAULT : nat := Z.to_nat 10240.

Definition AllocState_new (span_es layer_es : list Z) : AllocState := {|
  stats := {| alloc_succ_count_ := 0; free_succ_count_ := 0; theory_size_ := 0; theory_min_size_ := 0;
              real_theory_size_ := 0; real_theory_min_size_ := 0 |};
  occupied_spans_ := []; span_layers_ := ∅; span_layer_ids_ := []; base_addr_ := nullptr;
  is_fix_sized_ := false; layer_elems := layer_es; span_elems := span_es; spans := ∅ |}.

(** [LlmMemPool::LlmMemPool] with the constructors of its members. *)
Definition LlmMemPool_new : P unit :=
  let* span_es := on_alloc (ObjectAllocator_new SpanElem SPAN_PREPARED_COUNT_DEFAULT) in
  let* layer_es := on_alloc (ObjectAllocator_new LayerElem (Z.to_nat (span_layer_prepared_count cfg))) in
  put {| pool_alloc := AllocState_new span_es layer_es; addr_to_mem_block_ := [] |}.

(** [LlmMemPool::~LlmMemPool], then the destructor of the allocator. *)
Definition LlmMemPool_destroy : P unit :=
  let* p := get in
  for_each (addr_to_mem_block_ p) (fun '(_, block) => on_alloc (MemBlock_Free K block)) ;;
  on_alloc (Finalize K).

Definition kMinPageShift : Z := 10.
Definition kMaxPageShift : Z := 30.

Definition LlmMemPool_Initialize (base_addr size : Z) : P unit :=
  let page_shift := page_idem_num cfg in
  require ((kMinPageShift <=? page_shift) && (page_shift <=? kMaxPageShift)) ge_LLM_PARAM_INVALID ;;
  require (u64 (Z.shiftl 1 page_shift) <=? size) ge_LLM_PARAM_INVALID ;;
  on_alloc (InitFixSizedAllocator K base_addr size).

(** Under [mu_]. *)
Definition LlmMemPool_Alloc (size : Z) : P Z :=
  let* span := on_alloc (ScalableAllocator_Alloc K size) in
  if is_null span then ret nullptr else
  let* sp := on_alloc (span_at span) in
  let memory := mb_addr (span_mem sp) in
  modify (fun p => set_map (std_set memory span (addr_to_mem_block_ p)) p) ;;
  ret memory.

Definition LlmMemPool_Free (addr : Z) : P unit :=
  let* p := get in
  match std_find addr (addr_to_mem_block_ p) with
  | None => ret tt
  | Some block =>
      on_alloc (MemBlock_Free K block) ;;
      modify (fun p => set_map (std_erase addr (addr_to_mem_block_ p)) p)
  end.

(** A call of the interface; the result of [Free] is nothing. *)
Definition pool_call (c : PoolCall) : P Z :=
  match c with
  | PcAlloc size => LlmMemPool_Alloc size
  | PcFree addr => LlmMemPool_Free addr ;; ret nullptr
  end.

Fixpoint pool_calls (cs : list PoolCall) : P (list Z) :=
  match cs with
  | [] => ret []
  | c :: cs' => let* a := pool_call c in let* l := pool_calls cs' in ret (a :: l)
  end.

(** What other threads do while this one holds no mutex. *)
Definition others : P unit :=
  let* cs := call OtherThreads in
  let* _ := pool_calls cs in
  ret tt.

(** [LlmMemPool::Alloc(size, timeout_in_ms)]; the clock counts nanoseconds, and
    [true] from the condition variable is [std::cv_status::timeout]. *)
Fixpoint alloc_until (fuel : nat) (size tp_end : Z) : P Z :=
  match fuel with
  | O => stuck
  | S fuel =>
      others ;;
      let* addr := LlmMemPool_Alloc size in
      if negb (is_null addr) then ret addr else
      let* now := call SteadyClockNow in
      if tp_end <=? now then ret nullptr else
      others ;;
      let* addr := LlmMemPool_Alloc size in
      if negb (is_null addr) then ret addr else
      let* timeout := call (CvWaitUntil tp_end) in
      others ;;
      if timeout : bool then LlmMemPool_Alloc size else alloc_until fuel size tp_end
  end.

Definition LlmMemPool_AllocTimed (fuel : nat) (size timeout_in_ms : Z) : P Z :=
  let* now := call SteadyClockNow in
  let tp_end := now + timeout_in_ms * 1000000 in
  alloc_until fuel size tp_end.

(** [LlmMemPool::MakeShared]: what runs when the last owner lets go. *)
Definition MakeShared_deleter (address : Z) : P unit :=
  if is_null address then ret tt else LlmMemPool_Free address.
End Pool.
