(* ===== verification/MemPoolSpec.v ===== *)
(** The specification of the memory pool in terms of its callers (the blocks that are
    allocated and not yet freed), its invariant, and what each call does to both. *)
From S2P Require Import Prelude StdMap External Effects SpanAllocator SpanAllocatorSpec SpanAllocatorSafety MemPool.

(** * The specification: the live allocations, as (address, requested size) *)
Definition live_after (live : list (Z * Z)) (c : PoolCall) (result : Z) : list (Z * Z) :=
  match c with
  | PcAlloc size => if result =? nullptr then live else (result, size) :: live
  | PcFree addr => filter (fun e => e.1 <> addr) live
  end.

Fixpoint live_run (live : list (Z * Z)) (cs : list PoolCall) (results : list Z) : list (Z * Z) :=
  match cs, results with
  | c :: cs', r :: rs' => live_run (live_after live c r) cs' rs'
  | _, _ => live
  end.

Section Live.
Context (cfg : ScalableConfig) (base : Z).
Local Notation pg := (page cfg).

(** The bytes of a block. *)
Definition extent (size : Z) : Z := pg * alloc_pages cfg size.

(** Inside the region, on a page boundary, with room for the request. *)
Definition well_placed (region : Z) (e : Z * Z) : Prop :=
  base <= e.1 /\ e.1 + extent e.2 <= base + region /\ (e.1 - base) mod pg = 0 /\ 0 <= e.2 <= extent e.2.

Definition disjoint_blocks (e f : Z * Z) : Prop :=
  e.1 + extent e.2 <= f.1 \/ f.1 + extent f.2 <= e.1.

(** Sizes are unsigned. *)
Definition valid_call (c : PoolCall) : Prop := match c with PcAlloc size => 0 <= size | PcFree _ => True end.

(** Every run of [k] of the [N] pages meets a live block. *)
Definition no_room (N : Z) (live : list (Z * Z)) (k : Z) : Prop :=
  forall i, 0 <= i -> i + k <= N ->
    exists e, e ∈ live /\ e.1 < base + pg * (i + k) /\ base + pg * i < e.1 + extent e.2.

(** Why an allocation may be refused. *)
Definition refused (env : Environment AlOp) (N : Z) (live : list (Z * Z)) (size : Z) : Prop :=
  page_mem_size_total_threshold cfg < size \/ no_room N live (alloc_pages cfg size) \/
  span_layer_lift_max cfg = 0 \/ span_new_fails env.

(** * Blocks with their addresses *)
Fixpoint place (a : Z) (bs : list Blk) : list (Z * Blk) :=
  match bs with
  | [] => []
  | b :: bs' => (a, b) :: place (a + pg * b_len b) bs'
  end.

Definition used_entry (e : Z * Blk) : option (Z * Z) :=
  match b_state e.2 with BUsed n => Some (e.1, n) | _ => None end.
Definition used_list (a : Z) (bs : list Blk) : list (Z * Z) := omap used_entry (place a bs).

Implicit Types (b : Blk) (L R bs : list Blk).

Lemma place_app a L R : place a (L ++ R) = place a L ++ place (a + pg * sum_len L) R.
Proof.
  revert a. induction L as [|b L IH]; intros a; simpl.
  - by rewrite Z.mul_0_r, Z.add_0_r.
  - rewrite IH, Z.mul_add_distr_l, Z.add_assoc. done.
Qed.

Lemma used_list_app a L R : used_list a (L ++ R) = used_list a L ++ used_list (a + pg * sum_len L) R.
Proof. unfold used_list. by rewrite place_app, omap_app. Qed.

Lemma used_list_cons a b bs :
  used_list a (b :: bs) =
    match b_state b with BUsed n => [(a, n)] | _ => [] end ++ used_list (a + pg * b_len b) bs.
Proof.
  unfold used_list. cbn [place omap list_omap]. unfold used_entry at 1. simpl. by destruct (b_state b).
Qed.

Lemma place_split a bs x b : (x, b) ∈ place a bs -> exists L R, bs = L ++ b :: R /\ x = a + pg * sum_len L.
Proof.
  revert a. induction bs as [|c bs IH]; intros a; [by intros ?%elem_of_nil|].
  simpl. intros [Heq|Hin]%elem_of_cons.
  - simplify_eq. exists [], bs. split; [done|]. simpl. lia.
  - destruct (IH _ Hin) as (L & R & -> & ->). exists (c :: L), R. split; [done|]. simpl. lia.
Qed.

Lemma place_focus a L b R : (a + pg * sum_len L, b) ∈ place a (L ++ b :: R).
Proof. rewrite place_app. apply elem_of_app. right. by left. Qed.

Lemma used_list_elem a bs x n :
  (x, n) ∈ used_list a bs <-> exists b, (x, b) ∈ place a bs /\ b_state b = BUsed n.
Proof.
  unfold used_list. rewrite list_elem_of_omap. unfold used_entry. split.
  - intros ([y b] & Hin & He). simpl in He. destruct (b_state b) eqn:E; simplify_eq. eauto.
  - intros (b & Hin & He). exists (x, b). simpl. by rewrite He.
Qed.

(** What is on a used block after a step of the allocator. *)
Lemma alloc_step_used k size a bs p bs' :
  alloc_step k size bs p bs' -> p <> nullptr ->
  exists L R, bs' = L ++ used_block size p k :: R /\
    used_list a bs' ≡ₚ (a + pg * sum_len L, size) :: used_list a bs /\
    forall x b, b_state b <> BFree -> (x, b) ∈ place a bs' <->
      (x, b) = (a + pg * sum_len L, used_block size p k) \/ (x, b) ∈ place a bs.
Proof.
  intros Hst Hp. destruct Hst as [bs|L b R Hf <-|L b R p Hf Hk Hpn Hmin]; [done| |].
  - exists L, R. split; [done|]. split.
    + rewrite !used_list_app, !used_list_cons, Hf. simpl. by rewrite <- Permutation_middle.
    + intros x c Hc. rewrite !place_app. simpl. rewrite !elem_of_app, !elem_of_cons.
      split; [naive_solver|]. intros [->|[?|[?|?]]]; simplify_eq; auto.
  - exists (L ++ [cut_left (b_len b - k) b]), R. split; [by rewrite <- app_assoc|].
    assert (Hsum : a + pg * sum_len (L ++ [cut_left (b_len b - k) b]) = a + pg * sum_len L + pg * (b_len b - k)).
    { rewrite sum_len_app. simpl. lia. }
    rewrite Hsum. split.
    + rewrite !used_list_app, !used_list_cons. simpl. rewrite Hf. simpl.
      replace (a + pg * sum_len L + pg * (b_len b - k) + pg * k) with (a + pg * sum_len L + pg * b_len b) by lia.
      by rewrite <- Permutation_middle.
    + intros x c Hc. rewrite !place_app. simpl. rewrite !elem_of_app, !elem_of_cons.
      replace (a + pg * sum_len L + pg * (b_len b - k) + pg * k) with (a + pg * sum_len L + pg * b_len b) by lia.
      split; [|naive_solver].
      intros [?|[Heq|[?|?]]]; auto. exfalso. by simplify_eq.
Qed.

(** Free neighbours hold no used block. *)
Lemma free_side_used Lo a : (forall c, c ∈ Lo -> b_state c = BFree) ->
  used_list a Lo = [] /\ forall x c, b_state c <> BFree -> (x, c) ∉ place a Lo.
Proof.
  revert a. induction Lo as [|d Lo IH]; intros a Hf; [split; [done|by intros x c _ ?%elem_of_nil]|].
  destruct (IH (a + pg * b_len d)) as [H1 H2]; [intros c Hc; apply Hf; by right|].
  rewrite used_list_cons, (Hf d ltac:(by left)), H1. split; [done|].
  intros x c Hc. simpl. intros [Heq|Hin]%elem_of_cons; [|by eapply H2].
  simplify_eq. apply Hc, Hf. by left.
Qed.

Lemma free_on_left_all L Lo : free_on_left L Lo -> forall c, c ∈ Lo -> b_state c = BFree.
Proof. intros [[-> _]|(d & -> & Hf)] c; [by intros ?%elem_of_nil|]. by intros ->%list_elem_of_singleton. Qed.
Lemma free_on_right_all R Ro : free_on_right Ro R -> forall c, c ∈ Ro -> b_state c = BFree.
Proof. intros [[-> _]|(d & -> & Hf)] c; [by intros ?%elem_of_nil|]. by intros ->%list_elem_of_singleton. Qed.

Lemma free_step_used a p bs bs' :
  free_step p bs bs' ->
  exists L b R n, bs = L ++ b :: R /\ b_ptr b = p /\ b_state b = BUsed n /\
    used_list a bs ≡ₚ (a + pg * sum_len L, n) :: used_list a bs' /\
    forall x c, b_state c <> BFree -> (x, c) ∈ place a bs <->
      (x, c) = (a + pg * sum_len L, b) \/ (x, c) ∈ place a bs'.
Proof.
  intros [L Lo b n Ro R Hp Hu HLo HRo]. exists (L ++ Lo), b, (Ro ++ R), n.
  pose proof (free_on_left_all _ _ HLo) as HLa. pose proof (free_on_right_all _ _ HRo) as HRa.
  split; [by rewrite <- app_assoc|]. split_and!; [done..| |].
  - rewrite !used_list_app, !used_list_cons, !used_list_app, Hu. simpl.
    rewrite (proj1 (free_side_used Lo _ HLa)), (proj1 (free_side_used Ro _ HRa)). simpl.
    replace (a + pg * sum_len L + pg * (sum_len Lo + b_len b + sum_len Ro))
      with (a + pg * sum_len L + pg * sum_len Lo + pg * b_len b + pg * sum_len Ro) by lia.
    replace (a + pg * sum_len (L ++ Lo)) with (a + pg * sum_len L + pg * sum_len Lo) by (rewrite sum_len_app; lia).
    by rewrite <- Permutation_middle.
  - intros x c Hc. rewrite !place_app. simpl. rewrite !place_app, !elem_of_app, !elem_of_cons, elem_of_app.
    pose proof (proj2 (free_side_used Lo (a + pg * sum_len L) HLa) x c Hc) as H1.
    pose proof (proj2 (free_side_used Ro (a + pg * sum_len L + pg * sum_len Lo + pg * b_len b) HRa) x c Hc) as H2.
    replace (a + pg * sum_len L + pg * (sum_len Lo + b_len b + sum_len Ro))
      with (a + pg * sum_len L + pg * sum_len Lo + pg * b_len b + pg * sum_len Ro) by lia.
    replace (a + pg * sum_len (L ++ Lo)) with (a + pg * sum_len L + pg * sum_len Lo) by (rewrite sum_len_app; lia).
    split; [naive_solver|]. intros [?|[?|[Heq|?]]]; auto. by simplify_eq.
Qed.
End Live.

Lemma filter_all {A} (P : A -> Prop) `{forall x, Decision (P x)} (l : list A) :
  (forall x, x ∈ l -> P x) -> filter P l = l.
Proof.
  induction l as [|x l IH]; intros Hall; [done|]. rewrite filter_cons_True by (apply Hall; by left).
  f_equal. apply IH. intros y Hy. apply Hall. by right.
Qed.

Lemma ForallOrdPairs_of_distinct {A} (R : A -> A -> Prop) (l : list A) :
  NoDup l -> (forall x y, x ∈ l -> y ∈ l -> x <> y -> R x y) -> ForallOrdPairs R l.
Proof.
  induction 1 as [|x l Hx Hl IH]; intros HR; constructor.
  - apply Forall_forall. intros y Hy. apply HR; [by left|by right|]. by intros ->.
  - apply IH. intros y z Hy Hz. apply HR; by right.
Qed.

(** Two positions in a list. *)
Lemma focus_order {A} (L L' : list A) b b' R R' :
  L ++ b :: R = L' ++ b' :: R' ->
  (L = L' /\ b = b' /\ R = R') \/ (exists M, L' = L ++ b :: M) \/ (exists M, L = L' ++ b' :: M).
Proof.
  revert L'. induction L as [|c L IH]; intros [|c' L'] Heq; simplify_eq/=.
  - by left.
  - right; left. by exists L'.
  - right; right. by exists L.
  - destruct (IH L' ltac:(done)) as [(-> & -> & ->)|[(M & ->)|(M & ->)]]; eauto.
Qed.

(** * No two free neighbours *)
Definition hd_free (bs : list Blk) : bool := match bs with [] => false | b :: _ => is_free b end.
Definition last_free (bs : list Blk) : bool := match last bs with Some b => is_free b | None => false end.

Fixpoint sparse (bs : list Blk) : Prop :=
  match bs with
  | [] => True
  | b :: bs' => (is_free b = true -> hd_free bs' = false) /\ sparse bs'
  end.

Section Sparse.
Implicit Types (b : Blk) (L R bs : list Blk).

Lemma last_free_cons b c L : last_free (b :: c :: L) = last_free (c :: L).
Proof. done. Qed.

Lemma sparse_app L R :
  sparse (L ++ R) <-> sparse L /\ sparse R /\ (last_free L = true -> hd_free R = false).
Proof.
  induction L as [|b L IH]; simpl; [unfold last_free; simpl; naive_solver|].
  rewrite IH. destruct L as [|c L]; [unfold last_free; simpl; naive_solver|].
  rewrite last_free_cons. simpl (hd_free _). tauto.
Qed.

Lemma is_free_true b : is_free b = true <-> b_state b = BFree.
Proof. apply bool_decide_eq_true. Qed.
Lemma is_free_false b : is_free b = false <-> b_state b <> BFree.
Proof. apply bool_decide_eq_false. Qed.

Lemma sparse_alloc k size bs p bs' : alloc_step k size bs p bs' -> sparse bs -> sparse bs'.
Proof.
  intros Hst Hs. destruct Hst as [bs|L b R Hf Hk|L b R p Hf Hk Hpn Hmin]; [done| |];
    apply sparse_app in Hs as (HL & [Hb HR] & HLb); simpl in HLb; apply is_free_true in Hf.
  - apply sparse_app. split_and!; [done|by split|done].
  - apply sparse_app. split_and!; [done|by split_and!|]. rewrite Hf in HLb. intros HL'. by specialize (HLb HL').
Qed.

Lemma free_on_right_hd Ro R : free_on_right Ro R -> sparse (Ro ++ R) -> hd_free R = false.
Proof.
  intros [[-> HR]|(c & -> & Hc)] Hs.
  - destruct R as [|c R]; [done|]. apply is_free_false. by eapply HR.
  - destruct Hs as [Hs _]. by apply Hs, is_free_true.
Qed.

Lemma free_on_left_last L Lo : free_on_left L Lo -> sparse (L ++ Lo) -> last_free L = false.
Proof.
  intros [[-> HL]|(c & -> & Hc)] Hs.
  - unfold last_free. destruct (decide (L = [])) as [->|Hne]; [done|].
    destruct (exists_last Hne) as (L' & c & ->). rewrite last_snoc. apply is_free_false. by eapply HL.
  - apply sparse_app in Hs as (_ & _ & Hs). destruct (last_free L) eqn:E; [|done].
    specialize (Hs eq_refl). simpl in Hs. apply is_free_true in Hc. congruence.
Qed.

Lemma sparse_free p bs bs' : free_step p bs bs' -> sparse bs -> sparse bs'.
Proof.
  intros Hst Hs. destruct Hst as [L Lo b n Ro R Hp Hu HLo HRo].
  rewrite app_assoc in Hs. apply sparse_app in Hs as (HL & [_ HR] & _).
  pose proof (free_on_left_last _ _ HLo HL). pose proof (free_on_right_hd _ _ HRo HR).
  apply sparse_app in HL as (HL & _ & _), HR as (_ & HR & _).
  apply sparse_app. split_and!; [done|by split|congruence].
Qed.
End Sparse.

(** * The invariant of the pool *)
Definition real_sum (live : list (Z * Z)) : Z := foldr (fun e n => e.2 + n) 0 live.
Definition used_len (bs : list Blk) : Z :=
  foldr (fun b n => (match b_state b with BUsed _ => b_len b | _ => 0 end) + n) 0 bs.

Section Invariant.
Context `{Bk : MemBlockApi} {BkL : MemBlockLaws Bk} `{Gs : GeStatus} {GsL : GeStatusLaws Gs} `{env : Environment AlOp}.
Context (Hfresh : news_fresh env) (Hlayers : layers_available env).
Context (cfg : ScalableConfig) (Hcfg : config_ok cfg) (base N : Z).
Context (Hbase : 0 < base /\ base + page cfg * N <= 2 ^ 64) (HN : 0 < N < cap cfg).

Local Notation pg := (page cfg).
Implicit Types (h : History AlOp) (b : Blk) (L R bs : list Blk) (p : LlmMemPool) (live : list (Z * Z)).

(** A block in use has the length of its request. *)
Definition used_ok bs : Prop :=
  forall b n, b ∈ bs -> b_state b = BUsed n -> b_len b = alloc_pages cfg n /\ 0 <= n.

Record PInv p h live : Prop := {
  pi_wit : exists bs,
    Inv cfg base N (pool_alloc p) h bs [] (pg * used_len bs, u64 (real_sum live)) /\
    no_hand bs /\ sparse bs /\ used_ok bs /\ used_list cfg base bs ≡ₚ live /\
    (forall a q, (a, q) ∈ addr_to_mem_block_ p <->
       exists b n, (a, b) ∈ place cfg base bs /\ b_ptr b = q /\ b_state b = BUsed n);
  pi_wf : std_map_wf (addr_to_mem_block_ p)
}.

Lemma used_len_app L R : used_len (L ++ R) = used_len L + used_len R.
Proof. induction L as [|b L IH]; simpl; [done|]. rewrite IH. lia. Qed.

Lemma used_len_bound bs : (forall b, b ∈ bs -> 0 < b_len b) -> 0 <= used_len bs <= sum_len bs.
Proof.
  induction bs as [|b bs IH]; simpl; intros Hp; [lia|].
  pose proof (Hp b ltac:(by left)). specialize (IH ltac:(intros c Hc; apply Hp; by right)).
  destruct (b_state b); lia.
Qed.

Lemma used_len_le_N s h bs ex T : Inv cfg base N s h bs ex T -> 0 <= used_len bs <= N.
Proof.
  intros HI. rewrite <- (i_len _ _ _ _ _ _ _ _ HI). apply used_len_bound.
  intros b Hb. by eapply chain_pos; [exact (i_chain _ _ _ _ _ _ _ _ HI)|].
Qed.

Lemma alloc_step_len k size bs q bs' :
  alloc_step k size bs q bs' -> q <> nullptr -> used_len bs' = used_len bs + k.
Proof.
  intros Hst Hq. destruct Hst as [bs|L b R Hf Hk|L b R q Hf Hk Hpn Hmin]; [done| |];
    rewrite !used_len_app; simpl; rewrite Hf; lia.
Qed.

Lemma alloc_step_no_hand k size bs q bs' : alloc_step k size bs q bs' -> no_hand bs -> no_hand bs'.
Proof.
  intros Hst Hno. destruct Hst as [bs|L b R Hf Hk|L b R q Hf Hk Hpn Hmin]; [done| |];
    intros x Hx c.
  - apply elem_of_app in Hx as [Hx|[->|Hx]%elem_of_cons]; [apply Hno; set_solver|done|apply Hno; set_solver].
  - apply elem_of_app in Hx as [Hx|[->|[->|Hx]%elem_of_cons]%elem_of_cons];
      [apply Hno; set_solver|by simpl; rewrite Hf|done|apply Hno; set_solver].
Qed.

Lemma alloc_step_used_ok size bs q bs' :
  alloc_step (alloc_pages cfg size) size bs q bs' -> 0 <= size -> used_ok bs -> used_ok bs'.
Proof.
  intros Hst Hs Hok. destruct Hst as [bs|L b R Hf Hk|L b R q Hf Hk Hpn Hmin]; [done| |];
    intros x n Hx Hu.
  - apply elem_of_app in Hx as [Hx|[->|Hx]%elem_of_cons];
      [apply Hok; set_solver| |apply Hok; set_solver]. simpl in *. by simplify_eq.
  - apply elem_of_app in Hx as [Hx|[->|[->|Hx]%elem_of_cons]%elem_of_cons];
      [apply Hok; set_solver|simpl in Hu; congruence| |apply Hok; set_solver]. simpl in *. by simplify_eq.
Qed.

(** The address of a span is where its block is placed. *)
Lemma Inv_addr s h L b R T sp :
  Inv cfg base N s h (L ++ b :: R) [] T -> spans s !! b_ptr b = Some sp ->
  mb_addr (span_mem sp) = base + pg * sum_len L.
Proof.
  intros HI Hsp. destruct (Inv_focus _ _ _ _ _ _ _ _ _ _ HI) as (sp' & Hsp' & Hok).
  simplify_eq. apply Hok.
Qed.

(** Blocks are at different places. *)
Lemma place_functional s h bs T a b c :
  Inv cfg base N s h bs [] T -> (a, b) ∈ place cfg base bs -> (a, c) ∈ place cfg base bs -> b = c.
Proof.
  intros HI Hb Hc. assert (Hpos : forall x, x ∈ bs -> 0 < b_len x).
  { intros x Hx. by eapply chain_pos; [exact (i_chain _ _ _ _ _ _ _ _ HI)|]. }
  pose proof (page_range cfg Hcfg) as Hp.
  assert (Hge : forall bs a0 x y, (forall z, z ∈ bs -> 0 < b_len z) -> (x, y) ∈ place cfg a0 bs -> a0 <= x).
  { clear -Hp. intros bs a0 x y Hpos Hin. apply place_split in Hin as (L & R & -> & ->).
    assert (0 <= sum_len L) by (apply sum_len_nonneg; intros z Hz; apply Hpos; set_solver). nia. }
  clear HI. revert Hb Hc. generalize base. induction bs as [|d bs IH]; intros a0; [by intros ?%elem_of_nil|].
  pose proof (Hpos d ltac:(by left)).
  assert (Hpos' : forall x, x ∈ bs -> 0 < b_len x) by (intros x Hx; apply Hpos; by right).
  simpl. intros [Hb|Hb]%elem_of_cons [Hc|Hc]%elem_of_cons; simplify_eq; [done|..|by eapply IH].
  - specialize (Hge _ _ _ _ Hpos' Hc). nia.
  - specialize (Hge _ _ _ _ Hpos' Hb). nia.
Qed.

(** Live blocks have different addresses. *)
Lemma used_list_NoDup s h bs T : Inv cfg base N s h bs [] T -> NoDup (used_list cfg base bs).*1.
Proof.
  intros HI. assert (Hpos : forall x, x ∈ bs -> 0 < b_len x).
  { intros x Hx. by eapply chain_pos; [exact (i_chain _ _ _ _ _ _ _ _ HI)|]. }
  pose proof (page_range cfg Hcfg) as Hp. clear HI. generalize base.
  induction bs as [|b bs IH]; intros a; [constructor|].
  specialize (IH ltac:(intros x Hx; apply Hpos; by right) (a + pg * b_len b)).
  pose proof (Hpos b ltac:(by left)). rewrite used_list_cons.
  destruct (b_state b); [done..|]. simpl. apply NoDup_cons. split; [|done].
  intros ([x n] & Heq & Hin)%list_elem_of_fmap. simpl in Heq. subst x.
  apply used_list_elem in Hin as (c & Hin & _). apply place_split in Hin as (L & R & -> & Ha).
  assert (0 <= sum_len L) by (apply sum_len_nonneg; intros z Hz; apply Hpos; set_solver). nia.
Qed.

(** ** The calls *)

(** Free blocks that are all too short, between used ones, leave no room. *)
Lemma no_fit_no_room bs k o :
  (forall b, b ∈ bs -> 0 < b_len b) -> no_hand bs -> sparse bs ->
  (forall b, b ∈ bs -> b_state b = BFree -> b_len b < k) -> 0 < k ->
  forall i, o <= i -> i + k <= o + sum_len bs ->
  exists x b n, (x, b) ∈ place cfg (base + pg * o) bs /\ b_state b = BUsed n /\
    x < base + pg * (i + k) /\ base + pg * i < x + pg * b_len b.
Proof.
  pose proof (page_range cfg Hcfg) as Hp. intros Hpos Hno Hsp Hfit Hk. revert o Hpos Hno Hsp Hfit.
  induction bs as [|b bs IH]; intros o Hpos Hno Hsp Hfit i Ho Hi; simpl in Hi; [lia|].
  pose proof (Hpos b ltac:(by left)) as Hb.
  assert (Hrest : o + b_len b <= i -> exists x b0 n, (x, b0) ∈ place cfg (base + pg * o) (b :: bs) /\
     b_state b0 = BUsed n /\ x < base + pg * (i + k) /\ base + pg * i < x + pg * b_len b0).
  { intros Hge. destruct (IH (o + b_len b)) with (i := i) as (x & c & n & Hin & Hrest);
      [intros c Hc; apply Hpos; by right|intros c Hc; apply Hno; by right|apply Hsp
      |intros c Hc; apply Hfit; by right|lia|lia|].
    exists x, c, n. split; [|done]. simpl. right.
    by replace (base + pg * o + pg * b_len b) with (base + pg * (o + b_len b)) by lia. }
  destruct (Z_lt_ge_dec i (o + b_len b)) as [Hlt|Hge]; [|apply Hrest; lia].
  destruct (b_state b) eqn:Es; [|by destruct (Hno b ltac:(by left) count)|].
  - pose proof (Hfit b ltac:(by left) Es). destruct bs as [|c bs]; [simpl in Hi; lia|].
    destruct Hsp as [Hc _]. apply is_free_true in Es. specialize (Hc Es). simpl in Hc.
    apply is_free_false in Hc. pose proof (Hpos c ltac:(by right; left)).
    destruct (b_state c) eqn:Ec; [done|by destruct (Hno c ltac:(by right; left) count)|].
    exists (base + pg * o + pg * b_len b), c, real_size. split_and!; [simpl; right; by left|done|nia|nia].
  - exists (base + pg * o), b, real_size. split_and!; [by left|done|nia|nia].
Qed.

Lemma wp_on_alloc {A} (m : M AlOp AllocState A) (Q : Status + A -> LlmMemPool -> History AlOp -> Prop) p h :
  wp m (fun o a h' => Q o {| pool_alloc := a; addr_to_mem_block_ := addr_to_mem_block_ p |} h') (pool_alloc p) h ->
  wp (on_alloc m) Q p h.
Proof. intros H. eapply wp_zoom; [done|]. exact H. Qed.

(** The pool after the block [q] was taken from the free ones. *)
Lemma PInv_alloc s s' h h' bs L R live map q size :
  let bs' := L ++ used_block size q (alloc_pages cfg size) :: R in
  Inv cfg base N s h bs [] (pg * used_len bs, u64 (real_sum live)) ->
  no_hand bs -> sparse bs -> used_ok bs -> used_list cfg base bs ≡ₚ live -> std_map_wf map ->
  (forall a r, (a, r) ∈ map <->
     exists b n, (a, b) ∈ place cfg base bs /\ b_ptr b = r /\ b_state b = BUsed n) ->
  0 <= size -> q <> nullptr -> alloc_step (alloc_pages cfg size) size bs q bs' ->
  used_list cfg base bs' ≡ₚ (base + pg * sum_len L, size) :: used_list cfg base bs ->
  (forall x b, b_state b <> BFree -> (x, b) ∈ place cfg base bs' <->
     (x, b) = (base + pg * sum_len L, used_block size q (alloc_pages cfg size)) \/ (x, b) ∈ place cfg base bs) ->
  Inv cfg base N s' h' bs' [] (u64 (pg * used_len bs + pg * alloc_pages cfg size), u64 (u64 (real_sum live) + size)) ->
  PInv {| pool_alloc := s'; addr_to_mem_block_ := std_set (base + pg * sum_len L) q map |} h'
       ((base + pg * sum_len L, size) :: live).
Proof.
  intros bs' HI Hno Hsp Hok Hlive Hwf Hmap Hs Hq Hst Hused Hplace HI'.
  pose proof (page_range cfg Hcfg) as Hp. split; [|by apply std_set_wf]. exists bs'. split_and!; simpl.
  - destruct (used_len_le_N _ _ _ _ _ HI') as [H1 H2].
    rewrite (alloc_step_len _ _ _ _ _ Hst Hq) in H1, H2 |- *.
    rewrite <- Z.mul_add_distr_l, (u64_small (pg * _)) in HI' by (split; nia).
    rewrite (Z.add_comm size). unfold u64, wrap in *. by rewrite Zplus_mod_idemp_l in HI'.
  - by eapply alloc_step_no_hand.
  - by eapply sparse_alloc.
  - by eapply alloc_step_used_ok.
  - by rewrite Hused, Hlive.
  - intros a r. rewrite std_set_elem by done. rewrite Hmap. split.
    + intros [[-> ->]|[Ha (b & n & Hin & Hrest)]].
      * exists (used_block size q (alloc_pages cfg size)), size. split_and!; [apply place_focus|done..].
      * exists b, n. split; [|done]. apply Hplace; [destruct Hrest as [_ ->]; done|by right].
    + intros (b & n & Hin & Hb & Hu). destruct (decide (a = base + pg * sum_len L)) as [->|Ha].
      * left. split; [done|]. pose proof (place_focus cfg base L (used_block size q (alloc_pages cfg size)) R) as Hf.
        by rewrite (place_functional _ _ _ _ _ _ _ HI' Hin Hf) in Hb.
      * right. split; [done|]. exists b, n. split; [|done].
        apply Hplace in Hin as [Heq|Hin]; [by simplify_eq|done|by rewrite Hu].
Qed.

Lemma wp_LlmMemPool_Alloc (Q : Status + Z -> LlmMemPool -> History AlOp -> Prop) p h live size :
  PInv p h live -> 0 <= size ->
  (forall p' h', PInv p' h' live -> refused cfg base env N live size -> Q (inr nullptr) p' h') ->
  (forall a p' h', a <> nullptr -> PInv p' h' ((a, size) :: live) -> Q (inr a) p' h') ->
  wp (LlmMemPool_Alloc cfg size) Q p h.
Proof.
  intros [(bs & HI & Hno & Hsp & Hok & Hlive & Hmap) Hwf] Hs Hnull Hsome.
  pose proof (page_range cfg Hcfg) as Hp. pose proof (alloc_pages_pos cfg size) as Hk.
  unfold LlmMemPool_Alloc. apply wp_bind, wp_on_alloc.
  eapply (wp_ScalableAllocator_Alloc Hfresh Hlayers cfg Hcfg base N Hbase HN); [exact HI|done| |].
  - intros s' h' HI' Hwhy. apply wp_ret, Hnull; [split; [by exists bs|done]|].
    destruct Hwhy as [?|[_ [?|[Hfit|?]]]]; [by left|by right; right; left| |by right; right; right].
    right; left. intros i Hi0 Hi. pose proof (i_len _ _ _ _ _ _ _ _ HI) as Hlen.
    destruct (no_fit_no_room bs (alloc_pages cfg size) 0) with (i := i) as (x & b & n & Hin & Hu & H1 & H2);
      try done; [intros b Hb; by eapply Inv_len_bound|lia|].
    exists (x, n). rewrite <- Hlive. rewrite Z.mul_0_r, Z.add_0_r in Hin.
    split; [apply used_list_elem; eauto|]. simpl. unfold extent.
    pose proof (place_split _ _ _ _ _ Hin) as (L & R & -> & _).
    by rewrite <- (proj1 (Hok b n ltac:(set_solver) Hu)).
  - intros q bs' s' h' Hq _ Hst HI'. unfold is_null. rewrite (proj2 (Z.eqb_neq _ _)) by done.
    destruct (alloc_step_used cfg _ _ base _ _ _ Hst Hq) as (L & R & -> & Hused & Hplace).
    destruct (Inv_focus _ _ _ _ _ _ _ _ _ _ HI') as (sp & Hspan & _).
    pose proof (Inv_addr _ _ _ _ _ _ _ HI' Hspan) as Haddr.
    pose proof HI' as Hb1. apply Inv_prefix_bound in Hb1 as [Hb1 _]; [|done..].
    apply wp_bind, wp_on_alloc. eapply wp_span_at; [exact Hspan|]. rewrite Haddr.
    apply wp_bind, wp_modify, wp_ret. apply Hsome; [unfold nullptr; nia|]. by eapply PInv_alloc.
Qed.

Lemma used_ok_free q bs bs' : free_step q bs bs' -> used_ok bs -> used_ok bs'.
Proof.
  intros [L Lo b n Ro R Hp Hu HLo HRo] Hok x m Hx Hm.
  apply elem_of_app in Hx as [Hx|[->|Hx]%elem_of_cons]; [|done|]; (apply Hok; [set_solver|done]).
Qed.
Lemma no_hand_free q bs bs' : free_step q bs bs' -> no_hand bs -> no_hand bs'.
Proof.
  intros [L Lo b n Ro R Hp Hu HLo HRo] Hno x Hx.
  apply elem_of_app in Hx as [Hx|[->|Hx]%elem_of_cons]; [|done|]; (apply Hno; set_solver).
Qed.

Lemma used_len_all_free Lo : (forall c, c ∈ Lo -> b_state c = BFree) -> used_len Lo = 0.
Proof.
  induction Lo as [|c Lo IH]; intros Hf; [done|]. simpl. rewrite (Hf c ltac:(by left)), IH; [done|].
  intros d Hd. apply Hf. by right.
Qed.
Lemma free_step_len q bs bs' L b R n :
  free_step q bs bs' -> bs = L ++ b :: R -> NoDup (ptrs bs) -> b_ptr b = q -> b_state b = BUsed n ->
  used_len bs = used_len bs' + b_len b.
Proof.
  intros [L' Lo b' n' Ro R' Hp Hu HLo HRo] Heq Hnd Hb Hs.
  assert (b = b') as ->.
  { rewrite app_assoc in Hnd. eapply (ptr_focus_unique (L' ++ Lo)); [exact Hnd| |congruence].
    rewrite <- app_assoc, Heq. set_solver. }
  rewrite !used_len_app. simpl. rewrite !used_len_app, Hu.
  rewrite (used_len_all_free Lo (free_on_left_all _ _ HLo)), (used_len_all_free Ro (free_on_right_all _ _ HRo)). lia.
Qed.

(** An address that is not in the map is not a live block, and the other way round. *)
Lemma not_live p h live addr :
  PInv p h live -> std_find addr (addr_to_mem_block_ p) = None -> filter (fun e => e.1 <> addr) live = live.
Proof.
  intros [(bs & _ & _ & _ & _ & Hlive & Hmap) Hwf] Hnone. apply filter_all.
  intros [a n] Hin Heq. simpl in Heq. subst a. rewrite <- Hlive in Hin.
  apply used_list_elem in Hin as (b & Hin & Hu).
  apply (proj1 (std_find_none addr _ Hwf) Hnone (b_ptr b)), Hmap. eauto.
Qed.

Lemma real_sum_perm live live' : live ≡ₚ live' -> real_sum live = real_sum live'.
Proof. induction 1; simpl; lia. Qed.

(** A block's place is determined by the block. *)
Lemma place_of_block L b R L' R' : NoDup (ptrs (L ++ b :: R)) -> L ++ b :: R = L' ++ b :: R' -> L' = L.
Proof.
  intros Hnd Heq. destruct (focus_order _ _ _ _ _ _ Heq) as [(-> & _ & _)|[(M & ->)|(M & ->)]]; [done| |].
  - rewrite Heq in Hnd. apply ptrs_focus in Hnd as [Hnd _]. destruct Hnd. rewrite ptrs_app. simpl. set_solver.
  - apply ptrs_focus in Hnd as [Hnd _]. destruct Hnd. rewrite ptrs_app. simpl. set_solver.
Qed.

Lemma used_len_elem s h bs ex T b n : Inv cfg base N s h bs ex T -> b ∈ bs -> b_state b = BUsed n -> b_len b <= used_len bs.
Proof.
  intros HI Hb Hu. assert (Hpos : forall c, c ∈ bs -> 0 < b_len c).
  { intros c Hc. by eapply chain_pos; [exact (i_chain _ _ _ _ _ _ _ _ HI)|]. }
  apply list_elem_of_split in Hb as (L & R & ->). rewrite used_len_app. simpl. rewrite Hu.
  pose proof (used_len_bound L ltac:(intros c Hc; apply Hpos; set_solver)).
  pose proof (used_len_bound R ltac:(intros c Hc; apply Hpos; set_solver)). lia.
Qed.

(** The pool after its block at [addr] went back. *)
Lemma PInv_free s s' h h' bs bs' live map addr b n :
  Inv cfg base N s h bs [] (pg * used_len bs, u64 (real_sum live)) ->
  no_hand bs -> sparse bs -> used_ok bs -> used_list cfg base bs ≡ₚ live -> std_map_wf map ->
  (forall a q, (a, q) ∈ map <->
     exists b n, (a, b) ∈ place cfg base bs /\ b_ptr b = q /\ b_state b = BUsed n) ->
  (addr, b) ∈ place cfg base bs -> b_state b = BUsed n -> free_step (b_ptr b) bs bs' ->
  Inv cfg base N s' h' bs' [] (u64 (pg * used_len bs - pg * b_len b), u64 (u64 (real_sum live) - n)) ->
  PInv {| pool_alloc := s'; addr_to_mem_block_ := std_erase addr map |} h' (filter (fun e => e.1 <> addr) live).
Proof.
  intros HI Hno Hsp Hok Hlive Hwf Hmap Hin Hu Hst HI'. pose proof (page_range cfg Hcfg) as Hp.
  pose proof (Inv_nodup _ _ _ _ _ _ _ _ HI) as Hnd.
  pose proof (place_split _ _ _ _ _ Hin) as (L & R & Hbs & Haddr).
  destruct (free_step_used cfg base _ _ _ Hst) as (L' & b' & R' & n' & Hbs' & Hpb & Hub & Hused & Hplace).
  assert (b' = b) as ->.
  { rewrite Hbs' in Hnd. symmetry. eapply ptr_focus_unique; [exact Hnd|rewrite <- Hbs', Hbs; set_solver|done]. }
  assert (L' = L) as -> by (rewrite Hbs in Hnd, Hbs'; by eapply place_of_block).
  rewrite <- Haddr in Hused, Hplace. rewrite Hub in Hu. simplify_eq Hu. intros ->.
  pose proof (used_list_NoDup _ _ _ _ HI) as Hkeys.
  rewrite Hused in Hkeys. apply NoDup_cons in Hkeys as [Hkey _].
  assert (Hrest : forall e, e ∈ used_list cfg base bs' -> e.1 <> addr).
  { intros e He <-. apply Hkey. apply list_elem_of_fmap. by exists e. }
  assert (Hlive' : used_list cfg base bs' ≡ₚ filter (fun e => e.1 <> addr) live).
  { rewrite <- Hlive, Hused, filter_cons_False by (simpl; tauto). by rewrite filter_all. }
  split; [|by apply std_erase_wf]. exists bs'. split_and!; simpl.
  - pose proof (free_step_len _ _ _ L b R _ Hst Hbs Hnd eq_refl Hub) as Hul.
    pose proof (used_len_le_N _ _ _ _ _ HI') as HuN'.
    replace (pg * used_len bs - pg * b_len b) with (pg * used_len bs') in HI' by lia.
    rewrite (u64_small (pg * _)) in HI' by (split; nia).
    replace (real_sum (filter _ live)) with (real_sum live - n).
    2:{ rewrite <- (real_sum_perm _ _ Hlive), <- (real_sum_perm _ _ Hlive'), (real_sum_perm _ _ Hused). simpl. lia. }
    unfold u64, wrap in *. by rewrite Zminus_mod_idemp_l in HI'.
  - by eapply no_hand_free.
  - by eapply sparse_free.
  - by eapply used_ok_free.
  - done.
  - intros a q. rewrite std_erase_elem by done. rewrite Hmap. split.
    + intros [Ha (c & m & Hc & Hq & Hcu)]. exists c, m. split; [|done].
      apply Hplace in Hc as [Heq|Hc]; [by simplify_eq|done|by rewrite Hcu].
    + intros (c & m & Hc & Hq & Hcu). split.
      * intros ->. apply (Hrest (addr, m)); [|done]. apply used_list_elem. eauto.
      * exists c, m. split; [|done]. apply Hplace; [by rewrite Hcu|by right].
Qed.

Lemma wp_LlmMemPool_Free (Q : Status + unit -> LlmMemPool -> History AlOp -> Prop) p h live addr :
  PInv p h live ->
  (forall p' h', PInv p' h' (filter (fun e => e.1 <> addr) live) -> Q (inr tt) p' h') ->
  wp (LlmMemPool_Free cfg addr) Q p h.
Proof.
  intros HP HQ. unfold LlmMemPool_Free. apply wp_bind, wp_get.
  destruct (std_find addr (addr_to_mem_block_ p)) as [q|] eqn:Ef.
  2:{ apply wp_ret, HQ. by rewrite (not_live _ _ _ _ HP Ef). }
  destruct HP as [(bs & HI & Hno & Hsp & Hok & Hlive & Hmap) Hwf].
  apply std_find_elem in Ef; [|done]. apply Hmap in Ef as (b & n & Hin & <- & Hu).
  assert (Hb : b ∈ bs) by (pose proof (place_split _ _ _ _ _ Hin) as (L & R & -> & _); set_solver).
  destruct (Hok b n Hb Hu) as [Hlen Hn0]. pose proof (page_range cfg Hcfg).
  apply wp_bind, wp_on_alloc.
  eapply (wp_MemBlock_Free Hfresh Hlayers cfg Hcfg base N Hbase HN); [exact HI|done|exact Hb|done|exact Hu| |].
  { cbn [fst]. pose proof (used_len_elem _ _ _ _ _ _ _ HI Hb Hu).
    pose proof (alloc_pages_enough cfg Hcfg n Hn0). rewrite Hlen in *. nia. }
  intros bs' s' h' Hst HI'. apply wp_modify, HQ. by eapply PInv_free.
Qed.

Lemma wp_pool_call (Q : Status + Z -> LlmMemPool -> History AlOp -> Prop) p h live c :
  PInv p h live -> valid_call c ->
  (forall a p' h', PInv p' h' (live_after live c a) ->
     match c with PcAlloc size => a = nullptr -> refused cfg base env N live size | PcFree _ => True end ->
     Q (inr a) p' h') ->
  wp (pool_call cfg c) Q p h.
Proof.
  intros HP Hc HQ. destruct c as [size|addr]; simpl.
  - eapply wp_LlmMemPool_Alloc; [exact HP|done| |].
    + intros p' h' HP' Hr. by apply HQ.
    + intros a p' h' Ha HP'. apply HQ; [|done]. simpl. by rewrite (proj2 (Z.eqb_neq _ _)).
  - apply wp_bind. eapply wp_LlmMemPool_Free; [exact HP|]. intros p' h' HP'. apply wp_ret. by apply HQ.
Qed.

Lemma wp_pool_calls (Q : Status + list Z -> LlmMemPool -> History AlOp -> Prop) p h live cs :
  PInv p h live -> Forall valid_call cs ->
  (forall outs p' h', PInv p' h' (live_run live cs outs) -> length outs = length cs -> Q (inr outs) p' h') ->
  wp (pool_calls cfg cs) Q p h.
Proof.
  revert Q p h live. induction cs as [|c cs IH]; intros Q p h live HP Hv HQ.
  - by apply wp_ret, HQ.
  - inversion Hv; subst. apply wp_bind. eapply wp_pool_call; [exact HP|done|].
    intros a p1 h1 HP1 _. apply wp_bind. eapply IH; [exact HP1|done|].
    intros outs p2 h2 HP2 Hl. apply wp_ret, HQ; [done|]. simpl. by rewrite Hl.
Qed.

(** What the invariant says to the callers. *)
Lemma PInv_live p h live size :
  PInv p h live -> N = size / pg -> 0 <= size ->
  Forall (well_placed cfg base size) live /\ ForallOrdPairs (disjoint_blocks cfg) live.
Proof.
  intros [(bs & HI & Hno & Hsp & Hok & Hlive & _) _] HNs Hsize. pose proof (page_range cfg Hcfg) as Hp.
  assert (Hpos : forall b, b ∈ bs -> 0 < b_len b).
  { intros b Hb. by eapply chain_pos; [exact (i_chain _ _ _ _ _ _ _ _ HI)|]. }
  assert (Hblk : forall L b R n, bs = L ++ b :: R -> b_state b = BUsed n ->
    0 <= n /\ extent cfg n = pg * b_len b /\ n <= extent cfg n /\ 0 <= sum_len L /\
    sum_len L + b_len b <= N).
  { intros L b R n -> Hu. destruct (Hok b n ltac:(set_solver) Hu) as [Hlen Hn].
    pose proof (alloc_pages_enough cfg Hcfg n Hn). unfold extent. rewrite Hlen. split_and!; [done..| |].
    - apply sum_len_nonneg. intros c Hc. apply Hpos. set_solver.
    - rewrite <- Hlen. pose proof HI as HIb. apply Inv_prefix_bound in HIb; [|done..]. apply HIb. }
  split.
  - rewrite <- Hlive. apply Forall_forall. intros [a n] Hin.
    apply used_list_elem in Hin as (b & Hin & Hu). apply place_split in Hin as (L & R & Hbs & ->).
    destruct (Hblk L b R n Hbs Hu) as (Hn & He & Hle & H0 & HN').
    unfold well_placed. simpl. rewrite He in *. split_and!; [nia| |by replace (base + pg * sum_len L - base) with (sum_len L * pg) by lia; apply Z.mod_mul; lia|done|done].
    assert (pg * N <= size) by (rewrite HNs; apply Z.mul_div_le; lia). nia.
  - assert (Hpair : forall live', live' ≡ₚ used_list cfg base bs -> ForallOrdPairs (disjoint_blocks cfg) live'); [|by apply Hpair].
    intros live' Hperm. apply ForallOrdPairs_of_distinct.
    + pose proof (used_list_NoDup _ _ _ _ HI) as Hd. rewrite <- Hperm in Hd. by apply NoDup_fmap_1 in Hd.
    + intros e f He Hf Hne. rewrite Hperm in He, Hf. destruct e as [a n], f as [a' n'].
      apply used_list_elem in He as (b & Hin & Hu), Hf as (b' & Hin' & Hu').
      apply place_split in Hin as (L & R & Hbs & ->), Hin' as (L' & R' & Hbs' & ->).
      destruct (Hblk L b R n Hbs Hu) as (_ & He & _ & _ & _), (Hblk L' b' R' n' Hbs' Hu') as (_ & He' & _ & _ & _).
      unfold disjoint_blocks. simpl. rewrite He, He'.
      rewrite Hbs in Hbs'. destruct (focus_order _ _ _ _ _ _ Hbs') as [(-> & -> & ->)|[(M & ->)|(M & ->)]].
      * congruence.
      * left. rewrite sum_len_app. simpl.
        assert (0 <= sum_len M) by (apply sum_len_nonneg; intros c Hc; apply Hpos; rewrite Hbs, Hbs'; set_solver). nia.
      * right. rewrite sum_len_app. simpl.
        assert (0 <= sum_len M) by (apply sum_len_nonneg; intros c Hc; apply Hpos; rewrite Hbs; set_solver). nia.
Qed.
End Invariant.
