(* ===== verification/MemPoolSafety.v ===== *)
(** The theorems about the memory pool, in terms of its callers: the blocks that are
    allocated and not yet freed. *)
From S2P Require Import Prelude StdMap External Effects SpanAllocator SpanAllocatorSpec SpanAllocatorSafety MemPool MemPoolSpec.

(** * The life of a pool *)
Section Life.
Context `{Bk : MemBlockApi} {BkL : MemBlockLaws Bk} `{Gs : GeStatus} {GsL : GeStatusLaws Gs} `{env : Environment AlOp}.
Context (Hfresh : news_fresh env) (Hlayers : layers_available env).
Context (cfg : ScalableConfig) (Hcfg : config_ok cfg) (base size : Z).
Context (Hregion : 0 < base /\ 0 <= size /\ base + size <= 2 ^ 64 /\ size / page cfg < 2 ^ 32).

Local Notation pg := (page cfg).
Let N : Z := size / page cfg.

(** The constructor of an object allocator. *)
Lemma wp_ObjectAllocator_new k n (Q : Status + list Z -> AllocState -> History AlOp -> Prop) s h :
  (forall es h', NoDup es -> nullptr ∉ es -> (forall q, q ∈ es -> given h' q /\ ~ given h q) ->
     (forall q, given h q -> given h' q) -> Q (inr es) s h') ->
  wp (ObjectAllocator_new k n) Q s h.
Proof.
  revert Q h. induction n as [|n IH]; intros Q h HQ; simpl.
  - apply wp_ret, HQ; [constructor|..]; intros; set_solver.
  - apply wp_bind, wp_call. intros r Hr. apply wp_bind, IH. intros es h' Hnd Hnull Hes Hmono. apply wp_ret.
    assert (Hh : forall q, given h q -> given h' q) by (intros q Hq; by apply Hmono, given_mono).
    assert (Hes' : forall q, q ∈ es -> given h' q /\ ~ given h q).
    { intros q Hq. destruct (Hes q Hq) as [H1 H2]. split; [done|]. intros Hg. by apply H2, given_mono. }
    unfold is_null. destruct (Z.eqb_spec r nullptr) as [->|Hne]; [by apply HQ|].
    assert (Hg : given (Ev (NewElement k) r :: h) r) by (exists k; by left).
    assert (Hng : ~ given h r) by (destruct (Hfresh k h) as [?|?]; congruence).
    apply HQ; [|set_solver| |done].
    + apply NoDup_cons. split; [|done]. intros Hin. by apply (Hes r Hin).
    + intros q [->|Hq]%elem_of_cons; [|by apply Hes']. split; [by apply Hmono|done].
Qed.

Lemma wp_LlmMemPool_new (Q : Status + unit -> LlmMemPool -> History AlOp -> Prop) p h :
  (forall p' h', blank cfg (pool_alloc p') h' -> addr_to_mem_block_ p' = [] -> Q (inr tt) p' h') ->
  wp (LlmMemPool_new cfg) Q p h.
Proof.
  intros HQ. unfold LlmMemPool_new. apply wp_bind, wp_on_alloc, wp_ObjectAllocator_new.
  intros es h1 Hnd Hnull Hes _. apply wp_bind, wp_on_alloc, wp_ObjectAllocator_new.
  intros ls h2 _ Hlnull _ Hmono. apply wp_put, HQ; [|done]. split; simpl; try done.
  - constructor.
  - set_solver.
  - intros q. rewrite lookup_empty. split; [by intros [? ?]|by intros ?%elem_of_nil].
  - by intros q sp ?%elem_of_nil.
  - split; try done.
    + by intros q id (b & ?%elem_of_nil & _).
    + by intros q i j (b & ?%elem_of_nil & _).
    + by intros q id (b & ?%elem_of_nil & _).
    + constructor.
    + intros id. split; [by intros ?%elem_of_nil|by intros (q & b & ?%elem_of_nil & _)].
  - split_and!; [done|done|by intros q _ ?%elem_of_nil].
  - intros q. rewrite app_nil_r. intros Hq. by apply Hmono, Hes.
Qed.

Lemma wp_LlmMemPool_Initialize (Q : Status + unit -> LlmMemPool -> History AlOp -> Prop) p h :
  blank cfg (pool_alloc p) h -> addr_to_mem_block_ p = [] ->
  (forall p' h', 0 < N < cap cfg -> PInv cfg base N p' h' [] -> Q (inr tt) p' h') ->
  (forall e p' h', e <> 0 -> Q (inl e) p' h') ->
  wp (LlmMemPool_Initialize cfg base size) Q p h.
Proof.
  intros HI Hm HQ HF. pose proof (page_range cfg Hcfg) as Hp.
  unfold LlmMemPool_Initialize. apply wp_bind, wp_require; intros _; [|apply HF, ge_LLM_PARAM_INVALID_error].
  apply wp_bind, wp_require; intros Hsz; [|apply HF, ge_LLM_PARAM_INVALID_error].
  apply Z.leb_le in Hsz. rewrite Z.shiftl_mul_pow2, Z.mul_1_l in Hsz by (destruct Hcfg; lia).
  fold (page cfg) in Hsz. rewrite u64_small in Hsz by (split; lia).
  assert (HN0 : 0 < N) by (apply Z.div_str_pos; lia).
  apply wp_on_alloc. eapply (wp_InitFixSizedAllocator Hfresh Hlayers cfg Hcfg); [exact HI|fold N; lia|done| |].
  - intros s' h' q HI' Hcap. apply HQ; [done|]. split; [|by rewrite Hm; constructor].
    exists [first_block q N]. simpl. rewrite Z.mul_0_r, u64_small by (split; lia). split_and!; try done.
    + intros b ->%list_elem_of_singleton c. done.
    + intros b n ->%list_elem_of_singleton. done.
    + rewrite Hm. intros a r. split; [by intros ?%elem_of_nil|].
      intros (b & n & [= -> ->]%list_elem_of_singleton & _ & Hu). done.
  - intros s' h' _. apply HF, ge_FAILED_error.
Qed.

(** A pool is constructed, initialised over the region, and used. *)
Definition pool_life (cs : list PoolCall) : M AlOp LlmMemPool (list Z) :=
  LlmMemPool_new cfg ;; LlmMemPool_Initialize cfg base size ;; pool_calls cfg cs.

Lemma wp_pool_life (Q : Status + list Z -> LlmMemPool -> History AlOp -> Prop) cs p :
  Forall valid_call cs ->
  (forall outs p' h', 0 < N < cap cfg -> PInv cfg base N p' h' (live_run [] cs outs) ->
     length outs = length cs -> Q (inr outs) p' h') ->
  (forall e p' h', e <> 0 -> Q (inl e) p' h') ->
  wp (pool_life cs) Q p [].
Proof.
  intros Hv HQ HF. pose proof (page_range cfg Hcfg) as Hp.
  apply wp_bind, wp_LlmMemPool_new. intros p1 h1 Hb Hm.
  apply wp_bind. eapply wp_LlmMemPool_Initialize; [exact Hb|exact Hm| |done].
  intros p2 h2 HN HP. eapply (wp_pool_calls Hfresh Hlayers cfg Hcfg base N); [|done|exact HP|done|].
  - assert (page cfg * N <= size) by (apply Z.mul_div_le; lia). lia.
  - intros outs p3 h3 HP3 Hl. by apply HQ.
Qed.
End Life.

(** C17: the blocks that a pool hands out are sound, whatever its callers do.  For any
    addresses of the span objects, also null ones, as long as layer objects can be
    allocated, any region, and any sequence of Alloc and Free calls (also of unknown or already freed addresses), construction, initialisation
    and the calls end without an undefined access, initialisation either fails with an
    error status or every block that was returned and not yet freed lies inside the
    region on a page boundary, is at least as large as the request, and no two of them
    overlap. *)
Theorem pool_blocks_safe `{Bk : MemBlockApi} {BkL : MemBlockLaws Bk} `{Gs : GeStatus} {GsL : GeStatusLaws Gs}
    (env : Environment AlOp) (cfg : ScalableConfig) (base size : Z) (cs : list PoolCall) (p : LlmMemPool) :
  news_fresh env -> layers_available env -> config_ok cfg ->
  0 < base -> 0 <= size -> base + size <= 2 ^ 64 -> size / page cfg < 2 ^ 32 -> Forall valid_call cs ->
  wp (pool_life cfg base size cs)
    (fun o _ _ =>
       match o with
       | inl e => e <> 0
       | inr results =>
           let live := live_run [] cs results in
           Forall (well_placed cfg base size) live /\ ForallOrdPairs (disjoint_blocks cfg) live
       end) p [].
Proof.
  intros Hfresh Hlayers Hcfg Hb Hs Hbs Hsz Hv. pose proof (page_range cfg Hcfg).
  assert (page cfg * (size / page cfg) <= size) by (apply Z.mul_div_le; lia).
  eapply (wp_pool_life Hfresh Hlayers cfg Hcfg base size); [done|done| |done].
  intros outs p' h' HN HP _. eapply (PInv_live Hfresh Hlayers cfg Hcfg base (size / page cfg)); [lia|done|exact HP|done|done].
Qed.

(** C18: an allocation is refused only when it must be.  If span objects can be
    allocated and the lift to longer layers is enabled, then after any sequence of
    calls a request of at most the configured total is answered with a null pointer
    exactly when every run of as many pages as it needs meets a block that is still
    allocated: freed neighbours have been merged completely and no page is lost. *)
Theorem pool_alloc_complete `{Bk : MemBlockApi} {BkL : MemBlockLaws Bk} `{Gs : GeStatus} {GsL : GeStatusLaws Gs}
    (env : Environment AlOp) (cfg : ScalableConfig) (base size : Z) (cs : list PoolCall) (p : LlmMemPool) :
  news_fresh env -> layers_available env -> ~ span_new_fails env -> span_layer_lift_max cfg <> 0 ->
  config_ok cfg ->
  0 < base -> 0 <= size -> base + size <= 2 ^ 64 -> size / page cfg < 2 ^ 32 -> Forall valid_call cs ->
  wp (pool_life cfg base size cs)
    (fun o p' h' =>
       match o with
       | inl _ => True
       | inr results =>
           forall n, 0 <= n <= page_mem_size_total_threshold cfg ->
           wp (LlmMemPool_Alloc cfg n)
             (fun o' _ _ => exists a, o' = inr a /\
                (a = nullptr <->
                 no_room cfg base (size / page cfg) (live_run [] cs results) (alloc_pages cfg n))) p' h'
       end) p [].
Proof.
  intros Hfresh Hlayers Hspans Hlift Hcfg Hb Hs Hbs Hsz Hv. pose proof (page_range cfg Hcfg) as Hp.
  assert (HNs : page cfg * (size / page cfg) <= size) by (apply Z.mul_div_le; lia).
  eapply (wp_pool_life Hfresh Hlayers cfg Hcfg base size); [done|done| |done].
  intros outs p' h' HN HP _ n Hn. set (live := live_run [] cs outs) in *.
  eapply (wp_LlmMemPool_Alloc Hfresh Hlayers cfg Hcfg base (size / page cfg)); [lia|done|exact HP|lia| |].
  - intros p2 h2 _ Hr. exists nullptr. split; [done|]. split; [intros _|done].
    destruct Hr as [?|[?|[?|?]]]; [lia|done|done|done].
  - intros a p2 h2 Ha HP2. exists a. split; [done|]. split; [done|]. intros Hroom. exfalso.
    destruct (PInv_live Hfresh Hlayers cfg Hcfg base (size / page cfg)) with (2 := HN) (3 := HP2) (size := size)
      as [Hplaced Hdisj]; [lia|done|done|].
    apply Forall_cons in Hplaced as [(H1 & H2 & H3 & _) _]. inversion Hdisj as [|? ? Hd _]; subst. simpl in *.
    set (i := (a - base) / page cfg).
    assert (Hi : a = base + page cfg * i).
    { pose proof (Z.div_mod (a - base) (page cfg)). unfold i. lia. }
    assert (Hi0 : 0 <= i) by (apply Z.div_pos; lia).
    destruct (Hroom i Hi0) as (e & He & Hlt & Hgt).
    { apply Z.div_le_lower_bound; [lia|]. unfold extent in H2. nia. }
    rewrite Forall_forall in Hd. specialize (Hd e He). unfold disjoint_blocks, extent in *. simpl in *. nia.
Qed.

(** * The allocation with a time-out *)

(** The clock does not go back, and a wait takes at least one of its ticks. *)
Record timing_ok (env : Environment AlOp) : Prop := {
  tm_mono t h now :
    now <= reply_of (Environment := env) Z SteadyClockNow (t ++ Ev SteadyClockNow now :: h);
  tm_wait t t' h now tp :
    now + 1 <= reply_of (Environment := env) Z SteadyClockNow
                 (t' ++ Ev (CvWaitUntil tp) false :: t ++ Ev SteadyClockNow now :: h)
}.

(** The calls of other threads pass unsigned sizes. *)
Definition others_valid (env : Environment AlOp) : Prop :=
  forall h, Forall valid_call (reply_of (Environment := env) (list PoolCall) OtherThreads h).

Definition any_event (e : Event AlOp) : Prop := True.

Tactic Notation "em" reference(f) := unfold f; solve_emits; try done.

Section Emits.
Context `{Bk : MemBlockApi} `{Gs : GeStatus} `{env : Environment AlOp} (K : AllocParams).
Local Notation E m := (emits any_event (m : M AlOp AllocState _)).

Lemma em_span_at p : E (span_at p). Proof. em span_at. Qed.
#[local] Hint Resolve em_span_at : emits.
Lemma em_span_set p sp : E (span_set p sp). Proof. em span_set. Qed.
#[local] Hint Resolve em_span_set : emits.
Lemma em_span_update p f : E (span_update p f). Proof. em span_update. Qed.
#[local] Hint Resolve em_span_update : emits.
Lemma em_span_layer p : E (span_layer K p). Proof. em span_layer. Qed.
#[local] Hint Resolve em_span_layer : emits.
Lemma em_ObjectAllocator_AllocSpan : E (ObjectAllocator_AllocSpan). Proof. em ObjectAllocator_AllocSpan. Qed.
#[local] Hint Resolve em_ObjectAllocator_AllocSpan : emits.
Lemma em_ObjectAllocator_AllocLayer : E (ObjectAllocator_AllocLayer). Proof. em ObjectAllocator_AllocLayer. Qed.
#[local] Hint Resolve em_ObjectAllocator_AllocLayer : emits.
Lemma em_SpanAllocator_Free p : E (SpanAllocator_Free p). Proof. em SpanAllocator_Free. Qed.
#[local] Hint Resolve em_SpanAllocator_Free : emits.
Lemma em_SetBuddy p q : E (SetBuddy p q). Proof. em SetBuddy. Qed.
#[local] Hint Resolve em_SetBuddy : emits.
Lemma em_MergeBuddy p q : E (MergeBuddy p q). Proof. em MergeBuddy. Qed.
#[local] Hint Resolve em_MergeBuddy : emits.
Lemma em_layer_pop p : E (layer_pop K p). Proof. em layer_pop. Qed.
#[local] Hint Resolve em_layer_pop : emits.
Lemma em_PopSpanFromLayer p : E (PopSpanFromLayer K p). Proof. em PopSpanFromLayer. Qed.
#[local] Hint Resolve em_PopSpanFromLayer : emits.
Lemma em_PushSpanToLayer p q : E (PushSpanToLayer K p q). Proof. em PushSpanToLayer. Qed.
#[local] Hint Resolve em_PushSpanToLayer : emits.
Lemma em_RemoveFromLayer p q : E (RemoveFromLayer K p q). Proof. em RemoveFromLayer. Qed.
#[local] Hint Resolve em_RemoveFromLayer : emits.
Lemma em_OccupySpan p q : E (OccupySpan K p q). Proof. em OccupySpan. Qed.
#[local] Hint Resolve em_OccupySpan : emits.
Lemma em_FetchLayerSpan p : E (FetchLayerSpan K p). Proof. em FetchLayerSpan. Qed.
#[local] Hint Resolve em_FetchLayerSpan : emits.
Lemma em_BlockAlloc a b c : E (BlockAlloc a b c). Proof. em BlockAlloc. Qed.
#[local] Hint Resolve em_BlockAlloc : emits.
Lemma em_FetchSpanLayer p : E (FetchSpanLayer K p). Proof. em FetchSpanLayer. Qed.
#[local] Hint Resolve em_FetchSpanLayer : emits.
Lemma em_SplitSpan a b c d : E (SplitSpan K a b c d). Proof. em SplitSpan. Qed.
#[local] Hint Resolve em_SplitSpan : emits.
Lemma em_FetchSplitedSpan a b c : E (FetchSplitedSpan K a b c). Proof. em FetchSplitedSpan. Qed.
#[local] Hint Resolve em_FetchSplitedSpan : emits.
Lemma em_AllocImp n : E (AllocImp K n). Proof. em AllocImp. Qed.
#[local] Hint Resolve em_AllocImp : emits.
Lemma em_ScalableAllocator_Alloc n : E (ScalableAllocator_Alloc K n). Proof. em ScalableAllocator_Alloc. Qed.
#[local] Hint Resolve em_ScalableAllocator_Alloc : emits.
Lemma em_PickOutBuddy p : E (PickOutBuddy K p). Proof. em PickOutBuddy. Qed.
#[local] Hint Resolve em_PickOutBuddy : emits.
Lemma em_TryMergePrev p : E (TryMergePrev K p). Proof. em TryMergePrev. Qed.
#[local] Hint Resolve em_TryMergePrev : emits.
Lemma em_TryMergeNext p : E (TryMergeNext K p). Proof. em TryMergeNext. Qed.
#[local] Hint Resolve em_TryMergeNext : emits.
Lemma em_FreeSpan p : E (FreeSpan K p). Proof. em FreeSpan. Qed.
#[local] Hint Resolve em_FreeSpan : emits.
Lemma em_ScalableAllocator_Free p : E (ScalableAllocator_Free K p). Proof. em ScalableAllocator_Free. Qed.
#[local] Hint Resolve em_ScalableAllocator_Free : emits.
Lemma em_MemBlock_Free p : E (MemBlock_Free K p). Proof. em MemBlock_Free. Qed.
#[local] Hint Resolve em_MemBlock_Free : emits.
End Emits.
#[export] Hint Resolve em_span_at em_ScalableAllocator_Alloc em_MemBlock_Free : emits.

Section PoolEmits.
Context `{Bk : MemBlockApi} `{Gs : GeStatus} `{env : Environment AlOp} (cfg : ScalableConfig).

Lemma em_on_alloc {A} (m : M AlOp AllocState A) : emits any_event m -> emits any_event (on_alloc m).
Proof. intros H. by apply emits_zoom. Qed.
#[local] Hint Resolve em_on_alloc : emits.

Lemma em_LlmMemPool_Alloc size : emits any_event (LlmMemPool_Alloc cfg size).
Proof. em LlmMemPool_Alloc. Qed.
Lemma em_LlmMemPool_Free addr : emits any_event (LlmMemPool_Free cfg addr).
Proof. em LlmMemPool_Free. Qed.
#[local] Hint Resolve em_LlmMemPool_Alloc em_LlmMemPool_Free : emits.
Lemma em_pool_call c : emits any_event (pool_call cfg c).
Proof. em pool_call. Qed.
#[local] Hint Resolve em_pool_call : emits.
Lemma em_pool_calls cs : emits any_event (pool_calls cfg cs).
Proof. induction cs; simpl; solve_emits; done. Qed.
#[local] Hint Resolve em_pool_calls : emits.
Lemma em_others : emits any_event (others cfg).
Proof. em others. Qed.
End PoolEmits.

Section Timed.
Context `{Bk : MemBlockApi} {BkL : MemBlockLaws Bk} `{Gs : GeStatus} {GsL : GeStatusLaws Gs} `{env : Environment AlOp}.
Context (Hfresh : news_fresh env) (Hlayers : layers_available env).
Context (Htime : timing_ok env) (Hothers : others_valid env).
Context (cfg : ScalableConfig) (Hcfg : config_ok cfg) (base N : Z).
Context (Hbase : 0 < base /\ base + page cfg * N <= 2 ^ 64) (HN : 0 < N < cap cfg).

(** The clock will not read less than [lb]. *)
Definition clock_from (lb : Z) (h : History AlOp) : Prop :=
  forall t, lb <= reply_of (Environment := env) Z SteadyClockNow (t ++ h).

Lemma clock_from_app lb t h : clock_from lb h -> clock_from lb (t ++ h).
Proof. intros H t'. rewrite app_assoc. apply H. Qed.

Lemma wp_others (Q : Status + unit -> LlmMemPool -> History AlOp -> Prop) p h live :
  PInv cfg base N p h live ->
  (forall live' p' t, PInv cfg base N p' (t ++ h) live' -> Q (inr tt) p' (t ++ h)) ->
  wp (others cfg) Q p h.
Proof.
  intros HP HQ. eapply wp_mono.
  - apply (wp_emits any_event _ (fun o p' h' => o = inr tt /\ exists live', PInv cfg base N p' h' live')); [apply em_others|].
    unfold others. apply wp_bind, wp_call. intros cs ->. apply wp_bind.
    eapply (wp_pool_calls Hfresh Hlayers cfg Hcfg base N Hbase HN).
    + destruct HP as [(bs & HI & Hrest) Hwf]. split; [|done]. exists bs. split; [by apply Inv_history|exact Hrest].
    + apply Hothers.
    + intros outs p' h' HP' _. apply wp_ret. eauto.
  - intros o p' h' [[-> [live' HP']] (t & -> & _)]. by eapply HQ.
Qed.

(** An attempt to allocate: the block, or nothing because there was no room. *)
Lemma wp_attempt_alloc (Q : Status + Z -> LlmMemPool -> History AlOp -> Prop) p h live size :
  PInv cfg base N p h live -> 0 <= size ->
  (forall p' t, PInv cfg base N p' (t ++ h) live -> refused cfg base env N live size -> Q (inr nullptr) p' (t ++ h)) ->
  (forall a p' t, a <> nullptr -> PInv cfg base N p' (t ++ h) ((a, size) :: live) -> Q (inr a) p' (t ++ h)) ->
  wp (LlmMemPool_Alloc cfg size) Q p h.
Proof.
  intros HP Hs Hnull Hsome. eapply wp_mono.
  - apply (wp_emits any_event _ (fun o p' h' =>
      (o = inr nullptr /\ PInv cfg base N p' h' live /\ refused cfg base env N live size) \/
      (exists a, o = inr a /\ a <> nullptr /\ PInv cfg base N p' h' ((a, size) :: live)))); [apply em_LlmMemPool_Alloc|].
    eapply (wp_LlmMemPool_Alloc Hfresh Hlayers cfg Hcfg base N Hbase HN); [exact HP|done| |]; eauto 6.
  - intros o p' h' [[(-> & HP' & Hr)|(a & -> & Ha & HP')] (t & -> & _)]; auto.
Qed.

(** What a timed allocation returns. *)
Definition timed_result (size a : Z) (p : LlmMemPool) (h : History AlOp) : Prop :=
  exists live, PInv cfg base N p h live /\
    (a = nullptr -> refused cfg base env N live size) /\ (a <> nullptr -> (a, size) ∈ live).

Lemma PInv_event e p h live : PInv cfg base N p h live -> PInv cfg base N p (e :: h) live.
Proof.
  intros [(bs & HI & Hrest) Hwf]. split; [|done]. exists bs. split; [by apply Inv_history|exact Hrest].
Qed.

Lemma wp_alloc_until fuel size tp_end lb p h live :
  PInv cfg base N p h live -> 0 <= size -> clock_from lb h -> tp_end - lb < Z.of_nat fuel -> (0 < fuel)%nat ->
  wp (alloc_until cfg fuel size tp_end)
     (fun o p' h' => exists a, o = inr a /\ timed_result size a p' h') p h.
Proof.
  intros HP Hs. revert lb p h live HP. induction fuel as [|fuel IH]; intros lb p h live HP Hlb Hfuel Hpos; [lia|].
  assert (Hdone : forall a p' h' live', a <> nullptr -> PInv cfg base N p' h' ((a, size) :: live') ->
    wp (ret a) (fun o p' h' => exists a, o = inr a /\ timed_result size a p' h') p' h').
  { intros a p' h' live' Ha HP'. apply wp_ret. exists a. split; [done|].
    exists ((a, size) :: live'). split_and!; [done|done|]. intros _. by left. }
  cbn [alloc_until]. apply wp_bind. eapply wp_others; [exact HP|]. intros live1 p1 t1 HP1.
  apply wp_bind. eapply wp_attempt_alloc; [exact HP1|done| |].
  2:{ intros a p2 t2 Ha HP2. unfold is_null. rewrite (proj2 (Z.eqb_neq _ _)) by done. by eapply Hdone. }
  intros p2 t2 HP2 Href2. cbn [is_null Z.eqb nullptr negb]. apply wp_bind, wp_call. intros now Hnow.
  assert (Hlow : lb <= now) by (rewrite Hnow, app_assoc; apply Hlb).
  destruct (Z.leb_spec tp_end now) as [Hend|Hend].
  { apply wp_ret. exists nullptr. split; [done|]. exists live1. split_and!; [by apply PInv_event|done|done]. }
  apply wp_bind. eapply wp_others; [by apply PInv_event|]. intros live3 p3 t3 HP3.
  apply wp_bind. eapply wp_attempt_alloc; [exact HP3|done| |].
  2:{ intros a p4 t4 Ha HP4. unfold is_null. rewrite (proj2 (Z.eqb_neq _ _)) by done. by eapply Hdone. }
  intros p4 t4 HP4 Href4. cbn [is_null Z.eqb nullptr negb]. apply wp_bind, wp_call. intros timeout _.
  apply wp_bind. eapply wp_others; [by apply PInv_event|]. intros live5 p5 t5 HP5.
  destruct timeout.
  - eapply wp_attempt_alloc; [exact HP5|done| |].
    + intros p6 t6 HP6 Href6. exists nullptr. split; [done|]. exists live5. done.
    + intros a p6 t6 Ha HP6. exists a. split; [done|]. exists ((a, size) :: live5). split_and!; [done|done|].
      intros _. by left.
  - destruct fuel as [|fuel]; [lia|]. apply (IH (now + 1) _ _ live5); [exact HP5| |lia|lia].
    intros t6. rewrite (app_assoc t4 t3), (app_assoc t6 t5). apply (tm_wait _ Htime).
Qed.
End Timed.

(** C31: an allocation with a time-out always returns.  After any sequence of calls,
    whatever other threads do meanwhile, with a clock that does not go back and waits
    that take at least one of its ticks, a request with a time-out of [ms]
    milliseconds ends within [ms * 10^6 + 1] rounds; it returns a block inside the
    region that is large enough, or a null pointer because the pool, as it is at that
    moment, has no room (or cannot serve the request). *)
Theorem pool_timed_alloc_returns `{Bk : MemBlockApi} {BkL : MemBlockLaws Bk} `{Gs : GeStatus} {GsL : GeStatusLaws Gs}
    (env : Environment AlOp) (cfg : ScalableConfig) (base size : Z) (cs : list PoolCall) (p : LlmMemPool) :
  news_fresh env -> layers_available env -> timing_ok env -> others_valid env -> config_ok cfg ->
  0 < base -> 0 <= size -> base + size <= 2 ^ 64 -> size / page cfg < 2 ^ 32 -> Forall valid_call cs ->
  wp (pool_life cfg base size cs)
    (fun o p' h' =>
       match o with
       | inl _ => True
       | inr _ =>
           forall n ms fuel, 0 <= n -> (Z.to_nat (ms * 1000000) < fuel)%nat ->
           wp (LlmMemPool_AllocTimed cfg fuel n ms)
             (fun o' p'' h'' => exists a, o' = inr a /\
                (a <> nullptr -> well_placed cfg base size (a, n)) /\
                (a = nullptr -> exists live, PInv cfg base (size / page cfg) p'' h'' live /\
                                  refused cfg base env (size / page cfg) live n)) p' h'
       end) p [].
Proof.
  intros Hfresh Hlayers Htime Hothers Hcfg Hb Hs Hbs Hsz Hv. pose proof (page_range cfg Hcfg) as Hp.
  assert (HNs : page cfg * (size / page cfg) <= size) by (apply Z.mul_div_le; lia).
  assert (Hbase : 0 < base /\ base + page cfg * (size / page cfg) <= 2 ^ 64) by lia.
  eapply (wp_pool_life Hfresh Hlayers cfg Hcfg base size); [done|done| |done].
  intros outs p' h' HN HP _ n ms fuel Hn Hfuel. unfold LlmMemPool_AllocTimed.
  apply wp_bind, wp_call. intros now _. eapply wp_mono.
  - eapply (wp_alloc_until Hfresh Hlayers Htime Hothers cfg Hcfg base (size / page cfg) Hbase HN) with (lb := now);
      [by apply PInv_event|done| |lia|lia].
    intros t. apply (tm_mono _ Htime).
  - intros o p'' h'' (a & -> & live & HP' & Hnull & Hsome). exists a. split_and!; [done| |].
    + intros Ha. destruct (PInv_live Hfresh Hlayers cfg Hcfg base (size / page cfg) Hbase HN _ _ _ size HP' eq_refl Hs)
        as [Hpl _]. rewrite Forall_forall in Hpl. by apply Hpl, Hsome.
    + intros Ha. exists live. auto.
Qed.

(** * An environment in which the hypotheses hold *)

(** What [new] and the clock said last, at most. *)
Definition new_reply (e : Event AlOp) : Z :=
  match e with Ev op r => match op in AlOp T return T -> Z with NewElement _ => fun r => r | _ => fun _ => 0 end r end.
Definition clock_reply (e : Event AlOp) : Z :=
  match e with Ev op r => match op in AlOp T return T -> Z with SteadyClockNow => fun r => r | _ => fun _ => 0 end r end.

(** [new] never fails, the clock ticks at every reading, waits time out and no other
    thread calls. *)
Definition al_ref : Environment AlOp := fun T op h =>
  match op in AlOp T return T with
  | NewElement _ => 1 + highest new_reply h
  | SteadyClockNow => 1 + highest clock_reply h
  | CvWaitUntil _ => true
  | OtherThreads => []
  end.

Lemma al_ref_fresh : news_fresh al_ref.
Proof.
  intros k h. right. intros [k' Hin]. apply (highest_elem new_reply) in Hin. simpl in Hin.
  unfold reply_of, al_ref in Hin. lia.
Qed.
Lemma al_ref_layers : layers_available al_ref.
Proof. intros h. unfold reply_of, al_ref. pose proof (highest_nonneg new_reply h). unfold nullptr. lia. Qed.
Lemma al_ref_spans : ~ span_new_fails al_ref.
Proof. intros [h Hh]. unfold reply_of, al_ref in Hh. pose proof (highest_nonneg new_reply h). unfold nullptr in Hh. lia. Qed.
Lemma al_ref_timing : timing_ok al_ref.
Proof.
  split; intros; unfold reply_of, al_ref.
  - assert (now <= highest clock_reply (t ++ Ev SteadyClockNow now :: h)); [|lia].
    apply (highest_elem clock_reply _ (Ev SteadyClockNow now)). set_solver.
  - assert (now <= highest clock_reply (t' ++ Ev (CvWaitUntil tp) false :: t ++ Ev SteadyClockNow now :: h)); [|lia].
    apply (highest_elem clock_reply _ (Ev SteadyClockNow now)). set_solver.
Qed.
Lemma al_ref_others : others_valid al_ref.
Proof. intros h. constructor. Qed.

(** 64 KiB pages and the default thresholds of a 32 GB device. *)
Definition demo_config : ScalableConfig := {|
  page_idem_num := 16; page_mem_size_total_threshold := 30 * 2 ^ 30;
  span_count_in_layer_threshold := 10240; span_layer_lift_max := PAGE_LENGTH_INVALID;
  span_prepared_count := 10240; span_layer_prepared_count := 4096; uncacheable_size_threshold := 16 * 2 ^ 30 |}.

Lemma demo_config_ok : config_ok demo_config.
Proof. unfold config_ok. by vm_compute. Qed.

Definition demo_calls : list PoolCall :=
  [PcAlloc 1000; PcAlloc 100000; PcFree 4096; PcFree 5; PcAlloc 70000].

Lemma demo_calls_valid : Forall valid_call demo_calls.
Proof. repeat constructor; simpl; lia. Qed.

Definition no_pool `{MemBlockApi} : LlmMemPool :=
  {| pool_alloc := AllocState_new [] []; addr_to_mem_block_ := [] |}.

Lemma pool_blocks_safe_witness :
  wp (pool_life (Bk := mem_block_ref) (Gs := ge_status_ref) (env := al_ref) demo_config 4096 (2 ^ 30) demo_calls)
    (fun o _ _ =>
       match o with
       | inl e => e <> 0
       | inr results =>
           Forall (well_placed demo_config 4096 (2 ^ 30)) (live_run [] demo_calls results) /\
           ForallOrdPairs (disjoint_blocks demo_config) (live_run [] demo_calls results)
       end) (no_pool (H := mem_block_ref)) [].
Proof.
  apply (pool_blocks_safe al_ref demo_config 4096 (2 ^ 30) demo_calls).
  - apply al_ref_fresh.
  - apply al_ref_layers.
  - apply demo_config_ok.
  - lia.
  - lia.
  - lia.
  - by vm_compute.
  - apply demo_calls_valid.
Defined.

Lemma pool_alloc_complete_witness :
  wp (pool_life (Bk := mem_block_ref) (Gs := ge_status_ref) (env := al_ref) demo_config 4096 (2 ^ 30) demo_calls)
    (fun o p' h' =>
       match o with
       | inl _ => True
       | inr results =>
           wp (LlmMemPool_Alloc (Bk := mem_block_ref) (env := al_ref) demo_config 1000000)
             (fun o' _ _ => exists a, o' = inr a /\
                (a = nullptr <-> no_room demo_config 4096 (2 ^ 30 / page demo_config)
                                   (live_run [] demo_calls results) (alloc_pages demo_config 1000000))) p' h'
       end) (no_pool (H := mem_block_ref)) [].
Proof.
  eapply wp_mono.
  - apply (pool_alloc_complete al_ref demo_config 4096 (2 ^ 30) demo_calls).
    + apply al_ref_fresh.
    + apply al_ref_layers.
    + apply al_ref_spans.
    + done.
    + apply demo_config_ok.
    + lia.
    + lia.
    + lia.
    + by vm_compute.
    + apply demo_calls_valid.
  - intros [e|results] p' h' H; [done|]. apply H. simpl. lia.
Defined.

Lemma pool_timed_alloc_returns_witness :
  wp (pool_life (Bk := mem_block_ref) (Gs := ge_status_ref) (env := al_ref) demo_config 4096 (2 ^ 30) demo_calls)
    (fun o p' h' =>
       match o with
       | inl _ => True
       | inr _ =>
           wp (LlmMemPool_AllocTimed (Bk := mem_block_ref) (env := al_ref) demo_config
                 (Z.to_nat (5 * 1000000 + 1)) 1000000 5)
             (fun o' _ _ => exists a, o' = inr a /\
                (a <> nullptr -> well_placed demo_config 4096 (2 ^ 30) (a, 1000000))) p' h'
       end) (no_pool (H := mem_block_ref)) [].
Proof.
  eapply wp_mono.
  - apply (pool_timed_alloc_returns al_ref demo_config 4096 (2 ^ 30) demo_calls).
    + apply al_ref_fresh.
    + apply al_ref_layers.
    + apply al_ref_timing.
    + apply al_ref_others.
    + apply demo_config_ok.
    + lia.
    + lia.
    + lia.
    + by vm_compute.
    + apply demo_calls_valid.
  - intros [e|results] p' h' H; [done|].
    eapply wp_mono; [apply (H 1000000 5 (Z.to_nat (5 * 1000000 + 1))); lia|].
    intros o'' p'' h'' (a & -> & Ha & _). eauto.
Defined.

(** * When no layer object can be allocated

    [FreeSpan] drops the span if it cannot fetch the layer of its length: the pages are
    lost, and when the layer is created later a neighbour's merge removes the span from
    a list it is not on. *)
Definition layer_events (h : History AlOp) : Z :=
  foldr (fun e m => match e with Ev (NewElement LayerElem) _ => 1 + m | _ => m end) 0 h.

(** The layer object number [n] cannot be allocated. *)
Definition al_fail (n : Z) : Environment AlOp := fun T op h =>
  match op in AlOp T return T with
  | NewElement LayerElem => if layer_events h =? n then nullptr else 1 + highest new_reply h
  | NewElement SpanElem => 1 + highest new_reply h
  | SteadyClockNow => 1 + highest clock_reply h
  | CvWaitUntil _ => true
  | OtherThreads => []
  end.

Definition small_config : ScalableConfig := {|
  page_idem_num := 10; page_mem_size_total_threshold := 2 ^ 20;
  span_count_in_layer_threshold := 10240; span_layer_lift_max := PAGE_LENGTH_INVALID;
  span_prepared_count := 0; span_layer_prepared_count := 0; uncacheable_size_threshold := 2 ^ 20 |}.

(** A pool of 16 pages at 4096 with no prepared element. *)
Definition small_life (n : Z) (cs : list PoolCall) : Outcome (list Z) :=
  ((LlmMemPool_Initialize (Bk := mem_block_ref) (Gs := ge_status_ref) (env := al_fail n) small_config 4096 (16 * 1024) ;;
   pool_calls (Bk := mem_block_ref) (env := al_fail n) small_config cs)
    (no_pool (H := mem_block_ref)) []).1.1.

(** With the layer object the last request for the whole region succeeds; without it
    the two pages freed first are lost for good. *)
Theorem free_without_layer_loses_pages :
  let cs := [PcAlloc 2048; PcAlloc 14336; PcFree 18432; PcFree 4096; PcAlloc 16384] in
  small_life 9 cs = Ret [18432; 4096; nullptr; nullptr; 4096] /\
  small_life 2 cs = Ret [18432; 4096; nullptr; nullptr; nullptr].
Proof. vm_compute. done. Qed.

(** Once the layer exists, freeing the neighbour corrupts the lists. *)
Theorem free_without_layer_corrupts_lists :
  let cs := [PcAlloc 2048; PcAlloc 2048; PcAlloc 2048; PcAlloc 10240;
             PcFree 18432; PcFree 14336; PcFree 16384] in
  small_life 9 cs = Ret [18432; 16384; 14336; 4096; nullptr; nullptr; nullptr] /\
  small_life 4 cs = Stuck.
Proof. vm_compute. done. Qed.
