(* ===== verification/Wire.v ===== *)
(** The control messages of hixl/common/ctrl_msg.h as bytes.

    A byte is an integer below 256.  The machines of the library are little-endian
    with natural alignment: a scalar of [n] bytes is [le_bytes n], a structure its
    fields at their offsets with padding of any value between them.  [CtrlMsgHeader]
    is packed. *)

From S2P Require Import Prelude.

(** * Little-endian scalars *)
Fixpoint le_bytes (n : nat) (x : Z) : list Z :=
  match n with
  | O => []
  | S n => Z.land x 255 :: le_bytes n (Z.shiftr x 8)
  end.

Fixpoint le_value (bs : list Z) : Z :=
  match bs with
  | [] => 0
  | b :: bs => Z.lor b (Z.shiftl (le_value bs) 8)
  end.

(** The [n] bytes at offset [i]. *)
Definition bytes_at (i n : nat) (bs : list Z) : list Z := take n (drop i bs).

(** A 32-bit pattern as [int32_t]. *)
Definition int32_of (x : Z) : Z := if x <? 2 ^ 31 then x else x - 2 ^ 32.

(** * common/ctrl_msg.h *)
Definition kMagicNumber : Z := 0xA4B3C2D1.

Record CtrlMsgHeader := { magic : Z; body_size : Z }.
Definition sizeof_CtrlMsgHeader : nat := 12.

Definition CtrlMsgHeader_bytes (h : CtrlMsgHeader) : list Z :=
  le_bytes 4 (magic h) ++ le_bytes 8 (body_size h).
Definition CtrlMsgHeader_of (bs : list Z) : CtrlMsgHeader :=
  {| magic := le_value (bytes_at 0 4 bs); body_size := le_value (bytes_at 4 8 bs) |}.

(** [enum class CtrlMsgType : int32_t]: any value can arrive. *)
Definition CtrlMsgType : Type := Z.
Definition sizeof_CtrlMsgType : nat := 4.
Definition kCreateChannelReq : CtrlMsgType := 1.
Definition kCreateChannelResp : CtrlMsgType := 2.
Definition kGetRemoteMemReq : CtrlMsgType := 3.
Definition kGetRemoteMemResp : CtrlMsgType := 4.
Definition kMatchEndpointReq : CtrlMsgType := 9.
Definition kMatchEndpointResp : CtrlMsgType := 10.
Definition kDestroyChannelReq : CtrlMsgType := 11.

Definition CtrlMsgType_bytes (t : CtrlMsgType) : list Z := le_bytes 4 (t mod 2 ^ 32).
Definition CtrlMsgType_of (bs : list Z) : CtrlMsgType := int32_of (le_value (bytes_at 0 4 bs)).

Record CtrlMsg := { msg_type : CtrlMsgType; msg : list Z }.
#[export] Instance CtrlMsg_eq_dec : EqDecision CtrlMsg.
Proof. solve_decision. Defined.

Record MatchEndpointResp := {
  mer_result : Status;
  mer_dst_ep_handle : Z;
  mer_port : Z;
  mer_channel_index : Z
}.
Definition sizeof_MatchEndpointResp : nat := 32.
Definition MatchEndpointResp_bytes (pad1 pad2 : Z) (r : MatchEndpointResp) : list Z :=
  le_bytes 4 (mer_result r) ++ le_bytes 4 pad1 ++ le_bytes 8 (mer_dst_ep_handle r) ++
  le_bytes 4 (mer_port r) ++ le_bytes 4 pad2 ++ le_bytes 8 (mer_channel_index r).
Definition MatchEndpointResp_of (bs : list Z) : MatchEndpointResp := {|
  mer_result := le_value (bytes_at 0 4 bs);
  mer_dst_ep_handle := le_value (bytes_at 8 8 bs);
  mer_port := le_value (bytes_at 16 4 bs);
  mer_channel_index := le_value (bytes_at 24 8 bs)
|}.

Record CreateChannelResp := { ccr_result : Status }.
Definition sizeof_CreateChannelResp : nat := 4.
Definition CreateChannelResp_bytes (r : CreateChannelResp) : list Z := le_bytes 4 (ccr_result r).
Definition CreateChannelResp_of (bs : list Z) : CreateChannelResp :=
  {| ccr_result := le_value (bytes_at 0 4 bs) |}.

Record GetRemoteMemReq := { gmr_dst_ep_handle : Z }.
Definition sizeof_GetRemoteMemReq : nat := 8.
Definition GetRemoteMemReq_bytes (r : GetRemoteMemReq) : list Z := le_bytes 8 (gmr_dst_ep_handle r).
Definition GetRemoteMemReq_of (bs : list Z) : GetRemoteMemReq :=
  {| gmr_dst_ep_handle := le_value (bytes_at 0 8 bs) |}.

(** * Frames

    What a sender puts on the wire for a message: header, type and payload. *)
Definition header_of (n : nat) : CtrlMsgHeader :=
  {| magic := kMagicNumber; body_size := u64 (Z.of_nat (sizeof_CtrlMsgType + n)) |}.
Definition frame (m : CtrlMsg) : list Z :=
  CtrlMsgHeader_bytes (header_of (length (msg m))) ++ CtrlMsgType_bytes (msg_type m) ++ msg m.

Definition is_byte (b : Z) : Prop := 0 <= b < 256.
#[export] Instance is_byte_dec b : Decision (is_byte b).
Proof. unfold is_byte. apply _. Defined.
Definition is_int32 (x : Z) : Prop := - 2 ^ 31 <= x < 2 ^ 31.

(** * Round trips *)
Lemma length_le_bytes n x : length (le_bytes n x) = n.
Proof. revert x. induction n as [|n IH]; intros x; simpl; [done|]. by rewrite IH. Qed.

Lemma le_bytes_are_bytes n x : Forall is_byte (le_bytes n x).
Proof.
  revert x. induction n as [|n IH]; intros x; simpl; constructor; [|by apply IH].
  unfold is_byte. change 255 with (Z.ones 8). rewrite Z.land_ones by lia. apply Z.mod_pos_bound. lia.
Qed.

Lemma le_value_le_bytes n x : 0 <= x < 2 ^ (8 * Z.of_nat n) -> le_value (le_bytes n x) = x.
Proof.
  revert x. induction n as [|n IH]; intros x Hx; cbn [le_bytes le_value].
  - change (2 ^ (8 * Z.of_nat 0)) with 1 in Hx. lia.
  - rewrite IH.
    2:{ rewrite Z.shiftr_div_pow2 by lia. split; [apply Z.div_pos; lia|].
        apply Z.div_lt_upper_bound; [lia|]. rewrite <- Z.pow_add_r by lia.
        replace (8 + 8 * Z.of_nat n) with (8 * Z.of_nat (S n)) by lia. lia. }
    apply Z.bits_inj'. intros k Hk. rewrite Z.lor_spec, Z.land_spec, Z.shiftl_spec by done.
    change 255 with (Z.ones 8). rewrite Z.testbit_ones_nonneg by lia.
    destruct (Z.ltb_spec k 8).
    + rewrite andb_true_r, (Z.testbit_neg_r _ (k - 8)) by lia. apply orb_false_r.
    + rewrite andb_false_r, Z.shiftr_spec by lia. simpl. f_equal. lia.
Qed.

(** A byte below a multiple of 256. *)
Lemma lor_byte b v : is_byte b -> Z.lor b (Z.shiftl v 8) = b + 256 * v.
Proof.
  intros Hb. unfold is_byte in Hb.
  assert (Hl : Z.land b (Z.shiftl v 8) = 0).
  { rewrite <- (Z.mod_small b (2 ^ 8)) by lia. rewrite <- Z.land_ones by lia.
    apply Z.bits_inj'. intros k Hk. rewrite !Z.land_spec, Z.bits_0, Z.testbit_ones_nonneg, Z.shiftl_spec by lia.
    destruct (Z.ltb_spec k 8); [rewrite (Z.testbit_neg_r _ (k - 8)) by lia|]; by rewrite ?andb_false_r. }
  rewrite <- Z.lxor_lor, <- Z.add_nocarry_lxor by done. rewrite Z.shiftl_mul_pow2 by lia. lia.
Qed.

Lemma le_value_range bs : Forall is_byte bs -> 0 <= le_value bs < 2 ^ (8 * Z.of_nat (length bs)).
Proof.
  induction 1 as [|b bs Hb Hbs IH]; cbn [le_value length]; [done|].
  rewrite lor_byte by done. unfold is_byte in Hb.
  replace (8 * Z.of_nat (S (length bs))) with (8 + 8 * Z.of_nat (length bs)) by lia.
  rewrite Z.pow_add_r by lia. change (2 ^ 8) with 256. lia.
Qed.

Lemma le_bytes_le_value bs : Forall is_byte bs -> le_bytes (length bs) (le_value bs) = bs.
Proof.
  induction 1 as [|b bs Hb Hbs IH]; cbn [le_value length le_bytes]; [done|].
  rewrite lor_byte by done. unfold is_byte in Hb. pose proof (le_value_range bs Hbs) as Hv.
  change 255 with (Z.ones 8). rewrite Z.land_ones, Z.shiftr_div_pow2 by lia. change (2 ^ 8) with 256.
  replace (b + 256 * le_value bs) with (b + le_value bs * 256) by lia.
  rewrite Z.mod_add, Z.div_add, Z.mod_small, Z.div_small by lia. by rewrite Z.add_0_l, IH.
Qed.

Lemma bytes_at_app_l i n a b : (i + n <= length a)%nat -> bytes_at i n (a ++ b) = bytes_at i n a.
Proof.
  intros H. unfold bytes_at. rewrite drop_app_le by lia. rewrite take_app_le; [done|]. rewrite length_drop. lia.
Qed.

Lemma bytes_at_app_r i n a b : (length a <= i)%nat -> bytes_at i n (a ++ b) = bytes_at (i - length a) n b.
Proof. intros H. unfold bytes_at. by rewrite drop_app_ge. Qed.

Lemma bytes_at_take i n k a : (i + n <= k)%nat -> bytes_at i n (take k a) = bytes_at i n a.
Proof. intros H. unfold bytes_at. rewrite skipn_firstn_comm, take_take. f_equal. lia. Qed.

Lemma bytes_at_all n a : length a = n -> bytes_at 0 n a = a.
Proof. intros <-. unfold bytes_at. by rewrite drop_0, firstn_all. Qed.

Lemma length_bytes_at i n a : (i + n <= length a)%nat -> length (bytes_at i n a) = n.
Proof. intros H. unfold bytes_at. rewrite length_take, length_drop. lia. Qed.

Lemma bytes_at_bytes i n a : Forall is_byte a -> Forall is_byte (bytes_at i n a).
Proof. intros H. by apply Forall_take, Forall_drop. Qed.

(** Read a field out of a sequence of scalars. *)
Ltac read_field :=
  repeat first
    [ rewrite bytes_at_app_l by (rewrite ?length_app, ?length_le_bytes; lia)
    | rewrite bytes_at_app_r by (rewrite ?length_app, ?length_le_bytes; lia) ];
  rewrite ?length_le_bytes; cbn [Nat.sub];
  rewrite ?bytes_at_all by (by rewrite length_le_bytes).

Lemma int32_of_wrap t : is_int32 t -> int32_of (t mod 2 ^ 32) = t.
Proof.
  unfold is_int32, int32_of. change (2 ^ 31) with 2147483648. change (2 ^ 32) with 4294967296. intros H.
  destruct (Z.ltb_spec (t mod 4294967296) 2147483648) as [Hl|Hl]; destruct (Z.leb_spec 0 t) as [Hp|Hp].
  - by rewrite Z.mod_small by lia.
  - rewrite <- (Z.mod_unique t 4294967296 (-1) (t + 4294967296)) in Hl by lia. lia.
  - rewrite Z.mod_small in Hl by lia. lia.
  - rewrite <- (Z.mod_unique t 4294967296 (-1) (t + 4294967296)) by lia. lia.
Qed.

Lemma CtrlMsgHeader_roundtrip h rest :
  is_u32 (magic h) -> is_u64 (body_size h) -> CtrlMsgHeader_of (CtrlMsgHeader_bytes h ++ rest) = h.
Proof.
  intros H1 H2. unfold CtrlMsgHeader_of, CtrlMsgHeader_bytes. rewrite <- !app_assoc. read_field.
  rewrite !le_value_le_bytes; [by destruct h|exact H2|exact H1].
Qed.

(** The header of bytes, as bytes. *)
Lemma CtrlMsgHeader_inverse bs :
  Forall is_byte bs -> (sizeof_CtrlMsgHeader <= length bs)%nat ->
  CtrlMsgHeader_bytes (CtrlMsgHeader_of bs) ++ drop sizeof_CtrlMsgHeader bs = bs.
Proof.
  intros Hb Hl. unfold sizeof_CtrlMsgHeader in *. unfold CtrlMsgHeader_bytes, CtrlMsgHeader_of; cbn [magic body_size].
  pose proof (le_bytes_le_value (bytes_at 0 4 bs) ltac:(by apply bytes_at_bytes)) as H1.
  pose proof (le_bytes_le_value (bytes_at 4 8 bs) ltac:(by apply bytes_at_bytes)) as H2.
  rewrite length_bytes_at in H1, H2 by lia. rewrite H1, H2. unfold bytes_at. rewrite drop_0, <- app_assoc.
  replace (drop 12 bs) with (drop 8 (drop 4 bs)) by (by rewrite drop_drop). by rewrite !take_drop.
Qed.

Lemma CtrlMsgHeader_of_range bs :
  Forall is_byte bs -> (sizeof_CtrlMsgHeader <= length bs)%nat ->
  is_u32 (magic (CtrlMsgHeader_of bs)) /\ is_u64 (body_size (CtrlMsgHeader_of bs)).
Proof.
  intros Hb Hl. unfold sizeof_CtrlMsgHeader in *. unfold CtrlMsgHeader_of; cbn [magic body_size].
  pose proof (le_value_range (bytes_at 0 4 bs) ltac:(by apply bytes_at_bytes)) as H1.
  pose proof (le_value_range (bytes_at 4 8 bs) ltac:(by apply bytes_at_bytes)) as H2.
  rewrite length_bytes_at in H1, H2 by lia. by split.
Qed.

Lemma CtrlMsgType_roundtrip t rest : is_int32 t -> CtrlMsgType_of (CtrlMsgType_bytes t ++ rest) = t.
Proof.
  intros H. unfold CtrlMsgType_of, CtrlMsgType_bytes. read_field.
  rewrite le_value_le_bytes by (apply Z.mod_pos_bound; lia). by apply int32_of_wrap.
Qed.

Lemma CtrlMsgType_inverse bs :
  Forall is_byte bs -> (sizeof_CtrlMsgType <= length bs)%nat ->
  CtrlMsgType_bytes (CtrlMsgType_of bs) = take sizeof_CtrlMsgType bs.
Proof.
  intros Hb Hl. unfold sizeof_CtrlMsgType in *. unfold CtrlMsgType_bytes, CtrlMsgType_of.
  pose proof (le_value_range (bytes_at 0 4 bs) ltac:(by apply bytes_at_bytes)) as Hv.
  pose proof (le_bytes_le_value (bytes_at 0 4 bs) ltac:(by apply bytes_at_bytes)) as Hi.
  rewrite length_bytes_at in Hv, Hi by lia. change (2 ^ (8 * Z.of_nat 4)) with 4294967296 in Hv.
  replace (int32_of _ mod 2 ^ 32) with (le_value (bytes_at 0 4 bs)).
  - rewrite Hi. unfold bytes_at. by rewrite drop_0.
  - unfold int32_of. change (2 ^ 31) with 2147483648. change (2 ^ 32) with 4294967296.
    destruct (Z.ltb_spec (le_value (bytes_at 0 4 bs)) 2147483648); [by rewrite Z.mod_small by lia|].
    apply (Z.mod_unique _ _ (-1)); lia.
Qed.

Lemma length_frame m : length (frame m) = (sizeof_CtrlMsgHeader + sizeof_CtrlMsgType + length (msg m))%nat.
Proof. unfold frame, CtrlMsgHeader_bytes, CtrlMsgType_bytes. rewrite !length_app, !length_le_bytes. unfold sizeof_CtrlMsgHeader, sizeof_CtrlMsgType. lia. Qed.

Lemma length_header h : length (CtrlMsgHeader_bytes h) = sizeof_CtrlMsgHeader.
Proof. unfold CtrlMsgHeader_bytes. by rewrite length_app, !length_le_bytes. Qed.
Lemma length_type t : length (CtrlMsgType_bytes t) = sizeof_CtrlMsgType.
Proof. apply length_le_bytes. Qed.

(** The fields of a response that fit their types. *)
Definition resp_ok (r : MatchEndpointResp) : Prop :=
  is_u32 (mer_result r) /\ is_u64 (mer_dst_ep_handle r) /\ is_u32 (mer_port r) /\ is_u64 (mer_channel_index r).

Lemma length_MatchEndpointResp p1 p2 r : length (MatchEndpointResp_bytes p1 p2 r) = sizeof_MatchEndpointResp.
Proof. unfold MatchEndpointResp_bytes. by rewrite !length_app, !length_le_bytes. Qed.

Lemma MatchEndpointResp_roundtrip p1 p2 r : resp_ok r -> MatchEndpointResp_of (MatchEndpointResp_bytes p1 p2 r) = r.
Proof.
  intros (H1 & H2 & H3 & H4). unfold MatchEndpointResp_of, MatchEndpointResp_bytes. read_field.
  rewrite !le_value_le_bytes; [by destruct r|done..].
Qed.

Lemma CreateChannelResp_roundtrip r : is_u32 (ccr_result r) -> CreateChannelResp_of (CreateChannelResp_bytes r) = r.
Proof.
  intros H. unfold CreateChannelResp_of, CreateChannelResp_bytes. read_field.
  rewrite le_value_le_bytes; [by destruct r|done].
Qed.

#[export] Hint Rewrite length_le_bytes length_header length_type length_MatchEndpointResp : wire.
#[export] Hint Resolve le_bytes_are_bytes bytes_at_bytes : wire.
