(* ===== verification/Hcomm.v ===== *)
(** The communication library HCOMM, the runtime and the thread pool as the endpoints,
    channels and the server of the CS layer call them: the structures of
    hixl/proxy/hcomm/hcomm_res_defs.h, and one operation per call.

    [EpCreate] to [EpMemUnimport] are the virtual methods of [Endpoint], [ChCreate] to
    [ChGetStatus] those of [Channel]; the boolean of the latter says whether the
    channel is a [UbMemChannel] or an [HcommChannel]. *)

From stdpp Require Import pretty.
From S2P Require Import Prelude Wire.

(** * Structures of hcomm_res_defs.h; enumerators are their values *)
Definition COMM_PROTOCOL_HCCS : Z := 0.
Definition COMM_PROTOCOL_ROCE : Z := 1.
Definition COMM_PROTOCOL_UBC_CTP : Z := 4.
Definition COMM_PROTOCOL_UBC_TP : Z := 5.
Definition COMM_PROTOCOL_UB_MEM : Z := 6.
Definition COMM_PROTOCOL_UBOE : Z := 7.
Definition COMM_PROTOCOL_UBG : Z := 9.
Definition COMM_ADDR_TYPE_RESERVED : Z := -1.
Definition COMM_ADDR_TYPE_IP_V4 : Z := 0.
Definition COMM_ADDR_TYPE_IP_V6 : Z := 1.
Definition COMM_ADDR_TYPE_ID : Z := 2.
Definition COMM_ADDR_TYPE_EID : Z := 3.
Definition ENDPOINT_LOC_TYPE_DEVICE : Z := 0.
Definition ENDPOINT_LOC_TYPE_HOST : Z := 1.
Definition COMM_ENGINE_RESERVED : Z := -1.
Definition COMM_ENGINE_CPU : Z := 0.
Definition COMM_ENGINE_AICPU : Z := 2.
Definition COMM_MEM_TYPE_DEVICE : Z := 0.
Definition COMM_MEM_TYPE_HOST : Z := 1.
Definition COMM_ADDR_EID_LEN : nat := 16.
Definition HCOMM_SOCKET_ROLE_CLIENT : Z := 0.
Definition HCOMM_SOCKET_ROLE_SERVER : Z := 1.
Definition HCOMM_CHANNEL_MAGIC_WORD : Z := 0x0fcf0f0f.
Definition HCOMM_CHANNEL_VERSION : Z := 4.
Definition HCOMM_CHANNEL_NAME_MAX_LEN : Z := 191.

(** A union is its bytes. *)
Record EndpointDesc := {
  ed_protocol : Z;
  ed_addr_type : Z;
  ed_addr : list Z;
  ed_locType : Z;
  ed_loc : list Z;
  ed_raws : list Z
}.
Definition sizeof_EndpointDesc : nat := 160.

Definition addr_id (d : EndpointDesc) : Z := le_value (take 4 (ed_addr d)).
Definition addr_eid (d : EndpointDesc) : list Z := take COMM_ADDR_EID_LEN (ed_addr d).
Definition addr_v4 (d : EndpointDesc) : list Z := take 4 (ed_addr d).
Definition addr_v6 (d : EndpointDesc) : list Z := take 16 (ed_addr d).
Definition devPhyId (d : EndpointDesc) : Z := le_value (take 4 (ed_loc d)).

Definition EndpointDesc_bytes (d : EndpointDesc) : list Z :=
  le_bytes 4 (ed_protocol d mod 2 ^ 32) ++ le_bytes 4 (ed_addr_type d mod 2 ^ 32) ++ ed_addr d ++
  le_bytes 4 (ed_locType d mod 2 ^ 32) ++ ed_loc d ++ ed_raws d.
Definition EndpointDesc_of (bs : list Z) : EndpointDesc := {|
  ed_protocol := int32_of (le_value (bytes_at 0 4 bs));
  ed_addr_type := int32_of (le_value (bytes_at 4 4 bs));
  ed_addr := bytes_at 8 36 bs;
  ed_locType := int32_of (le_value (bytes_at 44 4 bs));
  ed_loc := bytes_at 48 60 bs;
  ed_raws := bytes_at 108 52 bs
|}.

(** [MatchEndpointReq] of hixl/common/ctrl_msg.h is the descriptor alone. *)
Definition MatchEndpointReq_of (bs : list Z) : EndpointDesc := EndpointDesc_of bs.

Record CreateChannelReq := {
  ccq_src : EndpointDesc;
  ccq_dst_ep_handle : Z;
  ccq_tc : Z;
  ccq_sl : Z;
  ccq_retry_cnt : Z;
  ccq_retry_interval : Z;
  ccq_channel_index : Z;
  ccq_qos : Z;
  ccq_timeout_ms : Z
}.
Definition CreateChannelReq_of (bs : list Z) : CreateChannelReq := {|
  ccq_src := EndpointDesc_of bs;
  ccq_dst_ep_handle := le_value (bytes_at 160 8 bs);
  ccq_tc := le_value (bytes_at 168 1 bs);
  ccq_sl := le_value (bytes_at 169 1 bs);
  ccq_retry_cnt := le_value (bytes_at 172 4 bs);
  ccq_retry_interval := le_value (bytes_at 176 4 bs);
  ccq_channel_index := le_value (bytes_at 184 8 bs);
  ccq_qos := le_value (bytes_at 192 1 bs);
  ccq_timeout_ms := le_value (bytes_at 196 4 bs)
|}.
Definition sizeof_CreateChannelReq_ : nat := 200.

Record CommMem := { cm_type : Z; cm_addr : Z; cm_size : Z }.

(** The union of attributes by its words: [ubAttr.sqDepth] is the word of
    [roceAttr.queueNum] and [ubAttr.scqDepth] the word of [roceAttr.retryCnt]. *)
Record ChannelAttr := {
  queueNum : Z; retryCnt : Z; retryInterval : Z; at_tc : Z; at_sl : Z;
  qpThreshold : Z; cqAttrFlags : Z; srcPortList : Z; sqDepth : Z; scqDepth : Z
}.

Record HcommChannelDesc := {
  hc_version : Z;
  hc_magicWord : Z;
  hc_size : Z;
  hc_remoteEndpoint : EndpointDesc;
  hc_notifyNum : Z;
  hc_exchangeAllMems : bool;
  hc_memHandles : Z;
  hc_memHandleNum : Z;
  hc_socket : Z;
  hc_role : Z;
  hc_port : Z;
  hc_attr : ChannelAttr;
  hc_qos : Z;
  hc_channelName : string
}.

Definition sizeof_HcommChannelDesc : Z := 360.

(** [EndpointDescInit] and [HcommChannelDescInit] of one descriptor: every byte is
    0xff, then the fields are set. *)
Definition EndpointDescInit : EndpointDesc := {|
  ed_protocol := -1; ed_addr_type := COMM_ADDR_TYPE_RESERVED; ed_addr := replicate 36 255;
  ed_locType := -1; ed_loc := replicate 60 255; ed_raws := replicate 52 255
|}.
Definition HcommChannelDescInit : HcommChannelDesc := {|
  hc_version := HCOMM_CHANNEL_VERSION;
  hc_magicWord := HCOMM_CHANNEL_MAGIC_WORD;
  hc_size := sizeof_HcommChannelDesc;
  hc_remoteEndpoint := EndpointDescInit;
  hc_notifyNum := 0;
  hc_exchangeAllMems := false;
  hc_memHandles := nullptr;
  hc_memHandleNum := 0;
  hc_socket := nullptr;
  hc_role := -1;
  hc_port := 0;
  hc_attr := {| queueNum := UINT32_MAX; retryCnt := UINT32_MAX; retryInterval := UINT32_MAX;
                at_tc := 255; at_sl := 255; qpThreshold := 0; cqAttrFlags := 0; srcPortList := nullptr;
                sqDepth := 0; scqDepth := 0 |};
  hc_qos := UINT32_MAX;
  hc_channelName := ""
|}.

(** A value of nlohmann::json, as the sources build them. *)
Inductive Json := JNull | JBool (b : bool) | JInt (z : Z) | JFloat (bits : Z) | JString (s : string) | JArray (l : list Json) | JObject (l : list (string * Json)).

(** A user-defined processor of messages, registered by the layers above. *)
Definition UserProc : Type := Z.

(** * Calls *)
Inductive HcOp : Type -> Type :=
| EpCreate (d : EndpointDesc) : HcOp (Z * Z)
| EpDestroy (ep : Z) : HcOp Z
| EpGetListenPort (ep : Z) : HcOp (Z * Z)
| EpMemReg (ep : Z) (tag : option string) (mem : CommMem) : HcOp (Z * Z)
| EpMemUnreg (ep mem_handle : Z) : HcOp Z
| EpMemExport (ep mem_handle : Z) : HcOp (Z * Z * Z)
| EpMemImport (ep desc len : Z) : HcOp (Z * CommMem)
| EpMemUnimport (ep desc len : Z) : HcOp Z
| ChCreate (ub : bool) (ep engine : Z) (desc : HcommChannelDesc) : HcOp (Z * Z)
| ChDestroy (ub : bool) (ch : Z) : HcOp Z
| ChGetStatus (ub : bool) (ch : Z) : HcOp (Z * Z)
| HostRegister (addr size : Z) : HcOp (Z * Z)
| HostUnregister (addr : Z) : HcOp Z
| SleepUs (us : Z) : HcOp unit
| AclGetDevice : HcOp (Z * Z)
| AclGetDeviceCount : HcOp (Z * Z)
| AclGetCurrentContext : HcOp (Z * Z)
| AclSetCurrentContext (ctx : Z) : HcOp Z
| AclMalloc (size : Z) : HcOp (Z * Z)
| AclFree (ptr : Z) : HcOp Z
| AclMemcpyToDevice (ptr : Z) (value : Z) : HcOp Z
| SysPageSize : HcOp Z
| PosixMemalign (align size : Z) : HcOp (Z * Z)
| HostFree (ptr : Z) : HcOp unit
| PoolGetInstance (dev : Z) : HcOp bool
| PoolInitialize (dev n : Z) : HcOp Status
| PoolResolveNotifyAddr (dev : Z) : HcOp Status
| PoolFinalize (dev : Z) : HcOp unit
| PoolGetContext (dev : Z) : HcOp Z
| ConfigurableTransferSupported : HcOp bool
| EpollCreate : HcOp Z
| EpollAdd (epoll_fd fd events : Z) : HcOp (Z * Z)
| EpollMod (epoll_fd fd events : Z) : HcOp (Z * Z)
| EpollDel (epoll_fd fd : Z) : HcOp Z
| EpollWait (epoll_fd timeout_ms : Z) : HcOp (list (Z * Z))
| EpollClose (epoll_fd : Z) : HcOp Z
| RunUserProc (p : UserProc) (conn : nat) (msg : list Z) : HcOp Status
| JsonDump (j : Json) : HcOp (option (list Z)).
