(* ===== verification/ClientRt.v ===== *)
(** What the client of the CS layer calls beside the sockets and HCOMM: its slots of the
    transfer pool, the C heap and pinned memory, streams and kernels of the runtime,
    transfers of HCOMM, the TLS manager, nlohmann::json, and the engine of UB memory. *)

From S2P Require Import Prelude Wire Hcomm MemStore TransferPool DeviceKernel.

Inductive CliOp : Type -> Type :=
(* the pool of the device: hixl/cs/transfer_pool.cc *)
| PoolAcquire (dev : Z) : CliOp (Status * SlotHandle)
| PoolRelease (slot : SlotHandle) : CliOp unit
| PoolAbort (slot : SlotHandle) : CliOp unit
| PoolGetAllSlots (dev : Z) : CliOp (Status * list SlotHandle)
| PoolGetDeviceKernelFunc (dev : Z) (is_get : bool) : CliOp Z
(* memory *)
| Malloc (size : Z) : CliOp Z
| FillWords (ptr n value : Z) : CliOp unit
| StoreBytes (ptr : Z) (bytes : list Z) : CliOp unit
| LoadWord (ptr : Z) : CliOp Z
| StoreWord (ptr value : Z) : CliOp unit
| LoadByte (ptr : Z) : CliOp Z
| LoadHead (ptr : Z) : CliOp Z
| StoreByte (ptr value : Z) : CliOp unit
| AclMallocHost (size : Z) : CliOp (Z * Z)
| AclFreeHost (ptr : Z) : CliOp Z
| AclMemcpyDescs (ptr : Z) (descs : list HixlOneSideOpDesc) : CliOp Z
| AclMemcpyFlagAsync (dst src stream : Z) : CliOp Z
(* kernels *)
| AclKernelArgsInit (func : Z) : CliOp (Z * Z)
| AclKernelArgsAppend (args : Z) (param : HixlOneSideOpParam) : CliOp Z
| AclKernelArgsFinalize (args : Z) : CliOp Z
| AclLaunchKernel (func stream args timeout_s : Z) : CliOp Z
| AclWaitAndResetNotify (notify stream timeout_ms : Z) : CliOp Z
| AclSynchronizeStream (stream timeout_ms : Z) : CliOp Z
(* transfers of HCOMM on a channel, started by the host *)
| HcommNbi (is_get : bool) (channel dst src len : Z) : CliOp Z
| HcommFence (channel : Z) : CliOp Z
(* the process *)
| TlsManagerInitialize : CliOp Status
| TlsManagerFinalize : CliOp unit
| GetEnv (name : string) : CliOp (option string)
| GetSocName : CliOp (option string)
| JsonParse (text : list Z) : CliOp (option Json)
(* the engine of UB memory: hixl/cs/ubmem/ubmem_engine.cc *)
| UbCreate (sqe_format : Z) : CliOp bool
| UbSubmitSync (is_get : bool) (descs : list HixlOneSideOpDesc) (timeout_ms : Z) : CliOp Status
| UbSubmitAsync (is_get : bool) (descs : list HixlOneSideOpDesc) : CliOp (Status * Z)
| UbCheckStatus (query_handle : Z) : CliOp (Status * Z)
| UbFinalize : CliOp unit.
