(* ===== verification/Net.v ===== *)
(** The operating system and OpenSSL as the control channel uses them, with the calls
    of HCOMM and the runtime ([Hc], [Cli]) that the CS layer makes beside them: the calls,
    what a connection has sent and received according to the history, and the laws
    that the theorems rely on. *)

From S2P Require Import Prelude Effects Wire Hcomm ClientRt.

Definition EINTR : Z := 4.
Definition EAGAIN : Z := 11.
Definition EWOULDBLOCK : Z := 11.
Definition ECONNABORTED : Z := 103.
Definition ENOTCONN : Z := 107.
Definition POLLIN : Z := 1.
Definition POLLOUT : Z := 4.
Definition AF_INET : Z := 2.
Definition AF_INET6 : Z := 10.
Definition SSL_ERROR_WANT_READ : Z := 2.
Definition SSL_ERROR_WANT_WRITE : Z := 3.
Definition SSL_ERROR_ZERO_RETURN : Z := 6.

(** The socket options that the code sets. *)
Inductive SockOpt :=
| SO_REUSEADDR | SO_RCVTIMEO (ms : Z) | SO_SNDTIMEO (ms : Z) | TCP_NODELAY | IPV6_V6ONLY
| SO_KEEPALIVE | TCP_KEEPIDLE | TCP_KEEPINTVL | TCP_KEEPCNT.

(** A read returns bytes (none at the end of the stream) or -1 and [errno]; a read
    of OpenSSL returns bytes or a non-positive result, its [SSL_get_error] and [errno]. *)
Inductive Io := IoBytes (bs : list Z) | IoError (errno : Z).
Inductive SslIo := SslBytes (bs : list Z) | SslFail (rc ssl_err errno : Z).

Inductive NetOp : Type -> Type :=
| NetNow : NetOp Z
| NetSend (fd : Z) (data : list Z) : NetOp (Z * Z)
| NetRead (fd len : Z) : NetOp Io
| NetRecv (fd len : Z) : NetOp Io
| NetPoll (fd events timeout : Z) : NetOp (Z * Z)
| NetInetPton (family : Z) (ip : string) : NetOp Z
| NetGetaddrinfo (ip : string) (port : Z) : NetOp (Z * list Z)
| NetFreeaddrinfo : NetOp unit
| NetSocket (addr : Z) : NetOp Z
| NetSetsockopt (fd : Z) (opt : SockOpt) : NetOp Z
| NetConnect (fd addr : Z) : NetOp Z
| NetBind (fd port : Z) : NetOp Z
| NetListen (fd backlog : Z) : NetOp Z
| NetAccept (fd : Z) : NetOp (Z * Z)
| NetShutdown (fd : Z) : NetOp (Z * Z)
| NetClose (fd : Z) : NetOp Z
| NetNew : NetOp bool
| TlsGetEnabled : NetOp (Status * bool)
| TlsHasContext : NetOp bool
| TlsCreateSession (fd : Z) (server : bool) : NetOp (Status * Z)
| SslHandshake (server : bool) (ssl : Z) : NetOp (Z * Z)
| SslWrite (ssl : Z) (data : list Z) : NetOp (Z * Z * Z)
| SslRead (ssl len : Z) : NetOp SslIo
| SslPending (ssl : Z) : NetOp Z
| SslShutdown (ssl : Z) : NetOp unit
| SslFree (ssl : Z) : NetOp unit
| Hc {T} (op : HcOp T) : NetOp T
| Cli {T} (op : CliOp T) : NetOp T.

(** * Observables *)

(** The bytes that the kernel or OpenSSL took for sending, in order. *)
Definition sent_by (e : Event NetOp) : list Z :=
  match e with
  | Ev (NetSend _ data) (rc, _) => take (Z.to_nat rc) data
  | Ev (SslWrite _ data) (rc, _, _) => take (Z.to_nat rc) data
  | _ => []
  end.
Fixpoint sent (h : History NetOp) : list Z :=
  match h with [] => [] | e :: h => sent h ++ sent_by e end.

(** The bytes delivered to the program, in order. *)
Definition received_by (e : Event NetOp) : list Z :=
  match e with
  | Ev (NetRead _ _) (IoBytes bs) => bs
  | Ev (NetRecv _ _) (IoBytes bs) => bs
  | Ev (SslRead _ _) (SslBytes bs) => bs
  | _ => []
  end.
Fixpoint received (h : History NetOp) : list Z :=
  match h with [] => [] | e :: h => received h ++ received_by e end.

(** The descriptors and TLS sessions that are open: created and not closed. *)
Definition fd_step (e : Event NetOp) (fds : gset Z) : gset Z :=
  match e with
  | Ev (NetSocket _) r => if 0 <=? r then {[r]} ∪ fds else fds
  | Ev (NetAccept _) (r, _) => if 0 <=? r then {[r]} ∪ fds else fds
  | Ev (NetClose fd) _ => fds ∖ {[fd]}
  | _ => fds
  end.
Definition open_fds (h : History NetOp) : gset Z := foldr fd_step ∅ h.

Definition ssl_step (e : Event NetOp) (ssls : gset Z) : gset Z :=
  match e with
  | Ev (TlsCreateSession _ _) (st, r) => if st =? SUCCESS then {[r]} ∪ ssls else ssls
  | Ev (SslFree ssl) _ => ssls ∖ {[ssl]}
  | _ => ssls
  end.
Definition open_ssls (h : History NetOp) : gset Z := foldr ssl_step ∅ h.

(** The descriptor or session that a call needs. *)
Definition needs_fd (e : Event NetOp) : option Z :=
  match e with
  | Ev (NetSend fd _) _ | Ev (NetRead fd _) _ | Ev (NetRecv fd _) _ | Ev (NetPoll fd _ _) _
  | Ev (NetSetsockopt fd _) _ | Ev (NetConnect fd _) _ | Ev (NetBind fd _) _ | Ev (NetListen fd _) _
  | Ev (NetAccept fd) _ | Ev (NetShutdown fd) _ | Ev (NetClose fd) _ | Ev (TlsCreateSession fd _) _ => Some fd
  | _ => None
  end.
Definition needs_ssl (e : Event NetOp) : option Z :=
  match e with
  | Ev (SslHandshake _ ssl) _ | Ev (SslWrite ssl _) _ | Ev (SslRead ssl _) _ | Ev (SslPending ssl) _
  | Ev (SslShutdown ssl) _ | Ev (SslFree ssl) _ => Some ssl
  | _ => None
  end.

(** Every call was made on something open at that moment (a call on a negative
    descriptor fails and touches nothing). *)
Fixpoint disciplined (h : History NetOp) : Prop :=
  match h with
  | [] => True
  | e :: h =>
      match needs_fd e with Some fd => 0 <= fd -> fd ∈ open_fds h | None => True end /\
      match needs_ssl e with Some ssl => ssl ∈ open_ssls h | None => True end /\
      disciplined h
  end.

(** * Laws *)

(** [lb] is a lower bound of every later reading of the clock. *)
Definition clock_from {env : Environment NetOp} (lb : Z) (h : History NetOp) : Prop :=
  forall t, lb <= reply_of Z NetNow (t ++ h).

(** The calls that take time: those on sockets and sessions, sleeping, and the
    transfers of HCOMM. *)
Definition is_io {T} (op : NetOp T) : bool :=
  match op with
  | NetSend _ _ | NetRead _ _ | NetRecv _ _ | NetPoll _ _ _ | SslHandshake _ _ | SslWrite _ _ | SslRead _ _ => true
  | Hc (SleepUs _) => true
  | Cli (HcommNbi _ _ _ _ _) => true
  | _ => false
  end.

(** The clock does not go back, and a socket call takes at least one of its ticks;
    a call takes or returns at most the bytes it was given room for. *)
Class NetLaws (env : Environment NetOp) : Prop := {
  clock_nonneg : forall h, 0 <= reply_of Z NetNow h;
  clock_monotone : forall r h, r = reply_of Z NetNow h -> clock_from r (Ev NetNow r :: h);
  clock_io : forall r t T (op : NetOp T) x h,
    is_io op = true -> r = reply_of Z NetNow h -> clock_from (r + 1) (Ev op x :: t ++ Ev NetNow r :: h);
  send_bound : forall fd data h, fst (reply_of _ (NetSend fd data) h) <= Z.of_nat (length data);
  write_bound : forall ssl data h, fst (fst (reply_of _ (SslWrite ssl data) h)) <= Z.of_nat (length data);
  read_bound : forall fd len h bs, reply_of _ (NetRead fd len) h = IoBytes bs ->
    Z.of_nat (length bs) <= len /\ Forall is_byte bs;
  recv_bound : forall fd len h bs, reply_of _ (NetRecv fd len) h = IoBytes bs ->
    Z.of_nat (length bs) <= len /\ Forall is_byte bs;
  ssl_read_bound : forall ssl len h bs, reply_of _ (SslRead ssl len) h = SslBytes bs ->
    0 < Z.of_nat (length bs) <= len /\ Forall is_byte bs;
  ssl_fail_bound : forall ssl len h rc e errno, reply_of _ (SslRead ssl len) h = SslFail rc e errno -> rc <= 0;
  socket_fresh : forall addr h, let r := reply_of _ (NetSocket addr) h in
    r = -1 \/ (0 <= r /\ r ∉ open_fds h);
  accept_fresh : forall fd h, let r := fst (reply_of _ (NetAccept fd) h) in
    r < 0 \/ r ∉ open_fds h;
  session_fresh : forall fd server h, let '(st, r) := reply_of _ (TlsCreateSession fd server) h in
    st = SUCCESS -> r <> nullptr /\ r ∉ open_ssls h
}.

(** ** Lemmas *)
Lemma sent_app t h : sent (t ++ h) = sent h ++ sent t.
Proof. induction t as [|e t IH]; simpl; [by rewrite app_nil_r|]. by rewrite IH, app_assoc. Qed.
Lemma received_app t h : received (t ++ h) = received h ++ received t.
Proof. induction t as [|e t IH]; simpl; [by rewrite app_nil_r|]. by rewrite IH, app_assoc. Qed.

Lemma clock_from_mono {env : Environment NetOp} lb t h : clock_from lb h -> clock_from lb (t ++ h).
Proof. intros H t'. rewrite app_assoc. apply H. Qed.
