(* ===== verification/CtrlConn.v ===== *)
(** The control connection: hixl/common/tls/tls_session.cc and
    hixl/common/ctrl_msg_plugin.cc.

    [Conn] is a [CtrlMsgPlugin] with its [TlsSession]; the computations run on one
    connection.  The lifecycle and receive mutexes make each call atomic towards
    [Close] and other receivers.  A pointer to a buffer is the list of its bytes, an
    address that is used only in logs is left out, and [err_no] is the variable that
    the caller of [Send] passes for [errno]. *)

From S2P Require Import Prelude Effects Wire Hcomm Net.

Record TlsSession := { handshake_complete_ : bool; failed_ : bool; ssl_ : Z; session_fd : Z }.

Record Conn := {
  fd_ : Z;
  initialized_ : bool;
  tls_enabled_ : bool;
  tls_session_ : option TlsSession;
  err_no : Z
}.

Inductive TlsHandshakeState := kWantRead | kWantWrite | kComplete.
#[export] Instance TlsHandshakeState_eq_dec : EqDecision TlsHandshakeState.
Proof. solve_decision. Defined.

(** [CtrlMsgPlugin()]. *)
Definition Conn_new : Conn :=
  {| fd_ := -1; initialized_ := false; tls_enabled_ := false; tls_session_ := None; err_no := 0 |}.

Definition set_fd (fd : Z) (c : Conn) : Conn :=
  {| fd_ := fd; initialized_ := initialized_ c; tls_enabled_ := tls_enabled_ c;
     tls_session_ := tls_session_ c; err_no := err_no c |}.
Definition set_init (i t : bool) (c : Conn) : Conn :=
  {| fd_ := fd_ c; initialized_ := i; tls_enabled_ := t; tls_session_ := tls_session_ c; err_no := err_no c |}.
Definition set_session (s : option TlsSession) (c : Conn) : Conn :=
  {| fd_ := fd_ c; initialized_ := initialized_ c; tls_enabled_ := tls_enabled_ c; tls_session_ := s; err_no := err_no c |}.
Definition set_errno (e : Z) (c : Conn) : Conn :=
  {| fd_ := fd_ c; initialized_ := initialized_ c; tls_enabled_ := tls_enabled_ c;
     tls_session_ := tls_session_ c; err_no := e |}.
Definition set_failed (s : TlsSession) : TlsSession :=
  {| handshake_complete_ := handshake_complete_ s; failed_ := true; ssl_ := ssl_ s; session_fd := session_fd s |}.
Definition set_complete (s : TlsSession) : TlsSession :=
  {| handshake_complete_ := true; failed_ := failed_ s; ssl_ := ssl_ s; session_fd := session_fd s |}.

Definition INT32_MAX : Z := 2 ^ 31 - 1.
Definition kMaxTransferSize : Z := 2 ^ 63 - 1.
Definition kDefaultCtrlTimeoutMs : Z := 1000.
Definition kServerHandshakeTimeoutMs : Z := 10000.

(** [duration_cast<milliseconds>] of nanoseconds. *)
Definition to_ms (ns : Z) : Z := ns ÷ 1000000.

(** Enough rounds for a loop that reads the clock once a round until [timeout_ms]. *)
Definition timed_rounds (timeout_ms : Z) : positive := Z.to_pos (Z.max 0 timeout_ms * 1000000 + 2).

Section Conn.
Context {env : Environment NetOp}.
Let C := M NetOp Conn.

(** [static_cast<int>] of a 64-bit value. *)
Definition int_of (x : Z) : Z := int32_of (x mod 2 ^ 32).

(** ** TlsSession *)
Section Tls.

Definition session : C TlsSession :=
  let* c := get in match tls_session_ c with Some s => ret s | None => stuck end.
Definition session_update (f : TlsSession -> TlsSession) : C unit :=
  let* s := session in modify (set_session (Some (f s))).

Definition IsWantIo (ssl_err : Z) : bool :=
  (ssl_err =? SSL_ERROR_WANT_READ) || (ssl_err =? SSL_ERROR_WANT_WRITE).

Definition RemainingTimeoutMs (start timeout_ms : Z) : C Z :=
  let* now := call NetNow in ret (timeout_ms - to_ms (now - start)).

Definition TlsSession_PollFd (events timeout_ms : Z) : C unit :=
  let* s := session in
  let* r := call (NetPoll (session_fd s) events timeout_ms) in
  let '(rc, errno) := r in
  require (negb (rc =? 0)) TIMEOUT ;;
  if (rc <? 0) && negb (errno =? EINTR) then fail FAILED else ret tt.

Definition HandshakeStep (server : bool) : C TlsHandshakeState :=
  let* s := session in
  require (negb (is_null (ssl_ s)) && negb (failed_ s)) FAILED ;;
  if handshake_complete_ s then ret kComplete else
  let* r := call (SslHandshake server (ssl_ s)) in
  let '(rc, ssl_err) := r in
  if rc =? 1 then session_update set_complete ;; ret kComplete
  else if IsWantIo ssl_err then ret (if ssl_err =? SSL_ERROR_WANT_READ then kWantRead else kWantWrite)
  else fail FAILED.

Definition handshake_round (server : bool) (timeout_ms start : Z) (_ : unit) : C (unit + unit) :=
  let* state := HandshakeStep server in
  if bool_decide (state = kComplete) then let* _ := call NetNow in ret (inr tt) else
  let* now := call NetNow in
  let elapsed := to_ms (now - start) in
  require (elapsed <? timeout_ms) TIMEOUT ;;
  TlsSession_PollFd (if bool_decide (state = kWantRead) then POLLIN else POLLOUT) (timeout_ms - int_of elapsed) ;;
  ret (inl tt).

Definition DoHandshake (server : bool) (timeout_ms : Z) : C unit :=
  require (0 <? timeout_ms) PARAM_INVALID ;;
  let* start := call NetNow in
  loop (timed_rounds timeout_ms) (handshake_round server timeout_ms start) tt.

Definition TlsSession_IsUsable (s : TlsSession) : bool :=
  negb (is_null (ssl_ s)) && handshake_complete_ s && negb (failed_ s).
Definition Invalidate : C unit := session_update set_failed.

Definition WriteOnce (buf : list Z) : C (Z * Z) :=
  let* s := session in
  require (TlsSession_IsUsable s) FAILED ;;
  require (Z.of_nat (length buf) <=? INT32_MAX) PARAM_INVALID ;;
  let* r := call (SslWrite (ssl_ s) buf) in
  let '(rc, ssl_err, errno) := r in
  if 0 <? rc then ret (rc, 0)
  else if IsWantIo ssl_err then ret (-1, ssl_err)
  else session_update set_failed ;; modify (set_errno errno) ;; fail FAILED.

(** The guard of [Send]: a write that was begun and abandoned. *)
Definition abandon_write (write_started : bool) : C unit :=
  if write_started then Invalidate else ret tt.

(** One round of the loop of [TlsSession::Send], on the bytes that remain. *)
Definition tls_send_round (timeout_ms start : Z) (st : list Z * bool) : C ((list Z * bool) + unit) :=
  let '(pos, write_started) := st in
  if bool_decide (pos = []) then ret (inr tt) else
  on_fail
    (let* now := call NetNow in
     require (to_ms (now - start) <? timeout_ms) TIMEOUT)
    (abandon_write write_started) ;;
  on_fail
    (let* r := WriteOnce pos in
     let '(rc, ssl_err) := r in
     if 0 <? rc then ret (inl (drop (Z.to_nat rc) pos, true)) else
     let* remaining_ms := RemainingTimeoutMs start timeout_ms in
     if remaining_ms <=? 0 then ret (inl (pos, true)) else
     TlsSession_PollFd (if ssl_err =? SSL_ERROR_WANT_READ then POLLIN else POLLOUT) (Z.min remaining_ms INT32_MAX) ;;
     ret (inl (pos, true)))
    (abandon_write true).

Definition TlsSession_Send (buf : list Z) (timeout_ms : Z) : C unit :=
  let* start := call NetNow in
  modify (set_errno 0) ;;
  let* s := session in
  require (TlsSession_IsUsable s) FAILED ;;
  require (Z.of_nat (length buf) <=? INT32_MAX) PARAM_INVALID ;;
  loop (timed_rounds timeout_ms) (tls_send_round timeout_ms start) (buf, false).

(** One round of the loop of [TlsSession::Recv], on the bytes read so far. *)
Definition tls_recv_round (len timeout_ms start : Z) (got : list Z) : C (list Z + list Z) :=
  let nbytes := len - Z.of_nat (length got) in
  if nbytes <=? 0 then ret (inr got) else
  let* remaining_ms := RemainingTimeoutMs start timeout_ms in
  require (0 <? remaining_ms) TIMEOUT ;;
  let* s := session in
  require (negb (failed_ s)) FAILED ;;
  let* r := call (SslRead (ssl_ s) nbytes) in
  match r with
  | SslBytes bs => ret (inl (got ++ bs))
  | SslFail rc ssl_err errno =>
      if negb (IsWantIo ssl_err) then session_update set_failed ;; fail FAILED else
      let* remaining_ms := RemainingTimeoutMs start timeout_ms in
      if remaining_ms <=? 0 then ret (inl got) else
      TlsSession_PollFd (if ssl_err =? SSL_ERROR_WANT_READ then POLLIN else POLLOUT) (Z.min remaining_ms INT32_MAX) ;;
      ret (inl got)
  end.

Definition TlsSession_Recv (len timeout_ms : Z) : C (list Z) :=
  let* s := session in
  require (TlsSession_IsUsable s) FAILED ;;
  require (len <=? INT32_MAX) PARAM_INVALID ;;
  let* start := call NetNow in
  loop (timed_rounds timeout_ms) (tls_recv_round len timeout_ms start) [].

(** The result of one receive: the bytes, or -1 with [errno]. *)
Definition RecvOnce (len : Z) : C Io :=
  let* s := session in
  require (TlsSession_IsUsable s) FAILED ;;
  require (len <=? INT32_MAX) PARAM_INVALID ;;
  let* r := call (SslRead (ssl_ s) len) in
  match r with
  | SslBytes bs => ret (IoBytes bs)
  | SslFail rc ssl_err errno =>
      if IsWantIo ssl_err then ret (IoError EAGAIN)
      else if (ssl_err =? SSL_ERROR_ZERO_RETURN) || (rc =? 0) then ret (IoBytes [])
      else session_update set_failed ;; fail FAILED
  end.

Definition TlsSession_HasPending : C bool :=
  let* s := session in
  if negb (is_null (ssl_ s)) && negb (failed_ s) then
    let* n := call (SslPending (ssl_ s)) in ret (0 <? n)
  else ret false.

Definition TlsSession_Shutdown : C unit :=
  let* s := session in
  if TlsSession_IsUsable s then call (SslShutdown (ssl_ s)) else ret tt.

(** [~TlsSession]. *)
Definition TlsSession_delete (s : TlsSession) : C unit :=
  if is_null (ssl_ s) then ret tt else call (SslFree (ssl_ s)).
End Tls.

(** ** Plain sockets *)
Definition WaitSocketReady (fd events timeout_ms : Z) : C bool :=
  let* r := call (NetPoll fd events timeout_ms) in
  let '(rc, errno) := r in
  if (rc <? 0) && (errno =? EINTR) then ret false else
  require (0 <=? rc) FAILED ;;
  ret (0 <? rc).

Definition send_round (fd timeout_ms start : Z) (pos : list Z) : C (list Z + unit) :=
  if bool_decide (pos = []) then ret (inr tt) else
  let* now := call NetNow in
  let elapsed := to_ms (now - start) in
  require (elapsed <? timeout_ms) TIMEOUT ;;
  let* r := call (NetSend fd pos) in
  let '(rc, saved_errno) := r in
  if (rc <? 0) && (saved_errno =? EINTR) then ret (inl pos) else
  if (rc <? 0) && ((saved_errno =? EAGAIN) || (saved_errno =? EWOULDBLOCK)) then
    let* _ := WaitSocketReady fd POLLOUT (int_of (Z.min 100 (timeout_ms - elapsed))) in
    ret (inl pos)
  else if rc <=? 0 then modify (set_errno saved_errno) ;; fail FAILED
  else ret (inl (drop (Z.to_nat rc) pos)).

Definition SendPlain (fd : Z) (buf : list Z) (timeout_ms : Z) : C unit :=
  let* start := call NetNow in
  loop (timed_rounds timeout_ms) (send_round fd timeout_ms start) buf.

Definition recv_round (fd len timeout_ms start : Z) (got : list Z) : C (list Z + list Z) :=
  let nbytes := len - Z.of_nat (length got) in
  if nbytes <=? 0 then ret (inr got) else
  let* now := call NetNow in
  let elapsed_ms := to_ms (now - start) in
  let remaining_ms := timeout_ms - elapsed_ms in
  require (0 <? remaining_ms) TIMEOUT ;;
  let* p := call (NetPoll fd POLLIN (int_of remaining_ms)) in
  let '(rc, errno) := p in
  require (negb (rc =? 0)) TIMEOUT ;;
  if (rc <? 0) && (errno =? EINTR) then ret (inl got) else
  require (0 <=? rc) FAILED ;;
  let* r := call (NetRead fd nbytes) in
  match r with
  | IoError errno =>
      if (errno =? EAGAIN) || (errno =? EINTR) then ret (inl got) else fail FAILED
  | IoBytes bs => require (0 <? Z.of_nat (length bs)) FAILED ;; ret (inl (got ++ bs))
  end.

Definition RecvPlain (fd len timeout_ms : Z) : C (list Z) :=
  let* start := call NetNow in
  loop (timed_rounds timeout_ms) (recv_round fd len timeout_ms start) [].

(** ** CtrlMsgPlugin *)
Definition CtrlMsgPlugin_Initialize : C unit :=
  let* c := get in
  require (negb (initialized_ c)) FAILED ;;
  let* r := call TlsGetEnabled in
  let '(st, enabled) := r in
  (if st =? SUCCESS then modify (set_init (initialized_ c) enabled)
   else modify (set_init (initialized_ c) false) ;; fail st) ;;
  modify (set_init true enabled).

Definition CheckReady : C (option TlsSession) :=
  let* c := get in
  require (initialized_ c && (0 <=? fd_ c)) FAILED ;;
  let session := tls_session_ c in
  require (negb (tls_enabled_ c) || match session with Some s => TlsSession_IsUsable s | None => false end) FAILED ;;
  ret session.

Definition ShutdownSocketLocked : C unit :=
  let* c := get in
  if fd_ c <? 0 then ret tt else
  let* r := call (NetShutdown (fd_ c)) in
  let '(rc, saved_errno) := r in
  require ((rc =? 0) || (saved_errno =? ENOTCONN)) FAILED.

(** The two halves of [CloseLocked]: the session, then the socket. *)
Definition close_session : C unit :=
  let* c := get in
  match tls_session_ c with
  | None => ret tt
  | Some _ => TlsSession_Shutdown ;; let* s := session in modify (set_session None) ;; TlsSession_delete s
  end.
Definition close_socket : C unit :=
  modify (set_init false false) ;;
  let* c := get in
  let fd := fd_ c in
  modify (set_fd (-1)) ;;
  if fd <? 0 then ret tt else
  let* rc := call (NetClose fd) in
  require (rc =? 0) FAILED.
Definition CloseLocked : C unit := close_session ;; close_socket.

Definition CtrlMsgPlugin_Close : C unit := CloseLocked.
Definition CtrlMsgPlugin_ShutdownSocket : C unit := ShutdownSocketLocked.
(** [~CtrlMsgPlugin]. *)
Definition CtrlMsgPlugin_delete : C unit := let* _ := attempt CtrlMsgPlugin_Close in ret tt.

(** [if (ret != SUCCESS) { (void)CloseLocked(); }] around a call. *)
Definition close_on_failure {A} (m : C A) : C A := on_fail m CloseLocked.

Definition CtrlMsgPlugin_Send (buf : list Z) (timeout_ms : Z) : C unit :=
  let* c := get in
  let fd := fd_ c in
  modify (set_errno 0) ;;
  require (Z.of_nat (length buf) <=? kMaxTransferSize) PARAM_INVALID ;;
  let* s := CheckReady in
  match s with
  | None => SendPlain fd buf timeout_ms
  | Some _ =>
      let* r := attempt (TlsSession_Send buf timeout_ms) in
      let* s := session in
      (if negb (TlsSession_IsUsable s) then let* _ := attempt ShutdownSocketLocked in ret tt else ret tt) ;;
      match r with inl e => fail e | inr _ => ret tt end
  end.

Definition CtrlMsgPlugin_Recv (len timeout_ms : Z) : C (list Z) :=
  let* c := get in
  let fd := fd_ c in
  require (len <=? kMaxTransferSize) PARAM_INVALID ;;
  let* s := CheckReady in
  match s with
  | None => RecvPlain fd len timeout_ms
  | Some _ => TlsSession_Recv len timeout_ms
  end.

(** [Recv(buf, len, n)]: one receive. *)
Definition CtrlMsgPlugin_RecvOnce (len : Z) : C Io :=
  let* s := CheckReady in
  match s with
  | Some _ => RecvOnce len
  | None => let* c := get in call (NetRecv (fd_ c) len)
  end.

Definition CtrlMsgPlugin_HasPending : C bool :=
  let* c := get in
  if fd_ c <? 0 then ret false else
  match tls_session_ c with None => ret false | Some _ => TlsSession_HasPending end.

Definition CtrlMsgPlugin_IsUsable (c : Conn) : bool :=
  initialized_ c && (0 <=? fd_ c) &&
  (negb (tls_enabled_ c) || match tls_session_ c with Some s => TlsSession_IsUsable s | None => false end).

Definition InvalidateTlsSession : C unit :=
  let* c := get in
  match tls_session_ c with None => ret tt | Some _ => Invalidate ;; ShutdownSocketLocked end.

(** *** Connecting *)
Definition GetAiFamily (ip : string) : C Z :=
  let* r4 := call (NetInetPton AF_INET ip) in
  if r4 =? 1 then ret AF_INET else
  let* r6 := call (NetInetPton AF_INET6 ip) in
  if r6 =? 1 then ret AF_INET6 else fail PARAM_INVALID.

Definition set_opt (fd : Z) (opt : SockOpt) : C unit :=
  let* rc := call (NetSetsockopt fd opt) in require (rc =? 0) FAILED.

Definition DoConnect (addr timeout : Z) : C unit :=
  let* conn_fd := call (NetSocket addr) in
  modify (set_fd conn_fd) ;;
  require (negb (conn_fd =? -1)) FAILED ;;
  on_fail
    (set_opt conn_fd SO_REUSEADDR ;;
     set_opt conn_fd (SO_RCVTIMEO timeout) ;;
     set_opt conn_fd TCP_NODELAY ;;
     set_opt conn_fd (SO_SNDTIMEO timeout) ;;
     let* rc := call (NetConnect conn_fd addr) in
     require (rc =? 0) FAILED)
    (let* _ := call (NetClose conn_fd) in modify (set_fd (-1))).

(** The loop over the addresses; the status of the last attempt. *)
Fixpoint connect_any (addrs : list Z) (timeout start : Z) (last : Status) : C Status :=
  match addrs with
  | [] => ret last
  | rp :: addrs =>
      let* r := attempt (DoConnect rp timeout) in
      match r with
      | inr _ => ret SUCCESS
      | inl e =>
          let* now := call NetNow in
          require (to_ms (now - start) <? timeout) TIMEOUT ;;
          connect_any addrs timeout start e
      end
  end.

(** [TlsContext::CreateSession]: the checks of its arguments, and OpenSSL. *)
Definition CreateSession (fd : Z) (server : bool) : C unit :=
  require (0 <=? fd) PARAM_INVALID ;;
  let* r := call (TlsCreateSession fd server) in
  let '(st, ssl) := r in
  require (st =? SUCCESS) st ;;
  modify (set_session (Some {| handshake_complete_ := false; failed_ := false; ssl_ := ssl; session_fd := fd |})).

(** [Handshake] publishes the session only when the handshake succeeded; until then
    it is a local that is destroyed on failure. *)
Definition Handshake (server : bool) (timeout_ms : Z) : C unit :=
  let* c := get in
  if negb (tls_enabled_ c) then ret tt else
  let* ctx := call TlsHasContext in
  require ctx FAILED ;;
  CreateSession (fd_ c) server ;;
  on_fail (DoHandshake server timeout_ms)
    (let* s := session in modify (set_session (tls_session_ c)) ;; TlsSession_delete s).

Definition ConnectSocket (ip : string) (port timeout : Z) : C unit :=
  let* start := call NetNow in
  let* _ := GetAiFamily ip in
  let* r := call (NetGetaddrinfo ip port) in
  let '(socket_ret, result) := r in
  require (socket_ret =? 0) PARAM_INVALID ;;
  finally
    (let* st := connect_any result timeout start SUCCESS in
     require (st =? SUCCESS) st ;;
     Handshake false timeout)
    (call NetFreeaddrinfo).

Definition CtrlMsgPlugin_Connect (ip : string) (port timeout : Z) : C unit :=
  let* c := get in
  require (initialized_ c) FAILED ;;
  require (fd_ c <? 0) FAILED ;;
  close_on_failure (ConnectSocket ip port timeout).

(** *** Listening *)
Definition ListenSocket (ip : string) (listen_port backlog : Z) : C unit :=
  let* ai_family := GetAiFamily ip in
  let* fd := call (NetSocket ai_family) in
  require (0 <=? fd) FAILED ;;
  on_fail
    ((if ai_family =? AF_INET6 then let* _ := call (NetSetsockopt fd IPV6_V6ONLY) in ret tt else ret tt) ;;
     set_opt fd (SO_RCVTIMEO 1000) ;;
     set_opt fd SO_REUSEADDR ;;
     let* rc := call (NetBind fd listen_port) in
     require (0 <=? rc) FAILED ;;
     let* rc := call (NetListen fd backlog) in
     require (rc =? 0) FAILED)
    (let* _ := call (NetClose fd) in ret tt) ;;
  modify (set_fd fd).

Definition CtrlMsgPlugin_Listen (ip : string) (port backlog : Z) : C unit :=
  let* c := get in
  require (initialized_ c) FAILED ;;
  require (fd_ c <? 0) FAILED ;;
  close_on_failure (ListenSocket ip port backlog).

(** The connection that was accepted, if there was one. *)
Definition CtrlMsgPlugin_Accept : C (option Conn) :=
  let* c := get in
  require (0 <=? fd_ c) FAILED ;;
  let* r := call (NetAccept (fd_ c)) in
  let '(fd, saved_errno) := r in
  if fd <? 0 then
    require ((saved_errno =? EWOULDBLOCK) || (saved_errno =? EINTR) || (saved_errno =? ECONNABORTED)) FAILED ;;
    ret None
  else
  on_fail
    (let* made := call NetNew in
     require made PARAM_INVALID ;;
     (** [Initialize] of the new object. *)
     zoom (fun _ => Some Conn_new) (fun _ c => c)
       (fun _ => CtrlMsgPlugin_Initialize ;; modify (set_fd fd) ;; let* c := get in ret (Some c)))
    (let* _ := call (NetClose fd) in ret tt).

Definition CtrlMsgPlugin_HandshakeServer : C unit :=
  let* c := get in
  require (0 <=? fd_ c) FAILED ;;
  require (match tls_session_ c with None => true | Some _ => false end) FAILED ;;
  close_on_failure (Handshake true kServerHandshakeTimeoutMs).

Definition CtrlMsgPlugin_HandshakeServerStep : C TlsHandshakeState :=
  let* c := get in
  require (initialized_ c && (0 <=? fd_ c)) FAILED ;;
  if negb (tls_enabled_ c) then ret kComplete else
  (match tls_session_ c with Some _ => ret tt | None => CreateSession (fd_ c) true end) ;;
  close_on_failure (HandshakeStep true).

(** *** Socket options *)
Definition CtrlMsgPlugin_SetTcpNoDelay : C unit :=
  let* c := get in
  require (0 <=? fd_ c) FAILED ;;
  set_opt (fd_ c) TCP_NODELAY.

Definition CtrlMsgPlugin_SetTcpKeepAlive : C unit :=
  let* c := get in
  set_opt (fd_ c) SO_KEEPALIVE ;;
  set_opt (fd_ c) TCP_KEEPIDLE ;;
  set_opt (fd_ c) TCP_KEEPINTVL ;;
  set_opt (fd_ c) TCP_KEEPCNT.

Definition CtrlMsgPlugin_SetSendTimeout (timeout_ms : Z) : C unit :=
  let* c := get in
  require (0 <=? fd_ c) FAILED ;;
  set_opt (fd_ c) (SO_SNDTIMEO timeout_ms).

(** [AddToEpoll] on the connection and the caller's [epoll_fd], which it may create. *)
Definition CtrlMsgPlugin_AddToEpoll (events : Z) : M NetOp (Conn * Z) unit :=
  let* s := get in
  let fd := fd_ s.1 in
  require (0 <=? fd) FAILED ;;
  (if s.2 <? 0 then
     let* epoll_fd := call (Hc EpollCreate) in
     modify (fun s : Conn * Z => (s.1, epoll_fd)) ;;
     require (0 <=? epoll_fd) FAILED
   else ret tt) ;;
  let* s := get in
  let* r := call (Hc (EpollAdd s.2 fd events)) in
  let '(rc, errno) := r in
  require (rc =? 0) FAILED.
End Conn.
