(* ===== verification/NetReference.v ===== *)
(** A concrete operating system that satisfies [NetLaws]: every call succeeds, a send
    takes at most three bytes, a receive delivers the next bytes of a fixed stream,
    at most five of them, handles are counted, and the clock is the length of the history.  It
    shows that the laws can hold and runs the examples. *)

From S2P Require Import Prelude Effects Wire Hcomm TransferPool ClientRt Net.

Definition stamp (h : History NetOp) : Z := Z.of_nat (length h).

(** The descriptors and sessions created so far. *)
Definition fd_reply (e : Event NetOp) : Z :=
  match e with Ev (NetSocket _) r => r | Ev (NetAccept _) (r, _) => r | _ => 0 end.
Definition ssl_reply (e : Event NetOp) : Z :=
  match e with Ev (TlsCreateSession _ _) (_, r) => r | _ => 0 end.

Definition next_bytes (input : list Z) (len : Z) (h : History NetOp) : list Z :=
  take (Nat.min 5 (Z.to_nat len)) (drop (length (received h)) input).

(** HCOMM and the runtime: every call succeeds, handles are counted. *)
Definition hc_reply (e : Event NetOp) : Z :=
  match e with
  | Ev (Hc (EpCreate _)) (_, r) => r
  | Ev (Hc (EpMemReg _ _ _)) (_, r) => r
  | Ev (Hc (ChCreate _ _ _ _)) (_, r) => r
  | Ev (Hc (HostRegister _ _)) (_, r) => r
  | Ev (Hc EpollCreate) r => r
  | Ev (Hc (PosixMemalign _ _)) (_, r) => r
  | Ev (Hc (AclMalloc _)) (_, r) => r
  | Ev (Cli (PoolAcquire _)) (_, slot) => h_slot_index slot
  | Ev (Cli (Malloc _)) r => r
  | Ev (Cli (AclMallocHost _)) (_, r) => r
  | _ => 0
  end.

Definition hcomm_ref (h : History NetOp) {T} (op : HcOp T) : T :=
  match op in HcOp T return T with
  | EpCreate _ | EpMemReg _ _ _ | ChCreate _ _ _ _ | HostRegister _ _ => (0, 1 + highest hc_reply h)
  | AclMalloc _ | PosixMemalign _ _ => (0, 1 + highest hc_reply h)
  | EpollCreate => 1 + highest hc_reply h
  | EpDestroy _ | EpMemUnreg _ _ | EpMemUnimport _ _ _ | ChDestroy _ _ | HostUnregister _ => 0
  | EpGetListenPort _ => (0, 0)
  | EpMemExport _ _ => (0, 1, 1)
  | EpMemImport _ _ _ => (0, {| cm_type := 0; cm_addr := 0; cm_size := 0 |})
  | ChGetStatus _ _ => (0, 0)
  | SleepUs _ | HostFree _ | PoolFinalize _ => tt
  | AclGetDevice => (0, 0)
  | AclGetDeviceCount => (0, 1)
  | AclGetCurrentContext => (0, 1)
  | AclSetCurrentContext _ | AclFree _ | AclMemcpyToDevice _ _ => 0
  | SysPageSize => 4096
  | PoolGetInstance _ | ConfigurableTransferSupported => true
  | PoolInitialize _ _ | PoolResolveNotifyAddr _ => SUCCESS
  | PoolGetContext _ => 1
  | EpollAdd _ _ _ | EpollMod _ _ _ => (0, 0)
  | EpollDel _ _ | EpollClose _ => 0
  | EpollWait _ _ => []
  | RunUserProc _ _ _ => SUCCESS
  | JsonDump _ => Some []
  end.

(** A slot of the pool: its handles are those of its number. *)
Definition ref_slot (dev i : Z) : SlotHandle := mkSlotHandle dev i i i i i 1 i i 8 0 0 0 0.

(** What a longer text parses to: one exported memory, the flag of a device. *)
Definition ref_json : Json := JObject
  [("result"%string, JInt 0);
   ("mem_descs"%string, JArray
      [JObject [("tag"%string, JString "_hixl_builtin_dev_trans_flag"); ("export_desc"%string, JArray [JInt 7; JInt 8]);
                ("mem"%string, JObject [("type"%string, JInt 1); ("addr"%string, JInt 8192); ("size"%string, JInt 4096)])]])].

(** The client's calls: every call succeeds, a word of memory holds one. *)
Definition cli_ref (h : History NetOp) {T} (op : CliOp T) : T :=
  match op in CliOp T return T with
  | PoolAcquire dev => (SUCCESS, ref_slot dev (1 + highest hc_reply h))
  | PoolRelease _ | PoolAbort _ => tt
  | PoolGetAllSlots dev => (SUCCESS, [ref_slot dev 1])
  | PoolGetDeviceKernelFunc _ _ => 1
  | Malloc _ => 1 + highest hc_reply h
  | FillWords _ _ _ | StoreBytes _ _ | StoreWord _ _ | StoreByte _ _ => tt
  | LoadWord _ => 1
  | LoadByte _ | LoadHead _ => 0
  | AclMallocHost _ => (0, 1 + highest hc_reply h)
  | AclFreeHost _ | AclMemcpyDescs _ _ | AclMemcpyFlagAsync _ _ _ => 0
  | AclKernelArgsInit _ => (0, 1)
  | AclKernelArgsAppend _ _ | AclKernelArgsFinalize _ | AclLaunchKernel _ _ _ _ => 0
  | AclWaitAndResetNotify _ _ _ | AclSynchronizeStream _ _ => 0
  | HcommNbi _ _ _ _ _ | HcommFence _ => 0
  | TlsManagerInitialize => SUCCESS
  | TlsManagerFinalize | UbFinalize => tt
  | GetEnv _ | GetSocName => None
  | JsonParse text => if (length text <? 40)%nat then None else Some ref_json
  | UbCreate _ => true
  | UbSubmitSync _ _ _ => SUCCESS
  | UbSubmitAsync _ _ => (SUCCESS, 1)
  | UbCheckStatus _ => (SUCCESS, 1)
  end.

(** TLS is off unless [tls]; new objects can be allocated unless [oom]. *)
Definition net_ref (tls oom : bool) (input : list Z) : Environment NetOp := fun T op h =>
  match op in NetOp T return T with
  | NetNow => stamp h
  | NetSend _ data => (Z.min 3 (Z.of_nat (length data)), 0)
  | NetRead _ len | NetRecv _ len =>
      match next_bytes input len h with [] => IoError EAGAIN | bs => IoBytes bs end
  | NetPoll _ _ _ => (1, 0)
  | NetInetPton family _ => if family =? AF_INET then 1 else 0
  | NetGetaddrinfo _ _ => (0, [1])
  | NetSocket _ => 1 + highest fd_reply h
  | NetAccept _ => (1 + highest fd_reply h, 0)
  | NetSetsockopt _ _ | NetConnect _ _ | NetBind _ _ | NetListen _ _ | NetClose _ => 0
  | NetShutdown _ => (0, 0)
  | NetFreeaddrinfo | SslShutdown _ | SslFree _ => tt
  | NetNew => negb oom
  | TlsGetEnabled => (SUCCESS, tls)
  | TlsHasContext => true
  | TlsCreateSession _ _ => (SUCCESS, 1 + highest ssl_reply h)
  | SslHandshake _ _ => (1, 0)
  | SslWrite _ data => (Z.min 3 (Z.of_nat (length data)), 0, 0)
  | SslRead _ len =>
      match next_bytes input len h with [] => SslFail (-1) SSL_ERROR_WANT_READ EAGAIN | bs => SslBytes bs end
  | SslPending _ => 0
  | Hc op => hcomm_ref h op
  | Cli op => cli_ref h op
  end.

(** What is open was created. *)
Lemma open_fds_created h x : x ∈ open_fds h -> x <= highest fd_reply h.
Proof.
  induction h as [|e h IH]; [set_solver|]. cbn [open_fds foldr]. fold (open_fds h). intros Hx.
  assert (Hold : x ∈ open_fds h -> x <= highest fd_reply (e :: h)) by (simpl; intros H; apply IH in H; lia).
  assert (Hnew : x = fd_reply e -> x <= highest fd_reply (e :: h)) by (intros ->; apply highest_elem; by left).
  destruct e as [T op r]; destruct op; cbn [fd_step] in Hx; try (by apply Hold).
  - case_match; [|by apply Hold]. apply elem_of_union in Hx as [->%elem_of_singleton|Hx]; [by apply Hnew|by apply Hold].
  - destruct r as [r err]. case_match; [|by apply Hold].
    apply elem_of_union in Hx as [->%elem_of_singleton|Hx]; [by apply Hnew|by apply Hold].
  - apply elem_of_difference in Hx as [Hx _]. by apply Hold.
Qed.

Lemma open_ssls_created h x : x ∈ open_ssls h -> x <= highest ssl_reply h.
Proof.
  induction h as [|e h IH]; [set_solver|]. cbn [open_ssls foldr]. fold (open_ssls h). intros Hx.
  assert (Hold : x ∈ open_ssls h -> x <= highest ssl_reply (e :: h)) by (simpl; intros H; apply IH in H; lia).
  assert (Hnew : x = ssl_reply e -> x <= highest ssl_reply (e :: h)) by (intros ->; apply highest_elem; by left).
  destruct e as [T op r]; destruct op; cbn [ssl_step] in Hx; try (by apply Hold).
  - destruct r as [st r]. case_match; [|by apply Hold].
    apply elem_of_union in Hx as [->%elem_of_singleton|Hx]; [by apply Hnew|by apply Hold].
  - apply elem_of_difference in Hx as [Hx _]. by apply Hold.
Qed.

Lemma next_bytes_ok input len h :
  Forall is_byte input -> 0 <= len ->
  Z.of_nat (length (next_bytes input len h)) <= len /\ Forall is_byte (next_bytes input len h).
Proof.
  intros Hb Hl. unfold next_bytes. split; [rewrite length_take; lia|]. by apply Forall_take, Forall_drop.
Qed.

Lemma next_bytes_neg input len h : len < 0 -> next_bytes input len h = [].
Proof. intros H. unfold next_bytes. by rewrite Z2Nat.nonpos, Nat.min_0_r by lia. Qed.

#[export] Instance net_ref_laws tls oom input : Forall is_byte input -> NetLaws (net_ref tls oom input).
Proof.
  intros Hb.
  assert (Hnext : forall len h b bs, next_bytes input len h = b :: bs ->
            0 < Z.of_nat (length (b :: bs)) <= len /\ Forall is_byte (b :: bs)).
  { intros len h b bs E. destruct (Z.ltb_spec len 0) as [Hn|Hp]; [by rewrite next_bytes_neg in E|].
    pose proof (next_bytes_ok input len h Hb Hp) as [H1 H2]. rewrite E in H1, H2. simpl in *. split; [lia|done]. }
  split; unfold clock_from, reply_of; cbn [net_ref].
  - intros h. unfold stamp. lia.
  - intros r h -> t. unfold stamp. rewrite length_app. cbn [length]. lia.
  - intros r t T op x h _ -> t'. unfold stamp. rewrite !length_app. cbn [length]. rewrite length_app. cbn [length]. lia.
  - intros fd data h. cbn [fst]. lia.
  - intros ssl data h. cbn [fst]. lia.
  - intros fd len h bs. destruct (next_bytes input len h) as [|b bs'] eqn:E; [done|]. intros [= <-].
    apply Hnext in E as [? ?]. split; [lia|done].
  - intros fd len h bs. destruct (next_bytes input len h) as [|b bs'] eqn:E; [done|]. intros [= <-].
    apply Hnext in E as [? ?]. split; [lia|done].
  - intros ssl len h bs. destruct (next_bytes input len h) as [|b bs'] eqn:E; [done|]. intros [= <-].
    by apply Hnext in E.
  - intros ssl len h rc e errno. destruct (next_bytes input len h); [|done]. intros [= <- _ _]. lia.
  - intros addr h. right. pose proof (highest_nonneg fd_reply h). split; [lia|].
    intros Hin%open_fds_created. lia.
  - intros fd h. right. cbn [fst]. intros Hin%open_fds_created. lia.
  - intros fd server h _. pose proof (highest_nonneg ssl_reply h). unfold nullptr. split; [lia|].
    intros Hin%open_ssls_created. lia.
Qed.
