(* ===== verification/CtrlConnSpec.v ===== *)
(** What the calls of a control connection do: for each, the bytes it sends and
    receives, the descriptor and session it uses, and that it ends. *)

From S2P Require Import Prelude Effects Wire Net CtrlConn.

(** * Runs on one connection *)

(** The identity of the session: its [SSL] object and its descriptor. *)
Definition session_id (c : Conn) : option (Z * Z) :=
  (fun s => (ssl_ s, session_fd s)) <$> tls_session_ c.

Definition quiet (e : Event NetOp) : Prop :=
  match e with
  | Ev (NetSocket _) _ | Ev (NetAccept _) _ | Ev (NetClose _) _
  | Ev (TlsCreateSession _ _) _ | Ev (SslFree _) _ => False
  | _ => True
  end.

(** The calls of a connection with descriptor [fd] and session [sid]. *)
Definition uses (fd : Z) (sid : option (Z * Z)) (e : Event NetOp) : Prop :=
  quiet e /\
  (forall x, needs_fd e = Some x -> x = fd \/ Some x = snd <$> sid) /\
  (forall x, needs_ssl e = Some x -> Some x = fst <$> sid).

Definition keeps (c c' : Conn) : Prop :=
  fd_ c' = fd_ c /\ initialized_ c' = initialized_ c /\ tls_enabled_ c' = tls_enabled_ c /\
  session_id c' = session_id c.

(** From [c] and [h] to [c'] and [h']: the connection is the same, it used nothing
    else, sent [a] and received [b]. *)
Definition ran (c : Conn) (h : History NetOp) (c' : Conn) (h' : History NetOp) (a b : list Z) : Prop :=
  keeps c c' /\ exists t, h' = t ++ h /\ Forall (uses (fd_ c) (session_id c)) t /\ sent t = a /\ received t = b.

Lemma keeps_refl c : keeps c c.
Proof. done. Qed.
Lemma keeps_trans c1 c2 c3 : keeps c1 c2 -> keeps c2 c3 -> keeps c1 c3.
Proof. intros (?&?&?&?) (?&?&?&?). unfold keeps. split_and!; congruence. Qed.
Lemma keeps_errno e c : keeps c (set_errno e c).
Proof. done. Qed.
Lemma keeps_session s s' c :
  tls_session_ c = Some s -> ssl_ s' = ssl_ s -> session_fd s' = session_fd s -> keeps c (set_session (Some s') c).
Proof. intros H H1 H2. unfold keeps, session_id; simpl. rewrite H; simpl. by rewrite H1, H2. Qed.

Lemma ran_refl c h : ran c h c h [] [].
Proof. split; [apply keeps_refl|]. exists []. by split_and!. Qed.

Lemma ran_trans c h c1 h1 a b c2 h2 a' b' :
  ran c h c1 h1 a b -> ran c1 h1 c2 h2 a' b' -> ran c h c2 h2 (a ++ a') (b ++ b').
Proof.
  intros (K1 & t1 & -> & U1 & <- & <-) (K2 & t2 & -> & U2 & <- & <-). split; [by eapply keeps_trans|].
  exists (t2 ++ t1). rewrite app_assoc, sent_app, received_app. split_and!; [done| |done|done].
  destruct K1 as (E1 & _ & _ & E2). rewrite E1, E2 in U2. by apply Forall_app.
Qed.

Lemma ran_keeps c h c1 h1 a b c2 : ran c h c1 h1 a b -> keeps c1 c2 -> ran c h c2 h1 a b.
Proof. intros [K R] K2. split; [by eapply keeps_trans|done]. Qed.

Lemma ran_event c h c1 h1 a b e :
  ran c h c1 h1 a b -> uses (fd_ c1) (session_id c1) e -> ran c h c1 (e :: h1) (a ++ sent_by e) (b ++ received_by e).
Proof.
  intros H U. eapply ran_trans; [exact H|]. split; [apply keeps_refl|]. exists [e].
  split_and!; [done|by constructor|done|done].
Qed.

Lemma ran_quiet_event c h c1 h1 a b e :
  ran c h c1 h1 a b -> uses (fd_ c1) (session_id c1) e -> sent_by e = [] -> received_by e = [] ->
  ran c h c1 (e :: h1) a b.
Proof. intros H U E1 E2. apply (ran_event _ _ _ _ _ _ e) in H; [|done]. by rewrite E1, E2, !app_nil_r in H. Qed.

Lemma ran_sent c h c' h' a b : ran c h c' h' a b -> sent h' = sent h ++ a.
Proof. intros (_ & t & -> & _ & <- & _). apply sent_app. Qed.
Lemma ran_received c h c' h' a b : ran c h c' h' a b -> received h' = received h ++ b.
Proof. intros (_ & t & -> & _ & _ & <-). apply received_app. Qed.

Ltac solve_uses :=
  split; [done|split; intros ? [= <-] || (intros ? ?; done); simpl; try (by left); try (by right); auto].

(** * The clock *)
Lemma to_ms_lt x ms : 0 <= x -> to_ms x < ms <-> x < ms * 1000000.
Proof.
  intros H. unfold to_ms. rewrite Z.quot_div_nonneg by lia. split; intros Hx.
  - pose proof (Z.mod_pos_bound x 1000000 ltac:(lia)). pose proof (Z.div_mod x 1000000 ltac:(lia)). nia.
  - apply Z.div_lt_upper_bound; lia.
Qed.

Section Laws.
Context {env : Environment NetOp} {Hnet : NetLaws env}.
Implicit Types (c : Conn) (h : History NetOp).

(** Read the clock; [later] is what an I/O call that follows gives. *)
Definition later (r : Z) (h : History NetOp) : Prop :=
  clock_from r h /\ forall t T (op : NetOp T) x, is_io op = true -> clock_from (r + 1) (Ev op x :: t ++ h).

Lemma wp_now (Q : Status + Z -> Conn -> History NetOp -> Prop) lb c h c0 h0 a b :
  ran c0 h0 c h a b -> clock_from lb h ->
  (forall r, lb <= r -> later r (Ev NetNow r :: h) -> ran c0 h0 c (Ev NetNow r :: h) a b ->
     Q (inr r) c (Ev NetNow r :: h)) ->
  wp (call NetNow) Q c h.
Proof.
  intros R Hlb HQ. apply wp_call. intros r Hr. apply HQ.
  - rewrite Hr. apply (Hlb []).
  - split; [by apply clock_monotone|]. intros. by apply clock_io.
  - by apply ran_quiet_event; [|solve_uses|..].
Qed.

Lemma later_from r t h : later r h -> clock_from r (t ++ h).
Proof. intros [H _]. by apply clock_from_mono. Qed.

Lemma later_io r t T (op : NetOp T) x t' h : later r h -> is_io op = true -> clock_from (r + 1) (t ++ Ev op x :: t' ++ h).
Proof. intros [_ H] Hio. by apply clock_from_mono, H. Qed.

(** * Plain sockets *)
Section Timed.
Variables (timeout_ms start : Z).

(** The measure of the timed loops: the nanoseconds until the deadline. *)
Definition time_left (n lb : Z) : Prop :=
  start <= lb /\ lb <= start + Z.max 0 timeout_ms * 1000000 /\ n = start + Z.max 0 timeout_ms * 1000000 + 1 - lb.

Lemma time_left_start : time_left (Z.max 0 timeout_ms * 1000000 + 1) start.
Proof. unfold time_left. lia. Qed.

Lemma time_left_enough n lb : time_left n lb -> n < Z.pos (timed_rounds timeout_ms).
Proof. unfold time_left, timed_rounds. rewrite Z2Pos.id by lia. lia. Qed.

Lemma time_left_nonneg n lb : time_left n lb -> 0 <= n.
Proof. unfold time_left. lia. Qed.

(** A round that read the clock at [r] before the deadline. *)
Lemma time_left_next n lb r :
  time_left n lb -> lb <= r -> to_ms (r - start) < timeout_ms -> exists n', n' < n /\ time_left n' (r + 1).
Proof.
  unfold time_left. intros (H1 & H2 & ->) Hr Hms. apply to_ms_lt in Hms; [|lia].
  eexists. split; [|split_and!; [lia|lia|reflexivity]]. lia.
Qed.
End Timed.

Lemma wp_WaitSocketReady (Q : Status + bool -> Conn -> History NetOp -> Prop) fd events ms c h c0 h0 a b :
  ran c0 h0 c h a b -> fd = fd_ c ->
  (forall o rc, ran c0 h0 c (Ev (NetPoll fd events ms) rc :: h) a b -> Q o c (Ev (NetPoll fd events ms) rc :: h)) ->
  wp (WaitSocketReady fd events ms) Q c h.
Proof.
  intros R -> HQ. unfold WaitSocketReady. apply wp_bind, wp_call. intros [rc errno] _.
  assert (R' := ran_quiet_event _ _ _ _ _ _ (Ev (NetPoll (fd_ c) events ms) (rc, errno)) R
                  ltac:(solve_uses) eq_refl eq_refl).
  destruct ((rc <? 0) && (errno =? EINTR)); [apply wp_ret; by apply HQ|].
  apply wp_bind, wp_require; intros _; [apply wp_ret|]; by apply HQ.
Qed.

(** [SendPlain] sends a prefix of the buffer, all of it when it succeeds. *)
Lemma wp_SendPlain (Q : Status + unit -> Conn -> History NetOp -> Prop) fd buf ms c h c0 h0 b lb :
  ran c0 h0 c h [] b -> fd = fd_ c -> clock_from lb h ->
  (forall o c' h' done rest, ran c0 h0 c' h' done b -> buf = done ++ rest -> (o = inr tt -> rest = []) -> Q o c' h') ->
  wp (SendPlain fd buf ms) Q c h.
Proof.
  intros R -> Hlb HQ. unfold SendPlain. apply wp_bind. eapply wp_now; [exact R|exact Hlb|].
  intros start _ Hl R0.
  set (I := fun n pos c' h' => exists lb done, time_left ms start n lb /\ clock_from lb h' /\
              fd_ c' = fd_ c /\ ran c0 h0 c' h' done b /\ buf = done ++ pos).
  apply (wp_loop (send_round (fd_ c) ms start) I Q) with (n := Z.max 0 ms * 1000000 + 1).
  - intros n pos c' h' (lb' & done & HT & _). by eapply time_left_nonneg.
  - clear dependent h. intros n pos c' h' (lb' & done & HT & Hlb & Hfd & R & Hbuf). unfold send_round.
    case_bool_decide as Hpos. { apply wp_ret. by eapply HQ. }
    apply wp_bind. eapply wp_now; [exact R|exact Hlb|]. intros now Hnow Hlater R1.
    apply wp_bind, wp_require; intros Hel; [|by eapply HQ].
    apply Z.ltb_lt in Hel. destruct (time_left_next _ _ _ _ _ HT Hnow Hel) as (n' & Hn' & HT').
    apply wp_bind, wp_call. intros [rc errno] Hrc.
    pose proof (send_bound (fd_ c) pos (Ev NetNow now :: h')) as Hb. rewrite <- Hrc in Hb. cbn [fst] in Hb.
    assert (Hcl : forall t, clock_from (now + 1) (t ++ Ev (NetSend (fd_ c) pos) (rc, errno) :: Ev NetNow now :: h')).
    { intros t. by apply (later_io now t _ _ _ []). }
    assert (R2 := ran_event _ _ _ _ _ _ (Ev (NetSend (fd_ c) pos) (rc, errno)) R1
                    ltac:(rewrite Hfd; solve_uses)).
    cbn [sent_by received_by] in R2. rewrite (app_nil_r b) in R2.
    assert (Hneg : rc <= 0 -> ran c0 h0 c' (Ev (NetSend (fd_ c) pos) (rc, errno) :: Ev NetNow now :: h') done b).
    { intros Hn. rewrite Z2Nat.nonpos, take_0, app_nil_r in R2 by done. exact R2. }
    destruct ((rc <? 0) && (errno =? EINTR)) eqn:E1.
    { apply wp_ret. exists n'. split; [done|]. exists (now + 1), done. split_and!; [done|apply (Hcl [])|done|apply Hneg; lia|done]. }
    destruct ((rc <? 0) && ((errno =? EAGAIN) || (errno =? EWOULDBLOCK))) eqn:E2.
    { apply wp_bind. eapply wp_WaitSocketReady; [apply Hneg; lia|done|]. intros [e|rdy] p R3; [by eapply HQ|].
      apply wp_ret. exists n'. split; [done|]. exists (now + 1), done. split_and!; [done|apply (Hcl [_])|done|exact R3|done]. }
    destruct (Z.leb_spec rc 0) as [Hrc0|Hrc0].
    { apply wp_bind, wp_modify, wp_fail. eapply HQ; [eapply ran_keeps; [by apply Hneg|apply keeps_errno]|done|done]. }
    apply wp_ret. exists n'. split; [done|]. exists (now + 1), (done ++ take (Z.to_nat rc) pos).
    split_and!; [done|apply (Hcl [])|done|exact R2|]. by rewrite <- app_assoc, take_drop.
  - apply (time_left_enough ms start _ start), time_left_start.
  - exists start, []. split_and!; [apply time_left_start|apply (later_from _ [] _ Hl)|done|exact R0|done].
Qed.

(** What a receive of exactly [len] bytes leaves: all of them, or fewer and an error. *)
Definition got_ok (len : Z) (o : Status + list Z) (got : list Z) : Prop :=
  Forall is_byte got /\
  match o with
  | inr g => g = got /\ Z.of_nat (length got) = Z.max 0 len
  | inl _ => Z.of_nat (length got) < Z.max 1 len
  end.

Lemma wp_RecvPlain (Q : Status + list Z -> Conn -> History NetOp -> Prop) fd len ms c h c0 h0 a b lb :
  ran c0 h0 c h a b -> fd = fd_ c -> clock_from lb h ->
  (forall o c' h' got, ran c0 h0 c' h' a (b ++ got) -> got_ok len o got -> Q o c' h') ->
  wp (RecvPlain fd len ms) Q c h.
Proof.
  intros R -> Hlb HQ. unfold RecvPlain. apply wp_bind. eapply wp_now; [exact R|exact Hlb|].
  intros start _ Hl R0.
  set (I := fun n got c' h' => exists lb, time_left ms start n lb /\ clock_from lb h' /\
              fd_ c' = fd_ c /\ ran c0 h0 c' h' a (b ++ got) /\ Forall is_byte got /\
              Z.of_nat (length got) <= Z.max 0 len).
  apply (wp_loop (recv_round (fd_ c) len ms start) I Q) with (n := Z.max 0 ms * 1000000 + 1).
  - intros n got c' h' (lb' & HT & _). by eapply time_left_nonneg.
  - clear dependent h. intros n got c' h' (lb' & HT & Hlb & Hfd & R & Hby & Hlen). unfold recv_round.
    destruct (Z.leb_spec (len - Z.of_nat (length got)) 0) as [Hdone|Hmore].
    { apply wp_ret. eapply HQ; [exact R|]. split_and!; [done|done|lia]. }
    assert (Herr : forall e h2, ran c0 h0 c' h2 a (b ++ got) -> Q (inl e) c' h2).
    { intros e h2 R2. eapply HQ; [exact R2|]. split; [done|lia]. }
    apply wp_bind. eapply wp_now; [exact R|exact Hlb|]. intros now Hnow Hlater R1.
    apply wp_bind, wp_require; intros Hel; [|by apply Herr].
    apply Z.ltb_lt in Hel. destruct (time_left_next ms start n lb' now HT Hnow ltac:(lia)) as (n' & Hn' & HT').
    apply wp_bind, wp_call. intros [rc errno] _.
    set (p := Ev (NetPoll (fd_ c) POLLIN (int_of (ms - to_ms (now - start)))) (rc, errno)).
    assert (R2 := ran_quiet_event _ _ _ _ _ _ p R1 ltac:(rewrite Hfd; solve_uses) eq_refl eq_refl).
    assert (Hcl : forall t, clock_from (now + 1) (t ++ p :: Ev NetNow now :: h')).
    { intros t. by apply (later_io now t _ _ _ []). }
    apply wp_bind, wp_require; intros _; [|by apply Herr].
    destruct ((rc <? 0) && (errno =? EINTR)).
    { apply wp_ret. exists n'. split; [done|]. exists (now + 1). split_and!; [done|apply (Hcl [])|done..]. }
    apply wp_bind, wp_require; intros _; [|by apply Herr].
    apply wp_bind, wp_call. intros [bs|e] Hr.
    + apply eq_sym, read_bound in Hr as [Hbs1 Hbs2].
      assert (R3 := ran_event _ _ _ _ _ _ (Ev (NetRead (fd_ c) (len - Z.of_nat (length got))) (IoBytes bs)) R2
                      ltac:(rewrite Hfd; solve_uses)).
      cbn [sent_by received_by] in R3. rewrite app_nil_r, <- app_assoc in R3.
      assert (Hall : Forall is_byte (got ++ bs)) by (by apply Forall_app).
      assert (Hle : Z.of_nat (length (got ++ bs)) <= Z.max 0 len) by (rewrite length_app; lia).
      apply wp_bind, wp_require; intros Hn; [|eapply HQ; [exact R3|split; [done|rewrite length_app; lia]]].
      apply wp_ret. exists n'. split; [done|]. exists (now + 1). split_and!; [done|apply (Hcl [_])|done..].
    + assert (R3 := ran_quiet_event _ _ _ _ _ _ (Ev (NetRead (fd_ c) (len - Z.of_nat (length got))) (IoError e)) R2
                      ltac:(rewrite Hfd; solve_uses) eq_refl eq_refl).
      destruct ((e =? EAGAIN) || (e =? EINTR)); [|apply wp_fail; by apply Herr].
      apply wp_ret. exists n'. split; [done|]. exists (now + 1). split_and!; [done|apply (Hcl [_])|done..].
  - apply (time_left_enough ms start _ start), time_left_start.
  - exists start. rewrite app_nil_r. split_and!; [apply time_left_start|apply (later_from _ [] _ Hl)|done|done|constructor|simpl; lia].
Qed.

(** * TLS sessions *)

(** The session of the connection is there. *)
Definition has_session (c : Conn) (s : TlsSession) : Prop := tls_session_ c = Some s.

Lemma wp_session (Q : Status + TlsSession -> Conn -> History NetOp -> Prop) c h :
  is_Some (session_id c) -> (forall s, has_session c s -> Q (inr s) c h) -> wp session Q c h.
Proof.
  intros [x Hx] HQ. unfold session. apply wp_bind, wp_get. unfold session_id in Hx.
  destruct (tls_session_ c) as [s|] eqn:E; [|done]. apply wp_ret. by apply HQ.
Qed.

Lemma wp_session_update (Q : Status + unit -> Conn -> History NetOp -> Prop) f c h :
  is_Some (session_id c) -> (forall s, ssl_ (f s) = ssl_ s /\ session_fd (f s) = session_fd s) ->
  (forall s, has_session c s -> keeps c (set_session (Some (f s)) c) -> Q (inr tt) (set_session (Some (f s)) c) h) ->
  wp (session_update f) Q c h.
Proof.
  intros Hs Hf HQ. unfold session_update. apply wp_bind, wp_session; [done|]. intros s Hc. apply wp_modify.
  apply HQ; [done|]. by eapply keeps_session; [|apply Hf|apply Hf].
Qed.

Lemma has_session_id c s : has_session c s -> session_id c = Some (ssl_ s, session_fd s).
Proof. unfold has_session, session_id. by intros ->. Qed.

Lemma keeps_has_session c c' : keeps c c' -> is_Some (session_id c) -> is_Some (session_id c').
Proof. intros (_ & _ & _ & ->). done. Qed.

Lemma wp_TlsSession_PollFd (Q : Status + unit -> Conn -> History NetOp -> Prop) events ms c h c0 h0 a b :
  ran c0 h0 c h a b -> is_Some (session_id c) ->
  (forall o fd r, ran c0 h0 c (Ev (NetPoll fd events ms) r :: h) a b -> Q o c (Ev (NetPoll fd events ms) r :: h)) ->
  wp (TlsSession_PollFd events ms) Q c h.
Proof.
  intros R Hs HQ. unfold TlsSession_PollFd. apply wp_bind, wp_session; [done|]. intros s Hc.
  apply wp_bind, wp_call. intros [rc errno] _.
  assert (R' := ran_quiet_event _ _ _ _ _ _ (Ev (NetPoll (session_fd s) events ms) (rc, errno)) R
                  ltac:(rewrite (has_session_id _ _ Hc); solve_uses) eq_refl eq_refl).
  apply wp_bind, wp_require; intros _; [|by apply HQ].
  destruct ((rc <? 0) && negb (errno =? EINTR)); [apply wp_fail|apply wp_ret]; by apply HQ.
Qed.

Lemma wp_abandon_write (Q : Status + unit -> Conn -> History NetOp -> Prop) started c h :
  is_Some (session_id c) -> (forall c', keeps c c' -> Q (inr tt) c' h) -> wp (abandon_write started) Q c h.
Proof.
  intros Hs HQ. destruct started; simpl; [|apply wp_ret, HQ, keeps_refl].
  apply wp_session_update; [done|done|]. intros s _ K. by apply HQ.
Qed.

(** One write: all of it is accounted for by the history. *)
Lemma wp_WriteOnce (Q : Status + (Z * Z) -> Conn -> History NetOp -> Prop) buf c h c0 h0 a b lb :
  ran c0 h0 c h a b -> is_Some (session_id c) -> later lb h ->
  (forall e c' h', keeps c c' -> ran c0 h0 c' h' a b -> Q (inl e) c' h') ->
  (forall rc e ev,
     ran c0 h0 c (ev :: h) (a ++ take (Z.to_nat rc) buf) b -> (forall t, clock_from (lb + 1) (t ++ ev :: h)) ->
     Q (inr (rc, e)) c (ev :: h)) ->
  wp (WriteOnce buf) Q c h.
Proof.
  intros R Hs Hl Herr HQ. unfold WriteOnce. apply wp_bind, wp_session; [done|]. intros s Hc.
  apply wp_bind, wp_require; intros _; [|by apply Herr; [apply keeps_refl|]].
  apply wp_bind, wp_require; intros _; [|by apply Herr; [apply keeps_refl|]].
  apply wp_bind, wp_call. intros [[rc e] errno] _.
  set (ev := Ev (SslWrite (ssl_ s) buf) (rc, e, errno)).
  assert (R' := ran_event _ _ _ _ _ _ ev R ltac:(rewrite (has_session_id _ _ Hc); solve_uses)).
  cbn [sent_by received_by ev] in R'. rewrite (app_nil_r b) in R'. fold ev in R'.
  assert (Hcl : forall t, clock_from (lb + 1) (t ++ ev :: h)) by (intros t; by apply (later_io lb t _ _ _ [])).
  destruct (Z.ltb_spec 0 rc) as [Hrc|Hrc]; [by apply wp_ret, HQ|].
  destruct (IsWantIo e).
  - apply wp_ret, HQ; [|done]. by rewrite Z2Nat.nonpos, take_0 in * by lia.
  - apply wp_bind, wp_session_update; [done|done|]. intros s' _ K. apply wp_bind, wp_modify, wp_fail.
    rewrite Z2Nat.nonpos, take_0, app_nil_r in R' by lia.
    apply Herr; [eapply keeps_trans; [exact K|apply keeps_errno]|].
    eapply ran_keeps; [exact R'|]. eapply keeps_trans; [exact K|apply keeps_errno].
Qed.

(** [TlsSession::Send] sends a prefix of the buffer, all of it when it succeeds; when
    it fails after the first write the session is unusable. *)
Definition tls_send_ok (o : Status + unit) (done rest : list Z) (c' : Conn) : Prop :=
  match o with
  | inr _ => rest = []
  | inl _ => done <> [] -> exists s, has_session c' s /\ failed_ s = true
  end.

Lemma abandon_fails started (Q : Status + unit -> Conn -> History NetOp -> Prop) c h :
  is_Some (session_id c) ->
  (forall c', keeps c c' -> (started = true -> exists s, has_session c' s /\ failed_ s = true) -> Q (inr tt) c' h) ->
  wp (abandon_write started) Q c h.
Proof.
  intros Hs HQ. destruct started; simpl; [|apply wp_ret, HQ; [apply keeps_refl|done]].
  apply wp_session_update; [done|done|]. intros s _ K. apply HQ; [done|]. intros _. by eexists.
Qed.

Lemma wp_RemainingTimeoutMs (Q : Status + Z -> Conn -> History NetOp -> Prop) start ms lb c h c0 h0 a b :
  ran c0 h0 c h a b -> clock_from lb h ->
  (forall r e, ran c0 h0 c (e :: h) a b -> Q (inr r) c (e :: h)) ->
  wp (RemainingTimeoutMs start ms) Q c h.
Proof.
  intros R Hlb HQ. unfold RemainingTimeoutMs. apply wp_bind. eapply wp_now; [exact R|exact Hlb|].
  intros r _ _ R'. apply wp_ret. by apply HQ.
Qed.

(** What the send loop keeps: [st] is the rest of the buffer and whether a write began. *)
Definition sending (ms start : Z) (buf : list Z) c0 h0 b (n : Z) (st : list Z * bool) c h : Prop :=
  exists lb done, time_left ms start n lb /\ clock_from lb h /\ is_Some (session_id c) /\
    ran c0 h0 c h done b /\ buf = done ++ st.1 /\ (done <> [] -> st.2 = true).

Definition sent_ok (buf : list Z) c0 h0 b (o : Status + unit) (c : Conn) (h : History NetOp) : Prop :=
  exists done rest, ran c0 h0 c h done b /\ buf = done ++ rest /\ tls_send_ok o done rest c.

Lemma wp_tls_send_round ms start buf c0 h0 b n st c h :
  sending ms start buf c0 h0 b n st c h ->
  wp (tls_send_round ms start st) (fun o c' h' =>
    match o with
    | inl e => sent_ok buf c0 h0 b (inl e) c' h'
    | inr (inr _) => sent_ok buf c0 h0 b (inr tt) c' h'
    | inr (inl st') => exists n', n' < n /\ sending ms start buf c0 h0 b n' st' c' h'
    end) c h.
Proof.
  destruct st as [pos started]. intros (lb & done & HT & Hlb & Hs & R & Hbuf & Hst). unfold tls_send_round.
  cbn [fst snd] in Hbuf, Hst.
  assert (Habandon : forall st1 e c1 h1, is_Some (session_id c1) -> ran c0 h0 c1 h1 done b -> (done <> [] -> st1 = true) ->
            wp (abandon_write st1) (fun _ c' h' => sent_ok buf c0 h0 b (inl e) c' h') c1 h1).
  { intros st1 e c1 h1 Hs1 R1 Hst1. apply abandon_fails; [done|]. intros c2 K H2.
    exists done, pos. split_and!; [by eapply ran_keeps|done|]. intros Hd. by apply H2, Hst1. }
  case_bool_decide as Hpos.
  { apply wp_ret. exists done, pos. by split_and!. }
  apply wp_bind, wp_on_fail, wp_bind. eapply wp_now; [exact R|exact Hlb|]. intros now Hnow Hl R1.
  apply wp_require; intros Hel; [|by apply Habandon].
  apply Z.ltb_lt in Hel. destruct (time_left_next _ _ _ _ _ HT Hnow Hel) as (n' & Hn' & HT').
  apply wp_on_fail, wp_bind. eapply wp_WriteOnce; [exact R1|exact Hs|exact Hl| |].
  { intros e c1 h1 K R2. apply Habandon; [by eapply keeps_has_session|done|done]. }
  intros rc e ev R2 Hcl.
  assert (Hnext : forall t, ran c0 h0 c (t ++ ev :: Ev NetNow now :: h) done b ->
            exists n', n' < n /\ sending ms start buf c0 h0 b n' (pos, true) c (t ++ ev :: Ev NetNow now :: h)).
  { intros t R3. exists n'. split; [done|]. exists (now + 1), done. split_and!; [done|apply Hcl|done..]. }
  destruct (Z.ltb_spec 0 rc) as [Hrc|Hrc].
  { apply wp_ret. exists n'. split; [done|]. exists (now + 1), (done ++ take (Z.to_nat rc) pos).
    split_and!; [done|apply (Hcl [])|done|done| |done]. cbn [fst]. by rewrite <- app_assoc, take_drop. }
  rewrite Z2Nat.nonpos, take_0, app_nil_r in R2 by done.
  apply wp_bind. eapply wp_RemainingTimeoutMs; [exact R2|apply (Hcl [])|]. intros rem ev2 R3.
  destruct (rem <=? 0); [apply wp_ret; by apply (Hnext [_])|].
  apply wp_bind. eapply wp_TlsSession_PollFd; [exact R3|done|]. intros [er|[]] fd3 r3 R4; [by apply Habandon|].
  apply wp_ret. by apply (Hnext [_; _]).
Qed.

Lemma wp_TlsSession_Send (Q : Status + unit -> Conn -> History NetOp -> Prop) buf ms c h c0 h0 b lb :
  ran c0 h0 c h [] b -> is_Some (session_id c) -> clock_from lb h ->
  (forall o c' h', sent_ok buf c0 h0 b o c' h' -> Q o c' h') ->
  wp (TlsSession_Send buf ms) Q c h.
Proof.
  intros R Hs Hlb HQ. unfold TlsSession_Send. apply wp_bind. eapply wp_now; [exact R|exact Hlb|].
  intros start _ Hl R1. apply wp_bind, wp_modify. apply (ran_keeps _ _ _ _ _ _ (set_errno 0 c)) in R1; [|done].
  assert (Herr : forall e, Q (inl e) (set_errno 0 c) (Ev NetNow start :: h)).
  { intros e. apply HQ. exists [], buf. split_and!; [done|done|]. by intros []. }
  apply wp_bind, wp_session; [done|]. intros s _. apply wp_bind, wp_require; intros _; [|done].
  apply wp_bind, wp_require; intros _; [|done].
  eapply wp_loop with (I := sending ms start buf c0 h0 b) (n := Z.max 0 ms * 1000000 + 1).
  - intros n st c' h' (lb' & done & HT & _). by eapply time_left_nonneg.
  - intros n st c' h' HI. eapply wp_mono; [by apply wp_tls_send_round|]. intros [e|[st'|[]]] c2 h2 H; auto.
  - apply (time_left_enough ms start _ start), time_left_start.
  - exists start, []. split_and!; [apply time_left_start|apply (later_from _ [] _ Hl)|done..].
Qed.

(** One read of OpenSSL. *)
Lemma wp_SslRead (Q : Status + SslIo -> Conn -> History NetOp -> Prop) s len c h c0 h0 a b :
  ran c0 h0 c h a b -> has_session c s ->
  (forall bs e, ran c0 h0 c (e :: h) a (b ++ bs) -> Forall is_byte bs -> 0 < Z.of_nat (length bs) <= len ->
     is_io (SslRead (ssl_ s) len) = true -> e = Ev (SslRead (ssl_ s) len) (SslBytes bs) ->
     Q (inr (SslBytes bs)) c (e :: h)) ->
  (forall rc err errno e, ran c0 h0 c (e :: h) a b -> rc <= 0 ->
     e = Ev (SslRead (ssl_ s) len) (SslFail rc err errno) -> Q (inr (SslFail rc err errno)) c (e :: h)) ->
  wp (call (SslRead (ssl_ s) len)) Q c h.
Proof.
  intros R Hc HQ1 HQ2. apply wp_call. intros r Hr.
  assert (R' := ran_event _ _ _ _ _ _ (Ev (SslRead (ssl_ s) len) r) R
                  ltac:(rewrite (has_session_id _ _ Hc); solve_uses)).
  cbn [sent_by] in R'. rewrite app_nil_r in R'. destruct r as [bs|rc err errno]; cbn [received_by] in R'.
  - apply eq_sym, ssl_read_bound in Hr as [H1 H2]. by eapply HQ1.
  - apply eq_sym, ssl_fail_bound in Hr. rewrite app_nil_r in R'. by eapply HQ2.
Qed.

Definition receiving (len ms start : Z) c0 h0 a b (n : Z) (got : list Z) (c : Conn) (h : History NetOp) : Prop :=
  exists lb, time_left ms start n lb /\ clock_from lb h /\ is_Some (session_id c) /\
    ran c0 h0 c h a (b ++ got) /\ Forall is_byte got /\ Z.of_nat (length got) <= Z.max 0 len.

Definition recv_ok (len : Z) c0 h0 a b (o : Status + list Z) (c : Conn) (h : History NetOp) : Prop :=
  exists got, ran c0 h0 c h a (b ++ got) /\ got_ok len o got.

Lemma wp_tls_recv_round len ms start c0 h0 a b n got c h :
  receiving len ms start c0 h0 a b n got c h ->
  wp (tls_recv_round len ms start got) (fun o c' h' =>
    match o with
    | inl e => recv_ok len c0 h0 a b (inl e) c' h'
    | inr (inr g) => recv_ok len c0 h0 a b (inr g) c' h'
    | inr (inl got') => exists n', n' < n /\ receiving len ms start c0 h0 a b n' got' c' h'
    end) c h.
Proof.
  intros (lb & HT & Hlb & Hs & R & Hby & Hlen). unfold tls_recv_round.
  destruct (Z.leb_spec (len - Z.of_nat (length got)) 0) as [Hdone|Hmore].
  { apply wp_ret. exists got. split; [done|]. split_and!; [done|done|lia]. }
  assert (Herr : forall e c2 h2, ran c0 h0 c2 h2 a (b ++ got) -> recv_ok len c0 h0 a b (inl e) c2 h2).
  { intros e c2 h2 R2. exists got. split; [done|]. split; [done|lia]. }
  unfold RemainingTimeoutMs at 1. apply wp_bind, wp_bind. eapply wp_now; [exact R|exact Hlb|]. intros now Hnow Hl R1. apply wp_ret.
  apply wp_bind, wp_require; intros Hrem; [|by apply Herr].
  apply Z.ltb_lt in Hrem. destruct (time_left_next ms start n lb now HT Hnow ltac:(lia)) as (n' & Hn' & HT').
  apply wp_bind, wp_session; [done|]. intros s Hc. apply wp_bind, wp_require; intros _; [|by apply Herr].
  apply wp_bind. eapply wp_SslRead; [exact R1|exact Hc| |].
  - intros bs e R2 Hbs Hle Hio ->. apply wp_ret. exists n'. split; [done|]. exists (now + 1).
    rewrite <- app_assoc in R2.
    split_and!; [done|by apply (later_io now [] _ _ _ [])|done|done|by apply Forall_app|rewrite length_app; lia].
  - intros rc err errno e R2 Hrc ->.
    set (ev := Ev (SslRead (ssl_ s) (len - Z.of_nat (length got))) (SslFail rc err errno)) in *.
    assert (Hcl : forall t, clock_from (now + 1) (t ++ ev :: Ev NetNow now :: h)).
    { intros t. by apply (later_io now t _ _ _ []). }
    assert (Hnext : forall t, ran c0 h0 c (t ++ ev :: Ev NetNow now :: h) a (b ++ got) ->
              exists n', n' < n /\ receiving len ms start c0 h0 a b n' got c (t ++ ev :: Ev NetNow now :: h)).
    { intros t R3. exists n'. split; [done|]. exists (now + 1). split_and!; [done|apply Hcl|done..]. }
    destruct (IsWantIo err); cbn [negb].
    + apply wp_bind. eapply wp_RemainingTimeoutMs; [exact R2|apply (Hcl [])|]. intros rem ev2 R3.
      destruct (rem <=? 0); [apply wp_ret; by apply (Hnext [_])|].
      apply wp_bind. eapply wp_TlsSession_PollFd; [exact R3|done|]. intros [er|[]] fd3 r3 R4; [by apply Herr|].
      apply wp_ret. by apply (Hnext [_; _]).
    + apply wp_bind, wp_session_update; [done|done|]. intros s' _ K. apply wp_fail, Herr. by eapply ran_keeps.
Qed.

Lemma wp_TlsSession_Recv (Q : Status + list Z -> Conn -> History NetOp -> Prop) len ms c h c0 h0 a b lb :
  ran c0 h0 c h a b -> is_Some (session_id c) -> clock_from lb h ->
  (forall o c' h', recv_ok len c0 h0 a b o c' h' -> Q o c' h') ->
  wp (TlsSession_Recv len ms) Q c h.
Proof.
  intros R Hs Hlb HQ. unfold TlsSession_Recv.
  assert (Herr : forall e, Q (inl e) c h).
  { intros e. apply HQ. exists []. rewrite app_nil_r. split; [done|]. split; [constructor|simpl; lia]. }
  apply wp_bind, wp_session; [done|]. intros s _. apply wp_bind, wp_require; intros _; [|done].
  apply wp_bind, wp_require; intros _; [|done].
  apply wp_bind. eapply wp_now; [exact R|exact Hlb|]. intros start _ Hl R1.
  eapply wp_loop with (I := receiving len ms start c0 h0 a b) (n := Z.max 0 ms * 1000000 + 1).
  - intros n got c' h' (lb' & HT & _). by eapply time_left_nonneg.
  - intros n got c' h' HI. eapply wp_mono; [by apply wp_tls_recv_round|]. intros [e|[got'|g]] c2 h2 H; auto.
  - apply (time_left_enough ms start _ start), time_left_start.
  - exists start. rewrite app_nil_r.
    split_and!; [apply time_left_start|apply (later_from _ [] _ Hl)|done|done|constructor|simpl; lia].
Qed.

(** One receive: some bytes, none at the end of the stream, or nothing yet. *)
Definition once_ok (len : Z) c0 h0 a b (o : Status + Io) (c : Conn) (h : History NetOp) : Prop :=
  match o with
  | inr (IoBytes bs) => ran c0 h0 c h a (b ++ bs) /\ Forall is_byte bs /\ Z.of_nat (length bs) <= Z.max 0 len
  | _ => ran c0 h0 c h a b
  end.

Lemma wp_RecvOnce (Q : Status + Io -> Conn -> History NetOp -> Prop) len c h c0 h0 a b :
  ran c0 h0 c h a b -> is_Some (session_id c) ->
  (forall o c' h', once_ok len c0 h0 a b o c' h' -> Q o c' h') -> wp (RecvOnce len) Q c h.
Proof.
  intros R Hs HQ. unfold RecvOnce. apply wp_bind, wp_session; [done|]. intros s Hc.
  apply wp_bind, wp_require; intros _; [|by apply HQ]. apply wp_bind, wp_require; intros _; [|by apply HQ].
  apply wp_bind. eapply wp_SslRead; [exact R|exact Hc| |].
  - intros bs e R2 Hbs Hle _ ->. apply wp_ret, HQ. split_and!; [done|done|lia].
  - intros rc err errno e R2 _ ->. destruct (IsWantIo err); [by apply wp_ret, HQ|].
    destruct ((err =? SSL_ERROR_ZERO_RETURN) || (rc =? 0)).
    + apply wp_ret, HQ. unfold once_ok. rewrite app_nil_r. split_and!; [done|constructor|simpl; lia].
    + apply wp_bind, wp_session_update; [done|done|]. intros s' _ K. apply wp_fail, HQ. by eapply ran_keeps.
Qed.

(** * CtrlMsgPlugin: sending and receiving *)
Lemma wp_CheckReady (Q : Status + option TlsSession -> Conn -> History NetOp -> Prop) c h :
  (forall e, Q (inl e) c h) -> (0 <= fd_ c -> Q (inr (tls_session_ c)) c h) -> wp CheckReady Q c h.
Proof.
  intros H1 H2. unfold CheckReady. apply wp_bind, wp_get.
  apply wp_bind, wp_require; intros Hr; [|done]. apply wp_bind, wp_require; intros _; [|done].
  apply wp_ret, H2. apply andb_true_iff in Hr as [_ ?]. lia.
Qed.

Lemma wp_ShutdownSocketLocked (Q : Status + unit -> Conn -> History NetOp -> Prop) c h c0 h0 a b :
  ran c0 h0 c h a b -> (forall o h', ran c0 h0 c h' a b -> Q o c h') -> wp ShutdownSocketLocked Q c h.
Proof.
  intros R HQ. unfold ShutdownSocketLocked. apply wp_bind, wp_get. destruct (fd_ c <? 0); [apply wp_ret; by apply HQ|].
  apply wp_bind, wp_call. intros [rc errno] _.
  assert (R' := ran_quiet_event _ _ _ _ _ _ (Ev (NetShutdown (fd_ c)) (rc, errno)) R
                  ltac:(solve_uses) eq_refl eq_refl).
  apply wp_require; intros _; by apply HQ.
Qed.

(** [Send]: a prefix of the buffer was sent, all of it on success. *)
Definition plugin_sent (buf : list Z) c0 h0 b (o : Status + unit) (c : Conn) (h : History NetOp) : Prop :=
  exists done rest, ran c0 h0 c h done b /\ buf = done ++ rest /\ (o = inr tt -> rest = []).

Lemma wp_CtrlMsgPlugin_Send (Q : Status + unit -> Conn -> History NetOp -> Prop) buf ms c h c0 h0 b lb :
  ran c0 h0 c h [] b -> clock_from lb h ->
  (forall o c' h', plugin_sent buf c0 h0 b o c' h' -> Q o c' h') ->
  wp (CtrlMsgPlugin_Send buf ms) Q c h.
Proof.
  intros R Hlb HQ. unfold CtrlMsgPlugin_Send. apply wp_bind, wp_get. apply wp_bind, wp_modify.
  apply (ran_keeps _ _ _ _ _ _ (set_errno 0 c)) in R; [|done].
  assert (Herr : forall e, Q (inl e) (set_errno 0 c) h).
  { intros e. apply HQ. exists [], buf. by split_and!. }
  apply wp_bind, wp_require; intros _; [|done]. apply wp_bind, wp_CheckReady; [done|]. intros _.
  cbn [tls_session_ set_errno]. destruct (tls_session_ c) as [s|] eqn:Hs.
  - assert (Hsid : is_Some (session_id (set_errno 0 c))) by (unfold session_id; simpl; rewrite Hs; by eexists).
    apply wp_bind, wp_attempt. eapply wp_TlsSession_Send; [exact R|done|exact Hlb|].
    intros o c1 h1 (done & rest & R1 & Hbuf & Ho).
    assert (Hs1 : is_Some (session_id c1)).
    { destruct R as [(_&_&_&K0) _]. destruct R1 as [(_&_&_&K1) _]. congruence. }
    apply wp_bind, wp_session; [done|]. intros s1 _. apply wp_bind.
    assert (Hend : forall h2, ran c0 h0 c1 h2 done b -> wp (match o with inl e => fail e | inr _ => ret tt end) Q c1 h2).
    { intros h2 R2. destruct o as [e|[]]; [apply wp_fail|apply wp_ret]; (apply HQ; exists done, rest; by split_and!). }
    destruct (TlsSession_IsUsable s1); cbn [negb]; [apply wp_ret; by apply Hend|].
    apply wp_bind, wp_attempt. eapply wp_ShutdownSocketLocked; [exact R1|]. intros o2 h2 R2. apply wp_ret. by apply Hend.
  - eapply wp_SendPlain; [exact R|done|exact Hlb|]. intros o c1 h1 done rest R1 Hbuf Ho.
    apply HQ. by exists done, rest.
Qed.

Lemma wp_CtrlMsgPlugin_Recv (Q : Status + list Z -> Conn -> History NetOp -> Prop) len ms c h c0 h0 a b lb :
  ran c0 h0 c h a b -> clock_from lb h ->
  (forall o c' h', recv_ok len c0 h0 a b o c' h' -> Q o c' h') ->
  wp (CtrlMsgPlugin_Recv len ms) Q c h.
Proof.
  intros R Hlb HQ. unfold CtrlMsgPlugin_Recv. apply wp_bind, wp_get.
  assert (Herr : forall e, Q (inl e) c h).
  { intros e. apply HQ. exists []. rewrite app_nil_r. split; [done|]. split; [constructor|simpl; lia]. }
  apply wp_bind, wp_require; intros _; [|done]. apply wp_bind, wp_CheckReady; [done|]. intros _.
  destruct (tls_session_ c) as [s|] eqn:Hs.
  - eapply wp_TlsSession_Recv; [exact R| |exact Hlb|done]. unfold session_id. rewrite Hs. by eexists.
  - eapply wp_RecvPlain; [exact R|done|exact Hlb|]. intros o c1 h1 got R1 Hg. apply HQ. by exists got.
Qed.

Lemma wp_CtrlMsgPlugin_RecvOnce (Q : Status + Io -> Conn -> History NetOp -> Prop) len c h c0 h0 a b :
  ran c0 h0 c h a b -> 0 <= len ->
  (forall o c' h', once_ok len c0 h0 a b o c' h' -> Q o c' h') ->
  wp (CtrlMsgPlugin_RecvOnce len) Q c h.
Proof.
  intros R Hlen HQ. unfold CtrlMsgPlugin_RecvOnce. apply wp_bind, wp_CheckReady; [intros e; by apply HQ|]. intros _.
  destruct (tls_session_ c) as [s|] eqn:Hs.
  - eapply wp_RecvOnce; [exact R| |done]. unfold session_id. rewrite Hs. by eexists.
  - apply wp_bind, wp_get, wp_call. intros r Hr. apply HQ.
    assert (R' := ran_event _ _ _ _ _ _ (Ev (NetRecv (fd_ c) len) r) R ltac:(solve_uses)).
    cbn [sent_by] in R'. rewrite app_nil_r in R'. destruct r as [bs|e]; cbn [received_by] in R'.
    + apply eq_sym, recv_bound in Hr as [H1 H2]. split_and!; [done|done|lia].
    + by rewrite app_nil_r in R'.
Qed.

(** ** Handshakes *)
Lemma wp_HandshakeStep (Q : Status + TlsHandshakeState -> Conn -> History NetOp -> Prop) server c h c0 h0 a b :
  ran c0 h0 c h a b -> is_Some (session_id c) ->
  (forall e c' h', ran c0 h0 c' h' a b -> is_Some (session_id c') -> Q (inl e) c' h') ->
  (forall c' h', ran c0 h0 c' h' a b -> is_Some (session_id c') -> Q (inr kComplete) c' h') ->
  (forall st c' T (op : NetOp T) r, is_io op = true -> ran c0 h0 c' (Ev op r :: h) a b -> is_Some (session_id c') ->
     Q (inr st) c' (Ev op r :: h)) ->
  wp (HandshakeStep server) Q c h.
Proof.
  intros R Hs He Hc HQ. unfold HandshakeStep. apply wp_bind, wp_session; [done|]. intros s Hsome.
  apply wp_bind, wp_require; intros _; [|by apply He].
  destruct (handshake_complete_ s); [apply wp_ret; by apply Hc|].
  apply wp_bind, wp_call. intros [rc err] _.
  assert (R' := ran_quiet_event _ _ _ _ _ _ (Ev (SslHandshake server (ssl_ s)) (rc, err)) R
                  ltac:(rewrite (has_session_id _ _ Hsome); solve_uses) eq_refl eq_refl).
  destruct (rc =? 1).
  - apply wp_bind, wp_session_update; [done|done|]. intros s' _ K. apply wp_ret. apply Hc; [by eapply ran_keeps|].
    by eapply keeps_has_session.
  - destruct (IsWantIo err); [apply wp_ret; by apply HQ|apply wp_fail; by apply He].
Qed.

Lemma wp_DoHandshake (Q : Status + unit -> Conn -> History NetOp -> Prop) server ms c h c0 h0 a b lb :
  ran c0 h0 c h a b -> is_Some (session_id c) -> clock_from lb h ->
  (forall o c' h', ran c0 h0 c' h' a b -> is_Some (session_id c') -> Q o c' h') ->
  wp (DoHandshake server ms) Q c h.
Proof.
  intros R Hs Hlb HQ. unfold DoHandshake. apply wp_bind, wp_require; intros _; [|by apply HQ].
  apply wp_bind. eapply wp_now; [exact R|exact Hlb|]. intros start _ Hl R0.
  set (I := fun n (_ : unit) c' h' => exists lb, time_left ms start n lb /\ clock_from lb h' /\
              is_Some (session_id c') /\ ran c0 h0 c' h' a b).
  apply (wp_loop (handshake_round server ms start) I Q) with (n := Z.max 0 ms * 1000000 + 1).
  - intros n u c' h' (lb' & HT & _). by eapply time_left_nonneg.
  - clear dependent h. intros n u c' h' (lb' & HT & Hlb & Hs' & R). unfold handshake_round. apply wp_bind.
    eapply wp_HandshakeStep; [exact R|exact Hs'| | |].
    + intros e c2 h2 R2 Hs2. by apply HQ.
    + intros c2 h2 R2 Hs2. rewrite bool_decide_eq_true_2 by done. apply wp_bind, wp_call. intros r _. apply wp_ret.
      apply HQ; [|done]. by apply ran_quiet_event; [|solve_uses|..].
    + intros st c2 T op r Hio R2 Hs2. case_bool_decide.
      { apply wp_bind, wp_call. intros now _. apply wp_ret. apply HQ; [|done]. by apply ran_quiet_event; [|solve_uses|..]. }
      assert (Hcl : clock_from lb' (Ev op r :: h')) by (by apply (clock_from_mono _ [_])).
      apply wp_bind. eapply wp_now; [exact R2|exact Hcl|]. intros now Hnow Hlat R3.
      apply wp_bind, wp_require; intros Hel; [|by apply HQ]. apply Z.ltb_lt in Hel.
      destruct (time_left_next _ _ _ _ _ HT Hnow Hel) as (n' & Hn' & HT').
      apply wp_bind. eapply wp_TlsSession_PollFd; [exact R3|done|]. intros [er|[]] fd3 r3 R4; [by apply HQ|].
      apply wp_ret. exists n'. split; [done|]. exists (now + 1). split_and!; [done| |done..].
      by apply (later_io now [] _ _ _ []).
  - apply (time_left_enough ms start _ start), time_left_start.
  - exists start. split_and!; [apply time_left_start|apply (later_from _ [] _ Hl)|done..].
Qed.

(** ** The two, from any point *)
Lemma clock_from_start h : clock_from 0 h.
Proof. intros t. apply clock_nonneg. Qed.

Lemma wp_Send (Q : Status + unit -> Conn -> History NetOp -> Prop) buf ms c h :
  (forall o c' h' done rest, ran c h c' h' done [] -> buf = done ++ rest -> (o = inr tt -> rest = []) -> Q o c' h') ->
  wp (CtrlMsgPlugin_Send buf ms) Q c h.
Proof.
  intros HQ. eapply wp_CtrlMsgPlugin_Send; [apply ran_refl|apply clock_from_start|].
  intros o c' h' (done & rest & R & Hb & Ho). by eapply HQ.
Qed.

Lemma wp_Recv (Q : Status + list Z -> Conn -> History NetOp -> Prop) len ms c h :
  (forall o c' h' got, ran c h c' h' [] got -> got_ok len o got -> Q o c' h') ->
  wp (CtrlMsgPlugin_Recv len ms) Q c h.
Proof.
  intros HQ. eapply wp_CtrlMsgPlugin_Recv; [apply ran_refl|apply clock_from_start|].
  intros o c' h' (got & R & Ho). by eapply HQ.
Qed.
End Laws.
