(* ===== verification/CtrlConnSafety.v ===== *)
(** The descriptors and TLS sessions of control connections: whatever is called on
    whatever connections, each open descriptor belongs to one connection, nothing is
    used after it was closed, and nothing is lost. *)

From S2P Require Import Prelude Effects Wire Net CtrlConn CtrlConnSpec NetReference.

(** * What one connection holds *)
Definition conn_fd (c : Conn) : option Z := if 0 <=? fd_ c then Some (fd_ c) else None.
Definition conn_ssl (c : Conn) : option Z := fst <$> session_id c.
Definition fds (c : Conn) : gset Z := match conn_fd c with Some fd => {[fd]} | None => ∅ end.
Definition ssls (c : Conn) : gset Z := match conn_ssl c with Some ssl => {[ssl]} | None => ∅ end.

(** A session is on the descriptor of its connection. *)
Definition conn_wf (c : Conn) : Prop :=
  forall x, session_id c = Some x -> x.1 <> nullptr /\ x.2 = fd_ c /\ 0 <= fd_ c.

(** [c] holds its descriptor and session, others hold [F] and [S]. *)
Record holds (c : Conn) (h : History NetOp) (F S : gset Z) : Prop := {
  h_wf : conn_wf c;
  h_fds : open_fds h = fds c ∪ F;
  h_fds_disj : fds c ## F;
  h_ssls : open_ssls h = ssls c ∪ S;
  h_ssls_disj : ssls c ## S;
  h_disciplined : disciplined h
}.

Lemma holds_same c c' h F S :
  fd_ c' = fd_ c -> session_id c' = session_id c -> holds c h F S -> holds c' h F S.
Proof.
  intros E1 E2 [H1 H2 H3 H4 H5 H6].
  assert (Ef : fds c' = fds c) by (unfold fds, conn_fd; by rewrite E1).
  assert (Es : ssls c' = ssls c) by (unfold ssls, conn_ssl; by rewrite E2).
  constructor; rewrite ?Ef, ?Es; try done. unfold conn_wf. by rewrite E1, E2.
Qed.

Lemma quiet_step e : quiet e -> (forall s, fd_step e s = s) /\ (forall s, ssl_step e s = s).
Proof. destruct e as [T op r]; destruct op; done. Qed.

(** An event that opens and closes nothing, on something open. *)
Definition inert (e : Event NetOp) : Prop := (forall s, fd_step e s = s) /\ (forall s, ssl_step e s = s).
Definition on_open (e : Event NetOp) (h : History NetOp) : Prop :=
  match needs_fd e with Some fd => 0 <= fd -> fd ∈ open_fds h | None => True end /\
  match needs_ssl e with Some ssl => ssl ∈ open_ssls h | None => True end.

Lemma open_fds_cons e h : open_fds (e :: h) = fd_step e (open_fds h).
Proof. done. Qed.
Lemma open_ssls_cons e h : open_ssls (e :: h) = ssl_step e (open_ssls h).
Proof. done. Qed.

Lemma holds_inert c h F S e : holds c h F S -> inert e -> on_open e h -> holds c (e :: h) F S.
Proof.
  intros [H1 H2 H3 H4 H5 H6] [Q1 Q2] [N1 N2].
  constructor; [done|by rewrite open_fds_cons, Q1|done|by rewrite open_ssls_cons, Q2|done|by split_and!].
Qed.

Lemma fds_fd c : 0 <= fd_ c -> fds c = {[fd_ c]}.
Proof. intros H. unfold fds, conn_fd. by rewrite (proj2 (Z.leb_le _ _)). Qed.
Lemma fds_none c : fd_ c < 0 -> fds c = ∅.
Proof. intros H. unfold fds, conn_fd. by rewrite (proj2 (Z.leb_gt _ _)). Qed.
Lemma ssls_none c : session_id c = None -> ssls c = ∅.
Proof. intros H. unfold ssls, conn_ssl. by rewrite H. Qed.
Lemma ssls_session c s : tls_session_ c = Some s -> ssls c = {[ssl_ s]}.
Proof. intros H. unfold ssls, conn_ssl, session_id. by rewrite H. Qed.

Lemma holds_fd_open c h F S fd : holds c h F S -> fd = fd_ c -> 0 <= fd -> fd ∈ open_fds h.
Proof. intros [_ H _ _ _ _] -> Hp. rewrite H, fds_fd by done. set_solver. Qed.
Lemma holds_ssl_open c h F S x : holds c h F S -> session_id c = Some x -> x.1 ∈ open_ssls h.
Proof. intros [_ _ _ H _ _] E. rewrite H. unfold ssls, conn_ssl. rewrite E. set_solver. Qed.

(** A negative descriptor leaves no room for a session. *)
Lemma holds_no_session c h F S : holds c h F S -> fd_ c < 0 -> session_id c = None.
Proof. intros [H _ _ _ _ _] Hn. destruct (session_id c) as [x|] eqn:E; [|done]. apply H in E as (_ & _ & ?). lia. Qed.

Lemma holds_event c h F S e : holds c h F S -> uses (fd_ c) (session_id c) e -> holds c (e :: h) F S.
Proof.
  intros H (Hq & Hf & Hs). apply holds_inert; [done|by apply quiet_step|]. split.
  - destruct (needs_fd e) as [fd|] eqn:E; [|done]. intros Hp. apply (holds_fd_open c h F S); [done| |done].
    destruct (Hf fd eq_refl) as [->|Hx]; [done|].
    destruct (session_id c) as [x|] eqn:Ex; [|done]. simpl in Hx. injection Hx as ->.
    by apply (h_wf _ _ _ _ H) in Ex as (_ & -> & _).
  - destruct (needs_ssl e) as [ssl|] eqn:E; [|done]. specialize (Hs ssl eq_refl).
    destruct (session_id c) as [x|] eqn:Ex; [|done]. injection Hs as ->. by eapply holds_ssl_open.
Qed.

(** A run on the connection changes nothing. *)
Lemma holds_ran c h c' h' a b F S : ran c h c' h' a b -> holds c h F S -> holds c' h' F S.
Proof.
  intros ((E1 & _ & _ & E2) & t & -> & U & _) H. eapply (holds_same c); [done|done|].
  induction t as [|e t IH]; [done|]. inversion U; subst. cbn [app]. apply holds_event; [by apply IH|done].
Qed.

(** ** Descriptors come and go *)

(** A new descriptor is at first nobody's. *)
Lemma holds_opened c h F S fd e :
  holds c h F S -> fd ∉ open_fds h -> fd_step e (open_fds h) = {[fd]} ∪ open_fds h ->
  (forall s, ssl_step e s = s) -> on_open e h -> holds c (e :: h) ({[fd]} ∪ F) S /\ fd ∉ F.
Proof.
  intros [H1 H2 H3 H4 H5 H6] Hnew Ef Es [N1 N2]. rewrite H2 in Hnew. split; [|set_solver].
  constructor; [done| | |by rewrite open_ssls_cons, Es|done|by split_and!].
  - rewrite open_fds_cons, Ef, H2. set_solver.
  - set_solver.
Qed.

Lemma holds_take c h F S fd :
  holds c h ({[fd]} ∪ F) S -> fd ∉ F -> fd_ c < 0 -> 0 <= fd -> holds (set_fd fd c) h F S.
Proof.
  intros H Hf Hn Hp. pose proof (holds_no_session _ _ _ _ H Hn) as Hs.
  destruct H as [H1 H2 H3 H4 H5 H6]. rewrite (fds_none c Hn) in H2.
  constructor; rewrite ?(fds_fd (set_fd fd c)) by done; cbn [fd_ set_fd]; try done.
  - intros x Hx. change (session_id c = Some x) in Hx. congruence.
  - rewrite H2. set_solver.
  - set_solver.
Qed.

Lemma holds_give c h F S :
  holds c h F S -> 0 <= fd_ c -> session_id c = None ->
  holds (set_fd (-1) c) h ({[fd_ c]} ∪ F) S /\ fd_ c ∉ F.
Proof.
  intros [H1 H2 H3 H4 H5 H6] Hp Hs. rewrite (fds_fd c Hp) in H2, H3. split; [|set_solver].
  constructor; rewrite ?(fds_none (set_fd (-1) c)) by done; try done.
  - intros x Hx. change (session_id c = Some x) in Hx. congruence.
  - rewrite H2. set_solver.
Qed.

Lemma holds_closed c h F S fd r :
  holds c h ({[fd]} ∪ F) S -> fd ∉ F -> holds c (Ev (NetClose fd) r :: h) F S.
Proof.
  intros [H1 H2 H3 H4 H5 H6] Hf. constructor; try done.
  - rewrite open_fds_cons. cbn [fd_step]. rewrite H2. clear -Hf H3. set_solver.
  - set_solver.
  - cbn [disciplined needs_fd needs_ssl]. split_and!; [|done|done]. intros _. rewrite H2. by apply elem_of_union_r, elem_of_union_l, elem_of_singleton_2.
Qed.

(** ** Sessions come and go *)
Lemma holds_new_session c h F S ssl server b1 b2 :
  holds c h F S -> 0 <= fd_ c -> session_id c = None -> ssl <> nullptr -> ssl ∉ open_ssls h ->
  holds (set_session (Some {| handshake_complete_ := b1; failed_ := b2; ssl_ := ssl; session_fd := fd_ c |}) c)
        (Ev (TlsCreateSession (fd_ c) server) (SUCCESS, ssl) :: h) F S.
Proof.
  intros H Hfd Hs Hn Hnew. pose proof (holds_fd_open c h F S _ H eq_refl Hfd) as Ho.
  destruct H as [H1 H2 H3 H4 H5 H6]. rewrite (ssls_none c Hs) in H4, H5.
  constructor; rewrite ?(ssls_session _ _ eq_refl); try done.
  - intros x [= <-]. by split_and!.
  - rewrite open_ssls_cons. change ({[ssl]} ∪ open_ssls h = {[ssl]} ∪ S). by rewrite H4, (left_id_L ∅ (∪)).
  - change ({[ssl]} ## S). rewrite H4, (left_id_L ∅ (∪)) in Hnew. by apply disjoint_singleton_l.
  - by split; [intros _|split].
Qed.

Lemma holds_free_session c h F S s :
  holds c h F S -> tls_session_ c = Some s -> holds (set_session None c) (Ev (SslFree (ssl_ s)) tt :: h) F S.
Proof.
  intros [H1 H2 H3 H4 H5 H6] Hs. rewrite (ssls_session c s Hs) in H4, H5.
  constructor; rewrite ?(ssls_none (set_session None c) eq_refl); try done.
  - rewrite open_ssls_cons. cbn [ssl_step]. rewrite H4. clear -H5. set_solver.
  - cbn [disciplined needs_fd needs_ssl]. split_and!; [done| |done]. rewrite H4. by apply elem_of_union_l, elem_of_singleton_2.
Qed.

(** * What each call keeps *)
Section Ownership.
Context {env : Environment NetOp} {Hnet : NetLaws env}.
Variables F S : gset Z.
Implicit Types (c : Conn) (h : History NetOp).

(** [fd] is open if it is a descriptor at all. *)
Definition held (c : Conn) (fd : Z) : Prop := 0 <= fd -> fd = fd_ c \/ fd ∈ F.

Lemma held_open c h fd : holds c h F S -> held c fd -> 0 <= fd -> fd ∈ open_fds h.
Proof.
  intros H Hh Hp. destruct (Hh Hp) as [->|Hf]; [by apply (holds_fd_open c h F S)|].
  rewrite (h_fds _ _ _ _ H). by apply elem_of_union_r.
Qed.

Lemma wp_inert {T} (op : NetOp T) (Q : Status + T -> Conn -> History NetOp -> Prop) c h :
  holds c h F S -> (forall r, inert (Ev op r)) -> (forall r, on_open (Ev op r) h) ->
  (forall r, holds c (Ev op r :: h) F S -> Q (inr r) c (Ev op r :: h)) -> wp (call op) Q c h.
Proof. intros H Hi Ho HQ. apply wp_call. intros r _. apply HQ. by apply holds_inert. Qed.

(** A call on a descriptor that is held. *)
Lemma wp_on_fd {T} (op : NetOp T) fd (Q : Status + T -> Conn -> History NetOp -> Prop) c h :
  holds c h F S -> held c fd -> (forall r, inert (Ev op r)) ->
  (forall r, needs_fd (Ev op r) = Some fd /\ needs_ssl (Ev op r) = None) ->
  (forall r h', holds c h' F S -> Q (inr r) c h') -> wp (call op) Q c h.
Proof.
  intros H Hh Hi Hn HQ. apply wp_inert; [done|done| |by eauto].
  intros r. unfold on_open. destruct (Hn r) as [-> ->]. split; [|done]. by apply (held_open c).
Qed.

(** A call on nothing. *)
Lemma wp_on_none {T} (op : NetOp T) (Q : Status + T -> Conn -> History NetOp -> Prop) c h :
  holds c h F S -> (forall r, inert (Ev op r)) ->
  (forall r, needs_fd (Ev op r) = None /\ needs_ssl (Ev op r) = None) ->
  (forall r h', holds c h' F S -> Q (inr r) c h') -> wp (call op) Q c h.
Proof.
  intros H Hi Hn HQ. apply wp_inert; [done|done| |by eauto].
  intros r. unfold on_open. by destruct (Hn r) as [-> ->].
Qed.

Lemma wp_set_opt fd opt (Q : Status + unit -> Conn -> History NetOp -> Prop) c h :
  holds c h F S -> held c fd -> (forall o h', holds c h' F S -> Q o c h') -> wp (set_opt fd opt) Q c h.
Proof.
  intros H Hh HQ. unfold set_opt. apply wp_bind. apply (wp_on_fd _ fd); [done|done|done|done|].
  intros rc h' H'. apply wp_require; intros _; by apply HQ.
Qed.

Lemma wp_close_session (Q : Status + unit -> Conn -> History NetOp -> Prop) c h :
  holds c h F S -> (forall c' h', holds c' h' F S -> session_id c' = None -> Q (inr tt) c' h') ->
  wp close_session Q c h.
Proof.
  intros H HQ. unfold close_session. apply wp_bind, wp_get. destruct (tls_session_ c) as [s|] eqn:Hs.
  2:{ apply wp_ret, HQ; [done|]. unfold session_id. by rewrite Hs. }
  assert (Hsid : session_id c = Some (ssl_ s, session_fd s)) by (by apply has_session_id).
  assert (Hfree : forall h1, holds c h1 F S ->
    wp (let* s := session in modify (set_session None) ;; TlsSession_delete s) Q c h1).
  { intros h1 H1. apply wp_bind, wp_session; [by eexists|]. intros s' Hs'. apply wp_bind, wp_modify. unfold TlsSession_delete.
    destruct (h_wf _ _ _ _ H1 _ (has_session_id _ _ Hs')) as (Hnn & _). cbn [fst] in Hnn. unfold is_null.
    rewrite (proj2 (Z.eqb_neq _ _) Hnn). apply wp_call. intros [] _. apply HQ; [|done]. by apply holds_free_session. }
  apply wp_bind. unfold TlsSession_Shutdown. apply wp_bind, wp_session; [by eexists|]. intros s' Hs'.
  destruct (TlsSession_IsUsable s'); [|by apply wp_ret, Hfree].
  apply wp_inert; [done|done| |by intros [] H'; apply Hfree].
  intros r. split; [done|]. apply (holds_ssl_open c h F S (ssl_ s', session_fd s')); [done|by apply has_session_id].
Qed.

Lemma wp_close_socket (Q : Status + unit -> Conn -> History NetOp -> Prop) c h :
  holds c h F S -> session_id c = None ->
  (forall o c' h', holds c' h' F S -> fd_ c' = -1 -> session_id c' = None -> Q o c' h') -> wp close_socket Q c h.
Proof.
  intros H Hs HQ. unfold close_socket. apply wp_bind, wp_modify, wp_bind, wp_get, wp_bind, wp_modify. cbn [fd_ set_init].
  destruct (Z.ltb_spec (fd_ c) 0) as [Hn|Hp].
  - apply wp_ret, HQ; [|done|done]. destruct H as [H1 H2 H3 H4 H5 H6].
    rewrite (fds_none c Hn) in H2, H3. constructor; try done. intros x Hx. change (session_id c = Some x) in Hx. congruence.
  - destruct (holds_give _ _ _ _ H Hp Hs) as [H2 Hf]. apply wp_bind, wp_call. intros rc _.
    apply (holds_closed _ _ _ _ _ rc) in H2; [|done].
    assert (H3 : holds (set_fd (-1) (set_init false false c)) (Ev (NetClose (fd_ c)) rc :: h) F S) by
      (by eapply holds_same; [..|exact H2]).
    apply wp_require; intros _; by apply HQ.
Qed.

Lemma wp_CloseLocked (Q : Status + unit -> Conn -> History NetOp -> Prop) c h :
  holds c h F S -> (forall o c' h', holds c' h' F S -> fd_ c' = -1 -> session_id c' = None -> Q o c' h') ->
  wp CloseLocked Q c h.
Proof.
  intros H HQ. unfold CloseLocked. apply wp_bind, wp_close_session; [done|]. intros c1 h1 H1 Hs1. by apply wp_close_socket.
Qed.

Lemma wp_close_on_failure {A} (m : M NetOp Conn A) (Q : Status + A -> Conn -> History NetOp -> Prop) c h :
  wp m (fun o c' h' => match o with inr x => Q (inr x) c' h' | inl _ => holds c' h' F S end) c h ->
  (forall e c' h', holds c' h' F S -> fd_ c' = -1 -> Q (inl e) c' h') -> wp (close_on_failure m) Q c h.
Proof.
  intros Hm HQ. apply wp_on_fail. eapply wp_mono; [exact Hm|]. intros [e|x] c1 h1 H1; [|done].
  apply wp_CloseLocked; [done|]. intros. by apply HQ.
Qed.

(** ** Handshakes *)
Lemma wp_CreateSession (Q : Status + unit -> Conn -> History NetOp -> Prop) server c h :
  holds c h F S -> session_id c = None ->
  (forall o c' h', holds c' h' F S -> match o with inr _ => is_Some (session_id c') /\ fd_ c' = fd_ c | inl _ => c' = c end ->
     Q o c' h') ->
  wp (CreateSession (fd_ c) server) Q c h.
Proof.
  intros H Hs HQ. unfold CreateSession. apply wp_bind, wp_require; intros Hp; [|by apply HQ].
  apply Z.leb_le in Hp. apply wp_bind, wp_call. intros [st ssl] Hr.
  pose proof (session_fresh (fd_ c) server h) as Hf.
  change (Z * Z)%type with (Status * Z)%type in Hr. rewrite <- Hr in Hf.
  apply wp_bind, wp_require; intros Hst.
  - apply Z.eqb_eq in Hst as ->. destruct (Hf eq_refl) as [H1 H2].
    apply wp_modify, HQ; [by apply holds_new_session|split; [by eexists|done]].
  - apply HQ; [|done]. apply holds_inert; [done| |].
    + split; [done|]. intros s. cbn [ssl_step]. by rewrite Hst.
    + split; [|done]. intros _. by apply (holds_fd_open c h F S).
Qed.

Lemma wp_DoHandshake_holds (Q : Status + unit -> Conn -> History NetOp -> Prop) server ms c h :
  holds c h F S -> is_Some (session_id c) ->
  (forall o c' h', holds c' h' F S -> is_Some (session_id c') -> Q o c' h') -> wp (DoHandshake server ms) Q c h.
Proof.
  intros H Hs HQ. eapply wp_DoHandshake; [apply ran_refl|done|apply clock_from_start|].
  intros o c' h' R Hs'. apply HQ; [|done]. by eapply holds_ran.
Qed.

Lemma wp_Handshake (Q : Status + unit -> Conn -> History NetOp -> Prop) server ms c h :
  holds c h F S -> session_id c = None -> (forall o c' h', holds c' h' F S -> Q o c' h') ->
  wp (Handshake server ms) Q c h.
Proof.
  intros H Hs HQ. unfold Handshake. apply wp_bind, wp_get. destruct (tls_enabled_ c); cbn [negb]; [|apply wp_ret; by apply HQ].
  apply wp_bind, wp_on_none; [done|done|done|]. intros ctx h1 H1.
  apply wp_bind, wp_require; intros _; [|by apply HQ].
  apply wp_bind, wp_CreateSession; [done|done|]. intros [e|[]] c2 h2 H2 Ho; [by apply HQ|].
  apply wp_on_fail, wp_DoHandshake_holds; [done|apply Ho|]. intros [e|[]] c3 h3 H3 Hs3; [|by apply HQ].
  apply wp_bind, wp_session; [done|]. intros s Hs4. apply wp_bind, wp_modify.
  replace (tls_session_ c) with (@None TlsSession) by (unfold session_id in Hs; by destruct (tls_session_ c)).
  destruct (h_wf _ _ _ _ H3 _ (has_session_id _ _ Hs4)) as (Hnn & _). cbn [fst] in Hnn.
  unfold TlsSession_delete, is_null. rewrite (proj2 (Z.eqb_neq _ _) Hnn). apply wp_call. intros [] _.
  apply HQ. by apply holds_free_session.
Qed.

Lemma wp_HandshakeServer (Q : Status + unit -> Conn -> History NetOp -> Prop) c h :
  holds c h F S -> (forall o c' h', holds c' h' F S -> Q o c' h') -> wp CtrlMsgPlugin_HandshakeServer Q c h.
Proof.
  intros H HQ. unfold CtrlMsgPlugin_HandshakeServer. apply wp_bind, wp_get.
  apply wp_bind, wp_require; intros _; [|by apply HQ].
  apply wp_bind, wp_require; intros Hn; [|by apply HQ].
  apply wp_close_on_failure; [|intros; by apply HQ]. apply wp_Handshake; [done| |].
  - unfold session_id. by destruct (tls_session_ c).
  - intros [e|[]] c' h' H'; [done|by apply HQ].
Qed.

Lemma wp_HandshakeServerStep (Q : Status + TlsHandshakeState -> Conn -> History NetOp -> Prop) c h :
  holds c h F S ->
  (forall o c' h', holds c' h' F S -> fd_ c' = fd_ c \/ (exists e, o = inl e) /\ fd_ c' = -1 -> Q o c' h') ->
  wp CtrlMsgPlugin_HandshakeServerStep Q c h.
Proof.
  intros H HQ. unfold CtrlMsgPlugin_HandshakeServerStep. apply wp_bind, wp_get.
  apply wp_bind, wp_require; intros _; [|apply HQ; [done|by left]].
  destruct (tls_enabled_ c); cbn [negb]; [|apply wp_ret, HQ; [done|by left]].
  assert (Hstep : forall c1 h1, holds c1 h1 F S -> is_Some (session_id c1) -> fd_ c1 = fd_ c ->
            wp (close_on_failure (HandshakeStep true)) Q c1 h1).
  { intros c1 h1 H1 Hs1 E1. apply wp_close_on_failure; [|intros e c2 h2 H2 E2; apply HQ; [done|right; split; [by exists e|done]]].
    eapply wp_HandshakeStep; [apply ran_refl|done|..].
    - intros e c2 h2 R _. by eapply holds_ran.
    - intros c2 h2 R _. apply HQ; [by eapply holds_ran|left]. destruct R as [[-> _] _]. done.
    - intros st c2 T op r _ R _. apply HQ; [by eapply holds_ran|left]. destruct R as [[-> _] _]. done. }
  apply wp_bind. destruct (tls_session_ c) as [s|] eqn:Hs.
  - apply wp_ret. apply Hstep; [done| |done]. rewrite (has_session_id _ _ Hs). by eexists.
  - apply wp_CreateSession; [done| |].
    + unfold session_id. by rewrite Hs.
    + intros [e|[]] c1 h1 H1 Ho; [apply HQ; [done|left; by rewrite Ho]|destruct Ho; by apply Hstep].
Qed.

(** ** Connecting, listening, accepting *)
Lemma wp_NetSocket (Q : Status + Z -> Conn -> History NetOp -> Prop) addr c h F' :
  holds c h F' S ->
  (forall r h', holds c h' ({[r]} ∪ F') S -> 0 <= r -> r ∉ F' -> Q (inr r) c h') ->
  (forall h', holds c h' F' S -> Q (inr (-1)) c h') ->
  wp (call (NetSocket addr)) Q c h.
Proof.
  intros H HQ1 HQ2. apply wp_call. intros r Hr. pose proof (socket_fresh addr h) as Hf. cbv zeta in Hf.
  rewrite <- Hr in Hf. destruct Hf as [->|[Hp Hf]].
  - by apply HQ2, holds_inert.
  - destruct (holds_opened c h F' S r (Ev (NetSocket addr) r)) as [H1 H2]; [done|done| |done|done|by apply HQ1].
    cbn [fd_step]. by rewrite (proj2 (Z.leb_le _ _)).
Qed.

Lemma wp_DoConnect (Q : Status + unit -> Conn -> History NetOp -> Prop) addr timeout c h :
  holds c h F S -> fd_ c < 0 ->
  (forall o c' h', holds c' h' F S -> session_id c' = None -> match o with inl _ => fd_ c' < 0 | inr _ => True end -> Q o c' h') ->
  wp (DoConnect addr timeout) Q c h.
Proof.
  intros H Hn HQ. pose proof (holds_no_session _ _ _ _ H Hn) as Hs. unfold DoConnect.
  apply wp_bind, wp_NetSocket with (F' := F); [done| |].
  - intros fd h1 H1 Hp Hf. apply wp_bind, wp_modify. apply holds_take in H1; [|done..].
    apply wp_bind, wp_require; intros Hne; [|lia].
    assert (Hh : held (set_fd fd c) fd) by (intros _; by left).
    assert (Hfail : forall e h2, holds (set_fd fd c) h2 F S ->
      wp (let* _ := call (NetClose fd) in modify (set_fd (-1))) (fun _ c' h' => Q (inl e) c' h') (set_fd fd c) h2).
    { intros e h2 H2. apply wp_bind, wp_call. intros rc _. apply wp_modify.
      destruct (holds_give _ _ _ _ H2 Hp Hs) as [H3 _]. cbn [fd_ set_fd] in H3. apply HQ; [|done|done].
      by apply holds_closed. }
    apply wp_on_fail. do 4 (apply wp_bind; eapply wp_set_opt; [eassumption|done|]; clear dependent h1;
      intros [e|[]] h1 H1; [by apply Hfail|]).
    apply wp_bind. apply (wp_on_fd _ fd); [done|done|done|done|]. intros rc h2 H2.
    apply wp_require; intros _; [|by apply Hfail]. by apply HQ.
  - intros h1 H1. apply wp_bind, wp_modify, wp_bind, wp_require; intros Hne; [done|].
    assert (H2 : holds (set_fd (-1) c) h1 F S).
    { destruct H1 as [A1 A2 A3 A4 A5 A6]. rewrite (fds_none c Hn) in A2, A3. constructor; try done.
      intros x Hx. change (session_id c = Some x) in Hx. congruence. }
    by apply HQ.
Qed.

Lemma wp_connect_any (Q : Status + Status -> Conn -> History NetOp -> Prop) addrs timeout start last c h :
  holds c h F S -> fd_ c < 0 -> (forall o c' h', holds c' h' F S -> session_id c' = None -> Q o c' h') ->
  wp (connect_any addrs timeout start last) Q c h.
Proof.
  revert last c h. induction addrs as [|addr addrs IH]; intros last c h H Hn HQ; cbn [connect_any].
  { apply wp_ret, HQ; [done|]. by eapply holds_no_session. }
  apply wp_bind, wp_attempt, wp_DoConnect; [done|done|]. intros [e|[]] c1 h1 H1 Hs1 Hn1; [|apply wp_ret; by apply HQ].
  apply wp_bind, wp_on_none; [done|done|done|]. intros now h2 H2.
  apply wp_bind, wp_require; intros _; [by apply IH|by apply HQ].
Qed.

Lemma wp_GetAiFamily (Q : Status + Z -> Conn -> History NetOp -> Prop) ip c h :
  holds c h F S -> (forall o h', holds c h' F S -> Q o c h') -> wp (GetAiFamily ip) Q c h.
Proof.
  intros H HQ. unfold GetAiFamily. apply wp_bind, wp_on_none; [done|done|done|]. intros r4 h1 H1.
  destruct (r4 =? 1); [apply wp_ret; by apply HQ|].
  apply wp_bind, wp_on_none; [done|done|done|]. intros r6 h2 H2.
  destruct (r6 =? 1); [apply wp_ret|apply wp_fail]; by apply HQ.
Qed.

Lemma wp_Connect (Q : Status + unit -> Conn -> History NetOp -> Prop) ip port timeout c h :
  holds c h F S -> (forall o c' h', holds c' h' F S -> Q o c' h') -> wp (CtrlMsgPlugin_Connect ip port timeout) Q c h.
Proof.
  intros H HQ. unfold CtrlMsgPlugin_Connect. apply wp_bind, wp_get.
  apply wp_bind, wp_require; intros _; [|by apply HQ].
  apply wp_bind, wp_require; intros Hn; [|by apply HQ]. apply Z.ltb_lt in Hn.
  apply wp_close_on_failure; [|intros; by apply HQ].
  apply wp_mono with (P := fun _ c' h' => holds c' h' F S); [|intros [e|[]] c' h' H'; [done|by apply HQ]].
  unfold ConnectSocket. apply wp_bind, wp_on_none; [done|done|done|]. intros start h1 H1.
  apply wp_bind, wp_GetAiFamily; [done|]. intros [e|fam] h2 H2; [done|].
  apply wp_bind, wp_on_none; [done|done|done|]. intros [rc result] h3 H3.
  apply wp_bind, wp_require; intros _; [|done].
  assert (Hfree : forall c' h', holds c' h' F S -> wp (call NetFreeaddrinfo) (fun _ c'' h'' => holds c'' h'' F S) c' h').
  { intros c' h' H'. by apply wp_on_none. }
  apply wp_finally, wp_bind, wp_connect_any; [done|done|]. intros [e|st] c4 h4 H4 Hs4; [by apply Hfree|].
  apply wp_bind, wp_require; intros _; [|by apply Hfree].
  apply wp_Handshake; [done|done|]. intros o c5 h5 H5. by apply Hfree.
Qed.

End Ownership.

(** Calls that hold a descriptor of their own while they run. *)
Section Transit.
Context {env : Environment NetOp} {Hnet : NetLaws env}.
Implicit Types (c : Conn) (h : History NetOp) (F S : gset Z).

Lemma held_own F c fd : held ({[fd]} ∪ F) c fd.
Proof. intros _. right. by apply elem_of_union_l, elem_of_singleton_2. Qed.

(** The guard that closes it. *)
Lemma wp_guard_close {A} (m : M NetOp Conn A) (Q : Status + A -> Conn -> History NetOp -> Prop) fd c h F S :
  fd ∉ F ->
  wp m (fun o c' h' => match o with
                       | inr x => Q (inr x) c' h'
                       | inl e => holds c' h' ({[fd]} ∪ F) S /\ forall h'', holds c' h'' F S -> Q (inl e) c' h''
                       end) c h ->
  wp (on_fail m (let* _ := call (NetClose fd) in ret tt)) Q c h.
Proof.
  intros Hf Hm. apply wp_on_fail. eapply wp_mono; [exact Hm|]. intros [e|x] c1 h1 H1; [|done].
  destruct H1 as [H1 HQ]. apply wp_bind, wp_call. intros rc _. apply wp_ret, HQ. by apply holds_closed.
Qed.

Lemma wp_Listen (Q : Status + unit -> Conn -> History NetOp -> Prop) ip port backlog c h F S :
  holds c h F S -> (forall o c' h', holds c' h' F S -> Q o c' h') -> wp (CtrlMsgPlugin_Listen ip port backlog) Q c h.
Proof.
  intros H HQ. unfold CtrlMsgPlugin_Listen. apply wp_bind, wp_get.
  apply wp_bind, wp_require; intros _; [|by apply HQ].
  apply wp_bind, wp_require; intros Hn; [|by apply HQ]. apply Z.ltb_lt in Hn.
  apply (wp_close_on_failure F S); [|intros; by apply HQ].
  apply wp_mono with (P := fun _ c' h' => holds c' h' F S); [|intros [e|[]] c' h' H'; [done|by apply HQ]].
  unfold ListenSocket. apply wp_bind, (wp_GetAiFamily F S); [done|]. intros [e|fam] h1 H1; [done|].
  apply wp_bind, wp_NetSocket with (F' := F) (S := S); [done| |].
  2:{ intros h2 H2. apply wp_bind, wp_require; intros ?; [done|done]. }
  intros fd h2 H2 Hp Hf. apply wp_bind, wp_require; intros Hpos; [|lia].
  apply wp_bind. apply wp_guard_close with (F := F) (S := S); [done|].
  pose proof (held_own F c fd) as Hh.
  apply wp_bind. apply wp_mono with (P := fun o c' h' => c' = c /\ o = inr tt /\ holds c h' ({[fd]} ∪ F) S).
  { destruct (fam =? AF_INET6); [|by apply wp_ret].
    apply wp_bind, (wp_on_fd ({[fd]} ∪ F) S _ fd); [done|done|done|done|]. intros r h3 H3. by apply wp_ret. }
  intros o c' h3 (-> & -> & H3).
  do 2 (apply wp_bind; eapply wp_set_opt; [eassumption|done|]; clear dependent h3; intros [e|[]] h3 H3; [done|]).
  apply wp_bind, (wp_on_fd ({[fd]} ∪ F) S _ fd); [done|done|done|done|]. intros rc h4 H4.
  apply wp_bind, wp_require; intros _; [|done].
  apply wp_bind, (wp_on_fd ({[fd]} ∪ F) S _ fd); [done|done|done|done|]. intros rc2 h5 H5.
  apply wp_require; intros _; [|done]. apply wp_modify. by apply holds_take.
Qed.

(** An accepted connection holds the new descriptor, and no session. *)
Lemma wp_Accept (Q : Status + option Conn -> Conn -> History NetOp -> Prop) c h F S :
  holds c h F S ->
  (forall e h', holds c h' F S -> Q (inl e) c h') ->
  (forall h', holds c h' F S -> Q (inr None) c h') ->
  (forall c2 h', 0 <= fd_ c2 -> tls_session_ c2 = None -> fd_ c2 ∉ F -> holds c h' ({[fd_ c2]} ∪ F) S ->
     Q (inr (Some c2)) c h') ->
  wp CtrlMsgPlugin_Accept Q c h.
Proof.
  intros H HQe HQn HQ. unfold CtrlMsgPlugin_Accept. apply wp_bind, wp_get.
  apply wp_bind, wp_require; intros Hp; [|by apply HQe]. apply Z.leb_le in Hp.
  pose proof (holds_fd_open c h F S _ H eq_refl Hp) as Ho.
  apply wp_bind, wp_call. intros [fd err] Hr.
  assert (Hop : on_open (Ev (NetAccept (fd_ c)) (fd, err)) h) by (split; [intros _; exact Ho|done]). pose proof (accept_fresh (fd_ c) h) as Hf. cbv zeta in Hf.
  rewrite <- Hr in Hf. cbn [fst] in Hf. destruct (Z.ltb_spec fd 0) as [Hn|Hfd].
  - assert (H1 : holds c (Ev (NetAccept (fd_ c)) (fd, err) :: h) F S).
    { apply holds_inert; [done| |done]. split; [|done]. intros s. cbn [fd_step]. by rewrite (proj2 (Z.leb_gt _ _)). }
    apply wp_bind, wp_require; intros _; [apply wp_ret; by apply HQn|by apply HQe].
  - destruct Hf as [|Hnew]; [lia|].
    destruct (holds_opened c h F S fd (Ev (NetAccept (fd_ c)) (fd, err))) as [H1 Hnf]; [done|done| |done|done|].
    { cbn [fd_step]. by rewrite (proj2 (Z.leb_le _ _)). }
    apply wp_guard_close with (F := F) (S := S); [done|].
    assert (Herr : forall e h', holds c h' ({[fd]} ∪ F) S ->
              holds c h' ({[fd]} ∪ F) S /\ forall h'', holds c h'' F S -> Q (inl e) c h'').
    { intros e h' H'. split; [done|]. intros. by apply HQe. }
    apply wp_bind, (wp_on_none ({[fd]} ∪ F) S); [done|done|done|]. intros made h2 H2.
    apply wp_bind, wp_require; intros _; [|by apply Herr].
    eapply wp_zoom; [done|]. unfold CtrlMsgPlugin_Initialize.
    apply wp_bind, wp_bind, wp_get, wp_bind, wp_require; intros _; [|by apply Herr].
    apply wp_bind, wp_call. intros [st enabled] _.
    assert (H3 : holds c (Ev TlsGetEnabled (st, enabled) :: h2) ({[fd]} ∪ F) S) by (by apply holds_inert).
    apply wp_bind. destruct (st =? SUCCESS).
    + apply wp_modify, wp_modify, wp_bind, wp_modify, wp_bind, wp_get, wp_ret. by apply HQ.
    + apply wp_bind, wp_modify, wp_fail. by apply Herr.
Qed.
End Transit.

(** * Calls *)
Inductive ConnCall :=
| CInitialize | CConnect (ip : string) (port timeout : Z) | CListen (ip : string) (port backlog : Z) | CAccept
| CHandshakeServer | CHandshakeServerStep | CSend (buf : list Z) (timeout_ms : Z) | CRecv (len timeout_ms : Z)
| CRecvOnce (len : N) | CHasPending | CInvalidateTlsSession | CShutdownSocket | CClose | CSetTcpNoDelay
| CSetTcpKeepAlive | CSetSendTimeout (timeout_ms : Z).

Section World.
Context {env : Environment NetOp}.

(** The caller goes on whatever the status is. *)
Definition status_only {A} (m : M NetOp Conn A) : M NetOp Conn (option Conn) := let* _ := attempt m in ret None.

Definition run_call (k : ConnCall) : M NetOp Conn (option Conn) :=
  match k with
  | CInitialize => status_only CtrlMsgPlugin_Initialize
  | CConnect ip port timeout => status_only (CtrlMsgPlugin_Connect ip port timeout)
  | CListen ip port backlog => status_only (CtrlMsgPlugin_Listen ip port backlog)
  | CAccept => let* r := attempt CtrlMsgPlugin_Accept in ret (match r with inr c => c | inl _ => None end)
  | CHandshakeServer => status_only CtrlMsgPlugin_HandshakeServer
  | CHandshakeServerStep => status_only CtrlMsgPlugin_HandshakeServerStep
  | CSend buf timeout_ms => status_only (CtrlMsgPlugin_Send buf timeout_ms)
  | CRecv len timeout_ms => status_only (CtrlMsgPlugin_Recv len timeout_ms)
  | CRecvOnce len => status_only (CtrlMsgPlugin_RecvOnce (Z.of_N len))
  | CHasPending => status_only CtrlMsgPlugin_HasPending
  | CInvalidateTlsSession => status_only InvalidateTlsSession
  | CShutdownSocket => status_only CtrlMsgPlugin_ShutdownSocket
  | CClose => status_only CtrlMsgPlugin_Close
  | CSetTcpNoDelay => status_only CtrlMsgPlugin_SetTcpNoDelay
  | CSetTcpKeepAlive => status_only CtrlMsgPlugin_SetTcpKeepAlive
  | CSetSendTimeout timeout_ms => status_only (CtrlMsgPlugin_SetSendTimeout timeout_ms)
  end.

(** The program makes connections, calls them, and destroys them. *)
Inductive WorldStep := WNew | WCall (i : nat) (k : ConnCall) | WDestroy (i : nat).

Definition world_step (w : WorldStep) : M NetOp (list Conn) unit :=
  let* W := get in
  match w with
  | WNew => modify (fun W => W ++ [Conn_new])
  | WCall i k =>
      if bool_decide (is_Some (W !! i)) then
        let* accepted := zoom (fun W : list Conn => W !! i) (fun c => <[i := c]>) (fun _ => run_call k) in
        modify (fun W => W ++ option_list accepted)
      else ret tt
  | WDestroy i =>
      if bool_decide (is_Some (W !! i)) then
        zoom (fun W : list Conn => W !! i) (fun c => <[i := c]>) (fun _ => CtrlMsgPlugin_delete) ;; modify (delete i)
      else ret tt
  end.
End World.

(** The connections [W] own what is open. *)
Definition fd_set (W : list Conn) : gset Z := list_to_set (omap conn_fd W).
Definition ssl_set (W : list Conn) : gset Z := list_to_set (omap conn_ssl W).
Definition apart (W : list Conn) : Prop :=
  Forall conn_wf W /\ NoDup (omap conn_fd W) /\ NoDup (omap conn_ssl W).
Definition owned (W : list Conn) (h : History NetOp) : Prop :=
  apart W /\ open_fds h = fd_set W /\ open_ssls h = ssl_set W /\ disciplined h.

Lemma fd_set_cons c W : fd_set (c :: W) = fds c ∪ fd_set W.
Proof. unfold fd_set, fds. cbn [omap list_omap]. destruct (conn_fd c); [done|]. by rewrite (left_id_L ∅ (∪)). Qed.
Lemma ssl_set_cons c W : ssl_set (c :: W) = ssls c ∪ ssl_set W.
Proof. unfold ssl_set, ssls. cbn [omap list_omap]. destruct (conn_ssl c); [done|]. by rewrite (left_id_L ∅ (∪)). Qed.

Lemma apart_cons c W : apart (c :: W) <-> conn_wf c /\ fds c ## fd_set W /\ ssls c ## ssl_set W /\ apart W.
Proof.
  unfold apart, fds, ssls, fd_set, ssl_set. cbn [omap list_omap]. rewrite Forall_cons.
  assert (Hd : forall (x : option Z) (l : list Z), NoDup (match x with Some y => y :: l | None => l end) <->
            (match x with Some y => {[y]} | None => ∅ end : gset Z) ## list_to_set l /\ NoDup l).
  { intros [y|] l; [|set_solver]. rewrite NoDup_cons, disjoint_singleton_l, elem_of_list_to_set. done. }
  rewrite !Hd. tauto.
Qed.

Lemma owned_cons c W h : owned (c :: W) h <-> apart W /\ holds c h (fd_set W) (ssl_set W).
Proof.
  unfold owned. rewrite apart_cons, fd_set_cons, ssl_set_cons. split.
  - intros ((H1 & H2 & H3 & H4) & H5 & H6 & H7). by split.
  - intros (H1 & [H2 H3 H4 H5 H6 H7]). by split_and!.
Qed.

#[export] Instance owned_perm : Proper ((≡ₚ) ==> eq ==> iff) owned.
Proof.
  assert (Himp : forall W W' h, W ≡ₚ W' -> owned W h -> owned W' h).
  { intros W W' h E. unfold owned, apart, fd_set, ssl_set.
    rewrite !(omap_Permutation _ _ _ E). by rewrite E. }
  intros W W' E h _ <-. split; apply Himp; [done|by symmetry].
Qed.

Section Calls.
Context {env : Environment NetOp} {Hnet : NetLaws env}.
Variables F S : gset Z.
Implicit Types (c : Conn) (h : History NetOp).

Definition still {A} (o : Status + A) (c : Conn) (h : History NetOp) : Prop := holds c h F S.

Lemma wp_Initialize c h : holds c h F S -> wp CtrlMsgPlugin_Initialize (fun _ c' h' => holds c' h' F S /\ fd_ c' = fd_ c) c h.
Proof.
  intros H. unfold CtrlMsgPlugin_Initialize. apply wp_bind, wp_get, wp_bind, wp_require; intros _; [|done].
  apply wp_bind, (wp_on_none F S); [done|done|done|]. intros [st enabled] h1 H1. apply wp_bind.
  destruct (st =? SUCCESS); [apply wp_modify, wp_modify|apply wp_bind, wp_modify, wp_fail]; by split; [apply (holds_same c)|].
Qed.

Lemma wp_ran_still {A} (m : M NetOp Conn A) c h :
  (forall Q : Status + A -> Conn -> History NetOp -> Prop,
     (forall o c' h' a b, ran c h c' h' a b -> Q o c' h') -> wp m Q c h) ->
  holds c h F S -> wp m still c h.
Proof. intros Hm H. apply Hm. intros o c' h' a b R. by eapply holds_ran. Qed.

Lemma wp_HasPending_ran (Q : Status + bool -> Conn -> History NetOp -> Prop) c h :
  (forall o c' h' a b, ran c h c' h' a b -> Q o c' h') -> wp CtrlMsgPlugin_HasPending Q c h.
Proof.
  intros HQ. unfold CtrlMsgPlugin_HasPending. apply wp_bind, wp_get.
  destruct (fd_ c <? 0); [apply wp_ret; eapply HQ, ran_refl|].
  destruct (tls_session_ c) as [s|] eqn:Hs; [|apply wp_ret; eapply HQ, ran_refl].
  unfold TlsSession_HasPending. apply wp_bind, wp_session; [rewrite (has_session_id _ _ Hs); by eexists|].
  intros s' Hs'. destruct (_ && _); [|apply wp_ret; eapply HQ, ran_refl].
  apply wp_bind, wp_call. intros n _. apply wp_ret. eapply HQ, ran_quiet_event; [apply ran_refl| |done|done].
  split; [done|split; [done|]]. intros x [= <-]. by rewrite (has_session_id _ _ Hs').
Qed.

Lemma wp_HasPending c h : holds c h F S -> wp CtrlMsgPlugin_HasPending still c h.
Proof. apply wp_ran_still. intros Q. apply wp_HasPending_ran. Qed.

Lemma wp_InvalidateTlsSession c h : holds c h F S -> wp InvalidateTlsSession still c h.
Proof.
  apply wp_ran_still. intros Q HQ. unfold InvalidateTlsSession. apply wp_bind, wp_get.
  destruct (tls_session_ c) as [s|] eqn:Hs; [|apply wp_ret; eapply HQ, ran_refl].
  apply wp_bind, wp_session_update; [rewrite (has_session_id _ _ Hs); by eexists|done|]. intros s' _ K.
  eapply wp_ShutdownSocketLocked; [|intros o h'; apply HQ]. eapply ran_keeps; [apply ran_refl|done].
Qed.

Lemma held_self c : held F c (fd_ c).
Proof. intros _. by left. Qed.

Lemma wp_SetTcpKeepAlive c h (Q : Status + unit -> Conn -> History NetOp -> Prop) :
  holds c h F S -> (forall o h', holds c h' F S -> Q o c h') -> wp CtrlMsgPlugin_SetTcpKeepAlive Q c h.
Proof.
  intros H HQ. unfold CtrlMsgPlugin_SetTcpKeepAlive. apply wp_bind, wp_get. pose proof (held_self c) as Hh.
  do 3 (apply wp_bind; apply (wp_set_opt F S); [done|done|]; clear dependent h; intros [e|[]] h H; [by apply HQ|]).
  by apply (wp_set_opt F S).
Qed.

Lemma wp_checked_opt c h opt (Q : Status + unit -> Conn -> History NetOp -> Prop) :
  holds c h F S -> (forall o h', holds c h' F S -> Q o c h') ->
  wp (let* c := get in require (0 <=? fd_ c) FAILED ;; set_opt (fd_ c) opt) Q c h.
Proof.
  intros H HQ. apply wp_bind, wp_get, wp_bind, wp_require; intros _; [|by apply HQ].
  apply (wp_set_opt F S); [done|apply held_self|done].
Qed.

(** A call leaves the connection holding what it holds; only [Accept] adds to it. *)
Definition call_ok (o : Status + option Conn) (c : Conn) (h : History NetOp) : Prop :=
  match o with
  | inr None => holds c h F S
  | inr (Some c2) => 0 <= fd_ c2 /\ tls_session_ c2 = None /\ fd_ c2 ∉ F /\ holds c h ({[fd_ c2]} ∪ F) S
  | inl _ => False
  end.

Lemma wp_status_only {A} (m : M NetOp Conn A) c h : wp m still c h -> wp (status_only m) call_ok c h.
Proof. intros Hm. apply wp_bind, wp_attempt. eapply wp_mono; [exact Hm|]. intros o c' h' H. by apply wp_ret. Qed.

Lemma wp_run_call k c h : holds c h F S -> wp (run_call k) call_ok c h.
Proof.
  intros H. destruct k; cbn [run_call]; try apply wp_status_only.
  - eapply wp_mono; [by apply wp_Initialize|]. by intros o c' h' [? _].
  - by apply (wp_Connect F S).
  - by apply (wp_Listen _ _ _ _ c h F S).
  - apply wp_bind, wp_attempt. apply (wp_Accept _ c h F S); [done|intros; by apply wp_ret..|].
    intros c2 h' H1 H2 H3 H4. by apply wp_ret.
  - by apply (wp_HandshakeServer F S).
  - apply (wp_HandshakeServerStep F S); [done|]. by intros o c' h' H' _.
  - apply wp_ran_still; [|done]. intros Q HQ. apply wp_Send. intros o c' h' done rest R _ _. by eapply HQ.
  - apply wp_ran_still; [|done]. intros Q HQ. apply wp_Recv. intros o c' h' got R _. by eapply HQ.
  - apply wp_ran_still; [|done]. intros Q HQ. eapply wp_CtrlMsgPlugin_RecvOnce; [apply ran_refl|lia|].
    intros [e|[bs|e]] c' h' R; cbn [once_ok] in R; [by eapply HQ|destruct R as [R _]; by eapply HQ|by eapply HQ].
  - by apply wp_HasPending.
  - by apply wp_InvalidateTlsSession.
  - apply wp_ran_still; [|done]. intros Q HQ. eapply wp_ShutdownSocketLocked; [apply ran_refl|]. intros. by eapply HQ.
  - by apply (wp_CloseLocked F S).
  - by apply wp_checked_opt.
  - by apply wp_SetTcpKeepAlive.
  - by apply wp_checked_opt.
Qed.

Lemma wp_delete c h :
  holds c h F S -> wp CtrlMsgPlugin_delete (fun o c' h' => o = inr tt /\ holds c' h' F S /\ fd_ c' = -1 /\ session_id c' = None) c h.
Proof.
  intros H. apply wp_bind, wp_attempt, (wp_CloseLocked F S); [done|]. intros o c' h' H' H1 H2. by apply wp_ret.
Qed.
End Calls.

(** ** The theorem *)
Section Owned.
Context {env : Environment NetOp} {Hnet : NetLaws env}.

Lemma delete_insert_same {A} (l : list A) i x : delete i (<[i:=x]> l) = delete i l.
Proof.
  revert i. induction l as [|y l IH]; intros [|i]; try done.
  change (y :: delete i (<[i:=x]> l) = y :: delete i l). by rewrite IH.
Qed.

(** The connection at [i] and the others. *)
Lemma insert_Permutation_delete {A} (l : list A) i x y : l !! i = Some x -> <[i:=y]> l ≡ₚ y :: delete i l.
Proof.
  intros Hi. assert (Hi' : <[i:=y]> l !! i = Some y) by (apply list_lookup_insert_eq; by eapply lookup_lt_Some).
  rewrite (delete_Permutation _ i y Hi'). by rewrite delete_insert_same.
Qed.

(** An object without a descriptor. *)
Lemma owned_new_conn W h : owned W h -> owned (W ++ [Conn_new]) h.
Proof.
  intros (H1 & H2 & H3 & H4). rewrite (comm (++)). cbn [app]. apply owned_cons. split; [done|]. constructor; try done.
  - by rewrite H2, fds_none, (left_id_L ∅ (∪)).
  - by rewrite H3, ssls_none, (left_id_L ∅ (∪)).
Qed.

Lemma wp_world_step w W h : owned W h -> wp (world_step w) (fun o W' h' => o = inr tt /\ owned W' h') W h.
Proof.
  intros HW. unfold world_step. apply wp_bind, wp_get.
  assert (Hat : forall i c, W !! i = Some c -> apart (delete i W) /\ holds c h (fd_set (delete i W)) (ssl_set (delete i W))).
  { intros i c Hi. apply owned_cons. by rewrite <- (delete_Permutation W i c Hi). }
  destruct w as [|i k|i].
  - apply wp_modify. split; [done|]. by apply owned_new_conn.
  - case_bool_decide as Hi; [|by apply wp_ret]. destruct Hi as [c Hi]. destruct (Hat i c Hi) as [Ha Hc].
    apply wp_bind. eapply wp_zoom; [exact Hi|]. eapply wp_mono; [by apply wp_run_call|].
    intros [e|[c2|]] c' h' H'; cbn [call_ok] in H'; [done| |]; apply wp_modify; (split; [done|]);
      rewrite (insert_Permutation_delete _ _ _ c' Hi).
    + destruct H' as (Hp & Hs & Hf & H'). assert (Hid : session_id c2 = None) by (unfold session_id; by rewrite Hs).
      change (option_list (Some c2)) with [c2]. rewrite <- Permutation_cons_append, (perm_swap c' c2 (delete i W)). apply owned_cons.
      rewrite fd_set_cons, ssl_set_cons, fds_fd, ssls_none, (left_id_L ∅ (∪)) by done. split; [|done].
      apply apart_cons. rewrite fds_fd, ssls_none by done. split_and!; [|by apply disjoint_singleton_l|by apply disjoint_empty_l|done].
      intros x Hx. congruence.
    + change (option_list None) with (@nil Conn). rewrite app_nil_r. by apply owned_cons.
  - case_bool_decide as Hi; [|by apply wp_ret]. destruct Hi as [c Hi]. destruct (Hat i c Hi) as [Ha Hc].
    apply wp_bind. eapply wp_zoom; [exact Hi|]. eapply wp_mono; [by apply wp_delete|].
    intros o c' h' (-> & [A1 A2 A3 A4 A5 A6] & H1 & H2). apply wp_modify. split; [done|]. rewrite delete_insert_same.
    rewrite fds_none, (left_id_L ∅ (∪)) in A2 by lia. rewrite ssls_none, (left_id_L ∅ (∪)) in A4 by done. by split_and!.
Qed.

(** C5: Whatever calls the program makes on its control connections -- connect, listen,
    accept, handshake, send, receive, close, in any order and whatever fails -- each
    open descriptor and each TLS session belongs to exactly one live connection, a
    session sits on the open descriptor of its connection, nothing is used that is not
    open, and every call ends.  Destroyed connections leave nothing open. *)
Theorem descriptors_owned (ws : list WorldStep) :
  wp (for_each ws world_step) (fun o W h =>
    o = inr tt /\
    open_fds h = list_to_set (omap conn_fd W) /\ NoDup (omap conn_fd W) /\
    open_ssls h = list_to_set (omap conn_ssl W) /\ NoDup (omap conn_ssl W) /\
    Forall conn_wf W /\ disciplined h) [] [].
Proof.
  eapply wp_mono.
  - apply wp_for_each with (I := owned) (X := fun _ _ _ => False).
    + split; [|done]. split_and!; constructor.
    + intros w W h _ HW. eapply wp_mono; [by apply wp_world_step|]. intros o W' h' [-> H]. done.
  - intros [e|[]] W h H; [done|]. destruct H as ((H1 & H2 & H3) & H4 & H5 & H6). by split_and!.
Qed.
End Owned.

(** A listener accepts a connection over TLS, which is closed after a handshake. *)
Definition sample_steps : list WorldStep :=
  [WNew; WCall 0 CInitialize; WCall 0 (CListen "127.0.0.1" 80 8); WCall 0 CAccept; WCall 1 CHandshakeServer;
   WNew; WCall 2 CInitialize; WCall 2 (CConnect "127.0.0.1" 80 1000); WDestroy 1].

Lemma sample_steps_run :
  let env := net_ref true false [] in
  let '(o, W, h) := for_each sample_steps world_step [] [] in
  o = Ret tt /\ omap conn_fd W = [1; 3] /\ omap conn_ssl W = [2].
Proof. vm_compute. split_and!; reflexivity. Qed.

Lemma descriptors_owned_witness :
  let env := net_ref true false [] in
  let '(o, W, h) := for_each sample_steps world_step [] [] in
  o = Ret tt /\ open_fds h = list_to_set [1; 3] /\ open_ssls h = list_to_set [2] /\ disciplined h.
Proof.
  pose proof (@descriptors_owned (net_ref true false []) (net_ref_laws true false [] (List.Forall_nil _)) sample_steps) as H.
  pose proof sample_steps_run as E. cbv zeta in *. unfold wp in H. revert H E.
  destruct (@for_each _ _ _ sample_steps (@world_step (net_ref true false [])) [] []) as [[o W] h].
  intros H (-> & E1 & E2). destruct H as (_ & H1 & _ & H2 & _ & _ & H3). rewrite E1 in H1. rewrite E2 in H2.
  by split_and!.
Defined.
