(* ===== verification/MsgReceiver.v ===== *)
(** Reception of control messages: hixl/cs/msg_receiver.cc, the framing of a byte
    stream that arrives in pieces of any size. *)

From S2P Require Import Prelude Effects External Wire Net CtrlConn CtrlConnSpec.

Definition kRecvChunkSizeInBytes : Z := 4096.
Definition kMaxBodySizeInBytes : Z := 4 * 1024 * 1024.
Definition EOK : Z := 0.

Inductive RecvState := WAITING_FOR_HEADER | WAITING_FOR_BODY.
#[export] Instance RecvState_eq_dec : EqDecision RecvState.
Proof. solve_decision. Defined.

Record MsgReceiver := {
  connection_ : Conn;
  recv_state_ : RecvState;
  recv_buffer_ : list Z;
  received_size_ : Z;
  expected_size_ : Z
}.

Definition MsgReceiver_new (c : Conn) : MsgReceiver :=
  {| connection_ := c; recv_state_ := WAITING_FOR_HEADER; recv_buffer_ := [];
     received_size_ := 0; expected_size_ := 0 |}.

(** The receiver and the vector [msgs] of its caller. *)
Record Receiving := { rcv : MsgReceiver; msgs : list CtrlMsg }.

Section Receiver.
Context {env : Environment NetOp} `{Sec : Securec}.
Let R := M NetOp Receiving.

Definition set_rcv (r : MsgReceiver) (s : Receiving) : Receiving := {| rcv := r; msgs := msgs s |}.
Definition update (f : MsgReceiver -> MsgReceiver) : R unit := modify (fun s => set_rcv (f (rcv s)) s).

Definition set_connection (c : Conn) (r : MsgReceiver) : MsgReceiver :=
  {| connection_ := c; recv_state_ := recv_state_ r; recv_buffer_ := recv_buffer_ r;
     received_size_ := received_size_ r; expected_size_ := expected_size_ r |}.
Definition set_state (st : RecvState) (r : MsgReceiver) : MsgReceiver :=
  {| connection_ := connection_ r; recv_state_ := st; recv_buffer_ := recv_buffer_ r;
     received_size_ := received_size_ r; expected_size_ := expected_size_ r |}.
Definition set_buffer (b : list Z) (r : MsgReceiver) : MsgReceiver :=
  {| connection_ := connection_ r; recv_state_ := recv_state_ r; recv_buffer_ := b;
     received_size_ := received_size_ r; expected_size_ := expected_size_ r |}.
Definition set_received (n : Z) (r : MsgReceiver) : MsgReceiver :=
  {| connection_ := connection_ r; recv_state_ := recv_state_ r; recv_buffer_ := recv_buffer_ r;
     received_size_ := n; expected_size_ := expected_size_ r |}.
Definition set_expected (n : Z) (r : MsgReceiver) : MsgReceiver :=
  {| connection_ := connection_ r; recv_state_ := recv_state_ r; recv_buffer_ := recv_buffer_ r;
     received_size_ := received_size_ r; expected_size_ := n |}.

(** A call on the connection. *)
Definition on_connection {A} (m : M NetOp Conn A) : R A :=
  zoom (fun s => Some (connection_ (rcv s))) (fun c s => set_rcv (set_connection c (rcv s)) s) (fun _ => m).

(** [memmove_s] of the [received_size_ - off] bytes at [off] to the front. *)
Definition move_front (off : Z) : R unit :=
  let* s := get in
  let r := rcv s in
  let remaining := received_size_ r - off in
  let buffer_size := Z.of_nat (length (recv_buffer_ r)) in
  let '(ret_, buffer) := memmove_s (recv_buffer_ r) buffer_size (drop (Z.to_nat off) (recv_buffer_ r)) remaining in
  update (set_buffer buffer) ;;
  require (ret_ =? EOK) FAILED ;;
  update (set_received remaining).

Definition RecvHeader : R unit :=
  let* s := get in
  let header := CtrlMsgHeader_of (recv_buffer_ (rcv s)) in
  require (magic header =? kMagicNumber) PARAM_INVALID ;;
  require (Z.of_nat sizeof_CtrlMsgType <=? body_size header) PARAM_INVALID ;;
  update (set_expected (body_size header)) ;;
  require (body_size header <=? kMaxBodySizeInBytes) PARAM_INVALID ;;
  update (set_state WAITING_FOR_BODY) ;;
  if Z.of_nat sizeof_CtrlMsgHeader <? received_size_ (rcv s) then move_front (Z.of_nat sizeof_CtrlMsgHeader)
  else update (set_received 0).

(** [CheckRecv] on a result that is not positive. *)
Definition CheckRecv (r : Io) : R unit :=
  match r with
  | IoError saved_errno =>
      require ((saved_errno =? EAGAIN) || (saved_errno =? EWOULDBLOCK) || (saved_errno =? EINTR)) FAILED
  | IoBytes [] => fail FAILED
  | IoBytes _ => ret tt
  end.

(** The message at the front of the buffer. *)
Definition front_msg (r : MsgReceiver) : CtrlMsg := {|
  msg_type := CtrlMsgType_of (recv_buffer_ r);
  msg := bytes_at sizeof_CtrlMsgType (Z.to_nat (expected_size_ r) - sizeof_CtrlMsgType) (recv_buffer_ r)
|}.

(** One round of the loop: [inr] is its [break]. *)
Definition take_message : R (unit + unit) :=
  let* s := get in
  let r := rcv s in
  if received_size_ r <? expected_size_ r then ret (inr tt) else
  let* made := call NetNew in
  require made PARAM_INVALID ;;
  modify (fun s => {| rcv := rcv s; msgs := msgs s ++ [front_msg r] |}) ;;
  if expected_size_ r <? received_size_ r then
    move_front (expected_size_ r) ;;
    update (set_state WAITING_FOR_HEADER) ;;
    ret (inl tt)
  else
    update (set_received 0) ;;
    update (set_state WAITING_FOR_HEADER) ;;
    ret (inr tt).

Definition irecv_round (_ : unit) : R (unit + unit) :=
  let* s := get in
  if bool_decide (recv_state_ (rcv s) = WAITING_FOR_HEADER) then
    if received_size_ (rcv s) <? Z.of_nat sizeof_CtrlMsgHeader then ret (inr tt)
    else RecvHeader ;; take_message
  else take_message.

Definition IRecv : R unit :=
  update (fun r =>
    let n := received_size_ r + kRecvChunkSizeInBytes in
    if Z.of_nat (length (recv_buffer_ r)) <? n
    then set_buffer (recv_buffer_ r ++ replicate (Z.to_nat n - length (recv_buffer_ r)) 0) r else r) ;;
  let* s := get in
  let off := Z.to_nat (received_size_ (rcv s)) in
  let buffer_size := Z.of_nat (length (recv_buffer_ (rcv s))) - received_size_ (rcv s) in
  let* n := on_connection (CtrlMsgPlugin_RecvOnce buffer_size) in
  match n with
  | IoError _ | IoBytes [] => CheckRecv n
  | IoBytes bs =>
      update (fun r => set_buffer (take off (recv_buffer_ r) ++ bs ++ drop (off + length bs) (recv_buffer_ r)) r) ;;
      update (fun r => set_received (received_size_ r + Z.of_nat (length bs)) r) ;;
      let* s := get in
      loop (Z.to_pos (received_size_ (rcv s) + 1)) irecv_round tt
  end.

(** The event loop of the server calls [IRecv] whenever the socket is readable, until
    it fails: the status that stopped it within [n] calls. *)
Fixpoint receive_all (n : nat) : R (option Status) :=
  match n with
  | O => ret None
  | S n =>
      let* r := attempt IRecv in
      match r with inl e => ret (Some e) | inr _ => receive_all n end
  end.
End Receiver.

(** * The reference: a byte stream as messages *)
Inductive Verdict := Incomplete | BadHeader.

(** The first frame of a stream. *)
Inductive Head := NoFrame (v : Verdict) | Frame (m : CtrlMsg) (rest : list Z).

Definition header_ok (h : CtrlMsgHeader) : bool :=
  (magic h =? kMagicNumber) && (Z.of_nat sizeof_CtrlMsgType <=? body_size h) && (body_size h <=? kMaxBodySizeInBytes).

Definition first_frame (bs : list Z) : Head :=
  if (length bs <? sizeof_CtrlMsgHeader)%nat then NoFrame Incomplete else
  let h := CtrlMsgHeader_of bs in
  if negb (header_ok h) then NoFrame BadHeader else
  let body := drop sizeof_CtrlMsgHeader bs in
  let n := Z.to_nat (body_size h) in
  if (length body <? n)%nat then NoFrame Incomplete else
  Frame {| msg_type := CtrlMsgType_of body; msg := bytes_at sizeof_CtrlMsgType (n - sizeof_CtrlMsgType) body |}
        (drop n body).

Fixpoint parse_fuel (fuel : nat) (bs : list Z) : list CtrlMsg * Verdict :=
  match fuel with
  | O => ([], Incomplete)
  | S fuel =>
      match first_frame bs with
      | NoFrame v => ([], v)
      | Frame m rest => let '(ms, v) := parse_fuel fuel rest in (m :: ms, v)
      end
  end.
Definition parse (bs : list Z) : list CtrlMsg * Verdict := parse_fuel (S (length bs)) bs.

(** The messages that fit in a frame. *)
Definition msg_ok (m : CtrlMsg) : Prop :=
  is_int32 (msg_type m) /\ Forall is_byte (msg m) /\
  Z.of_nat (sizeof_CtrlMsgType + length (msg m)) <= kMaxBodySizeInBytes.

Definition stream (ms : list CtrlMsg) : list Z := concat (map frame ms).
