(* ===== verification/MsgReceiverSpec.v ===== *)
(** The receiver computes the reference parser, whatever the sizes of the pieces in
    which the stream arrives; it never reads outside its buffer, and its buffer is
    bounded. *)

From S2P Require Import Prelude Effects External Wire Net CtrlConn CtrlConnSpec MsgReceiver.

(** * The reference parser *)
Lemma first_frame_shorter bs m rest : first_frame bs = Frame m rest -> (length rest < length bs)%nat.
Proof.
  unfold first_frame. unfold sizeof_CtrlMsgHeader. destruct (Nat.ltb_spec (length bs) 12); [done|].
  destruct (header_ok _); simpl; [|done]. case_match; [done|]. intros [= _ <-]. rewrite !length_drop. lia.
Qed.

Lemma parse_fuel_enough f1 f2 bs :
  (length bs < f1)%nat -> (length bs < f2)%nat -> parse_fuel f1 bs = parse_fuel f2 bs.
Proof.
  revert f2 bs. induction f1 as [|f1 IH]; intros [|f2] bs H1 H2; [lia..|]. cbn [parse_fuel].
  destruct (first_frame bs) as [v|m rest] eqn:E; [done|]. apply first_frame_shorter in E.
  by rewrite (IH f2 rest) by lia.
Qed.

Lemma parse_eq bs :
  parse bs = match first_frame bs with
             | NoFrame v => ([], v)
             | Frame m rest => (m :: (parse rest).1, (parse rest).2)
             end.
Proof.
  unfold parse at 1. cbn [parse_fuel]. destruct (first_frame bs) as [v|m rest] eqn:E; [done|].
  apply first_frame_shorter in E. rewrite (parse_fuel_enough (length bs) (S (length rest))) by lia.
  fold (parse rest). by destruct (parse rest).
Qed.

(** A header followed by its body. *)
Lemma first_frame_body h body ext :
  is_u32 (magic h) -> is_u64 (body_size h) -> header_ok h = true -> body_size h <= Z.of_nat (length body) ->
  first_frame (CtrlMsgHeader_bytes h ++ body ++ ext) =
    Frame {| msg_type := CtrlMsgType_of body;
             msg := bytes_at sizeof_CtrlMsgType (Z.to_nat (body_size h) - sizeof_CtrlMsgType) body |}
          (drop (Z.to_nat (body_size h)) body ++ ext).
Proof.
  intros H1 H2 Hok Hl. unfold first_frame.
  rewrite (proj2 (Nat.ltb_ge _ _)) by (rewrite !length_app, length_header; lia).
  rewrite CtrlMsgHeader_roundtrip, Hok by done. cbn [negb].
  rewrite (drop_app_length' _ _ _ (eq_sym (length_header h))).
  rewrite (proj2 (Nat.ltb_ge _ _)) by (rewrite length_app; lia).
  unfold header_ok, sizeof_CtrlMsgType in *. apply andb_true_iff in Hok as [[_ H4]%andb_true_iff _]. apply Z.leb_le in H4.
  unfold CtrlMsgType_of. rewrite !bytes_at_app_l by lia. by rewrite drop_app_le by lia.
Qed.

Lemma first_frame_incomplete h body :
  is_u32 (magic h) -> is_u64 (body_size h) -> header_ok h = true -> Z.of_nat (length body) < body_size h ->
  first_frame (CtrlMsgHeader_bytes h ++ body) = NoFrame Incomplete.
Proof.
  intros H1 H2 Hok Hl. unfold first_frame.
  rewrite (proj2 (Nat.ltb_ge _ _)) by (rewrite !length_app, length_header; lia).
  rewrite CtrlMsgHeader_roundtrip, Hok by done. cbn [negb].
  rewrite (drop_app_length' _ _ _ (eq_sym (length_header h))). by rewrite (proj2 (Nat.ltb_lt _ _)) by lia.
Qed.

Lemma first_frame_bad bs ext :
  Forall is_byte bs -> (sizeof_CtrlMsgHeader <= length bs)%nat -> header_ok (CtrlMsgHeader_of bs) = false ->
  first_frame (bs ++ ext) = NoFrame BadHeader.
Proof.
  intros Hb Hl Hbad. unfold first_frame. rewrite (proj2 (Nat.ltb_ge _ _)) by (rewrite length_app; lia).
  replace (CtrlMsgHeader_of (bs ++ ext)) with (CtrlMsgHeader_of bs); [by rewrite Hbad|].
  unfold CtrlMsgHeader_of. unfold sizeof_CtrlMsgHeader in Hl. by rewrite !bytes_at_app_l by lia.
Qed.

(** The reference parser inverts [stream]. *)
Lemma header_of_ok n : Z.of_nat (sizeof_CtrlMsgType + n) <= kMaxBodySizeInBytes ->
  body_size (header_of n) = Z.of_nat (sizeof_CtrlMsgType + n) /\ header_ok (header_of n) = true /\
  is_u32 (magic (header_of n)) /\ is_u64 (body_size (header_of n)).
Proof.
  unfold kMaxBodySizeInBytes. intros H.
  assert (E : body_size (header_of n) = Z.of_nat (sizeof_CtrlMsgType + n)).
  { cbn [header_of body_size]. apply u64_small. ulia. }
  split_and!; [done| |done|rewrite E; ulia].
  unfold header_ok. rewrite E. unfold kMaxBodySizeInBytes, sizeof_CtrlMsgType in *. cbn [header_of magic].
  rewrite Z.eqb_refl. simpl andb. apply andb_true_iff. split; apply Z.leb_le; lia.
Qed.

Lemma parse_frame m ext : msg_ok m -> parse (frame m ++ ext) = (m :: (parse ext).1, (parse ext).2).
Proof.
  intros (Ht & Hb & Hl). destruct (header_of_ok _ Hl) as (E & Hok & H1 & H2).
  rewrite parse_eq. unfold frame. rewrite <- (app_assoc _ _ ext).
  rewrite first_frame_body; [|done|done|done|rewrite E, length_app, length_type; lia].
  rewrite E, Nat2Z.id. rewrite CtrlMsgType_roundtrip by done.
  replace (sizeof_CtrlMsgType + length (msg m) - sizeof_CtrlMsgType)%nat with (length (msg m)) by lia.
  rewrite bytes_at_app_r by (rewrite length_type; lia).
  rewrite length_type, Nat.sub_diag, bytes_at_all by done.
  rewrite drop_ge by (rewrite length_app, length_type; lia). simpl. by destruct m.
Qed.

Lemma parse_nil : parse [] = ([], Incomplete).
Proof. done. Qed.

Lemma parse_stream ms ext : Forall msg_ok ms -> parse (stream ms ++ ext) = (ms ++ (parse ext).1, (parse ext).2).
Proof.
  unfold stream. induction 1 as [|m ms Hm Hms IH]; cbn [map concat]; [by simpl; destruct (parse ext)|].
  rewrite <- app_assoc, parse_frame by done. by rewrite IH.
Qed.

(** A longer stream has at least the same messages. *)
Lemma first_frame_app bs ext m rest :
  first_frame bs = Frame m rest -> first_frame (bs ++ ext) = Frame m (rest ++ ext).
Proof.
  unfold first_frame. destruct (Nat.ltb_spec (length bs) sizeof_CtrlMsgHeader) as [|Hl]; [done|].
  rewrite (proj2 (Nat.ltb_ge (length (bs ++ ext)) _)) by (rewrite length_app; lia).
  replace (CtrlMsgHeader_of (bs ++ ext)) with (CtrlMsgHeader_of bs).
  2:{ unfold CtrlMsgHeader_of. unfold sizeof_CtrlMsgHeader in Hl. by rewrite !bytes_at_app_l by lia. }
  destruct (header_ok (CtrlMsgHeader_of bs)) eqn:Hok; [|done]. cbn [negb].
  set (n := Z.to_nat (body_size (CtrlMsgHeader_of bs))). rewrite drop_app_le by lia.
  destruct (Nat.ltb_spec (length (drop sizeof_CtrlMsgHeader bs)) n) as [|Hn]; [done|].
  rewrite (proj2 (Nat.ltb_ge _ n)) by (rewrite length_app; lia). intros [= <- <-].
  unfold header_ok, sizeof_CtrlMsgType in *. apply andb_true_iff in Hok as [[_ H4%Z.leb_le]%andb_true_iff _].
  unfold CtrlMsgType_of. rewrite !bytes_at_app_l by (unfold n in *; lia). by rewrite (drop_app_le _ ext) by lia.
Qed.

Lemma parse_app bs ext : (parse bs).1 `prefix_of` (parse (bs ++ ext)).1.
Proof.
  remember (length bs) as n eqn:Hn. revert bs Hn. induction n as [n IH] using lt_wf_ind. intros bs ->.
  rewrite (parse_eq bs), (parse_eq (bs ++ ext)). destruct (first_frame bs) as [v|m rest] eqn:E; [apply prefix_nil|].
  rewrite (first_frame_app _ ext _ _ E). cbn [fst]. apply first_frame_shorter in E.
  apply prefix_cons. by eapply IH.
Qed.

(** * The receiver *)

(** The bytes received and not yet turned into messages. *)
Definition pending (r : MsgReceiver) : list Z := take (Z.to_nat (received_size_ r)) (recv_buffer_ r).

(** What they stand for: a header that was taken off the buffer is put back. *)
Definition virtual (r : MsgReceiver) : list Z :=
  match recv_state_ r with
  | WAITING_FOR_HEADER => pending r
  | WAITING_FOR_BODY => CtrlMsgHeader_bytes {| magic := kMagicNumber; body_size := expected_size_ r |} ++ pending r
  end.

Definition max_buffer : Z := kMaxBodySizeInBytes + kRecvChunkSizeInBytes.

Record recv_wf (r : MsgReceiver) : Prop := {
  wf_bytes : Forall is_byte (recv_buffer_ r);
  wf_received : 0 <= received_size_ r <= Z.of_nat (length (recv_buffer_ r));
  wf_buffer : Z.of_nat (length (recv_buffer_ r)) <= max_buffer;
  wf_expected : recv_state_ r = WAITING_FOR_BODY ->
    Z.of_nat sizeof_CtrlMsgType <= expected_size_ r <= kMaxBodySizeInBytes
}.

(** No more message can be taken from the buffer. *)
Definition idle (r : MsgReceiver) : Prop :=
  match recv_state_ r with
  | WAITING_FOR_HEADER => received_size_ r < Z.of_nat sizeof_CtrlMsgHeader
  | WAITING_FOR_BODY => received_size_ r < expected_size_ r
  end.

(** [total] bytes have arrived and [ms] were taken from them. *)
Definition progress (total : list Z) (ms : list CtrlMsg) (r : MsgReceiver) : Prop :=
  forall ext, parse (total ++ ext) = (ms ++ (parse (virtual r ++ ext)).1, (parse (virtual r ++ ext)).2).

Lemma length_pending r : recv_wf r -> Z.of_nat (length (pending r)) = received_size_ r.
Proof. intros [_ H _ _]. unfold pending. rewrite length_take. lia. Qed.

Lemma pending_bytes r : recv_wf r -> Forall is_byte (pending r).
Proof. intros [H _ _ _]. by apply Forall_take. Qed.

Lemma expected_ok r :
  recv_wf r -> recv_state_ r = WAITING_FOR_BODY ->
  let h := {| magic := kMagicNumber; body_size := expected_size_ r |} in
  is_u32 (magic h) /\ is_u64 (body_size h) /\ header_ok h = true.
Proof.
  intros Hwf Hst. pose proof (wf_expected r Hwf Hst) as H. unfold kMaxBodySizeInBytes, sizeof_CtrlMsgType in H.
  cbn [magic body_size]. split_and!; [done|ulia|].
  unfold header_ok, kMaxBodySizeInBytes, sizeof_CtrlMsgType. cbn [magic body_size]. rewrite Z.eqb_refl; simpl andb.
  apply andb_true_iff. split; apply Z.leb_le; lia.
Qed.

Lemma idle_incomplete r : recv_wf r -> idle r -> parse (virtual r) = ([], Incomplete).
Proof.
  intros Hwf Hi. pose proof (length_pending r Hwf) as Hl. rewrite parse_eq. unfold idle, virtual in *.
  destruct (recv_state_ r) eqn:Hst.
  - unfold first_frame. by rewrite (proj2 (Nat.ltb_lt _ _)) by lia.
  - destruct (expected_ok r Hwf Hst) as (H1 & H2 & H3). rewrite first_frame_incomplete; [done|done..|].
    cbn [body_size]. lia.
Qed.

(** More bytes arrive. *)
Lemma progress_more total ms r bs r' :
  progress total ms r -> virtual r' = virtual r ++ bs -> progress (total ++ bs) ms r'.
Proof. intros H E ext. rewrite E, <- !app_assoc. apply H. Qed.

(** The message at the front of the buffer is taken. *)
Lemma progress_message total ms r r' :
  recv_wf r -> progress total ms r -> recv_state_ r = WAITING_FOR_BODY -> expected_size_ r <= received_size_ r ->
  virtual r' = drop (Z.to_nat (expected_size_ r)) (pending r) -> progress total (ms ++ [front_msg r]) r'.
Proof.
  intros Hwf H Hst Hle E ext. pose proof (length_pending r Hwf) as Hl.
  destruct (expected_ok r Hwf Hst) as (H1 & H2 & H3). pose proof (wf_expected r Hwf Hst) as Hx.
  unfold sizeof_CtrlMsgType in Hx.
  assert (Hv : virtual r = CtrlMsgHeader_bytes {| magic := kMagicNumber; body_size := expected_size_ r |} ++ pending r)
    by (unfold virtual; by rewrite Hst).
  rewrite H, (parse_eq (virtual r ++ ext)), Hv, <- app_assoc.
  rewrite first_frame_body; [|done..|cbn [body_size]; lia]. cbn [body_size fst snd].
  rewrite E, <- app_assoc. unfold front_msg.
  replace (CtrlMsgType_of (pending r)) with (CtrlMsgType_of (recv_buffer_ r)).
  2:{ unfold CtrlMsgType_of, pending. by rewrite bytes_at_take by lia. }
  unfold pending at 1. by rewrite bytes_at_take by (unfold sizeof_CtrlMsgType; lia).
Qed.

(** A header in the buffer that is refused. *)
Lemma progress_bad total ms r :
  recv_wf r -> progress total ms r -> recv_state_ r = WAITING_FOR_HEADER ->
  Z.of_nat sizeof_CtrlMsgHeader <= received_size_ r -> header_ok (CtrlMsgHeader_of (recv_buffer_ r)) = false ->
  parse total = (ms, BadHeader).
Proof.
  intros Hwf H Hst Hle Hbad. pose proof (length_pending r Hwf) as Hl.
  specialize (H []). rewrite !app_nil_r in H. rewrite H, parse_eq. unfold virtual. rewrite Hst.
  rewrite <- (app_nil_r (pending r)), first_frame_bad; [by rewrite app_nil_r|by apply pending_bytes|lia|].
  rewrite <- Hbad. f_equal. unfold CtrlMsgHeader_of, pending, sizeof_CtrlMsgHeader in *.
  by rewrite !bytes_at_take by lia.
Qed.

Section Run.
Context {env : Environment NetOp} {Hnet : NetLaws env} `{Sec : Securec} {SecL : SecurecLaws Sec}.
Implicit Types (s : Receiving) (h : History NetOp).

(** Allocations of messages succeed. *)
Definition news_ok : Prop := forall h, reply_of bool NetNew h = true.

(** What a failed call leaves: a prefix of the messages, all those before a bad header
    unless it was an allocation that failed. *)
Definition refused_at (total : list Z) (e : Status) (ms : list CtrlMsg) : Prop :=
  ms `prefix_of` (parse total).1 /\
  (news_ok -> e = PARAM_INVALID /\ parse total = (ms, BadHeader)).

Definition loop_post (total : list Z) (o : Status + (unit + unit)) s : Prop :=
  match o with
  | inl e => refused_at total e (msgs s) /\ Z.of_nat (length (recv_buffer_ (rcv s))) <= max_buffer
  | inr (inr _) => recv_wf (rcv s) /\ progress total (msgs s) (rcv s) /\ idle (rcv s)
  | inr (inl _) => recv_wf (rcv s) /\ progress total (msgs s) (rcv s)
  end.

Lemma wp_move_front (Q : Status + unit -> Receiving -> History NetOp -> Prop) off s h :
  recv_wf (rcv s) -> 0 <= off < received_size_ (rcv s) ->
  (forall b, length b = length (recv_buffer_ (rcv s)) -> Forall is_byte b ->
     take (Z.to_nat (received_size_ (rcv s) - off)) b = drop (Z.to_nat off) (pending (rcv s)) ->
     Q (inr tt) (set_rcv (set_received (received_size_ (rcv s) - off) (set_buffer b (rcv s))) s) h) ->
  wp (move_front off) Q s h.
Proof.
  intros [Hb Hr Hm _] Hoff HQ. unfold move_front. apply wp_bind, wp_get. unfold max_buffer, kMaxBodySizeInBytes, kRecvChunkSizeInBytes in Hm.
  rewrite memmove_s_ok by (unfold copy_fits; rewrite length_drop; lia). unfold copied.
  apply wp_bind, wp_modify, wp_bind, wp_require; [intros _|done]. apply wp_modify.
  apply HQ.
  - rewrite length_app, length_take, !length_drop. lia.
  - apply Forall_app. split; [by apply Forall_take, Forall_drop|by apply Forall_drop].
  - unfold pending. rewrite take_app_length'.
    + rewrite skipn_firstn_comm. f_equal. lia.
    + rewrite length_take, length_drop. lia.
Qed.

Lemma wp_RecvHeader (Q : Status + unit -> Receiving -> History NetOp -> Prop) total s h :
  recv_wf (rcv s) -> progress total (msgs s) (rcv s) -> recv_state_ (rcv s) = WAITING_FOR_HEADER ->
  Z.of_nat sizeof_CtrlMsgHeader <= received_size_ (rcv s) ->
  (forall r', Z.of_nat (length (recv_buffer_ r')) <= max_buffer -> parse total = (msgs s, BadHeader) ->
     Q (inl PARAM_INVALID) (set_rcv r' s) h) ->
  (forall r', recv_wf r' -> progress total (msgs s) r' -> recv_state_ r' = WAITING_FOR_BODY ->
     received_size_ r' < received_size_ (rcv s) -> Q (inr tt) (set_rcv r' s) h) ->
  wp RecvHeader Q s h.
Proof.
  destruct s as [r ms]; cbn [rcv msgs] in *.
  intros Hwf Hp Hst Hle Hbad HQ. pose proof (length_pending _ Hwf) as Hl. pose proof Hwf as [Hb Hr Hm _].
  set (hd := CtrlMsgHeader_of (recv_buffer_ r)).
  assert (Hhd : hd = CtrlMsgHeader_of (pending r)).
  { unfold hd, CtrlMsgHeader_of, pending. unfold sizeof_CtrlMsgHeader in Hle. by rewrite !bytes_at_take by lia. }
  assert (Hno : header_ok hd = false -> parse total = (ms, BadHeader)) by (by eapply progress_bad).
  unfold RecvHeader. apply wp_bind, wp_get. cbn [rcv]. fold hd.
  unfold header_ok in Hno.
  apply wp_bind, wp_require; intros H1; [|rewrite H1 in Hno; by apply (Hbad r); [|apply Hno]].
  apply wp_bind, wp_require; intros H2; [|rewrite H1, H2 in Hno; by apply (Hbad r); [|apply Hno]].
  apply wp_bind, wp_modify. cbn [rcv set_rcv msgs].
  apply wp_bind, wp_require; intros H3; [|rewrite H1, H2, H3 in Hno; apply Hbad; [done|by apply Hno]].
  apply wp_bind, wp_modify. cbn [rcv set_rcv msgs]. clear Hno. apply Z.eqb_eq in H1. apply Z.leb_le in H2. apply Z.leb_le in H3.
  set (r1 := set_state WAITING_FOR_BODY (set_expected (body_size hd) r)).
  assert (Hwf1 : recv_wf r1) by (by constructor).
  assert (Hend : forall r', recv_state_ r' = WAITING_FOR_BODY -> expected_size_ r' = body_size hd ->
            pending r' = drop sizeof_CtrlMsgHeader (pending r) -> progress total ms r').
  { intros r' Hs He Hpe ext. rewrite Hp. unfold virtual. rewrite Hst, Hs, He, Hpe.
    replace {| magic := kMagicNumber; body_size := body_size hd |} with hd by (destruct hd; simpl in *; congruence).
    by rewrite Hhd, CtrlMsgHeader_inverse by (first [by apply pending_bytes|lia]). }
  destruct (Z.ltb_spec (Z.of_nat sizeof_CtrlMsgHeader) (received_size_ r)) as [Hmore|Hless].
  - unfold sizeof_CtrlMsgHeader in Hmore. apply wp_move_front; [exact Hwf1|cbn; unfold sizeof_CtrlMsgHeader; lia|].
    cbn [rcv set_rcv msgs]. intros b Hlb Hbb Ht. apply (HQ (set_received (received_size_ r - Z.of_nat sizeof_CtrlMsgHeader) (set_buffer b r1))).
    + constructor; cbn in *; [done|unfold sizeof_CtrlMsgHeader in *; lia|rewrite Hlb; done|].
      intros _. by apply (wf_expected r1).
    + by apply Hend.
    + done.
    + cbn. unfold sizeof_CtrlMsgHeader. lia.
  - apply wp_modify. apply (HQ (set_received 0 r1)).
    + constructor; cbn; [done|lia|done|]. intros _. by apply (wf_expected r1).
    + apply Hend; [done|done|]. unfold pending at 1. cbn. rewrite drop_ge; [done|]. unfold sizeof_CtrlMsgHeader in *. lia.
    + done.
    + cbn. unfold sizeof_CtrlMsgHeader in *. lia.
Qed.

Lemma wp_take_message total s h :
  recv_wf (rcv s) -> progress total (msgs s) (rcv s) -> recv_state_ (rcv s) = WAITING_FOR_BODY ->
  wp take_message (fun o s' h' => received h' = received h /\ connection_ (rcv s') = connection_ (rcv s) /\
    loop_post total o s' /\
    match o with inr (inl _) => received_size_ (rcv s') < received_size_ (rcv s) | _ => True end) s h.
Proof.
  destruct s as [r ms]; cbn [rcv msgs] in *.
  intros Hwf Hp Hst. pose proof (length_pending _ Hwf) as Hl. pose proof Hwf as [Hb Hr Hm Hx].
  specialize (Hx Hst). unfold take_message. apply wp_bind, wp_get. cbn [rcv].
  destruct (Z.ltb_spec (received_size_ r) (expected_size_ r)) as [Hlt|Hge].
  { apply wp_ret. split_and!; [done|done| |done]. unfold loop_post, idle. cbn [rcv msgs]. by rewrite Hst. }
  assert (Hone : forall r', virtual r' = drop (Z.to_nat (expected_size_ r)) (pending r) ->
            progress total (ms ++ [front_msg r]) r') by (intros r' E; by eapply progress_message).
  apply wp_bind, wp_call. intros made Hmade. apply wp_bind, wp_require; intros Hok.
  2:{ assert (Hpre : ms `prefix_of` (parse total).1).
      { specialize (Hp []). rewrite !app_nil_r in Hp. rewrite Hp. by apply prefix_app_r. }
      simpl received. rewrite app_nil_r. split_and!; [done|done| |done]. split; [|done]. split; [done|].
      intros Hnew. by rewrite Hmade, Hnew in Hok. }
  apply wp_bind, wp_modify. unfold sizeof_CtrlMsgType in Hx.
  destruct (Z.ltb_spec (expected_size_ r) (received_size_ r)) as [Hmore|Hless].
  - apply wp_bind, wp_move_front; [done|cbn; lia|]. intros b Hlb Hbb Ht. cbn [rcv set_rcv msgs] in *.
    apply wp_bind, wp_modify, wp_ret. simpl received. rewrite app_nil_r. split_and!; [done|done| |cbn; lia].
    split; [constructor; cbn; [done|lia|rewrite Hlb; done|done]|]. apply Hone. exact Ht.
  - apply wp_bind, wp_modify, wp_bind, wp_modify, wp_ret. simpl received. rewrite app_nil_r.
    split_and!; [done|done| |done]. split_and!; [constructor; cbn; [done|lia|done|done]| |cbn; unfold sizeof_CtrlMsgHeader; lia].
    apply Hone. unfold virtual, pending at 1. cbn. rewrite drop_ge; [done|]. lia.
Qed.

Lemma wp_irecv_round total s h :
  recv_wf (rcv s) -> progress total (msgs s) (rcv s) ->
  wp (irecv_round tt) (fun o s' h' => received h' = received h /\ loop_post total o s' /\
    match o with inr (inl _) => received_size_ (rcv s') < received_size_ (rcv s) | _ => True end) s h.
Proof.
  destruct s as [r ms]; cbn [rcv msgs] in *. intros Hwf Hp. unfold irecv_round. apply wp_bind, wp_get. cbn [rcv].
  case_bool_decide as Hst.
  - destruct (Z.ltb_spec (received_size_ r) (Z.of_nat sizeof_CtrlMsgHeader)) as [Hlt|Hge].
    { apply wp_ret. split_and!; [done| |done]. unfold loop_post, idle. cbn [rcv msgs]. by rewrite Hst. }
    apply wp_bind. eapply (wp_RecvHeader _ total); [exact Hwf|exact Hp|exact Hst|exact Hge| |].
    + intros r' Hb Hbad. split_and!; [done| |done]. split; [|done]. cbn [msgs set_rcv]. unfold refused_at.
      rewrite Hbad. by split.
    + intros r' Hwf' Hp' Hst' Hlt. eapply wp_mono; [by apply (wp_take_message total)|].
      intros o s' h' (H1 & _ & H2 & H3). split_and!; [done|done|].
      destruct o as [e|[[]|[]]]; [done| |done]. cbn [rcv] in Hlt, H3. cbn in H3. lia.
  - assert (Hst' : recv_state_ r = WAITING_FOR_BODY) by (by destruct (recv_state_ r)).
    eapply wp_mono; [by apply (wp_take_message total)|]. intros o s' h' (H1 & _ & H2 & H3). by split_and!.
Qed.

(** What a call that fails leaves. *)
Definition stopped (total : list Z) (e : Status) (ms : list CtrlMsg) : Prop :=
  ms `prefix_of` (parse total).1 /\
  (news_ok -> ms = (parse total).1 /\ ((parse total).2 = BadHeader -> e = PARAM_INVALID)).

Definition irecv_post (total : list Z) {A} (o : Status + A) s : Prop :=
  match o with
  | inl e => stopped total e (msgs s) /\ Z.of_nat (length (recv_buffer_ (rcv s))) <= max_buffer
  | inr _ => recv_wf (rcv s) /\ progress total (msgs s) (rcv s) /\ idle (rcv s)
  end.

Lemma wp_irecv_loop total s h :
  recv_wf (rcv s) -> progress total (msgs s) (rcv s) ->
  wp (loop (Z.to_pos (received_size_ (rcv s) + 1)) irecv_round tt) (fun o s' h' =>
    received h' = received h /\ irecv_post total o s') s h.
Proof.
  intros Hwf Hp.
  eapply wp_loop with (n := received_size_ (rcv s)) (I := fun n _ s' h' => received h' = received h /\
      n = received_size_ (rcv s') /\ recv_wf (rcv s') /\ progress total (msgs s') (rcv s')).
  - intros n [] s' h' (_ & -> & [_ Hr _ _] & _). lia.
  - intros n [] s' h' (Hh & -> & Hwf' & Hp'). eapply wp_mono; [by apply (wp_irecv_round total)|].
    intros [e|[[]|[]]] s'' h'' (H1 & H2 & H3).
    + split; [congruence|]. destruct H2 as [[Hpre Hn] Hb]. split; [|done]. split; [done|].
      intros Hnew. destruct (Hn Hnew) as [-> Hpa]. by rewrite Hpa.
    + destruct H2 as [Hw2 Hp2]. eexists. split; [exact H3|]. split_and!; [congruence|done|done|done].
    + by split; [congruence|].
  - destruct Hwf as [_ Hr _ _]. rewrite Z2Pos.id by lia. lia.
  - by split_and!.
Qed.

(** The buffer after [resize]. *)
Lemma resize_wf r n :
  recv_wf r -> idle r -> n = received_size_ r + kRecvChunkSizeInBytes ->
  let r' := if Z.of_nat (length (recv_buffer_ r)) <? n
            then set_buffer (recv_buffer_ r ++ replicate (Z.to_nat n - length (recv_buffer_ r)) 0) r else r in
  recv_wf r' /\ virtual r' = virtual r /\ idle r'.
Proof.
  intros Hwf Hi Hn. destruct (Z.ltb_spec (Z.of_nat (length (recv_buffer_ r))) n) as [Hlt|Hge]; [|by split_and!].
  pose proof Hwf as [Hb Hr Hm Hx]. cbn zeta.
  assert (Hmax : n <= max_buffer).
  { subst n. unfold max_buffer. unfold idle in Hi. destruct (recv_state_ r) eqn:Hst.
    - unfold sizeof_CtrlMsgHeader, kMaxBodySizeInBytes in *. lia.
    - specialize (Hx eq_refl). lia. }
  assert (Hlen : Z.of_nat (length (recv_buffer_ r ++ replicate (Z.to_nat n - length (recv_buffer_ r)) 0)) = n).
  { rewrite length_app, length_replicate. lia. }
  split_and!.
  - constructor; cbn [recv_buffer_ set_buffer received_size_ recv_state_ expected_size_].
    + apply Forall_app. split; [done|]. by apply Forall_replicate.
    + rewrite Hlen. unfold kRecvChunkSizeInBytes in Hn. lia.
    + rewrite Hlen. done.
    + done.
  - unfold virtual, pending. cbn [recv_buffer_ set_buffer received_size_ recv_state_ expected_size_].
    by rewrite take_app_le by lia.
  - done.
Qed.

(** The bytes of a receive, spliced in. *)
Lemma splice_wf r bs :
  recv_wf r -> Forall is_byte bs -> received_size_ r + Z.of_nat (length bs) <= Z.of_nat (length (recv_buffer_ r)) ->
  let off := Z.to_nat (received_size_ r) in
  let r' := set_received (received_size_ r + Z.of_nat (length bs))
              (set_buffer (take off (recv_buffer_ r) ++ bs ++ drop (off + length bs) (recv_buffer_ r)) r) in
  recv_wf r' /\ virtual r' = virtual r ++ bs.
Proof.
  intros [Hb Hr Hm Hx] Hbs Hle off r'.
  assert (Hlen : length (recv_buffer_ r') = length (recv_buffer_ r)).
  { cbn. rewrite !length_app, length_take, length_drop. unfold off. lia. }
  split.
  - constructor; [|rewrite Hlen; cbn; lia|by rewrite Hlen|done].
    cbn. repeat (apply Forall_app; split); [by apply Forall_take|done|by apply Forall_drop].
  - assert (Hpe : pending r' = pending r ++ bs).
    { unfold pending, r'. cbn [recv_buffer_ set_buffer received_size_ set_received]. fold off.
      assert (Hl : length (take off (recv_buffer_ r)) = off) by (rewrite length_take; unfold off; lia).
      replace (Z.to_nat (received_size_ r + Z.of_nat (length bs))) with (off + length bs)%nat by (unfold off; lia).
      rewrite app_assoc, take_app_le by (rewrite length_app, Hl; lia). apply take_ge. rewrite length_app, Hl. lia. }
    unfold virtual. rewrite Hpe. cbn [recv_state_ r' set_received set_buffer expected_size_].
    destruct (recv_state_ r); [done|]. by rewrite app_assoc.
Qed.

Lemma wp_IRecv total s h :
  recv_wf (rcv s) -> progress total (msgs s) (rcv s) -> idle (rcv s) ->
  wp IRecv (fun o s' h' => exists bs, received h' = received h ++ bs /\ irecv_post (total ++ bs) o s') s h.
Proof.
  destruct s as [r ms]; cbn [rcv msgs] in *. intros Hwf Hp Hi. unfold IRecv. apply wp_bind, wp_modify. cbn [rcv set_rcv msgs].
  destruct (resize_wf r _ Hwf Hi eq_refl) as (Hwf1 & Hv1 & Hi1).
  set (r1 := if Z.of_nat (length (recv_buffer_ r)) <? _ then _ else _) in *. clearbody r1.
  assert (Hp1 : progress total ms r1) by (intros ext; rewrite Hv1; apply Hp).
  assert (Htot : parse total = (ms, Incomplete)).
  { specialize (Hp []). rewrite !app_nil_r in Hp. rewrite Hp, (idle_incomplete r Hwf Hi). by rewrite app_nil_r. }
  assert (Hstop : forall c e h', received h' = received h ++ [] ->
            exists bs, received h' = received h ++ bs /\
              irecv_post (A := unit) (total ++ bs) (inl e) (set_rcv (set_connection c r1) {| rcv := r1; msgs := ms |})).
  { intros c e h' Hh. exists []. split; [done|]. rewrite app_nil_r. cbn.
    split; [|apply Hwf1]. unfold stopped. rewrite Htot. by split. }
  apply wp_bind, wp_get. cbn [rcv]. apply wp_bind. unfold on_connection. eapply wp_zoom; [done|]. cbn [rcv].
  eapply wp_CtrlMsgPlugin_RecvOnce; [apply ran_refl|cbn [rcv set_rcv]; pose proof (wf_received _ Hwf1); lia|].
  intros o c' h' Ho. cbn [rcv set_rcv msgs] in *. set (r2 := set_connection c' r1).
  assert (Hwf2 : recv_wf r2) by (by destruct Hwf1). assert (Hp2 : progress total ms r2) by exact Hp1.
  assert (Hr2 : received_size_ r2 = received_size_ r1) by done.
  destruct o as [e|[[|b bs]|e]]; cbn [once_ok] in Ho.
  - apply ran_received in Ho. by apply (Hstop c').
  - destruct Ho as (Ho & _). apply ran_received in Ho. apply wp_fail. by apply (Hstop c').
  - destruct Ho as (Ho & Hby & Hle). apply ran_received in Ho.
    destruct (splice_wf r2 (b :: bs) Hwf2 Hby) as [Hwf3 Hv3]; [pose proof (wf_received _ Hwf1); rewrite Hr2; cbn [recv_buffer_ r2 set_connection]; lia|].
    set (r3 := set_received _ (set_buffer _ _)) in Hwf3, Hv3.
    apply wp_bind, wp_modify, wp_bind, wp_modify, wp_bind, wp_get.
    match goal with |- wp _ ?Q _ _ =>
      change (wp (loop (Z.to_pos (received_size_ r3 + 1)) irecv_round tt) Q {| rcv := r3; msgs := ms |} h') end.
    eapply wp_mono; [apply (wp_irecv_loop (total ++ b :: bs) {| rcv := r3; msgs := ms |} h'); [exact Hwf3|by eapply progress_more]|].
    intros o s' h'' [Hh Hpost]. exists (b :: bs). by rewrite Hh.
  - apply ran_received in Ho. unfold CheckRecv. apply wp_require; intros _; [|by apply (Hstop c')].
    exists []. split; [exact Ho|]. rewrite app_nil_r. by split_and!.
Qed.

(** [n] calls on a receiver that is between two calls. *)
Lemma wp_receive_all n total s h :
  recv_wf (rcv s) -> progress total (msgs s) (rcv s) -> idle (rcv s) ->
  wp (receive_all n) (fun o s' h' => exists bs r, received h' = received h ++ bs /\ o = inr r /\
    match r with
    | None => recv_wf (rcv s') /\ parse (total ++ bs) = (msgs s', Incomplete)
    | Some e => stopped (total ++ bs) e (msgs s')
    end /\ Z.of_nat (length (recv_buffer_ (rcv s'))) <= max_buffer) s h.
Proof.
  revert total s h. induction n as [|n IH]; intros total s h Hwf Hp Hi; cbn [receive_all].
  - apply wp_ret. exists [], None. rewrite !app_nil_r. split_and!; [done|done|done| |apply Hwf].
    specialize (Hp []). rewrite !app_nil_r in Hp. rewrite Hp, (idle_incomplete _ Hwf Hi). by rewrite app_nil_r.
  - apply wp_bind, wp_attempt. eapply wp_mono; [by apply (wp_IRecv total)|].
    intros [e|[]] s1 h1 (bs & Hh & Hpost).
    + apply wp_ret. exists bs, (Some e). destruct Hpost. by split_and!.
    + destruct Hpost as (Hwf1 & Hp1 & Hi1). eapply wp_mono; [by apply (IH (total ++ bs))|].
      intros o s2 h2 (bs2 & r & Hh2 & -> & Hr & Hb). exists (bs ++ bs2), r. rewrite app_assoc, <- Hh.
      by rewrite (app_assoc total).
Qed.

(** A new receiver. *)
Lemma new_ready c :
  recv_wf (MsgReceiver_new c) /\ progress [] [] (MsgReceiver_new c) /\ idle (MsgReceiver_new c).
Proof.
  split_and!; [constructor; cbn; [constructor|lia|unfold max_buffer, kMaxBodySizeInBytes, kRecvChunkSizeInBytes; lia|done]| |done].
  intros ext. change (parse ext = ((parse ext).1, (parse ext).2)). by destruct (parse ext).
Qed.
End Run.
