(* ===== verification/MsgReceiverSafety.v ===== *)
(** A receiver that is called again whatever its earlier calls returned: a call
    always ends, stays inside the buffer, and uses nothing but its connection. *)

From S2P Require Import Prelude Effects External Wire Net CtrlConn CtrlConnSpec MsgReceiver.

(** Weaker than [recv_wf]: it also holds after calls that failed. *)
Record recv_ok (r : MsgReceiver) : Prop := {
  ok_received : 0 <= received_size_ r <= Z.of_nat (length (recv_buffer_ r));
  ok_expected : recv_state_ r = WAITING_FOR_BODY -> Z.of_nat sizeof_CtrlMsgType <= expected_size_ r
}.

Lemma recv_ok_new c : recv_ok (MsgReceiver_new c).
Proof. by constructor. Qed.
Lemma recv_ok_connection c r : recv_ok r -> recv_ok (set_connection c r).
Proof. by intros [H1 H2]; constructor. Qed.

Section Run.
Context {env : Environment NetOp} {Hnet : NetLaws env} `{Sec : Securec} {SecL : SecurecLaws Sec}.
Variables (c0 : Conn) (h0 : History NetOp).
Implicit Types (s : Receiving) (h : History NetOp).

(** What has happened since the call started. *)
Definition safe s h : Prop := recv_ok (rcv s) /\ exists a b, ran c0 h0 (connection_ (rcv s)) h a b.
Definition shrinks (n : Z) {A} (o : Status + A) s h : Prop :=
  safe s h /\ match o with inr _ => received_size_ (rcv s) < n | inl _ => True end.

Lemma wp_move_front_ok (Q : Status + unit -> Receiving -> History NetOp -> Prop) off s h :
  safe s h -> 0 < off <= received_size_ (rcv s) ->
  (forall o s' h', shrinks (received_size_ (rcv s)) o s' h' -> recv_state_ (rcv s') = recv_state_ (rcv s) ->
     expected_size_ (rcv s') = expected_size_ (rcv s) -> Q o s' h') ->
  wp (move_front off) Q s h.
Proof.
  intros [[H1 H2] Hr] Hoff HQ. unfold move_front. apply wp_bind, wp_get.
  pose proof (memmove_s_length (recv_buffer_ (rcv s)) (Z.of_nat (length (recv_buffer_ (rcv s))))
    (drop (Z.to_nat off) (recv_buffer_ (rcv s))) (received_size_ (rcv s) - off) eq_refl) as Hl.
  destruct (memmove_s _ _ _ _) as [rc b]. cbn [snd] in Hl.
  apply wp_bind, wp_modify, wp_bind, wp_require; intros _; [apply wp_modify|]; apply HQ; try done.
  - split; [|cbn; lia]. split; [|done]. constructor; cbn; [rewrite Hl; lia|done].
  - split; [|done]. split; [|done]. constructor; cbn; [by rewrite Hl|done].
Qed.

Lemma wp_RecvHeader_ok (Q : Status + unit -> Receiving -> History NetOp -> Prop) s h :
  safe s h -> Z.of_nat sizeof_CtrlMsgHeader <= received_size_ (rcv s) -> recv_state_ (rcv s) = WAITING_FOR_HEADER ->
  (forall o s' h', shrinks (received_size_ (rcv s)) o s' h' ->
     match o with inr _ => recv_state_ (rcv s') = WAITING_FOR_BODY | inl _ => True end -> Q o s' h') ->
  wp RecvHeader Q s h.
Proof.
  intros [[H1 H2] Hr] Hle Hst HQ. unfold RecvHeader. apply wp_bind, wp_get.
  set (hd := CtrlMsgHeader_of _).
  apply wp_bind, wp_require; intros _; [|by apply HQ].
  apply wp_bind, wp_require; intros Hb; [apply Z.leb_le in Hb|by apply HQ].
  apply wp_bind, wp_modify.
  apply wp_bind, wp_require; intros _.
  2:{ apply HQ; [|done]. split; [|done]. split; [|done]. constructor; cbn; [done|congruence]. }
  apply wp_bind, wp_modify. unfold sizeof_CtrlMsgHeader in *.
  assert (Hs : safe (set_rcv (set_state WAITING_FOR_BODY (set_expected (body_size hd) (rcv s))) s) h).
  { split; [|exact Hr]. by constructor. }
  destruct (_ <? _).
  - apply wp_move_front_ok; [exact Hs|cbn; lia|]. intros o s' h' Ho E _. apply HQ; [exact Ho|]. by destruct o.
  - apply wp_modify, HQ; [|done]. split; [|cbn; lia]. split; [|exact Hr]. constructor; cbn; [lia|done].
Qed.

Lemma wp_take_message_ok (Q : Status + (unit + unit) -> Receiving -> History NetOp -> Prop) s h :
  safe s h -> recv_state_ (rcv s) = WAITING_FOR_BODY ->
  (forall o s' h', safe s' h' -> match o with inr (inl _) => received_size_ (rcv s') < received_size_ (rcv s) | _ => True end ->
     Q o s' h') ->
  wp take_message Q s h.
Proof.
  intros [[H1 H2] Hr] Hst HQ. specialize (H2 Hst). unfold sizeof_CtrlMsgType in H2.
  unfold take_message. apply wp_bind, wp_get. destruct (Z.ltb_spec (received_size_ (rcv s)) (expected_size_ (rcv s))) as [Hlt|Hge].
  { by apply wp_ret, HQ. }
  apply wp_bind, wp_call. intros made _.
  assert (Hs : forall s', rcv s' = rcv s -> safe s' (Ev NetNew made :: h)).
  { intros s' E. unfold safe. rewrite E. split; [by constructor|]. destruct Hr as (a & b & R). exists a, b. by apply ran_quiet_event. }
  apply wp_bind, wp_require; intros _; [|by apply HQ; [apply Hs|]].
  apply wp_bind, wp_modify. set (s1 := {| rcv := rcv s; msgs := _ |}). assert (Hs1 := Hs s1 eq_refl).
  destruct (expected_size_ (rcv s) <? received_size_ (rcv s)).
  - apply wp_bind, wp_move_front_ok; [exact Hs1|cbn; lia|]. intros o s' h' [[[K1 K2] Kr] Ho] _ _.
    destruct o as [e|[]]; [by apply HQ|]. apply wp_bind, wp_modify, wp_ret, HQ; [|exact Ho].
    split; [by constructor|done].
  - apply wp_bind, wp_modify, wp_bind, wp_modify, wp_ret, HQ; [|done]. destruct Hs1 as [_ Hs1].
    split; [|exact Hs1]. constructor; cbn; [lia|done].
Qed.

Lemma wp_irecv_round_ok s h :
  safe s h ->
  wp (irecv_round tt) (fun o s' h' => safe s' h' /\
    match o with inr (inl _) => received_size_ (rcv s') < received_size_ (rcv s) | _ => True end) s h.
Proof.
  intros H. unfold irecv_round. apply wp_bind, wp_get. case_bool_decide as Hst.
  - destruct (Z.ltb_spec (received_size_ (rcv s)) (Z.of_nat sizeof_CtrlMsgHeader)) as [Hlt|Hge]; [by apply wp_ret|].
    apply wp_bind, wp_RecvHeader_ok; [done|done|done|]. intros [e|[]] s1 h1 [Hs1 Hlt] Hb; [done|].
    apply wp_take_message_ok; [done|done|]. intros o s2 h2 Hs2 Ho. split; [done|].
    destruct o as [e|[[]|[]]]; [done|lia|done].
  - apply wp_take_message_ok; [done| |by intros]. by destruct (recv_state_ (rcv s)).
Qed.
End Run.

Section IRecv.
Context {env : Environment NetOp} {Hnet : NetLaws env} `{Sec : Securec} {SecL : SecurecLaws Sec}.

Lemma wp_IRecv_ok (s : Receiving) h :
  recv_ok (rcv s) -> wp IRecv (fun _ s' h' => safe (connection_ (rcv s)) h s' h') s h.
Proof.
  intros [H1 H2]. unfold IRecv. apply wp_bind, wp_modify. cbn [rcv set_rcv].
  set (r1 := if Z.of_nat (length (recv_buffer_ (rcv s))) <? _ then _ else _).
  assert (Hr1 : connection_ r1 = connection_ (rcv s) /\ received_size_ r1 = received_size_ (rcv s) /\ recv_ok r1 /\
            received_size_ r1 + kRecvChunkSizeInBytes <= Z.of_nat (length (recv_buffer_ r1))).
  { unfold r1, kRecvChunkSizeInBytes. destruct (Z.ltb_spec (Z.of_nat (length (recv_buffer_ (rcv s)))) (received_size_ (rcv s) + 4096)).
    - cbn. rewrite length_app, length_replicate. split_and!; [done|done| |lia].
      constructor; cbn; [rewrite length_app; lia|done].
    - split_and!; [done|done|by constructor|lia]. }
  destruct Hr1 as (Ec & Er & [K1 K2] & Hroom). clearbody r1. unfold kRecvChunkSizeInBytes in Hroom.
  apply wp_bind, wp_get. cbn [rcv set_rcv]. apply wp_bind. unfold on_connection. eapply wp_zoom; [done|]. cbn [rcv set_rcv].
  eapply wp_CtrlMsgPlugin_RecvOnce; [apply ran_refl|lia|]. intros o c' h' Ho. rewrite Ec in Ho. cbn [rcv set_rcv msgs].
  set (r2 := set_connection c' r1).
  assert (Hs2 : forall a b ms, ran (connection_ (rcv s)) h c' h' a b ->
            safe (connection_ (rcv s)) h {| rcv := r2; msgs := ms |} h').
  { intros a b ms R. split; [by constructor|]. by exists a, b. }
  destruct o as [e|[[|b bs]|e]]; cbn [once_ok] in Ho.
  - by eapply Hs2.
  - destruct Ho as [Ho _]. apply wp_fail. by eapply Hs2.
  - destruct Ho as (Ho & _ & Hle). apply wp_bind, wp_modify, wp_bind, wp_modify, wp_bind, wp_get. cbn [rcv set_rcv].
    set (r3 := set_received _ (set_buffer _ _)).
    assert (Hs3 : safe (connection_ (rcv s)) h {| rcv := r3; msgs := msgs s |} h').
    { split; [|by eexists _, _]. constructor; [|exact K2]. cbn [rcv r3 set_received set_buffer received_size_ recv_buffer_ r2 set_connection].
      rewrite !length_app, length_take, length_drop. cbn [r2 set_connection received_size_ recv_buffer_] in *. lia. }
    eapply wp_loop with (n := received_size_ r3) (I := fun n _ s' h' => safe (connection_ (rcv s)) h s' h' /\
        n = received_size_ (rcv s')).
    + intros n [] s' h2 [[[? _] _] ->]. lia.
    + intros n [] s' h2 [Hs ->]. eapply wp_mono; [by apply wp_irecv_round_ok|].
      intros [e|[[]|[]]] s2 h3 [Hs4 Hlt]; [done| |done]. eexists. by split; [exact Hlt|].
    + destruct Hs3 as [[? _] _]. cbn [rcv] in *. rewrite Z2Pos.id by lia. lia.
    + split; [exact Hs3|done].
  - unfold CheckRecv. apply wp_require; intros _; by eapply Hs2.
Qed.
End IRecv.
