(* ===== verification/ConnMsg.v ===== *)
(** The requests and responses of a connection: hixl/cs/conn_msg_handler.cc, the
    request of hixl/cs/mem_msg_handler.cc, and the responses of
    hixl/cs/hixl_cs_server.cc. *)

From S2P Require Import Prelude Effects External Wire Net CtrlConn.

Section Messages.
Context {env : Environment NetOp} `{Sec : Securec} `{Abi : HcommAbi}.
Let C := M NetOp Conn.

(** The success of the checked memory functions. *)
Definition EOK_ : Z := 0.

(** ** Sending *)
Definition SendHeaderTypeBody (header : CtrlMsgHeader) (msg_type : CtrlMsgType) (body : list Z) : C unit :=
  CtrlMsgPlugin_Send (CtrlMsgHeader_bytes header) kDefaultCtrlTimeoutMs ;;
  CtrlMsgPlugin_Send (CtrlMsgType_bytes msg_type) kDefaultCtrlTimeoutMs ;;
  CtrlMsgPlugin_Send body kDefaultCtrlTimeoutMs.

(** The bodies are the bytes of [MatchEndpointReq] and [CreateChannelReq]. *)
Definition SendMatchEndpointRequest (body : list Z) : C unit :=
  SendHeaderTypeBody (header_of sizeof_MatchEndpointReq) kMatchEndpointReq body.
Definition SendCreateChannelRequest (body : list Z) : C unit :=
  SendHeaderTypeBody (header_of sizeof_CreateChannelReq) kCreateChannelReq body.

Definition SendGetRemoteMemRequest (endpoint_handle timeout_ms : Z) : C unit :=
  let send_timeout_ms := if timeout_ms =? 0 then kDefaultCtrlTimeoutMs else timeout_ms in
  CtrlMsgPlugin_Send (CtrlMsgHeader_bytes (header_of sizeof_GetRemoteMemReq)) send_timeout_ms ;;
  CtrlMsgPlugin_Send (CtrlMsgType_bytes kGetRemoteMemReq) send_timeout_ms ;;
  CtrlMsgPlugin_Send (GetRemoteMemReq_bytes {| gmr_dst_ep_handle := endpoint_handle |}) send_timeout_ms.

(** [pad1] and [pad2] are the padding of the structure. *)
Definition SendMatchEndpointResp (pad1 pad2 : Z) (resp : MatchEndpointResp) : C unit :=
  CtrlMsgPlugin_Send (CtrlMsgHeader_bytes (header_of sizeof_MatchEndpointResp)) kDefaultCtrlTimeoutMs ;;
  CtrlMsgPlugin_Send (CtrlMsgType_bytes kMatchEndpointResp) kDefaultCtrlTimeoutMs ;;
  CtrlMsgPlugin_Send (MatchEndpointResp_bytes pad1 pad2 resp) kDefaultCtrlTimeoutMs.

Definition SendCreateChannelResp (resp : CreateChannelResp) : C unit :=
  CtrlMsgPlugin_Send (CtrlMsgHeader_bytes (header_of sizeof_CreateChannelResp)) kDefaultCtrlTimeoutMs ;;
  CtrlMsgPlugin_Send (CtrlMsgType_bytes kCreateChannelResp) kDefaultCtrlTimeoutMs ;;
  CtrlMsgPlugin_Send (CreateChannelResp_bytes resp) kDefaultCtrlTimeoutMs.

(** ** Receiving *)
Definition RecvAndCheckHeader (expect_body_size timeout_ms : Z) : C CtrlMsgHeader :=
  let* bs := CtrlMsgPlugin_Recv (Z.of_nat sizeof_CtrlMsgHeader) timeout_ms in
  let header := CtrlMsgHeader_of bs in
  require (magic header =? kMagicNumber) PARAM_INVALID ;;
  require (body_size header =? expect_body_size) PARAM_INVALID ;;
  ret header.

Definition RecvBody (body_size timeout_ms : Z) : C (list Z) := CtrlMsgPlugin_Recv (u32 body_size) timeout_ms.

(** [memcpy_s] of a structure of [n] bytes at [offset] of the body. *)
Definition copy_struct (body : list Z) (offset n : nat) : C (list Z) :=
  let '(rc, bytes) := memcpy_s (replicate n 0) (Z.of_nat n) (drop offset body) (Z.of_nat n) in
  require (rc =? EOK_) FAILED ;;
  ret bytes.

(** The offset after the type. *)
Definition ParseMsgType (body : list Z) (offset : nat) (expected : CtrlMsgType) : C nat :=
  require (offset + sizeof_CtrlMsgType <=? length body)%nat PARAM_INVALID ;;
  let* bytes := copy_struct body offset sizeof_CtrlMsgType in
  require (CtrlMsgType_of bytes =? expected) PARAM_INVALID ;;
  ret (offset + sizeof_CtrlMsgType)%nat.

Definition ParseCreateChannelResp (body : list Z) (offset : nat) : C CreateChannelResp :=
  require (offset + sizeof_CreateChannelResp <=? length body)%nat PARAM_INVALID ;;
  let* bytes := copy_struct body offset sizeof_CreateChannelResp in
  ret (CreateChannelResp_of bytes).

Definition ParseMatchEndpointResp (body : list Z) (offset : nat) : C MatchEndpointResp :=
  require (offset + sizeof_MatchEndpointResp <=? length body)%nat PARAM_INVALID ;;
  let* bytes := copy_struct body offset sizeof_MatchEndpointResp in
  ret (MatchEndpointResp_of bytes).

(** The remote endpoint handle, its port and the channel index. *)
Definition RecvMatchEndpointHandleResponse (timeout_ms : Z) : C (Z * Z * Z) :=
  let expect_body_size := Z.of_nat (sizeof_CtrlMsgType + sizeof_MatchEndpointResp) in
  let* header := RecvAndCheckHeader expect_body_size timeout_ms in
  let* body := RecvBody (body_size header) timeout_ms in
  let* offset := ParseMsgType body 0 kMatchEndpointResp in
  let* resp := ParseMatchEndpointResp body offset in
  require (mer_result resp =? SUCCESS) FAILED ;;
  ret (mer_dst_ep_handle resp, mer_port resp, mer_channel_index resp).

Definition RecvCreateChannelOnlyResponse (timeout_ms : Z) : C unit :=
  let expect_body_size := Z.of_nat (sizeof_CtrlMsgType + sizeof_CreateChannelResp) in
  let* header := RecvAndCheckHeader expect_body_size timeout_ms in
  let* body := RecvBody (body_size header) timeout_ms in
  let* offset := ParseMsgType body 0 kCreateChannelResp in
  let* resp := ParseCreateChannelResp body offset in
  require (ccr_result resp =? SUCCESS) FAILED.

Definition RecvMatchEndpointResponse (timeout_ms : Z) : C (Z * Z * Z) := RecvMatchEndpointHandleResponse timeout_ms.
Definition RecvCreateChannelResponse (timeout_ms : Z) : C unit := RecvCreateChannelOnlyResponse timeout_ms.
End Messages.
