(* ===== verification/ConnMsgSafety.v ===== *)
(** Theorems about the control messages: what one side sends is what the other side
    gets, however the network cuts the stream. *)

From S2P Require Import Prelude Effects External Wire Net CtrlConn CtrlConnSpec MsgReceiver MsgReceiverSpec ConnMsg NetReference.

Section Spec.
Context {env : Environment NetOp} {Hnet : NetLaws env} `{Sec : Securec} {SecL : SecurecLaws Sec} `{Abi : HcommAbi}.

(** * Sending a frame *)
Lemma wp_send3 (Q : Status + unit -> Conn -> History NetOp -> Prop) b1 b2 b3 m1 m2 m3 c h :
  (forall o c' h' done rest, ran c h c' h' done [] -> b1 ++ b2 ++ b3 = done ++ rest ->
     (o = inr tt -> rest = []) -> Q o c' h') ->
  wp (CtrlMsgPlugin_Send b1 m1 ;; CtrlMsgPlugin_Send b2 m2 ;; CtrlMsgPlugin_Send b3 m3) Q c h.
Proof.
  intros HQ. apply wp_bind, wp_Send. intros [e|[]] c1 h1 d1 r1 R1 E1 O1.
  { eapply (HQ _ _ _ d1 (r1 ++ b2 ++ b3)); [exact R1|by rewrite E1, <- app_assoc|done]. }
  rewrite (O1 eq_refl), app_nil_r in E1. subst d1.
  apply wp_bind, wp_Send. intros [e|[]] c2 h2 d2 r2 R2 E2 O2; pose proof (ran_trans _ _ _ _ _ _ _ _ _ _ R1 R2) as R.
  { eapply (HQ _ _ _ (b1 ++ d2) (r2 ++ b3)); [exact R|by rewrite E2, <- !app_assoc|done]. }
  rewrite (O2 eq_refl), app_nil_r in E2. subst d2.
  apply wp_Send. intros o c3 h3 d3 r3 R3 E3 O3. pose proof (ran_trans _ _ _ _ _ _ _ _ _ _ R R3) as R'.
  eapply (HQ _ _ _ ((b1 ++ b2) ++ d3) r3); [exact R'|by rewrite E3, <- !app_assoc|done].
Qed.

(** [m] sends the bytes [buf]: a prefix of them, all when it succeeds. *)
Definition sends (m : M NetOp Conn unit) (buf : list Z) : Prop :=
  forall c h, wp m (fun o c' h' => exists done rest, ran c h c' h' done [] /\ buf = done ++ rest /\
                      (o = inr tt -> rest = [])) c h.

Lemma sends_frame t body m1 m2 m3 n :
  length body = n ->
  sends (CtrlMsgPlugin_Send (CtrlMsgHeader_bytes (header_of n)) m1 ;;
         CtrlMsgPlugin_Send (CtrlMsgType_bytes t) m2 ;; CtrlMsgPlugin_Send body m3)
        (frame {| msg_type := t; msg := body |}).
Proof. intros <- c h. apply wp_send3. intros o c' h' done rest R E O. by exists done, rest. Qed.

(** * Requests *)
Inductive Request :=
| MatchEndpointRequest (body : list Z)
| CreateChannelRequest (body : list Z)
| GetRemoteMemRequest (endpoint_handle timeout_ms : Z).

Definition send_request (r : Request) : M NetOp Conn unit :=
  match r with
  | MatchEndpointRequest body => SendMatchEndpointRequest body
  | CreateChannelRequest body => SendCreateChannelRequest body
  | GetRemoteMemRequest handle ms => SendGetRemoteMemRequest handle ms
  end.

(** The message that a request is. *)
Definition request_msg (r : Request) : CtrlMsg :=
  match r with
  | MatchEndpointRequest body => {| msg_type := kMatchEndpointReq; msg := body |}
  | CreateChannelRequest body => {| msg_type := kCreateChannelReq; msg := body |}
  | GetRemoteMemRequest handle _ =>
      {| msg_type := kGetRemoteMemReq; msg := GetRemoteMemReq_bytes {| gmr_dst_ep_handle := handle |} |}
  end.

(** Structures have their size, and their fields their ranges. *)
Definition request_ok (r : Request) : Prop :=
  match r with
  | MatchEndpointRequest body => length body = sizeof_MatchEndpointReq /\ Forall is_byte body
  | CreateChannelRequest body => length body = sizeof_CreateChannelReq /\ Forall is_byte body
  | GetRemoteMemRequest handle ms => is_u64 handle /\ is_u32 ms
  end.

(** The structures of the ABI fit in a message. *)
Definition abi_ok : Prop :=
  Z.of_nat (sizeof_CtrlMsgType + sizeof_MatchEndpointReq) <= kMaxBodySizeInBytes /\
  Z.of_nat (sizeof_CtrlMsgType + sizeof_CreateChannelReq) <= kMaxBodySizeInBytes.

Lemma sends_request r : request_ok r -> sends (send_request r) (frame (request_msg r)).
Proof.
  destruct r as [body|body|handle ms]; cbn [request_ok send_request request_msg].
  - intros [Hl _]. by apply sends_frame.
  - intros [Hl _]. by apply sends_frame.
  - intros _. apply sends_frame, length_le_bytes.
Qed.

Lemma request_msg_ok r : abi_ok -> request_ok r -> msg_ok (request_msg r).
Proof.
  intros [A1 A2]. destruct r as [body|body|handle ms]; cbn [request_ok request_msg]; unfold msg_ok; cbn [msg_type msg].
  - intros [-> Hb]. split_and!; [by split|exact Hb|exact A1].
  - intros [-> Hb]. split_and!; [by split|exact Hb|exact A2].
  - intros _. split_and!; [by split|apply le_bytes_are_bytes|]. unfold GetRemoteMemReq_bytes. by rewrite length_le_bytes.
Qed.

Definition send_requests (rs : list Request) : M NetOp Conn unit := for_each rs send_request.

Lemma sends_requests rs : Forall request_ok rs -> sends (send_requests rs) (stream (map request_msg rs)).
Proof.
  unfold send_requests, stream. induction 1 as [|r rs Hr Hrs IH]; intros c h; cbn [map concat for_each].
  - apply wp_ret. exists [], []. split_and!; [apply ran_refl|done|done].
  - apply wp_bind. eapply wp_mono; [by apply sends_request|]. intros [e|[]] c1 h1 (d1 & r1 & R1 & E1 & O1).
    + exists d1, (r1 ++ concat (map frame (map request_msg rs))). split_and!; [done|by rewrite E1, <- app_assoc|done].
    + rewrite (O1 eq_refl), app_nil_r in E1. subst d1. eapply wp_mono; [apply IH|].
      intros o c2 h2 (d2 & r2 & R2 & E2 & O2). exists (frame (request_msg r) ++ d2), r2.
      split_and!; [exact (ran_trans _ _ _ _ _ _ _ _ _ _ R1 R2)|by rewrite E2, <- app_assoc|done].
Qed.

(** * Responses *)
Lemma wp_copy_struct (Q : Status + list Z -> Conn -> History NetOp -> Prop) body offset n c h :
  (0 < n)%nat -> Z.of_nat n <= 2 ^ 31 - 1 -> (offset + n <= length body)%nat ->
  Q (inr (bytes_at offset n body)) c h -> wp (copy_struct body offset n) Q c h.
Proof.
  intros H1 H2 H3 HQ. unfold copy_struct.
  rewrite memcpy_s_ok by (unfold copy_fits; rewrite length_replicate, length_drop; lia).
  unfold copied. rewrite Nat2Z.id, (drop_ge (replicate n 0)), app_nil_r by (by rewrite length_replicate).
  apply wp_bind, wp_require; [intros _|done]. by apply wp_ret.
Qed.

(** Receive a response whose bytes are known: [full] is what is on its way. *)
Lemma wp_RecvAndCheckHeader (Q : Status + CtrlMsgHeader -> Conn -> History NetOp -> Prop) expect ms c h :
  (forall e c' h' got, ran c h c' h' [] got -> (length got < sizeof_CtrlMsgHeader)%nat \/
     (length got = sizeof_CtrlMsgHeader /\
        CtrlMsgHeader_of got <> {| magic := kMagicNumber; body_size := expect |}) -> Q (inl e) c' h') ->
  (forall c' h', ran c h c' h' [] (CtrlMsgHeader_bytes {| magic := kMagicNumber; body_size := expect |}) ->
     Q (inr {| magic := kMagicNumber; body_size := expect |}) c' h') ->
  wp (RecvAndCheckHeader expect ms) Q c h.
Proof.
  intros He HQ. unfold RecvAndCheckHeader. apply wp_bind, wp_Recv.
  intros [e|bs] c1 h1 got R [Hb Hg].
  { eapply He; [exact R|]. left. unfold sizeof_CtrlMsgHeader in *. lia. }
  destruct Hg as [-> Hl]. assert (Hl' : length got = sizeof_CtrlMsgHeader) by (unfold sizeof_CtrlMsgHeader in *; lia).
  apply wp_bind, wp_require; intros H1; [|eapply He; [exact R|]; right; split; [done|]; intros E; by rewrite E in H1].
  apply wp_bind, wp_require; intros H2; [|eapply He; [exact R|]; right; split; [done|]; intros E; rewrite E in H2; simpl in H2; lia].
  apply Z.eqb_eq in H1, H2. assert (E : CtrlMsgHeader_of got = {| magic := kMagicNumber; body_size := expect |}).
  { destruct (CtrlMsgHeader_of got). simpl in *. by subst. }
  rewrite E in *. apply wp_ret, HQ. rewrite <- E.
  pose proof (CtrlMsgHeader_inverse got Hb ltac:(lia)) as Hi. rewrite drop_ge, app_nil_r in Hi by lia. by rewrite Hi.
Qed.

(** The bytes are no frame of a response with type [t] and [n] bytes. *)
Definition no_response (t : CtrlMsgType) (n : nat) (got : list Z) : Prop :=
  forall bs, length bs = n -> got <> frame {| msg_type := t; msg := bs |}.

Lemma too_short t n got : (length got < sizeof_CtrlMsgHeader + sizeof_CtrlMsgType + n)%nat -> no_response t n got.
Proof. intros H bs Hl ->. rewrite length_frame in H. simpl in H. lia. Qed.

Lemma wp_response {A} (Q : Status + A -> Conn -> History NetOp -> Prop) t n ms (k : list Z -> nat -> M NetOp Conn A) c h :
  is_int32 t -> Z.of_nat (sizeof_CtrlMsgType + n) <= kMaxBodySizeInBytes ->
  (forall e c' h' got, ran c h c' h' [] got -> no_response t n got -> Q (inl e) c' h') ->
  (forall c' h' bs, length bs = n -> Forall is_byte bs -> ran c h c' h' [] (frame {| msg_type := t; msg := bs |}) ->
     wp (k (CtrlMsgType_bytes t ++ bs) sizeof_CtrlMsgType) Q c' h') ->
  wp (let* header := RecvAndCheckHeader (Z.of_nat (sizeof_CtrlMsgType + n)) ms in
      let* body := RecvBody (body_size header) ms in
      let* offset := ParseMsgType body 0 t in k body offset) Q c h.
Proof.
  intros Ht Hn He Hk. destruct (header_of_ok n Hn) as (Hsz & _).
  assert (Hu : u32 (Z.of_nat (sizeof_CtrlMsgType + n)) = Z.of_nat (sizeof_CtrlMsgType + n)).
  { apply u32_small. unfold kMaxBodySizeInBytes in Hn. ulia. }
  apply wp_bind, wp_RecvAndCheckHeader.
  { intros e c1 h1 got R [Hl|[Hl _]]; (eapply He; [exact R|]; apply too_short; unfold sizeof_CtrlMsgHeader, sizeof_CtrlMsgType in *; lia). }
  intros c1 h1 R1. cbn [body_size]. apply wp_bind. unfold RecvBody. rewrite Hu. apply wp_Recv.
  intros [e|body] c2 h2 got R2 [Hby Hg]; pose proof (ran_trans _ _ _ _ _ _ _ _ _ _ R1 R2) as R.
  { eapply He; [exact R|]. apply too_short. rewrite length_app, length_header. unfold sizeof_CtrlMsgType in *. lia. }
  destruct Hg as [-> Hl2]. assert (Hlen : length got = (sizeof_CtrlMsgType + n)%nat) by lia.
  apply wp_bind. unfold ParseMsgType. apply wp_bind, wp_require; intros Hfit; [|apply Nat.leb_gt in Hfit; lia].
  apply wp_bind, wp_copy_struct; [unfold sizeof_CtrlMsgType; lia|unfold sizeof_CtrlMsgType; lia|lia|].
  assert (Hty : CtrlMsgType_of (bytes_at 0 sizeof_CtrlMsgType got) = CtrlMsgType_of got).
  { unfold CtrlMsgType_of. by rewrite (bytes_at_all 4 (bytes_at 0 sizeof_CtrlMsgType got))
      by (apply length_bytes_at; unfold sizeof_CtrlMsgType in *; lia). }
  assert (Hhd : CtrlMsgHeader_bytes {| magic := kMagicNumber; body_size := Z.of_nat (sizeof_CtrlMsgType + n) |} =
                CtrlMsgHeader_bytes (header_of n)) by (unfold header_of; cbn in Hsz |- *; by rewrite Hsz).
  rewrite Hhd in R. cbn [app] in R.
  rewrite Hty. apply wp_bind, wp_require; intros Htype; [|eapply He; [exact R|]].
  - apply Z.eqb_eq in Htype. apply wp_ret. rewrite <- (take_drop sizeof_CtrlMsgType got).
    rewrite <- CtrlMsgType_inverse, Htype by (first [done|lia]).
    apply (Hk c2 h2 (drop sizeof_CtrlMsgType got)); [rewrite length_drop; lia|by apply Forall_drop|].
    unfold frame; cbn [msg msg_type]. rewrite length_drop, Hlen.
    replace (sizeof_CtrlMsgType + n - sizeof_CtrlMsgType)%nat with n by lia.
    by rewrite <- Htype, CtrlMsgType_inverse, take_drop by (first [done|lia]).
  - intros bs Hbs E. unfold frame in E. cbn [msg msg_type] in E. rewrite Hbs in E. apply app_inv_head in E.
    rewrite E, CtrlMsgType_roundtrip in Htype by done. by rewrite Z.eqb_refl in Htype.
Qed.
End Spec.

(** * Theorems *)

(** C3: requests arrive as they were sent.  For any operating systems at the two ends,
    if a client sends a list of requests (of endpoint matching, channel creation or
    remote memory), over TLS or not, and the server has received any part of the bytes
    that were sent, in pieces of any size and with any number of interruptions, then
    the messages that its event loop took from them are the first requests, in order
    and with their type and body; all of them once everything was sent and received. *)
Theorem requests_delivered (envC envS : Environment NetOp) {LC : NetLaws envC} {LS : NetLaws envS}
    `{Sec : Securec} {SecL : SecurecLaws Sec} `{Abi : HcommAbi} (rs : list Request) (n : nat) (cC cS : Conn) :
  abi_ok -> Forall request_ok rs -> news_ok (env := envS) ->
  wp (send_requests (env := envC) rs) (fun o _ hC =>
    wp (receive_all (env := envS) n) (fun _ s hS =>
      received hS `prefix_of` sent hC ->
      msgs s `prefix_of` map request_msg rs /\
      (o = inr tt -> received hS = sent hC -> msgs s = map request_msg rs))
      {| rcv := MsgReceiver_new cS; msgs := [] |} []) cC [].
Proof.
  intros Habi Hrs Hnew.
  assert (Hms : Forall msg_ok (map request_msg rs)).
  { apply Forall_map. eapply Forall_impl; [exact Hrs|]. intros r. by apply request_msg_ok. }
  pose proof (parse_stream (map request_msg rs) [] Hms) as Hparse. rewrite app_nil_r, parse_nil, app_nil_r in Hparse.
  eapply wp_mono; [by apply sends_requests|]. intros o c' hC (done & rest & R & Hs & Ho).
  apply ran_sent in R. cbn [sent app] in R. rewrite R.
  destruct (new_ready cS) as (W & P & I).
  eapply wp_mono; [by apply (wp_receive_all n [])|]. cbn [received app]. intros o' s hS (bs & r & -> & _ & Hr & _) Hpre.
  assert (Hmsgs : msgs s = (parse bs).1).
  { destruct r as [e|]; [destruct Hr as [_ Hr]; by apply Hr|]. destruct Hr as [_ Hr]. by rewrite Hr. }
  rewrite Hmsgs. split.
  - destruct Hpre as [ext Hext]. pose proof (parse_app bs (ext ++ rest)) as Hp.
    rewrite app_assoc, <- Hext, <- Hs, Hparse in Hp. exact Hp.
  - intros E Hall. rewrite Hall. rewrite (Ho E), app_nil_r in Hs. by rewrite <- Hs, Hparse.
Qed.

Lemma net_ref_news tls input : news_ok (env := net_ref tls false input).
Proof. done. Qed.

(** Two requests, from a plain client to a TLS server, received in nine calls. *)
Definition demo_abi : HcommAbi := {| sizeof_MatchEndpointReq := 3; sizeof_CreateChannelReq := 2 |}.
Definition demo_requests : list Request := [MatchEndpointRequest [7; 8; 9]; GetRemoteMemRequest 513 0].
Definition demo_stream : list Z := stream (map request_msg demo_requests).
Definition connected (tls : bool) : Conn :=
  {| fd_ := 5; initialized_ := true; tls_enabled_ := tls;
     tls_session_ := if tls then Some {| handshake_complete_ := true; failed_ := false; ssl_ := 6; session_fd := 5 |} else None;
     err_no := 0 |}.

Lemma demo_stream_bytes : Forall is_byte demo_stream.
Proof. repeat constructor; vm_compute; done. Qed.

Lemma requests_delivered_witness :
  let client := send_requests (env := net_ref false false []) (Abi := demo_abi) demo_requests (connected false) [] in
  let server := receive_all (env := net_ref true false demo_stream) (Sec := securec_ref) 9
                  {| rcv := MsgReceiver_new (connected true); msgs := [] |} [] in
  sent client.2 = demo_stream /\ received server.2 = demo_stream /\ msgs server.1.2 = map request_msg demo_requests.
Proof.
  intros client server. split; [vm_compute; done|]. split; [vm_compute; done|].
  assert (Hwp := requests_delivered (net_ref false false []) (net_ref true false demo_stream)
    (LC := net_ref_laws false false [] (List.Forall_nil _)) (LS := net_ref_laws true false demo_stream demo_stream_bytes)
    (Sec := securec_ref) (Abi := demo_abi) demo_requests 9 (connected false) (connected true)
    ltac:(split; vm_compute; discriminate) ltac:(repeat constructor; vm_compute; done) (net_ref_news _ _)).
  assert (E1 : client.1.1 = Ret tt) by (vm_compute; reflexivity).
  assert (E2 : server.1.1 = Ret None) by (vm_compute; reflexivity).
  assert (Hs := wp_run _ _ _ _ _ (wp_run _ _ _ _ _ Hwp E1) E2). cbv beta in Hs.
  apply Hs; [exists []; vm_compute; reflexivity|reflexivity|vm_compute; reflexivity].
Defined.

(** A frame determines its payload. *)
Lemma frame_payload t bs bs' :
  length bs = length bs' -> frame {| msg_type := t; msg := bs |} = frame {| msg_type := t; msg := bs' |} -> bs = bs'.
Proof. unfold frame; cbn [msg msg_type]. intros -> H. by apply app_inv_head, app_inv_head in H. Qed.

Section Responses.
Context {env : Environment NetOp} {Hnet : NetLaws env} `{Sec : Securec} {SecL : SecurecLaws Sec}.

(** The field of a structure that follows its type. *)
Lemma bytes_after_type t bs n :
  length bs = n -> bytes_at sizeof_CtrlMsgType n (CtrlMsgType_bytes t ++ bs) = bs.
Proof.
  intros <-. rewrite bytes_at_app_r by (by rewrite length_type). by rewrite length_type, Nat.sub_diag, bytes_at_all.
Qed.

Lemma wp_RecvMatchEndpointResponse (Q : Status + (Z * Z * Z) -> Conn -> History NetOp -> Prop) ms c h :
  (forall e c' h' got, ran c h c' h' [] got -> no_response kMatchEndpointResp sizeof_MatchEndpointResp got ->
     Q (inl e) c' h') ->
  (forall c' h' bs, length bs = sizeof_MatchEndpointResp ->
     ran c h c' h' [] (frame {| msg_type := kMatchEndpointResp; msg := bs |}) ->
     let r := MatchEndpointResp_of bs in
     Q (if mer_result r =? SUCCESS then inr (mer_dst_ep_handle r, mer_port r, mer_channel_index r) else inl FAILED) c' h') ->
  wp (RecvMatchEndpointResponse ms) Q c h.
Proof.
  intros He HQ. unfold RecvMatchEndpointResponse, RecvMatchEndpointHandleResponse. cbv zeta.
  eapply (wp_response _ kMatchEndpointResp sizeof_MatchEndpointResp); [done|done|exact He|].
  intros c' h' bs Hl Hb R. specialize (HQ c' h' bs Hl R). cbv zeta in HQ.
  apply wp_bind. unfold ParseMatchEndpointResp. apply wp_bind, wp_require; intros Hfit.
  2:{ apply Nat.leb_gt in Hfit. rewrite length_app, length_type in Hfit. lia. }
  apply wp_bind, wp_copy_struct; [unfold sizeof_MatchEndpointResp; lia|done|rewrite length_app, length_type; lia|].
  rewrite bytes_after_type by done. apply wp_ret.
  apply wp_bind, wp_require; intros Hr; rewrite Hr in HQ; [by apply wp_ret|done].
Qed.
End Responses.

(** C19: a response is received exactly or not at all.  For any operating systems at the
    two ends, when the server sends the response to an endpoint match, whatever part of
    it was sent and whatever part of that the client received, in pieces of any size,
    the client returns a handle, a port and a channel index only if it received the
    whole response, the response reports success, and they are its fields; if the whole
    response arrived, the client fails only with FAILED and only if the response does
    not report success. *)
Theorem match_response_roundtrip (envS envC : Environment NetOp) {LS : NetLaws envS} {LC : NetLaws envC}
    `{Sec : Securec} {SecL : SecurecLaws Sec} (resp : MatchEndpointResp) (pad1 pad2 ms : Z) (cS cC : Conn) :
  resp_ok resp ->
  wp (SendMatchEndpointResp (env := envS) pad1 pad2 resp) (fun o _ hS =>
    wp (RecvMatchEndpointResponse (env := envC) ms) (fun o' _ hC =>
      received hC `prefix_of` sent hS ->
      match o' with
      | inr fields =>
          received hC = sent hS /\ mer_result resp = SUCCESS /\
          fields = (mer_dst_ep_handle resp, mer_port resp, mer_channel_index resp)
      | inl e => o = inr tt -> received hC = sent hS -> e = FAILED /\ mer_result resp <> SUCCESS
      end) cC []) cS [].
Proof.
  intros Hresp. set (bytes := MatchEndpointResp_bytes pad1 pad2 resp).
  assert (Hlen : length bytes = sizeof_MatchEndpointResp) by apply length_MatchEndpointResp.
  set (full := frame {| msg_type := kMatchEndpointResp; msg := bytes |}).
  eapply wp_mono; [by apply (sends_frame kMatchEndpointResp bytes)|]. intros o c1 hS (done & rest & R & Hs & Ho).
  apply ran_sent in R. cbn [sent app] in R. rewrite R. clear R.
  apply wp_RecvMatchEndpointResponse.
  - intros e c2 hC got R Hno Hpre. apply ran_received in R. cbn [received app] in R.
    intros E Hall. exfalso. apply (Hno bytes Hlen). rewrite (Ho E), app_nil_r in Hs. congruence.
  - intros c2 hC bs Hbs R r [ext Hpre]. apply ran_received in R. cbn [received app] in R.
    assert (Hext : ext = [] /\ rest = []).
    { apply (f_equal length) in Hs, Hpre. rewrite length_app in Hs. rewrite R, length_app in Hpre.
      unfold full in Hs. rewrite !length_frame in Hs. rewrite length_frame in Hpre. cbn [msg] in *.
      split; apply length_zero_iff_nil; lia. }
    destruct Hext as [-> ->]. rewrite app_nil_r in Hpre, Hs. subst done.
    assert (bs = bytes) as ->.
    { apply (frame_payload kMatchEndpointResp); [congruence|]. by rewrite <- R, <- Hpre. }
    unfold r, bytes. rewrite MatchEndpointResp_roundtrip by done.
    destruct (Z.eqb_spec (mer_result resp) SUCCESS) as [Hr|Hr]; [by split_and!|]. by intros _ _.
Qed.

(** The response reaches a TLS client in pieces of five bytes. *)
Definition demo_resp : MatchEndpointResp :=
  {| mer_result := SUCCESS; mer_dst_ep_handle := 0x7f0012345678; mer_port := 16666; mer_channel_index := 42 |}.

Lemma demo_resp_ok : resp_ok demo_resp.
Proof. unfold resp_ok. split_and!; vm_compute; split; congruence. Qed.

Lemma match_response_roundtrip_witness :
  let server := SendMatchEndpointResp (env := net_ref false false []) 0 255 demo_resp (connected false) [] in
  let client := RecvMatchEndpointResponse (env := net_ref true false (sent server.2)) (Sec := securec_ref) 1000 (connected true) [] in
  client.1.1 = Ret (0x7f0012345678, 16666, 42) /\
  received client.2 = sent server.2 /\ mer_result demo_resp = SUCCESS /\
  (0x7f0012345678, 16666, 42) =
    (mer_dst_ep_handle demo_resp, mer_port demo_resp, mer_channel_index demo_resp).
Proof.
  intros server client. assert (E2 : client.1.1 = Ret (0x7f0012345678, 16666, 42)) by (vm_compute; reflexivity).
  split; [exact E2|].
  assert (E1 : server.1.1 = Ret tt) by (vm_compute; reflexivity).
  assert (Hb : Forall is_byte (sent server.2)) by (apply (bool_decide_unpack _); vm_compute; exact I).
  assert (Hwp := match_response_roundtrip (net_ref false false []) (net_ref true false (sent server.2))
    (LS := net_ref_laws false false [] (List.Forall_nil _)) (LC := net_ref_laws true false _ Hb)
    (Sec := securec_ref) demo_resp 0 255 1000 (connected false) (connected true) demo_resp_ok).
  apply (fun H => wp_run _ _ _ _ _ H E1) in Hwp. cbv beta in Hwp.
  apply (fun H => wp_run _ _ _ _ _ H E2) in Hwp. cbv beta in Hwp.
  apply Hwp. exists []. vm_compute. reflexivity.
Defined.

(** C4: a receiver computes the reference parser of its input.  For any operating
    system, any bytes in pieces of any size and any number of calls, every call of the
    receiver ends; the messages it delivered are those that the reference parser finds
    in all bytes received so far, a bad header among them stops it with PARAM_INVALID,
    it never accesses a byte outside its buffer, and the buffer never exceeds the
    largest message and one chunk. *)
Theorem receive_all_parses (env : Environment NetOp) {Hnet : NetLaws env} `{Sec : Securec} {SecL : SecurecLaws Sec}
    (n : nat) (c : Conn) :
  news_ok (env := env) ->
  wp (receive_all n) (fun o s h => exists r, o = inr r /\
    msgs s = (parse (received h)).1 /\
    ((parse (received h)).2 = BadHeader -> r = Some PARAM_INVALID) /\
    Z.of_nat (length (recv_buffer_ (rcv s))) <= kMaxBodySizeInBytes + kRecvChunkSizeInBytes)
    {| rcv := MsgReceiver_new c; msgs := [] |} [].
Proof.
  intros Hnew. destruct (new_ready c) as (W & P & I).
  eapply wp_mono; [by apply (wp_receive_all n [])|]. cbn [app received].
  intros o s h (bs & r & -> & -> & Hr & Hb). exists r. split; [done|].
  destruct r as [e|].
  - destruct Hr as [_ Hr]. destruct (Hr Hnew) as [Hm Hv]. split_and!; [done| |exact Hb]. intros Hbad. by rewrite (Hv Hbad).
  - destruct Hr as [_ Hr]. rewrite Hr. by split_and!.
Qed.

(** A message, then a header with the wrong magic number. *)
Definition demo_bad : list Z := frame {| msg_type := 12; msg := [1; 2] |} ++ replicate 12 9.

Lemma receive_all_parses_witness :
  let run := receive_all (env := net_ref false false demo_bad) (Sec := securec_ref) 20
               {| rcv := MsgReceiver_new (connected false); msgs := [] |} [] in
  run.1.1 = Ret (Some PARAM_INVALID) /\ msgs run.1.2 = [{| msg_type := 12; msg := [1; 2] |}] /\
  exists r, inr (Some PARAM_INVALID) = (inr r : Status + option Status) /\
    msgs run.1.2 = (parse (received run.2)).1 /\
    ((parse (received run.2)).2 = BadHeader -> r = Some PARAM_INVALID) /\
    Z.of_nat (length (recv_buffer_ (rcv run.1.2))) <= kMaxBodySizeInBytes + kRecvChunkSizeInBytes.
Proof.
  intros run. assert (E : run.1.1 = Ret (Some PARAM_INVALID)) by (vm_compute; reflexivity).
  split; [exact E|]. split; [vm_compute; reflexivity|].
  assert (Hb : Forall is_byte demo_bad) by (apply (bool_decide_unpack _); vm_compute; exact I).
  assert (Hwp := receive_all_parses (net_ref false false demo_bad) (Hnet := net_ref_laws false false _ Hb)
    (Sec := securec_ref) 20 (connected false) (net_ref_news _ _)).
  exact (wp_run _ _ _ _ _ Hwp E).
Defined.
