(* ===== verification/HostRegister.v ===== *)
(** Host memory mapped for a device: hixl/cs/host_register_proxy.cc.

    [Proxies] is the global table of the file, one proxy a device (null where its
    allocation failed); the mutexes make each call atomic. *)

From S2P Require Import Prelude StdMap Effects Runtime Hcomm Net.

Record HostMemInfo := { host_addr : Z; hmi_size : Z; device_addr : Z; ref_cnt : Z }.
Definition HostRegisterProxy : Type := list (Z * HostMemInfo).
Definition Proxies : Type := list (Z * option HostRegisterProxy).

Definition INT32_MAX_ : Z := 2 ^ 31 - 1.
Definition set_ref_cnt (n : Z) (i : HostMemInfo) : HostMemInfo :=
  {| host_addr := host_addr i; hmi_size := hmi_size i; device_addr := device_addr i; ref_cnt := n |}.

Section Proxy.
Context {codes : AclCodes} {env : Environment NetOp}.

(** HIXL_CHK_ACL_RET and HIXL_CHK_HCCL_RET on a result that was returned. *)
Definition chk_acl {S} (e : Z) : M NetOp S unit := if e =? 0 then ret tt else fail (acl_status e).
Definition chk_hccl {S} (e : Z) : M NetOp S unit := if e =? HCCL_SUCCESS then ret tt else fail (ConvertHcommErrorToStatus e).

(** ** One proxy *)
Definition Register (addr size : Z) : M NetOp HostRegisterProxy Z :=
  require (negb (is_null addr)) PARAM_INVALID ;;
  let* registered_mems_ := get in
  match std_find addr registered_mems_ with
  | Some it =>
      if negb (hmi_size it =? size) then fail PARAM_INVALID else
      modify (std_set addr (set_ref_cnt (ref_cnt it + 1) it)) ;;
      ret (device_addr it)
  | None =>
      let* r := call (Hc (HostRegister addr size)) in
      let '(e, dev_ptr) := r in
      chk_acl e ;;
      modify (std_set addr {| host_addr := addr; hmi_size := size; device_addr := dev_ptr; ref_cnt := 0 + 1 |}) ;;
      ret dev_ptr
  end.

Definition Unregister (addr : Z) : M NetOp HostRegisterProxy unit :=
  require (negb (is_null addr)) PARAM_INVALID ;;
  let* registered_mems_ := get in
  match std_find addr registered_mems_ with
  | None => ret tt
  | Some it =>
      modify (std_set addr (set_ref_cnt (ref_cnt it - 1) it)) ;;
      if 0 <? ref_cnt it - 1 then ret tt else
      let* e := call (Hc (HostUnregister addr)) in
      chk_acl e ;;
      modify (std_erase addr)
  end.

(** [~HostRegisterProxy]: what is left is unregistered. *)
Definition HostRegisterProxy_delete : M NetOp HostRegisterProxy unit :=
  let* registered_mems_ := get in
  for_each registered_mems_ (fun pair => let* _ := call (Hc (HostUnregister pair.1)) in ret tt) ;;
  put [].

Definition GetRegisteredDeviceAddr (addr : Z) (p : HostRegisterProxy) : Status + Z :=
  match std_find addr p with Some it => inr (device_addr it) | None => inl FAILED end.

(** ** The table of proxies *)
Definition HostRegisterProxy_GetInstance (dev_phy_id : Z) (px : Proxies) : option HostRegisterProxy :=
  if INT32_MAX_ <? dev_phy_id then None else
  match std_find dev_phy_id px with Some p => p | None => None end.

(** Whether there is a proxy, created if it was missing. *)
Definition GetOrCreateInstance (dev_phy_id : Z) : M NetOp Proxies bool :=
  let* px := get in
  match HostRegisterProxy_GetInstance dev_phy_id px with
  | Some _ => ret true
  | None =>
      if INT32_MAX_ <? dev_phy_id then ret false else
      let* made := call NetNew in
      modify (fun px : Proxies => std_set dev_phy_id (if (made : bool) then Some ([] : HostRegisterProxy) else None) px) ;;
      ret made
  end.

Definition with_proxy {A} (dev_phy_id : Z) (m : M NetOp HostRegisterProxy A) : M NetOp Proxies A :=
  let* found := GetOrCreateInstance dev_phy_id in
  require found PARAM_INVALID ;;
  zoom (HostRegisterProxy_GetInstance dev_phy_id) (fun p (px : Proxies) => std_set dev_phy_id (Some p) px) (fun _ => m).

Definition RegisterByDev (dev_phy_id addr size : Z) : M NetOp Proxies Z := with_proxy dev_phy_id (Register addr size).
Definition UnregisterByDev (dev_phy_id addr : Z) : M NetOp Proxies unit := with_proxy dev_phy_id (Unregister addr).

Definition GetRegisteredDeviceAddrByDev (dev_phy_id addr : Z) (px : Proxies) : Status + Z :=
  match HostRegisterProxy_GetInstance dev_phy_id px with
  | None => inl PARAM_INVALID
  | Some p => GetRegisteredDeviceAddr addr p
  end.
End Proxy.
