(* ===== verification/Endpoint.v ===== *)
(** Endpoints and channels of the CS layer: hixl/cs/channel.cc, hixl/cs/endpoint.cc
    and hixl/cs/endpoint_store.cc.

    The virtual methods of [Endpoint] and [Channel] are the calls of Hcomm.  A
    computation on an endpoint runs on the object and on the process-wide proxies of
    host memory; [mutex_] makes each atomic, except that [CreateChannel] connects
    before it takes the lock. *)

From stdpp Require Import pretty.
From S2P Require Import Prelude StdMap Effects Runtime Wire Hcomm Net CtrlConn HostRegister.

(** * Data *)
Definition kQosUnset : Z := 0xFF.
Definition kRoceQueueNum : Z := 1.
Definition kChannelConnectedStatus : Z := 0.
Definition kChannelConnectingStatus : Z := 1.
Definition kMinTransportQueueDepth : Z := 64.
Definition kDefaultMaxTransferCountPerBatch : Z := 1920.

Inductive ChannelType := kClient | kServer.
#[export] Instance ChannelType_eq_dec : EqDecision ChannelType.
Proof. solve_decision. Defined.

Record ChannelDesc := {
  cd_remote_endpoint : EndpointDesc;
  cd_tc : Z; cd_sl : Z; cd_retry_cnt : Z; cd_retry_interval : Z;
  cd_channel_type : ChannelType;
  cd_channel_index : Z;
  cd_qos : Z;
  cd_max_transfer_count_per_batch : Z;
  cd_configurable_transfer_supported : bool
}.

Record Channel := { channel_handle_ : Z }.

Record HixlMemDesc := {
  hmd_mem : CommMem;
  hmd_is_imported : bool;
  hmd_tag : string;
  hmd_export_desc : Z;
  hmd_export_len : Z;
  hmd_registered_dev_mem : Z
}.

Record Endpoint := {
  endpoint_ : EndpointDesc;
  handle_ : Z;
  reg_mems_ : list (Z * HixlMemDesc);
  channels_ : list (Z * Channel);
  port_ : Z;
  need_host_va_mapping_ : bool
}.

Definition Endpoint_new (d : EndpointDesc) (need : bool) : Endpoint :=
  {| endpoint_ := d; handle_ := nullptr; reg_mems_ := []; channels_ := []; port_ := 0; need_host_va_mapping_ := need |}.
Definition set_handle (x : Z) (e : Endpoint) : Endpoint :=
  {| endpoint_ := endpoint_ e; handle_ := x; reg_mems_ := reg_mems_ e; channels_ := channels_ e; port_ := port_ e;
     need_host_va_mapping_ := need_host_va_mapping_ e |}.
Definition set_regs (x : list (Z * HixlMemDesc)) (e : Endpoint) : Endpoint :=
  {| endpoint_ := endpoint_ e; handle_ := handle_ e; reg_mems_ := x; channels_ := channels_ e; port_ := port_ e;
     need_host_va_mapping_ := need_host_va_mapping_ e |}.
Definition set_channels (x : list (Z * Channel)) (e : Endpoint) : Endpoint :=
  {| endpoint_ := endpoint_ e; handle_ := handle_ e; reg_mems_ := reg_mems_ e; channels_ := x; port_ := port_ e;
     need_host_va_mapping_ := need_host_va_mapping_ e |}.
Definition Endpoint_SetPort (x : Z) (e : Endpoint) : Endpoint :=
  {| endpoint_ := endpoint_ e; handle_ := handle_ e; reg_mems_ := reg_mems_ e; channels_ := channels_ e; port_ := x;
     need_host_va_mapping_ := need_host_va_mapping_ e |}.

(** * Pure helpers *)
Definition IsUbMemProtocol (protocol : Z) : bool := protocol =? COMM_PROTOCOL_UB_MEM.
Definition IsUrmaProtocol (protocol : Z) : bool :=
  (protocol =? COMM_PROTOCOL_UBC_CTP) || (protocol =? COMM_PROTOCOL_UBOE) || (protocol =? COMM_PROTOCOL_UBG).
Definition is_ub (e : Endpoint) : bool := IsUbMemProtocol (ed_protocol (endpoint_ e)).

Definition IsDefaultHostVaMappingEnabled (d : EndpointDesc) : bool :=
  (ed_locType d =? ENDPOINT_LOC_TYPE_DEVICE) &&
  ((ed_protocol d =? COMM_PROTOCOL_UBOE) || (ed_protocol d =? COMM_PROTOCOL_UBG) ||
   (ed_protocol d =? COMM_PROTOCOL_UBC_CTP)).
Definition IsHostVaMappingEnabledForPair (local_endpoint remote_endpoint : EndpointDesc) : bool :=
  if negb (IsDefaultHostVaMappingEnabled local_endpoint) then false else
  negb (ed_protocol local_endpoint =? COMM_PROTOCOL_UBC_CTP) ||
  (ed_locType remote_endpoint =? ENDPOINT_LOC_TYPE_DEVICE).

(** The loop of [CalculateTransportQueueDepth]; the count is below 2^31. *)
Fixpoint queue_depth (fuel : nat) (depth required : Z) : Z :=
  match fuel with
  | O => depth
  | S fuel => if depth <? required then queue_depth fuel (u32 (Z.shiftl depth 1)) required else depth
  end.
Definition CalculateTransportQueueDepth (n : Z) : Z :=
  Z.max kMinTransportQueueDepth (queue_depth 32 1 (u32 (n + 2))).

(** ** [FormatCommAddr] of hixl/common/hixl_utils.cc; [inet_ntop] of the C library *)
Class CLibrary := { inet_ntop : Z -> list Z -> string }.

Definition hex_digit (d : Z) : string :=
  match Z.to_nat d with
  | 0 => "0" | 1 => "1" | 2 => "2" | 3 => "3" | 4 => "4" | 5 => "5" | 6 => "6" | 7 => "7" | 8 => "8" | 9 => "9"
  | 10 => "a" | 11 => "b" | 12 => "c" | 13 => "d" | 14 => "e" | _ => "f"
  end%nat%string.
(** The [n] low digits of [x]: [%0nx]. *)
Fixpoint hex_padded (n : nat) (x : Z) : string :=
  match n with O => "" | S n => hex_padded n (Z.shiftr x 4) +:+ hex_digit (Z.land x 15) end.
(** [%x]: no leading zeros. *)
Fixpoint hex (n : nat) (x : Z) : string :=
  match n with
  | O => ""
  | S n => (if Z.shiftr x 4 =? 0 then "" else hex n (Z.shiftr x 4)) +:+ hex_digit (Z.land x 15)
  end.
Definition be_value (bs : list Z) : Z := le_value (reverse bs).

Section Format.
Context {clib : CLibrary}.

Definition FormatCommAddr (d : EndpointDesc) : string :=
  if ed_addr_type d =? COMM_ADDR_TYPE_IP_V4 then "IPv4:"%string +:+ inet_ntop AF_INET (addr_v4 d)
   else if ed_addr_type d =? COMM_ADDR_TYPE_IP_V6 then "IPv6:"%string +:+ inet_ntop AF_INET6 (addr_v6 d)
   else if ed_addr_type d =? COMM_ADDR_TYPE_ID then "ID:0x"%string +:+ hex 8 (addr_id d)
   else if ed_addr_type d =? COMM_ADDR_TYPE_EID then
     "EID["%string +:+ hex_padded 16 (be_value (take 8 (addr_eid d))) +:+ ":"%string +:+
     hex_padded 16 (be_value (drop 8 (addr_eid d))) +:+ "]"%string
   else "UNKNOWN"%string.

(** [std::to_string] of an unsigned integer. *)
Definition to_string (x : Z) : string := pretty (Z.to_N x).

(** The name that both ends compute for a channel; too long a name is refused. *)
Definition BuildChannelName (endpoint : EndpointDesc) (cd : ChannelDesc) (port : Z) : Status + string :=
  let client := bool_decide (cd_channel_type cd = kClient) in
  let client_ep := if client then endpoint else cd_remote_endpoint cd in
  let server_ep := if client then cd_remote_endpoint cd else endpoint in
  let channel_name := (FormatCommAddr client_ep +:+ "_" +:+ FormatCommAddr server_ep +:+ "_" +:+
                       to_string port +:+ "_" +:+ to_string (cd_channel_index cd))%string in
  if Z.of_nat (String.length channel_name) <=? HCOMM_CHANNEL_NAME_MAX_LEN then inr channel_name else inl PARAM_INVALID.

Definition InitQueueDepth (endpoint : EndpointDesc) (cd : ChannelDesc) (a : ChannelAttr) : ChannelAttr :=
  if negb (cd_configurable_transfer_supported cd) then a else
  let data_depth := if bool_decide (cd_channel_type cd = kClient)
                    then CalculateTransportQueueDepth (cd_max_transfer_count_per_batch cd)
                    else kMinTransportQueueDepth in
  if ed_protocol endpoint =? COMM_PROTOCOL_ROCE then
    {| queueNum := queueNum a; retryCnt := retryCnt a; retryInterval := retryInterval a; at_tc := at_tc a;
       at_sl := at_sl a; qpThreshold := qpThreshold a; cqAttrFlags := cqAttrFlags a; srcPortList := srcPortList a;
       sqDepth := data_depth; scqDepth := data_depth |}
  else if IsUrmaProtocol (ed_protocol endpoint) then
    {| queueNum := data_depth; retryCnt := data_depth; retryInterval := retryInterval a; at_tc := at_tc a;
       at_sl := at_sl a; qpThreshold := qpThreshold a; cqAttrFlags := cqAttrFlags a; srcPortList := srcPortList a;
       sqDepth := sqDepth a; scqDepth := scqDepth a |}
  else a.

Definition roce_attr (cd : ChannelDesc) (a : ChannelAttr) : ChannelAttr :=
  {| queueNum := kRoceQueueNum; retryCnt := cd_retry_cnt cd; retryInterval := cd_retry_interval cd;
     at_tc := u8 (cd_tc cd); at_sl := u8 (cd_sl cd); qpThreshold := qpThreshold a; cqAttrFlags := cqAttrFlags a;
     srcPortList := srcPortList a; sqDepth := sqDepth a; scqDepth := scqDepth a |}.

Definition InitChannelDesc (endpoint : EndpointDesc) (cd : ChannelDesc) (port : Z) : Status + HcommChannelDesc :=
  let d := HcommChannelDescInit in
  let attr := if ed_protocol endpoint =? COMM_PROTOCOL_ROCE then roce_attr cd (hc_attr d) else hc_attr d in
  match BuildChannelName endpoint cd port with
  | inl e => inl e
  | inr channel_name => inr {|
      hc_version := hc_version d; hc_magicWord := hc_magicWord d; hc_size := hc_size d;
      hc_remoteEndpoint := cd_remote_endpoint cd;
      hc_notifyNum := 1;
      hc_exchangeAllMems := true;
      hc_memHandles := hc_memHandles d; hc_memHandleNum := hc_memHandleNum d; hc_socket := hc_socket d;
      hc_role := match cd_channel_type cd with kClient => HCOMM_SOCKET_ROLE_CLIENT | kServer => HCOMM_SOCKET_ROLE_SERVER end;
      hc_port := u16 port;
      hc_attr := InitQueueDepth endpoint cd attr;
      hc_qos := if negb (cd_qos cd =? kQosUnset) then cd_qos cd else hc_qos d;
      hc_channelName := channel_name
    |}
  end.
End Format.

(** [HCCL_E_AGAIN]: the memory was registered before. *)
Class HcclAgain := HCCL_E_AGAIN : Z.

(** * Channels *)
Section Channel.
Context {codes : AclCodes} {env : Environment NetOp} {S : Type}.
Let C := M NetOp S.

Definition wait_round (ub : bool) (ch timeout_ms start : Z) (_ : unit) : C (unit + unit) :=
  let* r := call (Hc (ChGetStatus ub ch)) in
  let '(rc, status) := r in
  chk_hccl rc ;;
  if status =? kChannelConnectedStatus then ret (inr tt) else
  require (status =? kChannelConnectingStatus) FAILED ;;
  let* now := call NetNow in
  require (now <? start + timeout_ms * 1000000) TIMEOUT ;;
  call (Hc (SleepUs 1)) ;;
  ret (inl tt).

Definition WaitChannelConnected (ub : bool) (ch timeout_ms : Z) : C unit :=
  let* start := call NetNow in
  loop (timed_rounds timeout_ms) (wait_round ub ch timeout_ms start) tt.

(** The channel object after [Create]. *)
Definition Channel_Create (ub : bool) (ep_handle : Z) (desc : HcommChannelDesc) (engine timeout_ms : Z) : C Channel :=
  require (negb (is_null ep_handle)) PARAM_INVALID ;;
  let* r := call (Hc (ChCreate ub ep_handle engine desc)) in
  let '(rc, handle) := r in
  chk_hccl rc ;;
  on_fail (WaitChannelConnected ub handle timeout_ms)
    (let* _ := call (Hc (ChDestroy ub handle)) in ret tt) ;;
  ret {| channel_handle_ := handle |}.

Definition Channel_Destroy (ub : bool) (c : Channel) : C unit :=
  if channel_handle_ c =? 0 then ret tt else
  let* rc := call (Hc (ChDestroy ub (channel_handle_ c))) in
  chk_hccl rc.
End Channel.

(** * Endpoints *)
Record EpState := { es_ep : Endpoint; es_px : Proxies }.
Definition set_ep (e : Endpoint) (s : EpState) : EpState := {| es_ep := e; es_px := es_px s |}.
Definition set_px (p : Proxies) (s : EpState) : EpState := {| es_ep := es_ep s; es_px := p |}.

Section Endpoint.
Context {codes : AclCodes} {again : HcclAgain} {clib : CLibrary} {env : Environment NetOp}.
Let C := M NetOp EpState.

Definition ep_get : C Endpoint := let* s := get in ret (es_ep s).
Definition ep_modify (f : Endpoint -> Endpoint) : C unit := modify (fun s => set_ep (f (es_ep s)) s).
Definition on_proxies {A} (m : M NetOp Proxies A) : C A := zoom (fun s => Some (es_px s)) set_px (fun _ => m).

Definition Endpoint_Initialize : C unit :=
  let* e := ep_get in
  let* r := call (Hc (EpCreate (endpoint_ e))) in
  let '(rc, handle) := r in
  ep_modify (set_handle handle) ;;
  chk_hccl rc.

Definition first_error (ret_ st : Status) : Status := if negb (st =? SUCCESS) && (ret_ =? SUCCESS) then st else ret_.
Definition status_of {A} (o : Status + A) : Status := match o with inl e => e | inr _ => SUCCESS end.

(** The loops of [Finalize]; they return the first error. *)
Fixpoint finalize_channels (ub : bool) (l : list (Z * Channel)) (ret_ : Status) : C Status :=
  match l with
  | [] => ret ret_
  | it :: l =>
      let* r := attempt (Channel_Destroy ub it.2) in
      finalize_channels ub l (first_error ret_ (status_of r))
  end.

Fixpoint finalize_mems (e : Endpoint) (l : list (Z * HixlMemDesc)) (ret_ : Status) : C Status :=
  match l with
  | [] => ret ret_
  | it :: l =>
      let* ret_ := (if negb (is_null (handle_ e)) then
                      let* rc := call (Hc (EpMemUnreg (handle_ e) it.1)) in
                      ret (if negb (rc =? HCCL_SUCCESS) && (ret_ =? SUCCESS) then ConvertHcommErrorToStatus rc else ret_)
                    else ret ret_) in
      (if negb (is_null (hmd_registered_dev_mem it.2)) then
         let* _ := attempt (on_proxies (UnregisterByDev (devPhyId (endpoint_ e)) (cm_addr (hmd_mem it.2)))) in ret tt
       else ret tt) ;;
      finalize_mems e l ret_
  end.

Definition Endpoint_Finalize : C Status :=
  let* e := ep_get in
  let* ret_ := finalize_channels (is_ub e) (channels_ e) SUCCESS in
  ep_modify (set_channels []) ;;
  let* ret_ := finalize_mems e (reg_mems_ e) ret_ in
  ep_modify (set_regs []) ;;
  let* ret_ := (if negb (is_null (handle_ e)) then
                  let* rc := call (Hc (EpDestroy (handle_ e))) in
                  ret (if negb (rc =? HCCL_SUCCESS) && (ret_ =? SUCCESS) then ConvertHcommErrorToStatus rc else ret_)
                else ret ret_) in
  ep_modify (set_handle nullptr) ;;
  ret ret_.

Definition SelectEngine (e : Endpoint) : Z :=
  if ed_locType (endpoint_ e) =? ENDPOINT_LOC_TYPE_HOST then COMM_ENGINE_CPU
  else if ed_locType (endpoint_ e) =? ENDPOINT_LOC_TYPE_DEVICE then COMM_ENGINE_AICPU
  else COMM_ENGINE_RESERVED.

(** [RegisterMem] once host memory is mapped: HCOMM gets [reg_mem], and the mapping is
    undone if it refuses. *)
Definition register_mapped (e : Endpoint) (mem_tag : option string) (mem reg_mem : CommMem) (registered_dev_mem : Z) : C Z :=
  let* mem_handle := on_fail
    (let* r := call (Hc (EpMemReg (handle_ e) mem_tag reg_mem)) in
     let '(hccl_ret, mem_handle) := r in
     require ((hccl_ret =? HCCL_SUCCESS) || (hccl_ret =? HCCL_E_AGAIN)) (ConvertHcommErrorToStatus hccl_ret) ;;
     ret mem_handle)
    (if negb (is_null registered_dev_mem)
     then on_proxies (UnregisterByDev (devPhyId (endpoint_ e)) (cm_addr mem)) else ret tt) in
  let desc := {| hmd_mem := mem; hmd_is_imported := false; hmd_tag := from_option id ""%string mem_tag;
                 hmd_export_desc := nullptr; hmd_export_len := 0; hmd_registered_dev_mem := registered_dev_mem |} in
  ep_modify (fun e => set_regs (std_set mem_handle desc (reg_mems_ e)) e) ;;
  ret mem_handle.

Definition Endpoint_RegisterMem (mem_tag : option string) (mem : CommMem) : C Z :=
  let* e := ep_get in
  require (negb (is_null (handle_ e))) FAILED ;;
  let mapped := (cm_type mem =? COMM_MEM_TYPE_HOST) && need_host_va_mapping_ e in
  let* registered_dev_mem :=
    (if mapped then on_proxies (RegisterByDev (devPhyId (endpoint_ e)) (cm_addr mem) (cm_size mem)) else ret nullptr) in
  let reg_mem := if mapped
                 then {| cm_type := COMM_MEM_TYPE_DEVICE; cm_addr := registered_dev_mem; cm_size := cm_size mem |}
                 else mem in
  register_mapped e mem_tag mem reg_mem registered_dev_mem.

Definition Endpoint_DeregisterMem (mem_handle : Z) : C unit :=
  let* e := ep_get in
  match std_find mem_handle (reg_mems_ e) with
  | None => ret tt
  | Some it =>
      require (negb (is_null (handle_ e))) FAILED ;;
      let* rc := call (Hc (EpMemUnreg (handle_ e) mem_handle)) in
      chk_hccl rc ;;
      (if negb (is_null (hmd_registered_dev_mem it))
       then on_proxies (UnregisterByDev (devPhyId (endpoint_ e)) (cm_addr (hmd_mem it))) else ret tt) ;;
      ep_modify (fun e => set_regs (std_erase mem_handle (reg_mems_ e)) e)
  end.

Definition set_export (desc len : Z) (d : HixlMemDesc) : HixlMemDesc :=
  {| hmd_mem := hmd_mem d; hmd_is_imported := hmd_is_imported d; hmd_tag := hmd_tag d; hmd_export_desc := desc;
     hmd_export_len := len; hmd_registered_dev_mem := hmd_registered_dev_mem d |}.

Fixpoint export_mems (handle : Z) (l : list (Z * HixlMemDesc)) : C (list HixlMemDesc) :=
  match l with
  | [] => ret []
  | (mem_handle, d) :: l =>
      let* d := (if is_null (hmd_export_desc d) then
                   let* r := call (Hc (EpMemExport handle mem_handle)) in
                   let '(rc, desc, len) := r in
                   chk_hccl rc ;;
                   let d := set_export desc len d in
                   ep_modify (fun e => set_regs (std_set mem_handle d (reg_mems_ e)) e) ;;
                   ret d
                 else ret d) in
      let* ds := export_mems handle l in
      ret (d :: ds)
  end.

Definition Endpoint_ExportMem : C (list HixlMemDesc) :=
  let* e := ep_get in
  require (negb (is_null (handle_ e))) FAILED ;;
  export_mems (handle_ e) (reg_mems_ e).

(** [CreateChannel] up to the lock, and under it. *)
Definition make_channel (cd : ChannelDesc) (timeout_ms : Z) : C Channel :=
  let* e := ep_get in
  require (negb (is_null (handle_ e))) FAILED ;;
  let engine := SelectEngine e in
  require (negb (engine =? COMM_ENGINE_RESERVED)) PARAM_INVALID ;;
  match InitChannelDesc (endpoint_ e) cd (port_ e) with
  | inl err => fail err
  | inr ch_desc =>
      let* made := call NetNew in
      require made PARAM_INVALID ;;
      Channel_Create (is_ub e) (handle_ e) ch_desc engine timeout_ms
  end.
Definition store_channel (c : Channel) : C Z :=
  let h := channel_handle_ c in
  ep_modify (fun e => set_channels (std_set h c (channels_ e)) e) ;;
  ret h.
Definition Endpoint_CreateChannel (cd : ChannelDesc) (timeout_ms : Z) : C Z :=
  let* c := make_channel cd timeout_ms in store_channel c.

Definition Endpoint_DestroyChannel (channel_handle : Z) : C unit :=
  let* e := ep_get in
  match std_find channel_handle (channels_ e) with
  | None => fail PARAM_INVALID
  | Some c =>
      Channel_Destroy (is_ub e) c ;;
      ep_modify (fun e => set_channels (std_erase channel_handle (channels_ e)) e)
  end.

Definition Endpoint_ImportMem (mem_desc desc_len : Z) : C CommMem :=
  let* e := ep_get in
  require (negb (is_null mem_desc)) PARAM_INVALID ;;
  require (negb (is_null (handle_ e))) FAILED ;;
  let* r := call (Hc (EpMemImport (handle_ e) mem_desc desc_len)) in
  let '(rc, out_buf) := r in
  chk_hccl rc ;;
  ret out_buf.

Definition Endpoint_UnimportMem (mem_desc desc_len : Z) : C unit :=
  let* e := ep_get in
  require (negb (is_null mem_desc) && (0 <? desc_len)) PARAM_INVALID ;;
  require (negb (is_null (handle_ e))) FAILED ;;
  let* rc := call (Hc (EpMemUnimport (handle_ e) mem_desc desc_len)) in
  chk_hccl rc.

Definition Endpoint_GetListenPort : C Z :=
  let* e := ep_get in
  require (negb (is_null (handle_ e))) FAILED ;;
  let* r := call (Hc (EpGetListenPort (handle_ e))) in
  let '(hccl_ret, port) := r in
  if hccl_ret =? HCCL_E_NOT_SUPPORT then fail UNSUPPORTED else
  require (hccl_ret =? HCCL_SUCCESS) (ConvertHcommErrorToStatus hccl_ret) ;;
  ret port.

Definition Endpoint_GetMemDesc (mem_handle : Z) (e : Endpoint) : Status + HixlMemDesc :=
  match std_find mem_handle (reg_mems_ e) with Some d => inr d | None => inl PARAM_INVALID end.
End Endpoint.

(** * The endpoints of a process *)
Record EndpointStore := { endpoints_ : list (Z * Endpoint); st_px : Proxies }.

Definition set_endpoints (l : list (Z * Endpoint)) (s : EndpointStore) : EndpointStore :=
  {| endpoints_ := l; st_px := st_px s |}.

Section Store.
Context {codes : AclCodes} {again : HcclAgain} {clib : CLibrary} {env : Environment NetOp}.
Let C := M NetOp EndpointStore.

(** A call on the endpoint that the store keeps under [h]. *)
Definition on_endpoint {A} (h : Z) (m : M NetOp EpState A) : C A :=
  zoom (fun s => (fun e => {| es_ep := e; es_px := st_px s |}) <$> std_find h (endpoints_ s))
       (fun t s => {| endpoints_ := std_set h (es_ep t) (endpoints_ s); st_px := es_px t |}) (fun _ => m).

Definition EndpointStore_CreateEndpoint (endpoint : EndpointDesc) (need_host_va_mapping : bool) : C Z :=
  let* made := call NetNew in
  require made PARAM_INVALID ;;
  (** [StoreEndpoint]: the object is stored once it is initialised. *)
  let* e := zoom (fun s => Some {| es_ep := Endpoint_new endpoint need_host_va_mapping; es_px := st_px s |})
              (fun t s => {| endpoints_ := endpoints_ s; st_px := es_px t |})
              (fun _ => Endpoint_Initialize ;; ep_get) in
  modify (fun s => set_endpoints (std_set (handle_ e) e (endpoints_ s)) s) ;;
  ret (handle_ e).

Definition GetAllEndpointHandles (s : EndpointStore) : list Z := map fst (endpoints_ s).
Definition GetEndpoint (h : Z) (s : EndpointStore) : option Endpoint := std_find h (endpoints_ s).

(** [operator==] of descriptors: the address that identifies the protocol's endpoint. *)
Definition EndpointDesc_eq (lhs rhs : EndpointDesc) : bool :=
  let p := ed_protocol lhs in
  if negb (p =? ed_protocol rhs) then false
  else if p =? COMM_PROTOCOL_HCCS then addr_id lhs =? addr_id rhs
  else if p =? COMM_PROTOCOL_UB_MEM then (ed_locType lhs =? ed_locType rhs) && (addr_id lhs =? addr_id rhs)
  else if (p =? COMM_PROTOCOL_UBC_TP) || (p =? COMM_PROTOCOL_UBC_CTP) || (p =? COMM_PROTOCOL_UBG)
       then bool_decide (addr_eid lhs = addr_eid rhs)
  else if (p =? COMM_PROTOCOL_ROCE) || (p =? COMM_PROTOCOL_UBOE) then
    if negb (ed_addr_type lhs =? ed_addr_type rhs) then false
    else if ed_addr_type lhs =? COMM_ADDR_TYPE_IP_V4 then bool_decide (addr_v4 lhs = addr_v4 rhs)
    else if ed_addr_type lhs =? COMM_ADDR_TYPE_IP_V6 then bool_decide (addr_v6 lhs = addr_v6 rhs)
    else false
  else false.

(** The first endpoint in the order of the handles that equals the descriptor. *)
Definition MatchEndpoint (endpoint : EndpointDesc) (s : EndpointStore) : option Z :=
  fst <$> List.find (fun it => EndpointDesc_eq (endpoint_ it.2) endpoint) (endpoints_ s).

Fixpoint finalize_endpoints (l : list Z) (final_status : Status) : C Status :=
  match l with
  | [] => ret final_status
  | h :: l =>
      let* ret_ := on_endpoint h Endpoint_Finalize in
      finalize_endpoints l (first_error final_status ret_)
  end.

Definition EndpointStore_Finalize : C Status :=
  let* s := get in
  let* final_status := finalize_endpoints (GetAllEndpointHandles s) SUCCESS in
  modify (set_endpoints []) ;;
  ret final_status.
End Store.
