(* ===== verification/HcResources.v ===== *)
(** What a history leaves alive in HCOMM -- endpoints, channels and registered
    memory -- and the accounting of an owner's list of them. *)

From S2P Require Import Prelude Effects Runtime Hcomm TransferPool ClientRt Net Endpoint.

Inductive HcRes :=
| REp (ep : Z) | RCh (ub : bool) (ch : Z) | RReg (ep mem_handle : Z) | REpoll (fd : Z) | RHost (ptr : Z) | RDev (ptr : Z)
| RPin (ptr : Z) | RSlot (dev index : Z).
#[export] Instance HcRes_eq_dec : EqDecision HcRes.
Proof. solve_decision. Defined.
#[export] Instance HcRes_countable : Countable HcRes.
Proof.
  refine (inj_countable' (fun r => match r with
      | REp e => (0, e, 0) | RCh b c => (if b then 1 else 2, c, 0) | RReg e m => (3, e, m)
      | REpoll f => (4, f, 0) | RHost p => (5, p, 0) | RDev p => (6, p, 0)
      | RPin p => (7, p, 0) | RSlot d i => (8, d, i) end)
    (fun x => match x with
      | (0, e, _) => REp e | (1, c, _) => RCh true c | (2, c, _) => RCh false c | (3, e, m) => RReg e m
      | (4, f, _) => REpoll f | (5, p, _) => RHost p | (6, p, _) => RDev p
      | (7, p, _) => RPin p | (_, d, i) => RSlot d i end) _).
  by intros [?|[]| | | | | |].
Qed.

(** Endpoints and channels are created once; a memory may be registered again. *)
Definition strong (r : HcRes) : bool := match r with RReg _ _ => false | _ => true end.

Section Resources.
Context {codes : AclCodes} {again : HcclAgain}.
Implicit Types (h : History NetOp) (r : HcRes) (own : list HcRes).

(** ** Observables *)
Definition obtains (e : Event NetOp) : option HcRes :=
  match e with
  | Ev (Hc (EpCreate _)) (rc, ep) => if rc =? HCCL_SUCCESS then Some (REp ep) else None
  | Ev (Hc (ChCreate ub _ _ _)) (rc, ch) => if rc =? HCCL_SUCCESS then Some (RCh ub ch) else None
  | Ev (Hc (EpMemReg ep _ _)) (rc, mh) => if (rc =? HCCL_SUCCESS) || (rc =? HCCL_E_AGAIN) then Some (RReg ep mh) else None
  | Ev (Hc EpollCreate) fd => if 0 <=? fd then Some (REpoll fd) else None
  | Ev (Hc (PosixMemalign _ _)) (rc, p) => if (rc =? 0) && negb (is_null p) then Some (RHost p) else None
  | Ev (Hc (AclMalloc _)) (rc, p) => if (rc =? 0) && negb (is_null p) then Some (RDev p) else None
  | Ev (Cli (Malloc _)) p => if is_null p then None else Some (RHost p)
  | Ev (Cli (AclMallocHost _)) (rc, p) => if rc =? 0 then Some (RPin p) else None
  | Ev (Cli (PoolAcquire _)) (st, slot) => if st =? SUCCESS then Some (RSlot (h_device_id slot) (h_slot_index slot)) else None
  | _ => None
  end.
(** A release, and whether it was granted. *)
Definition releases (e : Event NetOp) : option (HcRes * bool) :=
  match e with
  | Ev (Hc (EpDestroy ep)) rc => Some (REp ep, rc =? HCCL_SUCCESS)
  | Ev (Hc (ChDestroy ub ch)) rc => Some (RCh ub ch, rc =? HCCL_SUCCESS)
  | Ev (Hc (EpMemUnreg ep mh)) rc => Some (RReg ep mh, rc =? HCCL_SUCCESS)
  | Ev (Hc (EpollClose fd)) _ => if 0 <=? fd then Some (REpoll fd, true) else None
  | Ev (Hc (HostFree p)) _ => Some (RHost p, true)
  | Ev (Hc (AclFree p)) rc => Some (RDev p, rc =? 0)
  | Ev (Cli (AclFreeHost p)) rc => Some (RPin p, rc =? 0)
  | Ev (Cli (PoolRelease slot)) _ | Ev (Cli (PoolAbort slot)) _ =>
      Some (RSlot (h_device_id slot) (h_slot_index slot), true)
  | _ => None
  end.

Definition live_step (e : Event NetOp) (s : gset HcRes) : gset HcRes :=
  match obtains e, releases e with
  | Some r, _ => {[r]} ∪ s
  | None, Some (r, true) => s ∖ {[r]}
  | _, _ => s
  end.
Definition live (h : History NetOp) : gset HcRes := foldr live_step ∅ h.

Definition refused_step (e : Event NetOp) (s : gset HcRes) : gset HcRes :=
  match releases e with Some (r, false) => {[r]} ∪ s | _ => s end.
(** What HCOMM once refused to release. *)
Definition refused (h : History NetOp) : gset HcRes := foldr refused_step ∅ h.

(** The resource that a call needs alive. *)
Definition hc_needs (e : Event NetOp) : option HcRes :=
  match e with
  | Ev (Hc (EpDestroy ep)) _ | Ev (Hc (EpGetListenPort ep)) _ | Ev (Hc (EpMemReg ep _ _)) _
  | Ev (Hc (EpMemUnreg ep _)) _ | Ev (Hc (EpMemExport ep _)) _ | Ev (Hc (EpMemImport ep _ _)) _
  | Ev (Hc (EpMemUnimport ep _ _)) _ | Ev (Hc (ChCreate _ ep _ _)) _ => Some (REp ep)
  | Ev (Hc (ChDestroy ub ch)) _ | Ev (Hc (ChGetStatus ub ch)) _ => Some (RCh ub ch)
  | Ev (Hc (EpollAdd fd _ _)) _ | Ev (Hc (EpollMod fd _ _)) _ | Ev (Hc (EpollDel fd _)) _ | Ev (Hc (EpollWait fd _)) _
  | Ev (Hc (EpollClose fd)) _ => if 0 <=? fd then Some (REpoll fd) else None
  | Ev (Hc (HostFree p)) _ => Some (RHost p)
  | Ev (Hc (AclFree p)) _ | Ev (Hc (AclMemcpyToDevice p _)) _ => Some (RDev p)
  | Ev (Cli (AclMemcpyDescs p _)) _ => Some (RDev p)
  | Ev (Cli (AclFreeHost p)) _ | Ev (Cli (AclMemcpyFlagAsync p _ _)) _ => Some (RPin p)
  | Ev (Cli (StoreBytes p _)) _ | Ev (Cli (FillWords p _ _)) _ => Some (RHost p)
  | Ev (Cli (PoolRelease slot)) _ | Ev (Cli (PoolAbort slot)) _ => Some (RSlot (h_device_id slot) (h_slot_index slot))
  | _ => None
  end.
Fixpoint hc_disciplined (h : History NetOp) : Prop :=
  match h with
  | [] => True
  | e :: h => match hc_needs e with Some r => r ∈ live h | None => True end /\ hc_disciplined h
  end.

(** ** Laws: a new handle is not null, and not that of something alive *)
Class HcLaws (env : Environment NetOp) : Prop := {
  ep_fresh : forall d h ep, (HCCL_SUCCESS, ep) = reply_of _ (Hc (EpCreate d)) h -> ep <> nullptr /\ REp ep ∉ live h;
  ch_fresh : forall ub ep engine d h ch,
    (HCCL_SUCCESS, ch) = reply_of _ (Hc (ChCreate ub ep engine d)) h -> ch <> 0 /\ RCh ub ch ∉ live h;
  epoll_fresh : forall h fd, fd = reply_of _ (Hc EpollCreate) h -> fd < 0 \/ REpoll fd ∉ live h;
  host_fresh : forall align size h p, (0, p) = reply_of _ (Hc (PosixMemalign align size)) h -> RHost p ∉ live h;
  dev_fresh : forall size h p, (0, p) = reply_of _ (Hc (AclMalloc size)) h -> p <> nullptr /\ RDev p ∉ live h
}.

(** The same of what a client obtains; an allocation on the device, or a creation of an
    endpoint, that fails leaves the null pointer, and the registry of pools keeps what it
    has (TransferPool). *)
Class CliLaws (env : Environment NetOp) : Prop := {
  malloc_fresh : forall size h p, p = reply_of _ (Cli (Malloc size)) h -> p = nullptr \/ RHost p ∉ live h;
  pin_fresh : forall size h p, (0, p) = reply_of _ (Cli (AclMallocHost size)) h -> p <> nullptr /\ RPin p ∉ live h;
  slot_fresh : forall dev h slot, (SUCCESS, slot) = reply_of _ (Cli (PoolAcquire dev)) h ->
    h_device_id slot = dev /\ RSlot dev (h_slot_index slot) ∉ live h;
  dev_null : forall size h rc p, (rc, p) = reply_of _ (Hc (AclMalloc size)) h -> rc <> 0 -> p = nullptr;
  ep_null : forall d h rc p, (rc, p) = reply_of _ (Hc (EpCreate d)) h -> rc <> HCCL_SUCCESS -> p = nullptr;
  pool_kept : forall dev h, Ev (Hc (PoolGetInstance dev)) true ∈ h -> reply_of _ (Hc (PoolGetInstance dev)) h = true
}.

(** ** The accounting of [own] *)
Record acct (own : list HcRes) (h : History NetOp) : Prop := {
  a_nodup : NoDup (filter (fun r => strong r = true) own);
  a_live : forall r, r ∈ live h -> r ∈ own \/ r ∈ refused h;
  a_own : forall r, r ∈ own -> strong r = true -> r ∈ live h;
  a_disciplined : hc_disciplined h
}.

Lemma acct_nil : acct [] [].
Proof. constructor; [constructor|set_solver|set_solver|done]. Qed.

Lemma acct_perm own own' h : own ≡ₚ own' -> acct own h -> acct own' h.
Proof.
  intros E [H1 H2 H3 H4]. constructor; [by rewrite <- (filter_Permutation _ _ _ E)| | |done]; intros r.
  - rewrite <- E. apply H2.
  - rewrite <- E. apply H3.
Qed.

(** Something owned twice. *)
Lemma acct_dup r own h : acct (r :: own) h -> r ∈ own -> acct own h.
Proof.
  intros [H1 H2 H3 H4] Hr. constructor; [| |intros x Hx; apply H3; by right|done].
  - rewrite filter_cons in H1. case_decide; [by inversion H1|done].
  - intros x [[->|Hx]%elem_of_cons|Hx]%H2; [by left|by left|by right].
Qed.

(** A registration may be listed although it was released. *)
Lemma acct_weaken r own h : strong r = false -> acct own h -> acct (r :: own) h.
Proof.
  intros Er [H1 H2 H3 H4]. constructor; [|intros x [Hx|Hx]%H2; [left; by right|by right]| |done].
  - rewrite filter_cons_False; [done|congruence].
  - intros x [->|Hx]%elem_of_cons Hs; [congruence|by apply H3].
Qed.

Lemma live_cons e h : live (e :: h) = live_step e (live h).
Proof. done. Qed.
Lemma refused_cons e h : refused (e :: h) = refused_step e (refused h).
Proof. done. Qed.

(** What is needed is owned. *)
Definition needs_own (e : Event NetOp) own : Prop :=
  match hc_needs e with Some r => r ∈ own /\ strong r = true | None => True end.

Lemma acct_disciplined own h e : acct own h -> needs_own e own -> hc_disciplined (e :: h).
Proof.
  intros [_ _ H3 H4] Hn. split; [|done]. unfold needs_own in Hn. destruct (hc_needs e); [|done].
  destruct Hn. by apply H3.
Qed.

(** A call that neither creates nor releases. *)
Lemma acct_neutral own h e : acct own h -> needs_own e own -> obtains e = None -> releases e = None -> acct own (e :: h).
Proof.
  intros H Hn E1 E2. pose proof (acct_disciplined _ _ _ H Hn) as Hd. destruct H as [H1 H2 H3 H4].
  assert (El : live (e :: h) = live h) by (rewrite live_cons; unfold live_step; by rewrite E1, E2).
  assert (Er : refused (e :: h) = refused h) by (rewrite refused_cons; unfold refused_step; by rewrite E2).
  constructor; rewrite ?El, ?Er; done.
Qed.

(** Something new. *)
Lemma acct_obtain own h e r :
  acct own h -> needs_own e own -> obtains e = Some r -> releases e = None -> (strong r = true -> r ∉ own) ->
  acct (r :: own) (e :: h).
Proof.
  intros H Hn E1 E2 Hr. pose proof (acct_disciplined _ _ _ H Hn) as Hd. destruct H as [H1 H2 H3 H4].
  assert (El : live (e :: h) = {[r]} ∪ live h) by (rewrite live_cons; unfold live_step; by rewrite E1).
  assert (Er : refused (e :: h) = refused h) by (rewrite refused_cons; unfold refused_step; by rewrite E2).
  constructor; [| | |done]; [|intros x; rewrite ?El, ?Er..].
  - rewrite filter_cons. case_decide as Es; [|done]. constructor; [|done].
    rewrite list_elem_of_filter. intros [_ Hin]. by apply Hr.
  - rewrite elem_of_union, elem_of_singleton. intros [->|Hx]; [left; by left|]. apply H2 in Hx as [Hx|Hx]; [left; by right|by right].
  - rewrite elem_of_union, elem_of_singleton. intros [->|Hx]%elem_of_cons Hs; [by left|right; by apply H3].
Qed.

(** Something that was owned before. *)
Lemma acct_obtain_again own h e r :
  acct own h -> needs_own e own -> obtains e = Some r -> releases e = None -> r ∈ own -> acct own (e :: h).
Proof.
  intros H Hn E1 E2 Hr. pose proof (acct_disciplined _ _ _ H Hn) as Hd. destruct H as [H1 H2 H3 H4].
  assert (El : live (e :: h) = {[r]} ∪ live h) by (rewrite live_cons; unfold live_step; by rewrite E1).
  assert (Er : refused (e :: h) = refused h) by (rewrite refused_cons; unfold refused_step; by rewrite E2).
  constructor; [done| | |done]; intros x; rewrite ?El, ?Er.
  - rewrite elem_of_union, elem_of_singleton. intros [->|Hx]; [by left|by apply H2].
  - rewrite elem_of_union. intros Hx Hs. right. by apply H3.
Qed.

Section Release.
Variables (h : History NetOp) (e : Event NetOp) (r : HcRes) (granted : bool).
Hypotheses (E1 : obtains e = None) (E2 : releases e = Some (r, granted)).

Lemma live_release : live (e :: h) = if granted then live h ∖ {[r]} else live h.
Proof using E1 E2. rewrite live_cons. unfold live_step. rewrite E1, E2. by destruct granted. Qed.
Lemma refused_release : refused (e :: h) = if granted then refused h else {[r]} ∪ refused h.
Proof using E1 E2. rewrite refused_cons. unfold refused_step. rewrite E2. by destruct granted. Qed.

(** After a release the owner may forget. *)
Lemma acct_release own : acct (r :: own) h -> needs_own e (r :: own) -> acct own (e :: h).
Proof using E1 E2.
  intros H Hn. pose proof (acct_disciplined _ _ _ H Hn) as Hd. destruct H as [H1 H2 H3 H4]. rewrite filter_cons in H1.
  assert (Hr : strong r = true -> r ∉ own).
  { intros Es Hin. rewrite decide_True in H1 by done. inversion H1 as [|? ? Hn1 _]; subst.
    by apply Hn1, list_elem_of_filter. }
  constructor; [case_decide; [by inversion H1|done]| | |done]; intros x; rewrite live_release, ?refused_release.
  - intros Hx. assert (Hx' : x ∈ live h) by (destruct granted; [by apply elem_of_difference in Hx as []|done]).
    destruct (H2 _ Hx') as [[->|Ho]%elem_of_cons|Hx2]; [|by left|right; destruct granted; [done|by apply elem_of_union_r]].
    destruct granted; [by apply elem_of_difference in Hx as [_ []%not_elem_of_singleton]|].
    right. by apply elem_of_union_l, elem_of_singleton_2.
  - intros Ho Hs. assert (x ∈ live h) by (apply H3; [by right|done]).
    destruct granted; [|done]. apply elem_of_difference. split; [done|]. apply not_elem_of_singleton.
    intros ->. by apply Hr.
Qed.

(** It keeps what was refused; a registration may be kept in any case. *)
Lemma acct_keep own :
  acct own h -> needs_own e own -> granted = false \/ strong r = false -> acct own (e :: h).
Proof using E1 E2.
  intros H Hn Hk. pose proof (acct_disciplined _ _ _ H Hn) as Hd. destruct H as [H1 H2 H3 H4].
  constructor; [done| | |done]; intros x; rewrite live_release, ?refused_release.
  - intros Hx. assert (Hx' : x ∈ live h) by (destruct granted; [by apply elem_of_difference in Hx as []|done]).
    destruct (H2 _ Hx') as [Ho|Hr]; [by left|right; destruct granted; [done|by apply elem_of_union_r]].
  - intros Ho Hs. assert (x ∈ live h) by (by apply H3). destruct granted; [|done].
    apply elem_of_difference. split; [done|]. apply not_elem_of_singleton. intros ->. destruct Hk; congruence.
Qed.
End Release.

(** In the middle of a list. *)
Lemma acct_give own own' r e g h :
  acct (own ++ [r] ++ own') h -> hc_needs e = Some r -> strong r = true -> obtains e = None -> releases e = Some (r, g) ->
  acct (own ++ own') (e :: h).
Proof.
  intros Ha Hn Hs Ho Hr. eapply acct_release; [exact Ho|exact Hr| |].
  - eapply acct_perm; [|exact Ha]. solve_Permutation.
  - unfold needs_own. rewrite Hn. split; [by left|done].
Qed.
Lemma acct_take own own' r e h :
  acct (own ++ own') h -> hc_needs e = None -> obtains e = Some r -> releases e = None -> (strong r = true -> r ∉ live h) ->
  acct (own ++ [r] ++ own') (e :: h).
Proof.
  intros Ha Hn Ho Hr Hf. apply (acct_perm (r :: own ++ own')); [solve_Permutation|].
  apply acct_obtain; [done|unfold needs_own; by rewrite Hn|done|done|]. intros Hs Hin.
  apply Hf; [done|]. by apply (a_own _ _ Ha).
Qed.
End Resources.
