(* ===== verification/EndpointSafety.v ===== *)
(** The HCOMM resources of endpoints, channels and the endpoint store: every call
    returns, uses only what is alive, and nothing alive is forgotten unless HCOMM
    refused to release it. *)

From S2P Require Import Prelude StdMap Effects Runtime Wire Hcomm TransferPool ClientRt Net CtrlConn CtrlConnSpec NetReference HostRegister Endpoint HcResources RtReference.

(** * What an endpoint owns *)
Definition chans_of (ub : bool) (l : list (Z * Channel)) : list HcRes := (fun p => RCh ub p.1) <$> l.
Definition regs_of (ep : Z) (l : list (Z * HixlMemDesc)) : list HcRes := (fun p => RReg ep p.1) <$> l.
Definition self_of (ep : Z) : list HcRes := if is_null ep then [] else [REp ep].
Definition owned (e : Endpoint) : list HcRes :=
  self_of (handle_ e) ++ chans_of (is_ub e) (channels_ e) ++ regs_of (handle_ e) (reg_mems_ e).

(** The tables are maps, a channel is stored under its handle, and an endpoint
    without handle has no registrations. *)
Record ep_wf (e : Endpoint) : Prop := {
  wf_regs : std_map_wf (reg_mems_ e);
  wf_chans : std_map_wf (channels_ e);
  wf_keys : forall k c, (k, c) ∈ channels_ e -> channel_handle_ c = k /\ k <> 0;
  wf_null : handle_ e = nullptr -> reg_mems_ e = []
}.

Lemma ep_wf_new d b : ep_wf (Endpoint_new d b).
Proof. constructor; [constructor|constructor|by intros ?? ?%elem_of_nil|done]. Qed.
Lemma owned_new d b : owned (Endpoint_new d b) = [].
Proof. done. Qed.

Lemma self_of_handle ep : ep <> nullptr -> self_of ep = [REp ep].
Proof. intros H. unfold self_of, is_null. by rewrite (proj2 (Z.eqb_neq _ _)). Qed.

(** Two tables of channels, or of registrations, side by side. *)
Lemma chans_set ub k c l : std_map_wf l -> chans_of ub (std_set k c l) ≡ₚ RCh ub k :: chans_of ub (std_erase k l).
Proof. intros H. unfold chans_of. by rewrite (std_set_perm k c l H). Qed.
Lemma chans_erase ub k c l : std_map_wf l -> std_find k l = Some c -> chans_of ub l ≡ₚ RCh ub k :: chans_of ub (std_erase k l).
Proof. intros H E. unfold chans_of. by rewrite (std_erase_perm k c l H E) at 1. Qed.
Lemma regs_set ep k d l : std_map_wf l -> regs_of ep (std_set k d l) ≡ₚ RReg ep k :: regs_of ep (std_erase k l).
Proof. intros H. unfold regs_of. by rewrite (std_set_perm k d l H). Qed.
Lemma regs_erase ep k d l : std_map_wf l -> std_find k l = Some d -> regs_of ep l ≡ₚ RReg ep k :: regs_of ep (std_erase k l).
Proof. intros H E. unfold regs_of. by rewrite (std_erase_perm k d l H E) at 1. Qed.

Lemma chan_in ub k l : RCh ub k ∈ chans_of ub l <-> exists c, (k, c) ∈ l.
Proof.
  unfold chans_of. rewrite list_elem_of_fmap. split.
  - intros ([k' c] & [= ->] & H). by exists c.
  - intros [c H]. by exists (k, c).
Qed.
Lemma reg_in ep k l : RReg ep k ∈ regs_of ep l <-> exists d, (k, d) ∈ l.
Proof.
  unfold regs_of. rewrite list_elem_of_fmap. split.
  - intros ([k' c] & [= ->] & H). by exists c.
  - intros [c H]. by exists (k, c).
Qed.

(** * Calls that HCOMM's resources do not notice *)
Section Quiet.
Context {codes : AclCodes} {again : HcclAgain}.

Definition neutral (e : Event NetOp) : Prop := obtains e = None /\ releases e = None /\ hc_needs e = None.

Lemma acct_quiet t own h : Forall neutral t -> acct own h -> acct own (t ++ h).
Proof.
  intros Ht H. induction Ht as [|e t (E1 & E2 & E3) _ IH]; [done|]. cbn [app].
  apply acct_neutral; [done|unfold needs_own; by rewrite E3|done|done].
Qed.

(** A run of such calls that ends. *)
Lemma wp_quiet {S A} (m : M NetOp S A) own (Q : Status + A -> S -> History NetOp -> Prop) s h :
  emits neutral m -> acct own h -> wp m (fun _ _ _ => True) s h ->
  (forall o s' h', acct own h' -> Q o s' h') -> wp m Q s h.
Proof.
  intros He Ha Hw HQ. eapply wp_mono; [by apply wp_emits|].
  intros o s' h' [_ (t & -> & Ht)]. by apply HQ, acct_quiet.
Qed.

(** ** The checking macros *)
Lemma wp_chk_acl {S} e (Q : Status + unit -> S -> History NetOp -> Prop) s h :
  (forall o, Q o s h) -> wp (chk_acl e) Q s h.
Proof. intros HQ. unfold chk_acl. destruct (e =? 0); apply HQ. Qed.
Lemma wp_chk_hccl {S} e (Q : Status + unit -> S -> History NetOp -> Prop) s h :
  (e = HCCL_SUCCESS -> Q (inr tt) s h) -> (e <> HCCL_SUCCESS -> Q (inl (ConvertHcommErrorToStatus e)) s h) ->
  wp (chk_hccl e) Q s h.
Proof. intros H1 H2. unfold chk_hccl. destruct (Z.eqb_spec e HCCL_SUCCESS); [by apply H1|by apply H2]. Qed.
End Quiet.

(** * The proxies of host memory *)
Section HostProxies.
Context {codes : AclCodes} {again : HcclAgain} {env : Environment NetOp}.

Lemma emits_chk_acl {S} e : emits neutral (chk_acl e : M NetOp S unit).
Proof. unfold chk_acl. solve_emits. Qed.
Lemma emits_Register addr size : emits neutral (Register addr size).
Proof. unfold Register. solve_emits; try apply emits_chk_acl; done. Qed.
Lemma emits_Unregister addr : emits neutral (Unregister addr).
Proof. unfold Unregister. solve_emits; try apply emits_chk_acl; done. Qed.
Lemma emits_with_proxy {A} dev (m : M NetOp HostRegisterProxy A) : emits neutral m -> emits neutral (with_proxy dev m).
Proof.
  intros Hm. unfold with_proxy, GetOrCreateInstance. solve_emits; try done. by apply emits_zoom.
Qed.

Lemma wp_Register addr size p h : wp (Register addr size) (fun _ _ _ => True) p h.
Proof.
  unfold Register. apply wp_bind, wp_require; [|done]. intros _. apply wp_bind, wp_get.
  destruct (std_find addr p); [by case_match; [|apply wp_bind, wp_modify]|].
  apply wp_bind, wp_call. intros [e ptr] _. apply wp_bind, wp_chk_acl. by intros [?|[]].
Qed.
Lemma wp_Unregister addr p h : wp (Unregister addr) (fun _ _ _ => True) p h.
Proof.
  unfold Unregister. apply wp_bind, wp_require; [|done]. intros _. apply wp_bind, wp_get.
  destruct (std_find addr p); [|done]. apply wp_bind, wp_modify. case_match; [done|].
  apply wp_bind, wp_call. intros e _. apply wp_bind, wp_chk_acl. by intros [?|[]].
Qed.

(** A proxy that was found or created is there. *)
Lemma wp_with_proxy {A} dev (m : M NetOp HostRegisterProxy A) px h :
  (forall p h, wp m (fun _ _ _ => True) p h) -> wp (with_proxy dev m) (fun _ _ _ => True) px h.
Proof.
  intros Hm. unfold with_proxy, GetOrCreateInstance. apply wp_bind, wp_bind, wp_get.
  destruct (HostRegisterProxy_GetInstance dev px) as [p|] eqn:E.
  - apply wp_ret, wp_bind, wp_require; [|done]. intros _. apply (wp_zoom _ _ _ _ _ _ p E). apply Hm.
  - destruct (Z.ltb_spec INT32_MAX_ dev) as [Hd|Hd]; [by apply wp_ret|].
    apply wp_bind, wp_call. intros made _. apply wp_bind, wp_modify, wp_ret, wp_bind, wp_require; [|done].
    intros ->. apply (wp_zoom _ _ _ _ _ _ []); [|apply Hm].
    unfold HostRegisterProxy_GetInstance. rewrite (proj2 (Z.ltb_ge _ _) Hd). by rewrite std_find_set_same.
Qed.

Lemma wp_on_proxies {A} (m : M NetOp Proxies A) own (Q : Status + A -> EpState -> History NetOp -> Prop) s h :
  emits neutral m -> (forall px h, wp m (fun _ _ _ => True) px h) -> acct own h ->
  (forall o px h', acct own h' -> Q o (set_px px s) h') -> wp (on_proxies m) Q s h.
Proof.
  intros He Hw Ha HQ. unfold on_proxies. eapply wp_zoom; [done|]. eapply wp_quiet; [done|done|apply Hw|].
  intros o px h' Ha'. by apply HQ.
Qed.

Lemma wp_RegisterByDev dev addr size own (Q : Status + Z -> EpState -> History NetOp -> Prop) s h :
  acct own h -> (forall o px h', acct own h' -> Q o (set_px px s) h') -> wp (on_proxies (RegisterByDev dev addr size)) Q s h.
Proof.
  apply wp_on_proxies; [apply emits_with_proxy, emits_Register|].
  intros. apply wp_with_proxy. intros. apply wp_Register.
Qed.
Lemma wp_UnregisterByDev dev addr own (Q : Status + unit -> EpState -> History NetOp -> Prop) s h :
  acct own h -> (forall o px h', acct own h' -> Q o (set_px px s) h') -> wp (on_proxies (UnregisterByDev dev addr)) Q s h.
Proof.
  apply wp_on_proxies; [apply emits_with_proxy, emits_Unregister|].
  intros. apply wp_with_proxy. intros. apply wp_Unregister.
Qed.
End HostProxies.

(** * Channels *)
Section Channels.
Context {codes : AclCodes} {again : HcclAgain} {env : Environment NetOp} {Hnet : NetLaws env} {Hhc : HcLaws env}.
Context {S : Type}.
Implicit Types (h : History NetOp) (own : list HcRes) (s : S).

(** A call that uses what is owned and keeps it. *)
Lemma wp_use {T} (op : NetOp T) own (Q : Status + T -> S -> History NetOp -> Prop) s h :
  acct own h -> (forall r, obtains (Ev op r) = None /\ releases (Ev op r) = None /\ needs_own (Ev op r) own) ->
  (forall r h', acct own h' -> Q (inr r) s h') -> wp (call op) Q s h.
Proof.
  intros Ha Hop HQ. apply wp_call. intros r _. destruct (Hop r) as (E1 & E2 & E3). by apply HQ, acct_neutral.
Qed.

Lemma wp_WaitChannelConnected ub ch ms own (Q : Status + unit -> S -> History NetOp -> Prop) s h :
  acct own h -> RCh ub ch ∈ own -> (forall o h', acct own h' -> Q o s h') -> wp (WaitChannelConnected ub ch ms) Q s h.
Proof using Hnet.
  intros Ha Hch HQ. unfold WaitChannelConnected. apply wp_bind, wp_call. intros start Hstart.
  assert (Hl : later start (Ev NetNow start :: h)).
  { split; [by apply clock_monotone|]. intros. by apply clock_io. }
  set (I := fun n (_ : unit) s' h' => s' = s /\ acct own h' /\ exists lb, time_left ms start n lb /\ clock_from lb h').
  apply (wp_loop (wait_round ub ch ms start) I Q) with (n := Z.max 0 ms * 1000000 + 1).
  - intros n [] s' h' (_ & _ & lb & HT & _). by eapply time_left_nonneg.
  - clear h Ha Hstart Hl. intros n [] s' h (-> & Ha & lb & HT & Hlb). unfold wait_round.
    apply wp_bind, wp_call. intros [rc status] _.
    apply (acct_neutral _ _ (Ev (Hc (ChGetStatus ub ch)) (rc, status))) in Ha; [|by split|done|done].
    apply (clock_from_mono _ [Ev (Hc (ChGetStatus ub ch)) (rc, status)]) in Hlb. cbn [app] in Hlb.
    set (h1 := _ :: h) in *. apply wp_bind, wp_chk_hccl; intros _; [|by apply HQ].
    destruct (status =? kChannelConnectedStatus); [by apply wp_ret, HQ|].
    apply wp_bind, wp_require; intros _; [|by apply HQ].
    apply wp_bind, wp_call. intros now Hnow. assert (Hge : lb <= now) by (rewrite Hnow; apply (Hlb [])).
    apply (acct_neutral _ _ (Ev NetNow now)) in Ha; [|done..].
    apply wp_bind, wp_require; intros Hel; [|by apply HQ]. apply Z.ltb_lt in Hel.
    apply wp_bind, wp_call. intros [] _. apply wp_ret.
    assert (Hc := clock_io now [] _ (Hc (SleepUs 1)) tt h1 eq_refl Hnow).
    unfold time_left in HT. eexists (start + Z.max 0 ms * 1000000 + 1 - (now + 1)). split; [lia|].
    split_and!; [done|by apply acct_neutral|]. exists (now + 1). split; [|exact Hc]. unfold time_left. lia.
  - apply (time_left_enough ms start _ start), time_left_start.
  - split_and!; [done|by apply acct_neutral|]. exists start. split; [apply time_left_start|apply (later_from _ [] _ Hl)].
Qed.

(** A new channel is owned beside the rest, unless it could not be connected. *)
Lemma wp_Channel_Create ub ep desc engine ms own (Q : Status + Channel -> S -> History NetOp -> Prop) s h :
  acct own h -> REp ep ∈ own ->
  (forall e h', acct own h' -> Q (inl e) s h') ->
  (forall ch h', ch <> 0 -> acct (RCh ub ch :: own) h' -> Q (inr {| channel_handle_ := ch |}) s h') ->
  wp (Channel_Create ub ep desc engine ms) Q s h.
Proof using Hnet Hhc.
  intros Ha Hep HE HQ. unfold Channel_Create. apply wp_bind, wp_require; intros _; [|by apply HE].
  apply wp_bind, wp_call. intros [rc ch] Hr. apply wp_bind, wp_chk_hccl; intros Hrc.
  2:{ apply HE, acct_neutral; [done|done| |done]. cbn [obtains]. by rewrite (proj2 (Z.eqb_neq _ _) Hrc). }
  subst rc. destruct (ch_fresh _ _ _ _ _ _ Hr) as [Hn Hf].
  assert (Ho : RCh ub ch ∉ own) by (intros Ho; by apply Hf, (a_own _ _ Ha)).
  assert (Ha1 : acct (RCh ub ch :: own) (Ev (Hc (ChCreate ub ep engine desc)) (HCCL_SUCCESS, ch) :: h)) by (apply acct_obtain; [done|by split|cbn [obtains]; by rewrite Z.eqb_refl|done|done]).
  apply wp_bind, wp_on_fail. apply (wp_WaitChannelConnected ub ch ms (RCh ub ch :: own)); [done|by left|].
  intros [e|[]] h2 Ha2; [|by apply wp_ret, HQ].
  apply wp_bind, wp_call. intros rc _. apply wp_ret, HE. eapply acct_release; [done|done|exact Ha2|].
  split; [by left|done].
Qed.

Lemma wp_Channel_Destroy ub ch own (Q : Status + unit -> S -> History NetOp -> Prop) s h :
  acct (RCh ub ch :: own) h -> ch <> 0 ->
  (forall e h', acct (RCh ub ch :: own) h' -> acct own h' -> Q (inl e) s h') ->
  (forall h', acct own h' -> Q (inr tt) s h') ->
  wp (Channel_Destroy ub {| channel_handle_ := ch |}) Q s h.
Proof.
  intros Ha Hn HE HQ. unfold Channel_Destroy. cbn [channel_handle_]. rewrite (proj2 (Z.eqb_neq _ _) Hn).
  assert (Hown : forall rc, needs_own (Ev (Hc (ChDestroy ub ch)) rc) (RCh ub ch :: own)) by (intros rc; split; [by left|done]).
  apply wp_bind, wp_call. intros rc _. apply wp_chk_hccl; intros Hrc.
  - apply HQ. by eapply acct_release.
  - apply HE; [|by eapply acct_release]. eapply acct_keep; [done|done|done|done|].
    left. by apply Z.eqb_neq.
Qed.
End Channels.

(** * Endpoints *)
Section EndpointCalls.
Context {codes : AclCodes} {again : HcclAgain} {clib : CLibrary} {env : Environment NetOp}.
Context {Hnet : NetLaws env} {Hhc : HcLaws env}.
Variable O : list HcRes.
Implicit Types (h : History NetOp) (s : EpState) (e : Endpoint).

Definition inv s h : Prop := ep_wf (es_ep s) /\ acct (owned (es_ep s) ++ O) h.
(** What the calls of an open endpoint leave. *)
Definition same e e' : Prop := handle_ e' = handle_ e /\ endpoint_ e' = endpoint_ e.

Lemma same_refl e : same e e.
Proof. done. Qed.

Lemma owned_self e : handle_ e <> nullptr -> REp (handle_ e) ∈ owned e ++ O.
Proof. intros H. unfold owned. rewrite self_of_handle by done. by left. Qed.

Lemma negb_null x : negb (is_null x) = true -> x <> nullptr.
Proof. unfold is_null. by rewrite negb_true_iff, Z.eqb_neq. Qed.

(** A call on the endpoint that creates and releases nothing. *)
Lemma wp_ep_use {T} (op : NetOp T) (Q : Status + T -> EpState -> History NetOp -> Prop) s h :
  inv s h -> handle_ (es_ep s) <> nullptr ->
  (forall r, obtains (Ev op r) = None /\ releases (Ev op r) = None /\ hc_needs (Ev op r) = Some (REp (handle_ (es_ep s)))) ->
  (forall r h', inv s h' -> Q (inr r) s h') -> wp (call op) Q s h.
Proof.
  intros [Hw Ha] Hn Hop HQ. eapply wp_use; [exact Ha| |].
  - intros r. destruct (Hop r) as (E1 & E2 & E3). split_and!; [done|done|]. unfold needs_own. rewrite E3.
    split; [by apply owned_self|done].
  - intros r h' Ha'. by apply HQ.
Qed.

Lemma wp_GetListenPort (Q : Status + Z -> EpState -> History NetOp -> Prop) s h :
  inv s h -> (forall o h', inv s h' -> Q o s h') -> wp Endpoint_GetListenPort Q s h.
Proof.
  intros H HQ. unfold Endpoint_GetListenPort. apply wp_bind, wp_bind, wp_get, wp_ret.
  apply wp_bind, wp_require; [intros Hn%negb_null|intros _; by apply HQ].
  apply wp_bind, wp_ep_use; [done|done|done|]. intros [rc port] h' H'.
  case_match; [by apply wp_fail, HQ|]. apply wp_bind, wp_require; intros _; [apply wp_ret|]; by apply HQ.
Qed.

Lemma wp_ImportMem (Q : Status + CommMem -> EpState -> History NetOp -> Prop) d len s h :
  inv s h -> (forall o h', inv s h' -> Q o s h') -> wp (Endpoint_ImportMem d len) Q s h.
Proof.
  intros H HQ. unfold Endpoint_ImportMem. apply wp_bind, wp_bind, wp_get, wp_ret.
  apply wp_bind, wp_require; intros _; [|by apply HQ].
  apply wp_bind, wp_require; [intros Hn%negb_null|intros _; by apply HQ].
  apply wp_bind, wp_ep_use; [done|done|done|]. intros [rc m] h' H'.
  apply wp_bind, wp_chk_hccl; intros _; [apply wp_ret|]; by apply HQ.
Qed.

Lemma wp_UnimportMem (Q : Status + unit -> EpState -> History NetOp -> Prop) d len s h :
  inv s h -> (forall o h', inv s h' -> Q o s h') -> wp (Endpoint_UnimportMem d len) Q s h.
Proof.
  intros H HQ. unfold Endpoint_UnimportMem. apply wp_bind, wp_bind, wp_get, wp_ret.
  apply wp_bind, wp_require; intros _; [|by apply HQ].
  apply wp_bind, wp_require; [intros Hn%negb_null|intros _; by apply HQ].
  apply wp_bind, wp_ep_use; [done|done|done|]. intros rc h' H'.
  apply wp_chk_hccl; intros _; by apply HQ.
Qed.

(** ** Tables *)
Lemma inv_set_reg k d s s' h :
  inv s h -> es_ep s' = set_regs (std_set k d (reg_mems_ (es_ep s))) (es_ep s) -> handle_ (es_ep s) <> nullptr ->
  RReg (handle_ (es_ep s)) k ∈ owned (es_ep s) -> inv s' h.
Proof.
  intros [[W1 W2 W3 W4] Ha] E Hn Hk. unfold inv. rewrite E. split; [constructor; [by apply std_set_wf|done|done|done]|].
  assert (Hd : exists d', (k, d') ∈ reg_mems_ (es_ep s)).
  { apply (reg_in (handle_ (es_ep s))). unfold owned in Hk. rewrite self_of_handle in Hk by done.
    apply elem_of_app in Hk as [?%list_elem_of_singleton|Hk]; [done|].
    apply elem_of_app in Hk as [(p & ? & _)%list_elem_of_fmap|Hk]; done. }
  destruct Hd as (d' & Hd%std_find_elem); [|done].
  eapply acct_perm; [|exact Ha]. unfold owned. cbn [handle_ channels_ reg_mems_ set_regs is_ub endpoint_].
  by rewrite (regs_set _ _ _ _ W1), <- (regs_erase _ _ _ _ W1 Hd).
Qed.

(** A registration that was just granted. *)
Lemma inv_new_reg k d s s' h :
  ep_wf (es_ep s) -> acct (RReg (handle_ (es_ep s)) k :: owned (es_ep s) ++ O) h -> handle_ (es_ep s) <> nullptr ->
  es_ep s' = set_regs (std_set k d (reg_mems_ (es_ep s))) (es_ep s) -> inv s' h.
Proof.
  intros Hw Ha Hn E. destruct (decide (RReg (handle_ (es_ep s)) k ∈ owned (es_ep s))) as [Hin|Hin].
  - eapply inv_set_reg; [split; [exact Hw|]|exact E|done|done].
    eapply acct_dup; [exact Ha|]. apply elem_of_app. by left.
  - pose proof Hw as [W1 W2 W3 W4]. unfold inv. rewrite E. split; [constructor; [by apply std_set_wf|done|done|done]|].
    eapply acct_perm; [|exact Ha]. unfold owned. cbn [handle_ channels_ reg_mems_ set_regs is_ub endpoint_].
    rewrite (regs_set _ _ _ _ W1). rewrite std_erase_none; [solve_Permutation|].
    apply std_find_none; [done|]. intros v Hv. apply Hin. unfold owned. rewrite !elem_of_app. right; right.
    apply reg_in. by exists v.
Qed.

(** ** Registered memory *)
Lemma wp_register_mapped (Q : Status + Z -> EpState -> History NetOp -> Prop) tag mem reg devm s h :
  inv s h -> handle_ (es_ep s) <> nullptr -> (forall o s' h', inv s' h' -> same (es_ep s) (es_ep s') -> Q o s' h') ->
  wp (register_mapped (es_ep s) tag mem reg devm) Q s h.
Proof.
  intros [Hw Ha] Hn HQ. unfold register_mapped. apply wp_bind, wp_on_fail, wp_bind, wp_call. intros [rc mh] _.
  assert (Hneeds : needs_own (Ev (Hc (EpMemReg (handle_ (es_ep s)) tag reg)) (rc, mh)) (owned (es_ep s) ++ O)).
  { split; [by apply owned_self|done]. }
  apply wp_bind, wp_require; intros Hrc.
  - apply wp_ret, wp_bind, wp_modify, wp_ret, HQ; [|done].
    eapply (inv_new_reg mh _ s); [done| |done|reflexivity].
    apply acct_obtain; [done|done| |done|done]. cbn [obtains]. by rewrite Hrc.
  - assert (Ha2 : acct (owned (es_ep s) ++ O) (Ev (Hc (EpMemReg (handle_ (es_ep s)) tag reg)) (rc, mh) :: h)).
    { apply acct_neutral; [done|done| |done]. cbn [obtains]. by rewrite Hrc. }
    destruct (negb (is_null devm)); [|by apply wp_ret, HQ].
    eapply wp_UnregisterByDev; [exact Ha2|]. intros o px' h2 Ha3. by apply HQ.
Qed.

Lemma wp_Endpoint_RegisterMem (Q : Status + Z -> EpState -> History NetOp -> Prop) tag mem s h :
  inv s h -> (forall o s' h', inv s' h' -> same (es_ep s) (es_ep s') -> Q o s' h') ->
  wp (Endpoint_RegisterMem tag mem) Q s h.
Proof.
  intros [Hw Ha] HQ. unfold Endpoint_RegisterMem. apply wp_bind, wp_bind, wp_get, wp_ret.
  apply wp_bind, wp_require; [intros Hn%negb_null|intros _; by apply HQ].
  apply wp_bind. destruct (_ && _).
  - eapply wp_RegisterByDev; [exact Ha|]. intros [st|devm] px h1 Ha1; [by apply HQ|].
    by apply (wp_register_mapped Q tag mem _ devm (set_px px s)).
  - by apply wp_ret, wp_register_mapped.
Qed.

Lemma wp_Endpoint_DeregisterMem (Q : Status + unit -> EpState -> History NetOp -> Prop) mh s h :
  inv s h -> (forall o s' h', inv s' h' -> same (es_ep s) (es_ep s') -> Q o s' h') ->
  wp (Endpoint_DeregisterMem mh) Q s h.
Proof.
  intros [Hw Ha] HQ. unfold Endpoint_DeregisterMem. apply wp_bind, wp_bind, wp_get, wp_ret.
  destruct (std_find mh (reg_mems_ (es_ep s))) as [it|] eqn:Hit; [|by apply wp_ret, HQ].
  apply wp_bind, wp_require; [intros Hn%negb_null|intros _; by apply HQ].
  pose proof Hw as [W1 W2 W3 W4].
  set (e' := set_regs (std_erase mh (reg_mems_ (es_ep s))) (es_ep s)).
  assert (Ep : owned (es_ep s) ++ O ≡ₚ RReg (handle_ (es_ep s)) mh :: owned e' ++ O).
  { unfold owned at 1. rewrite (regs_erase _ _ _ _ W1 Hit).
    unfold owned. cbn [handle_ channels_ reg_mems_ set_regs is_ub endpoint_ e']. solve_Permutation. }
  apply wp_bind, wp_call. intros rc _.
  assert (Hneeds : needs_own (Ev (Hc (EpMemUnreg (handle_ (es_ep s)) mh)) rc) (owned (es_ep s) ++ O)).
  { split; [by apply owned_self|done]. }
  assert (Ha1 : acct (owned e' ++ O) (Ev (Hc (EpMemUnreg (handle_ (es_ep s)) mh)) rc :: h)).
  { eapply acct_release; [done|done|by eapply acct_perm|]. unfold needs_own in *. cbn [hc_needs] in *. by rewrite <- Ep. }
  assert (Hkeep : forall h', acct (owned e' ++ O) h' -> acct (owned (es_ep s) ++ O) h').
  { intros h' Ha'. eapply acct_perm; [symmetry; exact Ep|]. by apply acct_weaken. }
  apply wp_bind, wp_chk_hccl; intros Hrc; [|by apply HQ; [split; [done|by apply Hkeep]|]].
  assert (Hend : forall px h', acct (owned e' ++ O) h' ->
    wp (ep_modify (fun e => set_regs (std_erase mh (reg_mems_ e)) e)) Q (set_px px s) h').
  { intros px h' Ha'. apply wp_modify, HQ; [|done].
    split; [constructor; [by apply std_erase_wf|done|done|]|exact Ha'].
    intros E. by destruct Hn. }
  apply wp_bind. destruct (negb (is_null (hmd_registered_dev_mem it))).
  - eapply wp_UnregisterByDev; [exact Ha1|]. intros [st|[]] px h' Ha'; [|by apply Hend].
    apply HQ; [|done]. split; [done|by apply Hkeep].
  - apply wp_ret. destruct s as [e px]. by apply (Hend px).
Qed.

Lemma wp_export_mems (Q : Status + list HixlMemDesc -> EpState -> History NetOp -> Prop) l s h :
  inv s h -> handle_ (es_ep s) <> nullptr -> (forall p, p ∈ l -> RReg (handle_ (es_ep s)) p.1 ∈ owned (es_ep s)) ->
  (forall o s' h', inv s' h' -> same (es_ep s) (es_ep s') -> Q o s' h') ->
  wp (export_mems (handle_ (es_ep s)) l) Q s h.
Proof.
  revert Q s h. induction l as [|[k d] l IH]; intros Q s h H Hn Hl HQ; [by apply wp_ret, HQ|]. cbn [export_mems].
  assert (Hk : RReg (handle_ (es_ep s)) k ∈ owned (es_ep s)) by (apply (Hl (k, d)); by left).
  assert (Hrest : forall p, p ∈ l -> RReg (handle_ (es_ep s)) p.1 ∈ owned (es_ep s)) by (intros; apply Hl; by right).
  apply wp_bind. destruct (is_null (hmd_export_desc d)).
  - apply wp_bind, wp_ep_use; [done|done|done|]. intros [[rc desc] len] h1 H1.
    apply wp_bind, wp_chk_hccl; intros _; [|by apply HQ].
    apply wp_bind, wp_modify, wp_ret. set (s2 := set_ep _ s).
    assert (H2 : inv s2 h1) by (eapply inv_set_reg; [exact H1|reflexivity|done|done]).
    apply wp_bind, (IH _ s2 h1); [done|done| |].
    + intros p Hp. unfold owned. cbn [es_ep s2 set_ep set_regs handle_ channels_ reg_mems_ endpoint_ is_ub].
      apply elem_of_app; right; apply elem_of_app; right. destruct H as [[W1 _ _ _] _].
      rewrite (regs_set _ _ _ _ W1).
      destruct (decide (p.1 = k)) as [->|Hne]; [by left|right].
      pose proof (Hrest p Hp) as Hin. unfold owned in Hin. rewrite self_of_handle in Hin by done.
      apply elem_of_app in Hin as [?%list_elem_of_singleton|Hin]; [done|].
      apply elem_of_app in Hin as [(x & ? & _)%list_elem_of_fmap|Hin]; [done|].
      apply reg_in in Hin as (d' & Hd). apply reg_in. exists d'. by apply std_erase_elem.
    + intros [st|ds] s' h' H' Hs; [|apply wp_ret]; by apply HQ.
  - apply wp_ret, wp_bind, (IH _ s h); [done..|].
    intros [st|ds] s' h' H' Hs; [|apply wp_ret]; by apply HQ.
Qed.

Lemma wp_Endpoint_ExportMem (Q : Status + list HixlMemDesc -> EpState -> History NetOp -> Prop) s h :
  inv s h -> (forall o s' h', inv s' h' -> same (es_ep s) (es_ep s') -> Q o s' h') -> wp Endpoint_ExportMem Q s h.
Proof.
  intros H HQ. unfold Endpoint_ExportMem. apply wp_bind, wp_bind, wp_get, wp_ret.
  apply wp_bind, wp_require; [intros Hn%negb_null|intros _; by apply HQ].
  apply wp_export_mems; [done|done| |done]. intros p Hp. unfold owned. rewrite !elem_of_app. right; right.
  apply reg_in. exists p.2. by destruct p.
Qed.

(** ** Channels *)
Lemma wp_make_channel (Q : Status + Channel -> EpState -> History NetOp -> Prop) cd ms s h :
  inv s h -> (forall st h', inv s h' -> Q (inl st) s h') ->
  (forall ch h', ch <> 0 -> ep_wf (es_ep s) -> acct (RCh (is_ub (es_ep s)) ch :: owned (es_ep s) ++ O) h' ->
     Q (inr {| channel_handle_ := ch |}) s h') ->
  wp (make_channel cd ms) Q s h.
Proof using Hnet Hhc.
  intros [Hw Ha] HE HQ. unfold make_channel. apply wp_bind, wp_bind, wp_get, wp_ret.
  apply wp_bind, wp_require; [intros Hn%negb_null|intros _; by apply HE].
  apply wp_bind, wp_require; intros _; [|by apply HE].
  destruct (InitChannelDesc _ _ _) as [e|d]; [by apply wp_fail, HE|].
  apply wp_bind. eapply wp_use; [exact Ha|done|]. intros made h1 Ha1.
  apply wp_bind, wp_require; intros _; [|by apply HE].
  eapply wp_Channel_Create; [exact Ha1|by apply owned_self| |].
  - intros e h2 Ha2. by apply HE.
  - intros ch h2 Hc Ha2. by apply HQ.
Qed.

Lemma wp_store_channel (Q : Status + Z -> EpState -> History NetOp -> Prop) ch s h :
  ep_wf (es_ep s) -> ch <> 0 -> acct (RCh (is_ub (es_ep s)) ch :: owned (es_ep s) ++ O) h ->
  (forall s' , inv s' h -> same (es_ep s) (es_ep s') ->
     std_find ch (channels_ (es_ep s')) = Some {| channel_handle_ := ch |} -> Q (inr ch) s' h) ->
  wp (store_channel {| channel_handle_ := ch |}) Q s h.
Proof.
  intros [W1 W2 W3 W4] Hc Ha HQ. unfold store_channel. apply wp_bind, wp_modify, wp_ret.
  apply HQ; [|done|apply std_find_set_same]. cbn [channel_handle_]. split.
  - constructor; [done|by apply std_set_wf| |done]. intros k c [[-> ->]|[_ H]]%std_set_elem; [done|by apply W3|done].
  - eapply acct_perm; [|exact Ha]. unfold owned. cbn [set_ep es_ep set_channels handle_ channels_ reg_mems_ is_ub endpoint_].
    rewrite (chans_set _ _ _ _ W2). rewrite std_erase_none; [solve_Permutation|].
    apply std_find_none; [done|]. intros c Hin. destruct Ha as [Hnd _ _ _].
    rewrite filter_cons_True in Hnd by done. inversion Hnd as [|? ? Hni _]; subst. apply Hni.
    apply list_elem_of_filter. split; [done|]. unfold owned. rewrite !elem_of_app. left; right; left.
    apply chan_in. by exists c.
Qed.

Lemma wp_Endpoint_CreateChannel (Q : Status + Z -> EpState -> History NetOp -> Prop) cd ms s h :
  inv s h -> (forall o s' h', inv s' h' -> same (es_ep s) (es_ep s') -> Q o s' h') ->
  wp (Endpoint_CreateChannel cd ms) Q s h.
Proof using Hnet Hhc.
  intros H HQ. unfold Endpoint_CreateChannel. apply wp_bind, wp_make_channel; [done|by intros; apply HQ|].
  intros ch h' Hc Hw Ha. apply wp_store_channel; [done|done|done|]. intros s' Hs' Hsame _. by apply HQ.
Qed.

Lemma wp_Endpoint_DestroyChannel (Q : Status + unit -> EpState -> History NetOp -> Prop) ch s h :
  inv s h -> (forall o s' h', inv s' h' -> same (es_ep s) (es_ep s') -> Q o s' h') ->
  wp (Endpoint_DestroyChannel ch) Q s h.
Proof.
  intros [[W1 W2 W3 W4] Ha] HQ. unfold Endpoint_DestroyChannel. apply wp_bind, wp_bind, wp_get, wp_ret.
  destruct (std_find ch (channels_ (es_ep s))) as [c|] eqn:Hc; [|by apply wp_fail, HQ].
  destruct (W3 ch c) as [E Hn]; [by apply std_find_elem|]. destruct c as [x]; cbn [channel_handle_] in E; subst x.
  set (e' := set_channels (std_erase ch (channels_ (es_ep s))) (es_ep s)).
  assert (Ep : owned (es_ep s) ++ O ≡ₚ RCh (is_ub (es_ep s)) ch :: owned e' ++ O).
  { unfold owned at 1. rewrite (chans_erase _ _ _ _ W2 Hc).
    unfold owned. cbn [handle_ channels_ reg_mems_ set_channels is_ub endpoint_ e']. solve_Permutation. }
  apply wp_bind. eapply wp_Channel_Destroy; [eapply acct_perm; [exact Ep|exact Ha]|done| |].
  - intros e h' Ha' _. apply HQ; [|done]. split; [done|]. eapply acct_perm; [symmetry; exact Ep|done].
  - intros h' Ha'. apply wp_modify, HQ; [|done]. split; [|exact Ha'].
    constructor; [done|by apply std_erase_wf| |done]. intros k c [_ H]%std_erase_elem; [by apply W3|done].
Qed.

(** ** Opening and closing *)
Lemma wp_finalize_channels (Q : Status + Status -> EpState -> History NetOp -> Prop) ub l st own s h :
  (forall k c, (k, c) ∈ l -> channel_handle_ c = k /\ k <> 0) -> acct (chans_of ub l ++ own) h ->
  (forall st h', acct own h' -> Q (inr st) s h') -> wp (finalize_channels ub l st) Q s h.
Proof.
  revert st h. induction l as [|[k c] l IH]; intros st h Hl Ha HQ; [by apply wp_ret, HQ|]. cbn [finalize_channels].
  destruct (Hl k c) as [E Hn]; [by left|]. destruct c as [x]; cbn [channel_handle_] in E; subst x.
  assert (Hrest : forall h', acct (chans_of ub l ++ own) h' -> forall st, wp (finalize_channels ub l st) Q s h').
  { intros h' Ha' st'. apply IH; [|done|done]. intros k' c' Hin. apply Hl. by right. }
  apply wp_bind, wp_attempt. eapply wp_Channel_Destroy; [exact Ha|done| |].
  - intros e h' _ Ha'. by apply Hrest.
  - intros h' Ha'. by apply Hrest.
Qed.

Lemma wp_finalize_mems (Q : Status + Status -> EpState -> History NetOp -> Prop) e l st own s h :
  (handle_ e = nullptr -> l = []) -> (handle_ e <> nullptr -> REp (handle_ e) ∈ own) -> acct (regs_of (handle_ e) l ++ own) h ->
  (forall st px h', acct own h' -> Q (inr st) (set_px px s) h') -> wp (finalize_mems e l st) Q s h.
Proof.
  intros Hnil Hep. revert Hnil st s h.
  induction l as [|[k d] l IH]; intros Hnil st s h Ha HQ.
  { apply wp_ret. destruct s as [ep px]. by apply (HQ st px). }
  destruct (decide (handle_ e = nullptr)) as [E|Hn]; [by apply Hnil in E|]. cbn [finalize_mems fst snd].
  unfold is_null at 1. rewrite (proj2 (Z.eqb_neq _ _) Hn). cbn [negb].
  apply wp_bind, wp_bind, wp_call. intros rc _. apply wp_ret.
  set (ev := Ev (Hc (EpMemUnreg (handle_ e) k)) rc).
  assert (Ha1 : acct (regs_of (handle_ e) l ++ own) (ev :: h)).
  { eapply acct_release; [done|done|exact Ha|]. split; [|done]. right. apply elem_of_app. right. by apply Hep. }
  apply wp_bind. destruct (negb (is_null (hmd_registered_dev_mem d))).
  - apply wp_bind, wp_attempt. eapply wp_UnregisterByDev; [exact Ha1|]. intros o px h2 Ha2.
    apply wp_ret, IH; [by intros ?|done|]. intros st' px' h3 Ha3. by apply (HQ st' px').
  - apply wp_ret, IH; [by intros ?|done|done].
Qed.

Definition finalized (e : Endpoint) : Endpoint := set_handle nullptr (set_regs [] (set_channels [] e)).

Lemma wp_Endpoint_Finalize (Q : Status + Status -> EpState -> History NetOp -> Prop) s h :
  inv s h -> (forall st px h', acct O h' -> Q (inr st) {| es_ep := finalized (es_ep s); es_px := px |} h') ->
  wp Endpoint_Finalize Q s h.
Proof.
  intros [[W1 W2 W3 W4] Ha] HQ. unfold Endpoint_Finalize. apply wp_bind, wp_bind, wp_get, wp_ret, wp_bind.
  eapply (wp_finalize_channels _ _ _ _ (self_of (handle_ (es_ep s)) ++ regs_of (handle_ (es_ep s)) (reg_mems_ (es_ep s)) ++ O));
    [done| |].
  { eapply acct_perm; [|exact Ha]. unfold owned. solve_Permutation. }
  intros st1 h1 Ha1. apply wp_bind, wp_modify, wp_bind.
  eapply (wp_finalize_mems _ _ _ _ (self_of (handle_ (es_ep s)) ++ O)); [done| | |].
  { intros Hn. rewrite self_of_handle by done. by left. }
  { eapply acct_perm; [|exact Ha1]. solve_Permutation. }
  intros st2 px h2 Ha2. apply wp_bind, wp_modify, wp_bind. unfold is_null, self_of in *.
  destruct (decide (handle_ (es_ep s) = nullptr)) as [E|Hn].
  - rewrite E in *. apply wp_ret, wp_bind, wp_modify, wp_ret. by apply HQ.
  - unfold is_null in Ha2. rewrite (proj2 (Z.eqb_neq _ _) Hn) in Ha2 |- *. apply wp_bind, wp_call. intros rc _.
    apply wp_ret, wp_bind, wp_modify, wp_ret, HQ.
    eapply acct_release; [done|done|exact Ha2|]. split; [by left|done].
Qed.

Lemma wp_Endpoint_Initialize (Q : Status + unit -> EpState -> History NetOp -> Prop) d b px h :
  acct O h -> (forall st s' h', acct O h' -> Q (inl st) s' h') ->
  (forall s' h', inv s' h' -> handle_ (es_ep s') <> nullptr -> endpoint_ (es_ep s') = d ->
     channels_ (es_ep s') = [] -> Q (inr tt) s' h') ->
  wp Endpoint_Initialize Q {| es_ep := Endpoint_new d b; es_px := px |} h.
Proof using Hhc.
  intros Ha HE HQ. unfold Endpoint_Initialize. apply wp_bind, wp_bind, wp_get, wp_ret.
  apply wp_bind, wp_call. intros [rc ep] Hr. apply wp_bind, wp_modify, wp_chk_hccl; intros Hrc.
  - subst rc. destruct (ep_fresh _ _ _ Hr) as [Hn Hf]. apply HQ; [|done|done|done].
    split; [constructor; [constructor|constructor|by intros ?? ?%elem_of_nil|done]|].
    unfold owned. cbn [es_ep set_ep set_handle handle_]. rewrite self_of_handle by done.
    apply acct_obtain; [done|done|cbn [obtains]; by rewrite Z.eqb_refl|done|].
    intros _ Ho. by apply Hf, (a_own _ _ Ha).
  - apply HE, acct_neutral; [done|done| |done]. cbn [obtains]. by rewrite (proj2 (Z.eqb_neq _ _) Hrc).
Qed.
End EndpointCalls.

(** * The store *)
Definition store_owned (l : list (Z * Endpoint)) : list HcRes := mjoin ((fun p => owned p.2) <$> l).
Record store_wf (s : EndpointStore) : Prop := {
  sw_map : std_map_wf (endpoints_ s);
  sw_ep : forall k e, (k, e) ∈ endpoints_ s -> handle_ e = k /\ k <> nullptr /\ ep_wf e
}.

Lemma store_owned_perm l l' : l ≡ₚ l' -> store_owned l ≡ₚ store_owned l'.
Proof. intros E. unfold store_owned. by rewrite E. Qed.
Lemma store_set k e l : std_map_wf l -> store_owned (std_set k e l) ≡ₚ owned e ++ store_owned (std_erase k l).
Proof. intros H. by rewrite (store_owned_perm _ _ (std_set_perm k e l H)). Qed.
Lemma store_erase k e l : std_map_wf l -> std_find k l = Some e -> store_owned l ≡ₚ owned e ++ store_owned (std_erase k l).
Proof. intros H E. by rewrite (store_owned_perm _ _ (std_erase_perm k e l H E)). Qed.
Lemma store_owned_in k e l : (k, e) ∈ l -> forall r, r ∈ owned e -> r ∈ store_owned l.
Proof.
  intros H r Hr. unfold store_owned. apply list_elem_of_join. exists (owned e). split; [done|].
  apply list_elem_of_fmap. by exists (k, e).
Qed.

Section StoreCalls.
Context {codes : AclCodes} {again : HcclAgain} {clib : CLibrary} {env : Environment NetOp}.
Context {Hnet : NetLaws env} {Hhc : HcLaws env}.
Variable O : list HcRes.
Implicit Types (h : History NetOp) (s : EndpointStore).

(** The tables account for what is alive, except for [O] and what was refused. *)
Definition sinv s h : Prop := store_wf s /\ acct (store_owned (endpoints_ s) ++ O) h.

(** A call on an endpoint is framed by the others. *)
Lemma wp_on_endpoint {A} (m : M NetOp EpState A) (Q : Status + A -> EndpointStore -> History NetOp -> Prop) k e s h :
  sinv s h -> std_find k (endpoints_ s) = Some e ->
  (let rest := store_owned (std_erase k (endpoints_ s)) ++ O in
   let t0 := {| es_ep := e; es_px := st_px s |} in
   inv rest t0 h -> handle_ e = k ->
   wp m (fun o t h' => inv rest t h' /\ same e (es_ep t) /\
     forall s', sinv s' h' -> endpoints_ s' = std_set k (es_ep t) (endpoints_ s) -> Q o s' h') t0 h) ->
  wp (on_endpoint k m) Q s h.
Proof.
  intros [[W1 W2] Ha] Hk Hm. destruct (W2 k e) as (Eh & Hn & He); [by apply std_find_elem|].
  eapply wp_zoom; [by rewrite Hk|]. eapply wp_mono; [apply Hm; [|done]|].
  - split; [done|]. eapply acct_perm; [|exact Ha]. rewrite (store_erase _ _ _ W1 Hk). solve_Permutation.
  - intros o t h' ([Ht Hat] & [Es _] & HQ). apply HQ; [|done]. split; [split|]; cbn [endpoints_].
    + by apply std_set_wf.
    + intros k' e' [[-> ->]|[_ Hin]]%std_set_elem; [|by apply W2|done]. by rewrite Es.
    + eapply acct_perm; [|exact Hat]. rewrite (store_set _ _ _ W1). solve_Permutation.
Qed.

(** The endpoints that are there stay. *)
Definition extends s s' : Prop := forall k e, std_find k (endpoints_ s) = Some e -> std_find k (endpoints_ s') = Some e.

Lemma wp_CreateEndpoint (Q : Status + Z -> EndpointStore -> History NetOp -> Prop) d b s h :
  sinv s h -> (forall o s' h', sinv s' h' -> extends s s' -> Q o s' h') -> wp (EndpointStore_CreateEndpoint d b) Q s h.
Proof using Hhc.
  intros [[W1 W2] Ha] HQ. unfold EndpointStore_CreateEndpoint.
  apply wp_bind. eapply wp_use; [exact Ha|done|]. intros made h1 Ha1.
  apply wp_bind, wp_require; intros _; [|by apply HQ; [|intros ??]].
  apply wp_bind. eapply wp_zoom; [done|]. apply wp_bind.
  eapply (wp_Endpoint_Initialize (store_owned (endpoints_ s) ++ O)); [done|by intros st s' h' Ha'; apply HQ; [|intros ??]|].
  intros t h2 [Ht Hat] Hn Hd Hch. apply wp_bind, wp_get, wp_ret. cbn beta iota. apply wp_bind, wp_modify, wp_ret.
  assert (Hnone : std_find (handle_ (es_ep t)) (endpoints_ s) = None).
  { apply std_find_none; [done|]. intros e Hin. destruct (W2 _ _ Hin) as (Eh & _ & _).
    destruct Hat as [Hnd _ _ _]. unfold owned at 1 in Hnd. rewrite self_of_handle in Hnd by done. cbn [app] in Hnd.
    rewrite filter_cons_True in Hnd by done. inversion Hnd as [|? ? Hni _]; subst. apply Hni.
    apply list_elem_of_filter. split; [done|]. rewrite !elem_of_app. right; left. eapply store_owned_in; [exact Hin|].
    unfold owned. rewrite Eh, self_of_handle by done. by left. }
  apply HQ; [split; [split|]; cbn [endpoints_ set_endpoints]|].
  - by apply std_set_wf.
  - intros k e [[-> ->]|[_ H]]%std_set_elem; [done|by apply W2|done].
  - eapply acct_perm; [|exact Hat]. rewrite (store_set _ _ _ W1). rewrite std_erase_none; [solve_Permutation|done].
  - intros k e E. cbn [endpoints_ set_endpoints]. rewrite std_find_set by done. case_decide as Ek; [congruence|done].
Qed.

(** ** Closing the store *)
Definition owned_at s (k : Z) : list HcRes := from_option owned [] (std_find k (endpoints_ s)).

Lemma wp_finalize_endpoints (Q : Status + Status -> EndpointStore -> History NetOp -> Prop) l st s h :
  std_map_wf (endpoints_ s) -> NoDup l -> (forall k, k ∈ l -> exists e, std_find k (endpoints_ s) = Some e /\ ep_wf e) ->
  acct (mjoin (owned_at s <$> l) ++ O) h ->
  (forall st s' h', acct O h' -> Q (inr st) s' h') -> wp (finalize_endpoints l st) Q s h.
Proof.
  revert st s h. induction l as [|k l IH]; intros st s h Hw Hnd Hl Ha HQ; [by apply wp_ret, HQ|].
  inversion Hnd as [|? ? Hk Hnd']; subst. destruct (Hl k) as (e & He & Hwe); [by left|]. cbn [finalize_endpoints].
  apply wp_bind. eapply wp_zoom; [by rewrite He|].
  apply (wp_Endpoint_Finalize (mjoin (owned_at s <$> l) ++ O)).
  { split; [done|]. cbn [es_ep]. cbn [fmap list_fmap mjoin list_join] in Ha. unfold owned_at at 1 in Ha.
    rewrite He in Ha. by rewrite <- app_assoc in Ha. }
  intros st1 px h1 Ha1. cbn [es_ep es_px]. set (s1 := {| endpoints_ := _; st_px := px |}).
  assert (Hf : forall k', k' ∈ l -> std_find k' (endpoints_ s1) = std_find k' (endpoints_ s)).
  { intros k' Hk'. cbn [s1 endpoints_]. rewrite std_find_set by done. rewrite decide_False; [done|]. by intros ->. }
  apply (IH _ s1); [by apply std_set_wf|done| | |done].
  - intros k' Hk'. rewrite Hf by done. apply Hl. by right.
  - replace (owned_at s1 <$> l) with (owned_at s <$> l); [done|]. apply list_fmap_ext. intros i k' Hk'.
    unfold owned_at. rewrite Hf; [done|]. by eapply list_elem_of_lookup_2.
Qed.

Lemma wp_EndpointStore_Finalize (Q : Status + Status -> EndpointStore -> History NetOp -> Prop) s h :
  sinv s h -> (forall st s' h', endpoints_ s' = [] -> acct O h' -> Q (inr st) s' h') -> wp EndpointStore_Finalize Q s h.
Proof.
  intros [[W1 W2] Ha] HQ. unfold EndpointStore_Finalize. apply wp_bind, wp_get, wp_bind.
  assert (Hkeys : NoDup (GetAllEndpointHandles s)).
  { unfold GetAllEndpointHandles. clear -W1. induction W1 as [|p l _ IH Hf]; [constructor|]. cbn [map].
    constructor; [|done]. rewrite Forall_forall in Hf. intros (q & E & Hq)%list_elem_of_fmap.
    apply Hf in Hq. unfold key_lt in Hq. rewrite E in Hq. by rewrite key_ltb_irrefl in Hq. }
  apply wp_finalize_endpoints; [done|done| | |].
  - intros k ([k' e] & -> & Hin)%list_elem_of_fmap. exists e. split; [by apply std_find_elem|]. by apply (W2 k' e).
  - replace (owned_at s <$> GetAllEndpointHandles s) with ((fun p => owned p.2) <$> endpoints_ s); [done|].
    unfold GetAllEndpointHandles. change (map fst (endpoints_ s)) with (fst <$> endpoints_ s).
    rewrite <- list_fmap_compose. apply list_fmap_ext. intros i [k e] Hi. cbn. unfold owned_at.
    rewrite (proj2 (std_find_elem k e _ W1)); [done|]. by eapply list_elem_of_lookup_2.
  - intros st s' h' Ha'. apply wp_bind, wp_modify, wp_ret. by apply HQ.
Qed.
End StoreCalls.

(** * Whatever is called *)
Inductive EpCall :=
| ERegisterMem (tag : option string) (mem : CommMem)
| EDeregisterMem (mem_handle : Z)
| EExportMem
| EImportMem (desc len : Z)
| EUnimportMem (desc len : Z)
| ECreateChannel (cd : ChannelDesc) (timeout_ms : Z)
| EDestroyChannel (ch : Z)
| EGetListenPort
| ESetPort (port : Z).
Inductive StoreCall :=
| SCreateEndpoint (d : EndpointDesc) (need_host_va_mapping : bool)
| SEndpoint (ep : Z) (c : EpCall)
| SFinalize.

Section Sequences.
Context {codes : AclCodes} {again : HcclAgain} {clib : CLibrary} {env : Environment NetOp}.

Definition ignore {S A} (m : M NetOp S A) : M NetOp S unit := let* _ := m in ret tt.
Definition run_ep (c : EpCall) : M NetOp EpState unit :=
  match c with
  | ERegisterMem tag mem => ignore (Endpoint_RegisterMem tag mem)
  | EDeregisterMem mh => Endpoint_DeregisterMem mh
  | EExportMem => ignore Endpoint_ExportMem
  | EImportMem d len => ignore (Endpoint_ImportMem d len)
  | EUnimportMem d len => Endpoint_UnimportMem d len
  | ECreateChannel cd ms => ignore (Endpoint_CreateChannel cd ms)
  | EDestroyChannel ch => Endpoint_DestroyChannel ch
  | EGetListenPort => ignore Endpoint_GetListenPort
  | ESetPort p => ep_modify (Endpoint_SetPort p)
  end.
(** The callers look the endpoint up first; a failed call is followed by the next. *)
Definition run_store (c : StoreCall) : M NetOp EndpointStore unit :=
  ignore (attempt match c with
    | SCreateEndpoint d b => ignore (EndpointStore_CreateEndpoint d b)
    | SEndpoint ep c =>
        let* s := get in
        match GetEndpoint ep s with Some _ => on_endpoint ep (run_ep c) | None => fail PARAM_INVALID end
    | SFinalize => ignore EndpointStore_Finalize
    end).

Context {Hnet : NetLaws env} {Hhc : HcLaws env}.

Lemma wp_ignore {S A} (m : M NetOp S A) (Q : Status + unit -> S -> History NetOp -> Prop) s h :
  wp m (fun o s' h' => Q (match o with inl e => inl e | inr _ => inr tt end) s' h') s h -> wp (ignore m) Q s h.
Proof. intros H. apply wp_bind. eapply wp_mono; [exact H|]. by intros [e|a] s' h' HQ. Qed.

Lemma wp_run_ep O (Q : Status + unit -> EpState -> History NetOp -> Prop) c s h :
  inv O s h -> (forall o s' h', inv O s' h' -> same (es_ep s) (es_ep s') -> Q o s' h') -> wp (run_ep c) Q s h.
Proof using Hnet Hhc.
  intros H HQ. destruct c; cbn [run_ep]; try apply wp_ignore.
  - eapply wp_Endpoint_RegisterMem; [exact H|]. intros; by apply HQ.
  - eapply wp_Endpoint_DeregisterMem; [exact H|]. intros; by apply HQ.
  - eapply wp_Endpoint_ExportMem; [exact H|]. intros; by apply HQ.
  - eapply wp_ImportMem; [exact H|]. intros; by apply HQ.
  - eapply wp_UnimportMem; [exact H|]. intros; by apply HQ.
  - eapply wp_Endpoint_CreateChannel; [exact H|]. intros; by apply HQ.
  - eapply wp_Endpoint_DestroyChannel; [exact H|]. intros; by apply HQ.
  - eapply wp_GetListenPort; [exact H|]. intros; by apply HQ.
  - apply wp_modify, HQ; [|done]. destruct H as [[W1 W2 W3 W4] Ha]. split; [by constructor|exact Ha].
Qed.

Lemma wp_run_store O (Q : Status + unit -> EndpointStore -> History NetOp -> Prop) c s h :
  sinv O s h -> (forall s' h', sinv O s' h' -> Q (inr tt) s' h') -> wp (run_store c) Q s h.
Proof using Hnet Hhc.
  intros H HQ. unfold run_store. apply wp_ignore, wp_attempt. destruct c as [d b|ep c|].
  - eapply wp_ignore, wp_CreateEndpoint; [exact H|]. intros o s' h' H' _. by apply HQ.
  - apply wp_bind, wp_get. destruct (GetEndpoint ep s) as [e|] eqn:E; [|by apply wp_fail, HQ].
    eapply wp_on_endpoint; [exact H|exact E|]. cbn zeta. intros Hi _.
    eapply wp_run_ep; [exact Hi|]. intros o t h' Ht Hs. split_and!; [done|done|]. intros s' H' _. by apply HQ.
  - eapply wp_ignore, wp_EndpointStore_Finalize; [exact H|]. intros st s' h' E Ha. apply HQ.
    split; [split|]; rewrite E; [constructor|by intros ?? ?%elem_of_nil|exact Ha].
Qed.

End Sequences.

(** * A run on the reference operating system *)
#[export] Instance ref_again : HcclAgain := 21.
#[export] Instance ref_clib : CLibrary := {| inet_ntop := fun _ bs => String.concat "." (to_string <$> bs) |}.

Definition hc_handle (r : HcRes) : Z :=
  match r with REp x | RCh _ x | RReg _ x | REpoll x | RHost x | RDev x | RPin x | RSlot _ x => x end.

Lemma live_created h r : r ∈ live h -> strong r = true -> hc_handle r <= highest hc_reply h.
Proof.
  induction h as [|e h IH]; [set_solver|]. rewrite live_cons. intros Hr Hs.
  assert (Hold : r ∈ live h -> hc_handle r <= highest hc_reply (e :: h)) by (simpl; intros H; apply IH in H; [lia|done]).
  assert (Hnew : obtains e = Some r -> hc_handle r <= highest hc_reply (e :: h)).
  { intros E. replace (hc_handle r) with (hc_reply e); [apply highest_elem; by left|].
    destruct e as [T op x]; destruct op; try done; destruct op; try done; try destruct x as [rc x]; cbn [obtains] in E;
      case_match; try done; by injection E as <-. }
  unfold live_step in Hr. destruct (obtains e) as [x|] eqn:E.
  - apply elem_of_union in Hr as [->%elem_of_singleton|Hr]; [by apply Hnew|by apply Hold].
  - destruct (releases e) as [[x []]|]; [apply elem_of_difference in Hr as [Hr _]|..]; by apply Hold.
Qed.

#[export] Instance net_ref_hc_laws tls oom input : HcLaws (net_ref tls oom input).
Proof.
  split; unfold reply_of; cbn [net_ref hcomm_ref].
  - intros d h ep [= ->]. pose proof (highest_nonneg hc_reply h). unfold nullptr. split; [lia|].
    intros Hin%live_created; [|done]. cbn [hc_handle] in Hin. lia.
  - intros ub ep engine d h ch [= ->]. pose proof (highest_nonneg hc_reply h). split; [lia|].
    intros Hin%live_created; [|done]. cbn [hc_handle] in Hin. lia.
  - intros h fd ->. right. intros Hin%live_created; [|done]. cbn [hc_handle] in Hin. lia.
  - intros align size h p [= ->] Hin%live_created; [|done]. cbn [hc_handle] in Hin. lia.
  - intros size h p [= ->]. pose proof (highest_nonneg hc_reply h). unfold nullptr. split; [lia|].
    intros Hin%live_created; [|done]. cbn [hc_handle] in Hin. lia.
Qed.

#[export] Instance net_ref_cli_laws tls oom input : CliLaws (net_ref tls oom input).
Proof.
  split; unfold reply_of; cbn [net_ref hcomm_ref cli_ref].
  - intros size h p ->. right. intros Hin%live_created; [|done]. cbn [hc_handle] in Hin. lia.
  - intros size h p [= ->]. pose proof (highest_nonneg hc_reply h). unfold nullptr. split; [lia|].
    intros Hin%live_created; [|done]. cbn [hc_handle] in Hin. lia.
  - intros dev h slot [= ->]. split; [done|]. intros Hin%live_created; [|done]. cbn [hc_handle h_slot_index ref_slot] in Hin. lia.
  - by intros size h rc p [= -> ->].
  - by intros d h rc p [= -> ->].
  - done.
Qed.

Definition sample_endpoint : EndpointDesc := {|
  ed_protocol := COMM_PROTOCOL_ROCE; ed_addr_type := COMM_ADDR_TYPE_IP_V4; ed_addr := [127; 0; 0; 1];
  ed_locType := ENDPOINT_LOC_TYPE_DEVICE; ed_loc := []; ed_raws := [] |}.
Definition sample_channel : ChannelDesc := {|
  cd_remote_endpoint := sample_endpoint; cd_tc := 132; cd_sl := 4; cd_retry_cnt := 7; cd_retry_interval := 12;
  cd_channel_type := kServer; cd_channel_index := 1; cd_qos := kQosUnset; cd_max_transfer_count_per_batch := 0;
  cd_configurable_transfer_supported := true |}.
(** Two endpoints; memory and two channels on the first, one of which is destroyed. *)
Definition sample_calls : list StoreCall :=
  [SCreateEndpoint sample_endpoint true; SCreateEndpoint EndpointDescInit false;
   SEndpoint 1 (ERegisterMem (Some "kv"%string) {| cm_type := COMM_MEM_TYPE_HOST; cm_addr := 4096; cm_size := 64 |});
   SEndpoint 1 (ECreateChannel sample_channel 1000); SEndpoint 1 (ECreateChannel sample_channel 1000);
   SEndpoint 1 EExportMem; SEndpoint 1 (EDestroyChannel 5); SEndpoint 7 EGetListenPort].

Lemma sample_calls_run :
  let env := net_ref false false [] in
  let '(o, s, h) := for_each sample_calls run_store {| endpoints_ := []; st_px := [] |} [] in
  o = Ret tt /\ store_owned (endpoints_ s) = [REp 1; RCh false 6; RReg 1 4; REp 2] /\ refused h = ∅.
Proof. vm_compute. split_and!; reflexivity. Qed.

