(* ===== verification/MsgHandler.v ===== *)
(** The queue of requests of the server: hixl/cs/msg_handler.cc, with the thread pool
    it commits them to (hixl/common/thread_pool.cc) as far as the handler sees it, and
    the runtime context of hixl/common/optional_aclrt_context.cc.

    The queue and the table of processors are read and written under their mutexes:
    each access is one atomic block. *)

From S2P Require Import Prelude StdMap Effects Runtime Wire Hcomm Net HostRegister Conc.

(** The registered functions; the user's are known by what they are called with. *)
Inductive Processor := PMatchEndpoint | PCreateChannel | PExportMem | PDestroyChannel | PUser (p : UserProc).

(** A connection is the number of its object. *)
Record Request := { rq_conn : nat; rq_msg : CtrlMsg }.
Record Task := { tk_req : Request; tk_proc : Processor }.

(** Queued tasks, and how many run. *)
Record ThreadPool := { tasks_ : list Task; is_stopped_ : bool; active : nat }.
Definition kMaxThreadPoolSize : nat := 1024.

(** [std::thread]: nothing to join, running, returned but not joined. *)
Inductive ThreadStatus := NoThread | Running | Returned.
#[export] Instance ThreadStatus_eq_dec : EqDecision ThreadStatus.
Proof. solve_decision. Defined.
Definition joinable (t : ThreadStatus) : bool := negb (bool_decide (t = NoThread)).

Record AclrtContext := { ctx_ : Z; has_context_ : bool }.

Record MsgHandler := {
  req_queue_ : list Request;
  processors_ : list (CtrlMsgType * Processor);
  thread_pool_ : option ThreadPool;
  running_ : bool;
  mh_listener_ : ThreadStatus;
  mh_ctx_ : AclrtContext
}.
Definition MsgHandler_new : MsgHandler :=
  {| req_queue_ := []; processors_ := []; thread_pool_ := None; running_ := false; mh_listener_ := NoThread;
     mh_ctx_ := {| ctx_ := nullptr; has_context_ := false |} |}.

Definition set_queue (x : list Request) (m : MsgHandler) : MsgHandler :=
  {| req_queue_ := x; processors_ := processors_ m; thread_pool_ := thread_pool_ m; running_ := running_ m;
     mh_listener_ := mh_listener_ m; mh_ctx_ := mh_ctx_ m |}.
Definition set_processors (x : list (CtrlMsgType * Processor)) (m : MsgHandler) : MsgHandler :=
  {| req_queue_ := req_queue_ m; processors_ := x; thread_pool_ := thread_pool_ m; running_ := running_ m;
     mh_listener_ := mh_listener_ m; mh_ctx_ := mh_ctx_ m |}.
Definition set_pool (x : option ThreadPool) (m : MsgHandler) : MsgHandler :=
  {| req_queue_ := req_queue_ m; processors_ := processors_ m; thread_pool_ := x; running_ := running_ m;
     mh_listener_ := mh_listener_ m; mh_ctx_ := mh_ctx_ m |}.
Definition set_running (x : bool) (m : MsgHandler) : MsgHandler :=
  {| req_queue_ := req_queue_ m; processors_ := processors_ m; thread_pool_ := thread_pool_ m; running_ := x;
     mh_listener_ := mh_listener_ m; mh_ctx_ := mh_ctx_ m |}.
Definition set_mh_listener (x : ThreadStatus) (m : MsgHandler) : MsgHandler :=
  {| req_queue_ := req_queue_ m; processors_ := processors_ m; thread_pool_ := thread_pool_ m; running_ := running_ m;
     mh_listener_ := x; mh_ctx_ := mh_ctx_ m |}.
Definition set_ctx (x : AclrtContext) (m : MsgHandler) : MsgHandler :=
  {| req_queue_ := req_queue_ m; processors_ := processors_ m; thread_pool_ := thread_pool_ m; running_ := running_ m;
     mh_listener_ := mh_listener_ m; mh_ctx_ := x |}.

Definition set_tasks (x : list Task) (p : ThreadPool) : ThreadPool :=
  {| tasks_ := x; is_stopped_ := is_stopped_ p; active := active p |}.
Definition set_stopped (p : ThreadPool) : ThreadPool :=
  {| tasks_ := tasks_ p; is_stopped_ := true; active := active p |}.
Definition set_active (n : nat) (p : ThreadPool) : ThreadPool :=
  {| tasks_ := tasks_ p; is_stopped_ := is_stopped_ p; active := n |}.

Section MsgHandler.
Context {codes : AclCodes} {env : Environment NetOp}.
Let H := M NetOp MsgHandler.

Definition SubmitMsg (connection : nat) (msg : CtrlMsg) : H unit :=
  modify (fun m => set_queue (req_queue_ m ++ [{| rq_conn := connection; rq_msg := msg |}]) m).

Definition RegisterMsgProcessor (msg_type : CtrlMsgType) (p : Processor) : H unit :=
  let* m := get in
  require (match std_find msg_type (processors_ m) with None => true | Some _ => false end) PARAM_INVALID ;;
  modify (fun m => set_processors (std_set msg_type p (processors_ m)) m).

(** [OptionalAclrtContext]. *)
Definition GetCurrentContext : H unit :=
  let* m := get in
  if has_context_ (mh_ctx_ m) then ret tt else
  let* r := call (Hc AclGetDeviceCount) in
  let '(e, device_count) := r in
  chk_acl e ;;
  if device_count =? 0 then modify (set_ctx {| ctx_ := nullptr; has_context_ := false |}) else
  let* r := call (Hc AclGetCurrentContext) in
  let '(e, ctx) := r in
  chk_acl e ;;
  modify (set_ctx {| ctx_ := ctx; has_context_ := true |}).
Definition SetCurrentContext : H unit :=
  let* m := get in
  if negb (has_context_ (mh_ctx_ m)) then ret tt else
  let* e := call (Hc (AclSetCurrentContext (ctx_ (mh_ctx_ m)))) in
  chk_acl e.

Definition MsgHandler_Initialize : H unit :=
  let* made := call NetNew in
  modify (set_pool (if (made : bool) then Some {| tasks_ := []; is_stopped_ := false; active := 0 |} else None)) ;;
  require made PARAM_INVALID ;;
  modify (set_running true) ;;
  GetCurrentContext ;;
  modify (set_mh_listener Running).

(** ** Committing to the pool: whether the future is valid *)
Definition commit (t : Task) : H bool :=
  let* m := get in
  match thread_pool_ m with
  | None => stuck
  | Some pool =>
      if is_stopped_ pool then ret false else
      let* made := call NetNew in
      if negb made then ret false else
      modify (set_pool (Some (set_tasks (tasks_ pool ++ [t]) pool))) ;;
      ret true
  end.

(** ** The thread of the handler: one round of [HandleMsg] *)
Definition wake (m : MsgHandler) : bool := negb (bool_decide (req_queue_ m = [])) || negb (running_ m).
(** The request, or the end of the thread. *)
Definition next_request : H (option Request) :=
  let* m := get in
  if negb (running_ m) then modify (set_mh_listener Returned) ;; ret None else
  match req_queue_ m with
  | [] => stuck
  | req :: rest => modify (set_queue rest) ;; ret (Some req)
  end.
Definition find_processor (msg_type : CtrlMsgType) : H (option Processor) :=
  let* m := get in ret (std_find msg_type (processors_ m)).

Definition HandleMsg_round : Prog NetOp MsgHandler unit :=
  let! req := await wake next_request in
  match req with
  | None => pret tt
  | Some req =>
      let! proc := atomic (find_processor (msg_type (rq_msg req))) in
      match proc with
      | None => pret tt
      | Some proc => let! _ := atomic (commit {| tk_req := req; tk_proc := proc |}) in pret tt
      end
  end.

(** ** Finalize *)
Definition stop_running : H bool := let* m := get in modify (set_running false) ;; ret (running_ m).
Definition listener_gone (m : MsgHandler) : bool := negb (bool_decide (mh_listener_ m = Running)).
Definition join_listener : H unit := modify (set_mh_listener NoThread).
Definition stop_pool : H unit := modify (fun m => set_pool (set_stopped <$> thread_pool_ m) m).
(** The threads of the pool are joined. *)
Definition pool_idle (m : MsgHandler) : bool := match thread_pool_ m with Some p => (active p =? 0)%nat | None => true end.
Definition reset_pool : H unit := modify (set_pool None).
Definition clear_queue : H unit := modify (set_queue []).

Definition MsgHandler_Finalize : Prog NetOp MsgHandler unit :=
  let! was_running := atomic stop_running in
  if negb was_running then pret tt else
  await listener_gone join_listener ;;;
  atomic stop_pool ;;;
  await pool_idle reset_pool ;;;
  atomic clear_queue.
End MsgHandler.
