(* ===== verification/CsServer.v ===== *)
(** The server of the CS layer: hixl/cs/hixl_cs_server.cc.

    Connections and receivers are objects in a heap, named by their number; the tables
    hold these numbers as the sources hold shared pointers.  Every member function is
    a program (Conc) whose atomic blocks are the accesses under one mutex, the calls
    on a connection or on an endpoint, and the system calls.  [connection->Fd()] reads
    the descriptor that the object holds at that moment. *)

From S2P Require Import Prelude StdMap Effects External Runtime Wire Hcomm Net CtrlConn MsgReceiver HostRegister Endpoint Conc MsgHandler.

(** * State *)
Record PendingHandshake := { ph_connection : nat; ph_deadline : Z }.
(** A receiver; the connection inside [rc_receiver] is taken from the heap at each use. *)
Record Receiver := { rc_connection : nat; rc_receiver : MsgReceiver }.

(** Under [client_mutex_]. *)
Record Clients := { clients_ : list (Z * nat); disconnected_clients_ : gset nat }.
(** Of the listener thread. *)
Record Listener := {
  listener_connection_ : option nat;
  epoll_fd_ : Z;
  listener_running_ : bool;
  listener_ : ThreadStatus;
  pending_handshakes_ : list (Z * PendingHandshake)
}.
Record Flags := {
  configurable_transfer_supported_ : bool;
  host_trans_flag_ : Z;
  dev_trans_flag_ : Z;
  device_id_ : Z;
  g_next_server_channel_index : Z
}.

Record HixlCSServer := {
  connections : list Conn;
  receivers : list Receiver;
  sv_clients : Clients;
  sv_listener : Listener;
  channels_ : gmap nat (Z * Z);
  reg_mems_ : list (Z * list (Z * Z));
  endpoint_store_ : EndpointStore;
  msg_handler_ : MsgHandler;
  sv_flags : Flags
}.

(** A server of a process whose channel counter is at [index]. *)
Definition HixlCSServer_new (index : Z) (px : Proxies) : HixlCSServer := {|
  connections := []; receivers := [];
  sv_clients := {| clients_ := []; disconnected_clients_ := ∅ |};
  sv_listener := {| listener_connection_ := None; epoll_fd_ := -1; listener_running_ := false; listener_ := NoThread;
                    pending_handshakes_ := [] |};
  channels_ := ∅; reg_mems_ := [];
  endpoint_store_ := {| endpoints_ := []; st_px := px |};
  msg_handler_ := MsgHandler_new;
  sv_flags := {| configurable_transfer_supported_ := false; host_trans_flag_ := nullptr; dev_trans_flag_ := nullptr;
                 device_id_ := -1; g_next_server_channel_index := index |}
|}.

Definition set_connections (x : list Conn) (s : HixlCSServer) : HixlCSServer :=
  {| connections := x; receivers := receivers s; sv_clients := sv_clients s; sv_listener := sv_listener s;
     channels_ := channels_ s; reg_mems_ := reg_mems_ s; endpoint_store_ := endpoint_store_ s;
     msg_handler_ := msg_handler_ s; sv_flags := sv_flags s |}.
Definition set_receivers (x : list Receiver) (s : HixlCSServer) : HixlCSServer :=
  {| connections := connections s; receivers := x; sv_clients := sv_clients s; sv_listener := sv_listener s;
     channels_ := channels_ s; reg_mems_ := reg_mems_ s; endpoint_store_ := endpoint_store_ s;
     msg_handler_ := msg_handler_ s; sv_flags := sv_flags s |}.
Definition set_clients (x : Clients) (s : HixlCSServer) : HixlCSServer :=
  {| connections := connections s; receivers := receivers s; sv_clients := x; sv_listener := sv_listener s;
     channels_ := channels_ s; reg_mems_ := reg_mems_ s; endpoint_store_ := endpoint_store_ s;
     msg_handler_ := msg_handler_ s; sv_flags := sv_flags s |}.
Definition set_listener (x : Listener) (s : HixlCSServer) : HixlCSServer :=
  {| connections := connections s; receivers := receivers s; sv_clients := sv_clients s; sv_listener := x;
     channels_ := channels_ s; reg_mems_ := reg_mems_ s; endpoint_store_ := endpoint_store_ s;
     msg_handler_ := msg_handler_ s; sv_flags := sv_flags s |}.
Definition set_tracked (x : gmap nat (Z * Z)) (s : HixlCSServer) : HixlCSServer :=
  {| connections := connections s; receivers := receivers s; sv_clients := sv_clients s; sv_listener := sv_listener s;
     channels_ := x; reg_mems_ := reg_mems_ s; endpoint_store_ := endpoint_store_ s;
     msg_handler_ := msg_handler_ s; sv_flags := sv_flags s |}.
Definition set_reg_mems (x : list (Z * list (Z * Z))) (s : HixlCSServer) : HixlCSServer :=
  {| connections := connections s; receivers := receivers s; sv_clients := sv_clients s; sv_listener := sv_listener s;
     channels_ := channels_ s; reg_mems_ := x; endpoint_store_ := endpoint_store_ s;
     msg_handler_ := msg_handler_ s; sv_flags := sv_flags s |}.
Definition set_store (x : EndpointStore) (s : HixlCSServer) : HixlCSServer :=
  {| connections := connections s; receivers := receivers s; sv_clients := sv_clients s; sv_listener := sv_listener s;
     channels_ := channels_ s; reg_mems_ := reg_mems_ s; endpoint_store_ := x;
     msg_handler_ := msg_handler_ s; sv_flags := sv_flags s |}.
Definition set_handler (x : MsgHandler) (s : HixlCSServer) : HixlCSServer :=
  {| connections := connections s; receivers := receivers s; sv_clients := sv_clients s; sv_listener := sv_listener s;
     channels_ := channels_ s; reg_mems_ := reg_mems_ s; endpoint_store_ := endpoint_store_ s;
     msg_handler_ := x; sv_flags := sv_flags s |}.
Definition set_flags (x : Flags) (s : HixlCSServer) : HixlCSServer :=
  {| connections := connections s; receivers := receivers s; sv_clients := sv_clients s; sv_listener := sv_listener s;
     channels_ := channels_ s; reg_mems_ := reg_mems_ s; endpoint_store_ := endpoint_store_ s;
     msg_handler_ := msg_handler_ s; sv_flags := x |}.

Definition set_client_map (x : list (Z * nat)) (c : Clients) : Clients :=
  {| clients_ := x; disconnected_clients_ := disconnected_clients_ c |}.
Definition set_disconnected (x : gset nat) (c : Clients) : Clients := {| clients_ := clients_ c; disconnected_clients_ := x |}.

Definition set_listener_connection (x : option nat) (l : Listener) : Listener :=
  {| listener_connection_ := x; epoll_fd_ := epoll_fd_ l; listener_running_ := listener_running_ l;
     listener_ := listener_ l; pending_handshakes_ := pending_handshakes_ l |}.
Definition set_epoll (x : Z) (l : Listener) : Listener :=
  {| listener_connection_ := listener_connection_ l; epoll_fd_ := x; listener_running_ := listener_running_ l;
     listener_ := listener_ l; pending_handshakes_ := pending_handshakes_ l |}.
Definition set_listening (running : bool) (t : ThreadStatus) (l : Listener) : Listener :=
  {| listener_connection_ := listener_connection_ l; epoll_fd_ := epoll_fd_ l; listener_running_ := running;
     listener_ := t; pending_handshakes_ := pending_handshakes_ l |}.
Definition set_pending (x : list (Z * PendingHandshake)) (l : Listener) : Listener :=
  {| listener_connection_ := listener_connection_ l; epoll_fd_ := epoll_fd_ l; listener_running_ := listener_running_ l;
     listener_ := listener_ l; pending_handshakes_ := x |}.

Definition set_configurable (x : bool) (f : Flags) : Flags :=
  {| configurable_transfer_supported_ := x; host_trans_flag_ := host_trans_flag_ f; dev_trans_flag_ := dev_trans_flag_ f;
     device_id_ := device_id_ f; g_next_server_channel_index := g_next_server_channel_index f |}.
Definition set_host_flag (x : Z) (f : Flags) : Flags :=
  {| configurable_transfer_supported_ := configurable_transfer_supported_ f; host_trans_flag_ := x;
     dev_trans_flag_ := dev_trans_flag_ f; device_id_ := device_id_ f;
     g_next_server_channel_index := g_next_server_channel_index f |}.
Definition set_dev_flag (x : Z) (f : Flags) : Flags :=
  {| configurable_transfer_supported_ := configurable_transfer_supported_ f; host_trans_flag_ := host_trans_flag_ f;
     dev_trans_flag_ := x; device_id_ := device_id_ f; g_next_server_channel_index := g_next_server_channel_index f |}.
Definition set_device (x : Z) (f : Flags) : Flags :=
  {| configurable_transfer_supported_ := configurable_transfer_supported_ f; host_trans_flag_ := host_trans_flag_ f;
     dev_trans_flag_ := dev_trans_flag_ f; device_id_ := x; g_next_server_channel_index := g_next_server_channel_index f |}.
Definition set_index (x : Z) (f : Flags) : Flags :=
  {| configurable_transfer_supported_ := configurable_transfer_supported_ f; host_trans_flag_ := host_trans_flag_ f;
     dev_trans_flag_ := dev_trans_flag_ f; device_id_ := device_id_ f; g_next_server_channel_index := x |}.

(** * Parameters of the server *)
Class ServerConfig := {
  ip_ : string;
  cfg_port_ : Z;
  TlsEnabled : bool;
  ListenPort : option Z;
  MaxActiveChannels : option Z
}.
(** What the C++ standard leaves open, and memory that HCOMM owns: the padding of a
    [MatchEndpointResp], and the bytes behind the pointer of an export descriptor. *)
Class ServerAbi := { padding1 : Z; padding2 : Z; export_bytes : Z -> Z -> list Z }.

Definition kDefaultTransferPoolSize : Z := 128.
Definition kMaxEventsNum : Z := 128.
Definition kEpollWaitTimeInMillis : Z := 100.
Definition kTransFlagNameHost : string := "_hixl_builtin_host_trans_flag".
Definition kTransFlagNameDevice : string := "_hixl_builtin_dev_trans_flag".
Definition kMaxPendingHandshakes : nat := 128.
Definition kQosMax : Z := 7.
Definition EPOLLIN : Z := 0x1.
Definition EPOLLOUT : Z := 0x4.
Definition EPOLLERR : Z := 0x8.
Definition EPOLLHUP : Z := 0x10.
Definition EPOLLRDHUP : Z := 0x2000.
Definition sizeof_int64 : Z := 8.

Section Server.
Context {codes : AclCodes} {again : HcclAgain} {clib : CLibrary} `{Sec : Securec} {cfg : ServerConfig} {abi : ServerAbi}.
Context {env : Environment NetOp}.
Let C := M NetOp HixlCSServer.
Let P := Prog NetOp HixlCSServer.

(** ** Access to the parts of the state *)
Definition on_conn {A} (i : nat) (m : M NetOp Conn A) : C A :=
  zoom (fun s => connections s !! i) (fun c s => set_connections (<[i := c]> (connections s)) s) (fun _ => m).
Definition on_clients {A} (m : M NetOp Clients A) : C A :=
  zoom (fun s => Some (sv_clients s)) set_clients (fun _ => m).
Definition on_listener {A} (m : M NetOp Listener A) : C A :=
  zoom (fun s => Some (sv_listener s)) set_listener (fun _ => m).
Definition on_store {A} (m : M NetOp EndpointStore A) : C A :=
  zoom (fun s => Some (endpoint_store_ s)) set_store (fun _ => m).
Definition on_flags {A} (m : M NetOp Flags A) : C A := zoom (fun s => Some (sv_flags s)) set_flags (fun _ => m).
Definition on_handler {A} (m : M NetOp MsgHandler A) : C A :=
  zoom (fun s => Some (msg_handler_ s)) set_handler (fun _ => m).

(** Atomic calls. *)
Definition sys {T} (op : NetOp T) : P T := atomic (call op).
Definition conn_call {A} (i : nat) (m : M NetOp Conn A) : P A := atomic (on_conn i m).
Definition store_call {A} (m : M NetOp EndpointStore A) : P A := atomic (on_store m).
Definition ep_call {A} (h : Z) (m : M NetOp EpState A) : P A := store_call (on_endpoint h m).
Definition read {A} (f : HixlCSServer -> A) : P A := atomic (let* s := get in ret (f s)).

Definition Fd (i : nat) : P Z := conn_call i (let* c := get in ret (fd_ c)).
Definition IsUsable (i : nat) : P bool := conn_call i (let* c := get in ret (CtrlMsgPlugin_IsUsable c)).
Definition find_endpoint (h : Z) : P (option Endpoint) := read (fun s => GetEndpoint h (endpoint_store_ s)).
(** HIXL_CHECK_NOTNULL of an endpoint. *)
Definition need_endpoint (h : Z) : P Endpoint :=
  let! ep := find_endpoint h in
  match ep with Some ep => pret ep | None => pfail PARAM_INVALID end.
Definition new_connection (c : Conn) : C nat :=
  let* s := get in
  modify (fun s => set_connections (connections s ++ [c]) s) ;;
  ret (length (connections s)).

(** ** Contexts of the runtime *)

(** [TemporaryRtContext]: what it restores. *)
Definition switch_context (context : Z) : C Z :=
  let* r := call (Hc AclGetCurrentContext) in
  let '(e, ctx) := r in
  let prev_context_ := if e =? 0 then ctx else nullptr in
  (if negb (is_null context) && negb (prev_context_ =? context)
   then let* _ := call (Hc (AclSetCurrentContext context)) in ret tt else ret tt) ;;
  ret prev_context_.
Definition restore_context (prev_context_ : Z) : C unit :=
  if is_null prev_context_ then ret tt else let* _ := call (Hc (AclSetCurrentContext prev_context_)) in ret tt.

Definition GetContextGuard : C (option Z) :=
  let* s := get in
  let dev := device_id_ (sv_flags s) in
  if dev <? 0 then ret None else
  let* pool := call (Hc (PoolGetInstance dev)) in
  if negb pool then ret None else
  let* ctx := call (Hc (PoolGetContext dev)) in
  if is_null ctx then ret None else
  let* made := call NetNew in
  if negb made then ret None else
  let* prev := switch_context ctx in ret (Some prev).
Definition drop_guard (g : option Z) : C unit := match g with Some prev => restore_context prev | None => ret tt end.
Definition with_context {A} (p : P A) : P A :=
  let! g := atomic GetContextGuard in
  pfinally p (atomic (drop_guard g)).

(** ** Predicates on endpoints *)
Definition IsUbEndpoint (protocol : Z) : bool := (protocol =? COMM_PROTOCOL_UBC_TP) || (protocol =? COMM_PROTOCOL_UBC_CTP).
Definition IsValidMemType (type : Z) : bool := (type =? COMM_MEM_TYPE_HOST) || (type =? COMM_MEM_TYPE_DEVICE).
Definition IsDeviceEndpointDesc (d : EndpointDesc) : bool := ed_locType d =? ENDPOINT_LOC_TYPE_DEVICE.
Definition IsUbCtpEndpoint (d : EndpointDesc) : bool := ed_protocol d =? COMM_PROTOCOL_UBC_CTP.
Definition IsDeviceUbCtpEndpoint (d : EndpointDesc) : bool := IsDeviceEndpointDesc d && IsUbCtpEndpoint d.
Definition IsDeviceUboeEndpoint (d : EndpointDesc) : bool := IsDeviceEndpointDesc d && (ed_protocol d =? COMM_PROTOCOL_UBOE).
Definition IsDeviceUbgEndpoint (d : EndpointDesc) : bool := IsDeviceEndpointDesc d && (ed_protocol d =? COMM_PROTOCOL_UBG).
Definition AreUbCtpEndpointsAllDevice (l : list EndpointDesc) : bool :=
  forallb (fun d => negb (IsUbCtpEndpoint d && negb (IsDeviceEndpointDesc d))) l.
Definition NeedServerHostVaMapping (d : EndpointDesc) (ub_ctp_endpoints_all_device : bool) : bool :=
  IsDeviceUboeEndpoint d || IsDeviceUbgEndpoint d || (ub_ctp_endpoints_all_device && IsDeviceUbCtpEndpoint d).
Definition ShouldRegisterEndpointForMem (ep : Endpoint) (mem_type : Z) : bool :=
  let d := endpoint_ ep in
  if negb (IsUbEndpoint (ed_protocol d)) then true
  else if mem_type =? COMM_MEM_TYPE_HOST then (ed_locType d =? ENDPOINT_LOC_TYPE_HOST) || need_host_va_mapping_ ep
  else if mem_type =? COMM_MEM_TYPE_DEVICE then ed_locType d =? ENDPOINT_LOC_TYPE_DEVICE
  else false.

(** ** Sending; each [Send] is a call of its own *)
Definition send (i : nat) (bs : list Z) : P unit := conn_call i (CtrlMsgPlugin_Send bs kDefaultCtrlTimeoutMs).
Definition send_message (i : nat) (body_len : nat) (t : CtrlMsgType) (body : list Z) : P unit :=
  send i (CtrlMsgHeader_bytes (header_of body_len)) ;;;
  send i (CtrlMsgType_bytes t) ;;;
  send i body.
Definition SendCreateChannelResp (i : nat) (resp : CreateChannelResp) : P unit :=
  send_message i sizeof_CreateChannelResp kCreateChannelResp (CreateChannelResp_bytes resp).
Definition SendMatchEndpointResp (i : nat) (resp : MatchEndpointResp) : P unit :=
  send_message i sizeof_MatchEndpointResp kMatchEndpointResp (MatchEndpointResp_bytes padding1 padding2 resp).

(** [to_json] of the three structures, and [Serialize]. *)
Definition CommMem_json (m : CommMem) : Json :=
  JObject [("type"%string, JInt (cm_type m)); ("addr"%string, JInt (cm_addr m)); ("size"%string, JInt (cm_size m))].
Definition HixlMemDesc_json (m : HixlMemDesc) : Json :=
  JObject ([("mem"%string, CommMem_json (hmd_mem m)); ("tag"%string, JString (hmd_tag m));
            ("export_desc"%string,
             JArray (if negb (is_null (hmd_export_desc m)) && (0 <? hmd_export_len m)
                     then JInt <$> export_bytes (hmd_export_desc m) (hmd_export_len m) else []))] ++
           (if is_null (hmd_registered_dev_mem m) then []
            else [("registered_dev_mem"%string, JInt (hmd_registered_dev_mem m))])).
Definition GetRemoteMemResp_json (result : Status) (mem_descs : list HixlMemDesc) : Json :=
  JObject [("result"%string, JInt result); ("mem_descs"%string, JArray (HixlMemDesc_json <$> mem_descs))].

Definition SendRemoteMemResp (i : nat) (result : Status) (mem_descs : list HixlMemDesc) : P unit :=
  let! msg_str := sys (Hc (JsonDump (GetRemoteMemResp_json result mem_descs))) in
  match msg_str with
  | None => pfail PARAM_INVALID
  | Some msg_str => send_message i (length msg_str) kGetRemoteMemResp msg_str
  end.

(** ** Requests *)
Definition failed_match : MatchEndpointResp :=
  {| mer_result := FAILED; mer_dst_ep_handle := 0; mer_port := 0; mer_channel_index := 0 |}.

(** The port to report: configured, or that of the transport if it has one. *)
Definition resolve_port (handle : Z) : P unit :=
  match ListenPort with
  | Some listen_port => ep_call handle (ep_modify (Endpoint_SetPort listen_port))
  | None =>
      let! r := pattempt (ep_call handle Endpoint_GetListenPort) in
      match r with
      | inr listen_port => ep_call handle (ep_modify (Endpoint_SetPort listen_port))
      | inl e => prequire (e =? UNSUPPORTED) FAILED
      end
  end.
(** [fetch_add]. *)
Definition next_channel_index : C Z :=
  on_flags (let* f := get in
            modify (set_index (u64 (g_next_server_channel_index f + 1))) ;;
            ret (g_next_server_channel_index f)).

Definition MatchEndpointMsg (i : nat) (msg : list Z) : P unit :=
  pon_fail
    (prequire (length msg =? sizeof_EndpointDesc)%nat PARAM_INVALID ;;;
     let! found := read (fun s => MatchEndpoint (MatchEndpointReq_of msg) (endpoint_store_ s)) in
     match found with
     | None =>
         SendMatchEndpointResp i {| mer_result := PARAM_INVALID; mer_dst_ep_handle := 0; mer_port := 0; mer_channel_index := 0 |}
     | Some handle =>
         resolve_port handle ;;;
         let! port := ep_call handle (let* e := ep_get in ret (port_ e)) in
         let! index := atomic next_channel_index in
         SendMatchEndpointResp i
           {| mer_result := SUCCESS; mer_dst_ep_handle := handle; mer_port := port; mer_channel_index := index |}
     end)
    (plog (SendMatchEndpointResp i failed_match)).

(** Insertion is serialised with the removal of disconnected clients. *)
Definition is_client (i : nat) (s : HixlCSServer) : C bool :=
  let* fd := on_conn i (let* c := get in ret (fd_ c)) in
  ret (match std_find fd (clients_ (sv_clients s)) with
       | Some r => bool_decide (rc_connection <$> receivers s !! r = Some i)
       | None => false
       end).
Definition TrackChannelIfConnected (i : nat) (endpoint channel : Z) : C bool :=
  let* s := get in
  let* connected := is_client i s in
  if negb connected then ret false else
  modify (fun s => set_tracked (<[i := (endpoint, channel)]> (channels_ s)) s) ;;
  ret true.

Definition server_channel (req : CreateChannelReq) (configurable : bool) : ChannelDesc := {|
  cd_remote_endpoint := ccq_src req; cd_tc := ccq_tc req; cd_sl := ccq_sl req; cd_retry_cnt := ccq_retry_cnt req;
  cd_retry_interval := ccq_retry_interval req; cd_channel_type := kServer; cd_channel_index := ccq_channel_index req;
  cd_qos := ccq_qos req; cd_max_transfer_count_per_batch := kDefaultMaxTransferCountPerBatch;
  cd_configurable_transfer_supported := configurable
|}.

(** [CreateChannel] up to the moment its guard is dismissed. *)
Definition create_channel (i : nat) (msg : list Z) : P (Z * Z * bool) :=
  prequire (length msg =? sizeof_CreateChannelReq_)%nat PARAM_INVALID ;;;
  let req := CreateChannelReq_of msg in
  prequire ((ccq_qos req =? kQosUnset) || (ccq_qos req <=? kQosMax)) PARAM_INVALID ;;;
  let handle := ccq_dst_ep_handle req in
  let! _ := need_endpoint handle in
  let! configurable := read (fun s => configurable_transfer_supported_ (sv_flags s)) in
  let! channel := ep_call handle (make_channel (server_channel req configurable) (ccq_timeout_ms req)) in
  let! channel_handle := ep_call handle (store_channel channel) in
  let! tracked := atomic (TrackChannelIfConnected i handle channel_handle) in
  pret (handle, channel_handle, tracked).

Definition CreateChannel (i : nat) (msg : list Z) : P unit :=
  let! r := pon_fail (create_channel i msg) (plog (SendCreateChannelResp i {| ccr_result := FAILED |})) in
  let '(handle, channel_handle, tracked) := r in
  if negb (tracked : bool) then
    ep_call handle (Endpoint_DestroyChannel channel_handle) ;;;
    pfail FAILED
  else SendCreateChannelResp i {| ccr_result := SUCCESS |}.

Definition export_request (msg : list Z) : P (list HixlMemDesc) :=
  prequire (length msg =? sizeof_GetRemoteMemReq)%nat PARAM_INVALID ;;;
  let handle := gmr_dst_ep_handle (GetRemoteMemReq_of msg) in
  prequire (negb (is_null handle)) PARAM_INVALID ;;;
  let! _ := need_endpoint handle in
  ep_call handle Endpoint_ExportMem.
Definition ExportMem (i : nat) (msg : list Z) : P unit :=
  let! mem_descs := pon_fail (export_request msg) (plog (SendRemoteMemResp i FAILED [])) in
  SendRemoteMemResp i SUCCESS mem_descs.

(** ** Disconnected clients *)
Definition take_channel (i : nat) : C (option (Z * Z)) :=
  let* s := get in
  modify (fun s => set_tracked (delete i (channels_ s)) s) ;;
  ret (channels_ s !! i).
Definition DestroyChannel (i : nat) : P unit :=
  let! info := atomic (take_channel i) in
  match info with
  | None => pret tt
  | Some (endpoint_handle, channel_handle) =>
      let! ep := find_endpoint endpoint_handle in
      match ep with
      | None => pret tt
      | Some _ => with_context (ep_call endpoint_handle (Endpoint_DestroyChannel channel_handle))
      end
  end.

(** The processor of [kDestroyChannelReq]. *)
Definition destroy_client (i : nat) : P unit :=
  let! close_ret := pattempt (conn_call i CtrlMsgPlugin_Close) in
  let! destroy_ret := pattempt (DestroyChannel i) in
  match close_ret, destroy_ret with
  | inl e, _ | inr _, inl e => pfail e
  | inr _, inr _ => atomic (on_clients (modify (fun c => set_disconnected (disconnected_clients_ c ∖ {[i]}) c)))
  end.

Definition run_processor (p : Processor) (i : nat) (msg : list Z) : P unit :=
  match p with
  | PMatchEndpoint => MatchEndpointMsg i msg
  | PCreateChannel => CreateChannel i msg
  | PExportMem => ExportMem i msg
  | PDestroyChannel => destroy_client i
  | PUser p => let! st := sys (Hc (RunUserProc p i msg)) in prequire (st =? SUCCESS) st
  end.

(** Move the client from [clients_] to [disconnected_clients_]. *)
Definition detach_client (i : nat) (fd : Z) : C bool :=
  let* s := get in
  match std_find fd (clients_ (sv_clients s)) with
  | Some r =>
      if bool_decide (rc_connection <$> receivers s !! r = Some i) then
        on_clients (modify (fun c => set_client_map (std_erase fd (clients_ c)) (set_disconnected ({[i]} ∪ disconnected_clients_ c) c))) ;;
        ret true
      else ret false
  | None => ret false
  end.

Definition epoll_del (fd : Z) : P unit :=
  let! efd := read (fun s => epoll_fd_ (sv_listener s)) in
  let! _ := sys (Hc (EpollDel efd fd)) in pret tt.

Definition CleanupClient (i : nat) : P unit :=
  let! made := sys NetNew in
  if negb made then pret tt else
  let! fd := Fd i in
  let! detached := atomic (detach_client i fd) in
  if negb detached then pret tt else
  epoll_del fd ;;;
  plog (conn_call i CtrlMsgPlugin_ShutdownSocket) ;;;
  atomic (on_handler (SubmitMsg i {| msg_type := kDestroyChannelReq; msg := [] |})).

(** [RegProc]: a processor whose connection became unusable cleans the client up. *)
Definition processor (p : Processor) (i : nat) (msg : list Z) : P unit :=
  pon_fail (run_processor p i msg)
    (let! usable := IsUsable i in
     if negb usable then CleanupClient i else pret tt).
Definition RegProc (msg_type : CtrlMsgType) (p : Processor) : P unit :=
  with_context (atomic (on_handler (RegisterMsgProcessor msg_type p))).

Definition RegisterMsgProcessors : P unit :=
  RegProc kMatchEndpointReq PMatchEndpoint ;;;
  RegProc kCreateChannelReq PCreateChannel ;;;
  RegProc kGetRemoteMemReq PExportMem ;;;
  RegProc kDestroyChannelReq PDestroyChannel.

(** A task of the pool. *)
Definition run_task (t : Task) : P unit :=
  plog (atomic (on_handler SetCurrentContext)) ;;;
  plog (processor (tk_proc t) (rq_conn (tk_req t)) (msg (rq_msg (tk_req t)))).

(** ** The listener thread *)
Definition CloseClientSocket (i : nat) : P unit :=
  let! fd := Fd i in
  epoll_del fd ;;;
  plog (conn_call i CtrlMsgPlugin_Close).

(** One [IRecv]: the messages, and its status. *)
Definition receive (r : nat) : C (list CtrlMsg * (Status + unit)) :=
  let* s := get in
  match receivers s !! r with
  | None => stuck
  | Some rc =>
      match connections s !! rc_connection rc with
      | None => stuck
      | Some c =>
          zoom (fun _ => Some {| rcv := set_connection c (rc_receiver rc); msgs := [] |})
            (fun t s => set_connections (<[rc_connection rc := connection_ (rcv t)]> (connections s))
               (set_receivers (<[r := {| rc_connection := rc_connection rc; rc_receiver := rcv t |}]> (receivers s)) s))
            (fun _ => let* st := attempt IRecv in let* t := get in ret (msgs t, st))
      end
  end.
Definition submit (i : nat) (m : CtrlMsg) : P unit := atomic (on_handler (SubmitMsg i m)).
Definition ProClientMsg (i r : nat) : P unit :=
  let! got := atomic (receive r) in
  pfor_each got.1 (submit i) ;;;
  match got.2 with inl e => pfail e | inr _ => pret tt end.

(** The connection of a receiver. *)
Definition Connection (r : nat) : P nat :=
  atomic (let* s := get in match receivers s !! r with Some rc => ret (rc_connection rc) | None => stuck end).

Fixpoint process_receivers (l : list nat) (processed : bool) : P bool :=
  match l with
  | [] => pret processed
  | r :: l =>
      let! i := Connection r in
      let! pending := conn_call i CtrlMsgPlugin_HasPending in
      if negb pending then process_receivers l processed else
      let! ret_ := pattempt (ProClientMsg i r) in
      match ret_ with
      | inl _ => CleanupClient i ;;; process_receivers l true
      | inr _ => process_receivers l true
      end
  end.
Definition ProcessPendingMsg : P bool :=
  if negb TlsEnabled then pret false else
  let! rs := read (fun s => map snd (clients_ (sv_clients s))) in
  process_receivers rs false.

Definition UpdateClientEvents (fd events : Z) : P unit :=
  let! efd := read (fun s => epoll_fd_ (sv_listener s)) in
  let! r := sys (Hc (EpollMod efd fd (Z.lor events EPOLLRDHUP))) in
  prequire (r.1 =? 0) FAILED.

Definition erase_pending (fd : Z) : C unit :=
  on_listener (modify (fun l => set_pending (std_erase fd (pending_handshakes_ l)) l)).
Definition new_receiver (i : nat) : C nat :=
  let* s := get in
  modify (fun s => set_receivers (receivers s ++ [{| rc_connection := i; rc_receiver := MsgReceiver_new Conn_new |}]) s) ;;
  ret (length (receivers s)).
(** [clients_.emplace]. *)
Definition publish_client (fd : Z) (r : nat) : C unit :=
  on_clients (let* c := get in
              require (match std_find fd (clients_ c) with None => true | Some _ => false end) FAILED ;;
              modify (fun c => set_client_map (std_set fd r (clients_ c)) c)).

(** A handshake that is complete makes the connection a client. *)
Definition complete_handshake (fd : Z) (i : nat) : P unit :=
  let! made := sys NetNew in
  prequire made PARAM_INVALID ;;;
  let! r := atomic (new_receiver i) in
  atomic (publish_client fd r) ;;;
  atomic (erase_pending fd).

Definition AdvanceHandshake (fd : Z) : P unit :=
  let! it := read (fun s => std_find fd (pending_handshakes_ (sv_listener s))) in
  match it with
  | None => pfail FAILED
  | Some p =>
      let connection := ph_connection p in
      pon_fail
        (let! now := sys NetNow in
         prequire (now <? ph_deadline p) TIMEOUT ;;;
         let! state := conn_call connection CtrlMsgPlugin_HandshakeServerStep in
         UpdateClientEvents fd (if bool_decide (state = kWantWrite) then EPOLLOUT else EPOLLIN) ;;;
         if bool_decide (state = kComplete) then complete_handshake fd connection else pret tt)
        (atomic (erase_pending fd) ;;; CloseClientSocket connection)
  end.

Definition expire_handshake (now : Z) (it : Z * PendingHandshake) : P unit :=
  if now <? ph_deadline it.2 then pret tt else
  CloseClientSocket (ph_connection it.2) ;;;
  atomic (erase_pending it.1).
Definition ExpireHandshakes : P unit :=
  let! now := sys NetNow in
  let! pending := read (fun s => pending_handshakes_ (sv_listener s)) in
  pfor_each pending (expire_handshake now).

(** [Accept] on the listener; the new object enters the heap. *)
Definition accept : C (option nat) :=
  let* s := get in
  match listener_connection_ (sv_listener s) with
  | None => stuck
  | Some l =>
      let* c := on_conn l CtrlMsgPlugin_Accept in
      match c with
      | None => ret None
      | Some c => let* i := new_connection c in ret (Some i)
      end
  end.
Definition AddToEpoll (i : nat) : C unit :=
  let* s := get in
  match connections s !! i with
  | None => stuck
  | Some c =>
      zoom (fun _ => Some (c, epoll_fd_ (sv_listener s)))
        (fun t s => set_connections (<[i := t.1]> (connections s)) (set_listener (set_epoll t.2 (sv_listener s)) s))
        (fun _ => CtrlMsgPlugin_AddToEpoll (Z.lor EPOLLIN EPOLLRDHUP))
  end.
(** [pending_handshakes_.emplace]: an entry that is there stays. *)
Definition add_pending (fd : Z) (p : PendingHandshake) : C unit :=
  on_listener (modify (fun l =>
    match std_find fd (pending_handshakes_ l) with
    | Some _ => l
    | None => set_pending (std_set fd p (pending_handshakes_ l)) l
    end)).

(** A connection that was accepted until its handshake is under way. *)
Definition admit_client (i : nat) (deadline : Z) : P unit :=
  let! pending := read (fun s => length (pending_handshakes_ (sv_listener s))) in
  prequire (negb TlsEnabled || (pending <? kMaxPendingHandshakes)%nat) RESOURCE_EXHAUSTED ;;;
  conn_call i CtrlMsgPlugin_SetTcpNoDelay ;;;
  conn_call i CtrlMsgPlugin_SetTcpKeepAlive ;;;
  conn_call i (CtrlMsgPlugin_SetSendTimeout kDefaultCtrlTimeoutMs) ;;;
  atomic (AddToEpoll i) ;;;
  let! fd := Fd i in
  atomic (add_pending fd {| ph_connection := i; ph_deadline := deadline |}) ;;;
  AdvanceHandshake fd.
Definition AcceptClient : P unit :=
  let! connection := atomic accept in
  match connection with
  | None => pret tt
  | Some i =>
      let! now := sys NetNow in
      pon_fail (admit_client i (now + kServerHandshakeTimeoutMs * 1000000)) (CloseClientSocket i)
  end.

Definition closing (events : Z) : bool := negb (Z.land events (Z.lor EPOLLERR (Z.lor EPOLLHUP EPOLLRDHUP)) =? 0).
Definition HandleClientEvent (fd events : Z) : P unit :=
  let! pending := read (fun s => std_find fd (pending_handshakes_ (sv_listener s))) in
  match pending with
  | Some p =>
      if closing events then CloseClientSocket (ph_connection p) ;;; atomic (erase_pending fd)
      else plog (AdvanceHandshake fd)
  | None =>
      let! receiver := read (fun s => std_find fd (clients_ (sv_clients s))) in
      match receiver with
      | None => pret tt
      | Some r =>
          let! i := Connection r in
          let! gone :=
            (if closing events then pret true
             else if negb (Z.land events EPOLLIN =? 0) then
               let! ret_ := pattempt (ProClientMsg i r) in
               pret (match ret_ with inl _ => true | inr _ => false end)
             else pret false) in
          if (gone : bool) then CleanupClient i else pret tt
      end
  end.

Definition listener_fd : P Z :=
  let! l := read (fun s => listener_connection_ (sv_listener s)) in
  match l with Some l => Fd l | None => atomic stuck end.
Fixpoint handle_events (l : list (Z * Z)) (accept_ready : bool) : P bool :=
  match l with
  | [] => pret accept_ready
  | (fd, events) :: l =>
      let! lfd := listener_fd in
      if fd =? lfd then handle_events l true
      else HandleClientEvent fd events ;;; handle_events l accept_ready
  end.
Definition DoWait : P unit :=
  let! processed_pending := ProcessPendingMsg in
  ExpireHandshakes ;;;
  let timeout_ms := if (processed_pending : bool) then 0 else kEpollWaitTimeInMillis in
  let! efd := read (fun s => epoll_fd_ (sv_listener s)) in
  let! events := sys (Hc (EpollWait efd timeout_ms)) in
  let! accept_ready := handle_events (take (Z.to_nat kMaxEventsNum) events) false in
  ExpireHandshakes ;;;
  if (accept_ready : bool) then AcceptClient else pret tt.

Definition start_listener : C unit := on_listener (modify (set_listening true Running)).
Definition Listen (backlog : Z) : P unit :=
  with_context
    (let! l := read (fun s => sv_listener s) in
     match listener_connection_ l with
     | None => pfail PARAM_INVALID
     | Some lc =>
         let! fd := Fd lc in
         prequire ((fd =? -1) && negb (joinable (listener_ l))) FAILED ;;;
         conn_call lc (CtrlMsgPlugin_Listen ip_ cfg_port_ backlog) ;;;
         pon_fail (atomic (AddToEpoll lc)) (plog (conn_call lc CtrlMsgPlugin_Close)) ;;;
         atomic start_listener
     end).

(** ** Memory *)

(** [RollbackRegisteredMem]: the last registered first. *)
Fixpoint RollbackRegisteredMem (infos : list (Z * Z)) : P unit :=
  match infos with
  | [] => pret tt
  | (endpoint_handle, mem_handle) :: infos =>
      RollbackRegisteredMem infos ;;;
      let! ep := find_endpoint endpoint_handle in
      match ep with
      | None => pret tt
      | Some _ => plog (ep_call endpoint_handle (Endpoint_DeregisterMem mem_handle))
      end
  end.

(** The loop of [RegisterMem]: what was registered, also when it failed. *)
Fixpoint register_all (mem_tag : option string) (mem : CommMem) (handles : list Z) (infos : list (Z * Z))
    : P (list (Z * Z) * (Status + unit)) :=
  match handles with
  | [] => pret (infos, inr tt)
  | handle :: handles =>
      let! ep := find_endpoint handle in
      match ep with
      | None => pret (infos, inl PARAM_INVALID)
      | Some ep =>
          if negb (ShouldRegisterEndpointForMem ep (cm_type mem)) then register_all mem_tag mem handles infos else
          let! r := pattempt (ep_call handle (Endpoint_RegisterMem mem_tag mem)) in
          match r with
          | inl e => pret (infos, inl e)
          | inr ep_mem_handle => register_all mem_tag mem handles (infos ++ [(handle, ep_mem_handle)])
          end
      end
  end.
Fixpoint any_ub (handles : list Z) : P bool :=
  match handles with
  | [] => pret false
  | h :: handles =>
      let! ep := need_endpoint h in
      let! rest := any_ub handles in
      pret (IsUbEndpoint (ed_protocol (endpoint_ ep)) || rest)
  end.

Definition RegisterMem (mem_tag : option string) (mem : CommMem) : P Z :=
  with_context
    (let! all_handles := read (fun s => GetAllEndpointHandles (endpoint_store_ s)) in
     prequire (0 <? length all_handles)%nat PARAM_INVALID ;;;
     let! has_ub_endpoint := any_ub all_handles in
     prequire (negb has_ub_endpoint || IsValidMemType (cm_type mem)) PARAM_INVALID ;;;
     let! r := register_all mem_tag mem all_handles [] in
     let '(infos, st) := r in
     match st, infos with
     | inl e, _ => RollbackRegisteredMem infos ;;; pfail e
     | inr _, [] => pfail PARAM_INVALID
     | inr _, (_, mem_handle) :: _ =>
         atomic (modify (fun s => set_reg_mems (std_set mem_handle infos (reg_mems_ s)) s)) ;;;
         pret mem_handle
     end).

Definition deregister_info (info : Z * Z) : P unit :=
  let! _ := need_endpoint info.1 in
  ep_call info.1 (Endpoint_DeregisterMem info.2).
Definition DeregisterMem (mem_handle : Z) : P unit :=
  with_context
    (let! it := read (fun s => std_find mem_handle (reg_mems_ s)) in
     match it with
     | None => pfail PARAM_INVALID
     | Some infos =>
         pfor_each infos deregister_info ;;;
         atomic (modify (fun s => set_reg_mems (std_erase mem_handle (reg_mems_ s)) s))
     end).

(** ** The flags that tell the end of a transfer *)
Definition register_flag (name : string) (mem : CommMem) (h : Z) : P unit :=
  let! _ := ep_call h (Endpoint_RegisterMem (Some name) mem) in pret tt.
Definition alloc_host_flag (page_size : Z) : C Z :=
  let* r := call (Hc (PosixMemalign page_size sizeof_int64)) in
  let '(rc, host_flag) := r in
  require ((rc =? 0) && negb (is_null host_flag)) FAILED ;;
  ret host_flag.
(** The guard of the flag is dismissed once the member holds it. *)
Definition RegisterHostTransFinishedFlag (eps : list Z) : P unit :=
  let! page_size := sys (Hc SysPageSize) in
  prequire (0 <? page_size) FAILED ;;;
  let! host_flag := atomic (alloc_host_flag page_size) in
  pon_fail
    (pfor_each eps (register_flag kTransFlagNameHost
       {| cm_type := COMM_MEM_TYPE_HOST; cm_addr := host_flag; cm_size := sizeof_int64 |}))
    (sys (Hc (HostFree host_flag))) ;;;
  atomic (on_flags (modify (set_host_flag host_flag))).

Definition alloc_device_flag : C Z :=
  let* r := call (Hc (AclMalloc sizeof_int64)) in
  let '(rc, dev_flag) := r in
  chk_acl rc ;;
  ret dev_flag.
Definition fill_device_flag (dev_flag : Z) : C unit :=
  let* rc := call (Hc (AclMemcpyToDevice dev_flag 1)) in chk_acl rc.
Definition FreeDeviceMem (ptr : Z) : C unit :=
  if is_null ptr then ret tt else let* _ := call (Hc (AclFree ptr)) in ret tt.
Definition pool_finalize (dev : Z) : P unit :=
  let! found := sys (Hc (PoolGetInstance dev)) in
  if (found : bool) then sys (Hc (PoolFinalize dev)) else pret tt.

Definition register_device_flag (eps : list Z) : P unit :=
  let! dev_flag := atomic alloc_device_flag in
  pon_fail
    (atomic (fill_device_flag dev_flag) ;;;
     pfor_each eps (register_flag kTransFlagNameDevice
       {| cm_type := COMM_MEM_TYPE_DEVICE; cm_addr := dev_flag; cm_size := sizeof_int64 |}))
    (atomic (FreeDeviceMem dev_flag)) ;;;
  atomic (on_flags (modify (set_dev_flag dev_flag))).
Definition get_device : C Z :=
  let* r := call (Hc AclGetDevice) in
  let '(rc, dev_id) := r in
  chk_acl rc ;;
  ret dev_id.
Definition RegisterDeviceTransFinishedFlag (eps : list Z) (resolve_notify_addr : bool) : P unit :=
  let! dev_id := atomic get_device in
  let! prev := atomic (switch_context nullptr) in
  pfinally
    (let! pool := sys (Hc (PoolGetInstance dev_id)) in
     prequire pool PARAM_INVALID ;;;
     let! st := sys (Hc (PoolInitialize dev_id (from_option id kDefaultTransferPoolSize MaxActiveChannels))) in
     prequire (st =? SUCCESS) st ;;;
     pon_fail
       ((if resolve_notify_addr then
           let! st := sys (Hc (PoolResolveNotifyAddr dev_id)) in prequire (st =? SUCCESS) st
         else pret tt) ;;;
        register_device_flag eps)
       (pool_finalize dev_id) ;;;
     atomic (on_flags (modify (set_device dev_id))))
    (atomic (restore_context prev)).

(** The endpoints on the host, those on the device that are not UB memory, and
    whether one of the latter is not HCCS. *)
Definition flag_endpoints (l : list (Z * Endpoint)) : list Z * list Z * bool :=
  let loc it := ed_locType (endpoint_ it.2) in
  let dev := filter (fun it : Z * Endpoint => loc it = ENDPOINT_LOC_TYPE_DEVICE /\ is_ub it.2 = false) l in
  (map fst (filter (fun it => loc it = ENDPOINT_LOC_TYPE_HOST) l), map fst dev,
   existsb (fun it => negb (ed_protocol (endpoint_ it.2) =? COMM_PROTOCOL_HCCS)) dev).
Definition InitTransFinishedFlag : P unit :=
  let! eps := read (fun s => flag_endpoints (endpoints_ (endpoint_store_ s))) in
  let '(host_endpoints, device_endpoints, has_non_hccs_device_ep) := eps in
  (if bool_decide (host_endpoints = []) then pret tt else RegisterHostTransFinishedFlag host_endpoints) ;;;
  (if bool_decide (device_endpoints = []) then pret tt
   else RegisterDeviceTransFinishedFlag device_endpoints has_non_hccs_device_ep).

(** ** Finalize *)
Definition connections_to_close (s : HixlCSServer) : list nat :=
  omap (fun r => rc_connection <$> receivers s !! r) (map snd (clients_ (sv_clients s))) ++
  elements (disconnected_clients_ (sv_clients s)).
Definition ShutdownAllClients : P unit :=
  let! clients := read connections_to_close in
  let! pending := read (fun s => map (fun it => ph_connection it.2) (pending_handshakes_ (sv_listener s))) in
  pfor_each (clients ++ pending) (fun i => plog (conn_call i CtrlMsgPlugin_ShutdownSocket)).

(** The two tables are swapped with empty ones. *)
Definition take_clients : C (list nat) :=
  let* s := get in
  modify (set_clients {| clients_ := []; disconnected_clients_ := ∅ |}) ;;
  ret (connections_to_close s).
Definition CloseAllClients : P unit :=
  let! pending := read (fun s => map (fun it => ph_connection it.2) (pending_handshakes_ (sv_listener s))) in
  pfor_each pending CloseClientSocket ;;;
  atomic (on_listener (modify (set_pending []))) ;;;
  let! clients := atomic take_clients in
  pfor_each clients CloseClientSocket ;;;
  atomic (modify (set_tracked ∅)).

Definition listener_returned (s : HixlCSServer) : bool := negb (bool_decide (listener_ (sv_listener s) = Running)).
Definition stop_listener : P unit :=
  let! running := read (fun s => listener_running_ (sv_listener s)) in
  if negb running then pret tt else
  atomic (on_listener (let* l := get in modify (set_listening false (listener_ l)))) ;;;
  await listener_returned (on_listener (modify (set_listening false NoThread))).

Definition free_flags : C unit :=
  let* s := get in
  (if is_null (host_trans_flag_ (sv_flags s)) then ret tt else call (Hc (HostFree (host_trans_flag_ (sv_flags s))))) ;;
  on_flags (modify (set_host_flag nullptr)) ;;
  FreeDeviceMem (dev_trans_flag_ (sv_flags s)) ;;
  on_flags (modify (set_dev_flag nullptr)).
Definition release_pool : P unit :=
  let! dev := read (fun s => device_id_ (sv_flags s)) in
  if dev <? 0 then pret tt else
  pool_finalize dev ;;;
  atomic (on_flags (modify (set_device (-1)))).
(** The last reference to the listening connection is dropped. *)
Definition close_listener : P unit :=
  let! l := read (fun s => listener_connection_ (sv_listener s)) in
  match l with
  | None => pret tt
  | Some lc =>
      plog (conn_call lc CtrlMsgPlugin_Close) ;;;
      atomic (on_listener (modify (set_listener_connection None))) ;;;
      conn_call lc CtrlMsgPlugin_delete
  end.
Definition close_epoll : C unit :=
  let* s := get in
  let efd := epoll_fd_ (sv_listener s) in
  if efd =? -1 then ret tt else
  let* _ := call (Hc (EpollClose efd)) in
  on_listener (modify (set_epoll (-1))).

Definition Finalize : P Status :=
  let! ret_ :=
    with_context
      (stop_listener ;;;
       ShutdownAllClients ;;;
       pzoom msg_handler_ set_handler MsgHandler_Finalize ;;;
       CloseAllClients ;;;
       let! ret_ := store_call EndpointStore_Finalize in
       atomic free_flags ;;;
       pret ret_) in
  release_pool ;;;
  close_listener ;;;
  atomic close_epoll ;;;
  pret ret_.

(** ** Initialize *)
Definition create_endpoint (all_device : bool) (d : EndpointDesc) : P unit :=
  let! _ := store_call (EndpointStore_CreateEndpoint d (NeedServerHostVaMapping d all_device)) in pret tt.
(** [listener_connection_ = MakeShared<CtrlMsgPlugin>()]; an object that was there loses
    its last reference. *)
Definition new_listener_connection : P nat :=
  let! old := read (fun s => listener_connection_ (sv_listener s)) in
  let! made := sys NetNew in
  let! lc := atomic (if (made : bool) then
      let* i := new_connection Conn_new in
      on_listener (modify (set_listener_connection (Some i))) ;; ret i
    else on_listener (modify (set_listener_connection None)) ;; ret O) in
  match old with Some i => conn_call i CtrlMsgPlugin_delete | None => pret tt end ;;;
  prequire made PARAM_INVALID ;;;
  pret lc.

Definition Initialize (endpoint_list : option (list EndpointDesc)) : P unit :=
  match endpoint_list with
  | None => pfail PARAM_INVALID
  | Some l =>
      prequire (0 <? length l)%nat PARAM_INVALID ;;;
      let! configurable := sys (Hc ConfigurableTransferSupported) in
      atomic (on_flags (modify (set_configurable configurable))) ;;;
      pon_fail
        (pfor_each l (create_endpoint (AreUbCtpEndpointsAllDevice l)) ;;;
         RegisterMsgProcessors ;;;
         let! lc := new_listener_connection in
         conn_call lc CtrlMsgPlugin_Initialize ;;;
         atomic (on_handler MsgHandler_Initialize) ;;;
         InitTransFinishedFlag)
        (plog Finalize)
  end.
End Server.

(** * Threads *)
Inductive ApiCall :=
| AInitialize (l : option (list EndpointDesc))
| AFinalize
| ARegisterMem (tag : option string) (mem : CommMem)
| ADeregisterMem (mem_handle : Z)
| AListen (backlog : Z)
| ARegProc (t : CtrlMsgType) (p : UserProc).
Inductive ThreadKind := TApi (c : ApiCall) | TListener | TReturn | THandler | TWorker (t : Task).

Section Threads.
Context {codes : AclCodes} {again : HcclAgain} {clib : CLibrary} `{Sec : Securec} {cfg : ServerConfig} {abi : ServerAbi}.
Context {env : Environment NetOp}.

Definition api_call (c : ApiCall) : Prog NetOp HixlCSServer unit :=
  match c with
  | AInitialize l => Initialize l
  | AFinalize => plog Finalize
  | ARegisterMem tag mem => plog (RegisterMem tag mem)
  | ADeregisterMem mh => DeregisterMem mh
  | AListen backlog => Listen backlog
  | ARegProc t p => RegProc t (PUser p)
  end.

Definition start_task (s : HixlCSServer) (t : Task) (s' : HixlCSServer) : Prop :=
  exists pool rest, thread_pool_ (msg_handler_ s) = Some pool /\ tasks_ pool = t :: rest /\
    (active pool < kMaxThreadPoolSize)%nat /\
    s' = set_handler (set_pool (Some (set_active (active pool + 1) (set_tasks rest pool))) (msg_handler_ s)) s.

(** The owner makes one call at a time; the listener thread runs rounds while
    [listener_running_], the thread of the handler until it returns, and the pool
    starts its tasks in order. *)
Inductive thread_start (s : HixlCSServer) (ks : list ThreadKind) :
    ThreadKind -> Prog NetOp HixlCSServer unit -> HixlCSServer -> Prop :=
| start_api c : (forall c', TApi c' ∉ ks) -> thread_start s ks (TApi c) (api_call c) s
| start_round : TListener ∉ ks -> listener_ (sv_listener s) = Running -> listener_running_ (sv_listener s) = true ->
    thread_start s ks TListener DoWait s
| start_handler : THandler ∉ ks -> mh_listener_ (msg_handler_ s) = Running ->
    thread_start s ks THandler (pzoom msg_handler_ set_handler HandleMsg_round) s
| start_worker t s' : start_task s t s' -> thread_start s ks (TWorker t) (run_task t) s'
(** The listener thread leaves its loop. *)
| start_return : TListener ∉ ks -> listener_ (sv_listener s) = Running -> listener_running_ (sv_listener s) = false ->
    thread_start s ks TReturn (pret tt) (set_listener (set_listening false Returned (sv_listener s)) s).

Definition thread_finish (k : ThreadKind) (s : HixlCSServer) : HixlCSServer :=
  match k with
  | TWorker _ =>
      set_handler (set_pool ((fun p => set_active (active p - 1) p) <$> thread_pool_ (msg_handler_ s)) (msg_handler_ s)) s
  | _ => s
  end.

Definition server_steps : World NetOp HixlCSServer ThreadKind -> World NetOp HixlCSServer ThreadKind -> Prop :=
  steps thread_start thread_finish.
End Threads.
