(* ===== verification/ServerCalls.v ===== *)
(** The calls that the server makes on a connection or an endpoint, apart: those on a
    connection are nothing to HCOMM, those on an endpoint nothing to the descriptors. *)

From S2P Require Import Prelude StdMap Effects External Runtime Wire Hcomm Net CtrlConn CtrlConnSpec CtrlConnSafety MsgReceiver MsgReceiverSafety HostRegister Endpoint HcResources EndpointSafety.

Tactic Notation "em" reference(f) := unfold f; solve_emits; try done.

Section ConnEmits.
Context {codes : AclCodes} {again : HcclAgain} {env : Environment NetOp} `{Sec : Securec}.
Local Notation E m := (emits neutral m).

Lemma em_session : E session. Proof. em session. Qed.
#[local] Hint Resolve em_session : emits.
Lemma em_session_update f : E (session_update f). Proof. em session_update. Qed.
#[local] Hint Resolve em_session_update : emits.
Lemma em_PollFd ev ms : E (TlsSession_PollFd ev ms). Proof. em TlsSession_PollFd. Qed.
Lemma em_Remaining a b : E (RemainingTimeoutMs a b). Proof. em RemainingTimeoutMs. Qed.
Lemma em_WriteOnce buf : E (WriteOnce buf). Proof. em WriteOnce. Qed.
Lemma em_abandon b : E (abandon_write b). Proof. em abandon_write. apply em_session_update. Qed.
Lemma em_HandshakeStep b : E (HandshakeStep b). Proof. em HandshakeStep. Qed.
#[local] Hint Resolve em_PollFd em_Remaining em_WriteOnce em_abandon em_HandshakeStep : emits.
Lemma em_tls_send_round ms st x : E (tls_send_round ms st x). Proof. em tls_send_round. Qed.
#[local] Hint Resolve em_tls_send_round : emits.
Lemma em_TlsSend buf ms : E (TlsSession_Send buf ms). Proof. em TlsSession_Send. Qed.
Lemma em_WaitSocketReady fd ev ms : E (WaitSocketReady fd ev ms). Proof. em WaitSocketReady. Qed.
#[local] Hint Resolve em_TlsSend em_WaitSocketReady : emits.
Lemma em_send_round fd ms st x : E (send_round fd ms st x). Proof. em send_round. Qed.
#[local] Hint Resolve em_send_round : emits.
Lemma em_SendPlain fd buf ms : E (SendPlain fd buf ms). Proof. em SendPlain. Qed.
Lemma em_Shutdown : E ShutdownSocketLocked. Proof. em ShutdownSocketLocked. Qed.
Lemma em_CheckReady : E CheckReady. Proof. em CheckReady. Qed.
#[local] Hint Resolve em_SendPlain em_Shutdown em_CheckReady : emits.
Lemma em_Send buf ms : E (CtrlMsgPlugin_Send buf ms). Proof. em CtrlMsgPlugin_Send. Qed.
Lemma em_ShutdownSocket : E CtrlMsgPlugin_ShutdownSocket. Proof. apply em_Shutdown. Qed.

Lemma em_close_session : E close_session. Proof. em close_session; [em TlsSession_Shutdown|em TlsSession_delete]. Qed.
Lemma em_close_socket : E close_socket. Proof. em close_socket. Qed.
#[local] Hint Resolve em_close_session em_close_socket : emits.
Lemma em_CloseLocked : E CloseLocked. Proof. em CloseLocked. Qed.
#[local] Hint Resolve em_CloseLocked : emits.
Lemma em_Close : E CtrlMsgPlugin_Close. Proof. apply em_CloseLocked. Qed.
#[local] Hint Resolve em_Close : emits.
Lemma em_delete : E CtrlMsgPlugin_delete. Proof. em CtrlMsgPlugin_delete. Qed.
Lemma em_close_on_failure {A} (m : M NetOp Conn A) : E m -> E (close_on_failure m).
Proof. intros H. em close_on_failure. Qed.
#[local] Hint Resolve em_close_on_failure : emits.
Lemma em_CreateSession fd b : E (CreateSession fd b). Proof. em CreateSession. Qed.
#[local] Hint Resolve em_CreateSession : emits.
Lemma em_HandshakeServerStep : E CtrlMsgPlugin_HandshakeServerStep. Proof. em CtrlMsgPlugin_HandshakeServerStep. Qed.

Lemma em_set_opt fd o : E (set_opt fd o). Proof. em set_opt. Qed.
#[local] Hint Resolve em_set_opt : emits.
Lemma em_SetTcpNoDelay : E CtrlMsgPlugin_SetTcpNoDelay. Proof. em CtrlMsgPlugin_SetTcpNoDelay. Qed.
Lemma em_SetTcpKeepAlive : E CtrlMsgPlugin_SetTcpKeepAlive. Proof. em CtrlMsgPlugin_SetTcpKeepAlive. Qed.
Lemma em_SetSendTimeout ms : E (CtrlMsgPlugin_SetSendTimeout ms). Proof. em CtrlMsgPlugin_SetSendTimeout. Qed.
Lemma em_Initialize : E CtrlMsgPlugin_Initialize. Proof. em CtrlMsgPlugin_Initialize. Qed.
#[local] Hint Resolve em_Initialize : emits.
Lemma em_GetAiFamily ip : E (GetAiFamily ip). Proof. em GetAiFamily. Qed.
#[local] Hint Resolve em_GetAiFamily : emits.
Lemma em_Listen ip port n : E (CtrlMsgPlugin_Listen ip port n).
Proof. em CtrlMsgPlugin_Listen. apply em_close_on_failure. em ListenSocket. Qed.
Lemma em_Accept : E CtrlMsgPlugin_Accept.
Proof. em CtrlMsgPlugin_Accept. apply emits_zoom. intros _. solve_emits. Qed.
Lemma em_HasPending : E CtrlMsgPlugin_HasPending.
Proof. em CtrlMsgPlugin_HasPending. em TlsSession_HasPending. Qed.

Lemma em_RecvOnce len : E (CtrlMsgPlugin_RecvOnce len).
Proof. em CtrlMsgPlugin_RecvOnce. em RecvOnce. Qed.
Lemma em_move_front off : E (move_front off). Proof. em move_front; em update. Qed.
#[local] Hint Resolve em_move_front : emits.
Lemma em_update f : E (update f). Proof. em update. Qed.
#[local] Hint Resolve em_update : emits.
Lemma em_RecvHeader : E RecvHeader. Proof. em RecvHeader. Qed.
Lemma em_take_message : E take_message. Proof. em take_message. Qed.
#[local] Hint Resolve em_RecvHeader em_take_message : emits.
Lemma em_irecv_round x : E (irecv_round x). Proof. em irecv_round. Qed.
#[local] Hint Resolve em_irecv_round : emits.
Lemma em_CheckRecv r : E (CheckRecv r). Proof. em CheckRecv. Qed.
#[local] Hint Resolve em_CheckRecv : emits.
Lemma em_IRecv : E IRecv.
Proof. em IRecv. unfold on_connection. apply emits_zoom. intros _. apply em_RecvOnce. Qed.

(** Those of a client. *)
Lemma em_tls_recv_round n ms st x : E (tls_recv_round n ms st x). Proof. em tls_recv_round. Qed.
Lemma em_recv_round fd n ms st x : E (recv_round fd n ms st x). Proof. em recv_round. Qed.
#[local] Hint Resolve em_tls_recv_round em_recv_round : emits.
Lemma em_TlsRecv n ms : E (TlsSession_Recv n ms). Proof. em TlsSession_Recv. Qed.
Lemma em_RecvPlain fd n ms : E (RecvPlain fd n ms). Proof. em RecvPlain. Qed.
#[local] Hint Resolve em_TlsRecv em_RecvPlain : emits.
Lemma em_Recv n ms : E (CtrlMsgPlugin_Recv n ms). Proof. em CtrlMsgPlugin_Recv. Qed.
Lemma em_handshake_round b ms st x : E (handshake_round b ms st x). Proof. em handshake_round. Qed.
#[local] Hint Resolve em_handshake_round : emits.
Lemma em_DoHandshake b ms : E (DoHandshake b ms). Proof. em DoHandshake. Qed.
#[local] Hint Resolve em_DoHandshake : emits.
Lemma em_Handshake b ms : E (Handshake b ms). Proof. em Handshake. em TlsSession_delete. Qed.
Lemma em_DoConnect addr t : E (DoConnect addr t). Proof. em DoConnect. Qed.
#[local] Hint Resolve em_Handshake em_DoConnect : emits.
Lemma em_connect_any l t st e : E (connect_any l t st e).
Proof. revert e. induction l as [|a l IH]; intros e; cbn [connect_any]; solve_emits; try done; apply IH. Qed.
#[local] Hint Resolve em_connect_any : emits.
Lemma em_Connect ip port t : E (CtrlMsgPlugin_Connect ip port t).
Proof. em CtrlMsgPlugin_Connect. apply em_close_on_failure. em ConnectSocket. Qed.
End ConnEmits.

(** A call that neither the resources of HCOMM nor the descriptors notice. *)
Definition silent (e : Event NetOp) : Prop := inert e /\ needs_fd e = None /\ needs_ssl e = None.

Lemma owned_silent W t h : Forall silent t -> CtrlConnSafety.owned W h -> CtrlConnSafety.owned W (t ++ h).
Proof.
  intros Ht H. induction Ht as [|e t [[Q1 Q2] [N1 N2]] _ IH]; [done|]. cbn [app]. destruct IH as (A1 & A2 & A3 & A4).
  split_and!; [done|by rewrite open_fds_cons, Q1|by rewrite open_ssls_cons, Q2|].
  cbn [disciplined]. by rewrite N1, N2.
Qed.

Tactic Notation "es" reference(f) := unfold f; solve_emits; try (by repeat split).

Section EndpointEmits.
Context {codes : AclCodes} {again : HcclAgain} {clib : CLibrary} {env : Environment NetOp}.
Local Notation E m := (emits silent m).

Lemma es_chk_acl {S} e : emits silent (chk_acl e : M NetOp S unit). Proof. es chk_acl. Qed.
Lemma es_chk_hccl {S} e : emits silent (chk_hccl e : M NetOp S unit). Proof. es chk_hccl. Qed.
#[local] Hint Resolve es_chk_acl es_chk_hccl : emits.
Lemma es_Register addr size : E (Register addr size). Proof. es Register. Qed.
Lemma es_Unregister addr : E (Unregister addr). Proof. es Unregister. Qed.
Lemma es_with_proxy {A} dev (m : M NetOp HostRegisterProxy A) : E m -> E (with_proxy dev m).
Proof. intros Hm. unfold with_proxy, GetOrCreateInstance. solve_emits; try (by repeat split). by apply emits_zoom. Qed.
Lemma es_on_proxies {A} (m : M NetOp Proxies A) : E m -> E (on_proxies m).
Proof. intros Hm. by apply emits_zoom. Qed.
Lemma es_RegisterByDev dev a n : E (on_proxies (RegisterByDev dev a n)).
Proof. apply es_on_proxies, es_with_proxy, es_Register. Qed.
Lemma es_UnregisterByDev dev a : E (on_proxies (UnregisterByDev dev a)).
Proof. apply es_on_proxies, es_with_proxy, es_Unregister. Qed.
#[local] Hint Resolve es_RegisterByDev es_UnregisterByDev : emits.
Lemma es_ep_get : E ep_get. Proof. es ep_get. Qed.
Lemma es_ep_modify f : E (ep_modify f). Proof. es ep_modify. Qed.
#[local] Hint Resolve es_ep_get es_ep_modify : emits.

Lemma es_wait ub ch ms start x : E (wait_round (S := EpState) ub ch ms start x). Proof. es wait_round. Qed.
#[local] Hint Resolve es_wait : emits.
Lemma es_Destroy ub c : E (Channel_Destroy (S := EpState) ub c). Proof. es Channel_Destroy. Qed.
Lemma es_Create ub ep d e ms : E (Channel_Create (S := EpState) ub ep d e ms).
Proof. es Channel_Create. es WaitChannelConnected. Qed.
#[local] Hint Resolve es_Destroy es_Create : emits.

Lemma es_register_mapped e tag m r p : E (register_mapped e tag m r p). Proof. es register_mapped. Qed.
#[local] Hint Resolve es_register_mapped : emits.
Lemma es_RegisterMem tag m : E (Endpoint_RegisterMem tag m). Proof. es Endpoint_RegisterMem. Qed.
Lemma es_DeregisterMem mh : E (Endpoint_DeregisterMem mh). Proof. es Endpoint_DeregisterMem. Qed.
Lemma es_export_mems hd l : E (export_mems hd l).
Proof. induction l as [|[mh x] l IH]; cbn [export_mems]; solve_emits; try (by repeat split); exact IH. Qed.
#[local] Hint Resolve es_export_mems : emits.
Lemma es_ExportMem : E Endpoint_ExportMem. Proof. es Endpoint_ExportMem. Qed.
Lemma es_make_channel cd ms : E (make_channel cd ms). Proof. es make_channel. Qed.
Lemma es_store_channel c : E (store_channel c). Proof. es store_channel. Qed.
Lemma es_DestroyChannel ch : E (Endpoint_DestroyChannel ch). Proof. es Endpoint_DestroyChannel. Qed.
Lemma es_GetListenPort : E Endpoint_GetListenPort. Proof. es Endpoint_GetListenPort. Qed.

Lemma es_CreateEndpoint d b : E (EndpointStore_CreateEndpoint d b).
Proof. es EndpointStore_CreateEndpoint. apply emits_zoom. intros _. es Endpoint_Initialize. Qed.
Lemma es_finalize_channels ub l st : E (finalize_channels ub l st).
Proof. revert st. induction l; intros st; cbn [finalize_channels]; solve_emits. Qed.
Lemma es_finalize_mems e l st : E (finalize_mems e l st).
Proof.
  revert st. induction l as [|x l IH]; intros st; cbn [finalize_mems]; solve_emits; try (by repeat split); apply IH.
Qed.
#[local] Hint Resolve es_finalize_channels es_finalize_mems : emits.
Lemma es_finalize_endpoints l st : E (finalize_endpoints l st).
Proof.
  revert st. induction l as [|x l IH]; intros st; cbn [finalize_endpoints]; solve_emits.
  apply emits_zoom. intros _. es Endpoint_Finalize.
Qed.
#[local] Hint Resolve es_finalize_endpoints : emits.
Lemma es_StoreFinalize : E EndpointStore_Finalize. Proof. es EndpointStore_Finalize. Qed.
Lemma es_Initialize : E Endpoint_Initialize. Proof. es Endpoint_Initialize. Qed.
Lemma es_Finalize : E Endpoint_Finalize. Proof. es Endpoint_Finalize. Qed.
Lemma es_ImportMem d n : E (Endpoint_ImportMem d n). Proof. es Endpoint_ImportMem. Qed.
Lemma es_UnimportMem d n : E (Endpoint_UnimportMem d n). Proof. es Endpoint_UnimportMem. Qed.
Lemma es_CreateChannel cd ms : E (Endpoint_CreateChannel cd ms).
Proof. unfold Endpoint_CreateChannel. apply emits_bind; [apply es_make_channel|intros; apply es_store_channel]. Qed.
End EndpointEmits.
