(* ===== verification/CsServerInv.v ===== *)
(** The invariant of the server of the CS layer.

    The threads of the server hold tokens: resources and connections that no table
    refers to yet, and the state that the thread has last seen.  For each kind of
    thread, [rely] says how the state may have changed since; the invariant accounts
    for the resources of HCOMM, the descriptors, the tables and the threads. *)

From S2P Require Import Prelude StdMap Effects External Runtime Wire Hcomm Net CtrlConn CtrlConnSpec CtrlConnSafety MsgReceiver MsgReceiverSafety HostRegister Endpoint HcResources EndpointSafety Conc MsgHandler CsServer.

(** * What the server owns *)
Definition host_owned (p : Z) : list HcRes := if is_null p then [] else [RHost p].
Definition dev_owned (p : Z) : list HcRes := if is_null p then [] else [RDev p].
Definition epoll_owned (fd : Z) : list HcRes := if 0 <=? fd then [REpoll fd] else [].
Definition flags_owned (s : HixlCSServer) : list HcRes :=
  host_owned (host_trans_flag_ (sv_flags s)) ++ dev_owned (dev_trans_flag_ (sv_flags s)) ++
  epoll_owned (epoll_fd_ (sv_listener s)).
Definition srv_owned (s : HixlCSServer) : list HcRes := store_owned (endpoints_ (endpoint_store_ s)) ++ flags_owned s.

(** * The tables *)
Definition fd_of (s : HixlCSServer) (i : nat) : Z := from_option fd_ (-1) (connections s !! i).
Definition receiver_conns (s : HixlCSServer) : list nat := rc_connection <$> receivers s.
(** Known to a receiver, now or once. *)
Definition published (s : HixlCSServer) (i : nat) : Prop := i ∈ receiver_conns s.
Definition pending_of (s : HixlCSServer) : list (Z * PendingHandshake) := pending_handshakes_ (sv_listener s).
Definition pending_conns (s : HixlCSServer) : list nat := map (fun it => ph_connection it.2) (pending_of s).
Definition refs (s : HixlCSServer) : list nat :=
  option_list (listener_connection_ (sv_listener s)) ++ pending_conns s ++ connections_to_close s.
Definition endpoint_at (s : HixlCSServer) (h : Z) : option Endpoint := GetEndpoint h (endpoint_store_ s).
Definition pool_of (s : HixlCSServer) : option ThreadPool := thread_pool_ (msg_handler_ s).

(** Before [Initialize]. *)
Record unset (s : HixlCSServer) : Prop := {
  u_lc : listener_connection_ (sv_listener s) = None;
  u_epoll : epoll_fd_ (sv_listener s) = -1;
  u_listener : listener_ (sv_listener s) = NoThread;
  u_running : listener_running_ (sv_listener s) = false;
  u_pool : pool_of s = None;
  u_mh : mh_listener_ (msg_handler_ s) = NoThread;
  u_mhr : running_ (msg_handler_ s) = false;
  u_host : host_trans_flag_ (sv_flags s) = nullptr;
  u_dev : dev_trans_flag_ (sv_flags s) = nullptr
}.

Record valid {cfg : ServerConfig} (s : HixlCSServer) : Prop := {
  v_rcv : Forall (fun r => recv_ok (rc_receiver r)) (receivers s);
  v_conn : forall i, i ∈ refs s ++ receiver_conns s -> (i < length (connections s))%nat;
  v_clients : forall fd r, (fd, r) ∈ clients_ (sv_clients s) -> (r < length (receivers s))%nat;
  v_shelved : forall i, i ∈ disconnected_clients_ (sv_clients s) -> published s i;
  v_queue : forall q, q ∈ req_queue_ (msg_handler_ s) -> published s (rq_conn q);
  v_tasks : forall p t, pool_of s = Some p -> t ∈ tasks_ p -> published s (rq_conn (tk_req t));
  v_pending_wf : std_map_wf (pending_of s);
  v_clients_wf : std_map_wf (clients_ (sv_clients s));
  v_pending_nodup : NoDup (pending_conns s);
  v_lc : forall i, listener_connection_ (sv_listener s) = Some i -> i ∉ pending_conns s /\ ~ published s i;
  v_bound : TlsEnabled = true -> (length (pending_of s) <= kMaxPendingHandshakes)%nat;
  v_fresh : std_find kDestroyChannelReq (processors_ (msg_handler_ s)) = None -> unset s;
  v_listener : listener_ (sv_listener s) <> NoThread ->
    is_Some (listener_connection_ (sv_listener s)) /\ 0 <= epoll_fd_ (sv_listener s);
  v_handler : mh_listener_ (msg_handler_ s) = Running -> is_Some (pool_of s);
  v_processors_wf : std_map_wf (processors_ (msg_handler_ s))
}.

(** * What the threads rely on *)

(** No thread but the caller of [Finalize] is left. *)
Definition quiet (s : HixlCSServer) : Prop :=
  listener_ (sv_listener s) = NoThread /\ pool_of s = None /\ mh_listener_ (msg_handler_ s) <> Running.

Record grows (s s' : HixlCSServer) : Prop := {
  g_conns : (length (connections s) <= length (connections s'))%nat;
  g_receivers : receiver_conns s `prefix_of` receiver_conns s';
  g_store : forall h e, endpoint_at s h = Some e -> exists e', endpoint_at s' h = Some e' /\ same e e';
  g_epoll : 0 <= epoll_fd_ (sv_listener s) -> epoll_fd_ (sv_listener s') = epoll_fd_ (sv_listener s);
  g_closed : forall i, published s i -> fd_of s i = -1 -> fd_of s' i = -1
}.

Record handler_rely (s s' : HixlCSServer) : Prop := {
  h_grows : grows s s';
  h_running : mh_listener_ (msg_handler_ s') = Running
}.

(** What the listener thread finds as it left it. *)
Record listener_rely (s s' : HixlCSServer) : Prop := {
  lr_grows : grows s s';
  lr_conns : length (connections s') = length (connections s);
  lr_receivers : receiver_conns s' = receiver_conns s;
  lr_lc : listener_connection_ (sv_listener s') = listener_connection_ (sv_listener s);
  lr_pending : pending_of s' = pending_of s;
  lr_fd : forall i, ~ published s i -> fd_of s' i = fd_of s i;
  lr_shelved : forall i, i ∈ connections_to_close s -> fd_of s' i = -1 \/ i ∈ connections_to_close s'
}.

(** What the owner finds as it left it. *)
Record owner_keeps (s s' : HixlCSServer) : Prop := {
  ok_grows : grows s s';
  ok_lc : listener_connection_ (sv_listener s') = listener_connection_ (sv_listener s);
  ok_epoll : epoll_fd_ (sv_listener s') = epoll_fd_ (sv_listener s);
  ok_running : listener_running_ (sv_listener s') = listener_running_ (sv_listener s);
  ok_listener : listener_ (sv_listener s) = NoThread -> listener_ (sv_listener s') = NoThread;
  ok_processors : processors_ (msg_handler_ s') = processors_ (msg_handler_ s);
  ok_mh_running : running_ (msg_handler_ s') = running_ (msg_handler_ s);
  ok_pool : is_Some (pool_of s') <-> is_Some (pool_of s);
  ok_mh : mh_listener_ (msg_handler_ s) <> Running -> mh_listener_ (msg_handler_ s') = mh_listener_ (msg_handler_ s);
  ok_flags : host_trans_flag_ (sv_flags s') = host_trans_flag_ (sv_flags s) /\
             dev_trans_flag_ (sv_flags s') = dev_trans_flag_ (sv_flags s);
  ok_store : forall h, is_Some (endpoint_at s' h) -> is_Some (endpoint_at s h)
}.
Definition owner_rely (s s' : HixlCSServer) : Prop := owner_keeps s s' /\ (quiet s -> s' = s).

Definition rely (k : ThreadKind) (s s' : HixlCSServer) : Prop :=
  match k with
  | TApi _ => owner_rely s s'
  | TListener => listener_rely s s'
  | THandler => mh_listener_ (msg_handler_ s) = Running -> handler_rely s s'
  | TWorker _ => grows s s'
  | TReturn => True
  end.
(** [rely] with harmless steps of the thread itself. *)
Definition weak (k : ThreadKind) (s s' : HixlCSServer) : Prop :=
  match k with TApi _ => owner_keeps s s' | _ => rely k s s' end.

(** A step that no other thread needs to notice: tables change that belong to nobody,
    and published connections may be closed. *)
Record calm (s s' : HixlCSServer) : Prop := {
  c_conns : length (connections s') = length (connections s);
  c_fd : forall i, fd_of s' i = fd_of s i \/ (published s i /\ fd_of s' i = -1);
  c_receivers : receiver_conns s' = receiver_conns s;
  c_shelf : forall i, i ∈ connections_to_close s -> fd_of s' i = -1 \/ i ∈ connections_to_close s';
  c_listener : sv_listener s' = sv_listener s;
  c_processors : processors_ (msg_handler_ s') = processors_ (msg_handler_ s);
  c_running : running_ (msg_handler_ s') = running_ (msg_handler_ s);
  c_mh : mh_listener_ (msg_handler_ s') = mh_listener_ (msg_handler_ s);
  c_pool : active <$> pool_of s' = active <$> pool_of s;
  c_flags : host_trans_flag_ (sv_flags s') = host_trans_flag_ (sv_flags s) /\
            dev_trans_flag_ (sv_flags s') = dev_trans_flag_ (sv_flags s);
  c_store : forall h, match endpoint_at s h, endpoint_at s' h with
                      | Some e, Some e' => same e e'
                      | None, None => True
                      | _, _ => False
                      end
}.

(** ** These are preorders *)
Lemma published_lookup s i : published s i <-> exists r x, receivers s !! r = Some x /\ rc_connection x = i.
Proof.
  unfold published, receiver_conns. rewrite list_elem_of_lookup. split.
  - intros [r Hr]. rewrite list_lookup_fmap in Hr. destruct (receivers s !! r) as [x|] eqn:E; [|done].
    exists r, x. split; [done|]. by injection Hr.
  - intros (r & x & E & <-). exists r. by rewrite list_lookup_fmap, E.
Qed.

Lemma conn_of_receiver s r : rc_connection <$> receivers s !! r = receiver_conns s !! r.
Proof. unfold receiver_conns. by rewrite list_lookup_fmap. Qed.

Lemma published_grows s s' i : grows s s' -> published s i -> published s' i.
Proof. intros [_ [l Hp] _ _ _]. unfold published. rewrite Hp. intros H. apply elem_of_app. by left. Qed.

Lemma grows_refl s : grows s s.
Proof. constructor; [done|done| |done|done]. intros h e E. exists e. split; [done|apply same_refl]. Qed.
Lemma grows_trans s1 s2 s3 : grows s1 s2 -> grows s2 s3 -> grows s1 s3.
Proof.
  intros H1 H2. pose proof H1 as [A1 A2 A3 A4 A5]. pose proof H2 as [B1 B2 B3 B4 B5]. constructor.
  - lia.
  - by etrans.
  - intros h e (e1 & E1 & S1)%A3. apply B3 in E1 as (e2 & E2 & S2). exists e2. split; [done|].
    unfold same in *. destruct S1, S2. split; congruence.
  - intros Hp. specialize (A4 Hp). rewrite B4; [done|]. by rewrite A4.
  - intros i Hi Hn. apply B5; [by eapply published_grows|by apply A5].
Qed.

Lemma listener_closed s s' i : listener_rely s s' -> fd_of s i = -1 -> fd_of s' i = -1.
Proof.
  intros H Hn. destruct (decide (i ∈ receiver_conns s)) as [Hp|Hp].
  - by apply (g_closed _ _ (lr_grows _ _ H)).
  - by rewrite (lr_fd _ _ H).
Qed.

Lemma listener_rely_refl s : listener_rely s s.
Proof. constructor; try done; [apply grows_refl|]. intros i Hi. by right. Qed.
Lemma listener_rely_trans s1 s2 s3 : listener_rely s1 s2 -> listener_rely s2 s3 -> listener_rely s1 s3.
Proof.
  intros H1 H2. pose proof H1 as [A1 A2 A3 A4 A5 A6 A7]. pose proof H2 as [B1 B2 B3 B4 B5 B6 B7]. constructor; try congruence.
  - by eapply grows_trans.
  - intros i Hi. rewrite B6; [by apply A6|]. unfold published. by rewrite A3.
  - intros i [Hn|Hi]%A7; [left; by apply (listener_closed s2)|by apply B7].
Qed.

Lemma owner_keeps_refl s : owner_keeps s s.
Proof. constructor; try done. apply grows_refl. Qed.
Lemma owner_keeps_trans s1 s2 s3 : owner_keeps s1 s2 -> owner_keeps s2 s3 -> owner_keeps s1 s3.
Proof.
  intros [A1 A2 A3 A4 A5 A6 A7 A8 A9 A10 A11] [B1 B2 B3 B4 B5 B6 B7 B8 B9 B10 B11]. constructor.
  - by eapply grows_trans.
  - congruence.
  - congruence.
  - congruence.
  - auto.
  - congruence.
  - congruence.
  - by rewrite B8.
  - intros Hn. specialize (A9 Hn). rewrite B9; [done|]. by rewrite A9.
  - destruct A10, B10. split; congruence.
  - auto.
Qed.
Lemma quiet_keeps s s' : owner_keeps s s' -> quiet s -> quiet s'.
Proof.
  intros H (Q1 & Q2 & Q3). split_and!.
  - by apply (ok_listener _ _ H).
  - destruct (pool_of s') eqn:E; [|done]. assert (is_Some (pool_of s)) as [? Hp]; [|by rewrite Hp in Q2].
    apply (ok_pool _ _ H). rewrite E. by eexists.
  - by rewrite (ok_mh _ _ H).
Qed.

Lemma weak_refl k s : weak k s s.
Proof.
  destruct k; cbn [weak rely]; [apply owner_keeps_refl|apply listener_rely_refl|done| |apply grows_refl].
  intros H. constructor; [apply grows_refl|done].
Qed.
Lemma rely_weak k s s' : rely k s s' -> weak k s s'.
Proof. destruct k; try done. by intros [H _]. Qed.
Lemma weak_trans k s1 s2 s3 : weak k s1 s2 -> weak k s2 s3 -> weak k s1 s3.
Proof.
  destruct k; cbn [weak rely]; [apply owner_keeps_trans|apply listener_rely_trans|done| |apply grows_trans].
  intros H1 H2 Hr. destruct (H1 Hr) as [A1 A2], (H2 A2) as [B1 B2]. constructor; [by eapply grows_trans|done].
Qed.
Lemma rely_refl k s : rely k s s.
Proof.
  destruct k as [c| | | |t]; [|apply (weak_refl TListener)|done|apply (weak_refl THandler)|apply (weak_refl (TWorker t))].
  split; [apply owner_keeps_refl|done].
Qed.
Lemma rely_trans k s1 s2 s3 : rely k s1 s2 -> rely k s2 s3 -> rely k s1 s3.
Proof.
  destruct k as [c| | | |t]; [|apply (weak_trans TListener)|done|apply (weak_trans THandler)|apply (weak_trans (TWorker t))].
  cbn [rely]. intros [H1 E1] [H2 E2]. split; [by eapply owner_keeps_trans|].
  intros Hq. rewrite E2; [by apply E1|]. by eapply quiet_keeps.
Qed.

(** ** Harmless steps *)
Lemma calm_refl s : calm s s.
Proof.
  constructor; try done; [by left|by right|]. intros h. destruct (endpoint_at s h); [apply same_refl|done].
Qed.

Lemma calm_closed s s' i : calm s s' -> fd_of s i = -1 -> fd_of s' i = -1.
Proof. intros H Hn. destruct (c_fd _ _ H i) as [E|[_ ?]]; [by rewrite E|done]. Qed.
Lemma calm_grows s s' : calm s s' -> grows s s'.
Proof.
  intros H. constructor.
  - by rewrite (c_conns _ _ H).
  - by rewrite (c_receivers _ _ H).
  - intros h e E. pose proof (c_store _ _ H h) as Hs. rewrite E in Hs.
    destruct (endpoint_at s' h) as [e'|]; [by exists e'|done].
  - by rewrite (c_listener _ _ H).
  - intros i _. by apply calm_closed.
Qed.
Lemma calm_weak k s s' : calm s s' -> weak k s s'.
Proof.
  intros H. pose proof (calm_grows _ _ H) as Hg. destruct k; cbn [weak rely]; [|..|done].
  - constructor; rewrite ?(c_listener _ _ H), ?(c_processors _ _ H), ?(c_running _ _ H), ?(c_mh _ _ H); try done.
    + rewrite <- !(fmap_is_Some active). by rewrite (c_pool _ _ H).
    + apply (c_flags _ _ H).
    + intros h [e' E]. pose proof (c_store _ _ H h) as Hs. rewrite E in Hs. by destruct (endpoint_at s h).
  - constructor; unfold pending_of; rewrite ?(c_listener _ _ H); try done.
    + apply (c_conns _ _ H).
    + apply (c_receivers _ _ H).
    + intros i Hi. by destruct (c_fd _ _ H i) as [?|[? _]].
    + intros i Hi. by apply (c_shelf _ _ H).
  - done.
  - intros Hr. constructor; [done|]. by rewrite (c_mh _ _ H).
Qed.

(** * Tokens and the invariant *)

(** [t_res] and [t_conns] are in the hands of the thread; [t_mid] are connections under
    handshake that it is closing or publishing; [t_stopping] says that it has told the
    threads to stop. *)
Record Token := {
  t_res : list HcRes;
  t_conns : list nat;
  t_mid : list nat;
  t_stopping : bool;
  t_seen : HixlCSServer
}.
Definition see (s : HixlCSServer) (d : Token) : Token :=
  {| t_res := t_res d; t_conns := t_conns d; t_mid := t_mid d; t_stopping := t_stopping d; t_seen := s |}.
Definition with_res (l : list HcRes) (d : Token) : Token :=
  {| t_res := l; t_conns := t_conns d; t_mid := t_mid d; t_stopping := t_stopping d; t_seen := t_seen d |}.
Definition with_conns (l : list nat) (d : Token) : Token :=
  {| t_res := t_res d; t_conns := l; t_mid := t_mid d; t_stopping := t_stopping d; t_seen := t_seen d |}.
Definition with_mid (l : list nat) (d : Token) : Token :=
  {| t_res := t_res d; t_conns := t_conns d; t_mid := l; t_stopping := t_stopping d; t_seen := t_seen d |}.
Definition with_stopping (b : bool) (d : Token) : Token :=
  {| t_res := t_res d; t_conns := t_conns d; t_mid := t_mid d; t_stopping := b; t_seen := t_seen d |}.
Definition fresh_token (s : HixlCSServer) : Token :=
  {| t_res := []; t_conns := []; t_mid := []; t_stopping := false; t_seen := s |}.

Inductive Role := RApi | RListener | RHandler.
#[export] Instance Role_eq_dec : EqDecision Role.
Proof. solve_decision. Defined.
Definition role (k : ThreadKind) : option Role :=
  match k with TApi _ => Some RApi | TListener => Some RListener | THandler => Some RHandler | _ => None end.
Definition is_worker (k : ThreadKind) : bool := match k with TWorker _ => true | _ => false end.
(** These threads never hold anything. *)
Definition hands_free (k : ThreadKind) (d : Token) : Prop :=
  match k with THandler | TReturn => t_res d = [] /\ t_conns d = [] | _ => True end.

Definition Tokens : Type := list (ThreadKind * Token).
Definition res_of (ds : Tokens) : list HcRes := mjoin ((fun kd => t_res kd.2) <$> ds).
Definition conns_of (ds : Tokens) : list nat := mjoin ((fun kd => t_conns kd.2) <$> ds).
Definition mids_of (ds : Tokens) : list nat := mjoin ((fun kd => t_mid kd.2) <$> ds).
Definition stopping (ds : Tokens) : Prop := Exists (fun kd => t_stopping kd.2 = true) ds.
Definition workers (ds : Tokens) : nat := length (filter (fun k => is_worker k = true) ds.*1).
Definition running_tasks (s : HixlCSServer) : nat := from_option active 0%nat (pool_of s).

(** The entry of a handshake: its connection has the descriptor it is filed under, and
    nobody else has heard of it. *)
Definition filed (s : HixlCSServer) (fd : Z) (i : nat) : Prop := fd_of s i = fd /\ ~ published s i.

Section Invariant.
Context {codes : AclCodes} {again : HcclAgain} {cfg : ServerConfig}.

Record Inv (ds : Tokens) (s : HixlCSServer) (h : History NetOp) : Prop := {
  i_store : store_wf (endpoint_store_ s);
  i_acct : acct (srv_owned s ++ res_of ds) h;
  i_owned : CtrlConnSafety.owned (connections s) h;
  i_valid : valid s;
  i_open : forall i, 0 <= fd_of s i -> i ∈ refs s \/ i ∈ conns_of ds;
  i_pending : forall fd p, (fd, p) ∈ pending_of s -> ph_connection p ∈ mids_of ds \/ filed s fd (ph_connection p);
  i_roles : NoDup (omap role ds.*1);
  i_workers : workers ds = running_tasks s;
  i_seen : Forall (fun kd => rely kd.1 (t_seen kd.2) s) ds;
  i_mid : Forall (fun kd => t_mid kd.2 = [] \/ kd.1 = TListener \/
                            (role kd.1 = Some RApi /\ listener_ (sv_listener s) = NoThread)) ds;
  i_listener : TListener ∈ ds.*1 -> listener_ (sv_listener s) = Running;
  i_stopped : listener_running_ (sv_listener s) = false -> listener_ (sv_listener s) = NoThread \/ stopping ds;
  i_mh : running_ (msg_handler_ s) = false ->
    (pool_of s = None /\ mh_listener_ (msg_handler_ s) = NoThread) \/ stopping ds;
  i_owner : Forall (fun kd => t_stopping kd.2 = true -> role kd.1 = Some RApi) ds;
  i_hands : Forall (fun kd => hands_free kd.1 kd.2) ds
}.

Lemma res_perm ds ds' : ds ≡ₚ ds' -> res_of ds ≡ₚ res_of ds'.
Proof. intros E. unfold res_of. by rewrite E. Qed.
Lemma conns_perm ds ds' i : ds ≡ₚ ds' -> i ∈ conns_of ds -> i ∈ conns_of ds'.
Proof. intros E. assert (Ep : conns_of ds ≡ₚ conns_of ds') by (unfold conns_of; by rewrite E). by rewrite Ep. Qed.
Lemma mids_perm ds ds' i : ds ≡ₚ ds' -> i ∈ mids_of ds -> i ∈ mids_of ds'.
Proof. intros E. assert (Ep : mids_of ds ≡ₚ mids_of ds') by (unfold mids_of; by rewrite E). by rewrite Ep. Qed.

Lemma Inv_perm ds ds' s h : ds ≡ₚ ds' -> Inv ds s h -> Inv ds' s h.
Proof.
  intros E [H1 H2 H3 H4 H5 H6 H7 H8 H9 H10 H11 H12 H13 H14 H15].
  assert (Es : stopping ds -> stopping ds') by (unfold stopping; by rewrite E).
  constructor; try done.
  - eapply acct_perm; [|exact H2]. by rewrite (res_perm _ _ E).
  - intros i Hi. destruct (H5 i Hi); [by left|right; by eapply conns_perm].
  - intros fd p Hp. destruct (H6 fd p Hp); [left; by eapply mids_perm|by right].
  - rewrite <- (omap_Permutation _ _ _ (fmap_Permutation fst _ _ E)). exact H7.
  - unfold workers. rewrite <- (filter_Permutation _ _ _ (fmap_Permutation fst _ _ E)). exact H8.
  - by rewrite <- E.
  - by rewrite <- E.
  - intros Hin. apply H11. by rewrite E.
  - intros Hr. destruct (H12 Hr); [by left|right; by apply Es].
  - intros Hr. destruct (H13 Hr); [by left|right; by apply Es].
  - by rewrite <- E.
  - by rewrite <- E.
Qed.

(** ** One token and the others *)
Section Step.
Context (k : ThreadKind) (d d' : Token) (ds : Tokens) (s s' : HixlCSServer) (h h' : History NetOp).
Hypothesis HI : Inv ((k, d) :: ds) s h.

Lemma other_role k' : k' ∈ ds.*1 -> role k' = role k -> role k = None.
Proof using HI.
  intros Hin E. destruct (role k) as [r|] eqn:Er; [|done]. pose proof (i_roles _ _ _ HI) as Hn.
  cbn [fmap list_fmap fst omap list_omap] in Hn. rewrite Er in Hn. inversion Hn as [|? ? Hni _]; subst.
  exfalso. apply Hni. apply list_elem_of_omap. by exists k'.
Qed.

Lemma other_listener : TListener ∈ ds.*1 -> listener_ (sv_listener s) = Running.
Proof using HI. intros H. apply (i_listener _ _ _ HI). by right. Qed.

Lemma worker_pool t : TWorker t ∈ k :: ds.*1 -> exists p, pool_of s = Some p /\ (0 < active p)%nat.
Proof using HI.
  intros H. pose proof (i_workers _ _ _ HI) as Hw. unfold workers, running_tasks in Hw.
  assert (Hl : TWorker t ∈ filter (fun k => is_worker k = true) ((k, d) :: ds).*1) by (by apply list_elem_of_filter).
  destruct (pool_of s) as [p|]; cbn [from_option] in Hw.
  - exists p. split; [done|]. destruct (filter _ _); [by apply elem_of_nil in Hl|cbn in Hw; lia].
  - apply length_zero_iff_nil in Hw. rewrite Hw in Hl. by apply elem_of_nil in Hl.
Qed.

(** The thread may run its next block. *)
Definition busy : Prop :=
  match k with THandler => mh_listener_ (msg_handler_ s) = Running | TReturn => False | _ => True end.
(** It may, and have [res] in its hands afterwards. *)
Definition may_hold (res : list HcRes) : Prop :=
  match k with THandler => mh_listener_ (msg_handler_ s) = Running /\ res = t_res d | TReturn => False | _ => True end.
Lemma may_hold_busy res : may_hold res -> busy.
Proof using. clear HI. unfold may_hold, busy. destruct k; try done. by intros [? _]. Qed.
Lemma own_hands : hands_free k d.
Proof using HI. pose proof (i_hands _ _ _ HI) as Hh. by inversion Hh. Qed.

Lemma busy_not_quiet : busy -> role k <> Some RApi -> ~ quiet s.
Proof using HI.
  intros Hb Hr (Q1 & Q2 & Q3). pose proof worker_pool as Hw. pose proof (i_listener _ _ _ HI) as Hl. unfold busy in Hb.
  destruct k as [c| | | |t]; try done.
  - assert (listener_ (sv_listener s) = Running) by (apply Hl; by left). congruence.
  - destruct (Hw t) as (p & E & _); [by left|congruence].
Qed.

Lemma seen : rely k (t_seen d) s.
Proof using HI. pose proof (i_seen _ _ _ HI) as Hs. by inversion Hs. Qed.

(** What the threads do not control. *)
Definition control (s : HixlCSServer) :=
  (listener_running_ (sv_listener s), listener_ (sv_listener s), running_ (msg_handler_ s),
   mh_listener_ (msg_handler_ s), active <$> pool_of s).

Lemma calm_others : busy -> calm s s' -> forall k', k' ∈ ds.*1 -> rely k' s s'.
Proof using HI.
  intros Hb Hc k' Hin. pose proof (calm_weak k' _ _ Hc) as Hw.
  destruct k' as [c| | | |t]; [|exact Hw..]. split; [exact Hw|]. intros Hq. exfalso.
  destruct (decide (role k = Some RApi)) as [Er|Er]; [|by eapply busy_not_quiet].
  assert (role k = None) by (eapply other_role; [exact Hin|by rewrite Er]). congruence.
Qed.

Hypothesis (Hstore : store_wf (endpoint_store_ s')) (Hacct : acct (srv_owned s' ++ t_res d' ++ res_of ds) h').
Hypothesis (Howned : CtrlConnSafety.owned (connections s') h') (Hvalid : valid s').
Hypothesis Hopen : forall i, 0 <= fd_of s' i -> i ∈ refs s' \/ i ∈ t_conns d' \/ i ∈ conns_of ds.
Hypothesis Hpending : forall fd p, (fd, p) ∈ pending_of s' ->
  ph_connection p ∈ t_mid d' \/ ph_connection p ∈ mids_of ds \/ filed s' fd (ph_connection p).
Hypothesis Hseen : rely k (t_seen d') s'.
Hypothesis Hothers : forall k', k' ∈ ds.*1 -> rely k' s s'.

Lemma inv_step :
  running_tasks s' = running_tasks s ->
  t_mid d' = [] \/ k = TListener \/ (role k = Some RApi /\ listener_ (sv_listener s') = NoThread) ->
  (listener_ (sv_listener s) = NoThread -> listener_ (sv_listener s') = NoThread \/ role k = Some RApi) ->
  (listener_ (sv_listener s) = Running -> listener_ (sv_listener s') = Running) ->
  (listener_running_ (sv_listener s') = false ->
     listener_ (sv_listener s') = NoThread \/ t_stopping d' = true \/ stopping ds) ->
  (running_ (msg_handler_ s') = false ->
     (pool_of s' = None /\ mh_listener_ (msg_handler_ s') = NoThread) \/ t_stopping d' = true \/ stopping ds) ->
  (t_stopping d' = true -> role k = Some RApi) -> hands_free k d' ->
  Inv ((k, d') :: ds) s' h'.
Proof using All.
  intros Hw Hm Hno Hrun Hst Hmh Hown Hhf. pose proof HI as [H1 H2 H3 H4 H5 H6 H7 H8 H9 H10 H11 H12 H13 H14 H15].
  apply Forall_cons in H9 as [_ H9]. apply Forall_cons in H10 as [_ H10]. apply Forall_cons in H14 as [_ H14].
  apply Forall_cons in H15 as [_ H15].
  constructor; try done.
  - intros i Hi. destruct (Hopen i Hi) as [?|Hc]; [by left|right]. unfold conns_of. cbn [fmap list_fmap mjoin list_join snd].
    by apply elem_of_app.
  - intros fd p Hp. unfold mids_of. cbn [fmap list_fmap mjoin list_join snd]. rewrite elem_of_app.
    destruct (Hpending fd p Hp) as [?|[?|?]]; tauto.
  - etrans; [exact H8|done].
  - constructor; [exact Hseen|]. rewrite Forall_forall in H9 |- *. intros [k' e] Hin.
    eapply rely_trans; [by apply H9|]. apply Hothers. apply list_elem_of_fmap. by exists (k', e).
  - constructor; [exact Hm|]. rewrite Forall_forall in H10 |- *. intros [k' e] Hin.
    destruct (H10 _ Hin) as [?|[?|[Hr Hl]]]; [by left|by right; left|]. right; right. split; [done|].
    destruct (Hno Hl) as [?|Hk]; [done|]. cbn [fst] in Hr.
    assert (role k = None); [|congruence]. apply (other_role k'); [|congruence].
    apply list_elem_of_fmap. by exists (k', e).
  - intros Hin. by apply Hrun, H11.
  - intros Hr. destruct (Hst Hr) as [?|?]; [by left|right; by apply Exists_cons].
  - intros Hr. destruct (Hmh Hr) as [?|?]; [by left|right; by apply Exists_cons].
  - by constructor.
  - by constructor.
Qed.

(** A step that leaves the control of the threads alone. *)
Lemma inv_same :
  control s' = control s -> t_stopping d' = t_stopping d -> hands_free k d' ->
  t_mid d' = [] \/ k = TListener \/ (role k = Some RApi /\ listener_ (sv_listener s') = NoThread) ->
  Inv ((k, d') :: ds) s' h'.
Proof using All.
  intros E Et Hhf Hm. unfold control in E. injection E as E1 E2 E3 E4 E5.
  pose proof HI as [H1 H2 H3 H4 H5 H6 H7 H8 H9 H10 H11 H12 H13 H14 H15].
  assert (Hs : stopping ((k, d) :: ds) -> t_stopping d' = true \/ stopping ds).
  { rewrite Et. unfold stopping. by rewrite Exists_cons. }
  rewrite E2 in Hm. apply inv_step; rewrite ?E1, ?E2, ?E3, ?E4; try done.
  - unfold running_tasks. destruct (pool_of s'), (pool_of s); try done. by injection E5.
  - intros Hn; by left.
  - intros Hr. destruct (H12 Hr); [by left|right; by apply Hs].
  - intros Hr. destruct (H13 Hr) as [[Hp ?]|?]; [left|right; by apply Hs]. split; [|done].
    rewrite Hp in E5. by destruct (pool_of s').
  - rewrite Et. intros Ht. by apply Forall_cons in H14 as [H14 _]; apply H14.
Qed.
End Step.
End Invariant.
