(* ===== verification/CsServerRules.v ===== *)
(** The blocks that no other thread notices: system calls, calls on a connection that
    keep its descriptor, calls on endpoints, changes of private tables. *)

From S2P Require Import Prelude StdMap Effects External Runtime Wire Hcomm Net CtrlConn CtrlConnSpec CtrlConnSafety MsgReceiver MsgReceiverSafety HostRegister Endpoint HcResources EndpointSafety ServerCalls Conc MsgHandler CsServer CsServerInv.

Section Calm.
Context {codes : AclCodes} {again : HcclAgain} {cfg : ServerConfig}.
Implicit Types (s : HixlCSServer) (h : History NetOp) (ds : Tokens) (d : Token).

Lemma calm_published s s' i : calm s s' -> published s' i <-> published s i.
Proof. intros H. unfold published. by rewrite (c_receivers _ _ H). Qed.
Lemma calm_pool s s' : calm s s' -> pool_of s = None <-> pool_of s' = None.
Proof. intros H. rewrite <- !(fmap_None active). by rewrite (c_pool _ _ H). Qed.

(** The tables of clients. *)
Definition clients_valid s : Prop :=
  (forall fd r, (fd, r) ∈ clients_ (sv_clients s) -> (r < length (receivers s))%nat) /\
  (forall i, i ∈ disconnected_clients_ (sv_clients s) -> published s i) /\
  std_map_wf (clients_ (sv_clients s)).
Lemma valid_clients s : valid s -> clients_valid s.
Proof. by intros []. Qed.
Lemma valid_clients_same s s' :
  valid s -> sv_clients s' = sv_clients s -> receiver_conns s' = receiver_conns s -> clients_valid s'.
Proof.
  intros V Ec Er. destruct (valid_clients _ V) as (C1 & C2 & C3). unfold clients_valid, published.
  rewrite Ec, Er. split_and!; [|done|done]. intros fd r Hin. specialize (C1 _ _ Hin).
  assert (El : length (receiver_conns s') = length (receiver_conns s)) by (by rewrite Er).
  unfold receiver_conns in El. rewrite !length_fmap in El. by rewrite El.
Qed.
Lemma shelf_published s i : clients_valid s -> i ∈ connections_to_close s -> published s i.
Proof.
  intros (_ & C2 & _). unfold connections_to_close. rewrite elem_of_app, elem_of_elements.
  intros [(r & _ & Hr)%list_elem_of_omap|Hi]; [|by apply C2].
  rewrite conn_of_receiver in Hr. unfold published. by eapply list_elem_of_lookup_2.
Qed.

Lemma calm_unset s s' : calm s s' -> unset s -> unset s'.
Proof.
  intros H [U1 U2 U3 U4 U5 U6 U7 U8 U9]. destruct (c_flags _ _ H) as [F1 F2].
  constructor; rewrite ?(c_listener _ _ H), ?(c_mh _ _ H), ?(c_running _ _ H), ?F1, ?F2; try done.
  by apply (calm_pool _ _ H).
Qed.

Lemma calm_valid s s' :
  valid s -> calm s s' -> Forall (fun r => recv_ok (rc_receiver r)) (receivers s') -> clients_valid s' ->
  (forall q, q ∈ req_queue_ (msg_handler_ s') -> published s (rq_conn q)) ->
  (forall p t, pool_of s' = Some p -> t ∈ tasks_ p -> published s (rq_conn (tk_req t))) -> valid s'.
Proof.
  intros [V1 V2 V3 V4 V5 V6 V7 V8 V9 V10 V11 V12 V13 V14 V15] H Hr Hcl Hq Ht. pose proof Hcl as (C1 & C2 & C3).
  assert (Ep : pending_of s' = pending_of s) by (unfold pending_of; by rewrite (c_listener _ _ H)).
  assert (Epc : pending_conns s' = pending_conns s) by (unfold pending_conns; by rewrite Ep).
  constructor; rewrite ?Ep, ?Epc, ?(c_listener _ _ H), ?(c_receivers _ _ H), ?(c_conns _ _ H),
    ?(c_processors _ _ H), ?(c_mh _ _ H); try done.
  - unfold refs. rewrite Epc, (c_listener _ _ H). intros i Hi. apply V2.
    assert (Hp : i ∈ option_list (listener_connection_ (sv_listener s)) ++ pending_conns s \/ published s i); [|].
    { rewrite !elem_of_app in Hi. rewrite elem_of_app.
      destruct Hi as [[?|[?|Hi]]|?]; [by left; left|left; by right| |by right]. right.
      apply (calm_published _ _ _ H). by apply shelf_published. }
    clear -Hp. unfold refs, published in *. rewrite !elem_of_app in Hp. rewrite !elem_of_app. destruct Hp as [[?|?]|?]; [by left; left|left; right; by left|by right].
  - intros q Hin. by apply (calm_published _ _ _ H), Hq.
  - intros p t E Hin. by eapply (calm_published _ _ _ H), Ht.
  - intros i E. destruct (V10 i E) as [? Hp]. split; [done|]. by rewrite (calm_published _ _ _ H).
  - intros E. by eapply calm_unset, V12.
  - intros E. apply V14 in E as [p E]. destruct (pool_of s') eqn:E'; [by eexists|].
    apply (calm_pool _ _ H) in E'. congruence.
Qed.

Lemma inv_calm k d ds s s' h h' res :
  Inv ((k, d) :: ds) s h -> may_hold k d s res -> calm s s' -> store_wf (endpoint_store_ s') ->
  acct (srv_owned s' ++ res ++ res_of ds) h' -> CtrlConnSafety.owned (connections s') h' ->
  Forall (fun r => recv_ok (rc_receiver r)) (receivers s') -> clients_valid s' ->
  (forall q, q ∈ req_queue_ (msg_handler_ s') -> published s (rq_conn q)) ->
  (forall p t, pool_of s' = Some p -> t ∈ tasks_ p -> published s (rq_conn (tk_req t))) ->
  Inv ((k, with_res res (see s' d)) :: ds) s' h'.
Proof.
  intros HI Hb Hc Hst Ha Ho Hr Hcl Hq Ht. pose proof (may_hold_busy _ _ _ _ Hb) as Hbusy. pose proof (own_hands _ _ _ _ _ HI) as Hh.
  assert (Ep : pending_of s' = pending_of s) by (unfold pending_of; by rewrite (c_listener _ _ Hc)).
  eapply inv_same; [exact HI|exact Hst|exact Ha|exact Ho|..].
  - eapply calm_valid; [apply (i_valid _ _ _ HI)|done..].
  - intros i Hi. assert (Hi0 : 0 <= fd_of s i) by (destruct (c_fd _ _ Hc i) as [<-|[_ ?]]; [done|lia]).
    destruct (i_open _ _ _ HI i Hi0) as [Hin|Hin]; [|right; by apply elem_of_app].
    unfold refs, pending_conns in *. rewrite Ep, (c_listener _ _ Hc). rewrite !elem_of_app in Hin |- *.
    destruct Hin as [?|[?|Hin]]; [by left; left|left; right; by left|].
    destruct (c_shelf _ _ Hc i Hin) as [?|?]; [lia|left; right; by right].
  - intros fd p Hp. rewrite Ep in Hp. destruct (i_pending _ _ _ HI _ _ Hp) as [Hin|[F1 F2]].
    + apply elem_of_app in Hin as [?|?]; [by left|by right; left].
    + right; right. split; [|by rewrite (calm_published _ _ _ Hc)].
      destruct (c_fd _ _ Hc (ph_connection p)) as [->|[? _]]; done.
  - apply rely_refl.
  - by eapply calm_others.
  - unfold control. by rewrite (c_listener _ _ Hc), (c_running _ _ Hc), (c_mh _ _ Hc), (c_pool _ _ Hc).
  - done.
  - destruct k; try done. destruct Hb as [_ ->]. exact Hh.
  - rewrite (c_listener _ _ Hc). pose proof (i_mid _ _ _ HI) as Hm. apply Forall_cons in Hm as [Hm _]. exact Hm.
Qed.

(** The state as it is. *)
Lemma inv_still k d ds s h h' res :
  Inv ((k, d) :: ds) s h -> acct (srv_owned s ++ res ++ res_of ds) h' -> CtrlConnSafety.owned (connections s) h' ->
  may_hold k d s res -> Inv ((k, with_res res (see s d)) :: ds) s h'.
Proof.
  intros HI Ha Ho Hb. pose proof (i_valid _ _ _ HI) as V.
  eapply inv_calm; [done|done|apply calm_refl|apply (i_store _ _ _ HI)|done|done|apply V|by apply valid_clients|apply V|apply V].
Qed.
End Calm.

(** * Blocks *)

Section Blocks.
Context {codes : AclCodes} {again : HcclAgain} {clib : CLibrary} {cfg : ServerConfig}.
Context {env : Environment NetOp} {Hnet : NetLaws env} {Hhc : HcLaws env}.
Variable k : ThreadKind.
Implicit Types (s : HixlCSServer) (h : History NetOp) (ds : Tokens) (d : Token).

(** What a thread knows right after a block: it has just seen the state. *)
Definition Now d : Prop := exists ds h, Inv ((k, d) :: ds) (t_seen d) h.
Definition after d s' : Prop := weak k (t_seen d) s' /\ Now (see s' d).

(** The threads that always go on. *)
Definition goes_on : Prop := match k with THandler | TReturn => False | _ => True end.
Lemma goes_on_may d s res : goes_on -> may_hold k d s res.
Proof. unfold goes_on, may_hold. by destruct k. Qed.

Lemma weak_grows s s' : goes_on -> weak k s s' -> grows s s'.
Proof.
  intros Hg Hr. unfold goes_on in Hg. destruct k; try done; [apply (ok_grows _ _ Hr)|apply (lr_grows _ _ Hr)].
Qed.

Lemma after_trans d s1 s2 : after d s1 -> after (see s1 d) s2 -> after d s2.
Proof. intros [H1 _] [H2 N]. split; [by eapply weak_trans|exact N]. Qed.
Lemma after_conn d s i : goes_on -> after d s -> (i < length (connections (t_seen d)))%nat -> (i < length (connections s))%nat.
Proof. intros Hg [H _] Hi. pose proof (g_conns _ _ (weak_grows _ _ Hg H)). lia. Qed.
Lemma after_published d s i : goes_on -> after d s -> published (t_seen d) i -> published s i.
Proof. intros Hg [H _]. apply published_grows. by eapply weak_grows. Qed.
Lemma after_endpoint d s hd : goes_on -> after d s -> is_Some (endpoint_at (t_seen d) hd) -> is_Some (endpoint_at s hd).
Proof. intros Hg [H _] [e E]. apply (g_store _ _ (weak_grows _ _ Hg H)) in E as (e' & E & _). by exists e'. Qed.
Lemma after_now d s : after d s -> exists ds h, Inv ((k, see s d) :: ds) s h.
Proof. by intros [_ H]. Qed.
Lemma after_valid d s : after d s -> valid s.
Proof. intros (ds & h & H)%after_now. apply (i_valid _ _ _ H). Qed.

Lemma see_own d s : with_res (t_res d) (see s d) = see s d.
Proof. by destruct d. Qed.

Lemma inv_seen d ds s h : Inv ((k, d) :: ds) s h -> weak k (t_seen d) s.
Proof. intros H. apply rely_weak. by eapply seen. Qed.

Lemma inv_acct d ds s h : Inv ((k, d) :: ds) s h -> acct (srv_owned s ++ t_res d ++ res_of ds) h.
Proof. intros H. apply (i_acct _ _ _ H). Qed.

(** ** The state as it is *)
Lemma pwp_still {A} (m : M NetOp HixlCSServer A) (P : Status + A -> HixlCSServer -> Prop) d (Q : Status + A -> Token -> Prop) :
  goes_on ->
  (forall ds s h, Inv ((k, d) :: ds) s h ->
     wp m (fun o s' h' => s' = s /\ P o s /\ acct (srv_owned s ++ t_res d ++ res_of ds) h' /\
                          CtrlConnSafety.owned (connections s) h') s h) ->
  (forall o s', after d s' -> P o s' -> Q o (see s' d)) -> pwp Inv k (atomic m) d Q.
Proof.
  intros Hg Hm HQ. apply pwp_atomic. intros ds s h HI. eapply wp_mono; [by eapply Hm|].
  intros o s' h' (-> & HP & Ha & Ho). exists (see s d).
  assert (HI' : Inv ((k, see s d) :: ds) s h').
  { rewrite <- (see_own d s). eapply inv_still; [exact HI|done|done|by apply goes_on_may]. }
  split; [done|]. apply HQ; [|done]. split; [by eapply inv_seen|]. by exists ds, h'.
Qed.

Lemma pwp_quiet {A} (m : M NetOp HixlCSServer A) (P : Status + A -> HixlCSServer -> Prop) d (Q : Status + A -> Token -> Prop) :
  goes_on -> emits (fun e => neutral e /\ silent e) m ->
  (forall s h, wp m (fun o s' _ => s' = s /\ P o s) s h) ->
  (forall o s', after d s' -> P o s' -> Q o (see s' d)) -> pwp Inv k (atomic m) d Q.
Proof.
  intros Hg He Hm HQ. apply (pwp_still m P); [done| |done]. intros ds s h HI.
  eapply wp_mono; [by apply wp_emits|]. intros o s' h' ((-> & HP) & t & -> & Ht). split_and!; [done|done| |].
  - apply acct_quiet; [|by apply inv_acct]. eapply Forall_impl; [exact Ht|]. by intros e [? _].
  - apply owned_silent; [|apply (i_owned _ _ _ HI)]. eapply Forall_impl; [exact Ht|]. by intros e [_ ?].
Qed.

Lemma pwp_read {A} (f : HixlCSServer -> A) d (Q : Status + A -> Token -> Prop) :
  goes_on -> (forall s', after d s' -> Q (inr (f s')) (see s' d)) -> pwp Inv k (CsServer.read f) d Q.
Proof.
  intros Hg HQ. apply (pwp_quiet _ (fun o s => o = inr (f s))); [done| | |].
  - solve_emits.
  - intros s h. by apply wp_bind, wp_get, wp_ret.
  - intros o s' Ha ->. by apply HQ.
Qed.

Lemma pwp_sys {T} (op : NetOp T) d (Q : Status + T -> Token -> Prop) :
  goes_on -> (forall r, neutral (Ev op r) /\ silent (Ev op r)) ->
  (forall r s', after d s' -> Q (inr r) (see s' d)) -> pwp Inv k (sys op) d Q.
Proof.
  intros Hg He HQ. apply (pwp_quiet _ (fun o _ => exists r, o = inr r)); [done|by apply emits_call| |].
  - intros s h. apply wp_call. intros r _. split; [done|by exists r].
  - intros o s' Ha [r ->]. by apply HQ.
Qed.

(** A call on something that the server owns. *)
Lemma pwp_use {T} (op : NetOp T) d (Q : Status + T -> Token -> Prop) :
  goes_on -> (forall r, obtains (Ev op r) = None /\ releases (Ev op r) = None /\ silent (Ev op r)) ->
  (forall s r, weak k (t_seen d) s -> needs_own (Ev op r) (srv_owned s ++ t_res d)) ->
  (forall r s', after d s' -> Q (inr r) (see s' d)) -> pwp Inv k (sys op) d Q.
Proof.
  intros Hg He Hn HQ. apply (pwp_still _ (fun o _ => exists r, o = inr r)); [done| |by intros o s' Ha [r ->]; apply HQ].
  intros ds s h HI. apply wp_call. intros r _. destruct (He r) as (E1 & E2 & E3). split_and!; [done|by exists r| |].
  - apply acct_neutral; [by apply inv_acct| |done|done]. specialize (Hn s r (inv_seen _ _ _ _ HI)).
    unfold needs_own in *. destruct (hc_needs _); [|done]. destruct Hn as [Hn ?]. split; [|done].
    rewrite app_assoc. apply elem_of_app. by left.
  - apply (owned_silent _ [_]); [by apply Forall_singleton|apply (i_owned _ _ _ HI)].
Qed.

Lemma epoll_owned_in s fd : 0 <= fd -> epoll_fd_ (sv_listener s) = fd -> REpoll fd ∈ srv_owned s.
Proof.
  intros Hp E. unfold srv_owned, flags_owned, epoll_owned. rewrite E, (proj2 (Z.leb_le _ _)) by done.
  rewrite !elem_of_app. right; right; right. by left.
Qed.

(** ** Private tables *)
Lemma pwp_table {A} (m : M NetOp HixlCSServer A) (P : Status + A -> HixlCSServer -> Prop) d (Q : Status + A -> Token -> Prop) :
  goes_on -> emits (fun e => neutral e /\ silent e) m ->
  (forall ds s h, Inv ((k, d) :: ds) s h -> wp m (fun o s' _ => P o s' /\ calm s s' /\
     endpoint_store_ s' = endpoint_store_ s /\ connections s' = connections s /\ receivers s' = receivers s /\
     clients_valid s' /\ (forall q, q ∈ req_queue_ (msg_handler_ s') -> published s (rq_conn q)) /\
     pool_of s' = pool_of s) s h) ->
  (forall o s', after d s' -> P o s' -> Q o (see s' d)) -> pwp Inv k (atomic m) d Q.
Proof.
  intros Hg He Hm HQ. apply pwp_atomic. intros ds s h HI. eapply wp_mono; [apply wp_emits; [exact He|by eapply Hm]|].
  intros o s' h' ((HP & Hc & E1 & E2 & E3 & Hcl & Hq & E4) & t & -> & Ht). exists (see s' d).
  pose proof (i_valid _ _ _ HI) as V.
  assert (HI' : Inv ((k, see s' d) :: ds) s' (t ++ h)).
  { rewrite <- (see_own d s'). eapply inv_calm; [exact HI|by apply goes_on_may|done|..].
    - rewrite E1. apply (i_store _ _ _ HI).
    - assert (Es : srv_owned s' = srv_owned s).
      { unfold srv_owned, flags_owned. destruct (c_flags _ _ Hc) as [F1 F2]. by rewrite E1, F1, F2, (c_listener _ _ Hc). }
      rewrite Es. apply acct_quiet; [|by apply inv_acct]. eapply Forall_impl; [exact Ht|]. by intros e [? _].
    - rewrite E2. apply owned_silent; [|apply (i_owned _ _ _ HI)]. eapply Forall_impl; [exact Ht|]. by intros e [_ ?].
    - rewrite E3. apply V.
    - exact Hcl.
    - exact Hq.
    - rewrite E4. apply V. }
  split; [done|]. apply HQ; [|done]. split; [|by exists ds, (t ++ h)].
  eapply weak_trans; [by eapply inv_seen|by apply calm_weak].
Qed.
(** ** Calls on a connection *)
Definition put_conn (i : nat) (c : Conn) (s : HixlCSServer) : HixlCSServer := set_connections (<[i := c]> (connections s)) s.

Lemma wp_on_conn {A} i c (m : M NetOp Conn A) (P : Status + A -> Conn -> Prop) own (Q : Status + A -> HixlCSServer -> History NetOp -> Prop) s h :
  connections s !! i = Some c -> CtrlConnSafety.owned (connections s) h -> acct own h -> emits neutral m ->
  (forall F S, holds c h F S -> wp m (fun o c' h' => holds c' h' F S /\ P o c') c h) ->
  (forall o c' h', P o c' -> CtrlConnSafety.owned (<[i := c']> (connections s)) h' -> acct own h' -> Q o (put_conn i c' s) h') ->
  wp (on_conn i m) Q s h.
Proof.
  intros Hi Ho Ha He Hm HQ. eapply wp_zoom; [exact Hi|].
  assert (Hc : apart (delete i (connections s)) /\ holds c h (fd_set (delete i (connections s))) (ssl_set (delete i (connections s)))).
  { apply owned_cons. by rewrite <- (delete_Permutation (connections s) i c Hi). }
  destruct Hc as [Hap Hh]. eapply wp_mono; [apply wp_emits; [exact He|by apply Hm]|].
  intros o c' h' ((Hh' & HP) & t & -> & Ht). apply HQ; [done| |by apply acct_quiet].
  rewrite (insert_Permutation_delete _ _ _ c' Hi). by apply owned_cons.
Qed.

Lemma fd_of_put i c s j : (i < length (connections s))%nat ->
  fd_of (put_conn i c s) j = if decide (j = i) then fd_ c else fd_of s j.
Proof.
  intros Hi. unfold fd_of. cbn [connections put_conn set_connections]. case_decide as E.
  - subst j. by rewrite list_lookup_insert_eq.
  - by rewrite list_lookup_insert_ne.
Qed.
Lemma fd_of_at i c s : connections s !! i = Some c -> fd_of s i = fd_ c.
Proof. intros H. unfold fd_of. by rewrite H. Qed.

Lemma calm_put i c c' s :
  connections s !! i = Some c -> fd_ c' = fd_ c \/ (published s i /\ fd_ c' = -1) -> calm s (put_conn i c' s).
Proof.
  intros Hi E. assert (Hl := lookup_lt_Some _ _ _ Hi). constructor; try done.
  - cbn. by rewrite length_insert.
  - intros j. rewrite fd_of_put by done. case_decide as Ej; [|by left]. subst j. rewrite (fd_of_at _ _ _ Hi).
    destruct E as [->|E]; [by left|by right].
  - by right.
  - intros hd. change (endpoint_at (put_conn i c' s) hd) with (endpoint_at s hd). destruct (endpoint_at s hd); [apply same_refl|done].
Qed.

Lemma seen_conn d ds s h i : Inv ((k, d) :: ds) s h -> goes_on -> (i < length (connections (t_seen d)))%nat ->
  exists c, connections s !! i = Some c.
Proof.
  intros HI Hg Hi. pose proof (seen _ _ _ _ _ HI) as Hr.
  pose proof (weak_grows _ _ Hg (rely_weak _ _ _ Hr)) as Hgr.
  apply lookup_lt_is_Some_2. pose proof (g_conns _ _ Hgr). lia.
Qed.

(** The descriptor stays, or a published connection is closed. *)
Lemma pwp_conn_call {A} i (m : M NetOp Conn A) (P : Status + A -> Conn -> Prop) d (Q : Status + A -> Token -> Prop) :
  goes_on -> (i < length (connections (t_seen d)))%nat -> emits neutral m ->
  (forall c h F S, holds c h F S -> wp m (fun o c' h' => holds c' h' F S /\
     (fd_ c' = fd_ c \/ (published (t_seen d) i /\ fd_ c' = -1)) /\ P o c') c h) ->
  (forall o c s', after d s' -> connections s' !! i = Some c -> P o c -> Q o (see s' d)) ->
  pwp Inv k (conn_call i m) d Q.
Proof.
  intros Hg Hi He Hm HQ. apply pwp_atomic. intros ds s h HI. destruct (seen_conn _ _ _ _ _ HI Hg Hi) as [c Hc].
  assert (Hpub : published (t_seen d) i -> published s i).
  { intros Hp. eapply published_grows; [|exact Hp]. eapply weak_grows; [done|by eapply inv_seen]. }
  eapply (wp_on_conn i c m (fun o c' => (fd_ c' = fd_ c \/ (published (t_seen d) i /\ fd_ c' = -1)) /\ P o c')).
  - exact Hc.
  - apply (i_owned _ _ _ HI).
  - by eapply inv_acct.
  - exact He.
  - intros F S Hh. by apply Hm.
  - intros o c' h' [Ef HP] Ho Ha. exists (see (put_conn i c' s) d).
    assert (Hcalm : calm s (put_conn i c' s)).
    { apply (calm_put i c); [done|]. destruct Ef as [?|[? ?]]; [by left|right; auto]. }
    pose proof (i_valid _ _ _ HI) as V.
    assert (HI' : Inv ((k, see (put_conn i c' s) d) :: ds) (put_conn i c' s) h').
    { rewrite <- (see_own d (put_conn i c' s)). eapply inv_calm; [exact HI|by apply goes_on_may|done|apply (i_store _ _ _ HI)|exact Ha|exact Ho|apply V|by apply (valid_clients_same s)|apply V..]. }
    assert (Hw : weak k (t_seen d) (put_conn i c' s)) by (eapply weak_trans; [by eapply inv_seen|by apply calm_weak]).
    split; [done|]. apply (HQ o c'); [split; [done|by exists ds, h']| |done].
    cbn. apply list_lookup_insert_eq. by eapply lookup_lt_Some.
Qed.

(** ** Calls on an endpoint *)
Lemma seen_endpoint d ds s h hd e : Inv ((k, d) :: ds) s h -> goes_on -> endpoint_at (t_seen d) hd = Some e ->
  exists e', endpoint_at s hd = Some e' /\ same e e'.
Proof.
  intros HI Hg He. pose proof (seen _ _ _ _ _ HI) as Hr.
  pose proof (weak_grows _ _ Hg (rely_weak _ _ _ Hr)) as Hgr.
  by apply (g_store _ _ Hgr).
Qed.

Lemma calm_store s st : 
  (forall hd, match endpoint_at s hd, GetEndpoint hd st with Some e, Some e' => same e e' | None, None => True | _, _ => False end) ->
  calm s (set_store st s).
Proof. intros H. constructor; try done; [by left|by right]. Qed.

Lemma srv_sinv s own h : store_wf (endpoint_store_ s) -> acct (srv_owned s ++ own) h ->
  sinv (flags_owned s ++ own) (endpoint_store_ s) h.
Proof. intros H Ha. split; [done|]. unfold srv_owned in Ha. by rewrite <- app_assoc in Ha. Qed.

Definition put_endpoint (hd : Z) (t : EpState) (st : EndpointStore) : EndpointStore :=
  {| endpoints_ := std_set hd (es_ep t) (endpoints_ st); st_px := es_px t |}.

Lemma calm_put_endpoint s hd e t :
  store_wf (endpoint_store_ s) -> endpoint_at s hd = Some e -> same e (es_ep t) ->
  calm s (set_store (put_endpoint hd t (endpoint_store_ s)) s).
Proof.
  intros [W _] He Hs. apply calm_store. intros hd'. unfold endpoint_at, GetEndpoint in *. cbn [endpoints_ put_endpoint].
  rewrite std_find_set by done. case_decide as E; [subst hd'; by rewrite He|].
  destruct (std_find hd' _); [apply same_refl|done].
Qed.

Lemma store_wf_put st hd e t :
  store_wf st -> std_find hd (endpoints_ st) = Some e -> same e (es_ep t) -> ep_wf (es_ep t) ->
  store_wf (put_endpoint hd t st).
Proof.
  intros [W1 W2] He [Es _] Hwf. apply std_find_elem in He; [|done]. destruct (W2 _ _ He) as (Eh & Hn & _).
  constructor; [by apply std_set_wf|]. intros k' e' [[-> ->]|[_ Hin]]%std_set_elem; [|by apply W2|done].
  split_and!; [by rewrite Es|done|done].
Qed.

(** [post] is what the thread holds after the call. *)
Lemma pwp_ep_call {A} hd e (m : M NetOp EpState A) (post : Status + A -> list HcRes) (P : Status + A -> Prop) d (Q : Status + A -> Token -> Prop) :
  goes_on -> endpoint_at (t_seen d) hd = Some e -> emits silent m ->
  (forall O t h, ep_wf (es_ep t) -> acct (EndpointSafety.owned (es_ep t) ++ t_res d ++ O) h -> same e (es_ep t) ->
     wp m (fun o t' h' => ep_wf (es_ep t') /\ acct (EndpointSafety.owned (es_ep t') ++ post o ++ O) h' /\
                          same (es_ep t) (es_ep t') /\ P o) t h) ->
  (forall o s', P o -> weak k (t_seen d) s' -> Now (with_res (post o) (see s' d)) -> Q o (with_res (post o) (see s' d))) ->
  pwp Inv k (ep_call hd m) d Q.
Proof.
  intros Hg He Hem Hm HQ. apply pwp_atomic. intros ds s h HI.
  destruct (seen_endpoint _ _ _ _ _ _ HI Hg He) as (e1 & He1 & Hs1).
  pose proof (i_store _ _ _ HI) as Hst. pose proof Hst as [W1 W2]. pose proof (i_valid _ _ _ HI) as V.
  set (rest := store_owned (std_erase hd (endpoints_ (endpoint_store_ s))) ++ flags_owned s ++ res_of ds).
  assert (Hrun : wp (on_endpoint hd m) (fun o st h' => exists t', st = put_endpoint hd t' (endpoint_store_ s) /\
            ep_wf (es_ep t') /\ acct (EndpointSafety.owned (es_ep t') ++ post o ++ rest) h' /\ same e1 (es_ep t') /\ P o)
            (endpoint_store_ s) h).
  { eapply wp_zoom; [unfold endpoint_at, GetEndpoint in He1; by rewrite He1|].
    eapply wp_mono; [apply (Hm rest {| es_ep := e1; es_px := st_px (endpoint_store_ s) |})|].
    - apply (W2 hd e1). by apply std_find_elem.
    - eapply acct_perm; [|eapply inv_acct; exact HI]. unfold srv_owned. cbn [es_ep].
      rewrite (store_erase _ _ _ W1 He1). unfold rest. solve_Permutation.
    - done.
    - intros o t' h' (A1 & A2 & A3 & A4). by exists t'. }
  eapply wp_zoom; [done|]. eapply wp_mono; [apply wp_emits; [unfold on_endpoint; apply emits_zoom; by intros _|exact Hrun]|].
  intros o st h' ((t' & -> & Hwf & Ha & Hsame & HP) & t & -> & Ht). set (s' := set_store _ s).
  exists (with_res (post o) (see s' d)).
  assert (Hcalm : calm s s') by (eapply calm_put_endpoint; [done|exact He1|exact Hsame]).
  assert (HI' : Inv ((k, with_res (post o) (see s' d)) :: ds) s' (t ++ h)).
  { eapply inv_calm; [exact HI|by apply goes_on_may|done| | | |apply V|by apply (valid_clients_same s)|apply V..].
    - by apply store_wf_put with e1.
    - eapply acct_perm; [|exact Ha]. unfold srv_owned. cbn [s' endpoint_store_ set_store endpoints_ put_endpoint].
      rewrite (store_set _ _ _ W1). unfold rest. change (flags_owned s') with (flags_owned s). solve_Permutation.
    - apply owned_silent; [done|apply (i_owned _ _ _ HI)]. }
  split; [done|]. apply HQ; [done| |by exists ds, (t ++ h)]. eapply weak_trans; [by eapply inv_seen|by apply calm_weak].
Qed.

(** A call that leaves nothing in the hands of the caller, and needs nothing from them. *)
Lemma pwp_ep_plain {A} hd (m : M NetOp EpState A) d (Q : Status + A -> Token -> Prop) :
  goes_on -> is_Some (endpoint_at (t_seen d) hd) -> emits silent m ->
  (forall O t h, inv O t h -> wp m (fun o t' h' => inv O t' h' /\ same (es_ep t) (es_ep t')) t h) ->
  (forall o s', after d s' -> Q o (see s' d)) -> pwp Inv k (ep_call hd m) d Q.
Proof.
  intros Hg [e He] Hem Hm HQ. eapply (pwp_ep_call hd e m (fun _ => t_res d) (fun _ => True)); [done|done|done| |].
  - intros O t h Hwf Ha Hs. eapply wp_mono; [apply (Hm (t_res d ++ O)); by split|]. intros o t' h' ((H1 & H2) & H3). by split_and!.
  - intros o s' _ Hw Hn. rewrite see_own in *. apply HQ. by split.
Qed.
End Blocks.

(** Apply the rule of the construct at the head of a program. *)
Ltac pstep :=
  lazymatch goal with
  | |- pwp _ _ (pbind _ _) _ _ => apply pwp_bind
  | |- pwp _ _ (pattempt _) _ _ => apply pwp_attempt
  | |- pwp _ _ (plog _) _ _ => apply pwp_log
  | |- pwp _ _ (pfinally _ _) _ _ => apply pwp_finally
  | |- pwp _ _ (pon_fail _ _) _ _ => apply pwp_on_fail
  | |- pwp _ _ (pret _) _ _ => apply pwp_done
  | |- pwp _ _ (pfail _) _ _ => apply pwp_done
  | |- pwp _ _ (prequire _ _) _ _ => apply pwp_require
  end.
