(* ===== verification/CsServerSteady.v ===== *)
(** Programs of the server that leave their thread with what it had, whatever the other
    threads do meanwhile; they compose. *)

From S2P Require Import Prelude StdMap Effects External Runtime Wire Hcomm Net CtrlConn CtrlConnSpec CtrlConnSafety MsgReceiver MsgReceiverSafety HostRegister Endpoint HcResources EndpointSafety ServerCalls Conc MsgHandler CsServer CsServerInv CsServerRules.

(** * Programs that leave their thread with what it had

    [keeps R]: the token is the same but for the state it has seen, which has changed
    by [R]. *)
Section Keeps.
Context {codes : AclCodes} {again : HcclAgain} {cfg : ServerConfig}.
Variables (k : ThreadKind) (R : HixlCSServer -> HixlCSServer -> Prop).
Hypothesis R_refl : forall s, R s s.
Hypothesis R_trans : forall s1 s2 s3, R s1 s2 -> R s2 s3 -> R s1 s3.
Implicit Types (d : Token) (s : HixlCSServer).

Definition later d s' : Prop := R (t_seen d) s' /\ Now k (see s' d).
Definition keeps {A} (p : Prog NetOp HixlCSServer A) d : Prop :=
  forall Q : Status + A -> Token -> Prop, (forall o s', later d s' -> Q o (see s' d)) -> pwp Inv k p d Q.
(** The token is up to date. *)
Definition current d : Prop := Now k d.

Lemma see_see d s s' : see s' (see s d) = see s' d.
Proof. done. Qed.
Lemma see_seen d : see (t_seen d) d = d.
Proof. by destruct d. Qed.
Lemma later_trans d s1 s2 : later d s1 -> later (see s1 d) s2 -> later d s2.
Proof using R_trans. intros [H1 _] [H2 N]. split; [by eapply R_trans|exact N]. Qed.

Lemma keeps_bind {A B} (p : Prog NetOp HixlCSServer A) (f : A -> Prog NetOp HixlCSServer B) d :
  keeps p d -> (forall a s, later d s -> keeps (f a) (see s d)) -> keeps (pbind p f) d.
Proof using R_trans.
  intros Hp Hf Q HQ. apply pwp_bind, Hp. intros [e|a] s H; [by apply HQ|]. apply Hf; [done|].
  intros o s' H'. apply HQ. by eapply later_trans.
Qed.
Lemma keeps_attempt {A} (p : Prog NetOp HixlCSServer A) d : keeps p d -> keeps (pattempt p) d.
Proof. intros Hp Q HQ. apply pwp_attempt, Hp. intros o s H. by apply HQ. Qed.
Lemma keeps_log {A} (p : Prog NetOp HixlCSServer A) d : keeps p d -> keeps (plog p) d.
Proof. intros Hp Q HQ. apply pwp_log, Hp. intros o s H. by apply HQ. Qed.
Lemma keeps_on_fail {A} (p : Prog NetOp HixlCSServer A) g d :
  keeps p d -> (forall s, later d s -> keeps g (see s d)) -> keeps (pon_fail p g) d.
Proof using R_trans.
  intros Hp Hg Q HQ. apply pwp_on_fail, Hp. intros [e|a] s H; [|by apply HQ]. apply Hg; [done|].
  intros o s' H'. apply HQ. by eapply later_trans.
Qed.
Lemma keeps_finally {A} (p : Prog NetOp HixlCSServer A) g d :
  keeps p d -> (forall s, later d s -> keeps g (see s d)) -> keeps (pfinally p g) d.
Proof using R_trans.
  intros Hp Hg Q HQ. apply pwp_finally, Hp. intros o s H. apply Hg; [done|].
  intros o' s' H'. apply HQ. by eapply later_trans.
Qed.
(** Where nothing happens, the token must be up to date. *)
Lemma keeps_done {A} (o : Status + A) d : current d -> keeps (Done o) d.
Proof using R_refl.
  intros Hc Q HQ. apply pwp_done. rewrite <- see_seen. apply HQ. split; [done|by rewrite see_seen].
Qed.
Lemma keeps_loop {A} (l : list A) (p : A -> Prog NetOp HixlCSServer unit) d :
  current d -> (forall a d', a ∈ l -> (exists s, later d s /\ d' = see s d) -> keeps (p a) d') -> keeps (pfor_each l p) d.
Proof using R_refl R_trans.
  intros Hc Hp. assert (Hs : exists s, later d s /\ d = see s d).
  { exists (t_seen d). rewrite see_seen. split; [split; [done|by rewrite see_seen]|done]. }
  revert Hs. generalize d at 2 4. clear Hc. induction l as [|a l IH]; intros d0 (s0 & H0 & ->); cbn [pfor_each].
  - apply keeps_done. by destruct H0.
  - apply keeps_bind; [apply Hp; [by left|by exists s0]|]. intros [] s1 H1. apply IH.
    + intros a' d' Ha. apply Hp. by right.
    + exists s1. split; [by eapply later_trans|done].
Qed.
End Keeps.

Section Steady.
Context {codes : AclCodes} {again : HcclAgain} {clib : CLibrary} `{Sec : Securec} {cfg : ServerConfig} {abi : ServerAbi}.
Context {env : Environment NetOp} {Hnet : NetLaws env} {Hhc : HcLaws env}.
Variable k : ThreadKind.
Hypothesis Hgo : goes_on k.
Implicit Types (d : Token) (s : HixlCSServer) (i : nat).

(** Programs whose changes the thread itself need not notice. *)
Definition steady {A} (p : Prog NetOp HixlCSServer A) d : Prop := keeps k (weak k) p d.

(** A connection that a receiver knows. *)
Definition known d i : Prop := published (t_seen d) i /\ (i < length (connections (t_seen d)))%nat.
Definition open_endpoint d (hd : Z) : Prop := is_Some (endpoint_at (t_seen d) hd).

Lemma current_after d : current k d -> after k d (t_seen d).
Proof. intros H. split; [apply weak_refl|]. by rewrite see_seen. Qed.
Lemma see_current d s : after k d s -> current k (see s d).
Proof. by intros [_ N]. Qed.
Lemma current_known d i : current k d -> published (t_seen d) i -> known d i.
Proof.
  intros (ds & h & H) Hp. split; [done|]. apply (v_conn _ (i_valid _ _ _ H)). apply elem_of_app. by right.
Qed.
Lemma known_after d s i : known d i -> after k d s -> known (see s d) i.
Proof using Hgo. intros [H1 H2] H. split; [by eapply after_published|by eapply after_conn]. Qed.
Lemma open_after d s hd : open_endpoint d hd -> after k d s -> open_endpoint (see s d) hd.
Proof using Hgo. intros H1 H. by eapply (after_endpoint k). Qed.
Lemma known_lt d i : known d i -> (i < length (connections (t_seen d)))%nat.
Proof. by intros []. Qed.

Lemma steady_bind {A B} (p : Prog NetOp HixlCSServer A) (f : A -> Prog NetOp HixlCSServer B) d :
  steady p d -> (forall a s, after k d s -> steady (f a) (see s d)) -> steady (pbind p f) d.
Proof. apply keeps_bind, weak_trans. Qed.
Lemma steady_read {A B} (f : HixlCSServer -> A) (g : A -> Prog NetOp HixlCSServer B) d :
  (forall s, after k d s -> steady (g (f s)) (see s d)) -> steady (pbind (CsServer.read f) g) d.
Proof using Hgo.
  intros Hg Q HQ. apply pwp_bind, pwp_read; [done|]. intros s H. apply Hg; [done|].
  intros o s' H'. apply HQ. by eapply after_trans.
Qed.
Lemma steady_attempt {A} (p : Prog NetOp HixlCSServer A) d : steady p d -> steady (pattempt p) d.
Proof. apply keeps_attempt. Qed.
Lemma steady_log {A} (p : Prog NetOp HixlCSServer A) d : steady p d -> steady (plog p) d.
Proof. apply keeps_log. Qed.
Lemma steady_on_fail {A} (p : Prog NetOp HixlCSServer A) g d :
  steady p d -> (forall s, after k d s -> steady g (see s d)) -> steady (pon_fail p g) d.
Proof. apply keeps_on_fail, weak_trans. Qed.
Lemma steady_finally {A} (p : Prog NetOp HixlCSServer A) g d :
  steady p d -> (forall s, after k d s -> steady g (see s d)) -> steady (pfinally p g) d.
Proof. apply keeps_finally, weak_trans. Qed.
Lemma steady_done {A} (o : Status + A) d : current k d -> steady (Done o) d.
Proof. apply keeps_done, weak_refl. Qed.
Lemma steady_ret {A} (a : A) d : current k d -> steady (pret a) d.
Proof. apply steady_done. Qed.
Lemma steady_fail {A} e d : current k d -> steady (pfail e : Prog NetOp HixlCSServer A) d.
Proof. apply steady_done. Qed.
Lemma steady_require b e d : current k d -> steady (prequire b e) d.
Proof. intros Hc. destruct b; by apply steady_done. Qed.
Lemma steady_for_each {A} (l : list A) (p : A -> Prog NetOp HixlCSServer unit) d :
  current k d -> (forall a d', a ∈ l -> (exists s, after k d s /\ d' = see s d) -> steady (p a) d') -> steady (pfor_each l p) d.
Proof. apply keeps_loop; [apply weak_refl|apply weak_trans]. Qed.

(** ** Blocks *)
Lemma steady_quiet {A} (m : M NetOp HixlCSServer A) d :
  emits (fun e => neutral e /\ silent e) m -> (forall s h, wp m (fun _ s' _ => s' = s) s h) -> steady (atomic m) d.
Proof using Hgo.
  intros He Hm Q HQ. apply (pwp_quiet k m (fun _ _ => True)); [done|done| |by intros; apply HQ].
  intros s h. eapply wp_mono; [apply Hm|]. by intros o s' h' E.
Qed.
Lemma steady_sys {T} (op : NetOp T) d : (forall r, neutral (Ev op r) /\ silent (Ev op r)) -> steady (sys op) d.
Proof using Hgo. intros He Q HQ. apply pwp_sys; [done|done|]. intros r s' H. by apply HQ. Qed.

(** A call on a connection that keeps its descriptor. *)
Lemma steady_conn_call {A} i (m : M NetOp Conn A) d :
  (i < length (connections (t_seen d)))%nat -> emits neutral m ->
  (forall c h F S, holds c h F S -> wp m (fun o c' h' => holds c' h' F S /\ fd_ c' = fd_ c) c h) ->
  steady (conn_call i m) d.
Proof using Hgo.
  intros Hi He Hm Q HQ. apply (pwp_conn_call k i m (fun _ _ => True)); [done|done|done| |by intros; apply HQ].
  intros c h F S Hh. eapply wp_mono; [by apply Hm|]. intros o c' h' [H1 H2]. split_and!; [done|by left|done].
Qed.
(** A call that only reads and writes. *)
Lemma steady_ran {A} i (m : M NetOp Conn A) d :
  (i < length (connections (t_seen d)))%nat -> emits neutral m ->
  (forall c h Q, (forall o c' h' a b, ran c h c' h' a b -> Q o c' h') -> wp m Q c h) ->
  steady (conn_call i m) d.
Proof using Hgo.
  intros Hi He Hm. apply steady_conn_call; [done|done|]. intros c h F S Hh. apply Hm. intros o c' h' a b R.
  split; [by eapply holds_ran|]. by destruct R as [[? _] _].
Qed.
Lemma steady_look {A} i (f : Conn -> A) d :
  (i < length (connections (t_seen d)))%nat -> steady (conn_call i (let* c := get in ret (f c))) d.
Proof using Hgo.
  intros Hi. apply steady_ran; [done|solve_emits|]. intros c h Q HQ. apply wp_bind, wp_get, wp_ret. eapply HQ, ran_refl.
Qed.
Lemma steady_Fd i d : (i < length (connections (t_seen d)))%nat -> steady (Fd i) d.
Proof using Hgo. apply steady_look. Qed.
Lemma steady_IsUsable i d : (i < length (connections (t_seen d)))%nat -> steady (IsUsable i) d.
Proof using Hgo. apply steady_look. Qed.
Lemma steady_ShutdownSocket i d : (i < length (connections (t_seen d)))%nat -> steady (conn_call i CtrlMsgPlugin_ShutdownSocket) d.
Proof using Hgo Hnet.
  intros Hi. apply steady_ran; [done|apply em_ShutdownSocket|]. intros c h Q HQ.
  eapply wp_ShutdownSocketLocked; [apply ran_refl|]. intros. by eapply HQ.
Qed.

(** A published connection is closed. *)
Lemma steady_Close i d : known d i -> steady (conn_call i CtrlMsgPlugin_Close) d.
Proof using Hgo Hnet.
  intros [Hp Hi] Q HQ. apply (pwp_conn_call k i _ (fun _ _ => True)); [done|done|apply em_Close| |by intros; apply HQ].
  intros c h F S Hh. apply (wp_CloseLocked F S); [done|]. intros o c' h' Hh' E _. split_and!; [done|right; split; [done|lia]|done].
Qed.

Lemma steady_ep {A} hd (m : M NetOp EpState A) d :
  open_endpoint d hd -> emits silent m ->
  (forall O t h, inv O t h -> wp m (fun o t' h' => inv O t' h' /\ same (es_ep t) (es_ep t')) t h) ->
  steady (ep_call hd m) d.
Proof using Hgo. intros He Hem Hm Q HQ. by apply pwp_ep_plain. Qed.
End Steady.

#[export] Hint Resolve steady_bind steady_attempt steady_log steady_on_fail steady_finally steady_ret steady_fail
  steady_require : steady.
Create HintDb know discriminated.
#[export] Hint Resolve see_current known_after open_after known_lt after_conn : know.

(** Take a program apart. *)
Ltac steady_step :=
  lazymatch goal with
  | |- forall _, _ => intros ?
  | |- steady _ (pbind (CsServer.read _) _) _ => apply steady_read; [assumption|]
  | |- steady _ (pbind _ _) _ => apply steady_bind
  | |- steady _ (pon_fail _ _) _ => apply steady_on_fail
  | |- steady _ (pfinally _ _) _ => apply steady_finally
  | |- steady _ (pattempt _) _ => apply steady_attempt
  | |- steady _ (plog _) _ => apply steady_log
  | |- steady _ (pret _) _ => apply steady_ret; eauto with know
  | |- steady _ (pfail _) _ => apply steady_fail; eauto with know
  | |- steady _ (prequire _ _) _ => apply steady_require; eauto with know
  | |- steady _ (sys _) _ => apply steady_sys; [assumption|by repeat split]
  | |- steady _ (match ?x with _ => _ end) _ => destruct x
  | |- steady _ (let _ := _ in _) _ => cbv zeta
  | |- steady _ _ _ => solve [eauto with steady know]
  end.
Ltac solve_steady := repeat steady_step.
