(* ===== verification/CsServerRequests.v ===== *)
(** The requests of clients: the processors of the server keep the invariant. *)

From S2P Require Import Prelude StdMap Effects External Runtime Wire Hcomm Net CtrlConn CtrlConnSpec CtrlConnSafety MsgReceiver MsgReceiverSafety HostRegister Endpoint HcResources EndpointSafety ServerCalls Conc MsgHandler CsServer CsServerInv CsServerRules CsServerSteady.

Section Requests.
Context {codes : AclCodes} {again : HcclAgain} {clib : CLibrary} `{Sec : Securec} {cfg : ServerConfig} {abi : ServerAbi}.
Context {env : Environment NetOp} {Hnet : NetLaws env} {Hhc : HcLaws env}.
Variable k : ThreadKind.
Hypothesis Hgo : goes_on k.
Implicit Types (d : Token) (s : HixlCSServer) (i : nat).

(** ** Contexts *)
Lemma emits_switch c : emits (fun e => neutral e /\ silent e) (switch_context c).
Proof. unfold switch_context. solve_emits; by repeat split. Qed.
Lemma emits_restore c : emits (fun e => neutral e /\ silent e) (restore_context c).
Proof. unfold restore_context. solve_emits; by repeat split. Qed.
Lemma wp_switch c s h : wp (switch_context c) (fun o s' _ => s' = s /\ exists prev, o = inr prev) s h.
Proof.
  unfold switch_context. apply wp_bind, wp_call. intros [e ctx] _. cbv zeta. apply wp_bind.
  destruct (_ && _); [apply wp_bind, wp_call; intros r _|]; apply wp_ret, wp_ret; eauto.
Qed.
Lemma wp_restore c s h : wp (restore_context c) (fun _ s' _ => s' = s) s h.
Proof. unfold restore_context. destruct (is_null c); [by apply wp_ret|]. apply wp_bind, wp_call. intros r _. by apply wp_ret. Qed.

Lemma steady_switch c d : steady k (atomic (switch_context c)) d.
Proof using Hgo.
  apply steady_quiet; [done|apply emits_switch|]. intros s h. eapply wp_mono; [apply wp_switch|]. by intros o s' h' [-> _].
Qed.
Lemma steady_restore c d : steady k (atomic (restore_context c)) d.
Proof using Hgo. apply steady_quiet; [done|apply emits_restore|apply wp_restore]. Qed.
Lemma pwp_guard d (Q : Status + option Z -> Token -> Prop) :
  (forall g s, after k d s -> Q (inr g) (see s d)) -> pwp Inv k (atomic GetContextGuard) d Q.
Proof using Hgo.
  intros HQ. apply (pwp_quiet k _ (fun o _ => exists g, o = inr g)); [done|..].
  - unfold GetContextGuard. solve_emits; try (by repeat split). apply emits_switch.
  - intros s h. unfold GetContextGuard. apply wp_bind, wp_get. cbv zeta. destruct (_ <? _); [apply wp_ret; eauto|].
    apply wp_bind, wp_call. intros pool _. destruct pool; [|apply wp_ret; eauto]. apply wp_bind, wp_call. intros ctx _.
    destruct (is_null ctx); [apply wp_ret; eauto|]. apply wp_bind, wp_call. intros made _. destruct made; [|apply wp_ret; eauto].
    apply wp_bind. eapply wp_mono; [apply wp_switch|]. intros o s' h' (-> & prev & ->). apply wp_ret; eauto.
  - intros o s H [g ->]. by apply HQ.
Qed.
Lemma steady_guard d : steady k (atomic GetContextGuard) d.
Proof using Hgo. intros Q HQ. apply pwp_guard. intros g s H. by apply HQ. Qed.
Lemma steady_drop g d : steady k (atomic (drop_guard g)) d.
Proof using Hgo.
  destruct g; [apply steady_restore|]. apply steady_quiet; [done|apply emits_ret|]. intros. by apply wp_ret.
Qed.
(** The context is restored after the program, whatever comes of it. *)
Lemma pwp_with_context {A} (p : Prog NetOp HixlCSServer A) d (Q : Status + A -> Token -> Prop) :
  (forall s, after k d s -> pwp Inv k p (see s d) (fun o d' => forall s', after k d' s' -> Q o (see s' d'))) ->
  pwp Inv k (with_context p) d Q.
Proof using Hgo.
  intros Hp. unfold with_context. apply pwp_bind, pwp_guard. intros g s H. apply pwp_finally.
  eapply pwp_mono; [by apply Hp|]. intros o d' HQ. apply steady_drop. intros _ s' H'. by apply HQ.
Qed.
Lemma steady_with_context {A} (p : Prog NetOp HixlCSServer A) d :
  (forall s, after k d s -> steady k p (see s d)) -> steady k (with_context p) d.
Proof using Hgo.
  intros Hp. unfold with_context. apply steady_bind; [apply steady_guard|]. intros g s H.
  apply steady_finally; [by apply Hp|]. intros s' H'. apply steady_drop.
Qed.

(** ** Responses *)
Lemma steady_send i bs d : (i < length (connections (t_seen d)))%nat -> steady k (send i bs) d.
Proof using Hgo Hnet.
  intros Hi. apply steady_ran; [done|done|apply em_Send|]. intros c h Q HQ. apply wp_Send.
  intros o c' h' done rest R _ _. by eapply HQ.
Qed.
Lemma steady_send_message i n t b d : known d i -> steady k (send_message i n t b) d.
Proof using Hgo Hnet.
  intros Hi. unfold send_message. apply steady_bind; [apply steady_send; eauto with know|]. intros _ s1 H1.
  apply steady_bind; [apply steady_send; eauto with know|]. intros _ s2 H2. apply steady_send; eauto with know.
Qed.
Lemma steady_match_resp i r d : known d i -> steady k (SendMatchEndpointResp i r) d.
Proof using Hgo Hnet. apply steady_send_message. Qed.
Lemma steady_create_resp i r d : known d i -> steady k (SendCreateChannelResp i r) d.
Proof using Hgo Hnet. apply steady_send_message. Qed.
Lemma steady_remote_resp i st l d : known d i -> steady k (SendRemoteMemResp i st l) d.
Proof using Hgo Hnet.
  intros Hi. unfold SendRemoteMemResp. solve_steady. apply steady_send_message. eauto with know.
Qed.

(** ** Endpoints that were looked up *)
Lemma steady_find {B} hd (g : option Endpoint -> Prog NetOp HixlCSServer B) d :
  (forall e s, after k d s -> open_endpoint (see s d) hd -> steady k (g (Some e)) (see s d)) ->
  (forall s, after k d s -> steady k (g None) (see s d)) -> steady k (pbind (find_endpoint hd) g) d.
Proof using Hgo.
  intros H1 H2. apply steady_read; [done|]. intros s H. destruct (GetEndpoint hd (endpoint_store_ s)) as [e|] eqn:E; [|by apply H2].
  apply H1; [done|]. exists e. exact E.
Qed.
Lemma steady_need {B} hd (g : Endpoint -> Prog NetOp HixlCSServer B) d :
  (forall e s, after k d s -> open_endpoint (see s d) hd -> steady k (g e) (see s d)) ->
  steady k (pbind (need_endpoint hd) g) d.
Proof using Hgo.
  intros Hg Q HQ. apply pwp_bind. unfold need_endpoint. apply pwp_bind, pwp_read; [done|]. intros s H.
  destruct (GetEndpoint hd (endpoint_store_ s)) as [e|] eqn:E; apply pwp_done; [|by apply HQ].
  eapply Hg; [done| |]; [exists e; exact E|]. intros o s' H'. apply HQ. by eapply after_trans.
Qed.

Lemma steady_modify_ep hd f d :
  open_endpoint d hd -> (forall e, ep_wf e -> ep_wf (f e) /\ EndpointSafety.owned (f e) = EndpointSafety.owned e /\ same e (f e)) ->
  steady k (ep_call hd (ep_modify f)) d.
Proof using Hgo.
  intros He Hf. apply steady_ep; [done|done|apply es_ep_modify|]. intros O t h [Hw Ha]. apply wp_modify.
  destruct (Hf (es_ep t) Hw) as (H1 & H2 & H3). split; [|done]. split; [done|]. cbn [es_ep set_ep]. by rewrite H2.
Qed.
Lemma steady_set_port hd p d : open_endpoint d hd -> steady k (ep_call hd (ep_modify (Endpoint_SetPort p))) d.
Proof using Hgo. intros He. apply steady_modify_ep; [done|]. intros e [W1 W2 W3 W4]. split; [by constructor|done]. Qed.
Lemma steady_get_port hd d : open_endpoint d hd -> steady k (ep_call hd (let* e := ep_get in ret (port_ e))) d.
Proof using Hgo.
  intros He. apply steady_ep; [done|done| |].
  - solve_emits. unfold ep_get. solve_emits.
  - intros O t h H. by apply wp_bind, wp_bind, wp_get, wp_ret, wp_ret.
Qed.
Lemma steady_listen_port hd d : open_endpoint d hd -> steady k (ep_call hd Endpoint_GetListenPort) d.
Proof using Hgo.
  intros He. apply steady_ep; [done|done|apply es_GetListenPort|]. intros O t h H. by eapply wp_GetListenPort.
Qed.
Lemma steady_export hd d : open_endpoint d hd -> steady k (ep_call hd Endpoint_ExportMem) d.
Proof using Hgo.
  intros He. apply steady_ep; [done|done|apply es_ExportMem|]. intros O t h H. by eapply wp_Endpoint_ExportMem.
Qed.
Lemma steady_register_mem hd tag mem d : open_endpoint d hd -> steady k (ep_call hd (Endpoint_RegisterMem tag mem)) d.
Proof using Hgo.
  intros He. apply steady_ep; [done|done|apply es_RegisterMem|]. intros O t h H. by eapply wp_Endpoint_RegisterMem.
Qed.
Lemma steady_deregister_mem hd mh d : open_endpoint d hd -> steady k (ep_call hd (Endpoint_DeregisterMem mh)) d.
Proof using Hgo.
  intros He. apply steady_ep; [done|done|apply es_DeregisterMem|]. intros O t h H. by eapply wp_Endpoint_DeregisterMem.
Qed.
Lemma steady_destroy_channel hd ch d : open_endpoint d hd -> steady k (ep_call hd (Endpoint_DestroyChannel ch)) d.
Proof using Hgo Hhc Hnet.
  intros He. apply steady_ep; [done|done|apply es_DestroyChannel|]. intros O t h H. by eapply wp_Endpoint_DestroyChannel.
Qed.

(** ** Private tables *)
Lemma steady_table {A} (m : M NetOp HixlCSServer A) d :
  emits (fun e => neutral e /\ silent e) m ->
  (forall ds s h, Inv ((k, d) :: ds) s h -> wp m (fun _ s' _ => calm s s' /\
     endpoint_store_ s' = endpoint_store_ s /\ connections s' = connections s /\ receivers s' = receivers s /\
     clients_valid s' /\ (forall q, q ∈ req_queue_ (msg_handler_ s') -> published s (rq_conn q)) /\
     pool_of s' = pool_of s) s h) -> steady k (atomic m) d.
Proof using Hgo.
  intros He Hm Q HQ. apply (pwp_table k m (fun _ _ => True)); [done|done| |by intros; apply HQ].
  intros ds s h HI. eapply wp_mono; [by eapply Hm|]. intros o s' h' H. by split.
Qed.

Lemma calm_tracked s x : calm s (set_tracked x s).
Proof. constructor; try done; [by left|by right|]. intros hd. change (endpoint_at (set_tracked x s) hd) with (endpoint_at s hd). destruct (endpoint_at s hd); [apply same_refl|done]. Qed.
Lemma calm_index s n : calm s (set_flags (set_index n (sv_flags s)) s).
Proof. constructor; try done; [by left|by right|]. intros hd. change (endpoint_at (set_flags _ s) hd) with (endpoint_at s hd). destruct (endpoint_at s hd); [apply same_refl|done]. Qed.

Lemma steady_next_index d : steady k (atomic next_channel_index) d.
Proof using Hgo.
  apply steady_table.
  - unfold next_channel_index. apply emits_zoom. intros _. solve_emits.
  - intros ds s h HI. pose proof (i_valid _ _ _ HI) as V. eapply wp_zoom; [done|]. apply wp_bind, wp_get, wp_bind, wp_modify, wp_ret.
    split_and!; [apply calm_index|done|done|done|apply (valid_clients _ V)..|apply V|done].
Qed.

Lemma steady_take_channel i d : steady k (atomic (take_channel i)) d.
Proof using Hgo.
  apply steady_table; [unfold take_channel; solve_emits|].
  intros ds s h HI. pose proof (i_valid _ _ _ HI) as V. apply wp_bind, wp_get, wp_bind, wp_modify, wp_ret.
  split_and!; [apply calm_tracked|done|done|done|apply (valid_clients _ V)..|apply V|done].
Qed.

(** Reading an object leaves the heap as it is. *)
Lemma wp_look {A} i (f : Conn -> A) (Q : Status + A -> HixlCSServer -> History NetOp -> Prop) s h c :
  connections s !! i = Some c -> Q (inr (f c)) s h ->
  wp (on_conn i (let* c := get in ret (f c))) Q s h.
Proof.
  intros Hi HQ. eapply wp_zoom; [exact Hi|]. apply wp_bind, wp_get, wp_ret. rewrite list_insert_id by done. by destruct s.
Qed.

Lemma steady_track i hd ch d : known d i -> steady k (atomic (TrackChannelIfConnected i hd ch)) d.
Proof using Hgo.
  intros [Hp Hi]. apply steady_table.
  - unfold TrackChannelIfConnected, is_client. solve_emits. apply emits_zoom. intros _. solve_emits.
  - intros ds s h HI. destruct (seen_conn _ _ _ _ _ _ HI Hgo Hi) as [c Hc]. pose proof (i_valid _ _ _ HI) as V.
    unfold TrackChannelIfConnected, is_client. apply wp_bind, wp_get, wp_bind, wp_bind. eapply wp_look; [exact Hc|].
    apply wp_ret. destruct (negb _); [apply wp_ret|apply wp_bind, wp_modify, wp_ret].
    + split_and!; [by apply calm_refl|done|done|done|apply (valid_clients _ V)..|apply V|done].
    + split_and!; [by apply calm_tracked|done|done|done|apply (valid_clients _ V)..|apply V|done].
Qed.

(** ** Requests *)
Lemma match_found req st hd : store_wf st -> MatchEndpoint req st = Some hd -> is_Some (GetEndpoint hd st).
Proof.
  intros [W _]. unfold MatchEndpoint, GetEndpoint. destruct (List.find _ _) as [[k' e]|] eqn:E; [|done].
  intros [= <-]. apply List.find_some in E as [Hin%list_elem_of_In _]. exists e. by apply std_find_elem.
Qed.
Lemma after_store d s : after k d s -> store_wf (endpoint_store_ s).
Proof. intros (ds & h & H)%after_now. apply (i_store _ _ _ H). Qed.

Lemma steady_resolve_port hd d : open_endpoint d hd -> steady k (resolve_port hd) d.
Proof using Hgo.
  intros He. unfold resolve_port. destruct ListenPort as [p|]; [by apply steady_set_port|].
  apply steady_bind; [by apply steady_attempt, steady_listen_port|]. intros [e|p] s H.
  - apply steady_require. eauto with know.
  - apply steady_set_port. eauto with know.
Qed.

Lemma steady_MatchEndpoint i msg d : current k d -> known d i -> steady k (MatchEndpointMsg i msg) d.
Proof using Hgo Hnet.
  intros Hcur Hi. unfold MatchEndpointMsg. apply steady_on_fail.
  2:{ intros s H. apply steady_log, steady_match_resp. eauto with know. }
  apply steady_bind; [by apply steady_require|]. intros _ s1 H1. apply steady_read; [done|]. intros s2 H2.
  destruct (MatchEndpoint _ _) as [hd|] eqn:E; [|apply steady_match_resp; eauto 6 with know].
  assert (He : open_endpoint (see s2 (see s1 d)) hd) by (eapply match_found; [by eapply after_store|done]).
  apply steady_bind; [by apply steady_resolve_port|]. intros _ s3 H3.
  apply steady_bind; [apply steady_get_port; eauto with know|]. intros port s4 H4.
  apply steady_bind; [apply steady_next_index|]. intros index s5 H5. apply steady_match_resp. eauto 10 with know.
Qed.

Lemma steady_ExportMem i msg d : current k d -> known d i -> steady k (ExportMem i msg) d.
Proof using Hgo Hnet.
  intros Hcur Hi. unfold ExportMem. apply steady_bind; [apply steady_on_fail|].
  - unfold export_request. apply steady_bind; [by apply steady_require|]. intros _ s1 H1.
    apply steady_bind; [apply steady_require; eauto with know|]. intros _ s2 H2.
    apply steady_need. intros e s3 H3 He. by apply steady_export.
  - intros s H. apply steady_log, steady_remote_resp. eauto with know.
  - intros descs s H. apply steady_remote_resp. eauto with know.
Qed.

(** Between the creation of a channel and its entry in the table, the thread holds it. *)
Lemma pwp_new_channel {B} hd cd ms (g : Z -> Prog NetOp HixlCSServer B) d (Q : Status + B -> Token -> Prop) :
  open_endpoint d hd -> (forall e s, after k d s -> Q (inl e) (see s d)) ->
  (forall ch s, after k d s -> pwp Inv k (g ch) (see s d) Q) ->
  pwp Inv k (let! channel := ep_call hd (make_channel cd ms) in
             let! channel_handle := ep_call hd (store_channel channel) in g channel_handle) d Q.
Proof using Hgo Hhc Hnet.
  intros [e He] HQ Hg. apply pwp_bind.
  set (post o := match o : Status + Channel with inr c => RCh (is_ub e) (channel_handle_ c) :: t_res d | inl _ => t_res d end).
  apply (pwp_ep_call k hd e (make_channel cd ms) post (fun o => match o with inr c => channel_handle_ c <> 0 | inl _ => True end)).
  - done.
  - done.
  - apply es_make_channel.
  - intros O t h Hwf Ha [_ Es]. apply (wp_make_channel (t_res d ++ O)); [by split| |].
    + intros st h' [? ?]. split_and!; [done|exact H0|done|done].
    + intros ch h' Hch Hw' Ha'. split_and!; [done| |done|done]. eapply acct_perm; [|exact Ha'].
      unfold post. cbn [channel_handle_]. replace (is_ub (es_ep t)) with (is_ub e) by (unfold is_ub; by rewrite Es). solve_Permutation.
  - intros [st|c] s Hc Hw Hn; [apply HQ; split; [done|]; by rewrite <- (see_own d s)|].
    set (d1 := with_res (post (inr c)) (see s d)) in *.
    assert (Hgr : grows (t_seen d) s) by (by eapply weak_grows). apply (g_store _ _ Hgr) in He as (e1 & He1 & Hs1).
    apply pwp_bind, (pwp_ep_call k hd e1 (store_channel c) (fun _ => t_res d) (fun _ => True)).
    + done.
    + exact He1.
    + apply es_store_channel.
    + intros O t h Hwf Ha [_ Es]. destruct c as [ch]. cbn [channel_handle_] in Hc. apply (wp_store_channel (t_res d ++ O)).
      * done.
      * done.
      * eapply acct_perm; [|exact Ha]. unfold d1, post. cbn [t_res with_res channel_handle_].
        replace (is_ub (es_ep t)) with (is_ub e); [solve_Permutation|]. destruct Hs1 as [_ Hs1]. unfold is_ub. by rewrite Es, Hs1.
      * intros t' [? ?] Hsame _. by split_and!.
    + intros o s' _ Hw' Hn'. assert (Ha : after k d s') by (split; [by eapply weak_trans|destruct d; exact Hn']).
      destruct o as [e'|ch]; [by apply (HQ _ s')|by apply (Hg ch s')].
Qed.

(** What was created is on an endpoint that is in the store. *)
Lemma pwp_create_channel i msg d (Q : Status + (Z * Z * bool) -> Token -> Prop) :
  current k d -> known d i -> (forall e s, after k d s -> Q (inl e) (see s d)) ->
  (forall hd ch b s, after k d s -> open_endpoint (see s d) hd -> Q (inr (hd, ch, b)) (see s d)) ->
  pwp Inv k (create_channel i msg) d Q.
Proof using Hgo Hhc Hnet.
  intros Hcur Hi HE HQ. assert (Hnow : forall e, Q (inl e) d) by (intros e; rewrite <- (see_seen d); by apply HE, current_after).
  unfold create_channel. apply pwp_bind, pwp_require; [intros _|done]. cbv zeta.
  apply pwp_bind, pwp_require; [intros _|done]. set (hd := ccq_dst_ep_handle _).
  apply pwp_bind. unfold need_endpoint. apply pwp_bind, pwp_read; [done|]. intros s1 H1.
  destruct (GetEndpoint hd (endpoint_store_ s1)) as [e|] eqn:E; apply pwp_done; [|by apply HE].
  assert (He : open_endpoint (see s1 d) hd) by (exists e; exact E).
  apply pwp_bind, pwp_read; [done|]. intros s2 H2. rewrite see_see. assert (H12 := after_trans _ _ _ _ H1 H2).
  apply pwp_new_channel.
  - rewrite <- (see_see d s1 s2). eauto with know.
  - intros st s3 H3. rewrite see_see. apply HE. by eapply after_trans.
  - intros ch s3 H3. rewrite see_see. assert (H13 := after_trans _ _ _ _ H12 H3).
    apply pwp_bind, steady_track; [eauto with know|]. intros o s4 H4. rewrite see_see.
    assert (H14 := after_trans _ _ _ _ H13 H4). destruct o as [st|b]; [by apply HE|]. apply pwp_done, HQ; [done|].
    change (open_endpoint (see s4 (see s3 (see s2 (see s1 d)))) hd). eauto with know.
Qed.

Lemma steady_CreateChannel i msg d : current k d -> known d i -> steady k (CreateChannel i msg) d.
Proof using Hgo Hhc Hnet.
  intros Hcur Hi Q HQ. unfold CreateChannel. apply pwp_bind, pwp_on_fail, pwp_create_channel; [done|done|..].
  - intros e s H. apply steady_log; [apply steady_create_resp; eauto with know|]. intros o s' H'. apply HQ. by eapply after_trans.
  - intros hd ch b s H He. destruct b; cbn [negb].
    + apply steady_create_resp; [eauto with know|]. intros o s' H'. apply HQ. by eapply after_trans.
    + apply pwp_bind, steady_destroy_channel; [done|]. intros [e|[]] s' H'; [|apply pwp_done];
        apply HQ; by eapply after_trans.
Qed.

(** ** Disconnected clients *)
Lemma steady_DestroyChannel i d : steady k (DestroyChannel i) d.
Proof using Hgo Hhc Hnet.
  unfold DestroyChannel. apply steady_bind; [apply steady_take_channel|]. intros [[hd ch]|] s H.
  2:{ apply steady_ret. eauto with know. }
  apply steady_find; [|intros; apply steady_ret; eauto with know]. intros e s2 H2 He. apply steady_with_context.
  intros s3 H3. apply steady_destroy_channel. eauto with know.
Qed.

(** A connection that is closed leaves the table of disconnected clients. *)
Definition forget (i : nat) (s : HixlCSServer) : HixlCSServer :=
  set_clients (set_disconnected (disconnected_clients_ (sv_clients s) ∖ {[i]}) (sv_clients s)) s.
Lemma forget_shelf i j s : j ∈ connections_to_close s -> j = i \/ j ∈ connections_to_close (forget i s).
Proof.
  unfold connections_to_close. cbn [forget set_clients sv_clients set_disconnected clients_ disconnected_clients_ receivers].
  rewrite !elem_of_app, !elem_of_elements, elem_of_difference, elem_of_singleton.
  intros [?|?]; [by right; left|]. destruct (decide (j = i)); [by left|by right; right].
Qed.
Lemma steady_forget i d : known d i -> fd_of (t_seen d) i = -1 ->
  steady k (atomic (on_clients (modify (fun c => set_disconnected (disconnected_clients_ c ∖ {[i]}) c)))) d.
Proof using Hgo.
  intros [Hp _] Hfd. apply steady_table; [apply emits_zoom; intros _; solve_emits|].
  intros ds s h HI. pose proof (i_valid _ _ _ HI) as V. eapply wp_zoom; [done|]. apply wp_modify. change (set_clients _ s) with (forget i s).
  assert (Hc : fd_of s i = -1).
  { apply (g_closed (t_seen d) s); [|done|done]. eapply weak_grows; [done|by eapply inv_seen]. }
  destruct (valid_clients _ V) as (C1 & C2 & C3).
  split_and!; [|done|done|done|split_and!; [exact C1| |exact C3]|apply V|done].
  - constructor; try done; [by left| |].
    + intros j [->|Hj]%(forget_shelf i); [left; exact Hc|by right].
    + intros hd. change (endpoint_at (forget i s) hd) with (endpoint_at s hd). destruct (endpoint_at s hd); [apply same_refl|done].
  - intros j [Hj _]%elem_of_difference. by apply C2.
Qed.

Lemma pwp_Close i d (Q : Status + unit -> Token -> Prop) :
  known d i -> (forall o s, after k d s -> fd_of s i = -1 -> Q o (see s d)) -> pwp Inv k (conn_call i CtrlMsgPlugin_Close) d Q.
Proof using Hgo Hnet.
  intros [Hp Hi] HQ. apply (pwp_conn_call k i _ (fun _ c => fd_ c = -1)); [done|done|apply em_Close| |].
  - intros c h F S Hh. apply (wp_CloseLocked F S); [done|]. intros o c' h' Hh' E _. split_and!; [done|right; split; [done|lia]|done].
  - intros o c s H Hc E. apply HQ; [done|]. rewrite (fd_of_at _ _ _ Hc). lia.
Qed.

Lemma steady_destroy_client i d : known d i -> steady k (destroy_client i) d.
Proof using Hgo Hhc Hnet.
  intros Hi Q HQ. unfold destroy_client. apply pwp_bind, pwp_attempt, pwp_Close; [done|]. intros o1 s1 H1 Hfd.
  apply pwp_bind, pwp_attempt, steady_DestroyChannel. intros o2 s2 H2. rewrite see_see. assert (H12 := after_trans _ _ _ _ H1 H2).
  assert (Hfd2 : fd_of (t_seen (see s2 (see s1 d))) i = -1).
  { apply (g_closed s1 s2); [by eapply weak_grows, H2|by eapply (after_published k), Hi|done]. }
  destruct o1 as [e|[]]; [by apply HQ|]. destruct o2 as [e|[]]; [by apply HQ|].
  rewrite <- (see_see d s1 s2). apply steady_forget; [eauto with know|exact Hfd2|]. intros o s3 H3. apply HQ.
  eapply after_trans; [exact H1|]. by eapply after_trans.
Qed.

(** ** Cleaning up *)
Lemma steady_submit i m d : published (t_seen d) i -> steady k (submit i m) d.
Proof using Hgo.
  intros Hp. apply steady_table; [apply emits_zoom; intros _; unfold SubmitMsg; solve_emits|].
  intros ds s h HI. pose proof (i_valid _ _ _ HI) as V. eapply wp_zoom; [done|]. apply wp_modify.
  split_and!; [|done|done|done|apply (valid_clients _ V)..| |done].
  - constructor; try done; [by left|by right|]. intros hd.
    change (endpoint_at (set_handler _ s) hd) with (endpoint_at s hd). destruct (endpoint_at s hd); [apply same_refl|done].
  - cbn [set_handler msg_handler_ set_queue req_queue_]. intros q [Hq|Hq%list_elem_of_singleton]%elem_of_app; [by apply (v_queue _ V)|].
    subst q. eapply published_grows; [|exact Hp]. eapply weak_grows; [done|by eapply inv_seen].
Qed.

(** A call on the epoll instance. *)
Lemma pwp_epoll {T B} (op : Z -> NetOp T) (g : T -> Prog NetOp HixlCSServer B) d (Q : Status + B -> Token -> Prop) :
  (forall efd r, obtains (Ev (op efd) r) = None /\ releases (Ev (op efd) r) = None /\ silent (Ev (op efd) r)) ->
  (forall efd r, hc_needs (Ev (op efd) r) = if 0 <=? efd then Some (REpoll efd) else None) ->
  (forall r s, after k d s -> pwp Inv k (g r) (see s d) Q) ->
  pwp Inv k (let! efd := read (fun s => epoll_fd_ (sv_listener s)) in let! r := sys (op efd) in g r) d Q.
Proof using Hgo.
  intros He Hn HQ. apply pwp_bind, pwp_read; [done|]. intros s1 H1. apply pwp_bind, pwp_use; [done|done| |].
  - intros s r Hw. unfold needs_own. rewrite Hn. destruct (Z.leb_spec 0 (epoll_fd_ (sv_listener s1))) as [Hp|]; [|done].
    split; [|done]. apply elem_of_app. left. apply epoll_owned_in; [done|]. apply (g_epoll s1 s); [by eapply weak_grows|done].
  - intros r s2 H2. apply HQ. by eapply after_trans.
Qed.
Lemma pwp_epoll_del fd d (Q : Status + unit -> Token -> Prop) :
  (forall s, after k d s -> Q (inr tt) (see s d)) -> pwp Inv k (epoll_del fd) d Q.
Proof using Hgo. intros HQ. apply pwp_epoll; [by repeat split|done|]. intros r s H. by apply pwp_done, HQ. Qed.
Lemma steady_epoll_del fd d : steady k (epoll_del fd) d.
Proof using Hgo. intros Q HQ. apply pwp_epoll_del. intros s H. by apply HQ. Qed.

(** A client moves to the table of disconnected clients. *)
Definition detached (i : nat) (fd : Z) (s : HixlCSServer) : HixlCSServer :=
  set_clients (set_client_map (std_erase fd (clients_ (sv_clients s)))
    (set_disconnected ({[i]} ∪ disconnected_clients_ (sv_clients s)) (sv_clients s))) s.
Lemma detached_shelf s i fd r j :
  std_map_wf (clients_ (sv_clients s)) -> std_find fd (clients_ (sv_clients s)) = Some r ->
  rc_connection <$> receivers s !! r = Some i -> j ∈ connections_to_close s -> j ∈ connections_to_close (detached i fd s).
Proof.
  intros W Hr Hi. unfold connections_to_close.
  cbn [detached set_clients sv_clients set_disconnected set_client_map clients_ disconnected_clients_ receivers].
  rewrite !elem_of_app, !elem_of_elements, elem_of_union, elem_of_singleton.
  intros [(r' & Hr' & Hj)%list_elem_of_omap|?]; [|by right; right].
  apply list_elem_of_fmap in Hr' as ([fd' r''] & -> & Hin). cbn [snd] in *. destruct (decide (fd' = fd)) as [->|Hne].
  - right; left. apply std_find_elem in Hin; [|done]. congruence.
  - left. apply list_elem_of_omap. exists r''. split; [|done]. apply list_elem_of_fmap. exists (fd', r''). split; [done|].
    by apply std_erase_elem.
Qed.

Lemma steady_detach i fd d : known d i -> steady k (atomic (detach_client i fd)) d.
Proof using Hgo.
  intros [Hp Hi]. apply steady_table.
  - unfold detach_client. solve_emits. apply emits_zoom. intros _. solve_emits.
  - intros ds s h HI. pose proof (i_valid _ _ _ HI) as V. destruct (valid_clients _ V) as (C1 & C2 & C3).
    assert (Hsame : calm s s /\ endpoint_store_ s = endpoint_store_ s /\ connections s = connections s /\ receivers s = receivers s /\
      clients_valid s /\ (forall q, q ∈ req_queue_ (msg_handler_ s) -> published s (rq_conn q)) /\ pool_of s = pool_of s).
    { split_and!; [by apply calm_refl|done|done|done|done|apply V|done]. }
    unfold detach_client. apply wp_bind, wp_get. destruct (std_find fd _) as [r|] eqn:Er; [|by apply wp_ret].
    case_bool_decide as Hr; [|by apply wp_ret]. apply wp_bind. eapply wp_zoom; [done|]. apply wp_modify, wp_ret.
    change (set_clients _ s) with (detached i fd s).
    split_and!; [|done|done|done|split_and!|apply V|done].
    + constructor; try done; [by left| |].
      * intros j Hj. right. by eapply detached_shelf.
      * intros hd. change (endpoint_at (detached i fd s) hd) with (endpoint_at s hd). destruct (endpoint_at s hd); [apply same_refl|done].
    + intros fd' r' [_ Hin]%std_erase_elem; [by eapply C1|done].
    + intros j [->%elem_of_singleton|Hj]%elem_of_union; [|by apply C2].
      apply (published_lookup (detached i fd s)). destruct (receivers s !! r) as [x|] eqn:Ex; [|done]. exists r, x.
      split; [done|]. by injection Hr.
    + by apply std_erase_wf.
Qed.

Lemma steady_CleanupClient i d : known d i -> steady k (CleanupClient i) d.
Proof using Hgo Hnet.
  intros Hi. unfold CleanupClient. apply steady_bind; [apply steady_sys; [done|by repeat split]|]. intros made s1 H1.
  destruct made; cbn [negb]; [|apply steady_ret; eauto with know].
  apply steady_bind; [apply steady_Fd; eauto with know|]. intros fd s2 H2.
  apply steady_bind; [apply steady_detach; eauto with know|]. intros det s3 H3.
  destruct det; cbn [negb]; [|apply steady_ret; eauto with know].
  apply steady_bind; [apply steady_epoll_del|]. intros _ s4 H4.
  apply steady_bind; [apply steady_log, steady_ShutdownSocket; eauto 10 with know|]. intros _ s5 H5.
  apply steady_submit. assert (known (see s5 (see s4 (see s3 (see s2 (see s1 d))))) i) as [? _] by eauto 10 with know. done.
Qed.

(** * Tasks of the pool *)
Lemma steady_run_processor p i msg d : current k d -> known d i -> steady k (run_processor p i msg) d.
Proof using Hgo Hhc Hnet.
  intros Hc Hi. destruct p; cbn [run_processor];
    [by apply steady_MatchEndpoint|by apply steady_CreateChannel|by apply steady_ExportMem|by apply steady_destroy_client|].
  apply steady_bind; [apply steady_sys; [done|by repeat split]|]. intros st s H. apply steady_require. eauto with know.
Qed.
Lemma steady_processor p i msg d : current k d -> known d i -> steady k (processor p i msg) d.
Proof using Hgo Hhc Hnet.
  intros Hc Hi. unfold processor. apply steady_on_fail; [by apply steady_run_processor|]. intros s H.
  apply steady_bind; [apply steady_IsUsable; eauto with know|]. intros u s2 H2. destruct u; cbn [negb].
  - apply steady_ret. eauto with know.
  - apply steady_CleanupClient. eauto with know.
Qed.
Lemma steady_run_task t d : known d (rq_conn (tk_req t)) -> steady k (run_task t) d.
Proof using Hgo Hhc Hnet.
  intros Hi. unfold run_task. apply steady_bind.
  - apply steady_log, steady_table.
    + apply emits_zoom. intros _. unfold SetCurrentContext. solve_emits; [by repeat split|]. unfold chk_acl. solve_emits.
    + intros ds s h HI. pose proof (i_valid _ _ _ HI) as V. eapply wp_zoom; [done|].
      assert (Hs : forall m, m = msg_handler_ s -> calm s (set_handler m s) /\ endpoint_store_ s = endpoint_store_ s /\
        connections s = connections s /\ receivers s = receivers s /\ clients_valid s /\
        (forall q, q ∈ req_queue_ m -> published s (rq_conn q)) /\ pool_of (set_handler m s) = pool_of s).
      { intros m ->. split_and!; [|done|done|done|by apply valid_clients|apply V|done].
        destruct s. apply calm_refl. }
      unfold SetCurrentContext. apply wp_bind, wp_get. destruct (negb _); [by apply wp_ret, Hs|].
      apply wp_bind, wp_call. intros e _. apply wp_chk_acl. intros o. by apply Hs.
  - intros _ s H. apply steady_log, steady_processor; eauto with know.
Qed.
End Requests.
