(* ===== verification/CsServerMoves.v ===== *)
(** The blocks in which the listener thread moves connections between the tables: a
    connection is accepted, put under handshake, made a client, or closed; and before
    them what it does between the moves: its messages and its handshakes. *)

From S2P Require Import Prelude StdMap Effects External Runtime Wire Hcomm Net CtrlConn CtrlConnSpec CtrlConnSafety MsgReceiver MsgReceiverSafety HostRegister Endpoint HcResources EndpointSafety ServerCalls Conc MsgHandler CsServer CsServerInv CsServerRules CsServerSteady CsServerRequests.

Section Listener.
Context {codes : AclCodes} {again : HcclAgain} {clib : CLibrary} `{Sec : Securec} {SecL : SecurecLaws Sec}.
Context {cfg : ServerConfig} {abi : ServerAbi}.
Context {env : Environment NetOp} {Hnet : NetLaws env} {Hhc : HcLaws env}.
Implicit Types (d : Token) (s : HixlCSServer) (i r : nat).
Let k := TListener.
Let Hgo : goes_on k := I.

(** * Messages *)
Definition has_receiver d r i : Prop := receiver_conns (t_seen d) !! r = Some i.

Lemma has_receiver_after d s r i : has_receiver d r i -> after k d s -> has_receiver (see s d) r i.
Proof. intros H [Hw _]. unfold has_receiver. cbn [t_seen see]. by rewrite (lr_receivers _ _ Hw). Qed.
Lemma has_receiver_known d r i : current k d -> has_receiver d r i -> known d i.
Proof. intros Hc H. apply (current_known k); [done|]. by eapply list_elem_of_lookup_2. Qed.

(** What an [IRecv] leaves in the heap. *)
Definition received_at (r i : nat) (c : Conn) (m : MsgReceiver) (s : HixlCSServer) : HixlCSServer :=
  set_connections (<[i := c]> (connections s)) (set_receivers (<[r := {| rc_connection := i; rc_receiver := m |}]> (receivers s)) s).

Lemma receiver_conns_set s r i m : receiver_conns s !! r = Some i ->
  rc_connection <$> <[r := {| rc_connection := i; rc_receiver := m |}]> (receivers s) = receiver_conns s.
Proof. intros H. rewrite list_fmap_insert. cbn [rc_connection]. by apply list_insert_id. Qed.

Lemma calm_received r i c c' m s :
  receiver_conns s !! r = Some i -> connections s !! i = Some c -> fd_ c' = fd_ c -> calm s (received_at r i c' m s).
Proof.
  intros Hr Hi E. assert (Er := receiver_conns_set s r i m Hr). assert (Hl := lookup_lt_Some _ _ _ Hi). constructor; try done.
  - cbn. by rewrite length_insert.
  - intros j. left. change (fd_of (received_at r i c' m s) j) with (fd_of (put_conn i c' s) j). rewrite fd_of_put by done.
    case_decide as Ej; [|done]. subst j. by rewrite (fd_of_at _ _ _ Hi).
  - intros j Hj. right. unfold connections_to_close in *. cbn [received_at set_connections set_receivers receivers sv_clients].
    rewrite elem_of_app in Hj |- *. destruct Hj as [(x & Hx & Hj)%list_elem_of_omap|?]; [left|by right].
    apply list_elem_of_omap. exists x. split; [done|]. rewrite conn_of_receiver in Hj.
    rewrite <- list_lookup_fmap, Er. exact Hj.
  - intros hd. change (endpoint_at (received_at r i c' m s) hd) with (endpoint_at s hd). destruct (endpoint_at s hd); [apply same_refl|done].
Qed.

Lemma steady_receive r i d : has_receiver d r i -> steady k (atomic (receive r)) d.
Proof using Hnet SecL.
  intros Hr Q HQ. apply pwp_atomic. intros ds s h HI.
  assert (Hr' : receiver_conns s !! r = Some i) by (by rewrite (lr_receivers _ _ (inv_seen _ _ _ _ _ HI))).
  pose proof (i_valid _ _ _ HI) as V.
  assert (Hrc : exists m, receivers s !! r = Some {| rc_connection := i; rc_receiver := m |}).
  { unfold receiver_conns in Hr'. rewrite list_lookup_fmap in Hr'. destruct (receivers s !! r) as [[i' m]|]; [|done].
    exists m. by injection Hr' as ->. }
  destruct Hrc as [m Hm]. assert (Hl : (i < length (connections s))%nat).
  { apply (v_conn _ V), elem_of_app. right. by eapply list_elem_of_lookup_2. }
  apply lookup_lt_is_Some in Hl as [c Hc]. unfold receive. apply wp_bind, wp_get. rewrite Hm. cbn [rc_connection]. rewrite Hc.
  assert (Hm' : recv_ok m).
  { pose proof (v_rcv _ V) as Hv. rewrite Forall_forall in Hv. apply (Hv {| rc_connection := i; rc_receiver := m |}). by eapply list_elem_of_lookup_2. }
  assert (Hap : apart (delete i (connections s)) /\ holds c h (fd_set (delete i (connections s))) (ssl_set (delete i (connections s)))).
  { apply owned_cons. rewrite <- (delete_Permutation (connections s) i c Hc). apply (i_owned _ _ _ HI). }
  eapply wp_zoom; [done|]. cbn [rc_receiver].
  set (t0 := {| rcv := set_connection c m; msgs := [] |}).
  assert (Hrun : wp (let* st := attempt IRecv in let* t := get in ret (msgs t, st))
    (fun _ t h' => safe c h t h' /\ exists tr, h' = tr ++ h /\ Forall neutral tr) t0 h).
  { apply wp_emits; [solve_emits; apply emits_attempt, em_IRecv|]. apply wp_bind, wp_attempt. eapply wp_mono; [by apply wp_IRecv_ok, recv_ok_connection|].
    intros o t h' Hs. by apply wp_bind, wp_get, wp_ret. }
  eapply wp_mono; [exact Hrun|]. intros o t h' ([Hok (a & b & R)] & tr & Eh & Htr).
  set (s' := set_connections _ _). assert (Hs' : s' = received_at r i (connection_ (rcv t)) (rcv t) s) by done. clearbody s'. subst s'.
  exists (see (received_at r i (connection_ (rcv t)) (rcv t) s) d).
  assert (Hcalm : calm s (received_at r i (connection_ (rcv t)) (rcv t) s)).
  { eapply calm_received; [done|done|]. by destruct R as [[? _] _]. }
  assert (HI' : Inv ((k, see (received_at r i (connection_ (rcv t)) (rcv t) s) d) :: ds) (received_at r i (connection_ (rcv t)) (rcv t) s) h').
  { rewrite <- (see_own d (received_at _ _ _ _ s)). eapply inv_calm; [exact HI|done|done|apply (i_store _ _ _ HI)|..].
    - rewrite Eh. apply acct_quiet; [done|]. exact (inv_acct k d ds s h HI).
    - cbn [received_at set_connections connections]. rewrite (insert_Permutation_delete _ _ _ _ Hc).
      apply owned_cons. split; [apply Hap|]. eapply holds_ran; [exact R|apply Hap].
    - cbn [received_at set_connections set_receivers receivers]. apply Forall_insert; [apply V|exact Hok].
    - apply (valid_clients_same s); [done|done|]. by apply receiver_conns_set.
    - apply V.
    - apply V. }
  split; [done|]. apply HQ. split; [|by exists ds, h']. eapply weak_trans; [by eapply inv_seen|by apply calm_weak].
Qed.

(** The connection of a receiver. *)
Lemma steady_Connection {B} r (g : nat -> Prog NetOp HixlCSServer B) d :
  (r < length (receiver_conns (t_seen d)))%nat ->
  (forall i s, after k d s -> has_receiver (see s d) r i -> steady k (g i) (see s d)) -> steady k (pbind (Connection r) g) d.
Proof.
  intros [i Hi]%lookup_lt_is_Some Hg Q HQ. unfold Connection.
  apply pwp_bind, (pwp_still k _ (fun o s => o = inr i /\ receiver_conns s !! r = Some i)); [done| |].
  - intros ds s h HI. assert (Hr : receiver_conns s !! r = Some i) by (by rewrite (lr_receivers _ _ (inv_seen _ _ _ _ _ HI))).
    apply wp_bind, wp_get. pose proof Hr as Hr'. unfold receiver_conns in Hr'. rewrite list_lookup_fmap in Hr'.
    destruct (receivers s !! r) as [x|]; [|done]. injection Hr' as Ex. apply wp_ret.
    split_and!; [done|by rewrite Ex|done|by eapply inv_acct|apply (i_owned _ _ _ HI)].
  - intros o s H [-> Hr]. eapply Hg; [exact H|exact Hr|]. intros o s' H'. apply HQ. by eapply after_trans.
Qed.

Lemma steady_ProClientMsg i r d : current k d -> has_receiver d r i -> steady k (ProClientMsg i r) d.
Proof using Hnet SecL.
  intros Hc Hr. unfold ProClientMsg. apply steady_bind; [by eapply steady_receive|]. intros [ms st] s H. cbn [fst snd].
  assert (Hk : known (see s d) i) by (eapply known_after; [done|by apply (has_receiver_known d r)|done]).
  apply steady_bind.
  - apply steady_for_each; [eauto with know|]. intros m d' _ (s' & H' & ->). apply steady_submit; [done|].
    apply (known_after k Hgo _ _ _ Hk H').
  - intros _ s' H'. destruct st; [apply steady_fail|apply steady_ret]; eauto with know.
Qed.

Lemma steady_HasPending i d : known d i -> steady k (conn_call i CtrlMsgPlugin_HasPending) d.
Proof using Hnet.
  intros [_ Hi]. apply steady_ran; [done|done|apply em_HasPending|]. intros c h Q. apply wp_HasPending_ran.
Qed.
End Listener.


(** ** Steps on the heap and the table of handshakes *)
Lemma grows_same s s' :
  connections s' = connections s -> receivers s' = receivers s -> endpoint_store_ s' = endpoint_store_ s ->
  epoll_fd_ (sv_listener s') = epoll_fd_ (sv_listener s) -> grows s s'.
Proof.
  intros E1 E2 E3 E4. constructor; unfold receiver_conns, endpoint_at, fd_of; rewrite ?E1, ?E2, ?E3, ?E4; try done.
  intros h e E. exists e. split; [done|apply same_refl].
Qed.
Record moves (s s' : HixlCSServer) : Prop := {
  m_grows : grows s s';
  m_listener : sv_listener s' = set_pending (pending_of s') (sv_listener s);
  m_handler : msg_handler_ s' = msg_handler_ s;
  m_flags : sv_flags s' = sv_flags s;
  m_store : endpoint_store_ s' = endpoint_store_ s;
  m_clients : sv_clients s' = sv_clients s
}.

Lemma moves_listener s s' : moves s s' ->
  listener_connection_ (sv_listener s') = listener_connection_ (sv_listener s) /\
  epoll_fd_ (sv_listener s') = epoll_fd_ (sv_listener s) /\
  listener_running_ (sv_listener s') = listener_running_ (sv_listener s) /\
  listener_ (sv_listener s') = listener_ (sv_listener s).
Proof. intros H. by rewrite (m_listener _ _ H). Qed.

Lemma moves_heap s s' :
  grows s s' -> sv_listener s' = sv_listener s -> msg_handler_ s' = msg_handler_ s -> sv_flags s' = sv_flags s ->
  endpoint_store_ s' = endpoint_store_ s -> sv_clients s' = sv_clients s -> moves s s'.
Proof. intros Hg E. constructor; try done. unfold pending_of. rewrite E. by destruct (sv_listener s). Qed.

Lemma moves_owned s s' : moves s s' -> srv_owned s' = srv_owned s.
Proof.
  intros H. destruct (moves_listener _ _ H) as (_ & E & _). unfold srv_owned, flags_owned.
  by rewrite (m_store _ _ H), (m_flags _ _ H), E.
Qed.

Lemma moves_valid {cfg : ServerConfig} s s' :
  valid s -> moves s s' -> Forall (fun r => recv_ok (rc_receiver r)) (receivers s') ->
  (forall i, i ∈ refs s' ++ receiver_conns s' -> (i < length (connections s'))%nat) ->
  std_map_wf (pending_of s') -> NoDup (pending_conns s') ->
  (forall i, listener_connection_ (sv_listener s) = Some i -> i ∉ pending_conns s' /\ ~ published s' i) ->
  (TlsEnabled = true -> (length (pending_of s') <= kMaxPendingHandshakes)%nat) -> valid s'.
Proof.
  intros [V1 V2 V3 V4 V5 V6 V7 V8 V9 V10 V11 V12 V13 V14 V15] H H1 H2 H3 H4 H5 H6.
  destruct (moves_listener _ _ H) as (E1 & E2 & E3 & E4).
  assert (Hp : forall i, published s i -> published s' i) by (intros i; apply published_grows, H).
  assert (Epo : pool_of s' = pool_of s) by (unfold pool_of; by rewrite (m_handler _ _ H)).
  constructor; rewrite ?E1, ?E2, ?E4, ?(m_clients _ _ H), ?(m_handler _ _ H), ?Epo; try done.
  - intros fd r Hin. specialize (V3 _ _ Hin). destruct (g_receivers _ _ (m_grows _ _ H)) as [l El].
    assert (Hl : length (receiver_conns s') = (length (receiver_conns s) + length l)%nat) by (by rewrite El, length_app).
    unfold receiver_conns in Hl. rewrite !length_fmap in Hl. lia.
  - intros i Hi. by apply Hp, V4.
  - intros q Hq. by apply Hp, V5.
  - intros p t Ep Ht. by eapply Hp, V6.
  - intros Ef. destruct (V12 Ef) as [U1 U2 U3 U4 U5 U6 U7 U8 U9].
    constructor; rewrite ?E1, ?E2, ?E3, ?E4, ?(m_handler _ _ H), ?(m_flags _ _ H), ?Epo; done.
Qed.

Section Moves.
Context {codes : AclCodes} {again : HcclAgain} {clib : CLibrary} {cfg : ServerConfig}.
Context {env : Environment NetOp} {Hnet : NetLaws env} {Hhc : HcLaws env}.
Implicit Types (s : HixlCSServer) (i r : nat).
Let k := TListener.
Let Hgo : goes_on k := I.

(** The tokens of the listener thread. *)
Definition ltok s (C Md : list nat) : Token := {| t_res := []; t_conns := C; t_mid := Md; t_stopping := false; t_seen := s |}.

Lemma moves_others d ds s s' h k' : Inv ((k, d) :: ds) s h -> moves s s' -> k' ∈ ds.*1 -> rely k' s s'.
Proof.
  intros HI H Hin. destruct (moves_listener _ _ H) as (E1 & E2 & E3 & E4). pose proof (m_grows _ _ H) as Hg.
  destruct k' as [c| | | |t]; cbn [rely]; [|exfalso| |..].
  - split; [|intros Hq; exfalso; by eapply (busy_not_quiet k); [exact HI| | |exact Hq]].
    constructor; unfold pool_of, endpoint_at; rewrite ?E1, ?E2, ?E3, ?E4, ?(m_handler _ _ H), ?(m_flags _ _ H), ?(m_store _ _ H); done.
  - assert (role k = None) by (by eapply (other_role k)). done.
  - done.
  - intros Hr. constructor; [done|]. by rewrite (m_handler _ _ H).
  - done.
Qed.

Lemma other_mids d ds s h : Inv ((k, d) :: ds) s h -> mids_of ds = [].
Proof.
  intros HI. assert (Hl : listener_ (sv_listener s) = Running) by (apply (i_listener _ _ _ HI); by left).
  pose proof (i_mid _ _ _ HI) as Hm. apply Forall_cons in Hm as [_ Hm].
  assert (Hno : TListener ∉ ds.*1) by (intros Hin; assert (role k = None) by (by eapply (other_role k)); done).
  clear HI. induction ds as [|[k' e] ds IH]; [done|]. apply Forall_cons in Hm as [H1 Hm].
  change (mids_of ((k', e) :: ds)) with (t_mid e ++ mids_of ds).
  cbn [fmap list_fmap fst snd] in *. apply not_elem_of_cons in Hno as [Hk Hno]. rewrite IH by done.
  destruct H1 as [->|[?|[_ ?]]]; [done|congruence|congruence].
Qed.

Lemma listener_step d d' ds s s' h h' :
  Inv ((k, d) :: ds) s h -> moves s s' -> acct (srv_owned s ++ t_res d' ++ res_of ds) h' ->
  CtrlConnSafety.owned (connections s') h' -> valid s' ->
  (forall i, 0 <= fd_of s' i -> i ∈ refs s' \/ i ∈ t_conns d' \/ i ∈ conns_of ds) ->
  (forall fd p, (fd, p) ∈ pending_of s' -> ph_connection p ∈ t_mid d' \/ filed s' fd (ph_connection p)) ->
  t_seen d' = s' -> t_stopping d' = t_stopping d -> Inv ((k, d') :: ds) s' h'.
Proof.
  intros HI H Ha Ho V Hop Hpe Es Et. destruct (moves_listener _ _ H) as (E1 & E2 & E3 & E4).
  eapply inv_same; [exact HI|..]; try done.
  - rewrite (m_store _ _ H). apply (i_store _ _ _ HI).
  - by rewrite (moves_owned _ _ H).
  - intros fd p Hp. destruct (Hpe fd p Hp); [by left|by right; right].
  - rewrite Es. apply listener_rely_refl.
  - intros k' Hin. by eapply moves_others.
  - unfold control, pool_of. by rewrite E3, E4, (m_handler _ _ H).
  - by right; left.
Qed.

Lemma now_inv s C Md : Now k (ltok s C Md) -> exists ds h, Inv ((k, ltok s C Md) :: ds) s h.
Proof. done. Qed.

(** ** A handshake leaves its table *)
Definition erased (fd : Z) s : HixlCSServer := set_listener (set_pending (std_erase fd (pending_of s)) (sv_listener s)) s.

Lemma pending_conns_erase fd p s :
  std_map_wf (pending_of s) -> std_find fd (pending_of s) = Some p ->
  pending_conns s ≡ₚ ph_connection p :: pending_conns (erased fd s).
Proof.
  intros W E. unfold pending_conns. apply (fmap_Permutation (fun it : Z * PendingHandshake => ph_connection it.2) _ _) with (1 := std_erase_perm _ _ _ W E).
Qed.

Lemma pwp_erase fd p s0 C' Md (Q : Status + unit -> Token -> Prop) :
  std_find fd (pending_of s0) = Some p -> (forall j, j ∈ Md -> j = ph_connection p) ->
  C' = [ph_connection p] \/ (C' = [] /\ (fd_of s0 (ph_connection p) = -1 \/ ph_connection p ∈ connections_to_close s0)) ->
  (forall s', grows s0 s' -> Now k (ltok s' C' []) -> pending_of s' = std_erase fd (pending_of s0) ->
     ph_connection p ∉ pending_conns s' -> (fd_of s0 (ph_connection p) = -1 -> fd_of s' (ph_connection p) = -1) ->
     Q (inr tt) (ltok s' C' [])) ->
  pwp Inv k (atomic (erase_pending fd)) (ltok s0 [] Md) Q.
Proof using Hnet Hhc.
  intros Hp HM HC HQ. apply pwp_atomic. intros ds s h HI. pose proof (seen _ _ _ _ _ HI) as Hr. cbn [t_seen ltok k rely] in Hr.
  pose proof (i_valid _ _ _ HI) as V. assert (Hp' : std_find fd (pending_of s) = Some p) by (by rewrite (lr_pending _ _ Hr)).
  assert (Ep := pending_conns_erase fd p s (v_pending_wf _ V) Hp').
  assert (Hnd := v_pending_nodup _ V). rewrite Ep in Hnd. apply NoDup_cons in Hnd as [Hni Hnd].
  eapply wp_zoom; [done|]. apply wp_modify. change (set_listener _ s) with (erased fd s). exists (ltok (erased fd s) C' []).
  assert (Hsub : forall i, i ∈ pending_conns (erased fd s) -> i ∈ pending_conns s) by (intros i Hi; rewrite Ep; by right).
  assert (Hm : moves s (erased fd s)) by (by constructor; [by apply grows_same|..]).
  assert (HI' : Inv ((k, ltok (erased fd s) C' []) :: ds) (erased fd s) h).
  { eapply listener_step; [exact HI|exact Hm|apply (i_acct _ _ _ HI)|apply (i_owned _ _ _ HI)|..]; try done.
    - apply (moves_valid s); [done|done|apply V| |by apply std_erase_wf, V|done| |].
      + intros i Hi. apply (v_conn _ V). unfold refs in *. rewrite !elem_of_app in Hi |- *.
        destruct Hi as [[?|[?|?]]|?]; [by left; left|left; right; left; by apply Hsub|by left; right; right|by right].
      + intros i Ei. destruct (v_lc _ V i Ei) as [H1 H2]. split; [|done]. intros Hi. by apply H1, Hsub.
      + intros Ht. etrans; [|by apply (v_bound _ V)]. rewrite (std_erase_perm _ _ _ (v_pending_wf _ V) Hp').
        cbn [length]. change (pending_of (erased fd s)) with (std_erase fd (pending_of s)). lia.
    - intros i Hi. change (fd_of (erased fd s) i) with (fd_of s i) in Hi.
      destruct (i_open _ _ _ HI i Hi) as [Hin|Hin]; [|by right; right].
      unfold refs in Hin |- *. rewrite !elem_of_app in Hin |- *. destruct Hin as [?|[Hin|?]]; [by left; left| |by left; right; right].
      rewrite Ep in Hin. apply elem_of_cons in Hin as [->|Hin]; [|by left; right; left].
      destruct HC as [->|[-> [Hc|Hc]]]; [right; left; by left| |].
      + pose proof (listener_closed _ _ _ Hr Hc). lia.
      + destruct (lr_shelved _ _ Hr _ Hc) as [?|?]; [lia|by left; right; right].
    - intros fd' p' Hin. right. assert (Hold : (fd', p') ∈ pending_of s) by (by apply std_erase_elem in Hin as [_ Hin]; [|apply V]).
      destruct (i_pending _ _ _ HI _ _ Hold) as [Hmid|Hf]; [exfalso|done].
      assert (Hmid' : ph_connection p' ∈ Md).
      { change (mids_of ((k, ltok s0 [] Md) :: ds)) with (Md ++ mids_of ds) in Hmid. rewrite (other_mids _ _ _ _ HI), app_nil_r in Hmid. done. }
      apply HM in Hmid'. apply Hni. rewrite <- Hmid'. apply list_elem_of_fmap. by exists (fd', p'). }
  split; [done|]. apply HQ.
  - eapply grows_trans; [apply (lr_grows _ _ Hr)|apply Hm].
  - by exists ds, h.
  - change (pending_of (erased fd s)) with (std_erase fd (pending_of s)). by rewrite (lr_pending _ _ Hr).
  - done.
  - by apply (listener_closed s0 s).
Qed.

(** ** A connection is closed *)
Lemma pwp_close i s0 C Md Md' (Q : Status + unit -> Token -> Prop) :
  (i < length (connections s0))%nat -> (forall j, j ∈ C -> j = i) ->
  (Md' = [i] /\ (forall j, j ∈ Md -> j = i)) \/ (Md' = [] /\ Md = [] /\ i ∉ pending_conns s0) ->
  (forall o s', grows s0 s' -> Now k (ltok s' [] Md') -> pending_of s' = pending_of s0 -> fd_of s' i = -1 -> Q o (ltok s' [] Md')) ->
  pwp Inv k (conn_call i CtrlMsgPlugin_Close) (ltok s0 C Md) Q.
Proof using Hnet Hhc.
  intros Hi HC HM HQ. apply pwp_atomic. intros ds s h HI. pose proof (seen _ _ _ _ _ HI) as Hr. cbn [t_seen ltok k rely] in Hr.
  destruct (seen_conn _ _ _ _ _ _ HI Hgo Hi) as [c Hc]. pose proof (i_valid _ _ _ HI) as V. assert (Hl := lookup_lt_Some _ _ _ Hc).
  eapply (wp_on_conn i c _ (fun _ c' => fd_ c' = -1)).
  - exact Hc.
  - apply (i_owned _ _ _ HI).
  - apply (i_acct _ _ _ HI).
  - apply em_Close.
  - intros F S Hh. apply (wp_CloseLocked F S); [done|]. by intros o c' h' H' E _.
  - intros o c' h' Ef Ho Ha. exists (ltok (put_conn i c' s) [] Md').
    assert (Efd : forall j, fd_of (put_conn i c' s) j = if decide (j = i) then -1 else fd_of s j).
    { intros j. rewrite fd_of_put by done. case_decide; [done|done]. }
    assert (Hg : grows s (put_conn i c' s)).
    { constructor; try done.
      - cbn. by rewrite length_insert.
      - intros hd e E. exists e. split; [exact E|apply same_refl].
      - intros j _ Hj. rewrite Efd. by case_decide. }
    assert (HI' : Inv ((k, ltok (put_conn i c' s) [] Md') :: ds) (put_conn i c' s) h').
    { eapply listener_step; [exact HI|by apply moves_heap|exact Ha|exact Ho|..]; try done.
      - apply (moves_valid s); try apply V; [by apply moves_heap|]. cbn. rewrite length_insert. apply V.
      - intros j Hj. rewrite Efd in Hj. case_decide as E; [lia|].
        destruct (i_open _ _ _ HI j Hj) as [Hin|Hin]; [by left|].
        change (conns_of ((k, ltok s0 C Md) :: ds)) with (C ++ conns_of ds) in Hin. apply elem_of_app in Hin as [Hin|Hin]; [|by right; right].
        by apply HC in Hin.
      - intros fd p Hp. change (pending_of (put_conn i c' s)) with (pending_of s) in Hp.
        assert (Hin : ph_connection p ∈ pending_conns s) by (apply list_elem_of_fmap; by exists (fd, p)).
        destruct (decide (ph_connection p = i)) as [Ei|Ei].
        { left. destruct HM as [[-> _]|(_ & _ & Hno)]; [by rewrite Ei; left|]. exfalso. apply Hno.
          unfold pending_conns in *. rewrite <- (lr_pending _ _ Hr), <- Ei. exact Hin. }
        right. destruct (i_pending _ _ _ HI _ _ Hp) as [Hmid|[F1 F2]].
        + exfalso. change (mids_of ((k, ltok s0 C Md) :: ds)) with (Md ++ mids_of ds) in Hmid.
          rewrite (other_mids _ _ _ _ HI), app_nil_r in Hmid. destruct HM as [[_ HM]|(_ & -> & _)]; [by apply HM in Hmid|by apply elem_of_nil in Hmid].
        + split; [|exact F2]. rewrite Efd. by rewrite decide_False. }
    split; [done|]. apply HQ.
    + eapply grows_trans; [apply (lr_grows _ _ Hr)|exact Hg].
    + by exists ds, h'.
    + apply (lr_pending _ _ Hr).
    + rewrite Efd. by rewrite decide_True.
Qed.

(** ** A new connection *)

(** A connection that only the listener thread has heard of. *)
Record outsider (s : HixlCSServer) (i : nat) : Prop := {
  o_open : 0 <= fd_of s i;
  o_conn : (i < length (connections s))%nat;
  o_unpublished : ~ published s i;
  o_pending : i ∉ pending_conns s;
  o_lc : listener_connection_ (sv_listener s) <> Some i
}.
Lemma outsider_rely s s' i : listener_rely s s' -> outsider s i -> outsider s' i.
Proof.
  intros H [H1 H2 H3 H4 H5]. constructor.
  - by rewrite (lr_fd _ _ H).
  - by rewrite (lr_conns _ _ H).
  - unfold published. by rewrite (lr_receivers _ _ H).
  - unfold pending_conns. by rewrite (lr_pending _ _ H).
  - by rewrite (lr_lc _ _ H).
Qed.

Definition accepted (l : nat) (c c2 : Conn) s : HixlCSServer := set_connections (<[l := c]> (connections s) ++ [c2]) s.

Lemma fd_of_accepted l c c2 s i : connections s !! l = Some c ->
  fd_of (accepted l c c2 s) i = if decide (i = length (connections s)) then fd_ c2 else fd_of s i.
Proof.
  intros Hl. unfold fd_of. cbn [accepted connections set_connections]. rewrite list_insert_id by done. case_decide as E.
  - subst i. rewrite lookup_app_r, Nat.sub_diag by done. done.
  - destruct (decide (i < length (connections s))%nat) as [Hlt|Hge]; [by rewrite lookup_app_l|].
    rewrite !lookup_ge_None_2; [done|lia|rewrite length_app; cbn; lia].
Qed.

Lemma seen_lc d ds s h : Inv ((k, d) :: ds) s h ->
  exists l c, listener_connection_ (sv_listener s) = Some l /\ connections s !! l = Some c.
Proof.
  intros HI. pose proof (i_valid _ _ _ HI) as V. assert (Hl : listener_ (sv_listener s) = Running) by (apply (i_listener _ _ _ HI); by left).
  destruct (v_listener _ V) as [[l El] _]; [by rewrite Hl|].
  assert (Hlt : (l < length (connections s))%nat).
  { apply (v_conn _ V), elem_of_app. left. apply elem_of_app. left. rewrite El. by left. }
  apply lookup_lt_is_Some in Hlt as [c Hc]. by exists l, c.
Qed.

Lemma accepted_inv s0 ds s h l c c2 :
  Inv ((k, ltok s0 [] []) :: ds) s h -> connections s !! l = Some c -> 0 <= fd_ c2 -> 
  forall h', acct (srv_owned s ++ res_of ds) h' -> CtrlConnSafety.owned (connections s ++ [c2]) h' ->
  Inv ((k, ltok (accepted l c c2 s) [length (connections s)] []) :: ds) (accepted l c c2 s) h' /\
  outsider (accepted l c c2 s) (length (connections s)) /\ grows s (accepted l c c2 s).
Proof using Hnet Hhc.
  intros HI Hc Hp h' Ha Ho. set (i := length (connections s)). set (s' := accepted l c c2 s).
  pose proof (i_valid _ _ _ HI) as V. assert (Efd := fun j => fd_of_accepted l c c2 s j Hc). fold i s' in Efd.
  assert (Hlen : length (connections s') = S i).
  { cbn. rewrite list_insert_id, length_app by done. cbn. lia. }
  assert (Hold : forall j, j ∈ refs s ++ receiver_conns s -> j <> i).
  { intros j Hj ->. apply (v_conn _ V) in Hj. unfold i in Hj. lia. }
  assert (Hg : grows s s').
  { constructor; try done.
    - rewrite Hlen. unfold i. lia.
    - intros hd e E. exists e. split; [exact E|apply same_refl].
    - intros j Hj E. rewrite Efd. rewrite decide_False; [done|]. apply Hold, elem_of_app. by right. }
  split_and!; [|constructor|done].
  - eapply listener_step; [exact HI|by apply moves_heap|exact Ha|..]; try done.
    + cbn. rewrite list_insert_id by done. exact Ho.
    + apply (moves_valid s); try apply V; [by apply moves_heap|]. intros j Hj. rewrite Hlen.
      apply (v_conn _ V) in Hj. unfold i. lia.
    + intros j Hj. rewrite Efd in Hj. case_decide as E; [right; left; rewrite E; by left|].
      destruct (i_open _ _ _ HI j Hj) as [?|?]; [by left|by right; right].
    + intros fd p Hin. right. assert (Hmem : ph_connection p ∈ pending_conns s) by (apply list_elem_of_fmap; by exists (fd, p)).
      destruct (i_pending _ _ _ HI _ _ Hin) as [Hmid|[F1 F2]].
      * change (mids_of ((k, ltok s0 [] []) :: ds)) with (mids_of ds) in Hmid. rewrite (other_mids _ _ _ _ HI) in Hmid. by apply elem_of_nil in Hmid.
      * split; [|exact F2]. rewrite Efd, decide_False; [done|]. apply Hold. unfold refs. rewrite !elem_of_app. left; right; by left.
  - rewrite Efd. by rewrite decide_True.
  - rewrite Hlen. lia.
  - intros Hj. apply (Hold i); [|done]. apply elem_of_app. by right.
  - intros Hj. apply (Hold i); [|done]. unfold refs. rewrite !elem_of_app. left; right; by left.
  - intros E. change (listener_connection_ (sv_listener s) = Some i) in E. apply (Hold i); [|done].
    unfold refs. rewrite E, !elem_of_app. left; left. by left.
Qed.

Lemma pwp_accept s0 (Q : Status + option nat -> Token -> Prop) :
  (forall e s', after k (ltok s0 [] []) s' -> Q (inl e) (ltok s' [] [])) ->
  (forall s', after k (ltok s0 [] []) s' -> Q (inr None) (ltok s' [] [])) ->
  (forall i s', grows s0 s' -> Now k (ltok s' [i] []) -> outsider s' i -> Q (inr (Some i)) (ltok s' [i] [])) ->
  pwp Inv k (atomic accept) (ltok s0 [] []) Q.
Proof using Hnet Hhc.
  intros HE HN HQ. apply pwp_atomic. intros ds s h HI. destruct (seen_lc _ _ _ _ HI) as (l & c & El & Hc).
  assert (Hl := lookup_lt_Some _ _ _ Hc). assert (Hap : apart (delete l (connections s)) /\
    holds c h (fd_set (delete l (connections s))) (ssl_set (delete l (connections s)))).
  { apply owned_cons. rewrite <- (delete_Permutation (connections s) l c Hc). apply (i_owned _ _ _ HI). }
  assert (Hsame : forall h', holds c h' (fd_set (delete l (connections s))) (ssl_set (delete l (connections s))) ->
            acct (srv_owned s ++ res_of ds) h' -> Inv ((k, ltok (put_conn l c s) [] []) :: ds) (put_conn l c s) h' /\
            after k (ltok s0 [] []) (put_conn l c s)).
  { intros h' Hh Ha. assert (Hcalm := calm_put _ _ c _ Hc (or_introl eq_refl)). pose proof (i_valid _ _ _ HI) as V.
    assert (HI' : Inv ((k, ltok (put_conn l c s) [] []) :: ds) (put_conn l c s) h').
    { change (ltok (put_conn l c s) [] []) with (with_res [] (see (put_conn l c s) (ltok s0 [] []))). eapply inv_calm; [exact HI|done|done|apply (i_store _ _ _ HI)|exact Ha| |apply V|by apply (valid_clients_same s)|apply V..].
      cbn. rewrite (insert_Permutation_delete _ _ _ _ Hc). apply owned_cons. split; [apply Hap|done]. }
    split; [exact HI'|]. split; [|by exists ds, h']. eapply weak_trans; [by eapply inv_seen|by apply calm_weak]. }
  unfold accept. apply wp_bind, wp_get. rewrite El.
  assert (Hrun : wp (on_conn l CtrlMsgPlugin_Accept) (fun o s' h' => s' = put_conn l c s /\ acct (srv_owned s ++ res_of ds) h' /\
     match o with
     | inr (Some c2) => 0 <= fd_ c2 /\ CtrlConnSafety.owned (connections s ++ [c2]) h'
     | _ => holds c h' (fd_set (delete l (connections s))) (ssl_set (delete l (connections s)))
     end) s h).
  { eapply wp_zoom; [exact Hc|].
    assert (Hw : wp CtrlMsgPlugin_Accept (fun o c' h' => c' = c /\ match o with
       | inr (Some c2) => 0 <= fd_ c2 /\ CtrlConnSafety.owned (connections s ++ [c2]) h'
       | _ => holds c h' (fd_set (delete l (connections s))) (ssl_set (delete l (connections s))) end) c h).
    { apply (wp_Accept _ c h _ _ (proj2 Hap)); [done|done|]. intros c2 h' H1 H2 H3 H4. split_and!; [done|done|].
      assert (Hid : session_id c2 = None) by (unfold session_id; by rewrite H2).
      rewrite <- Permutation_cons_append, (delete_Permutation (connections s) l c Hc), (perm_swap c c2). apply owned_cons.
      rewrite fd_set_cons, ssl_set_cons, fds_fd, ssls_none, (left_id_L ∅ (∪)) by done. split; [|done].
      apply apart_cons. rewrite fds_fd, ssls_none by done.
      split_and!; [intros x Hx; congruence|by apply disjoint_singleton_l|by apply disjoint_empty_l|apply Hap]. }
    eapply wp_mono; [apply wp_emits; [apply em_Accept|exact Hw]|]. intros o c' h' ((-> & Ho) & t & -> & Ht).
    split_and!; [done| |exact Ho]. apply acct_quiet; [done|apply (i_acct _ _ _ HI)]. }
  apply wp_bind. eapply wp_mono; [exact Hrun|]. intros [e|[c2|]] s' h' (-> & Ha & Ho).
  - destruct (Hsame h' Ho Ha) as [HI' Haf]. exists (ltok (put_conn l c s) [] []). split; [done|]. by apply HE.
  - destruct Ho as [Hp Ho]. destruct (accepted_inv _ _ _ _ l c c2 HI Hc Hp h' Ha Ho) as (HI' & Hout & Hg).
    apply wp_bind. unfold new_connection. apply wp_bind, wp_get, wp_bind, wp_modify, wp_ret, wp_ret.
    cbn [connections put_conn set_connections]. rewrite length_insert.
    exists (ltok (accepted l c c2 s) [length (connections s)] []). split; [exact HI'|]. apply HQ; [|by exists ds, h'|exact Hout].
    eapply grows_trans; [|exact Hg]. apply (lr_grows _ _ (inv_seen _ _ _ _ _ HI)).
  - destruct (Hsame h' Ho Ha) as [HI' Haf]. apply wp_ret. exists (ltok (put_conn l c s) [] []). split; [done|]. by apply HN.
Qed.

(** ** Into the table of handshakes *)
Lemma set_connections_id s i c : connections s !! i = Some c -> set_connections (<[i := c]> (connections s)) s = s.
Proof. intros H. rewrite list_insert_id by done. by destruct s. Qed.
Lemma set_listener_id s : set_listener (set_epoll (epoll_fd_ (sv_listener s)) (sv_listener s)) s = s.
Proof. destruct s as [? ? ? l ? ? ? ? ?]. by destruct l. Qed.

(** With an epoll instance, nothing changes. *)
Lemma wp_AddToEpoll i c (Q : Status + unit -> HixlCSServer -> History NetOp -> Prop) s h :
  connections s !! i = Some c -> 0 <= epoll_fd_ (sv_listener s) -> (forall e, Q (inl e) s h) ->
  (forall o (x : Z * Z) ev, 0 <= fd_ c -> Q o s (Ev (Hc (EpollAdd (epoll_fd_ (sv_listener s)) (fd_ c) ev)) x :: h)) ->
  wp (AddToEpoll i) Q s h.
Proof.
  intros Hc Hp HE HQ. unfold AddToEpoll. apply wp_bind, wp_get. rewrite Hc.
  assert (Eid : set_connections (<[i := c]> (connections s)) (set_listener (set_epoll (epoll_fd_ (sv_listener s)) (sv_listener s)) s) = s).
  { rewrite set_listener_id. by apply set_connections_id. }
  eapply wp_zoom; [done|]. cbn [fst snd]. unfold CtrlMsgPlugin_AddToEpoll. apply wp_bind, wp_get. cbn [fst snd].
  apply wp_bind, wp_require; intros Hfd; [|cbn [fst snd]; by rewrite Eid].
  apply wp_bind. rewrite (proj2 (Z.ltb_ge _ _)) by done. apply wp_ret, wp_bind, wp_get. cbn [fst snd].
  apply wp_bind, wp_call. intros [rc errno] _. apply Z.leb_le in Hfd.
  apply wp_require; intros _; cbn [fst snd]; rewrite Eid; by apply HQ.
Qed.

Lemma pwp_AddToEpoll i d (Q : Status + unit -> Token -> Prop) :
  (i < length (connections (t_seen d)))%nat ->
  (forall o s, after k d s -> (o = inr tt -> 0 <= fd_of s i) -> Q o (see s d)) -> pwp Inv k (atomic (AddToEpoll i)) d Q.
Proof using Hnet Hhc.
  intros Hi HQ. apply (pwp_still k _ (fun o s => o = inr tt -> 0 <= fd_of s i)); [done| |done].
  intros ds s h HI. destruct (seen_conn _ _ _ _ _ _ HI Hgo Hi) as [c Hc]. pose proof (i_valid _ _ _ HI) as V.
  destruct (v_listener _ V) as [_ Hp]; [by rewrite (i_listener _ _ _ HI); [|by left]|].
  apply (wp_AddToEpoll i c); [done|done| |].
  - intros e. split_and!; [done|done|by eapply inv_acct|apply (i_owned _ _ _ HI)].
  - intros o r ev Hfd. split_and!; [done|by rewrite (fd_of_at _ _ _ Hc)| |].
    + apply acct_neutral; [by eapply inv_acct| |done|done]. unfold needs_own. cbn [hc_needs].
      rewrite (proj2 (Z.leb_le _ _)) by done. split; [|done]. apply elem_of_app. left. by apply epoll_owned_in.
    + apply (owned_silent _ [_]); [|apply (i_owned _ _ _ HI)]. apply Forall_singleton. by repeat split.
Qed.

Lemma fds_distinct W h i j c c' :
  CtrlConnSafety.owned W h -> W !! i = Some c -> W !! j = Some c' -> fd_ c = fd_ c' -> 0 <= fd_ c -> i = j.
Proof.
  intros ((_ & Hnd & _) & _) Hi Hj E Hp. destruct (decide (i = j)) as [|Hne]; [done|exfalso].
  rewrite (delete_Permutation W i c Hi) in Hnd. cbn [omap list_omap] in Hnd. unfold conn_fd at 1 in Hnd.
  rewrite (proj2 (Z.leb_le _ _)) in Hnd by done. apply NoDup_cons in Hnd as [Hni _]. apply Hni. apply list_elem_of_omap.
  exists c'. unfold conn_fd. rewrite <- E, (proj2 (Z.leb_le _ _)) by done. split; [|done].
  rewrite delete_take_drop. apply elem_of_app. destruct (decide (j < i)%nat).
  - left. eapply list_elem_of_lookup_2. by rewrite lookup_take_lt.
  - right. apply (list_elem_of_lookup_2 _ (j - S i)). rewrite lookup_drop. by replace (S i + (j - S i))%nat with j by lia.
Qed.

Definition filed_at (fd : Z) (p : PendingHandshake) s : HixlCSServer := set_listener (set_pending (std_set fd p (pending_of s)) (sv_listener s)) s.

Lemma pwp_add_pending fd p s0 (Q : Status + unit -> Token -> Prop) :
  outsider s0 (ph_connection p) -> fd = fd_of s0 (ph_connection p) ->
  (TlsEnabled = true -> (length (pending_of s0) < kMaxPendingHandshakes)%nat) ->
  (forall s', grows s0 s' -> Now k (ltok s' [] []) -> std_find fd (pending_of s') = Some p -> Q (inr tt) (ltok s' [] [])) ->
  pwp Inv k (atomic (add_pending fd p)) (ltok s0 [ph_connection p] []) Q.
Proof using Hnet Hhc.
  intros Hout0 Efd0 Hroom HQ. apply pwp_atomic. intros ds s h HI. pose proof (seen _ _ _ _ _ HI) as Hr. cbn [t_seen ltok k rely] in Hr.
  pose proof (outsider_rely _ _ _ Hr Hout0) as Hout. pose proof (i_valid _ _ _ HI) as V. set (i := ph_connection p) in *.
  assert (Efd : fd_of s i = fd) by (rewrite Efd0; apply (lr_fd _ _ Hr), Hout0).
  assert (Hfiled : forall fd' p', (fd', p') ∈ pending_of s -> filed s fd' (ph_connection p') /\ ph_connection p' <> i).
  { intros fd' p' Hin. assert (Hmem : ph_connection p' ∈ pending_conns s) by (apply list_elem_of_fmap; by exists (fd', p')).
    split; [|intros E; rewrite E in Hmem; by apply (o_pending _ _ Hout)].
    destruct (i_pending _ _ _ HI _ _ Hin) as [Hmid|Hf]; [|done]. exfalso.
    change (mids_of ((k, ltok s0 [i] []) :: ds)) with (mids_of ds) in Hmid. rewrite (other_mids _ _ _ _ HI) in Hmid. by apply elem_of_nil in Hmid. }
  assert (Hnone : std_find fd (pending_of s) = None).
  { destruct (std_find fd (pending_of s)) as [p'|] eqn:E; [exfalso|done]. apply std_find_elem in E; [|apply V].
    destruct (Hfiled _ _ E) as [[F _] Hne]. apply Hne. destruct (lookup_lt_is_Some_2 _ _ (o_conn _ _ Hout)) as [c Hc].
    rewrite (fd_of_at _ _ _ Hc) in Efd. unfold fd_of in F. pose proof (o_open _ _ Hout) as Hp. rewrite (fd_of_at _ _ _ Hc) in Hp.
    destruct (connections s !! ph_connection p') as [c'|] eqn:Hc'; cbn [from_option] in F; [|lia].
    eapply fds_distinct; [apply (i_owned _ _ _ HI)|exact Hc'|exact Hc|congruence|lia]. }
  assert (Epend : std_set fd p (pending_of s) ≡ₚ (fd, p) :: pending_of s).
  { rewrite std_set_perm by apply V. by rewrite std_erase_none. }
  assert (Epc : pending_conns (filed_at fd p s) ≡ₚ i :: pending_conns s).
  { unfold pending_conns. apply (fmap_Permutation (fun it : Z * PendingHandshake => ph_connection it.2) _ _ Epend). }
  eapply wp_zoom; [done|]. apply wp_modify. change (pending_handshakes_ (sv_listener s)) with (pending_of s). rewrite Hnone.
  change (set_listener _ s) with (filed_at fd p s). exists (ltok (filed_at fd p s) [] []).
  assert (Hm : moves s (filed_at fd p s)) by (by constructor; [by apply grows_same|..]).
  assert (HI' : Inv ((k, ltok (filed_at fd p s) [] []) :: ds) (filed_at fd p s) h).
  { eapply listener_step; [exact HI|exact Hm|apply (i_acct _ _ _ HI)|apply (i_owned _ _ _ HI)|..]; try done.
    - apply (moves_valid s); [done|done|apply V| |by apply std_set_wf, V| | |].
      + intros j Hj. unfold refs in Hj. rewrite !elem_of_app, Epc, elem_of_cons in Hj.
        assert (Hj' : j = i \/ j ∈ refs s ++ receiver_conns s).
        { unfold refs. rewrite !elem_of_app. destruct Hj as [[?|[[?|?]|?]]|?]; [by right; left; left|by left|by right; left; right; left|by right; left; right; right|by right; right]. }
        destruct Hj' as [->|Hj']; [apply (o_conn _ _ Hout)|by apply (v_conn _ V)].
      + rewrite Epc. apply NoDup_cons. split; [apply (o_pending _ _ Hout)|apply V].
      + intros l El. destruct (v_lc _ V l El) as [H1 H2]. split; [|done]. rewrite Epc, elem_of_cons.
        intros [->|?]; [by apply (o_lc _ _ Hout)|done].
      + intros Ht. change (pending_of (filed_at fd p s)) with (std_set fd p (pending_of s)). rewrite Epend. cbn [length].
        specialize (Hroom Ht). rewrite (lr_pending _ _ Hr). lia.
    - intros j Hj. change (fd_of (filed_at fd p s) j) with (fd_of s j) in Hj. unfold refs. rewrite !elem_of_app, Epc, elem_of_cons.
      destruct (i_open _ _ _ HI j Hj) as [Hin|Hin].
      + left. unfold refs in Hin. rewrite !elem_of_app in Hin. destruct Hin as [?|[?|?]]; [by left|right; left; by right|by right; right].
      + change (conns_of ((k, ltok s0 [i] []) :: ds)) with (i :: conns_of ds) in Hin. apply elem_of_cons in Hin as [->|Hin]; [left; right; left; by left|by right; right].
    - intros fd' p' Hin. right. change (pending_of (filed_at fd p s)) with (std_set fd p (pending_of s)) in Hin.
      rewrite Epend in Hin. apply elem_of_cons in Hin as [[= -> ->]|Hin]; [|by apply Hfiled].
      split; [exact Efd|apply Hout]. }
  split; [done|]. apply HQ; [|by exists ds, h|apply std_find_set_same].
  eapply grows_trans; [apply (lr_grows _ _ Hr)|apply Hm].
Qed.

(** ** A step of a handshake *)
Lemma in_pending s fd p : std_map_wf (pending_of s) -> std_find fd (pending_of s) = Some p ->
  (fd, p) ∈ pending_of s /\ ph_connection p ∈ pending_conns s.
Proof. intros W E. apply std_find_elem in E; [|done]. split; [done|]. apply list_elem_of_fmap. by exists (fd, p). Qed.
Lemma pending_lt s i : valid s -> i ∈ pending_conns s -> (i < length (connections s))%nat.
Proof. intros V Hi. apply (v_conn _ V). unfold refs. rewrite !elem_of_app. left; right; by left. Qed.

Lemma pwp_handshake_step fd p s0 (Q : Status + TlsHandshakeState -> Token -> Prop) :
  std_find fd (pending_of s0) = Some p ->
  (forall o s', after k (ltok s0 [] []) s' -> Q o (ltok s' [] [])) ->
  (forall e s', grows s0 s' -> Now k (ltok s' [] [ph_connection p]) -> pending_of s' = pending_of s0 ->
     Q (inl e) (ltok s' [] [ph_connection p])) ->
  pwp Inv k (conn_call (ph_connection p) CtrlMsgPlugin_HandshakeServerStep) (ltok s0 [] []) Q.
Proof using Hnet Hhc.
  intros Hp HQ HE. apply pwp_atomic. intros ds s h HI. pose proof (seen _ _ _ _ _ HI) as Hr. cbn [t_seen ltok k rely] in Hr.
  pose proof (i_valid _ _ _ HI) as V. set (i := ph_connection p) in *. rewrite <- (lr_pending _ _ Hr) in Hp.
  destruct (in_pending s fd p (v_pending_wf _ V) Hp) as [Hin Hi]. fold i in Hi.
  destruct (lookup_lt_is_Some_2 _ _ (pending_lt _ _ V Hi)) as [c Hc]. assert (Hl := lookup_lt_Some _ _ _ Hc).
  eapply (wp_on_conn i c _ (fun o c' => fd_ c' = fd_ c \/ (exists e, o = inl e) /\ fd_ c' = -1)).
  - exact Hc.
  - apply (i_owned _ _ _ HI).
  - apply (i_acct _ _ _ HI).
  - apply em_HandshakeServerStep.
  - intros F S Hh. by apply (wp_HandshakeServerStep F S).
  - intros o c' h' Ho Hw Ha. destruct (decide (fd_ c' = fd_ c)) as [Ef|Hne].
    + assert (Hcalm := calm_put _ _ c' _ Hc (or_introl Ef)).
      assert (HI' : Inv ((k, ltok (put_conn i c' s) [] []) :: ds) (put_conn i c' s) h').
      { change (ltok (put_conn i c' s) [] []) with (with_res [] (see (put_conn i c' s) (ltok s0 [] []))).
        eapply inv_calm; [exact HI|done|done|apply (i_store _ _ _ HI)|exact Ha|exact Hw|apply V|by apply (valid_clients_same s)|apply V..]. }
      exists (ltok (put_conn i c' s) [] []). split; [done|]. apply HQ. split; [|by exists ds, h'].
      eapply weak_trans; [by eapply inv_seen|by apply calm_weak].
    + destruct Ho as [?|[[e ->] Ef]]; [done|]. exists (ltok (put_conn i c' s) [] [i]).
      assert (Efd : forall j, fd_of (put_conn i c' s) j = if decide (j = i) then -1 else fd_of s j).
      { intros j. rewrite fd_of_put by done. by case_decide. }
      assert (Hg : grows s (put_conn i c' s)).
      { constructor; try done.
        - cbn. by rewrite length_insert.
        - intros hd e' E. exists e'. split; [exact E|apply same_refl].
        - intros j _ Hj. rewrite Efd. by case_decide. }
      assert (HI' : Inv ((k, ltok (put_conn i c' s) [] [i]) :: ds) (put_conn i c' s) h').
      { eapply listener_step; [exact HI|by apply moves_heap|exact Ha|exact Hw|..]; try done.
        - apply (moves_valid s); try apply V; [by apply moves_heap|]. cbn. rewrite length_insert. apply V.
        - intros j Hj. rewrite Efd in Hj. case_decide as E; [lia|].
          destruct (i_open _ _ _ HI j Hj) as [?|?]; [by left|by right; right].
        - intros fd' p' Hp'. change (pending_of (put_conn i c' s)) with (pending_of s) in Hp'.
          destruct (decide (ph_connection p' = i)) as [->|Hne']; [left; by left|right].
          destruct (i_pending _ _ _ HI _ _ Hp') as [Hmid|[F1 F2]].
          + change (mids_of ((k, ltok s0 [] []) :: ds)) with (mids_of ds) in Hmid.
            rewrite (other_mids _ _ _ _ HI) in Hmid. by apply elem_of_nil in Hmid.
          + split; [|exact F2]. rewrite Efd. by rewrite decide_False. }
      split; [done|]. apply HE; [|by exists ds, h'|apply (lr_pending _ _ Hr)].
      eapply grows_trans; [apply (lr_grows _ _ Hr)|exact Hg].
Qed.

(** ** A client *)
Definition introduced (i : nat) s : HixlCSServer :=
  set_receivers (receivers s ++ [{| rc_connection := i; rc_receiver := MsgReceiver_new Conn_new |}]) s.
Lemma introduced_conns i s : receiver_conns (introduced i s) = receiver_conns s ++ [i].
Proof. unfold receiver_conns. cbn [introduced set_receivers receivers]. by rewrite fmap_app. Qed.
Lemma introduced_shelf i s j : clients_valid s -> j ∈ connections_to_close s <-> j ∈ connections_to_close (introduced i s).
Proof.
  intros (C1 & _ & _). unfold connections_to_close. cbn [introduced set_receivers receivers sv_clients].
  assert (E : forall r, r ∈ map snd (clients_ (sv_clients s)) ->
    (receivers s ++ [{| rc_connection := i; rc_receiver := MsgReceiver_new Conn_new |}]) !! r = receivers s !! r).
  { intros r ([fd r'] & -> & Hin)%list_elem_of_fmap. apply lookup_app_l. by eapply C1. }
  rewrite !elem_of_app, !list_elem_of_omap. split; intros [(r & Hr & Hj)|?]; (try by right); left; exists r; (split; [done|]).
  - by rewrite E.
  - by rewrite E in Hj.
Qed.

Lemma pwp_new_receiver fd p s0 (Q : Status + nat -> Token -> Prop) :
  std_find fd (pending_of s0) = Some p ->
  (forall r s', grows s0 s' -> Now k (ltok s' [] [ph_connection p]) -> pending_of s' = pending_of s0 ->
     receiver_conns s' !! r = Some (ph_connection p) -> Q (inr r) (ltok s' [] [ph_connection p])) ->
  pwp Inv k (atomic (new_receiver (ph_connection p))) (ltok s0 [] []) Q.
Proof using Hnet Hhc.
  intros Hp HQ. apply pwp_atomic. intros ds s h HI. pose proof (seen _ _ _ _ _ HI) as Hr. cbn [t_seen ltok k rely] in Hr.
  pose proof (i_valid _ _ _ HI) as V. set (i := ph_connection p) in *. rewrite <- (lr_pending _ _ Hr) in Hp.
  destruct (in_pending s fd p (v_pending_wf _ V) Hp) as [Hin Hi]. fold i in Hi.
  unfold new_receiver. apply wp_bind, wp_get, wp_bind, wp_modify, wp_ret. change (set_receivers _ s) with (introduced i s).
  exists (ltok (introduced i s) [] [i]).
  assert (Hpub : forall j, published (introduced i s) j <-> published s j \/ j = i).
  { intros j. unfold published. by rewrite introduced_conns, elem_of_app, list_elem_of_singleton. }
  assert (Hg : grows s (introduced i s)).
  { constructor; try done.
    - rewrite introduced_conns. by apply prefix_app_r.
    - intros hd e' E. exists e'. split; [exact E|apply same_refl]. }
  assert (HI' : Inv ((k, ltok (introduced i s) [] [i]) :: ds) (introduced i s) h).
  { eapply listener_step; [exact HI|by apply moves_heap|apply (i_acct _ _ _ HI)|apply (i_owned _ _ _ HI)|..]; try done.
    - apply (moves_valid s); try apply V; [by apply moves_heap| | |].
      + cbn. apply Forall_app. split; [apply V|]. apply Forall_singleton, recv_ok_new.
      + intros j Hj. change (length (connections (introduced i s))) with (length (connections s)).
        assert (Hj' : j = i \/ j ∈ refs s ++ receiver_conns s).
        { unfold refs in *. rewrite introduced_conns, !elem_of_app, list_elem_of_singleton in Hj. rewrite !elem_of_app.
          destruct Hj as [[?|[?|Hj]]|[?|?]]; [by right; left; left|by right; left; right; left| |by right; right|by left].
          right; left; right; right. by apply (introduced_shelf i s); [apply valid_clients|]. }
        destruct Hj' as [->|Hj']; [by apply pending_lt|by apply (v_conn _ V)].
      + intros l El. destruct (v_lc _ V l El) as [H1 H2]. split; [done|]. rewrite Hpub. intros [?| ->]; done.
    - intros j Hj. destruct (i_open _ _ _ HI j Hj) as [Hin'|Hin']; [left|by right; right].
      unfold refs in *. rewrite !elem_of_app in Hin' |- *. destruct Hin' as [?|[?|Hs]]; [by left|by right; left|right; right].
      by apply introduced_shelf; [apply valid_clients|].
    - intros fd' p' Hp'. change (pending_of (introduced i s)) with (pending_of s) in Hp'.
      destruct (decide (ph_connection p' = i)) as [->|Hne']; [left; by left|right].
      destruct (i_pending _ _ _ HI _ _ Hp') as [Hmid|[F1 F2]].
      + change (mids_of ((k, ltok s0 [] []) :: ds)) with (mids_of ds) in Hmid.
        rewrite (other_mids _ _ _ _ HI) in Hmid. by apply elem_of_nil in Hmid.
      + split; [exact F1|]. rewrite Hpub. intros [?|?]; done. }
  split; [done|]. apply HQ.
  - eapply grows_trans; [apply (lr_grows _ _ Hr)|exact Hg].
  - by exists ds, h.
  - apply (lr_pending _ _ Hr).
  - rewrite introduced_conns. assert (El : length (receivers s) = length (receiver_conns s)) by (unfold receiver_conns; by rewrite length_fmap).
    rewrite El, lookup_app_r, Nat.sub_diag by done. done.
Qed.

Lemma pwp_publish fd r i d (Q : Status + unit -> Token -> Prop) :
  has_receiver d r i -> (forall o s, after k d s -> (o = inr tt -> i ∈ connections_to_close s) -> Q o (see s d)) ->
  pwp Inv k (atomic (publish_client fd r)) d Q.
Proof using Hnet Hhc.
  intros Hr0 HQ. apply (pwp_table k _ (fun o s => o = inr tt -> i ∈ connections_to_close s)); [done| | |done].
  - unfold publish_client. apply emits_zoom. intros _. solve_emits.
  - intros ds s h HI. pose proof (i_valid _ _ _ HI) as V. destruct (valid_clients _ V) as (C1 & C2 & C3).
    assert (Hr : receiver_conns s !! r = Some i) by (by rewrite (lr_receivers _ _ (inv_seen _ _ _ _ _ HI))).
    eapply wp_zoom; [done|]. apply wp_bind, wp_get, wp_bind, wp_require.
    2:{ intros _. replace (set_clients (sv_clients s) s) with s by (by destruct s). split_and!; [done|by apply calm_refl|done|done|done|done|apply V|done]. }
    intros Hnone. destruct (std_find fd (clients_ (sv_clients s))) eqn:E; [done|]. apply wp_modify. set (s' := set_clients _ s).
    assert (Ecl : std_set fd r (clients_ (sv_clients s)) ≡ₚ (fd, r) :: clients_ (sv_clients s)).
    { rewrite std_set_perm by done. by rewrite std_erase_none. }
    assert (Hshelf : forall j, j ∈ connections_to_close s' <-> j = i \/ j ∈ connections_to_close s).
    { intros j. unfold connections_to_close. cbn [s' set_clients sv_clients set_client_map clients_ disconnected_clients_ receivers].
      assert (Em : map snd (std_set fd r (clients_ (sv_clients s))) ≡ₚ r :: map snd (clients_ (sv_clients s))).
      { apply (fmap_Permutation snd _ _ Ecl). }
      rewrite !elem_of_app, !list_elem_of_omap. setoid_rewrite Em. setoid_rewrite elem_of_cons. split.
      - intros [(x & [->|Hx] & Hj)|?]; [|by right; left; exists x|by right; right].
        left. rewrite conn_of_receiver in Hj. congruence.
      - intros [->|[(x & Hx & Hj)|?]]; [left; exists r; split; [by left|by rewrite conn_of_receiver]|left; exists x; split; [by right|done]|by right]. }
    split_and!; [|constructor|done|done|done| |apply V|done]; try done.
    + intros _. apply Hshelf. by left.
    + by left.
    + intros j Hj. right. apply Hshelf. by right.
    + intros hd. change (endpoint_at s' hd) with (endpoint_at s hd). destruct (endpoint_at s hd); [apply same_refl|done].
    + split_and!; [|done|by apply std_set_wf]. intros fd' r' Hin. cbn [s' set_clients sv_clients set_client_map clients_] in Hin.
      rewrite Ecl in Hin. apply elem_of_cons in Hin as [[= -> ->]|Hin]; [|by eapply C1].
      apply lookup_lt_Some in Hr. unfold receiver_conns in Hr. by rewrite length_fmap in Hr.
Qed.
End Moves.
