(* ===== verification/CsServerDoWait.v ===== *)
(** The listener thread: one round of its loop keeps the invariant of the server, whatever
    the peers and the other threads do meanwhile. *)

From S2P Require Import Prelude StdMap Effects External Runtime Wire Hcomm Net CtrlConn CtrlConnSpec CtrlConnSafety MsgReceiver MsgReceiverSafety HostRegister Endpoint HcResources EndpointSafety ServerCalls Conc MsgHandler CsServer CsServerInv CsServerRules CsServerSteady CsServerRequests CsServerMoves.

Section DoWait.
Context {codes : AclCodes} {again : HcclAgain} {clib : CLibrary} `{Sec : Securec} {SecL : SecurecLaws Sec}.
Context {cfg : ServerConfig} {abi : ServerAbi}.
Context {env : Environment NetOp} {Hnet : NetLaws env} {Hhc : HcLaws env}.
Implicit Types (d : Token) (s : HixlCSServer) (i r : nat).
Let k := TListener.
Let Hgo : goes_on k := I.

(** * Programs of the listener thread *)

(** The thread holds nothing before and after. *)
Definition walks {A} (p : Prog NetOp HixlCSServer A) s : Prop := keeps k grows p (ltok s [] []).
Notation stand s := (Now k (ltok s [] [])).

Lemma after_later d s : after k d s -> later k grows d s.
Proof. intros [H N]. split; [apply (lr_grows _ _ H)|done]. Qed.
Lemma steady_walks {A} (p : Prog NetOp HixlCSServer A) s : steady k p (ltok s [] []) -> walks p s.
Proof. intros H Q HQ. apply H. intros o s' Ha. by apply HQ, after_later. Qed.

Lemma walks_bind {A B} (p : Prog NetOp HixlCSServer A) (f : A -> Prog NetOp HixlCSServer B) s :
  walks p s -> (forall a s', grows s s' -> stand s' -> walks (f a) s') -> walks (pbind p f) s.
Proof. intros Hp Hf. apply keeps_bind; [apply grows_trans|done|]. intros a s' [H N]. by apply Hf. Qed.
Lemma walks_log {A} (p : Prog NetOp HixlCSServer A) s : walks p s -> walks (plog p) s.
Proof. apply keeps_log. Qed.
Lemma walks_done {A} (o : Status + A) s : stand s -> walks (Done o) s.
Proof. apply keeps_done, grows_refl. Qed.
Lemma walks_later {A} (p : Prog NetOp HixlCSServer A) s s' (Q : Status + A -> Token -> Prop) :
  walks p s' -> grows s s' -> (forall o s'', grows s s'' -> stand s'' -> Q o (ltok s'' [] [])) ->
  pwp Inv k p (ltok s' [] []) Q.
Proof. intros Hp Hg HQ. apply Hp. intros o s'' [H N]. apply HQ; [by eapply grows_trans|done]. Qed.
(** A look at the state. *)
Lemma walks_read {A B} (f : HixlCSServer -> A) (g : A -> Prog NetOp HixlCSServer B) s :
  (forall s', grows s s' -> stand s' -> walks (g (f s')) s') -> walks (pbind (CsServer.read f) g) s.
Proof.
  intros Hg Q HQ. apply pwp_bind, pwp_read; [done|]. intros s' H. pose proof (after_later _ _ H) as [H1 N].
  eapply walks_later; [by apply Hg|exact H1|]. intros o s'' H2 N2. by apply HQ.
Qed.

Lemma stand_valid s : stand s -> valid s.
Proof. intros (ds & h & HI). apply (i_valid _ _ _ HI). Qed.
Lemma stand_current s : stand s -> current k (ltok s [] []).
Proof. done. Qed.

(** ** Closing *)
Lemma pwp_Fd i d (Q : Status + Z -> Token -> Prop) :
  (i < length (connections (t_seen d)))%nat -> (forall s, after k d s -> Q (inr (fd_of s i)) (see s d)) -> pwp Inv k (Fd i) d Q.
Proof using Hnet Hhc.
  intros Hi HQ. apply (pwp_still k _ (fun o s => o = inr (fd_of s i))); [done| |by intros o s H ->; apply HQ].
  intros ds s h HI. destruct (seen_conn _ _ _ _ _ _ HI Hgo Hi) as [c Hc]. apply (wp_look i fd_ _ s h c Hc).
  rewrite (fd_of_at _ _ _ Hc). split_and!; [done|done|by eapply inv_acct|apply (i_owned _ _ _ HI)].
Qed.

(** [Md'] names the connection if it is filed as under handshake. *)
Definition marks i s (Md Md' : list nat) : Prop :=
  (Md' = [i] /\ (forall j, j ∈ Md -> j = i)) \/ (Md' = [] /\ Md = [] /\ i ∉ pending_conns s).
Lemma pwp_CloseClientSocket i s0 C Md Md' (Q : Status + unit -> Token -> Prop) :
  (i < length (connections s0))%nat -> (forall j, j ∈ C -> j = i) -> marks i s0 Md Md' ->
  (forall s', grows s0 s' -> Now k (ltok s' [] Md') -> pending_of s' = pending_of s0 -> fd_of s' i = -1 -> Q (inr tt) (ltok s' [] Md')) ->
  pwp Inv k (CloseClientSocket i) (ltok s0 C Md) Q.
Proof using Hnet Hhc.
  intros Hi HC HM HQ. unfold CloseClientSocket. apply pwp_bind, pwp_Fd; [exact Hi|]. intros s1 H1.
  apply pwp_bind, pwp_epoll_del; [done|]. intros s2 H2. assert (H := after_trans _ _ _ _ H1 H2).
  change (see s2 (see s1 (ltok s0 C Md))) with (ltok s2 C Md). destruct H as [Hr _]. cbn [weak rely k t_seen ltok] in Hr.
  apply pwp_log, (pwp_close i s2 C Md Md').
  - by rewrite (lr_conns _ _ Hr).
  - exact HC.
  - unfold marks, pending_conns in *. by rewrite (lr_pending _ _ Hr).
  - intros o s' Hg N E F. apply HQ; [|done|by rewrite E; apply (lr_pending _ _ Hr)|done]. by eapply grows_trans; [apply (lr_grows _ _ Hr)|].
Qed.
(** A handshake that is given up: its connection is closed, then its entry is erased. *)
Lemma pwp_close_pending fd p s0 (Q : Status + unit -> Token -> Prop) :
  stand s0 -> std_find fd (pending_of s0) = Some p ->
  (forall s', grows s0 s' -> stand s' -> pending_of s' = std_erase fd (pending_of s0) -> Q (inr tt) (ltok s' [] [])) ->
  pwp Inv k (CloseClientSocket (ph_connection p) ;;; atomic (erase_pending fd)) (ltok s0 [] []) Q.
Proof using Hnet Hhc.
  intros N0 Hp HQ. pose proof (stand_valid _ N0) as V. destruct (in_pending _ _ _ (v_pending_wf _ V) Hp) as [_ Hin].
  apply pwp_bind, (pwp_CloseClientSocket _ s0 [] [] [ph_connection p]).
  - by apply pending_lt.
  - intros j Hj. by apply elem_of_nil in Hj.
  - left. split; [done|]. intros j Hj. by apply elem_of_nil in Hj.
  - intros s1 Hg1 N1 E1 F1. apply (pwp_erase fd p s1 []).
    + by rewrite E1.
    + intros j Hj. by apply list_elem_of_singleton in Hj.
    + right. split; [done|by left].
    + intros s2 Hg2 N2 E2 _ _. apply HQ; [by eapply grows_trans|done|by rewrite E2, E1].
Qed.

(** A handshake that failed: its entry is erased, then its connection is closed. *)
Lemma pwp_drop fd p s0 Md (Q : Status + unit -> Token -> Prop) :
  (ph_connection p < length (connections s0))%nat -> std_find fd (pending_of s0) = Some p ->
  (forall j, j ∈ Md -> j = ph_connection p) ->
  (forall s', grows s0 s' -> stand s' -> fd_of s' (ph_connection p) = -1 -> ph_connection p ∉ pending_conns s' ->
     Q (inr tt) (ltok s' [] [])) ->
  pwp Inv k (atomic (erase_pending fd) ;;; CloseClientSocket (ph_connection p)) (ltok s0 [] Md) Q.
Proof using Hnet Hhc.
  intros Hl Hp HM HQ. apply pwp_bind, (pwp_erase fd p s0 [ph_connection p]); [done|done|by left|].
  intros s1 Hg1 N1 E1 Hno _. apply (pwp_CloseClientSocket _ s1 [ph_connection p] [] []).
  - pose proof (g_conns _ _ Hg1). lia.
  - intros j Hj. by apply list_elem_of_singleton in Hj.
  - by right.
  - intros s2 Hg2 N2 E2 F2. apply HQ; [by eapply grows_trans|done|done|]. unfold pending_conns in *. by rewrite E2.
Qed.

(** ** Handshakes that took too long *)
Lemma walks_expire_all now l s :
  stand s -> NoDup l.*1 -> (forall fd p, (fd, p) ∈ l -> std_find fd (pending_of s) = Some p) ->
  walks (pfor_each l (expire_handshake now)) s.
Proof using Hnet Hhc.
  revert s. induction l as [|[fd p] l IH]; intros s N Hnd Hl; [by apply walks_done|].
  apply NoDup_cons in Hnd as [Hni Hnd]. cbn [pfor_each fst snd].
  assert (Hl' : forall fd' p', (fd', p') ∈ l -> fd' <> fd /\ std_find fd' (pending_of s) = Some p').
  { intros fd' p' Hin. split; [|apply Hl; by right]. intros ->. apply Hni. apply list_elem_of_fmap. by exists (fd, p'). }
  intros Q HQ. unfold expire_handshake at 1. cbn [fst snd]. destruct (now <? ph_deadline p).
  - apply IH; [done|done| |done]. intros fd' p' Hin. by apply Hl'.
  - apply pwp_bind, pwp_close_pending; [done|apply Hl; by left|]. intros s1 Hg N1 E1.
    eapply walks_later; [apply (IH s1 N1 Hnd)|exact Hg|intros o s'' H1 H2; by apply HQ]. intros fd' p' Hin. destruct (Hl' _ _ Hin) as [Hne E].
    rewrite E1, std_find_erase by apply (v_pending_wf _ (stand_valid _ N)). by rewrite decide_False.
Qed.

Lemma std_map_wf_nodup {V} (m : list (Z * V)) : std_map_wf m -> NoDup m.*1.
Proof.
  induction 1 as [|[x v] m Hm IH Hx]; [constructor|]. cbn. apply NoDup_cons. split; [|done].
  intros ([y w] & E & Hin)%list_elem_of_fmap. cbn in E. subst y. rewrite Forall_forall in Hx.
  specialize (Hx _ Hin). unfold key_lt in Hx. cbn in Hx. lia.
Qed.
Lemma walks_ExpireHandshakes s : walks ExpireHandshakes s.
Proof using Hnet Hhc.
  unfold ExpireHandshakes. apply walks_bind; [apply steady_walks, steady_sys; [done|by repeat split]|]. intros now s1 _ _.
  apply walks_read. intros s2 _ N. pose proof (v_pending_wf _ (stand_valid _ N)) as W.
  apply walks_expire_all; [done|by apply std_map_wf_nodup|]. intros fd p Hin. by apply std_find_elem.
Qed.
(** ** A step of a handshake *)
Lemma steady_UpdateClientEvents fd events d : steady k (UpdateClientEvents fd events) d.
Proof using Hnet Hhc.
  intros Q HQ. unfold UpdateClientEvents.
  apply (pwp_epoll k Hgo (fun efd => Hc (EpollMod efd fd (Z.lor events EPOLLRDHUP)))); [by repeat split|done|].
  intros r s H. apply pwp_require; intros _; by apply HQ.
Qed.

(** What a step of a handshake leaves if it fails: the entry, and a mark if the
    connection is closed or known to a receiver. *)
Definition may_fail {A} (p : PendingHandshake) s0 (Q : Status + A -> Token -> Prop) : Prop :=
  forall e Md s', grows s0 s' -> Now k (ltok s' [] Md) -> pending_of s' = pending_of s0 ->
    (forall j, j ∈ Md -> j = ph_connection p) -> Q (inl e) (ltok s' [] Md).

Lemma may_fail_later {A} p s0 s' (Q : Status + A -> Token -> Prop) :
  grows s0 s' -> pending_of s' = pending_of s0 -> may_fail p s0 Q -> may_fail p s' Q.
Proof. intros Hg E HE e Md s'' Hg' N E' HM. apply HE; [by eapply grows_trans|done|congruence|done]. Qed.
Lemma may_fail_plain {A} p s0 (Q : Status + A -> Token -> Prop) e : may_fail p s0 Q -> stand s0 -> Q (inl e) (ltok s0 [] []).
Proof. intros HE N. apply HE; [apply grows_refl|done|done|]. intros j Hj. by apply elem_of_nil in Hj. Qed.

(** A program that keeps the table of handshakes. *)
Lemma pwp_stand {A} (p : Prog NetOp HixlCSServer A) s (Q : Status + A -> Token -> Prop) :
  steady k p (ltok s [] []) ->
  (forall o s', grows s s' -> stand s' -> pending_of s' = pending_of s -> Q o (ltok s' [] [])) ->
  pwp Inv k p (ltok s [] []) Q.
Proof. intros Hp HQ. apply Hp. intros o s' [H N]. apply HQ; [apply (lr_grows _ _ H)|done|apply (lr_pending _ _ H)]. Qed.

Lemma pwp_complete_handshake fd p s0 (Q : Status + unit -> Token -> Prop) :
  stand s0 -> std_find fd (pending_of s0) = Some p -> may_fail p s0 Q ->
  (forall s', grows s0 s' -> stand s' -> Q (inr tt) (ltok s' [] [])) ->
  pwp Inv k (complete_handshake fd (ph_connection p)) (ltok s0 [] []) Q.
Proof using Hnet Hhc.
  intros N0 Hp HE HQ. unfold complete_handshake.
  apply pwp_bind, pwp_stand; [apply steady_sys; [done|by repeat split]|]. intros o s1 Hg1 N1 E1.
  assert (HE1 := may_fail_later _ _ _ _ Hg1 E1 HE). destruct o as [e|made]; [by apply (may_fail_plain p)|].
  apply pwp_bind, pwp_require; intros _; [|by apply (may_fail_plain p)].
  apply pwp_bind, (pwp_new_receiver fd p s1); [by rewrite E1|]. intros r s2 Hg2 N2 E2 Hr.
  apply pwp_bind, (pwp_publish fd r (ph_connection p)); [exact Hr|]. intros o s3 [H3 N3] Hin.
  change (see s3 (ltok s2 [] [ph_connection p])) with (ltok s3 [] [ph_connection p]) in *. cbn [weak rely k ltok t_seen] in H3.
  assert (E3 : pending_of s3 = pending_of s2) by apply (lr_pending _ _ H3). pose proof (lr_grows _ _ H3) as Hg3.
  assert (Hmark : forall j, j ∈ [ph_connection p] -> j = ph_connection p) by (intros j Hj; by apply list_elem_of_singleton in Hj).
  destruct o as [e|[]]; [apply HE1; [by eapply grows_trans|done|congruence|done]|].
  apply (pwp_erase fd p s3 []); [congruence|done|right; split; [done|right; by apply Hin]|].
  intros s4 Hg4 N4 _ _ _. apply HQ; [|done]. eapply grows_trans; [exact Hg1|]. eapply grows_trans; [exact Hg2|]. by eapply grows_trans.
Qed.

(** The handshake that [AdvanceHandshake] guards. *)
Lemma pwp_advance fd p s0 (Q : Status + unit -> Token -> Prop) :
  stand s0 -> std_find fd (pending_of s0) = Some p -> may_fail p s0 Q ->
  (forall s', grows s0 s' -> stand s' -> Q (inr tt) (ltok s' [] [])) ->
  pwp Inv k (let! now := sys NetNow in
             prequire (now <? ph_deadline p) TIMEOUT ;;;
             let! state := conn_call (ph_connection p) CtrlMsgPlugin_HandshakeServerStep in
             UpdateClientEvents fd (if bool_decide (state = kWantWrite) then EPOLLOUT else EPOLLIN) ;;;
             if bool_decide (state = kComplete) then complete_handshake fd (ph_connection p) else pret tt) (ltok s0 [] []) Q.
Proof using Hnet Hhc.
  intros N0 Hp HE HQ. apply pwp_bind, pwp_stand; [apply steady_sys; [done|by repeat split]|]. intros o s1 Hg1 N1 E1.
  assert (HE1 := may_fail_later _ _ _ _ Hg1 E1 HE). destruct o as [e|now]; [by apply (may_fail_plain p)|].
  apply pwp_bind, pwp_require; intros _; [|by apply (may_fail_plain p)].
  apply pwp_bind, (pwp_handshake_step fd); [congruence| |].
  2:{ intros e s' Hg N E. apply HE1; [done|done|done|]. intros j Hj. by apply list_elem_of_singleton in Hj. }
  intros o s2 H2. pose proof (after_later _ _ H2) as [Hg2 N2]. cbn [ltok t_seen] in Hg2.
  assert (E2 : pending_of s2 = pending_of s1) by apply (lr_pending _ _ (proj1 H2)).
  assert (HE2 := may_fail_later _ _ _ _ Hg2 E2 HE1). destruct o as [e|st]; [by apply (may_fail_plain p)|].
  apply pwp_bind, pwp_stand; [apply steady_UpdateClientEvents|]. intros o s3 Hg3 N3 E3.
  assert (HE3 := may_fail_later _ _ _ _ Hg3 E3 HE2). destruct o as [e|[]]; [by apply (may_fail_plain p)|].
  assert (Hg : grows s0 s3) by (eapply grows_trans; [exact Hg1|]; by eapply grows_trans).
  case_bool_decide; [|apply pwp_done; by apply HQ].
  apply pwp_complete_handshake; [done|congruence|done|]. intros s4 Hg4 N4. apply HQ; [by eapply grows_trans|done].
Qed.

Lemma pwp_AdvanceHandshake fd s0 (Q : Status + unit -> Token -> Prop) :
  (forall o s', grows s0 s' -> stand s' ->
     (forall p e, std_find fd (pending_of s0) = Some p -> o = inl e ->
        fd_of s' (ph_connection p) = -1 /\ ph_connection p ∉ pending_conns s') -> Q o (ltok s' [] [])) ->
  pwp Inv k (AdvanceHandshake fd) (ltok s0 [] []) Q.
Proof using Hnet Hhc.
  intros HQ. unfold AdvanceHandshake. apply pwp_bind, pwp_read; [done|]. intros s1 H1.
  pose proof (after_later _ _ H1) as [Hg1 N1]. cbn [ltok t_seen] in Hg1.
  assert (E1 : pending_of s1 = pending_of s0) by apply (lr_pending _ _ (proj1 H1)).
  change (see s1 (ltok s0 [] [])) with (ltok s1 [] []) in *. change (pending_handshakes_ (sv_listener s1)) with (pending_of s1).
  destruct (std_find fd (pending_of s1)) as [p|] eqn:Hp; [|apply pwp_done, HQ; [done|done|intros p e Hp'; congruence]].
  assert (Hl : (ph_connection p < length (connections s1))%nat).
  { pose proof (stand_valid _ N1) as V. apply pending_lt; [done|]. by eapply in_pending; [apply V|]. }
  apply pwp_on_fail, (pwp_advance fd p); [done|done| |].
  - intros e Md s2 Hg2 N2 E2 HM. apply (pwp_drop fd p s2 Md); [pose proof (g_conns _ _ Hg2); lia|congruence|done|].
    intros s3 Hg3 N3 F3 Hno. apply HQ; [eapply grows_trans; [exact Hg1|]; by eapply grows_trans|done|].
    intros p' e' Hp' _. assert (p' = p) by congruence. by subst p'.
  - intros s' Hg' N'. apply HQ; [by eapply grows_trans|done|done].
Qed.
(** ** Events *)
Lemma walks_AdvanceHandshake fd s : walks (AdvanceHandshake fd) s.
Proof using Hnet Hhc. intros Q HQ. apply pwp_AdvanceHandshake. intros o s' Hg N _. by apply HQ. Qed.

(** The receiver of a client. *)
Lemma client_receiver s fd r : stand s -> std_find fd (clients_ (sv_clients s)) = Some r -> (r < length (receiver_conns s))%nat.
Proof.
  intros N E. pose proof (stand_valid _ N) as V. apply std_find_elem in E; [|apply V].
  unfold receiver_conns. rewrite length_fmap. by eapply (v_clients _ V).
Qed.

Lemma walks_HandleClientEvent fd events s : walks (HandleClientEvent fd events) s.
Proof using Hnet Hhc SecL.
  unfold HandleClientEvent. apply walks_read. intros s1 _ N1. change (pending_handshakes_ (sv_listener s1)) with (pending_of s1).
  destruct (std_find fd (pending_of s1)) as [p|] eqn:Hp.
  { destruct (closing events); [|apply walks_log, walks_AdvanceHandshake].
    intros Q HQ. apply pwp_close_pending; [done|done|]. intros s' Hg N _. by apply HQ. }
  apply walks_read. intros s2 _ N2. destruct (std_find fd (clients_ (sv_clients s2))) as [r|] eqn:Hr; [|by apply walks_done].
  apply steady_walks. assert (Hc := client_receiver _ _ _ N2 Hr).
  apply (steady_Connection r _ (ltok s2 [] [])); [exact Hc|]. intros i s3 H3 Hi.
  change (see s3 (ltok s2 [] [])) with (ltok s3 [] []) in *. assert (N3 : stand s3) by apply H3.
  assert (Hk : known (ltok s3 [] []) i) by (by eapply has_receiver_known).
  apply steady_bind.
  - destruct (closing events); [by apply steady_ret|]. destruct (negb _); [|by apply steady_ret].
    apply steady_bind; [apply steady_attempt; by apply steady_ProClientMsg|]. intros [?|?] s4 H4; apply steady_ret; eauto with know.
  - intros [] s4 H4; [|apply steady_ret; eauto with know]. apply steady_CleanupClient; [done|]. by eapply known_after.
Qed.

Lemma walks_listener_fd {B} (g : Z -> Prog NetOp HixlCSServer B) s :
  (forall fd s', grows s s' -> stand s' -> walks (g fd) s') -> walks (pbind listener_fd g) s.
Proof using Hnet Hhc.
  intros Hg. apply walks_bind; [|exact Hg]. unfold listener_fd. apply walks_read. intros s1 _ N1.
  destruct N1 as (ds & h & HI). destruct (seen_lc _ _ _ _ HI) as (l & c & El & Hc). cbn [ltok t_seen] in El, Hc. rewrite El. apply steady_walks, steady_Fd; [done|].
  by eapply lookup_lt_Some.
Qed.
Lemma walks_handle_events l ready s : stand s -> walks (handle_events l ready) s.
Proof using Hnet Hhc SecL.
  revert ready s. induction l as [|[fd events] l IH]; intros ready s N; cbn [handle_events]; [by apply walks_done|].
  apply walks_listener_fd. intros lfd s1 _ N1. destruct (fd =? lfd); [by apply IH|].
  apply walks_bind; [apply walks_HandleClientEvent|]. intros _ s2 _ N2. by apply IH.
Qed.

(** ** Records that a receiver has buffered *)
Lemma steady_process_receivers l b s :
  stand s -> Forall (fun r => (r < length (receiver_conns s))%nat) l -> steady k (process_receivers l b) (ltok s [] []).
Proof using Hnet SecL.
  revert b s. induction l as [|r l IH]; intros b s N Hl; cbn [process_receivers]; [by apply steady_ret|].
  apply Forall_cons in Hl as [Hr Hl]. apply steady_Connection; [exact Hr|]. intros i s1 H1 Hi.
  assert (Hrest : forall s', after k (ltok s [] []) s' -> stand s' /\ Forall (fun r => (r < length (receiver_conns s'))%nat) l).
  { intros s' [H N']. split; [done|]. by rewrite (lr_receivers _ _ H). }
  assert (Hk : known (see s1 (ltok s [] [])) i) by (eapply has_receiver_known; [by apply see_current|done]).
  apply steady_bind; [by apply steady_HasPending|]. intros pending s2 H2.
  assert (H12 := after_trans _ _ _ _ H1 H2). destruct pending; cbn [negb].
  2:{ destruct (Hrest _ H12) as [N2 Hl2]. exact (IH b s2 N2 Hl2). }
  apply steady_bind; [apply steady_attempt, steady_ProClientMsg; eauto with know; by eapply has_receiver_after|].
  intros [e|[]] s3 H3; assert (H13 := after_trans _ _ _ _ H12 H3).
  - apply steady_bind; [apply steady_CleanupClient; [done|]; eauto with know|]. intros _ s4 H4.
    destruct (Hrest _ (after_trans _ _ _ _ H13 H4)) as [N4 Hl4]. exact (IH true s4 N4 Hl4).
  - destruct (Hrest _ H13) as [N3 Hl3]. exact (IH true s3 N3 Hl3).
Qed.
Lemma walks_ProcessPendingMsg s : stand s -> walks ProcessPendingMsg s.
Proof using Hnet Hhc SecL.
  intros N. unfold ProcessPendingMsg. destruct (negb TlsEnabled); [by apply walks_done|]. apply walks_read. intros s1 _ N1.
  apply steady_walks, steady_process_receivers; [done|]. apply Forall_forall.
  intros r ([fd r'] & -> & Hin)%list_elem_of_fmap. apply (client_receiver s1 fd); [done|].
  apply std_find_elem; [apply (v_clients_wf _ (stand_valid _ N1))|done].
Qed.
(** ** New connections *)
Lemma steady_SetTcpNoDelay i d : (i < length (connections (t_seen d)))%nat -> steady k (conn_call i CtrlMsgPlugin_SetTcpNoDelay) d.
Proof using Hnet.
  intros Hi. apply steady_conn_call; [done|done|apply em_SetTcpNoDelay|]. intros c h F S Hh. by apply (wp_checked_opt F S).
Qed.
Lemma steady_SetTcpKeepAlive i d : (i < length (connections (t_seen d)))%nat -> steady k (conn_call i CtrlMsgPlugin_SetTcpKeepAlive) d.
Proof using Hnet.
  intros Hi. apply steady_conn_call; [done|done|apply em_SetTcpKeepAlive|]. intros c h F S Hh. by apply (wp_SetTcpKeepAlive F S).
Qed.
Lemma steady_SetSendTimeout i ms d : (i < length (connections (t_seen d)))%nat -> steady k (conn_call i (CtrlMsgPlugin_SetSendTimeout ms)) d.
Proof using Hnet.
  intros Hi. apply steady_conn_call; [done|done|apply em_SetSendTimeout|]. intros c h F S Hh. by apply (wp_checked_opt F S).
Qed.

(** The thread has a connection that nobody else has heard of. *)
Definition holding i s : Prop := Now k (ltok s [i] []) /\ outsider s i.
Lemma pwp_holding {A} (p : Prog NetOp HixlCSServer A) i s (Q : Status + A -> Token -> Prop) :
  holding i s -> ((i < length (connections s))%nat -> steady k p (ltok s [i] [])) ->
  (forall o s', grows s s' -> holding i s' -> pending_of s' = pending_of s -> Q o (ltok s' [i] [])) ->
  pwp Inv k p (ltok s [i] []) Q.
Proof.
  intros [N Ho] Hp HQ. apply Hp; [apply Ho|]. intros o s' [H N'].
  apply HQ; [apply (lr_grows _ _ H)|split; [done|by eapply outsider_rely]|apply (lr_pending _ _ H)].
Qed.

(** A failure leaves the connection with the thread, or closed. *)
Definition left_with i s0 (Q : Status + unit -> Token -> Prop) : Prop :=
  forall e C s', grows s0 s' -> Now k (ltok s' C []) -> (forall j, j ∈ C -> j = i) -> (i < length (connections s'))%nat ->
    i ∉ pending_conns s' -> Q (inl e) (ltok s' C []).
Lemma left_holding i s0 s' (Q : Status + unit -> Token -> Prop) e :
  left_with i s0 Q -> grows s0 s' -> holding i s' -> Q (inl e) (ltok s' [i] []).
Proof.
  intros HE Hg [N Ho]. apply HE; [done|done| |apply Ho|apply Ho]. intros j Hj. by apply list_elem_of_singleton in Hj.
Qed.

(** From the descriptor on. *)
Lemma pwp_enter i deadline s0 (Q : Status + unit -> Token -> Prop) :
  holding i s0 -> (TlsEnabled = true -> (length (pending_of s0) < kMaxPendingHandshakes)%nat) -> left_with i s0 Q ->
  (forall s', grows s0 s' -> stand s' -> Q (inr tt) (ltok s' [] [])) ->
  pwp Inv k (let! fd := Fd i in
             atomic (add_pending fd {| ph_connection := i; ph_deadline := deadline |}) ;;;
             AdvanceHandshake fd) (ltok s0 [i] []) Q.
Proof using Hnet Hhc.
  intros [N0 Ho] Hroom HE HQ. apply pwp_bind, pwp_Fd; [apply Ho|]. intros s1 [H1 N1]. cbn [weak rely k ltok t_seen] in H1.
  change (see s1 (ltok s0 [i] [])) with (ltok s1 [i] []) in *. pose proof (lr_grows _ _ H1) as Hg1.
  apply pwp_bind, (pwp_add_pending (fd_of s1 i) {| ph_connection := i; ph_deadline := deadline |} s1).
  - by eapply outsider_rely.
  - done.
  - by rewrite (lr_pending _ _ H1).
  - intros s2 Hg2 N2 E2. assert (Hg : grows s0 s2) by (by eapply grows_trans).
    apply pwp_AdvanceHandshake. intros o s3 Hg3 N3 Hf. assert (Hg' : grows s0 s3) by (by eapply grows_trans).
    destruct o as [e|[]]; [|by apply HQ]. destruct (Hf _ e E2 eq_refl) as [_ Hno].
    apply HE; [done|done|intros j Hj; by apply elem_of_nil in Hj| |done].
    pose proof (g_conns _ _ Hg'). pose proof (o_conn _ _ Ho). lia.
Qed.

Lemma pwp_admit_client i deadline s0 (Q : Status + unit -> Token -> Prop) :
  holding i s0 -> left_with i s0 Q -> (forall s', grows s0 s' -> stand s' -> Q (inr tt) (ltok s' [] [])) ->
  pwp Inv k (admit_client i deadline) (ltok s0 [i] []) Q.
Proof using Hnet Hhc.
  intros H0 HE HQ. unfold admit_client. apply pwp_bind, pwp_read; [done|]. intros s1 [H1 N1]. cbn [weak rely k ltok t_seen] in H1.
  change (see s1 (ltok s0 [i] [])) with (ltok s1 [i] []) in *. pose proof (lr_grows _ _ H1) as Hg1.
  assert (Hh1 : holding i s1) by (split; [done|]; eapply outsider_rely; [exact H1|apply H0]).
  apply pwp_bind, pwp_require; intros Hroom; [|by eapply left_holding].
  apply pwp_bind, pwp_holding; [done|intros Hi; by apply steady_SetTcpNoDelay|]. intros o s2 Hg2 Hh2 E2.
  assert (G2 : grows s0 s2) by (by eapply grows_trans). destruct o as [e|[]]; [by eapply left_holding|].
  apply pwp_bind, pwp_holding; [done|intros Hi; by apply steady_SetTcpKeepAlive|]. intros o s3 Hg3 Hh3 E3.
  assert (G3 : grows s0 s3) by (by eapply grows_trans). destruct o as [e|[]]; [by eapply left_holding|].
  apply pwp_bind, pwp_holding; [done|intros Hi; by apply steady_SetSendTimeout|]. intros o s4 Hg4 Hh4 E4.
  assert (G4 : grows s0 s4) by (by eapply grows_trans). destruct o as [e|[]]; [by eapply left_holding|].
  apply pwp_bind, pwp_holding; [done| |].
  { intros Hi R HR. apply pwp_AddToEpoll; [done|]. intros o s' H' _. by apply HR. }
  intros o s5 Hg5 Hh5 E5. assert (G5 : grows s0 s5) by (by eapply grows_trans). destruct o as [e|[]]; [by eapply left_holding|].
  apply pwp_enter; [done| | |].
  - intros Ht. rewrite Ht in Hroom. apply Nat.ltb_lt in Hroom. rewrite E5, E4, E3, E2. exact Hroom.
  - intros e C s' Hg. apply HE. by eapply grows_trans.
  - intros s' Hg. apply HQ. by eapply grows_trans.
Qed.

Lemma walks_AcceptClient s : walks AcceptClient s.
Proof using Hnet Hhc.
  intros Q HQ. unfold AcceptClient. apply pwp_bind, pwp_accept.
  - intros e s1 H. by apply HQ, after_later.
  - intros s1 H. by apply HQ, after_later.
  - intros i s1 Hg1 N1 Ho. apply pwp_bind, pwp_sys; [done|by repeat split|]. intros now s2 [H2 N2].
    cbn [weak rely k ltok t_seen] in H2. change (see s2 (ltok s1 [i] [])) with (ltok s2 [i] []) in *.
    assert (G2 : grows s s2) by (eapply grows_trans; [exact Hg1|apply (lr_grows _ _ H2)]).
    assert (Hh2 : holding i s2) by (split; [done|by eapply outsider_rely]).
    apply pwp_on_fail, pwp_admit_client; [done| |].
    + intros e C s3 Hg3 N3 HC Hl Hno. apply (pwp_CloseClientSocket i s3 C [] []); [done|done|by right|].
      intros s4 Hg4 N4 _ _. apply HQ. split; [|done]. eapply grows_trans; [exact G2|]. by eapply grows_trans.
    + intros s3 Hg3 N3. apply HQ. split; [|done]. by eapply grows_trans.
Qed.
(** ** A round *)
Lemma walks_DoWait s : stand s -> walks DoWait s.
Proof using Hnet Hhc SecL.
  intros N. unfold DoWait. apply walks_bind; [by apply walks_ProcessPendingMsg|]. intros processed s1 _ N1.
  apply walks_bind; [apply walks_ExpireHandshakes|]. intros _ s2 _ N2. cbv zeta. intros Q HQ.
  apply (pwp_epoll k Hgo (fun efd => Hc (EpollWait efd (if processed then 0 else kEpollWaitTimeInMillis)))); [by repeat split|done|].
  intros events s3 H3. pose proof (after_later _ _ H3) as [Hg3 N3]. change (see s3 (ltok s2 [] [])) with (ltok s3 [] []) in *.
  eapply walks_later; [|exact Hg3|intros o s' Hg' N'; by apply HQ].
  apply walks_bind; [by apply walks_handle_events|]. intros ready s4 _ N4.
  apply walks_bind; [apply walks_ExpireHandshakes|]. intros _ s5 _ N5.
  destruct ready; [apply walks_AcceptClient|by apply walks_done].
Qed.
End DoWait.
