(* ===== verification/CsServerHandler.v ===== *)
(** The thread of the message handler: a request is taken from the queue and committed to
    the pool with its processor. *)

From S2P Require Import Prelude StdMap Effects External Runtime Wire Hcomm Net CtrlConn CtrlConnSpec CtrlConnSafety MsgReceiver MsgReceiverSafety HostRegister Endpoint HcResources EndpointSafety ServerCalls Conc MsgHandler CsServer CsServerInv CsServerRules.

(** The handler changes, but not what other threads look at. *)
Lemma calm_handler s m :
  processors_ m = processors_ (msg_handler_ s) -> running_ m = running_ (msg_handler_ s) ->
  mh_listener_ m = mh_listener_ (msg_handler_ s) -> active <$> thread_pool_ m = active <$> pool_of s ->
  calm s (set_handler m s).
Proof.
  intros E1 E2 E3 E4. constructor; try done; [by left|by right|].
  intros hd. change (endpoint_at (set_handler m s) hd) with (endpoint_at s hd). destruct (endpoint_at s hd); [apply same_refl|done].
Qed.

Section Handler.
Context {codes : AclCodes} {again : HcclAgain} {cfg : ServerConfig}.
Context {env : Environment NetOp} {Hnet : NetLaws env} {Hhc : HcLaws env}.
Implicit Types (d : Token) (s : HixlCSServer) (h : History NetOp) (ds : Tokens).
Let k := THandler.

Definition running_handler s : Prop := mh_listener_ (msg_handler_ s) = Running.

Lemma handler_seen d ds s h : Inv ((k, d) :: ds) s h -> running_handler (t_seen d) -> running_handler s /\ grows (t_seen d) s.
Proof. intros HI Hr. destruct (seen _ _ _ _ _ HI Hr) as [Hg Hm]. by split. Qed.

(** A calm change of the handler. *)
Lemma handler_step d ds s h h' m :
  Inv ((k, d) :: ds) s h -> running_handler s -> calm s (set_handler m s) ->
  acct (srv_owned s ++ t_res d ++ res_of ds) h' -> CtrlConnSafety.owned (connections s) h' ->
  (forall q, q ∈ req_queue_ m -> published s (rq_conn q)) ->
  (forall p t, thread_pool_ m = Some p -> t ∈ tasks_ p -> published s (rq_conn (tk_req t))) ->
  Inv ((k, see (set_handler m s) d) :: ds) (set_handler m s) h'.
Proof.
  intros HI Hr Hc Ha Ho Hq Ht. rewrite <- (see_own d (set_handler m s)). pose proof (i_valid _ _ _ HI) as V.
  eapply inv_calm; [exact HI|by split|exact Hc|apply (i_store _ _ _ HI)|exact Ha|exact Ho|apply V| |exact Hq|exact Ht].
  by apply (valid_clients_same s).
Qed.

(** The end of the thread. *)
Definition handler_over s : HixlCSServer := set_handler (set_mh_listener Returned (msg_handler_ s)) s.
Lemma handler_others ds d s h k' : Inv ((k, d) :: ds) s h -> running_handler s -> k' ∈ ds.*1 -> rely k' s (handler_over s).
Proof.
  intros HI Hr Hin. assert (Hg : grows s (handler_over s)).
  { constructor; try done. intros hd e E. exists e. split; [exact E|apply same_refl]. }
  destruct k' as [c| | | |t]; [| |done|exfalso|exact Hg]; cbn [rely].
  - split; [|intros (_ & _ & Hq); by rewrite Hr in Hq]. constructor; try done.
  - constructor; try done. intros i Hi. by right.
  - assert (role k = None) by (by eapply (other_role k)). done.
Qed.
Lemma handler_ends d ds s h :
  Inv ((k, d) :: ds) s h -> running_handler s -> running_ (msg_handler_ s) = false -> 
  Inv ((k, see (handler_over s) d) :: ds) (handler_over s) h.
Proof.
  intros HI Hr Hst. pose proof (i_valid _ _ _ HI) as V. pose proof V as [V1 V2 V3 V4 V5 V6 V7 V8 V9 V10 V11 V12 V13 V14 V15].
  eapply inv_step; [exact HI|apply (i_store _ _ _ HI)|apply (i_acct _ _ _ HI)|apply (i_owned _ _ _ HI)|..]; try done.
  - constructor; try done. intros Ef. destruct (V12 Ef). by rewrite Hr in u_mh.
  - intros i Hi. destruct (i_open _ _ _ HI i Hi) as [?|Hin]; [by left|right]. by apply elem_of_app.
  - intros fd p Hp. destruct (i_pending _ _ _ HI fd p Hp) as [Hin|?]; [|by right; right].
    apply elem_of_app in Hin as [?|?]; [by left|by right; left].
  - intros k' Hin. by eapply handler_others.
  - pose proof (i_mid _ _ _ HI) as Hm. apply Forall_cons in Hm as [Hm _]. exact Hm.
  - intros Hn. by left.
  - intros Hl. destruct (i_stopped _ _ _ HI Hl) as [?|Hs]; [by left|right]. by apply Exists_cons in Hs.
  - intros _. destruct (i_mh _ _ _ HI Hst) as [[_ Hn]|Hs]; [by rewrite Hr in Hn|right]. by apply Exists_cons in Hs.
  - pose proof (i_owner _ _ _ HI) as Hw. by apply Forall_cons in Hw as [Hw _].
  - exact (own_hands _ _ _ _ _ HI).
Qed.

Lemma pwp_next_request d (Q : Status + option Request -> Token -> Prop) :
  running_handler (t_seen d) ->
  (forall s, Q (inr None) (see s d)) ->
  (forall q s, running_handler s -> published s (rq_conn q) -> Q (inr (Some q)) (see s d)) ->
  pwp Inv k (pzoom msg_handler_ set_handler (await wake next_request)) d Q.
Proof.
  intros Hd HN HS. apply pwp_zoom_await. intros ds s h HI Hw. destruct (handler_seen _ _ _ _ HI Hd) as [Hr _].
  pose proof (i_valid _ _ _ HI) as V. unfold next_request. apply wp_bind, wp_get.
  destruct (running_ (msg_handler_ s)) eqn:Er; cbn [negb].
  - destruct (req_queue_ (msg_handler_ s)) as [|q rest] eqn:Eq.
    { unfold wake in Hw. rewrite Eq, Er in Hw. done. }
    apply wp_bind, wp_modify, wp_ret. set (m := set_queue rest (msg_handler_ s)).
    exists (see (set_handler m s) d). split; [|apply HS; [done|apply (v_queue _ V); rewrite Eq; by left]].
    eapply handler_step; [exact HI|done|by apply calm_handler|by eapply inv_acct|apply (i_owned _ _ _ HI)| |apply V].
    intros q' Hq'. apply (v_queue _ V). rewrite Eq. by right.
  - apply wp_bind, wp_modify, wp_ret. exists (see (handler_over s) d). split; [by apply (handler_ends d ds s h)|apply HN].
Qed.

Lemma pwp_find_processor t d (Q : Status + option Processor -> Token -> Prop) :
  running_handler (t_seen d) -> (forall o s, running_handler s -> grows (t_seen d) s -> Q o (see s d)) ->
  pwp Inv k (pzoom msg_handler_ set_handler (atomic (find_processor t))) d Q.
Proof.
  intros Hd HQ. apply pwp_zoom_atomic. intros ds s h HI. destruct (handler_seen _ _ _ _ HI Hd) as [Hr Hg].
  pose proof (i_valid _ _ _ HI) as V. apply wp_bind, wp_get, wp_ret. assert (Es : set_handler (msg_handler_ s) s = s) by (by destruct s).
  exists (see (set_handler (msg_handler_ s) s) d). split; [|rewrite Es; by apply HQ].
  eapply handler_step; [exact HI|done|by apply calm_handler|by eapply inv_acct|apply (i_owned _ _ _ HI)|apply V|apply V].
Qed.

Lemma pwp_commit t d (Q : Status + bool -> Token -> Prop) :
  running_handler (t_seen d) -> published (t_seen d) (rq_conn (tk_req t)) -> (forall o s, Q o (see s d)) ->
  pwp Inv k (pzoom msg_handler_ set_handler (atomic (commit t))) d Q.
Proof.
  intros Hd Hp HQ. apply pwp_zoom_atomic. intros ds s h HI. destruct (handler_seen _ _ _ _ HI Hd) as [Hr Hg].
  pose proof (i_valid _ _ _ HI) as V. assert (Hp' := published_grows _ _ _ Hg Hp).
  assert (Hstep : forall h' m, acct (srv_owned s ++ t_res d ++ res_of ds) h' -> CtrlConnSafety.owned (connections s) h' ->
            processors_ m = processors_ (msg_handler_ s) /\ running_ m = running_ (msg_handler_ s) /\
            mh_listener_ m = mh_listener_ (msg_handler_ s) /\ req_queue_ m = req_queue_ (msg_handler_ s) ->
            active <$> thread_pool_ m = active <$> pool_of s ->
            (forall p t', thread_pool_ m = Some p -> t' ∈ tasks_ p -> published s (rq_conn (tk_req t'))) ->
            Inv ((k, see (set_handler m s) d) :: ds) (set_handler m s) h').
  { intros h' m Ha Ho (E1 & E2 & E3 & E4) E5 Ht. eapply handler_step; [exact HI|done|by apply calm_handler|done|done| |done].
    rewrite E4. apply V. }
  assert (Ha := inv_acct k d ds s h HI). pose proof (i_owned _ _ _ HI) as Ho.
  destruct (v_handler _ V Hr) as [pool Ep]. unfold commit. apply wp_bind, wp_get. unfold pool_of in Ep. rewrite Ep.
  destruct (is_stopped_ pool).
  { apply wp_ret. exists (see (set_handler (msg_handler_ s) s) d). split; [apply Hstep; try done; apply V|apply HQ]. }
  apply wp_bind, wp_call. intros made _. assert (Ha' : acct (srv_owned s ++ t_res d ++ res_of ds) (Ev NetNew made :: h)).
  { apply (acct_quiet [_]); [|done]. by apply Forall_singleton. }
  assert (Ho' : CtrlConnSafety.owned (connections s) (Ev NetNew made :: h)).
  { apply (owned_silent _ [_]); [|done]. apply Forall_singleton. by repeat split. }
  destruct made; cbn [negb].
  - apply wp_bind, wp_modify, wp_ret. set (m := set_pool _ (msg_handler_ s)). exists (see (set_handler m s) d).
    split; [|apply HQ]. apply Hstep; try done; [by unfold pool_of; rewrite Ep|].
    intros p t' [= <-] [Hin|Hin%list_elem_of_singleton]%elem_of_app; [by eapply (v_tasks _ V)|by subst t'].
  - apply wp_ret. exists (see (set_handler (msg_handler_ s) s) d). split; [apply Hstep; try done; apply V|apply HQ].
Qed.

Lemma pwp_HandleMsg d (Q : Status + unit -> Token -> Prop) :
  running_handler (t_seen d) -> (forall o s, Q o (see s d)) ->
  pwp Inv k (pzoom msg_handler_ set_handler HandleMsg_round) d Q.
Proof.
  intros Hd HQ. unfold HandleMsg_round. apply pwp_zoom_bind, pwp_next_request; [done|intros s; apply HQ|]. intros q s1 Hr1 Hp1.
  apply pwp_zoom_bind, pwp_find_processor; [done|]. intros [e|[proc|]] s2 Hr2 Hg2; [apply HQ| |apply HQ].
  apply pwp_zoom_bind, pwp_commit; [done|by eapply published_grows|]. intros [e|b] s3; apply HQ.
Qed.
End Handler.
