(* ===== verification/CsServerOwner.v ===== *)
(** The owner of a server, between its calls and the threads of the server: the steps in
    which it changes what only it may change. *)

From S2P Require Import Prelude StdMap Effects External Runtime Wire Hcomm Net CtrlConn CtrlConnSpec CtrlConnSafety MsgReceiver MsgReceiverSafety HostRegister Endpoint HcResources EndpointSafety ServerCalls Conc MsgHandler CsServer CsServerInv CsServerRules CsServerSteady CsServerRequests CsServerMoves.

Definition otok (s : HixlCSServer) (R : list HcRes) (C Md : list nat) (st : bool) : Token :=
  {| t_res := R; t_conns := C; t_mid := Md; t_stopping := st; t_seen := s |}.

Section Owner.
Context {codes : AclCodes} {again : HcclAgain} {clib : CLibrary} `{Sec : Securec} {SecL : SecurecLaws Sec}.
Context {cfg : ServerConfig} {abi : ServerAbi}.
Context {env : Environment NetOp} {Hnet : NetLaws env} {Hhc : HcLaws env}.
Variable c : ApiCall.
Implicit Types (d : Token) (s : HixlCSServer) (i : nat) (ds : Tokens) (h : History NetOp).
Let k := TApi c.
Let Hgo : goes_on k := I.

(** ** The other threads *)
Lemma no_other_owner d ds s h c' : Inv ((k, d) :: ds) s h -> TApi c' ∉ ds.*1.
Proof. intros HI Hin. assert (role k = None) by (by eapply (other_role k)). done. Qed.

Lemma owner_others d ds s s' h k' :
  Inv ((k, d) :: ds) s h -> grows s s' -> (listener_ (sv_listener s) = Running -> listener_rely s s') ->
  (mh_listener_ (msg_handler_ s) = Running -> mh_listener_ (msg_handler_ s') = Running) -> k' ∈ ds.*1 -> rely k' s s'.
Proof.
  intros HI Hg Hl Hm Hin. destruct k' as [c'| | | |t]; cbn [rely]; [|apply Hl|done|intros Hr; by constructor; [|apply Hm]|exact Hg].
  - exfalso. by eapply no_other_owner.
  - apply (i_listener _ _ _ HI). by right.
Qed.
Lemma quiet_others d ds s s' h k' : Inv ((k, d) :: ds) s h -> quiet s -> k' ∈ ds.*1 -> rely k' s s'.
Proof.
  intros HI (Q1 & Q2 & Q3) Hin. destruct k' as [c'| | | |t]; cbn [rely]; [| |done|done|].
  - exfalso. by eapply no_other_owner.
  - exfalso. assert (listener_ (sv_listener s) = Running) by (apply (i_listener _ _ _ HI); by right). congruence.
  - exfalso. destruct (worker_pool _ _ _ _ _ HI t) as (p & E & _); [by right|congruence].
Qed.

Lemma owner_not_stopping d ds s h : Inv ((k, d) :: ds) s h -> ~ stopping ds.
Proof.
  intros HI Hs. apply Exists_exists in Hs as ([k' d'] & Hin & Ht). cbn [snd] in Ht.
  pose proof (i_owner _ _ _ HI) as Ho. apply Forall_cons in Ho as [_ Ho]. rewrite Forall_forall in Ho.
  specialize (Ho _ Hin Ht). cbn [fst] in Ho. assert (role k = None); [|done]. eapply (other_role k); [exact HI| |exact Ho].
  apply list_elem_of_fmap. by exists (k', d').
Qed.
(** Without a listener thread, only the owner closes connections under handshake. *)
Lemma owner_mids d ds s h : Inv ((k, d) :: ds) s h -> listener_ (sv_listener s) = NoThread -> mids_of ds = [].
Proof.
  intros HI Hl. pose proof (i_mid _ _ _ HI) as Hm. apply Forall_cons in Hm as [_ Hm].
  assert (Hno : TListener ∉ ds.*1).
  { intros Hin. assert (listener_ (sv_listener s) = Running) by (apply (i_listener _ _ _ HI); by right). congruence. }
  assert (Hno' : forall k', k' ∈ ds.*1 -> role k' <> Some RApi).
  { intros k' Hin E. assert (role k = None) by (eapply (other_role k); [exact HI|exact Hin|exact E]). done. }
  clear HI. induction ds as [|[k' e] ds IH]; [done|]. apply Forall_cons in Hm as [H1 Hm].
  change (mids_of ((k', e) :: ds)) with (t_mid e ++ mids_of ds).
  cbn [fmap list_fmap fst snd] in *. apply not_elem_of_cons in Hno as [Hk Hno].
  rewrite IH; [|done|done|intros k'' Hin; apply Hno'; by right].
  destruct H1 as [->|[?|[Hr _]]]; [done|congruence|]. exfalso. eapply Hno'; [by left|exact Hr].
Qed.

(** ** A step of the owner *)
Section Step.
Context (d d' : Token) (ds : Tokens) (s s' : HixlCSServer) (h h' : History NetOp).
Hypotheses (HI : Inv ((k, d) :: ds) s h) (Hseen : t_seen d' = s').
Hypotheses (Hstore : store_wf (endpoint_store_ s')) (Hacct : acct (srv_owned s' ++ t_res d' ++ res_of ds) h').
Hypotheses (Howned : CtrlConnSafety.owned (connections s') h') (Hvalid : valid s').
Hypothesis Hopen : forall i, 0 <= fd_of s' i -> i ∈ refs s' \/ i ∈ t_conns d' \/ i ∈ conns_of ds.
Hypothesis Hpending : forall fd p, (fd, p) ∈ pending_of s' ->
  ph_connection p ∈ t_mid d' \/ ph_connection p ∈ mids_of ds \/ filed s' fd (ph_connection p).
Hypothesis Hothers : forall k', k' ∈ ds.*1 -> rely k' s s'.

Lemma owner_step :
  running_tasks s' = running_tasks s ->
  (listener_ (sv_listener s) = Running -> listener_ (sv_listener s') = Running) ->
  t_mid d' = [] \/ listener_ (sv_listener s') = NoThread ->
  (listener_running_ (sv_listener s') = false -> listener_ (sv_listener s') = NoThread \/ t_stopping d' = true) ->
  (running_ (msg_handler_ s') = false ->
     (pool_of s' = None /\ mh_listener_ (msg_handler_ s') = NoThread) \/ t_stopping d' = true) ->
  Inv ((k, d') :: ds) s' h'.
Proof using All.
  intros Hw Hrun Hm Hst Hmh. eapply inv_step; [exact HI|done..| | |exact Hw| | |exact Hrun| | | |]; try done.
  - rewrite Hseen. apply rely_refl.
  - destruct Hm as [?|?]; [by left|by right; right].
  - intros _. by right.
  - intros Hr. destruct (Hst Hr) as [?|?]; [by left|by right; left].
  - intros Hr. destruct (Hmh Hr) as [?|?]; [by left|by right; left].
Qed.
End Step.
(** ** Steps that leave the heap and the tables of connections alone *)
Record private (s s' : HixlCSServer) : Prop := {
  p_conns : connections s' = connections s;
  p_receivers : receivers s' = receivers s;
  p_clients : sv_clients s' = sv_clients s;
  p_lc : listener_connection_ (sv_listener s') = listener_connection_ (sv_listener s);
  p_pending : pending_of s' = pending_of s;
  p_queue : req_queue_ (msg_handler_ s') = req_queue_ (msg_handler_ s);
  p_pool : pool_of s' = pool_of s;
  p_control : control s' = control s;
  p_epoll : 0 <= epoll_fd_ (sv_listener s) -> epoll_fd_ (sv_listener s') = epoll_fd_ (sv_listener s);
  p_store : forall hd e, endpoint_at s hd = Some e -> exists e', endpoint_at s' hd = Some e' /\ same e e'
}.
Lemma private_control s s' : private s s' ->
  listener_running_ (sv_listener s') = listener_running_ (sv_listener s) /\ listener_ (sv_listener s') = listener_ (sv_listener s) /\
  running_ (msg_handler_ s') = running_ (msg_handler_ s) /\ mh_listener_ (msg_handler_ s') = mh_listener_ (msg_handler_ s).
Proof. intros H. pose proof (p_control _ _ H) as E. by injection E. Qed.

Lemma private_grows s s' : private s s' -> grows s s'.
Proof.
  intros H. constructor.
  - by rewrite (p_conns _ _ H).
  - unfold receiver_conns. by rewrite (p_receivers _ _ H).
  - apply (p_store _ _ H).
  - apply (p_epoll _ _ H).
  - intros i _. unfold fd_of. by rewrite (p_conns _ _ H).
Qed.
Lemma private_listener s s' : private s s' -> listener_rely s s'.
Proof.
  intros H. constructor.
  - by apply private_grows.
  - by rewrite (p_conns _ _ H).
  - unfold receiver_conns. by rewrite (p_receivers _ _ H).
  - apply (p_lc _ _ H).
  - apply (p_pending _ _ H).
  - intros i _. unfold fd_of. by rewrite (p_conns _ _ H).
  - intros i Hi. right. unfold connections_to_close in *. by rewrite (p_receivers _ _ H), (p_clients _ _ H).
Qed.
Lemma private_refs s s' : private s s' -> refs s' = refs s.
Proof.
  intros H. unfold refs, pending_conns, connections_to_close.
  by rewrite (p_lc _ _ H), (p_pending _ _ H), (p_receivers _ _ H), (p_clients _ _ H).
Qed.

Lemma private_valid s s' :
  valid s -> private s s' -> (std_find kDestroyChannelReq (processors_ (msg_handler_ s')) = None -> unset s') ->
  std_map_wf (processors_ (msg_handler_ s')) -> valid s'.
Proof.
  intros [V1 V2 V3 V4 V5 V6 V7 V8 V9 V10 V11 V12 V13 V14 V15] H Hu Hpw. destruct (private_control _ _ H) as (E1 & E2 & E3 & E4).
  constructor; unfold pending_conns, published, receiver_conns; rewrite ?(private_refs _ _ H), ?(p_conns _ _ H), ?(p_receivers _ _ H),
    ?(p_clients _ _ H), ?(p_lc _ _ H), ?(p_pending _ _ H), ?(p_queue _ _ H), ?(p_pool _ _ H), ?E2, ?E4; try done.
  intros Hn. destruct (V13 Hn) as [Hl He]. split; [done|]. by rewrite (p_epoll _ _ H).
Qed.

Lemma owner_private d ds s s' h h' R :
  Inv ((k, d) :: ds) s h -> private s s' -> store_wf (endpoint_store_ s') -> acct (srv_owned s' ++ R ++ res_of ds) h' ->
  CtrlConnSafety.owned (connections s) h' -> (std_find kDestroyChannelReq (processors_ (msg_handler_ s')) = None -> unset s') ->
  std_map_wf (processors_ (msg_handler_ s')) -> Inv ((k, with_res R (see s' d)) :: ds) s' h'.
Proof.
  intros HI H Hst Ha Ho Hu Hpw. destruct (private_control _ _ H) as (E1 & E2 & E3 & E4). eapply inv_same; [exact HI|exact Hst|exact Ha| |..].
  - by rewrite (p_conns _ _ H).
  - by eapply private_valid; [apply (i_valid _ _ _ HI)|..].
  - intros i. unfold fd_of. rewrite (p_conns _ _ H), (private_refs _ _ H). intros Hi.
    destruct (i_open _ _ _ HI i Hi) as [?|Hin]; [by left|right]. by apply elem_of_app.
  - intros fd p. rewrite (p_pending _ _ H). intros Hp. destruct (i_pending _ _ _ HI _ _ Hp) as [Hin|[F1 F2]].
    + apply elem_of_app in Hin as [?|?]; [by left|by right; left].
    + right; right. unfold filed, fd_of, published, receiver_conns in *. by rewrite (p_conns _ _ H), (p_receivers _ _ H).
  - apply rely_refl.
  - intros k' Hin. eapply owner_others; [exact HI|by apply private_grows|intros _; by apply private_listener|by rewrite E4|exact Hin].
  - apply (p_control _ _ H).
  - done.
  - done.
  - rewrite E2. pose proof (i_mid _ _ _ HI) as Hm. apply Forall_cons in Hm as [Hm _]. exact Hm.
Qed.

(** A block of such a step. *)
Lemma pwp_private {A} (m : M NetOp HixlCSServer A) d (Q : Status + A -> Token -> Prop) :
  (forall ds s h, Inv ((k, d) :: ds) s h -> owner_keeps (t_seen d) s ->
     wp m (fun o s' h' => private s s' /\ store_wf (endpoint_store_ s') /\ CtrlConnSafety.owned (connections s) h' /\
             (std_find kDestroyChannelReq (processors_ (msg_handler_ s')) = None -> unset s') /\
             std_map_wf (processors_ (msg_handler_ s')) /\
             exists R, acct (srv_owned s' ++ R ++ res_of ds) h' /\ 
               (Now k (with_res R (see s' d)) -> Q o (with_res R (see s' d)))) s h) ->
  pwp Inv k (atomic m) d Q.
Proof.
  intros Hm. apply pwp_atomic. intros ds s h HI. pose proof (inv_seen k _ _ _ _ HI) as Hs.
  eapply wp_mono; [by eapply Hm|]. intros o s' h' (H1 & H2 & H3 & H4 & H5 & R & Ha & HQ).
  assert (HI' : Inv ((k, with_res R (see s' d)) :: ds) s' h') by (by eapply owner_private).
  exists (with_res R (see s' d)). split; [done|]. apply HQ. by exists ds, h'.
Qed.
Lemma private_same s s' :
  connections s' = connections s -> receivers s' = receivers s -> sv_clients s' = sv_clients s ->
  sv_listener s' = sv_listener s -> endpoint_store_ s' = endpoint_store_ s ->
  req_queue_ (msg_handler_ s') = req_queue_ (msg_handler_ s) -> pool_of s' = pool_of s ->
  running_ (msg_handler_ s') = running_ (msg_handler_ s) -> mh_listener_ (msg_handler_ s') = mh_listener_ (msg_handler_ s) ->
  private s s'.
Proof.
  intros E1 E2 E3 E4 E5 E6 E7 E8 E9. constructor; unfold pending_of, control, endpoint_at; rewrite ?E4, ?E5, ?E7, ?E8, ?E9; try done.
  intros hd e E. exists e. split; [done|apply same_refl].
Qed.

(** ** Processors *)
Definition registered s : Prop := is_Some (std_find kDestroyChannelReq (processors_ (msg_handler_ s))).

Lemma registered_not_fresh s : registered s -> std_find kDestroyChannelReq (processors_ (msg_handler_ s)) = None -> unset s.
Proof. intros [p Hp] E. congruence. Qed.
Lemma valid_registered s : valid s -> ~ unset s -> registered s.
Proof. intros V Hn. unfold registered. destruct (std_find _ _) eqn:E; [by eexists|]. exfalso. by apply Hn, (v_fresh _ V). Qed.
Lemma registered_keeps s s' : owner_keeps s s' -> registered s -> registered s'.
Proof. intros H. unfold registered. by rewrite (ok_processors _ _ H). Qed.
Lemma unset_keeps s s' : owner_keeps s s' -> unset s -> unset s'.
Proof.
  intros H [U1 U2 U3 U4 U5 U6 U7 U8 U9]. destruct (ok_flags _ _ H) as [F1 F2].
  constructor; rewrite ?(ok_lc _ _ H), ?(ok_epoll _ _ H), ?(ok_running _ _ H), ?(ok_mh_running _ _ H), ?F1, ?F2; try done.
  - by apply (ok_listener _ _ H).
  - destruct (pool_of s') eqn:E; [|done]. assert (is_Some (pool_of s)) as [? E']; [|congruence].
    apply (ok_pool _ _ H). rewrite E. by eexists.
  - rewrite (ok_mh _ _ H); [done|]. by rewrite U6.
Qed.

(** The last processor that [Initialize] registers; before it, the server is unset. *)
Lemma pwp_RegProc t p d (Q : Status + unit -> Token -> Prop) :
  (forall e s, Now k (see s d) -> Q (inl e) (see s d)) ->
  (forall s, Now k (see s d) -> (t = kDestroyChannelReq -> unset s /\ registered s) -> Q (inr tt) (see s d)) ->
  pwp Inv k (RegProc t p) d Q.
Proof.
  intros HE HQ. unfold RegProc. apply pwp_with_context; [done|]. intros s0 _. apply pwp_private. intros ds s h HI _.
  pose proof (i_valid _ _ _ HI) as V. assert (Ha := inv_acct k _ _ _ _ HI). pose proof (i_owned _ _ _ HI) as Ho.
  assert (Hst := i_store _ _ _ HI). eapply wp_zoom; [done|]. unfold RegisterMsgProcessor. apply wp_bind, wp_get, wp_bind, wp_require.
  - intros Hf. destruct (std_find t (processors_ (msg_handler_ s))) eqn:E; [done|]. apply wp_modify.
    pose proof (v_processors_wf _ V) as W. set (s' := set_handler _ s).
    split_and!; [by apply private_same|done|done| |by apply std_set_wf|].
    + cbn [s' set_handler msg_handler_ set_processors processors_]. intros Hn.
      assert (U : unset s); [|by destruct U]. apply (v_fresh _ V). rewrite std_find_set in Hn by done. by case_decide.
    + exists (t_res d). split; [exact Ha|]. intros N s1 H1. apply HQ; [apply H1|]. intros ->.
      destruct H1 as [H1 _]. cbn [weak k t_seen see] in H1. split.
      * eapply unset_keeps; [exact H1|]. assert (U : unset s) by (by apply (v_fresh _ V)). by destruct U.
      * eapply registered_keeps; [exact H1|]. unfold registered. cbn [t_seen with_res see s' set_handler msg_handler_ set_processors processors_].
        rewrite std_find_set_same. by eexists.
  - intros _. replace (set_handler (msg_handler_ s) s) with s by (by destruct s).
    split_and!; [by apply private_same|done|done|apply V|apply V|]. exists (t_res d). split; [exact Ha|].
    intros N s1 H1. apply HE. apply H1.
Qed.
End Owner.
