(* ===== verification/CsServerMemory.v ===== *)
(** The memory that the owner registers, and the flags that tell the end of a transfer. *)

From S2P Require Import Prelude StdMap Effects External Runtime Wire Hcomm Net CtrlConn CtrlConnSpec CtrlConnSafety MsgReceiver MsgReceiverSafety HostRegister Endpoint HcResources EndpointSafety ServerCalls Conc MsgHandler CsServer CsServerInv CsServerRules CsServerSteady CsServerRequests CsServerMoves CsServerOwner.

Section Memory.
Context {codes : AclCodes} {again : HcclAgain} {clib : CLibrary} `{Sec : Securec} {SecL : SecurecLaws Sec}.
Context {cfg : ServerConfig} {abi : ServerAbi}.
Context {env : Environment NetOp} {Hnet : NetLaws env} {Hhc : HcLaws env}.
Variable c : ApiCall.
Implicit Types (d : Token) (s : HixlCSServer) (i : nat) (ds : Tokens) (h : History NetOp).
Let k := TApi c.
Let Hgo : goes_on k := I.

(** ** Registration *)
Lemma calm_reg_mems s x : calm s (set_reg_mems x s).
Proof.
  constructor; try done; [by left|by right|]. intros hd. change (endpoint_at (set_reg_mems x s) hd) with (endpoint_at s hd).
  destruct (endpoint_at s hd); [apply same_refl|done].
Qed.
Lemma steady_reg_mems f d : steady k (atomic (modify (fun s => set_reg_mems (f s) s))) d.
Proof.
  apply steady_table; [done|solve_emits|]. intros ds s h HI. pose proof (i_valid _ _ _ HI) as V. apply wp_modify.
  split_and!; [apply calm_reg_mems|done|done|done|apply (valid_clients _ V)..|apply V|done].
Qed.

Lemma steady_Rollback infos d : current k d -> steady k (RollbackRegisteredMem infos) d.
Proof.
  revert d. induction infos as [|[hd mh] infos IH]; intros d Hc; cbn [RollbackRegisteredMem]; [by apply steady_ret|].
  apply steady_bind; [by apply IH|]. intros _ s1 H1. apply steady_find; [done| |].
  - intros e s2 H2 Ho. apply steady_log, steady_deregister_mem; [done|exact Ho].
  - intros s2 H2. apply steady_ret; eauto with know.
Qed.
Lemma steady_register_all tag mem l infos d : current k d -> steady k (register_all tag mem l infos) d.
Proof.
  revert infos d. induction l as [|hd l IH]; intros infos d Hc; cbn [register_all]; [by apply steady_ret|].
  apply steady_find; [done| |].
  - intros e s1 H1 Ho. destruct (negb _); [by apply IH, see_current|].
    apply steady_bind; [apply steady_attempt, steady_register_mem; [done|exact Ho]|]. intros [e'|mh] s2 H2; [apply steady_ret; eauto with know|].
    apply IH; eauto with know.
  - intros s1 H1. apply steady_ret; eauto with know.
Qed.
Lemma steady_any_ub l d : current k d -> steady k (any_ub l) d.
Proof.
  revert d. induction l as [|hd l IH]; intros d Hc; cbn [any_ub]; [by apply steady_ret|].
  apply steady_need; [done|]. intros e s1 H1 Ho. apply steady_bind; [apply IH; eauto with know|]. intros b s2 H2.
  apply steady_ret; eauto with know.
Qed.

Lemma steady_RegisterMem tag mem d : steady k (RegisterMem tag mem) d.
Proof.
  unfold RegisterMem. apply steady_with_context; [done|]. intros s0 H0. apply steady_read; [done|]. intros s1 H1.
  apply steady_bind; [apply steady_require; eauto with know|]. intros _ s2 H2.
  apply steady_bind; [apply steady_any_ub; eauto with know|]. intros ub s3 H3.
  apply steady_bind; [apply steady_require; eauto with know|]. intros _ s4 H4.
  apply steady_bind; [apply steady_register_all; eauto with know|]. intros [infos [e|[]]] s5 H5.
  - apply steady_bind; [apply steady_Rollback; eauto with know|]. intros _ s6 H6. apply steady_fail; eauto with know.
  - destruct infos as [|[hd mh] infos]; [apply steady_fail; eauto with know|].
    apply steady_bind; [apply (steady_reg_mems (fun s => std_set mh ((hd, mh) :: infos) (reg_mems_ s)))|]. intros _ s6 H6.
    apply steady_ret; eauto with know.
Qed.
Lemma steady_deregister_info info d : steady k (deregister_info info) d.
Proof.
  unfold deregister_info. apply steady_need; [done|]. intros e s1 H1 Ho. by apply steady_deregister_mem.
Qed.
Lemma steady_DeregisterMem mh d : steady k (DeregisterMem mh) d.
Proof.
  unfold DeregisterMem. apply steady_with_context; [done|]. intros s0 H0. apply steady_read; [done|]. intros s1 H1.
  destruct (std_find mh (reg_mems_ s1)) as [infos|]; [|apply steady_fail; eauto with know].
  apply steady_bind.
  - apply steady_for_each; [eauto with know|]. intros info d' _ _. apply steady_deregister_info.
  - intros _ s2 H2. apply (steady_reg_mems (fun s => std_erase mh (reg_mems_ s))).
Qed.

(** ** Endpoints *)
Lemma pwp_create_endpoint b desc d (Q : Status + unit -> Token -> Prop) :
  (forall o s, Now k (see s d) -> Q o (see s d)) -> pwp Inv k (create_endpoint b desc) d Q.
Proof using Hhc.
  intros HQ. unfold create_endpoint. apply pwp_bind, pwp_private. intros ds s h HI _. pose proof (i_valid _ _ _ HI) as V.
  eapply wp_zoom; [done|]. eapply wp_mono.
  { apply wp_emits; [apply es_CreateEndpoint|]. eapply (wp_CreateEndpoint (flags_owned s ++ t_res d ++ res_of ds)).
    - apply srv_sinv; [apply (i_store _ _ _ HI)|]. apply (inv_acct k _ _ _ _ HI).
    - intros o st h' H1 H2. exact (conj H1 H2). }
  intros o st h' (([Hst Ha] & Hx) & t & -> & Ht). set (s' := set_store st s). split_and!.
  - constructor; try done. intros hd e E. exists e. split; [by apply Hx|apply same_refl].
  - exact Hst.
  - apply owned_silent; [done|apply (i_owned _ _ _ HI)].
  - intros E. by destruct (v_fresh _ V E).
  - apply V.
  - exists (t_res d). split; [unfold srv_owned; rewrite <- app_assoc; exact Ha|]. intros N.
    assert (Hnow : Now k (see s' d)) by exact N. destruct o as [e|hd]; [exact (HQ (inl e) s' Hnow)|].
    apply pwp_done. exact (HQ (inr tt) s' Hnow).
Qed.
Lemma pwp_create_endpoints b l d (Q : Status + unit -> Token -> Prop) :
  current k d -> (forall o s, Now k (see s d) -> Q o (see s d)) -> pwp Inv k (pfor_each l (create_endpoint b)) d Q.
Proof using Hhc.
  intros Hc HQ. apply (pwp_for_each _ _ _ _ _ (fun d' => exists s, d' = see s d /\ Now k (see s d))).
  - exists (t_seen d). rewrite see_seen. split; [done|exact Hc].
  - intros desc d' _ (s0 & -> & N0). apply pwp_create_endpoint. intros [e|[]] s N; [by apply HQ|by exists s].
  - intros d' (s & -> & N). by apply HQ.
Qed.
(** ** What the owner holds for a while *)
Lemma private_refl s : private s s.
Proof. by apply private_same. Qed.

(** The state stays; the thread has [post] in its hands afterwards. *)
Lemma pwp_hold {A} (m : M NetOp HixlCSServer A) (post : Status + A -> list HcRes) (P : Status + A -> Prop) d (Q : Status + A -> Token -> Prop) :
  (forall ds s h, Inv ((k, d) :: ds) s h ->
     wp m (fun o s' h' => s' = s /\ P o /\ acct (srv_owned s ++ post o ++ res_of ds) h' /\ CtrlConnSafety.owned (connections s) h') s h) ->
  (forall o s, owner_keeps (t_seen d) s -> P o -> Now k (with_res (post o) (see s d)) -> Q o (with_res (post o) (see s d))) ->
  pwp Inv k (atomic m) d Q.
Proof.
  intros Hm HQ. apply pwp_private. intros ds s h HI Hk. pose proof (i_valid _ _ _ HI) as V.
  eapply wp_mono; [by eapply Hm|]. intros o s' h' (-> & HP & Ha & Ho).
  split_and!; [apply private_refl|apply (i_store _ _ _ HI)|done|apply V|apply V|]. exists (post o). split; [done|]. by apply HQ.
Qed.

Lemma see_res R d s : with_res [] (see s (with_res R d)) = with_res [] (see s d).
Proof. done. Qed.
Lemma no_res d s : t_res d = [] -> with_res [] (see s d) = see s d.
Proof. intros E. unfold with_res, see. cbn. by rewrite E. Qed.

(** *** The flag of the host *)
Lemma pwp_alloc_host_flag size d (Q : Status + Z -> Token -> Prop) :
  t_res d = [] ->
  (forall e s, owner_keeps (t_seen d) s -> Now k (see s d) -> Q (inl e) (see s d)) ->
  (forall p s, owner_keeps (t_seen d) s -> Now k (with_res [RHost p] (see s d)) -> is_null p = false ->
     Q (inr p) (with_res [RHost p] (see s d))) ->
  pwp Inv k (atomic (alloc_host_flag size)) d Q.
Proof using Hhc.
  intros Hr HE HQ. apply (pwp_hold _ (fun o => match o with inl _ => [] | inr p => [RHost p] end)
    (fun o => match o with inl _ => True | inr p => is_null p = false end)).
  2:{ intros [e|p] s Hk HP N; [|by apply HQ]. rewrite no_res in N |- * by done. by apply HE. }
  intros ds s h HI. assert (Ha := inv_acct k _ _ _ _ HI). rewrite Hr in Ha. cbn [app] in Ha.
  unfold alloc_host_flag. apply wp_bind, wp_call. intros [rc p] Hrep.
  assert (Ho : CtrlConnSafety.owned (connections s) (Ev (Hc (PosixMemalign size sizeof_int64)) (rc, p) :: h)).
  { apply (owned_silent _ [_]); [apply Forall_singleton; by repeat split|apply (i_owned _ _ _ HI)]. }
  apply wp_bind, wp_require; intros Hok.
  - apply andb_true_iff in Hok as [Hrc Hp]. apply negb_true_iff in Hp. apply wp_ret. split_and!; [done|done| |done].
    apply acct_take; [done|done|cbn [obtains]; by rewrite Hrc, Hp|done|]. intros _. apply Z.eqb_eq in Hrc. subst rc. by eapply host_fresh.
  - split_and!; [done|done| |done]. apply acct_neutral; [done|done|cbn [obtains]; by rewrite Hok|done].
Qed.
Lemma pwp_free_host_flag p d (Q : Status + unit -> Token -> Prop) :
  t_res d = [RHost p] ->
  (forall s, owner_keeps (t_seen d) s -> Now k (with_res [] (see s d)) -> Q (inr tt) (with_res [] (see s d))) ->
  pwp Inv k (sys (Hc (HostFree p))) d Q.
Proof using Hhc.
  intros Hr HQ. apply (pwp_hold _ (fun _ => []) (fun o => o = inr tt)); [|by intros o s Hk -> N; apply HQ].
  intros ds s h HI. assert (Ha := inv_acct k _ _ _ _ HI). rewrite Hr in Ha. apply wp_call. intros [] _. split_and!; [done|done| |].
  - by eapply acct_give.
  - apply (owned_silent _ [_]); [apply Forall_singleton; by repeat split|apply (i_owned _ _ _ HI)].
Qed.
Lemma pwp_set_host_flag p d (Q : Status + unit -> Token -> Prop) :
  t_res d = [RHost p] -> is_null p = false -> host_trans_flag_ (sv_flags (t_seen d)) = nullptr -> registered (t_seen d) ->
  (forall s, grows (t_seen d) s -> dev_trans_flag_ (sv_flags s) = dev_trans_flag_ (sv_flags (t_seen d)) -> registered s ->
     Now k (with_res [] (see s d)) -> Q (inr tt) (with_res [] (see s d))) ->
  pwp Inv k (atomic (on_flags (modify (set_host_flag p)))) d Q.
Proof using Hhc.
  intros Hr Hp Hnull Hreg HQ. apply pwp_private. intros ds s h HI Hk. pose proof (i_valid _ _ _ HI) as V.
  assert (Ha := inv_acct k _ _ _ _ HI). rewrite Hr in Ha. destruct (ok_flags _ _ Hk) as [F1 F2].
  assert (Hreg' := registered_keeps _ _ Hk Hreg). eapply wp_zoom; [done|]. apply wp_modify. set (s' := set_flags _ s).
  split_and!; [by apply private_same|apply (i_store _ _ _ HI)|apply (i_owned _ _ _ HI)|by apply registered_not_fresh|apply V|].
  exists []. split.
  - eapply acct_perm; [|exact Ha]. unfold srv_owned, flags_owned, host_owned.
    change (endpoint_store_ s') with (endpoint_store_ s). change (sv_listener s') with (sv_listener s).
    cbn [s' set_flags sv_flags set_host_flag host_trans_flag_ dev_trans_flag_]. rewrite Hp, F1, Hnull.
    change (is_null nullptr) with true. cbn [app]. solve_Permutation.
  - intros N. apply HQ; [|exact F2|exact Hreg'|exact N].
    eapply grows_trans; [apply (ok_grows _ _ Hk)|]. by apply private_grows, private_same.
Qed.
(** The loop over the endpoints keeps what the thread holds. *)
Definition all_open d (l : list Z) : Prop := forall hd, hd ∈ l -> open_endpoint d hd.
Lemma steady_register_flags name mem l d : current k d -> all_open d l -> steady k (pfor_each l (register_flag name mem)) d.
Proof.
  intros Hc Hl. apply steady_for_each; [done|]. intros hd d' Hin (s & H & ->). unfold register_flag.
  apply steady_bind; [apply steady_register_mem; [done|apply (open_after k Hgo); [by apply Hl|done]]|]. intros mh s' H'.
  apply steady_ret; eauto with know.
Qed.
Lemma all_open_grows d d' l : grows (t_seen d) (t_seen d') -> all_open d l -> all_open d' l.
Proof. intros Hg Hl hd Hin. destruct (Hl hd Hin) as [e E]. destruct (g_store _ _ Hg _ _ E) as (e' & E' & _). by exists e'. Qed.

(** What setting the flag of the host leaves for the device. *)
Definition host_done d s : Prop :=
  grows (t_seen d) s /\ dev_trans_flag_ (sv_flags s) = dev_trans_flag_ (sv_flags (t_seen d)) /\ registered s.
Lemma host_done_keeps d s : owner_keeps (t_seen d) s -> registered (t_seen d) -> host_done d s.
Proof.
  intros H Hr. split_and!; [apply (ok_grows _ _ H)|apply (ok_flags _ _ H)|by eapply registered_keeps].
Qed.

Lemma pwp_RegisterHost l d (Q : Status + unit -> Token -> Prop) :
  t_res d = [] -> current k d -> all_open d l -> host_trans_flag_ (sv_flags (t_seen d)) = nullptr -> registered (t_seen d) ->
  (forall e s, Now k (see s d) -> Q (inl e) (see s d)) -> (forall s, Now k (see s d) -> host_done d s -> Q (inr tt) (see s d)) ->
  pwp Inv k (RegisterHostTransFinishedFlag l) d Q.
Proof using Hhc.
  intros Hr Hc Hl Hnull Hreg HE HQ. unfold RegisterHostTransFinishedFlag.
  apply pwp_bind, steady_sys; [done|by repeat split|]. intros [e|page] s1 [H1 N1]; [by apply HE|].
  apply pwp_bind, pwp_require; intros _; [|by apply HE].
  apply pwp_bind, pwp_alloc_host_flag; [done|intros e s _ N; by apply (HE e s)|]. intros p s2 H2 N2 Hp. cbn [t_seen see] in H2.
  assert (H12 : owner_keeps (t_seen d) s2) by (by eapply owner_keeps_trans).
  set (d2 := with_res [RHost p] (see s2 (see s1 d))) in *. apply pwp_bind, pwp_on_fail, steady_register_flags; [done| |].
  - eapply (all_open_grows d); [apply (ok_grows _ _ H12)|done].
  - intros [e|[]] s3 [H3 N3].
    + apply pwp_free_host_flag; [done|]. intros s4 _ N4. change (with_res [] (see s4 (see s3 d2))) with (with_res [] (see s4 d)) in *.
      rewrite no_res in N4 |- * by done. by apply HE.
    + assert (H13 : owner_keeps (t_seen d) s3) by (by eapply owner_keeps_trans).
      apply (pwp_set_host_flag p); [done|done| | |].
      * cbn [t_seen see]. by destruct (ok_flags _ _ H13) as [-> _].
      * by eapply registered_keeps.
      * intros s4 Hg Hd Hreg4 N4. change (with_res [] (see s4 (see s3 d2))) with (with_res [] (see s4 d)) in *.
        rewrite no_res in N4 |- * by done. apply HQ; [done|]. destruct (ok_flags _ _ H13) as [_ F]. cbn [t_seen see] in Hg, Hd.
        split_and!; [eapply grows_trans; [apply (ok_grows _ _ H13)|done]|congruence|done].
Qed.

(** *** The flag of the device *)
Lemma pwp_alloc_device_flag d (Q : Status + Z -> Token -> Prop) :
  t_res d = [] ->
  (forall e s, owner_keeps (t_seen d) s -> Now k (see s d) -> Q (inl e) (see s d)) ->
  (forall p s, owner_keeps (t_seen d) s -> Now k (with_res [RDev p] (see s d)) -> is_null p = false ->
     Q (inr p) (with_res [RDev p] (see s d))) ->
  pwp Inv k (atomic alloc_device_flag) d Q.
Proof using Hhc.
  intros Hr HE HQ. apply (pwp_hold _ (fun o => match o with inl _ => [] | inr p => [RDev p] end)
    (fun o => match o with inl _ => True | inr p => is_null p = false end)).
  2:{ intros [e|p] s Hk HP N; [|by apply HQ]. rewrite no_res in N |- * by done. by apply HE. }
  intros ds s h HI. assert (Ha := inv_acct k _ _ _ _ HI). rewrite Hr in Ha. cbn [app] in Ha.
  unfold alloc_device_flag. apply wp_bind, wp_call. intros [rc p] Hrep.
  assert (Ho : CtrlConnSafety.owned (connections s) (Ev (Hc (AclMalloc sizeof_int64)) (rc, p) :: h)).
  { apply (owned_silent _ [_]); [apply Forall_singleton; by repeat split|apply (i_owned _ _ _ HI)]. }
  apply wp_bind. unfold chk_acl. destruct (Z.eqb_spec rc 0) as [->|Hne].
  - destruct (dev_fresh _ _ _ Hrep) as [Hp Hf]. assert (Hp' : is_null p = false) by (by apply Z.eqb_neq).
    apply wp_ret, wp_ret. split_and!; [done|done| |done].
    apply acct_take; [done|done|cbn [obtains]; by rewrite Hp'|done|done].
  - apply wp_fail. split_and!; [done|done| |done]. apply acct_neutral; [done|done| |done].
    cbn [obtains]. by rewrite (proj2 (Z.eqb_neq _ _) Hne).
Qed.
Lemma pwp_FreeDeviceMem p d (Q : Status + unit -> Token -> Prop) :
  t_res d = [RDev p] -> is_null p = false ->
  (forall s, owner_keeps (t_seen d) s -> Now k (with_res [] (see s d)) -> Q (inr tt) (with_res [] (see s d))) ->
  pwp Inv k (atomic (FreeDeviceMem p)) d Q.
Proof using Hhc.
  intros Hr Hp HQ. apply (pwp_hold _ (fun _ => []) (fun o => o = inr tt)); [|by intros o s Hk -> N; apply HQ].
  intros ds s h HI. assert (Ha := inv_acct k _ _ _ _ HI). rewrite Hr in Ha. unfold FreeDeviceMem. rewrite Hp.
  apply wp_bind, wp_call. intros rc _. apply wp_ret. split_and!; [done|done| |].
  - by eapply acct_give.
  - apply (owned_silent _ [_]); [apply Forall_singleton; by repeat split|apply (i_owned _ _ _ HI)].
Qed.
Lemma steady_fill_device_flag p d : t_res d = [RDev p] -> steady k (atomic (fill_device_flag p)) d.
Proof.
  intros Hr Q HQ. apply (pwp_still k _ (fun _ _ => True)); [done| |by intros; apply HQ].
  intros ds s h HI. assert (Ha := inv_acct k _ _ _ _ HI). unfold fill_device_flag. apply wp_bind, wp_call. intros rc _.
  apply wp_chk_acl. intros o. split_and!; [done|done| |].
  - apply acct_neutral; [done| |done|done]. unfold needs_own. cbn [hc_needs]. split; [|done].
    rewrite Hr, !elem_of_app. right; left. by left.
  - apply (owned_silent _ [_]); [apply Forall_singleton; by repeat split|apply (i_owned _ _ _ HI)].
Qed.
Lemma pwp_set_dev_flag p d (Q : Status + unit -> Token -> Prop) :
  t_res d = [RDev p] -> is_null p = false -> dev_trans_flag_ (sv_flags (t_seen d)) = nullptr -> registered (t_seen d) ->
  (forall s, Now k (with_res [] (see s d)) -> Q (inr tt) (with_res [] (see s d))) ->
  pwp Inv k (atomic (on_flags (modify (set_dev_flag p)))) d Q.
Proof using Hhc.
  intros Hr Hp Hnull Hreg HQ. apply pwp_private. intros ds s h HI Hk. pose proof (i_valid _ _ _ HI) as V.
  assert (Ha := inv_acct k _ _ _ _ HI). rewrite Hr in Ha. destruct (ok_flags _ _ Hk) as [F1 F2].
  assert (Hreg' := registered_keeps _ _ Hk Hreg). eapply wp_zoom; [done|]. apply wp_modify. set (s' := set_flags _ s).
  split_and!; [by apply private_same|apply (i_store _ _ _ HI)|apply (i_owned _ _ _ HI)|by apply registered_not_fresh|apply V|].
  exists []. split; [|intros N; by apply HQ].
  eapply acct_perm; [|exact Ha]. unfold srv_owned, flags_owned, dev_owned.
  change (endpoint_store_ s') with (endpoint_store_ s). change (sv_listener s') with (sv_listener s).
  cbn [s' set_flags sv_flags set_dev_flag host_trans_flag_ dev_trans_flag_]. rewrite Hp, F2, Hnull.
  change (is_null nullptr) with true. cbn [app]. solve_Permutation.
Qed.
Lemma pwp_register_device_flag l d (Q : Status + unit -> Token -> Prop) :
  t_res d = [] -> all_open d l -> dev_trans_flag_ (sv_flags (t_seen d)) = nullptr -> registered (t_seen d) ->
  (forall o s, Now k (see s d) -> Q o (see s d)) -> pwp Inv k (register_device_flag l) d Q.
Proof using Hhc.
  intros Hr Hl Hnull Hreg HQ. unfold register_device_flag.
  apply pwp_bind, pwp_alloc_device_flag; [done|intros e s _ N; by apply HQ|]. intros p s1 H1 N1 Hp.
  set (d1 := with_res [RDev p] (see s1 d)) in *. assert (Hl1 : all_open d1 l) by (by eapply (all_open_grows d); [apply (ok_grows _ _ H1)|]).
  apply pwp_bind, pwp_on_fail. assert (Hs : steady k (atomic (fill_device_flag p) ;;;
    pfor_each l (register_flag kTransFlagNameDevice {| cm_type := COMM_MEM_TYPE_DEVICE; cm_addr := p; cm_size := sizeof_int64 |})) d1).
  { apply steady_bind; [by apply steady_fill_device_flag|]. intros _ s2 H2. apply steady_register_flags; [eauto with know|].
    eapply (all_open_grows d1); [|exact Hl1]. destruct H2 as [H2 _]. apply (ok_grows _ _ H2). }
  apply Hs. intros [e|[]] s2 [H2 N2].
  - apply pwp_FreeDeviceMem; [done|done|]. intros s3 _ N3. change (with_res [] (see s3 (see s2 d1))) with (with_res [] (see s3 d)) in *.
    rewrite no_res in N3 |- * by done. by apply HQ.
  - assert (H12 : owner_keeps (t_seen d) s2) by (by eapply owner_keeps_trans).
    apply (pwp_set_dev_flag p); [done|done| |by eapply registered_keeps|].
    + cbn [t_seen see]. by destruct (ok_flags _ _ H12) as [_ ->].
    + intros s3 N3. change (with_res [] (see s3 (see s2 d1))) with (with_res [] (see s3 d)) in *.
      rewrite no_res in N3 |- * by done. by apply HQ.
Qed.

(** *** The transfer pool *)
Lemma steady_pool_finalize dev d : steady k (pool_finalize dev) d.
Proof.
  unfold pool_finalize. apply steady_bind; [apply steady_sys; [done|by repeat split]|]. intros found s1 H1.
  destruct found; [apply steady_sys; [done|by repeat split]|apply steady_ret; eauto with know].
Qed.
Lemma calm_flags s f :
  host_trans_flag_ f = host_trans_flag_ (sv_flags s) -> dev_trans_flag_ f = dev_trans_flag_ (sv_flags s) -> calm s (set_flags f s).
Proof.
  intros E1 E2. constructor; try done; [by left|by right|]. intros hd. change (endpoint_at (set_flags f s) hd) with (endpoint_at s hd).
  destruct (endpoint_at s hd); [apply same_refl|done].
Qed.
Lemma steady_set_device dev d : steady k (atomic (on_flags (modify (set_device dev)))) d.
Proof.
  apply steady_table; [done|apply emits_zoom; intros _; solve_emits|]. intros ds s h HI. pose proof (i_valid _ _ _ HI) as V.
  eapply wp_zoom; [done|]. apply wp_modify. split_and!; [by apply calm_flags|done|done|done|apply (valid_clients _ V)..|apply V|done].
Qed.
Lemma steady_get_device d : steady k (atomic get_device) d.
Proof.
  apply steady_quiet; [done|..].
  - unfold get_device. solve_emits; try (by repeat split). unfold chk_acl. solve_emits.
  - intros s h. unfold get_device. apply wp_bind, wp_call. intros [rc dev] _. apply wp_bind, wp_chk_acl. intros [e|[]]; [done|by apply wp_ret].
Qed.

Lemma pwp_RegisterDevice l b d (Q : Status + unit -> Token -> Prop) :
  t_res d = [] -> all_open d l -> dev_trans_flag_ (sv_flags (t_seen d)) = nullptr -> registered (t_seen d) ->
  (forall o s, Now k (see s d) -> Q o (see s d)) -> pwp Inv k (RegisterDeviceTransFinishedFlag l b) d Q.
Proof using Hhc.
  intros Hr Hl Hnull Hreg HQ. unfold RegisterDeviceTransFinishedFlag.
  apply pwp_bind, steady_get_device. intros [e|dev] s1 [H1 N1]; [by apply HQ|].
  apply pwp_bind, steady_switch; [done|]. intros [e|prev] s2 [H2 N2]; [by apply HQ|].
  assert (H12 : owner_keeps (t_seen d) s2) by (by eapply owner_keeps_trans). rewrite see_see in N2 |- *.
  apply pwp_finally. set (Post := fun (o : Status + unit) d' => pwp Inv k (atomic (restore_context prev)) d' _).
  assert (HP : forall o s, Now k (see s d) -> Post o (see s d)).
  { intros o s N. apply steady_restore; [done|]. intros _ s' [_ N']. by apply HQ. }
  clearbody Post. apply pwp_bind, steady_sys; [done|by repeat split|]. intros [e|pool] s3 [H3 N3]; [by apply HP|].
  apply pwp_bind, pwp_require; intros _; [|by apply HP].
  apply pwp_bind, steady_sys; [done|by repeat split|]. intros [e|st] s4 [H4 N4]; [by apply HP|].
  apply pwp_bind, pwp_require; intros _; [|by apply HP].
  apply pwp_bind, pwp_on_fail. assert (H14 : owner_keeps (t_seen d) s4).
  { eapply owner_keeps_trans; [exact H12|]. by eapply owner_keeps_trans. }
  set (Post2 := fun (o : Status + unit) d' => match o with inl e => _ | inr a => _ end).
  assert (HP2 : forall o s, Now k (see s d) -> Post2 o (see s d)).
  { intros [e|[]] s N.
    - apply steady_pool_finalize. intros _ s' [_ N']. by apply HP.
    - apply steady_set_device. intros o s' [_ N']. by apply HP. }
  clearbody Post2. apply pwp_bind. assert (Hs : steady k (if b then let! st0 := sys (Hc (PoolResolveNotifyAddr dev)) in prequire (st0 =? SUCCESS) st0
     else pret tt) (see s4 d)).
  { destruct b; [|by apply steady_ret]. apply steady_bind; [apply steady_sys; [done|by repeat split]|]. intros st0 s5 H5.
    apply steady_require; eauto with know. }
  apply Hs. intros [e|[]] s5 [H5 N5]; [by apply HP2|]. assert (H15 : owner_keeps (t_seen d) s5) by (by eapply owner_keeps_trans).
  apply pwp_register_device_flag; [done| | | |].
  - eapply (all_open_grows d); [apply (ok_grows _ _ H15)|done].
  - cbn [t_seen see]. by destruct (ok_flags _ _ H15) as [_ ->].
  - by eapply registered_keeps.
  - intros o s N. by apply HP2.
Qed.

Lemma flag_endpoints_open s l1 l2 b : store_wf (endpoint_store_ s) ->
  flag_endpoints (endpoints_ (endpoint_store_ s)) = (l1, l2, b) -> forall hd, hd ∈ l1 \/ hd ∈ l2 -> is_Some (endpoint_at s hd).
Proof.
  intros [W _] [= <- <- _] hd Hin.
  assert (Hex : exists e, (hd, e) ∈ endpoints_ (endpoint_store_ s)).
  { destruct Hin as [([h' e] & -> & Hin)%list_elem_of_fmap|([h' e] & -> & Hin)%list_elem_of_fmap];
      apply list_elem_of_filter in Hin as [_ Hin]; by exists e. }
  destruct Hex as [e He]. exists e. by apply std_find_elem.
Qed.

Lemma pwp_InitTransFinishedFlag d (Q : Status + unit -> Token -> Prop) :
  t_res d = [] -> host_trans_flag_ (sv_flags (t_seen d)) = nullptr -> dev_trans_flag_ (sv_flags (t_seen d)) = nullptr ->
  registered (t_seen d) -> (forall o s, Now k (see s d) -> Q o (see s d)) -> pwp Inv k InitTransFinishedFlag d Q.
Proof using Hhc.
  intros Hr Hh Hd Hreg HQ. unfold InitTransFinishedFlag. apply pwp_bind, pwp_read; [done|]. intros s1 [H1 N1].
  destruct (flag_endpoints _) as [[l1 l2] b] eqn:E. assert (Hst : store_wf (endpoint_store_ s1)).
  { destruct N1 as (ds & h & HI). apply (i_store _ _ _ HI). }
  pose proof (flag_endpoints_open _ _ _ _ Hst E) as Hop. cbn [weak k] in H1. destruct (ok_flags _ _ H1) as [F1 F2].
  assert (Hdev : forall s, Now k (see s d) -> host_done (see s1 d) s ->
    pwp Inv k (if bool_decide (l2 = []) then pret tt else RegisterDeviceTransFinishedFlag l2 b) (see s d) Q).
  { intros s N (Hg & Ef & Hreg'). case_bool_decide; [apply pwp_done; by apply HQ|]. cbn [t_seen see] in Hg, Ef.
    apply pwp_RegisterDevice; [done| |cbn [t_seen see]; congruence|done|intros o s'; apply HQ].
    intros hd Hin. destruct (Hop hd) as [e He]; [by right|]. destruct (g_store _ _ Hg _ _ He) as (e' & He' & _). by exists e'. }
  assert (Hreg1 := registered_keeps _ _ H1 Hreg). apply pwp_bind. destruct (bool_decide (l1 = [])).
  - apply pwp_done, Hdev; [done|]. apply host_done_keeps; [apply owner_keeps_refl|done].
  - apply pwp_RegisterHost; [done|done|intros hd Hin; apply Hop; by left|cbn [t_seen see]; congruence|done| |].
    + intros e s N. by apply HQ.
    + intros s N Hdone. by apply Hdev.
Qed.
End Memory.
