(* ===== verification/CsServerStart.v ===== *)
(** The owner starts the server: its processors, its listening connection, its threads. *)

From S2P Require Import Prelude StdMap Effects External Runtime Wire Hcomm Net CtrlConn CtrlConnSpec CtrlConnSafety MsgReceiver MsgReceiverSafety HostRegister Endpoint HcResources EndpointSafety ServerCalls Conc MsgHandler CsServer CsServerInv CsServerRules CsServerSteady CsServerRequests CsServerMoves CsServerOwner CsServerMemory.

Section Start.
Context {codes : AclCodes} {again : HcclAgain} {clib : CLibrary} `{Sec : Securec} {SecL : SecurecLaws Sec}.
Context {cfg : ServerConfig} {abi : ServerAbi}.
Context {env : Environment NetOp} {Hnet : NetLaws env} {Hhc : HcLaws env}.
Variable a : ApiCall.
Implicit Types (d : Token) (s : HixlCSServer) (i l : nat) (ds : Tokens) (h : History NetOp).
Let k := TApi a.
Let Hgo : goes_on k := I.

(** ** The listening connection *)
Definition lc_is s l : Prop := listener_connection_ (sv_listener s) = Some l.
Definition no_listener s : Prop := listener_ (sv_listener s) = NoThread.

Lemma lc_lt s l : valid s -> lc_is s l -> (l < length (connections s))%nat.
Proof. intros V E. apply (v_conn _ V), elem_of_app. left. unfold refs. rewrite E. apply elem_of_app. left. by left. Qed.
Lemma lc_registered s l : valid s -> lc_is s l -> registered s.
Proof. intros V E. apply valid_registered; [done|]. intros [U _]. unfold lc_is in E. congruence. Qed.
Lemma no_listener_thread d ds s h : Inv ((k, d) :: ds) s h -> no_listener s -> TListener ∉ ds.*1.
Proof.
  intros HI Hn Hin. assert (listener_ (sv_listener s) = Running) by (apply (i_listener _ _ _ HI); by right).
  unfold no_listener in Hn. congruence.
Qed.
Lemma lc_keeps s s' l : owner_keeps s s' -> lc_is s l -> lc_is s' l.
Proof. intros H. unfold lc_is. by rewrite (ok_lc _ _ H). Qed.
Lemma no_listener_keeps s s' : owner_keeps s s' -> no_listener s -> no_listener s'.
Proof. intros H. apply (ok_listener _ _ H). Qed.

(** Its descriptor is nobody else's business. *)
Lemma lc_put l conn s : valid s -> lc_is s l -> grows s (put_conn l conn s).
Proof.
  intros V E. pose proof (lc_lt _ _ V E) as Hl. destruct (v_lc _ V _ E) as [_ Hp]. constructor; try done.
  - cbn. by rewrite length_insert.
  - intros hd e Ee. exists e. split; [exact Ee|apply same_refl].
  - intros j Hj Hf. rewrite fd_of_put by done. case_decide as Ej; [by subst j|done].
Qed.
Lemma lc_put_keeps l conn s : valid s -> lc_is s l -> owner_keeps s (put_conn l conn s).
Proof. intros V E. constructor; try done. by apply lc_put. Qed.

Lemma pwp_lc_call {A} l (m : M NetOp Conn A) d (Q : Status + A -> Token -> Prop) :
  lc_is (t_seen d) l -> no_listener (t_seen d) -> emits neutral m ->
  (forall conn h F S, holds conn h F S -> wp m (fun _ conn' h' => holds conn' h' F S) conn h) ->
  (forall o s, owner_keeps (t_seen d) s -> Now k (see s d) -> Q o (see s d)) -> pwp Inv k (conn_call l m) d Q.
Proof.
  intros El0 Hn0 He Hm HQ. apply pwp_atomic. intros ds s h HI. pose proof (inv_seen k _ _ _ _ HI) as Hk. cbn [weak k] in Hk.
  pose proof (i_valid _ _ _ HI) as V. assert (El := lc_keeps _ _ _ Hk El0). assert (Hn := no_listener_keeps _ _ Hk Hn0).
  pose proof (lc_lt _ _ V El) as Hl. destruct (v_lc _ V _ El) as [Hnp _]. destruct (lookup_lt_is_Some_2 _ _ Hl) as [conn Hc].
  eapply (wp_on_conn l conn m (fun _ _ => True)).
  - exact Hc.
  - apply (i_owned _ _ _ HI).
  - apply (inv_acct k _ _ _ _ HI).
  - exact He.
  - intros F S Hh. eapply wp_mono; [by apply Hm|]. by intros o conn' h' H.
  - intros o conn' h' _ Ho Ha. set (s' := put_conn l conn' s). exists (see s' d).
    assert (Hg := lc_put l conn' s V El). assert (Hm' : moves s s') by (by apply moves_heap).
    assert (HI' : Inv ((k, see s' d) :: ds) s' h').
    { eapply inv_same; [exact HI|apply (i_store _ _ _ HI)|exact Ha|exact Ho|..]; try done.
      - apply (moves_valid s); try apply V; [done|]. cbn. rewrite length_insert. apply V.
      - intros j. unfold s'. rewrite fd_of_put by done. case_decide as Ej.
        + intros _. left. unfold refs. cbn. rewrite El. subst j. by left.
        + intros Hj. destruct (i_open _ _ _ HI j Hj) as [?|Hin]; [by left|right]. by apply elem_of_app.
      - intros fd p Hp. change (pending_of s') with (pending_of s) in Hp.
        destruct (i_pending _ _ _ HI _ _ Hp) as [Hin|[F1 F2]]; [apply elem_of_app in Hin as [?|?]; [by left|by right; left]|right; right].
        split; [|exact F2]. unfold s'. rewrite fd_of_put by done. rewrite decide_False; [done|].
        intros E. apply Hnp. rewrite <- E. apply list_elem_of_fmap. by exists (fd, p).
      - apply rely_refl.
      - intros k' Hin. eapply owner_others; [exact HI|done|intros Hr; unfold no_listener in Hn; congruence|done|exact Hin].
      - pose proof (i_mid _ _ _ HI) as Hmid. apply Forall_cons in Hmid as [Hmid _]. exact Hmid. }
    split; [done|]. apply HQ; [|by exists ds, h']. eapply owner_keeps_trans; [exact Hk|]. by apply lc_put_keeps.
Qed.
(** ** The epoll instance *)
Definition polled (efd : Z) s : HixlCSServer := set_listener (set_epoll efd (sv_listener s)) s.

(** Without one, it is created. *)
Lemma wp_AddToEpoll_new l conn (Q : Status + unit -> HixlCSServer -> History NetOp -> Prop) s h :
  connections s !! l = Some conn -> epoll_fd_ (sv_listener s) < 0 -> (forall e, Q (inl e) s h) ->
  (forall e efd, efd < 0 -> Q (inl e) (polled efd s) (Ev (Hc EpollCreate) efd :: h)) ->
  (forall o efd fd ev (x : Z * Z), 0 <= efd -> efd = reply_of _ (Hc EpollCreate) h ->
     Q o (polled efd s) (Ev (Hc (EpollAdd efd fd ev)) x :: Ev (Hc EpollCreate) efd :: h)) ->
  wp (AddToEpoll l) Q s h.
Proof.
  intros Hc Hp HE HN HQ. unfold AddToEpoll. apply wp_bind, wp_get. rewrite Hc.
  assert (Eid : forall efd, set_connections (<[l := conn]> (connections s)) (set_listener (set_epoll efd (sv_listener s)) s) = polled efd s).
  { intros efd. exact (set_connections_id (polled efd s) l conn Hc). }
  assert (Eid' : polled (epoll_fd_ (sv_listener s)) s = s) by apply set_listener_id.
  eapply wp_zoom; [done|]. cbn [fst snd]. unfold CtrlMsgPlugin_AddToEpoll. apply wp_bind, wp_get. cbn [fst snd].
  apply wp_bind, wp_require; intros Hfd; [|cbn [fst snd]; by rewrite Eid, Eid'].
  rewrite (proj2 (Z.ltb_lt _ _)) by done. apply wp_bind, wp_bind, wp_call. intros efd Hefd. apply wp_bind, wp_modify, wp_require.
  - intros Hp'. apply Z.leb_le in Hp'. apply wp_bind, wp_get. cbn [fst snd]. apply wp_bind, wp_call. intros [rc errno] _.
    apply wp_require; intros _; cbn [fst snd]; rewrite Eid; by apply HQ.
  - intros Hp'. apply Z.leb_gt in Hp'. cbn [fst snd]. rewrite Eid. by apply HN.
Qed.

Lemma private_polled efd s : epoll_fd_ (sv_listener s) < 0 -> private s (polled efd s).
Proof.
  intros Hp. constructor; try done; [cbn [polled set_listener sv_listener set_epoll epoll_fd_]; lia|].
  intros hd e E. exists e. split; [exact E|apply same_refl].
Qed.
Lemma polled_owned efd s own h :
  epoll_fd_ (sv_listener s) < 0 -> acct (srv_owned s ++ epoll_owned efd ++ own) h -> acct (srv_owned (polled efd s) ++ own) h.
Proof.
  intros Hp Ha. eapply acct_perm; [|exact Ha]. unfold srv_owned, flags_owned. cbn [polled set_listener sv_listener set_epoll epoll_fd_].
  assert (E : epoll_owned (epoll_fd_ (sv_listener s)) = []) by (unfold epoll_owned; by rewrite (proj2 (Z.leb_gt _ _))).
  rewrite E. change (endpoint_store_ (polled efd s)) with (endpoint_store_ s). change (sv_flags (polled efd s)) with (sv_flags s).
  solve_Permutation.
Qed.

Lemma pwp_lc_AddToEpoll l d (Q : Status + unit -> Token -> Prop) :
  lc_is (t_seen d) l -> no_listener (t_seen d) ->
  (forall o s, lc_is s l -> no_listener s -> Now k (see s d) -> (o = inr tt -> 0 <= epoll_fd_ (sv_listener s)) -> Q o (see s d)) ->
  pwp Inv k (atomic (AddToEpoll l)) d Q.
Proof using Hhc.
  intros El0 Hn0 HQ. apply pwp_private. intros ds s h HI Hk. pose proof (i_valid _ _ _ HI) as V.
  assert (El := lc_keeps _ _ _ Hk El0). assert (Hn := no_listener_keeps _ _ Hk Hn0). assert (Hreg := lc_registered _ _ V El).
  destruct (lookup_lt_is_Some_2 _ _ (lc_lt _ _ V El)) as [conn Hconn]. assert (Ha := inv_acct k _ _ _ _ HI).
  pose proof (i_owned _ _ _ HI) as Ho. assert (Hst := i_store _ _ _ HI).
  assert (Hstay : forall (o : Status + unit) h', acct (srv_owned s ++ t_res d ++ res_of ds) h' -> CtrlConnSafety.owned (connections s) h' ->
    (o = inr tt -> 0 <= epoll_fd_ (sv_listener s)) ->
    private s s /\ store_wf (endpoint_store_ s) /\ CtrlConnSafety.owned (connections s) h' /\
    (std_find kDestroyChannelReq (processors_ (msg_handler_ s)) = None -> unset s) /\ std_map_wf (processors_ (msg_handler_ s)) /\
    exists R, acct (srv_owned s ++ R ++ res_of ds) h' /\ (Now k (with_res R (see s d)) -> Q o (with_res R (see s d)))).
  { intros o h' Ha' Ho' Hp'. split_and!; [apply private_refl|done|done|by apply registered_not_fresh|apply V|].
    exists (t_res d). split; [done|]. intros N. by apply (HQ o s). }
  destruct (Z.lt_ge_cases (epoll_fd_ (sv_listener s)) 0) as [Hp|Hp].
  - assert (Hnew : forall (o : Status + unit) efd h', acct (srv_owned (polled efd s) ++ t_res d ++ res_of ds) h' ->
      CtrlConnSafety.owned (connections s) h' -> (o = inr tt -> 0 <= efd) ->
      private s (polled efd s) /\ store_wf (endpoint_store_ (polled efd s)) /\ CtrlConnSafety.owned (connections s) h' /\
      (std_find kDestroyChannelReq (processors_ (msg_handler_ (polled efd s))) = None -> unset (polled efd s)) /\
      std_map_wf (processors_ (msg_handler_ (polled efd s))) /\
      exists R, acct (srv_owned (polled efd s) ++ R ++ res_of ds) h' /\
        (Now k (with_res R (see (polled efd s) d)) -> Q o (with_res R (see (polled efd s) d)))).
    { intros o efd h' Ha' Ho' Hp'. split_and!; [by apply private_polled|done|done|by apply registered_not_fresh|apply V|].
      exists (t_res d). split; [done|]. intros N. by apply (HQ o (polled efd s)). }
    apply (wp_AddToEpoll_new l conn); [done|done|intros e; by apply Hstay| |].
    + intros e efd Hefd. apply Hnew; [|by apply (owned_silent _ [_]); [apply Forall_singleton; by repeat split|]|done].
      apply polled_owned; [done|]. assert (E : epoll_owned efd = []) by (unfold epoll_owned; by rewrite (proj2 (Z.leb_gt _ _))).
      rewrite E. apply acct_neutral; [done|done|cbn [obtains]; by rewrite (proj2 (Z.leb_gt _ _))|done].
    + intros o efd fd ev x Hefd Hrep.
      assert (Ho2 : CtrlConnSafety.owned (connections s) (Ev (Hc (EpollAdd efd fd ev)) x :: Ev (Hc EpollCreate) efd :: h)).
      { apply (owned_silent _ [_]); [apply Forall_singleton; by repeat split|].
        apply (owned_silent _ [_]); [apply Forall_singleton; by repeat split|done]. }
      apply Hnew; [|exact Ho2|done].
      apply polled_owned; [done|]. assert (E : epoll_owned efd = [REpoll efd]) by (unfold epoll_owned; by rewrite (proj2 (Z.leb_le _ _))).
      rewrite E. apply acct_neutral; [| |done|done].
      * apply acct_take; [done|done|cbn [obtains]; by rewrite (proj2 (Z.leb_le _ _))|done|].
        intros _. destruct (epoll_fresh _ _ Hrep) as [?|?]; [lia|done].
      * unfold needs_own. cbn [hc_needs]. rewrite (proj2 (Z.leb_le _ _)) by done. split; [|done].
        rewrite !elem_of_app. right; left. by left.
  - apply (wp_AddToEpoll l conn); [done|done|intros e; by apply Hstay|]. intros o x ev Hfd. apply Hstay; [| |done].
    + apply acct_neutral; [done| |done|done]. unfold needs_own. cbn [hc_needs]. rewrite (proj2 (Z.leb_le _ _)) by done.
      split; [|done]. apply elem_of_app. left. by apply epoll_owned_in.
    + apply (owned_silent _ [_]); [|done]. apply Forall_singleton. by repeat split.
Qed.
(** ** The thread *)
Definition listening (run : bool) (t : ThreadStatus) s : HixlCSServer := set_listener (set_listening run t (sv_listener s)) s.

Lemma grows_listening run t s : grows s (listening run t s).
Proof. by apply grows_same. Qed.
Lemma listening_valid run t s :
  valid s -> registered s ->
  (t <> NoThread -> is_Some (listener_connection_ (sv_listener s)) /\ 0 <= epoll_fd_ (sv_listener s)) -> valid (listening run t s).
Proof.
  intros [V1 V2 V3 V4 V5 V6 V7 V8 V9 V10 V11 V12 V13 V14 V15] Hreg Ht. constructor; try done.
  intros E. by apply registered_not_fresh in E.
Qed.

Lemma pwp_start_listener l d (Q : Status + unit -> Token -> Prop) :
  lc_is (t_seen d) l -> no_listener (t_seen d) -> 0 <= epoll_fd_ (sv_listener (t_seen d)) -> t_mid d = [] ->
  (forall s, Now k (see s d) -> Q (inr tt) (see s d)) -> pwp Inv k (atomic start_listener) d Q.
Proof.
  intros El0 Hn0 Hp0 Hmid HQ. apply pwp_atomic. intros ds s h HI. pose proof (inv_seen k _ _ _ _ HI) as Hk. cbn [weak k] in Hk.
  pose proof (i_valid _ _ _ HI) as V. assert (El := lc_keeps _ _ _ Hk El0). assert (Hn := no_listener_keeps _ _ Hk Hn0).
  assert (Hreg := lc_registered _ _ V El). eapply wp_zoom; [done|]. apply wp_modify.
  change (set_listener _ s) with (listening true Running s). set (s' := listening true Running s). exists (see s' d).
  assert (HI' : Inv ((k, see s' d) :: ds) s' h).
  { eapply owner_step; [exact HI|done|apply (i_store _ _ _ HI)|apply (inv_acct k _ _ _ _ HI)|apply (i_owned _ _ _ HI)|..]; try done.
    - apply listening_valid; [done|done|]. intros _. split; [by exists l|]. by rewrite (ok_epoll _ _ Hk).
    - intros i Hi. destruct (i_open _ _ _ HI i Hi) as [?|Hin]; [by left|right]. by apply elem_of_app.
    - intros fd p Hp. destruct (i_pending _ _ _ HI _ _ Hp) as [Hin|?]; [apply elem_of_app in Hin as [?|?]; [by left|by right; left]|by right; right].
    - intros k' Hin. eapply owner_others; [exact HI|apply grows_listening| |done|exact Hin].
      intros Hr. unfold no_listener in Hn. congruence.
    - by left.
    - intros Hr. destruct (i_mh _ _ _ HI Hr) as [?|Hs]; [by left|right]. apply Exists_cons in Hs as [?|Hs]; [done|].
      exfalso. by eapply owner_not_stopping. }
  split; [done|]. apply HQ. by exists ds, h.
Qed.

Lemma pwp_Listen backlog d (Q : Status + unit -> Token -> Prop) :
  t_mid d = [] -> (forall o s, Now k (see s d) -> Q o (see s d)) -> pwp Inv k (Listen backlog) d Q.
Proof using All.
  intros Hmid HQ. unfold Listen. apply pwp_with_context; [done|]. intros s0 _. set (Post := fun (o : Status + unit) d' => forall s', _).
  assert (HP : forall o s, Now k (see s d) -> Post o (see s d)) by (intros o s N s' [_ N']; by apply HQ). clearbody Post.
  apply pwp_bind, pwp_read; [done|]. intros s1 [_ N1]. rewrite see_see in N1 |- *.
  destruct (listener_connection_ (sv_listener s1)) as [l|] eqn:El; [|by apply pwp_done, HP].
  assert (V1 : valid s1) by (destruct N1 as (ds & h & HI); apply (i_valid _ _ _ HI)).
  apply pwp_bind, steady_Fd; [done|by apply lc_lt|]. intros [e|fd] s2 [H2 N2]; [by apply HP|]. cbn [weak k t_seen see] in H2.
  apply pwp_bind, pwp_require; intros Hok; [|by apply HP]. apply andb_true_iff in Hok as [_ Hj].
  assert (Hn1 : no_listener s1) by (unfold joinable in Hj; rewrite negb_involutive in Hj; by apply bool_decide_eq_true in Hj).
  assert (Hn2 := no_listener_keeps _ _ H2 Hn1). assert (El2 := lc_keeps _ _ _ H2 El). rewrite see_see in N2 |- *.
  apply pwp_bind, (pwp_lc_call l); [done|done|apply em_Listen| |].
  { intros conn h F S Hh. by eapply wp_Listen. }
  intros [e|[]] s3 H3 N3; [by apply HP|]. cbn [t_seen see] in H3. rewrite see_see in N3 |- *.
  apply pwp_bind, pwp_on_fail, (pwp_lc_AddToEpoll l); [by eapply lc_keeps|by eapply no_listener_keeps|].
  intros [e|[]] s4 El4 Hn4 N4 Hp; rewrite see_see in N4 |- *.
  - apply pwp_log, (pwp_lc_call l); [done|done|apply em_Close| |intros o s5 _ N5; by apply HP].
    intros conn h F S Hh. apply (wp_CloseLocked F S); [done|]. by intros o conn' h' H' _ _.
  - apply (pwp_start_listener l); [done|done|by apply Hp|done|]. intros s5 N5. by apply HP.
Qed.
(** * Initialize *)

(** ** Before the threads *)
Record ready s : Prop := {
  y_listener : no_listener s;
  y_pool : pool_of s = None;
  y_mh : mh_listener_ (msg_handler_ s) = NoThread;
  y_mhr : running_ (msg_handler_ s) = false;
  y_host : host_trans_flag_ (sv_flags s) = nullptr;
  y_dev : dev_trans_flag_ (sv_flags s) = nullptr;
  y_registered : registered s
}.
Lemma ready_keeps s s' : owner_keeps s s' -> ready s -> ready s'.
Proof.
  intros H [Y1 Y2 Y3 Y4 Y5 Y6 Y7]. destruct (ok_flags _ _ H) as [F1 F2]. constructor.
  - by eapply no_listener_keeps.
  - destruct (pool_of s') eqn:E; [|done]. assert (is_Some (pool_of s)) as [? E']; [|congruence].
    apply (ok_pool _ _ H). rewrite E. by eexists.
  - rewrite (ok_mh _ _ H); [done|]. by rewrite Y3.
  - by rewrite (ok_mh_running _ _ H).
  - by rewrite F1.
  - by rewrite F2.
  - by eapply registered_keeps.
Qed.
Lemma ready_unset s : unset s -> registered s -> ready s.
Proof. by intros []. Qed.
Lemma ready_quiet s : ready s -> quiet s.
Proof. intros [Y1 Y2 Y3 Y4 Y5 Y6 Y7]. split_and!; [done|done|]. by rewrite Y3. Qed.

Lemma pwp_RegisterMsgProcessors d (Q : Status + unit -> Token -> Prop) :
  (forall e s, Now k (see s d) -> Q (inl e) (see s d)) ->
  (forall s, Now k (see s d) -> unset s -> registered s -> Q (inr tt) (see s d)) ->
  pwp Inv k RegisterMsgProcessors d Q.
Proof.
  intros HE HQ. unfold RegisterMsgProcessors.
  apply pwp_bind, pwp_RegProc; [intros e s N; by apply HE|]. intros s1 N1 _.
  apply pwp_bind, pwp_RegProc; [intros e s N; by apply HE|]. intros s2 N2 _.
  apply pwp_bind, pwp_RegProc; [intros e s N; by apply HE|]. intros s3 N3 _.
  apply pwp_RegProc; [intros e s N; by apply HE|]. intros s4 N4 H. destruct H as [U R]; [done|]. by apply HQ.
Qed.

(** ** The listening connection is made *)
Definition with_lc s : HixlCSServer :=
  set_listener (set_listener_connection (Some (length (connections s))) (sv_listener s)) (set_connections (connections s ++ [Conn_new]) s).

Lemma fd_of_with_lc s i : fd_of (with_lc s) i = if decide (i = length (connections s)) then -1 else fd_of s i.
Proof.
  unfold fd_of. change (connections (with_lc s)) with (connections s ++ [Conn_new]). case_decide as E.
  - subst i. by rewrite lookup_app_r, Nat.sub_diag.
  - destruct (decide (i < length (connections s))%nat) as [Hlt|Hge]; [by rewrite lookup_app_l|].
    rewrite !lookup_ge_None_2; [done|lia|rewrite length_app; cbn; lia].
Qed.

Lemma with_lc_inv d ds s h :
  Inv ((k, d) :: ds) s h -> unset s -> registered s -> Inv ((k, see (with_lc s) d) :: ds) (with_lc s) h.
Proof.
  intros HI U Hreg. pose proof (i_valid _ _ _ HI) as V. assert (Hy := ready_unset _ U Hreg).
  assert (Hold : forall i, i ∈ refs s ++ receiver_conns s -> i <> length (connections s)).
  { intros i Hi ->. apply (v_conn _ V) in Hi. lia. }
  assert (Eref : refs (with_lc s) = length (connections s) :: refs s).
  { unfold refs. cbn [with_lc set_listener sv_listener set_listener_connection listener_connection_ option_list app].
    destruct U as [Ul]. by rewrite Ul. }
  eapply inv_same; [exact HI|apply (i_store _ _ _ HI)|apply (inv_acct k _ _ _ _ HI)|..]; try done.
  - apply owned_new_conn, (i_owned _ _ _ HI).
  - pose proof V as [V1 V2 V3 V4 V5 V6 V7 V8 V9 V10 V11 V12 V13 V14 V15]. constructor; try done.
    + rewrite Eref. change (receiver_conns (with_lc s)) with (receiver_conns s). cbn [app].
      change (connections (with_lc s)) with (connections s ++ [Conn_new]). rewrite length_app. cbn [length].
      intros i [->|Hi]%elem_of_cons; [lia|]. apply V2 in Hi. lia.
    + intros i [= <-]. change (pending_conns (with_lc s)) with (pending_conns s).
      split; intros Hi; apply (Hold (length (connections s))); try done; apply elem_of_app; [left|by right].
      unfold refs. rewrite !elem_of_app. right; by left.
    + intros E. by apply registered_not_fresh in E.
    + intros Hn. exfalso. apply Hn, (y_listener _ Hy).
  - intros i. rewrite fd_of_with_lc, Eref. case_decide; [lia|]. intros Hi.
    destruct (i_open _ _ _ HI i Hi) as [?|Hin]; [left; by right|right]. by apply elem_of_app.
  - intros fd p Hp. change (pending_of (with_lc s)) with (pending_of s) in Hp.
    destruct (i_pending _ _ _ HI _ _ Hp) as [Hin|[F1 F2]]; [apply elem_of_app in Hin as [?|?]; [by left|by right; left]|right; right].
    split; [|exact F2]. rewrite fd_of_with_lc, decide_False; [done|]. apply Hold. unfold refs. rewrite !elem_of_app.
    left; right; left. apply list_elem_of_fmap. by exists (fd, p).
  - apply rely_refl.
  - intros k' Hin. eapply quiet_others; [exact HI|by apply ready_quiet|exact Hin].
  - pose proof (i_mid _ _ _ HI) as Hm. apply Forall_cons in Hm as [Hm _]. exact Hm.
Qed.

Lemma pwp_new_listener_connection d (Q : Status + nat -> Token -> Prop) :
  unset (t_seen d) -> registered (t_seen d) ->
  (forall e s, Now k (see s d) -> Q (inl e) (see s d)) ->
  (forall l s, Now k (see s d) -> lc_is s l -> ready s -> Q (inr l) (see s d)) ->
  pwp Inv k new_listener_connection d Q.
Proof.
  intros U0 R0 HE HQ. unfold new_listener_connection. apply pwp_bind, pwp_read; [done|]. intros s1 [H1 N1]. cbn [weak k] in H1.
  assert (U1 := unset_keeps _ _ H1 U0). assert (R1 := registered_keeps _ _ H1 R0). rewrite (u_lc _ U1).
  apply pwp_bind, pwp_sys; [done|by repeat split|]. intros made s2 [H2 N2]. cbn [weak k t_seen see] in H2. rewrite see_see in N2 |- *.
  assert (U2 := unset_keeps _ _ H2 U1). assert (R2 := registered_keeps _ _ H2 R1).
  apply pwp_bind, pwp_atomic. intros ds s h HI. pose proof (inv_seen k _ _ _ _ HI) as Hk. cbn [weak k t_seen see] in Hk.
  assert (U := unset_keeps _ _ Hk U2). assert (R := registered_keeps _ _ Hk R2). destruct made.
  - apply wp_bind. unfold new_connection. apply wp_bind, wp_get, wp_bind, wp_modify, wp_ret, wp_bind.
    eapply wp_zoom; [done|]. apply wp_modify, wp_ret. change (set_listener _ _) with (with_lc s).
    assert (HI' := with_lc_inv _ _ _ _ HI U R). exists (see (with_lc s) d). split; [exact HI'|].
    apply pwp_bind, pwp_done, pwp_bind, pwp_require; intros Hm; [|done]. apply pwp_done, HQ; [by exists ds, h|done|].
    destruct (ready_unset _ U R) as [Y1 Y2 Y3 Y4 Y5 Y6 Y7]. by constructor.
  - apply wp_bind. eapply wp_zoom; [done|]. apply wp_modify, wp_ret.
    assert (Es : set_listener (set_listener_connection None (sv_listener s)) s = s).
    { destruct U as [Ul]. clear -Ul. destruct s as [? ? ? [? ? ? ? ?] ? ? ? ? ?]. cbn in Ul. by subst. }
    rewrite Es. exists (see s d). assert (HI' : Inv ((k, see s d) :: ds) s h).
    { change (see s d) with (with_res (t_res d) (see s (see s2 d))).
      eapply inv_still; [exact HI|apply (inv_acct k _ _ _ _ HI)|apply (i_owned _ _ _ HI)|done]. }
    split; [exact HI'|]. apply pwp_bind, pwp_done, pwp_bind, pwp_require; intros Hm; [done|]. apply HE. by exists ds, h.
Qed.
Lemma steady_lc_Initialize l d : (l < length (connections (t_seen d)))%nat -> steady k (conn_call l CtrlMsgPlugin_Initialize) d.
Proof.
  intros Hl. apply steady_conn_call; [done|done|apply em_Initialize|]. intros conn h F S Hh. by apply (wp_Initialize F S).
Qed.

(** ** The handler and its pool *)

(** What [MsgHandler::Initialize] leaves. *)
Record started (m m' : MsgHandler) (o : Status + unit) : Prop := {
  sd_queue : req_queue_ m' = req_queue_ m;
  sd_processors : processors_ m' = processors_ m;
  sd_pool : (thread_pool_ m' = None /\ running_ m' = false /\ mh_listener_ m' = mh_listener_ m) \/
            (thread_pool_ m' = Some {| tasks_ := []; is_stopped_ := false; active := 0 |} /\ running_ m' = true /\
             (mh_listener_ m' = mh_listener_ m \/ mh_listener_ m' = Running))
}.
Lemma emits_context : emits (fun e => neutral e /\ silent e) GetCurrentContext.
Proof. unfold GetCurrentContext. solve_emits; try (by repeat split); unfold chk_acl; solve_emits. Qed.
Lemma emits_handler_start : emits (fun e => neutral e /\ silent e) MsgHandler_Initialize.
Proof. unfold MsgHandler_Initialize. solve_emits; try (by repeat split). apply emits_context. Qed.

Lemma wp_context m h (Q : Status + unit -> MsgHandler -> History NetOp -> Prop) :
  (forall o x h', Q o (set_ctx x m) h') -> wp GetCurrentContext Q m h.
Proof.
  intros HQ. assert (HQ' : forall o h', Q o m h') by (intros o h'; specialize (HQ o (mh_ctx_ m) h'); by destruct m).
  unfold GetCurrentContext. apply wp_bind, wp_get. destruct (has_context_ _); [by apply wp_ret|].
  apply wp_bind, wp_call. intros [e n] _. apply wp_bind, wp_chk_acl. intros [e'|[]]; [by apply HQ'|].
  destruct (n =? 0); [by apply wp_modify|]. apply wp_bind, wp_call. intros [e2 ctx] _. apply wp_bind, wp_chk_acl.
  intros [e'|[]]; [by apply HQ'|]. by apply wp_modify.
Qed.
Lemma wp_handler_start m h : running_ m = false -> wp MsgHandler_Initialize (fun o m' _ => started m m' o) m h.
Proof.
  intros Hr. unfold MsgHandler_Initialize. apply wp_bind, wp_call. intros made _. apply wp_bind, wp_modify, wp_bind, wp_require; intros Hm.
  - rewrite Hm. apply wp_bind, wp_modify, wp_bind, wp_context. intros [e|[]] x h'.
    + constructor; [done|done|]. right. split_and!; [done|done|by left].
    + apply wp_modify. constructor; [done|done|]. right. split_and!; [done|done|by right].
  - rewrite Hm. constructor; [done|done|]. left. by split_and!.
Qed.

Lemma started_inv d ds s h m o :
  Inv ((k, d) :: ds) s h -> ready s -> started (msg_handler_ s) m o -> Inv ((k, see (set_handler m s) d) :: ds) (set_handler m s) h.
Proof.
  intros HI Y [S1 S2 S3]. pose proof (i_valid _ _ _ HI) as V. destruct Y as [Y1 Y2 Y3 Y4 Y5 Y6 Y7].
  set (s' := set_handler m s). assert (Y7' : registered s').
  { unfold registered in *. change (msg_handler_ s') with m. by rewrite S2. }
  eapply owner_step; [exact HI|done|apply (i_store _ _ _ HI)|apply (inv_acct k _ _ _ _ HI)|apply (i_owned _ _ _ HI)|..]; try done.
  - pose proof V as [V1 V2 V3 V4 V5 V6 V7 V8 V9 V10 V11 V12 V13 V14 V15]. constructor; unfold pool_of; change (msg_handler_ s') with m; try done.
    + by rewrite S1.
    + intros p t Ep Ht. destruct S3 as [(E & _)|(E & _)]; rewrite E in Ep; [done|]. injection Ep as <-. by apply elem_of_nil in Ht.
    + intros E. by apply (registered_not_fresh s').
    + intros Er. destruct S3 as [(_ & _ & E)|(E & _)]; [rewrite E, Y3 in Er; done|rewrite E; by eexists].
    + by rewrite S2.
  - intros i Hi. destruct (i_open _ _ _ HI i Hi) as [?|Hin]; [by left|right]. by apply elem_of_app.
  - intros fd p Hp. destruct (i_pending _ _ _ HI _ _ Hp) as [Hin|?]; [apply elem_of_app in Hin as [?|?]; [by left|by right; left]|by right; right].
  - intros k' Hin. eapply quiet_others; [exact HI| |exact Hin]. split_and!; [done|done|by rewrite Y3].
  - unfold running_tasks, pool_of in *. rewrite Y2. change (msg_handler_ s') with m. by destruct S3 as [(-> & _)|(-> & _)].
  - right. exact Y1.
  - intros _. left. exact Y1.
  - unfold pool_of. change (msg_handler_ s') with m. destruct S3 as [(E1 & E2 & E3)|(E1 & E2 & _)]; [|by rewrite E2].
    intros _. left. split; [done|]. by rewrite E3.
Qed.

Lemma pwp_start_handler d (Q : Status + unit -> Token -> Prop) :
  ready (t_seen d) ->
  (forall o s, Now k (see s d) -> host_trans_flag_ (sv_flags s) = nullptr -> dev_trans_flag_ (sv_flags s) = nullptr ->
     registered s -> Q o (see s d)) ->
  pwp Inv k (atomic (on_handler MsgHandler_Initialize)) d Q.
Proof.
  intros Y0 HQ. apply pwp_atomic. intros ds s h HI. pose proof (inv_seen k _ _ _ _ HI) as Hk. cbn [weak k] in Hk.
  assert (Y := ready_keeps _ _ Hk Y0). eapply wp_zoom; [done|].
  eapply wp_mono; [apply wp_emits; [apply emits_handler_start|apply wp_handler_start, (y_mhr _ Y)]|].
  intros o m h' (Hs & t & -> & Ht). exists (see (set_handler m s) d).
  assert (HI' : Inv ((k, see (set_handler m s) d) :: ds) (set_handler m s) (t ++ h)).
  { pose proof (started_inv _ _ _ _ _ _ HI Y Hs) as [I1 I2 I3 I4 I5 I6 I7 I8 I9 I10 I11 I12 I13 I14 I15]. constructor; try done.
    - apply acct_quiet; [|done]. eapply Forall_impl; [exact Ht|]. by intros e [? _].
    - apply owned_silent; [|done]. eapply Forall_impl; [exact Ht|]. by intros e [_ ?]. }
  split; [done|]. apply HQ; [by exists ds, (t ++ h)|apply (y_host _ Y)|apply (y_dev _ Y)|].
  unfold registered. cbn. rewrite (sd_processors _ _ _ Hs). apply (y_registered _ Y).
Qed.

(** ** The body of [Initialize], and its guard *)
Lemma pwp_set_configurable b d (Q : Status + unit -> Token -> Prop) :
  (forall s, Now k (see s d) -> Q (inr tt) (see s d)) -> pwp Inv k (atomic (on_flags (modify (set_configurable b)))) d Q.
Proof.
  intros HQ. apply (pwp_table k _ (fun o _ => o = inr tt)); [done|apply emits_zoom; intros _; solve_emits| |by intros o s [_ N] ->; apply HQ].
  intros ds s h HI. pose proof (i_valid _ _ _ HI) as V. eapply wp_zoom; [done|]. apply wp_modify.
  split_and!; [done|by apply calm_flags|done|done|done|apply (valid_clients _ V)..|apply V|done].
Qed.

Lemma pwp_Initialize_body (l : list EndpointDesc) d (Q : Status + unit -> Token -> Prop) :
  current k d -> t_res d = [] -> (forall o s, Now k (see s d) -> Q o (see s d)) ->
  pwp Inv k (pfor_each l (create_endpoint (AreUbCtpEndpointsAllDevice l)) ;;;
             RegisterMsgProcessors ;;;
             let! lc := new_listener_connection in
             conn_call lc CtrlMsgPlugin_Initialize ;;;
             atomic (on_handler MsgHandler_Initialize) ;;;
             InitTransFinishedFlag) d Q.
Proof using All.
  intros Hc Hr HQ. apply pwp_bind, pwp_create_endpoints; [done|]. intros [e|[]] s1 N1; [by apply HQ|].
  apply pwp_bind, pwp_RegisterMsgProcessors; [intros e s N; by apply HQ|]. intros s2 N2 U2 R2.
  apply pwp_bind, pwp_new_listener_connection; [done|done|intros e s N; by apply HQ|]. intros lc s3 N3 El3 Y3. rewrite !see_see in N3 |- *.
  assert (V3 : valid s3) by (destruct N3 as (ds & h & HI); apply (i_valid _ _ _ HI)).
  apply pwp_bind, steady_lc_Initialize; [by apply lc_lt|]. intros [e|[]] s4 [H4 N4]; [by apply HQ|].
  apply pwp_bind, pwp_start_handler; [by eapply ready_keeps|]. intros [e|[]] s5 N5 F5 G5 R5; [by apply HQ|].
  apply pwp_InitTransFinishedFlag; [done|done|done|done|]. intros o s6 N6. by apply HQ.
Qed.
End Start.
