(* ===== verification/CsServerStop.v ===== *)
(** The owner stops the server: the threads are told to leave, then everything is closed
    by the owner alone. *)

From S2P Require Import Prelude StdMap Effects External Runtime Wire Hcomm Net CtrlConn CtrlConnSpec CtrlConnSafety MsgReceiver MsgReceiverSafety HostRegister Endpoint HcResources EndpointSafety ServerCalls Conc MsgHandler CsServer CsServerInv CsServerRules CsServerSteady CsServerRequests CsServerMoves CsServerOwner CsServerMemory CsServerStart.

Section Stop.
Context {codes : AclCodes} {again : HcclAgain} {clib : CLibrary} `{Sec : Securec} {SecL : SecurecLaws Sec}.
Context {cfg : ServerConfig} {abi : ServerAbi}.
Context {env : Environment NetOp} {Hnet : NetLaws env} {Hhc : HcLaws env}.
Variable a : ApiCall.
Implicit Types (d : Token) (s : HixlCSServer) (i : nat) (ds : Tokens) (h : History NetOp).
Let k := TApi a.
Let Hgo : goes_on k := I.

(** The owner has nothing in its hands; it may have told the threads to stop. *)
Definition stok (s : HixlCSServer) (st : bool) : Token := otok s [] [] [] st.
Definition here s : Prop := Now k (stok s false).

(** ** The listener thread *)
Definition handler_off s : Prop :=
  running_ (msg_handler_ s) = false -> pool_of s = None /\ mh_listener_ (msg_handler_ s) = NoThread.
Lemma here_off s ds h : Inv ((k, stok s false) :: ds) s h -> handler_off s.
Proof.
  intros HI Hr. destruct (i_mh _ _ _ HI Hr) as [?|Hs]; [done|exfalso]. apply Exists_cons in Hs as [?|Hs]; [done|].
  by eapply owner_not_stopping.
Qed.
Lemma off_keeps s s' : owner_keeps s s' -> handler_off s -> handler_off s'.
Proof.
  intros H Ho Hr. rewrite (ok_mh_running _ _ H) in Hr. destruct (Ho Hr) as [Hp Hm]. split.
  - destruct (pool_of s') eqn:E; [|done]. assert (is_Some (pool_of s)) as [? E']; [|congruence].
    apply (ok_pool _ _ H). rewrite E. by eexists.
  - rewrite (ok_mh _ _ H); [done|]. by rewrite Hm.
Qed.

(** The control of the listener thread changes. *)
Lemma listening_inv s0 st st' run t s ds h :
  Inv ((k, stok s0 st) :: ds) s h -> registered s ->
  (listener_ (sv_listener s) = Running -> t = Running) -> (t = listener_ (sv_listener s) \/ t = NoThread) ->
  (run = false -> t = NoThread \/ st' = true) -> handler_off s \/ st' = true ->
  Inv ((k, stok (listening run t s) st') :: ds) (listening run t s) h.
Proof.
  intros HI Hreg Hrun Ht Hst Hoff. pose proof (i_valid _ _ _ HI) as V.
  eapply owner_step; [exact HI|done|apply (i_store _ _ _ HI)|apply (inv_acct k _ _ _ _ HI)|apply (i_owned _ _ _ HI)|..]; try done.
  - apply listening_valid; [done|done|]. intros Hn. destruct Ht as [E|?]; [|done]. rewrite E in Hn. by apply (v_listener _ V).
  - intros i Hi. destruct (i_open _ _ _ HI i Hi) as [?|Hin]; [by left|right]. by apply elem_of_app.
  - intros fd p Hp. destruct (i_pending _ _ _ HI _ _ Hp) as [Hin|?]; [by apply elem_of_app in Hin as [?|?]; [by left|by right; left]|by right; right].
  - intros k' Hin. eapply owner_others; [exact HI|apply grows_listening| |done|exact Hin]. intros _.
    constructor; try done; [apply grows_listening|]. intros i Hi. by right.
  - by left.
  - destruct Hoff as [Ho|?]; [intros Hr; left; by apply Ho|intros _; by right].
Qed.

Lemma pwp_stop_listener s0 (Q : Status + unit -> Token -> Prop) :
  (forall s, here s -> no_listener s -> Q (inr tt) (stok s false)) -> pwp Inv k stop_listener (stok s0 false) Q.
Proof.
  intros HQ. unfold stop_listener. apply pwp_bind, pwp_read; [done|]. intros s1 [_ N1]. change (see s1 (stok s0 false)) with (stok s1 false) in *.
  destruct (listener_running_ (sv_listener s1)) eqn:Er; cbn [negb].
  - apply pwp_bind, pwp_atomic. intros ds s h HI. pose proof (inv_seen k _ _ _ _ HI) as Hk. cbn [weak k t_seen stok otok] in Hk.
    pose proof (i_valid _ _ _ HI) as V. assert (Hreg : registered s).
    { apply valid_registered; [done|]. intros U. pose proof (u_running _ U) as E. rewrite (ok_running _ _ Hk) in E. congruence. }
    assert (Hoff : handler_off s).
    { destruct N1 as (ds1 & h1 & HI1). eapply off_keeps; [exact Hk|by eapply here_off]. }
    eapply wp_zoom; [done|]. apply wp_bind, wp_get, wp_modify. change (set_listener _ s) with (listening false (listener_ (sv_listener s)) s).
    set (s2 := listening false _ s). exists (stok s2 true). split.
    { eapply listening_inv; [exact HI|done|done|by left|by right|by right]. }
    clear ds h HI Hk. apply pwp_await. intros ds s3 h HI Hb. pose proof (inv_seen k _ _ _ _ HI) as Hk. cbn [weak k t_seen stok otok] in Hk.
    assert (Hn : listener_ (sv_listener s3) <> Running) by (unfold listener_returned in Hb; by apply negb_true_iff, bool_decide_eq_false in Hb).
    eapply wp_zoom; [done|]. apply wp_modify. change (set_listener _ s3) with (listening false NoThread s3).
    assert (HI' : Inv ((k, stok (listening false NoThread s3) false) :: ds) (listening false NoThread s3) h).
    { eapply listening_inv; [exact HI|by eapply registered_keeps|by intros ?|by right|by left|left]. eapply off_keeps; [exact Hk|exact Hoff]. }
    exists (stok (listening false NoThread s3) false). split; [done|]. apply HQ; [by exists ds, h|done].
  - apply pwp_done, HQ; [done|]. destruct N1 as (ds & h & HI). destruct (i_stopped _ _ _ HI Er) as [?|Hs]; [done|exfalso].
    apply Exists_cons in Hs as [?|Hs]; [done|]. by eapply owner_not_stopping.
Qed.
(** ** Sockets are shut down *)
Lemma pwp_shutdown_loop l d (Q : Status + unit -> Token -> Prop) :
  (forall i, i ∈ l -> (i < length (connections (t_seen d)))%nat) -> current k d ->
  (forall s, after k d s -> Q (inr tt) (see s d)) ->
  pwp Inv k (pfor_each l (fun i => plog (conn_call i CtrlMsgPlugin_ShutdownSocket))) d Q.
Proof.
  intros Hl Hc HQ. apply (pwp_for_each _ _ _ _ _ (fun d' => exists s, d' = see s d /\ after k d s)).
  - exists (t_seen d). rewrite see_seen. split; [done|by apply current_after].
  - intros i d' Hin (s & -> & H). apply pwp_log, steady_ShutdownSocket; [done|eapply after_conn; [done|done|by apply Hl]|].
    intros o s' H'. exists s'. split; [done|]. by eapply after_trans.
  - intros d' (s & -> & H). by apply HQ.
Qed.
Lemma to_close_lt s i : valid s -> i ∈ connections_to_close s ++ pending_conns s -> (i < length (connections s))%nat.
Proof. intros V Hi. apply (v_conn _ V). unfold refs. rewrite !elem_of_app in *. tauto. Qed.

Lemma pwp_ShutdownAllClients s0 (Q : Status + unit -> Token -> Prop) :
  no_listener s0 -> (forall s, here s -> no_listener s -> Q (inr tt) (stok s false)) ->
  pwp Inv k ShutdownAllClients (stok s0 false) Q.
Proof.
  intros Hn0 HQ. unfold ShutdownAllClients. apply pwp_bind, pwp_read; [done|]. intros s1 [H1 N1]. cbn [weak k t_seen stok otok] in H1.
  change (see s1 (stok s0 false)) with (stok s1 false) in *. apply pwp_bind, pwp_read; [done|]. intros s2 [H2 N2]. cbn [weak k t_seen stok otok] in H2.
  change (see s2 (stok s1 false)) with (stok s2 false) in *.
  assert (Hn2 : no_listener s2) by (eapply no_listener_keeps; [exact H2|by eapply no_listener_keeps]).
  apply pwp_shutdown_loop; [|done|].
  - intros i [Hi|Hi]%elem_of_app.
    + destruct N1 as (ds & h & HI). assert (Hlt : (i < length (connections s1))%nat).
      { apply (to_close_lt s1); [apply (i_valid _ _ _ HI)|]. apply elem_of_app. by left. }
      pose proof (g_conns _ _ (ok_grows _ _ H2)). cbn [t_seen stok otok]. lia.
    + destruct N2 as (ds & h & HI). apply (to_close_lt s2); [apply (i_valid _ _ _ HI)|]. apply elem_of_app. by right.
  - intros s [H N]. apply HQ; [exact N|]. by eapply no_listener_keeps.
Qed.

(** ** The handler *)

(** The queue, the pool and the thread of the handler change. *)
Lemma handler_inv s0 st st' m s ds h :
  Inv ((k, stok s0 st) :: ds) s h -> no_listener s -> processors_ m = processors_ (msg_handler_ s) ->
  (forall q, q ∈ req_queue_ m -> q ∈ req_queue_ (msg_handler_ s)) ->
  (forall p t, thread_pool_ m = Some p -> t ∈ tasks_ p -> published s (rq_conn (tk_req t))) ->
  from_option active 0%nat (thread_pool_ m) = running_tasks s ->
  mh_listener_ m = mh_listener_ (msg_handler_ s) /\ is_Some (thread_pool_ m) \/ (mh_listener_ (msg_handler_ s) <> Running /\ mh_listener_ m = NoThread)
    \/ m = msg_handler_ s ->
  (unset s -> unset (set_handler m s)) ->
  (running_ m = false -> (thread_pool_ m = None /\ mh_listener_ m = NoThread) \/ st' = true) ->
  Inv ((k, stok (set_handler m s) st') :: ds) (set_handler m s) h.
Proof.
  intros HI Hn Hpr Hq Ht Hw Hmh Hu Hoff. pose proof (i_valid _ _ _ HI) as V.
  eapply owner_step; [exact HI|done|apply (i_store _ _ _ HI)|apply (inv_acct k _ _ _ _ HI)|apply (i_owned _ _ _ HI)|..]; try done.
  - pose proof V as [V1 V2 V3 V4 V5 V6 V7 V8 V9 V10 V11 V12 V13 V14 V15]. constructor; unfold pool_of; cbn [set_handler msg_handler_]; try done.
    + intros q Hin. by apply V5, Hq.
    + rewrite Hpr. intros E. by apply Hu, V12.
    + intros Er. destruct Hmh as [[_ ?]|[[_ E]| ->]]; [done|congruence|by apply V14].
    + by rewrite Hpr.
  - intros i Hi. destruct (i_open _ _ _ HI i Hi) as [?|Hin]; [by left|right]. by apply elem_of_app.
  - intros fd p Hp. destruct (i_pending _ _ _ HI _ _ Hp) as [Hin|?]; [by apply elem_of_app in Hin as [?|?]; [by left|by right; left]|by right; right].
  - intros k' Hin. eapply owner_others; [exact HI| | | |exact Hin].
    + constructor; try done. intros hd e E. exists e. split; [exact E|apply same_refl].
    + intros Hr. unfold no_listener in Hn. congruence.
    + intros Hr. cbn [set_handler msg_handler_]. destruct Hmh as [[E _]|[[E _]| ->]]; [by rewrite E|done|done].
  - by left.
  - intros _. left. exact Hn.
Qed.

(** Nobody but the owner is left. *)
Definition alone s : Prop := no_listener s /\ pool_of s = None /\ mh_listener_ (msg_handler_ s) = NoThread.
Lemma alone_quiet s : alone s -> quiet s.
Proof. intros (H1 & H2 & H3). split_and!; [done|done|]. by rewrite H3. Qed.

Lemma unset_queue x s : unset s -> unset (set_handler (set_queue x (msg_handler_ s)) s).
Proof. by intros []. Qed.

(** The pool and the queue, once the thread of the handler is gone. *)
Lemma pwp_close_pool s0 (Q : Status + unit -> Token -> Prop) :
  no_listener s0 -> mh_listener_ (msg_handler_ s0) = NoThread ->
  (forall s, here s -> alone s -> Q (inr tt) (stok s false)) ->
  pwp Inv k (pzoom msg_handler_ set_handler (atomic stop_pool ;;; await pool_idle reset_pool ;;; atomic clear_queue)) (stok s0 true) Q.
Proof.
  intros Hn0 Hm0 HQ. apply pwp_zoom_bind, pwp_zoom_atomic. intros ds s h HI.
  pose proof (inv_seen k _ _ _ _ HI) as Hk. cbn [weak k t_seen stok otok] in Hk.
  assert (Hn := no_listener_keeps _ _ Hk Hn0). assert (Hm : mh_listener_ (msg_handler_ s) = NoThread) by (rewrite (ok_mh _ _ Hk); [done|by rewrite Hm0]).
  pose proof (i_valid _ _ _ HI) as V. apply wp_modify. set (m := set_pool (set_stopped <$> thread_pool_ (msg_handler_ s)) (msg_handler_ s)).
  exists (stok (set_handler m s) true). split.
  { eapply handler_inv; [exact HI|done|done|done| | |right; left; by rewrite Hm| |by right].
    - intros p t Ep Hin. cbn [m set_pool thread_pool_] in Ep. destruct (thread_pool_ (msg_handler_ s)) as [p0|] eqn:E; [|done].
      injection Ep as <-. by apply (v_tasks _ V p0).
    - unfold running_tasks, pool_of. cbn [m set_pool thread_pool_]. by destruct (thread_pool_ (msg_handler_ s)).
    - intros [U1 U2 U3 U4 U5 U6 U7 U8 U9]. constructor; try done. unfold pool_of in *. cbn. by rewrite U5. }
  assert (Hn1 : no_listener (set_handler m s)) by exact Hn. assert (Hm1 : mh_listener_ (msg_handler_ (set_handler m s)) = NoThread) by exact Hm.
  revert Hn1 Hm1. generalize (set_handler m s). clear ds s h HI Hk Hn Hm V m. intros s1 Hn1 Hm1.
  apply pwp_zoom_bind, pwp_zoom_await. intros ds s h HI Hb. pose proof (inv_seen k _ _ _ _ HI) as Hk. cbn [weak k t_seen stok otok] in Hk.
  assert (Hn := no_listener_keeps _ _ Hk Hn1). assert (Hm : mh_listener_ (msg_handler_ s) = NoThread) by (rewrite (ok_mh _ _ Hk); [done|by rewrite Hm1]).
  apply wp_modify. set (m := set_pool None (msg_handler_ s)). set (s2 := set_handler m s). exists (stok s2 false).
  assert (HI2 : Inv ((k, stok s2 false) :: ds) s2 h).
  { eapply handler_inv; [exact HI|done|done|done|done| |right; left; by rewrite Hm| |intros _; left; by split].
    - unfold running_tasks, pool_of. unfold pool_idle in Hb. cbn [m set_pool thread_pool_ from_option].
      destruct (thread_pool_ (msg_handler_ s)) as [p|]; [|done]. by apply Nat.eqb_eq in Hb.
    - by intros []. }
  split; [exact HI2|]. assert (Ha2 : alone s2) by done. clearbody s2. clear ds s h HI Hk Hn Hm m Hb HI2.
  apply pwp_zoom_atomic. intros ds s h HI. pose proof (seen k _ _ _ _ HI) as [Hk Hx]. cbn [t_seen stok otok] in Hk, Hx.
  assert (Es : s = s2) by (by apply Hx, alone_quiet). subst s2. pose proof (i_valid _ _ _ HI) as V. destruct Ha2 as (A1 & A2 & A3).
  apply wp_modify. set (m := set_queue [] (msg_handler_ s)). exists (stok (set_handler m s) false).
  assert (HI' : Inv ((k, stok (set_handler m s) false) :: ds) (set_handler m s) h).
  { eapply handler_inv; [exact HI|done|done| | |done|right; left; by rewrite A3|by apply unset_queue|intros _; left; by split].
    - intros q Hq. by apply elem_of_nil in Hq.
    - apply V. }
  split; [done|]. apply HQ; [by exists ds, h|done].
Qed.

Lemma pwp_stop_handler s0 (Q : Status + unit -> Token -> Prop) :
  no_listener s0 -> (forall s, here s -> alone s -> Q (inr tt) (stok s false)) ->
  pwp Inv k (pzoom msg_handler_ set_handler MsgHandler_Finalize) (stok s0 false) Q.
Proof.
  intros Hn0 HQ. unfold MsgHandler_Finalize. apply pwp_zoom_bind, pwp_zoom_atomic. intros ds s h HI.
  pose proof (inv_seen k _ _ _ _ HI) as Hk. cbn [weak k t_seen stok otok] in Hk. assert (Hn := no_listener_keeps _ _ Hk Hn0).
  pose proof (i_valid _ _ _ HI) as V. unfold stop_running. apply wp_bind, wp_get, wp_bind, wp_modify, wp_ret.
  set (s1 := set_handler (set_running false (msg_handler_ s)) s).
  destruct (running_ (msg_handler_ s)) eqn:Er; cbn [negb].
  - exists (stok s1 true). split.
    { assert (Hm : forall st', st' = true -> Inv ((k, stok s1 st') :: ds) s1 h); [|by apply Hm].
      intros st' Est. eapply owner_step; [exact HI|done|apply (i_store _ _ _ HI)|apply (inv_acct k _ _ _ _ HI)|apply (i_owned _ _ _ HI)|..]; try done.
      - pose proof V as [V1 V2 V3 V4 V5 V6 V7 V8 V9 V10 V11 V12 V13 V14 V15]. constructor; try done. intros E. by destruct (V12 E).
      - intros i Hi. destruct (i_open _ _ _ HI i Hi) as [?|Hin]; [by left|right]. by apply elem_of_app.
      - intros fd p Hp. destruct (i_pending _ _ _ HI _ _ Hp) as [Hin|?]; [by apply elem_of_app in Hin as [?|?]; [by left|by right; left]|by right; right].
      - intros k' Hin. eapply owner_others; [exact HI| | |done|exact Hin].
        + constructor; try done. intros hd e E. exists e. split; [exact E|apply same_refl].
        + intros Hr. unfold no_listener in Hn. congruence.
      - by left.
      - intros _. left. exact Hn.
      - intros _. by right. }
    assert (Hn1 : no_listener s1) by exact Hn. clearbody s1. clear ds s h HI Hk Hn V Er.
    apply pwp_zoom_bind, pwp_zoom_await. intros ds s h HI Hb. pose proof (inv_seen k _ _ _ _ HI) as Hk. cbn [weak k t_seen stok otok] in Hk.
    assert (Hn := no_listener_keeps _ _ Hk Hn1). assert (Hm : mh_listener_ (msg_handler_ s) <> Running) by (unfold listener_gone in Hb; by apply negb_true_iff, bool_decide_eq_false in Hb).
    pose proof (i_valid _ _ _ HI) as V. apply wp_modify. set (s2 := set_handler (set_mh_listener NoThread (msg_handler_ s)) s). exists (stok s2 true). split.
    { eapply handler_inv; [exact HI|done|done|done|apply V|done|right; left; by split|by intros []|by right]. }
    by apply pwp_close_pool.
  - assert (Es : s1 = s).
    { unfold s1. rewrite <- Er. clear. destruct s as [? ? ? ? ? ? ? m ?]. by destruct m. }
    rewrite Es. assert (HI' : Inv ((k, stok s false) :: ds) s h).
    { change (stok s false) with (with_res [] (see s (stok s0 false))).
      eapply inv_still; [exact HI|apply (inv_acct k _ _ _ _ HI)|apply (i_owned _ _ _ HI)|done]. }
    destruct (here_off _ _ _ HI' Er) as [Hp Hm]. exists (stok s false). split; [done|]. apply HQ; [by exists ds, h|done].
Qed.
End Stop.
