(* ===== verification/CsServerClose.v ===== *)
(** The owner alone: once the threads are gone, [Finalize] closes every connection and
    releases everything that the server owns. *)

From S2P Require Import Prelude StdMap Effects External Runtime Wire Hcomm Net CtrlConn CtrlConnSpec CtrlConnSafety MsgReceiver MsgReceiverSafety HostRegister Endpoint HcResources EndpointSafety ServerCalls Conc MsgHandler CsServer CsServerInv CsServerRules CsServerSteady CsServerRequests CsServerMoves CsServerOwner CsServerMemory CsServerStart CsServerStop.

Section Close.
Context {codes : AclCodes} {again : HcclAgain} {clib : CLibrary} `{Sec : Securec} {SecL : SecurecLaws Sec}.
Context {cfg : ServerConfig} {abi : ServerAbi}.
Context {env : Environment NetOp} {Hnet : NetLaws env} {Hhc : HcLaws env}.
Variable a : ApiCall.
Implicit Types (d : Token) (s : HixlCSServer) (i : nat) (ds : Tokens) (h : History NetOp).
Let k := TApi a.
Let Hgo : goes_on k := I.

(** Connections in the owner's hands, and those under handshake that it closes. *)
Definition ctok (s : HixlCSServer) (C Md : list nat) : Token := otok s [] C Md false.

(** ** The state is as the owner left it *)
Lemma pwp_alone {A} (m : M NetOp HixlCSServer A) d (Q : Status + A -> Token -> Prop) :
  alone (t_seen d) ->
  (forall ds h, Inv ((k, d) :: ds) (t_seen d) h ->
     wp m (fun o s' h' => exists d', Inv ((k, d') :: ds) s' h' /\ Q o d') (t_seen d) h) ->
  pwp Inv k (atomic m) d Q.
Proof.
  intros Ha Hm. apply pwp_atomic. intros ds s h HI. pose proof (seen k _ _ _ _ HI) as [_ Hx].
  assert (Es : s = t_seen d) by (by apply Hx, alone_quiet). subst s. by apply Hm.
Qed.

Lemma alone_inv s0 C C' Md Md' s s' ds h h' :
  Inv ((k, ctok s0 C Md) :: ds) s h -> alone s -> alone s' -> store_wf (endpoint_store_ s') ->
  acct (srv_owned s' ++ res_of ds) h' -> CtrlConnSafety.owned (connections s') h' -> valid s' ->
  (forall i, 0 <= fd_of s' i -> i ∈ refs s' \/ i ∈ C' \/ i ∈ conns_of ds) ->
  (forall fd p, (fd, p) ∈ pending_of s' -> ph_connection p ∈ Md' \/ filed s' fd (ph_connection p)) ->
  Inv ((k, ctok s' C' Md') :: ds) s' h'.
Proof.
  intros HI Ha (A1 & A2 & A3) Hst Hac Ho V Hop Hpe. pose proof Ha as (B1 & B2 & B3).
  eapply owner_step; [exact HI|done|exact Hst|exact Hac|exact Ho|exact V|exact Hop| | | | | | |]; try done.
  - intros fd p Hp. destruct (Hpe fd p Hp); [by left|by right; right].
  - intros k' Hin. eapply quiet_others; [exact HI|by apply alone_quiet|exact Hin].
  - unfold running_tasks. by rewrite A2, B2.
  - unfold no_listener in B1. congruence.
  - by right.
  - intros _. by left.
  - intros _. left. by split.
Qed.

(** A call that leaves the state. *)
Lemma pwp_alone_still {A} (m : M NetOp HixlCSServer A) (P : Status + A -> Prop) s C Md (Q : Status + A -> Token -> Prop) :
  alone s ->
  (forall ds h, Inv ((k, ctok s C Md) :: ds) s h ->
     wp m (fun o s' h' => s' = s /\ P o /\ acct (srv_owned s ++ res_of ds) h' /\ CtrlConnSafety.owned (connections s) h') s h) ->
  (forall o, P o -> Q o (ctok s C Md)) -> pwp Inv k (atomic m) (ctok s C Md) Q.
Proof.
  intros Ha Hm HQ. apply pwp_alone; [done|]. cbn [t_seen ctok otok]. intros ds h HI. eapply wp_mono; [by eapply Hm|].
  intros o s' h' (-> & HP & Hac & Ho). exists (ctok s C Md). split; [|by apply HQ].
  change (ctok s C Md) with (with_res [] (see s (ctok s C Md))). by eapply inv_still.
Qed.
Lemma pwp_alone_quiet {A} (m : M NetOp HixlCSServer A) (P : Status + A -> Prop) s C Md (Q : Status + A -> Token -> Prop) :
  alone s -> emits (fun e => neutral e /\ silent e) m -> (forall h, wp m (fun o s' _ => s' = s /\ P o) s h) ->
  (forall o, P o -> Q o (ctok s C Md)) -> pwp Inv k (atomic m) (ctok s C Md) Q.
Proof.
  intros Ha He Hm HQ. apply (pwp_alone_still m P); [done| |done]. intros ds h HI.
  eapply wp_mono; [apply wp_emits; [exact He|by apply Hm]|]. intros o s' h' ((-> & HP) & t & -> & Ht). split_and!; [done|done| |].
  - apply acct_quiet; [|apply (inv_acct k _ _ _ _ HI)]. eapply Forall_impl; [exact Ht|]. by intros e [? _].
  - apply owned_silent; [|apply (i_owned _ _ _ HI)]. eapply Forall_impl; [exact Ht|]. by intros e [_ ?].
Qed.
Lemma pwp_alone_read {A} (f : HixlCSServer -> A) s C Md (Q : Status + A -> Token -> Prop) :
  alone s -> (valid s -> Q (inr (f s)) (ctok s C Md)) -> pwp Inv k (CsServer.read f) (ctok s C Md) Q.
Proof.
  intros Ha HQ. apply (pwp_alone_still _ (fun o => o = inr (f s) /\ valid s)); [done| |by intros o [-> V]; apply HQ].
  intros ds h HI. apply wp_bind, wp_get, wp_ret.
  split_and!; [done|done|apply (i_valid _ _ _ HI)|apply (inv_acct k _ _ _ _ HI)|apply (i_owned _ _ _ HI)].
Qed.
Lemma pwp_alone_sys {T} (op : NetOp T) s C Md (Q : Status + T -> Token -> Prop) :
  alone s -> (forall r, neutral (Ev op r) /\ silent (Ev op r)) ->
  (forall r, Q (inr r) (ctok s C Md)) -> pwp Inv k (sys op) (ctok s C Md) Q.
Proof.
  intros Ha He HQ. apply (pwp_alone_quiet _ (fun o => exists r, o = inr r)); [done|by apply emits_call| |by intros o [r ->]].
  intros h. apply wp_call. eauto.
Qed.

(** ** Connections are closed *)
Lemma pwp_alone_epoll_del fd s C Md (Q : Status + unit -> Token -> Prop) :
  alone s -> Q (inr tt) (ctok s C Md) -> pwp Inv k (epoll_del fd) (ctok s C Md) Q.
Proof.
  intros Ha HQ. unfold epoll_del. apply pwp_bind, pwp_alone_read; [done|]. intros _.
  apply pwp_bind, (pwp_alone_still _ (fun o => exists r, o = inr r)); [done| |by intros o [r ->]; apply pwp_done].
  intros ds h HI. apply wp_call. intros r _. split_and!; [done|by exists r| |].
  - apply acct_neutral; [apply (inv_acct k _ _ _ _ HI)| |done|done]. unfold needs_own. cbn [hc_needs].
    destruct (Z.leb_spec 0 (epoll_fd_ (sv_listener s))); [|done]. split; [|done]. apply elem_of_app. left. by apply epoll_owned_in.
  - apply (owned_silent _ [_]); [apply Forall_singleton; by repeat split|apply (i_owned _ _ _ HI)].
Qed.

(** The heap changes, the tables do not. *)
Definition closes (l : list nat) s s' : Prop :=
  (exists W, s' = set_connections W s /\ length W = length (connections s)) /\
  (forall j, fd_of s' j = if decide (j ∈ l) then -1 else fd_of s j).
Lemma closes_refl s : closes [] s s.
Proof. split; [exists (connections s); split; [by destruct s|done]|]. intros j. by rewrite decide_False by apply not_elem_of_nil. Qed.
Lemma closes_trans l l' s1 s2 s3 : closes l s1 s2 -> closes l' s2 s3 -> closes (l' ++ l) s1 s3.
Proof.
  intros [(W & -> & E) F] [(W' & -> & E') F']. split.
  - exists W'. split; [done|]. rewrite E'. exact E.
  - intros j. rewrite F', F. repeat case_decide; rewrite ?elem_of_app in *; tauto.
Qed.
Lemma closes_alone l s s' : closes l s s' -> alone s -> alone s'.
Proof. by intros [(W & -> & _) _]. Qed.
Lemma closes_length l s s' : closes l s s' -> length (connections s') = length (connections s).
Proof. by intros [(W & -> & E) _]. Qed.

Lemma closes_inv i s0 C C' Md conn s ds h h' :
  Inv ((k, ctok s0 C Md) :: ds) s h -> alone s -> connections s !! i = Some conn ->
  (i ∈ pending_conns s -> i ∈ Md) -> (forall j, j ∈ C -> j = i \/ j ∈ C') ->
  forall conn', fd_ conn' = -1 -> CtrlConnSafety.owned (connections (put_conn i conn' s)) h' -> acct (srv_owned s ++ res_of ds) h' ->
  Inv ((k, ctok (put_conn i conn' s) C' Md) :: ds) (put_conn i conn' s) h' /\ closes [i] s (put_conn i conn' s).
Proof.
  intros HI Ha Hc HM HC conn' E Ho Hac. pose proof (i_valid _ _ _ HI) as V. assert (Hl := lookup_lt_Some _ _ _ Hc).
  assert (Hg : grows s (put_conn i conn' s)).
  { constructor; try done.
    - cbn. by rewrite length_insert.
    - intros hd e Ee. exists e. split; [exact Ee|apply same_refl].
    - intros j _ Hj. rewrite fd_of_put by done. by case_decide. }
  split.
  - eapply alone_inv; [exact HI|done|done|apply (i_store _ _ _ HI)|exact Hac|exact Ho| | |].
    + apply (moves_valid s); try apply V; [by apply moves_heap|]. cbn. rewrite length_insert. apply V.
    + intros j. rewrite fd_of_put by done. case_decide; [lia|]. intros Hj. destruct (i_open _ _ _ HI j Hj) as [?|Hin]; [by left|right].
      apply elem_of_app in Hin as [Hin|?]; [|by right]. destruct (HC j Hin) as [?|?]; [done|by left].
    + intros fd p Hp. change (pending_of (put_conn i conn' s)) with (pending_of s) in Hp.
      assert (Hin : ph_connection p ∈ pending_conns s) by (apply list_elem_of_fmap; by exists (fd, p)).
      destruct (decide (ph_connection p = i)) as [Ei|Ei]; [left; rewrite Ei; apply HM; by rewrite <- Ei|].
      destruct (i_pending _ _ _ HI _ _ Hp) as [Hmid|[F1 F2]].
      * left. change (mids_of ((k, ctok s0 C Md) :: ds)) with (Md ++ mids_of ds) in Hmid.
        by rewrite (owner_mids _ _ _ _ _ HI (proj1 Ha)), app_nil_r in Hmid.
      * right. split; [|exact F2]. rewrite fd_of_put by done. by rewrite decide_False.
  - split; [exists (<[i:=conn']> (connections s)); split; [done|apply length_insert]|]. intros j. rewrite fd_of_put by done.
    destruct (decide (j = i)) as [->|Hne]; [rewrite decide_True; [done|by left]|rewrite decide_False; [done|]]. by rewrite list_elem_of_singleton.
Qed.

Lemma pwp_alone_Close {A} (m : M NetOp Conn A) (P : Status + A -> Prop) i s C C' Md (Q : Status + A -> Token -> Prop) :
  emits neutral m -> 
  (forall conn h F S, holds conn h F S -> wp m (fun o conn' h' => holds conn' h' F S /\ fd_ conn' = -1 /\ P o) conn h) ->
  alone s -> (i < length (connections s))%nat -> (i ∈ pending_conns s -> i ∈ Md) -> (forall j, j ∈ C -> j = i \/ j ∈ C') ->
  (forall o s', closes [i] s s' -> P o -> Q o (ctok s' C' Md)) -> pwp Inv k (conn_call i m) (ctok s C Md) Q.
Proof.
  intros He Hm Ha Hl HM HC HQ. destruct (lookup_lt_is_Some_2 _ _ Hl) as [conn Hc]. apply pwp_alone; [done|].
  cbn [t_seen ctok otok]. intros ds h HI. eapply (wp_on_conn i conn m (fun o conn' => fd_ conn' = -1 /\ P o)).
  - exact Hc.
  - apply (i_owned _ _ _ HI).
  - apply (inv_acct k _ _ _ _ HI).
  - exact He.
  - intros F S Hh. by apply Hm.
  - intros o conn' h' [E HP] Ho Hac. destruct (closes_inv i s C C' Md conn s ds h h' HI Ha Hc HM HC conn' E Ho Hac) as [HI' Hcl].
    exists (ctok (put_conn i conn' s) C' Md). split; [done|]. by apply HQ.
Qed.
Lemma wp_Close_closed conn h F S : holds conn h F S -> wp CtrlMsgPlugin_Close (fun _ conn' h' => holds conn' h' F S /\ fd_ conn' = -1 /\ True) conn h.
Proof. intros Hh. apply (wp_CloseLocked F S); [done|]. by intros o conn' h' H E _. Qed.

Lemma pwp_alone_CloseClientSocket i s C Md (Q : Status + unit -> Token -> Prop) :
  alone s -> (i < length (connections s))%nat -> (i ∈ pending_conns s -> i ∈ Md) ->
  (forall s', closes [i] s s' -> Q (inr tt) (ctok s' C Md)) -> pwp Inv k (CloseClientSocket i) (ctok s C Md) Q.
Proof.
  intros Ha Hl HM HQ. unfold CloseClientSocket. apply pwp_bind, (pwp_alone_still _ (fun o => exists fd, o = inr fd)); [done| |].
  - intros ds h HI. destruct (lookup_lt_is_Some_2 _ _ Hl) as [conn Hc]. apply (wp_look i fd_ _ s h conn Hc).
    split_and!; [done|by eexists|apply (inv_acct k _ _ _ _ HI)|apply (i_owned _ _ _ HI)].
  - intros o [fd ->]. apply pwp_bind, pwp_alone_epoll_del; [done|].
    apply pwp_log, (pwp_alone_Close _ (fun _ => True) i s C C Md); [apply em_Close|apply wp_Close_closed|done|done|done|by intros j; right|].
    intros o s' H _. by apply HQ.
Qed.
Lemma pwp_close_loop l s C Md (Q : Status + unit -> Token -> Prop) :
  alone s -> (forall i, i ∈ l -> (i < length (connections s))%nat) -> (forall i, i ∈ l -> i ∈ pending_conns s -> i ∈ Md) ->
  (forall s', (exists l', (forall i, i ∈ l' <-> i ∈ l) /\ closes l' s s') -> Q (inr tt) (ctok s' C Md)) ->
  pwp Inv k (pfor_each l CloseClientSocket) (ctok s C Md) Q.
Proof.
  revert s. induction l as [|i l IH]; intros s Ha Hl HM HQ; cbn [pfor_each].
  - apply pwp_done, HQ. exists []. split; [done|apply closes_refl].
  - apply pwp_bind, pwp_alone_CloseClientSocket; [done|apply Hl; by left|apply HM; by left|]. intros s1 H1. apply IH.
    + by eapply closes_alone.
    + intros j Hj. rewrite (closes_length _ _ _ H1). apply Hl. by right.
    + intros j Hj Hp. apply HM; [by right|]. destruct H1 as [(W & -> & _) _]. exact Hp.
    + intros s2 (l' & E & H2). apply HQ. exists (l' ++ [i]). split; [|by eapply closes_trans].
      intros j. rewrite elem_of_app, list_elem_of_singleton, elem_of_cons, E. tauto.
Qed.
(** ** The tables are emptied *)
Definition cleared s : Prop := pending_of s = [] /\ sv_clients s = {| clients_ := []; disconnected_clients_ := ∅ |}.
Lemma cleared_refs s : cleared s -> refs s = option_list (listener_connection_ (sv_listener s)).
Proof.
  intros [E1 E2]. unfold refs, pending_conns, connections_to_close. rewrite E1, E2. cbn [map clients_ disconnected_clients_ omap list_omap].
  by rewrite elements_empty, app_nil_r.
Qed.
Lemma closes_parts l s s' : closes l s s' ->
  pending_of s' = pending_of s /\ refs s' = refs s /\ sv_clients s' = sv_clients s /\ sv_listener s' = sv_listener s.
Proof. by intros [(W & -> & _) _]. Qed.

(** Every handshake is marked before the first is closed. *)
Lemma pwp_mark_pending s (Q : Status + list nat -> Token -> Prop) :
  alone s -> (valid s -> Q (inr (pending_conns s)) (ctok s [] (pending_conns s))) ->
  pwp Inv k (CsServer.read (fun s => map (fun it => ph_connection it.2) (pending_handshakes_ (sv_listener s)))) (ctok s [] []) Q.
Proof.
  intros Ha HQ. apply pwp_alone; [done|]. cbn [t_seen ctok otok]. intros ds h HI. pose proof (i_valid _ _ _ HI) as V.
  apply wp_bind, wp_get, wp_ret. exists (ctok s [] (pending_conns s)). split; [|by apply HQ].
  eapply alone_inv; [exact HI|done|done|apply (i_store _ _ _ HI)|apply (inv_acct k _ _ _ _ HI)|apply (i_owned _ _ _ HI)|done| |].
  - intros i Hi. destruct (i_open _ _ _ HI i Hi) as [?|?]; [by left|by right; right].
  - intros fd p Hp. left. apply list_elem_of_fmap. by exists (fd, p).
Qed.

Definition unpended s : HixlCSServer := set_listener (set_pending [] (sv_listener s)) s.
Lemma unset_unpended s : unset s -> unset (unpended s).
Proof. by intros []. Qed.
Lemma pwp_drop_pending s Md (Q : Status + unit -> Token -> Prop) :
  alone s -> (forall i, i ∈ pending_conns s -> fd_of s i = -1) -> (valid (unpended s) -> Q (inr tt) (ctok (unpended s) [] [])) ->
  pwp Inv k (atomic (on_listener (modify (set_pending [])))) (ctok s [] Md) Q.
Proof.
  intros Ha Hf HQ. apply pwp_alone; [done|]. cbn [t_seen ctok otok]. intros ds h HI. pose proof (i_valid _ _ _ HI) as V.
  eapply wp_zoom; [done|]. apply wp_modify. change (set_listener _ s) with (unpended s). exists (ctok (unpended s) [] []).
  assert (V' : valid (unpended s)).
  { pose proof V as [V1 V2 V3 V4 V5 V6 V7 V8 V9 V10 V11 V12 V13 V14 V15]. constructor; try done.
    - intros i Hi. apply V2. unfold refs in *. rewrite !elem_of_app in Hi |- *. cbn in Hi.
      destruct Hi as [[?|[Hi|?]]|?]; [by left; left|by apply elem_of_nil in Hi|by left; right; right|by right].
    - constructor.
    - constructor.
    - intros i Ei. destruct (V10 i Ei) as [_ ?]. split; [|done]. intros Hi. by apply elem_of_nil in Hi.
    - intros _. cbn. lia.
    - intros E. by apply unset_unpended, V12. }
  split; [|by apply HQ]. eapply alone_inv; [exact HI|done|done|apply (i_store _ _ _ HI)|apply (inv_acct k _ _ _ _ HI)|apply (i_owned _ _ _ HI)|done| |].
  - intros i Hi. change (fd_of (unpended s) i) with (fd_of s i) in Hi. destruct (i_open _ _ _ HI i Hi) as [Hin|?]; [|by right; right].
    left. unfold refs in *. rewrite !elem_of_app in Hin |- *. destruct Hin as [?|[Hin|?]]; [by left| |by right; right].
    specialize (Hf i Hin). lia.
  - intros fd p Hp. by apply elem_of_nil in Hp.
Qed.

Definition unclient s : HixlCSServer := set_clients {| clients_ := []; disconnected_clients_ := ∅ |} s.
Lemma pwp_take_clients s (Q : Status + list nat -> Token -> Prop) :
  alone s -> pending_of s = [] -> Q (inr (connections_to_close s)) (ctok (unclient s) (connections_to_close s) []) ->
  pwp Inv k (atomic take_clients) (ctok s [] []) Q.
Proof.
  intros Ha Hp HQ. apply pwp_alone; [done|]. cbn [t_seen ctok otok]. intros ds h HI. pose proof (i_valid _ _ _ HI) as V.
  unfold take_clients. apply wp_bind, wp_get, wp_bind, wp_modify, wp_ret. change (set_clients _ s) with (unclient s).
  exists (ctok (unclient s) (connections_to_close s) []). split; [|done].
  assert (Hc : cleared (unclient s)) by done. assert (Er := cleared_refs _ Hc).
  change (listener_connection_ (sv_listener (unclient s))) with (listener_connection_ (sv_listener s)) in Er.
  eapply alone_inv; [exact HI|done|done|apply (i_store _ _ _ HI)|apply (inv_acct k _ _ _ _ HI)|apply (i_owned _ _ _ HI)| | |].
  - pose proof V as [V1 V2 V3 V4 V5 V6 V7 V8 V9 V10 V11 V12 V13 V14 V15]. constructor; try done.
    + intros i Hi. rewrite Er in Hi. apply V2. apply elem_of_app. apply elem_of_app in Hi as [Hi|Hi]; [left|by right]. unfold refs. apply elem_of_app. by left.
    + intros fd r Hin. by apply elem_of_nil in Hin.
    + constructor.
    + intros E. by destruct (V12 E).
  - intros i Hi. change (fd_of (unclient s) i) with (fd_of s i) in Hi. rewrite Er.
    destruct (i_open _ _ _ HI i Hi) as [Hin|?]; [|by right; right]. unfold refs, pending_conns in Hin. rewrite Hp in Hin.
    rewrite !elem_of_app in Hin. destruct Hin as [?|[Hin|?]]; [by left|by apply elem_of_nil in Hin|by right; left].
  - intros fd p Hin. change (pending_of (unclient s)) with (pending_of s) in Hin. rewrite Hp in Hin. by apply elem_of_nil in Hin.
Qed.
Lemma pwp_untrack s C (Q : Status + unit -> Token -> Prop) :
  alone s -> cleared s -> (forall i, i ∈ C -> fd_of s i = -1) -> Q (inr tt) (ctok (set_tracked ∅ s) [] []) ->
  pwp Inv k (atomic (modify (set_tracked ∅))) (ctok s C []) Q.
Proof.
  intros Ha Hc Hf HQ. apply pwp_alone; [done|]. cbn [t_seen ctok otok]. intros ds h HI. pose proof (i_valid _ _ _ HI) as V.
  apply wp_modify. exists (ctok (set_tracked ∅ s) [] []). split; [|done].
  eapply alone_inv; [exact HI|done|done|apply (i_store _ _ _ HI)|apply (inv_acct k _ _ _ _ HI)|apply (i_owned _ _ _ HI)| | |].
  - pose proof V as [V1 V2 V3 V4 V5 V6 V7 V8 V9 V10 V11 V12 V13 V14 V15]. constructor; try done. intros E. by destruct (V12 E).
  - intros i Hi. change (fd_of (set_tracked ∅ s) i) with (fd_of s i) in Hi. destruct (i_open _ _ _ HI i Hi) as [?|Hin]; [by left|].
    apply elem_of_app in Hin as [Hin|?]; [|by right; right]. specialize (Hf i Hin). lia.
  - intros fd p Hin. change (pending_of (set_tracked ∅ s)) with (pending_of s) in Hin. rewrite (proj1 Hc) in Hin. by apply elem_of_nil in Hin.
Qed.

Lemma pwp_CloseAllClients s0 (Q : Status + unit -> Token -> Prop) :
  alone s0 -> (forall s, alone s -> cleared s -> Q (inr tt) (ctok s [] [])) -> pwp Inv k CloseAllClients (ctok s0 [] []) Q.
Proof.
  intros Ha0 HQ. unfold CloseAllClients. apply pwp_bind, pwp_mark_pending; [done|]. intros V0.
  apply pwp_bind, pwp_close_loop; [done| |by intros i _|].
  { intros i Hi. apply (to_close_lt s0); [done|]. apply elem_of_app. by right. }
  intros s1 (l1 & E1 & H1). assert (Ha1 := closes_alone _ _ _ H1 Ha0). destruct (closes_parts _ _ _ H1) as (P1 & _ & _ & _).
  apply pwp_bind, pwp_drop_pending; [done| |].
  { unfold pending_conns. rewrite P1. intros i Hi. destruct H1 as [_ F]. rewrite F, decide_True; [done|]. by apply E1. }
  intros V2. apply pwp_bind, pwp_take_clients; [done|done|]. set (s2 := unpended s1). set (s3 := unclient s2).
  apply pwp_bind, pwp_close_loop; [done| |intros i _ Hi; by apply elem_of_nil in Hi|].
  { intros i Hi. apply (to_close_lt s2); [exact V2|]. apply elem_of_app. by left. }
  intros s4 (l4 & E4 & H4). destruct (closes_parts _ _ _ H4) as (P4 & _ & C4 & _).
  apply pwp_untrack; [by eapply closes_alone|by split; [rewrite P4|rewrite C4]| |].
  - intros i Hi. destruct H4 as [_ F]. rewrite F, decide_True; [done|]. by apply E4.
  - apply HQ; [by apply (closes_alone _ _ _ H4)|by split; [apply P4|apply C4]].
Qed.
(** ** The rest is released *)

(** A step outside the heap and the tables of connections. *)
Record apart_from s s' : Prop := {
  af_conns : connections s' = connections s;
  af_receivers : receivers s' = receivers s;
  af_clients : sv_clients s' = sv_clients s;
  af_listener : sv_listener s' = sv_listener s;
  af_handler : msg_handler_ s' = msg_handler_ s
}.
Lemma apart_alone s s' : apart_from s s' -> alone s -> alone s'.
Proof. intros [_ _ _ E1 E2]. unfold alone, no_listener, pool_of. by rewrite E1, E2. Qed.
Lemma apart_cleared s s' : apart_from s s' -> cleared s -> cleared s'.
Proof. intros [_ _ E1 E2 _]. unfold cleared, pending_of. by rewrite E1, E2. Qed.

Lemma apart_inv s0 s s' ds h h' :
  Inv ((k, ctok s0 [] []) :: ds) s h -> alone s -> cleared s -> apart_from s s' -> store_wf (endpoint_store_ s') ->
  acct (srv_owned s' ++ res_of ds) h' -> CtrlConnSafety.owned (connections s) h' -> (unset s -> unset s') ->
  Inv ((k, ctok s' [] []) :: ds) s' h'.
Proof.
  intros HI Ha Hc H Hst Hac Ho Hu. pose proof H as [E1 E2 E3 E4 E5].
  assert (Er : refs s' = refs s) by (unfold refs, pending_conns, pending_of, connections_to_close; by rewrite E2, E3, E4).
  eapply alone_inv; [exact HI|done|by eapply apart_alone|exact Hst|exact Hac|by rewrite E1| | |].
  - pose proof (i_valid _ _ _ HI) as [V1 V2 V3 V4 V5 V6 V7 V8 V9 V10 V11 V12 V13 V14 V15].
    constructor; unfold pending_conns, pending_of, pool_of, published, receiver_conns; rewrite ?Er, ?E1, ?E2, ?E3, ?E4, ?E5; try done.
    intros E. by apply Hu, V12.
  - intros i. unfold fd_of. rewrite E1, Er. intros Hi. destruct (i_open _ _ _ HI i Hi) as [?|?]; [by left|by right; right].
  - intros fd p. unfold pending_of. rewrite E4. destruct Hc as [Hc _]. unfold pending_of in Hc. rewrite Hc. intros Hin. by apply elem_of_nil in Hin.
Qed.

Lemma pwp_store_Finalize s (Q : Status + Status -> Token -> Prop) :
  alone s -> cleared s ->
  (forall st s', apart_from s s' -> endpoints_ (endpoint_store_ s') = [] -> Q (inr st) (ctok s' [] [])) ->
  pwp Inv k (store_call EndpointStore_Finalize) (ctok s [] []) Q.
Proof.
  intros Ha Hc HQ. apply pwp_alone; [done|]. cbn [t_seen ctok otok]. intros ds h HI.
  assert (Hrun : wp EndpointStore_Finalize (fun o st' h' => (exists st, o = inr st) /\ endpoints_ st' = [] /\
    acct (flags_owned s ++ res_of ds) h') (endpoint_store_ s) h).
  { eapply (wp_EndpointStore_Finalize (flags_owned s ++ res_of ds)); [|intros; split_and!; eauto].
    split; [apply (i_store _ _ _ HI)|]. eapply acct_perm; [|apply (inv_acct k _ _ _ _ HI)]. unfold srv_owned. by rewrite <- app_assoc. }
  eapply wp_zoom; [done|]. eapply wp_mono; [apply wp_emits; [apply es_StoreFinalize|exact Hrun]|].
  intros o st' h' (((st & ->) & E & Hac) & t & -> & Ht). set (s' := set_store st' s). exists (ctok s' [] []). split; [|by apply HQ].
  eapply apart_inv; [exact HI|done|done|done| | | |by intros []].
  - split; cbn [s' set_store endpoint_store_]; rewrite E; [constructor|]. intros hd e Hin. by apply elem_of_nil in Hin.
  - unfold srv_owned. cbn [s' set_store endpoint_store_]. rewrite E. exact Hac.
  - apply owned_silent; [done|apply (i_owned _ _ _ HI)].
Qed.

(** The flags are freed. *)
Definition unflagged s : Prop := host_trans_flag_ (sv_flags s) = nullptr /\ dev_trans_flag_ (sv_flags s) = nullptr.
Definition flags_off s : HixlCSServer := set_flags (set_dev_flag nullptr (set_host_flag nullptr (sv_flags s))) s.

Lemma wp_free_flags s own h (Q : Status + unit -> HixlCSServer -> History NetOp -> Prop) :
  acct (srv_owned s ++ own) h -> CtrlConnSafety.owned (connections s) h ->
  (forall h', acct (srv_owned (flags_off s) ++ own) h' -> CtrlConnSafety.owned (connections s) h' -> Q (inr tt) (flags_off s) h') ->
  wp free_flags Q s h.
Proof.
  intros Hac Ho HQ. unfold free_flags. apply wp_bind, wp_get. set (s1 := set_flags (set_host_flag nullptr (sv_flags s)) s).
  assert (Hdev : forall h1, acct (srv_owned s1 ++ own) h1 -> CtrlConnSafety.owned (connections s) h1 ->
    wp (FreeDeviceMem (dev_trans_flag_ (sv_flags s)) ;; on_flags (modify (set_dev_flag nullptr))) Q s1 h1).
  { intros h1 Hac1 Ho1. unfold FreeDeviceMem. unfold srv_owned, flags_owned, dev_owned, host_owned in Hac1.
    cbn [s1 set_flags sv_flags set_host_flag host_trans_flag_ dev_trans_flag_] in Hac1.
    change (endpoint_store_ s1) with (endpoint_store_ s) in Hac1. change (sv_listener s1) with (sv_listener s) in Hac1.
    apply wp_bind. destruct (is_null (dev_trans_flag_ (sv_flags s))).
    - apply wp_ret. eapply wp_zoom; [done|]. apply wp_modify. by apply HQ.
    - apply wp_bind, wp_call. intros rc _. apply wp_ret. eapply wp_zoom; [done|]. apply wp_modify. apply HQ.
      + eapply acct_perm; [|eapply (acct_give (store_owned (endpoints_ (endpoint_store_ s))) (epoll_owned (epoll_fd_ (sv_listener s)) ++ own));
          [|reflexivity|reflexivity|reflexivity|reflexivity]].
        * unfold srv_owned, flags_owned. cbn. by rewrite <- app_assoc.
        * eapply acct_perm; [|exact Hac1]. cbn. solve_Permutation.
      + apply (owned_silent _ [_]); [apply Forall_singleton; by repeat split|done]. }
  apply wp_bind. unfold srv_owned, flags_owned, host_owned in Hac. destruct (is_null (host_trans_flag_ (sv_flags s))).
  - apply wp_ret, wp_bind. eapply wp_zoom; [done|]. apply wp_modify. by apply Hdev.
  - apply wp_call. intros [] _. apply wp_bind. eapply wp_zoom; [done|]. apply wp_modify. apply Hdev.
    + eapply acct_perm; [|eapply (acct_give (store_owned (endpoints_ (endpoint_store_ s)))
        (dev_owned (dev_trans_flag_ (sv_flags s)) ++ epoll_owned (epoll_fd_ (sv_listener s)) ++ own)); [|reflexivity|reflexivity|reflexivity|reflexivity]].
      * unfold srv_owned, flags_owned. cbn. solve_Permutation.
      * eapply acct_perm; [|exact Hac]. solve_Permutation.
    + apply (owned_silent _ [_]); [apply Forall_singleton; by repeat split|done].
Qed.
Lemma pwp_free_flags s (Q : Status + unit -> Token -> Prop) :
  alone s -> cleared s -> Q (inr tt) (ctok (flags_off s) [] []) -> pwp Inv k (atomic free_flags) (ctok s [] []) Q.
Proof.
  intros Ha Hc HQ. apply pwp_alone; [done|]. cbn [t_seen ctok otok]. intros ds h HI.
  eapply wp_free_flags; [apply (inv_acct k _ _ _ _ HI)|apply (i_owned _ _ _ HI)|]. intros h' Hac Ho.
  exists (ctok (flags_off s) [] []). split; [|done].
  eapply apart_inv; [exact HI|done|done|done|apply (i_store _ _ _ HI)|exact Hac|exact Ho|by intros []].
Qed.
(** What is left is the pool of transfers, the listening connection and the epoll instance. *)
Record emptied s : Prop := {
  ep_alone : alone s;
  ep_cleared : cleared s;
  ep_store : endpoints_ (endpoint_store_ s) = [];
  ep_flags : unflagged s
}.

Lemma pwp_release_pool s (Q : Status + unit -> Token -> Prop) :
  emptied s -> (forall s', emptied s' -> Q (inr tt) (ctok s' [] [])) -> pwp Inv k release_pool (ctok s [] []) Q.
Proof.
  intros He HQ. pose proof He as [Ha Hc Hs Hf]. unfold release_pool. apply pwp_bind, pwp_alone_read; [done|]. intros _.
  destruct (device_id_ (sv_flags s) <? 0); [by apply pwp_done, HQ|].
  assert (Hset : pwp Inv k (atomic (on_flags (modify (set_device (-1))))) (ctok s [] []) Q).
  { apply pwp_alone; [done|]. cbn [t_seen ctok otok]. intros ds h HI. eapply wp_zoom; [done|]. apply wp_modify.
    set (s' := set_flags _ s). exists (ctok s' [] []). split; [|by apply HQ].
    eapply apart_inv; [exact HI|done|done|done|apply (i_store _ _ _ HI)|apply (inv_acct k _ _ _ _ HI)|apply (i_owned _ _ _ HI)|by intros []]. }
  apply pwp_bind. unfold pool_finalize. apply pwp_bind, pwp_alone_sys; [done|by repeat split|]. intros [].
  - apply pwp_alone_sys; [done|by repeat split|]. by intros [].
  - by apply pwp_done.
Qed.

Definition unlistened s : HixlCSServer := set_listener (set_listener_connection None (sv_listener s)) s.
Lemma pwp_drop_lc s l (Q : Status + unit -> Token -> Prop) :
  emptied s -> listener_connection_ (sv_listener s) = Some l -> fd_of s l = -1 -> Q (inr tt) (ctok (unlistened s) [] []) ->
  pwp Inv k (atomic (on_listener (modify (set_listener_connection None)))) (ctok s [] []) Q.
Proof.
  intros [Ha Hc Hs Hf] El Hl HQ. apply pwp_alone; [done|]. cbn [t_seen ctok otok]. intros ds h HI.
  pose proof (i_valid _ _ _ HI) as V. eapply wp_zoom; [done|]. apply wp_modify. change (set_listener _ s) with (unlistened s).
  exists (ctok (unlistened s) [] []). split; [|done].
  assert (Hc' : cleared (unlistened s)) by done. assert (Er : refs (unlistened s) = []) by (by rewrite (cleared_refs _ Hc')).
  assert (Er0 := cleared_refs _ Hc). rewrite El in Er0. cbn [option_list] in Er0.
  eapply alone_inv; [exact HI|done|done|apply (i_store _ _ _ HI)|apply (inv_acct k _ _ _ _ HI)|apply (i_owned _ _ _ HI)| | |].
  - pose proof V as [V1 V2 V3 V4 V5 V6 V7 V8 V9 V10 V11 V12 V13 V14 V15]. constructor; try done.
    + rewrite Er. intros i Hi. apply V2. apply elem_of_app. right. exact Hi.
    + intros E. by destruct (V12 E).
    + intros Hn. exfalso. by apply Hn, Ha.
  - intros i Hi. change (fd_of (unlistened s) i) with (fd_of s i) in Hi. destruct (i_open _ _ _ HI i Hi) as [Hin|?]; [|by right; right].
    rewrite Er0 in Hin. apply list_elem_of_singleton in Hin as ->. lia.
  - intros fd p Hin. change (pending_of (unlistened s)) with (pending_of s) in Hin. rewrite (proj1 Hc) in Hin. by apply elem_of_nil in Hin.
Qed.

Lemma closes_emptied l s s' : closes l s s' -> emptied s -> emptied s'.
Proof. by intros [(W & -> & _) _] []. Qed.

Lemma pwp_close_listener s (Q : Status + unit -> Token -> Prop) :
  emptied s -> (forall s', emptied s' -> listener_connection_ (sv_listener s') = None -> Q (inr tt) (ctok s' [] [])) ->
  pwp Inv k close_listener (ctok s [] []) Q.
Proof.
  intros He HQ. unfold close_listener. apply pwp_bind, pwp_alone_read; [apply He|]. intros V.
  destruct (listener_connection_ (sv_listener s)) as [l|] eqn:El; [|by apply pwp_done, HQ].
  assert (Hl := lc_lt _ _ V El). assert (Hno : forall s', emptied s' -> l ∈ pending_conns s' -> l ∈ []).
  { intros s' [_ [E _] _ _] Hin. unfold pending_conns in Hin. by rewrite E in Hin. }
  apply pwp_bind, pwp_log, (pwp_alone_Close _ (fun _ => True) l s [] [] []); [apply em_Close|apply wp_Close_closed|apply He|done|by apply Hno|by intros j; right|].
  intros _ s1 H1 _. assert (He1 := closes_emptied _ _ _ H1 He). apply pwp_bind, (pwp_drop_lc s1 l); [done| | |].
  - destruct (closes_parts _ _ _ H1) as (_ & _ & _ & ->). exact El.
  - destruct H1 as [_ F]. rewrite F, decide_True; [done|by left].
  - assert (He2 : emptied (unlistened s1)) by (by destruct He1).
    apply (pwp_alone_Close _ (fun o => o = inr tt) l (unlistened s1) [] [] []); [apply em_delete| |apply He2| |by apply Hno|by intros j; right|].
    + intros conn h F S Hh. eapply wp_mono; [by apply (wp_delete F S)|]. by intros o conn' h' (-> & H & E & _).
    + change (connections (unlistened s1)) with (connections s1). by rewrite (closes_length _ _ _ H1).
    + intros o s2 H2 ->. apply HQ; [by eapply closes_emptied|]. by destruct (closes_parts _ _ _ H2) as (_ & _ & _ & ->).
Qed.
Definition closed s : Prop :=
  emptied s /\ listener_connection_ (sv_listener s) = None /\ epoll_fd_ (sv_listener s) < 0.
Lemma pwp_close_epoll s (Q : Status + unit -> Token -> Prop) :
  emptied s -> listener_connection_ (sv_listener s) = None ->
  (forall s', closed s' -> Q (inr tt) (ctok s' [] [])) -> pwp Inv k (atomic close_epoll) (ctok s [] []) Q.
Proof.
  intros He El HQ. pose proof He as [Ha Hc Hs Hf]. apply pwp_alone; [done|]. cbn [t_seen ctok otok]. intros ds h HI.
  pose proof (i_valid _ _ _ HI) as V. assert (Hac := inv_acct k _ _ _ _ HI). pose proof (i_owned _ _ _ HI) as Ho.
  unfold close_epoll. apply wp_bind, wp_get. destruct (Z.eqb_spec (epoll_fd_ (sv_listener s)) (-1)) as [E|Hne].
  - apply wp_ret. exists (ctok s [] []). split; [|apply HQ; split_and!; [done|done|lia]].
    change (ctok s [] []) with (with_res [] (see s (ctok s [] []))). by eapply inv_still.
  - apply wp_bind, wp_call. intros r _. eapply wp_zoom; [done|]. apply wp_modify. set (s' := set_listener (set_epoll (-1) (sv_listener s)) s).
    assert (Eo : srv_owned s = epoll_owned (epoll_fd_ (sv_listener s))).
    { unfold srv_owned, flags_owned. destruct Hf as [-> ->]. by rewrite Hs. }
    assert (Eo' : srv_owned s' = []).
    { unfold srv_owned, flags_owned. cbn. destruct Hf as [-> ->]. by rewrite Hs. }
    exists (ctok s' [] []). split; [|apply HQ; by destruct He as [[] [] ? []]].
    eapply alone_inv; [exact HI|done|by destruct Ha|apply (i_store _ _ _ HI)| | | | |].
    + rewrite Eo'. rewrite Eo in Hac. unfold epoll_owned in Hac. destruct (Z.leb_spec 0 (epoll_fd_ (sv_listener s))) as [Hp|Hp].
      * apply (acct_give [] (res_of ds) (REpoll (epoll_fd_ (sv_listener s))) _ true); [exact Hac| |done|done|].
        -- cbn [hc_needs]. by rewrite (proj2 (Z.leb_le _ _)).
        -- cbn [releases]. by rewrite (proj2 (Z.leb_le _ _)).
      * apply acct_neutral; [exact Hac| |done|].
        -- unfold needs_own. cbn [hc_needs]. by rewrite (proj2 (Z.leb_gt _ _)).
        -- cbn [releases]. by rewrite (proj2 (Z.leb_gt _ _)).
    + apply (owned_silent _ [_]); [apply Forall_singleton; by repeat split|done].
    + pose proof V as [V1 V2 V3 V4 V5 V6 V7 V8 V9 V10 V11 V12 V13 V14 V15]. constructor; try done.
      * intros E. by destruct (V12 E).
      * intros Hn. exfalso. by apply Hn, Ha.
    + intros i Hi. destruct (i_open _ _ _ HI i Hi) as [?|?]; [by left|by right; right].
    + intros fd p Hin. change (pending_of s') with (pending_of s) in Hin. rewrite (proj1 Hc) in Hin. by apply elem_of_nil in Hin.
Qed.

(** ** Finalize *)
Lemma pwp_alone_restore g s (Q : Status + unit -> Token -> Prop) :
  alone s -> (forall o, Q o (ctok s [] [])) -> pwp Inv k (atomic (drop_guard g)) (ctok s [] []) Q.
Proof.
  intros Ha HQ. apply (pwp_alone_quiet _ (fun _ => True)); [done| | |by intros].
  - destruct g; [apply emits_restore|apply emits_ret].
  - intros h. destruct g; [|by apply wp_ret]. eapply wp_mono; [apply wp_restore|]. by intros o s' h' ->.
Qed.

Lemma pwp_Finalize s0 (Q : Status + Status -> Token -> Prop) :
  (forall st s, closed s -> Q (inr st) (stok s false)) -> pwp Inv k Finalize (stok s0 false) Q.
Proof.
  intros HQ. unfold Finalize. apply pwp_bind. unfold with_context. apply pwp_bind, pwp_guard; [done|]. intros g s1 _.
  change (see s1 (stok s0 false)) with (stok s1 false). apply pwp_finally.
  apply pwp_bind, pwp_stop_listener. intros s2 _ Hn2.
  apply pwp_bind, pwp_ShutdownAllClients; [done|]. intros s3 _ Hn3.
  apply pwp_bind, pwp_stop_handler; [done|]. intros s4 _ Ha4. change (stok s4 false) with (ctok s4 [] []).
  apply pwp_bind, pwp_CloseAllClients; [done|]. intros s5 Ha5 Hc5.
  apply pwp_bind, pwp_store_Finalize; [done|done|]. intros st s6 H6 E6. assert (Ha6 := apart_alone _ _ H6 Ha5). assert (Hc6 := apart_cleared _ _ H6 Hc5).
  apply pwp_bind, pwp_free_flags; [done|done|]. set (s7 := flags_off s6). apply pwp_done.
  assert (He7 : emptied s7) by (by constructor). apply pwp_alone_restore; [apply He7|]. intros _.
  apply pwp_bind, pwp_release_pool; [done|]. intros s8 He8.
  apply pwp_bind, pwp_close_listener; [done|]. intros s9 He9 El9.
  apply pwp_bind, pwp_close_epoll; [done|done|]. intros s10 Hcl. apply pwp_done. by apply HQ.
Qed.
End Close.
