(* ===== verification/CsServerSafety.v ===== *)
(** The server of the CS layer is safe, whatever the owner, the peers and the runtime
    do, and in whatever order its threads run. *)

From S2P Require Import Prelude StdMap Effects External Runtime Wire Hcomm Net CtrlConn CtrlConnSpec CtrlConnSafety MsgReceiver MsgReceiverSafety HostRegister Endpoint HcResources EndpointSafety ServerCalls Conc MsgHandler CsServer CsServerInv CsServerRules CsServerSteady CsServerRequests CsServerMoves CsServerDoWait CsServerHandler CsServerOwner CsServerMemory CsServerStart CsServerStop CsServerClose RtReference NetReference.

(** A sample configuration. *)
#[export] Instance ref_config : ServerConfig := {|
  ip_ := "127.0.0.1"%string; cfg_port_ := 16000; TlsEnabled := false; ListenPort := None; MaxActiveChannels := None |}.
#[export] Instance ref_abi : ServerAbi := {| padding1 := 0; padding2 := 0; export_bytes := fun _ _ => [] |}.

Section Safety.
Context {codes : AclCodes} {again : HcclAgain} {clib : CLibrary} `{Sec : Securec} {SecL : SecurecLaws Sec}.
Context {cfg : ServerConfig} {abi : ServerAbi}.
Context {env : Environment NetOp} {Hnet : NetLaws env} {Hhc : HcLaws env}.
Implicit Types (d : Token) (s : HixlCSServer) (ds : Tokens) (h : History NetOp) (k : ThreadKind).

(** ** The end of a thread *)
Definition clean d : Prop := t_res d = [] /\ t_conns d = [] /\ t_mid d = [] /\ t_stopping d = false.
(** A call to [Finalize], and a failed [Initialize], leave the server closed. *)
Definition closes_server k (o : Status + unit) : Prop :=
  match k with
  | TApi AFinalize => True
  | TApi (AInitialize (Some (_ :: _))) => exists e, o = inl e
  | _ => False
  end.
Definition final k (o : Status + unit) d : Prop := clean d /\ (closes_server k o -> closed (t_seen d)).

Lemma Inv_drop k d ds s h : is_worker k = false -> clean d -> Inv ((k, d) :: ds) s h -> Inv ds s h.
Proof.
  intros Hk (C1 & C2 & C3 & C4) [H1 H2 H3 H4 H5 H6 H7 H8 H9 H10 H11 H12 H13 H14 H15].
  assert (Es : stopping ((k, d) :: ds) -> stopping ds).
  { intros [E|?]%Exists_cons; [cbn in E; congruence|done]. }
  constructor; try done.
  - change (res_of ((k, d) :: ds)) with (t_res d ++ res_of ds) in H2. by rewrite C1 in H2.
  - intros i Hi. change (conns_of ((k, d) :: ds)) with (t_conns d ++ conns_of ds) in H5. rewrite C2 in H5. by apply H5.
  - intros fd p Hp. change (mids_of ((k, d) :: ds)) with (t_mid d ++ mids_of ds) in H6. rewrite C3 in H6. by apply H6.
  - cbn [fmap list_fmap fst omap list_omap] in H7. by destruct (role k); [inversion H7|].
  - unfold workers in *. cbn [fmap list_fmap fst] in H8. rewrite filter_cons_False in H8; [done|congruence].
  - by inversion H9.
  - by inversion H10.
  - intros Hin. apply H11. by right.
  - intros Hr. destruct (H12 Hr); [by left|right; by apply Es].
  - intros Hr. destruct (H13 Hr); [by left|right; by apply Es].
  - by inversion H14.
  - by inversion H15.
Qed.

Lemma pool_rely k p p' s s' :
  pool_of s = Some p -> sv_listener s' = sv_listener s -> connections s' = connections s -> receivers s' = receivers s ->
  sv_clients s' = sv_clients s -> endpoint_store_ s' = endpoint_store_ s -> sv_flags s' = sv_flags s ->
  processors_ (msg_handler_ s') = processors_ (msg_handler_ s) -> running_ (msg_handler_ s') = running_ (msg_handler_ s) ->
  mh_listener_ (msg_handler_ s') = mh_listener_ (msg_handler_ s) -> pool_of s' = Some p' -> rely k s s'.
Proof.
  intros Ep E1 E2 E3 E4 E5 E6 E7 E8 E9 E10.
  assert (Hg : grows s s') by (by apply grows_same; rewrite ?E1).
  destruct k as [c| | | |t]; cbn [rely]; [| |done| |done].
  - split; [|intros (_ & Q & _); congruence]. constructor; unfold endpoint_at; rewrite ?E1, ?E5, ?E6, ?E7, ?E8, ?E9, ?Ep, ?E10; try done.
  - constructor; unfold receiver_conns, pending_of, fd_of, connections_to_close; rewrite ?E1, ?E2, ?E3, ?E4; try done. intros i Hi. by right.
  - intros Hr. constructor; [done|]. by rewrite E9.
Qed.
(** Another pool, with as many tasks running as there are tokens of workers. *)
Definition with_pool p s : HixlCSServer := set_handler (set_pool (Some p) (msg_handler_ s)) s.

Lemma pool_valid p p' s :
  valid s -> pool_of s = Some p -> (forall t, t ∈ tasks_ p' -> t ∈ tasks_ p) -> valid (with_pool p' s).
Proof.
  intros [V1 V2 V3 V4 V5 V6 V7 V8 V9 V10 V11 V12 V13 V14 V15] Ep Ht. constructor; try done.
  - intros p0 t [= <-] Hin. eapply V6; [done|by apply Ht].
  - intros E. destruct (V12 E). congruence.
Qed.
Lemma Inv_pool ds ds' s h p p' :
  Inv ds s h -> pool_of s = Some p -> (forall t, t ∈ tasks_ p' -> t ∈ tasks_ p) -> workers ds' = active p' ->
  (exists t d, clean d /\ (ds' = (TWorker t, d) :: ds \/ ds = (TWorker t, d) :: ds')) ->
  Forall (fun kd => rely kd.1 (t_seen kd.2) (with_pool p' s)) ds' -> Inv ds' (with_pool p' s) h.
Proof.
  intros [H1 H2 H3 H4 H5 H6 H7 H8 H9 H10 H11 H12 H13 H14 H15] Ep Ht Hw (t & d & (C1 & C2 & C3 & C4) & Eds) Hs.
  assert (Er : res_of ds' = res_of ds /\ conns_of ds' = conns_of ds /\ mids_of ds' = mids_of ds /\
    omap role ds'.*1 = omap role ds.*1 /\ (TListener ∈ ds'.*1 <-> TListener ∈ ds.*1) /\ (stopping ds' <-> stopping ds)).
  { assert (Hone : forall l : Tokens, res_of ((TWorker t, d) :: l) = res_of l /\ conns_of ((TWorker t, d) :: l) = conns_of l /\
      mids_of ((TWorker t, d) :: l) = mids_of l /\ omap role ((TWorker t, d) :: l).*1 = omap role l.*1 /\
      (TListener ∈ ((TWorker t, d) :: l).*1 <-> TListener ∈ l.*1) /\ (stopping ((TWorker t, d) :: l) <-> stopping l)).
    { intros l. split_and!; try done.
      - change (t_res d ++ res_of l = res_of l). by rewrite C1.
      - change (t_conns d ++ conns_of l = conns_of l). by rewrite C2.
      - change (t_mid d ++ mids_of l = mids_of l). by rewrite C3.
      - cbn [fmap list_fmap fst]. rewrite elem_of_cons. split; [by intros [?|?]|by right].
      - unfold stopping. rewrite Exists_cons. cbn [snd]. rewrite C4. split; [by intros [?|?]|by right]. }
    destruct Eds as [->| ->]; [apply Hone|]. destruct (Hone ds') as (-> & -> & -> & -> & E5 & E6). by split_and!. }
  destruct Er as (E1 & E2 & E3 & E4 & E5 & E6).
  assert (Hall : forall P : ThreadKind * Token -> Prop, P (TWorker t, d) -> Forall P ds -> Forall P ds').
  { intros P Hp HP. destruct Eds as [->| ->]; [by constructor|by inversion HP]. }
  constructor; try done; rewrite ?E1, ?E2, ?E3, ?E4, ?E5, ?E6; try done.
  - by eapply pool_valid.
  - apply Hall; [by left|done].
  - intros Hr. destruct (H13 Hr) as [[? _]|?]; [congruence|by right].
  - apply Hall; [by cbn; rewrite C4|done].
  - by apply Hall.
Qed.

Lemma seen_pool ds s h p p' : Inv ds s h -> pool_of s = Some p -> Forall (fun kd => rely kd.1 (t_seen kd.2) (with_pool p' s)) ds.
Proof.
  intros HI Ep. eapply Forall_impl; [apply (i_seen _ _ _ HI)|]. intros [k d] Hr. eapply rely_trans; [exact Hr|].
  by eapply (pool_rely _ p p').
Qed.

Lemma worker_starts ds s h t s' :
  Inv ds s h -> start_task s t s' -> Inv ((TWorker t, fresh_token s') :: ds) s' h /\ known (fresh_token s') (rq_conn (tk_req t)).
Proof.
  intros HI (p & rest & Ep & Et & _ & ->). change (thread_pool_ (msg_handler_ s) = Some p) with (pool_of s = Some p) in Ep.
  set (p' := set_active (active p + 1) (set_tasks rest p)). change (set_handler _ s) with (with_pool p' s).
  assert (HI' : Inv ((TWorker t, fresh_token (with_pool p' s)) :: ds) (with_pool p' s) h).
  { eapply Inv_pool; [exact HI|exact Ep| | |by exists t, (fresh_token (with_pool p' s)); split; [|left]|].
    - intros t' Hin. rewrite Et. by right.
    - unfold workers. cbn [fmap list_fmap fst]. rewrite filter_cons_True by done. cbn [length p' set_active active].
      pose proof (i_workers _ _ _ HI) as Hw. unfold workers, running_tasks in Hw. rewrite Ep in Hw. cbn [from_option] in Hw. lia.
    - constructor; [apply rely_refl|by eapply seen_pool]. }
  split; [done|]. apply (current_known (TWorker t)); [by exists ds, h|]. apply (v_tasks _ (i_valid _ _ _ HI) p); [done|]. rewrite Et. by left.
Qed.
Lemma worker_ends t d ds s h :
  clean d -> Inv ((TWorker t, d) :: ds) s h -> Inv ds (thread_finish (TWorker t) s) h.
Proof.
  intros Hc HI. destruct (worker_pool _ _ _ _ _ HI t) as (p & Ep & Hp); [by left|].
  assert (Es : thread_finish (TWorker t) s = with_pool (set_active (active p - 1) p) s).
  { cbn [thread_finish]. unfold pool_of in Ep. by rewrite Ep. }
  rewrite Es. eapply Inv_pool; [exact HI|exact Ep|done| |by exists t, d; split; [|right]|].
  - pose proof (i_workers _ _ _ HI) as Hw. unfold workers in Hw. cbn [fmap list_fmap fst] in Hw. rewrite filter_cons_True in Hw by done.
    unfold running_tasks in Hw. rewrite Ep in Hw. cbn [length from_option] in Hw. unfold workers. cbn [set_active active]. lia.
  - pose proof (seen_pool _ _ _ p (set_active (active p - 1) p) HI Ep) as Hs. by inversion Hs.
Qed.
(** ** The start of a thread *)
Lemma fresh_clean s : clean (fresh_token s).
Proof. done. Qed.

Lemma Inv_add k ds s h :
  Inv ds s h -> is_worker k = false -> (forall r, role k = Some r -> r ∉ omap role ds.*1) ->
  (k = TListener -> listener_ (sv_listener s) = Running) -> Inv ((k, fresh_token s) :: ds) s h.
Proof.
  intros [H1 H2 H3 H4 H5 H6 H7 H8 H9 H10 H11 H12 H13 H14 H15] Hw Hr Hl. constructor; try done.
  - cbn [fmap list_fmap fst omap list_omap]. destruct (role k) as [r|] eqn:E; [|done]. constructor; [by apply Hr|done].
  - unfold workers in *. cbn [fmap list_fmap fst]. rewrite filter_cons_False; [done|congruence].
  - constructor; [apply rely_refl|done].
  - constructor; [by left|done].
  - intros [E|Hin]%elem_of_cons; [by apply Hl|by apply H11].
  - intros E. destruct (H12 E); [by left|right]. by apply Exists_cons_tl.
  - intros E. destruct (H13 E); [by left|right]. by apply Exists_cons_tl.
  - constructor; [done|done].
  - constructor; [by destruct k|done].
Qed.
Lemma not_role k ds r : role k = Some r -> (forall k', k' ∈ ds.*1 -> role k' <> Some r) -> forall r', role k = Some r' -> r' ∉ omap role (ds : Tokens).*1.
Proof. intros E Hno r' E' Hin. apply list_elem_of_omap in Hin as (k' & Hk & Er). apply (Hno k'); [done|congruence]. Qed.

(** The listener thread leaves its loop. *)
Lemma listener_returns ds s h :
  Inv ds s h -> TListener ∉ ds.*1 -> listener_ (sv_listener s) = Running -> listener_running_ (sv_listener s) = false ->
  Inv ((TReturn, fresh_token (listening false Returned s)) :: ds) (listening false Returned s) h.
Proof.
  intros HI Hno Hl Hr. set (s' := listening false Returned s).
  assert (Hrely : forall k', k' ∈ ds.*1 -> rely k' s s').
  { intros k' Hin. assert (Hg : grows s s') by apply grows_listening. destruct k' as [c| | | |t]; cbn [rely]; [|done|done| |done].
    - split; [|intros (Q & _); congruence]. constructor; try done. intros E. congruence.
    - intros E. by constructor. }
  pose proof (Inv_add TReturn ds s h HI eq_refl) as [H1 H2 H3 H4 H5 H6 H7 H8 H9 H10 H11 H12 H13 H14 H15]; [done|done|].
  constructor; try done.
  - pose proof H4 as [V1 V2 V3 V4 V5 V6 V7 V8 V9 V10 V11 V12 V13 V14 V15]. constructor; try done.
    + intros E. destruct (V12 E). congruence.
    + intros _. apply V13. by rewrite Hl.
  - apply Forall_cons in H9 as [_ H9]. constructor; [done|]. rewrite Forall_forall in H9 |- *. intros [k' d'] Hin.
    eapply rely_trans; [by apply H9|]. apply Hrely. apply list_elem_of_fmap. by exists (k', d').
  - apply Forall_cons in H10 as [_ H10]. constructor; [by left|]. eapply Forall_impl; [exact H10|].
    intros [k' d'] [?|[?|[_ ?]]]; [by left|by right; left|congruence].
  - intros [?|Hin]%elem_of_cons; done.
  - intros _. destruct (i_stopped _ _ _ HI Hr) as [?|?]; [congruence|right; by apply Exists_cons_tl].
  - intros E. destruct (i_mh _ _ _ HI E) as [?|?]; [by left|right; by apply Exists_cons_tl].
  - constructor; [done|apply (i_owner _ _ _ HI)].
  - constructor; [done|apply (i_hands _ _ _ HI)].
Qed.

(** ** Every thread keeps the invariant *)
Lemma steady_verified k (p : Prog NetOp HixlCSServer unit) s :
  steady k p (fresh_token s) -> (forall o, ~ closes_server k o) -> verified Inv final k p (fresh_token s).
Proof. intros Hs Hk. apply Hs. intros o s' _. split; [done|]. intros H. by apply Hk in H. Qed.

Lemma Initialize_verified l s :
  Now (TApi (AInitialize l)) (fresh_token s) -> verified Inv final (TApi (AInitialize l)) (Initialize l) (fresh_token s).
Proof using All.
  intros N. unfold verified, Initialize. destruct l as [[|e l]|]; [apply pwp_done; by split|..|apply pwp_done; by split].
  apply pwp_bind, pwp_require; intros Hl; [|done]. apply pwp_bind, pwp_sys; [done|by repeat split|]. intros b s1 _.
  apply pwp_bind, pwp_set_configurable. intros s2 N2. apply pwp_on_fail, pwp_Initialize_body; [exact N2|done|]. intros [e'|[]] s3 N3.
  - apply pwp_log. change (see s3 (see s2 (see s1 (fresh_token s)))) with (stok s3 false). apply pwp_Finalize. intros st s4 Hc.
    split; [done|]. by intros _.
  - split; [done|]. by intros [e' ?].
Qed.

Lemma api_verified c s : Now (TApi c) (fresh_token s) -> verified Inv final (TApi c) (api_call c) (fresh_token s).
Proof using All.
  intros N. destruct c as [l| |tag mem|mh|backlog|t p]; cbn [api_call].
  - by apply Initialize_verified.
  - apply pwp_log, pwp_Finalize. intros st s' Hc. by split.
  - apply steady_verified; [apply steady_log, steady_RegisterMem|by intros o H].
  - apply steady_verified; [apply steady_DeregisterMem|by intros o H].
  - apply pwp_Listen; [done|]. intros o s' _. by split.
  - apply pwp_RegProc; [intros e s' _|intros s' _ _]; by split.
Qed.
Lemma server_finish k o d ds s h : final k o d -> Inv ((k, d) :: ds) s h -> Inv ds (thread_finish k s) h.
Proof.
  intros [Hc _] HI. destruct k as [c| | | |t]; [(eapply Inv_drop; [|exact Hc|exact HI]; done)..|]. by eapply worker_ends.
Qed.
Lemma server_start ds s h k p s' :
  Inv ds s h -> thread_start s ds.*1 k p s' -> exists d, Inv ((k, d) :: ds) s' h /\ verified Inv final k p d.
Proof using All.
  intros HI Hs. destruct Hs as [c Hno|Hno Hl Hr|Hno Hm|t s' Ht|Hno Hl Hr].
  - exists (fresh_token s). assert (HI' : Inv ((TApi c, fresh_token s) :: ds) s h).
    { apply Inv_add; [done|done| |done]. apply (not_role _ _ RApi); [done|]. intros [c'| | | |t] Hin; try done. by apply Hno in Hin. }
    split; [done|]. apply api_verified. by exists ds, h.
  - exists (fresh_token s). assert (HI' : Inv ((TListener, fresh_token s) :: ds) s h).
    { apply Inv_add; [done|done| |done]. apply (not_role _ _ RListener); [done|]. by intros [c'| | | |t] Hin. }
    split; [done|]. apply (walks_DoWait s); [by exists ds, h|]. intros o s' _. split; [done|]. by intros H.
  - exists (fresh_token s). assert (HI' : Inv ((THandler, fresh_token s) :: ds) s h).
    { apply Inv_add; [done|done| |done]. apply (not_role _ _ RHandler); [done|]. by intros [c'| | | |t] Hin. }
    split; [done|]. apply pwp_HandleMsg; [done|]. intros o s'. split; [done|]. by intros H.
  - exists (fresh_token s'). destruct (worker_starts _ _ _ _ _ HI Ht) as [HI' Hk]. split; [done|].
    apply steady_verified; [by apply steady_run_task|by intros o H].
  - exists (fresh_token (listening false Returned s)). split; [by apply listener_returns|]. apply pwp_done. split; [done|]. by intros H.
Qed.

(** ** The theorems *)
Definition server_world (index : Z) (px : Proxies) : World NetOp HixlCSServer ThreadKind :=
  {| w_threads := []; w_state := HixlCSServer_new index px; w_history := [] |}.

Lemma Inv_new index px : Inv [] (HixlCSServer_new index px) [].
Proof.
  assert (Hno : forall (A : Type) (x : A) (P : Prop), x ∈ @nil A -> P) by (intros A x P Hx; by apply elem_of_nil in Hx).
  constructor; try done.
  - split; [constructor|]. intros hd e Hin. by apply elem_of_nil in Hin.
  - apply acct_nil.
  - split_and!; try done. split_and!; constructor.
  - constructor; try done; try (by constructor); try (intros *; apply Hno). intros _. cbn. lia.
  - intros fd p Hp. by apply elem_of_nil in Hp.
  - constructor.
  - intros Hin. by apply elem_of_nil in Hin.
  - intros _. by left.
  - intros _. by left.
Qed.
Lemma server_ok index px W : server_steps (server_world index px) W -> world_ok Inv final W /\ ~ stuck_at W.
Proof using All.
  intros Hs. eapply (steps_ok thread_start thread_finish Inv final Inv_perm server_finish server_start); [|exact Hs].
  exists []. split; [apply Inv_new|constructor].
Qed.


(** Who is left beside the owner has nothing. *)
Lemma alone_hands c d ds s h : Inv ((TApi c, d) :: ds) s h -> alone s -> res_of ds = [] /\ conns_of ds = [].
Proof.
  intros HI (A1 & A2 & A3). assert (Hall : forall k e, (k, e) ∈ ds -> t_res e = [] /\ t_conns e = []).
  { intros k e Hin. assert (Hk : k ∈ ds.*1) by (apply list_elem_of_fmap; by exists (k, e)).
    pose proof (i_hands _ _ _ HI) as Hh. rewrite Forall_forall in Hh. specialize (Hh (k, e)).
    destruct k as [c'| | | |t]; [exfalso|exfalso|apply Hh; by right..|exfalso].
    - by eapply no_other_owner.
    - assert (listener_ (sv_listener s) = Running) by (apply (i_listener _ _ _ HI); by right). unfold no_listener in A1. congruence.
    - destruct (worker_pool _ _ _ _ _ HI t) as (p & E & _); [by right|congruence]. }
  clear HI. induction ds as [|[k e] ds IH]; [done|]. destruct (Hall k e) as [E1 E2]; [by left|].
  destruct IH as [I1 I2]; [intros k' e' Hin; apply (Hall k'); by right|].
  change (t_res e ++ res_of ds = [] /\ t_conns e ++ conns_of ds = []). by rewrite E1, E2, I1, I2.
Qed.

Lemma all_closed (W : list Conn) : (forall i c, W !! i = Some c -> fd_ c < 0) -> omap conn_fd W = [].
Proof.
  induction W as [|c W IH]; intros Hc; [done|]. cbn [omap list_omap].
  assert (E : conn_fd c = None) by (unfold conn_fd; rewrite (proj2 (Z.leb_gt _ _)); [done|apply (Hc 0%nat c); done]).
  rewrite E. apply IH. intros i. apply (Hc (S i)).
Qed.
Lemma no_sessions (W : list Conn) : Forall conn_wf W -> omap conn_fd W = [] -> omap conn_ssl W = [].
Proof.
  induction W as [|c W IH]; intros Hw Hf; [done|]. apply Forall_cons in Hw as [Hc Hw]. cbn [omap list_omap] in *.
  unfold conn_fd in Hf. destruct (Z.leb_spec 0 (fd_ c)) as [Hp|Hp]; [done|]. unfold conn_ssl.
  destruct (session_id c) as [x|] eqn:E; [|by apply IH]. destruct (Hc x E) as (_ & _ & ?). lia.
Qed.

(** C7: Once [Finalize] has returned, or a failed [Initialize], nothing is left behind,
    whatever else the threads were doing: no descriptor and no TLS session is open, what
    is still alive in HCOMM was refused when the server released it, the tables are
    empty and no thread of the server is left to join. *)
Theorem server_closed (index : Z) (px : Proxies) (W : World NetOp HixlCSServer ThreadKind) (k : ThreadKind) (o : Status + unit) :
  server_steps (server_world index px) W ->
  {| th_kind := k; th_prog := Done o |} ∈ w_threads W -> closes_server k o ->
  let s := w_state W in let h := w_history W in
  (forall r, r ∈ live h -> r ∈ refused h) /\ open_fds h = ∅ /\ open_ssls h = ∅ /\
  endpoints_ (endpoint_store_ s) = [] /\ clients_ (sv_clients s) = [] /\ pending_handshakes_ (sv_listener s) = [] /\
  listener_connection_ (sv_listener s) = None /\ listener_ (sv_listener s) = NoThread /\
  thread_pool_ (msg_handler_ s) = None /\ mh_listener_ (msg_handler_ s) = NoThread.
Proof using All.
  intros [(ds & HI & Hds) _]%server_ok Hin Hk. cbv zeta.
  apply list_elem_of_lookup in Hin as [i Hi]. destruct (Forall2_lookup_l _ _ _ _ _ Hds Hi) as ([k' d] & Hd & Ek & Hv).
  cbn [fst snd th_kind th_prog] in Ek, Hv. subst k'. destruct Hv as [Hc Hcl]. specialize (Hcl Hk).
  apply (Inv_perm _ ((k, d) :: delete i ds)) in HI; [|by apply delete_Permutation].
  destruct k as [c| | | |t]; try done. assert (Es : w_state W = t_seen d).
  { destruct (seen _ _ _ _ _ HI) as [_ Hx]. apply Hx, alone_quiet, Hcl. }
  rewrite <- Es in Hcl. destruct Hcl as ([Ha Hcr Hst Hfl] & Hlc & Hep). destruct (alone_hands _ _ _ _ _ HI Ha) as [Hr Hcs].
  pose proof (i_acct _ _ _ HI) as Hac. pose proof (i_open _ _ _ HI) as Hop. destruct Hc as (C1 & C2 & _).
  assert (Eo : srv_owned (w_state W) = []).
  { unfold srv_owned, flags_owned. destruct Hfl as [-> ->]. rewrite Hst. unfold epoll_owned. by rewrite (proj2 (Z.leb_gt _ _)). }
  change (res_of ((TApi c, d) :: delete i ds)) with (t_res d ++ res_of (delete i ds)) in Hac.
  change (conns_of ((TApi c, d) :: delete i ds)) with (t_conns d ++ conns_of (delete i ds)) in Hop.
  rewrite Eo, C1, Hr in Hac. rewrite C2, Hcs in Hop. destruct (i_owned _ _ _ HI) as ((Hwf & _) & Hfd & Hss & _).
  assert (Hall : omap conn_fd (connections (w_state W)) = []).
  { apply all_closed. intros j conn Hj. destruct (Z.lt_ge_cases (fd_ conn) 0) as [?|Hp]; [done|exfalso].
    rewrite <- (fd_of_at _ _ _ Hj) in Hp. destruct (Hop j Hp) as [Hin|Hin]; [|by apply elem_of_nil in Hin].
    rewrite (cleared_refs _ Hcr), Hlc in Hin. by apply elem_of_nil in Hin. }
  destruct Ha as (A1 & A2 & A3), Hcr as [R1 R2]. split_and!; try done.
  - intros r Hr'. destruct (a_live _ _ Hac _ Hr') as [Hn|?]; [by apply elem_of_nil in Hn|done].
  - rewrite Hfd. unfold fd_set. by rewrite Hall.
  - rewrite Hss. unfold ssl_set. by rewrite (no_sessions _ Hwf Hall).
  - by rewrite R2.
Qed.
End Safety.

(** * Schedules *)

(** No thread of this kind runs. *)
Ltac no_thread :=
  vm_compute; let Hin := fresh in intros Hin;
  repeat (apply elem_of_cons in Hin as [Hin|Hin]; [done|]); by apply elem_of_nil in Hin.

Section Runs.
Context {env : Environment NetOp}.
#[local] Existing Instance securec_ref.
Implicit Types (W : World NetOp HixlCSServer ThreadKind).

Definition started (k : ThreadKind) (p : Prog NetOp HixlCSServer unit) (s : HixlCSServer) W : World NetOp HixlCSServer ThreadKind :=
  {| w_threads := {| th_kind := k; th_prog := p |} :: w_threads W; w_state := s; w_history := w_history W |}.
(** The newest thread runs to its end. *)
Definition to_end W : World NetOp HixlCSServer ThreadKind := end_at thread_finish 0 (run_at 0 200 W).
Definition api (c : ApiCall) W : World NetOp HixlCSServer ThreadKind := to_end (started (TApi c) (api_call c) (w_state W) W).

Definition listener_round W : World NetOp HixlCSServer ThreadKind := to_end (started TListener DoWait (w_state W) W).
Definition handler_round W : World NetOp HixlCSServer ThreadKind :=
  to_end (started THandler (pzoom msg_handler_ set_handler HandleMsg_round) (w_state W) W).
(** The oldest task of the pool. *)
Definition worker_round W : World NetOp HixlCSServer ThreadKind :=
  match thread_pool_ (msg_handler_ (w_state W)) with
  | Some pool =>
      match tasks_ pool with
      | t :: rest =>
          to_end (started (TWorker t) (run_task t)
            (set_handler (set_pool (Some (set_active (active pool + 1) (set_tasks rest pool))) (msg_handler_ (w_state W))) (w_state W)) W)
      | [] => W
      end
  | None => W
  end.

Lemma to_end_steps W : server_steps W (to_end W).
Proof. eapply rtc_trans; [apply run_at_steps|apply end_at_steps]. Qed.
Lemma started_steps k p s W : thread_start (w_state W) (th_kind <$> w_threads W) k p s -> server_steps W (started k p s W).
Proof. intros Hs. apply rtc_once. destruct W as [ts s0 h]. by apply step_start. Qed.
Lemma api_steps c W : w_threads W = [] -> server_steps W (api c W).
Proof.
  intros E. eapply rtc_trans; [apply started_steps|apply to_end_steps]. rewrite E. constructor.
  intros c' Hin. by apply elem_of_nil in Hin.
Qed.

Lemma listener_round_steps W :
  TListener ∉ (th_kind <$> w_threads W) -> listener_ (sv_listener (w_state W)) = Running ->
  listener_running_ (sv_listener (w_state W)) = true -> server_steps W (listener_round W).
Proof. intros Hno Hl Hr. eapply rtc_trans; [|apply to_end_steps]. apply started_steps. by apply start_round. Qed.
Lemma handler_round_steps W :
  THandler ∉ (th_kind <$> w_threads W) -> mh_listener_ (msg_handler_ (w_state W)) = Running -> server_steps W (handler_round W).
Proof. intros Hno Hm. eapply rtc_trans; [|apply to_end_steps]. apply started_steps. by apply start_handler. Qed.
Lemma worker_round_steps W :
  (from_option active 0 (thread_pool_ (msg_handler_ (w_state W))) < kMaxThreadPoolSize)%nat -> server_steps W (worker_round W).
Proof.
  intros Ha. unfold worker_round. destruct (thread_pool_ _) as [pool|] eqn:Ep; [|apply rtc_refl].
  destruct (tasks_ pool) as [|t rest] eqn:Et; [apply rtc_refl|]. eapply rtc_trans; [|apply to_end_steps]. apply started_steps.
  apply start_worker. by exists pool, rest.
Qed.

End Runs.

(** * A sample run *)
Section Sample.
Let env : Environment NetOp := net_ref false false [].
#[local] Existing Instance securec_ref.
#[local] Existing Instance env.
Implicit Types (W : World NetOp HixlCSServer ThreadKind).

Definition sample_mem : CommMem := {| cm_type := COMM_MEM_TYPE_HOST; cm_addr := 4096; cm_size := 64 |}.
(** The server is initialized, registers memory and listens; its listener makes a
    round. *)
Definition sample_listening : World NetOp HixlCSServer ThreadKind :=
  let W := api (AInitialize (Some [sample_endpoint])) (server_world 7 []) in
  let W := api (ARegisterMem (Some "kv"%string) sample_mem) W in
  let W := api (AListen 128) W in
  listener_round W.
(** [Finalize] waits for the listener, then for the thread of the handler, and ends. *)
Definition sample_closed : World NetOp HixlCSServer ThreadKind :=
  let W := sample_listening in
  let W := run_at 0 200 (started (TApi AFinalize) (api_call AFinalize) (w_state W) W) in
  let W := to_end (started TReturn (pret tt) (set_listener (set_listening false Returned (sv_listener (w_state W))) (w_state W)) W) in
  let W := run_at 0 200 W in
  run_at 0 200 (handler_round W).

Lemma sample_listening_steps : server_steps (server_world 7 []) sample_listening.
Proof.
  unfold sample_listening. cbv zeta. eapply rtc_trans; [by apply (api_steps (AInitialize (Some [sample_endpoint])))|].
  eapply rtc_trans; [apply (api_steps (ARegisterMem (Some "kv"%string) sample_mem)); by vm_compute|].
  eapply rtc_trans; [apply (api_steps (AListen 128)); by vm_compute|]. apply listener_round_steps; [no_thread|by vm_compute..].
Qed.
Lemma sample_closed_steps : server_steps (server_world 7 []) sample_closed.
Proof.
  eapply rtc_trans; [exact sample_listening_steps|]. unfold sample_closed. cbv zeta.
  eapply rtc_trans; [|apply run_at_steps]. eapply rtc_trans; [|apply handler_round_steps; [no_thread|by vm_compute]].
  eapply rtc_trans; [|apply run_at_steps]. eapply rtc_trans; [|apply to_end_steps].
  eapply rtc_trans; [|apply started_steps]; cycle 1.
  { apply start_return; [no_thread|by vm_compute..]. }
  eapply rtc_trans; [|apply run_at_steps]. apply started_steps. apply start_api. intros c'. no_thread.
Qed.


(** [Finalize] has run to its end. *)
Lemma server_closed_witness :
  server_steps (server_world 7 []) sample_closed /\
  {| th_kind := TApi AFinalize; th_prog := Done (inr tt) |} ∈ w_threads sample_closed /\
  (forall r, r ∈ live (w_history sample_closed) -> r ∈ refused (w_history sample_closed)) /\
  refused (w_history sample_closed) = ∅ /\ open_fds (w_history sample_closed) = ∅.
Proof.
  assert (Hin : {| th_kind := TApi AFinalize; th_prog := Done (inr tt) |} ∈ w_threads sample_closed) by (vm_compute; by left).
  pose proof (@server_closed ref_codes ref_again ref_clib securec_ref securec_ref_laws ref_config ref_abi env
    (net_ref_laws false false [] (List.Forall_nil _)) (net_ref_hc_laws false false []) 7 [] _ _ _ sample_closed_steps Hin I)
    as (H1 & H2 & _).
  split_and!; [exact sample_closed_steps|exact Hin|exact H1|by vm_compute|exact H2].
Defined.
End Sample.

(** * A peer that asks for its own destruction *)
Section Peer.
(** Descriptor 2 is the lowest that is free, as [accept] promises; the peer connects,
    sends a [kDestroyChannelReq], and connects again. *)
Definition peer_request : list Z := CtrlMsgHeader_bytes (header_of 0) ++ CtrlMsgType_bytes kDestroyChannelReq.
Definition peer_events : list (list (Z * Z)) := [[(1, EPOLLIN)]; [(2, EPOLLIN)]; [(1, EPOLLIN)]].
Definition waits (h : History NetOp) : nat :=
  length (List.filter (fun e : Event NetOp => match e with Ev (Hc (EpollWait _ _)) _ => true | _ => false end) h).
Definition peer_env : Environment NetOp := fun T op h =>
  match op in NetOp T return T with
  | NetAccept _ => (2, 0)
  | NetRecv _ len =>
      match drop (length (received h)) peer_request with [] => IoError EAGAIN | bs => IoBytes (take (Z.to_nat len) bs) end
  | Hc op' =>
      match op' in HcOp T return T with
      | EpollWait _ _ => nth (waits h) peer_events []
      | op'' => hcomm_ref h op''
      end
  | op' => net_ref false false peer_request _ op' h
  end.
#[local] Existing Instance securec_ref.
#[local] Existing Instance peer_env.
Implicit Types (W : World NetOp HixlCSServer ThreadKind).

Definition peer_listening : World NetOp HixlCSServer ThreadKind :=
  api (AListen 128) (api (AInitialize (Some [sample_endpoint])) (server_world 7 [])).
Definition peer_destroyed : World NetOp HixlCSServer ThreadKind :=
  worker_round (handler_round (listener_round (listener_round peer_listening))).
Definition peer_again : World NetOp HixlCSServer ThreadKind := listener_round peer_destroyed.

End Peer.
