(* ===== verification/GlobalConfig.v ===== *)
(** The configuration of the CS layer: hixl/cs/global_config.cc, with
    hixl/common/json_utils.h and hixl/common/tls/tls_config.cc.

    An exception of nlohmann is caught by [GlobalConfig_Parse], which returns
    PARAM_INVALID: the model fails with that status where it is thrown. *)

From Stdlib Require Import Ascii.
From S2P Require Import Prelude Effects Wire Hcomm ClientRt Net NetReference.

(** * nlohmann::json *)

(** The conversions [get<T>()]; [None] when they throw. *)
Class Nlohmann := {
  json_uint32 : Json -> option Z;
  json_uint64 : Json -> option Z;
  json_int32 : Json -> option Z;
  json_int64 : Json -> option Z
}.
(** An integer that the type holds is itself. *)
Class NlohmannLaws (nl : Nlohmann) : Prop := {
  json_uint32_int : forall z, is_u32 z -> json_uint32 (JInt z) = Some z;
  json_uint64_int : forall z, is_u64 z -> json_uint64 (JInt z) = Some z;
  json_int32_int : forall z, is_int32 z -> json_int32 (JInt z) = Some z
}.

Definition json_find (key : string) (j : Json) : option Json :=
  match j with
  | JObject l => snd <$> List.find (fun it => bool_decide (it.1 = key)) l
  | _ => None
  end.
Definition json_contains (key : string) (j : Json) : bool := match json_find key j with Some _ => true | None => false end.

(** * Numbers in strings: [std::stringstream >> int64_t], and [ToNumber] *)
Definition is_space (c : Ascii.ascii) : bool :=
  let n := Ascii.nat_of_ascii c in ((9 <=? n)%nat && (n <=? 13)%nat) || (n =? 32)%nat.
Definition digit_of (c : Ascii.ascii) : option Z :=
  let n := Z.of_nat (Ascii.nat_of_ascii c) in if (48 <=? n) && (n <=? 57) then Some (n - 48) else None.
Fixpoint skip_space (s : string) : string :=
  match s with String c s' => if is_space c then skip_space s' else s | EmptyString => s end.
(** The value of the digits, how many there are, and what follows. *)
Fixpoint read_digits (s : string) (acc : Z) (n : nat) : Z * nat * string :=
  match s with
  | String c s' => match digit_of c with Some d => read_digits s' (acc * 10 + d) (S n) | None => (acc, n, s) end
  | EmptyString => (acc, n, s)
  end.
Definition read_sign (s : string) : Z * string :=
  match s with
  | String c s' => if Ascii.eqb c "-"%char then (-1, s') else if Ascii.eqb c "+"%char then (1, s') else (1, s)
  | EmptyString => (1, s)
  end.
Definition is_int64 (x : Z) : bool := (- 2 ^ 63 <=? x) && (x <? 2 ^ 63).
(** The number, when the whole string is one. *)
Definition ToNumber (num_str : string) : option Z :=
  let '(sign, s) := read_sign (skip_space num_str) in
  let '(v, n, rest) := read_digits s 0 0 in
  if (n =? 0)%nat || negb (is_int64 (sign * v)) then None else
  match rest with EmptyString => Some (sign * v) | _ => None end.

(** * Data *)
Inductive ParseTarget := kAll | kOnlyClient | kOnlyServer.
#[export] Instance ParseTarget_eq_dec : EqDecision ParseTarget.
Proof. solve_decision. Defined.

Record CommResourceConfig := { crc_listen_port : option Z; crc_qos : option Z; crc_max_active_channels : option Z }.
Record TransferConfigDesc := { max_transfer_count_per_batch : Z; max_transfer_count_per_batch_configured : bool }.
Record UbMemoryConfig := {
  max_capacity : option Z; start_address : option Z; task_stream_num : option Z; enable_aicpu_unfold : option bool
}.
Record TlsConfig := {
  tls_configured : bool;
  cert_file : string; key_file : string; ca_file : string; ciphers : string;
  verify_peer : bool; enable_cert_refresh : bool
}.
Record GlobalConfig := {
  comm_resource_config_ : CommResourceConfig;
  transfer_config_ : TransferConfigDesc;
  fabric_memory_ : UbMemoryConfig;
  tls_config_ : TlsConfig
}.

Definition kMaxTransferCountPerBatch : Z := 32766.
Definition kMaxFixedQueueTransferCountPerBatch : Z := 1920.

Definition CommResourceConfig_new : CommResourceConfig :=
  {| crc_listen_port := None; crc_qos := None; crc_max_active_channels := None |}.
Definition TransferConfigDesc_new : TransferConfigDesc :=
  {| max_transfer_count_per_batch := 1920; max_transfer_count_per_batch_configured := false |}.
Definition UbMemoryConfig_new : UbMemoryConfig :=
  {| max_capacity := None; start_address := None; task_stream_num := None; enable_aicpu_unfold := None |}.
Definition TlsConfig_new : TlsConfig :=
  {| tls_configured := false; cert_file := ""; key_file := ""; ca_file := ""; ciphers := "";
     verify_peer := false; enable_cert_refresh := false |}.
Definition GlobalConfig_new : GlobalConfig :=
  {| comm_resource_config_ := CommResourceConfig_new; transfer_config_ := TransferConfigDesc_new;
     fabric_memory_ := UbMemoryConfig_new; tls_config_ := TlsConfig_new |}.

Section Parse.
Context {nl : Nlohmann} {env : Environment NetOp} {S : Type}.
Let C := M NetOp S.

Definition JsonToNumber (val : Json) : C Z :=
  match val with
  | JString s => match ToNumber s with Some v => ret v | None => fail PARAM_INVALID end
  | JInt _ => match json_int64 val with Some v => ret v | None => fail PARAM_INVALID end
  | _ => fail PARAM_INVALID
  end.

(** The shape of the fields that are numbers in a range: absent, or the number. *)
Definition number_field (key : string) (min_val max_val : Z) (json : Json) : C (option Z) :=
  match json_find key json with
  | None => ret None
  | Some it =>
      let* val := JsonToNumber it in
      require (negb ((val <? min_val) || (max_val <? val))) PARAM_INVALID ;;
      ret (Some val)
  end.
Definition or_else {A} (new old : option A) : option A := match new with Some x => Some x | None => old end.

Definition ParseListenPort (json : Json) (config : CommResourceConfig) : C CommResourceConfig :=
  let* v := number_field "comm_resource_config.listen_port" 1 65535 json in
  ret {| crc_listen_port := or_else v (crc_listen_port config); crc_qos := crc_qos config;
         crc_max_active_channels := crc_max_active_channels config |}.
Definition ParseQos (json : Json) (config : CommResourceConfig) : C CommResourceConfig :=
  let* v := number_field "comm_resource_config.qos" 0 7 json in
  ret {| crc_listen_port := crc_listen_port config; crc_qos := or_else v (crc_qos config);
         crc_max_active_channels := crc_max_active_channels config |}.
Definition ParseMaxActiveChannels (json : Json) (config : CommResourceConfig) : C CommResourceConfig :=
  let* v := number_field "comm_resource_config.max_active_channels" 1 8192 json in
  ret {| crc_listen_port := crc_listen_port config; crc_qos := crc_qos config;
         crc_max_active_channels := or_else v (crc_max_active_channels config) |}.

Definition ParseTransferConfig (json : Json) (config : TransferConfigDesc) (target : ParseTarget) : C TransferConfigDesc :=
  match json_find "transfer_config.max_transfer_count_per_batch" json with
  | None => ret config
  | Some it =>
      require (negb (bool_decide (target = kOnlyServer))) PARAM_INVALID ;;
      let* supported := call (Hc ConfigurableTransferSupported) in
      require supported PARAM_INVALID ;;
      require (match it with JInt _ | JString _ => true | _ => false end) PARAM_INVALID ;;
      let* val := JsonToNumber it in
      require (negb ((val <? 1) || (kMaxTransferCountPerBatch <? val))) PARAM_INVALID ;;
      ret {| max_transfer_count_per_batch := val; max_transfer_count_per_batch_configured := true |}
  end.

Definition ParseCommResourceConfig (json : Json) (config : CommResourceConfig) (target : ParseTarget) : C CommResourceConfig :=
  let* config := (if bool_decide (target = kAll) || bool_decide (target = kOnlyServer)
                  then ParseListenPort json config else ret config) in
  let* config := (if bool_decide (target = kAll) || bool_decide (target = kOnlyClient)
                  then ParseQos json config else ret config) in
  ParseMaxActiveChannels json config.

Definition ParseUbMemBoolField (json : Json) (key : string) (out : option bool) : C (option bool) :=
  match json_find key json with
  | None => ret out
  | Some (JBool b) => ret (Some b)
  | Some _ => fail PARAM_INVALID
  end.
Definition ParseUbMemoryConfig (json : Json) (cfg : UbMemoryConfig) : C UbMemoryConfig :=
  let* capacity := number_field "fabric_memory.max_capacity" 1 1024 json in
  let* start := number_field "fabric_memory.start_address" 0 1024 json in
  let* streams := number_field "fabric_memory.task_stream_num" 1 8 json in
  let* unfold_ := ParseUbMemBoolField json "fabric_memory.enable_aicpu_unfold" (enable_aicpu_unfold cfg) in
  ret {| max_capacity := or_else capacity (max_capacity cfg); start_address := or_else start (start_address cfg);
         task_stream_num := or_else streams (task_stream_num cfg); enable_aicpu_unfold := unfold_ |}.

(** ** TLS: the value and whether any field was given *)
Definition ParseStringField (json : Json) (key : string) (configured : bool) : C (string * bool) :=
  match json_find key json with
  | None => ret (""%string, configured)
  | Some (JString s) => ret (s, true)
  | Some _ => fail PARAM_INVALID
  end.
Definition ParseBoolField (json : Json) (key : string) (configured : bool) : C (bool * bool) :=
  match json_find key json with
  | None => ret (false, configured)
  | Some (JBool b) => ret (b, true)
  | Some (JString value) =>
      if bool_decide (value = "true"%string) || bool_decide (value = "1"%string) then ret (true, true) else
      require (bool_decide (value = "false"%string) || bool_decide (value = "0"%string)) PARAM_INVALID ;;
      ret (false, true)
  | Some _ => fail PARAM_INVALID
  end.

Definition str_empty (s : string) : bool := match s with EmptyString => true | _ => false end.
Definition ValidateTlsConfig (config : TlsConfig) : C unit :=
  if negb (tls_configured config) then ret tt else
  require (negb (str_empty (cert_file config)) && negb (str_empty (key_file config))) PARAM_INVALID ;;
  if verify_peer config then require (negb (str_empty (ca_file config))) PARAM_INVALID else ret tt.

Definition ParseTlsConfig (json : Json) : C TlsConfig :=
  let* (cert, c) := ParseStringField json "tls_config.cert_file" false in
  let* (key, c) := ParseStringField json "tls_config.key_file" c in
  let* (ca, c) := ParseStringField json "tls_config.ca_file" c in
  let* (ciph, c) := ParseStringField json "tls_config.ciphers" c in
  let* (verify, c) := ParseBoolField json "tls_config.verify_peer" c in
  let* (refresh, c) := ParseBoolField json "tls_config.enable_cert_refresh" c in
  let parsed := {| tls_configured := c; cert_file := cert; key_file := key; ca_file := ca; ciphers := ciph;
                   verify_peer := verify; enable_cert_refresh := refresh |} in
  ValidateTlsConfig parsed ;;
  ret parsed.

(** ** The whole: the text is null, empty, or JSON *)
Definition GlobalConfig_Parse (config_str : option (list Z)) (result : GlobalConfig) (target : ParseTarget) : C GlobalConfig :=
  match config_str with
  | None | Some [] => ret result
  | Some text =>
      let* parsed := call (Cli (JsonParse text)) in
      match parsed with
      | Some ((JObject _) as json) =>
          let* comm := ParseCommResourceConfig json (comm_resource_config_ result) target in
          let* transfer := ParseTransferConfig json (transfer_config_ result) target in
          let* fabric := ParseUbMemoryConfig json (fabric_memory_ result) in
          let* tls := ParseTlsConfig json in
          ret {| comm_resource_config_ := comm; transfer_config_ := transfer; fabric_memory_ := fabric; tls_config_ := tls |}
      | _ => fail PARAM_INVALID
      end
  end.
End Parse.

(** * What an accepted configuration satisfies *)
Definition in_range (lo hi : Z) (o : option Z) : Prop := match o with Some v => lo <= v <= hi | None => True end.
Definition tls_ok (t : TlsConfig) : Prop :=
  tls_configured t = true ->
  cert_file t <> EmptyString /\ key_file t <> EmptyString /\ (verify_peer t = true -> ca_file t <> EmptyString).
Record config_ok (c : GlobalConfig) : Prop := {
  ok_port : in_range 1 65535 (crc_listen_port (comm_resource_config_ c));
  ok_qos : in_range 0 7 (crc_qos (comm_resource_config_ c));
  ok_channels : in_range 1 8192 (crc_max_active_channels (comm_resource_config_ c));
  ok_transfer : 1 <= max_transfer_count_per_batch (transfer_config_ c) <= kMaxTransferCountPerBatch;
  ok_capacity : in_range 1 1024 (max_capacity (fabric_memory_ c));
  ok_start : in_range 0 1024 (start_address (fabric_memory_ c));
  ok_streams : in_range 1 8 (task_stream_num (fabric_memory_ c));
  ok_tls : tls_ok (tls_config_ c)
}.

(** What each target leaves as it was. *)
Definition untouched (target : ParseTarget) (c c' : GlobalConfig) : Prop :=
  (target = kOnlyClient -> crc_listen_port (comm_resource_config_ c') = crc_listen_port (comm_resource_config_ c)) /\
  (target = kOnlyServer -> crc_qos (comm_resource_config_ c') = crc_qos (comm_resource_config_ c) /\
                           transfer_config_ c' = transfer_config_ c).

Lemma config_ok_new : config_ok GlobalConfig_new.
Proof. constructor; try done; unfold kMaxTransferCountPerBatch; cbn; lia. Qed.

Section Bounds.
Context {nl : Nlohmann} {env : Environment NetOp} {S : Type}.
Implicit Types (s : S) (h : History NetOp) (json : Json).

(** A computation that changes nothing, and fails with PARAM_INVALID or gives a value with [P]. *)
Definition gives {A} (m : M NetOp S A) (P : A -> Prop) : Prop :=
  forall s h, wp m (fun o s' _ => s' = s /\ match o with inr a => P a | inl e => e = PARAM_INVALID end) s h.

Lemma gives_ret {A} (a : A) (P : A -> Prop) : P a -> gives (ret a) P.
Proof. intros H s h. by split. Qed.
Lemma gives_fail {A} (P : A -> Prop) : gives (fail PARAM_INVALID) P.
Proof. by intros s h. Qed.
Lemma gives_bind {A B} (m : M NetOp S A) (k : A -> M NetOp S B) P Q :
  gives m P -> (forall a, P a -> gives (k a) Q) -> gives (bind m k) Q.
Proof.
  intros Hm Hk s h. apply wp_bind. eapply wp_mono; [apply Hm|]. intros [e|a] s' h' [-> H]; [done|]. by apply Hk.
Qed.
Lemma gives_require b : gives (require b PARAM_INVALID) (fun _ => b = true).
Proof. intros s h. by apply wp_require. Qed.
Lemma gives_call {T} (op : NetOp T) : gives (call op) (fun _ => True).
Proof. intros s h. by apply wp_call. Qed.

Lemma gives_number v : gives (JsonToNumber v) (fun _ => True).
Proof. unfold JsonToNumber. repeat case_match; by first [apply gives_ret|apply gives_fail]. Qed.

Lemma gives_field key lo hi json : gives (number_field key lo hi json) (in_range lo hi).
Proof.
  unfold number_field. case_match; [|by apply gives_ret].
  eapply gives_bind; [apply gives_number|]. intros v _. eapply gives_bind; [apply gives_require|].
  intros [] Hv. apply negb_true_iff, orb_false_iff in Hv as [H1%Z.ltb_ge H2%Z.ltb_ge]. by apply gives_ret.
Qed.

Lemma in_range_or lo hi new old : in_range lo hi new -> in_range lo hi old -> in_range lo hi (or_else new old).
Proof. by destruct new. Qed.

(** The two switches of [ParseCommResourceConfig]. *)
Definition comm_ok (c : CommResourceConfig) : Prop :=
  in_range 1 65535 (crc_listen_port c) /\ in_range 0 7 (crc_qos c) /\ in_range 1 8192 (crc_max_active_channels c).
Lemma gives_comm json c target : comm_ok c ->
  gives (ParseCommResourceConfig json c target) (fun c' => comm_ok c' /\
    (target = kOnlyClient -> crc_listen_port c' = crc_listen_port c) /\
    (target = kOnlyServer -> crc_qos c' = crc_qos c)).
Proof.
  intros (H1 & H2 & H3). unfold ParseCommResourceConfig.
  eapply gives_bind with (P := fun c' => in_range 1 65535 (crc_listen_port c') /\ crc_qos c' = crc_qos c /\
    crc_max_active_channels c' = crc_max_active_channels c /\ (target = kOnlyClient -> crc_listen_port c' = crc_listen_port c)).
  { case_match eqn:E; [|by apply gives_ret]. unfold ParseListenPort. eapply gives_bind; [apply gives_field|].
    intros v Hv. apply gives_ret. cbn. split_and!; [by apply in_range_or|done|done|]. intros Et. clear -E Et. by subst. }
  intros c1 (P1 & P2 & P3 & P4).
  eapply gives_bind with (P := fun c' => comm_ok c' /\ crc_listen_port c' = crc_listen_port c1 /\
    (target = kOnlyServer -> crc_qos c' = crc_qos c)).
  { case_match eqn:E; [|apply gives_ret; unfold comm_ok; by rewrite P2, P3].
    unfold ParseQos. eapply gives_bind; [apply gives_field|]. intros v Hv. apply gives_ret. unfold comm_ok. cbn.
    rewrite P2, P3. split_and!; [done|by apply in_range_or|done|done|]. intros Et. clear -E Et. by subst. }
  intros c2 ((Q1 & Q2 & Q3) & Q4 & Q5). unfold ParseMaxActiveChannels. eapply gives_bind; [apply gives_field|].
  intros v Hv. apply gives_ret. unfold comm_ok. cbn. split_and!; [done|done|by apply in_range_or| |done].
  intros Ht. by rewrite Q4, P4.
Qed.

Definition transfer_ok (c : TransferConfigDesc) : Prop := 1 <= max_transfer_count_per_batch c <= kMaxTransferCountPerBatch.
Lemma gives_transfer json c target : transfer_ok c ->
  gives (ParseTransferConfig json c target) (fun c' => transfer_ok c' /\ (target = kOnlyServer -> c' = c)).
Proof.
  intros H. unfold ParseTransferConfig. case_match; [|by apply gives_ret].
  eapply gives_bind; [apply gives_require|]. intros [] Ht. eapply gives_bind; [apply gives_call|]. intros b _.
  eapply gives_bind; [apply gives_require|]. intros [] _. eapply gives_bind; [apply gives_require|]. intros [] _.
  eapply gives_bind; [apply gives_number|]. intros v _. eapply gives_bind; [apply gives_require|].
  intros [] Hv. apply negb_true_iff, orb_false_iff in Hv as [H1%Z.ltb_ge H2%Z.ltb_ge]. apply gives_ret.
  split; [done|]. intros Et. clear -Ht Et. by subst.
Qed.

Lemma gives_fabric json c : in_range 1 1024 (max_capacity c) -> in_range 0 1024 (start_address c) ->
  in_range 1 8 (task_stream_num c) ->
  gives (ParseUbMemoryConfig json c) (fun c' => in_range 1 1024 (max_capacity c') /\ in_range 0 1024 (start_address c') /\
    in_range 1 8 (task_stream_num c')).
Proof.
  intros H1 H2 H3. unfold ParseUbMemoryConfig. eapply gives_bind; [apply gives_field|]. intros v1 V1.
  eapply gives_bind; [apply gives_field|]. intros v2 V2. eapply gives_bind; [apply gives_field|]. intros v3 V3.
  eapply gives_bind with (P := fun _ => True).
  { unfold ParseUbMemBoolField. repeat case_match; by first [apply gives_ret|apply gives_fail]. }
  intros b _. apply gives_ret. cbn. split_and!; by apply in_range_or.
Qed.

Lemma gives_string json key c : gives (ParseStringField json key c) (fun _ => True).
Proof. unfold ParseStringField. repeat case_match; by first [apply gives_ret|apply gives_fail]. Qed.
Lemma gives_bool json key c : gives (ParseBoolField json key c) (fun _ => True).
Proof.
  unfold ParseBoolField. repeat case_match; try by first [apply gives_ret|apply gives_fail].
  eapply gives_bind; [apply gives_require|]. intros. by apply gives_ret.
Qed.

Lemma str_empty_spec (x : string) : negb (str_empty x) = true -> x <> EmptyString.
Proof. by destruct x. Qed.
Lemma gives_validate t : gives (ValidateTlsConfig t) (fun _ => tls_ok t).
Proof.
  unfold ValidateTlsConfig. destruct (tls_configured t) eqn:E; cbn [negb]; [|apply gives_ret; unfold tls_ok; congruence].
  eapply gives_bind; [apply gives_require|]. intros [] [H1%str_empty_spec H2%str_empty_spec]%andb_true_iff.
  destruct (verify_peer t) eqn:Ev; [|apply gives_ret; unfold tls_ok; rewrite Ev; done].
  intros s h. eapply wp_mono; [apply gives_require|]. intros [e|[]] s' h' [-> H3]; [done|]. split; [done|]. apply str_empty_spec in H3. by intros _.
Qed.

Lemma gives_tls json : gives (ParseTlsConfig json) tls_ok.
Proof.
  unfold ParseTlsConfig. do 4 (eapply gives_bind; [apply gives_string|]; intros [? ?] _).
  do 2 (eapply gives_bind; [apply gives_bool|]; intros [? ?] _).
  eapply gives_bind; [apply gives_validate|]. intros [] H. by apply gives_ret.
Qed.

Lemma gives_Parse (config_str : option (list Z)) (result : GlobalConfig) (target : ParseTarget) : config_ok result ->
  gives (GlobalConfig_Parse config_str result target) (fun c => config_ok c /\ untouched target result c).
Proof.
  intros Hok. assert (Hr : config_ok result /\ untouched target result result) by (split; [done|by split]).
  unfold GlobalConfig_Parse. destruct config_str as [[|b text]|]; [by apply gives_ret| |by apply gives_ret].
  eapply gives_bind; [apply gives_call|]. intros [[]|] _; try apply gives_fail. destruct Hok.
  eapply gives_bind; [by apply gives_comm|]. intros c1 ((? & ? & ?) & U1 & U2).
  eapply gives_bind; [by apply gives_transfer|]. intros c2 (? & U3).
  eapply gives_bind; [by apply gives_fabric|]. intros c3 (? & ? & ?).
  eapply gives_bind; [apply gives_tls|]. intros c4 ?. apply gives_ret. split; [by constructor|].
  split; cbn; intros Ht; [by apply U1|]. split; [by apply U2|by apply U3].
Qed.
(** C39: a configuration that the parser accepts is in range: ports, channel counts,
    the number of transfers in a batch (at least one: the batches of the client are not
    empty), the fields of the fabric memory and the pairing of TLS files; the client's
    parser leaves the port alone, the server's leaves the QoS and the batches alone; and
    every refusal, an exception included, is PARAM_INVALID. *)
Theorem config_in_range (config_str : option (list Z)) (result : GlobalConfig) (target : ParseTarget) s h :
  config_ok result ->
  wp (GlobalConfig_Parse config_str result target) (fun o _ _ =>
    match o with inr c => config_ok c /\ untouched target result c | inl e => e = PARAM_INVALID end) s h.
Proof. intros Hok. eapply wp_mono; [by apply gives_Parse|]. by intros o s' h' [_ H]. Qed.
End Bounds.

(** ** A configuration that is read, and one that is refused *)
Definition json_of (keep : Z -> bool) (j : Json) : option Z :=
  match j with JInt z => if keep z then Some z else None | _ => None end.
#[export] Instance ref_nlohmann : Nlohmann := {|
  json_uint32 := json_of (fun z => (0 <=? z) && (z <? 2 ^ 32));
  json_uint64 := json_of (fun z => (0 <=? z) && (z <? 2 ^ 64));
  json_int32 := json_of (fun z => (- 2 ^ 31 <=? z) && (z <? 2 ^ 31));
  json_int64 := json_of is_int64
|}.
(** The reference system, where every text is the given JSON. *)
Definition config_env (j : Json) : Environment NetOp := fun T op =>
  match op in NetOp T return (History NetOp -> T) -> History NetOp -> T with
  | Cli op => match op in CliOp T return (History NetOp -> T) -> History NetOp -> T with
              | JsonParse _ => fun _ _ => Some j
              | _ => fun reply => reply
              end
  | _ => fun reply => reply
  end (net_ref false false [] T op).
Definition sample_config (port : Z) : Json := JObject
  [("comm_resource_config.listen_port"%string, JInt port);
   ("comm_resource_config.qos"%string, JString "7");
   ("transfer_config.max_transfer_count_per_batch"%string, JString "32766");
   ("tls_config.cert_file"%string, JString "cert.pem"); ("tls_config.key_file"%string, JString "key.pem");
   ("tls_config.verify_peer"%string, JString "0")].
Definition read_config (port : Z) : Status + GlobalConfig :=
  match GlobalConfig_Parse (env := config_env (sample_config port)) (S := unit) (Some [123]) GlobalConfig_new kAll tt [] with
  | (Ret c, _, _) => inr c
  | (Fail_ e, _, _) => inl e
  | (Stuck, _, _) => inl 0
  end.

Lemma config_in_range_witness :
  (forall o, o = read_config 65535 -> match o with
     | inr c => config_ok c /\ crc_listen_port (comm_resource_config_ c) = Some 65535 /\
                max_transfer_count_per_batch (transfer_config_ c) = 32766 /\ tls_configured (tls_config_ c) = true
     | inl _ => False end) /\
  read_config 65536 = inl PARAM_INVALID.
Proof.
  split; [|reflexivity]. intros o ->.
  pose proof (@config_in_range _ (config_env (sample_config 65535)) unit (Some [123]) GlobalConfig_new kAll tt [] config_ok_new) as H.
  unfold wp in H. unfold read_config. revert H. vm_compute (GlobalConfig_Parse _ _ _ _ _). intros [H _]. by split_and!.
Defined.
