(* ===== verification/RemoteMem.v ===== *)
(** The list of remote memory that a client asks its server for: the receiving half
    of hixl/cs/mem_msg_handler.cc.

    A descriptor is parsed into the object that the caller passes, so that parsing runs
    on a state: the descriptor being read and the descriptors read before.  The
    exceptions of nlohmann are caught around every use and become PARAM_INVALID. *)

From S2P Require Import Prelude Effects External Wire Hcomm ClientRt Net CtrlConn ConnMsg Endpoint GlobalConfig.

Definition kMaxGetRemoteMemBodySize : Z := 4 * 1024 * 1024.
Definition kMaxGetRemoteMemNum : Z := 4096 + 1.

Definition HixlMemDesc_new : HixlMemDesc := {|
  hmd_mem := {| cm_type := 0; cm_addr := nullptr; cm_size := 0 |}; hmd_is_imported := false; hmd_tag := "";
  hmd_export_desc := nullptr; hmd_export_len := 0; hmd_registered_dev_mem := nullptr |}.
Definition set_mem_tag (mem : CommMem) (tag : string) (d : HixlMemDesc) : HixlMemDesc :=
  {| hmd_mem := mem; hmd_is_imported := hmd_is_imported d; hmd_tag := tag; hmd_export_desc := hmd_export_desc d;
     hmd_export_len := hmd_export_len d; hmd_registered_dev_mem := hmd_registered_dev_mem d |}.
Definition set_dev_mem (x : Z) (d : HixlMemDesc) : HixlMemDesc :=
  {| hmd_mem := hmd_mem d; hmd_is_imported := hmd_is_imported d; hmd_tag := hmd_tag d; hmd_export_desc := hmd_export_desc d;
     hmd_export_len := hmd_export_len d; hmd_registered_dev_mem := x |}.
Definition set_export (desc len : Z) (d : HixlMemDesc) : HixlMemDesc :=
  {| hmd_mem := hmd_mem d; hmd_is_imported := hmd_is_imported d; hmd_tag := hmd_tag d; hmd_export_desc := desc;
     hmd_export_len := len; hmd_registered_dev_mem := hmd_registered_dev_mem d |}.
Definition set_imported (d : HixlMemDesc) : HixlMemDesc :=
  {| hmd_mem := hmd_mem d; hmd_is_imported := true; hmd_tag := hmd_tag d; hmd_export_desc := hmd_export_desc d;
     hmd_export_len := hmd_export_len d; hmd_registered_dev_mem := hmd_registered_dev_mem d |}.

Record Parsing := { ps_desc : HixlMemDesc; ps_done : list HixlMemDesc }.
Definition set_desc (d : HixlMemDesc) (p : Parsing) : Parsing := {| ps_desc := d; ps_done := ps_done p |}.
Definition set_done (l : list HixlMemDesc) (p : Parsing) : Parsing := {| ps_desc := ps_desc p; ps_done := l |}.

Section RemoteMem.
Context {nl : Nlohmann} {env : Environment NetOp} `{Sec : Securec}.

(** A conversion that may throw. *)
Definition or_throw {S A} (o : option A) : M NetOp S A := match o with Some a => ret a | None => fail PARAM_INVALID end.
Definition need_field {S} (key : string) (j : Json) : M NetOp S Json := or_throw (json_find key j).
Definition get_string {S} (j : Json) : M NetOp S string := match j with JString s => ret s | _ => fail PARAM_INVALID end.

(** ** One descriptor *)
Definition ParseMemObject {S} (j_mem : Json) : M NetOp S CommMem :=
  require (json_contains "type" j_mem && json_contains "addr" j_mem && json_contains "size" j_mem) PARAM_INVALID ;;
  let* j_type := need_field "type" j_mem in
  let* type := or_throw (json_uint32 j_type) in
  let* j_addr := need_field "addr" j_mem in
  let* addr := or_throw (json_uint64 j_addr) in
  let* j_size := need_field "size" j_mem in
  let* size := or_throw (json_uint64 j_size) in
  ret {| cm_type := type; cm_addr := addr; cm_size := size |}.

Definition export_byte {S} (j : Json) : M NetOp S Z :=
  require (match j with JInt _ => true | _ => false end) PARAM_INVALID ;;
  let* v := or_throw (json_int32 j) in
  require ((0 <=? v) && (v <=? 255)) PARAM_INVALID ;;
  ret v.
Fixpoint export_bytes_of {S} (l : list Json) : M NetOp S (list Z) :=
  match l with
  | [] => ret []
  | j :: l => let* v := export_byte j in let* rest := export_bytes_of l in ret (v :: rest)
  end.

Definition FillExportDescFromJsonField (j_export : Json) : M NetOp HixlMemDesc unit :=
  let* desc := get in
  (if negb (is_null (hmd_export_desc desc)) then
     call (Hc (HostFree (hmd_export_desc desc))) ;; modify (set_export nullptr (hmd_export_len desc))
   else ret tt) ;;
  modify (fun d => set_export (hmd_export_desc d) 0 d) ;;
  match j_export with
  | JArray [] => ret tt
  | JArray l =>
      let n := Z.of_nat (length l) in
      let* buf := call (Cli (Malloc n)) in
      require (negb (is_null buf)) FAILED ;;
      on_fail
        (let* bytes := export_bytes_of l in
         call (Cli (StoreBytes buf bytes)) ;;
         modify (set_export buf (u32 n)))
        (call (Hc (HostFree buf)))
  | _ => fail PARAM_INVALID
  end.

Definition ParseOneMemDesc (item : Json) : M NetOp HixlMemDesc unit :=
  require (json_contains "tag" item && json_contains "export_desc" item && json_contains "mem" item &&
           match json_find "mem" item with Some (JObject _) => true | _ => false end) PARAM_INVALID ;;
  let* j_mem := need_field "mem" item in
  let* mem := ParseMemObject j_mem in
  modify (fun d => set_mem_tag mem (hmd_tag d) d) ;;
  let* j_tag := need_field "tag" item in
  let* tag := get_string j_tag in
  modify (fun d => set_mem_tag (hmd_mem d) tag d) ;;
  (match json_find "registered_dev_mem" item with
   | Some j => let* x := or_throw (json_uint64 j) in modify (set_dev_mem x)
   | None => ret tt
   end) ;;
  let* j_export := need_field "export_desc" item in
  FillExportDescFromJsonField j_export.

(** ** The list *)
Definition free_export {S} (d : HixlMemDesc) : M NetOp S unit :=
  if is_null (hmd_export_desc d) then ret tt else call (Hc (HostFree (hmd_export_desc d))).
(** [FreeExportDesc] of this file. *)
Definition FreeParsedDescs : M NetOp Parsing unit :=
  let* p := get in
  for_each (ps_done p) free_export ;;
  modify (set_done []).

Definition parse_item (item : Json) : M NetOp Parsing unit :=
  modify (set_desc HixlMemDesc_new) ;;
  on_fail
    (zoom (fun p => Some (ps_desc p)) set_desc (fun _ => ParseOneMemDesc item))
    (let* p := get in
     free_export (ps_desc p) ;;
     FreeParsedDescs) ;;
  modify (fun p => set_done (ps_done p ++ [ps_desc p]) p).

Definition ParseMemDescsArray (arr : list Json) : M NetOp Parsing unit :=
  let mem_num := u32 (Z.of_nat (length arr)) in
  require (mem_num <=? kMaxGetRemoteMemNum) PARAM_INVALID ;;
  modify (set_done []) ;;
  for_each (take (Z.to_nat mem_num) arr) parse_item.

Definition ParseResultAndGetArray {S} (j : Json) : M NetOp S (list Json) :=
  require (json_contains "result" j) PARAM_INVALID ;;
  let* j_result := need_field "result" j in
  let* result := or_throw (json_uint32 j_result) in
  require (result =? SUCCESS) result ;;
  match json_find "mem_descs" j with
  | Some (JArray l) => ret l
  | _ => fail PARAM_INVALID
  end.

Definition ParseGetRemoteMemJson (text : list Z) : M NetOp Parsing unit :=
  let* parsed := call (Cli (JsonParse text)) in
  let* j := or_throw parsed in
  let* arr := ParseResultAndGetArray j in
  ParseMemDescsArray arr.

(** ** The message *)
Definition RecvAndCheckHeader (timeout_ms : Z) : M NetOp Conn Z :=
  let* bs := CtrlMsgPlugin_Recv (Z.of_nat sizeof_CtrlMsgHeader) timeout_ms in
  let header := CtrlMsgHeader_of bs in
  require (magic header =? kMagicNumber) PARAM_INVALID ;;
  require ((Z.of_nat sizeof_CtrlMsgType <? body_size header) && (body_size header <=? kMaxGetRemoteMemBodySize)) PARAM_INVALID ;;
  ret (body_size header).

Definition ExtractTypeAndJsonPtr (body : list Z) : M NetOp Conn (list Z) :=
  let* bytes := copy_struct body 0 sizeof_CtrlMsgType in
  require (CtrlMsgType_of bytes =? kGetRemoteMemResp) PARAM_INVALID ;;
  ret (drop sizeof_CtrlMsgType body).

Definition RecvGetRemoteMemResponse (timeout_ms : Z) : M NetOp Conn (list HixlMemDesc) :=
  let* size := RecvAndCheckHeader timeout_ms in
  let* body := RecvBody size timeout_ms in
  let* text := ExtractTypeAndJsonPtr body in
  zoom (fun _ => Some {| ps_desc := HixlMemDesc_new; ps_done := [] |}) (fun _ c => c)
    (fun _ => ParseGetRemoteMemJson text ;; let* p := get in ret (ps_done p)).
End RemoteMem.
