(* ===== verification/ClientState.v ===== *)
(** The state of a client of the CS layer (hixl/cs/hixl_cs_client.h), the parts of it
    that the operations run on, and the guards of the runtime context.

    [mutex_] makes the public methods of a client exclude each other, so that an
    operation is one computation.  An object on the C++ heap is known by its address
    ([complete_handles], [device_handles]); a [shared_ptr] to a slot by the number of its
    object, which counts its references; a pointer to a buffer of [remote_tag_storage_]
    as its index.

    The file begins with the functional update of one field of a record, [r <| f := v |>]
    and [r <| f ::= g |>]: a record declares its expansion into fields ([Eta]), the update
    is found by the instance search, which rebuilds the expansion around the new field. *)

From S2P Require Import Prelude StdMap Effects External Runtime Wire Hcomm MemStore TransferPool ClientRt Net CtrlConn HostRegister Endpoint GlobalConfig RemoteMem.

(** * Record update *)
Class Eta (R : Type) := eta : R -> R.
Class Field {R E : Type} (getter : R -> E) := update : (E -> E) -> R -> R.
Arguments update {R E} getter {_} _ _ : assert.

Ltac build_update getter :=
  lazymatch type of getter with
  | ?R -> ?E =>
      exact (fun (g : E -> E) (r : R) => ltac:(
        let b := eval hnf in (eta r) in
        lazymatch b with context C [getter r] => let b' := context C [g (getter r)] in exact b' end))
  end.
#[export] Hint Extern 0 (Field ?getter) => build_update getter : typeclass_instances.

Notation "r <| f := v |>" := (update f (fun _ => v) r) (at level 1, left associativity, f at next level, v at level 99).
Notation "r <| f ::= g |>" := (update f g r) (at level 1, left associativity, f at next level, g at level 99).

(** * Constants *)
Definition kDefaultPoolSize : Z := 128.
Definition kDeviceCompleteMagic : Z := 0x55425548.
Definition kRoceCompleteMagic : Z := 0x524F4345.
Definition kUbMemCompleteMagic : Z := 0x5542554D.
Definition kTransFlagNameHost : string := "_hixl_builtin_host_trans_flag".
Definition kTransFlagNameDevice : string := "_hixl_builtin_dev_trans_flag".
Definition kFlagDoneValue : Z := 1.
Definition kFlagSizeBytes : Z := 8.
Definition kCustomTimeoutMs : Z := 1800.
Definition kMaxKernelBatchSize : Z := 128.
Definition kNotifyDefaultWaitTimeS : Z := 27 * 68.
Definition kFlagQueueSize : nat := 4096.
Definition kRdmaTrafficClass : Z := 132.
Definition kRdmaServiceLevel : Z := 4.
Definition kRdmaRetryCntDefault : Z := 7.
Definition kRdmaRetryIntervalDefault : Z := 20.
Definition sizeof_CompleteHandleInfo : Z := 16.
Definition sizeof_DeviceCompleteHandle : Z := 40.
Definition sizeof_HixlOneSideOpDesc : Z := 24.

(** enum HixlCompleteStatus *)
Definition HIXL_COMPLETE_STATUS_WAITING : Z := 0.
Definition HIXL_COMPLETE_STATUS_COMPLETED : Z := 1.
Definition HIXL_COMPLETE_STATUS_FAILED : Z := 3.

(** * State *)
Record CompleteHandleInfo := { ch_magic : Z; ch_flag_index : Z; ch_flag_address : Z }.

Record DeviceCompleteHandle := {
  dh_magic : Z;
  dh_shared_slot : option nat;
  dh_host_flag : Z;
  dh_dev_op_desc_buf : Z
}.
#[export] Instance DeviceCompleteHandle_eta : Eta DeviceCompleteHandle := fun dh =>
  {| dh_magic := dh_magic dh; dh_shared_slot := dh_shared_slot dh; dh_host_flag := dh_host_flag dh;
     dh_dev_op_desc_buf := dh_dev_op_desc_buf dh |}.

(** The object behind a [shared_ptr<SlotHandle>]. *)
Record SharedSlot := { ss_slot : SlotHandle; ss_use_count : nat }.

(** What [Create] and [Connect] fix. *)
Record Settings := {
  server_ip_ : string;
  server_port_ : Z;
  remote_endpoint_ : EndpointDesc;
  tc_ : Z;
  sl_ : Z;
  retry_cnt_ : Z;
  retry_interval_ : Z;
  global_config_ : GlobalConfig;
  transfer_supported_ : bool;
  tls_initialized_ : bool;
  is_connected_ : bool;
  client_channel_handle_ : Z;
  remote_endpoint_handle_ : Z;
  ubmem_engine_ : bool
}.
#[export] Instance Settings_eta : Eta Settings := fun st =>
  {| server_ip_ := server_ip_ st; server_port_ := server_port_ st; remote_endpoint_ := remote_endpoint_ st;
     tc_ := tc_ st; sl_ := sl_ st; retry_cnt_ := retry_cnt_ st; retry_interval_ := retry_interval_ st;
     global_config_ := global_config_ st; transfer_supported_ := transfer_supported_ st;
     tls_initialized_ := tls_initialized_ st; is_connected_ := is_connected_ st;
     client_channel_handle_ := client_channel_handle_ st;
     remote_endpoint_handle_ := remote_endpoint_handle_ st; ubmem_engine_ := ubmem_engine_ st |}.

(** Transfers started by the host: a flag for each, the free flags in
    [available_indices_] below [top_index_], and the handles by flag. *)
Record FlagQueue := {
  flag_queue_ : Z;
  available_indices_ : list Z;
  top_index_ : nat;
  live_handles_ : list Z;
  complete_handles : list (Z * CompleteHandleInfo)
}.
#[export] Instance FlagQueue_eta : Eta FlagQueue := fun fq =>
  {| flag_queue_ := flag_queue_ fq; available_indices_ := available_indices_ fq; top_index_ := top_index_ fq;
     live_handles_ := live_handles_ fq; complete_handles := complete_handles fq |}.

(** The memory of the server. *)
Record RemoteMems := {
  tag_mem_descs_ : gmap string CommMem;
  remote_mems_out_ : list CommMem;
  remote_tag_storage_ : list (list Z);
  remote_tag_ptrs_ : list (option nat);
  recorded_remote_addrs_ : list Z;
  imported_remote_bufs_ : list CommMem;
  desc_list_ : list HixlMemDesc;
  device_remote_flag_inited_ : bool;
  device_remote_flag_addr_ : Z;
  device_remote_flag_size_ : Z
}.
#[export] Instance RemoteMems_eta : Eta RemoteMems := fun rm =>
  {| tag_mem_descs_ := tag_mem_descs_ rm; remote_mems_out_ := remote_mems_out_ rm;
     remote_tag_storage_ := remote_tag_storage_ rm; remote_tag_ptrs_ := remote_tag_ptrs_ rm;
     recorded_remote_addrs_ := recorded_remote_addrs_ rm; imported_remote_bufs_ := imported_remote_bufs_ rm;
     desc_list_ := desc_list_ rm; device_remote_flag_inited_ := device_remote_flag_inited_ rm;
     device_remote_flag_addr_ := device_remote_flag_addr_ rm;
     device_remote_flag_size_ := device_remote_flag_size_ rm |}.

(** Transfers run by the device, and the failure that stops them. *)
Record DeviceSide := {
  device_id_ : Z;
  notify_mem_handles_ : list Z;
  pending_device_handles_ : list Z;
  device_handles : list (Z * DeviceCompleteHandle);
  active_slot_ : option nat;
  shared_slots : gmap nat SharedSlot;
  next_slot : nat;
  transfer_failure_latched_ : bool;
  abort_active_slot_ : bool;
  transfer_failure_status_ : Status
}.
#[export] Instance DeviceSide_eta : Eta DeviceSide := fun dv =>
  {| device_id_ := device_id_ dv; notify_mem_handles_ := notify_mem_handles_ dv;
     pending_device_handles_ := pending_device_handles_ dv; device_handles := device_handles dv;
     active_slot_ := active_slot_ dv; shared_slots := shared_slots dv; next_slot := next_slot dv;
     transfer_failure_latched_ := transfer_failure_latched_ dv; abort_active_slot_ := abort_active_slot_ dv;
     transfer_failure_status_ := transfer_failure_status_ dv |}.

(** The client, with the process-wide proxies of host memory. *)
Record HixlCSClient := {
  cl_settings : Settings;
  cl_flags : FlagQueue;
  cl_remote : RemoteMems;
  cl_device : DeviceSide;
  local_endpoint_ : option Endpoint;
  cl_px : Proxies;
  connection_ : option Conn;
  mem_store_ : HixlMemStore
}.
#[export] Instance HixlCSClient_eta : Eta HixlCSClient := fun cl =>
  {| cl_settings := cl_settings cl; cl_flags := cl_flags cl; cl_remote := cl_remote cl;
     cl_device := cl_device cl; local_endpoint_ := local_endpoint_ cl; cl_px := cl_px cl;
     connection_ := connection_ cl; mem_store_ := mem_store_ cl |}.

Definition no_endpoint : EndpointDesc :=
  {| ed_protocol := 0; ed_addr_type := 0; ed_addr := replicate 36 0; ed_locType := 0; ed_loc := replicate 60 0;
     ed_raws := replicate 52 0 |}.

(** [HixlCSClient()]; [px] is what the process has mapped. *)
Definition HixlCSClient_new (px : Proxies) : HixlCSClient := {|
  cl_settings := {|
    server_ip_ := ""; server_port_ := 0; remote_endpoint_ := no_endpoint; tc_ := kRdmaTrafficClass;
    sl_ := kRdmaServiceLevel; retry_cnt_ := kRdmaRetryCntDefault; retry_interval_ := kRdmaRetryIntervalDefault;
    global_config_ := GlobalConfig_new; transfer_supported_ := false; tls_initialized_ := false; is_connected_ := false;
    client_channel_handle_ := 0; remote_endpoint_handle_ := 0; ubmem_engine_ := false |};
  cl_flags := {|
    flag_queue_ := nullptr; available_indices_ := Z.of_nat <$> seq 0 kFlagQueueSize; top_index_ := 0;
    live_handles_ := replicate kFlagQueueSize nullptr; complete_handles := [] |};
  cl_remote := {|
    tag_mem_descs_ := ∅; remote_mems_out_ := []; remote_tag_storage_ := []; remote_tag_ptrs_ := [];
    recorded_remote_addrs_ := []; imported_remote_bufs_ := []; desc_list_ := []; device_remote_flag_inited_ := false;
    device_remote_flag_addr_ := nullptr; device_remote_flag_size_ := 0 |};
  cl_device := {|
    device_id_ := -1; notify_mem_handles_ := []; pending_device_handles_ := []; device_handles := [];
    active_slot_ := None; shared_slots := ∅; next_slot := 0; transfer_failure_latched_ := false;
    abort_active_slot_ := false; transfer_failure_status_ := SUCCESS |};
  local_endpoint_ := None; cl_px := px; connection_ := None; mem_store_ := mkMemStore [] []
|}.

Section Access.
Context {env : Environment NetOp}.
Let C := M NetOp HixlCSClient.

(** ** The parts of the client *)
Definition on_settings {A} (m : M NetOp Settings A) : C A :=
  zoom (fun s => Some (cl_settings s)) (fun x s => s <| cl_settings := x |>) (fun _ => m).
Definition on_flags {A} (m : M NetOp FlagQueue A) : C A :=
  zoom (fun s => Some (cl_flags s)) (fun x s => s <| cl_flags := x |>) (fun _ => m).
Definition on_remote {A} (m : M NetOp RemoteMems A) : C A :=
  zoom (fun s => Some (cl_remote s)) (fun x s => s <| cl_remote := x |>) (fun _ => m).
Definition on_device {A} (m : M NetOp DeviceSide A) : C A :=
  zoom (fun s => Some (cl_device s)) (fun x s => s <| cl_device := x |>) (fun _ => m).
(** A method of the endpoint, or of the connection: there has to be one. *)
Definition on_endpoint {A} (m : M NetOp EpState A) : C A :=
  zoom (fun s => (fun e => {| es_ep := e; es_px := cl_px s |}) <$> local_endpoint_ s)
       (fun t s => s <| local_endpoint_ := Some (es_ep t) |> <| cl_px := es_px t |>) (fun _ => m).
Definition on_connection {A} (m : M NetOp Conn A) : C A :=
  zoom connection_ (fun c s => s <| connection_ := Some c |>) (fun _ => m).
(** A method of the store of registered memory. *)
Definition on_store (f : HixlMemStore -> Status * HixlMemStore) : C unit :=
  let* s := get in
  let '(st, ms) := f (mem_store_ s) in
  modify (fun s => s <| mem_store_ := ms |>) ;;
  require (st =? SUCCESS) st.

Definition the_endpoint : C Endpoint :=
  let* s := get in match local_endpoint_ s with Some e => ret e | None => stuck end.
(** HIXL_CHECK_NOTNULL(local_endpoint_). *)
Definition check_endpoint : C unit :=
  let* s := get in match local_endpoint_ s with Some _ => ret tt | None => fail PARAM_INVALID end.

(** A null argument. *)
Definition not_null {S A} (o : option A) : M NetOp S A := match o with Some a => ret a | None => fail PARAM_INVALID end.
(** A call whose status is only logged. *)
Definition log_only {S A} (m : M NetOp S A) : M NetOp S unit := let* _ := attempt m in ret tt.

(** ** [TemporaryRtContext]: what it restores, and restoring it *)
Definition enter_context {S} (context : Z) : M NetOp S Z :=
  let* r := call (Hc AclGetCurrentContext) in
  let '(e, ctx) := r in
  let prev_context_ := if e =? 0 then ctx else nullptr in
  (if negb (is_null context) && negb (prev_context_ =? context)
   then let* _ := call (Hc (AclSetCurrentContext context)) in ret tt else ret tt) ;;
  ret prev_context_.
Definition leave_context {S} (prev_context_ : Z) : M NetOp S unit :=
  if is_null prev_context_ then ret tt else let* _ := call (Hc (AclSetCurrentContext prev_context_)) in ret tt.
Definition in_context {S A} (context : Z) (m : M NetOp S A) : M NetOp S A :=
  let* prev := enter_context context in
  finally m (leave_context prev).

Definition GetContextGuard : C (option Z) :=
  let* s := get in
  let dev := device_id_ (cl_device s) in
  if dev <? 0 then ret None else
  let* pool := call (Hc (PoolGetInstance dev)) in
  if negb pool then ret None else
  let* ctx := call (Hc (PoolGetContext dev)) in
  if is_null ctx then ret None else
  let* made := call NetNew in
  if negb made then ret None else
  let* prev := enter_context ctx in ret (Some prev).
Definition drop_guard (g : option Z) : C unit := match g with Some prev => leave_context prev | None => ret tt end.
Definition with_context {A} (m : C A) : C A :=
  let* g := GetContextGuard in
  finally m (drop_guard g).

(** ** The latch of failures *)
Definition ShouldLatchTransferFailure (st : Status) : bool := (st =? FAILED) || (st =? TIMEOUT).
Definition LatchTransferFailure (st : Status) : M NetOp DeviceSide unit :=
  let* d := get in
  if transfer_failure_latched_ d then ret tt else
  modify (fun d => d <| transfer_failure_latched_ := true |> <| transfer_failure_status_ := st |>).
(** Around a transfer: a failure is latched and returned. *)
Definition LatchTransferFailureIfNeeded {A} (m : C A) : C A :=
  let* r := attempt m in
  match r with
  | inr a => ret a
  | inl e =>
      (if negb (e =? SUCCESS) && ShouldLatchTransferFailure e then on_device (LatchTransferFailure e) else ret tt) ;;
      fail e
  end.
End Access.
