(* ===== verification/ClientLedger.v ===== *)
(** A resource logic for the client of the CS layer.

    [lwp m Q s own W]: started at [s], with the resources [own] accounted for and the
    connections [W] owning what is open, [m] ends, and the outcome, the new state, the
    new resources and connections satisfy [Q].  The history is hidden; calls that neither
    resources nor connections notice are calm. *)

From S2P Require Import Prelude Effects External Runtime Wire Hcomm TransferPool ClientRt Net CtrlConn CtrlConnSpec CtrlConnSafety HostRegister Endpoint GlobalConfig MemStore RemoteMem HcResources EndpointSafety ServerCalls ClientState.

Section Ledger.
Context {codes : AclCodes} {again : HcclAgain}.

Definition calm (e : Event NetOp) : Prop := neutral e /\ silent e.
(** The pool of a slot exists. *)
Definition pools (own : list HcRes) (h : History NetOp) : Prop :=
  forall dev i, RSlot dev i ∈ own -> Ev (Hc (PoolGetInstance dev)) true ∈ h.
Record ledger (own : list HcRes) (W : list Conn) (h : History NetOp) : Prop := {
  l_acct : acct own h;
  l_conns : CtrlConnSafety.owned W h;
  l_pools : pools own h
}.

Lemma ledger_nil : ledger [] [] [].
Proof. constructor; [apply acct_nil|split_and!; try done; repeat constructor|by intros ?? ?%elem_of_nil]. Qed.

Lemma ledger_perm own own' W h : own ≡ₚ own' -> ledger own W h -> ledger own' W h.
Proof.
  intros E [H1 H2 H3]. constructor; [by eapply acct_perm|done|]. intros dev i Hi. apply (H3 dev i). by rewrite E.
Qed.

Lemma pools_more own own' t h : pools own h -> (forall r, r ∈ own' -> r ∈ own) -> pools own' (t ++ h).
Proof. intros H Hs dev i Hi. apply elem_of_app. right. by apply (H dev i), Hs. Qed.
Lemma pools_cons own own' e h : pools own h -> (forall r, r ∈ own' -> r ∈ own) -> pools own' (e :: h).
Proof. apply (pools_more own own' [e]). Qed.

Lemma ledger_calm t own W h : Forall calm t -> ledger own W h -> ledger own W (t ++ h).
Proof.
  intros [Ht1 Ht2]%Forall_and [H1 H2 H3]. constructor; [by apply acct_quiet|by apply owned_silent|by eapply pools_more].
Qed.

Section Logic.
Context {env : Environment NetOp} {S : Type}.
Implicit Types (h : History NetOp) (own : list HcRes) (W : list Conn) (s : S).

Definition lwp {A} (m : M NetOp S A) (Q : Status + A -> S -> list HcRes -> list Conn -> Prop) s own W : Prop :=
  forall h, ledger own W h -> wp m (fun o s' h' => exists own' W', ledger own' W' h' /\ Q o s' own' W') s h.

Lemma lwp_mono {A} (m : M NetOp S A) (Q Q' : Status + A -> S -> list HcRes -> list Conn -> Prop) s own W :
  lwp m Q s own W -> (forall o s' own' W', Q o s' own' W' -> Q' o s' own' W') -> lwp m Q' s own W.
Proof. intros H HQ h Hl. eapply wp_mono; [by apply H|]. intros o s' h' (own' & W' & Hl' & H'). eauto. Qed.
Lemma lwp_perm {A} (m : M NetOp S A) Q s own own' W : own ≡ₚ own' -> lwp m Q s own' W -> lwp m Q s own W.
Proof. intros E H h Hl. apply H. by eapply ledger_perm. Qed.

Lemma lwp_ret {A} (a : A) Q s own W : Q (inr a) s own W -> lwp (ret a) Q s own W.
Proof. intros H h Hl. apply wp_ret. eauto. Qed.
Lemma lwp_fail {A} e (Q : Status + A -> _) s own W : Q (inl e) s own W -> lwp (fail e) Q s own W.
Proof. intros H h Hl. apply wp_fail. eauto. Qed.
Lemma lwp_get Q s own W : Q (inr s) s own W -> lwp (get : M NetOp S S) Q s own W.
Proof. intros H h Hl. apply wp_get. eauto. Qed.
Lemma lwp_modify f Q s own W : Q (inr tt) (f s) own W -> lwp (modify f : M NetOp S unit) Q s own W.
Proof. intros H h Hl. apply wp_modify. eauto. Qed.
Lemma lwp_bind {A B} (m : M NetOp S A) (k : A -> M NetOp S B) Q s own W :
  lwp m (fun o s' own' W' => match o with inr a => lwp (k a) Q s' own' W' | inl e => Q (inl e) s' own' W' end) s own W ->
  lwp (bind m k) Q s own W.
Proof.
  intros H h Hl. apply wp_bind. eapply wp_mono; [by apply H|]. intros [e|a] s' h' (own' & W' & Hl' & HQ); [eauto|].
  by apply HQ.
Qed.
Lemma lwp_require b e Q s own W :
  (b = true -> Q (inr tt) s own W) -> (b = false -> Q (inl e) s own W) -> lwp (require b e : M NetOp S unit) Q s own W.
Proof. intros H1 H2. destruct b; cbn [require]; [apply lwp_ret|apply lwp_fail]; auto. Qed.
Lemma lwp_attempt {A} (m : M NetOp S A) Q s own W :
  lwp m (fun o s' own' W' => Q (inr o) s' own' W') s own W -> lwp (attempt m) Q s own W.
Proof. intros H h Hl. apply wp_attempt. by apply H. Qed.
Lemma lwp_finally {A} (m : M NetOp S A) f Q s own W :
  lwp m (fun o s' own' W' => lwp f (fun _ s'' own'' W'' => Q o s'' own'' W'') s' own' W') s own W ->
  lwp (finally m f) Q s own W.
Proof.
  intros H h Hl. apply wp_finally. eapply wp_mono; [by apply H|]. intros o s' h' (own' & W' & Hl' & HQ). by apply HQ.
Qed.
Lemma lwp_on_fail {A} (m : M NetOp S A) f Q s own W :
  lwp m (fun o s' own' W' => match o with
    | inr a => Q (inr a) s' own' W'
    | inl e => lwp f (fun _ s'' own'' W'' => Q (inl e) s'' own'' W'') s' own' W'
    end) s own W -> lwp (on_fail m f) Q s own W.
Proof.
  intros H h Hl. apply wp_on_fail. eapply wp_mono; [by apply H|]. intros [e|a] s' h' (own' & W' & Hl' & HQ); [by apply HQ|eauto].
Qed.
Lemma lwp_for_each {A} (l : list A) (m : A -> M NetOp S unit) (I : S -> list HcRes -> list Conn -> Prop)
    (X : Status -> S -> list HcRes -> list Conn -> Prop) s own W :
  I s own W ->
  (forall a s' own' W', a ∈ l -> I s' own' W' ->
     lwp (m a) (fun o s'' own'' W'' => match o with inr _ => I s'' own'' W'' | inl e => X e s'' own'' W'' end) s' own' W') ->
  lwp (for_each l m) (fun o s'' own'' W'' => match o with inr _ => I s'' own'' W'' | inl e => X e s'' own'' W'' end) s own W.
Proof.
  revert s own W. induction l as [|a l IH]; intros s own W Hi Hm; cbn [for_each]; [by apply lwp_ret|].
  apply lwp_bind. eapply lwp_mono; [apply Hm; [by left|done]|]. intros [e|[]] s' own' W' H; [done|].
  apply IH; [done|]. intros a' s'' own'' W'' Ha. apply Hm. by right.
Qed.

Lemma lwp_loop {A B} (body : A -> M NetOp S (A + B)) (I : Z -> A -> S -> list HcRes -> list Conn -> Prop)
    (Q : Status + B -> S -> list HcRes -> list Conn -> Prop) p n a s own W :
  (forall n a s own W, I n a s own W -> 0 <= n) ->
  (forall n a s own W, I n a s own W -> lwp (body a) (fun o s' own' W' => match o with
     | inl e => Q (inl e) s' own' W'
     | inr (inr b) => Q (inr b) s' own' W'
     | inr (inl a') => exists n', n' < n /\ I n' a' s' own' W'
     end) s own W) ->
  n < Z.pos p -> I n a s own W -> lwp (loop p body a) Q s own W.
Proof.
  intros Hn Hb Hp HI h Hl.
  apply (wp_loop body (fun n a s h => exists own W, ledger own W h /\ I n a s own W)) with (n := n); [| |done|by eauto].
  - intros m b s' h' (own' & W' & _ & H). by eapply Hn.
  - intros m b s' h' (own' & W' & Hl' & H). eapply wp_mono; [by apply (Hb _ _ _ _ _ H)|].
    intros [e|[b'|c]] s2 h2 (own2 & W2 & Hl2 & HQ); [by eauto| |by eauto].
    destruct HQ as (m' & Hm & HI'). exists m'. split; [done|]. by exists own2, W2.
Qed.

(** ** Calls *)
Lemma lwp_calm {T} (op : NetOp T) Q s own W :
  (forall r, calm (Ev op r)) -> (forall r, Q (inr r) s own W) -> lwp (call op) Q s own W.
Proof.
  intros Hc HQ h Hl. apply wp_call. intros r _. exists own, W. split; [|done].
  apply (ledger_calm [Ev op r]); [by constructor|done].
Qed.

(** A block of them, with what is known of its runs. *)
Lemma lwp_quiet {A} (m : M NetOp S A) (P : Status + A -> S -> Prop) Q s own W :
  emits calm m -> (forall h, wp m (fun o s' _ => P o s') s h) -> (forall o s', P o s' -> Q o s' own W) -> lwp m Q s own W.
Proof.
  intros He Hw HQ h Hl. eapply wp_mono; [by apply wp_emits|]. intros o s' h' [HP (t & -> & Ht)].
  exists own, W. split; [by apply ledger_calm|by apply HQ].
Qed.

Lemma lwp_use {T} (op : NetOp T) r Q s own W :
  (forall x, silent (Ev op x) /\ obtains (Ev op x) = None /\ releases (Ev op x) = None /\ hc_needs (Ev op x) = Some r) ->
  r ∈ own -> strong r = true -> (forall x, Q (inr x) s own W) -> lwp (call op) Q s own W.
Proof.
  intros Hop Hr Hs HQ h Hl. apply wp_call. intros x _. exists own, W. split; [|done].
  destruct (Hop x) as (S1 & E1 & E2 & E3). destruct Hl as [H1 H2 H3]. constructor.
  - apply acct_neutral; [done|unfold needs_own; by rewrite E3|done|done].
  - by apply (owned_silent W [_]); [constructor|].
  - by eapply pools_cons.
Qed.

Lemma lwp_give {T} (op : NetOp T) r Q s own W :
  (forall x, silent (Ev op x) /\ obtains (Ev op x) = None /\ hc_needs (Ev op x) = Some r /\
             exists g, releases (Ev op x) = Some (r, g)) ->
  strong r = true -> (forall x, Q (inr x) s own W) -> lwp (call op) Q s (r :: own) W.
Proof.
  intros Hop Hs HQ h Hl. apply wp_call. intros x _. exists own, W. split; [|done].
  destruct (Hop x) as (S1 & E1 & E3 & g & E2). destruct Hl as [H1 H2 H3]. constructor.
  - by eapply (acct_give [] own).
  - by apply (owned_silent W [_]); [constructor|].
  - eapply pools_cons; [done|]. intros. by right.
Qed.

(** What a reply obtains: nothing, or something new. *)
Lemma lwp_take {T} (op : NetOp T) Q s own W :
  (forall x h, x = reply_of T op h -> silent (Ev op x) /\ releases (Ev op x) = None /\ hc_needs (Ev op x) = None /\
     match obtains (Ev op x) with Some r => r ∉ live h | None => True end) ->
  (forall x h r, obtains (Ev op x) = Some r -> pools own h -> pools (r :: own) (Ev op x :: h)) ->
  (forall x, (forall r, obtains (Ev op x) = Some r -> strong r = true -> r ∉ own) ->
     Q (inr x) s (match obtains (Ev op x) with Some r => r :: own | None => own end) W) -> lwp (call op) Q s own W.
Proof.
  intros Hop Hp HQ h Hl. apply wp_call. intros x Hx. destruct (Hop x h Hx) as (S1 & E2 & E3 & E1).
  exists (match obtains (Ev op x) with Some r => r :: own | None => own end), W. destruct Hl as [H1 H2 H3]. split.
  2: { apply HQ. intros r Hr Hs Hin. rewrite Hr in E1. by apply E1, (a_own _ _ H1). } assert (H2' : CtrlConnSafety.owned W (Ev op x :: h)).
  { by apply (owned_silent W [_]); [constructor|]. }
  destruct (obtains (Ev op x)) as [r|] eqn:E; constructor; try done.
  - eapply (acct_take [] own); try done.
  - by apply Hp.
  - apply acct_neutral; [done|unfold needs_own; by rewrite E3|done|done].
  - by eapply pools_cons.
Qed.
End Logic.

Lemma lwp_zoom {env : Environment NetOp} {S T A} (view : S -> option T) upd (m : S -> M NetOp T A) Q s own W t :
  view s = Some t ->
  lwp (m s) (fun o t' own' W' => Q o (upd t' s) own' W') t own W -> lwp (zoom view upd m) Q s own W.
Proof. intros Hv H h Hl. eapply wp_zoom; [done|]. by apply H. Qed.

(** ** The calls that give and take *)
Section Calls.
Context {env : Environment NetOp} {Hhc : HcLaws env} {Hcli : CliLaws env} {S : Type}.
Implicit Types (own : list HcRes) (W : list Conn) (s : S).

Lemma pools_other own r h e : (forall dev i, r <> RSlot dev i) -> pools own h -> pools (r :: own) (e :: h).
Proof.
  intros Hr H dev i [E|Hi]%elem_of_cons; [by destruct (Hr dev i)|]. apply elem_of_cons. right. by apply (H dev i).
Qed.

Definition host_of (p : Z) : list HcRes := if is_null p then [] else [RHost p].
Definition dev_of (p : Z) : list HcRes := if is_null p then [] else [RDev p].
Definition pin_of (p : Z) : list HcRes := if is_null p then [] else [RPin p].
Definition slot_of (slot : SlotHandle) : HcRes := RSlot (h_device_id slot) (h_slot_index slot).

Lemma lwp_Malloc size Q s own W :
  (forall p, (p <> nullptr -> RHost p ∉ own) -> Q (inr p) s (host_of p ++ own) W) -> lwp (call (Cli (Malloc size))) Q s own W.
Proof using Hcli.
  intros HQ. apply lwp_take.
  - intros p h Hp. split_and!; try (by repeat split). cbn [obtains]. destruct (is_null p) eqn:E; [done|].
    destruct (malloc_fresh size h p Hp) as [->|]; done.
  - intros p h r Hr H. cbn [obtains] in Hr. destruct (is_null p); [done|]. injection Hr as <-. by apply pools_other.
  - intros p Hf. unfold host_of in HQ. cbn [obtains] in *. specialize (HQ p). unfold is_null in *.
    destruct (Z.eqb_spec p nullptr); apply HQ; [done|]. intros _. by apply Hf.
Qed.

Lemma lwp_HostFree p Q s own W :
  Q (inr tt) s own W -> lwp (call (Hc (HostFree p))) Q s (RHost p :: own) W.
Proof.
  intros HQ. apply lwp_give; [|done|by intros []]. intros []. split_and!; try (by repeat split). by exists true.
Qed.

Lemma lwp_MallocHost size Q s own W :
  (forall rc p, (rc = 0 -> p <> nullptr) -> Q (inr (rc, p)) s ((if rc =? 0 then [RPin p] else []) ++ own) W) ->
  lwp (call (Cli (AclMallocHost size))) Q s own W.
Proof using Hcli.
  intros HQ.
  assert (H : forall h, (forall p, (0, p) = reply_of _ (Cli (AclMallocHost size)) h -> p <> nullptr /\ RPin p ∉ live h) ->
    ledger own W h -> wp (call (Cli (AclMallocHost size)))
      (fun o s' h' => exists own' W', ledger own' W' h' /\ Q o s' own' W') s h).
  { intros h Hf Hl. apply wp_call. intros [rc p] Hr. destruct (Z.eqb_spec rc 0) as [->|Hn].
    - destruct (Hf p Hr) as [Hp Hfr]. exists (RPin p :: own), W. split; [|by apply (HQ 0 p)]. destruct Hl as [H1 H2 H3]. constructor.
      + by eapply (acct_take [] own).
      + by apply (owned_silent W [_]); [repeat constructor|].
      + by apply pools_other.
    - exists own, W. specialize (HQ rc p). rewrite (proj2 (Z.eqb_neq _ _) Hn) in HQ. split; [|by apply HQ].
      destruct Hl as [H1 H2 H3]. constructor.
      + apply acct_neutral; try done. cbn [obtains]. by rewrite (proj2 (Z.eqb_neq _ _) Hn).
      + by apply (owned_silent W [_]); [repeat constructor|].
      + by eapply pools_cons. }
  intros h Hl. apply H; [apply pin_fresh|done].
Qed.

Lemma lwp_FreeHost p Q s own W :
  (forall rc, Q (inr rc) s own W) -> lwp (call (Cli (AclFreeHost p))) Q s (RPin p :: own) W.
Proof. intros HQ. apply lwp_give; [|done|done]. intros rc. split_and!; try (by repeat split). by eexists. Qed.

(** A failed allocation leaves the null pointer. *)
Lemma lwp_AclMalloc size Q s own W :
  (forall rc p, (rc = 0 -> p <> nullptr) -> Q (inr (rc, p)) s (dev_of p ++ own) W) ->
  lwp (call (Hc (AclMalloc size))) Q s own W.
Proof using Hhc Hcli.
  intros HQ h Hl. apply wp_call. intros [rc p] Hr. destruct (Z.eqb_spec rc 0) as [->|Hn].
  - destruct (dev_fresh size h p Hr) as [Hp Hf]. specialize (HQ 0 p (fun _ => Hp)). unfold dev_of, is_null in HQ.
    rewrite (proj2 (Z.eqb_neq _ _) Hp) in HQ. exists (RDev p :: own), W. split; [|done].
    destruct Hl as [H1 H2 H3]. constructor.
    + eapply (acct_take [] own); try done. cbn [obtains]. unfold is_null. by rewrite (proj2 (Z.eqb_neq _ _) Hp).
    + by apply (owned_silent W [_]); [repeat constructor|].
    + by apply pools_other.
  - pose proof (dev_null size h rc p Hr Hn) as ->. specialize (HQ rc nullptr (fun e => False_ind _ (Hn e))).
    exists own, W. split; [|exact HQ]. destruct Hl as [H1 H2 H3]. constructor.
    + apply acct_neutral; try done. cbn [obtains]. by rewrite (proj2 (Z.eqb_neq _ _) Hn).
    + by apply (owned_silent W [_]); [repeat constructor|].
    + by eapply pools_cons.
Qed.
Lemma lwp_AclFree p Q s own W :
  (forall rc, Q (inr rc) s own W) -> lwp (call (Hc (AclFree p))) Q s (RDev p :: own) W.
Proof. intros HQ. apply lwp_give; [|done|done]. intros rc. split_and!; try (by repeat split). by eexists. Qed.

(** ** The pool *)

(** Acquiring, once the pool was found. *)
Lemma lwp_PoolAcquire {A} dev (k : Status * SlotHandle -> M NetOp S A) Q s own W :
  (forall e, Q (inl e) s own W) ->
  (forall st slot, (st = SUCCESS -> h_device_id slot = dev) ->
     lwp (k (st, slot)) Q s ((if st =? SUCCESS then [slot_of slot] else []) ++ own) W) ->
  lwp (let* pool := call (Hc (PoolGetInstance dev)) in
       require pool PARAM_INVALID ;;
       let* r := call (Cli (PoolAcquire dev)) in k r) Q s own W.
Proof using Hcli.
  intros HE HQ h Hl. apply wp_bind, wp_call. intros [] _; cbn [require].
  2: { apply wp_bind, wp_fail. exists own, W. split; [apply (ledger_calm [_]); [repeat constructor|done]|apply HE]. }
  apply wp_bind, wp_ret, wp_bind, wp_call. intros [st slot] Hr. set (h1 := _ :: h) in *.
  assert (Hl1 : ledger own W h1) by (apply (ledger_calm [_]); [repeat constructor|done]).
  destruct (Z.eqb_spec st SUCCESS) as [->|Hn].
  - destruct (slot_fresh dev h1 slot Hr) as [Hd Hf]. apply (HQ SUCCESS slot (fun _ => Hd)).
    destruct Hl1 as [H1 H2 H3]. unfold slot_of. cbn [Z.eqb SUCCESS app]. rewrite Hd in *. constructor.
    + eapply (acct_take [] own); try done. cbn [obtains]. by rewrite Hd.
    + by apply (owned_silent W [_]); [repeat constructor|].
    + intros d i [[= -> ->]|Hi]%elem_of_cons; [|apply elem_of_cons; right; by apply (H3 d i)].
      apply elem_of_cons. right. by left.
  - specialize (HQ st slot (fun e => False_ind _ (Hn e))). rewrite (proj2 (Z.eqb_neq _ _) Hn) in HQ. apply HQ.
    destruct Hl1 as [H1 H2 H3]. constructor.
    + apply acct_neutral; try done. cbn [obtains]. by rewrite (proj2 (Z.eqb_neq _ _) Hn).
    + by apply (owned_silent W [_]); [repeat constructor|].
    + by eapply pools_cons.
Qed.

(** The pool of a slot that is held is still there. *)
Lemma lwp_PoolGetInstance_held dev i Q s own W :
  RSlot dev i ∈ own -> Q (inr true) s own W -> lwp (call (Hc (PoolGetInstance dev))) Q s own W.
Proof using Hcli.
  intros Hi HQ h Hl. apply wp_call. intros r ->. rewrite (pool_kept dev h) by by eapply l_pools.
  exists own, W. split; [|done]. apply (ledger_calm [_]); [repeat constructor|done].
Qed.

Lemma lwp_PoolRelease slot Q s own W :
  Q (inr tt) s own W -> lwp (call (Cli (PoolRelease slot))) Q s (slot_of slot :: own) W.
Proof.
  intros HQ. apply lwp_give; [|done|by intros []]. intros []. split_and!; try (by repeat split). by eexists.
Qed.
Lemma lwp_PoolAbort slot Q s own W :
  Q (inr tt) s own W -> lwp (call (Cli (PoolAbort slot))) Q s (slot_of slot :: own) W.
Proof.
  intros HQ. apply lwp_give; [|done|by intros []]. intros []. split_and!; try (by repeat split). by eexists.
Qed.
End Calls.

(** ** Quiet blocks, and the context of the runtime around a block *)
Section Quiet.
Context {env : Environment NetOp} {S : Type}.
Implicit Types (own : list HcRes) (W : list Conn) (s : S).

Lemma lwp_chk_acl e Q s own W : (forall o, Q o s own W) -> lwp (chk_acl e : M NetOp S unit) Q s own W.
Proof. intros HQ. unfold chk_acl. destruct (e =? 0); [apply lwp_ret|apply lwp_fail]; apply HQ. Qed.
Lemma lwp_chk_hccl e Q s own W : (forall o, Q o s own W) -> lwp (chk_hccl e : M NetOp S unit) Q s own W.
Proof. intros HQ. unfold chk_hccl. destruct (e =? HCCL_SUCCESS); [apply lwp_ret|apply lwp_fail]; apply HQ. Qed.
End Quiet.

(** ** The parts of a client *)
Section Parts.
Context {env : Environment NetOp}.
Implicit Types (own : list HcRes) (W : list Conn) (s : HixlCSClient).

Lemma lwp_on_settings {A} (m : M NetOp Settings A) Q s own W :
  lwp m (fun o x own' W' => Q o (s <| cl_settings := x |>) own' W') (cl_settings s) own W -> lwp (on_settings m) Q s own W.
Proof. intros H. by eapply lwp_zoom. Qed.
Lemma lwp_on_flags {A} (m : M NetOp FlagQueue A) Q s own W :
  lwp m (fun o x own' W' => Q o (s <| cl_flags := x |>) own' W') (cl_flags s) own W -> lwp (on_flags m) Q s own W.
Proof. intros H. by eapply lwp_zoom. Qed.
Lemma lwp_on_remote {A} (m : M NetOp RemoteMems A) Q s own W :
  lwp m (fun o x own' W' => Q o (s <| cl_remote := x |>) own' W') (cl_remote s) own W -> lwp (on_remote m) Q s own W.
Proof. intros H. by eapply lwp_zoom. Qed.
Lemma lwp_on_device {A} (m : M NetOp DeviceSide A) Q s own W :
  lwp m (fun o x own' W' => Q o (s <| cl_device := x |>) own' W') (cl_device s) own W -> lwp (on_device m) Q s own W.
Proof. intros H. by eapply lwp_zoom. Qed.
Lemma lwp_the_endpoint e Q s own W : local_endpoint_ s = Some e -> Q (inr e) s own W -> lwp the_endpoint Q s own W.
Proof. intros He HQ. apply lwp_bind, lwp_get. rewrite He. by apply lwp_ret. Qed.
Lemma lwp_check_endpoint e Q s own W : local_endpoint_ s = Some e -> Q (inr tt) s own W -> lwp check_endpoint Q s own W.
Proof. intros He HQ. apply lwp_bind, lwp_get. rewrite He. by apply lwp_ret. Qed.
Lemma lwp_on_store f Q s own W : (forall o ms, Q o (s <| mem_store_ := ms |>) own W) -> lwp (on_store f) Q s own W.
Proof.
  intros HQ. apply lwp_bind, lwp_get. destruct (f (mem_store_ s)) as [st ms]. apply lwp_bind, lwp_modify, lwp_require; intros _; apply HQ.
Qed.
Lemma lwp_log_only {S A} (m : M NetOp S A) Q (s : S) own W :
  lwp m (fun _ x own' W' => Q (inr tt) x own' W') s own W -> lwp (log_only m) Q s own W.
Proof. intros H. apply lwp_bind, lwp_attempt. eapply lwp_mono; [exact H|]. intros. by apply lwp_ret. Qed.

Lemma lwp_leave_context {S} p Q (s : S) own W : (forall o, Q o s own W) -> lwp (leave_context p) Q s own W.
Proof. intros HQ. unfold leave_context. destruct (is_null p); [by apply lwp_ret|]. apply lwp_bind, lwp_calm; [by repeat split|]. intros r. by apply lwp_ret. Qed.
Lemma lwp_enter_context {S} c Q (s : S) own W : (forall p, Q (inr p) s own W) -> lwp (enter_context c) Q s own W.
Proof.
  intros HQ. unfold enter_context. apply lwp_bind, lwp_calm; [by repeat split|]. intros [e ctx]. cbv zeta. apply lwp_bind.
  destruct (_ && _); [|by apply lwp_ret, lwp_ret]. apply lwp_bind, lwp_calm; [by repeat split|]. intros r. by apply lwp_ret, lwp_ret.
Qed.
Lemma lwp_in_context {S A} c (m : M NetOp S A) Q (s : S) own W : lwp m Q s own W -> lwp (in_context c m) Q s own W.
Proof.
  intros H. unfold in_context. apply lwp_bind, lwp_enter_context. intros p. apply lwp_finally.
  eapply lwp_mono; [exact H|]. intros o s' own' W' HQ. by apply lwp_leave_context.
Qed.
Lemma lwp_with_context {A} (m : M NetOp HixlCSClient A) Q s own W : lwp m Q s own W -> lwp (with_context m) Q s own W.
Proof.
  intros H. unfold with_context.
  assert (Hk : forall g, lwp (finally m (drop_guard g)) Q s own W).
  { intros g. apply lwp_finally. eapply lwp_mono; [exact H|]. intros o s' own' W' HQ.
    destruct g; cbn [drop_guard]; [by apply lwp_leave_context|by apply lwp_ret]. }
  apply lwp_bind. unfold GetContextGuard. apply lwp_bind, lwp_get. cbv zeta. destruct (_ <? 0); [by apply lwp_ret|].
  apply lwp_bind, lwp_calm; [by repeat split|]. intros []; cbn [negb]; [|by apply lwp_ret].
  apply lwp_bind, lwp_calm; [by repeat split|]. intros ctx. destruct (is_null ctx); [by apply lwp_ret|].
  apply lwp_bind, lwp_calm; [by repeat split|]. intros []; cbn [negb]; [|by apply lwp_ret].
  apply lwp_bind, lwp_enter_context. intros p. by apply lwp_ret.
Qed.
End Parts.
End Ledger.

(** Steps that need no choice. *)
Ltac calm_call := apply lwp_calm; [by repeat split|].
Ltac lstep :=
  lazymatch goal with
  | |- lwp (bind _ _) _ _ _ _ => apply lwp_bind
  | |- lwp (ret _) _ _ _ _ => apply lwp_ret
  | |- lwp (fail _) _ _ _ _ => apply lwp_fail
  | |- lwp get _ _ _ _ => apply lwp_get
  | |- lwp (modify _) _ _ _ _ => apply lwp_modify
  | |- lwp (require _ _) _ _ _ _ => apply lwp_require; intros ?
  | |- lwp (attempt _) _ _ _ _ => apply lwp_attempt
  | |- lwp (finally _ _) _ _ _ _ => apply lwp_finally
  | |- lwp (on_fail _ _) _ _ _ _ => apply lwp_on_fail
  | |- lwp (let _ := _ in _) _ _ _ _ => cbv zeta
  | |- lwp (match ?x with _ => _ end) _ _ _ _ => destruct x eqn:?
  end.
