(* ===== verification/HostTransfer.v ===== *)
(** Transfers that the host starts itself (hixl/cs/hixl_cs_client.cc): transfers with
    retries, batches of them, and a flag for each batch in flight.

    A batch ends with a read of the server's flag into a word of the client's queue; the
    index of that word is taken from a stack of free indices and goes back when the
    transfer is known to be complete. *)

From S2P Require Import Prelude StdMap Effects Runtime Wire Hcomm MemStore ClientRt Net CtrlConn HostRegister Endpoint GlobalConfig ClientState.

Definition kRetryTimeoutMs : Z := 20 * 60 * 1000.

(** The address of a word of the queue. *)
Definition flag_address (queue index : Z) : Z := queue + 8 * index.

Section Transfer.
Context {codes : AclCodes} {again : HcclAgain} {env : Environment NetOp}.

(** ** One transfer, retried while HCOMM is busy *)
Definition retry_round {S} (is_get : bool) (channel_handle dst src len start_time : Z) (_ : unit) : M NetOp S (unit + unit) :=
  let* hccl_ret := call (Cli (HcommNbi is_get channel_handle dst src len)) in
  if hccl_ret =? HCCL_SUCCESS then ret (inr tt) else
  (if negb (hccl_ret =? HCCL_E_AGAIN) then chk_hccl hccl_ret else ret tt) ;;
  let* current_time := call NetNow in
  let elapsed_ms := to_ms (current_time - start_time) in
  require (elapsed_ms <? kRetryTimeoutMs) TIMEOUT ;;
  let* rc := call (Cli (HcommFence channel_handle)) in
  chk_hccl rc ;;
  ret (inl tt).

Definition TransferWithRetry {S} (is_get : bool) (channel_handle dst src len : Z) : M NetOp S unit :=
  let* start_time := call NetNow in
  loop (timed_rounds kRetryTimeoutMs) (retry_round is_get channel_handle dst src len start_time) tt.

Definition transfer_desc {S} (is_get : bool) (channel_handle : Z) (d : HixlOneSideOpDesc) : M NetOp S unit :=
  TransferWithRetry is_get channel_handle
    (if is_get then od_local_buf d else od_remote_buf d)
    (if is_get then od_remote_buf d else od_local_buf d) (od_len d).
Definition BatchTransferTask {S} (is_get : bool) (channel_handle : Z) (desc_list : list HixlOneSideOpDesc) : M NetOp S unit :=
  for_each desc_list (transfer_desc is_get channel_handle) ;;
  let* rc := call (Cli (HcommFence channel_handle)) in
  chk_hccl rc.

(** The chunks of a list: [num_chunks] of at most [batch_size]. *)
Definition num_chunks (list_num batch_size : Z) : Z :=
  u32 (list_num / batch_size + (if list_num mod batch_size =? 0 then 0 else 1)).
Definition chunk (desc_list : list HixlOneSideOpDesc) (batch_size : Z) (chunk_idx : nat) : list HixlOneSideOpDesc :=
  let chunk_offset := u32 (Z.of_nat chunk_idx * batch_size) in
  let chunk_size := Z.min batch_size (u32 (Z.of_nat (length desc_list) - chunk_offset)) in
  take (Z.to_nat chunk_size) (drop (Z.to_nat chunk_offset) desc_list).

(** ** Flags *)
Definition AcquireFlagIndex : M NetOp FlagQueue Z :=
  let* q := get in
  match top_index_ q with
  | O => ret (-1)
  | S top =>
      modify (fun q => q <| top_index_ := top |>) ;;
      match available_indices_ q !! top with Some i => ret i | None => stuck end
  end.

Definition ReleaseFlagIndex (flag_index : Z) : M NetOp FlagQueue unit :=
  let* q := get in
  if (top_index_ q <? kFlagQueueSize)%nat then
    call (Cli (StoreWord (flag_address (flag_queue_ q) flag_index) 0)) ;;
    modify (fun q => q <| available_indices_ ::= <[top_index_ q := flag_index]> |> <| top_index_ ::= S |>)
  else ret tt.

(** [delete] of a handle. *)
Definition delete_handle (query_handle : Z) : M NetOp FlagQueue unit :=
  call (Hc (HostFree query_handle)) ;;
  modify (fun q => q <| complete_handles ::= std_erase query_handle |>).

Definition ReleaseCompleteHandle (query_handle : Z) : M NetOp FlagQueue unit :=
  require (negb (is_null query_handle)) PARAM_INVALID ;;
  let* q := get in
  match std_find query_handle (complete_handles q) with
  | None => stuck
  | Some info =>
      (if (top_index_ q <? kFlagQueueSize)%nat then
         ReleaseFlagIndex (ch_flag_index info) ;;
         modify (fun q => q <| live_handles_ ::= <[Z.to_nat (ch_flag_index info) := nullptr]> |>)
       else ret tt) ;;
      delete_handle query_handle
  end.

(** The status of the transfer behind a handle. *)
Definition CheckStatusHost (query_handle : Z) (info : CompleteHandleInfo) : M NetOp FlagQueue Z :=
  require (negb ((ch_flag_index info <? 0) || (Z.of_nat kFlagQueueSize <=? ch_flag_index info))) PARAM_INVALID ;;
  require (negb (is_null (ch_flag_address info))) PARAM_INVALID ;;
  let* flag_val := call (Cli (LoadWord (ch_flag_address info))) in
  if flag_val =? kFlagDoneValue then
    ReleaseCompleteHandle query_handle ;;
    ret HIXL_COMPLETE_STATUS_COMPLETED
  else ret HIXL_COMPLETE_STATUS_WAITING.

(** The new handle, for a flag that was taken. *)
Definition new_handle (flag_index flag_addr : Z) : M NetOp FlagQueue Z :=
  let* query_mem_handle := call (Cli (Malloc sizeof_CompleteHandleInfo)) in
  require (negb (is_null query_mem_handle)) FAILED ;;
  let info := {| ch_magic := kRoceCompleteMagic; ch_flag_index := flag_index; ch_flag_address := flag_addr |} in
  modify (fun q => q <| complete_handles ::= std_set query_mem_handle info |>
                     <| live_handles_ ::= <[Z.to_nat flag_index := query_mem_handle]> |>) ;;
  ret query_mem_handle.

(** ** The batch *)
Definition null_mem : CommMem := {| cm_type := 0; cm_addr := nullptr; cm_size := 0 |}.
(** [tag_mem_descs_[tag]]: an absent tag is inserted. *)
Definition tag_mem (tag : string) : M NetOp RemoteMems CommMem :=
  let* r := get in
  match tag_mem_descs_ r !! tag with
  | Some m => ret m
  | None => modify (fun r => r <| tag_mem_descs_ ::= <[tag := null_mem]> |>) ;; ret null_mem
  end.
Definition trans_flag_name (remote : EndpointDesc) : string :=
  if ed_locType remote =? ENDPOINT_LOC_TYPE_HOST then kTransFlagNameHost else kTransFlagNameDevice.
(** The transfers that HCOMM takes in one batch. *)
Definition batch_limit (legacy : Z) (st : Settings) : Z :=
  if transfer_supported_ st then max_transfer_count_per_batch (transfer_config_ (global_config_ st)) else legacy.

Definition BatchTransferHostAsync (is_get : bool) (desc_list : list HixlOneSideOpDesc) : M NetOp HixlCSClient Z :=
  let list_num := Z.of_nat (length desc_list) in
  require (0 <? list_num) PARAM_INVALID ;;
  let* s := get in
  let st := cl_settings s in
  let batch_size := batch_limit kMaxKernelBatchSize st in
  if batch_size =? 0 then stuck else
  for_each (seq 0 (Z.to_nat (num_chunks list_num batch_size)))
    (fun chunk_idx => BatchTransferTask is_get (client_channel_handle_ st) (chunk desc_list batch_size chunk_idx)) ;;
  let* flag_index := on_flags AcquireFlagIndex in
  require (negb (flag_index =? -1)) RESOURCE_EXHAUSTED ;;
  on_fail
    (let* s := get in
     let flag_addr := flag_address (flag_queue_ (cl_flags s)) flag_index in
     let* mem := on_remote (tag_mem (trans_flag_name (remote_endpoint_ st))) in
     TransferWithRetry true (client_channel_handle_ st) flag_addr (cm_addr mem) kFlagSizeBytes ;;
     on_flags (new_handle flag_index flag_addr))
    (on_flags (ReleaseFlagIndex flag_index)).
End Transfer.
