(* ===== verification/DeviceTransfer.v ===== *)
(** Transfers that kernels on the device run (hixl/cs/hixl_cs_client.cc): the slot of
    the pool that the transfers in flight share, the handle of each, and the launch of
    the kernels over the chunks of a list.

    The slot goes back to the pool with the last transfer that uses it. *)

From S2P Require Import Prelude StdMap Effects Runtime Wire Hcomm MemStore TransferPool DeviceKernel ClientRt Net HostRegister Endpoint GlobalConfig ClientState HostTransfer.

(** The order in which an [unordered_set] of pointers is walked. *)
Class PointerHash := hash_order : list Z -> list Z.
Class PointerHashLaws (hash : PointerHash) : Prop := hash_order_perm : forall l, hash_order l ≡ₚ l.

#[export] Instance SharedSlot_eta : Eta SharedSlot := fun s => {| ss_slot := ss_slot s; ss_use_count := ss_use_count s |}.
Definition add_launched (n : Z) (h : SlotHandle) : SlotHandle :=
  mkSlotHandle (h_device_id h) (h_slot_index h) (h_ctx h) (h_stream h) (h_thread h) (h_notify h) (h_dev_const_one h)
    (h_notify_id h) (h_notify_addr h) (h_notify_len h) (h_err_flag_host_addr h) (h_err_flag_dev_addr h)
    (u64 (h_launched_tasks h + n)) (h_ubmem_stream h).

Section Slots.
Context {codes : AclCodes} {env : Environment NetOp} {hash : PointerHash}.
Let D := M NetOp DeviceSide.

(** ** The shared slot *)
Definition slot_object (i : nat) : D SharedSlot :=
  let* d := get in match shared_slots d !! i with Some o => ret o | None => stuck end.
(** A copy of a [shared_ptr], and the end of one. *)
Definition share (i : nat) : D unit :=
  let* o := slot_object i in
  modify (fun d => d <| shared_slots ::= <[i := o <| ss_use_count ::= S |>]> |>).
Definition unshare (i : nat) : D unit :=
  let* o := slot_object i in
  modify (fun d => d <| shared_slots ::= (if (ss_use_count o <=? 1)%nat then delete i
                                          else <[i := o <| ss_use_count ::= pred |>]>) |>).

Definition AcquireSharedSlot : D nat :=
  let* d := get in
  match active_slot_ d with
  | Some i => share i ;; ret i
  | None =>
      let* pool := call (Hc (PoolGetInstance (device_id_ d))) in
      require pool PARAM_INVALID ;;
      let* r := call (Cli (PoolAcquire (device_id_ d))) in
      let '(st, new_slot) := r in
      require (st =? SUCCESS) st ;;
      let i := next_slot d in
      modify (fun d => d <| next_slot := S i |> <| active_slot_ := Some i |>
                         <| shared_slots ::= <[i := {| ss_slot := new_slot; ss_use_count := 2 |}]> |>) ;;
      ret i
  end.

(** The last transfer is gone: the slot goes back to the pool. *)
Definition return_active_slot (i : nat) (slot : SlotHandle) : D unit :=
  (if is_null (h_err_flag_host_addr slot) then ret tt else call (Cli (StoreByte (h_err_flag_host_addr slot) 0))) ;;
  let* pool := call (Hc (PoolGetInstance (h_device_id slot))) in
  let* d := get in
  (if negb pool then ret tt
   else if transfer_failure_latched_ d || abort_active_slot_ d then call (Cli (PoolAbort slot))
   else call (Cli (PoolRelease slot))) ;;
  modify (fun d => d <| abort_active_slot_ := false |> <| active_slot_ := None |>) ;;
  unshare i.
Definition ReleaseSharedSlotRef (slot_ref : nat) : D unit :=
  let* d := get in
  unshare slot_ref ;;
  if negb (bool_decide (active_slot_ d = Some slot_ref)) then ret tt else
  let* o := slot_object slot_ref in
  if (ss_use_count o =? 1)%nat then return_active_slot slot_ref (ss_slot o) else ret tt.

Definition CleanupActiveSlot : D unit :=
  let* d := get in
  (match active_slot_ d with
   | None => ret tt
   | Some i =>
       let* o := slot_object i in
       let* pool := call (Hc (PoolGetInstance (h_device_id (ss_slot o)))) in
       (if (pool : bool) then call (Cli (PoolAbort (ss_slot o))) else ret tt) ;;
       modify (fun d => d <| active_slot_ := None |>) ;;
       unshare i
   end) ;;
  modify (fun d => d <| abort_active_slot_ := false |>).

(** ** Handles *)
Definition dev_handle (h : Z) : D DeviceCompleteHandle :=
  let* d := get in match std_find h (device_handles d) with Some x => ret x | None => stuck end.
Definition upd_handle (h : Z) (f : DeviceCompleteHandle -> DeviceCompleteHandle) : D unit :=
  let* x := dev_handle h in modify (fun d => d <| device_handles ::= std_set h (f x) |>).
Definition handle_slot (h : Z) : D SlotHandle :=
  let* x := dev_handle h in
  match dh_shared_slot x with None => stuck | Some i => let* o := slot_object i in ret (ss_slot o) end.

(** [new DeviceCompleteHandle], which takes over the reference to the slot and the flag. *)
Definition new_dev_handle : D Z :=
  let* h := call (Cli (Malloc sizeof_DeviceCompleteHandle)) in
  require (negb (is_null h)) FAILED ;;
  ret h.
Definition fill_handle (h : Z) (slot : nat) (host_flag : Z) : D unit :=
  modify (fun d => d <| device_handles ::= std_set h
    {| dh_magic := kDeviceCompleteMagic; dh_shared_slot := Some slot; dh_host_flag := host_flag; dh_dev_op_desc_buf := nullptr |} |>).

Definition ReleaseDevCompleteHandle (handle : Z) : D unit :=
  if is_null handle then ret tt else
  let* x := dev_handle handle in
  require (dh_magic x =? kDeviceCompleteMagic) PARAM_INVALID ;;
  modify (fun d => d <| pending_device_handles_ ::= List.filter (fun p => negb (p =? handle)) |>) ;;
  (if is_null (dh_host_flag x) then ret tt else
     let* _ := call (Cli (AclFreeHost (dh_host_flag x))) in
     upd_handle handle (fun x => x <| dh_host_flag := nullptr |>)) ;;
  (if is_null (dh_dev_op_desc_buf x) then ret tt else
     let* _ := call (Hc (AclFree (dh_dev_op_desc_buf x))) in
     upd_handle handle (fun x => x <| dh_dev_op_desc_buf := nullptr |>)) ;;
  upd_handle handle (fun x => x <| dh_shared_slot := None |>) ;;
  (match dh_shared_slot x with Some slot_ref => ReleaseSharedSlotRef slot_ref | None => ret tt end) ;;
  upd_handle handle (fun x => x <| dh_magic := 0 |>) ;;
  call (Hc (HostFree handle)) ;;
  modify (fun d => d <| device_handles ::= std_erase handle |>).

Definition AbortAllPendingDeviceHandles : D unit :=
  let* d := get in
  match pending_device_handles_ d with
  | [] => ret tt
  | l =>
      modify (fun d => d <| pending_device_handles_ := [] |> <| abort_active_slot_ := true |>) ;;
      for_each (hash_order l) (fun h => log_only (ReleaseDevCompleteHandle h))
  end.

Definition CheckStatusDevice (query_handle : Z) : D Z :=
  let* x := dev_handle query_handle in
  require (dh_magic x =? kDeviceCompleteMagic) PARAM_INVALID ;;
  match dh_shared_slot x with
  | None => fail PARAM_INVALID
  | Some i =>
      require (negb (is_null (dh_host_flag x))) PARAM_INVALID ;;
      let* flag_val := call (Cli (LoadWord (dh_host_flag x))) in
      if flag_val =? kFlagDoneValue then
        ReleaseDevCompleteHandle query_handle ;; ret HIXL_COMPLETE_STATUS_COMPLETED
      else
      let* d := get in
      if transfer_failure_latched_ d then
        ReleaseDevCompleteHandle query_handle ;; ret HIXL_COMPLETE_STATUS_FAILED
      else
      let* o := slot_object i in
      let err := h_err_flag_host_addr (ss_slot o) in
      let* err_flag := (if is_null err then ret 0 else call (Cli (LoadByte err))) in
      if negb (err_flag =? 0) then
        LatchTransferFailure FAILED ;;
        ReleaseDevCompleteHandle query_handle ;; ret HIXL_COMPLETE_STATUS_FAILED
      else ret HIXL_COMPLETE_STATUS_WAITING
  end.

(** ** Buffers of a transfer *)
Definition AllocateHostFlag : D Z :=
  let* r := call (Cli (AclMallocHost 8)) in
  let '(rc, host_flag) := r in
  chk_acl rc ;;
  call (Cli (StoreWord host_flag 0)) ;;
  ret host_flag.

Definition AllocateDeviceDescBuf (handle : Z) (desc_list : list HixlOneSideOpDesc) : D unit :=
  let* r := call (Hc (AclMalloc (Z.of_nat (length desc_list) * sizeof_HixlOneSideOpDesc))) in
  let '(rc, buf) := r in
  upd_handle handle (fun x => x <| dh_dev_op_desc_buf := buf |>) ;;
  chk_acl rc ;;
  let* rc := call (Cli (AclMemcpyDescs buf desc_list)) in
  chk_acl rc.
End Slots.

(** ** Kernels *)
Section Kernels.
Context {codes : AclCodes} {env : Environment NetOp}.
Let C := M NetOp HixlCSClient.

(** [BuildDeviceChunkParam]; the reserved words are left out. *)
Definition BuildDeviceChunkParam (handle chunk_offset chunk_list_num : Z) (need_notify_wait : bool) : C HixlOneSideOpParam :=
  let* x := on_device (dev_handle handle) in
  let* slot := on_device (handle_slot handle) in
  let* s := get in
  let* ep := the_endpoint in
  let remote_flag := device_remote_flag_addr_ (cl_remote s) in
  (if need_notify_wait then require (negb (is_null remote_flag)) PARAM_INVALID else ret tt) ;;
  ret {|
    op_thread := h_thread slot;
    op_channel := client_channel_handle_ (cl_settings s);
    op_list_num := chunk_list_num;
    op_flag_size := if need_notify_wait then h_notify_len slot else 0;
    op_desc_list_addr := dh_dev_op_desc_buf x + chunk_offset * sizeof_HixlOneSideOpDesc;
    op_remote_flag_addr := if need_notify_wait then remote_flag else 0;
    op_local_flag_addr := if need_notify_wait then h_notify_addr slot else 0;
    op_notify_id := if need_notify_wait then h_notify_id slot else 0;
    op_use_notify_record := if ed_protocol (endpoint_ ep) =? COMM_PROTOCOL_HCCS then 1 else 0
  |}.

Definition count_launched (handle n : Z) : M NetOp DeviceSide unit :=
  let* x := dev_handle handle in
  match dh_shared_slot x with
  | None => stuck
  | Some i =>
      let* o := slot_object i in
      modify (fun d => d <| shared_slots ::= <[i := o <| ss_slot ::= add_launched n |>]> |>)
  end.

Definition LaunchDeviceKernel (is_get : bool) (handle : Z) (param : HixlOneSideOpParam) (wait_notify : bool)
    : M NetOp DeviceSide unit :=
  let* x := dev_handle handle in
  require (match dh_shared_slot x with Some _ => true | None => false end) PARAM_INVALID ;;
  let* slot := handle_slot handle in
  let* pool := call (Hc (PoolGetInstance (h_device_id slot))) in
  require pool PARAM_INVALID ;;
  let* func := call (Cli (PoolGetDeviceKernelFunc (h_device_id slot) is_get)) in
  require (negb (is_null func)) PARAM_INVALID ;;
  let* r := call (Cli (AclKernelArgsInit func)) in
  let '(rc, argsHandle) := r in
  chk_acl rc ;;
  let* rc := call (Cli (AclKernelArgsAppend argsHandle param)) in
  chk_acl rc ;;
  let* rc := call (Cli (AclKernelArgsFinalize argsHandle)) in
  chk_acl rc ;;
  let* rc := call (Cli (AclLaunchKernel func (h_stream slot) argsHandle kNotifyDefaultWaitTimeS)) in
  chk_acl rc ;;
  count_launched handle (op_list_num param) ;;
  if wait_notify then
    let* rc := call (Cli (AclWaitAndResetNotify (h_notify slot) (h_stream slot) kCustomTimeoutMs)) in
    chk_acl rc
  else ret tt.

(** The loop over the chunks: the offset, and what is left of the logical batch. *)
Definition chunk_round (is_get : bool) (handle list_num batch_size : Z) (st : Z * Z) : C (Z * Z + unit) :=
  let '(chunk_offset, batch_remaining) := st in
  if list_num <=? chunk_offset then ret (inr tt) else
  let chunk_list_num := Z.min kMaxKernelBatchSize (Z.min batch_remaining (list_num - chunk_offset)) in
  let batch_remaining := batch_remaining - chunk_list_num in
  let need_notify_wait := (batch_remaining =? 0) || (chunk_offset + chunk_list_num =? list_num) in
  let* param := BuildDeviceChunkParam handle chunk_offset chunk_list_num need_notify_wait in
  on_device (LaunchDeviceKernel is_get handle param need_notify_wait) ;;
  ret (inl (chunk_offset + chunk_list_num, if batch_remaining =? 0 then batch_size else batch_remaining)).
Definition LaunchDeviceChunkedKernels (is_get : bool) (handle list_num : Z) : C unit :=
  let* s := get in
  let batch_size := batch_limit kDefaultMaxTransferCountPerBatch (cl_settings s) in
  loop (Z.to_pos (list_num + 1)) (chunk_round is_get handle list_num batch_size) (0, batch_size).
End Kernels.

(** ** The two transfers *)
Section Batch.
Context {codes : AclCodes} {env : Environment NetOp} {hash : PointerHash}.
Let C := M NetOp HixlCSClient.

(** The checks, the slot, and a handle for the transfer with a buffer for its list; what
    was obtained goes back when a later step fails. *)
Definition mark_abort : C unit := on_device (modify (fun d => d <| abort_active_slot_ := true |>)).
Definition or_abort (m : C unit) : C unit := on_fail m mark_abort.
Definition acquire_slot (list_num : Z) : C nat :=
  require (0 <? list_num) PARAM_INVALID ;;
  on_device AcquireSharedSlot.
Definition check_notify (slot : nat) : C unit :=
  let* o := on_device (slot_object slot) in
  require (negb (is_null (h_notify (ss_slot o)))) PARAM_INVALID.
Definition release_handle (handle : Z) : C unit := log_only (on_device (ReleaseDevCompleteHandle handle)).

Definition submit_async (is_get : bool) (handle : Z) (desc_list : list HixlOneSideOpDesc) : C unit :=
  on_device (AllocateDeviceDescBuf handle desc_list) ;;
  let* slot := on_device (handle_slot handle) in
  in_context (h_ctx slot)
    (or_abort (LaunchDeviceChunkedKernels is_get handle (Z.of_nat (length desc_list))) ;;
     let* slot := on_device (handle_slot handle) in
     let* x := on_device (dev_handle handle) in
     let* copy_ret := call (Cli (AclMemcpyFlagAsync (dh_host_flag x) (h_dev_const_one slot) (h_stream slot))) in
     or_abort (chk_acl copy_ret)).
Definition BatchTransferDeviceAsync (is_get : bool) (desc_list : list HixlOneSideOpDesc) : C Z :=
  let* slot := acquire_slot (Z.of_nat (length desc_list)) in
  let* handle := on_fail
    (check_notify slot ;;
     let* host_flag := on_device AllocateHostFlag in
     on_fail
       (let* handle := on_device new_dev_handle in
        on_device (fill_handle handle slot host_flag) ;;
        ret handle)
       (let* _ := call (Cli (AclFreeHost host_flag)) in ret tt))
    (on_device (ReleaseSharedSlotRef slot)) in
  on_fail (submit_async is_get handle desc_list) (release_handle handle) ;;
  on_device (modify (fun d => d <| pending_device_handles_ ::= fun l => l ++ [handle] |>)) ;;
  ret handle.

Definition submit_sync (is_get : bool) (handle : Z) (desc_list : list HixlOneSideOpDesc) (timeout_ms : Z) : C unit :=
  on_device (AllocateDeviceDescBuf handle desc_list) ;;
  let* slot := on_device (handle_slot handle) in
  in_context (h_ctx slot)
    (or_abort (LaunchDeviceChunkedKernels is_get handle (Z.of_nat (length desc_list))) ;;
     let* slot := on_device (handle_slot handle) in
     let* sync_ret := call (Cli (AclSynchronizeStream (h_stream slot) timeout_ms)) in
     or_abort (chk_acl sync_ret)).
Definition BatchTransferDeviceSync (is_get : bool) (desc_list : list HixlOneSideOpDesc) (timeout_ms : Z) : C unit :=
  let* slot := acquire_slot (Z.of_nat (length desc_list)) in
  let* handle := on_fail
    (check_notify slot ;;
     let* handle := on_device new_dev_handle in
     on_device (fill_handle handle slot nullptr) ;;
     ret handle)
    (on_device (ReleaseSharedSlotRef slot)) in
  finally (submit_sync is_get handle desc_list timeout_ms) (release_handle handle).
End Batch.
