(* ===== verification/ClientMemory.v ===== *)
(** Memory of a client (hixl/cs/hixl_cs_client.cc): its own, registered with its
    endpoint, and its server's, imported from the descriptors that the server sends. *)

From S2P Require Import Prelude StdMap Effects External Runtime Wire Hcomm MemStore TransferPool ClientRt Net CtrlConn ConnMsg HostRegister Endpoint GlobalConfig RemoteMem ClientState HostTransfer.

(** The lists that an import builds. *)
Record ImportCtx := {
  ic_imported : list CommMem;
  ic_recorded_addrs : list Z;
  ic_tag_mem_map : gmap string CommMem;
  ic_mems : list CommMem;
  ic_tag_storage : list (list Z)
}.
#[export] Instance ImportCtx_eta : Eta ImportCtx := fun c =>
  {| ic_imported := ic_imported c; ic_recorded_addrs := ic_recorded_addrs c; ic_tag_mem_map := ic_tag_mem_map c;
     ic_mems := ic_mems c; ic_tag_storage := ic_tag_storage c |}.
Definition ImportCtx_new : ImportCtx :=
  {| ic_imported := []; ic_recorded_addrs := []; ic_tag_mem_map := ∅; ic_mems := []; ic_tag_storage := [] |}.

(** The output parameters: the memory, the pointers to its tags and their number; an
    empty list is the null pointer. *)
Record RemoteMemOut := { out_mems : list CommMem; out_tags : list (option nat); out_num : Z }.

Definition string_bytes (s : string) : list Z := (fun c => Z.of_nat (Ascii.nat_of_ascii c)) <$> String.list_ascii_of_string s.

Section Memory.
Context {codes : AclCodes} {again : HcclAgain} {clib : CLibrary} {nl : Nlohmann} {env : Environment NetOp}.
Context `{G : GeMath} `{Sec : Securec} `{Abi : HcommAbi}.
Let C := M NetOp HixlCSClient.

(** ** The client's own memory *)
Definition registered_dev_addr (addr : Z) (is_host_mem : bool) : C Z :=
  let* e := the_endpoint in
  let* s := get in
  if is_host_mem && need_host_va_mapping_ e then
    match GetRegisteredDeviceAddrByDev (devPhyId (endpoint_ e)) addr (cl_px s) with inr x => ret x | inl st => fail st end
  else ret nullptr.

Definition RegMemLocked (mem_tag : option string) (mem : option CommMem) : C Z :=
  with_context
    (let* mem := not_null mem in
     require (negb (is_null (cm_addr mem)) && (0 <? cm_size mem)) PARAM_INVALID ;;
     let* s := get in
     if ubmem_engine_ (cl_settings s) then ret (cm_addr mem) else
     require (negb (HixlMemStore_CheckMemoryForRegister (mem_store_ s) false (cm_addr mem) (cm_size mem))) PARAM_INVALID ;;
     let* ep_mem_handle := on_endpoint (Endpoint_RegisterMem mem_tag mem) in
     on_fail
       (let is_host_mem := cm_type mem =? COMM_MEM_TYPE_HOST in
        let* register_dev_addr := registered_dev_addr (cm_addr mem) is_host_mem in
        on_store (fun ms => HixlMemStore_RecordMemory ms false (cm_addr mem) (cm_size mem) is_host_mem register_dev_addr))
       (log_only (on_endpoint (Endpoint_DeregisterMem ep_mem_handle))) ;;
     ret ep_mem_handle).
Definition RegMem (mem_tag : option string) (mem : option CommMem) : C Z := RegMemLocked mem_tag mem.

Definition UnRegMem (mem_handle : Z) : C unit :=
  with_context
    (require (negb (is_null mem_handle)) PARAM_INVALID ;;
     let* s := get in
     if ubmem_engine_ (cl_settings s) then ret tt else
     let* e := the_endpoint in
     match Endpoint_GetMemDesc mem_handle e with
     | inl _ => fail PARAM_INVALID
     | inr desc =>
         let* result := attempt (on_endpoint (Endpoint_DeregisterMem mem_handle)) in
         require (match result with inr _ => true | inl _ => false end) PARAM_INVALID ;;
         on_store (fun ms => HixlMemStore_UnrecordMemory ms false (cm_addr (hmd_mem desc)))
     end).

(** The words that tell the host that its transfers are complete. *)
Definition InitFlagQueue : C unit :=
  let* s := get in
  if negb (is_null (flag_queue_ (cl_flags s))) then ret tt else
  let size := Z.of_nat kFlagQueueSize * 8 in
  let* tmp := call (Cli (Malloc size)) in
  require (negb (is_null tmp)) FAILED ;;
  on_fail
    (call (Cli (FillWords tmp (Z.of_nat kFlagQueueSize) 0)) ;;
     let* _ := RegMemLocked (Some kTransFlagNameHost) (Some {| cm_type := COMM_MEM_TYPE_HOST; cm_addr := tmp; cm_size := size |}) in
     on_flags (modify (fun q => q <| flag_queue_ := tmp |> <| top_index_ := kFlagQueueSize |>)))
    (call (Hc (HostFree tmp))).

(** The notifies of the slots, registered with the endpoint. *)
Definition register_notify (i : nat) (slot : SlotHandle) : C unit :=
  require (negb (h_notify_addr slot =? 0) && negb (h_notify_len slot =? 0)) FAILED ;;
  let mem := {| cm_type := COMM_MEM_TYPE_DEVICE; cm_addr := h_notify_addr slot; cm_size := h_notify_len slot |} in
  let* h := on_endpoint (Endpoint_RegisterMem None mem) in
  on_device (modify (fun d => d <| notify_mem_handles_ ::= <[i := h]> |>)).
Definition RegisterNotifyMemForAllSlots (slots : list SlotHandle) : C unit :=
  on_device (modify (fun d => d <| notify_mem_handles_ := replicate (length slots) nullptr |>)) ;;
  for_each (zip (seq 0 (length slots)) slots) (fun it => register_notify it.1 it.2).

(** ** Importing *)
Definition close_imported (d : HixlMemDesc) : C unit :=
  if hmd_is_imported d then log_only (on_endpoint (Endpoint_UnimportMem (hmd_export_desc d) (hmd_export_len d))) else ret tt.
Definition CloseImportedBufs (bufs : list HixlMemDesc) : C unit :=
  let* e := the_endpoint in
  if is_null (handle_ e) then ret tt else for_each bufs close_imported.

Definition unrecord_addr (addr : Z) : C unit :=
  if is_null addr then ret tt else log_only (on_store (fun ms => HixlMemStore_UnrecordMemory ms true addr)).
Definition UnrecordAddrs (addrs : list Z) : C unit := for_each addrs unrecord_addr.

(** [FreeExportDesc] of this file: a buffer of no bytes is passed over. *)
Definition free_export_desc (d : HixlMemDesc) : C unit :=
  if negb (is_null (hmd_export_desc d)) && (0 <? hmd_export_len d) then call (Hc (HostFree (hmd_export_desc d))) else ret tt.
Definition FreeExportDesc (desc_list : list HixlMemDesc) : C unit := for_each desc_list free_export_desc.

Definition ValidateExportDescList (desc_list : list HixlMemDesc) : Status :=
  if existsb (fun d => is_null (hmd_export_desc d) || (hmd_export_len d =? 0)) desc_list then PARAM_INVALID else SUCCESS.

(** The tag with its NUL. *)
Definition AppendTagStorage (tag : string) (ctx : ImportCtx) : Status * ImportCtx :=
  let n := String.length tag in
  let buf := replicate (n + 1) 0 in
  if (n =? 0)%nat then (SUCCESS, ctx <| ic_tag_storage ::= fun l => l ++ [buf] |>) else
  let '(rc, buf) := memcpy_s buf (Z.of_nat (n + 1)) (string_bytes tag) (Z.of_nat n) in
  if rc =? EOK_ then (SUCCESS, ctx <| ic_tag_storage ::= fun l => l ++ [buf] |>) else (FAILED, ctx).

(** The status, and the lists and the descriptor as they are then. *)
Definition ImportOneDesc (ctx : ImportCtx) (desc : HixlMemDesc) : C (ImportCtx * HixlMemDesc * Status) :=
  let* r := attempt (on_endpoint (Endpoint_ImportMem (hmd_export_desc desc) (hmd_export_len desc))) in
  match r with
  | inl e => ret (ctx, desc, e)
  | inr buf =>
      let mem := hmd_mem desc in
      let tag := hmd_tag desc in
      let desc := set_imported desc in
      let ctx := ctx <| ic_imported ::= fun l => l ++ [buf] |> <| ic_mems ::= fun l => l ++ [mem] |>
                     <| ic_tag_mem_map ::= (if str_empty tag then id else <[tag := mem]>) |> in
      let* r := attempt (on_store (fun ms => HixlMemStore_RecordMemory ms true (cm_addr mem) (cm_size mem)
                                               (cm_type mem =? COMM_MEM_TYPE_HOST) (hmd_registered_dev_mem desc))) in
      match r with
      | inl e => ret (ctx, desc, e)
      | inr _ =>
          let '(st, ctx) := AppendTagStorage tag (ctx <| ic_recorded_addrs ::= fun l => l ++ [cm_addr mem] |>) in
          ret (ctx, desc, st)
      end
  end.
Fixpoint ImportAllDescs (ctx : ImportCtx) (desc_list : list HixlMemDesc) : C (ImportCtx * list HixlMemDesc * Status) :=
  match desc_list with
  | [] => ret (ctx, [], SUCCESS)
  | desc :: rest =>
      let* r := ImportOneDesc ctx desc in
      let '(ctx, desc, st) := r in
      if negb (st =? SUCCESS) then ret (ctx, desc :: rest, st) else
      let* r := ImportAllDescs ctx rest in
      let '(ctx, rest, st) := r in ret (ctx, desc :: rest, st)
  end.

Definition BuildTagPtrs (storage : list (list Z)) : list (option nat) :=
  imap (fun i s => match s with [] => None | _ => Some i end) storage.
Definition FillOutputParams (ctx : ImportCtx) : M NetOp RemoteMems RemoteMemOut :=
  let ptrs := BuildTagPtrs (ic_tag_storage ctx) in
  modify (fun r => r <| imported_remote_bufs_ := ic_imported ctx |> <| recorded_remote_addrs_ := ic_recorded_addrs ctx |>
                     <| tag_mem_descs_ := ic_tag_mem_map ctx |> <| remote_mems_out_ := ic_mems ctx |>
                     <| remote_tag_storage_ := ic_tag_storage ctx |> <| remote_tag_ptrs_ := ptrs |>) ;;
  ret {| out_mems := ic_mems ctx; out_tags := ptrs; out_num := u32 (Z.of_nat (length (ic_mems ctx))) |}.

Definition clear_imports : C unit :=
  let* s := get in
  let descs := desc_list_ (cl_remote s) in
  match descs with
  | [] => ret tt
  | _ =>
      (match local_endpoint_ s with Some _ => CloseImportedBufs descs | None => ret tt end) ;;
      for_each descs free_export ;;
      on_remote (modify (fun r => r <| desc_list_ := [] |>))
  end.
Definition ClearRemoteMemInfo : C unit :=
  clear_imports ;;
  let* s := get in
  UnrecordAddrs (recorded_remote_addrs_ (cl_remote s)) ;;
  on_remote (modify (fun r => r <| recorded_remote_addrs_ := [] |> <| tag_mem_descs_ := ∅ |> <| remote_mems_out_ := [] |>
                                <| remote_tag_ptrs_ := [] |> <| remote_tag_storage_ := [] |>
                                <| device_remote_flag_inited_ := false |> <| device_remote_flag_addr_ := nullptr |>
                                <| device_remote_flag_size_ := 0 |>)).

Definition ImportRemoteMem (desc_list : list HixlMemDesc) : C RemoteMemOut :=
  on_fail
    (let list_num := u32 (Z.of_nat (length desc_list)) in
     ClearRemoteMemInfo ;;
     if list_num =? 0 then FreeExportDesc desc_list ;; ret {| out_mems := []; out_tags := []; out_num := 0 |} else
     require (ValidateExportDescList desc_list =? SUCCESS) (ValidateExportDescList desc_list) ;;
     check_endpoint ;;
     let* e := the_endpoint in
     require (negb (is_null (handle_ e))) PARAM_INVALID ;;
     let* r := ImportAllDescs ImportCtx_new desc_list in
     let '(ctx, descs, st) := r in
     if negb (st =? SUCCESS) then
       CloseImportedBufs descs ;;
       UnrecordAddrs (ic_recorded_addrs ctx) ;;
       fail st
     else
     on_remote (modify (fun r => r <| desc_list_ := descs |>)) ;;
     on_remote (FillOutputParams ctx))
    (FreeExportDesc desc_list).

(** ** Asking the server *)
Definition EnsureDeviceRemoteFlagInited (remote : EndpointDesc) : M NetOp RemoteMems unit :=
  let* r := get in
  if device_remote_flag_inited_ r then ret tt else
  match tag_mem_descs_ r !! trans_flag_name remote with
  | None => ret tt
  | Some mem =>
      if is_null (cm_addr mem) || (cm_size mem <? 8) then ret tt else
      modify (fun r => r <| device_remote_flag_addr_ := cm_addr mem |> <| device_remote_flag_size_ := cm_size mem |>
                         <| device_remote_flag_inited_ := true |>)
  end.

Definition GetRemoteMemImpl (timeout_ms : Z) : C RemoteMemOut :=
  check_endpoint ;;
  let* s := get in
  require (match connection_ s with Some _ => true | None => false end) FAILED ;;
  on_connection (SendGetRemoteMemRequest (remote_endpoint_handle_ (cl_settings s)) timeout_ms) ;;
  let* mem_descs := on_connection (RecvGetRemoteMemResponse timeout_ms) in
  let* out := ImportRemoteMem mem_descs in
  let* s := get in
  (if 0 <=? device_id_ (cl_device s)
   then on_remote (EnsureDeviceRemoteFlagInited (remote_endpoint_ (cl_settings s))) else ret tt) ;;
  ret out.
Definition GetRemoteMem (timeout_ms : Z) : C RemoteMemOut :=
  with_context (check_endpoint ;; GetRemoteMemImpl timeout_ms).
End Memory.
