(* ===== verification/CsClient.v ===== *)
(** The client of the CS layer: hixl/cs/hixl_cs_client.cc above its transfers and its
    memory: creation, connection, the two entries of a transfer, status and destruction. *)

From S2P Require Import Prelude StdMap Effects External Runtime DeviceSupport Wire Hcomm MemStore TransferPool ClientRt Net CtrlConn ConnMsg HostRegister Endpoint GlobalConfig RemoteMem ClientState HostTransfer DeviceTransfer ClientMemory.

(** * Requests *)

(** The padding that the language leaves open in [CreateChannelReq]. *)
Class ClientAbi := { cc_pad1 : Z; cc_pad2 : Z; cc_pad3 : Z }.
Definition CreateChannelReq_bytes {abi : ClientAbi} (r : CreateChannelReq) : list Z :=
  EndpointDesc_bytes (ccq_src r) ++ le_bytes 8 (ccq_dst_ep_handle r) ++ le_bytes 1 (ccq_tc r) ++ le_bytes 1 (ccq_sl r) ++
  le_bytes 2 cc_pad1 ++ le_bytes 4 (ccq_retry_cnt r) ++ le_bytes 4 (ccq_retry_interval r) ++ le_bytes 4 cc_pad2 ++
  le_bytes 8 (ccq_channel_index r) ++ le_bytes 1 (ccq_qos r) ++ le_bytes 3 cc_pad3 ++ le_bytes 4 (ccq_timeout_ms r).

(** * Arguments of [Create]; [None] is a null pointer *)
Record HixlClientDesc := {
  hcd_local_endpoint : option EndpointDesc;
  hcd_remote_endpoint : option EndpointDesc;
  hcd_server_ip : option string;
  hcd_server_port : Z;
  hcd_tc : Z;
  hcd_sl : Z
}.
Record HixlClientConfig := { global_resource_config : option (list Z) }.
(** The same after the checks. *)
Record ClientTarget := { ct_local : EndpointDesc; ct_remote : EndpointDesc; ct_server_ip : string }.

Definition COMM_PROTOCOL_RESERVED : Z := -1.
Definition kMinRdmaRetryCnt : Z := 1.
Definition kMaxRdmaRetryCnt : Z := 7.
Definition kMinRdmaRetryInterval : Z := 5.
Definition kMaxRdmaRetryInterval : Z := 20.
Definition kSyncQueryIntervalUs : Z := 10.

Definition IsDeviceEndpoint (d : EndpointDesc) : bool := ed_locType d =? ENDPOINT_LOC_TYPE_DEVICE.

(** ** [std::strtoul] in base 10, and the numbers of the environment *)

(** The value, whether it overflowed, how many digits there were, and what follows. *)
Definition strtoul (value : string) : Z * bool * nat * string :=
  let '(sign, s) := read_sign (skip_space value) in
  let '(v, n, rest) := read_digits s 0 0 in
  (u64 (sign * v), UINT64_MAX <? v, n, rest).
(** Whether [HIXL_CHK] of [ParseEnvUint32] passes, and with what. *)
Definition env_uint32 (value : string) : option Z :=
  let '(parsed, overflow, n, rest) := strtoul value in
  if overflow || (n =? 0)%nat || negb (str_empty rest) || (UINT32_MAX <? parsed) then None else Some parsed.

Section Client.
Context {codes : AclCodes} {again : HcclAgain} {clib : CLibrary} {nl : Nlohmann} {env : Environment NetOp}.
Context `{G : GeMath} `{Sec : Securec} `{Abi : HcommAbi} {abi : ClientAbi} {hash : PointerHash}.
Let C := M NetOp HixlCSClient.

(** * Create *)
Definition ParseEnvUint32 (name : string) : C (option Z) :=
  let* value := call (Cli (GetEnv name)) in
  match value with
  | None | Some EmptyString => ret None
  | Some value => match env_uint32 value with Some out => ret (Some out) | None => fail PARAM_INVALID end
  end.

Definition InitRdmaRetryConfig : C unit :=
  on_settings (modify (fun st => st <| retry_cnt_ := kRdmaRetryCntDefault |> <| retry_interval_ := kRdmaRetryIntervalDefault |>)) ;;
  let* env_retry_cnt := ParseEnvUint32 "HCCL_RDMA_RETRY_CNT" in
  (match env_retry_cnt with
   | None => ret tt
   | Some n =>
       require ((kMinRdmaRetryCnt <=? n) && (n <=? kMaxRdmaRetryCnt)) PARAM_INVALID ;;
       on_settings (modify (fun st => st <| retry_cnt_ := n |>))
   end) ;;
  let* env_retry_interval := ParseEnvUint32 "HCCL_RDMA_TIMEOUT" in
  match env_retry_interval with
  | None => ret tt
  | Some n =>
      let* e := the_endpoint in
      let ep := endpoint_ e in
      let is_host_roce := (ed_locType ep =? ENDPOINT_LOC_TYPE_HOST) && (ed_protocol ep =? COMM_PROTOCOL_ROCE) in
      require (is_host_roce || ((kMinRdmaRetryInterval <=? n) && (n <=? kMaxRdmaRetryInterval))) PARAM_INVALID ;;
      on_settings (modify (fun st => st <| retry_interval_ := n |>))
  end.

(** The target of the client once the pointers are checked. *)
Definition ParseGlobalConfig (client_desc : HixlClientDesc) (config : option HixlClientConfig) : C ClientTarget :=
  let* server_ip := not_null (hcd_server_ip client_desc) in
  let* local := not_null (hcd_local_endpoint client_desc) in
  let* remote := not_null (hcd_remote_endpoint client_desc) in
  let* config := not_null config in
  on_settings (modify (fun st => st <| global_config_ := GlobalConfig_new |>)) ;;
  let* parsed := GlobalConfig_Parse (global_resource_config config) GlobalConfig_new kOnlyClient in
  on_settings (modify (fun st => st <| global_config_ := parsed |>)) ;;
  let* supported := (if max_transfer_count_per_batch_configured (transfer_config_ parsed) then ret true
                     else call (Hc ConfigurableTransferSupported)) in
  on_settings (modify (fun st => st <| transfer_supported_ := supported |>)) ;;
  require (negb (IsUbMemProtocol (ed_protocol local) &&
                 (kMaxFixedQueueTransferCountPerBatch <? max_transfer_count_per_batch (transfer_config_ parsed)))) PARAM_INVALID ;;
  ret {| ct_local := local; ct_remote := remote; ct_server_ip := server_ip |}.

Definition InitDeviceResource (ep : EndpointDesc) : C unit :=
  if negb (IsDeviceEndpoint ep) then on_device (modify (fun d => d <| device_id_ := -1 |>)) else
  let* r := call (Hc AclGetDevice) in
  let '(rc, dev) := r in
  chk_acl rc ;;
  on_device (modify (fun d => d <| device_id_ := dev |>)) ;;
  in_context nullptr
    (let* pool := call (Hc (PoolGetInstance dev)) in
     require pool PARAM_INVALID ;;
     let* s := get in
     let n := default kDefaultPoolSize (crc_max_active_channels (comm_resource_config_ (global_config_ (cl_settings s)))) in
     let* st := call (Hc (PoolInitialize dev n)) in
     require (st =? SUCCESS) st).

Definition InitNotifyResources (ep : EndpointDesc) : C unit :=
  if negb (IsDeviceEndpoint ep) || IsUbMemProtocol (ed_protocol ep) then ret tt else
  let* s := get in
  let dev := device_id_ (cl_device s) in
  let* pool := call (Hc (PoolGetInstance dev)) in
  require pool PARAM_INVALID ;;
  (if negb (ed_protocol ep =? COMM_PROTOCOL_HCCS)
   then let* st := call (Hc (PoolResolveNotifyAddr dev)) in require (st =? SUCCESS) st else ret tt) ;;
  let* r := call (Cli (PoolGetAllSlots dev)) in
  let '(st, all_slots) := r in
  require (st =? SUCCESS) st ;;
  if negb (ed_protocol ep =? COMM_PROTOCOL_ROCE) && negb (ed_protocol ep =? COMM_PROTOCOL_HCCS)
  then RegisterNotifyMemForAllSlots all_slots else ret tt.

(** [connection_.reset()]: the object goes away. *)
Definition reset_connection : C unit :=
  let* s := get in
  match connection_ s with
  | None => ret tt
  | Some _ => on_connection CtrlMsgPlugin_delete ;; modify (fun s => s <| connection_ := None |>)
  end.
Definition CloseSocket : C unit :=
  let* s := get in
  match connection_ s with
  | None => ret tt
  | Some _ => log_only (on_connection CtrlMsgPlugin_Close) ;; reset_connection
  end.
(** A new connection in place of the old one. *)
Definition new_connection : C unit :=
  let* made := call NetNew in
  reset_connection ;;
  require made PARAM_INVALID ;;
  modify (fun s => s <| connection_ := Some Conn_new |>) ;;
  on_connection CtrlMsgPlugin_Initialize.

Definition InitBaseClient (client_desc : HixlClientDesc) (target : ClientTarget) : C unit :=
  new_connection ;;
  on_settings (modify (fun st =>
    st <| server_ip_ := ct_server_ip target |> <| server_port_ := hcd_server_port client_desc |>
       <| tc_ := hcd_tc client_desc |> <| sl_ := hcd_sl client_desc |> <| remote_endpoint_ := ct_remote target |>)) ;;
  with_context
    (on_endpoint Endpoint_Initialize ;;
     let* e := the_endpoint in
     if ed_locType (endpoint_ e) =? ENDPOINT_LOC_TYPE_HOST then InitFlagQueue else ret tt).

(** [UbMemEngine] comes to be for a device endpoint of that protocol. *)
Definition SqeFormatFromSocType (soc_type : SocType) : Z :=
  if bool_decide (soc_type = kGen1) || bool_decide (soc_type = kGen2) then 0 else 1.
Definition init_ubmem (local : EndpointDesc) : C unit :=
  if negb (IsDeviceEndpoint local && IsUbMemProtocol (ed_protocol local)) then ret tt else
  let* soc_name := call (Cli GetSocName) in
  let* soc_name := (match soc_name with None => fail FAILED | Some n => ret n end) in
  require (negb (str_empty soc_name)) FAILED ;;
  let sqe_format := SqeFormatFromSocType (GetSocTypeByName soc_name) in
  let* made := call (Cli (UbCreate sqe_format)) in
  on_settings (modify (fun st => st <| ubmem_engine_ := made |>)) ;;
  require made PARAM_INVALID.

(** The guards of [Create]. *)
Definition pool_rollback : C unit :=
  let* s := get in
  let dev := device_id_ (cl_device s) in
  if dev <? 0 then ret tt else
  let* pool := call (Hc (PoolGetInstance dev)) in
  (if (pool : bool) then call (Hc (PoolFinalize dev)) else ret tt) ;;
  on_device (modify (fun d => d <| device_id_ := -1 |>)).
Definition tls_guard : C unit := CloseSocket ;; call (Cli TlsManagerFinalize).

Definition Create (client_desc : HixlClientDesc) (config : option HixlClientConfig) : C unit :=
  let* s := get in
  require (negb (tls_initialized_ (cl_settings s))) FAILED ;;
  on_device (modify (fun d => d <| transfer_failure_latched_ := false |> <| abort_active_slot_ := false |>
                                <| transfer_failure_status_ := SUCCESS |>)) ;;
  let* target := ParseGlobalConfig client_desc config in
  let* st := call (Cli TlsManagerInitialize) in
  require (st =? SUCCESS) st ;;
  on_fail
    (let* made := call NetNew in
     modify (fun s => s <| local_endpoint_ :=
       if (made : bool) then Some (Endpoint_new (ct_local target) (IsHostVaMappingEnabledForPair (ct_local target) (ct_remote target)))
       else None |>) ;;
     require made PARAM_INVALID ;;
     InitDeviceResource (ct_local target) ;;
     on_fail
       (InitBaseClient client_desc target ;;
        InitRdmaRetryConfig ;;
        InitNotifyResources (ct_local target) ;;
        init_ubmem (ct_local target))
       pool_rollback)
    tls_guard ;;
  on_settings (modify (fun st => st <| tls_initialized_ := true |>)).

(** * Connect *)
Definition channel_desc_of (st : Settings) (channel_index : Z) : ChannelDesc := {|
  cd_remote_endpoint := remote_endpoint_ st; cd_tc := tc_ st; cd_sl := sl_ st; cd_retry_cnt := retry_cnt_ st;
  cd_retry_interval := retry_interval_ st; cd_channel_type := kClient; cd_channel_index := channel_index;
  cd_qos := default kQosUnset (crc_qos (comm_resource_config_ (global_config_ st)));
  cd_max_transfer_count_per_batch := max_transfer_count_per_batch (transfer_config_ (global_config_ st));
  cd_configurable_transfer_supported := transfer_supported_ st |}.
Definition channel_request (src : EndpointDesc) (st : Settings) (channel_index timeout_ms : Z) : CreateChannelReq := {|
  ccq_src := src; ccq_dst_ep_handle := remote_endpoint_handle_ st; ccq_tc := tc_ st; ccq_sl := sl_ st;
  ccq_retry_cnt := retry_cnt_ st; ccq_retry_interval := retry_interval_ st; ccq_channel_index := channel_index;
  ccq_qos := default kQosUnset (crc_qos (comm_resource_config_ (global_config_ st))); ccq_timeout_ms := timeout_ms |}.

Definition ExchangeEndpointAndCreateChannel (timeout_ms : Z) : C unit :=
  let* s := get in
  on_connection (SendMatchEndpointRequest (EndpointDesc_bytes (remote_endpoint_ (cl_settings s)))) ;;
  let* r := on_connection (RecvMatchEndpointResponse timeout_ms) in
  let '(remote_handle, remote_listen_port, channel_index) := r in
  on_settings (modify (fun st => st <| remote_endpoint_handle_ := remote_handle |>)) ;;
  on_endpoint (ep_modify (Endpoint_SetPort remote_listen_port)) ;;
  let* _ := GetRemoteMemImpl timeout_ms in
  let* s := get in
  let* e := the_endpoint in
  on_connection (SendCreateChannelRequest
    (CreateChannelReq_bytes (channel_request (endpoint_ e) (cl_settings s) channel_index timeout_ms))) ;;
  let* channel_handle := on_endpoint (Endpoint_CreateChannel (channel_desc_of (cl_settings s) channel_index) timeout_ms) in
  on_fail (on_connection (RecvCreateChannelResponse timeout_ms))
    (log_only (on_endpoint (Endpoint_DestroyChannel channel_handle))) ;;
  on_settings (modify (fun st => st <| client_channel_handle_ := channel_handle |>)).

Definition Connect (timeout_ms : Z) : C unit :=
  with_context
    (check_endpoint ;;
     let* s := get in
     require (negb (ed_protocol (remote_endpoint_ (cl_settings s)) =? COMM_PROTOCOL_RESERVED)) PARAM_INVALID ;;
     require (negb (is_connected_ (cl_settings s))) ALREADY_CONNECTED ;;
     (match connection_ s with Some _ => ret tt | None => new_connection end) ;;
     on_fail (on_connection (CtrlMsgPlugin_Connect (server_ip_ (cl_settings s)) (server_port_ (cl_settings s)) timeout_ms))
       reset_connection ;;
     on_fail (ExchangeEndpointAndCreateChannel timeout_ms) CloseSocket ;;
     on_settings (modify (fun st => st <| is_connected_ := true |>))).

(** * Transfers *)
Definition ValidateAddress (desc_list : list HixlOneSideOpDesc) : C unit :=
  let* s := get in
  let check_local_mem :=
    match local_endpoint_ s with
    | None => true
    | Some e => let local_ep := endpoint_ e in
        negb (((ed_protocol local_ep =? COMM_PROTOCOL_HCCS) || IsUbMemProtocol (ed_protocol local_ep)) && IsDeviceEndpoint local_ep)
    end in
  let st := HixlMemStore_BatchValidateMemoryAccess (mem_store_ s) desc_list check_local_mem in
  require (st =? SUCCESS) st.
Definition ConvertHostMappedDescs (desc_list : list HixlOneSideOpDesc) : C (list HixlOneSideOpDesc) :=
  let* s := get in
  let '(st, descs) := HixlMemStore_BatchConvertHostAddr (mem_store_ s) desc_list in
  require (st =? SUCCESS) st ;;
  ret descs.

(** ** The status of a transfer *)

(** The first word behind a handle: its magic. *)
Definition handle_head (query_handle : Z) : C Z :=
  let* s := get in
  match std_find query_handle (device_handles (cl_device s)), std_find query_handle (complete_handles (cl_flags s)) with
  | Some x, _ => ret (dh_magic x)
  | None, Some info => ret (ch_magic info)
  | None, None => call (Cli (LoadHead query_handle))
  end.
Definition CheckStatusLocked (query_handle : Z) : C Z :=
  with_context
    (require (negb (is_null query_handle)) PARAM_INVALID ;;
     let* head := handle_head query_handle in
     let* s := get in
     if head =? kDeviceCompleteMagic then on_device (CheckStatusDevice query_handle) else
     if ubmem_engine_ (cl_settings s) && (head =? kUbMemCompleteMagic) then
       let* r := call (Cli (UbCheckStatus query_handle)) in
       let '(st, status) := r in
       (if (status =? HIXL_COMPLETE_STATUS_FAILED) && ((st =? SUCCESS) || (st =? FAILED))
        then on_device (LatchTransferFailure FAILED) else ret tt) ;;
       require (st =? SUCCESS) st ;;
       ret status
     else if head =? kRoceCompleteMagic then
       match std_find query_handle (complete_handles (cl_flags s)) with
       | Some info => on_flags (CheckStatusHost query_handle info)
       | None => stuck
       end
     else fail PARAM_INVALID).
Definition CheckStatus (query_handle : Z) : C Z := CheckStatusLocked query_handle.

(** ** A batch that the host starts and waits for *)
Definition sync_round (deadline raw_handle : Z) (_ : unit) : C (unit + unit) :=
  let* now := call NetNow in
  if deadline <=? now then
    log_only (on_flags (ReleaseCompleteHandle raw_handle)) ;;
    fail TIMEOUT
  else
  let* cs := attempt (CheckStatusLocked raw_handle) in
  match cs with
  | inl e => log_only (on_flags (ReleaseCompleteHandle raw_handle)) ;; fail e
  | inr st =>
      if st =? HIXL_COMPLETE_STATUS_COMPLETED then ret (inr tt) else
      call (Hc (SleepUs kSyncQueryIntervalUs)) ;;
      ret (inl tt)
  end.
Definition BatchTransferHostSync (is_get : bool) (desc_list : list HixlOneSideOpDesc) (timeout_ms : Z) : C unit :=
  let* start := call NetNow in
  let deadline := start + timeout_ms * 1000000 in
  let* raw_handle := BatchTransferHostAsync is_get desc_list in
  require (negb (is_null raw_handle)) PARAM_INVALID ;;
  loop (timed_rounds timeout_ms) (sync_round deadline raw_handle) tt.

(** ** The two entries: the endpoint says who runs the transfer *)
Definition mapped_descs (e : Endpoint) (desc_list : list HixlOneSideOpDesc) : C (list HixlOneSideOpDesc) :=
  if need_host_va_mapping_ e then ConvertHostMappedDescs desc_list else ret desc_list.

Definition not_latched : C unit :=
  let* s := get in require (negb (transfer_failure_latched_ (cl_device s))) FAILED.

(** [ConvertHostMappedDescs] and a bad location return before the latch. *)
Definition BatchTransferSync (is_get : bool) (desc_list : list HixlOneSideOpDesc) (timeout_ms : Z) : C unit :=
  not_latched ;;
  with_context
    (ValidateAddress desc_list ;;
     check_endpoint ;;
     let* e := the_endpoint in
     let* s := get in
     if IsDeviceEndpoint (endpoint_ e) then
       if ubmem_engine_ (cl_settings s) then
         LatchTransferFailureIfNeeded
           (let* st := call (Cli (UbSubmitSync is_get desc_list timeout_ms)) in require (st =? SUCCESS) st)
       else
         let* descs := mapped_descs e desc_list in
         LatchTransferFailureIfNeeded (BatchTransferDeviceSync is_get descs timeout_ms)
     else if ed_locType (endpoint_ e) =? ENDPOINT_LOC_TYPE_HOST then
       LatchTransferFailureIfNeeded (BatchTransferHostSync is_get desc_list timeout_ms)
     else fail PARAM_INVALID).

Definition BatchTransferAsync (is_get : bool) (desc_list : list HixlOneSideOpDesc) : C Z :=
  not_latched ;;
  with_context
    (ValidateAddress desc_list ;;
     check_endpoint ;;
     let* e := the_endpoint in
     let* s := get in
     if IsDeviceEndpoint (endpoint_ e) then
       if ubmem_engine_ (cl_settings s) then
         LatchTransferFailureIfNeeded
           (let* r := call (Cli (UbSubmitAsync is_get desc_list)) in
            let '(st, query_handle) := r in
            require (st =? SUCCESS) st ;; ret query_handle)
       else
         let* descs := mapped_descs e desc_list in
         LatchTransferFailureIfNeeded (BatchTransferDeviceAsync is_get descs)
     else if ed_locType (endpoint_ e) =? ENDPOINT_LOC_TYPE_HOST then
       LatchTransferFailureIfNeeded (BatchTransferHostAsync is_get desc_list)
     else fail PARAM_INVALID).

(** * Destroy *)
Definition release_live (h : Z) : M NetOp FlagQueue unit := if is_null h then ret tt else delete_handle h.
Definition ReleaseLegacyHandles : M NetOp FlagQueue unit :=
  let* q := get in
  if forallb is_null (live_handles_ q) then ret tt else
  for_each (live_handles_ q) release_live ;;
  modify (fun q => q <| live_handles_ := replicate kFlagQueueSize nullptr |>
                     <| available_indices_ := Z.of_nat <$> seq 0 kFlagQueueSize |> <| top_index_ := kFlagQueueSize |>).

Definition deregister_notify (h : Z) : C unit :=
  if is_null h then ret tt else
  let* s := get in
  match local_endpoint_ s with
  | Some _ => log_only (on_endpoint (Endpoint_DeregisterMem h))
  | None => ret tt
  end.
Definition ReleaseDeviceResources : C unit :=
  let* s := get in
  for_each (notify_mem_handles_ (cl_device s)) deregister_notify ;;
  on_device (modify (fun d => d <| notify_mem_handles_ := [] |>)) ;;
  on_device CleanupActiveSlot.

Definition finalize_endpoint : C Status :=
  let* s := get in
  match local_endpoint_ s with
  | None => ret SUCCESS
  | Some _ =>
      let* st := on_endpoint Endpoint_Finalize in
      modify (fun s => s <| local_endpoint_ := None |>) ;;
      ret st
  end.

Definition Destroy : C Status :=
  let* first_error :=
    with_context
      (on_flags ReleaseLegacyHandles ;;
       let* s := get in
       (if ubmem_engine_ (cl_settings s) then
          call (Cli UbFinalize) ;; on_settings (modify (fun st => st <| ubmem_engine_ := false |>))
        else ret tt) ;;
       on_device AbortAllPendingDeviceHandles ;;
       ReleaseDeviceResources ;;
       let* r := attempt ClearRemoteMemInfo in
       CloseSocket ;;
       on_settings (modify (fun st => st <| is_connected_ := false |>)) ;;
       let* st := finalize_endpoint in
       ret (first_error (status_of r) st)) in
  pool_rollback ;;
  let* s := get in
  (if tls_initialized_ (cl_settings s) then
     on_settings (modify (fun st => st <| tls_initialized_ := false |>)) ;; call (Cli TlsManagerFinalize)
   else ret tt) ;;
  ret first_error.

(** [~HixlCSClient]. *)
Definition free_flag_queue : M NetOp FlagQueue unit :=
  let* q := get in
  (if is_null (flag_queue_ q) then ret tt else
     call (Hc (HostFree (flag_queue_ q))) ;; modify (fun q => q <| flag_queue_ := nullptr |>)) ;;
  for_each (live_handles_ q) release_live ;;
  modify (fun q => q <| live_handles_ := replicate kFlagQueueSize nullptr |>).
Definition HixlCSClient_delete : C unit :=
  let* _ := attempt Destroy in
  on_flags free_flag_queue.
End Client.
