(* ===== verification/RemoteMemSafety.v ===== *)
(** The descriptors of a server's memory, as a client receives them: a buffer for each
    exported description, all of them freed when one descriptor cannot be read. *)

From S2P Require Import Prelude StdMap Effects External Runtime Wire Hcomm MemStore TransferPool ClientRt Net CtrlConn CtrlConnSpec CtrlConnSafety MsgReceiver ConnMsg HostRegister Endpoint GlobalConfig RemoteMem HcResources EndpointSafety ServerCalls ClientState ClientLedger.

(** * What a JSON value has inside *)
Inductive inside : Json -> Json -> Prop :=
| inside_refl j : inside j j
| inside_array x j l : j ∈ l -> inside x j -> inside x (JArray l)
| inside_object x k j l : (k, j) ∈ l -> inside x j -> inside x (JObject l).

Lemma inside_trans x y z : inside x y -> inside y z -> inside x z.
Proof. intros H1 H2. revert x H1. induction H2; intros y H1; [done|by eapply inside_array; eauto|by eapply inside_object; eauto]. Qed.
Lemma json_find_inside key j x : json_find key j = Some x -> inside x j.
Proof.
  destruct j as [| | | | | |l]; try done. cbn [json_find]. destruct (List.find _ l) as [[k y]|] eqn:E; [|done].
  intros [= <-]. apply List.find_some in E as [Hin _]. apply list_elem_of_In in Hin. eapply inside_object; [exact Hin|constructor].
Qed.

(** An array has no more elements than the text it was read from has characters. *)
Class JsonLaws (env : Environment NetOp) : Prop :=
  array_size : forall text h j l, Some j = reply_of _ (Cli (JsonParse text)) h -> inside (JArray l) j -> (length l <= length text)%nat.

(** * The buffers of descriptors *)
Definition export_res (d : HixlMemDesc) : list HcRes := host_of (hmd_export_desc d).
Definition descs_res (l : list HixlMemDesc) : list HcRes := mjoin (export_res <$> l).
(** A description that has a buffer has bytes in it. *)
Definition desc_ok (d : HixlMemDesc) : Prop := hmd_export_desc d <> nullptr -> 0 < hmd_export_len d.

Lemma descs_res_app l l' : descs_res (l ++ l') = descs_res l ++ descs_res l'.
Proof. unfold descs_res. by rewrite fmap_app, join_app. Qed.
Lemma descs_res_cons d l : descs_res (d :: l) = export_res d ++ descs_res l.
Proof. done. Qed.
Lemma export_res_new : export_res HixlMemDesc_new = [].
Proof. done. Qed.
Lemma host_of_null p : is_null p = true -> host_of p = [].
Proof. unfold host_of. by intros ->. Qed.
Lemma host_of_some p : is_null p = false -> host_of p = [RHost p].
Proof. unfold host_of. by intros ->. Qed.

Section Frees.
Context {codes : AclCodes} {again : HcclAgain} {env : Environment NetOp} {S : Type}.
Implicit Types (own O : list HcRes) (W : list Conn) (s : S).

Lemma lwp_free_export d Q s O W : Q (inr tt) s O W -> lwp (free_export d) Q s (export_res d ++ O) W.
Proof.
  intros HQ. unfold free_export, export_res. destruct (is_null _) eqn:E; [rewrite host_of_null by done; by lstep|].
  rewrite host_of_some by done. by apply lwp_HostFree.
Qed.
Lemma lwp_free_exports l Q s O W : Q (inr tt) s O W -> lwp (for_each l free_export) Q s (descs_res l ++ O) W.
Proof.
  intros HQ. induction l as [|d l IH]; cbn [for_each]; [by lstep|]. rewrite descs_res_cons, <- app_assoc. lstep.
  by apply lwp_free_export.
Qed.
End Frees.

(** * Parsing *)
Section Parse.
Context {nl : Nlohmann} {codes : AclCodes} {again : HcclAgain} {env : Environment NetOp} {Hhc : HcLaws env} {Hcli : CliLaws env}.
Context `{Sec : Securec}.
Implicit Types (own O : list HcRes) (W : list Conn).

(** Steps that leave everything alone. *)
Definition pure_step {S A} (m : M NetOp S A) (P : A -> Prop) : Prop :=
  forall (Q : Status + A -> S -> list HcRes -> list Conn -> Prop) s own W,
    (forall e, Q (inl e) s own W) -> (forall a, P a -> Q (inr a) s own W) -> lwp m Q s own W.

Lemma ps_ret {S A} (a : A) (P : A -> Prop) : P a -> pure_step (ret a : M NetOp S A) P.
Proof. intros H Q s own W _ HQ. lstep. by apply HQ. Qed.
Lemma ps_fail {S A} e (P : A -> Prop) : pure_step (fail e : M NetOp S A) P.
Proof. intros Q s own W HE _. by lstep. Qed.
Lemma ps_or_throw {S A} (o : option A) : pure_step (or_throw o : M NetOp S A) (fun a => o = Some a).
Proof. unfold or_throw. destruct o; [by apply ps_ret|apply ps_fail]. Qed.
Lemma ps_need_field {S} key j : pure_step (need_field key j : M NetOp S Json) (fun x => json_find key j = Some x).
Proof. apply ps_or_throw. Qed.
Lemma ps_get_string {S} j : pure_step (get_string j : M NetOp S string) (fun _ => True).
Proof. unfold get_string. destruct j; first [by apply ps_ret|apply ps_fail]. Qed.
Lemma ps_require {S} b e : pure_step (require b e : M NetOp S unit) (fun _ => b = true).
Proof. destruct b; [by apply ps_ret|apply ps_fail]. Qed.
Lemma ps_bind {S A B} (m : M NetOp S A) (k : A -> M NetOp S B) (P : A -> Prop) (P' : B -> Prop) :
  pure_step m P -> (forall a, P a -> pure_step (k a) P') -> pure_step (bind m k) P'.
Proof. intros Hm Hk Q s own W HE HQ. lstep. apply Hm; [done|]. intros a Ha. by apply Hk. Qed.

Lemma ps_ParseMemObject {S} j : pure_step (ParseMemObject j : M NetOp S CommMem) (fun _ => True).
Proof.
  unfold ParseMemObject. eapply ps_bind; [apply ps_require|]. intros _ _.
  do 3 (eapply ps_bind; [apply ps_need_field|]; intros ? _; eapply ps_bind; [apply ps_or_throw|]; intros ? _). by apply ps_ret.
Qed.
Lemma ps_export_bytes {S} l : pure_step (export_bytes_of l : M NetOp S (list Z)) (fun _ => True).
Proof.
  induction l as [|j l IH]; cbn [export_bytes_of]; [by apply ps_ret|]. unfold export_byte.
  eapply ps_bind with (P := fun _ => True); [|intros v _; eapply ps_bind; [exact IH|]; intros; by apply ps_ret].
  eapply ps_bind; [apply ps_require|]; intros _ _. eapply ps_bind; [apply ps_or_throw|]; intros v _.
  eapply ps_bind; [apply ps_require|]; intros _ _. by apply ps_ret.
Qed.
Lemma ps_ResultAndArray {S} j : pure_step (ParseResultAndGetArray j : M NetOp S (list Json)) (fun l => inside (JArray l) j).
Proof.
  unfold ParseResultAndGetArray. eapply ps_bind; [apply ps_require|]; intros _ _. eapply ps_bind; [apply ps_need_field|]; intros ? _.
  eapply ps_bind; [apply ps_or_throw|]; intros ? _. eapply ps_bind; [apply ps_require|]; intros _ _.
  destruct (json_find "mem_descs" j) as [[]|] eqn:E; try apply ps_fail. apply ps_ret. by eapply json_find_inside.
Qed.

(** Arrays that a 32-bit length counts. *)
Definition counted (j : Json) : Prop := forall l, inside (JArray l) j -> Z.of_nat (length l) < 2 ^ 32.
Lemma counted_inside x j : counted j -> inside x j -> counted x.
Proof. intros H Hx l Hl. apply H. by eapply inside_trans. Qed.

Lemma lwp_FillExportDesc (Q : Status + unit -> HixlMemDesc -> list HcRes -> list Conn -> Prop) j d O W :
  counted j -> hmd_export_desc d = nullptr ->
  (forall o d', desc_ok d' -> Q o d' (export_res d' ++ O) W) -> lwp (FillExportDescFromJsonField j) Q d O W.
Proof using Hcli.
  intros Hj Hd HQ. unfold FillExportDescFromJsonField. do 2 lstep. rewrite Hd. lstep. cbn [is_null nullptr negb Z.eqb]. do 2 lstep. lstep.
  assert (Hend : forall o, Q o (set_export (hmd_export_desc d) 0 d) O W).
  { intros o. assert (Er : export_res (set_export (hmd_export_desc d) 0 d) = []) by (unfold export_res; cbn; by rewrite Hd).
    specialize (HQ o (set_export (hmd_export_desc d) 0 d)). rewrite Er in HQ. apply HQ. intros Hn. by destruct Hn. }
  destruct j as [| | | | |[|x l]|]; try (by lstep). set (n := Z.of_nat (length (x :: l))). lstep.
  apply lwp_Malloc. intros p _. unfold host_of. destruct (is_null p) eqn:Ep; cbn [negb require app]; [by apply lwp_bind, lwp_fail|].
  apply lwp_bind, lwp_ret. lstep. lstep. apply ps_export_bytes; [intros e; apply lwp_HostFree; by apply Hend|]. intros bytes _.
  lstep. eapply (lwp_use _ (RHost p)); [by repeat split|by left|done|]. intros []. lstep.
  assert (Hn : 0 < n < 2 ^ 32) by (split; [subst n; cbn [length]; lia|apply (Hj (x :: l)); constructor]).
  assert (Eu : u32 n = n) by (unfold u32; apply Z.mod_small; lia).
  match goal with |- Q _ ?d' _ _ => assert (Er : export_res d' = [RHost p]) by (unfold export_res; cbn; by apply host_of_some) end.
  change (RHost p :: O) with ([RHost p] ++ O). rewrite <- Er. apply HQ. intros _. cbn. rewrite Eu. lia.
Qed.

Lemma lwp_ParseOneMemDesc (Q : Status + unit -> HixlMemDesc -> list HcRes -> list Conn -> Prop) j d O W :
  counted j -> hmd_export_desc d = nullptr ->
  (forall o d', desc_ok d' -> Q o d' (export_res d' ++ O) W) -> lwp (ParseOneMemDesc j) Q d O W.
Proof using Hcli.
  intros Hj Hd HQ. unfold ParseOneMemDesc.
  assert (HE : forall o d', hmd_export_desc d' = nullptr -> Q o d' O W).
  { intros o d' E. assert (Er : export_res d' = []) by (unfold export_res; by rewrite E).
    specialize (HQ o d'). rewrite Er in HQ. apply HQ. intros Hn. by destruct Hn. }
  lstep. lstep; [|by apply HE]. lstep. apply ps_need_field; [intros; by apply HE|]. intros jm _.
  lstep. apply ps_ParseMemObject; [intros; by apply HE|]. intros mem _. do 2 lstep.
  lstep. apply ps_need_field; [intros; by apply HE|]. intros jt _.
  lstep. apply ps_get_string; [intros; by apply HE|]. intros tag _. do 2 lstep. lstep.
  assert (Hrest : forall d', hmd_export_desc d' = nullptr ->
    lwp (let* j_export := need_field "export_desc" j in FillExportDescFromJsonField j_export) Q d' O W).
  { intros d' Hd'. lstep. apply ps_need_field; [intros; by apply HE|]. intros je Hje.
    apply lwp_FillExportDesc; [|done|done]. eapply counted_inside; [exact Hj|by eapply json_find_inside]. }
  destruct (json_find "registered_dev_mem" j) as [jr|].
  - lstep. apply ps_or_throw; [intros; by apply HE|]. intros x _. lstep. by apply Hrest.
  - lstep. by apply Hrest.
Qed.

(** What is parsed so far: the descriptors of the list. *)
Definition parsed (O : list HcRes) (p : Parsing) (own : list HcRes) : Prop :=
  own ≡ₚ descs_res (ps_done p) ++ O /\ Forall desc_ok (ps_done p).

Lemma lwp_parse_item (Q : Status + unit -> Parsing -> list HcRes -> list Conn -> Prop) j p O own W :
  counted j -> parsed O p own -> (forall e p', Q (inl e) p' O W) ->
  (forall p' own', parsed O p' own' -> Q (inr tt) p' own' W) -> lwp (parse_item j) Q p own W.
Proof using Hcli.
  intros Hj [E Hp] HE HQ. eapply lwp_perm; [exact E|]. unfold parse_item. lstep. lstep. lstep. apply lwp_on_fail. eapply lwp_zoom; [done|].
  apply lwp_ParseOneMemDesc; [done|done|]. intros [e|[]] d Hd; cbn [ps_desc set_desc].
  - lstep. lstep. cbn [ps_desc set_desc]. lstep. apply lwp_free_export. unfold FreeParsedDescs. do 2 lstep. lstep.
    apply lwp_free_exports. lstep. apply HE.
  - lstep. destruct p as [d0 done]. cbn [ps_desc set_desc ps_done set_done] in *. apply HQ. split; cbn [ps_done set_done].
    + rewrite descs_res_app, descs_res_cons, app_nil_r. solve_Permutation.
    + apply Forall_app. by split; [|constructor].
Qed.

Lemma lwp_ParseMemDescsArray (Q : Status + unit -> Parsing -> list HcRes -> list Conn -> Prop) l p O W :
  Forall counted l -> ps_done p = [] -> (forall e p', Q (inl e) p' O W) ->
  (forall p' own', parsed O p' own' -> Q (inr tt) p' own' W) -> lwp (ParseMemDescsArray l) Q p O W.
Proof using Hcli.
  intros Hl Hp HE HQ. unfold ParseMemDescsArray. lstep. lstep; [|apply HE]. do 2 lstep.
  apply (lwp_mono _ (fun o p' own' W' => W' = W /\ match o with inr _ => parsed O p' own' | inl _ => own' = O end)).
  - apply (lwp_for_each _ _ (fun p' own' W' => W' = W /\ parsed O p' own') (fun _ p' own' W' => W' = W /\ own' = O)).
    + split; [done|]. by split; [cbn|constructor].
    + intros j p' own' W' Hj [-> Hp']. eapply lwp_parse_item; [|exact Hp'|done|done].
      apply elem_of_take in Hj as (i & Hi & _). by eapply Forall_lookup_1 in Hl.
  - intros [e|[]] p' own' W' [-> Ho]; [subst; apply HE|by apply HQ].
Qed.

Context {Hjson : JsonLaws env}.

Lemma lwp_ParseGetRemoteMemJson (Q : Status + unit -> Parsing -> list HcRes -> list Conn -> Prop) text p O W :
  Z.of_nat (length text) < 2 ^ 32 -> ps_done p = [] -> (forall e p', Q (inl e) p' O W) ->
  (forall p' own', parsed O p' own' -> Q (inr tt) p' own' W) -> lwp (ParseGetRemoteMemJson text) Q p O W.
Proof using Hcli Hjson.
  intros Ht Hp HE HQ h Hl. unfold ParseGetRemoteMemJson. apply wp_bind, wp_call. intros [j|] Hr.
  2: { cbn [or_throw]. apply wp_bind, wp_fail. exists O, W. split; [|apply HE]. apply (ledger_calm [_]); [by repeat constructor|done]. }
  assert (Hj : counted j).
  { intros l Hin. pose proof (array_size text h j l Hr Hin). lia. }
  assert (Hl' : ledger O W (Ev (Cli (JsonParse text)) (Some j) :: h)) by (apply (ledger_calm [_]); [by repeat constructor|done]).
  revert Hl'. generalize (Ev (Cli (JsonParse text)) (Some j) :: h). clear dependent h. apply lwp_bind. cbn [or_throw]. apply lwp_ret.
  lstep. apply ps_ResultAndArray; [intros; apply HE|]. intros l Hin.
  apply lwp_ParseMemDescsArray; [|done|done|done]. apply Forall_forall. intros x Hx. apply (counted_inside _ _ Hj).
  eapply inside_trans; [|exact Hin]. eapply inside_array; [exact Hx|constructor].
Qed.
End Parse.

(** * The message *)
Section Message.
Context {codes : AclCodes} {again : HcclAgain} {env : Environment NetOp} {Hnet : NetLaws env}.
Implicit Types (own O : list HcRes) (W : list Conn) (c : Conn).

(** A call on one connection. *)
Lemma lwp_conn {A} (m : M NetOp Conn A) (Q : Status + A -> Conn -> list HcRes -> list Conn -> Prop) (P : Status + A -> Conn -> Prop) c own W :
  emits neutral m -> (forall F S h, holds c h F S -> wp m (fun o c' h' => holds c' h' F S /\ P o c') c h) ->
  (forall o c', P o c' -> Q o c' own (c' :: W)) -> lwp m Q c own (c :: W).
Proof.
  intros Hn Hm HQ h [L1 [Hap Hh]%owned_cons L3]. eapply wp_mono; [apply (wp_emits neutral); [exact Hn|]; by apply Hm|].
  intros o c' h' [[Hh' HP] (t & -> & Ht)]. exists own, (c' :: W). split; [|by apply HQ].
  constructor; [by apply acct_quiet|by apply owned_cons|]. eapply pools_more; [done|done].
Qed.

(** Receiving: what comes has the length that was asked for. *)
Lemma lwp_Recv len ms (Q : Status + list Z -> Conn -> list HcRes -> list Conn -> Prop) c own W :
  (forall o c', (forall l, o = inr l -> Z.of_nat (length l) = Z.max 0 len) -> Q o c' own (c' :: W)) ->
  lwp (CtrlMsgPlugin_Recv len ms) Q c own (c :: W).
Proof using Hnet.
  intros HQ. eapply (lwp_conn _ _ (fun o _ => forall l, o = inr l -> Z.of_nat (length l) = Z.max 0 len)).
  - apply em_Recv.
  - intros F S h H. apply wp_Recv. intros o c' h' got R [_ Ho]. split; [by eapply holds_ran|]. by intros l ->; destruct Ho as [-> ?].
  - done.
Qed.
Lemma lwp_Send bs ms (Q : Status + unit -> Conn -> list HcRes -> list Conn -> Prop) c own W :
  (forall o c', Q o c' own (c' :: W)) -> lwp (CtrlMsgPlugin_Send bs ms) Q c own (c :: W).
Proof using Hnet.
  intros HQ. eapply (lwp_conn _ _ (fun _ _ => True)); [apply em_Send| |by auto].
  intros F S h H. apply wp_Send. intros o c' h' done rest R _ _. split; [by eapply holds_ran|done].
Qed.
End Message.

Section Response.
Context {nl : Nlohmann} {codes : AclCodes} {again : HcclAgain} {env : Environment NetOp}.
Context {Hnet : NetLaws env} {Hhc : HcLaws env} {Hcli : CliLaws env} {Hjson : JsonLaws env} `{Sec : Securec}.

(** On success the client owns the buffers of the descriptors, otherwise none. *)
Lemma lwp_RecvGetRemoteMemResponse ms (Q : Status + list HixlMemDesc -> Conn -> list HcRes -> list Conn -> Prop) c own W :
  (forall e c', Q (inl e) c' own (c' :: W)) ->
  (forall l c' own', Forall desc_ok l -> own' ≡ₚ descs_res l ++ own -> Q (inr l) c' own' (c' :: W)) ->
  lwp (RecvGetRemoteMemResponse ms) Q c own (c :: W).
Proof using Hnet Hcli Hjson.
  intros HE HQ. unfold RecvGetRemoteMemResponse. lstep.
  apply (lwp_mono _ (fun o c' own' W' => own' = own /\ W' = c' :: W /\ forall n, o = inr n -> 0 <= n <= kMaxGetRemoteMemBodySize)).
  { unfold RecvAndCheckHeader. lstep. apply lwp_Recv. intros [e|bs] c' _; [done|]. lstep.
    lstep; [|done]. lstep. lstep; [|done]. lstep. split_and!; [done..|]. intros n [= <-].
    apply andb_prop in H0 as [H1%Z.ltb_lt H2%Z.leb_le]. cbn [body_size CtrlMsgHeader_of] in *. lia. }
  intros [e|n] c1 own' W' (-> & -> & Hn); [apply HE|]. specialize (Hn n eq_refl). unfold kMaxGetRemoteMemBodySize in Hn.
  lstep. apply lwp_Recv. intros [e|body] c2 Hb; [apply HE|]. specialize (Hb body eq_refl). lstep. unfold ExtractTypeAndJsonPtr.
  lstep. unfold copy_struct. destruct (memcpy_s _ _ _ _) as [rc bytes]. lstep. lstep; [|apply HE]. do 2 lstep. lstep; [|apply HE].
  lstep. eapply lwp_zoom; [done|]. lstep. apply lwp_ParseGetRemoteMemJson.
  - rewrite length_drop. rewrite u32_small in Hb by ulia. lia.
  - done.
  - intros. apply HE.
  - intros p own' [E Hp]. do 3 lstep. by apply HQ.
Qed.
End Response.
