(* ===== verification/HostTransferSafety.v ===== *)
(** The flags of the transfers that a client starts itself: every index is free, taken
    by the running call, or that of one handle; and transfers with retries end. *)

From S2P Require Import Prelude StdMap Effects External Runtime Wire Hcomm MemStore TransferPool ClientRt Net CtrlConn CtrlConnSpec CtrlConnSafety HostRegister Endpoint GlobalConfig HcResources EndpointSafety ServerCalls ClientLedger ClientState HostTransfer DeviceTransfer ClientMemory CsClient.

(** * Transfers with retries *)
Section Retry.
Context {codes : AclCodes} {again : HcclAgain} {env : Environment NetOp} {Hnet : NetLaws env} {S : Type}.
Implicit Types (own : list HcRes) (W : list Conn) (s : S).

Lemma ledger_event {T} (op : NetOp T) r own W (h : History NetOp) : calm (Ev op r) -> ledger own W h -> ledger own W (Ev op r :: h).
Proof. intros Hc Hl. apply (ledger_calm [_]); [by constructor|done]. Qed.

Lemma later_more r t (h : History NetOp) : later r h -> later r (t ++ h).
Proof. intros [H1 H2]. split; [by apply clock_from_mono|]. intros t' T op x Hop. rewrite app_assoc. by apply H2. Qed.
Lemma later_now r (h : History NetOp) : r = reply_of Z NetNow h -> later r (Ev NetNow r :: h).
Proof using Hnet. intros Hr. split; [by apply clock_monotone|]. intros. by apply clock_io. Qed.

(** The measure of a loop whose rounds have an I/O call and then read the clock. *)
Definition ticking (ms start n : Z) (h : History NetOp) : Prop :=
  exists prev, time_left ms start n (prev + 1) /\ later prev h.

Lemma ticking_start ms start (h : History NetOp) : 0 < ms -> start = reply_of Z NetNow h ->
  ticking ms start (Z.max 0 ms * 1000000) (Ev NetNow start :: h).
Proof using Hnet. intros Hms Hs. exists start. split; [unfold time_left; lia|by apply later_now]. Qed.
Lemma ticking_nonneg ms start n (h : History NetOp) : ticking ms start n h -> 0 <= n.
Proof using . intros (p & HT & _). by eapply time_left_nonneg. Qed.
Lemma ticking_enough ms start n (h : History NetOp) : ticking ms start n h -> n < Z.pos (timed_rounds ms).
Proof using . intros (p & HT & _). by eapply time_left_enough. Qed.
Lemma ticking_next ms start n T (op : NetOp T) x t h now : ticking ms start n h -> is_io op = true ->
  now = reply_of Z NetNow (t ++ Ev op x :: h) -> to_ms (now - start) < ms ->
  exists n', n' < n /\ ticking ms start n' (Ev NetNow now :: t ++ Ev op x :: h).
Proof using Hnet.
  intros (p & HT & [_ Hl]) Hop Hnow Hel. assert (Hge : p + 1 <= now) by (rewrite Hnow; apply (Hl [] _ op x Hop t)).
  destruct (time_left_next _ _ _ _ _ HT Hge Hel) as (n' & Hn & HT'). exists n'. split; [done|].
  exists now. split; [done|by apply later_now].
Qed.

Lemma lwp_TransferWithRetry is_get ch dst src len Q s own W :
  (forall o, Q o s own W) -> lwp (TransferWithRetry is_get ch dst src len) Q s own W.
Proof using Hnet.
  intros HQ h Hl. unfold TransferWithRetry. apply wp_bind, wp_call. intros start Hstart.
  set (K := fun (o : Status + unit) s' h' => exists own' W', ledger own' W' h' /\ Q o s' own' W').
  assert (Hend : forall o h', ledger own W h' -> K o s h') by (intros o h' H; by exists own, W).
  apply (wp_loop (retry_round is_get ch dst src len start)
    (fun n _ s' h' => s' = s /\ ledger own W h' /\ ticking kRetryTimeoutMs start n h') K)
    with (n := Z.max 0 kRetryTimeoutMs * 1000000).
  - intros n [] s' h' (_ & _ & HT). by eapply ticking_nonneg.
  - clear h Hl Hstart. intros n [] s' h (-> & Hl & HT). unfold retry_round.
    apply wp_bind, wp_call. intros rc _. apply (ledger_event (Cli (HcommNbi is_get ch dst src len)) rc) in Hl; [|by repeat split].
    destruct (rc =? HCCL_SUCCESS) eqn:Erc; [apply wp_ret; by apply Hend|]. apply wp_bind.
    eapply (wp_mono _ (fun o s' h' => s' = s /\ h' = Ev (Cli (HcommNbi is_get ch dst src len)) rc :: h)).
    { destruct (negb _); [unfold chk_hccl; rewrite Erc|]; by split. }
    intros [e|[]] s' h' [-> ->]; [by apply Hend|].
    apply wp_bind, wp_call. intros now Hnow. apply (ledger_event NetNow now) in Hl; [|by repeat split].
    apply wp_bind, wp_require; intros Hel; [|by apply Hend]. apply Z.ltb_lt in Hel.
    destruct (ticking_next _ _ _ _ (Cli (HcommNbi is_get ch dst src len)) rc [] _ _ HT eq_refl Hnow Hel) as (n' & Hn & Hp).
    apply wp_bind, wp_call. intros rc2 _. apply (ledger_event (Cli (HcommFence ch)) rc2) in Hl; [|by repeat split].
    apply wp_bind. unfold chk_hccl. destruct (rc2 =? HCCL_SUCCESS); [|by apply Hend]. apply wp_ret, wp_ret.
    exists n'. split; [done|]. split_and!; [done|done|]. destruct Hp as (p & HT' & Hp). exists p.
    split; [done|by apply (later_more p [_])].
  - eapply ticking_enough. by apply (ticking_start _ _ h).
  - split_and!; [done|by apply ledger_event|by apply ticking_start].
Qed.

Lemma lwp_BatchTransferTask is_get ch l Q s own W :
  (forall o, Q o s own W) -> lwp (BatchTransferTask is_get ch l) Q s own W.
Proof using Hnet.
  intros HQ. unfold BatchTransferTask. apply lwp_bind.
  eapply lwp_mono; [apply (lwp_for_each _ _ (fun s' own' W' => s' = s /\ own' = own /\ W' = W)
    (fun _ s' own' W' => s' = s /\ own' = own /\ W' = W)); [done|]|].
  - intros d s' own' W' _ (-> & -> & ->). apply lwp_TransferWithRetry. by intros [e|[]].
  - intros [e|[]] s' own' W' (-> & -> & ->); [apply HQ|]. lstep. calm_call. intros rc. by apply lwp_chk_hccl.
Qed.
End Retry.

(** * The flags *)
Definition all_indices : list Z := Z.of_nat <$> seq 0 kFlagQueueSize.
Definition indices_of (l : list (Z * CompleteHandleInfo)) : list Z := (fun p => ch_flag_index p.2) <$> l.
Definition handles_of (l : list (Z * CompleteHandleInfo)) : list HcRes := (fun p => RHost p.1) <$> l.
Definition free_indices (q : FlagQueue) : list Z := take (top_index_ q) (available_indices_ q).

(** A handle is live under its index, and the magic and the word are those of its index. *)
Definition handle_ok (q : FlagQueue) (p : Z * CompleteHandleInfo) : Prop :=
  p.1 <> nullptr /\ ch_magic p.2 = kRoceCompleteMagic /\
  ch_flag_address p.2 = flag_address (flag_queue_ q) (ch_flag_index p.2) /\
  live_handles_ q !! Z.to_nat (ch_flag_index p.2) = Some p.1.

Record flags_wf (taken : list Z) (q : FlagQueue) : Prop := {
  fw_avail : length (available_indices_ q) = kFlagQueueSize;
  fw_lives : length (live_handles_ q) = kFlagQueueSize;
  fw_map : std_map_wf (complete_handles q);
  fw_handles : Forall (handle_ok q) (complete_handles q);
  fw_live : forall i h, live_handles_ q !! i = Some h -> h <> nullptr ->
    exists x, (h, x) ∈ complete_handles q /\ ch_flag_index x = Z.of_nat i;
  fw_indices :
    (flag_queue_ q = nullptr /\ top_index_ q = 0%nat /\ complete_handles q = [] /\ taken = [] /\
       available_indices_ q = all_indices) \/
    (flag_queue_ q <> nullptr /\ (top_index_ q <= kFlagQueueSize)%nat /\
     free_indices q ++ taken ++ indices_of (complete_handles q) ≡ₚ all_indices)
}.

Definition flag_res (q : FlagQueue) : list HcRes := host_of (flag_queue_ q) ++ handles_of (complete_handles q).

Lemma all_indices_range i : i ∈ all_indices -> 0 <= i < Z.of_nat kFlagQueueSize.
Proof. intros (k & -> & [_ Hk]%elem_of_seq)%list_elem_of_fmap. lia. Qed.
Lemma length_all_indices : length all_indices = kFlagQueueSize.
Proof. unfold all_indices. by rewrite length_fmap, length_seq. Qed.
Opaque kFlagQueueSize.

Lemma flags_wf_new px : flags_wf [] (cl_flags (HixlCSClient_new px)).
Proof.
  constructor; cbn [cl_flags HixlCSClient_new available_indices_ live_handles_ complete_handles flag_queue_ top_index_].
  - apply length_all_indices.
  - apply length_replicate.
  - constructor.
  - constructor.
  - intros i h [-> _]%lookup_replicate. done.
  - by left.
Qed.

(** Every index in use is of the array, and there is room for it on the stack. *)
Lemma taken_index taken q i : flags_wf taken q -> i ∈ taken ++ indices_of (complete_handles q) ->
  0 <= i < Z.of_nat kFlagQueueSize /\ flag_queue_ q <> nullptr /\ (top_index_ q < kFlagQueueSize)%nat.
Proof.
  intros [H1 H2 H3 H4 H5 [(_ & _ & E & -> & _)|(Hq & Ht & E)]] Hi.
  { rewrite E in Hi. cbn in Hi. by apply elem_of_nil in Hi. }
  split; [|split; [done|]].
  - apply all_indices_range. rewrite <- E. apply elem_of_app. by right.
  - apply Permutation_length in E. rewrite length_all_indices, length_app in E. unfold free_indices in E.
    rewrite length_take, H1 in E. destruct (taken ++ _); [by apply elem_of_nil in Hi|]. cbn [length] in E. lia.
Qed.

Lemma free_pushed q i avail : length (available_indices_ q) = kFlagQueueSize -> (top_index_ q < kFlagQueueSize)%nat ->
  avail = <[top_index_ q := i]> (available_indices_ q) ->
  take (S (top_index_ q)) avail = free_indices q ++ [i].
Proof.
  intros Hl Ht ->. rewrite (take_S_r _ _ i) by (apply list_lookup_insert_eq; by rewrite Hl).
  by rewrite take_insert_ge.
Qed.

Section Flags.
Context {codes : AclCodes} {again : HcclAgain} {env : Environment NetOp} {Hhc : HcLaws env} {Hcli : CliLaws env}.
Implicit Types (q : FlagQueue) (own O : list HcRes) (W : list Conn).

Lemma lwp_AcquireFlagIndex (Q : Status + Z -> FlagQueue -> list HcRes -> list Conn -> Prop) q own W :
  flags_wf [] q -> Q (inr (-1)) q own W ->
  (forall i q', 0 <= i < Z.of_nat kFlagQueueSize -> flags_wf [i] q' -> flag_res q' = flag_res q -> Q (inr i) q' own W) ->
  lwp AcquireFlagIndex Q q own W.
Proof.
  intros Hw HE HQ. unfold AcquireFlagIndex. do 2 lstep. destruct (top_index_ q) as [|top] eqn:Et; [by lstep|].
  do 2 lstep. cbn [available_indices_]. destruct Hw as [H1 H2 H3 H4 H5 [(_ & E & _)|(Hq & Ht & E)]]; [by rewrite Et in E|].
  destruct (lookup_lt_is_Some_2 (available_indices_ q) top) as [i Hi]; [lia|].
  change (available_indices_ (_ <| top_index_ := top |>)) with (available_indices_ q). rewrite Hi. lstep.
  assert (E' : take top (available_indices_ q) ++ [i] ++ indices_of (complete_handles q) ≡ₚ all_indices).
  { rewrite <- E. unfold free_indices. rewrite Et, (take_S_r _ _ _ Hi), <- app_assoc. done. }
  apply HQ; [| |done].
  - apply all_indices_range. rewrite <- E'. apply elem_of_app. right. by left.
  - constructor; try done. right. split_and!; [done|cbn; lia|exact E'].
Qed.

Lemma lwp_ReleaseFlagIndex (Q : Status + unit -> FlagQueue -> list HcRes -> list Conn -> Prop) i taken q own W :
  flags_wf (i :: taken) q ->
  (forall q', flags_wf taken q' -> flag_res q' = flag_res q -> Q (inr tt) q' own W) ->
  lwp (ReleaseFlagIndex i) Q q own W.
Proof.
  intros Hw HQ. unfold ReleaseFlagIndex. do 2 lstep. destruct (taken_index _ _ i Hw) as (Hi & Hq & Ht); [by left|].
  rewrite (proj2 (Nat.ltb_lt _ _) Ht). lstep. calm_call. intros []. lstep. apply HQ; [|done].
  destruct Hw as [H1 H2 H3 H4 H5 [(_ & _ & _ & ? & _)|(_ & _ & E)]]; [done|].
  constructor; cbn; [by rewrite length_insert|done..|]. right. split_and!; [done|lia|].
  unfold free_indices. cbn [top_index_ available_indices_]. rewrite (free_pushed q i) by done.
  rewrite <- E. cbn [app]. by rewrite <- app_assoc.
Qed.

(** A new handle takes over the index. *)
Definition new_info (i addr : Z) : CompleteHandleInfo :=
  {| ch_magic := kRoceCompleteMagic; ch_flag_index := i; ch_flag_address := addr |}.
Lemma flags_add q i h : flags_wf [i] q -> h <> nullptr -> std_find h (complete_handles q) = None ->
  let x := new_info i (flag_address (flag_queue_ q) i) in
  flags_wf [] (q <| complete_handles ::= std_set h x |> <| live_handles_ ::= <[Z.to_nat i := h]> |>).
Proof.
  intros Hw Hh Hn x. destruct (taken_index _ _ i Hw) as (Hi & Hq & Ht); [by left|].
  destruct Hw as [H1 H2 H3 H4 H5 [(_ & _ & _ & ? & _)|(_ & _ & E)]]; [done|].
  assert (Hp : std_set h x (complete_handles q) ≡ₚ (h, x) :: complete_handles q).
  { rewrite std_set_perm by done. by rewrite std_erase_none. }
  assert (Hother : forall p, p ∈ complete_handles q -> Z.to_nat (ch_flag_index p.2) <> Z.to_nat i).
  { intros p Hp' Ei. assert (Hd : NoDup (free_indices q ++ [i] ++ indices_of (complete_handles q))).
    { rewrite E. unfold all_indices. apply NoDup_fmap; [intros a b; lia|apply NoDup_seq]. }
    apply NoDup_app in Hd as (_ & _ & [Hd _]%NoDup_cons). apply Hd. apply list_elem_of_fmap. exists p. split; [|done].
    assert (ch_flag_index p.2 ∈ all_indices).
    { rewrite <- E, !elem_of_app. right; right. apply list_elem_of_fmap. by exists p. }
    apply all_indices_range in H. lia. }
  constructor; cbn; [done|by rewrite length_insert|by apply std_set_wf| | |].
  - rewrite Hp. constructor.
    + split_and!; try done. cbn. apply list_lookup_insert_eq. lia.
    + rewrite Forall_forall in *. intros p Hin. destruct (H4 p Hin) as (A1 & A2 & A3 & A4). split_and!; try done. cbn.
      rewrite list_lookup_insert_ne; [done|]. intros Ei. by apply (Hother p).
  - intros j h' Hj Hn'. destruct (decide (j = Z.to_nat i)) as [->|Hne].
    + rewrite list_lookup_insert_eq in Hj by lia. injection Hj as <-. exists x. split; [|cbn; lia].
      apply std_set_elem; [done|]. by left.
    + rewrite list_lookup_insert_ne in Hj by done. destruct (H5 j h' Hj Hn') as (y & Hy & Ey). exists y. split; [|done].
      apply std_set_elem; [done|]. right. split; [|done]. intros ->. apply std_find_none with (v := y) in Hn; [|done]. done.
  - right. split_and!; [done|lia|]. cbn. unfold indices_of. rewrite Hp. exact E.
Qed.

Lemma lwp_new_handle (Q : Status + Z -> FlagQueue -> list HcRes -> list Conn -> Prop) i addr q own W :
  flags_wf [i] q -> addr = flag_address (flag_queue_ q) i -> (forall r, r ∈ flag_res q -> r ∈ own) ->
  (forall e, Q (inl e) q own W) ->
  (forall h q', h <> nullptr -> RHost h ∉ own -> flags_wf [] q' -> std_find h (complete_handles q') = Some (new_info i addr) ->
     flag_res q' ≡ₚ RHost h :: flag_res q -> Q (inr h) q' (RHost h :: own) W) ->
  lwp (new_handle i addr) Q q own W.
Proof using Hcli.
  intros Hw -> Hown HE HQ. unfold new_handle. lstep. apply lwp_Malloc. intros p Hp. unfold host_of.
  lstep. lstep; [|by destruct (is_null p)]. rewrite (proj1 (negb_true_iff _) H). apply negb_null in H. do 3 lstep.
  assert (Hn : std_find p (complete_handles q) = None).
  { destruct (std_find p _) as [x|] eqn:E; [|done]. apply std_find_elem in E; [|apply Hw]. destruct Hp; [done|].
    apply Hown, elem_of_app. right. apply list_elem_of_fmap. by exists (p, x). }
  apply HQ; [done|by apply Hp|by apply flags_add|apply std_find_set_same|].
  unfold flag_res. cbn. unfold handles_of. rewrite std_set_perm by apply Hw. rewrite std_erase_none by done.
  cbn. by rewrite Permutation_middle.
Qed.

(** [delete] of a handle whose index goes back. *)
Lemma flags_remove q h x : flags_wf [] q -> (h, x) ∈ complete_handles q ->
  flags_wf [] (q <| available_indices_ ::= <[top_index_ q := ch_flag_index x]> |> <| top_index_ ::= S |>
                 <| live_handles_ ::= <[Z.to_nat (ch_flag_index x) := nullptr]> |> <| complete_handles ::= std_erase h |>).
Proof.
  intros Hw Hx. assert (Hxi : ch_flag_index x ∈ indices_of (complete_handles q)).
  { apply list_elem_of_fmap. by exists (h, x). }
  destruct (taken_index _ _ (ch_flag_index x) Hw) as (Hi & Hq & Ht); [done|].
  destruct Hw as [H1 H2 H3 H4 H5 [(_ & _ & E & _)|(_ & _ & E)]]; [rewrite E in Hx; by apply elem_of_nil in Hx|].
  pose proof (proj2 (std_find_elem h x _ H3) Hx) as Hf. pose proof (std_erase_perm _ _ _ H3 Hf) as Hp.
  constructor; cbn; [by rewrite length_insert|by rewrite length_insert|by apply std_erase_wf| | |].
  - rewrite Forall_forall in *. intros p Hin. destruct p as [k y]. apply std_erase_elem in Hin as [Hk Hin]; [|done].
    destruct (H4 _ Hin) as (A1 & A2 & A3 & A4). split_and!; try done. cbn in *. rewrite list_lookup_insert_ne; [done|].
    intros Ei. destruct (H4 _ Hx) as (_ & _ & _ & B4). cbn in B4. rewrite Ei, A4 in B4. injection B4 as ->. done.
  - intros j h' Hj Hn'. destruct (decide (j = Z.to_nat (ch_flag_index x))) as [->|Hne].
    + rewrite list_lookup_insert_eq in Hj by lia. injection Hj as <-. done.
    + rewrite list_lookup_insert_ne in Hj by done. destruct (H5 j h' Hj Hn') as (y & Hy & Ey). exists y. split; [|done].
      apply std_erase_elem; [done|]. split; [|done]. intros ->. apply Hne.
      assert (x = y) as -> by (apply (proj2 (std_find_elem h y _ H3)) in Hy; congruence). lia.
  - right. split_and!; [done|lia|]. unfold free_indices. cbn [top_index_ available_indices_ complete_handles].
    rewrite (free_pushed q (ch_flag_index x)) by done. rewrite <- E, <- app_assoc. apply Permutation_app_head.
    unfold indices_of. cbn [app]. symmetry. exact (fmap_Permutation _ _ _ Hp).
Qed.

Lemma flag_res_perm q h x : flags_wf [] q -> std_find h (complete_handles q) = Some x ->
  flag_res q ≡ₚ RHost h :: host_of (flag_queue_ q) ++ handles_of (std_erase h (complete_handles q)).
Proof.
  intros Hw Hf. unfold flag_res, handles_of. rewrite (std_erase_perm _ _ _ (fw_map _ _ Hw) Hf) at 1. cbn.
  by rewrite Permutation_middle.
Qed.

Lemma lwp_ReleaseCompleteHandle (Q : Status + unit -> FlagQueue -> list HcRes -> list Conn -> Prop) h x q O W :
  flags_wf [] q -> std_find h (complete_handles q) = Some x ->
  (forall q', flags_wf [] q' -> Q (inr tt) q' (flag_res q' ++ O) W) ->
  lwp (ReleaseCompleteHandle h) Q q (flag_res q ++ O) W.
Proof.
  intros Hw Hf HQ. pose proof (proj1 (std_find_elem h x _ (fw_map _ _ Hw)) Hf) as Hx.
  pose proof (proj1 (Forall_forall _ _) (fw_handles _ _ Hw) _ Hx) as (Hh & _).
  destruct (taken_index _ _ (ch_flag_index x) Hw) as (Hi & Hq & Ht).
  { apply list_elem_of_fmap. by exists (h, x). }
  unfold ReleaseCompleteHandle. lstep. unfold is_null. cbn in Hh. rewrite (proj2 (Z.eqb_neq _ _) Hh). cbn [negb require].
  lstep. lstep. lstep. rewrite Hf, (proj2 (Nat.ltb_lt _ _) Ht). lstep. lstep. unfold ReleaseFlagIndex. do 2 lstep.
  rewrite (proj2 (Nat.ltb_lt _ _) Ht). lstep. calm_call. intros []. do 2 lstep. unfold delete_handle. lstep.
  eapply lwp_perm; [by rewrite (flag_res_perm q h x)|]. cbn [app]. apply lwp_HostFree. lstep.
  eapply HQ, flags_remove; done.
Qed.

Lemma lwp_CheckStatusHost (Q : Status + Z -> FlagQueue -> list HcRes -> list Conn -> Prop) h x q O W :
  flags_wf [] q -> std_find h (complete_handles q) = Some x ->
  (forall o q', flags_wf [] q' -> (o <> inr HIXL_COMPLETE_STATUS_COMPLETED -> q' = q) -> Q o q' (flag_res q' ++ O) W) ->
  lwp (CheckStatusHost h x) Q q (flag_res q ++ O) W.
Proof.
  intros Hw Hf HQ. unfold CheckStatusHost. lstep. lstep; [|by apply HQ]. lstep. lstep; [|by apply HQ]. lstep. calm_call.
  intros v. lstep; [|by lstep; apply HQ]. lstep. eapply lwp_ReleaseCompleteHandle; [done..|]. intros q' Hw'.
  lstep. by apply HQ.
Qed.

(** *** All of them *)
Definition some_handle (h : Z) : Prop := h <> nullptr.
#[local] Instance some_handle_dec h : Decision (some_handle h) := decide (h <> nullptr).

Lemma lwp_release_lives (Q : Status + unit -> FlagQueue -> list HcRes -> list Conn -> Prop) l q O W :
  std_map_wf (complete_handles q) -> NoDup (filter some_handle l) ->
  (forall h, h ∈ l -> h <> nullptr -> exists x, (h, x) ∈ complete_handles q) ->
  (forall hs, std_map_wf hs -> (forall p, p ∈ hs -> p ∈ complete_handles q /\ (p.1 <> nullptr -> p.1 ∉ l)) ->
     Q (inr tt) (q <| complete_handles := hs |>) (handles_of hs ++ O) W) ->
  lwp (for_each l release_live) Q q (handles_of (complete_handles q) ++ O) W.
Proof.
  revert q. induction l as [|h l IH]; intros q Hm Hnd Hin HQ; cbn [for_each].
  { lstep. replace q with (q <| complete_handles := complete_handles q |>) at 1 by by destruct q.
    apply HQ; [done|]. intros p Hp. split; [done|]. intros _ Hn. by apply elem_of_nil in Hn. }
  lstep. unfold release_live at 1. unfold is_null. destruct (Z.eqb_spec h nullptr) as [->|Hh].
  - lstep. apply IH; [done|done|intros h' Hh'; apply Hin; by right|]. intros hs H1 H2. apply HQ; [done|].
    intros p Hp. destruct (H2 p Hp) as [H3 H4]. split; [done|]. intros Hn [E|Hl]%elem_of_cons; [done|by apply H4].
  - rewrite filter_cons_True in Hnd by done. apply NoDup_cons in Hnd as [Hnl Hnd].
    destruct (Hin h) as [x Hx]; [by left|done|]. pose proof (proj2 (std_find_elem h x _ Hm) Hx) as Hf.
    unfold delete_handle. lstep. eapply lwp_perm.
    { unfold handles_of. rewrite (std_erase_perm _ _ _ Hm Hf). cbn. reflexivity. }
    apply lwp_HostFree. lstep. change (std_erase h (complete_handles q)) with (complete_handles (q <| complete_handles ::= std_erase h |>)).
    apply IH; [by apply std_erase_wf|done| |].
    + intros h' Hh' Hn'. destruct (Hin h') as [y Hy]; [by right|done|]. exists y. apply std_erase_elem; [done|]. split; [|done].
      intros ->. apply Hnl. by apply list_elem_of_filter.
    + intros hs H1 H2. apply (HQ hs H1). intros [k y] Hp. destruct (H2 _ Hp) as [[H3 H3']%std_erase_elem H4]; [|done].
      split; [done|]. intros Hn [E|Hl]%elem_of_cons; [done|by apply H4].
Qed.

(** The live handles of the array are those of the table, each once. *)
Lemma lives_ok taken q : flags_wf taken q ->
  NoDup (filter some_handle (live_handles_ q)) /\
  (forall h, h ∈ live_handles_ q -> h <> nullptr -> exists x, (h, x) ∈ complete_handles q) /\
  (forall p, p ∈ complete_handles q -> p.1 <> nullptr /\ p.1 ∈ live_handles_ q).
Proof.
  intros [H1 H2 H3 H4 H5 H6]. split_and!.
  - assert (Hinj : forall i j h, live_handles_ q !! i = Some h -> live_handles_ q !! j = Some h -> h <> nullptr -> i = j).
    { intros i j h Hi Hj Hn. destruct (H5 _ _ Hi Hn) as (x & Hx & Ei), (H5 _ _ Hj Hn) as (y & Hy & Ej).
      apply std_find_elem in Hx, Hy; [|done..]. assert (x = y) as -> by congruence. lia. }
    revert Hinj. clear. generalize (live_handles_ q). intros l. induction l as [|h l IH]; intros Hinj; [constructor|].
    assert (Hl : NoDup (filter some_handle l)).
    { apply IH. intros i j h' Hi Hj Hn. by apply (Hinj (S i) (S j) h') in Hi; [injection Hi|..]. }
    rewrite filter_cons. case_decide as Hn; [|done]. constructor; [|done].
    intros [_ [i Hi]%list_elem_of_lookup]%list_elem_of_filter. by specialize (Hinj 0%nat (S i) h eq_refl Hi Hn).
  - intros h [i Hi]%list_elem_of_lookup Hn. destruct (H5 _ _ Hi Hn) as (x & Hx & _). by exists x.
  - intros p Hp. rewrite Forall_forall in H4. destruct (H4 p Hp) as (A1 & _ & _ & A4). split; [done|].
    by eapply list_elem_of_lookup_2.
Qed.

Lemma no_handles q hs : flags_wf [] q ->
  (forall p, p ∈ hs -> p ∈ complete_handles q /\ (p.1 <> nullptr -> p.1 ∉ live_handles_ q)) -> hs = [].
Proof.
  intros Hw Hp. destruct hs as [|p hs]; [done|]. destruct (Hp p) as [H1 H2]; [by left|].
  destruct (lives_ok _ _ Hw) as (_ & _ & H3). destruct (H3 p H1) as [Hn Hl]. by destruct H2.
Qed.

Lemma lwp_ReleaseLegacyHandles (Q : Status + unit -> FlagQueue -> list HcRes -> list Conn -> Prop) q O W :
  flags_wf [] q ->
  (forall q', flags_wf [] q' -> complete_handles q' = [] -> flag_queue_ q' = flag_queue_ q ->
     Q (inr tt) q' (flag_res q' ++ O) W) ->
  lwp ReleaseLegacyHandles Q q (flag_res q ++ O) W.
Proof.
  intros Hw HQ. destruct (lives_ok _ _ Hw) as (L1 & L2 & L3). unfold ReleaseLegacyHandles. do 2 lstep.
  destruct (forallb is_null (live_handles_ q)) eqn:Ef.
  - lstep. apply HQ; [done| |done]. destruct (complete_handles q) as [|p l] eqn:Ec; [done|]. exfalso.
    destruct (L3 p) as [Hn Hl]; [by left|]. rewrite forallb_forall in Ef. apply list_elem_of_In, Ef, Z.eqb_eq in Hl. done.
  - lstep. eapply lwp_perm.
    { unfold flag_res. rewrite <- app_assoc, Permutation_app_swap_app. reflexivity. }
    apply lwp_release_lives; [apply Hw|done|done|]. intros hs _ Hhs. apply no_handles in Hhs as ->; [|done].
    lstep. cbn. assert (Hq : flag_queue_ q <> nullptr).
    { destruct (fw_indices _ _ Hw) as [(_ & _ & E & _)|[? _]]; [|done]. exfalso.
      assert (Hall : forallb is_null (live_handles_ q) = true); [|congruence]. apply forallb_forall. intros h Hh.
      apply list_elem_of_In in Hh. destruct (decide (h = nullptr)) as [->|Hn]; [done|].
      destruct (L2 h Hh Hn) as [x Hx]. rewrite E in Hx. by apply elem_of_nil in Hx. }
    match goal with |- Q _ ?q' _ _ => assert (Hw' : flags_wf [] q') end.
    { constructor; cbn; [apply length_all_indices|apply length_replicate|constructor|constructor| |].
      - intros i h [-> _]%lookup_replicate. done.
      - right. split_and!; [done|lia|]. change (take kFlagQueueSize all_indices ++ [] ++ [] ≡ₚ all_indices).
        rewrite take_ge by by rewrite length_all_indices. by rewrite !app_nil_r. }
    replace (host_of (flag_queue_ q) ++ O) with
      (flag_res (q <| complete_handles := [] |> <| live_handles_ := replicate kFlagQueueSize nullptr |>
         <| available_indices_ := Z.of_nat <$> seq 0 kFlagQueueSize |> <| top_index_ := kFlagQueueSize |>) ++ O)
      by (unfold flag_res; cbn; by rewrite app_nil_r).
    by apply HQ.
Qed.

Lemma lwp_free_flag_queue (Q : Status + unit -> FlagQueue -> list HcRes -> list Conn -> Prop) q O W :
  flags_wf [] q -> (forall q', Q (inr tt) q' O W) -> lwp free_flag_queue Q q (flag_res q ++ O) W.
Proof.
  intros Hw HQ. destruct (lives_ok _ _ Hw) as (L1 & L2 & L3). unfold free_flag_queue. do 3 lstep.
  assert (Hrest : forall q', complete_handles q' = complete_handles q ->
    lwp (for_each (live_handles_ q) release_live ;;
         modify (fun q => q <| live_handles_ := replicate kFlagQueueSize nullptr |>)) Q q'
      (handles_of (complete_handles q) ++ O) W).
  { intros q' E. lstep. rewrite <- E. apply lwp_release_lives; rewrite ?E; [apply Hw|done|done|].
    intros hs _ Hhs. apply no_handles in Hhs as ->; [|done]. lstep. cbn. apply HQ. }
  unfold flag_res, host_of. destruct (is_null (flag_queue_ q)); [lstep; by apply Hrest|].
  lstep. cbn [app]. apply lwp_HostFree. lstep. by apply Hrest.
Qed.
End Flags.
