(* ===== verification/DeviceTransferSafety.v ===== *)
(** The slot and the handles of the transfers that kernels run: the slot counts its
    references, goes back to its pool with the last one, and the buffers of a handle are
    freed once, with the handle. *)

From S2P Require Import Prelude StdMap Effects External Runtime Wire Hcomm MemStore TransferPool DeviceKernel ClientRt Net CtrlConn CtrlConnSpec CtrlConnSafety HostRegister Endpoint GlobalConfig HcResources EndpointSafety ServerCalls ClientLedger ClientState HostTransfer DeviceTransfer.

(** * The invariant *)

(** [k] references to the slot beside [active_slot_]. *)
Definition slot_wf (k : nat) (d : DeviceSide) : Prop :=
  match active_slot_ d with
  | None => k = 0%nat /\ shared_slots d = ∅
  | Some i => exists o, shared_slots d = {[i := o]} /\ ss_use_count o = S k /\ (0 < k)%nat
  end.
Definition slot_res (d : DeviceSide) : list HcRes :=
  match active_slot_ d with
  | None => []
  | Some i => match shared_slots d !! i with Some o => [slot_of (ss_slot o)] | None => [] end
  end.

Definition handle_res (p : Z * DeviceCompleteHandle) : list HcRes :=
  RHost p.1 :: pin_of (dh_host_flag p.2) ++ dev_of (dh_dev_op_desc_buf p.2).
Definition handles_res (l : list (Z * DeviceCompleteHandle)) : list HcRes := mjoin (handle_res <$> l).
Definition dev_res (d : DeviceSide) : list HcRes := slot_res d ++ handles_res (device_handles d).

Definition dhandle_ok (active : option nat) (p : Z * DeviceCompleteHandle) : Prop :=
  p.1 <> nullptr /\ dh_magic p.2 = kDeviceCompleteMagic /\ dh_shared_slot p.2 = active /\ is_Some active.

(** [n] references of the running call, and the handles [L] that are not pending. *)
Record dev_wf (n : nat) (L : list Z) (d : DeviceSide) : Prop := {
  dw_map : std_map_wf (device_handles d);
  dw_handles : Forall (dhandle_ok (active_slot_ d)) (device_handles d);
  dw_keys : pending_device_handles_ d ++ L ≡ₚ fst <$> device_handles d;
  dw_slot : slot_wf (n + length (device_handles d)) d
}.

Lemma dev_wf_new px : dev_wf 0 [] (cl_device (HixlCSClient_new px)).
Proof. constructor; cbn; [constructor|constructor|done|done]. Qed.

#[export] Instance handles_res_perm : Proper (Permutation ==> Permutation) handles_res.
Proof. intros l l' E. unfold handles_res. by rewrite E. Qed.
Lemma handles_res_cons p l : handles_res (p :: l) = handle_res p ++ handles_res l.
Proof. done. Qed.

(** Erasing a key that was set, in any order. *)
Lemma std_erase_set_perm {V} (k : Z) (v : V) m : std_map_wf m -> std_erase k (std_set k v m) ≡ₚ std_erase k m.
Proof.
  intros Hm. apply (Permutation_cons_inv (a := (k, v))). rewrite <- (std_set_perm k v m Hm).
  symmetry. apply std_erase_perm; [by apply std_set_wf|apply std_find_set_same].
Qed.

Section Slots.
Context {codes : AclCodes} {again : HcclAgain} {env : Environment NetOp} {Hhc : HcLaws env} {Hcli : CliLaws env}.
Implicit Types (d : DeviceSide) (O : list HcRes) (W : list Conn).

(** What a change of the slot leaves alone. *)
Definition slot_only d d' : Prop :=
  device_handles d' = device_handles d /\ pending_device_handles_ d' = pending_device_handles_ d.

Lemma slot_object_at i o d Q own W :
  shared_slots d !! i = Some o -> Q (inr o) d own W -> lwp (slot_object i) Q d own W.
Proof. intros Hi HQ. unfold slot_object. do 2 lstep. rewrite Hi. by lstep. Qed.

Lemma slot_wf_some k i d : slot_wf k d -> active_slot_ d = Some i ->
  exists o, shared_slots d = {[i := o]} /\ shared_slots d !! i = Some o /\ ss_use_count o = S k /\ (0 < k)%nat /\
    slot_res d = [slot_of (ss_slot o)].
Proof.
  unfold slot_wf, slot_res. intros H Ea. rewrite Ea in *. destruct H as (o & E & Hc & Hk). exists o. rewrite E, lookup_singleton_eq. by split_and!.
Qed.

Lemma lwp_AcquireSharedSlot (Q : Status + nat -> DeviceSide -> list HcRes -> list Conn -> Prop) k d O W :
  slot_wf k d -> (forall e, Q (inl e) d (slot_res d ++ O) W) ->
  (forall i d', slot_only d d' -> slot_wf (S k) d' -> active_slot_ d' = Some i ->
     (active_slot_ d <> None -> active_slot_ d' = active_slot_ d) -> Q (inr i) d' (slot_res d' ++ O) W) ->
  lwp AcquireSharedSlot Q d (slot_res d ++ O) W.
Proof using Hcli.
  intros Hw HE HQ. unfold AcquireSharedSlot. do 2 lstep. destruct (active_slot_ d) as [i|] eqn:Ea.
  - destruct (slot_wf_some _ _ _ Hw Ea) as (o & Es & Ei & Ec & Hk & Er). unfold share. do 2 lstep.
    eapply slot_object_at; [done|]. do 2 lstep.
    replace (slot_res d) with (slot_res (d <| shared_slots ::= <[i := o <| ss_use_count ::= S |>]> |>)).
    2: { unfold slot_res. cbn. rewrite Ea, Ei. by rewrite lookup_insert_eq. }
    apply HQ; [done| |done|done]. unfold slot_wf. cbn. rewrite Ea, Es. eexists. rewrite insert_singleton_eq.
    split_and!; [done|cbn; by rewrite Ec|lia].
  - unfold slot_wf in Hw. rewrite Ea in Hw. destruct Hw as [-> Es]. unfold slot_res in *. rewrite Ea in *.
    apply lwp_PoolAcquire; [done|]. intros st slot Hdev. lstep. destruct (st =? SUCCESS); [|by apply lwp_fail].
    apply lwp_ret. do 3 lstep.
    match goal with |- Q _ ?d' _ _ => replace ([slot_of slot] ++ [] ++ O) with (slot_res d' ++ O); [apply HQ|] end.
    + done.
    + unfold slot_wf. cbn. rewrite Es. eexists. split_and!; [apply insert_empty|done|lia].
    + done.
    + done.
    + unfold slot_res. cbn. by rewrite lookup_insert_eq.
Qed.

(** The last reference but that of [active_slot_]. *)
Lemma lwp_return_active_slot (Q : Status + unit -> DeviceSide -> list HcRes -> list Conn -> Prop) i o d O W :
  active_slot_ d = Some i -> shared_slots d = {[i := o]} -> ss_use_count o = 1%nat ->
  (forall d', slot_only d d' -> slot_wf 0 d' -> slot_res d' = [] -> Q (inr tt) d' O W) ->
  lwp (return_active_slot i (ss_slot o)) Q d (slot_of (ss_slot o) :: O) W.
Proof using Hcli.
  intros Ea Es Ec HQ. unfold return_active_slot. lstep.
  eapply lwp_mono with (Q := fun r d' own' W' => r = inr tt /\ d' = d /\ own' = slot_of (ss_slot o) :: O /\ W' = W).
  { destruct (is_null _); [by lstep|]. calm_call. by intros []. }
  intros r d' own' W' (-> & -> & -> & ->). lstep.
  eapply (lwp_PoolGetInstance_held _ (h_slot_index (ss_slot o))); [by left|]. do 2 lstep. cbn [negb]. lstep.
  assert (Hend : lwp (modify (fun d => d <| abort_active_slot_ := false |> <| active_slot_ := None |>) ;; unshare i) Q d O W).
  { lstep. lstep. unfold unshare. lstep. apply (slot_object_at i o); [cbn; by rewrite Es, lookup_singleton_eq|]. lstep.
    cbn. rewrite Ec. cbn. apply HQ; [done|unfold slot_wf; cbn; split; [done|by rewrite Es, delete_singleton_eq]|done]. }
  destruct (_ || _); [apply lwp_PoolAbort|apply lwp_PoolRelease]; exact Hend.
Qed.

Lemma lwp_ReleaseSharedSlotRef (Q : Status + unit -> DeviceSide -> list HcRes -> list Conn -> Prop) i k d O W :
  slot_wf (S k) d -> active_slot_ d = Some i ->
  (forall d', slot_only d d' -> slot_wf k d' -> ((0 < k)%nat -> active_slot_ d' = Some i) -> Q (inr tt) d' (slot_res d' ++ O) W) ->
  lwp (ReleaseSharedSlotRef i) Q d (slot_res d ++ O) W.
Proof using Hcli.
  intros Hw Ea HQ. destruct (slot_wf_some _ _ _ Hw Ea) as (o & Es & Ei & Ec & Hk & Er). unfold ReleaseSharedSlotRef.
  do 3 lstep. unfold unshare. lstep. eapply slot_object_at; [done|]. lstep. rewrite Ec. cbn [Nat.leb].
  rewrite bool_decide_eq_true_2 by done. cbn [negb]. lstep.
  apply (slot_object_at i (o <| ss_use_count ::= pred |>)); [cbn; by rewrite lookup_insert_eq|]. cbn. rewrite Ec. cbn.
  set (d1 := d <| shared_slots ::= <[i := o <| ss_use_count ::= pred |>]> |>).
  assert (Es1 : shared_slots d1 = {[i := o <| ss_use_count ::= pred |>]}) by (cbn; by rewrite Es, insert_singleton_eq).
  destruct k as [|k]; cbn [Nat.eqb].
  - rewrite Er. cbn [app]. change (ss_slot o) with (ss_slot (o <| ss_use_count ::= pred |>)). eapply (lwp_return_active_slot _ i (o <| ss_use_count ::= pred |>)); [done|done|cbn; by rewrite Ec|].
    intros d' H1 H2 H3. specialize (HQ d' H1 H2). rewrite H3 in HQ. apply HQ. lia.
  - lstep. replace (slot_res d) with (slot_res d1).
    2: { unfold slot_res. cbn. rewrite Ea, Ei. by rewrite lookup_insert_eq. }
    apply HQ; [done| |done]. unfold slot_wf. replace (active_slot_ d1) with (Some i) by (cbn; done). rewrite Es1. eexists.
    split_and!; [done|cbn; by rewrite Ec|lia].
Qed.

(** ** Handles *)
Lemma lwp_dev_handle h x d Q own W :
  std_find h (device_handles d) = Some x -> Q (inr x) d own W -> lwp (dev_handle h) Q d own W.
Proof. intros Hf HQ. unfold dev_handle. do 2 lstep. rewrite Hf. by lstep. Qed.
Lemma lwp_upd_handle h f x d Q own W :
  std_find h (device_handles d) = Some x -> Q (inr tt) (d <| device_handles ::= std_set h (f x) |>) own W ->
  lwp (upd_handle h f) Q d own W.
Proof. intros Hf HQ. unfold upd_handle. lstep. eapply lwp_dev_handle; [done|]. by lstep. Qed.
Lemma lwp_handle_slot h x i o d Q own W :
  std_find h (device_handles d) = Some x -> dh_shared_slot x = Some i -> shared_slots d !! i = Some o ->
  Q (inr (ss_slot o)) d own W -> lwp (handle_slot h) Q d own W.
Proof.
  intros Hf Hi Ho HQ. unfold handle_slot. lstep. eapply lwp_dev_handle; [done|]. rewrite Hi. lstep.
  eapply slot_object_at; [done|]. by lstep.
Qed.

Lemma dev_handle_ok n L d h x : dev_wf n L d -> std_find h (device_handles d) = Some x -> dhandle_ok (active_slot_ d) (h, x).
Proof. intros Hw Hf. apply (proj1 (Forall_forall _ _) (dw_handles _ _ _ Hw)). apply std_find_elem; [apply Hw|done]. Qed.

Definition others (h : Z) (l : list Z) : list Z := List.filter (fun p => negb (p =? h)) l.
Lemma others_filter h l : others h l = filter (fun p => p <> h) l.
Proof.
  unfold others. induction l as [|p l IH]; [done|]. rewrite filter_cons. cbn [List.filter].
  destruct (Z.eqb_spec p h); cbn [negb]; case_decide; try done. by rewrite IH.
Qed.
Lemma others_none h l : h ∉ l -> others h l = l.
Proof.
  rewrite others_filter. intros Hn. induction l as [|p l IH]; [done|]. apply not_elem_of_cons in Hn as [H1 H2].
  rewrite filter_cons_True by done. by rewrite IH.
Qed.
Lemma others_fst {V} h (l : list (Z * V)) : std_map_wf l -> others h (fst <$> l) ≡ₚ fst <$> std_erase h l.
Proof.
  intros Hm. destruct (std_find h l) as [x|] eqn:Hf.
  - rewrite others_filter, (fmap_Permutation fst _ _ (std_erase_perm _ _ _ Hm Hf)), fmap_cons. cbn [fst].
    rewrite filter_cons_False by (intros H; by apply H).
    rewrite <- others_filter, others_none; [done|]. intros ([k' y] & -> & Hin)%list_elem_of_fmap.
    apply std_erase_elem in Hin as [Hk _]; done.
  - rewrite std_erase_none, others_none; [done| |done]. intros ([k' y] & -> & Hin)%list_elem_of_fmap.
    by apply (proj1 (std_find_none k' l Hm) Hf y).
Qed.

(** A handle on its way out: [x] is what is left of it. *)
Record leaving (h : Z) (x : DeviceCompleteHandle) (d0 d : DeviceSide) : Prop := {
  lv_map : std_map_wf (device_handles d);
  lv_find : std_find h (device_handles d) = Some x;
  lv_rest : std_erase h (device_handles d) ≡ₚ std_erase h (device_handles d0);
  lv_pending : pending_device_handles_ d = others h (pending_device_handles_ d0);
  lv_active : active_slot_ d = active_slot_ d0;
  lv_shared : shared_slots d = shared_slots d0
}.
Lemma leaving_upd h x d0 d f : leaving h x d0 d -> leaving h (f x) d0 (d <| device_handles ::= std_set h (f x) |>).
Proof.
  intros [H1 H2 H3 H4 H5 H6]. constructor; cbn; try done.
  - by apply std_set_wf.
  - apply std_find_set_same.
  - by rewrite std_erase_set_perm.
Qed.

(** A buffer that is freed if there is one. *)
Lemma lwp_free_buffer {T} (op : NetOp T) (res : Z -> HcRes) (p h : Z) f x d0 d own W
    (Q : Status + unit -> DeviceSide -> list HcRes -> list Conn -> Prop) :
  (forall O Q, (forall r, Q (inr r) d O W) -> lwp (call op) Q d (res p :: O) W) -> leaving h x d0 d ->
  (forall x' d', leaving h x' d0 d' -> x' = (if is_null p then x else f x) -> Q (inr tt) d' own W) ->
  lwp (if is_null p then ret tt else let* _ := call op in upd_handle h f) Q d ((if is_null p then [] else [res p]) ++ own) W.
Proof.
  intros Hop Hl HQ. destruct (is_null p) eqn:E; [lstep; by eapply HQ|]. lstep. apply Hop. intros r.
  eapply lwp_upd_handle; [apply Hl|]. eapply HQ; [by apply leaving_upd|done].
Qed.

Lemma lwp_ReleaseDevCompleteHandle (Q : Status + unit -> DeviceSide -> list HcRes -> list Conn -> Prop) h x n L d O W :
  dev_wf n L d -> std_find h (device_handles d) = Some x ->
  (forall d', dev_wf n (others h L) d' -> pending_device_handles_ d' = others h (pending_device_handles_ d) ->
     Q (inr tt) d' (dev_res d' ++ O) W) ->
  lwp (ReleaseDevCompleteHandle h) Q d (dev_res d ++ O) W.
Proof using Hcli Hhc.
  intros Hw Hf HQ. destruct (dev_handle_ok _ _ _ _ _ Hw Hf) as (Hh & Hmag & Hact & i & Ei). cbn in Hh, Hmag, Hact.
  destruct Hw as [W1 W2 W3 W4]. set (R := std_erase h (device_handles d)).
  pose proof (std_erase_perm _ _ _ W1 Hf) as Hperm. fold R in Hperm.
  unfold ReleaseDevCompleteHandle, is_null at 1. rewrite (proj2 (Z.eqb_neq _ _) Hh). lstep.
  eapply lwp_dev_handle; [done|]. rewrite Hmag, Z.eqb_refl. cbn [require]. apply lwp_bind, lwp_ret. do 2 lstep.
  assert (Hlv : leaving h x d (d <| pending_device_handles_ ::= List.filter (fun p => negb (p =? h)) |>)) by done.
  apply (lwp_perm _ _ _ _ (pin_of (dh_host_flag x) ++ dev_of (dh_dev_op_desc_buf x) ++ RHost h :: slot_res d ++ handles_res R ++ O)).
  { unfold dev_res. rewrite Hperm, handles_res_cons. unfold handle_res. cbn [fst snd]. solve_Permutation. }
  lstep. eapply (lwp_free_buffer _ RPin); [intros; by apply lwp_FreeHost|exact Hlv|]. intros x1 d1 L1 E1.
  lstep. eapply (lwp_free_buffer _ RDev); [intros; by apply lwp_AclFree|exact L1|]. intros x2 d2 L2 E2.
  lstep. eapply lwp_upd_handle; [apply L2|]. apply (leaving_upd h x2 d d2 (fun x => x <| dh_shared_slot := None |>)) in L2.
  set (d3 := d2 <| device_handles ::= _ |>) in *. lstep. rewrite Hact, Ei.
  assert (Hs3 : slot_wf (n + length (device_handles d)) d3).
  { unfold slot_wf in *. destruct L2 as [_ _ _ _ -> ->]. exact W4. }
  assert (Er3 : slot_res d3 = slot_res d) by (unfold slot_res; by destruct L2 as [_ _ _ _ -> ->]).
  rewrite <- Er3. apply (lwp_perm _ _ _ _ (slot_res d3 ++ RHost h :: handles_res R ++ O)); [solve_Permutation|].
  rewrite Hperm in Hs3. cbn [length] in Hs3. rewrite <- plus_n_Sm in Hs3.
  eapply lwp_ReleaseSharedSlotRef; [exact Hs3|by rewrite (lv_active _ _ _ _ L2)|]. intros d4 [S1 S2] Hs4 Ha4.
  assert (F4 : std_find h (device_handles d4) = Some (x2 <| dh_shared_slot := None |>)) by (rewrite S1; apply L2).
  lstep. eapply lwp_upd_handle; [exact F4|]. lstep.
  match goal with |- lwp _ _ ?d' _ _ => set (d5 := d' <| device_handles ::= std_erase h |>) end.
  assert (E5 : device_handles d5 ≡ₚ R).
  { cbn. rewrite std_erase_set_perm by (rewrite S1; apply L2). rewrite S1. apply L2. }
  assert (Em5 : std_map_wf (device_handles d5)) by (cbn; apply std_erase_wf, std_set_wf; rewrite S1; apply L2).
  assert (Ep5 : pending_device_handles_ d5 = others h (pending_device_handles_ d)) by (cbn; rewrite S2; apply L2).
  assert (Hg : dev_wf n (others h L) d5).
  { constructor; [done| | |].
    - rewrite E5. apply Forall_forall. intros p Hp. assert (Hk : (0 < n + length R)%nat) by (destruct R; [by apply elem_of_nil in Hp|cbn; lia]).
      replace (active_slot_ d5) with (active_slot_ d) by (cbn; by rewrite Ei, Ha4).
      apply (proj1 (Forall_forall _ _) W2). rewrite Hperm. by right.
    - rewrite Ep5, E5. unfold R. rewrite <- others_fst, !others_filter, <- filter_app by done. by rewrite W3.
    - rewrite E5. exact Hs4. }
  apply (lwp_perm _ _ _ _ (RHost h :: dev_res d5 ++ O)).
  { unfold dev_res. rewrite E5. change (slot_res d5) with (slot_res d4). solve_Permutation. }
  apply lwp_HostFree. lstep. by apply HQ.
Qed.

(** A change of anything else. *)
Definition dev_same d d' : Prop :=
  device_handles d' = device_handles d /\ pending_device_handles_ d' = pending_device_handles_ d /\
  active_slot_ d' = active_slot_ d /\ shared_slots d' = shared_slots d.
Lemma dev_wf_same n L d d' : dev_same d d' -> dev_wf n L d -> dev_wf n L d'.
Proof.
  intros (E1 & E2 & E3 & E4) [H1 H2 H3 H4]. constructor; rewrite ?E1, ?E2, ?E3; try done.
  unfold slot_wf in *. by rewrite E3, E4.
Qed.
Lemma dev_res_same d d' : dev_same d d' -> dev_res d' = dev_res d.
Proof. intros (E1 & E2 & E3 & E4). unfold dev_res, slot_res. by rewrite E1, E3, E4. Qed.
Lemma dev_wf_perm n L L' d : L ≡ₚ L' -> dev_wf n L d -> dev_wf n L' d.
Proof. intros E [H1 H2 H3 H4]. constructor; try done. by rewrite <- E. Qed.

Lemma keys_nodup {V} (l : list (Z * V)) : std_map_wf l -> NoDup (fst <$> l).
Proof.
  intros Hm. induction Hm as [|p l _ IH Hf]; [constructor|]. rewrite fmap_cons. constructor; [|done].
  rewrite Forall_forall in Hf. intros (q & E & Hq)%list_elem_of_fmap. specialize (Hf q Hq). unfold key_lt in Hf.
  rewrite E in Hf. by rewrite key_ltb_irrefl in Hf.
Qed.
Lemma key_found n L d h : dev_wf n L d -> h ∈ L -> exists x, std_find h (device_handles d) = Some x.
Proof.
  intros Hw Hh. assert (Hk : h ∈ fst <$> device_handles d) by (rewrite <- (dw_keys _ _ _ Hw); apply elem_of_app; by right).
  apply list_elem_of_fmap in Hk as ([k x] & -> & Hin). exists x. apply std_find_elem; [apply Hw|done].
Qed.

Lemma lwp_release_all (Q : Status + unit -> DeviceSide -> list HcRes -> list Conn -> Prop) l d O W :
  dev_wf 0 l d -> pending_device_handles_ d = [] ->
  (forall d', dev_wf 0 [] d' -> device_handles d' = [] -> Q (inr tt) d' (dev_res d' ++ O) W) ->
  lwp (for_each l (fun h => log_only (ReleaseDevCompleteHandle h))) Q d (dev_res d ++ O) W.
Proof using Hcli Hhc.
  revert d. induction l as [|h l IH]; intros d Hw Hp HQ; cbn [for_each].
  - lstep. apply HQ; [done|]. pose proof (dw_keys _ _ _ Hw) as E. rewrite Hp in E. cbn in E.
    apply Permutation_nil in E. by apply fmap_nil_inv in E.
  - assert (Hn : NoDup (h :: l)).
    { pose proof (dw_keys _ _ _ Hw) as E. rewrite Hp in E. cbn [app] in E. rewrite E. apply keys_nodup, Hw. }
    apply NoDup_cons in Hn as [Hn _]. destruct (key_found _ _ _ h Hw) as [x Hx]; [by left|].
    lstep. unfold log_only. do 2 lstep. eapply lwp_ReleaseDevCompleteHandle; [done..|]. intros d' Hw' Hp'. lstep.
    apply IH; [|by rewrite Hp', Hp|done]. eapply dev_wf_perm; [|exact Hw']. unfold others. cbn [List.filter].
    rewrite Z.eqb_refl. cbn [negb]. fold (others h l). by rewrite others_none.
Qed.

Context {hash : PointerHash} {Hash : PointerHashLaws hash}.

Lemma lwp_AbortAllPending (Q : Status + unit -> DeviceSide -> list HcRes -> list Conn -> Prop) d O W :
  dev_wf 0 [] d ->
  (forall d', dev_wf 0 [] d' -> device_handles d' = [] -> Q (inr tt) d' (dev_res d' ++ O) W) ->
  lwp AbortAllPendingDeviceHandles Q d (dev_res d ++ O) W.
Proof using Hcli Hhc Hash.
  intros Hw HQ. unfold AbortAllPendingDeviceHandles. do 2 lstep.
  destruct (pending_device_handles_ d) as [|h l] eqn:E.
  - lstep. apply HQ; [done|]. pose proof (dw_keys _ _ _ Hw) as Ek. rewrite E in Ek. cbn in Ek.
    apply Permutation_nil in Ek. by apply fmap_nil_inv in Ek.
  - do 2 lstep. set (d1 := d <| pending_device_handles_ := [] |> <| abort_active_slot_ := true |>).
    change (dev_res d) with (dev_res d1). apply lwp_release_all; [|done|done].
    destruct Hw as [H1 H2 H3 H4]. constructor; try done. cbn. rewrite (hash_order_perm (h :: l)), <- E.
    rewrite app_nil_r in H3. done.
Qed.

(** Nothing is left to clean up. *)
Lemma lwp_CleanupActiveSlot (Q : Status + unit -> DeviceSide -> list HcRes -> list Conn -> Prop) d O W :
  dev_wf 0 [] d -> device_handles d = [] ->
  (forall d', dev_wf 0 [] d' -> dev_res d' = [] -> Q (inr tt) d' O W) ->
  lwp CleanupActiveSlot Q d (dev_res d ++ O) W.
Proof.
  intros Hw He HQ. unfold CleanupActiveSlot. do 2 lstep. pose proof (dw_slot _ _ _ Hw) as Hs. unfold slot_wf in Hs.
  rewrite He in Hs. cbn in Hs. destruct (active_slot_ d) as [i|] eqn:Ea; [by destruct Hs as (o & _ & _ & ?); lia|].
  do 3 lstep. assert (Er : dev_res d = []) by (unfold dev_res, slot_res; by rewrite Ea, He). rewrite Er.
  assert (Hsame : dev_same d (d <| abort_active_slot_ := false |>)) by done.
  apply HQ; [by apply (dev_wf_same _ _ d)|by rewrite (dev_res_same d)].
Qed.

Lemma lwp_Latch (Q : Status + unit -> DeviceSide -> list HcRes -> list Conn -> Prop) st d own W :
  (forall d', dev_same d d' -> Q (inr tt) d' own W) -> lwp (LatchTransferFailure st) Q d own W.
Proof. intros HQ. unfold LatchTransferFailure. do 3 lstep; lstep; by apply HQ. Qed.

Lemma lwp_CheckStatusDevice (Q : Status + Z -> DeviceSide -> list HcRes -> list Conn -> Prop) h x d O W :
  dev_wf 0 [] d -> std_find h (device_handles d) = Some x ->
  (forall o d', dev_wf 0 [] d' -> Q o d' (dev_res d' ++ O) W) ->
  lwp (CheckStatusDevice h) Q d (dev_res d ++ O) W.
Proof using Hcli Hhc.
  intros Hw Hf HQ. destruct (dev_handle_ok _ _ _ _ _ Hw Hf) as (Hh & Hm & Ha & i & Ei). cbn in Hm, Ha.
  destruct (slot_wf_some _ i _ (dw_slot _ _ _ Hw) Ei) as (o & Es & Eo & _ & _ & _).
  assert (Hrel : forall d1 v, dev_same d d1 -> lwp (ReleaseDevCompleteHandle h ;; ret v) Q d1 (dev_res d ++ O) W).
  { intros d1 v Hs. lstep. rewrite <- (dev_res_same _ _ Hs). eapply lwp_ReleaseDevCompleteHandle.
    - by eapply dev_wf_same.
    - destruct Hs as (-> & _). done.
    - intros d' Hw' _. lstep. by apply HQ. }
  unfold CheckStatusDevice. lstep. eapply lwp_dev_handle; [done|]. lstep. lstep; [|by apply HQ].
  rewrite Ha, Ei. lstep. lstep; [|by apply HQ]. lstep. calm_call. intros v. lstep; [by apply Hrel|]. do 2 lstep. lstep; [by apply Hrel|].
  lstep. eapply slot_object_at; [done|]. lstep.
  eapply lwp_mono with (Q := fun r d' own' W' => (exists v, r = inr v) /\ d' = d /\ own' = dev_res d ++ O /\ W' = W).
  { destruct (is_null (h_err_flag_host_addr (ss_slot o))); [lstep; by eauto|]. calm_call. eauto. }
  intros r d' own' W' ((b & ->) & -> & -> & ->). lstep; [|lstep; by apply HQ]. lstep. apply lwp_Latch. intros d' Hs. by apply Hrel.
Qed.
End Slots.

(** * Launching *)
Section Launch.
Context {codes : AclCodes} {again : HcclAgain} {env : Environment NetOp} {Hhc : HcLaws env} {Hcli : CliLaws env}.
Implicit Types (d : DeviceSide) (O own : list HcRes) (W : list Conn) (s : HixlCSClient).

(** Launching counts the tasks of the slot and changes nothing else. *)
Definition launched (n : nat) (L : list Z) d d' : Prop :=
  dev_wf n L d' /\ dev_res d' = dev_res d /\ device_handles d' = device_handles d.

Lemma lwp_count_launched (Q : Status + unit -> DeviceSide -> list HcRes -> list Conn -> Prop) h x k n L d own W :
  dev_wf n L d -> std_find h (device_handles d) = Some x ->
  (forall d', launched n L d d' -> Q (inr tt) d' own W) -> lwp (count_launched h k) Q d own W.
Proof.
  intros Hw Hf HQ. destruct (dev_handle_ok _ _ _ _ _ Hw Hf) as (Hh & Hm & Ha & i & Ei). cbn in Ha.
  destruct (slot_wf_some _ i _ (dw_slot _ _ _ Hw) Ei) as (o & Es & Eo & Ec & Hk & Er).
  unfold count_launched. lstep. eapply lwp_dev_handle; [done|]. rewrite Ha, Ei. lstep. eapply slot_object_at; [done|]. lstep.
  set (o' := o <| ss_slot ::= add_launched k |>). apply HQ.
  assert (Es' : shared_slots (d <| shared_slots ::= <[i:=o']> |>) = {[i := o']}) by (cbn; by rewrite Es, insert_singleton_eq).
  split_and!; [|unfold dev_res, slot_res; cbn; by rewrite Ei, Eo, lookup_insert_eq|done].
  destruct Hw as [H1 H2 H3 H4]. constructor; try done. unfold slot_wf. change (active_slot_ (d <| shared_slots ::= <[i:=o']> |>)) with (active_slot_ d).
  rewrite Ei, Es'. by exists o'.
Qed.

Lemma lwp_LaunchDeviceKernel (Q : Status + unit -> DeviceSide -> list HcRes -> list Conn -> Prop) is_get h x param wait n L d own W :
  dev_wf n L d -> std_find h (device_handles d) = Some x ->
  (forall o d', launched n L d d' -> Q o d' own W) -> lwp (LaunchDeviceKernel is_get h param wait) Q d own W.
Proof.
  intros Hw Hf HQ. destruct (dev_handle_ok _ _ _ _ _ Hw Hf) as (Hh & Hm & Ha & i & Ei). cbn in Ha.
  destruct (slot_wf_some _ i _ (dw_slot _ _ _ Hw) Ei) as (o & Es & Eo & Ec & Hk & Er).
  assert (HE : forall o, Q o d own W) by (intros r; by apply HQ).
  unfold LaunchDeviceKernel. lstep. eapply lwp_dev_handle; [done|]. rewrite Ha, Ei. do 2 lstep; [|done].
  lstep. eapply lwp_handle_slot; [done|by rewrite Ha|done|]. lstep. calm_call. intros pool. do 2 lstep; [|done].
  lstep. calm_call. intros func. do 2 lstep; [|done]. lstep. calm_call. intros [rc args]. lstep. apply lwp_chk_acl. intros [e|[]]; [done|].
  lstep. calm_call. intros rc1. lstep. apply lwp_chk_acl. intros [e|[]]; [done|].
  lstep. calm_call. intros rc2. lstep. apply lwp_chk_acl. intros [e|[]]; [done|].
  lstep. calm_call. intros rc3. lstep. apply lwp_chk_acl. intros [e|[]]; [done|].
  lstep. eapply lwp_count_launched; [done..|]. intros d' Hd'. lstep; [|lstep; by apply HQ].
  lstep. calm_call. intros rc4. apply lwp_chk_acl. intros r. by apply HQ.
Qed.

(** The state of a launch: the handle is there, and so are the endpoint and its slot. *)
Definition launching (n : nat) (L : list Z) (h : Z) (x : DeviceCompleteHandle) s : Prop :=
  dev_wf n L (cl_device s) /\ std_find h (device_handles (cl_device s)) = Some x /\ is_Some (local_endpoint_ s).

Lemma lwp_BuildDeviceChunkParam Q h x off k wait n L s own W :
  launching n L h x s -> (forall o, Q o s own W) -> lwp (BuildDeviceChunkParam h off k wait) Q s own W.
Proof.
  intros (Hw & Hf & ep & Hep) HQ. destruct (dev_handle_ok _ _ _ _ _ Hw Hf) as (Hh & Hm & Ha & i & Ei). cbn in Ha.
  destruct (slot_wf_some _ i _ (dw_slot _ _ _ Hw) Ei) as (o & Es & Eo & Ec & Hk & Er).
  assert (Es' : s <| cl_device := cl_device s |> = s) by by destruct s.
  unfold BuildDeviceChunkParam. lstep. apply lwp_on_device. eapply lwp_dev_handle; [done|]. rewrite Es'.
  lstep. apply lwp_on_device. eapply lwp_handle_slot; [done|by rewrite Ha|done|]. rewrite Es'. do 2 lstep. lstep.
  eapply lwp_the_endpoint; [done|]. lstep. destruct wait; [lstep; [lstep|]; apply HQ|lstep; lstep; apply HQ].
Qed.

Definition with_device d s : HixlCSClient := s <| cl_device := d |>.
Lemma with_device_self s : with_device (cl_device s) s = s.
Proof. by destruct s. Qed.

Lemma lwp_LaunchDeviceChunkedKernels Q is_get h x list_num n L s own W :
  launching n L h x s -> 0 <= list_num -> 1 <= batch_limit kDefaultMaxTransferCountPerBatch (cl_settings s) ->
  (forall o d', launched n L (cl_device s) d' -> Q o (with_device d' s) own W) ->
  lwp (LaunchDeviceChunkedKernels is_get h list_num) Q s own W.
Proof.
  intros Hl Hn Hb HQ. unfold LaunchDeviceChunkedKernels. do 2 lstep. cbv zeta. set (batch := batch_limit _ _) in *. clearbody batch.
  pose (I := fun n' (st : Z * Z) s' own' W' => own' = own /\ W' = W /\ 0 <= n' /\ n' = list_num - st.1 /\ 1 <= st.2 /\
    exists d', s' = with_device d' s /\ launched n L (cl_device s) d').
  apply (lwp_loop _ I) with (n := list_num).
  - by intros m [off rem] s' own' W' (_ & _ & ? & _).
  - clear Hn. intros m [off rem] s' own' W' (-> & -> & Hm & -> & Hr & d' & -> & Hd). cbn [fst snd] in *. unfold chunk_round.
    destruct (Z.leb_spec list_num off) as [Hle|Hlt]; [lstep; by apply HQ|]. cbv zeta.
    assert (Hl' : launching n L h x (with_device d' s)).
    { destruct Hl as (_ & Hf & Hep), Hd as (Hw & _ & Eh). split_and!; [done|cbn; by rewrite Eh|done]. }
    lstep. eapply lwp_BuildDeviceChunkParam; [done|]. intros [e|param]; [by apply HQ|]. lstep. apply lwp_on_device.
    destruct Hl' as (Hw' & Hf' & _). eapply lwp_LaunchDeviceKernel; [done..|]. intros o d2 Hd2.
    assert (Hd3 : launched n L (cl_device s) d2).
    { destruct Hd2 as (A1 & A2 & A3), Hd as (B1 & B2 & B3). cbn in A2, A3. split_and!; [done|by rewrite A2|by rewrite A3]. }
    change (with_device d' s <| cl_device := d2 |>) with (with_device d2 s).
    destruct o as [e|[]]; [by apply HQ|]. lstep. set (k := Z.min kMaxKernelBatchSize (Z.min rem (list_num - off))).
    assert (Hk : 1 <= k /\ k <= list_num - off /\ k <= rem) by (unfold k, kMaxKernelBatchSize; lia). clearbody k.
    exists (list_num - (off + k)). split; [lia|]. unfold I. cbn [fst snd].
    split; [done|]. split; [done|]. split; [lia|]. split; [done|]. split; [|by exists d2].
    destruct (Z.eqb_spec (rem - k) 0); lia.
  - lia.
  - split_and!; [done|done|lia|cbn; lia|cbn; lia|]. exists (cl_device s). rewrite with_device_self. split; [done|]. by destruct Hl.
Qed.
End Launch.

(** * A transfer *)
Section Batch.
Context {codes : AclCodes} {again : HcclAgain} {env : Environment NetOp} {Hhc : HcLaws env} {Hcli : CliLaws env}.
Implicit Types (d : DeviceSide) (O own : list HcRes) (W : list Conn) (s : HixlCSClient).

Lemma dev_wf_upd n L d h x x' : dev_wf n L d -> std_find h (device_handles d) = Some x ->
  dh_magic x' = dh_magic x -> dh_shared_slot x' = dh_shared_slot x ->
  dev_wf n L (d <| device_handles ::= std_set h x' |>).
Proof.
  intros Hw Hf E1 E2. pose proof (dev_handle_ok _ _ _ _ _ Hw Hf) as Hok. destruct Hw as [H1 H2 H3 H4].
  pose proof (std_erase_perm _ _ _ H1 Hf) as Hp. assert (Hp' : std_set h x' (device_handles d) ≡ₚ (h, x') :: std_erase h (device_handles d))
    by by apply std_set_perm.
  constructor; cbn; [by apply std_set_wf| | |].
  - rewrite Hp'. rewrite Hp in H2. inversion H2; subst. constructor; [|done]. unfold dhandle_ok in *. cbn in *. by rewrite E1, E2.
  - rewrite (fmap_Permutation fst _ _ Hp'), H3, (fmap_Permutation fst _ _ Hp). done.
  - rewrite Hp'. rewrite Hp in H4. exact H4.
Qed.
Lemma dev_res_upd d h x' : std_map_wf (device_handles d) ->
  dev_res (d <| device_handles ::= std_set h x' |>) ≡ₚ
  handle_res (h, x') ++ slot_res d ++ handles_res (std_erase h (device_handles d)).
Proof.
  intros Hm. change (slot_res d ++ handles_res (std_set h x' (device_handles d)) ≡ₚ
    handle_res (h, x') ++ slot_res d ++ handles_res (std_erase h (device_handles d))).
  rewrite std_set_perm by done. rewrite handles_res_cons. solve_Permutation.
Qed.
Lemma dev_res_find d h x : std_map_wf (device_handles d) -> std_find h (device_handles d) = Some x ->
  dev_res d ≡ₚ handle_res (h, x) ++ slot_res d ++ handles_res (std_erase h (device_handles d)).
Proof.
  intros Hm Hf. unfold dev_res. rewrite (std_erase_perm _ _ _ Hm Hf) at 1. rewrite handles_res_cons. solve_Permutation.
Qed.

(** The handle [h] of the running transfer, with its flag. *)
Definition running (h flag : Z) d : Prop :=
  dev_wf 0 [h] d /\ exists x, std_find h (device_handles d) = Some x /\ dh_host_flag x = flag.

Lemma lwp_AllocateDeviceDescBuf (Q : Status + unit -> DeviceSide -> list HcRes -> list Conn -> Prop) h flag l d O W :
  running h flag d -> (forall x, std_find h (device_handles d) = Some x -> dh_dev_op_desc_buf x = nullptr) ->
  (forall o d', running h flag d' -> Q o d' (dev_res d' ++ O) W) ->
  lwp (AllocateDeviceDescBuf h l) Q d (dev_res d ++ O) W.
Proof using Hhc Hcli.
  intros (Hw & x & Hf & Hx) Hnull HQ. specialize (Hnull x Hf). unfold AllocateDeviceDescBuf. lstep. apply lwp_AclMalloc.
  intros rc p Hp. lstep. eapply lwp_upd_handle; [done|]. set (x' := x <| dh_dev_op_desc_buf := p |>).
  set (d' := d <| device_handles ::= std_set h x' |>). pose proof (dw_map _ _ _ Hw) as Hm.
  assert (Hr : dev_of p ++ dev_res d ≡ₚ dev_res d').
  { unfold d'. rewrite dev_res_upd, (dev_res_find d h x) by done. unfold handle_res. cbn [fst snd].
    change (dh_dev_op_desc_buf x') with p. change (dh_host_flag x') with (dh_host_flag x). rewrite Hnull. cbn [dev_of is_null nullptr Z.eqb].
    solve_Permutation. }
  assert (Hrun : running h flag d').
  { split; [by eapply dev_wf_upd|]. exists x'. split; [apply std_find_set_same|done]. }
  apply (lwp_perm _ _ _ _ (dev_res d' ++ O)); [by rewrite app_assoc, Hr|].
  lstep. unfold chk_acl at 1. destruct (Z.eqb_spec rc 0) as [->|Hn]; [|lstep; by apply HQ]. lstep. lstep.
  eapply (lwp_use _ (RDev p)); [by repeat split| |done|].
  - apply elem_of_app. left. rewrite <- Hr. apply elem_of_app. left. unfold dev_of, is_null.
    rewrite (proj2 (Z.eqb_neq _ _) (Hp eq_refl)). by left.
  - intros rc'. apply lwp_chk_acl. intros o. by apply HQ.
Qed.

Lemma lwp_or_abort (m : M NetOp HixlCSClient unit) (Q : Status + unit -> HixlCSClient -> list HcRes -> list Conn -> Prop) s own W :
  lwp m (fun o s' own' W' => match o with
    | inr a => Q (inr a) s' own' W'
    | inl e => Q (inl e) (with_device ((cl_device s') <| abort_active_slot_ := true |>) s') own' W' end) s own W ->
  lwp (or_abort m) Q s own W.
Proof.
  intros H. unfold or_abort. lstep. eapply lwp_mono; [exact H|]. intros [e|a] s' own' W' HQ; [|done].
  unfold mark_abort. apply lwp_on_device. by lstep.
Qed.

Lemma running_same h flag d d' : dev_same d d' -> running h flag d -> running h flag d'.
Proof. intros Hs (Hw & x & Hf & Hx). split; [by eapply dev_wf_same|]. exists x. destruct Hs as (-> & _). done. Qed.
Lemma running_launched h flag d d' : launched 0 [h] d d' -> running h flag d -> running h flag d'.
Proof. intros (Hw' & Hr & He) (Hw & x & Hf & Hx). split; [done|]. exists x. by rewrite He. Qed.

Lemma dev_abort_same d : dev_same d (d <| abort_active_slot_ := true |>).
Proof. done. Qed.

Definition launch_ready s : Prop :=
  is_Some (local_endpoint_ s) /\ 1 <= batch_limit kDefaultMaxTransferCountPerBatch (cl_settings s).

(** What a transfer leaves: only the device side has changed. *)
Definition ends_running {A} (Q : Status + A -> HixlCSClient -> list HcRes -> list Conn -> Prop) h flag s O W : Prop :=
  forall o d', running h flag d' -> Q o (with_device d' s) (dev_res d' ++ O) W.

Lemma running_slot h flag d : running h flag d ->
  exists x i o, std_find h (device_handles d) = Some x /\ dh_host_flag x = flag /\ dh_shared_slot x = Some i /\
    shared_slots d !! i = Some o.
Proof.
  intros (Hw & x & Hf & Hx). destruct (dev_handle_ok _ _ _ _ _ Hw Hf) as (Hh & Hm & Ha & i & Ei). cbn in Ha.
  destruct (slot_wf_some _ i _ (dw_slot _ _ _ Hw) Ei) as (o & Es & Eo & Ec & Hk & Er). exists x, i, o. by rewrite Ha.
Qed.

(** The launch under the context of the slot, and what follows it. *)
Lemma lwp_abort_unless (Q : Status + unit -> HixlCSClient -> list HcRes -> list Conn -> Prop) h flag rc d s O W :
  running h flag d -> ends_running Q h flag s O W -> lwp (or_abort (chk_acl rc)) Q (with_device d s) (dev_res d ++ O) W.
Proof.
  intros R HQ. apply lwp_or_abort, lwp_chk_acl. intros [e|[]]; [|by apply HQ].
  change (with_device _ (with_device d s)) with (with_device (d <| abort_active_slot_ := true |>) s).
  rewrite <- (dev_res_same _ _ (dev_abort_same d)). by apply HQ, (running_same _ _ d).
Qed.

Lemma lwp_submit (Q : Status + unit -> HixlCSClient -> list HcRes -> list Conn -> Prop) is_get h flag l (tail : SlotHandle -> M NetOp HixlCSClient unit) s O W :
  running h flag (cl_device s) -> launch_ready s ->
  (forall x, std_find h (device_handles (cl_device s)) = Some x -> dh_dev_op_desc_buf x = nullptr) ->
  (forall slot d, running h flag d -> lwp (tail slot) Q (with_device d s) (dev_res d ++ O) W) ->
  ends_running Q h flag s O W ->
  lwp (on_device (AllocateDeviceDescBuf h l) ;;
       let* slot := on_device (handle_slot h) in
       in_context (h_ctx slot)
         (or_abort (LaunchDeviceChunkedKernels is_get h (Z.of_nat (length l))) ;;
          let* slot := on_device (handle_slot h) in
          tail slot)) Q s (dev_res (cl_device s) ++ O) W.
Proof using Hhc Hcli.
  intros Hrun [Hep Hb] Hnull Hk HQ. lstep. apply lwp_on_device. eapply lwp_AllocateDeviceDescBuf; [done..|].
  intros o d1 R1. change (s <| cl_device := d1 |>) with (with_device d1 s). destruct o as [e|[]]; [by apply HQ|].
  destruct (running_slot _ _ _ R1) as (x1 & i1 & o1 & F1 & X1 & S1 & O1).
  lstep. apply lwp_on_device. eapply lwp_handle_slot; [exact F1|exact S1|exact O1|].
  change (with_device d1 s <| cl_device := _ |>) with (with_device d1 s). apply lwp_in_context. lstep. apply lwp_or_abort.
  eapply lwp_LaunchDeviceChunkedKernels; [split_and!; [apply R1|exact F1|done]|lia|done|].
  intros o d2 Hd2. cbn in Hd2. pose proof (running_launched _ flag _ _ Hd2 R1) as R2. pose proof (proj1 (proj2 Hd2)) as E2. rewrite <- E2.
  change (with_device d2 (with_device d1 s)) with (with_device d2 s). destruct o as [e|[]].
  { change (with_device _ (with_device d2 s)) with (with_device (d2 <| abort_active_slot_ := true |>) s).
    rewrite <- (dev_res_same _ _ (dev_abort_same d2)). by apply HQ, (running_same _ _ d2). }
  destruct (running_slot _ _ _ R2) as (x2 & i2 & o2 & F2 & X2 & S2 & O2).
  lstep. apply lwp_on_device. eapply lwp_handle_slot; [exact F2|exact S2|exact O2|].
  change (with_device d2 s <| cl_device := _ |>) with (with_device d2 s).
  by apply Hk.
Qed.

(** ** The reference of the call, and the handle that takes it over *)
Lemma dev_moved n m L d d' : dev_wf n L d -> slot_only d d' -> slot_wf (m + length (device_handles d)) d' ->
  (device_handles d <> [] -> active_slot_ d' = active_slot_ d) -> dev_wf m L d'.
Proof.
  intros [H1 H2 H3 H4] [E1 E2] Hs Ha. constructor; rewrite ?E1, ?E2; try done.
  destruct (device_handles d) as [|p l] eqn:E; [constructor|]. by rewrite Ha.
Qed.

Lemma lwp_acquire_slot (Q : Status + nat -> HixlCSClient -> list HcRes -> list Conn -> Prop) k L s O W :
  dev_wf 0 L (cl_device s) -> (forall e, Q (inl e) s (dev_res (cl_device s) ++ O) W) ->
  (forall i d, dev_wf 1 L d -> active_slot_ d = Some i -> Q (inr i) (with_device d s) (dev_res d ++ O) W) ->
  lwp (acquire_slot k) Q s (dev_res (cl_device s) ++ O) W.
Proof using Hcli.
  intros Hw HE HQ. unfold acquire_slot. lstep. lstep; [|apply HE]. apply lwp_on_device. unfold dev_res at 1. rewrite <- app_assoc.
  eapply lwp_AcquireSharedSlot; [apply Hw| |].
  - intros e. change (s <| cl_device := cl_device s |>) with (with_device (cl_device s) s). rewrite with_device_self, app_assoc. apply HE.
  - intros i d' Ho Hs Ha Hsame. destruct Ho as [E1 E2]. rewrite <- E1, app_assoc. apply HQ; [|done].
    eapply dev_moved; [exact Hw|done|by rewrite <- E1 in Hs; rewrite <- E1|]. intros Hne. apply Hsame.
    intros En. apply Hne. pose proof (dw_slot _ _ _ Hw) as Hk. unfold slot_wf in Hk. rewrite En in Hk. destruct Hk as [Hk _].
    by apply length_zero_iff_nil.
Qed.

Lemma lwp_release_slot (Q : Status + unit -> HixlCSClient -> list HcRes -> list Conn -> Prop) i L s O W :
  dev_wf 1 L (cl_device s) -> active_slot_ (cl_device s) = Some i ->
  (forall d, dev_wf 0 L d -> Q (inr tt) (with_device d s) (dev_res d ++ O) W) ->
  lwp (on_device (ReleaseSharedSlotRef i)) Q s (dev_res (cl_device s) ++ O) W.
Proof using Hcli.
  intros Hw Ha HQ. apply lwp_on_device. unfold dev_res at 1. rewrite <- app_assoc.
  eapply lwp_ReleaseSharedSlotRef; [apply Hw|done|]. intros d' Ho Hs Hsame. destruct Ho as [E1 E2]. rewrite <- E1, app_assoc. apply HQ.
  eapply dev_moved; [exact Hw|done|exact Hs|]. intros Hne. rewrite Ha. apply Hsame.
  destruct (device_handles (cl_device s)); [done|cbn; lia].
Qed.

Lemma lwp_AllocateHostFlag (Q : Status + Z -> DeviceSide -> list HcRes -> list Conn -> Prop) d own W :
  (forall e, Q (inl e) d own W) -> (forall p, p <> nullptr -> Q (inr p) d (RPin p :: own) W) -> lwp AllocateHostFlag Q d own W.
Proof using Hcli.
  intros HE HQ. unfold AllocateHostFlag. lstep. apply lwp_MallocHost. intros rc p Hp. lstep. unfold chk_acl.
  destruct (Z.eqb_spec rc 0); [|lstep; apply HE]. do 2 lstep. calm_call. intros []. lstep. by apply HQ, Hp.
Qed.

Definition fresh_buffers (h : Z) d : Prop :=
  forall x, std_find h (device_handles d) = Some x -> dh_dev_op_desc_buf x = nullptr.

Lemma dev_add i h flag d : dev_wf 1 [] d -> active_slot_ d = Some i -> h <> nullptr -> std_find h (device_handles d) = None ->
  let x := {| dh_magic := kDeviceCompleteMagic; dh_shared_slot := Some i; dh_host_flag := flag; dh_dev_op_desc_buf := nullptr |} in
  let d' := d <| device_handles ::= std_set h x |> in
  running h flag d' /\ fresh_buffers h d' /\ dev_res d' ≡ₚ RHost h :: pin_of flag ++ dev_res d.
Proof.
  intros [H1 H2 H3 H4] Ha Hh Hf x d'.
  assert (Hp : device_handles d' ≡ₚ (h, x) :: device_handles d).
  { change (std_set h x (device_handles d) ≡ₚ (h, x) :: device_handles d). by rewrite std_set_perm, std_erase_none. }
  assert (Hfx : std_find h (device_handles d') = Some x) by apply std_find_set_same.
  split_and!.
  - split; [|by exists x]. constructor; [by apply std_set_wf| | |].
    + rewrite Hp. constructor; [|done]. unfold dhandle_ok. change (active_slot_ d') with (active_slot_ d). rewrite Ha. done.
    + rewrite (fmap_Permutation fst _ _ Hp). cbn [fst fmap list_fmap]. change (pending_device_handles_ d') with (pending_device_handles_ d).
      rewrite <- H3. rewrite app_nil_r. by rewrite Permutation_app_comm.
    + rewrite Hp. exact H4.
  - intros y Hy. rewrite Hfx in Hy. by injection Hy as <-.
  - change (dev_res d') with (slot_res d ++ handles_res (device_handles d')). rewrite Hp, handles_res_cons. unfold dev_res, handle_res.
    cbn [fst snd]. change (dh_host_flag x) with flag. change (dh_dev_op_desc_buf x) with nullptr. cbn [dev_of is_null nullptr Z.eqb].
    solve_Permutation.
Qed.

Lemma lwp_make_handle (Q : Status + Z -> HixlCSClient -> list HcRes -> list Conn -> Prop) i flag s O W :
  dev_wf 1 [] (cl_device s) -> active_slot_ (cl_device s) = Some i ->
  (forall e, Q (inl e) s (pin_of flag ++ dev_res (cl_device s) ++ O) W) ->
  (forall h d, running h flag d -> fresh_buffers h d -> Q (inr h) (with_device d s) (dev_res d ++ O) W) ->
  lwp (let* handle := on_device new_dev_handle in on_device (fill_handle handle i flag) ;; ret handle) Q s
    (pin_of flag ++ dev_res (cl_device s) ++ O) W.
Proof using Hcli.
  intros Hw Ha HE HQ. assert (Hself : s <| cl_device := cl_device s |> = s) by apply with_device_self.
  lstep. apply lwp_on_device. unfold new_dev_handle. lstep. apply lwp_Malloc. intros p Hp. unfold host_of. lstep.
  lstep; [|rewrite Hself; apply negb_false_iff in H; rewrite H; apply HE]. rewrite (proj1 (negb_true_iff _) H). apply negb_null in H.
  lstep. rewrite Hself. lstep. apply lwp_on_device. unfold fill_handle.
  assert (Hf : std_find p (device_handles (cl_device s)) = None).
  { destruct (std_find p _) as [x|] eqn:E; [|done]. destruct (Hp H). apply elem_of_app. right. apply elem_of_app. left.
    rewrite (dev_res_find _ p x) by first [apply Hw|done]. by left. }
  destruct (dev_add i p flag _ Hw Ha H Hf) as (R1 & R2 & R3). eapply lwp_perm.
  2: { lstep. lstep. by apply HQ. }
  rewrite R3. cbn [app]. by rewrite <- app_assoc.
Qed.

(** ** The two entries *)
Lemma lwp_release_handle (Q : Status + unit -> HixlCSClient -> list HcRes -> list Conn -> Prop) h flag s O W :
  running h flag (cl_device s) -> (forall d, dev_wf 0 [] d -> Q (inr tt) (with_device d s) (dev_res d ++ O) W) ->
  lwp (release_handle h) Q s (dev_res (cl_device s) ++ O) W.
Proof using Hhc Hcli.
  intros (Hw & x & Hf & Hx) HQ. unfold release_handle. apply lwp_log_only, lwp_on_device.
  eapply lwp_ReleaseDevCompleteHandle; [done..|]. intros d Hd _. apply HQ. unfold others in Hd. cbn in Hd. by rewrite Z.eqb_refl in Hd.
Qed.

Lemma lwp_check_notify (Q : Status + unit -> HixlCSClient -> list HcRes -> list Conn -> Prop) i L s own W :
  dev_wf 1 L (cl_device s) -> active_slot_ (cl_device s) = Some i -> (forall o, Q o s own W) -> lwp (check_notify i) Q s own W.
Proof.
  intros Hw Ha HQ. destruct (slot_wf_some _ i _ (dw_slot _ _ _ Hw) Ha) as (o & Es & Eo & Ec & Hk & Er).
  unfold check_notify. lstep. apply lwp_on_device. eapply slot_object_at; [done|].
  change (s <| cl_device := cl_device s |>) with (with_device (cl_device s) s). rewrite with_device_self. lstep; apply HQ.
Qed.

Lemma lwp_BatchTransferDeviceSync (Q : Status + unit -> HixlCSClient -> list HcRes -> list Conn -> Prop) is_get l ms s O W :
  dev_wf 0 [] (cl_device s) -> launch_ready s ->
  (forall o d, dev_wf 0 [] d -> Q o (with_device d s) (dev_res d ++ O) W) ->
  lwp (BatchTransferDeviceSync is_get l ms) Q s (dev_res (cl_device s) ++ O) W.
Proof using Hhc Hcli.
  intros Hw Hr HQ. unfold BatchTransferDeviceSync. lstep. eapply lwp_acquire_slot; [done| |].
  { intros e. rewrite <- (with_device_self s) at 1. by apply HQ. }
  intros i d Hd Ha. lstep. lstep.
  assert (Hrel : forall e, lwp (on_device (ReleaseSharedSlotRef i)) (fun _ s2 own2 W2 => Q (inl e) s2 own2 W2)
    (with_device d s) (dev_res d ++ O) W).
  { intros e. apply (lwp_release_slot _ i [] (with_device d s)); [done|done|]. intros d2 Hd2. by apply HQ. }
  lstep. eapply (lwp_check_notify _ i [] (with_device d s)); [done|done|]. intros [e|[]]; [by apply Hrel|].
  apply (lwp_make_handle _ i nullptr (with_device d s)); [done|done|intros e; by apply Hrel|]. intros h d2 R2 B2.
  change (with_device d2 (with_device d s)) with (with_device d2 s). lstep. unfold submit_sync.
  assert (Hend : ends_running (fun o s2 own2 W2 => lwp (release_handle h) (fun _ => Q o) s2 own2 W2) h nullptr (with_device d2 s) O W).
  { intros o d3 R3. apply (lwp_release_handle _ h nullptr (with_device d3 s)); [done|]. intros d4 Hd4. by apply HQ. }
  apply (lwp_submit _ is_get h nullptr l _ (with_device d2 s)); [done|done|done| |exact Hend].
  intros slot d3 R3. lstep. calm_call. intros rc. by apply (lwp_abort_unless _ h nullptr).
Qed.

Lemma lwp_BatchTransferDeviceAsync (Q : Status + Z -> HixlCSClient -> list HcRes -> list Conn -> Prop) is_get l s O W :
  dev_wf 0 [] (cl_device s) -> launch_ready s ->
  (forall o d, dev_wf 0 [] d -> Q o (with_device d s) (dev_res d ++ O) W) ->
  lwp (BatchTransferDeviceAsync is_get l) Q s (dev_res (cl_device s) ++ O) W.
Proof using Hhc Hcli.
  intros Hw Hr HQ. unfold BatchTransferDeviceAsync. lstep. eapply lwp_acquire_slot; [done| |].
  { intros e. rewrite <- (with_device_self s) at 1. by apply HQ. }
  intros i d Hd Ha. lstep. lstep.
  assert (Hrel : forall e, lwp (on_device (ReleaseSharedSlotRef i)) (fun _ s2 own2 W2 => Q (inl e) s2 own2 W2)
    (with_device d s) (dev_res d ++ O) W).
  { intros e. apply (lwp_release_slot _ i [] (with_device d s)); [done|done|]. intros d2 Hd2. by apply HQ. }
  lstep. eapply (lwp_check_notify _ i [] (with_device d s)); [done|done|]. intros [e|[]]; [by apply Hrel|].
  lstep. apply lwp_on_device. change (cl_device (with_device d s)) with d.
  assert (Eself : (with_device d s) <| cl_device := d |> = with_device d s) by done.
  apply lwp_AllocateHostFlag; rewrite Eself; [intros e; by apply Hrel|]. intros flag Hflag. lstep.
  assert (Epin : RPin flag :: dev_res d ++ O = pin_of flag ++ dev_res (cl_device (with_device d s)) ++ O).
  { unfold pin_of, is_null. by rewrite (proj2 (Z.eqb_neq _ _) Hflag). }
  rewrite Epin. apply lwp_make_handle; [done|done| |].
  { intros e. rewrite <- Epin. lstep. apply lwp_FreeHost. intros rc. lstep. by apply Hrel. }
  intros h d2 R2 B2. change (with_device d2 (with_device d s)) with (with_device d2 s). lstep. lstep. unfold submit_async.
  set (K := fun (o : Status + unit) s2 own2 W2 => match o with
    | inr _ => lwp (on_device (modify (fun d => d <| pending_device_handles_ ::= fun l => l ++ [h] |>)) ;; ret h) Q s2 own2 W2
    | inl e => lwp (release_handle h) (fun _ => Q (inl e)) s2 own2 W2 end).
  assert (Hend : ends_running K h flag (with_device d2 s) O W).
  { intros [e|[]] d3 R3; change (with_device d3 (with_device d2 s)) with (with_device d3 s); unfold K.
    - apply (lwp_release_handle _ h flag (with_device d3 s)); [done|]. intros d4 Hd4. by apply HQ.
    - lstep. apply lwp_on_device. do 2 lstep. set (d4 := _ <| pending_device_handles_ ::= _ |>).
      change (with_device d3 s <| cl_device := d4 |>) with (with_device d4 s).
      change (dev_res d3) with (dev_res d4). apply HQ. destruct R3 as ([H1 H2 H3 H4] & _). constructor; try done.
      rewrite app_nil_r. exact H3. }
  apply (lwp_submit K is_get h flag l _ (with_device d2 s)); [done|done|done| |exact Hend].
  intros slot d3 R3. pose proof R3 as (Hw3 & x & Hf3 & Hx3). lstep. apply lwp_on_device. eapply lwp_dev_handle; [exact Hf3|].
  change (with_device d3 (with_device d2 s) <| cl_device := _ |>) with (with_device d3 (with_device d2 s)). lstep.
  eapply (lwp_use _ (RPin flag)); [by rewrite Hx3; repeat split| |done|].
  - apply elem_of_app. left. rewrite (dev_res_find _ h x) by first [apply Hw3|done]. unfold handle_res. cbn [fst snd].
    rewrite Hx3. unfold pin_of, is_null. rewrite (proj2 (Z.eqb_neq _ _) Hflag). right. by left.
  - intros rc. by apply (lwp_abort_unless K h flag).
Qed.
End Batch.
