(* ===== verification/ClientInv.v ===== *)
(** The invariant of a client between the calls, what it owns then, and the rules for
    calls on its endpoint, its connection and its store. *)

From S2P Require Import Prelude StdMap Effects External Runtime Wire Hcomm MemStore TransferPool ClientRt Net CtrlConn CtrlConnSpec CtrlConnSafety HostRegister Endpoint GlobalConfig RemoteMem HcResources EndpointSafety ServerCalls ClientState ClientLedger HostTransfer DeviceTransfer ClientMemory CsClient HostTransferSafety DeviceTransferSafety RemoteMemSafety.

(** * What a client owns *)
Definition ep_res (s : HixlCSClient) : list HcRes := from_option owned [] (local_endpoint_ s).
Definition client_res (s : HixlCSClient) : list HcRes :=
  ep_res s ++ flag_res (cl_flags s) ++ dev_res (cl_device s) ++ descs_res (desc_list_ (cl_remote s)).
Definition conns (s : HixlCSClient) : list Conn := from_option (fun c => [c]) [] (connection_ s).

(** A batch takes at least one transfer. *)
Definition batch_ok (st : Settings) : Prop := 1 <= max_transfer_count_per_batch (transfer_config_ (global_config_ st)).

Record client_wf (s : HixlCSClient) : Prop := {
  cw_ep : from_option ep_wf True (local_endpoint_ s);
  cw_flags : flags_wf [] (cl_flags s);
  cw_dev : dev_wf 0 [] (cl_device s);
  cw_batch : batch_ok (cl_settings s)
}.

Lemma client_wf_new px : client_wf (HixlCSClient_new px).
Proof. constructor; [done|apply flags_wf_new|apply dev_wf_new|done]. Qed.
Lemma client_res_new px : client_res (HixlCSClient_new px) = [].
Proof. done. Qed.

Lemma batch_limit_pos legacy st : 1 <= legacy -> batch_ok st -> 1 <= batch_limit legacy st.
Proof. unfold batch_limit, batch_ok. by destruct (transfer_supported_ st). Qed.

Lemma owned_no_slot e dev i : RSlot dev i ∉ owned e.
Proof.
  unfold owned, self_of, chans_of, regs_of. rewrite !elem_of_app. intros [H|[H|H]].
  - destruct (is_null (handle_ e)); [by apply elem_of_nil in H|]. by apply list_elem_of_singleton in H.
  - by apply list_elem_of_fmap in H as (? & ? & _).
  - by apply list_elem_of_fmap in H as (? & ? & _).
Qed.

(** The client at rest, beside the resources [O] and the connections [W0] of others. *)
Record at_rest (O : list HcRes) (W0 : list Conn) (s : HixlCSClient) (own : list HcRes) (W : list Conn) : Prop := {
  ar_wf : client_wf s;
  ar_own : own ≡ₚ client_res s ++ O;
  ar_conns : W ≡ₚ conns s ++ W0
}.

Section Rules.
Context {codes : AclCodes} {again : HcclAgain} {clib : CLibrary} {env : Environment NetOp}.
Implicit Types (s : HixlCSClient) (own O : list HcRes) (W : list Conn) (h : History NetOp).

(** [m] takes the client at rest to the client at rest. *)
Definition cwp {A} (m : M NetOp HixlCSClient A) (Q : Status + A -> HixlCSClient -> Prop) s : Prop :=
  client_wf s -> forall O W0,
  lwp m (fun o s' own' W' => at_rest O W0 s' own' W' /\ Q o s') s (client_res s ++ O) (conns s ++ W0).

Lemma at_rest_self O W0 s : client_wf s -> at_rest O W0 s (client_res s ++ O) (conns s ++ W0).
Proof. by constructor. Qed.

Lemma ledger_conns own W W' h : W ≡ₚ W' -> ledger own W h -> ledger own W' h.
Proof. intros E [H1 H2 H3]. constructor; [done|by rewrite <- E|done]. Qed.
Lemma lwp_from {S A} (m : M NetOp S A) Q (s : S) own own' W W' :
  own ≡ₚ own' -> W ≡ₚ W' -> lwp m Q s own' W' -> lwp m Q s own W.
Proof. intros E1 E2 H h Hl. apply H. eapply ledger_conns; [exact E2|]. by eapply ledger_perm. Qed.
Lemma lwp_at_rest {A} (m : M NetOp HixlCSClient A) (Q : Status + A -> HixlCSClient -> Prop) O W0 s own W :
  at_rest O W0 s own W -> cwp m Q s -> lwp m (fun o s' own' W' => at_rest O W0 s' own' W' /\ Q o s') s own W.
Proof. intros [H1 H2 H3] H. eapply lwp_from; [done..|]. by apply H. Qed.

Lemma cwp_mono {A} (m : M NetOp HixlCSClient A) (Q Q' : Status + A -> HixlCSClient -> Prop) s :
  cwp m Q s -> (forall o s', Q o s' -> Q' o s') -> cwp m Q' s.
Proof. intros H HQ Hw O W0. eapply lwp_mono; [by apply H|]. intros o s' own' W' [H1 H2]. split; [done|by apply HQ]. Qed.
Lemma cwp_ret {A} (a : A) (Q : Status + A -> HixlCSClient -> Prop) s : Q (inr a) s -> cwp (ret a) Q s.
Proof. intros H Hw O W0. apply lwp_ret. by split; [apply at_rest_self|]. Qed.
Lemma cwp_fail {A} e (Q : Status + A -> HixlCSClient -> Prop) s : Q (inl e) s -> cwp (fail e) Q s.
Proof. intros H Hw O W0. apply lwp_fail. by split; [apply at_rest_self|]. Qed.
Lemma cwp_get (Q : Status + HixlCSClient -> HixlCSClient -> Prop) s : Q (inr s) s -> cwp get Q s.
Proof. intros H Hw O W0. apply lwp_get. by split; [apply at_rest_self|]. Qed.
Lemma cwp_bind {A B} (m : M NetOp HixlCSClient A) (k : A -> M NetOp HixlCSClient B) (Q : Status + B -> HixlCSClient -> Prop) s :
  cwp m (fun o s' => match o with inr a => cwp (k a) Q s' | inl e => Q (inl e) s' end) s -> cwp (bind m k) Q s.
Proof.
  intros H Hw O W0. apply lwp_bind. eapply lwp_mono; [by apply H|]. intros [e|a] s' own' W' [H1 H2]; [done|].
  by eapply lwp_at_rest.
Qed.
Lemma cwp_require b e (Q : Status + unit -> HixlCSClient -> Prop) s :
  (b = true -> Q (inr tt) s) -> (b = false -> Q (inl e) s) -> cwp (require b e) Q s.
Proof. intros H1 H2. destruct b; cbn [require]; [apply cwp_ret|apply cwp_fail]; auto. Qed.
Lemma cwp_attempt {A} (m : M NetOp HixlCSClient A) (Q : Status + (Status + A) -> HixlCSClient -> Prop) s :
  cwp m (fun o s' => Q (inr o) s') s -> cwp (attempt m) Q s.
Proof. intros H Hw O W0. apply lwp_attempt. by apply H. Qed.
Lemma cwp_log_only {A} (m : M NetOp HixlCSClient A) (Q : Status + unit -> HixlCSClient -> Prop) s :
  cwp m (fun _ s' => Q (inr tt) s') s -> cwp (log_only m) Q s.
Proof. intros H. apply cwp_bind, cwp_attempt. eapply cwp_mono; [exact H|]. intros o s' HQ. by apply cwp_ret. Qed.
Lemma cwp_on_fail {A} (m : M NetOp HixlCSClient A) f (Q : Status + A -> HixlCSClient -> Prop) s :
  cwp m (fun o s' => match o with inr a => Q (inr a) s' | inl e => cwp f (fun _ s'' => Q (inl e) s'') s' end) s ->
  cwp (on_fail m f) Q s.
Proof.
  intros H Hw O W0. apply lwp_on_fail. eapply lwp_mono; [by apply H|]. intros [e|a] s' own' W' [H1 H2]; [|done].
  by eapply lwp_at_rest.
Qed.
Lemma cwp_finally {A} (m : M NetOp HixlCSClient A) f (Q : Status + A -> HixlCSClient -> Prop) s :
  cwp m (fun o s' => cwp f (fun _ s'' => Q o s'') s') s -> cwp (finally m f) Q s.
Proof.
  intros H Hw O W0. apply lwp_finally. eapply lwp_mono; [by apply H|]. intros o s' own' W' [H1 H2].
  by eapply lwp_at_rest.
Qed.
Lemma cwp_for_each {A} (l : list A) (m : A -> M NetOp HixlCSClient unit) (I : HixlCSClient -> Prop) (X : Status -> HixlCSClient -> Prop) s :
  I s -> (forall a s', a ∈ l -> I s' -> cwp (m a) (fun o s'' => match o with inr _ => I s'' | inl e => X e s'' end) s') ->
  cwp (for_each l m) (fun o s'' => match o with inr _ => I s'' | inl e => X e s'' end) s.
Proof.
  revert s. induction l as [|a l IH]; intros s Hi Hm; cbn [for_each]; [by apply cwp_ret|].
  apply cwp_bind. eapply cwp_mono; [apply Hm; [by left|done]|]. intros [e|[]] s' H; [done|].
  apply IH; [done|]. intros a' s'' Ha. apply Hm. by right.
Qed.
Lemma cwp_modify f (Q : Status + unit -> HixlCSClient -> Prop) s :
  (client_wf s -> client_wf (f s)) -> client_res (f s) = client_res s -> conns (f s) = conns s -> Q (inr tt) (f s) ->
  cwp (modify f) Q s.
Proof.
  intros H1 H2 H3 HQ Hw O W0. apply lwp_modify. split; [|done].
  constructor; [by apply H1|by rewrite H2|by rewrite H3].
Qed.
Lemma cwp_calm {T} (op : NetOp T) (Q : Status + T -> HixlCSClient -> Prop) s :
  (forall r, calm (Ev op r)) -> (forall r, Q (inr r) s) -> cwp (call op) Q s.
Proof. intros Hc HQ Hw O W0. apply lwp_calm; [done|]. intros r. by split; [apply at_rest_self|]. Qed.
(** A block that neither the state nor the ledger notices. *)
Lemma cwp_still {A} (m : M NetOp HixlCSClient A) (Q : Status + A -> HixlCSClient -> Prop) s :
  (forall (Q : Status + A -> HixlCSClient -> list HcRes -> list Conn -> Prop) own W, (forall o, Q o s own W) -> lwp m Q s own W) ->
  (forall o, Q o s) -> cwp m Q s.
Proof. intros Hm HQ Hw O W0. apply Hm. intros o. by split; [apply at_rest_self|]. Qed.

Lemma cwp_with_context {A} (m : M NetOp HixlCSClient A) (Q : Status + A -> HixlCSClient -> Prop) s :
  cwp m Q s -> cwp (with_context m) Q s.
Proof. intros H Hw O W0. by apply lwp_with_context, H. Qed.
Lemma cwp_in_context {A} c (m : M NetOp HixlCSClient A) (Q : Status + A -> HixlCSClient -> Prop) s :
  cwp m Q s -> cwp (in_context c m) Q s.
Proof. intros H Hw O W0. by apply lwp_in_context, H. Qed.
Lemma cwp_the_endpoint e (Q : Status + Endpoint -> HixlCSClient -> Prop) s :
  local_endpoint_ s = Some e -> Q (inr e) s -> cwp the_endpoint Q s.
Proof. intros He HQ. apply cwp_bind, cwp_get. rewrite He. by apply cwp_ret. Qed.
Lemma cwp_not_null {A} (o : option A) (Q : Status + A -> HixlCSClient -> Prop) s :
  (forall a, o = Some a -> Q (inr a) s) -> Q (inl PARAM_INVALID) s -> cwp (not_null o) Q s.
Proof. intros H1 H2. unfold not_null. destruct o; [apply cwp_ret|apply cwp_fail]; auto. Qed.

(** ** The parts of a client *)
Lemma cwp_on_settings (f : Settings -> Settings) (Q : Status + unit -> HixlCSClient -> Prop) s :
  (batch_ok (cl_settings s) -> batch_ok (f (cl_settings s))) -> Q (inr tt) (s <| cl_settings ::= f |>) ->
  cwp (on_settings (modify f)) Q s.
Proof.
  intros Hb HQ Hw O W0. apply lwp_on_settings, lwp_modify. split; [|done]. constructor; [|done|done].
  destruct Hw as [H1 H2 H3 H4]. constructor; try done. by apply Hb.
Qed.
Lemma cwp_on_remote {A} (m : M NetOp RemoteMems A) (Q : Status + A -> HixlCSClient -> Prop) s :
  (forall (Q' : Status + A -> RemoteMems -> list HcRes -> list Conn -> Prop) own W,
     (forall o r, desc_list_ r = desc_list_ (cl_remote s) -> Q o (s <| cl_remote := r |>) -> Q' o r own W) ->
     lwp m Q' (cl_remote s) own W) -> cwp (on_remote m) Q s.
Proof.
  intros Hm Hw O W0. apply lwp_on_remote, Hm. intros o r E HQ. split; [|done]. constructor.
  - by destruct Hw.
  - unfold client_res. cbn. by rewrite E.
  - done.
Qed.
Lemma cwp_on_store f (Q : Status + unit -> HixlCSClient -> Prop) s :
  (forall o ms, Q o (s <| mem_store_ := ms |>)) -> cwp (on_store f) Q s.
Proof.
  intros HQ Hw O W0. apply lwp_on_store. intros o ms. split; [|done]. constructor; [|done|done]. by destruct Hw.
Qed.
Lemma cwp_on_flags {A} (m : M NetOp FlagQueue A) (Q : Status + A -> HixlCSClient -> Prop) s :
  (forall (Q' : Status + A -> FlagQueue -> list HcRes -> list Conn -> Prop) O W, flags_wf [] (cl_flags s) ->
     (forall o q own, flags_wf [] q -> own ≡ₚ flag_res q ++ O -> Q o (s <| cl_flags := q |>) -> Q' o q own W) ->
     lwp m Q' (cl_flags s) (flag_res (cl_flags s) ++ O) W) -> cwp (on_flags m) Q s.
Proof.
  intros Hm Hw O W0. apply lwp_on_flags.
  apply (lwp_perm _ _ _ _ (flag_res (cl_flags s) ++ ep_res s ++ dev_res (cl_device s) ++ descs_res (desc_list_ (cl_remote s)) ++ O)).
  { unfold client_res. solve_Permutation. }
  apply Hm; [apply Hw|]. intros o q own Hq E HQ. split; [|done]. constructor; [|rewrite E; unfold client_res; cbn; solve_Permutation|done].
  destruct Hw as [H1 H2 H3 H4]. by constructor.
Qed.
Lemma cwp_device {A} (m : M NetOp HixlCSClient A) (Q : Status + A -> HixlCSClient -> Prop) s :
  (forall (Q' : Status + A -> HixlCSClient -> list HcRes -> list Conn -> Prop) O W, dev_wf 0 [] (cl_device s) ->
     (forall o d own, dev_wf 0 [] d -> own ≡ₚ dev_res d ++ O -> Q o (with_device d s) -> Q' o (with_device d s) own W) ->
     lwp m Q' s (dev_res (cl_device s) ++ O) W) -> cwp m Q s.
Proof.
  intros Hm Hw O W0.
  apply (lwp_perm _ _ _ _ (dev_res (cl_device s) ++ ep_res s ++ flag_res (cl_flags s) ++ descs_res (desc_list_ (cl_remote s)) ++ O)).
  { unfold client_res. solve_Permutation. }
  apply Hm; [apply Hw|]. intros o d own Hd E HQ. split; [|done]. constructor; [|rewrite E; unfold client_res; cbn; solve_Permutation|done].
  destruct Hw as [H1 H2 H3 H4]. by constructor.
Qed.
Lemma cwp_on_device {A} (m : M NetOp DeviceSide A) (Q : Status + A -> HixlCSClient -> Prop) s :
  (forall (Q' : Status + A -> DeviceSide -> list HcRes -> list Conn -> Prop) O W, dev_wf 0 [] (cl_device s) ->
     (forall o d own, dev_wf 0 [] d -> own ≡ₚ dev_res d ++ O -> Q o (with_device d s) -> Q' o d own W) ->
     lwp m Q' (cl_device s) (dev_res (cl_device s) ++ O) W) -> cwp (on_device m) Q s.
Proof.
  intros Hm. apply cwp_device. intros Q' O W Hw HQ. apply lwp_on_device, Hm; [done|]. intros o d own Hd E HQ'. by apply HQ.
Qed.

(** ** The endpoint *)
Definition with_endpoint (e : Endpoint) (px : Proxies) s : HixlCSClient :=
  s <| local_endpoint_ := Some e |> <| cl_px := px |>.

(** The ledger after a call on the endpoint [e]. *)
Lemma ledger_ep own own' O W h t : pools (own ++ O) h -> CtrlConnSafety.owned W h -> acct (own' ++ O) (t ++ h) ->
  Forall silent t -> (forall dev i, RSlot dev i ∉ own') -> ledger (own' ++ O) W (t ++ h).
Proof.
  intros H1 H2 H3 Ht Hno. constructor; [done|by apply owned_silent|]. intros dev i [Hi|Hi]%elem_of_app; [by destruct (Hno dev i)|].
  apply elem_of_app. right. apply (H1 dev i). apply elem_of_app. by right.
Qed.

Lemma lwp_on_endpoint {A} (m : M NetOp EpState A) (Q : Status + A -> HixlCSClient -> list HcRes -> list Conn -> Prop)
    (P : Status + A -> Endpoint -> Prop) e s O W :
  local_endpoint_ s = Some e -> ep_wf e -> emits silent m ->
  (forall h, acct (owned e ++ O) h ->
     wp m (fun o t' h' => P o (es_ep t') /\ ep_wf (es_ep t') /\ acct (owned (es_ep t') ++ O) h') {| es_ep := e; es_px := cl_px s |} h) ->
  (forall o e' px, ep_wf e' -> P o e' -> Q o (with_endpoint e' px s) (owned e' ++ O) W) ->
  lwp (on_endpoint m) Q s (owned e ++ O) W.
Proof.
  intros He Hw Hs Hm HQ. unfold on_endpoint. eapply lwp_zoom; [by rewrite He|]. cbn beta. intros h [L1 L2 L3].
  eapply wp_mono; [apply (wp_emits silent); [exact Hs|]; by apply Hm|].
  intros o [e' px] h' [(HP & Hw' & Ha') (t & -> & Ht)]. cbn [es_ep es_px] in *. exists (owned e' ++ O), W. split; [|by apply HQ].
  eapply (ledger_ep (owned e)); [done..|]. intros. apply owned_no_slot.
Qed.

Lemma cwp_endpoint {A} (m : M NetOp EpState A) (Q : Status + A -> HixlCSClient -> Prop) (P : Status + A -> Endpoint -> Prop) e s :
  local_endpoint_ s = Some e -> emits silent m ->
  (forall O h, ep_wf e -> acct (owned e ++ O) h ->
     wp m (fun o t' h' => P o (es_ep t') /\ ep_wf (es_ep t') /\ acct (owned (es_ep t') ++ O) h') {| es_ep := e; es_px := cl_px s |} h) ->
  (forall o e' px, ep_wf e' -> P o e' -> Q o (with_endpoint e' px s)) -> cwp (on_endpoint m) Q s.
Proof.
  intros He Hs Hm HQ Hw O W0. pose proof (cw_ep _ Hw) as Hep. rewrite He in Hep. cbn in Hep.
  apply (lwp_perm _ _ _ _ (owned e ++ flag_res (cl_flags s) ++ dev_res (cl_device s) ++ descs_res (desc_list_ (cl_remote s)) ++ O)).
  { unfold client_res, ep_res. rewrite He. cbn [from_option]. solve_Permutation. }
  eapply (lwp_on_endpoint _ _ P); [done|done|done|intros h; by apply Hm|]. intros o e' px Hw' HP. split; [|by apply HQ]. constructor.
  - destruct Hw as [H1 H2 H3 H4]. by constructor.
  - unfold client_res, ep_res. cbn. solve_Permutation.
  - done.
Qed.

(** A method that keeps the endpoint what it is. *)
Lemma cwp_on_endpoint {A} (m : M NetOp EpState A) (Q : Status + A -> HixlCSClient -> Prop) e s :
  local_endpoint_ s = Some e -> emits silent m ->
  (forall O (Q : Status + A -> EpState -> History NetOp -> Prop) t h, inv O t h ->
     (forall o t' h', inv O t' h' -> same (es_ep t) (es_ep t') -> Q o t' h') -> wp m Q t h) ->
  (forall o e' px, same e e' -> Q o (with_endpoint e' px s)) -> cwp (on_endpoint m) Q s.
Proof.
  intros He Hs Hm HQ. eapply (cwp_endpoint _ _ (fun _ e' => same e e')); [done|done| |by auto].
  intros O h Hw Ha. apply (Hm O); [by split|]. by intros o t' h' [H1 H2] H3.
Qed.

(** Only the endpoint, the store and what the process has mapped may differ. *)
Record near s s' : Prop := {
  nr_ep : is_Some (local_endpoint_ s) -> is_Some (local_endpoint_ s');
  nr_conn : connection_ s' = connection_ s;
  nr_flags : cl_flags s' = cl_flags s;
  nr_device : cl_device s' = cl_device s;
  nr_remote : cl_remote s' = cl_remote s;
  nr_settings : cl_settings s' = cl_settings s
}.
Lemma near_refl s : near s s.
Proof. by constructor. Qed.
Lemma near_trans s1 s2 s3 : near s1 s2 -> near s2 s3 -> near s1 s3.
Proof. intros [] []. constructor; [by auto|congruence..]. Qed.
Lemma near_endpoint e px s : near s (with_endpoint e px s).
Proof. by constructor. Qed.
Lemma near_store ms s : near s (s <| mem_store_ := ms |>).
Proof. by constructor. Qed.

(** ** The connection *)
Lemma cwp_on_connection {A} (m : M NetOp Conn A) (Q : Status + A -> HixlCSClient -> Prop) (P : Status + A -> Conn -> Prop) c s :
  connection_ s = Some c -> emits neutral m ->
  (forall F S h, holds c h F S -> wp m (fun o c' h' => holds c' h' F S /\ P o c') c h) ->
  (forall o c', P o c' -> Q o (s <| connection_ := Some c' |>)) -> cwp (on_connection m) Q s.
Proof.
  intros Hc Hn Hm HQ Hw O W0. unfold on_connection. eapply lwp_zoom; [done|].
  unfold conns. rewrite Hc. cbn [from_option app]. eapply (lwp_conn _ _ P); [done|done|]. intros o c' HP. split; [|by apply HQ].
  constructor; [by destruct Hw|done|done].
Qed.
(** Calls on it, one after the other. *)
Lemma cwp_conn {A} (m : M NetOp Conn A) (Q : Status + A -> HixlCSClient -> Prop) c s :
  connection_ s = Some c ->
  (forall (Q' : Status + A -> Conn -> list HcRes -> list Conn -> Prop) own W,
     (forall o c', Q o (s <| connection_ := Some c' |>) -> Q' o c' own (c' :: W)) -> lwp m Q' c own (c :: W)) ->
  cwp (on_connection m) Q s.
Proof.
  intros Hc Hm Hw O W0. unfold on_connection. eapply lwp_zoom; [done|]. unfold conns. rewrite Hc. cbn [from_option app].
  apply Hm. intros o c' HQ. split; [|done]. constructor; [by destruct Hw|done|done].
Qed.
End Rules.

(** Steps that need no choice. *)
Ltac ccalm := apply cwp_calm; [by repeat split|].
Ltac cstep :=
  lazymatch goal with
  | |- cwp (bind _ _) _ _ => apply cwp_bind
  | |- cwp (ret _) _ _ => apply cwp_ret
  | |- cwp (fail _) _ _ => apply cwp_fail
  | |- cwp get _ _ => apply cwp_get
  | |- cwp (require _ _) _ _ => apply cwp_require; intros ?
  | |- cwp (attempt _) _ _ => apply cwp_attempt
  | |- cwp (log_only _) _ _ => apply cwp_log_only
  | |- cwp (finally _ _) _ _ => apply cwp_finally
  | |- cwp (on_fail _ _) _ _ => apply cwp_on_fail
  | |- cwp (with_context _) _ _ => apply cwp_with_context
  | |- cwp (in_context _ _) _ _ => apply cwp_in_context
  | |- cwp (let _ := _ in _) _ _ => cbv zeta
  | |- cwp (match ?x with _ => _ end) _ _ => destruct x eqn:?
  end.
