(* ===== verification/ClientMemorySafety.v ===== *)
(** The memory of a client: its own is registered with the endpoint or not at all, and
    the buffers of the server's descriptors are held by the list that was imported. *)

From S2P Require Import Prelude StdMap Effects External Runtime Wire Hcomm MemStore TransferPool ClientRt Net CtrlConn CtrlConnSpec CtrlConnSafety ConnMsg HostRegister Endpoint GlobalConfig RemoteMem HcResources EndpointSafety ServerCalls ClientState ClientLedger HostTransfer DeviceTransfer ClientMemory CsClient HostTransferSafety DeviceTransferSafety RemoteMemSafety ClientInv.

Section Memory.
Context {codes : AclCodes} {again : HcclAgain} {clib : CLibrary} {nl : Nlohmann} {env : Environment NetOp}.
Context {Hnet : NetLaws env} {Hhc : HcLaws env} {Hcli : CliLaws env} {Hjson : JsonLaws env}.
Context `{G : GeMath} `{Sec : Securec} `{Abi : HcommAbi}.
Implicit Types (s : HixlCSClient) (own O : list HcRes) (W : list Conn).

(** ** Calls on the endpoint *)
Lemma cwp_RegisterMem (Q : Status + Z -> HixlCSClient -> Prop) tag mem e s :
  local_endpoint_ s = Some e -> (forall o s', near s s' -> Q o s') -> cwp (on_endpoint (Endpoint_RegisterMem tag mem)) Q s.
Proof using Hnet Hhc.
  intros He HQ. eapply cwp_on_endpoint; [done|apply es_RegisterMem|intros; by eapply wp_Endpoint_RegisterMem|].
  intros. apply HQ, near_endpoint.
Qed.
Lemma cwp_DeregisterMem (Q : Status + unit -> HixlCSClient -> Prop) h e s :
  local_endpoint_ s = Some e -> (forall o s', near s s' -> Q o s') -> cwp (on_endpoint (Endpoint_DeregisterMem h)) Q s.
Proof using Hnet Hhc.
  intros He HQ. eapply cwp_on_endpoint; [done|apply es_DeregisterMem|intros; by eapply wp_Endpoint_DeregisterMem|].
  intros. apply HQ, near_endpoint.
Qed.
Lemma cwp_ImportMem (Q : Status + CommMem -> HixlCSClient -> Prop) d n e s :
  local_endpoint_ s = Some e -> (forall o s', near s s' -> Q o s') -> cwp (on_endpoint (Endpoint_ImportMem d n)) Q s.
Proof using Hnet Hhc.
  intros He HQ. eapply cwp_on_endpoint; [done|apply es_ImportMem|intros; by eapply wp_ImportMem; [done|]; auto using same_refl|].
  intros. apply HQ, near_endpoint.
Qed.
Lemma cwp_UnimportMem (Q : Status + unit -> HixlCSClient -> Prop) d n e s :
  local_endpoint_ s = Some e -> (forall o s', near s s' -> Q o s') -> cwp (on_endpoint (Endpoint_UnimportMem d n)) Q s.
Proof using Hnet Hhc.
  intros He HQ. eapply cwp_on_endpoint; [done|apply es_UnimportMem|intros; by eapply wp_UnimportMem; [done|]; auto using same_refl|].
  intros. apply HQ, near_endpoint.
Qed.

(** ** The client's own memory *)
Lemma cwp_RegMemLocked (Q : Status + Z -> HixlCSClient -> Prop) tag mem s :
  is_Some (local_endpoint_ s) -> (forall o s', near s s' -> Q o s') -> cwp (RegMemLocked tag mem) Q s.
Proof using Hnet Hhc.
  intros Hep HQ. pose proof (near_refl s) as N0. unfold RegMemLocked. cstep. cstep.
  apply cwp_not_null; [intros m _|by apply HQ]. cstep. cstep; [|by apply HQ]. do 2 cstep. cstep; [cstep; by apply HQ|].
  cstep. cstep; [|by apply HQ]. cstep. destruct Hep as [e He]. eapply cwp_RegisterMem; [done|]. intros [st|h] s1 N1; [by apply HQ|].
  destruct (nr_ep _ _ N1) as [e1 He1]; [by eexists|]. cstep. cstep.
  assert (Hdrop : forall st s2, near s s2 -> cwp (log_only (on_endpoint (Endpoint_DeregisterMem h))) (fun _ s3 => Q (inl st) s3) s2).
  { intros st s2 N2. cstep. destruct (nr_ep _ _ N2) as [e2 He2]; [by eexists|]. eapply cwp_DeregisterMem; [done|].
    intros o s3 N3. apply HQ. by eapply near_trans. }
  cbv zeta. cstep. unfold registered_dev_addr. cstep. eapply cwp_the_endpoint; [done|]. do 2 cstep.
  assert (Hstore : forall f, cwp (on_store f) (fun o s2 => match o with
      | inl st => cwp (log_only (on_endpoint (Endpoint_DeregisterMem h))) (fun _ s3 => Q (inl st) s3) s2
      | inr _ => cwp (ret h) Q s2 end) s1).
  { intros f. apply cwp_on_store. intros [st|[]] ms.
    - apply Hdrop. eapply near_trans; [exact N1|]. apply near_store.
    - cstep. apply HQ. eapply near_trans; [exact N1|]. apply near_store. }
  destruct (_ && need_host_va_mapping_ e1); [|cstep; apply Hstore]. destruct (GetRegisteredDeviceAddrByDev _ _ _); cstep; [by apply Hdrop|apply Hstore].
Qed.

Lemma cwp_UnRegMem (Q : Status + unit -> HixlCSClient -> Prop) h s :
  is_Some (local_endpoint_ s) -> (forall o s', near s s' -> Q o s') -> cwp (UnRegMem h) Q s.
Proof using Hnet Hhc.
  intros [e He] HQ. pose proof (near_refl s) as N0. unfold UnRegMem. cstep. cstep. cstep; [|by apply HQ]. do 2 cstep.
  cstep; [cstep; by apply HQ|]. cstep. eapply cwp_the_endpoint; [done|]. cstep; [cstep; by apply HQ|].
  do 2 cstep. eapply cwp_DeregisterMem; [done|]. intros o s1 N1. cstep. cstep; [|by apply HQ].
  apply cwp_on_store. intros o' ms. apply HQ. eapply near_trans; [exact N1|]. apply near_store.
Qed.

(** What was there is there: an endpoint, a connection. *)
Record stays s s' : Prop := {
  st_ep : is_Some (local_endpoint_ s) -> is_Some (local_endpoint_ s');
  st_conn : is_Some (connection_ s) -> is_Some (connection_ s')
}.
Lemma stays_refl s : stays s s.
Proof. by constructor. Qed.
Lemma stays_trans s1 s2 s3 : stays s1 s2 -> stays s2 s3 -> stays s1 s3.
Proof. intros [] []. constructor; auto. Qed.
Lemma near_stays s s' : near s s' -> stays s s'.
Proof. intros [H1 H2 _ _ _ _]. constructor; [done|by rewrite H2]. Qed.
Lemma stays_eq s s' : local_endpoint_ s' = local_endpoint_ s -> connection_ s' = connection_ s -> stays s s'.
Proof. intros E1 E2. constructor; by rewrite ?E1, ?E2. Qed.

(** A new queue, whose words belong to no handle. *)
#[local] Opaque kFlagQueueSize.
Lemma flags_wf_fresh q p : flags_wf [] q -> flag_queue_ q = nullptr -> p <> nullptr ->
  flags_wf [] (q <| flag_queue_ := p |> <| top_index_ := kFlagQueueSize |>) /\ complete_handles q = [].
Proof.
  intros [H1 H2 H3 H4 H5 [(_ & Ht & Eh & _ & Ea)|(Hq & _)]] E Hp; [|done]. split; [|done]. constructor; cbn; try done.
  - by rewrite Eh.
  - right. split_and!; [done|lia|]. unfold free_indices. cbn. rewrite Ea, Eh, take_ge by by rewrite length_all_indices.
    by rewrite !app_nil_r.
Qed.
#[local] Transparent kFlagQueueSize.

Lemma cwp_InitFlagQueue (Q : Status + unit -> HixlCSClient -> Prop) s :
  is_Some (local_endpoint_ s) -> (forall o s', stays s s' -> Q o s') -> cwp InitFlagQueue Q s.
Proof using Hnet Hhc Hcli.
  intros Hep HQ. unfold InitFlagQueue. do 2 cstep. cstep; [cstep; apply HQ, stays_refl|]. apply negb_false_iff in Heqb.
  intros Hw O W0. cbv zeta. lstep. apply lwp_Malloc. intros p _.
  assert (Hfail : at_rest O W0 s (client_res s ++ O) (conns s ++ W0) /\ Q (inl FAILED) s).
  { split; [by apply at_rest_self|apply HQ, stays_refl]. }
  unfold host_of. destruct (is_null p) eqn:Ep; cbn [negb require app]; [by apply lwp_bind, lwp_fail|].
  apply lwp_bind, lwp_ret. apply lwp_on_fail. lstep. eapply (lwp_use _ (RHost p)); [by repeat split|by left|done|]. intros [].
  lstep. apply (lwp_mono _ (fun o s' own' W' => at_rest (RHost p :: O) W0 s' own' W' /\ near s s')).
  { eapply (lwp_at_rest _ (fun _ s' => near s s')); [|by apply cwp_RegMemLocked]. constructor; [done|solve_Permutation|done]. }
  intros [st|h] s1 own1 W1 [[R1 R2 R3] N].
  - eapply lwp_perm; [rewrite R2; symmetry; apply Permutation_middle|]. apply lwp_HostFree. split; [by constructor|apply HQ, near_stays, N].
  - apply lwp_on_flags. lstep. split; [|apply HQ; eapply stays_trans; [by apply near_stays|by apply stays_eq]].
    unfold is_null in Heqb, Ep. apply Z.eqb_eq in Heqb. apply Z.eqb_neq in Ep.
    destruct (flags_wf_fresh (cl_flags s1) p) as [Hf Eh]; [apply R1|by rewrite (nr_flags _ _ N)|done|].
    constructor; [destruct R1; by constructor| |exact R3]. rewrite R2. unfold client_res, flag_res. cbn. rewrite Eh.
    rewrite (nr_flags _ _ N), Heqb. unfold host_of, is_null at 2. rewrite (proj2 (Z.eqb_neq _ _) Ep). cbn. solve_Permutation.
Qed.

Lemma cwp_set_notify (f : DeviceSide -> DeviceSide) (Q : Status + unit -> HixlCSClient -> Prop) s :
  dev_same (cl_device s) (f (cl_device s)) -> Q (inr tt) (with_device (f (cl_device s)) s) -> cwp (on_device (modify f)) Q s.
Proof.
  intros Hs HQ. apply cwp_on_device. intros Q' O W Hw HQ'. lstep. apply HQ'; [by eapply dev_wf_same|by rewrite (dev_res_same _ _ Hs)|done].
Qed.

Lemma cwp_RegisterNotify (Q : Status + unit -> HixlCSClient -> Prop) l s :
  is_Some (local_endpoint_ s) -> (forall o s', stays s s' -> Q o s') -> cwp (RegisterNotifyMemForAllSlots l) Q s.
Proof using Hnet Hhc.
  intros Hep HQ. unfold RegisterNotifyMemForAllSlots. cstep. apply cwp_set_notify; [done|].
  eapply cwp_mono; [apply (cwp_for_each _ _ (stays s) (fun _ => stays s)); [by apply stays_eq|]|by intros [e|[]] s'; apply HQ].
  intros [i slot] s1 _ S1. unfold register_notify. cstep. cstep; [|done]. cstep.
  destruct (st_ep _ _ S1 Hep) as [e He]. eapply cwp_RegisterMem; [done|]. intros [st|h] s2 N2; apply near_stays in N2.
  - by eapply stays_trans.
  - apply cwp_set_notify; [done|]. eapply stays_trans; [exact S1|]. eapply stays_trans; [exact N2|]. by apply stays_eq.
Qed.

(** ** The server's memory *)
Lemma cwp_each {A} (l : list A) (m : A -> M NetOp HixlCSClient unit) (Q : Status + unit -> HixlCSClient -> Prop) s :
  (forall a s1 (Q : Status + unit -> HixlCSClient -> Prop), near s s1 -> (forall s2, near s1 s2 -> Q (inr tt) s2) -> cwp (m a) Q s1) ->
  (forall s', near s s' -> Q (inr tt) s') -> cwp (for_each l m) Q s.
Proof.
  intros Hm HQ. eapply cwp_mono; [apply (cwp_for_each _ _ (near s) (fun _ _ => False)); [apply near_refl|]|by intros [e|[]] s'; [|apply HQ]].
  intros a s1 _ N1. apply Hm; [done|]. intros s2 N2. by eapply near_trans.
Qed.
Lemma cwp_CloseImportedBufs (Q : Status + unit -> HixlCSClient -> Prop) l s :
  is_Some (local_endpoint_ s) -> (forall s', near s s' -> Q (inr tt) s') -> cwp (CloseImportedBufs l) Q s.
Proof using Hnet Hhc.
  intros [e He] HQ. unfold CloseImportedBufs. cstep. eapply cwp_the_endpoint; [done|].
  cstep; [cstep; apply HQ, near_refl|]. apply cwp_each; [|done]. intros d s1 Q1 N1 HQ1. unfold close_imported.
  destruct (hmd_is_imported d); [|cstep; apply HQ1, near_refl]. cstep. destruct (nr_ep _ _ N1) as [e1 He1]; [by eexists|].
  eapply cwp_UnimportMem; [done|]. intros _. apply HQ1.
Qed.
Lemma cwp_UnrecordAddrs (Q : Status + unit -> HixlCSClient -> Prop) l s :
  (forall s', near s s' -> Q (inr tt) s') -> cwp (UnrecordAddrs l) Q s.
Proof.
  intros HQ. apply cwp_each; [|done]. intros a s1 Q1 _ HQ1. unfold unrecord_addr.
  destruct (is_null a); [cstep; apply HQ1, near_refl|]. cstep. apply cwp_on_store. intros o ms. apply HQ1, near_store.
Qed.

Definition no_descs s : Prop := desc_list_ (cl_remote s) = [].
(** Clearing leaves the transfers alone. *)
Definition same_transfers s s' : Prop := cl_flags s' = cl_flags s /\ cl_device s' = cl_device s.
Lemma near_transfers s s' : near s s' -> same_transfers s s'.
Proof. by intros []. Qed.
Lemma same_transfers_trans s1 s2 s3 : same_transfers s1 s2 -> same_transfers s2 s3 -> same_transfers s1 s3.
Proof. intros [] []. split; congruence. Qed.
Lemma cwp_clear_imports (Q : Status + unit -> HixlCSClient -> Prop) s :
  (forall s', stays s s' -> same_transfers s s' -> no_descs s' -> Q (inr tt) s') -> cwp clear_imports Q s.
Proof using Hnet Hhc.
  intros HQ. unfold clear_imports. do 2 cstep. cbv zeta. destruct (desc_list_ (cl_remote s)) as [|d l] eqn:Ed; [cstep; by apply HQ|].
  set (ds := d :: l) in *. cstep.
  assert (Hrest : forall s1, near s s1 -> cwp (for_each ds free_export ;; on_remote (modify (fun r => r <| desc_list_ := [] |>))) Q s1).
  { intros s1 N Hw O W0. assert (E1 : desc_list_ (cl_remote s1) = ds) by by rewrite (nr_remote _ _ N).
    apply (lwp_perm _ _ _ _ (descs_res ds ++ ep_res s1 ++ flag_res (cl_flags s1) ++ dev_res (cl_device s1) ++ O)).
    { unfold client_res. rewrite E1. solve_Permutation. }
    lstep. apply lwp_free_exports. apply lwp_on_remote. lstep. split.
    - constructor; [by destruct Hw|unfold client_res; cbn; rewrite app_nil_r; solve_Permutation|done].
    - apply HQ; [|by eapply same_transfers_trans; [by apply near_transfers|]|done].
      eapply stays_trans; [by apply near_stays|by apply stays_eq]. }
  destruct (local_endpoint_ s) as [e|] eqn:He; [|cstep; apply Hrest, near_refl].
  apply cwp_CloseImportedBufs; [by eexists|]. exact Hrest.
Qed.
Lemma cwp_remote_modify (f : RemoteMems -> RemoteMems) (Q : Status + unit -> HixlCSClient -> Prop) s :
  desc_list_ (f (cl_remote s)) = desc_list_ (cl_remote s) -> Q (inr tt) (s <| cl_remote := f (cl_remote s) |>) ->
  cwp (on_remote (modify f)) Q s.
Proof. intros E HQ. apply cwp_on_remote. intros Q' own W HQ'. lstep. by apply HQ'. Qed.
Lemma cwp_ClearRemoteMemInfo (Q : Status + unit -> HixlCSClient -> Prop) s :
  (forall s', stays s s' -> same_transfers s s' -> no_descs s' -> Q (inr tt) s') -> cwp ClearRemoteMemInfo Q s.
Proof using Hnet Hhc.
  intros HQ. unfold ClearRemoteMemInfo. cstep. apply cwp_clear_imports. intros s1 S1 T1 E1. do 2 cstep. cstep.
  apply cwp_UnrecordAddrs. intros s2 N2. apply cwp_remote_modify; [done|]. apply HQ.
  - eapply stays_trans; [exact S1|]. eapply stays_trans; [by apply near_stays|by apply stays_eq].
  - eapply same_transfers_trans; [exact T1|]. by apply near_transfers in N2 as [].
  - unfold no_descs. cbn. rewrite (nr_remote _ _ N2). exact E1.
Qed.

Lemma cwp_ImportOneDesc (Q : Status + (ImportCtx * HixlMemDesc * Status) -> HixlCSClient -> Prop) ctx d s :
  is_Some (local_endpoint_ s) ->
  (forall s' ctx' d' st, near s s' -> export_res d' = export_res d -> Q (inr (ctx', d', st)) s') -> cwp (ImportOneDesc ctx d) Q s.
Proof using Hnet Hhc.
  intros [e He] HQ. unfold ImportOneDesc. do 2 cstep. eapply cwp_ImportMem; [done|]. intros [st|buf] s1 N1; [cstep; by apply HQ|].
  cbv zeta. do 2 cstep. apply cwp_on_store. intros o ms.
  assert (N2 : near s (s1 <| mem_store_ := ms |>)) by (eapply near_trans; [exact N1|apply near_store]).
  destruct o as [st|[]]; [cstep; by apply HQ|]. destruct (AppendTagStorage _ _) as [st ctx']. cstep. by apply HQ.
Qed.
Lemma cwp_ImportAllDescs (Q : Status + (ImportCtx * list HixlMemDesc * Status) -> HixlCSClient -> Prop) ctx l s :
  is_Some (local_endpoint_ s) ->
  (forall s' ctx' l' st, near s s' -> descs_res l' = descs_res l -> Q (inr (ctx', l', st)) s') -> cwp (ImportAllDescs ctx l) Q s.
Proof using Hnet Hhc.
  revert Q ctx s. induction l as [|d l IH]; intros Q ctx s Hep HQ; cbn [ImportAllDescs]; [cstep; apply HQ; [apply near_refl|done]|].
  cstep. apply cwp_ImportOneDesc; [done|]. intros s1 ctx1 d1 st N1 Ed. destruct (negb _).
  - cstep. apply HQ; [done|]. by rewrite !descs_res_cons, Ed.
  - cstep. apply IH; [by apply (nr_ep _ _ N1)|]. intros s2 ctx2 l2 st2 N2 El. cstep.
    apply HQ; [by eapply near_trans|]. by rewrite !descs_res_cons, Ed, El.
Qed.

Lemma lwp_FreeExportDesc l (Q : Status + unit -> HixlCSClient -> list HcRes -> list Conn -> Prop) s O W :
  Forall desc_ok l -> Q (inr tt) s O W -> lwp (FreeExportDesc l) Q s (descs_res l ++ O) W.
Proof.
  intros Hl HQ. unfold FreeExportDesc. induction Hl as [|d l Hd _ IH]; cbn [for_each]; [by lstep|].
  rewrite descs_res_cons, <- app_assoc. lstep. unfold free_export_desc, export_res.
  destruct (is_null (hmd_export_desc d)) eqn:E; cbn [negb andb]; [rewrite host_of_null by done; by lstep|].
  rewrite host_of_some by done. unfold is_null in E. apply Z.eqb_neq in E. rewrite (proj2 (Z.ltb_lt _ _) (Hd E)). by apply lwp_HostFree.
Qed.

Lemma lwp_ImportRemoteMem (Q : Status + RemoteMemOut -> HixlCSClient -> list HcRes -> list Conn -> Prop) l s O W0 own W :
  Forall desc_ok l -> at_rest (descs_res l ++ O) W0 s own W ->
  (forall o s' own' W', at_rest O W0 s' own' W' -> stays s s' -> Q o s' own' W') -> lwp (ImportRemoteMem l) Q s own W.
Proof using Hnet Hhc.
  intros Hl R HQ. unfold ImportRemoteMem. apply lwp_on_fail. cbv zeta.
  set (K := fun (o : Status + RemoteMemOut) s1 own1 W1 => match o with
    | inr a => Q (inr a) s1 own1 W1 | inl e => lwp (FreeExportDesc l) (fun _ s2 own2 W2 => Q (inl e) s2 own2 W2) s1 own1 W1 end).
  assert (Hfree : forall (Q1 : Status + unit -> HixlCSClient -> list HcRes -> list Conn -> Prop) s1 own1 W1,
    at_rest (descs_res l ++ O) W0 s1 own1 W1 -> (forall own2, at_rest O W0 s1 own2 W1 -> Q1 (inr tt) s1 own2 W1) ->
    lwp (FreeExportDesc l) Q1 s1 own1 W1).
  { intros Q1 s1 own1 W1 [R1 R2 R3] HQ1. apply (lwp_perm _ _ _ _ (descs_res l ++ client_res s1 ++ O)).
    { rewrite R2. solve_Permutation. }
    apply lwp_FreeExportDesc; [done|]. apply HQ1. by constructor. }
  assert (HE : forall e s1 own1 W1, at_rest (descs_res l ++ O) W0 s1 own1 W1 -> stays s s1 -> K (inl e) s1 own1 W1).
  { intros e s1 own1 W1 R1 S1. unfold K. apply Hfree; [done|]. intros own2 R2. by apply HQ. }
  lstep. eapply lwp_mono; [eapply (lwp_at_rest _ (fun o s1 => o = inr tt /\ stays s s1 /\ no_descs s1)); [exact R|]; by apply cwp_ClearRemoteMemInfo; auto|].
  clear own W R. intros o s1 own W [R (-> & S1 & E1)]. destruct (_ =? 0).
  { lstep. apply Hfree; [exact R|]. intros own2 R2. lstep. by apply HQ. }
  lstep. lstep; [|by apply HE]. lstep. destruct (local_endpoint_ s1) as [e|] eqn:He.
  2: { unfold check_endpoint. do 2 lstep. rewrite He. lstep. by apply HE. }
  eapply lwp_check_endpoint; [done|]. lstep. eapply lwp_the_endpoint; [done|]. lstep. lstep; [|by apply HE].
  lstep. eapply lwp_mono.
  { eapply (lwp_at_rest _ (fun o s2 => near s1 s2 /\ exists ctx l' st, o = inr (ctx, l', st) /\ descs_res l' = descs_res l)); [exact R|].
    apply cwp_ImportAllDescs; [by eexists|]. intros s2 ctx l' st N El. split; [done|]. by exists ctx, l', st. }
  clear own W R H H0. intros o s2 own W [R [N (ctx & l' & st & -> & El)]].
  assert (S2 : stays s s2) by (eapply stays_trans; [exact S1|by apply near_stays]). destruct (negb (st =? SUCCESS)).
  - lstep. eapply lwp_mono.
    { eapply (lwp_at_rest _ (fun o s3 => o = inr tt /\ near s2 s3)); [exact R|]. apply cwp_CloseImportedBufs; [|done].
      apply (nr_ep _ _ N). by eexists. }
    clear own W R. intros o s3 own W [R [-> N3]]. lstep. eapply lwp_mono.
    { eapply (lwp_at_rest _ (fun o s4 => o = inr tt /\ near s3 s4)); [exact R|]. by apply cwp_UnrecordAddrs. }
    clear own W R. intros o s4 own W [R [-> N4]]. lstep. apply HE; [done|]. eapply stays_trans; [exact S2|].
    eapply stays_trans; by apply near_stays.
  - assert (E2 : no_descs s2) by (unfold no_descs; by rewrite (nr_remote _ _ N)).
    lstep. apply lwp_on_remote. lstep. destruct R as [R1 R2 R3].
    set (s3 := s2 <| cl_remote := _ |>). assert (R : at_rest O W0 s3 own W).
    { constructor; [by destruct R1| |exact R3]. rewrite R2. unfold client_res. rewrite E2, <- El. change (descs_res []) with (@nil HcRes).
      change (desc_list_ (cl_remote s3)) with l'. change (ep_res s3) with (ep_res s2). change (cl_flags s3) with (cl_flags s2).
      change (cl_device s3) with (cl_device s2). solve_Permutation. }
    eapply lwp_mono; [eapply (lwp_at_rest _ (fun o s4 => (exists a, o = inr a) /\ stays s3 s4)); [exact R|]|].
    + unfold FillOutputParams. apply cwp_on_remote. intros Q' own' W' HQ'. cbv zeta. do 2 lstep. lstep. apply HQ'; [done|].
      split; [by eexists|]. by apply stays_eq.
    + intros o s4 own4 W4 [R4 [[a ->] S4]]. apply HQ; [done|]. eapply stays_trans; [exact S2|]. eapply stays_trans; [|exact S4]. by apply stays_eq.
Qed.

(** ** Asking the server *)
Lemma stays_conn c s : stays s (s <| connection_ := Some c |>).
Proof. constructor; [done|by eexists]. Qed.

Lemma cwp_SendGetRemoteMem (Q : Status + unit -> HixlCSClient -> Prop) h ms s :
  is_Some (connection_ s) -> (forall o s', stays s s' -> is_Some (connection_ s') -> Q o s') ->
  cwp (on_connection (SendGetRemoteMemRequest h ms)) Q s.
Proof using Hnet.
  intros [c Hc] HQ. eapply cwp_conn; [done|]. intros Q' own W HQ'.
  assert (HE : forall o c', Q' o c' own (c' :: W)) by (intros; apply HQ', HQ; [apply stays_conn|by eexists]).
  unfold SendGetRemoteMemRequest. cbv zeta. do 2 (lstep; apply lwp_Send; intros [e|[]] ?; [apply HE|]). by apply lwp_Send.
Qed.

Lemma cwp_GetRemoteMemImpl (Q : Status + RemoteMemOut -> HixlCSClient -> Prop) ms s :
  (forall o s', stays s s' -> Q o s') -> cwp (GetRemoteMemImpl ms) Q s.
Proof using Hnet Hhc Hcli Hjson.
  intros HQ. unfold GetRemoteMemImpl. cstep. unfold check_endpoint. do 2 cstep.
  destruct (local_endpoint_ s) as [e|] eqn:He; [|cstep; apply HQ, stays_refl]. do 4 cstep. cstep; [|apply HQ, stays_refl].
  cstep. apply cwp_SendGetRemoteMem; [by destruct (connection_ s)|]. intros [st|[]] s1 S1 [c1 Hc1]; [by apply HQ|].
  intros Hw O W0. lstep. unfold on_connection. eapply lwp_zoom; [done|]. unfold conns. rewrite Hc1. cbn [from_option app].
  apply lwp_RecvGetRemoteMemResponse.
  - intros st c2. split; [|apply HQ; eapply stays_trans; [exact S1|apply stays_conn]]. constructor; [by destruct Hw|done|done].
  - intros l c2 own2 Hl E2. lstep. eapply (lwp_ImportRemoteMem _ l _ O W0); [done|constructor; [by destruct Hw|by rewrite E2; solve_Permutation|done]|].
    intros [st|out] s2 own3 W3 R3 S3.
    + split; [done|]. apply HQ. eapply stays_trans; [exact S1|]. eapply stays_trans; [apply stays_conn|exact S3].
    + eapply lwp_at_rest; [exact R3|]. do 3 cstep.
      assert (S4 : stays s s2) by (eapply stays_trans; [exact S1|eapply stays_trans; [apply stays_conn|exact S3]]).
      destruct (0 <=? _); [|cstep; cstep; by apply HQ]. apply cwp_on_remote. intros Q' own W HQ'.
      unfold EnsureDeviceRemoteFlagInited. do 2 lstep.
      assert (Hend : forall r, desc_list_ r = desc_list_ (cl_remote s2) -> Q' (inr tt) r own W).
      { intros r Er. apply HQ'; [done|]. cstep. apply HQ. eapply stays_trans; [exact S4|]. by apply stays_eq. }
      repeat (lstep; try by apply Hend).
Qed.

Lemma cwp_GetRemoteMem (Q : Status + RemoteMemOut -> HixlCSClient -> Prop) ms s :
  (forall o s', stays s s' -> Q o s') -> cwp (GetRemoteMem ms) Q s.
Proof using Hnet Hhc Hcli Hjson.
  intros HQ. unfold GetRemoteMem. cstep. cstep. unfold check_endpoint. do 2 cstep.
  destruct (local_endpoint_ s); [|cstep; apply HQ, stays_refl]. cstep. by apply cwp_GetRemoteMemImpl.
Qed.
End Memory.
