(* ===== verification/CsClientSafety.v ===== *)
(** Creating, connecting, using and destroying a client: from rest to rest. *)

From S2P Require Import Prelude StdMap Effects External Runtime DeviceSupport Wire Hcomm MemStore TransferPool ClientRt Net CtrlConn CtrlConnSpec CtrlConnSafety ConnMsg HostRegister Endpoint GlobalConfig RemoteMem HcResources EndpointSafety ServerCalls ClientState ClientLedger HostTransfer DeviceTransfer ClientMemory CsClient HostTransferSafety DeviceTransferSafety RemoteMemSafety ClientInv ClientMemorySafety.

Section Client.
Context {codes : AclCodes} {again : HcclAgain} {clib : CLibrary} {nl : Nlohmann} {env : Environment NetOp}.
Context {Hnet : NetLaws env} {Hhc : HcLaws env} {Hcli : CliLaws env} {Hjson : JsonLaws env}.
Context `{G : GeMath} `{Sec : Securec} `{Abi : HcommAbi} {abi : ClientAbi} {hash : PointerHash} {Hash : PointerHashLaws hash}.
Implicit Types (s : HixlCSClient) (own O : list HcRes) (W : list Conn).

(** ** The connection comes and goes *)
Definition with_connection (c : option Conn) s : HixlCSClient := s <| connection_ := c |>.

Lemma lwp_conns {S A} (m : M NetOp S A) Q (s : S) own W W' :
  (forall h, CtrlConnSafety.owned W h -> CtrlConnSafety.owned W' h) -> lwp m Q s own W' -> lwp m Q s own W.
Proof. intros E H h [L1 L2 L3]. apply H. constructor; [done|by apply E|done]. Qed.

Lemma owned_closed c W h : fd_ c = -1 -> session_id c = None -> CtrlConnSafety.owned (c :: W) h -> CtrlConnSafety.owned W h.
Proof.
  intros Hf Hs [Hap [H1 H2 H3 H4 H5 H6]]%owned_cons.
  rewrite fds_none, (left_id_L ∅ (∪)) in H2 by by rewrite Hf. rewrite ssls_none, (left_id_L ∅ (∪)) in H4 by done. by split_and!.
Qed.

Lemma lwp_drop_connection (Q : Status + unit -> HixlCSClient -> list HcRes -> list Conn -> Prop) c s own W :
  connection_ s = Some c ->
  Q (inr tt) (with_connection None s) own W ->
  lwp (on_connection CtrlMsgPlugin_delete ;; modify (fun s => s <| connection_ := None |>)) Q s own (c :: W).
Proof using Hnet.
  intros Hc HQ. lstep. unfold on_connection. eapply lwp_zoom; [done|].
  eapply (lwp_conn _ _ (fun o c' => o = inr tt /\ fd_ c' = -1 /\ session_id c' = None)); [apply em_delete| |].
  - intros F S h H. eapply wp_mono; [by apply wp_delete|]. intros o c' h' (-> & H1 & H2 & H3). by split_and!.
  - intros o c' (-> & Hf & Hs). eapply lwp_conns; [intros h; by apply owned_closed|]. lstep. exact HQ.
Qed.
Lemma cwp_reset_connection (Q : Status + unit -> HixlCSClient -> Prop) s :
  Q (inr tt) (with_connection None s) -> cwp reset_connection Q s.
Proof using Hnet.
  intros HQ. unfold reset_connection. do 2 cstep. destruct (connection_ s) as [c|] eqn:Hc.
  - intros Hw O W0. unfold conns. rewrite Hc. cbn [from_option app]. apply lwp_drop_connection; [done|]. split; [|done].
    constructor; [by destruct Hw|done|done].
  - cstep. replace s with (with_connection None s); [done|]. destruct s. cbn in Hc. by subst.
Qed.
Lemma cwp_CloseSocket (Q : Status + unit -> HixlCSClient -> Prop) s :
  Q (inr tt) (with_connection None s) -> cwp CloseSocket Q s.
Proof using Hnet.
  intros HQ. unfold CloseSocket. do 2 cstep. destruct (connection_ s) as [c|] eqn:Hc.
  - cstep. cstep. eapply (cwp_on_connection _ _ (fun _ _ => True)); [done|apply em_Close| |].
    + intros F S h H. apply (wp_CloseLocked F S); [done|]. by intros.
    + intros o c' _. by apply cwp_reset_connection.
  - cstep. replace s with (with_connection None s); [done|]. destruct s. cbn in Hc. by subst.
Qed.
Lemma cwp_new_connection (Q : Status + unit -> HixlCSClient -> Prop) s :
  (forall e oc, Q (inl e) (with_connection oc s)) -> (forall c, Q (inr tt) (with_connection (Some c) s)) -> cwp new_connection Q s.
Proof using Hnet.
  intros HE HQ. unfold new_connection. cstep. ccalm. intros made. cstep. apply cwp_reset_connection. cstep. cstep; [|apply HE].
  intros Hw O W0. lstep. lstep. apply (lwp_conns _ _ _ _ _ (Conn_new :: W0)).
  { intros h Ho. apply owned_new_conn in Ho. by rewrite (comm (++)) in Ho. }
  assert (R : at_rest O W0 (with_connection (Some Conn_new) s) (client_res (with_connection None s) ++ O) (Conn_new :: W0)).
  { constructor; [by destruct Hw|done|done]. }
  change ((with_connection None s) <| connection_ := Some Conn_new |>) with (with_connection (Some Conn_new) s).
  eapply lwp_at_rest; [exact R|]. eapply (cwp_on_connection _ _ (fun _ _ => True)); [done|apply em_Initialize| |].
  - intros F S h H'. eapply wp_mono; [by apply wp_Initialize|]. by intros o c' h' [? _].
  - intros [e|[]] c' _; [apply HE|apply HQ].
Qed.

(** ** Create *)
Definition with_settings (st : Settings) s : HixlCSClient := s <| cl_settings := st |>.

Lemma cwp_ParseEnv name (Q : Status + option Z -> HixlCSClient -> Prop) s : (forall o, Q o s) -> cwp (ParseEnvUint32 name) Q s.
Proof.
  intros HQ. unfold ParseEnvUint32. cstep. ccalm. intros [[|a v]|]; [by cstep| |by cstep]. destruct (env_uint32 _); by cstep.
Qed.

Lemma cwp_quiet_set (f : Settings -> Settings) (Q : Status + unit -> HixlCSClient -> Prop) s :
  transfer_config_ (global_config_ (f (cl_settings s))) = transfer_config_ (global_config_ (cl_settings s)) ->
  Q (inr tt) (with_settings (f (cl_settings s)) s) -> cwp (on_settings (modify f)) Q s.
Proof. intros E HQ. apply cwp_on_settings; [|done]. unfold batch_ok. by rewrite E. Qed.

Lemma cwp_InitRdmaRetryConfig (Q : Status + unit -> HixlCSClient -> Prop) s :
  is_Some (local_endpoint_ s) -> (forall o st, Q o (with_settings st s)) -> cwp InitRdmaRetryConfig Q s.
Proof.
  intros [e He] HQ. 
  unfold InitRdmaRetryConfig. cstep. apply cwp_quiet_set; [done|]. cstep. apply cwp_ParseEnv. intros [x|n]; [apply HQ|]. cstep.
  assert (Hrest : forall st, cwp (let* env_retry_interval := ParseEnvUint32 "HCCL_RDMA_TIMEOUT" in
      match env_retry_interval with
      | None => ret tt
      | Some n =>
          let* e := the_endpoint in
          require ((ed_locType (endpoint_ e) =? ENDPOINT_LOC_TYPE_HOST) && (ed_protocol (endpoint_ e) =? COMM_PROTOCOL_ROCE) ||
                   ((kMinRdmaRetryInterval <=? n) && (n <=? kMaxRdmaRetryInterval))) PARAM_INVALID ;;
          on_settings (modify (fun st => st <| retry_interval_ := n |>))
      end) Q (with_settings st s)).
  { intros st. cstep. apply cwp_ParseEnv. intros [x|[m|]]; [apply HQ| |cstep; apply HQ]. cstep.
    eapply cwp_the_endpoint; [done|]. cstep. cstep; [|apply HQ]. apply cwp_quiet_set; [done|]. apply HQ. }
  destruct n as [n|]; [|cstep; apply Hrest]. cstep. cstep; [|apply HQ]. apply cwp_quiet_set; [done|]. apply Hrest.
Qed.

Lemma lwp_gives {S A} (m : M NetOp S A) (P : A -> Prop) (Q : Status + A -> S -> list HcRes -> list Conn -> Prop) (s : S) own W :
  emits calm m -> gives m P -> (forall e, Q (inl e) s own W) -> (forall a, P a -> Q (inr a) s own W) -> lwp m Q s own W.
Proof.
  intros He Hg HE HQ. eapply (lwp_quiet _ (fun o (s' : S) => s' = s /\ match o with inr a => P a | inl _ => True end)); [done| |].
  - intros h. eapply wp_mono; [apply Hg|]. by intros [e|a] s' h' [-> H].
  - intros [e|a] s' [-> H]; [apply HE|by apply HQ].
Qed.
Lemma cwp_gives {A} (m : M NetOp HixlCSClient A) (P : A -> Prop) (Q : Status + A -> HixlCSClient -> Prop) s :
  emits calm m -> gives m P -> (forall e, Q (inl e) s) -> (forall a, P a -> Q (inr a) s) -> cwp m Q s.
Proof.
  intros He Hg HE HQ Hw O W0. eapply lwp_gives; [done..| |]; intros a; [|intros Ha]; (split; [by apply at_rest_self|by auto]).
Qed.
Tactic Notation "ec" reference(f) := unfold f; solve_emits; try (by repeat split).
Lemma ec_number {S} j : emits calm (JsonToNumber j : M NetOp S Z). Proof. ec JsonToNumber. Qed.
#[local] Hint Resolve ec_number : emits.
Lemma ec_field {S} k a b j : emits calm (number_field k a b j : M NetOp S (option Z)). Proof. ec number_field. Qed.
#[local] Hint Resolve ec_field : emits.
Lemma ec_string {S} j k c : emits calm (ParseStringField j k c : M NetOp S _). Proof. ec ParseStringField. Qed.
Lemma ec_bool {S} j k c : emits calm (ParseBoolField j k c : M NetOp S _). Proof. ec ParseBoolField. Qed.
Lemma ec_transfer {S} j c t : emits calm (ParseTransferConfig j c t : M NetOp S _). Proof. ec ParseTransferConfig. Qed.
Lemma ec_port {S} j c : emits calm (ParseListenPort j c : M NetOp S _). Proof. ec ParseListenPort. Qed.
Lemma ec_qos {S} j c : emits calm (ParseQos j c : M NetOp S _). Proof. ec ParseQos. Qed.
Lemma ec_channels {S} j c : emits calm (ParseMaxActiveChannels j c : M NetOp S _). Proof. ec ParseMaxActiveChannels. Qed.
#[local] Hint Resolve ec_port ec_qos ec_channels : emits.
Lemma ec_comm {S} j c t : emits calm (ParseCommResourceConfig j c t : M NetOp S _). Proof. ec ParseCommResourceConfig. Qed.
Lemma ec_fabric {S} j c : emits calm (ParseUbMemoryConfig j c : M NetOp S _).
Proof. ec ParseUbMemoryConfig. ec ParseUbMemBoolField. Qed.
Lemma ec_validate {S} c : emits calm (ValidateTlsConfig c : M NetOp S _). Proof. ec ValidateTlsConfig. Qed.
#[local] Hint Resolve ec_string ec_bool ec_transfer ec_comm ec_fabric ec_validate : emits.
Lemma ec_tls {S} j : emits calm (ParseTlsConfig j : M NetOp S _). Proof. ec ParseTlsConfig. Qed.
#[local] Hint Resolve ec_tls : emits.
Lemma ec_Parse {S} t r k : emits calm (GlobalConfig_Parse t r k : M NetOp S _). Proof. ec GlobalConfig_Parse. Qed.

Lemma cwp_ParseGlobalConfig (Q : Status + ClientTarget -> HixlCSClient -> Prop) desc config s :
  (forall o st, Q o (with_settings st s)) -> cwp (ParseGlobalConfig desc config) Q s.
Proof.
  intros HQ. assert (HE : forall o, Q o s) by (intros o; specialize (HQ o (cl_settings s)); by destruct s).
  unfold ParseGlobalConfig. do 4 (cstep; apply cwp_not_null; [intros ? _|by apply HE]).
  cstep. apply cwp_on_settings; [intros _; unfold batch_ok; cbn; lia|]. cstep.
  apply (cwp_gives _ (fun c => config_ok c)); [apply ec_Parse| |intros x; apply HQ|].
  { intros s0 h. eapply wp_mono; [by apply gives_Parse, config_ok_new|]. by intros [x|c] s' h' [-> H]; [|destruct H]. }
  intros c Hc. cstep. apply cwp_on_settings; [intros _; apply (ok_transfer _ Hc)|].
  assert (Hrest : forall st', cwp (
      on_settings (modify (fun st => st <| transfer_supported_ := st' |>)) ;;
      require (negb (IsUbMemProtocol (ed_protocol a0) &&
                 (kMaxFixedQueueTransferCountPerBatch <? max_transfer_count_per_batch (transfer_config_ c)))) PARAM_INVALID ;;
      ret {| ct_local := a0; ct_remote := a1; ct_server_ip := a |}) Q
      (with_settings ((cl_settings s) <| global_config_ := c |>) s)).
  { intros b. cstep. apply cwp_quiet_set; [done|]. cstep. cstep; [cstep|]; apply HQ. }
  cstep. destruct (max_transfer_count_per_batch_configured _); [cstep; apply Hrest|]. ccalm. intros b. apply Hrest.
Qed.

Lemma cwp_device_fields (f : DeviceSide -> DeviceSide) (Q : Status + unit -> HixlCSClient -> Prop) s :
  dev_same (cl_device s) (f (cl_device s)) -> Q (inr tt) (with_device (f (cl_device s)) s) -> cwp (on_device (modify f)) Q s.
Proof. apply cwp_set_notify. Qed.

Lemma cwp_InitDeviceResource (Q : Status + unit -> HixlCSClient -> Prop) ep s :
  (forall o d, Q o (with_device d s)) -> cwp (InitDeviceResource ep) Q s.
Proof.
  intros HQ. assert (HE : forall o, Q o s) by (intros o; rewrite <- (with_device_self s); apply HQ).
  unfold InitDeviceResource. destruct (negb _); [by apply cwp_device_fields|]. cstep. ccalm. intros [rc dev]. cstep.
  unfold chk_acl. destruct (rc =? 0); [|by cstep]. do 2 cstep. apply cwp_device_fields; [done|]. cstep.
  cstep. ccalm. intros pool. cstep. cstep; [|apply HQ]. do 2 cstep. cstep. ccalm. intros st. cstep; apply HQ.
Qed.

Lemma cwp_InitNotifyResources (Q : Status + unit -> HixlCSClient -> Prop) ep s :
  is_Some (local_endpoint_ s) -> (forall o s', stays s s' -> Q o s') -> cwp (InitNotifyResources ep) Q s.
Proof using Hnet Hhc.
  intros Hep HQ. assert (HE : forall o, Q o s) by (intros o; apply HQ, stays_refl). unfold InitNotifyResources.
  cstep; [by cstep|]. do 2 cstep. cstep. ccalm. intros pool. cstep. cstep; [|apply HE].
  assert (Hrest : cwp (let* r := call (Cli (PoolGetAllSlots (device_id_ (cl_device s)))) in
    let '(st, all_slots) := r in
    require (st =? SUCCESS) st ;;
    if negb (ed_protocol ep =? COMM_PROTOCOL_ROCE) && negb (ed_protocol ep =? COMM_PROTOCOL_HCCS)
    then RegisterNotifyMemForAllSlots all_slots else ret tt) Q s).
  { cstep. ccalm. intros [st l]. cstep. cstep; [|apply HE]. destruct (_ && _); [|by cstep]. by apply cwp_RegisterNotify. }
  cstep. destruct (negb (_ =? COMM_PROTOCOL_HCCS)); [|by cstep]. cstep. ccalm. intros st. cstep; [apply Hrest|apply HE].
Qed.

Lemma wp_new_endpoint O d b px h : acct O h ->
  wp Endpoint_Initialize (fun _ t' h' => ep_wf (es_ep t') /\ acct (EndpointSafety.owned (es_ep t') ++ O) h')
    {| es_ep := Endpoint_new d b; es_px := px |} h.
Proof using Hhc Hcli.
  intros Ha. unfold Endpoint_Initialize. apply wp_bind, wp_bind, wp_get, wp_ret.
  apply wp_bind, wp_call. intros [rc ep] Hr. apply wp_bind, wp_modify.
  assert (Hw : ep_wf (set_handle ep (Endpoint_new d b))) by (constructor; [constructor|constructor|by intros ?? ?%elem_of_nil|done]).
  cbn [es_ep set_ep]. apply wp_chk_hccl; intros Hrc; (split; [done|]); unfold EndpointSafety.owned; cbn.
  - subst rc. destruct (ep_fresh _ _ _ Hr) as [Hn Hf]. rewrite self_of_handle by done.
    apply acct_obtain; [done|done|cbn [obtains]; by rewrite Z.eqb_refl|done|]. intros _ Ho. by apply Hf, (a_own _ _ Ha).
  - rewrite (ep_null _ _ _ _ Hr Hrc). apply acct_neutral; [done|done| |done]. cbn [obtains]. by rewrite (proj2 (Z.eqb_neq _ _) Hrc).
Qed.
Lemma cwp_Endpoint_Initialize (Q : Status + unit -> HixlCSClient -> Prop) d b s :
  local_endpoint_ s = Some (Endpoint_new d b) -> (forall o e px, Q o (with_endpoint e px s)) -> cwp (on_endpoint Endpoint_Initialize) Q s.
Proof using Hhc Hcli.
  intros He HQ. eapply (cwp_endpoint _ _ (fun _ _ => True)); [done|apply es_Initialize| |intros; apply HQ].
  intros O h _ Ha. eapply wp_mono; [by apply (wp_new_endpoint O)|]. by intros o t' h' [H1 H2].
Qed.

Lemma cwp_InitBaseClient (Q : Status + unit -> HixlCSClient -> Prop) desc target d b s :
  local_endpoint_ s = Some (Endpoint_new d b) -> (forall e s', Q (inl e) s') ->
  (forall s', is_Some (local_endpoint_ s') -> Q (inr tt) s') -> cwp (InitBaseClient desc target) Q s.
Proof using Hnet Hhc Hcli.
  intros He HE HQ. unfold InitBaseClient. cstep. apply cwp_new_connection; [intros; apply HE|]. intros c.
  cstep. apply cwp_quiet_set; [done|]. cstep. cstep. eapply cwp_Endpoint_Initialize; [done|]. intros [x|[]] e px; [apply HE|].
  cstep. eapply cwp_the_endpoint; [done|]. destruct (_ =? _); [|cstep; apply HQ; by eexists].
  apply cwp_InitFlagQueue; [by eexists|]. intros [x|[]] s' S'; [apply HE|]. apply HQ, S'. by eexists.
Qed.

Lemma cwp_init_ubmem (Q : Status + unit -> HixlCSClient -> Prop) d s : (forall o st, Q o (with_settings st s)) -> cwp (init_ubmem d) Q s.
Proof.
  intros HQ'. assert (HQ : forall o, Q o s) by (intros o; specialize (HQ' o (cl_settings s)); by destruct s).
  unfold init_ubmem. cstep; [by cstep|]. cstep. ccalm. intros [n|]; cstep; cstep; [|apply HQ].
  cstep. cstep; [|apply HQ]. cbv zeta. cstep. ccalm. intros made. cstep. apply cwp_quiet_set; [done|]. cstep; apply HQ'.
Qed.

Lemma cwp_pool_rollback (Q : Status + unit -> HixlCSClient -> Prop) s :
  (forall d, dev_same (cl_device s) d -> Q (inr tt) (with_device d s)) -> cwp pool_rollback Q s.
Proof.
  intros HQ. unfold pool_rollback. do 2 cstep. cbv zeta. cstep; [cstep; rewrite <- (with_device_self s); by apply HQ|].
  cstep. ccalm. intros pool. cstep.
  assert (Hrest : cwp (on_device (modify (fun d => d <| device_id_ := -1 |>))) Q s) by (apply cwp_device_fields; [done|by apply HQ]).
  destruct pool; [ccalm; intros []|cstep]; exact Hrest.
Qed.

(** A client is created once. *)
Lemma cwp_Create (Q : Status + unit -> HixlCSClient -> Prop) desc config s :
  local_endpoint_ s = None -> (forall e s', Q (inl e) s') -> (forall s', is_Some (local_endpoint_ s') -> Q (inr tt) s') ->
  cwp (Create desc config) Q s.
Proof using Hnet Hhc Hcli.
  intros He HE HQ. unfold Create. do 2 cstep. cstep. cstep; [|apply HE]. cstep. apply cwp_device_fields; [done|]. cstep.
  apply cwp_ParseGlobalConfig. intros [x|target] st; [apply HE|]. cstep. ccalm. intros rc. cstep. cstep; [|apply HE]. cstep. cstep.
  assert (Hguard : forall x s', cwp tls_guard (fun _ s2 => Q (inl x) s2) s').
  { intros x s'. unfold tls_guard. cstep. apply cwp_CloseSocket. ccalm. intros. apply HE. }
  cstep. ccalm. intros made. cstep.
  match goal with |- cwp (modify ?f) _ ?s0 => set (s1 := s0); set (g := f) end.
  apply cwp_modify.
  - intros []. constructor; try done. unfold g. cbn. destruct made; [apply ep_wf_new|done].
  - unfold client_res, ep_res, g, s1. cbn. rewrite He. by destruct made.
  - done.
  - cstep. destruct made; cbn [require]; [|apply cwp_fail; apply Hguard]. apply cwp_ret. cstep.
    apply cwp_InitDeviceResource. intros [x|[]] d; [apply Hguard|]. cstep. cstep.
    assert (Hroll : forall x s', cwp pool_rollback (fun _ s2 => cwp tls_guard (fun _ s3 => Q (inl x) s3) s2) s').
    { intros x s'. apply cwp_pool_rollback. intros d' _. apply Hguard. }
    eapply cwp_InitBaseClient; [done|intros; apply Hroll|]. intros s2 [e2 He2]. cstep.
    apply cwp_InitRdmaRetryConfig; [by eexists|]. intros [x|[]] st2; [apply Hroll|]. cstep.
    apply cwp_InitNotifyResources; [by eexists|]. intros [x|[]] s3 S3; [apply Hroll|].
    apply cwp_init_ubmem. intros [x|[]] st4; [apply Hroll|]. apply cwp_quiet_set; [done|]. apply HQ. apply (st_ep _ _ S3). by eexists.
Qed.

(** ** Connect *)
(** An exchange of messages leaves the connection to its owner. *)
Definition talks {A} (m : M NetOp Conn A) : Prop :=
  forall (Q : Status + A -> Conn -> list HcRes -> list Conn -> Prop) c own W,
    (forall o c', Q o c' own (c' :: W)) -> lwp m Q c own (c :: W).
Lemma talks_ret {A} (a : A) : talks (ret a).
Proof. intros Q c own W HQ. lstep. apply HQ. Qed.
Lemma talks_require b e : talks (require b e).
Proof. intros Q c own W HQ. lstep; apply HQ. Qed.
Lemma talks_bind {A B} (m : M NetOp Conn A) (k : A -> M NetOp Conn B) : talks m -> (forall a, talks (k a)) -> talks (bind m k).
Proof. intros Hm Hk Q c own W HQ. lstep. apply Hm. intros [e|a] c'; [apply HQ|by apply Hk]. Qed.
Lemma talks_Send bs ms : talks (CtrlMsgPlugin_Send bs ms).
Proof using Hnet. intros Q c own W HQ. by apply lwp_Send. Qed.
Lemma talks_Recv n ms : talks (CtrlMsgPlugin_Recv n ms).
Proof using Hnet. intros Q c own W HQ. apply lwp_Recv. auto. Qed.
Lemma talks_copy body off n : talks (copy_struct body off n).
Proof.
  unfold copy_struct. destruct (memcpy_s _ _ _ _). apply talks_bind; [apply talks_require|]. intros. apply talks_ret.
Qed.
Ltac talk := repeat (cbv zeta; first
  [apply talks_Send|apply talks_Recv|apply talks_ret|apply talks_require|apply talks_copy|apply talks_bind; [|intros]]).

Lemma talks_SendHeader h t b : talks (SendHeaderTypeBody h t b).
Proof using Hnet. unfold SendHeaderTypeBody. talk. Qed.
Lemma talks_RecvMatch ms : talks (RecvMatchEndpointResponse ms).
Proof using Hnet.
  unfold RecvMatchEndpointResponse, RecvMatchEndpointHandleResponse, ConnMsg.RecvAndCheckHeader, RecvBody, ParseMsgType, ParseMatchEndpointResp. talk.
Qed.
Lemma talks_RecvCreate ms : talks (RecvCreateChannelResponse ms).
Proof using Hnet.
  unfold RecvCreateChannelResponse, RecvCreateChannelOnlyResponse, ConnMsg.RecvAndCheckHeader, RecvBody, ParseMsgType, ParseCreateChannelResp. talk.
Qed.
Lemma cwp_talks {A} (m : M NetOp Conn A) (Q : Status + A -> HixlCSClient -> Prop) s :
  talks m -> is_Some (connection_ s) -> (forall o c, Q o (with_connection (Some c) s)) -> cwp (on_connection m) Q s.
Proof. intros Hm [c Hc] HQ. eapply cwp_conn; [done|]. intros Q' own W HQ'. apply Hm. intros o c'. apply HQ', HQ. Qed.

Lemma cwp_SetPort (Q : Status + unit -> HixlCSClient -> Prop) port s :
  is_Some (local_endpoint_ s) -> (forall e px, Q (inr tt) (with_endpoint e px s)) ->
  cwp (on_endpoint (ep_modify (Endpoint_SetPort port))) Q s.
Proof.
  intros [e He] HQ. eapply (cwp_endpoint _ _ (fun o _ => o = inr tt)); [done|apply es_ep_modify| |intros o e' px _ ->; apply HQ].
  intros O h Hw Ha. apply wp_modify. cbn [es_ep set_ep]. split_and!; [done| |done]. by destruct Hw.
Qed.

Definition ready s : Prop := is_Some (local_endpoint_ s) /\ is_Some (connection_ s).
Lemma stays_ready s s' : stays s s' -> ready s -> ready s'.
Proof. intros [H1 H2] [E C]. split; auto. Qed.
Lemma cwp_Exchange (Q : Status + unit -> HixlCSClient -> Prop) ms s :
  ready s -> (forall o s', Q o s') -> cwp (ExchangeEndpointAndCreateChannel ms) Q s.
Proof using Hnet Hhc Hcli Hjson.
  intros [Hep Hc] HQ. unfold ExchangeEndpointAndCreateChannel. do 2 cstep.
  cstep. apply cwp_talks; [apply talks_SendHeader|done|]. intros [x|[]] c1; [apply HQ|].
  cstep. apply cwp_talks; [apply talks_RecvMatch|by eexists|]. intros [x|[[h port] idx]] c2; [apply HQ|].
  cstep. apply cwp_quiet_set; [done|]. cstep. apply cwp_SetPort; [done|]. intros e1 px1.
  cstep. apply cwp_GetRemoteMemImpl. intros [x|out] s3 S3; [apply HQ|].
  assert (R3 : ready s3) by (eapply stays_ready; [exact S3|]; split; by eexists). destruct R3 as [[e3 He3] Hc3].
  do 3 cstep. eapply cwp_the_endpoint; [done|]. cstep. apply cwp_talks; [apply talks_SendHeader|done|]. intros [x|[]] c4; [apply HQ|].
  cstep. eapply cwp_on_endpoint; [done|apply es_CreateChannel|intros; by eapply wp_Endpoint_CreateChannel|].
  intros [x|ch] e5 px5 _; [apply HQ|]. cstep. cstep. apply cwp_talks; [apply talks_RecvCreate|by eexists|].
  intros [x|[]] c6.
  - cstep. eapply cwp_on_endpoint; [done|apply es_DestroyChannel|intros; by eapply wp_Endpoint_DestroyChannel|]. intros. apply HQ.
  - apply cwp_quiet_set; [done|]. apply HQ.
Qed.

Lemma cwp_Connect (Q : Status + unit -> HixlCSClient -> Prop) ms s : (forall o s', Q o s') -> cwp (Connect ms) Q s.
Proof using Hnet Hhc Hcli Hjson.
  intros HQ. unfold Connect. cstep. unfold check_endpoint at 1. do 3 cstep. destruct (local_endpoint_ s) as [e|] eqn:He; [|cstep; apply HQ].
  do 4 cstep. cstep; [|apply HQ]. cstep. cstep; [|apply HQ].
  assert (Hrest : forall c, cwp (
      on_fail (on_connection (CtrlMsgPlugin_Connect (server_ip_ (cl_settings s)) (server_port_ (cl_settings s)) ms)) reset_connection ;;
      on_fail (ExchangeEndpointAndCreateChannel ms) CloseSocket ;;
      on_settings (modify (fun st => st <| is_connected_ := true |>))) Q (with_connection (Some c) s)).
  { intros c. cstep. cstep. eapply (cwp_on_connection _ _ (fun _ _ => True)); [done|apply em_Connect| |].
    - intros F S h H'. apply (wp_Connect F S); [done|]. by intros.
    - intros [x|[]] c1 _; [apply cwp_reset_connection; apply HQ|]. cstep. cstep. apply cwp_Exchange.
      + split; [by eexists|by eexists].
      + intros [x|[]] s2; [apply cwp_CloseSocket; apply HQ|]. apply cwp_quiet_set; [done|]. apply HQ. }
  cstep. destruct (connection_ s) as [c|] eqn:Hc.
  - cstep. assert (Es : with_connection (Some c) s = s) by (destruct s; cbn in Hc; by subst).
    specialize (Hrest c). by rewrite Es in Hrest.
  - apply cwp_new_connection; [intros; apply HQ|]. intros c. apply Hrest.
Qed.

(** ** Transfers *)
Definition with_flags (q : FlagQueue) s : HixlCSClient := s <| cl_flags := q |>.
Definition with_remote (r : RemoteMems) s : HixlCSClient := s <| cl_remote := r |>.
Definition beside_flags s : list HcRes := ep_res s ++ dev_res (cl_device s) ++ descs_res (desc_list_ (cl_remote s)).
Lemma client_res_flags s : client_res s ≡ₚ flag_res (cl_flags s) ++ beside_flags s.
Proof. unfold client_res, beside_flags. solve_Permutation. Qed.
Lemma at_rest_flags O W0 s s' own W :
  client_wf s -> flags_wf [] (cl_flags s') -> s' = with_flags (cl_flags s') (with_remote (cl_remote s') s) ->
  desc_list_ (cl_remote s') = desc_list_ (cl_remote s) ->
  own ≡ₚ flag_res (cl_flags s') ++ beside_flags s ++ O -> W ≡ₚ conns s ++ W0 -> at_rest O W0 s' own W.
Proof.
  intros [H1 H2 H3 H4] Hf Es Ed Eo Ew. rewrite Es. constructor.
  - by constructor.
  - rewrite client_res_flags, <- app_assoc, Eo. unfold beside_flags. cbn. by rewrite Ed.
  - exact Ew.
Qed.

Lemma cwp_wf {A} (m : M NetOp HixlCSClient A) (Q : Status + A -> HixlCSClient -> Prop) s : (client_wf s -> cwp m Q s) -> cwp m Q s.
Proof. intros H Hw. by apply H. Qed.

Lemma lwp_tag_mem tag (Q : Status + CommMem -> RemoteMems -> list HcRes -> list Conn -> Prop) r own W :
  (forall m r', desc_list_ r' = desc_list_ r -> Q (inr m) r' own W) -> lwp (tag_mem tag) Q r own W.
Proof. intros HQ. unfold tag_mem. do 2 lstep. lstep; [lstep; by apply HQ|]. do 3 lstep. by apply HQ. Qed.

Lemma cwp_HostAsync (Q : Status + Z -> HixlCSClient -> Prop) is_get l s :
  (forall e s', Q (inl e) s') -> (forall h q r, h <> nullptr -> std_find h (device_handles (cl_device s)) = None ->
     is_Some (std_find h (complete_handles q)) -> Q (inr h) (with_flags q (with_remote r s))) ->
  cwp (BatchTransferHostAsync is_get l) Q s.
Proof using Hnet Hhc Hcli.
  intros HE HQ. apply cwp_wf. intros Hw0. unfold BatchTransferHostAsync. cbv zeta. cstep. cstep; [|apply HE]. do 2 cstep.
  pose proof (batch_limit_pos kMaxKernelBatchSize (cl_settings s) ltac:(unfold kMaxKernelBatchSize; lia) (cw_batch _ Hw0)) as Hb.
  rewrite (proj2 (Z.eqb_neq _ _)) by lia. cstep.
  eapply cwp_mono; [apply (cwp_for_each _ _ (fun s' => s' = s) (fun _ _ => True)); [done|]|].
  { intros k s' _ ->. apply cwp_still; [intros Q' own W HQ'; by apply lwp_BatchTransferTask|]. by intros [e|[]]. }
  intros [e|[]] s' Hs; [apply HE|]. subst s'. intros _ O W0.
  apply (lwp_perm _ _ _ _ (flag_res (cl_flags s) ++ beside_flags s ++ O)); [rewrite client_res_flags; by rewrite <- app_assoc|].
  assert (HE2 : forall e s' own, flags_wf [] (cl_flags s') -> s' = with_flags (cl_flags s') (with_remote (cl_remote s') s) ->
    desc_list_ (cl_remote s') = desc_list_ (cl_remote s) -> own ≡ₚ flag_res (cl_flags s') ++ beside_flags s ++ O ->
    at_rest O W0 s' own (conns s ++ W0) /\ Q (inl e) s').
  { intros e s' own H1 H2 H3 H4. split; [by eapply at_rest_flags|apply HE]. }
  lstep. apply lwp_on_flags. apply lwp_AcquireFlagIndex; [apply Hw0| |].
  { lstep. cbn [negb Z.eqb Pos.eqb require]. lstep. apply HE2; [apply Hw0|by destruct s|done|done]. }
  intros i q1 Hi Hq1 E1. lstep. rewrite (proj2 (Z.eqb_neq _ _)) by lia. cbn [negb require]. lstep. lstep. do 2 lstep. cbv zeta.
  assert (Hrel : forall e r, desc_list_ r = desc_list_ (cl_remote s) ->
    lwp (on_flags (ReleaseFlagIndex i)) (fun _ s2 own2 W2 => at_rest O W0 s2 own2 W2 /\ Q (inl e) s2)
      (with_flags q1 (with_remote r s)) (flag_res (cl_flags s) ++ beside_flags s ++ O) (conns s ++ W0)).
  { intros e r Er. apply lwp_on_flags. eapply lwp_ReleaseFlagIndex; [exact Hq1|]. intros q2 Hq2 E2.
    apply HE2; [done|done|done|]. change (flag_res (cl_flags s) ++ beside_flags s ++ O ≡ₚ flag_res q2 ++ beside_flags s ++ O). by rewrite E2, <- E1. }
  lstep. apply lwp_on_remote, lwp_tag_mem. intros mem r Er. lstep.
  apply lwp_TransferWithRetry. intros [e|[]]; [by apply Hrel|]. apply lwp_on_flags. rewrite <- E1.
  apply lwp_new_handle; [done|done|intros x Hx; apply elem_of_app; by left| |].
  - intros e. rewrite E1. by apply Hrel.
  - intros h q2 Hh Hn Hq2 Hf E2. split.
    2: { apply HQ; [done| |by eexists]. destruct (std_find h (device_handles (cl_device s))) as [x|] eqn:Ex; [|done].
         destruct Hn. apply elem_of_app. right. unfold beside_flags. rewrite !elem_of_app. left. right. left.
         rewrite (dev_res_find _ h x) by first [apply (dw_map _ _ _ (cw_dev _ Hw0))|done]. by left. }
    eapply at_rest_flags; [exact Hw0|exact Hq2|done|done| |done]. cbn. rewrite E2. by rewrite <- app_comm_cons.
Qed.

Lemma cwp_latch st (Q : Status + unit -> HixlCSClient -> Prop) s :
  (forall d, Q (inr tt) (with_device d s)) -> cwp (on_device (LatchTransferFailure st)) Q s.
Proof.
  intros HQ. apply cwp_on_device. intros Q' O W Hw HQ'. apply lwp_Latch. intros d Hs. apply HQ'; [by eapply dev_wf_same| |done].
  by rewrite (dev_res_same _ _ Hs).
Qed.
Lemma cwp_latched {A} (m : M NetOp HixlCSClient A) (Q : Status + A -> HixlCSClient -> Prop) s :
  cwp m (fun _ _ => True) s -> (forall o s', Q o s') -> cwp (LatchTransferFailureIfNeeded m) Q s.
Proof.
  intros Hm HQ. unfold LatchTransferFailureIfNeeded. cstep. cstep. eapply cwp_mono; [exact Hm|]. intros [e|a] s' _; [|cstep; apply HQ].
  cstep. destruct (_ && _); [apply cwp_latch; intros d|cstep]; cstep; apply HQ.
Qed.

(** *** The status of a transfer of this client, and of any *)

(** What is read behind a pointer that is no handle of the client is not the magic of a
    handle: no caller asks one client for the transfer of another. *)
Class HeadLaws : Prop :=
  foreign_head : forall p h, reply_of _ (Cli (LoadHead p)) h <> kDeviceCompleteMagic /\ reply_of _ (Cli (LoadHead p)) h <> kRoceCompleteMagic.

Lemma cwp_CheckStatus_host h x (Q : Status + Z -> HixlCSClient -> Prop) s :
  std_find h (device_handles (cl_device s)) = None -> std_find h (complete_handles (cl_flags s)) = Some x ->
  (forall o q, (o <> inr HIXL_COMPLETE_STATUS_COMPLETED -> q = cl_flags s) -> Q o (with_flags q s)) ->
  cwp (CheckStatusLocked h) Q s.
Proof using Hhc Hcli.
  intros Hd Hf HQ. apply cwp_wf. intros Hw. pose proof (cw_flags _ Hw) as Hfl.
  pose proof (proj1 (std_find_elem h x _ (fw_map _ _ Hfl)) Hf) as Hx.
  pose proof (proj1 (Forall_forall _ _) (fw_handles _ _ Hfl) _ Hx) as (Hh & Hm & _). cbn in Hh, Hm.
  unfold CheckStatusLocked. cstep. cstep. unfold is_null. rewrite (proj2 (Z.eqb_neq _ _) Hh). cbn [negb require]. cstep.
  cstep. unfold handle_head. do 2 cstep. rewrite Hd, Hf. cstep. rewrite Hm. do 2 cstep.
  cbn [Z.eqb Pos.eqb kRoceCompleteMagic kDeviceCompleteMagic kUbMemCompleteMagic]. rewrite andb_false_r, Hf.
  apply cwp_on_flags. intros Q' O W Hfl' HQ'. eapply lwp_CheckStatusHost; [done|done|]. intros o q Hq Heq. apply HQ'; [done|done|by apply HQ].
Qed.

Lemma cwp_CheckStatus (Q : Status + Z -> HixlCSClient -> Prop) h s :
  HeadLaws -> (forall o s', Q o s') -> cwp (CheckStatus h) Q s.
Proof using Hhc Hcli.
  intros Hhead HQ. unfold CheckStatus. destruct (std_find h (device_handles (cl_device s))) as [x|] eqn:Ed.
  - apply cwp_wf. intros Hw. destruct (dev_handle_ok _ _ _ _ _ (cw_dev _ Hw) Ed) as (Hh & Hm & _). cbn in Hh, Hm.
    unfold CheckStatusLocked. cstep. cstep. cstep; [|apply HQ]. cstep. unfold handle_head. do 2 cstep. rewrite Ed. cstep. do 2 cstep.
    rewrite Hm, Z.eqb_refl. apply cwp_on_device. intros Q' O W Hw' HQ'. eapply lwp_CheckStatusDevice; [done|done|].
    intros o d Hd. apply HQ'; [done|done|apply HQ].
  - destruct (std_find h (complete_handles (cl_flags s))) as [x|] eqn:Ef; [eapply cwp_CheckStatus_host; eauto|].
    unfold CheckStatusLocked. cstep. cstep. cstep; [|apply HQ]. cstep. unfold handle_head. do 2 cstep. rewrite Ed, Ef.
    intros Hw O W0 hi Hl. apply wp_call. intros head Hr. destruct (foreign_head h hi) as [N1 N2]. rewrite <- Hr in N1, N2.
    assert (Hl' : ledger (client_res s ++ O) (conns s ++ W0) (Ev (Cli (LoadHead h)) head :: hi)) by (apply (ledger_calm [_]); [by repeat constructor|done]).
    exists (client_res s ++ O), (conns s ++ W0). split; [exact Hl'|]. split; [by apply at_rest_self|].
    do 2 cstep. rewrite (proj2 (Z.eqb_neq _ _) N1), (proj2 (Z.eqb_neq _ _) N2). destruct (_ && _); [|cstep; apply HQ].
    cstep. ccalm. intros [st status]. cstep. destruct (_ && _); [apply cwp_latch; intros d|cstep]; (cstep; cstep; [cstep|]; apply HQ).
Qed.

(** *** Waiting for a batch *)
Notation grows m := (emits (fun _ : Event NetOp => True) m).
Tactic Notation "gr" reference(f) := unfold f; solve_emits; try done.

Lemma gr_leave {S} p : grows (leave_context p : M NetOp S unit). Proof. gr leave_context. Qed.
Lemma gr_enter {S} c : grows (enter_context c : M NetOp S Z). Proof. gr enter_context. Qed.
#[local] Hint Resolve gr_leave gr_enter : emits.
Lemma gr_guard : grows GetContextGuard. Proof. gr GetContextGuard. Qed.
#[local] Hint Resolve gr_guard : emits.
Lemma gr_with_context {A} (m : M NetOp HixlCSClient A) : grows m -> grows (with_context m).
Proof. intros Hm. gr with_context. gr drop_guard. Qed.
Lemma gr_log_only {S A} (m : M NetOp S A) : grows m -> grows (log_only m).
Proof. intros Hm. gr log_only. Qed.
Lemma gr_on_flags {A} (m : M NetOp FlagQueue A) : grows m -> grows (on_flags m). Proof. intros Hm. by apply emits_zoom. Qed.
Lemma gr_on_device {A} (m : M NetOp DeviceSide A) : grows m -> grows (on_device m). Proof. intros Hm. by apply emits_zoom. Qed.
Lemma gr_on_remote {A} (m : M NetOp RemoteMems A) : grows m -> grows (on_remote m). Proof. intros Hm. by apply emits_zoom. Qed.

Lemma gr_chk_hccl {S} e : grows (chk_hccl e : M NetOp S unit). Proof. gr chk_hccl. Qed.
#[local] Hint Resolve gr_chk_hccl : emits.
Lemma gr_retry_round {S} g c d x n st u : grows (retry_round g c d x n st u : M NetOp S _). Proof. gr retry_round. Qed.
#[local] Hint Resolve gr_retry_round : emits.
Lemma gr_Retry {S} g c d x n : grows (TransferWithRetry g c d x n : M NetOp S unit). Proof. gr TransferWithRetry. Qed.
#[local] Hint Resolve gr_Retry : emits.
Lemma gr_Task {S} g c l : grows (BatchTransferTask g c l : M NetOp S unit). Proof. gr BatchTransferTask. gr transfer_desc. Qed.
#[local] Hint Resolve gr_Task : emits.
Lemma gr_AcquireFlag : grows AcquireFlagIndex. Proof. gr AcquireFlagIndex. Qed.
Lemma gr_ReleaseFlag i : grows (ReleaseFlagIndex i). Proof. gr ReleaseFlagIndex. Qed.
#[local] Hint Resolve gr_AcquireFlag gr_ReleaseFlag : emits.
Lemma gr_new_handle i a : grows (new_handle i a). Proof. gr new_handle. Qed.
Lemma gr_tag_mem t : grows (tag_mem t). Proof. gr tag_mem. Qed.
#[local] Hint Resolve gr_new_handle gr_tag_mem : emits.
Lemma gr_delete_handle h : grows (delete_handle h). Proof. gr delete_handle. Qed.
#[local] Hint Resolve gr_delete_handle : emits.
Lemma gr_ReleaseComplete h : grows (ReleaseCompleteHandle h). Proof. gr ReleaseCompleteHandle. Qed.
#[local] Hint Resolve gr_ReleaseComplete : emits.
Lemma gr_StatusHost h x : grows (CheckStatusHost h x). Proof. gr CheckStatusHost. Qed.
Lemma gr_HostAsync g l : grows (BatchTransferHostAsync g l).
Proof. gr BatchTransferHostAsync; first [apply gr_on_flags|apply gr_on_remote]; auto with emits. Qed.
#[local] Hint Resolve gr_StatusHost gr_HostAsync : emits.
Lemma gr_dev_handle h : grows (dev_handle h). Proof. gr dev_handle. Qed.
Lemma gr_slot_object i : grows (slot_object i). Proof. gr slot_object. Qed.
#[local] Hint Resolve gr_dev_handle gr_slot_object : emits.
Lemma gr_upd_handle h f : grows (upd_handle h f). Proof. gr upd_handle. Qed.
Lemma gr_unshare i : grows (unshare i). Proof. gr unshare. Qed.
Lemma gr_Latch st : grows (LatchTransferFailure st). Proof. gr LatchTransferFailure. Qed.
#[local] Hint Resolve gr_upd_handle gr_unshare gr_Latch : emits.
Lemma gr_return_slot i x : grows (return_active_slot i x). Proof. gr return_active_slot. Qed.
#[local] Hint Resolve gr_return_slot : emits.
Lemma gr_ReleaseRef i : grows (ReleaseSharedSlotRef i). Proof. gr ReleaseSharedSlotRef. Qed.
#[local] Hint Resolve gr_ReleaseRef : emits.
Lemma gr_ReleaseDev h : grows (ReleaseDevCompleteHandle h). Proof. gr ReleaseDevCompleteHandle. Qed.
#[local] Hint Resolve gr_ReleaseDev : emits.
Lemma gr_StatusDevice h : grows (CheckStatusDevice h). Proof. gr CheckStatusDevice. Qed.
#[local] Hint Resolve gr_StatusDevice : emits.
Lemma gr_handle_head h : grows (handle_head h). Proof. gr handle_head. Qed.
#[local] Hint Resolve gr_handle_head : emits.
Lemma gr_CheckStatus h : grows (CheckStatusLocked h).
Proof.
  unfold CheckStatusLocked. apply gr_with_context. solve_emits; try done; first [apply gr_on_flags|apply gr_on_device]; auto with emits.
Qed.

(** A run from rest, with what its history was. *)
Lemma wp_at_rest {A} (m : M NetOp HixlCSClient A) (Q : Status + A -> HixlCSClient -> Prop) O W0 s own W h :
  grows m -> cwp m Q s -> at_rest O W0 s own W -> ledger own W h ->
  wp m (fun o s' h' => (exists own' W', ledger own' W' h' /\ at_rest O W0 s' own' W' /\ Q o s') /\ exists t, h' = t ++ h) s h.
Proof.
  intros Hg Hm R Hl. eapply wp_mono; [apply (wp_emits (fun _ => True)); [exact Hg|]; by apply (lwp_at_rest _ _ _ _ _ _ _ R Hm)|].
  intros o s' h' [(own' & W' & Hl' & R' & HQ) (t & -> & _)]. split; [by exists own', W'|by exists t].
Qed.

Section Sync.
Variables (O : list HcRes) (W0 : list Conn) (start timeout_ms raw : Z).
(** The transfer is in flight, and the clock has advanced by a round. *)
Definition in_flight s : Prop :=
  std_find raw (device_handles (cl_device s)) = None /\ is_Some (std_find raw (complete_handles (cl_flags s))).
Definition waiting (n : Z) (_ : unit) s h : Prop :=
  (exists own W, ledger own W h /\ at_rest O W0 s own W) /\ in_flight s /\
  exists lb, time_left timeout_ms start n lb /\ clock_from lb h.

Lemma cwp_drop (Q : Status + unit -> HixlCSClient -> Prop) s :
  in_flight s -> (forall q, Q (inr tt) (with_flags q s)) -> cwp (log_only (on_flags (ReleaseCompleteHandle raw))) Q s.
Proof using Hhc Hcli.
  intros [_ [x Hx]] HQ. cstep. apply cwp_on_flags. intros Q' O' W Hw HQ'. eapply lwp_ReleaseCompleteHandle; [done|done|].
  intros q Hq. apply HQ'; [done|done|apply HQ].
Qed.

Lemma wp_sync_round n s h (K : Status + unit -> HixlCSClient -> History NetOp -> Prop) :
  waiting n tt s h -> (forall o s' h', (exists own W, ledger own W h' /\ at_rest O W0 s' own W) -> K o s' h') ->
  wp (sync_round (start + timeout_ms * 1000000) raw tt) (fun o s' h' => match o with
    | inl e => K (inl e) s' h' | inr (inr b) => K (inr b) s' h'
    | inr (inl a) => exists n', n' < n /\ waiting n' a s' h' end) s h.
Proof using Hnet Hhc Hcli.
  intros ((own & W & Hl & R) & Hf & lb & HT & Hclk) HK. unfold sync_round. apply wp_bind, wp_call. intros now Hnow.
  assert (Hge : lb <= now) by (rewrite Hnow; apply (Hclk [])).
  assert (Hlat : later now (Ev NetNow now :: h)) by by apply later_now.
  assert (Hl1 : ledger own W (Ev NetNow now :: h)) by (apply (ledger_calm [_]); [by repeat constructor|done]).
  assert (Hdrop : forall e s1 own1 W1 h1, in_flight s1 -> at_rest O W0 s1 own1 W1 -> ledger own1 W1 h1 ->
    wp (log_only (on_flags (ReleaseCompleteHandle raw)) ;; fail e) (fun o s' h' => match o with
      | inl e => K (inl e) s' h' | inr (inr b) => K (inr b) s' h'
      | inr (inl a) => exists n', n' < n /\ waiting n' a s' h' end) s1 h1).
  { intros e s1 own1 W1 h1 Hf1 R1 Hl'. eapply wp_mono.
    - apply (lwp_at_rest _ (fun o _ => o = inl e) _ _ _ _ _ R1); [|exact Hl']. cstep. apply cwp_drop; [done|]. intros q. by cstep.
    - intros o s2 h2 (own2 & W2 & Hl2 & R2 & ->). apply HK. by exists own2, W2. }
  destruct (Z.leb_spec (start + timeout_ms * 1000000) now) as [Hend|Hlt]; [by eapply Hdrop|].
  destruct (time_left_next timeout_ms start n lb now HT Hge) as (n' & Hn & HT').
  { destruct HT as [HT _]. apply to_ms_lt; lia. }
  apply wp_bind, wp_attempt. destruct Hf as [Hd [x Hx]].
  eapply wp_mono; [eapply (wp_at_rest _ (fun o s' => exists q, s' = with_flags q s /\ (o <> inr HIXL_COMPLETE_STATUS_COMPLETED -> q = cl_flags s)));
    [apply gr_CheckStatus| |exact R|exact Hl1]|].
  { eapply cwp_CheckStatus_host; [done|done|]. intros o q Hq. by exists q. }
  intros o s1 h1 [(own1 & W1 & Hl' & R1 & q & -> & Hq) (t & ->)].
  assert (Hf1 : o <> inr HIXL_COMPLETE_STATUS_COMPLETED -> in_flight (with_flags q s)).
  { intros Ho. split; [done|]. rewrite (Hq Ho). by exists x. }
  destruct o as [e|st]; [eapply Hdrop; [by apply Hf1|exact R1|exact Hl']|].
  destruct (Z.eqb_spec st HIXL_COMPLETE_STATUS_COMPLETED) as [->|Hst]; [apply wp_ret, HK; by exists own1, W1|].
  apply wp_bind, wp_call. intros [] _. apply wp_ret. exists n'. split; [done|]. split_and!.
  - exists own1, W1. split; [|done]. apply (ledger_calm [_]); [by repeat constructor|done].
  - apply Hf1. congruence.
  - exists (now + 1). split; [done|]. by apply (later_io now [] _ (Hc (SleepUs kSyncQueryIntervalUs)) tt t).
Qed.
End Sync.

Lemma cwp_HostSync (Q : Status + unit -> HixlCSClient -> Prop) is_get l ms s : (forall o s', Q o s') -> cwp (BatchTransferHostSync is_get l ms) Q s.
Proof using Hnet Hhc Hcli.
  intros HQ Hw O W0 h Hl. unfold BatchTransferHostSync. apply wp_bind, wp_call. intros start Hstart. cbv zeta.
  assert (Hl1 : ledger (client_res s ++ O) (conns s ++ W0) (Ev NetNow start :: h)) by (apply (ledger_calm [_]); [by repeat constructor|done]).
  assert (Hc : forall t, clock_from start (t ++ Ev NetNow start :: h)) by (intros t; by apply clock_from_mono, clock_monotone).
  set (K := fun (o : Status + unit) s' h' => exists own' W', ledger own' W' h' /\ at_rest O W0 s' own' W' /\ Q o s').
  assert (HK : forall o s' h', (exists own W, ledger own W h' /\ at_rest O W0 s' own W) -> K o s' h').
  { intros o s' h' (own & W & H1 & H2). exists own, W. split_and!; [done|done|apply HQ]. }
  apply wp_bind. eapply wp_mono.
  { eapply (wp_at_rest _ (fun o s' => forall raw, o = inr raw -> raw <> nullptr /\ in_flight raw s') O W0); [apply gr_HostAsync| |by apply at_rest_self|exact Hl1].
    apply cwp_HostAsync; [by intros|]. intros raw q r Hr Hd Hf ? [= <-]. by split. }
  intros [e|raw] s1 h1 [(own1 & W1 & Hl' & R1 & Hf) (t & ->)]; [apply HK; by exists own1, W1|].
  destruct (Hf raw eq_refl) as [Hr Hfl]. apply wp_bind. unfold is_null. rewrite (proj2 (Z.eqb_neq _ _) Hr). apply wp_ret.
  apply (wp_loop (sync_round (start + ms * 1000000) raw) (waiting O W0 start ms raw) K) with (n := Z.max 0 ms * 1000000 + 1).
  - intros n [] s' h' (_ & _ & lb & HT & _). by eapply time_left_nonneg.
  - intros n [] s' h' HI. eapply wp_mono; [by apply (wp_sync_round O W0 start ms raw n s' h' K)|]. done.
  - apply (time_left_enough ms start _ start), time_left_start.
  - split_and!; [by exists own1, W1|done|]. exists start. split; [apply time_left_start|apply Hc].
Qed.

(** *** The two entries *)
Lemma cwp_state_only {A} (f : HixlCSClient -> M NetOp HixlCSClient A) (Q : Status + A -> HixlCSClient -> Prop) s :
  cwp (f s) Q s -> cwp (let* s := get in f s) Q s.
Proof. intros H. by do 2 cstep. Qed.
Lemma cwp_ValidateAddress (Q : Status + unit -> HixlCSClient -> Prop) l s : (forall o, Q o s) -> cwp (ValidateAddress l) Q s.
Proof. intros HQ. unfold ValidateAddress. do 2 cstep. cbv zeta. cstep; apply HQ. Qed.
Lemma cwp_mapped e (Q : Status + list HixlOneSideOpDesc -> HixlCSClient -> Prop) l s : (forall o, Q o s) -> cwp (mapped_descs e l) Q s.
Proof.
  intros HQ. unfold mapped_descs. destruct (need_host_va_mapping_ e); [|cstep; apply HQ]. unfold ConvertHostMappedDescs. do 2 cstep.
  destruct (HixlMemStore_BatchConvertHostAddr _ _). cstep. cstep; [cstep|]; apply HQ.
Qed.
Lemma launch_ready_ok e s : client_wf s -> local_endpoint_ s = Some e -> launch_ready s.
Proof.
  intros Hw He. split; [by eexists|]. apply batch_limit_pos; [unfold kDefaultMaxTransferCountPerBatch; lia|apply Hw].
Qed.
Lemma cwp_DeviceSync (Q : Status + unit -> HixlCSClient -> Prop) is_get l ms e s :
  local_endpoint_ s = Some e -> (forall o s', Q o s') -> cwp (BatchTransferDeviceSync is_get l ms) Q s.
Proof using Hhc Hcli.
  intros He HQ. apply cwp_wf. intros Hw. apply cwp_device. intros Q' O W Hd HQ'.
  apply lwp_BatchTransferDeviceSync; [done|by eapply launch_ready_ok|]. intros o d Hd'. apply HQ'; [done|done|apply HQ].
Qed.
Lemma cwp_DeviceAsync (Q : Status + Z -> HixlCSClient -> Prop) is_get l e s :
  local_endpoint_ s = Some e -> (forall o s', Q o s') -> cwp (BatchTransferDeviceAsync is_get l) Q s.
Proof using Hhc Hcli.
  intros He HQ. apply cwp_wf. intros Hw. apply cwp_device. intros Q' O W Hd HQ'.
  apply lwp_BatchTransferDeviceAsync; [done|by eapply launch_ready_ok|]. intros o d Hd'. apply HQ'; [done|done|apply HQ].
Qed.

Lemma cwp_BatchTransferSync (Q : Status + unit -> HixlCSClient -> Prop) is_get l ms s :
  (forall o s', Q o s') -> cwp (BatchTransferSync is_get l ms) Q s.
Proof using Hnet Hhc Hcli.
  intros HQ. unfold BatchTransferSync. cstep. unfold not_latched. do 2 cstep. cstep; [|apply HQ].
  cstep. cstep. apply cwp_ValidateAddress. intros [x|[]]; [apply HQ|]. cstep. unfold check_endpoint. do 2 cstep.
  destruct (local_endpoint_ s) as [e|] eqn:He; [|cstep; apply HQ]. do 2 cstep. eapply cwp_the_endpoint; [done|]. do 2 cstep.
  destruct (IsDeviceEndpoint _).
  - destruct (ubmem_engine_ _).
    + apply cwp_latched; [|apply HQ]. cstep. ccalm. intros st. by cstep.
    + cstep. apply cwp_mapped. intros [x|descs]; [apply HQ|]. apply cwp_latched; [|apply HQ]. by eapply cwp_DeviceSync.
  - destruct (_ =? _); [|cstep; apply HQ]. apply cwp_latched; [|apply HQ]. by apply cwp_HostSync.
Qed.
Lemma cwp_BatchTransferAsync (Q : Status + Z -> HixlCSClient -> Prop) is_get l s :
  (forall o s', Q o s') -> cwp (BatchTransferAsync is_get l) Q s.
Proof using Hnet Hhc Hcli.
  intros HQ. unfold BatchTransferAsync. cstep. unfold not_latched. do 2 cstep. cstep; [|apply HQ].
  cstep. cstep. apply cwp_ValidateAddress. intros [x|[]]; [apply HQ|]. cstep. unfold check_endpoint. do 2 cstep.
  destruct (local_endpoint_ s) as [e|] eqn:He; [|cstep; apply HQ]. do 2 cstep. eapply cwp_the_endpoint; [done|]. do 2 cstep.
  destruct (IsDeviceEndpoint _).
  - destruct (ubmem_engine_ _).
    + apply cwp_latched; [|apply HQ]. cstep. ccalm. intros [st h]. cstep. by cstep; [cstep|].
    + cstep. apply cwp_mapped. intros [x|descs]; [apply HQ|]. apply cwp_latched; [|apply HQ]. by eapply cwp_DeviceAsync.
  - destruct (_ =? _); [|cstep; apply HQ]. apply cwp_latched; [|apply HQ]. by apply cwp_HostAsync.
Qed.

(** ** Destroy *)

(** What [Destroy] leaves: the queue of the flags at most. *)
Record emptied s : Prop := {
  em_ep : local_endpoint_ s = None;
  em_conn : connection_ s = None;
  em_handles : complete_handles (cl_flags s) = [];
  em_device : dev_res (cl_device s) = [];
  em_descs : no_descs s
}.
Definition no_handles s : Prop := complete_handles (cl_flags s) = [].
Definition no_device s : Prop := dev_res (cl_device s) = [].

Lemma cwp_ReleaseDeviceResources (Q : Status + unit -> HixlCSClient -> Prop) s :
  no_handles s -> device_handles (cl_device s) = [] ->
  (forall s', no_handles s' -> no_device s' -> Q (inr tt) s') -> cwp ReleaseDeviceResources Q s.
Proof using Hnet Hhc.
  intros Hh Hd HQ. unfold ReleaseDeviceResources. do 2 cstep. cstep. apply cwp_each.
  { intros h s1 Q1 N1 HQ1. unfold deregister_notify. destruct (is_null h); [cstep; apply HQ1, near_refl|]. do 2 cstep.
    destruct (local_endpoint_ s1) as [e|] eqn:He; [|cstep; apply HQ1, near_refl]. cstep. eapply cwp_DeregisterMem; [done|].
    intros _ s2. apply HQ1. }
  intros s1 N1. cstep. apply cwp_device_fields; [done|]. apply cwp_on_device. intros Q' O W Hw HQ'.
  apply lwp_CleanupActiveSlot; [done|cbn; by rewrite (nr_device _ _ N1)|]. intros d Hd' E. apply HQ'; [done|by rewrite E|].
  apply HQ; [|done]. unfold no_handles. cbn. by rewrite (nr_flags _ _ N1).
Qed.

Lemma cwp_finalize_endpoint (Q : Status + Status -> HixlCSClient -> Prop) s :
  (forall st px, Q (inr st) (s <| local_endpoint_ := None |> <| cl_px := px |>)) -> cwp finalize_endpoint Q s.
Proof using Hnet Hhc.
  intros HQ. unfold finalize_endpoint. do 2 cstep. destruct (local_endpoint_ s) as [e|] eqn:He.
  - cstep. eapply (cwp_endpoint _ _ (fun o e' => (exists st, o = inr st) /\ EndpointSafety.owned e' = [])); [done|apply es_Finalize| |].
    + intros O h Hw Ha. eapply (wp_Endpoint_Finalize O); [by split|]. intros st px h' Ha'. cbn [es_ep]. split_and!; [by eexists|done| |done].
      destruct Hw as [W1 W2 W3 W4]. constructor; [constructor|constructor|by intros ?? ?%elem_of_nil|done].
    + intros o e' px Hw' [[st ->] Eo]. cstep. apply cwp_modify; [|unfold client_res, ep_res; cbn; by rewrite Eo|done|cstep; apply HQ].
      intros []. by constructor.
  - cstep. specialize (HQ SUCCESS (cl_px s)). by destruct s; cbn in He; subst.
Qed.

Lemma cwp_Destroy (Q : Status + Status -> HixlCSClient -> Prop) s :
  (forall st s', emptied s' -> Q (inr st) s') -> cwp Destroy Q s.
Proof using Hnet Hhc Hcli Hash.
  intros HQ. unfold Destroy. cstep. cstep.
  cstep. apply cwp_on_flags. intros Q1 O1 W1 Hf HQ1. apply lwp_ReleaseLegacyHandles; [done|]. intros q Hq Eq _. apply HQ1; [done|done|]. clear Q1 O1 W1 Hf HQ1.
  set (s1 := s <| cl_flags := q |>). do 2 cstep. cstep.
  assert (Hrest : forall st, cwp (
     on_device AbortAllPendingDeviceHandles ;;
     ReleaseDeviceResources ;;
     let* r := attempt ClearRemoteMemInfo in
     CloseSocket ;;
     on_settings (modify (fun st => st <| is_connected_ := false |>)) ;;
     let* st := finalize_endpoint in
     ret (first_error (status_of r) st))
    (fun o s2 => match o with
       | inl e => Q (inl e) s2
       | inr fe => cwp (
           pool_rollback ;;
           let* s := get in
           (if tls_initialized_ (cl_settings s) then
              on_settings (modify (fun st => st <| tls_initialized_ := false |>)) ;; call (Cli TlsManagerFinalize)
            else ret tt) ;;
           ret fe) Q s2
       end) (with_settings st s1)).
  { intros st. cstep. apply cwp_on_device. intros Q2 O2 W2 Hd HQ2. apply lwp_AbortAllPending; [done|]. intros d Hd' Ed. apply HQ2; [done|done|]. clear Q2 O2 W2 Hd HQ2.
    cstep. apply cwp_ReleaseDeviceResources; [exact Eq|exact Ed|]. intros s3 H3 D3. cstep. cstep.
    apply cwp_ClearRemoteMemInfo. intros s4 _ [T1 T2] N4. cstep. apply cwp_CloseSocket. cstep. apply cwp_quiet_set; [done|].
    cstep. apply cwp_finalize_endpoint. intros st5 px5. cstep. set (s5 := _ <| cl_px := px5 |>).
    assert (E5 : emptied s5).
    { constructor; try done; unfold s5; cbn; [by rewrite T1|by rewrite T2]. }
    cstep. apply cwp_pool_rollback. intros d6 Hsame. do 2 cstep. cstep.
    assert (E6 : emptied (with_device d6 s5)).
    { destruct E5. constructor; try done. cbn. by rewrite (dev_res_same _ _ Hsame). }
    destruct (tls_initialized_ _); [|cstep; cstep; by apply HQ]. cstep. apply cwp_quiet_set; [done|]. ccalm. intros []. cstep.
    apply HQ. by destruct E6. }
  destruct (ubmem_engine_ _); [|cstep; apply (Hrest (cl_settings s1))]. cstep. ccalm. intros []. apply cwp_quiet_set; [done|]. apply Hrest.
Qed.

Lemma lwp_delete (Q : Status + unit -> HixlCSClient -> list HcRes -> list Conn -> Prop) O W0 s own W :
  at_rest O W0 s own W -> (forall s' own' W', own' ≡ₚ O -> W' ≡ₚ W0 -> Q (inr tt) s' own' W') -> lwp HixlCSClient_delete Q s own W.
Proof using Hnet Hhc Hcli Hash.
  intros R HQ. unfold HixlCSClient_delete. lstep. lstep.
  eapply lwp_mono; [eapply (lwp_at_rest _ (fun o s' => emptied s')); [exact R|]; by apply cwp_Destroy|].
  intros o s1 own1 W1 [[R1 R2 R3] [E1 E2 E3 E4 E5]]. apply lwp_on_flags.
  apply (lwp_perm _ _ _ _ (flag_res (cl_flags s1) ++ O)).
  { rewrite R2. unfold client_res, ep_res. rewrite E1, E4, E5. cbn. by rewrite app_nil_r. }
  apply lwp_free_flag_queue; [apply R1|]. intros q. apply HQ; [done|]. rewrite R3. unfold conns. by rewrite E2.
Qed.
End Client.
