(* ===== verification/Keeps.v ===== *)
(** What a computation leaves true of its state, however it ends; and with it, that the
    calls on a created client leave it its endpoint. *)

From S2P Require Import Prelude StdMap Effects External Runtime DeviceSupport Wire Hcomm MemStore TransferPool ClientRt Net CtrlConn ConnMsg HostRegister Endpoint GlobalConfig RemoteMem ClientState HostTransfer DeviceTransfer ClientMemory CsClient.

Definition keeps {E S A} (P : S -> Prop) (m : M E S A) : Prop := forall s h, P s -> P (m s h).1.2.

Section Keeps.
Context {E : Type -> Type} {S : Type} (P : S -> Prop).

Lemma kept_same {A} (m : M E S A) : (forall s h, (m s h).1.2 = s) -> keeps P m.
Proof. intros H s h Hs. by rewrite H. Qed.
Lemma kept_ret {A} (a : A) : keeps P (ret a : M E S A).
Proof. by apply kept_same. Qed.
Lemma kept_fail {A} e : keeps P (fail e : M E S A).
Proof. by apply kept_same. Qed.
Lemma kept_stuck {A} : keeps P (stuck : M E S A).
Proof. by apply kept_same. Qed.
Lemma kept_get : keeps P (get : M E S S).
Proof. by apply kept_same. Qed.
Lemma kept_require b e : keeps P (require b e : M E S unit).
Proof. apply kept_same. by destruct b. Qed.
Lemma kept_call {env : Environment E} {T} (op : E T) : keeps P (call op : M E S T).
Proof. by apply kept_same. Qed.
Lemma kept_modify f : (forall s, P s -> P (f s)) -> keeps P (modify f : M E S unit).
Proof. intros H s h. apply H. Qed.
Lemma kept_bind {A B} (m : M E S A) (k : A -> M E S B) : keeps P m -> (forall a, keeps P (k a)) -> keeps P (bind m k).
Proof.
  intros Hm Hk s h Hs. specialize (Hm s h Hs). unfold bind. destruct (m s h) as [[[a|e|] s'] h']; [by apply Hk|done|done].
Qed.
Lemma kept_attempt {A} (m : M E S A) : keeps P m -> keeps P (attempt m).
Proof. intros Hm s h Hs. specialize (Hm s h Hs). unfold attempt. by destruct (m s h) as [[[a|e|] s'] h']. Qed.
Lemma kept_finally {A} (m : M E S A) f : keeps P m -> keeps P f -> keeps P (finally m f).
Proof.
  intros Hm Hf s h Hs. specialize (Hm s h Hs). unfold finally. destruct (m s h) as [[[a|e|] s'] h']; [| |done];
    (specialize (Hf s' h' Hm); by destruct (f s' h') as [[[[]|?|] ?] ?]).
Qed.
Lemma kept_on_fail {A} (m : M E S A) f : keeps P m -> keeps P f -> keeps P (on_fail m f).
Proof.
  intros Hm Hf s h Hs. specialize (Hm s h Hs). unfold on_fail. destruct (m s h) as [[[a|e|] s'] h']; [done| |done].
  specialize (Hf s' h' Hm). by destruct (f s' h') as [[[[]|?|] ?] ?].
Qed.
Lemma kept_for_each {A} (l : list A) (m : A -> M E S unit) : (forall a, keeps P (m a)) -> keeps P (for_each l m).
Proof. intros Hm. induction l; cbn [for_each]; [apply kept_ret|]. by apply kept_bind. Qed.
Lemma kept_rounds {A B} p (body : A -> M E S (A + B)) a : (forall a, keeps P (body a)) -> keeps P (rounds p body a).
Proof.
  intros Hb. revert a. induction p as [p IH|p IH|]; intros a; cbn [rounds]; [| |done].
  - apply kept_bind; [done|]. intros [a'|b]; [|apply kept_ret].
    apply kept_bind; [done|]. intros [a''|b]; [done|apply kept_ret].
  - apply kept_bind; [done|]. intros [a'|b]; [done|apply kept_ret].
Qed.
Lemma kept_loop {A B} p (body : A -> M E S (A + B)) a : (forall a, keeps P (body a)) -> keeps P (loop p body a).
Proof. intros Hb. apply kept_bind; [by apply kept_rounds|]. intros [a'|b]; [apply kept_stuck|apply kept_ret]. Qed.
Lemma kept_zoom {T A} (view : S -> option T) upd (m : S -> M E T A) :
  (forall t s, P s -> P (upd t s)) -> keeps P (zoom view upd m).
Proof. intros Hu s h Hs. unfold zoom. destruct (view s) as [t|]; [|done]. destruct (m s t h) as [[o t'] h']. by apply Hu. Qed.

(** With a postcondition. *)
Lemma wp_keeps {A} (m : M E S A) Q s h : keeps P m -> P s -> wp m Q s h -> wp m (fun o s' h' => Q o s' h' /\ P s') s h.
Proof.
  intros Hk Hs Hw. specialize (Hk s h Hs). unfold wp in *. by destruct (m s h) as [[[a|e|] s'] h'].
Qed.
End Keeps.

Create HintDb keeps discriminated.
#[export] Hint Resolve kept_ret kept_fail kept_stuck kept_get kept_require kept_call kept_attempt kept_for_each kept_loop
  kept_on_fail kept_finally : keeps.
Ltac keeps_step :=
  lazymatch goal with
  | |- forall _, _ => intros ?
  | |- keeps _ (bind _ _) => apply kept_bind
  | |- keeps _ (attempt _) => apply kept_attempt
  | |- keeps _ (on_fail _ _) => apply kept_on_fail
  | |- keeps _ (finally _ _) => apply kept_finally
  | |- keeps _ (for_each _ _) => apply kept_for_each
  | |- keeps _ (loop _ _ _) => apply kept_loop
  | |- keeps _ (let _ := _ in _) => cbv zeta
  | |- keeps _ (match ?x with _ => _ end) => destruct x
  | |- keeps _ _ => solve [auto 2 with keeps]
  end.
Tactic Notation "kp" reference(f) := unfold f; repeat keeps_step.

(** * The endpoint of a client *)
Definition has_endpoint (s : HixlCSClient) : Prop := is_Some (local_endpoint_ s).

Section Client.
Context {codes : AclCodes} {again : HcclAgain} {clib : CLibrary} {nl : Nlohmann} {env : Environment NetOp}.
Context `{G : GeMath} `{Sec : Securec} `{Abi : HcommAbi} {abi : ClientAbi} {hash : PointerHash}.
Local Notation K m := (keeps has_endpoint m).

Lemma kp_on_settings {A} (m : M NetOp Settings A) : K (on_settings m). Proof. by apply kept_zoom. Qed.
Lemma kp_on_flags {A} (m : M NetOp FlagQueue A) : K (on_flags m). Proof. by apply kept_zoom. Qed.
Lemma kp_on_remote {A} (m : M NetOp RemoteMems A) : K (on_remote m). Proof. by apply kept_zoom. Qed.
Lemma kp_on_device {A} (m : M NetOp DeviceSide A) : K (on_device m). Proof. by apply kept_zoom. Qed.
Lemma kp_on_endpoint {A} (m : M NetOp EpState A) : K (on_endpoint m). Proof. apply kept_zoom. by eexists. Qed.
Lemma kp_on_connection {A} (m : M NetOp Conn A) : K (on_connection m). Proof. by apply kept_zoom. Qed.
#[local] Hint Resolve kp_on_settings kp_on_flags kp_on_remote kp_on_device kp_on_endpoint kp_on_connection : keeps.
Lemma kp_on_store f : K (on_store f). Proof. kp on_store. by apply kept_modify. Qed.
Lemma kp_the_endpoint : K the_endpoint. Proof. kp the_endpoint. Qed.
Lemma kp_check_endpoint : K check_endpoint. Proof. kp check_endpoint. Qed.
Lemma kp_not_null {A} (o : option A) : K (not_null o). Proof. kp not_null. Qed.
Lemma kp_log_only {A} (m : M NetOp HixlCSClient A) : K m -> K (log_only m). Proof. intros. by kp log_only. Qed.
#[local] Hint Resolve kp_on_store kp_the_endpoint kp_check_endpoint kp_not_null kp_log_only : keeps.
Lemma kp_leave p : K (leave_context p). Proof. kp leave_context. Qed.
Lemma kp_enter c : K (enter_context c). Proof. kp enter_context. Qed.
#[local] Hint Resolve kp_leave kp_enter : keeps.
Lemma kp_in_context {A} c (m : M NetOp HixlCSClient A) : K m -> K (in_context c m). Proof. intros. by kp in_context. Qed.
Lemma kp_guard : K GetContextGuard. Proof. kp GetContextGuard. Qed.
#[local] Hint Resolve kp_guard : keeps.
Lemma kp_with_context {A} (m : M NetOp HixlCSClient A) : K m -> K (with_context m).
Proof. intros. kp with_context. by kp drop_guard. Qed.
Lemma kp_latched {A} (m : M NetOp HixlCSClient A) : K m -> K (LatchTransferFailureIfNeeded m).
Proof. intros. by kp LatchTransferFailureIfNeeded. Qed.
#[local] Hint Resolve kp_in_context kp_with_context kp_latched : keeps.

Lemma kp_RegMem tag mem : K (RegMem tag mem).
Proof. unfold RegMem, RegMemLocked. apply kp_with_context. repeat keeps_step. kp registered_dev_addr. Qed.
Lemma kp_UnRegMem h : K (UnRegMem h).
Proof. unfold UnRegMem. apply kp_with_context. repeat keeps_step. Qed.

Lemma kp_close_imported d : K (close_imported d). Proof. kp close_imported. Qed.
#[local] Hint Resolve kp_close_imported : keeps.
Lemma kp_CloseImported l : K (CloseImportedBufs l). Proof. kp CloseImportedBufs. Qed.
Lemma kp_free_export d : K (free_export d). Proof. kp free_export. Qed.
Lemma kp_free_desc d : K (free_export_desc d). Proof. kp free_export_desc. Qed.
#[local] Hint Resolve kp_CloseImported kp_free_export kp_free_desc : keeps.
Lemma kp_FreeExport l : K (FreeExportDesc l). Proof. kp FreeExportDesc. Qed.
#[local] Hint Resolve kp_FreeExport : keeps.
Lemma kp_clear_imports : K clear_imports. Proof. kp clear_imports. Qed.
#[local] Hint Resolve kp_clear_imports : keeps.
Lemma kp_Unrecord l : K (UnrecordAddrs l). Proof. kp UnrecordAddrs. kp unrecord_addr. Qed.
#[local] Hint Resolve kp_Unrecord : keeps.
Lemma kp_Clear : K ClearRemoteMemInfo. Proof. kp ClearRemoteMemInfo. Qed.
Lemma kp_ImportOne ctx d : K (ImportOneDesc ctx d). Proof. kp ImportOneDesc. Qed.
#[local] Hint Resolve kp_Clear kp_ImportOne : keeps.
Lemma kp_ImportAll ctx l : K (ImportAllDescs ctx l).
Proof. revert ctx. induction l as [|d l IH]; intros ctx; cbn [ImportAllDescs]; repeat keeps_step; apply IH. Qed.
#[local] Hint Resolve kp_ImportAll : keeps.
Lemma kp_Import l : K (ImportRemoteMem l). Proof. kp ImportRemoteMem. Qed.
#[local] Hint Resolve kp_Import : keeps.
Lemma kp_GetRemoteMemImpl ms : K (GetRemoteMemImpl ms). Proof. kp GetRemoteMemImpl. Qed.
#[local] Hint Resolve kp_GetRemoteMemImpl : keeps.
Lemma kp_GetRemoteMem ms : K (GetRemoteMem ms).
Proof. unfold GetRemoteMem. apply kp_with_context. repeat keeps_step. Qed.

Lemma kp_reset : K reset_connection. Proof. kp reset_connection. by apply kept_modify. Qed.
#[local] Hint Resolve kp_reset : keeps.
Lemma kp_CloseSocket : K CloseSocket. Proof. kp CloseSocket. Qed.
Lemma kp_new_connection : K new_connection. Proof. kp new_connection. by apply kept_modify. Qed.
Lemma kp_Exchange ms : K (ExchangeEndpointAndCreateChannel ms). Proof. kp ExchangeEndpointAndCreateChannel. Qed.
#[local] Hint Resolve kp_CloseSocket kp_new_connection kp_Exchange : keeps.
Lemma kp_Connect ms : K (Connect ms).
Proof. unfold Connect. apply kp_with_context. repeat keeps_step. Qed.

Lemma kp_Validate l : K (ValidateAddress l). Proof. kp ValidateAddress. Qed.
Lemma kp_mapped e l : K (mapped_descs e l). Proof. kp mapped_descs. kp ConvertHostMappedDescs. Qed.
Lemma kp_not_latched : K not_latched. Proof. kp not_latched. Qed.
Lemma kp_handle_head h : K (handle_head h). Proof. kp handle_head. Qed.
#[local] Hint Resolve kp_Validate kp_mapped kp_not_latched kp_handle_head : keeps.
Lemma kp_CheckStatus h : K (CheckStatusLocked h).
Proof. unfold CheckStatusLocked. apply kp_with_context. repeat keeps_step. Qed.
#[local] Hint Resolve kp_CheckStatus : keeps.
Lemma kp_chk e : K (chk_acl e). Proof. kp chk_acl. Qed.
Lemma kp_chk_hccl e : K (chk_hccl e). Proof. kp chk_hccl. Qed.
#[local] Hint Resolve kp_chk kp_chk_hccl : keeps.
Lemma kp_Retry g c d x n : K (TransferWithRetry g c d x n). Proof. kp TransferWithRetry. kp retry_round. Qed.
#[local] Hint Resolve kp_Retry : keeps.
Lemma kp_HostAsync g l : K (BatchTransferHostAsync g l).
Proof. kp BatchTransferHostAsync. kp BatchTransferTask. kp transfer_desc. Qed.
#[local] Hint Resolve kp_HostAsync : keeps.
Lemma kp_HostSync g l ms : K (BatchTransferHostSync g l ms).
Proof. kp BatchTransferHostSync. kp sync_round. Qed.

Lemma kp_or_abort m : K m -> K (or_abort m). Proof. intros. kp or_abort. by kp mark_abort. Qed.
#[local] Hint Resolve kp_or_abort : keeps.
Lemma kp_param h a b c : K (BuildDeviceChunkParam h a b c). Proof. kp BuildDeviceChunkParam. Qed.
#[local] Hint Resolve kp_param : keeps.
Lemma kp_chunk_round g h n b st : K (chunk_round g h n b st). Proof. kp chunk_round. Qed.
#[local] Hint Resolve kp_chunk_round : keeps.
Lemma kp_Launch g h n : K (LaunchDeviceChunkedKernels g h n). Proof. kp LaunchDeviceChunkedKernels. Qed.
#[local] Hint Resolve kp_Launch : keeps.
Lemma kp_notify i : K (check_notify i). Proof. kp check_notify. Qed.
Lemma kp_acquire n : K (acquire_slot n). Proof. kp acquire_slot. Qed.
Lemma kp_release h : K (release_handle h). Proof. kp release_handle. Qed.
#[local] Hint Resolve kp_notify kp_acquire kp_release : keeps.
Lemma kp_submit_sync g h l ms : K (submit_sync g h l ms).
Proof. kp submit_sync. apply kp_in_context. repeat keeps_step; apply kp_or_abort; auto with keeps. Qed.
Lemma kp_submit_async g h l : K (submit_async g h l).
Proof. kp submit_async. apply kp_in_context. repeat keeps_step; apply kp_or_abort; auto with keeps. Qed.
#[local] Hint Resolve kp_submit_sync kp_submit_async : keeps.
Lemma kp_DeviceSync g l ms : K (BatchTransferDeviceSync g l ms). Proof. kp BatchTransferDeviceSync. Qed.
Lemma kp_DeviceAsync g l : K (BatchTransferDeviceAsync g l). Proof. kp BatchTransferDeviceAsync. Qed.
#[local] Hint Resolve kp_HostSync kp_DeviceSync kp_DeviceAsync : keeps.
Lemma kp_BatchSync g l ms : K (BatchTransferSync g l ms).
Proof. kp BatchTransferSync. apply kp_with_context. repeat keeps_step; apply kp_latched; repeat keeps_step. Qed.
Lemma kp_BatchAsync g l : K (BatchTransferAsync g l).
Proof. kp BatchTransferAsync. apply kp_with_context. repeat keeps_step; apply kp_latched; repeat keeps_step. Qed.
End Client.
