(* ===== verification/CsApi.v ===== *)
(** The client half of hixl/cs/hixl_cs.cc: the functions of the C interface, on the
    clients that a process has.

    The registry of live handles and the objects behind them are one table; a handle is
    the key of its client.  [None] is a null pointer.  A call on a client that is not in
    the table has no meaning, but for [HixlCSClientDestroy], which looks it up. *)

From S2P Require Import Prelude StdMap Effects External Runtime Wire Hcomm MemStore TransferPool ClientRt Net CtrlConn ConnMsg HostRegister Endpoint GlobalConfig RemoteMem ClientState HostTransfer DeviceTransfer ClientMemory CsClient.

Definition kMinClientPort : Z := 1.
Definition kMaxPort : Z := 65535.

(** The clients, and the proxies of host memory that they share. *)
Record Process := { p_clients : gmap nat HixlCSClient; p_next : nat; p_px : Proxies }.
#[export] Instance Process_eta : Eta Process := fun p =>
  {| p_clients := p_clients p; p_next := p_next p; p_px := p_px p |}.
Definition Process_new : Process := {| p_clients := ∅; p_next := 0; p_px := [] |}.

Section Api.
Context {codes : AclCodes} {again : HcclAgain} {clib : CLibrary} {nl : Nlohmann} {env : Environment NetOp}.
Context `{G : GeMath} `{Sec : Securec} `{Abi : HcommAbi} {abi : ClientAbi} {hash : PointerHash}.
Let P := M NetOp Process.

(** A method of the client behind a handle. *)
Definition on_client {A} (i : nat) (m : M NetOp HixlCSClient A) : P A :=
  zoom (fun p => (fun c => c <| cl_px := p_px p |>) <$> p_clients p !! i)
       (fun c p => p <| p_clients ::= <[i := c]> |> <| p_px := cl_px c |>) (fun _ => m).
(** [delete]: the destructor, and the object is gone. *)
Definition delete_client (i : nat) : P unit :=
  on_client i HixlCSClient_delete ;;
  modify (fun p => p <| p_clients ::= delete i |>).

Definition ub_mem_on_device (ep : EndpointDesc) : bool :=
  negb (IsUbMemProtocol (ed_protocol ep)) || (ed_locType ep =? ENDPOINT_LOC_TYPE_DEVICE).

Definition HixlCSClientCreate (client_desc : option HixlClientDesc) (config : option HixlClientConfig) : P nat :=
  let* desc := not_null client_desc in
  let* _ := not_null (hcd_server_ip desc) in
  let* local_endpoint := not_null (hcd_local_endpoint desc) in
  let* remote_endpoint := not_null (hcd_remote_endpoint desc) in
  let* _ := not_null config in
  require ((kMinClientPort <=? hcd_server_port desc) && (hcd_server_port desc <=? kMaxPort)) PARAM_INVALID ;;
  require (ub_mem_on_device local_endpoint) PARAM_INVALID ;;
  require (ub_mem_on_device remote_endpoint) PARAM_INVALID ;;
  let* made := call NetNew in
  require made PARAM_INVALID ;;
  let* p := get in
  let client := p_next p in
  modify (fun p => p <| p_clients ::= <[client := HixlCSClient_new (p_px p)]> |> <| p_next ::= S |>) ;;
  on_fail (on_client client (Create desc config)) (delete_client client) ;;
  ret client.

Definition HixlCSClientRegMem (client_handle : option nat) (mem_tag : option string) (mem : option CommMem) : P Z :=
  let* client := not_null client_handle in
  let* mem := not_null mem in
  on_client client (RegMem mem_tag (Some mem)).
Definition HixlCSClientUnregMem (client_handle : option nat) (mem_handle : Z) : P unit :=
  let* client := not_null client_handle in
  require (negb (is_null mem_handle)) PARAM_INVALID ;;
  on_client client (UnRegMem mem_handle).

(** HixlCSClientBatchPutAsync and HixlCSClientBatchGetAsync, and the two that wait. *)
Definition check_list (desc_list : option (list HixlOneSideOpDesc)) : P (list HixlOneSideOpDesc) :=
  match desc_list with None | Some [] => fail PARAM_INVALID | Some l => ret l end.
Definition HixlCSClientBatchAsync (is_get : bool) (client_handle : option nat) (desc_list : option (list HixlOneSideOpDesc)) : P Z :=
  let* client := not_null client_handle in
  let* l := check_list desc_list in
  on_client client (BatchTransferAsync is_get l).
Definition HixlCSClientBatchSync (is_get : bool) (client_handle : option nat) (desc_list : option (list HixlOneSideOpDesc))
    (timeout_ms : Z) : P unit :=
  let* client := not_null client_handle in
  let* l := check_list desc_list in
  on_client client (BatchTransferSync is_get l timeout_ms).

Definition HixlCSClientQueryCompleteStatus (client_handle : option nat) (complete_handle : Z) : P Z :=
  let* client := not_null client_handle in
  require (negb (is_null complete_handle)) PARAM_INVALID ;;
  on_client client (CheckStatus complete_handle).

Definition HixlCSClientConnect (client_handle : option nat) (timeout_ms : Z) : P unit :=
  let* client := not_null client_handle in
  let* r := attempt (on_client client (Connect timeout_ms)) in
  match r with
  | inr _ => ret tt
  | inl e => require (e =? ALREADY_CONNECTED) e
  end.
Definition HixlCSClientGetRemoteMem (client_handle : option nat) (timeout_ms : Z) : P RemoteMemOut :=
  let* client := not_null client_handle in
  on_client client (GetRemoteMem timeout_ms).

Definition HixlCSClientDestroy (client_handle : option nat) : P unit :=
  let* client := not_null client_handle in
  let* p := get in
  match p_clients p !! client with
  | None => fail PARAM_INVALID
  | Some _ =>
      finally (let* st := on_client client Destroy in require (st =? SUCCESS) st) (delete_client client)
  end.

(** ** Programs that call the interface *)
Inductive ClientCall :=
| ACreate (client_desc : option HixlClientDesc) (config : option HixlClientConfig)
| ARegMem (client : nat) (mem_tag : option string) (mem : option CommMem)
| AUnregMem (client : nat) (mem_handle : Z)
| ABatchAsync (is_get : bool) (client : nat) (desc_list : option (list HixlOneSideOpDesc))
| ABatchSync (is_get : bool) (client : nat) (desc_list : option (list HixlOneSideOpDesc)) (timeout_ms : Z)
| AQuery (client : nat) (complete_handle : Z)
| AConnect (client : nat) (timeout_ms : Z)
| AGetRemoteMem (client : nat) (timeout_ms : Z)
| ADestroy (client : nat).

(** A caller uses the handles it was given and has not destroyed. *)
Definition alive (i : nat) (m : P unit) : P unit :=
  let* p := get in match p_clients p !! i with Some _ => m | None => ret tt end.
(** What a caller sees is only the status. *)
Definition any_status {A} (m : P A) : P unit := log_only m.
Definition client_call (k : ClientCall) : P unit :=
  match k with
  | ACreate desc config => any_status (HixlCSClientCreate desc config)
  | ARegMem i tag mem => alive i (any_status (HixlCSClientRegMem (Some i) tag mem))
  | AUnregMem i h => alive i (any_status (HixlCSClientUnregMem (Some i) h))
  | ABatchAsync is_get i l => alive i (any_status (HixlCSClientBatchAsync is_get (Some i) l))
  | ABatchSync is_get i l ms => alive i (any_status (HixlCSClientBatchSync is_get (Some i) l ms))
  | AQuery i h => alive i (any_status (HixlCSClientQueryCompleteStatus (Some i) h))
  | AConnect i ms => alive i (any_status (HixlCSClientConnect (Some i) ms))
  | AGetRemoteMem i ms => alive i (any_status (HixlCSClientGetRemoteMem (Some i) ms))
  | ADestroy i => any_status (HixlCSClientDestroy (Some i))
  end.
Definition run_calls (ks : list ClientCall) : P unit := for_each ks client_call.
End Api.
