(* ===== verification/CsApiSafety.v ===== *)
(** Programs on the C interface of the client: whatever is called, each client is
    well-formed, what is alive belongs to one of them, and destroying them leaves nothing. *)

From S2P Require Import Prelude StdMap Effects External Runtime DeviceSupport Wire Hcomm MemStore TransferPool ClientRt Net CtrlConn CtrlConnSpec CtrlConnSafety ConnMsg NetReference RtReference HostRegister Endpoint GlobalConfig RemoteMem HcResources EndpointSafety ServerCalls ClientState ClientLedger HostTransfer DeviceTransfer ClientMemory CsClient HostTransferSafety DeviceTransferSafety RemoteMemSafety ClientInv ClientMemorySafety CsClientSafety Keeps CsApi.

(** * A list of each client, put together *)
Definition spread {A} (f : HixlCSClient -> list A) (m : gmap nat HixlCSClient) : list A := mjoin ((fun p => f p.2) <$> map_to_list m).
Lemma spread_empty {A} (f : HixlCSClient -> list A) : spread f ∅ = [].
Proof. unfold spread. by rewrite map_to_list_empty. Qed.
Lemma spread_insert {A} (f : HixlCSClient -> list A) i c m : spread f (<[i := c]> m) ≡ₚ f c ++ spread f (delete i m).
Proof.
  unfold spread. rewrite <- insert_delete_eq. rewrite (map_to_list_insert _ _ _ (lookup_delete_eq m i)). done.
Qed.
Lemma spread_at {A} (f : HixlCSClient -> list A) i c m : m !! i = Some c -> spread f m ≡ₚ f c ++ spread f (delete i m).
Proof. intros Hi. rewrite <- (insert_id m i c Hi) at 1. apply spread_insert. Qed.

Definition clients_res (p : Process) : list HcRes := spread client_res (p_clients p).
Definition clients_conns (p : Process) : list Conn := spread conns (p_clients p).

Record process_ok (p : Process) (own : list HcRes) (W : list Conn) : Prop := {
  pr_wf : map_Forall (fun _ => client_wf) (p_clients p);
  pr_next : forall i, (p_next p <= i)%nat -> p_clients p !! i = None;
  pr_own : own ≡ₚ clients_res p;
  pr_conns : W ≡ₚ clients_conns p
}.
Lemma process_ok_new : process_ok Process_new [] [].
Proof. constructor; [apply map_Forall_empty|done|done|done]. Qed.

Section Api.
Context {codes : AclCodes} {again : HcclAgain} {clib : CLibrary} {nl : Nlohmann} {env : Environment NetOp}.
Context {Hnet : NetLaws env} {Hhc : HcLaws env} {Hcli : CliLaws env} {Hjson : JsonLaws env} {Hhead : HeadLaws}.
Context `{G : GeMath} `{Sec : Securec} `{Abi : HcommAbi} {abi : ClientAbi} {hash : PointerHash} {Hash : PointerHashLaws hash}.
Implicit Types (p : Process) (c : HixlCSClient) (own : list HcRes) (W : list Conn).

(** The client [i], and the others. *)
Lemma process_split p own W i c : process_ok p own W -> p_clients p !! i = Some c ->
  at_rest (spread client_res (delete i (p_clients p))) (spread conns (delete i (p_clients p))) (c <| cl_px := p_px p |>) own W.
Proof.
  intros [H1 H2 H3 H4] Hi. constructor.
  - destruct (H1 i c Hi). by constructor.
  - rewrite H3. unfold clients_res. by rewrite (spread_at _ _ _ _ Hi).
  - rewrite H4. unfold clients_conns. by rewrite (spread_at _ _ _ _ Hi).
Qed.
Lemma process_join p own W i c px : process_ok p own W -> (i < p_next p)%nat -> forall own' W',
  at_rest (spread client_res (delete i (p_clients p))) (spread conns (delete i (p_clients p))) c own' W' ->
  process_ok (p <| p_clients ::= <[i := c]> |> <| p_px := px |>) own' W'.
Proof.
  intros [H1 H2 H3 H4] Hi own' W' [R1 R2 R3]. constructor.
  - cbn. by apply map_Forall_insert_2.
  - intros j Hj. cbn in *. rewrite lookup_insert_ne by lia. by apply H2.
  - rewrite R2. unfold clients_res. cbn. by rewrite spread_insert.
  - rewrite R3. unfold clients_conns. cbn. by rewrite spread_insert.
Qed.
Lemma process_bound p own W i c : process_ok p own W -> p_clients p !! i = Some c -> (i < p_next p)%nat.
Proof. intros H Hi. destruct (decide (p_next p <= i)%nat) as [Hle|]; [|lia]. by rewrite (pr_next _ _ _ H i Hle) in Hi. Qed.

(** Between the calls every client has its endpoint. *)
Definition opened (p : Process) : Prop := map_Forall (fun _ => has_endpoint) (p_clients p).
Definition resting p own W : Prop := process_ok p own W /\ opened p.
(** From rest to rest. *)
Definition upholds {A} (m : M NetOp Process A) : Prop := forall p own W,
  resting p own W -> lwp m (fun _ p' own' W' => resting p' own' W') p own W.
(** The same, when the client [i] is there. *)
Definition upholds_at {A} (i : nat) (m : M NetOp Process A) : Prop := forall p own W,
  resting p own W -> is_Some (p_clients p !! i) -> lwp m (fun _ p' own' W' => resting p' own' W') p own W.

Lemma upholds_ret {A} (a : A) : upholds (ret a).
Proof. intros p own W H. by lstep. Qed.
Lemma upholds_fail {A} e : upholds (fail e : M NetOp Process A).
Proof. intros p own W H. by lstep. Qed.
Lemma upholds_require b e : upholds (require b e).
Proof. intros p own W H. by lstep. Qed.
Lemma upholds_not_null {A} (o : option A) : upholds (not_null o).
Proof. destruct o; [apply upholds_ret|apply upholds_fail]. Qed.
Lemma upholds_bind {A B} (m : M NetOp Process A) (k : A -> M NetOp Process B) :
  upholds m -> (forall a, upholds (k a)) -> upholds (bind m k).
Proof.
  intros Hm Hk p own W H. lstep. eapply lwp_mono; [by apply Hm|]. intros [e|a] p' own' W' H'; [done|by apply Hk].
Qed.
Lemma upholds_log {A} (m : M NetOp Process A) : upholds m -> upholds (log_only m).
Proof. intros Hm p own W H. apply lwp_log_only. by apply Hm. Qed.

(** Checks of the arguments, then the client. *)
Lemma at_require {A} i b e (k : unit -> M NetOp Process A) : (forall u, upholds_at i (k u)) -> upholds_at i (bind (require b e) k).
Proof. intros Hk p own W H Hi. lstep. lstep; [by apply Hk|done]. Qed.
Lemma at_not_null {A B} i (o : option B) (k : B -> M NetOp Process A) : (forall x, upholds_at i (k x)) -> upholds_at i (bind (not_null o) k).
Proof. intros Hk p own W H Hi. lstep. destruct o; cbn [not_null]; lstep; [by apply Hk|done]. Qed.
Lemma at_some {A} i (k : nat -> M NetOp Process A) : upholds_at i (k i) -> upholds_at i (bind (not_null (Some i)) k).
Proof. intros Hk p own W H Hi. lstep. cbn [not_null]. lstep. by apply Hk. Qed.
Lemma at_check_list {A} i o (k : list HixlOneSideOpDesc -> M NetOp Process A) : (forall x, upholds_at i (k x)) -> upholds_at i (bind (check_list o) k).
Proof. intros Hk p own W H Hi. lstep. destruct o as [[|x l]|]; cbn [check_list]; lstep; [done|by apply Hk|done]. Qed.

(** ** A method of a client that is there *)
Lemma lwp_on_client {A} i c (m : M NetOp HixlCSClient A) (P : Status + A -> HixlCSClient -> Prop)
    (Q : Status + A -> Process -> list HcRes -> list Conn -> Prop) p own W :
  process_ok p own W -> p_clients p !! i = Some c -> cwp m P (c <| cl_px := p_px p |>) ->
  (forall o p' own' W' c', process_ok p' own' W' -> p_clients p' = <[i := c']> (p_clients p) -> p_next p' = p_next p ->
     P o c' -> Q o p' own' W') ->
  lwp (on_client i m) Q p own W.
Proof.
  intros Hp Hi Hm HQ. unfold on_client. eapply lwp_zoom; [by rewrite Hi|]. cbn beta.
  eapply lwp_mono; [eapply lwp_at_rest; [by apply process_split|exact Hm]|]. intros o c' own' W' [R HP].
  eapply HQ; [eapply process_join; [exact Hp|by eapply process_bound|exact R]|done..].
Qed.
Lemma cwp_keeps {A} (m : M NetOp HixlCSClient A) (Q : Status + A -> HixlCSClient -> Prop) s :
  keeps has_endpoint m -> has_endpoint s -> cwp m Q s -> cwp m (fun o s' => Q o s' /\ has_endpoint s') s.
Proof.
  intros Hk Hs Hm Hw O W0 h Hl. eapply wp_mono; [apply (wp_keeps has_endpoint); [exact Hk|exact Hs|by apply Hm]|].
  intros o s' h' [(own & W & Hl' & R & HQ) He]. by exists own, W.
Qed.
Lemma at_client {A} i (m : M NetOp HixlCSClient A) :
  keeps has_endpoint m -> (forall c, has_endpoint c -> cwp m (fun _ _ => True) c) -> upholds_at i (on_client i m).
Proof.
  intros Hk Hm p own W [Hp Ho] [c Hi]. pose proof (Ho i c Hi : has_endpoint c) as He.
  eapply lwp_on_client; [done|done|apply cwp_keeps; [done|done|by apply Hm]|]. intros o p' own' W' c' Hp' E _ [_ He'].
  split; [done|]. unfold opened. rewrite E. by apply map_Forall_insert_2.
Qed.

Lemma lwp_delete_client i c (Q : Status + unit -> Process -> list HcRes -> list Conn -> Prop) p own W :
  process_ok p own W -> p_clients p !! i = Some c ->
  (forall p' own' W', process_ok p' own' W' -> p_clients p' = delete i (p_clients p) -> p_next p' = p_next p -> Q (inr tt) p' own' W') ->
  lwp (delete_client i) Q p own W.
Proof using Hnet Hhc Hcli Hash.
  intros Hp Hi HQ. unfold delete_client. lstep. unfold on_client. eapply lwp_zoom; [by rewrite Hi|]. cbn beta.
  eapply lwp_delete; [by apply process_split|]. intros c' own' W' Eo Ew. lstep.
  match goal with |- Q _ ?p' _ _ => assert (Ed : p_clients p' = delete i (p_clients p)) by (cbn; by rewrite delete_insert_eq) end.
  pose proof (process_bound _ _ _ _ _ Hp Hi) as Hb. destruct Hp as [H1 H2 H3 H4]. apply HQ; [|exact Ed|done]. constructor.
  - rewrite Ed. by apply map_Forall_delete.
  - intros j Hj. rewrite Ed. cbn in Hj. rewrite lookup_delete_ne by lia. by apply H2.
  - unfold clients_res. by rewrite Ed, Eo.
  - unfold clients_conns. by rewrite Ed, Ew.
Qed.

Lemma upholds_Create desc config : upholds (HixlCSClientCreate desc config).
Proof using Hnet Hhc Hcli Hash.
  unfold HixlCSClientCreate. do 5 (apply upholds_bind; [apply upholds_not_null|intros ?]).
  do 3 (apply upholds_bind; [apply upholds_require|intros ?]). intros p own W [Hp Ho]. lstep. calm_call. intros made.
  lstep. lstep; [|done]. lstep. lstep. lstep. lstep. lstep. lstep. 
  set (p1 := p <| p_clients ::= _ |> <| p_next ::= S |>).
  assert (Hn : p_clients p !! p_next p = None) by by apply (pr_next _ _ _ Hp).
  assert (Hi : p_clients p1 !! p_next p = Some (HixlCSClient_new (p_px p))) by (cbn; apply lookup_insert_eq).
  assert (Hp1 : process_ok p1 own W).
  { destruct Hp as [H1 H2 H3 H4]. assert (Ed : delete (p_next p) (p_clients p) = p_clients p) by by apply delete_id. constructor.
    - apply map_Forall_insert_2; [apply client_wf_new|done].
    - intros j Hj. cbn in *. rewrite lookup_insert_ne by lia. apply H2. lia.
    - rewrite H3. unfold clients_res. cbn. rewrite spread_insert, Ed. done.
    - rewrite H4. unfold clients_conns. cbn. rewrite spread_insert, Ed. done. }
  eapply (lwp_on_client _ _ _ (fun o c => forall u, o = inr u -> has_endpoint c)); [exact Hp1|exact Hi|by apply cwp_Create|].
  intros [e|[]] p2 own2 W2 c2 Hp2 E2 _ He2.
  - eapply lwp_delete_client; [done|by rewrite E2, lookup_insert_eq|]. intros p3 own3 W3 Hp3 E3 _. split; [done|].
    unfold opened. rewrite E3, E2. cbn. rewrite delete_insert_eq, delete_insert_eq. by apply map_Forall_delete.
  - lstep. split; [done|]. unfold opened. rewrite E2. cbn. rewrite insert_insert_eq. by apply map_Forall_insert_2; [eapply He2|].
Qed.

(** A destroyed client is gone. *)
Definition without (i : nat) p p' : Prop := p_clients p' = delete i (p_clients p) /\ p_next p' = p_next p.
Lemma lwp_Destroy i p own W : resting p own W ->
  lwp (HixlCSClientDestroy (Some i)) (fun _ p' own' W' => resting p' own' W' /\ without i p p') p own W.
Proof using Hnet Hhc Hcli Hash.
  intros [Hp Ho]. unfold HixlCSClientDestroy. cbn [not_null]. do 4 lstep.
  destruct (p_clients p !! i) as [c|] eqn:Hi; [|lstep; split; [done|]; split; [by rewrite delete_id|done]].
  lstep. lstep.
  eapply (lwp_on_client _ _ _ (fun _ _ => True)); [done|done|by apply cwp_Destroy|]. intros o p1 own1 W1 c1 Hp1 E1 N1 _.
  assert (Hdel : lwp (delete_client i) (fun _ p' own' W' => resting p' own' W' /\ without i p p') p1 own1 W1).
  { eapply lwp_delete_client; [done|by rewrite E1, lookup_insert_eq|]. intros p2 own2 W2 Hp2 E2 N2.
    assert (E : p_clients p2 = delete i (p_clients p)) by by rewrite E2, E1, delete_insert_eq.
    split; [|split; [done|by rewrite N2]]. split; [done|]. unfold opened. rewrite E. by apply map_Forall_delete. }
  destruct o as [e|st]; [exact Hdel|]. lstep; exact Hdel.
Qed.

Lemma upholds_call k : upholds (client_call k).
Proof using Hnet Hhc Hcli Hjson Hhead Hash.
  assert (Halive : forall A i (m : M NetOp Process A), upholds_at i m -> upholds (alive i (any_status m))).
  { intros A i m Hm p own W Hp. unfold alive. do 2 lstep. destruct (p_clients p !! i) as [c|] eqn:Hi; [|by lstep].
    apply lwp_log_only. apply Hm; [done|by eexists]. }
  destruct k; cbn [client_call]; [by apply upholds_log, upholds_Create|apply Halive..|].
  8: { apply upholds_log. intros p own W H. eapply lwp_mono; [by apply lwp_Destroy|]. by intros o p' own' W' []. }
  - apply at_some, at_not_null. intros m. apply at_client; [apply kp_RegMem|]. intros c Hc. by apply cwp_RegMemLocked.
  - apply at_some, at_require. intros []. apply at_client; [apply kp_UnRegMem|]. intros c Hc. by apply cwp_UnRegMem.
  - apply at_some, at_check_list. intros l. apply at_client; [apply kp_BatchAsync|]. intros c Hc. by apply cwp_BatchTransferAsync.
  - apply at_some, at_check_list. intros l. apply at_client; [apply kp_BatchSync|]. intros c Hc. by apply cwp_BatchTransferSync.
  - apply at_some, at_require. intros []. apply at_client; [apply kp_CheckStatus|]. intros c Hc. by apply cwp_CheckStatus.
  - apply at_some. intros p own W H Hi. lstep. lstep. eapply lwp_mono.
    { apply (at_client client (Connect timeout_ms)); [apply kp_Connect|intros c Hc; by apply cwp_Connect|exact H|exact Hi]. }
    intros [e|[]] p' own' W' H'; [lstep|lstep]; done.
  - apply at_some, at_client; [apply kp_GetRemoteMem|]. intros c Hc. by apply cwp_GetRemoteMem.
Qed.

Lemma upholds_run ks : upholds (run_calls ks).
Proof using Hnet Hhc Hcli Hjson Hhead Hash.
  unfold run_calls. induction ks as [|k ks IH]; cbn [for_each]; [apply upholds_ret|]. apply upholds_bind; [apply upholds_call|]. by intros.
Qed.

(** Whatever happens, the caller is told a status. *)
Definition tells (m : M NetOp Process unit) : Prop := forall Q p h, wp m Q p h -> wp m (fun o p' h' => Q o p' h' /\ o = inr tt) p h.
Lemma tells_log {A} (m : M NetOp Process A) : tells (log_only m).
Proof. intros Q p h. unfold wp, log_only, bind, attempt. by destruct (m p h) as [[[a|e|] p'] h']. Qed.
Lemma tells_call k : tells (client_call k).
Proof.
  assert (Halive : forall i (m : M NetOp Process unit), tells m -> tells (alive i m)).
  { intros i m Hm Q p h. unfold alive, bind, get. unfold wp at 1 2. destruct (p_clients p !! i); [|done]. apply Hm. }
  destruct k; cbn [client_call]; try apply Halive; apply tells_log.
Qed.
Lemma tells_run ks : tells (run_calls ks).
Proof.
  unfold run_calls. induction ks as [|k ks IH]; intros Q p h H; cbn [for_each] in *; [by split|].
  assert (H1 : wp (client_call k) (fun o p' h' => match o with
    | inr _ => wp (for_each ks client_call) Q p' h' | inl e => Q (inl e) p' h' end) p h).
  { revert H. unfold wp at 1 2, bind. by destruct (client_call k p h) as [[[a|e|] p'] h']. }
  apply wp_bind. apply tells_call in H1. eapply wp_mono; [exact H1|]. intros o p' h' [H' ->]. by apply IH.
Qed.

(** ** Destroying all of them *)
Definition destroy_all : M NetOp Process unit := let* p := get in run_calls (ADestroy <$> seq 0 (p_next p)).

Lemma lwp_destroy_list l p own W : resting p own W ->
  lwp (run_calls (ADestroy <$> l)) (fun _ p' own' W' => resting p' own' W' /\
    (forall i, p_clients p !! i = None \/ i ∈ l -> p_clients p' !! i = None)) p own W.
Proof using Hnet Hhc Hcli Hash.
  revert p own W. induction l as [|i l IH]; intros p own W H; cbn [run_calls for_each fmap list_fmap].
  { lstep. split; [done|]. by intros i [?|?%elem_of_nil]. }
  lstep. apply lwp_log_only. eapply lwp_mono; [by apply lwp_Destroy|]. intros o p1 own1 W1 [H1 [E1 _]].
  eapply lwp_mono; [by apply IH|]. intros o2 p2 own2 W2 [H2 Hn]. split; [done|]. intros j Hj. apply Hn. rewrite E1.
  destruct (decide (j = i)) as [->|Hne]; [left; apply lookup_delete_eq|]. destruct Hj as [Hj|[->|Hj]%elem_of_cons]; [|done|by right].
  left. by rewrite lookup_delete_ne.
Qed.
Lemma lwp_destroy_all p own W : resting p own W ->
  lwp destroy_all (fun _ p' own' W' => p_clients p' = ∅ /\ own' = [] /\ W' = []) p own W.
Proof using Hnet Hhc Hcli Hash.
  intros H. unfold destroy_all. do 2 lstep. eapply lwp_mono; [by apply lwp_destroy_list|]. intros o p' own' W' [[Hp _] Hn].
  assert (E : p_clients p' = ∅).
  { apply map_eq. intros i. rewrite lookup_empty. apply Hn. destruct (decide (p_next p <= i)%nat) as [Hle|]; [left|right; apply elem_of_seq; lia].
    by apply (pr_next _ _ _ (proj1 H)). }
  destruct Hp as [_ _ H3 H4]. unfold clients_res, clients_conns in *. rewrite E, spread_empty in *.
  split_and!; [done|by apply Permutation_nil_r|by apply Permutation_nil_r].
Qed.

Lemma wp_program ks : wp (run_calls ks) (fun o p h => o = inr tt /\ exists own W, ledger own W h /\ resting p own W) Process_new [].
Proof using Hnet Hhc Hcli Hjson Hhead Hash.
  eapply wp_mono; [apply tells_run, (upholds_run ks Process_new [] []); [split; [apply process_ok_new|apply map_Forall_empty]|apply ledger_nil]|].
  intros o p h [(own & W & Hl & HR) ->]. split; [done|]. by exists own, W.
Qed.



End Api.

(** * A client of the reference system *)

(** The longest array inside. *)
Fixpoint widest (j : Json) : nat :=
  match j with
  | JArray l => foldr (fun x n => widest x `max` n)%nat (length l) l
  | JObject l => foldr (fun x n => widest x.2 `max` n)%nat 0%nat l
  | _ => 0%nat
  end.
Lemma foldr_max_ge {A} (f : A -> nat) n l x : x ∈ l -> (f x <= foldr (fun x n => f x `max` n)%nat n l)%nat.
Proof. induction l as [|y l IH]; [by intros ?%elem_of_nil|]. intros [->|H]%elem_of_cons; cbn; [lia|]. apply IH in H. lia. Qed.
Lemma foldr_max_base {A} (f : A -> nat) n l : (n <= foldr (fun x n => f x `max` n)%nat n l)%nat.
Proof. induction l; cbn; lia. Qed.
Lemma widest_inside x j : inside x j -> (widest x <= widest j)%nat.
Proof.
  induction 1 as [j|x j l Hj _ IH|x k j l Hj _ IH]; [done|etrans; [exact IH|]..]; cbn.
  - by apply (foldr_max_ge widest).
  - by apply (foldr_max_ge (fun x => widest x.2) 0%nat l (k, j)).
Qed.

(** A text that is read there has forty bytes, and its arrays at most two elements. *)
#[export] Instance net_ref_json_laws tls oom input : JsonLaws (net_ref tls oom input).
Proof.
  intros text h j l. unfold reply_of. cbn. destruct (Nat.leb_spec (length text) 39) as [|E]; [done|].
  intros Hj H%widest_inside. assert (j = ref_json) as -> by congruence. cbn [widest] in H.
  pose proof (foldr_max_base widest (length l) l). unfold ref_json in H. cbn in H. lia.
Qed.
#[export] Instance net_ref_head_laws tls oom input : HeadLaws (env := net_ref tls oom input).
Proof. intros p h. by split. Qed.

Section Sample.
#[local] Existing Instance ge_math_ref.
#[local] Existing Instance securec_ref.
#[local] Instance ref_abi : HcommAbi := {| sizeof_MatchEndpointReq := 160; sizeof_CreateChannelReq := 200 |}.
#[local] Instance ref_client_abi : ClientAbi := {| cc_pad1 := 0; cc_pad2 := 0; cc_pad3 := 0 |}.
#[local] Instance same_order : PointerHash := fun l => l.
#[local] Instance same_order_laws : PointerHashLaws same_order.
Proof. intros l. reflexivity. Qed.

(** What the server answers: the endpoint is matched, one memory, the channel is made. *)
Definition sample_replies : list Z :=
  CtrlMsgHeader_bytes (header_of 32) ++ CtrlMsgType_bytes kMatchEndpointResp ++
  MatchEndpointResp_bytes 0 0 {| mer_result := SUCCESS; mer_dst_ep_handle := 9; mer_port := 77; mer_channel_index := 1 |} ++
  CtrlMsgHeader_bytes (header_of 40) ++ CtrlMsgType_bytes kGetRemoteMemResp ++ replicate 40 32 ++
  CtrlMsgHeader_bytes (header_of 4) ++ CtrlMsgType_bytes kCreateChannelResp ++ CreateChannelResp_bytes {| ccr_result := SUCCESS |}.
Lemma sample_replies_bytes : Forall is_byte sample_replies.
Proof. apply Forall_forall. intros b Hb. apply (Forall_forall (fun b => (0 <=? b) && (b <? 256) = true) sample_replies) in Hb; [unfold is_byte; lia|].
  by vm_compute; repeat constructor. Qed.

Definition sample_desc : HixlClientDesc := {|
  hcd_local_endpoint := Some sample_endpoint; hcd_remote_endpoint := Some sample_endpoint;
  hcd_server_ip := Some "127.0.0.1"; hcd_server_port := 1000; hcd_tc := 132; hcd_sl := 4 |}.
Definition sample_ops : list HixlOneSideOpDesc := [ {| od_remote_buf := 8192; od_local_buf := 4096; od_len := 64 |} ].
(** Connect, register, and write twice: the first write is never asked for. *)
Definition sample_program : list ClientCall :=
  [ACreate (Some sample_desc) (Some {| global_resource_config := None |}); AConnect 0 1000;
   ARegMem 0 None (Some {| cm_type := COMM_MEM_TYPE_DEVICE; cm_addr := 4096; cm_size := 4096 |});
   ABatchAsync false 0 (Some sample_ops); ABatchSync true 0 (Some sample_ops) 100].

#[local] Instance sample_env : Environment NetOp := net_ref false false sample_replies.
#[local] Instance sample_net_laws : NetLaws sample_env := net_ref_laws false false _ sample_replies_bytes.
#[local] Instance sample_hc_laws : HcLaws sample_env := net_ref_hc_laws false false _.
#[local] Instance sample_cli_laws : CliLaws sample_env := net_ref_cli_laws false false _.
#[local] Instance sample_json_laws : JsonLaws sample_env := net_ref_json_laws false false _.
#[local] Instance sample_head_laws : HeadLaws := net_ref_head_laws false false _.

(** A connected client with one transfer in flight, which holds the slot 5, its handle 7,
    the host flag 6 and the device buffer 8; the second one has given back what it took.
    The buffer 2 is a descriptor of the server's memory. *)
Definition sample_res : list HcRes := [REp 1; RCh false 3; RReg 1 4; RSlot 0 5; RHost 7; RPin 6; RDev 8; RHost 2].
Definition sample_facts (p : Process) (h : History NetOp) : Prop :=
  refused h = ∅ /\ open_fds h = {[1]} /\ clients_res p = sample_res /\
  exists c, p_clients p !! 0%nat = Some c /\ is_connected_ (cl_settings c) = true /\ map fst (device_handles (cl_device c)) = [7].
Lemma sample_run : let '(o, p, h) := run_calls sample_program Process_new [] in o = Ret tt /\ sample_facts p h.
Proof. vm_compute. split_and!; try reflexivity. eexists. split_and!; reflexivity. Qed.
(** What [wp] says of this run. *)
Lemma sample_wp (Q : Status + unit -> Process -> History NetOp -> Prop) :
  wp (run_calls sample_program) Q Process_new [] ->
  let '(_, p, h) := run_calls sample_program Process_new [] in Q (inr tt) p h /\ sample_facts p h.
Proof.
  unfold wp. intros H. pose proof sample_run as E. revert H E.
  destruct (run_calls sample_program Process_new []) as [[o p] h]. intros H [-> E]. by split.
Qed.



(** The slots whose stream was aborted. *)
Definition aborted (h : History NetOp) : list Z :=
  omap (fun e => match e with Ev (Cli (PoolAbort slot)) _ => Some (h_slot_index slot) | _ => None end) h.
End Sample.
