(* ===== verification/KernelPlan.v ===== *)
(** The kernels that a device transfer launches: where the list is cut, what each kernel
    is given, and when the stream waits for a notify. *)

From Stdlib Require Import Lia.
From S2P Require Import Prelude StdMap Effects Runtime Wire Hcomm MemStore TransferPool DeviceKernel ClientRt Net NetReference RtReference HostRegister Endpoint GlobalConfig ClientState HostTransfer DeviceTransfer.

(** * The plan *)

(** A kernel: the first descriptor, how many, and whether the stream then waits. *)
Record Chunk := { ck_offset : Z; ck_num : Z; ck_wait : bool }.

(** A kernel begins at every multiple of 128 in each logical batch. *)
Definition starts (batch o : Z) : bool := (o mod batch) mod kMaxKernelBatchSize =? 0.
Definition chunk_at (list_num batch o : Z) : Chunk :=
  let n := Z.min kMaxKernelBatchSize (Z.min (batch - o mod batch) (list_num - o)) in
  {| ck_offset := o; ck_num := n; ck_wait := (batch - o mod batch - n =? 0) || (o + n =? list_num) |}.
Definition plan_from (list_num batch o : Z) : list Chunk :=
  chunk_at list_num batch <$> List.filter (starts batch) (seqZ o (list_num - o)).
Definition kernel_plan (list_num batch : Z) : list Chunk := plan_from list_num batch 0.
Definition covered (c : Chunk) : list Z := seqZ (ck_offset c) (ck_num c).

Lemma filter_none {A} (f : A -> bool) l : (forall x, x ∈ l -> f x = false) -> List.filter f l = [].
Proof.
  induction l as [|x l IH]; intros H; [done|]. cbn. rewrite H by by left. apply IH. intros y Hy. apply H. by right.
Qed.

Section Plan.
Context (list_num batch : Z).
Hypothesis batch_pos : 1 <= batch.
Let size (o : Z) : Z := ck_num (chunk_at list_num batch o).

Lemma size_pos o : o < list_num -> 1 <= size o /\ size o <= list_num - o /\ size o <= batch - o mod batch /\ size o <= 128.
Proof using batch_pos. intros Ho. unfold size. cbn. pose proof (Z.mod_pos_bound o batch ltac:(lia)). unfold kMaxKernelBatchSize. lia. Qed.

(** Inside a kernel none begins. *)
Lemma not_started o j : 0 <= o < list_num -> starts batch o = true -> o < j < o + size o -> starts batch j = false.
Proof using batch_pos.
  intros Ho Hs Hj. destruct (size_pos o) as (H1 & H2 & H3 & H4); [lia|]. unfold starts in *. apply Z.eqb_eq in Hs. apply Z.eqb_neq.
  unfold kMaxKernelBatchSize in *. pose proof (Z.mod_pos_bound o batch ltac:(lia)).
  assert (E : j mod batch = o mod batch + (j - o)).
  { symmetry. apply (Z.mod_unique_pos _ _ (o / batch)); [lia|]. pose proof (Z.div_mod o batch). lia. }
  rewrite E, <- Z.add_mod_idemp_l, Hs by lia. rewrite Z.mod_small; lia.
Qed.
(** The next kernel begins where one ends. *)
Lemma next_starts o : 0 <= o < list_num -> starts batch o = true ->
  o + size o = list_num \/ starts batch (o + size o) = true.
Proof using batch_pos.
  intros Ho Hs. destruct (size_pos o) as (H1 & H2 & H3 & H4); [lia|]. pose proof (Z.mod_pos_bound o batch ltac:(lia)).
  assert (Hc : size o = 128 \/ size o = batch - o mod batch \/ size o = list_num - o) by (unfold size; cbn; unfold kMaxKernelBatchSize; lia).
  unfold starts in *. apply Z.eqb_eq in Hs. unfold kMaxKernelBatchSize in *. pose proof (Z.div_mod o batch).
  destruct (Z.eq_dec (size o) (batch - o mod batch)) as [E|Hne].
  - right. replace (o + size o) with ((o / batch + 1) * batch) by lia. by rewrite Z.mod_mul by lia.
  - destruct Hc as [E|[E|E]]; [|lia|left; lia]. right. apply Z.eqb_eq.
    replace ((o + size o) mod batch) with (o mod batch + 128); [by rewrite <- Z.add_mod_idemp_l, Hs by lia|].
    apply (Z.mod_unique_pos _ _ (o / batch)); lia.
Qed.
(** What is left of the batch after it. *)
Lemma next_remaining o : 0 <= o < list_num ->
  let rem := batch - o mod batch - size o in
  o + size o = list_num \/ (if rem =? 0 then batch else rem) = batch - (o + size o) mod batch.
Proof using batch_pos.
  intros Ho rem. destruct (size_pos o) as (H1 & H2 & H3 & H4); [lia|]. pose proof (Z.mod_pos_bound o batch ltac:(lia)).
  pose proof (Z.div_mod o batch). right. destruct (Z.eqb_spec rem 0) as [E|E]; unfold rem in *.
  - replace (o + size o) with ((o / batch + 1) * batch) by lia. rewrite Z.mod_mul; lia.
  - replace ((o + size o) mod batch) with (o mod batch + size o); [lia|]. apply (Z.mod_unique_pos _ _ (o / batch)); lia.
Qed.

Lemma plan_step o : 0 <= o < list_num -> starts batch o = true ->
  plan_from list_num batch o = chunk_at list_num batch o :: plan_from list_num batch (o + size o).
Proof using batch_pos.
  intros Ho Hs. destruct (size_pos o) as (H1 & H2 & H3 & H4); [lia|]. unfold plan_from.
  replace (list_num - o) with (1 + (size o - 1) + (list_num - (o + size o))) by lia.
  rewrite !seqZ_app, !List.filter_app by lia. rewrite (filter_none _ (seqZ (o + 1) _)).
  2:{ intros j Hj%elem_of_seqZ. apply (not_started o); [done|done|lia]. }
  replace (o + (1 + (size o - 1))) with (o + size o) by lia. rewrite (seqZ_cons o 1), (seqZ_nil _ (Z.pred 1)) by lia. cbn [List.filter]. by rewrite Hs.
Qed.
End Plan.

(** The kernels take every descriptor once, in order, at most 128 each and none across
    the end of a logical batch; the stream waits after the last one of each batch. *)
Lemma plan_from_covers list_num batch o : 1 <= batch -> 0 <= o <= list_num -> o = list_num \/ starts batch o = true ->
  mjoin (covered <$> plan_from list_num batch o) = seqZ o (list_num - o).
Proof.
  intros Hb Ho Hs. remember (Z.to_nat (list_num - o)) as n eqn:En. revert o Ho Hs En. induction (lt_wf n) as [n _ IH]. intros o Ho Hs ->.
  destruct (Z.eq_dec o list_num) as [->|Hne]; [unfold plan_from; by rewrite seqZ_nil by lia|].
  assert (Hs' : starts batch o = true) by (destruct Hs; [lia|done]). destruct (size_pos list_num batch Hb o) as (H1 & H2 & _); [lia|].
  rewrite plan_step by (done || lia). cbn [fmap list_fmap mjoin list_join]. set (k := ck_num (chunk_at list_num batch o)) in *.
  change (covered (chunk_at list_num batch o)) with (seqZ o k).
  rewrite (IH (Z.to_nat (list_num - (o + k)))); [|lia|lia| |done].
  - rewrite <- seqZ_app by lia. f_equal. lia.
  - destruct (next_starts list_num batch Hb o) as [E|E]; [lia|done|by left|by right].
Qed.
Lemma plan_chunks list_num batch c : 1 <= batch -> c ∈ kernel_plan list_num batch ->
  1 <= ck_num c <= 128 /\ ck_offset c / batch = (ck_offset c + ck_num c - 1) / batch /\
  (ck_wait c = true <-> (ck_offset c + ck_num c) mod batch = 0 \/ ck_offset c + ck_num c = list_num).
Proof.
  intros Hb (o & -> & Ho)%list_elem_of_fmap. apply list_elem_of_In, List.filter_In in Ho as [Ho _].
  apply list_elem_of_In, elem_of_seqZ in Ho. destruct (size_pos list_num batch Hb o) as (H1 & H2 & H3 & H4); [lia|].
  pose proof (Z.mod_pos_bound o batch ltac:(lia)). pose proof (Z.div_mod o batch).
  change (ck_wait (chunk_at list_num batch o)) with
    ((batch - o mod batch - ck_num (chunk_at list_num batch o) =? 0) || (o + ck_num (chunk_at list_num batch o) =? list_num)).
  cbn [ck_offset chunk_at] in *. set (k := ck_num _) in *. split; [done|].
  split; [apply (Z.div_unique_pos _ _ _ (o mod batch + k - 1)); lia|]. rewrite orb_true_iff, !Z.eqb_eq.
  destruct (Z.eq_dec (o mod batch + k) batch) as [E|E].
  - replace (o + k) with ((o / batch + 1) * batch) by lia. rewrite Z.mod_mul by lia. split; [by left|]. left. lia.
  - assert (E' : (o + k) mod batch = o mod batch + k) by (symmetry; apply (Z.mod_unique_pos _ _ (o / batch)); lia). lia.
Qed.

(** * What a launch does *)
Inductive KernelStep :=
| KFunc (dev : Z) (is_get : bool)
| KParam (param : HixlOneSideOpParam)
| KLaunch (stream timeout_s : Z)
| KWait (notify stream timeout_ms : Z).
Definition step_of (e : Event NetOp) : list KernelStep :=
  match e with
  | Ev (Cli (PoolGetDeviceKernelFunc dev is_get)) _ => [KFunc dev is_get]
  | Ev (Cli (AclKernelArgsAppend _ param)) _ => [KParam param]
  | Ev (Cli (AclLaunchKernel _ stream _ timeout)) _ => [KLaunch stream timeout]
  | Ev (Cli (AclWaitAndResetNotify notify stream timeout)) _ => [KWait notify stream timeout]
  | _ => []
  end.
(** The oldest first. *)
Fixpoint kernel_steps (h : History NetOp) : list KernelStep :=
  match h with [] => [] | e :: h => kernel_steps h ++ step_of e end.

(** What the kernel of a chunk is given: its descriptors in the buffer, and where to
    read and write the flag when the stream waits for it. *)
Definition chunk_param (s : HixlCSClient) (ep : Endpoint) (buf : Z) (slot : SlotHandle) (c : Chunk) : HixlOneSideOpParam := {|
  op_thread := h_thread slot; op_channel := client_channel_handle_ (cl_settings s); op_list_num := ck_num c;
  op_flag_size := if ck_wait c then h_notify_len slot else 0;
  op_desc_list_addr := buf + ck_offset c * sizeof_HixlOneSideOpDesc;
  op_remote_flag_addr := if ck_wait c then device_remote_flag_addr_ (cl_remote s) else 0;
  op_local_flag_addr := if ck_wait c then h_notify_addr slot else 0;
  op_notify_id := if ck_wait c then h_notify_id slot else 0;
  op_use_notify_record := if ed_protocol (endpoint_ ep) =? COMM_PROTOCOL_HCCS then 1 else 0 |}.
Definition launch_steps (is_get : bool) (slot : SlotHandle) (param : HixlOneSideOpParam) (wait : bool) : list KernelStep :=
  [KFunc (h_device_id slot) is_get; KParam param; KLaunch (h_stream slot) kNotifyDefaultWaitTimeS] ++
  if wait then [KWait (h_notify slot) (h_stream slot) kCustomTimeoutMs] else [].

(** From [h0]: all of the steps, or when it failed the first of them. *)
Definition performed {A} (all : list KernelStep) (h0 : History NetOp) (o : Status + A) (h : History NetOp) : Prop :=
  match o with
  | inr _ => kernel_steps h = kernel_steps h0 ++ all
  | inl _ => exists l, l `prefix_of` all /\ kernel_steps h = kernel_steps h0 ++ l
  end.
(** The slot as it was, but for [n] more tasks. *)
Definition launched_on (i : nat) (slot : SlotHandle) (n : Z) (d d' : DeviceSide) : Prop :=
  device_handles d' = device_handles d /\
  exists o', shared_slots d' !! i = Some o' /\ add_launched 0 (ss_slot o') = add_launched n slot.

Section Launch.
Context {codes : AclCodes} {env : Environment NetOp}.
Implicit Types (d : DeviceSide) (s : HixlCSClient) (h : History NetOp).

(** The handle [x] is there, with the slot [i]. *)
Definition handle_on (hd : Z) (x : DeviceCompleteHandle) (i : nat) d : Prop :=
  std_find hd (device_handles d) = Some x /\ dh_shared_slot x = Some i.

Lemma wp_dev_handle hd x (Q : Status + DeviceCompleteHandle -> DeviceSide -> History NetOp -> Prop) d h :
  std_find hd (device_handles d) = Some x -> Q (inr x) d h -> wp (dev_handle hd) Q d h.
Proof. intros E HQ. unfold dev_handle. apply wp_bind, wp_get. by rewrite E. Qed.
Lemma wp_slot_object i o (Q : Status + SharedSlot -> DeviceSide -> History NetOp -> Prop) d h :
  shared_slots d !! i = Some o -> Q (inr o) d h -> wp (slot_object i) Q d h.
Proof. intros E HQ. unfold slot_object. apply wp_bind, wp_get. by rewrite E. Qed.
Lemma wp_handle_slot hd x i o (Q : Status + SlotHandle -> DeviceSide -> History NetOp -> Prop) d h :
  handle_on hd x i d -> shared_slots d !! i = Some o -> Q (inr (ss_slot o)) d h -> wp (handle_slot hd) Q d h.
Proof.
  intros [E1 E2] Eo HQ. unfold handle_slot. apply wp_bind. eapply wp_dev_handle; [done|]. rewrite E2.
  apply wp_bind. by eapply wp_slot_object.
Qed.
Lemma wp_chk {S} rc (Q : Status + unit -> S -> History NetOp -> Prop) (s : S) h :
  (forall o, Q o s h) -> wp (chk_acl rc) Q s h.
Proof. intros HQ. unfold chk_acl. case_match; [apply wp_ret|apply wp_fail]; apply HQ. Qed.

Lemma add_launched_fields n m a b : add_launched n a = add_launched m b ->
  h_device_id a = h_device_id b /\ h_stream a = h_stream b /\ h_thread a = h_thread b /\ h_notify a = h_notify b /\
  h_notify_id a = h_notify_id b /\ h_notify_addr a = h_notify_addr b /\ h_notify_len a = h_notify_len b /\
  u64 (h_launched_tasks a + n) = u64 (h_launched_tasks b + m).
Proof. by intros [=]. Qed.
Lemma add_launched_more n m k a b : add_launched n a = add_launched m b -> add_launched (n + k) a = add_launched (m + k) b.
Proof.
  unfold add_launched. intros [= ? ? ? ? ? ? ? ? ? ? ? ? E ?]. f_equal; [done..| |done].
  rewrite !Z.add_assoc. unfold u64, wrap in *. rewrite <- Z.add_mod_idemp_l, E by lia. by rewrite Z.add_mod_idemp_l by lia.
Qed.
Lemma add_launched_twice n k a : add_launched n (add_launched k a) = add_launched (k + n) a.
Proof. unfold add_launched. cbn. f_equal. unfold u64, wrap. rewrite Z.add_mod_idemp_l by lia. by rewrite Z.add_assoc. Qed.

Ltac performed_now :=
  cbn [performed kernel_steps step_of]; rewrite ?app_nil_r, <- ?app_assoc;
  first [reflexivity | exists []; split; [by apply prefix_nil|by rewrite app_nil_r] | eexists; split; [|reflexivity]; by eexists].

Lemma wp_LaunchDeviceKernel is_get hd x i o n slot param wait Q d h :
  handle_on hd x i d -> shared_slots d !! i = Some o -> add_launched 0 (ss_slot o) = add_launched n slot ->
  (forall r d' h', performed (launch_steps is_get slot param wait) h r h' ->
     (forall u, r = inr u -> launched_on i slot (n + op_list_num param) d d') -> Q r d' h') ->
  wp (LaunchDeviceKernel is_get hd param wait) Q d h.
Proof.
  intros Hh Eo El HQ. destruct (add_launched_fields _ _ _ _ El) as (F1 & F2 & _ & F4 & _).
  assert (HE : forall e h', performed (launch_steps is_get slot param wait) h (inl e : Status + unit) h' -> Q (inl e) d h').
  { intros e h' Hp. by apply HQ. }
  unfold LaunchDeviceKernel. apply wp_bind. eapply wp_dev_handle; [apply Hh|]. destruct Hh as [Hf Ei].
  rewrite Ei. apply wp_bind, wp_require; [intros _|done].
  apply wp_bind. eapply wp_handle_slot; [done|done|]. rewrite F1, F2, F4.
  apply wp_bind, wp_call. intros pool _. apply wp_bind, wp_require; [intros _|intros _; apply HE; performed_now].
  apply wp_bind, wp_call. intros func _. apply wp_bind, wp_require; [intros _|intros _; apply HE; performed_now].
  apply wp_bind, wp_call. intros [rc args] _. apply wp_bind, wp_chk. intros [e|[]]; [apply HE; performed_now|].
  apply wp_bind, wp_call. intros rc1 _. apply wp_bind, wp_chk. intros [e|[]]; [apply HE; performed_now|].
  apply wp_bind, wp_call. intros rc2 _. apply wp_bind, wp_chk. intros [e|[]]; [apply HE; performed_now|].
  apply wp_bind, wp_call. intros rc3 _. apply wp_bind, wp_chk. intros [e|[]]; [apply HE; performed_now|].
  apply wp_bind. unfold count_launched. apply wp_bind. eapply wp_dev_handle; [done|]. rewrite Ei.
  apply wp_bind. eapply wp_slot_object; [done|]. apply wp_modify.
  set (d' := d <| shared_slots ::= _ |>). assert (Hd : launched_on i slot (n + op_list_num param) d d').
  { split; [done|]. eexists. split; [apply lookup_insert_eq|]. cbn. rewrite add_launched_twice.
    rewrite Z.add_0_r, <- (Z.add_0_l (op_list_num param)). by apply add_launched_more. }
  destruct wait.
  - apply wp_bind, wp_call. intros rc4 _. apply wp_chk. intros r. apply HQ; [destruct r; performed_now|done].
  - apply wp_ret, HQ; [performed_now|done].
Qed.

Lemma wp_BuildDeviceChunkParam hd x i o n slot ep c (Q : Status + HixlOneSideOpParam -> HixlCSClient -> History NetOp -> Prop) s h :
  handle_on hd x i (cl_device s) -> shared_slots (cl_device s) !! i = Some o -> add_launched 0 (ss_slot o) = add_launched n slot ->
  local_endpoint_ s = Some ep ->
  Q (inr (chunk_param s ep (dh_dev_op_desc_buf x) slot c)) s h -> (forall e, Q (inl e) s h) ->
  wp (BuildDeviceChunkParam hd (ck_offset c) (ck_num c) (ck_wait c)) Q s h.
Proof.
  intros Hh Eo El Hep HQ HE. destruct (add_launched_fields _ _ _ _ El) as (_ & _ & F3 & _ & F5 & F6 & F7 & _).
  assert (Es : s <| cl_device := cl_device s |> = s) by by destruct s.
  unfold BuildDeviceChunkParam. apply wp_bind. eapply wp_zoom; [done|]. eapply wp_dev_handle; [apply Hh|]. rewrite Es.
  apply wp_bind. eapply wp_zoom; [done|]. eapply wp_handle_slot; [done|done|]. rewrite Es, F3, F5, F6, F7.
  apply wp_bind, wp_get, wp_bind. unfold the_endpoint. apply wp_bind, wp_get. rewrite Hep. apply wp_ret, wp_bind.
  destruct c as [off k []]; [apply wp_require; [intros _|done]|]; apply wp_ret, HQ.
Qed.

(** ** The loop *)
Section Loop.
Context (is_get : bool) (hd : Z) (x : DeviceCompleteHandle) (i : nat) (o : SharedSlot) (ep : Endpoint) (list_num : Z) (s : HixlCSClient).
Let batch : Z := batch_limit kDefaultMaxTransferCountPerBatch (cl_settings s).
Hypothesis Hx : handle_on hd x i (cl_device s).
Hypothesis Ho : shared_slots (cl_device s) !! i = Some o.
Hypothesis Hep : local_endpoint_ s = Some ep.
Hypothesis Hn : 0 < list_num.
Hypothesis Hb : 1 <= batch.

Definition chunk_steps (c : Chunk) : list KernelStep :=
  launch_steps is_get (ss_slot o) (chunk_param s ep (dh_dev_op_desc_buf x) (ss_slot o) c) (ck_wait c).
Definition plan_steps (l : list Chunk) : list KernelStep := mjoin (chunk_steps <$> l).

(** Before the kernel at [off]: the kernels before it were launched. *)
Definition at_chunk (h0 : History NetOp) (off rem : Z) s' (h : History NetOp) : Prop :=
  0 <= off <= list_num /\ (off = list_num \/ (starts batch off = true /\ rem = batch - off mod batch)) /\
  (exists d', s' = s <| cl_device := d' |> /\ launched_on i (ss_slot o) off (cl_device s) d') /\
  exists steps, kernel_steps h = kernel_steps h0 ++ steps /\
    plan_steps (kernel_plan list_num batch) = steps ++ plan_steps (plan_from list_num batch off).

Lemma performed_after {A B} h0 h h' (steps l rest all : list KernelStep) (r : Status + A) :
  kernel_steps h = kernel_steps h0 ++ steps -> all = steps ++ l ++ rest -> performed l h r h' ->
  match r with
  | inl e => performed all h0 (inl e : Status + B) h'
  | inr _ => kernel_steps h' = kernel_steps h0 ++ steps ++ l
  end.
Proof.
  intros E -> Hp. destruct r as [e|a]; cbn [performed] in *.
  - destruct Hp as (l' & [k ->] & ->). exists (steps ++ l'). rewrite E, !app_assoc. split; [|done].
    rewrite <- !app_assoc. by apply prefix_app, prefix_app_r.
  - by rewrite Hp, E, app_assoc.
Qed.

Lemma wp_chunk_round h0 off rem s' h : at_chunk h0 off rem s' h ->
  wp (chunk_round is_get hd list_num batch (off, rem)) (fun r s'' h' =>
    match r with
    | inl e => performed (plan_steps (kernel_plan list_num batch)) h0 (inl e : Status + unit) h'
    | inr (inr _) => off = list_num /\ at_chunk h0 off rem s'' h'
    | inr (inl (off', rem')) => off < off' /\ at_chunk h0 off' rem' s'' h'
    end) s' h.
Proof using Hx Ho Hep Hb.
  intros H. pose proof H as (Hoff & Hat & (d' & -> & Hd & o' & Eo' & El) & steps & E1 & E2). unfold chunk_round.
  destruct (Z.leb_spec list_num off) as [Hle|Hlt]; [apply wp_ret; split; [lia|done]|]. cbv zeta.
  destruct Hat as [|[Hs ->]]; [lia|]. destruct (size_pos list_num batch Hb off Hlt) as (K1 & K2 & K3 & _).
  rewrite plan_step in E2 by (done || lia). set (c := chunk_at list_num batch off) in *.
  assert (Hfail : forall e h1, performed (chunk_steps c) h (inl e : Status + unit) h1 ->
    performed (plan_steps (kernel_plan list_num batch)) h0 (inl e : Status + unit) h1).
  { intros e h1. by apply (performed_after (B := unit) _ _ _ _ _ _ _ (inl e) E1 E2). }
  assert (Hx' : handle_on hd x i d') by (destruct Hx as [A B]; split; [by rewrite Hd|done]).
  apply wp_bind. eapply (wp_BuildDeviceChunkParam _ _ _ _ _ _ _ c); [done|done|done|done| |].
  2:{ intros e. apply Hfail. performed_now. }
  apply wp_bind. eapply wp_zoom; [done|]. eapply wp_LaunchDeviceKernel; [done|done|done|].
  intros r d2 h2 Hp Hl. apply (performed_after (B := unit) _ _ _ _ _ _ _ _ E1 E2) in Hp as Hp'. destruct r as [e|[]]; [done|].
  apply wp_ret. change (Z.min kMaxKernelBatchSize (Z.min (batch - off mod batch) (list_num - off))) with (ck_num c).
  split; [lia|]. destruct (Hl tt eq_refl) as (Hh2 & o2 & Eo2 & El2). split; [lia|]. split.
  { destruct (next_starts list_num batch Hb off) as [?|?]; [lia|done|by left|].
    destruct (next_remaining list_num batch Hb off) as [?|?]; [lia|by left|by right]. }
  split; [exists d2; split; [done|]; split; [by rewrite Hh2|by exists o2]|].
  exists (steps ++ chunk_steps c). split; [done|]. rewrite E2. unfold plan_steps. cbn [fmap list_fmap mjoin list_join]. by rewrite <- app_assoc.
Qed.

Lemma wp_launch_plan h0 :
  wp (LaunchDeviceChunkedKernels is_get hd list_num) (fun r s' h' =>
    performed (plan_steps (kernel_plan list_num batch)) h0 r h' /\
    (r = inr tt -> exists d', s' = s <| cl_device := d' |> /\ launched_on i (ss_slot o) list_num (cl_device s) d')) s h0.
Proof using Hx Ho Hep Hn Hb.
  unfold LaunchDeviceChunkedKernels. apply wp_bind, wp_get. fold batch. cbv zeta.
  apply (wp_loop _ (fun m st s' h' => m = list_num - st.1 /\ at_chunk h0 st.1 st.2 s' h')) with (n := list_num).
  - intros m [off rem] s' h' [-> (? & _)]. cbn in *. lia.
  - intros m [off rem] s' h' [-> Hat]. eapply wp_mono; [by apply wp_chunk_round|].
    intros [e|[[off' rem']|[]]] s'' h'' H'; [split; [done|by intros [=]]| |].
    + destruct H' as [Hlt H']. exists (list_num - off'). cbn [fst snd]. split; [lia|by split].
    + destruct H' as [-> (_ & _ & Hd & steps & E1 & E2)]. split; [|by intros _]. cbn [performed].
      rewrite E1, E2. unfold plan_from. rewrite Z.sub_diag. cbn. by rewrite app_nil_r.
  - lia.
  - split; [cbn; lia|]. cbn [fst snd]. split; [lia|]. split.
    { right. pose proof Hb. rewrite !Zmod_0_l. split; [unfold starts; by rewrite Zmod_0_l|lia]. }
    split; [|by exists []; rewrite app_nil_r]. exists (cl_device s). split; [by destruct s|]. split; [done|by exists o].
Qed.
End Loop.
End Launch.


(** 300 descriptors in logical batches of 200, put: three kernels, two waits. *)
Definition sample_slot : SlotHandle := ref_slot 0 5.
Definition sample_handle : DeviceCompleteHandle :=
  {| dh_magic := kDeviceCompleteMagic; dh_shared_slot := Some 0%nat; dh_host_flag := 6; dh_dev_op_desc_buf := 4096 |}.
Definition sample_device_endpoint : Endpoint := Endpoint_new no_endpoint false.
Definition sample_client : HixlCSClient :=
  let s := HixlCSClient_new [] in
  s <| local_endpoint_ := Some sample_device_endpoint |>
    <| cl_settings ::= (fun st => st <| transfer_supported_ := true |>
         <| global_config_ := {| comm_resource_config_ := CommResourceConfig_new; fabric_memory_ := UbMemoryConfig_new; tls_config_ := TlsConfig_new;
              transfer_config_ := {| max_transfer_count_per_batch := 200; max_transfer_count_per_batch_configured := true |} |} |>) |>
    <| cl_remote ::= (fun r => r <| device_remote_flag_addr_ := 8192 |>) |>
    <| cl_device ::= (fun d => d <| device_handles := [(7, sample_handle)] |> <| active_slot_ := Some 0%nat |>
         <| shared_slots := {[0%nat := {| ss_slot := sample_slot; ss_use_count := 2 |}]} |>) |>.
Definition parts (l : list KernelStep) : list (Z * Z) :=
  omap (fun k => match k with KParam p => Some (op_desc_list_addr p, op_list_num p) | KWait n _ _ => Some (n, -1) | _ => None end) l.

