(* ===== verification/RemoteMemExchange.v ===== *)
(** The list of a server's memory between the two sides: what the server writes is what
    the client reads. *)

From Stdlib Require Import Lia.
From S2P Require Import Prelude Effects External Wire Hcomm MemStore ClientRt Net NetReference CtrlConn ConnMsg HostRegister Endpoint GlobalConfig RemoteMem MsgHandler CsServer.

(** Memory is read as bytes, as many as were asked for. *)
Class ExportLaws (abi : ServerAbi) : Prop :=
  export_bytes_ok : forall p n, 0 <= n -> length (export_bytes p n) = Z.to_nat n /\ Forall is_byte (export_bytes p n).

(** A description as the server has it: its numbers fit their types. *)
Record sendable (d : HixlMemDesc) : Prop := {
  sd_type : is_u32 (cm_type (hmd_mem d));
  sd_addr : is_u64 (cm_addr (hmd_mem d));
  sd_size : is_u64 (cm_size (hmd_mem d));
  sd_dev : is_u64 (hmd_registered_dev_mem d);
  sd_len : is_u32 (hmd_export_len d)
}.
(** The bytes that describe it to HCOMM. *)
Definition exported {abi : ServerAbi} (d : HixlMemDesc) : list Z :=
  if negb (is_null (hmd_export_desc d)) && (0 <? hmd_export_len d) then export_bytes (hmd_export_desc d) (hmd_export_len d) else [].
(** What the client has for it: the same memory, with the bytes in a buffer of its own. *)
Record received {abi : ServerAbi} (h : History NetOp) (d d' : HixlMemDesc) : Prop := {
  rc_mem : hmd_mem d' = hmd_mem d;
  rc_tag : hmd_tag d' = hmd_tag d;
  rc_dev : hmd_registered_dev_mem d' = hmd_registered_dev_mem d;
  rc_imported : hmd_is_imported d' = false;
  rc_len : hmd_export_len d' = Z.of_nat (length (exported d));
  rc_bytes : if exported d is [] then hmd_export_desc d' = nullptr
             else hmd_export_desc d' <> nullptr /\ Ev (Cli (StoreBytes (hmd_export_desc d') (exported d))) tt ∈ h
}.

(** An allocation failed. *)
Definition out_of_memory (h : History NetOp) : Prop := exists n, Ev (Cli (Malloc n)) nullptr ∈ h.
(** The description was read, or there was no memory for it. *)
Definition read_or_not {abi : ServerAbi} (d : HixlMemDesc) (h : History NetOp) (o : Status + unit) (d' : HixlMemDesc) (h' : History NetOp) : Prop :=
  (exists t, h' = t ++ h) /\ match o with inr _ => received h' d d' | inl e => e = FAILED /\ out_of_memory h' end.

Section Exchange.
Context {nl : Nlohmann} {Hnl : NlohmannLaws nl} {env : Environment NetOp} {abi : ServerAbi} {Habi : ExportLaws abi}.
Implicit Types (h : History NetOp) (d : HixlMemDesc).

Lemma received_grow h t d d' : received h d d' -> received (t ++ h) d d'.
Proof.
  intros [H1 H2 H3 H4 H5 H6]. constructor; [done..|]. destruct (exported d); [done|]. destruct H6. split; [done|]. apply elem_of_app. by right.
Qed.

Lemma wp_or_throw {S A} (x : A) (Q : Status + A -> S -> History NetOp -> Prop) o s h :
  o = Some x -> Q (inr x) s h -> wp (or_throw o) Q s h.
Proof. by intros ->. Qed.

Lemma wp_ParseMemObject {S} m (Q : Status + CommMem -> S -> History NetOp -> Prop) s h :
  is_u32 (cm_type m) -> is_u64 (cm_addr m) -> is_u64 (cm_size m) -> Q (inr m) s h -> wp (ParseMemObject (CommMem_json m)) Q s h.
Proof using Hnl.
  intros H1 H2 H3 HQ. unfold ParseMemObject. apply wp_bind, wp_require; [intros _|done].
  do 3 (apply wp_bind; eapply wp_or_throw; [reflexivity|]; apply wp_bind; eapply wp_or_throw;
        [first [by apply json_uint32_int|by apply json_uint64_int]|]).
  apply wp_ret. by destruct m.
Qed.

Lemma wp_export_bytes_of {S} bs (Q : Status + list Z -> S -> History NetOp -> Prop) s h :
  Forall is_byte bs -> Q (inr bs) s h -> wp (export_bytes_of (JInt <$> bs)) Q s h.
Proof using Hnl.
  intros Hb. revert Q. induction Hb as [|b bs Hb _ IH]; intros Q HQ; [done|]. cbn [fmap list_fmap export_bytes_of].
  unfold is_byte in Hb. apply wp_bind. unfold export_byte. apply wp_bind, wp_require; [intros _|done].
  apply wp_bind. eapply wp_or_throw; [apply json_int32_int; unfold is_int32; lia|].
  apply wp_bind, wp_require; [intros _|lia]. apply wp_ret, wp_bind, IH. by apply wp_ret.
Qed.

(** The descriptor of an item that was read from a description. *)
Definition item_of (d : HixlMemDesc) : HixlMemDesc := set_dev_mem (hmd_registered_dev_mem d) (set_mem_tag (hmd_mem d) (hmd_tag d) HixlMemDesc_new).

Lemma wp_Fill d h : sendable d ->
  wp (FillExportDescFromJsonField (JArray (JInt <$> exported d))) (read_or_not d h) (item_of d) h.
Proof using Hnl Habi.
  intros Hd. unfold FillExportDescFromJsonField. apply wp_bind, wp_get. cbn [item_of hmd_export_desc set_dev_mem set_mem_tag HixlMemDesc_new].
  apply wp_bind, wp_ret, wp_bind, wp_modify.
  assert (Hlen : exported d <> [] -> Z.of_nat (length (exported d)) = hmd_export_len d /\ Forall is_byte (exported d)).
  { unfold exported. case_match eqn:E; [|done]. apply andb_true_iff in E as [_ E%Z.ltb_lt].
    destruct (export_bytes_ok (hmd_export_desc d) (hmd_export_len d)) as [-> Hb]; [lia|]. intros _. split; [lia|done]. }
  destruct (exported d) as [|b bs] eqn:Ex.
  - apply wp_ret. split; [by exists []|]. constructor; rewrite ?Ex; done.
  - destruct Hlen as [Hl Hb]; [done|]. destruct (JInt <$> b :: bs) as [|j js] eqn:El; [done|]. cbv zeta. rewrite <- El, length_fmap.
    rewrite Hl. apply wp_bind, wp_call. intros buf _.
    apply wp_bind, wp_require; [intros Hbuf|].
    2:{ intros Hbuf%negb_false_iff%Z.eqb_eq. split; [by eexists [_]|]. split; [done|]. rewrite Hbuf. eexists. by left. }
    apply wp_on_fail, wp_bind, wp_export_bytes_of; [done|]. apply wp_bind, wp_call. intros [] _. apply wp_modify.
    split; [by eexists [_; _]|]. constructor; rewrite ?Ex; [done|done|done|done| |].
    + cbn [set_export hmd_export_len]. rewrite Hl. apply u32_small, (sd_len d Hd).
    + cbn [set_export hmd_export_desc]. split; [|by left]. intros ->. by cbn in Hbuf.
Qed.

Lemma wp_ParseOneMemDesc d h : sendable d ->
  wp (ParseOneMemDesc (HixlMemDesc_json d)) (read_or_not d h) HixlMemDesc_new h.
Proof using Hnl Habi.
  intros Hd. pose proof (wp_Fill d h Hd) as HF. destruct Hd as [H1 H2 H3 H4 H5]. unfold ParseOneMemDesc.
  apply wp_bind, wp_require; [intros _|done]. apply wp_bind. eapply wp_or_throw; [reflexivity|].
  apply wp_bind, wp_ParseMemObject; [done..|]. apply wp_bind, wp_modify, wp_bind. eapply wp_or_throw; [reflexivity|].
  apply wp_bind, wp_ret, wp_bind, wp_modify, wp_bind.
  assert (Ej : json_find "registered_dev_mem" (HixlMemDesc_json d) =
    if is_null (hmd_registered_dev_mem d) then None else Some (JInt (hmd_registered_dev_mem d))).
  { unfold HixlMemDesc_json. destruct (is_null (hmd_registered_dev_mem d)); reflexivity. }
  rewrite Ej. destruct (is_null (hmd_registered_dev_mem d)) eqn:En.
  - apply wp_ret, wp_bind. eapply wp_or_throw; [reflexivity|]. apply Z.eqb_eq in En. unfold item_of in HF. rewrite En in HF.
    unfold exported in HF. destruct (negb _ && _); exact HF.
  - apply wp_bind. eapply wp_or_throw; [by apply json_uint64_int|]. apply wp_modify, wp_bind. eapply wp_or_throw; [reflexivity|].
    unfold exported in HF. destruct (negb _ && _); exact HF.
Qed.

Lemma wp_free_export {S} d (Q : Status + unit -> S -> History NetOp -> Prop) (s : S) h :
  (forall t, Q (inr tt) s (t ++ h)) -> wp (free_export d) Q s h.
Proof. intros HQ. unfold free_export. case_match; [apply wp_ret, (HQ [])|apply wp_call; intros [] _; apply (HQ [_])]. Qed.
Lemma wp_FreeParsed p h : wp FreeParsedDescs (fun o _ h' => exists t, h' = t ++ h) p h.
Proof.
  unfold FreeParsedDescs. apply wp_bind, wp_get, wp_bind. eapply wp_mono.
  - apply (wp_for_each _ _ (fun _ h' => exists t, h' = t ++ h) (fun _ _ _ => False)); [by exists []|].
    intros d s' h' _ [t ->]. apply wp_free_export. intros t'. exists (t' ++ t). by rewrite app_assoc.
  - intros [e|[]] s' h' H; [done|]. by apply wp_modify.
Qed.

Lemma wp_parse_item d p h : sendable d ->
  wp (parse_item (HixlMemDesc_json d)) (fun o p' h' => (exists t, h' = t ++ h) /\ match o with
    | inr _ => exists d', ps_done p' = ps_done p ++ [d'] /\ received h' d d'
    | inl e => e = FAILED /\ out_of_memory h' end) p h.
Proof using Hnl Habi.
  intros Hd. unfold parse_item. apply wp_bind, wp_modify, wp_bind, wp_on_fail. eapply wp_zoom; [done|].
  eapply wp_mono; [by apply wp_ParseOneMemDesc|]. intros [e|[]] d' h' [[t ->] H].
  - destruct H as [-> [n Hn]]. apply wp_bind, wp_get, wp_bind, wp_free_export. intros t1. eapply wp_mono; [apply wp_FreeParsed|].
    intros o p' h' [t2 ->]. split; [exists (t2 ++ t1 ++ t); by rewrite !app_assoc|]. split; [done|].
    exists n. rewrite !elem_of_app in *. tauto.
  - apply wp_modify. split; [by exists t|]. by exists d'.
Qed.
Lemma wp_parse_items ds p h : Forall sendable ds ->
  wp (for_each (HixlMemDesc_json <$> ds) parse_item) (fun o p' h' => (exists t, h' = t ++ h) /\ match o with
    | inr _ => exists ds', ps_done p' = ps_done p ++ ds' /\ Forall2 (received h') ds ds'
    | inl e => e = FAILED /\ out_of_memory h' end) p h.
Proof using Hnl Habi.
  intros Hds. revert p h. induction Hds as [|d ds Hd Hds IH]; intros p h; cbn [fmap list_fmap for_each].
  - apply wp_ret. split; [by exists []|]. exists []. by rewrite app_nil_r.
  - apply wp_bind. eapply wp_mono; [by apply wp_parse_item|]. intros [e|[]] p1 h1 [[t ->] H]; [split; [by exists t|done]|].
    destruct H as (d' & E1 & R1). eapply wp_mono; [apply IH|]. intros o p2 h2 [[t2 ->] H]. split; [exists (t2 ++ t); by rewrite app_assoc|].
    destruct o as [e|[]]; [done|]. destruct H as (ds' & E2 & R2). exists (d' :: ds'). rewrite E2, E1, <- app_assoc. split; [done|].
    constructor; [by apply received_grow|done].
Qed.

Lemma find_mem_descs result descs :
  json_find "mem_descs" (JObject [("result"%string, JInt result); ("mem_descs"%string, JArray (HixlMemDesc_json <$> descs))]) =
  Some (JArray (HixlMemDesc_json <$> descs)).
Proof. reflexivity. Qed.

End Exchange.

(** * A list of two *)
#[export] Instance ref_nlohmann_laws : NlohmannLaws ref_nlohmann.
Proof.
  constructor; intros z Hz; cbn [json_uint32 json_uint64 json_int32 ref_nlohmann json_of]; unfold is_u32, is_u64, is_int32 in Hz;
    by case_match; [|lia].
Qed.
(** Each byte of memory is that of its address. *)
#[local] Instance sample_server_abi : ServerAbi :=
  {| padding1 := 0; padding2 := 0; export_bytes := fun p n => (fun z => z mod 256) <$> seqZ p n |}.
#[local] Instance sample_export_laws : ExportLaws sample_server_abi.
Proof.
  intros p n Hn. cbn [export_bytes sample_server_abi]. split; [by rewrite length_fmap, length_seqZ|].
  apply Forall_forall. intros b (z & -> & _)%list_elem_of_fmap. apply Z.mod_pos_bound. lia.
Qed.
Definition sample_mem (addr : Z) (tag : string) (desc len dev : Z) : HixlMemDesc :=
  {| hmd_mem := {| cm_type := 1; cm_addr := addr; cm_size := 4096 |}; hmd_is_imported := false; hmd_tag := tag;
     hmd_export_desc := desc; hmd_export_len := len; hmd_registered_dev_mem := dev |}.
Definition sample_mems : list HixlMemDesc := [sample_mem 8192 "kv" 510 3 65536; sample_mem 16384 "" nullptr 0 nullptr].

